(* ===== verification/_CoqProject ===== *)
-Q . S2P
Prelude.v
BitWords.v
Ieee.v
Bitmap.v
PointSlot.v
PointTypes.v
Layout.v
Wire.v
SlotIndex.v
PointWatch.v
ShmStore.v
PoolIndex.v
Routing.v
BatchDirect.v
Rtdb.v
BatchRedis.v
ShmSync.v
Validation.v
Listener.v
Reconnect.v
Calc.v
RuleExec.v
RuleSched.v
RuleParser.v
Dispatch.v
ChannelTask.v
Registers.v
Modbus.v
DataStore.v
ModbusPoints.v
ModbusWrite.v
SlotStores.v
Can.v
Dl645.v
MmsTransport.v
CanClient.v
Zigbee.v
Mms.v
Iec61850.v
Crc16.v
Voltage485.v
Gpio.v
Instances.v
Alarm.v
AlarmMonitor.v
