(* ===== verification/Prelude.v ===== *)
(** * VoltageEMS: a verification library of the data plane

    VoltageEMS is an energy-management system made of Rust services.  comsrv talks
    to field devices (Modbus, IEC 61850, CAN, Zigbee, GPIO, DL/T 645, ...), decodes their registers and
    writes the readings into a shared-memory segment; modsrv reads them, evaluates
    models and rules and sends commands back; alarm, history, gateway and network
    services consume the same data.  This library models the data plane: what
    happens to a reading between the bytes of a device and the readers of the
    segment and of the real-time database, how rules act on it, and what happens to a
    command on its way back to the device.

    ** The parts and how they interact

    A channel task (ChannelTask.v) owns the protocol client of one device.  It polls
    the client, whose codecs (Registers.v, Can.v, Dl645.v) turn bytes into values,
    and reconnects it under the policy of Reconnect.v.  The Modbus client (Modbus.v,
    ModbusWrite.v) is one such client; ModbusPoints.v builds its points from the
    channel configuration and runs it under the task.  The IEC 61850 client is another:
    it frames MMS messages over ISO transport (MmsTransport.v), encodes and decodes them
    (Mms.v) and reads, subscribes to and controls the objects of a server (Iec61850.v).
    The private RS-485 client polls devices over a serial line in frames with a CRC
    (Crc16.v, Voltage485.v), the GPIO client drives digital lines (Gpio.v), the CAN and
    Zigbee clients run tasks of their own that receive frames and broadcast what they
    decode (CanClient.v, Zigbee.v).  The clients keep their latest readings in the slot
    stores of SlotStores.v.
    The task hands the values of a poll cycle to the data store (DataStore.v), which drops
    what is not a finite number and passes the rest
    through the batch write (BatchDirect.v), which finds the slot of each point in
    the forward index (SlotIndex.v, built from the static layout of Layout.v),
    stores it through the segment's writer (ShmStore.v) into a seqlocked slot
    (PointSlot.v), and forwards it along the channel-to-channel routes of the
    routing cache (Routing.v).  A background task copies the slots that changed to the
    real-time database (ShmSync.v, which also holds the swappable layout of the segment).
    Without shared memory the same batch goes to the
    real-time database, at once or through the write buffer (BatchRedis.v, Rtdb.v).
    A write of a watched slot is turned into an event by
    the PointWatch signaler (PointWatch.v), which names the point through the
    reverse index and sends it over a socket in the frames of Wire.v.  The rule engine
    of modsrv runs on ticks and on these events (RuleSched.v); a rule's flow, parsed from the
    editor's document (RuleParser.v), reads points, tests conditions, calculates (Calc.v) and acts (RuleExec.v).  An action is
    dispatched to comsrv through shared memory and a socket (Dispatch.v).  Commands
    come back as notification frames (Wire.v), are filtered and checked by the listener
    (Listener.v) and reach the channel task.  The dynamic pool (Bitmap.v,
    PoolIndex.v) is the second way slots are given out, to channels and to model
    instances at run time.  The registry of model instances (Instances.v) keeps instances, their
    routes and properties in SQLite tables and gives them slots of that pool.  The alarm service reads the published hashes in cycles and
    raises and resolves alerts in its tables (Alarm.v, AlarmMonitor.v), while its HTTP
    handlers change the rules.  Validation.v holds the value and name checks the
    services share, PointTypes.v the point types, qualities and values.

    ** Files and sources (paths under src/)

    - Prelude.v: results and panics, fixed-width integers, little- and big-endian
      bytes, IEEE 754 bit patterns with Rust's casts, string helpers, the tactics
      and the hint database.  BitWords.v: arrays of 64-bit words as sets of bits.
      Ieee.v: the casts between f32, f64 and integers that lose nothing.
    - Bitmap.v: libs/voltage-rtdb-shm/src/core/bitmap.rs (SlotBitmap, SlotBitmapView).
    - PointSlot.v: core/slot.rs (PointSlot, its sequential operations and the step
      relation of the concurrent protocol).
    - PointTypes.v: libs/voltage-core/src/types.rs.
    - Layout.v: libs/voltage-rtdb-shm/src/layout.rs (allocate_layouts).
    - Wire.v: notification.rs, point_watch_event.rs.
    - SlotIndex.v: shared_config.rs (ChannelToSlotIndex), reverse_index.rs.
    - PointWatch.v: subscription_bitmap.rs, point_watch.rs (signaler, drain task).
    - ShmStore.v: core/header.rs, core/slot_io.rs, core/writer.rs, core/reader.rs,
      core/snapshot_save.rs, unified_shm.rs.
    - PoolIndex.v: channel_index.rs, instance_index.rs.
    - Routing.v: libs/voltage-routing/src/routing_cache.rs.
    - BatchDirect.v: libs/voltage-rtdb-shm/src/batch_direct.rs and the records of
      libs/voltage-routing/src/batch.rs.
    - Rtdb.v: libs/voltage-rtdb/src/memory_impl.rs, write_buffer.rs, numfmt.rs, the
      channel writers of lib.rs, the keys of libs/voltage-model/src/keyspace.rs.
    - BatchRedis.v: libs/voltage-routing/src/batch.rs (direct and buffered batches).
    - ShmSync.v: libs/voltage-rtdb-shm/src/shm_handle.rs,
      services/comsrv/src/store/shm_redis_sync.rs.
    - DataStore.v: services/comsrv/src/store/redis_store.rs.
    - Validation.v: libs/voltage-model/src/validation.rs.
    - Calc.v: libs/voltage-calc/src (state.rs, builtin functions, evaluator).
    - RuleExec.v: libs/voltage-rules/src/executor.rs and types.rs, the action writers of
      libs/voltage-routing/src/lib.rs.
    - RuleSched.v: libs/voltage-rules/src/scheduler.rs, point_watch_dispatcher.rs.
    - RuleParser.v: libs/voltage-rules/src/parser.rs, the serde forms of types.rs.
    - Dispatch.v: libs/voltage-rtdb-shm/src/dispatch.rs, notifier.rs.
    - Listener.v: services/comsrv/src/core/channels/shm_listener.rs.
    - Reconnect.v: services/comsrv/src/runtime/reconnect.rs.
    - ChannelTask.v: services/comsrv/src/core/channels/channel_task.rs, types.rs,
      protocols/core/traits.rs, protocols/gateway/runtime.rs.
    - Registers.v: services/comsrv/src/protocols/codec/byte_order.rs,
      protocols/core/data.rs, protocols/core/point.rs, core/channels/converters.rs.
    - Modbus.v: services/comsrv/src/protocols/adapters/modbus_poll.rs, modbus.rs,
      command_batcher.rs, protocols/core/diagnostics.rs; ModbusWrite.v: the theorems on
      its write path.
    - ModbusPoints.v: core/channels/converters.rs, the points of
      libs/voltage-config/src/comsrv.rs, ChannelRuntime for ModbusChannel.
    - Can.v, Dl645.v: libs/voltage-core/src/codec/can.rs and dl645.rs.
    - MmsTransport.v: services/comsrv/src/protocols/adapters/iec61850/transport.rs.
      Mms.v: iec61850/mms.rs.  Iec61850.v: adapters/iec61850.rs, Iec61850Address of
      protocols/core/point.rs, the point conversion of core/channels/channel_creation.rs.
    - SlotStores.v: services/comsrv/src/protocols/core/slot.rs.
    - CanClient.v: protocols/adapters/can/config.rs, decoder.rs, client.rs.
    - Zigbee.v: protocols/adapters/zigbee_codec.rs, zigbee.rs.
    - Crc16.v: the CRC of protocols/adapters/voltage_485.rs and its theory; Voltage485.v: the
      rest of that file and its factory in core/channels/factory.rs.
    - Gpio.v: protocols/adapters/gpio.rs and its factory.
    - Instances.v: services/modsrv/src/instance_manager.rs, instance_routing.rs,
      runtime/dynamic_slot_runtime.rs, the update handler of
      api/instance_management_handlers.rs, over the tables of
      libs/common/src/test_utils/schema.rs.
    - Alarm.v: services/alarmsrv/src/models.rs, db.rs, device_names.rs, broadcast.rs
      (rows, tables, names, messages).  AlarmMonitor.v: monitor.rs and the rule and
      alert handlers of routes.rs, as interleaved tasks.

    ** How the code is represented

    A definition keeps the name of the function it translates, methods prefixed with
    their type (UnifiedWriter_set is UnifiedWriter::set).  Structs are records, enums
    inductive types, [Result] is [result] and a panic the [Panic] of [outcome].  A
    u8, u32, u64 or i64 is a [Z] with its wrap-around written out; slot indices and
    lengths (usize) are [nat]; an f64 or f32 is its bit pattern, computed with by
    Stdlib's SpecFloat.  State is passed explicitly.  The mapped file is one value,
    [Segment]: all handles of a process or of several processes work on the same
    segment, so aliasing between writers and readers is in the model.  Concurrency
    within one slot is the step relation [slot_step]; the tasks of the alarm service
    interleave at their statements, the synchronisation task with the writers of the segment
    at every slot it reads and at the answer of the database, a write being open between its
    value and its dirty mark ([sync_step]), the connection tasks of the command listener at
    every message they receive and at the end of every send ([listener_step]), the tasks of the CAN client
    at every slot they write ([can_step]), the event loops of the Zigbee client between reads
    ([loop_read]); a request to the instance registry is one call, in which every round trip
    to the database may fail ([im_failures]); elsewhere an operation is atomic.  Time is an argument.  Interfaces are classes: [MpscSender] (Tokio's
    bounded queue), [SlotIoWrite] (a writer by slot index), [SlotAllocator] (a
    first-fit allocator), [ChannelRuntime] (a protocol client), [HashRtdb] (the hash
    commands of a database), [ModbusClient] with [ModbusDevice] (the voltage_modbus
    client and what the protocol promises of a device), [CalcWorld] and [RuleWorld]
    (expression evaluation, state store and the services a rule calls),
    [PointConvertible] (the four kinds of configured points), [PointStore] (a store of the
    latest readings), [GpioDriver] and [SysfsFiles] with what they promise; each has an instance
    that the witnesses run.

    Parameters stand for code outside the repository and for the environment: the
    layout hash (FxHasher), parsing of f64 text, hash-map iteration order (any
    permutation), the order of rows that a query does not fix, registered channels and the outcome of a send with its timeout,
    the protocol client, a serial line and a TCP stream as scripts of what arrives, the files
    of sysfs, expression evaluation (evalexpr), regular expressions, the JSON
    texts of serde_json (read back as written within the recursion limit, floats only as far
    as the reader reproduces them), the local calendar, the files of a segment rebuild, the outcome of a socket or database call.

    ** What the theorems show

    - Memory safety of readings (PointSlot, ShmStore): no interleaving of a write and
      a read yields a torn reading while fewer than 2^31 writes complete within one
      attempt (and with exactly 2^31 it can); reads terminate; a value set for a
      point is what any reader gets, nothing else changes; action writers touch only
      C/A points; a created segment opens; snapshots restore what was saved.
    - No aliasing (Layout, Bitmap, PoolIndex, SlotIndex): two points never share a
      slot, comsrv's and modsrv's points never share a cache line, allocation is
      sound, complete and leaks nothing, the shared-memory allocator refines the
      in-process one, the reverse index inverts the forward one.
    - Delivery (BatchDirect, Routing): a poll cycle reaches exactly the slots of its
      points, always returns whatever the routes, never touches points of modsrv; the
      cache serves exactly the configured routes; the buffered batch write with a flush
      leaves the database as the direct one does, and the write buffer loses no
      accepted value in any interleaving with failing flushes.
    - Publication (ShmSync, DataStore): a poll result is in the segment at once and in the
      database after one pass; the task never takes an unpublished reading for published,
      whatever writes, reloads and failures come between; with at most 5120 slots
      the database converges to the segment within 605 passes.  Both rest on what is usually
      the case and not guaranteed by the code ([usual]): sequence numbers do not
      wrap, a rebuilt layout is not at the address the last pass saw, new routes differ in
      their hash from the ones last seen, whose hash was not zero, and no two channel points
      feed one instance point.  A rebuild publishes a coherent layout,
      or keeps the old one, or, when the re-open after the rename fails, keeps the old handle
      with the new file.
    - Rules (Calc, RuleExec, RuleSched, RuleParser): the flow of an accepted document has
      the document's nodes, is well-typed, and its stored text is read back as the same flow;
      executing any flow ends; every action is taken by a node of the path that has just read all its
      data, on a point that node writes; only finite values go to configured targets; cooldowns separate acting
      executions and an unchanged reading does not trigger again; the moving average
      is the average of the last samples.
    - Notification (PointWatch, Wire, Listener): subscriptions are a set; events carry
      the right point; the drain task accounts for every event and reconnects; frames
      and streams round-trip; on every interleaving of the listener's connections the commands accepted for a channel point are
      finite, for registered channels, never repeated and in the wrapping order of their
      sequence numbers; end to end, every command whose dispatch reported delivery
      is accounted for: sent to its channel, or dropped for a stated reason.
    - Devices (Registers, Can, Dl645, Reconnect, ChannelTask): codecs round-trip both
      ways and reject malformed frames; attempts are bounded; auto-recovery is on
      time; an offline channel keeps trying; a silent device is dropped on time.
    - Modbus (Modbus, ModbusWrite, ModbusPoints): the batched poll is equivalent to
      reading every point by itself, a tick of the channel task stores those readings;
      adjustments change only the registers of their points; merged writes equal
      individual ones; converted points are well-typed.
    - IEC 61850 (MmsTransport, Mms, Iec61850): the framer is a queue of messages however the
      stream is cut; requests with short names decode and longer ones do not; responses and
      reports round-trip; a poll reads every point not covered by an active report and
      converts every report once; controls are operated only after a granted select or
      directly where the model says so; reports reach their own data set.
    - Private RS-485 (Crc16, Voltage485): the CRC detects bursts up to 16 bits, double and odd
      errors; a poll reads every device although requests are lost, times out or brings
      damaged frames; a silent line is reopened.
    - CAN and Zigbee (SlotStores, CanClient, Zigbee): both slot stores keep the latest update of
      every point; whatever the interleaving of tasks and calls, a CAN reading is the decoding
      of a received frame, and the latest frames reach a poll; Zigbee frames come out whole
      and in order however the stream is cut, and reach the points configured for them.
    - GPIO (Gpio): controls leave every commanded line at what its last command asks and its
      feedback at that level, a poll reads every input or reports its failure.
    - Model instances (Instances): whatever requests and failures, names stay unique, the
      instances a forest, routes and properties attached to existing instances and the slot
      pool sound; a delete removes a subtree and nothing else; a search finds the names that
      contain the keyword.
    - Alarms (Alarm, AlarmMonitor): in every interleaving of concurrent checks, handlers,
      failures and restarts a rule has at most one alert and every alert a rule; an
      undisturbed cycle leaves alerts for exactly the conditions that hold; handlers
      that do not overlap keep names and points distinct; pending work ends; the pages
      of a listing partition it; rules read the hashes comsrv writes.
    - Deviations found: a command during the reconnect backoff stops reconnection for
      good; update_channel is not atomic; decode_response panics on long payloads; a
      snapshot of another layout is restored into wrong points; finite values above
      the f32 range are written as infinity; signals on numeric registers read zero;
      nested Modbus points are lost; a partly written notification garbles the next
      command; the write buffer grows without bound while flushes fail; an event is
      attributed to every point of a rule; a rule disabled during its check keeps an
      alert for good; overlapping creations duplicate a rule; a late IEC 61850 response shifts
      the readings of all later requests; truncated responses panic; with more than 5120 slots
      the middle of the segment can stay out of the database for good, and so can points
      whose routes are the first to be loaded, or whose routes reuse the address of older ones;
      connections of the listener can reorder commands; a rebuild whose re-open fails leaves the
      old handle on a replaced file; a dead CAN bus is republished as alive; a Zigbee
      gateway that hangs up is never called again; the feedback of an active-low GPIO output is
      inverted; a late RS-485 answer is stored for the wrong device; a renamed model instance is still
      found under its old name, also when another one has it; and others next to their
      theorems.

    ** Bounds and fuel

    [write_channel_batch_direct] recurses with fuel 3: MAX_C2C_CASCADE_DEPTH is 2 and
    every nested call raises the depth of its updates; [batch_direct_total] proves the
    fuel is never exhausted.  [load_consistent] has the retry bound of the source,
    32768.  [print_u32] has fuel 10, the digits of a u32.  [read_frames] runs with the
    length of the stream as fuel.  The Redis batches have fuel 3 for the same reason
    ([redis_batch_total]).  The walk of a rule has the source's limit of 1000 visits;
    [rule_walk_complete] proves that the fuel given to it is enough.  [print_i64] has
    fuel 20, the digits of an i64.  The receive loops of the MMS framer have the bytes that can
    still be read plus one as fuel ([framer_loops_end] proves it is enough), the decoding of
    text the length of the text, the decoding loop of the Zigbee codec the length of its buffer
    plus one ([available_good] and [available_refused] compute its result with that fuel).  The search for
    the descendants of an instance has one turn per instance and one more
    ([collect_loop_spec] proves it ends with them).  All other recursion is structural.

    ** Not modelled, and the plan

    Not modelled: sockets, files, Redis, MQTT and HTTP; SQL beyond the tables, constraints and
    statements of the alarm service and the instance registry; third-party protocol
    stacks; logging; calculate_next_delay (random jitter); hash digests.  Weak memory
    is not modelled: [slot_step] is sequentially consistent.  In the rule engine the
    JSON text syntax and the Redis fallback of the snapshot are left out, in the Modbus
    adapter building the client, in the IEC 61850 adapter the socket (a script of received
    chunks), in the GPIO adapter the calls of tokio-gpiod, in the synchronisation task the timer, in the alarm service the searches,
    exports and the migration, in the instance registry the effects of redis_state.rs (its calls
    are recorded) and requests that overlap.  Left for an
    extension: the DL/T 645 channel of comsrv (its codec is in Dl645.v; the channel is only
    reachable through an unused factory), set_action_point of libs/voltage-routing. *)
From stdpp Require Import base numbers list gmap strings.
From Stdlib Require Import ZArith Lia SpecFloat.

Declare Scope ems_scope.
Delimit Scope ems_scope with ems.
Open Scope ems_scope.

(** * Results and panics

    [result] is Rust's [Result]; [outcome] is a computation that may panic
    (an out-of-range index, a failed [assert!]). *)
Inductive result (A E : Type) : Type :=
| Ok (a : A)
| Err (e : E).
Arguments Ok {A E} a.
Arguments Err {A E} e.

Inductive outcome (A : Type) : Type :=
| Ret (a : A)
| Panic.
Arguments Ret {A} a.
Arguments Panic {A}.

Definition outcome_bind {A B} (m : outcome A) (k : A -> outcome B) : outcome B :=
  match m with
  | Ret a => k a
  | Panic => Panic
  end.

Definition outcome_map {A B} (f : A -> B) (m : outcome A) : outcome B :=
  outcome_bind m (fun a => Ret (f a)).

Definition result_bind {A B E} (m : result A E) (k : A -> result B E) : result B E :=
  match m with
  | Ok a => k a
  | Err e => Err e
  end.

Definition ok_or {A E} (o : option A) (e : E) : result A E :=
  match o with
  | Some a => Ok a
  | None => Err e
  end.

Notation "'let!' x := m 'in' k" := (outcome_bind m (fun x => k))
  (at level 10, x pattern, m at level 100, k at level 200) : ems_scope.
Notation "'let?' x := m 'in' k" := (result_bind m (fun x => k))
  (at level 10, x pattern, m at level 100, k at level 200) : ems_scope.

(** * Machine integers

    A [w]-bit unsigned integer is a [Z] in [0, 2^w).  [wrap w] is the value a
    release build stores: Cargo.toml sets no [overflow-checks] for the release
    profile, so arithmetic wraps. *)
Definition wrap (w z : Z) : Z := (z mod 2 ^ w)%Z.

Definition is_uint (w z : Z) : Prop := (0 <= z < 2 ^ w)%Z.

Definition to_signed (w z : Z) : Z :=
  if (wrap w z <? 2 ^ (w - 1))%Z then wrap w z else (wrap w z - 2 ^ w)%Z.

Definition wrapping_add (w a b : Z) : Z := wrap w (a + b).
Definition wrapping_sub (w a b : Z) : Z := wrap w (a - b).
Definition saturating_sub (a b : Z) : Z := Z.max 0 (a - b).

#[export] Instance is_uint_dec w z : Decision (is_uint w z).
Proof. unfold is_uint. apply _. Defined.

(** ** Bit tests as the code writes them: [(w & (1 << b)) != 0]. *)
Definition bit_test (w b : Z) : bool := negb (Z.land w (Z.shiftl 1 b) =? 0)%Z.
Definition bit_set (w b : Z) : Z := Z.lor w (Z.shiftl 1 b).
Definition not_u64 (w : Z) : Z := Z.lxor w (Z.ones 64).
Definition bit_clear (w b : Z) : Z := Z.land w (not_u64 (Z.shiftl 1 b)).

(** ** Bytes: little- and big-endian images of an [n]-byte integer. *)
Fixpoint to_le_bytes (n : nat) (z : Z) : list Z :=
  match n with
  | O => []
  | S n => wrap 8 z :: to_le_bytes n (Z.shiftr z 8)
  end.

Fixpoint from_le_bytes (bs : list Z) : Z :=
  match bs with
  | [] => 0%Z
  | b :: bs => (b + 256 * from_le_bytes bs)%Z
  end.

Definition to_be_bytes (n : nat) (z : Z) : list Z := reverse (to_le_bytes n z).
Definition from_be_bytes (bs : list Z) : Z := from_le_bytes (reverse bs).

Definition is_bytes (bs : list Z) : Prop := Forall (is_uint 8) bs.

(** * IEEE 754 binary64 and binary32, carried as their bit patterns

    A slot, a wire frame and a register image store [f64::to_bits], so an [f64]
    is the 64-bit integer itself: NaN payloads and signed zeros survive. *)
Section Ieee.
Local Open Scope Z_scope.

Definition f64_exponent (b : Z) : Z := Z.land (Z.shiftr b 52) 0x7FF.
Definition f64_fraction (b : Z) : Z := Z.land b (Z.ones 52).
Definition f64_is_nan (b : Z) : bool :=
  (f64_exponent b =? 0x7FF) && negb (f64_fraction b =? 0).
Definition f64_is_infinite (b : Z) : bool :=
  (f64_exponent b =? 0x7FF) && (f64_fraction b =? 0).
Definition f64_is_finite (b : Z) : bool := negb (f64_exponent b =? 0x7FF).

(** Generic format with [mw] fraction bits and [ew] exponent bits. *)
Definition ieee_prec (mw : Z) : Z := mw + 1.
Definition ieee_emax (ew : Z) : Z := 2 ^ (ew - 1).

Definition sf_of_bits (mw ew b : Z) : spec_float :=
  let s := Z.testbit b (mw + ew) in
  let e := Z.land (Z.shiftr b mw) (Z.ones ew) in
  let m := Z.land b (Z.ones mw) in
  let emin := 3 - ieee_emax ew - ieee_prec mw in
  if e =? Z.ones ew then
    (if m =? 0 then S754_infinity s else S754_nan)
  else if e =? 0 then
    match m with
    | Zpos p => S754_finite s p emin
    | _ => S754_zero s
    end
  else
    match m + 2 ^ mw with
    | Zpos p => S754_finite s p (e - 1 + emin)
    | _ => S754_zero s
    end.

Definition bits_of_sf (mw ew : Z) (f : spec_float) : Z :=
  let emin := 3 - ieee_emax ew - ieee_prec mw in
  let sign (s : bool) := if s then 2 ^ (mw + ew) else 0 in
  match f with
  | S754_zero s => sign s
  | S754_infinity s => sign s + Z.ones ew * 2 ^ mw
  | S754_nan => Z.ones ew * 2 ^ mw + 2 ^ (mw - 1)
  | S754_finite s m e =>
      if Z.pos m <? 2 ^ mw then sign s + Z.pos m
      else sign s + (e - emin + 1) * 2 ^ mw + (Z.pos m - 2 ^ mw)
  end.

Definition f64_to_sf (b : Z) : spec_float := sf_of_bits 52 11 b.
Definition sf_to_f64 (f : spec_float) : Z := bits_of_sf 52 11 f.
Definition f32_to_sf (b : Z) : spec_float := sf_of_bits 23 8 b.
Definition sf_to_f32 (f : spec_float) : Z := bits_of_sf 23 8 f.

Definition f64_mul (a b : Z) : Z := sf_to_f64 (SFmul 53 1024 (f64_to_sf a) (f64_to_sf b)).
Definition f64_add (a b : Z) : Z := sf_to_f64 (SFadd 53 1024 (f64_to_sf a) (f64_to_sf b)).
Definition f64_sub (a b : Z) : Z := sf_to_f64 (SFsub 53 1024 (f64_to_sf a) (f64_to_sf b)).
Definition f64_div (a b : Z) : Z := sf_to_f64 (SFdiv 53 1024 (f64_to_sf a) (f64_to_sf b)).
Definition f64_abs (a : Z) : Z := Z.land a (Z.ones 63).
Definition f64_eqb (a b : Z) : bool := SFeqb (f64_to_sf a) (f64_to_sf b).
Definition f64_ltb (a b : Z) : bool := SFltb (f64_to_sf a) (f64_to_sf b).
Definition f64_leb (a b : Z) : bool := SFleb (f64_to_sf a) (f64_to_sf b).

(** [i as f64] (round to nearest even) and [x as i64] (truncate, saturate,
    NaN to 0), as Rust defines the casts. *)
Definition f64_of_Z (z : Z) : Z := sf_to_f64 (binary_normalize 53 1024 z 0 false).

Definition f64_to_i64 (b : Z) : Z :=
  let clamp z := Z.max (- 2 ^ 63) (Z.min (2 ^ 63 - 1) z) in
  match f64_to_sf b with
  | S754_zero _ | S754_nan => 0
  | S754_infinity s => if s then - 2 ^ 63 else 2 ^ 63 - 1
  | S754_finite s m e =>
      let mag := if 0 <=? e then Z.pos m * 2 ^ e else Z.pos m / 2 ^ (- e) in
      clamp (if s then - mag else mag)
  end.

Definition f64_one : Z := 0x3FF0000000000000.
Definition f64_zero : Z := 0.

(** [x as f64] for an [f32] (exact) and [x as f32] for an [f64] (rounds). *)
Definition f64_of_f32 (b : Z) : Z :=
  match f32_to_sf b with
  | S754_finite s m e => sf_to_f64 (binary_normalize 53 1024 (if s then Z.neg m else Z.pos m) e s)
  | f => sf_to_f64 f
  end.
Definition f32_of_f64 (b : Z) : Z :=
  match f64_to_sf b with
  | S754_finite s m e => sf_to_f32 (binary_normalize 24 128 (if s then Z.neg m else Z.pos m) e s)
  | f => sf_to_f32 f
  end.
End Ieee.

Example f64_42_5 : f64_add (f64_of_Z 42) (f64_div (f64_of_Z 1) (f64_of_Z 2)) = 0x4045400000000000%Z.
Proof. vm_compute. reflexivity. Qed.
Example f64_neg : f64_of_Z (-3) = 0xC008000000000000%Z /\ f64_to_i64 0xC00C000000000000 = (-3)%Z.
Proof. vm_compute. split; reflexivity. Qed.
Example f32_round : f64_of_f32 0x41CC0000 = 0x4039800000000000%Z /\ f32_of_f64 0x4039800000000000 = 0x41CC0000%Z
  /\ f64_of_f32 0x00000001 = 0x36A0000000000000%Z /\ f32_of_f64 0x36A0000000000000 = 1%Z.
Proof. vm_compute. repeat split; reflexivity. Qed.
Example f64_sub_normals : f64_add 1 1 = 2%Z /\ f64_mul 0x0010000000000000 0x3FE0000000000000 = 0x0008000000000000%Z.
Proof. vm_compute. repeat split; reflexivity. Qed.

(** * ASCII strings: [to_lowercase], [to_uppercase] and a match against literals *)
Definition ascii_lower (c : Ascii.ascii) : Ascii.ascii :=
  let n := Ascii.nat_of_ascii c in
  if ((65 <=? n) && (n <=? 90))%nat then Ascii.ascii_of_nat (n + 32) else c.
Definition ascii_upper (c : Ascii.ascii) : Ascii.ascii :=
  let n := Ascii.nat_of_ascii c in
  if ((97 <=? n) && (n <=? 122))%nat then Ascii.ascii_of_nat (n - 32) else c.
Definition map_string (f : Ascii.ascii -> Ascii.ascii) (s : string) : string :=
  String.string_of_list_ascii (map f (String.list_ascii_of_string s)).

Definition one_of (s : string) (names : list string) : bool := existsb (String.eqb s) names.

(** * Automation *)
Create HintDb ems discriminated.
Create Rewrite HintDb ems.

(** Case analysis on the boolean comparisons of a hypothesis or the goal. *)
Ltac bool_cases :=
  repeat match goal with
  | |- context [(?a =? ?b)%Z] => destruct (Z.eqb_spec a b)
  | |- context [(?a <? ?b)%Z] => destruct (Z.ltb_spec a b)
  | |- context [(?a <=? ?b)%Z] => destruct (Z.leb_spec a b)
  | |- context [(?a =? ?b)%nat] => destruct (Nat.eqb_spec a b)
  | |- context [(?a <? ?b)%nat] => destruct (Nat.ltb_spec a b)
  | |- context [(?a <=? ?b)%nat] => destruct (Nat.leb_spec a b)
  end.

(** Turn boolean comparisons in hypotheses into propositions. *)
Ltac bool_hyps :=
  repeat match goal with
  | H : (_ && _) = true |- _ => apply andb_prop in H; destruct H
  | H : (_ || _) = false |- _ => apply orb_false_elim in H; destruct H
  | H : negb _ = true |- _ => apply negb_true_iff in H
  | H : negb _ = false |- _ => apply negb_false_iff in H
  | H : (_ =? _)%Z = true |- _ => apply Z.eqb_eq in H
  | H : (_ =? _)%Z = false |- _ => apply Z.eqb_neq in H
  | H : (_ <? _)%Z = true |- _ => apply Z.ltb_lt in H
  | H : (_ <? _)%Z = false |- _ => apply Z.ltb_ge in H
  | H : (_ <=? _)%Z = true |- _ => apply Z.leb_le in H
  | H : (_ <=? _)%Z = false |- _ => apply Z.leb_gt in H
  | H : (_ =? _)%nat = true |- _ => apply Nat.eqb_eq in H
  | H : (_ =? _)%nat = false |- _ => apply Nat.eqb_neq in H
  | H : (_ <? _)%nat = true |- _ => apply Nat.ltb_lt in H
  | H : (_ <? _)%nat = false |- _ => apply Nat.ltb_ge in H
  | H : (_ <=? _)%nat = true |- _ => apply Nat.leb_le in H
  | H : (_ <=? _)%nat = false |- _ => apply Nat.leb_gt in H
  end.

(** Unfold the range predicate and finish by linear arithmetic. *)
Ltac solve_uint := unfold is_uint in *; lia.

(** * Generic lemmas: integers *)
Section IntLemmas.
Local Open Scope Z_scope.
Implicit Types w z a b : Z.

Lemma wrap_uint w z : 0 <= w -> is_uint w (wrap w z).
Proof. intros Hw. apply Z.mod_pos_bound, Z.pow_pos_nonneg; lia. Qed.

Lemma wrap_small w z : is_uint w z -> wrap w z = z.
Proof. apply Z.mod_small. Qed.

Lemma wrap_add_wrap_l w a b : wrap w (wrap w a + b) = wrap w (a + b).
Proof. unfold wrap. apply Zplus_mod_idemp_l. Qed.

Lemma wrap_eq_diff w a b :
  0 <= w -> wrap w a = wrap w b -> Z.abs (a - b) < 2 ^ w -> a = b.
Proof.
  unfold wrap. intros Hw Heq Hlt.
  assert (Hp : 0 < 2 ^ w) by (apply Z.pow_pos_nonneg; lia).
  pose proof (Z.div_mod a (2 ^ w)) as Ha. pose proof (Z.div_mod b (2 ^ w)) as Hb.
  rewrite Heq in Ha.
  assert (Hq : a - b = 2 ^ w * (a / 2 ^ w - b / 2 ^ w)) by lia.
  rewrite Hq, Z.abs_mul, (Z.abs_eq (2 ^ w)) in Hlt by lia.
  assert (a / 2 ^ w - b / 2 ^ w = 0) by nia. lia.
Qed.

Lemma wrap_parity w z : 1 <= w -> Z.odd (wrap w z) = Z.odd z.
Proof.
  intros Hw. unfold wrap. rewrite <- !Z.bit0_odd. apply Z.mod_pow2_bits_low. lia.
Qed.

Lemma to_signed_range w z :
  1 <= w -> - 2 ^ (w - 1) <= to_signed w z < 2 ^ (w - 1).
Proof.
  intros Hw. unfold to_signed.
  pose proof (wrap_uint w z ltac:(lia)) as Hr. unfold is_uint in Hr.
  assert (H2 : 2 ^ w = 2 * 2 ^ (w - 1)).
  { rewrite <- Z.pow_succ_r by lia. f_equal. lia. }
  destruct (Z.ltb_spec (wrap w z) (2 ^ (w - 1))); lia.
Qed.

Lemma to_signed_wrap w z :
  1 <= w -> - 2 ^ (w - 1) <= z < 2 ^ (w - 1) -> to_signed w (wrap w z) = z.
Proof.
  intros Hw Hz. unfold to_signed, wrap.
  assert (Hp : 0 < 2 ^ (w - 1)) by (apply Z.pow_pos_nonneg; lia).
  assert (H2 : 2 ^ w = 2 * 2 ^ (w - 1)).
  { rewrite <- Z.pow_succ_r by lia. f_equal. lia. }
  rewrite Z.mod_mod by lia.
  destruct (Z.ltb_spec (z mod 2 ^ w) (2 ^ (w - 1))) as [Hlt | Hge].
  - destruct (Z.le_gt_cases 0 z); [apply Z.mod_small; lia |].
    exfalso. rewrite <- (Z.mod_add z 1) in Hlt by lia.
    rewrite Z.mod_small in Hlt by lia. lia.
  - destruct (Z.le_gt_cases 0 z); [rewrite Z.mod_small in Hge by lia; lia |].
    rewrite <- (Z.mod_add z 1) by lia. rewrite Z.mod_small by lia. lia.
Qed.

Lemma wrap_to_signed w z : 0 <= w -> wrap w (to_signed w z) = wrap w z.
Proof.
  intros Hw. unfold to_signed, wrap. assert (0 < 2 ^ w) by (apply Z.pow_pos_nonneg; lia).
  destruct (z mod 2 ^ w <? 2 ^ (w - 1)); [apply Z.mod_mod; lia |].
  replace (z mod 2 ^ w - 2 ^ w) with (z mod 2 ^ w + (-1) * 2 ^ w) by lia.
  rewrite Z.mod_add, Z.mod_mod by lia. done.
Qed.

Lemma shiftl_1_testbit b c : 0 <= b -> 0 <= c -> Z.testbit (Z.shiftl 1 b) c = (b =? c).
Proof.
  intros Hb Hc. rewrite Z.shiftl_1_l. rewrite Z.pow2_bits_eqb by lia. reflexivity.
Qed.

Lemma bit_test_testbit w b : 0 <= b -> bit_test w b = Z.testbit w b.
Proof.
  intros Hb. unfold bit_test.
  destruct (Z.testbit w b) eqn:E; destruct (Z.eqb_spec (Z.land w (Z.shiftl 1 b)) 0) as [H0 | H0];
    simpl; try reflexivity.
  - apply (f_equal (fun z => Z.testbit z b)) in H0.
    rewrite Z.land_spec, E, shiftl_1_testbit, Z.eqb_refl, Z.bits_0 in H0 by lia. discriminate.
  - exfalso. apply H0. apply Z.bits_inj'. intros c Hc.
    rewrite Z.land_spec, shiftl_1_testbit, Z.bits_0 by lia.
    destruct (Z.eqb_spec b c) as [-> |]; [by rewrite E | by rewrite andb_false_r].
Qed.

Lemma bit_test_set w b c :
  0 <= b -> 0 <= c -> bit_test (bit_set w b) c = (b =? c) || bit_test w c.
Proof.
  intros Hb Hc. rewrite !bit_test_testbit by done. unfold bit_set.
  rewrite Z.lor_spec, shiftl_1_testbit by done. apply orb_comm.
Qed.

Lemma bit_test_clear w b c :
  0 <= b -> 0 <= c < 64 -> bit_test (bit_clear w b) c = negb (b =? c) && bit_test w c.
Proof.
  intros Hb Hc. rewrite !bit_test_testbit by lia. unfold bit_clear, not_u64.
  rewrite Z.land_spec, Z.lxor_spec, shiftl_1_testbit, Z.ones_spec_low by lia.
  rewrite xorb_true_r. apply andb_comm.
Qed.

(** Bit fields put side by side with a shift and an or. *)
Lemma lor_shiftl_add h l w : 0 <= w -> is_uint w l -> Z.lor (Z.shiftl h w) l = h * 2 ^ w + l.
Proof.
  intros Hw Hl. assert (H0 : Z.land (Z.shiftl h w) l = 0).
  { apply Z.bits_inj'. intros i Hi. rewrite Z.land_spec, Z.bits_0.
    destruct (Z.lt_ge_cases i w) as [Hlt | Hge]; [by rewrite Z.shiftl_spec_low |].
    rewrite <- (wrap_small w l) by done. unfold wrap. rewrite Z.mod_pow2_bits_high by lia. apply andb_false_r. }
  rewrite <- Z.lxor_lor, <- Z.add_nocarry_lxor, Z.shiftl_mul_pow2 by done. done.
Qed.

Lemma bit_test_0 b : bit_test 0 b = false.
Proof. unfold bit_test. by rewrite Z.land_0_l. Qed.
End IntLemmas.

(** * Generic lemmas: byte images *)
Section ByteLemmas.
Local Open Scope Z_scope.

Lemma length_to_le_bytes n z : length (to_le_bytes n z) = n.
Proof. revert z; induction n; intros; simpl; [done | by rewrite IHn]. Qed.

Lemma to_le_bytes_is_bytes n z : is_bytes (to_le_bytes n z).
Proof.
  revert z; induction n; intros; simpl; constructor; [by apply wrap_uint | apply IHn].
Qed.

Lemma from_to_le_bytes n z : from_le_bytes (to_le_bytes n z) = wrap (8 * Z.of_nat n) z.
Proof.
  revert z; induction n as [|n IH]; intros z; simpl to_le_bytes; simpl from_le_bytes.
  - unfold wrap. by rewrite Z.mod_1_r.
  - rewrite IH. unfold wrap. rewrite Z.shiftr_div_pow2 by lia.
    replace (8 * Z.of_nat (S n)) with (8 + 8 * Z.of_nat n) by lia.
    rewrite Z.pow_add_r by lia.
    rewrite Z.rem_mul_r by (try apply Z.pow_nonzero; lia). lia.
Qed.

Lemma from_le_bytes_range bs :
  is_bytes bs -> is_uint (8 * Z.of_nat (length bs)) (from_le_bytes bs).
Proof.
  unfold is_uint. induction 1 as [|b bs Hb _ IH]; simpl from_le_bytes; simpl length; [lia |].
  replace (8 * Z.of_nat (S (length bs))) with (8 + 8 * Z.of_nat (length bs)) by lia.
  rewrite Z.pow_add_r by lia. unfold is_uint in Hb. lia.
Qed.

Lemma to_from_le_bytes bs : is_bytes bs -> to_le_bytes (length bs) (from_le_bytes bs) = bs.
Proof.
  induction 1 as [|b bs Hb _ IH]; simpl; [done |].
  unfold is_uint in Hb. f_equal.
  - unfold wrap. rewrite Z.mul_comm, Z.mod_add by lia. apply Z.mod_small. lia.
  - rewrite Z.shiftr_div_pow2 by lia. change (2 ^ 8) with 256.
    rewrite Z.mul_comm, Z.div_add by lia. rewrite Z.div_small by lia. exact IH.
Qed.

Lemma length_to_be_bytes n z : length (to_be_bytes n z) = n.
Proof. unfold to_be_bytes. by rewrite length_reverse, length_to_le_bytes. Qed.

Lemma from_to_be_bytes n z : from_be_bytes (to_be_bytes n z) = wrap (8 * Z.of_nat n) z.
Proof. unfold from_be_bytes, to_be_bytes. by rewrite reverse_involutive, from_to_le_bytes. Qed.

Lemma to_be_bytes_is_bytes n z : is_bytes (to_be_bytes n z).
Proof. apply Forall_reverse, to_le_bytes_is_bytes. Qed.

(** The byte image only depends on the integer modulo its width. *)
Lemma to_le_bytes_wrap n z : to_le_bytes n z = to_le_bytes n (wrap (8 * Z.of_nat n) z).
Proof.
  rewrite <- from_to_le_bytes. rewrite <- (length_to_le_bytes n z) at 2.
  by rewrite to_from_le_bytes by apply to_le_bytes_is_bytes.
Qed.

Lemma from_be_bytes_range bs : is_bytes bs -> is_uint (8 * Z.of_nat (length bs)) (from_be_bytes bs).
Proof. intros Hb. unfold from_be_bytes. rewrite <- length_reverse. by apply from_le_bytes_range, Forall_reverse. Qed.

Lemma to_be_bytes_of n z bs :
  is_bytes bs -> length bs = n -> wrap (8 * Z.of_nat n) z = from_be_bytes bs -> to_be_bytes n z = bs.
Proof.
  intros Hb Hl Hz. unfold to_be_bytes. rewrite to_le_bytes_wrap, Hz. unfold from_be_bytes.
  rewrite <- Hl, <- length_reverse, to_from_le_bytes by by apply Forall_reverse. apply reverse_involutive.
Qed.

Lemma is_bytes_app xs ys : is_bytes (xs ++ ys) <-> is_bytes xs /\ is_bytes ys.
Proof. apply Forall_app. Qed.
End ByteLemmas.

(** * Generic lemmas: lists *)
Lemma take_app_length' {A} (xs ys : list A) n : n = length xs -> take n (xs ++ ys) = xs.
Proof. intros ->. apply take_app_length. Qed.

Lemma drop_app_length' {A} (xs ys : list A) n : n = length xs -> drop n (xs ++ ys) = ys.
Proof. intros ->. apply drop_app_length. Qed.

#[export] Hint Resolve wrap_uint to_le_bytes_is_bytes : ems.
#[export] Hint Rewrite length_to_le_bytes length_to_be_bytes : ems.
