(* ===== verification/BitWords.v ===== *)
(** Arrays of 64-bit words used as bit sets.

    Four pieces of the SHM library keep one bit per slot in a [u64] array: the
    slot allocators ([core/bitmap.rs]), the writer's dirty words
    ([core/writer.rs]) and the PointWatch subscription bitmap
    ([subscription_bitmap.rs]).  They address bit [slot] as word [slot / 64],
    bit [slot % 64]; this file holds that addressing, the range loops and the
    counting lemmas they share. *)
From stdpp Require Import base numbers list.
From Stdlib Require Import ZArith Lia.
From S2P Require Import Prelude.

(** Number of words for [n] slots: [n.div_ceil(64)]. *)
Definition div_ceil64 (n : nat) : nat := (n + 63) `div` 64.

Definition bit_idx (slot : nat) : Z := Z.of_nat (slot `mod` 64).

(** The bit of a slot, [false] outside the array. *)
Definition words_test (ws : list Z) (slot : nat) : bool :=
  match ws !! (slot `div` 64) with
  | Some w => bit_test w (bit_idx slot)
  | None => false
  end.

(** Update the word of a slot; [ws[slot / 64]] panics outside the array. *)
Definition words_update (f : Z -> Z -> Z) (ws : list Z) (slot : nat) : outcome (list Z) :=
  match ws !! (slot `div` 64) with
  | Some w => Ret (<[slot `div` 64 := f w (bit_idx slot)]> ws)
  | None => Panic
  end.

(** [for slot in base..base + count { words[slot / 64] op= ... }] *)
Fixpoint words_update_range (f : Z -> Z -> Z) (ws : list Z) (base count : nat)
    : outcome (list Z) :=
  match count with
  | O => Ret ws
  | S count => let! ws' := words_update f ws base in words_update_range f ws' (S base) count
  end.

Definition in_block (base count j : nat) : bool := (base <=? j)%nat && (j <? base + count)%nat.

(** Number of set bits among slots [from, from + n). *)
Fixpoint words_count (ws : list Z) (from n : nat) : nat :=
  match n with
  | O => O
  | S n => Nat.b2n (words_test ws from) + words_count ws (S from) n
  end.

(** * Lemmas *)
Lemma bit_idx_range slot : (0 <= bit_idx slot < 64)%Z.
Proof. unfold bit_idx. pose proof (Nat.mod_upper_bound slot 64). lia. Qed.

Lemma div_ceil64_spec n : n <= 64 * div_ceil64 n.
Proof.
  unfold div_ceil64. pose proof (Nat.div_mod_eq (n + 63) 64).
  pose proof (Nat.mod_upper_bound (n + 63) 64). lia.
Qed.

Lemma word_index_lt slot len : slot < 64 * len <-> slot `div` 64 < len.
Proof.
  split; intros H.
  - apply Nat.Div0.div_lt_upper_bound; lia.
  - pose proof (Nat.div_mod_eq slot 64). pose proof (Nat.mod_upper_bound slot 64). lia.
Qed.

Lemma words_test_update_same ws slot j w :
  ws !! (slot `div` 64) = Some w -> slot `div` 64 = j `div` 64 ->
  forall v, words_test (<[slot `div` 64 := v]> ws) j = bit_test v (bit_idx j).
Proof.
  intros Hw Hdiv v. unfold words_test. rewrite <- Hdiv.
  rewrite list_lookup_insert_eq; [done |]. by eapply lookup_lt_Some.
Qed.

Lemma words_test_update_other ws slot j v :
  slot `div` 64 <> j `div` 64 -> words_test (<[slot `div` 64 := v]> ws) j = words_test ws j.
Proof. intros Hne. unfold words_test. by rewrite list_lookup_insert_ne. Qed.

Lemma slot_eq_div_mod (i j : nat) :
  i `div` 64 = j `div` 64 -> bit_idx i = bit_idx j -> i = j.
Proof.
  unfold bit_idx. intros Hd Hm.
  pose proof (Nat.div_mod_eq i 64). pose proof (Nat.div_mod_eq j 64). lia.
Qed.

(** What one update does to every bit, for an [f] that sets or clears. *)
Section Update.
Variable f : Z -> Z -> Z.
Variable v : bool.
Hypothesis f_spec : forall w b c, (0 <= b < 64)%Z -> (0 <= c < 64)%Z ->
  bit_test (f w b) c = if (b =? c)%Z then v else bit_test w c.

Lemma words_update_spec ws slot :
  slot < 64 * length ws ->
  exists ws', words_update f ws slot = Ret ws' /\ length ws' = length ws /\
    forall j, words_test ws' j = if (slot =? j)%nat then v else words_test ws j.
Proof.
  intros Hlt. apply word_index_lt in Hlt. unfold words_update.
  destruct (lookup_lt_is_Some_2 ws _ Hlt) as [w Hw]. rewrite Hw.
  eexists; split; [done |]. split; [apply length_insert |]. intros j.
  destruct (decide (slot `div` 64 = j `div` 64)) as [Hd | Hd].
  - rewrite (words_test_update_same _ _ _ _ Hw Hd), f_spec by apply bit_idx_range.
    destruct (Nat.eqb_spec slot j) as [-> | Hne]; [by rewrite Z.eqb_refl |].
    destruct (Z.eqb_spec (bit_idx slot) (bit_idx j)) as [Heq | _].
    + by destruct Hne; apply slot_eq_div_mod.
    + unfold words_test. by rewrite <- Hd, Hw.
  - rewrite words_test_update_other by done.
    destruct (Nat.eqb_spec slot j) as [-> | _]; [by destruct Hd | done].
Qed.

Lemma words_update_range_spec count : forall ws base,
  base + count <= 64 * length ws ->
  exists ws', words_update_range f ws base count = Ret ws' /\ length ws' = length ws /\
    forall j, words_test ws' j = if in_block base count j then v else words_test ws j.
Proof.
  induction count as [|count IH]; intros ws base Hle.
  - exists ws. repeat split. intros j. unfold in_block. by bool_cases; simpl; try lia.
  - destruct (words_update_spec ws base) as (ws1 & Hu & Hl & Ht); [lia |].
    destruct (IH ws1 (S base)) as (ws2 & Hu2 & Hl2 & Ht2); [lia |].
    exists ws2. simpl. rewrite Hu. simpl. split; [done |]. split; [lia |].
    intros j. rewrite Ht2, Ht. unfold in_block. bool_cases; simpl; done || lia.
Qed.
End Update.

Lemma bit_set_spec w b c : (0 <= b < 64)%Z -> (0 <= c < 64)%Z ->
  bit_test (bit_set w b) c = if (b =? c)%Z then true else bit_test w c.
Proof. intros. rewrite bit_test_set by lia. by destruct (b =? c)%Z. Qed.

Lemma bit_clear_spec w b c : (0 <= b < 64)%Z -> (0 <= c < 64)%Z ->
  bit_test (bit_clear w b) c = if (b =? c)%Z then false else bit_test w c.
Proof. intros. rewrite bit_test_clear by lia. by destruct (b =? c)%Z. Qed.

(** Counting. *)
Lemma words_count_ext ws ws' n : forall from,
  (forall j, from <= j < from + n -> words_test ws j = words_test ws' j) ->
  words_count ws from n = words_count ws' from n.
Proof.
  induction n as [|n IH]; intros from H; [done |]. simpl.
  rewrite (H from) by lia. f_equal. apply IH. intros j Hj. apply H. lia.
Qed.

Lemma words_count_app ws n m : forall from,
  words_count ws from (n + m) = words_count ws from n + words_count ws (from + n) m.
Proof.
  induction n as [|n IH]; intros from; simpl; [by rewrite Nat.add_0_r |].
  rewrite IH. replace (S from + n) with (from + S n) by lia. lia.
Qed.

Lemma words_count_const ws v n : forall from,
  (forall j, from <= j < from + n -> words_test ws j = v) ->
  words_count ws from n = if v then n else 0.
Proof.
  induction n as [|n IH]; intros from H; [by destruct v |]. simpl.
  rewrite (H from), (IH (S from)) by (intros; try apply H; lia). by destruct v.
Qed.

Lemma words_count_le ws n : forall from, words_count ws from n <= n.
Proof.
  induction n as [|n IH]; intros from; simpl; [lia |].
  specialize (IH (S from)). destruct (words_test ws from); simpl; lia.
Qed.

(** Flipping a whole block moves the count by its size. *)
Lemma words_count_block ws ws' total base count v :
  base + count <= total ->
  (forall j, in_block base count j = true -> words_test ws j = negb v) ->
  (forall j, words_test ws' j = if in_block base count j then v else words_test ws j) ->
  words_count ws' 0 total + (if v then 0 else count) =
  words_count ws 0 total + (if v then count else 0).
Proof.
  intros Hle Hold Hnew.
  replace total with (base + (count + (total - base - count))) by lia.
  rewrite !words_count_app. simpl.
  rewrite (words_count_const ws' v count), (words_count_const ws (negb v) count).
  2: { intros j Hj. apply Hold. unfold in_block. by bool_cases; simpl; try lia. }
  2: { intros j Hj. rewrite Hnew. unfold in_block. by bool_cases; simpl; try lia. }
  rewrite (words_count_ext ws' ws base), (words_count_ext ws' ws (total - base - count)).
  - destruct v; simpl; lia.
  - intros j Hj. rewrite Hnew. unfold in_block. by bool_cases; simpl; try lia.
  - intros j Hj. rewrite Hnew. unfold in_block. by bool_cases; simpl; try lia.
Qed.

Lemma words_test_replicate n slot : words_test (replicate n 0%Z) slot = false.
Proof.
  unfold words_test. destruct (replicate n 0%Z !! _) as [w |] eqn:E; [|done].
  apply lookup_replicate in E as [-> _]. apply bit_test_0.
Qed.
