(* ===== verification/Ieee.v ===== *)
(** Lemmas on IEEE 754 bit patterns: the encoding of [Prelude] is a bijection on
    finite values, rounding is exact on representable numbers, and therefore the
    casts between [f32], [f64] and small integers lose nothing where Rust
    documents them as exact. *)
From stdpp Require Import base numbers list.
From Stdlib Require Import ZArith Lia SpecFloat.
From S2P Require Import Prelude.
Local Open Scope Z_scope.

(** * Digits and shifts *)

Lemma digits2_log2 p : Z.pos (digits2_pos p) = Z.log2 (Z.pos p) + 1.
Proof.
  induction p as [p IH | p IH |]; cbn [digits2_pos]; [| | reflexivity].
  - rewrite Pos2Z.inj_succ, IH, Pos2Z.inj_xI, Z.log2_succ_double by lia. lia.
  - rewrite Pos2Z.inj_succ, IH, Pos2Z.inj_xO, Z.log2_double by lia. lia.
Qed.

Lemma digits2_shift m m0 k :
  0 <= k -> Z.pos m = Z.pos m0 * 2 ^ k -> Z.pos (digits2_pos m) = Z.pos (digits2_pos m0) + k.
Proof. intros Hk Hm. rewrite !digits2_log2, Hm, Z.log2_mul_pow2 by lia. lia. Qed.

Lemma digits2_bounds p n : 0 <= n -> (Z.pos p < 2 ^ n <-> Z.pos (digits2_pos p) <= n).
Proof. intros Hn. rewrite digits2_log2, Z.log2_lt_pow2 by lia. lia. Qed.

Lemma digits2_lower p n : 0 <= n -> (2 ^ n <= Z.pos p <-> n < Z.pos (digits2_pos p)).
Proof. intros Hn. rewrite digits2_log2, Z.log2_le_pow2 by lia. lia. Qed.

Lemma iter_pos_nat {A} (f : A -> A) p : forall x, iter_pos f p x = Nat.iter (Pos.to_nat p) f x.
Proof.
  induction p as [p IH | p IH |]; intros x; cbn [iter_pos]; [| | reflexivity].
  - rewrite !IH, Pos2Nat.inj_xI, <- Nat.iter_succ_r, <- Nat.iter_add. f_equal. lia.
  - rewrite !IH, Pos2Nat.inj_xO, <- Nat.iter_add. f_equal. lia.
Qed.

Lemma shr_exact n : forall m0 m, Z.pos m = Z.pos m0 * 2 ^ Z.of_nat n ->
  Nat.iter n shr_1 (Build_shr_record (Z.pos m) false false) = Build_shr_record (Z.pos m0) false false.
Proof.
  induction n as [|n IH]; intros m0 m Hm.
  - cbn. f_equal. rewrite Z.mul_1_r in Hm. exact Hm.
  - rewrite Nat.iter_succ. rewrite (IH (xO m0) m); [reflexivity |].
    rewrite Hm, Nat2Z.inj_succ, Z.pow_succ_r by lia. lia.
Qed.

(** * Rounding a representable number is exact *)

Section Exact.
Variables prec emax : Z.

Lemma round_aux_canonical s m e :
  bounded prec emax m e = true -> binary_round_aux prec emax s (Z.pos m) e loc_Exact = S754_finite s m e.
Proof.
  unfold bounded, canonical_mantissa. intros Hb. bool_hyps.
  unfold binary_round_aux, shr_fexp. cbn [Zdigits2]. rewrite H, Z.sub_diag. cbn [shr shr_record_of_loc].
  cbn [shr_m loc_of_shr_record round_nearest_even Zdigits2]. rewrite H, Z.sub_diag. cbn [shr shr_m].
  rewrite (proj2 (Z.leb_le _ _)) by done. reflexivity.
Qed.

(** [m * 2^e] written with any other exponent rounds to the canonical pair. *)
Lemma binary_round_exact s m e m0 e0 :
  bounded prec emax m0 e0 = true ->
  (e0 <= e /\ Z.pos m0 = Z.pos m * 2 ^ (e - e0)) \/ (e < e0 /\ Z.pos m = Z.pos m0 * 2 ^ (e0 - e)) ->
  binary_round prec emax s m e = S754_finite s m0 e0.
Proof.
  intros Hb Hv. pose proof Hb as Hc. unfold bounded, canonical_mantissa in Hc. bool_hyps.
  assert (Hd : Z.pos (digits2_pos m) + e = Z.pos (digits2_pos m0) + e0).
  { destruct Hv as [[Hle Hm] | [Hlt Hm]]; apply digits2_shift in Hm; lia. }
  unfold binary_round. rewrite Hd, H. unfold shl_align. destruct Hv as [[Hle Hm] | [Hlt Hm]].
  - destruct (e0 - e) as [| p | p] eqn:E; [| lia |].
    + assert (e = e0) as -> by lia. rewrite Z.sub_diag, Z.mul_1_r in Hm. injection Hm as ->.
      by apply round_aux_canonical.
    + assert (Hp : Pos.iter xO m p = m0).
      { change (shift_pos p m = m0). apply (inj Z.pos). rewrite shift_pos_correct, Hm.
        replace (e - e0) with (Z.pos p) by lia. rewrite Z.pow_pos_fold. lia. }
      rewrite Hp. by apply round_aux_canonical.
  - destruct (e0 - e) as [| p | p] eqn:E; [lia | | lia].
    unfold binary_round_aux, shr_fexp. cbn [Zdigits2]. rewrite Hd, H, E. cbn [shr shr_record_of_loc].
    rewrite iter_pos_nat, (shr_exact _ m0) by (rewrite positive_nat_Z; exact Hm).
    cbn [shr_m loc_of_shr_record round_nearest_even]. replace (e + Z.pos p) with e0 by lia.
    cbn [Zdigits2]. rewrite H, Z.sub_diag. cbn [shr shr_record_of_loc shr_m].
    rewrite (proj2 (Z.leb_le _ _)) by done. reflexivity.
Qed.
End Exact.

(** * Bit patterns *)

Section Bits.
Variables mw ew : Z.
Hypothesis Hmw : 1 <= mw.
Hypothesis Hew : 2 <= ew.
(** The format is wide enough for its own subnormals, as every IEEE format is. *)
Let prec := ieee_prec mw.
Let emax := ieee_emax ew.
Let lo := 3 - emax - prec.

Lemma pow_ew : 2 ^ ew = 2 * emax /\ 2 <= emax.
Proof.
  unfold emax, ieee_emax. split.
  - rewrite <- Z.pow_succ_r by lia. f_equal. lia.
  - change 2 with (2 ^ 1) at 1. apply Z.pow_le_mono_r; lia.
Qed.

(** The three fields of a pattern assembled from them. *)
Lemma fields_of_bits (s : bool) E M :
  0 <= E < 2 ^ ew -> 0 <= M < 2 ^ mw ->
  let b := (if s then 2 ^ (mw + ew) else 0) + E * 2 ^ mw + M in
  Z.testbit b (mw + ew) = s /\ Z.land (Z.shiftr b mw) (Z.ones ew) = E /\ Z.land b (Z.ones mw) = M.
Proof.
  intros HE HM b.
  assert (Hb : b = (Z.b2z s * 2 ^ ew + E) * 2 ^ mw + M).
  { unfold b. rewrite Z.pow_add_r by lia. destruct s; cbn [Z.b2z]; lia. }
  assert (Hp : 0 < 2 ^ mw) by (apply Z.pow_pos_nonneg; lia).
  assert (Hq : 0 < 2 ^ ew) by (apply Z.pow_pos_nonneg; lia).
  assert (Hdiv : b / 2 ^ mw = Z.b2z s * 2 ^ ew + E).
  { rewrite Hb, Z.add_comm, Z.div_add, Z.div_small by lia. lia. }
  repeat split.
  - apply Z.b2z_inj. rewrite Z.testbit_spec', Z.pow_add_r, <- Z.div_div, Hdiv by lia.
    rewrite Z.add_comm, Z.div_add, Z.div_small, Z.add_0_l by lia.
    destruct s; reflexivity.
  - rewrite Z.shiftr_div_pow2, Hdiv, Z.land_ones, Z.add_comm, Z.mod_add by lia. apply Z.mod_small. lia.
  - rewrite Z.land_ones, Hb, Z.add_comm, Z.mod_add by lia. apply Z.mod_small. lia.
Qed.

(** A pattern is assembled from its fields. *)
Lemma bits_of_fields b : is_uint (mw + ew + 1) b ->
  exists (s : bool) E M, 0 <= E < 2 ^ ew /\ 0 <= M < 2 ^ mw /\
    b = (if s then 2 ^ (mw + ew) else 0) + E * 2 ^ mw + M.
Proof.
  intros Hb. unfold is_uint in Hb. rewrite !Z.pow_add_r in Hb by lia. change (2 ^ 1) with 2 in Hb.
  assert (Hp : 0 < 2 ^ mw) by (apply Z.pow_pos_nonneg; lia).
  assert (Hq : 0 < 2 ^ ew) by (apply Z.pow_pos_nonneg; lia).
  pose proof (Z.div_mod b (2 ^ mw) ltac:(lia)) as Hd.
  pose proof (Z.div_mod (b / 2 ^ mw) (2 ^ ew) ltac:(lia)) as Hd2.
  pose proof (Z.mod_pos_bound b (2 ^ mw) Hp). pose proof (Z.mod_pos_bound (b / 2 ^ mw) (2 ^ ew) Hq).
  assert (0 <= b / 2 ^ mw / 2 ^ ew < 2).
  { rewrite Z.div_div by lia. split; [apply Z.div_pos; lia | apply Z.div_lt_upper_bound; lia]. }
  exists (b / 2 ^ mw / 2 ^ ew =? 1), ((b / 2 ^ mw) mod 2 ^ ew), (b mod 2 ^ mw).
  split; [done | split; [done |]]. rewrite Z.pow_add_r by lia.
  destruct (Z.eqb_spec (b / 2 ^ mw / 2 ^ ew) 1) as [E | E]; nia.
Qed.

Lemma bits_of_sf_finite s m e : bounded prec emax m e = true ->
  exists E M, 0 <= E < Z.ones ew /\ 0 <= M < 2 ^ mw /\
    bits_of_sf mw ew (S754_finite s m e) = (if s then 2 ^ (mw + ew) else 0) + E * 2 ^ mw + M /\
    ((E = 0 /\ Z.pos m = M /\ e = lo) \/ (0 < E /\ Z.pos m = M + 2 ^ mw /\ e = E - 1 + lo)).
Proof.
  unfold bounded, canonical_mantissa, fexp, emin. intros Hb. bool_hyps.
  pose proof pow_ew as [Hpe Hem]. cbn [bits_of_sf]. fold emax prec lo. fold lo in H.
  assert (Hpr : prec = mw + 1) by reflexivity.
  rewrite Z.ones_equiv, Hpe. unfold Z.pred.
  destruct (Z.ltb_spec (Z.pos m) (2 ^ mw)) as [Hlt | Hge].
  - apply (digits2_bounds m mw) in Hlt as Hd; [| lia].
    exists 0, (Z.pos m). split; [lia |]. split; [lia |]. split; [lia |]. left. unfold lo in *. lia.
  - apply (digits2_lower m mw) in Hge as Hd; [| lia].
    assert (Hup : Z.pos m < 2 ^ (mw + 1)) by (apply digits2_bounds; unfold lo in *; lia).
    rewrite Z.pow_add_r in Hup by lia.
    exists (e - lo + 1), (Z.pos m - 2 ^ mw). unfold lo in *.
    split; [lia |]. split; [lia |]. split; [lia |]. right. lia.
Qed.

(** Finite numbers survive the encoding. *)
Lemma sf_of_bits_of_sf s m e : bounded prec emax m e = true ->
  sf_of_bits mw ew (bits_of_sf mw ew (S754_finite s m e)) = S754_finite s m e.
Proof.
  intros Hb. destruct (bits_of_sf_finite s m e Hb) as (E & M & HE & HM & -> & Hc).
  rewrite Z.ones_equiv in HE. destruct (fields_of_bits s E M) as (Hs & HE' & HM'); [lia | lia |].
  unfold sf_of_bits. rewrite Hs, HE', HM'. fold emax prec lo.
  destruct (Z.eqb_spec E (Z.ones ew)) as [HEo | _]; [rewrite Z.ones_equiv in HEo; lia |].
  destruct Hc as [(-> & <- & ->) | (HE0 & Hm & ->)]; cbn [Z.eqb]; [done |].
  destruct (Z.eqb_spec E 0); [lia |]. rewrite <- Hm. done.
Qed.

(** A finite pattern denotes a zero or a bounded number, and is recovered from it. *)
Lemma sf_of_finite_bits b : is_uint (mw + ew + 1) b -> Z.land (Z.shiftr b mw) (Z.ones ew) <> Z.ones ew ->
  bits_of_sf mw ew (sf_of_bits mw ew b) = b /\
  ((exists s, sf_of_bits mw ew b = S754_zero s) \/
   (exists s m e, sf_of_bits mw ew b = S754_finite s m e /\ bounded prec emax m e = true)).
Proof.
  intros Hb Hfin. destruct (bits_of_fields b Hb) as (s & E & M & HE & HM & ->).
  destruct (fields_of_bits s E M HE HM) as (Hs & HE' & HM'). rewrite HE' in Hfin.
  pose proof pow_ew as [Hpe Hem]. assert (Hpr : prec = mw + 1) by reflexivity.
  assert (HEm : E < Z.ones ew) by (rewrite Z.ones_equiv in *; lia). rewrite Z.ones_equiv in HEm.
  unfold sf_of_bits. rewrite Hs, HE', HM'. fold emax prec lo.
  destruct (Z.eqb_spec E (Z.ones ew)) as [|_]; [done |].
  assert (Hlo : lo = 3 - emax - prec) by reflexivity.
  destruct (Z.eqb_spec E 0) as [-> | HE0].
  - destruct M as [| p | p]; [| | lia].
    + split; [cbn [bits_of_sf]; lia | left; eauto].
    + pose proof (proj1 (digits2_bounds p mw ltac:(lia)) ltac:(lia)) as Hd. split.
      * cbn [bits_of_sf]. destruct (Z.ltb_spec (Z.pos p) (2 ^ mw)); lia.
      * right. exists s, p, lo. split; [done |]. unfold bounded, canonical_mantissa, fexp, emin. fold lo.
        rewrite andb_true_iff, Z.eqb_eq, Z.leb_le. lia.
  - destruct (M + 2 ^ mw) as [| p | p] eqn:Ep; [lia | | lia].
    assert (Hup : Z.pos p < 2 ^ (mw + 1)) by (rewrite Z.pow_add_r by lia; lia).
    pose proof (proj1 (digits2_bounds p (mw + 1) ltac:(lia)) Hup).
    pose proof (proj1 (digits2_lower p mw ltac:(lia)) ltac:(lia)). split.
    + cbn [bits_of_sf]. destruct (Z.ltb_spec (Z.pos p) (2 ^ mw)); [lia |]. fold emax prec lo.
      replace (E - 1 + lo - lo + 1) with E by lia. lia.
    + right. exists s, p, (E - 1 + lo). split; [done |]. unfold bounded, canonical_mantissa, fexp, emin. fold lo.
      rewrite andb_true_iff, Z.eqb_eq, Z.leb_le. lia.
Qed.
End Bits.

(** * Exact casts *)

Lemma f32_bounded_widens m e : bounded 24 128 m e = true ->
  exists m' e', bounded 53 1024 m' e' = true /\ e' <= e /\ Z.pos m' = Z.pos m * 2 ^ (e - e').
Proof.
  unfold bounded, canonical_mantissa, fexp, emin. intros Hb. bool_hyps.
  set (k := 53 - Z.pos (digits2_pos m)). assert (Hk : 0 <= k) by lia.
  destruct (Z.pos m * 2 ^ k) as [| m' |] eqn:Em.
  1, 3: exfalso; pose proof (Z.pow_pos_nonneg 2 k ltac:(lia) Hk); nia.
  exists m', (e - k). symmetry in Em. pose proof (digits2_shift m' m k Hk Em) as Hd.
  replace (e - (e - k)) with k by lia. split; [| split; [lia | done]].
  rewrite andb_true_iff, Z.eqb_eq, Z.leb_le. lia.
Qed.

(** Widening an [f32] and narrowing it again gives it back, bit for bit. *)
Lemma f32_of_f64_of_f32 b : is_uint 32 b -> Z.land (Z.shiftr b 23) 0xFF <> 0xFF ->
  f32_of_f64 (f64_of_f32 b) = b /\ f64_is_finite (f64_of_f32 b) = true.
Proof.
  intros Hb Hf. destruct (sf_of_finite_bits 23 8 ltac:(lia) ltac:(lia) b) as [Hbits Hsf]; [exact Hb | exact Hf |].
  unfold f64_of_f32, f32_to_sf. destruct Hsf as [[s Hs] | (s & m & e & Hs & Hbd)]; rewrite Hs in *.
  - destruct s; (split; [exact Hbits | reflexivity]).
  - change (bounded 24 128 m e = true) in Hbd.
    destruct (f32_bounded_widens m e Hbd) as (m' & e' & Hbd' & Hle & Hm').
    assert (Hn : binary_normalize 53 1024 (if s then Z.neg m else Z.pos m) e s = S754_finite s m' e').
    { destruct s; cbn [binary_normalize]; apply binary_round_exact; auto. }
    rewrite Hn. unfold f32_of_f64, f64_to_sf, sf_to_f64.
    rewrite (sf_of_bits_of_sf 52 11) by (first [lia | exact Hbd']).
    assert (Hr : binary_normalize 24 128 (if s then Z.neg m' else Z.pos m') e' s = S754_finite s m e).
    { destruct (decide (e' = e)) as [-> | Hne].
      - rewrite Z.sub_diag, Z.mul_1_r in Hm'. injection Hm' as ->.
        destruct s; cbn [binary_normalize]; apply binary_round_exact; auto; left; rewrite Z.sub_diag; lia.
      - destruct s; cbn [binary_normalize]; apply binary_round_exact; auto; right; split; [lia | done | lia | done]. }
    rewrite Hr. split; [exact Hbits |].
    destruct (bits_of_sf_finite 52 11 ltac:(lia) ltac:(lia) s m' e' Hbd') as (E & M & HE & HM & Heq & _).
    change (Z.ones 11) with 2047 in HE. rewrite Heq. unfold f64_is_finite, f64_exponent.
    destruct (fields_of_bits 52 11 ltac:(lia) ltac:(lia) s E M) as (_ & HE' & _); [lia | lia |].
    change (Z.ones 11) with 2047 in HE'. rewrite HE'. apply negb_true_iff, Z.eqb_neq. lia.
Qed.

(** ** Absolute values and differences *)

Lemma sf_of_abs_bits b : f64_to_sf (f64_abs b) =
  match f64_to_sf b with
  | S754_zero _ => S754_zero false | S754_infinity _ => S754_infinity false | S754_nan => S754_nan
  | S754_finite _ m e => S754_finite false m e
  end.
Proof.
  unfold f64_to_sf, sf_of_bits, f64_abs.
  assert (Hs : Z.testbit (Z.land b (Z.ones 63)) (52 + 11) = false).
  { rewrite Z.land_spec, (Z.ones_spec_high 63) by lia. apply andb_false_r. }
  assert (He : Z.land (Z.shiftr (Z.land b (Z.ones 63)) 52) (Z.ones 11) = Z.land (Z.shiftr b 52) (Z.ones 11)).
  { rewrite Z.shiftr_land, <- Z.land_assoc. f_equal. }
  assert (Hm : Z.land (Z.land b (Z.ones 63)) (Z.ones 52) = Z.land b (Z.ones 52)).
  { rewrite <- Z.land_assoc. f_equal. }
  rewrite Hs, He, Hm. cbv zeta. repeat (case_match; try done).
Qed.

Lemma f64_finite_sf b : f64_is_finite b = true ->
  (exists s, f64_to_sf b = S754_zero s) \/ (exists s m e, f64_to_sf b = S754_finite s m e).
Proof.
  unfold f64_is_finite, f64_exponent, f64_to_sf, sf_of_bits. change 0x7FF with (Z.ones 11).
  intros H. apply negb_true_iff in H. rewrite H. cbv zeta. repeat case_match; eauto.
Qed.

Lemma f64_sub_self b : f64_is_finite b = true -> f64_sub b b = f64_zero.
Proof.
  intros H. unfold f64_sub. destruct (f64_finite_sf b H) as [[s ->] | (s & m & e & ->)]; [by destruct s |].
  unfold SFsub. by rewrite Z.sub_diag.
Qed.

(** ** Integers below 2^53 and the product with zero *)

Lemma f64_of_Z_sf z : Z.abs z < 2 ^ 53 -> f64_to_sf (f64_of_Z z) = S754_zero false \/
  exists m e, f64_to_sf (f64_of_Z z) = S754_finite (z <? 0) m e.
Proof.
  intros Hz. unfold f64_of_Z, f64_to_sf, sf_to_f64. destruct z as [| p | p]; [by left | |]; right; cbn [binary_normalize];
    (assert (Hd : Z.pos (digits2_pos p) <= 53) by (apply digits2_bounds; lia));
    set (k := 53 - Z.pos (digits2_pos p)); (assert (Hk : 0 <= k) by lia);
    (destruct (Z.pos p * 2 ^ k) as [| m' |] eqn:Em; [pose proof (Z.pow_pos_nonneg 2 k ltac:(lia) Hk); nia | | pose proof (Z.pow_pos_nonneg 2 k ltac:(lia) Hk); nia]);
    symmetry in Em; pose proof (digits2_shift m' p k Hk Em) as Hd';
    (assert (Hb : bounded 53 1024 m' (- k) = true) by (unfold bounded, canonical_mantissa, fexp, emin; rewrite andb_true_iff, Z.eqb_eq, Z.leb_le; lia)).
  - rewrite (binary_round_exact 53 1024 false p 0 m' (- k)) by (done || (left; split; [lia |]; by replace (0 - - k) with k by lia)).
    exists m', (- k). by rewrite (sf_of_bits_of_sf 52 11) by (first [lia | exact Hb]).
  - rewrite (binary_round_exact 53 1024 true p 0 m' (- k)) by (done || (left; split; [lia |]; by replace (0 - - k) with k by lia)).
    exists m', (- k). by rewrite (sf_of_bits_of_sf 52 11) by (first [lia | exact Hb]).
Qed.

(** [x * 0.0 + 0.0] is zero for every finite [x]. *)
Lemma f64_zero_scale x : (exists s, f64_to_sf x = S754_zero s) \/ (exists s m e, f64_to_sf x = S754_finite s m e) ->
  f64_add (f64_mul x f64_zero) f64_zero = f64_zero.
Proof.
  intros Hx. unfold f64_mul. change (f64_to_sf f64_zero) with (S754_zero false).
  destruct Hx as [[s ->] | (s & m & e & ->)]; by destruct s.
Qed.
