(* ===== verification/Bitmap.v ===== *)
(** The slot allocator: [libs/voltage-rtdb-shm/src/core/bitmap.rs].

    [SlotBitmap] is the in-memory first-fit allocator the channel and instance
    indexes use; [SlotBitmapView] is the same allocator over a header and words
    that live in shared memory, with [u32] counters.  [free_run] and [allocated]
    are the abstract specification (which slots are taken), [SlotBitmap_wf] the
    representation invariant, [view_of] the simulation between the two
    implementations.

    Indices ([usize]) are [nat]; the counters, which a wrong [free] can drive
    below zero, are machine integers that wrap. *)
From stdpp Require Import base numbers list.
From Stdlib Require Import ZArith Lia.
From S2P Require Import Prelude BitWords.

(** * Data *)

Record SlotAllocation := mkSlotAllocation {
  alloc_base_slot : nat;
  alloc_count : nat
}.

Record SlotBitmap := mkSlotBitmap {
  sb_total_slots : nat;
  sb_allocated_count : Z;
  sb_first_free_hint : nat;
  sb_bitmap : list Z
}.

Record BitmapStats := mkBitmapStats {
  st_total_slots : nat;
  st_allocated_slots : Z;
  st_free_slots : Z;
  st_utilization_pct : Z
}.

Definition SlotBitmapHeader_SIZE : nat := 64.

(** Header in shared memory: [u32] fields. *)
Record SlotBitmapHeader := mkSlotBitmapHeader {
  bh_total_slots : Z;
  bh_allocated_count : Z;
  bh_first_free_hint : Z
}.

Record SlotBitmapView := mkSlotBitmapView {
  bv_header : SlotBitmapHeader;
  bv_bitmap : list Z
}.

(** * Operations *)

Definition SlotBitmapHeader_init (total_slots : Z) : SlotBitmapHeader :=
  mkSlotBitmapHeader total_slots 0 0.

Definition bitmap_data_size (total_slots : nat) : nat := div_ceil64 total_slots * 8.

Definition total_bitmap_size (total_slots : nat) : nat :=
  SlotBitmapHeader_SIZE + bitmap_data_size total_slots.

(** The scan loop of [find_contiguous_free]: [n] slots remain from [slot],
    [consecutive] free ones have been seen since [block_start]. *)
Fixpoint find_free_loop (is_alloc : nat -> bool) (count slot n consecutive block_start : nat)
    : option nat :=
  match n with
  | O => None
  | S n =>
      if is_alloc slot then find_free_loop is_alloc count (S slot) n 0 (S slot)
      else if (count <=? S consecutive)%nat then Some block_start
      else find_free_loop is_alloc count (S slot) n (S consecutive) block_start
  end.

Definition SlotBitmap_new (total_slots : nat) : SlotBitmap :=
  mkSlotBitmap total_slots 0 0 (replicate (div_ceil64 total_slots) 0%Z).

Definition SlotBitmap_free_count (sb : SlotBitmap) : Z :=
  wrapping_sub 64 (Z.of_nat (sb_total_slots sb)) (sb_allocated_count sb).

Definition SlotBitmap_is_allocated (sb : SlotBitmap) (slot : nat) : bool :=
  if (sb_total_slots sb <=? slot)%nat then false else words_test (sb_bitmap sb) slot.

Definition SlotBitmap_find_contiguous_free (sb : SlotBitmap) (start_pos count : nat) : option nat :=
  find_free_loop (SlotBitmap_is_allocated sb) count start_pos
    (sb_total_slots sb - start_pos) 0 start_pos.

Definition SlotBitmap_mark_allocated (sb : SlotBitmap) (base_slot count : nat)
    : outcome SlotBitmap :=
  let! ws := words_update_range bit_set (sb_bitmap sb) base_slot count in
  let next_hint := (base_slot + count)%nat in
  Ret (mkSlotBitmap (sb_total_slots sb)
         (wrapping_add 64 (sb_allocated_count sb) (Z.of_nat count))
         (if (next_hint <? sb_total_slots sb)%nat then next_hint else sb_first_free_hint sb)
         ws).

Definition SlotBitmap_alloc_contiguous (sb : SlotBitmap) (count : nat)
    : outcome (SlotBitmap * option SlotAllocation) :=
  if (count =? 0)%nat then Ret (sb, None)
  else if (SlotBitmap_free_count sb <? Z.of_nat count)%Z then Ret (sb, None)
  else
    let start_pos := (sb_first_free_hint sb `min` (sb_total_slots sb - count))%nat in
    match SlotBitmap_find_contiguous_free sb start_pos count with
    | Some base =>
        let! sb' := SlotBitmap_mark_allocated sb base count in
        Ret (sb', Some (mkSlotAllocation base count))
    | None =>
        if (0 <? start_pos)%nat then
          match SlotBitmap_find_contiguous_free sb 0 count with
          | Some base =>
              let! sb' := SlotBitmap_mark_allocated sb base count in
              Ret (sb', Some (mkSlotAllocation base count))
          | None => Ret (sb, None)
          end
        else Ret (sb, None)
    end.

Definition SlotBitmap_free (sb : SlotBitmap) (base_slot count : nat) : outcome SlotBitmap :=
  let! ws := words_update_range bit_clear (sb_bitmap sb) base_slot count in
  Ret (mkSlotBitmap (sb_total_slots sb)
         (wrapping_sub 64 (sb_allocated_count sb) (Z.of_nat count))
         (if (base_slot <? sb_first_free_hint sb)%nat then base_slot else sb_first_free_hint sb)
         ws).

Definition SlotBitmap_stats (sb : SlotBitmap) : BitmapStats :=
  mkBitmapStats (sb_total_slots sb) (sb_allocated_count sb) (SlotBitmap_free_count sb)
    (if (0 <? sb_total_slots sb)%nat
     then wrap 64 (sb_allocated_count sb * 100) / Z.of_nat (sb_total_slots sb)
     else 0)%Z.

(** ** The shared-memory view *)

Definition SlotBitmapView_total_slots (v : SlotBitmapView) : nat :=
  Z.to_nat (bh_total_slots (bv_header v)).

Definition SlotBitmapView_allocated_count (v : SlotBitmapView) : Z :=
  bh_allocated_count (bv_header v).

Definition SlotBitmapView_free_count (v : SlotBitmapView) : Z :=
  wrapping_sub 64 (Z.of_nat (SlotBitmapView_total_slots v)) (SlotBitmapView_allocated_count v).

Definition SlotBitmapView_is_allocated (v : SlotBitmapView) (slot : nat) : bool :=
  if (SlotBitmapView_total_slots v <=? slot)%nat then false else words_test (bv_bitmap v) slot.

Definition SlotBitmapView_find_contiguous_free (v : SlotBitmapView) (start_pos count : nat)
    : option nat :=
  find_free_loop (SlotBitmapView_is_allocated v) count start_pos
    (SlotBitmapView_total_slots v - start_pos) 0 start_pos.

Definition SlotBitmapView_mark_allocated (v : SlotBitmapView) (base_slot count : nat)
    : outcome SlotBitmapView :=
  let! ws := words_update_range bit_set (bv_bitmap v) base_slot count in
  let h := bv_header v in
  let next_hint := (base_slot + count)%nat in
  Ret (mkSlotBitmapView
         (mkSlotBitmapHeader (bh_total_slots h)
            (wrapping_add 32 (bh_allocated_count h) (wrap 32 (Z.of_nat count)))
            (if (next_hint <? SlotBitmapView_total_slots v)%nat
             then wrap 32 (Z.of_nat next_hint) else bh_first_free_hint h))
         ws).

Definition SlotBitmapView_alloc_contiguous (v : SlotBitmapView) (count : nat)
    : outcome (SlotBitmapView * option SlotAllocation) :=
  if (count =? 0)%nat then Ret (v, None)
  else
    let total := SlotBitmapView_total_slots v in
    if (wrapping_sub 64 (Z.of_nat total) (SlotBitmapView_allocated_count v) <? Z.of_nat count)%Z
    then Ret (v, None)
    else
      let hint := Z.to_nat (bh_first_free_hint (bv_header v)) in
      let start_pos := (hint `min` (total - count))%nat in
      match SlotBitmapView_find_contiguous_free v start_pos count with
      | Some base =>
          let! v' := SlotBitmapView_mark_allocated v base count in
          Ret (v', Some (mkSlotAllocation base count))
      | None =>
          if (0 <? start_pos)%nat then
            match SlotBitmapView_find_contiguous_free v 0 count with
            | Some base =>
                let! v' := SlotBitmapView_mark_allocated v base count in
                Ret (v', Some (mkSlotAllocation base count))
            | None => Ret (v, None)
            end
          else Ret (v, None)
      end.

Definition SlotBitmapView_free (v : SlotBitmapView) (base_slot count : nat)
    : outcome SlotBitmapView :=
  let! ws := words_update_range bit_clear (bv_bitmap v) base_slot count in
  let h := bv_header v in
  let current_hint := Z.to_nat (bh_first_free_hint h) in
  Ret (mkSlotBitmapView
         (mkSlotBitmapHeader (bh_total_slots h)
            (wrapping_sub 32 (bh_allocated_count h) (wrap 32 (Z.of_nat count)))
            (if (base_slot <? current_hint)%nat
             then wrap 32 (Z.of_nat base_slot) else bh_first_free_hint h))
         ws).

Definition SlotBitmapView_init_all_free (v : SlotBitmapView) : SlotBitmapView :=
  mkSlotBitmapView
    (mkSlotBitmapHeader (bh_total_slots (bv_header v)) 0 0)
    (map (fun _ => 0%Z) (bv_bitmap v)).

Definition SlotBitmapView_stats (v : SlotBitmapView) : BitmapStats :=
  let total := SlotBitmapView_total_slots v in
  let allocated := SlotBitmapView_allocated_count v in
  mkBitmapStats total allocated (wrapping_sub 64 (Z.of_nat total) allocated)
    (if (0 <? total)%nat then wrap 64 (allocated * 100) / Z.of_nat total else 0)%Z.

(** * Specification *)

(** A block of [count] free slots inside the pool. *)
Definition free_run (is_alloc : nat -> bool) (total b count : nat) : Prop :=
  b + count <= total /\ forall j, b <= j < b + count -> is_alloc j = false.

(** The first free block at or after [start]. *)
Definition first_run (is_alloc : nat -> bool) (total start count b : nat) : Prop :=
  start <= b /\ free_run is_alloc total b count /\
  forall b', start <= b' < b -> ~ free_run is_alloc total b' count.

Record SlotBitmap_wf (sb : SlotBitmap) : Prop := {
  wf_total : (Z.of_nat (sb_total_slots sb) < 2 ^ 32)%Z;
  wf_words : length (sb_bitmap sb) = div_ceil64 (sb_total_slots sb);
  wf_count : sb_allocated_count sb = Z.of_nat (words_count (sb_bitmap sb) 0 (sb_total_slots sb));
  wf_hint : sb_first_free_hint sb <= sb_total_slots sb
}.

(** The slots an allocation owns, and which slots a bitmap change touched. *)
Definition owns (a : SlotAllocation) (j : nat) : bool :=
  in_block (alloc_base_slot a) (alloc_count a) j.

(** The shared-memory image of an allocator state: what a [SlotBitmapView] over
    the header and words of [sb] sees. *)
Definition view_of (sb : SlotBitmap) : SlotBitmapView :=
  mkSlotBitmapView
    (mkSlotBitmapHeader (Z.of_nat (sb_total_slots sb)) (sb_allocated_count sb)
       (Z.of_nat (sb_first_free_hint sb)))
    (sb_bitmap sb).

(** What the owners of blocks ask of the allocator, in sequence, and what they are told. *)
Inductive PoolOp := OpAlloc (count : nat) | OpFree (base count : nat).
Fixpoint run_ops {S} (alloc : S -> nat -> outcome (S * option SlotAllocation)) (free : S -> nat -> nat -> outcome S)
    (s : S) (ops : list PoolOp) : outcome (S * list (option SlotAllocation)) :=
  match ops with
  | [] => Ret (s, [])
  | OpAlloc count :: ops =>
      let! p := alloc s count in let! q := run_ops alloc free (fst p) ops in Ret (fst q, snd p :: snd q)
  | OpFree base count :: ops => let! s := free s base count in run_ops alloc free s ops
  end.
Abbreviation run_bitmap := (run_ops SlotBitmap_alloc_contiguous SlotBitmap_free).
Abbreviation run_view := (run_ops SlotBitmapView_alloc_contiguous SlotBitmapView_free).
(** Every block that is freed lies in the pool and is allocated as a whole at that moment. *)
Fixpoint frees_allocated (sb : SlotBitmap) (ops : list PoolOp) : Prop :=
  match ops with
  | [] => True
  | OpAlloc count :: ops =>
      match SlotBitmap_alloc_contiguous sb count with Ret (sb', _) => frees_allocated sb' ops | Panic => True end
  | OpFree base count :: ops =>
      base + count <= sb_total_slots sb /\ (forall j, base <= j < base + count -> SlotBitmap_is_allocated sb j = true) /\
      match SlotBitmap_free sb base count with Ret sb' => frees_allocated sb' ops | Panic => True end
  end.

(** * Lemmas *)

Section FindLoop.
Variable is_alloc : nat -> bool.
Variables total count start : nat.
Hypothesis count_pos : 0 < count.

(** Everything the scan knows when it reaches [slot]. *)
Definition scan_inv (slot consecutive block_start : nat) : Prop :=
  block_start + consecutive = slot /\ consecutive < count /\ start <= block_start /\
  (forall j, block_start <= j < slot -> is_alloc j = false) /\
  (forall b', start <= b' < block_start -> ~ free_run is_alloc total b' count).

Lemma scan_inv_busy slot c bs :
  scan_inv slot c bs -> is_alloc slot = true -> scan_inv (S slot) 0 (S slot).
Proof.
  intros (Hs & Hc & Hst & Hfree & Hno) Ha. repeat split; try lia.
  intros b' Hb' [Hle Hrun]. destruct (decide (b' < bs)) as [Hlt | Hge].
  - apply (Hno b'); [lia | done].
  - rewrite Hrun in Ha by lia. discriminate.
Qed.

Lemma scan_inv_free slot c bs :
  scan_inv slot c bs -> is_alloc slot = false -> S c < count -> scan_inv (S slot) (S c) bs.
Proof.
  intros (Hs & Hc & Hst & Hfree & Hno) Ha Hlt. repeat split; try done; try lia.
  intros j Hj. destruct (decide (j = slot)) as [-> |]; [done | apply Hfree; lia].
Qed.

Lemma find_free_loop_spec n : forall slot c bs,
  scan_inv slot c bs -> slot + n = total ->
  match find_free_loop is_alloc count slot n c bs with
  | Some b => first_run is_alloc total start count b
  | None => forall b, start <= b -> ~ free_run is_alloc total b count
  end.
Proof.
  induction n as [|n IH]; intros slot c bs Hinv Htot; simpl.
  - destruct Hinv as (Hs & Hc & Hst & Hfree & Hno). intros b Hb Hrun.
    destruct (decide (b < bs)); [by apply (Hno b); [lia |] |].
    destruct Hrun. lia.
  - destruct (is_alloc slot) eqn:Ha.
    + apply IH; [by eapply scan_inv_busy | lia].
    + destruct (Nat.leb_spec count (S c)) as [Hle | Hgt].
      * destruct Hinv as (Hs & Hc & Hst & Hfree & Hno).
        split; [done |]. split; [|done]. split; [lia |].
        intros j Hj. destruct (decide (j = slot)) as [-> |]; [done | apply Hfree; lia].
      * apply IH; [by apply scan_inv_free | lia].
Qed.
End FindLoop.

Lemma find_contiguous_free_spec sb start count :
  0 < count -> start <= sb_total_slots sb ->
  match SlotBitmap_find_contiguous_free sb start count with
  | Some b => first_run (SlotBitmap_is_allocated sb) (sb_total_slots sb) start count b
  | None => forall b, start <= b ->
      ~ free_run (SlotBitmap_is_allocated sb) (sb_total_slots sb) b count
  end.
Proof.
  intros Hc Hs. unfold SlotBitmap_find_contiguous_free.
  apply find_free_loop_spec with (start := start); [done | repeat split; intros; lia | lia].
Qed.

Lemma is_allocated_words sb j :
  j < sb_total_slots sb -> SlotBitmap_is_allocated sb j = words_test (sb_bitmap sb) j.
Proof. intros Hj. unfold SlotBitmap_is_allocated. by destruct (Nat.leb_spec (sb_total_slots sb) j); [lia |]. Qed.

Lemma is_allocated_lt sb j : SlotBitmap_is_allocated sb j = true -> j < sb_total_slots sb.
Proof. unfold SlotBitmap_is_allocated. by destruct (Nat.leb_spec (sb_total_slots sb) j). Qed.

Lemma in_block_true base count j : in_block base count j = true <-> base <= j < base + count.
Proof. unfold in_block. bool_cases; simpl; intuition lia. Qed.

(** A change of the words over one block, seen through [is_allocated]. *)
Lemma is_allocated_block sb sb' base count v :
  sb_total_slots sb' = sb_total_slots sb -> base + count <= sb_total_slots sb ->
  (forall j, words_test (sb_bitmap sb') j =
             if in_block base count j then v else words_test (sb_bitmap sb) j) ->
  forall j, SlotBitmap_is_allocated sb' j =
            if in_block base count j then v else SlotBitmap_is_allocated sb j.
Proof.
  intros Ht Hle Hw j. unfold SlotBitmap_is_allocated. rewrite Ht, Hw.
  destruct (Nat.leb_spec (sb_total_slots sb) j); [|done].
  unfold in_block. by bool_cases; simpl; try lia.
Qed.

Lemma free_run_count sb b count :
  free_run (SlotBitmap_is_allocated sb) (sb_total_slots sb) b count ->
  words_count (sb_bitmap sb) 0 (sb_total_slots sb) + count <= sb_total_slots sb.
Proof.
  intros [Hle Hrun].
  replace (sb_total_slots sb) with (b + (count + (sb_total_slots sb - b - count))) by lia.
  rewrite !words_count_app. simpl.
  rewrite (words_count_const _ false count).
  - pose proof (words_count_le (sb_bitmap sb) b 0).
    pose proof (words_count_le (sb_bitmap sb) (sb_total_slots sb - b - count) (b + count)). lia.
  - intros j Hj. rewrite <- is_allocated_words by lia. by apply Hrun.
Qed.

Lemma wf_counter_range sb :
  SlotBitmap_wf sb -> (0 <= sb_allocated_count sb <= Z.of_nat (sb_total_slots sb))%Z.
Proof.
  intros Hwf. rewrite (wf_count _ Hwf).
  pose proof (words_count_le (sb_bitmap sb) (sb_total_slots sb) 0). lia.
Qed.

Lemma wf_free_count sb : SlotBitmap_wf sb ->
  SlotBitmap_free_count sb = (Z.of_nat (sb_total_slots sb) - sb_allocated_count sb)%Z.
Proof.
  intros Hwf. pose proof (wf_counter_range _ Hwf). pose proof (wf_total _ Hwf).
  unfold SlotBitmap_free_count, wrapping_sub. apply wrap_small. unfold is_uint. lia.
Qed.

Lemma wf_words_cover sb : SlotBitmap_wf sb -> sb_total_slots sb <= 64 * length (sb_bitmap sb).
Proof. intros Hwf. rewrite (wf_words _ Hwf). apply div_ceil64_spec. Qed.

Lemma SlotBitmap_new_wf total : (Z.of_nat total < 2 ^ 32)%Z -> SlotBitmap_wf (SlotBitmap_new total).
Proof.
  intros H. split; simpl; try done; try lia.
  - by rewrite length_replicate.
  - by rewrite (words_count_const _ false) by (intros; apply words_test_replicate).
Qed.

(** Marking a free block: total, invariant and effect. *)
Lemma mark_allocated_spec sb b count :
  SlotBitmap_wf sb -> free_run (SlotBitmap_is_allocated sb) (sb_total_slots sb) b count ->
  exists sb', SlotBitmap_mark_allocated sb b count = Ret sb' /\ SlotBitmap_wf sb' /\
    sb_total_slots sb' = sb_total_slots sb /\
    sb_allocated_count sb' = (sb_allocated_count sb + Z.of_nat count)%Z /\
    forall j, SlotBitmap_is_allocated sb' j = in_block b count j || SlotBitmap_is_allocated sb j.
Proof.
  intros Hwf Hrun. pose proof Hrun as [Hle Hfree].
  pose proof (wf_words_cover _ Hwf). pose proof (wf_counter_range _ Hwf).
  pose proof (wf_total _ Hwf). pose proof (free_run_count _ _ _ Hrun).
  destruct (words_update_range_spec bit_set true bit_set_spec count (sb_bitmap sb) b)
    as (ws & Hu & Hl & Ht); [lia |].
  unfold SlotBitmap_mark_allocated. rewrite Hu. simpl.
  eexists; split; [done |].
  pose proof (words_count_block (sb_bitmap sb) ws (sb_total_slots sb) b count true Hle) as Hcnt.
  specialize (Hcnt ltac:(intros j Hj%in_block_true; rewrite <- is_allocated_words by lia; by apply Hfree) Ht).
  simpl in Hcnt. unfold wrapping_add.
  rewrite wrap_small by (rewrite (wf_count _ Hwf) in *; unfold is_uint; lia).
  split; [|split; [done | split; [done |]]].
  - split; simpl; try done.
    + by rewrite Hl, (wf_words _ Hwf).
    + rewrite (wf_count _ Hwf) in *; lia.
    + pose proof (wf_hint _ Hwf). bool_cases; lia.
  - intros j. by rewrite (is_allocated_block sb _ b count true).
Qed.

(** Freeing an allocated block: total, invariant and effect. *)
Lemma free_block_spec sb b count :
  SlotBitmap_wf sb -> b + count <= sb_total_slots sb ->
  (forall j, b <= j < b + count -> SlotBitmap_is_allocated sb j = true) ->
  exists sb', SlotBitmap_free sb b count = Ret sb' /\ SlotBitmap_wf sb' /\
    sb_total_slots sb' = sb_total_slots sb /\
    sb_allocated_count sb' = (sb_allocated_count sb - Z.of_nat count)%Z /\
    forall j, SlotBitmap_is_allocated sb' j =
              negb (in_block b count j) && SlotBitmap_is_allocated sb j.
Proof.
  intros Hwf Hle Hall. pose proof (wf_words_cover _ Hwf). pose proof (wf_counter_range _ Hwf).
  pose proof (wf_total _ Hwf).
  destruct (words_update_range_spec bit_clear false bit_clear_spec count (sb_bitmap sb) b)
    as (ws & Hu & Hl & Ht); [lia |].
  unfold SlotBitmap_free. rewrite Hu. simpl. eexists; split; [done |].
  pose proof (words_count_block (sb_bitmap sb) ws (sb_total_slots sb) b count false Hle) as Hcnt.
  specialize (Hcnt ltac:(intros j Hj%in_block_true; rewrite <- is_allocated_words by lia; by apply Hall) Ht).
  simpl in Hcnt. unfold wrapping_sub.
  rewrite wrap_small by (rewrite (wf_count _ Hwf) in *; unfold is_uint; lia).
  split; [|split; [done | split; [done |]]].
  - split; simpl; try done.
    + by rewrite Hl, (wf_words _ Hwf).
    + rewrite (wf_count _ Hwf) in *; lia.
    + pose proof (wf_hint _ Hwf). bool_cases; lia.
  - intros j. rewrite (is_allocated_block sb _ b count false) by done.
    by destruct (in_block b count j).
Qed.

(** The block [alloc_contiguous] picks: first fit from the hint, then from 0. *)
Definition chosen_block (sb : SlotBitmap) (count b : nat) : Prop :=
  let is_alloc := SlotBitmap_is_allocated sb in
  let total := sb_total_slots sb in
  let start := sb_first_free_hint sb `min` (total - count) in
  first_run is_alloc total start count b \/
  ((forall b', start <= b' -> ~ free_run is_alloc total b' count) /\
   first_run is_alloc total 0 count b).

Lemma alloc_search_spec sb count :
  SlotBitmap_wf sb -> 0 < count ->
  let start := sb_first_free_hint sb `min` (sb_total_slots sb - count) in
  (exists b, chosen_block sb count b /\
     SlotBitmap_find_contiguous_free sb start count = Some b) \/
  (exists b, chosen_block sb count b /\ 0 < start /\
     SlotBitmap_find_contiguous_free sb start count = None /\
     SlotBitmap_find_contiguous_free sb 0 count = Some b) \/
  (SlotBitmap_find_contiguous_free sb start count = None /\
   (start = 0 \/ SlotBitmap_find_contiguous_free sb 0 count = None) /\
   forall b, ~ free_run (SlotBitmap_is_allocated sb) (sb_total_slots sb) b count).
Proof.
  intros Hwf Hc start. pose proof (wf_hint _ Hwf).
  pose proof (find_contiguous_free_spec sb start count Hc ltac:(lia)) as H1.
  pose proof (find_contiguous_free_spec sb 0 count Hc ltac:(lia)) as H0.
  destruct (SlotBitmap_find_contiguous_free sb start count) as [b |] eqn:E1.
  { left. exists b. split; [by left | done]. }
  right. destruct (decide (start = 0)) as [Hz | Hz].
  { right. split; [done |]. split; [by left |]. intros b. apply H1. lia. }
  destruct (SlotBitmap_find_contiguous_free sb 0 count) as [b |] eqn:E0.
  { left. exists b. repeat split; try done; [by right | lia]. }
  right. split; [done |]. split; [by right |]. intros b. apply H0. lia.
Qed.

Lemma chosen_block_free sb count b :
  chosen_block sb count b -> free_run (SlotBitmap_is_allocated sb) (sb_total_slots sb) b count.
Proof. by intros [(_ & ? & _) | (_ & _ & ? & _)]. Qed.

(** Allocation as a whole. *)
Lemma alloc_contiguous_correct sb count :
  SlotBitmap_wf sb ->
  exists sb' r, SlotBitmap_alloc_contiguous sb count = Ret (sb', r) /\ SlotBitmap_wf sb' /\
    sb_total_slots sb' = sb_total_slots sb /\
    match r with
    | Some a =>
        alloc_count a = count /\ 0 < count /\ chosen_block sb count (alloc_base_slot a) /\
        sb_allocated_count sb' = (sb_allocated_count sb + Z.of_nat count)%Z /\
        forall j, SlotBitmap_is_allocated sb' j = owns a j || SlotBitmap_is_allocated sb j
    | None =>
        sb' = sb /\ (count = 0 \/
          forall b, ~ free_run (SlotBitmap_is_allocated sb) (sb_total_slots sb) b count)
    end.
Proof.
  intros Hwf. unfold SlotBitmap_alloc_contiguous.
  destruct (Nat.eqb_spec count 0) as [-> | Hc].
  { exists sb, None. repeat split; try done; try apply Hwf. by left. }
  rewrite wf_free_count by done.
  destruct (Z.ltb_spec (Z.of_nat (sb_total_slots sb) - sb_allocated_count sb) (Z.of_nat count)) as [Hlt | Hge].
  { exists sb, None. repeat split; try done; try apply Hwf. right. intros b Hrun.
    apply free_run_count in Hrun. rewrite (wf_count _ Hwf) in Hlt. lia. }
  destruct (alloc_search_spec sb count Hwf ltac:(lia)) as
    [(b & Hb & E) | [(b & Hb & Hs & E & E0) | (E & E0 & Hno)]]; rewrite E.
  - destruct (mark_allocated_spec sb b count Hwf (chosen_block_free _ _ _ Hb)) as (sb' & Hm & Hwf' & Ht & Hn & Hj).
    rewrite Hm. simpl. eexists _, _. repeat split; try done; try apply Hwf'. simpl; lia.
  - rewrite (proj2 (Nat.ltb_lt _ _) Hs), E0.
    destruct (mark_allocated_spec sb b count Hwf (chosen_block_free _ _ _ Hb)) as (sb' & Hm & Hwf' & Ht & Hn & Hj).
    rewrite Hm. simpl. eexists _, _. repeat split; try done; try apply Hwf'. simpl; lia.
  - exists sb, None. split; [|repeat split; try done; try apply Hwf; by right].
    destruct E0 as [Hz | E0]; [by rewrite Hz |]. rewrite E0. by case_match.
Qed.

(** ** The view against the in-memory allocator *)
Lemma find_free_loop_ext f g count n : (forall j, f j = g j) -> forall slot c bs,
  find_free_loop f count slot n c bs = find_free_loop g count slot n c bs.
Proof. intros Hfg. induction n as [|n IH]; intros; simpl; [done |]. by rewrite Hfg, !IH. Qed.

Lemma view_total sb : SlotBitmapView_total_slots (view_of sb) = sb_total_slots sb.
Proof. apply Nat2Z.id. Qed.

Lemma view_is_allocated sb j :
  SlotBitmapView_is_allocated (view_of sb) j = SlotBitmap_is_allocated sb j.
Proof. unfold SlotBitmapView_is_allocated. by rewrite view_total. Qed.

Lemma view_find sb start count :
  SlotBitmapView_find_contiguous_free (view_of sb) start count =
  SlotBitmap_find_contiguous_free sb start count.
Proof.
  unfold SlotBitmapView_find_contiguous_free. rewrite view_total.
  apply find_free_loop_ext, view_is_allocated.
Qed.

Lemma u32_counter_agree (total : nat) (c d : Z) :
  (Z.of_nat total < 2 ^ 32)%Z -> (0 <= d)%Z -> (0 <= c <= Z.of_nat total)%Z ->
  (0 <= c + d <= Z.of_nat total)%Z -> wrapping_add 32 c (wrap 32 d) = wrapping_add 64 c d.
Proof.
  intros Ht Hd Hc Hs. unfold wrapping_add. rewrite (wrap_small 32 d) by solve_uint.
  rewrite !wrap_small by (unfold is_uint; lia). done.
Qed.

Lemma view_mark sb b count :
  SlotBitmap_wf sb -> free_run (SlotBitmap_is_allocated sb) (sb_total_slots sb) b count ->
  SlotBitmapView_mark_allocated (view_of sb) b count =
  outcome_map view_of (SlotBitmap_mark_allocated sb b count).
Proof.
  intros Hwf Hrun. pose proof (wf_counter_range _ Hwf). pose proof (wf_total _ Hwf).
  pose proof (free_run_count _ _ _ Hrun). pose proof Hrun as [Hle _].
  unfold SlotBitmapView_mark_allocated, SlotBitmap_mark_allocated. rewrite view_total. simpl.
  destruct (words_update_range bit_set (sb_bitmap sb) b count) as [ws |]; [simpl | done].
  unfold view_of; simpl. do 3 f_equal.
  - apply u32_counter_agree with (sb_total_slots sb); rewrite ?(wf_count _ Hwf) in *; lia.
  - destruct (Nat.ltb_spec (b + count) (sb_total_slots sb)); [apply wrap_small; solve_uint | done].
Qed.

Lemma view_alloc sb count :
  SlotBitmap_wf sb ->
  SlotBitmapView_alloc_contiguous (view_of sb) count =
  outcome_map (fun p => (view_of (fst p), snd p)) (SlotBitmap_alloc_contiguous sb count).
Proof.
  intros Hwf. unfold SlotBitmapView_alloc_contiguous, SlotBitmap_alloc_contiguous.
  destruct (Nat.eqb_spec count 0) as [-> | Hc]; [done |].
  rewrite view_total. unfold SlotBitmap_free_count, SlotBitmapView_allocated_count.
  simpl. rewrite Nat2Z.id, !view_find. case_match; [done |].
  destruct (alloc_search_spec sb count Hwf ltac:(lia)) as
    [(b & Hb & E) | [(b & Hb & Hs & E & E0) | (E & E0 & _)]]; rewrite E.
  - rewrite (view_mark _ _ _ Hwf (chosen_block_free _ _ _ Hb)). by destruct (SlotBitmap_mark_allocated sb b count).
  - rewrite E0, (view_mark _ _ _ Hwf (chosen_block_free _ _ _ Hb)).
    case_match; [|done]. by destruct (SlotBitmap_mark_allocated sb b count).
  - destruct E0 as [E0 | E0]; rewrite E0; [done | by case_match].
Qed.

Lemma view_free sb b count :
  SlotBitmap_wf sb -> b + count <= sb_total_slots sb ->
  (forall j, b <= j < b + count -> SlotBitmap_is_allocated sb j = true) ->
  SlotBitmapView_free (view_of sb) b count = outcome_map view_of (SlotBitmap_free sb b count).
Proof.
  intros Hwf Hle Hall. destruct (free_block_spec sb b count Hwf Hle Hall) as (sb' & Hf & Hwf' & Ht & Hn & _).
  pose proof (wf_counter_range _ Hwf). pose proof (wf_counter_range _ Hwf').
  pose proof (wf_total _ Hwf).
  assert (Hsub : wrapping_sub 32 (sb_allocated_count sb) (wrap 32 (Z.of_nat count)) =
                 wrapping_sub 64 (sb_allocated_count sb) (Z.of_nat count)).
  { unfold wrapping_sub. rewrite (wrap_small 32 (Z.of_nat count)) by solve_uint.
    by rewrite !wrap_small by solve_uint. }
  unfold SlotBitmapView_free, SlotBitmap_free. simpl. rewrite Nat2Z.id.
  destruct (words_update_range bit_clear (sb_bitmap sb) b count) as [ws |]; [simpl | done].
  unfold view_of; simpl. rewrite Hsub. do 3 f_equal.
  case_match; [apply wrap_small; solve_uint | done].
Qed.

Lemma view_observed sb :
  SlotBitmapView_total_slots (view_of sb) = sb_total_slots sb /\
  SlotBitmapView_allocated_count (view_of sb) = sb_allocated_count sb /\
  SlotBitmapView_free_count (view_of sb) = SlotBitmap_free_count sb /\
  (forall j, SlotBitmapView_is_allocated (view_of sb) j = SlotBitmap_is_allocated sb j) /\
  SlotBitmapView_stats (view_of sb) = SlotBitmap_stats sb.
Proof.
  unfold SlotBitmapView_free_count, SlotBitmapView_stats. rewrite !view_total.
  split; [done | split; [done | split; [done | split; [apply view_is_allocated | done]]]].
Qed.

Lemma view_init v total : bh_total_slots (bv_header v) = Z.of_nat total -> length (bv_bitmap v) = div_ceil64 total ->
  SlotBitmapView_init_all_free v = view_of (SlotBitmap_new total).
Proof.
  intros Ht Hl. unfold SlotBitmapView_init_all_free, view_of, SlotBitmap_new. simpl. rewrite Ht. f_equal. rewrite <- Hl.
  clear. induction (bv_bitmap v) as [|w ws IH]; [done |]. simpl. by rewrite IH.
Qed.

Lemma view_run ops : forall sb, SlotBitmap_wf sb -> frees_allocated sb ops ->
  exists sb' told, run_bitmap sb ops = Ret (sb', told) /\ run_view (view_of sb) ops = Ret (view_of sb', told) /\ SlotBitmap_wf sb'.
Proof.
  induction ops as [|[count | b count] ops IH]; intros sb Hwf Hops; cbn [run_ops frees_allocated] in *; [by exists sb, [] |..].
  - rewrite (view_alloc sb count Hwf). destruct (alloc_contiguous_correct sb count Hwf) as (sb1 & r & E & Hwf1 & _). rewrite E in Hops |- *.
    simpl. destruct (IH sb1 Hwf1 Hops) as (sb' & told & -> & -> & Hwf'). by exists sb', (r :: told).
  - destruct Hops as (Hle & Hall & Hops). rewrite (view_free sb b count Hwf Hle Hall).
    destruct (free_block_spec sb b count Hwf Hle Hall) as (sb1 & E & Hwf1 & _). rewrite E in Hops |- *. simpl. by apply IH.
Qed.

(** * Properties *)

(** A successful allocation returns [count] contiguous slots inside the pool
    that were all free, marks exactly those slots, adds [count] to the counter
    and keeps the representation invariant. *)
Theorem alloc_contiguous_sound sb count sb' a :
  SlotBitmap_wf sb -> SlotBitmap_alloc_contiguous sb count = Ret (sb', Some a) ->
  SlotBitmap_wf sb' /\ alloc_count a = count /\
  alloc_base_slot a + count <= sb_total_slots sb /\
  (forall j, owns a j = true -> SlotBitmap_is_allocated sb j = false) /\
  (forall j, SlotBitmap_is_allocated sb' j = owns a j || SlotBitmap_is_allocated sb j) /\
  sb_allocated_count sb' = (sb_allocated_count sb + Z.of_nat count)%Z.
Proof.
  intros Hwf Heq. destruct (alloc_contiguous_correct sb count Hwf) as (sb1 & r & E & Hwf1 & Ht & Hr).
  rewrite Heq in E. injection E as <- <-. destruct Hr as (Hc & Hpos & Hch & Hn & Hj).
  pose proof (chosen_block_free _ _ _ Hch) as [Hle Hfree].
  repeat split; try done; try apply Hwf1.
  intros j Ho%in_block_true. apply Hfree. lia.
Qed.

Definition sb_demo : SlotBitmap :=
  match SlotBitmap_alloc_contiguous (SlotBitmap_new 130) 70 with
  | Ret (sb, _) => sb
  | Panic => SlotBitmap_new 130
  end.

Lemma sb_demo_wf : SlotBitmap_wf sb_demo.
Proof. split; vm_compute; try reflexivity; repeat constructor. Qed.

Lemma alloc_contiguous_sound_witness :
  exists sb' a, SlotBitmap_alloc_contiguous sb_demo 60 = Ret (sb', Some a) /\
    alloc_base_slot a = 70 /\ SlotBitmap_wf sb' /\ sb_allocated_count sb' = 130%Z.
Proof.
  destruct (SlotBitmap_alloc_contiguous sb_demo 60) as [[sb' [a |]] |] eqn:E.
  - exists sb', a. split; [reflexivity |].
    destruct (alloc_contiguous_sound sb_demo 60 sb' a sb_demo_wf E) as (Hwf & _ & _ & _ & _ & Hn).
    vm_compute in E. injection E as <- <-. split; [done |]. split; [exact Hwf | exact Hn].
  - vm_compute in E. discriminate.
  - vm_compute in E. discriminate.
Defined.

(** Allocation never fails spuriously: for a positive [count] it succeeds
    exactly when the pool has [count] contiguous free slots anywhere, whatever
    the hint is, and it never panics. *)
Theorem alloc_contiguous_complete sb count :
  SlotBitmap_wf sb -> 0 < count ->
  (exists b, free_run (SlotBitmap_is_allocated sb) (sb_total_slots sb) b count) <->
  (exists sb' a, SlotBitmap_alloc_contiguous sb count = Ret (sb', Some a)).
Proof.
  intros Hwf Hc. destruct (alloc_contiguous_correct sb count Hwf) as (sb' & r & E & _ & _ & Hr).
  rewrite E. split.
  - intros [b Hb]. destruct r as [a |]; [by eauto |].
    destruct Hr as [_ [-> | Hno]]; [lia | by destruct (Hno b)].
  - intros (sb1 & a & [= -> ->]). destruct Hr as (_ & _ & Hch & _).
    eexists. by apply chosen_block_free.
Qed.

Lemma alloc_contiguous_complete_witness :
  exists sb' a, SlotBitmap_alloc_contiguous (mkSlotBitmap 70 1 0 [8%Z; 0%Z]) 60 = Ret (sb', Some a).
Proof.
  apply (alloc_contiguous_complete (mkSlotBitmap 70 1 0 [8%Z; 0%Z]) 60).
  - split; vm_compute; try reflexivity; repeat constructor.
  - lia.
  - exists 5. split; [simpl; lia |]. intros j Hj.
    assert (Hin : In j (seq 5 60)) by (apply in_seq; lia).
    revert Hin. repeat (simpl; intros [<- | Hin]; [vm_compute; reflexivity | revert Hin]). intros [].
Defined.

(** Freeing what was allocated undoes the allocation: the same slots are
    taken as before, the counter returns to its value and the invariant holds. *)
Theorem alloc_free_roundtrip sb count sb' a :
  SlotBitmap_wf sb -> SlotBitmap_alloc_contiguous sb count = Ret (sb', Some a) ->
  exists sb'', SlotBitmap_free sb' (alloc_base_slot a) (alloc_count a) = Ret sb'' /\
    SlotBitmap_wf sb'' /\ sb_allocated_count sb'' = sb_allocated_count sb /\
    forall j, SlotBitmap_is_allocated sb'' j = SlotBitmap_is_allocated sb j.
Proof.
  intros Hwf Heq. destruct (alloc_contiguous_correct sb count Hwf) as (sb1 & r & E & Hwf1 & Ht & Hr).
  rewrite Heq in E. injection E as <- <-. destruct Hr as (Hc & Hpos & Hch & Hn & Hj).
  pose proof (chosen_block_free _ _ _ Hch) as [Hle Hfree].
  destruct (free_block_spec sb' (alloc_base_slot a) (alloc_count a) Hwf1) as (sb2 & Hf & Hwf2 & Ht2 & Hn2 & Hj2).
  - lia.
  - intros j Hin. rewrite Hj. unfold owns. by rewrite (proj2 (in_block_true _ _ _)).
  - exists sb2. repeat split; try done; try apply Hwf2; [lia |].
    intros j. rewrite Hj2, Hj. unfold owns.
    destruct (in_block (alloc_base_slot a) (alloc_count a) j) eqn:Eb; simpl; [|done].
    symmetry. apply Hfree. apply in_block_true in Eb. lia.
Qed.

Lemma alloc_free_roundtrip_witness :
  exists sb' a sb'', SlotBitmap_alloc_contiguous sb_demo 60 = Ret (sb', Some a) /\
    SlotBitmap_free sb' (alloc_base_slot a) (alloc_count a) = Ret sb'' /\
    sb_allocated_count sb'' = sb_allocated_count sb_demo.
Proof.
  destruct (SlotBitmap_alloc_contiguous sb_demo 60) as [[sb' [a |]] |] eqn:E.
  - destruct (alloc_free_roundtrip sb_demo 60 sb' a sb_demo_wf E) as (sb'' & Hf & _ & Hn & _).
    exists sb', a, sb''. split; [reflexivity | split; [exact Hf | exact Hn]].
  - vm_compute in E. discriminate.
  - vm_compute in E. discriminate.
Defined.

(** C38: the shared-memory allocator with its [u32] header behaves as the in-memory one.
    Over a pool of less than 2^32 slots, take a view with the words of the pool,
    initialised with [init_all_free], and a new in-memory bitmap, and run the same sequence
    of allocations and frees on both, in which every freed block lies in the pool and is
    allocated as a whole when it is freed.  Neither panics, both give the same answers, and
    afterwards they agree in the total, the allocated and the free count, in every slot and
    in their statistics. *)
Theorem view_simulates total v ops :
  (Z.of_nat total < 2 ^ 32)%Z -> bh_total_slots (bv_header v) = Z.of_nat total -> length (bv_bitmap v) = div_ceil64 total ->
  frees_allocated (SlotBitmap_new total) ops ->
  exists sb v' told, run_bitmap (SlotBitmap_new total) ops = Ret (sb, told) /\
    run_view (SlotBitmapView_init_all_free v) ops = Ret (v', told) /\
    SlotBitmapView_total_slots v' = sb_total_slots sb /\
    SlotBitmapView_allocated_count v' = sb_allocated_count sb /\
    SlotBitmapView_free_count v' = SlotBitmap_free_count sb /\
    (forall j, SlotBitmapView_is_allocated v' j = SlotBitmap_is_allocated sb j) /\
    SlotBitmapView_stats v' = SlotBitmap_stats sb.
Proof.
  intros Ht Hh Hl Hops. rewrite (view_init v total Hh Hl).
  destruct (view_run ops (SlotBitmap_new total) (SlotBitmap_new_wf total Ht) Hops) as (sb & told & Hr & Hv & _).
  exists sb, (view_of sb), told. split; [done | split; [done | apply view_observed]].
Qed.

Definition demo_ops : list PoolOp := [OpAlloc 65; OpAlloc 4; OpFree 1 3; OpAlloc 3; OpAlloc 70].

Lemma view_simulates_witness : exists sb v' told,
  run_bitmap (SlotBitmap_new 70) demo_ops = Ret (sb, told) /\
  run_view (SlotBitmapView_init_all_free (mkSlotBitmapView (mkSlotBitmapHeader 70 9 9) [5; 7]%Z)) demo_ops = Ret (v', told) /\
  told = [Some (mkSlotAllocation 0 65); Some (mkSlotAllocation 65 4); Some (mkSlotAllocation 1 3); None] /\
  SlotBitmapView_stats v' = SlotBitmap_stats sb.
Proof.
  destruct (view_simulates 70 (mkSlotBitmapView (mkSlotBitmapHeader 70 9 9) [5; 7]%Z) demo_ops) as (sb & v' & told & Hr & Hv & _ & _ & _ & _ & Hs).
  - lia.
  - reflexivity.
  - reflexivity.
  - unfold demo_ops. vm_compute. split; [repeat constructor |]. split; [| exact I].
    intros j [H1 H2]. assert (j = 1 \/ j = 2 \/ j = 3) as [-> | [-> | ->]] by lia; reflexivity.
  - exists sb, v', told. split; [exact Hr |]. split; [exact Hv |]. split; [| exact Hs]. vm_compute in Hr. injection Hr as _ <-. reflexivity.
Defined.
