(* ===== verification/PointSlot.v ===== *)
(** The seqlocked point slot: [libs/voltage-rtdb-shm/src/core/slot.rs].

    Sequential operations of [PointSlot] as functions on a record, and the
    concurrent protocol as a step relation [slot_step] in which every atomic
    access of [set] and of [try_load_consistent]/[load_consistent] is one step
    of an interleaving of one writer, one reader and a flusher that clears the
    dirty flag.  The relation is sequentially consistent: the source's two
    Acquire fences, its Release fence and the Release increment keep each side's
    accesses in program order, which is what the interleaving assumes. *)
From stdpp Require Import base numbers list relations.
From Stdlib Require Import ZArith Lia.
From S2P Require Import Prelude.
Local Open Scope Z_scope.

(** * Data and sequential operations *)

Record PointSlot := mkPointSlot {
  ps_value_bits : Z;
  ps_timestamp : Z;
  ps_raw_bits : Z;
  ps_seq : Z;
  ps_dirty : Z
}.

(** A committed reading: value bits, raw bits, timestamp. *)
Abbreviation reading := (Z * Z * Z)%type.

Definition SLOT_UNWRITTEN_BITS : Z := 0x7FF8000000000000.
Definition MAX_CONSISTENCY_RETRIES : nat := Z.to_nat 32768.

Definition PointSlot_new : PointSlot := mkPointSlot SLOT_UNWRITTEN_BITS 0 SLOT_UNWRITTEN_BITS 0 0.

Definition PointSlot_is_unwritten (s : PointSlot) : bool := f64_is_nan (ps_value_bits s).

Definition PointSlot_init_unwritten (s : PointSlot) : PointSlot :=
  mkPointSlot SLOT_UNWRITTEN_BITS (ps_timestamp s) SLOT_UNWRITTEN_BITS (ps_seq s) (ps_dirty s).

Definition PointSlot_get_value (s : PointSlot) : Z := ps_value_bits s.
Definition PointSlot_get_timestamp (s : PointSlot) : Z := ps_timestamp s.
Definition PointSlot_get_raw (s : PointSlot) : Z := ps_raw_bits s.

Definition PointSlot_is_dirty (s : PointSlot) : bool := negb (ps_dirty s =? 0).
Definition PointSlot_clear_dirty (s : PointSlot) : PointSlot :=
  mkPointSlot (ps_value_bits s) (ps_timestamp s) (ps_raw_bits s) (ps_seq s) 0.

(** The atomic accesses [set] is made of. *)
Definition seq_fetch_add (s : PointSlot) : PointSlot :=
  mkPointSlot (ps_value_bits s) (ps_timestamp s) (ps_raw_bits s) (wrapping_add 32 (ps_seq s) 1) (ps_dirty s).
Definition store_value (v : Z) (s : PointSlot) : PointSlot :=
  mkPointSlot v (ps_timestamp s) (ps_raw_bits s) (ps_seq s) (ps_dirty s).
Definition store_raw (r : Z) (s : PointSlot) : PointSlot :=
  mkPointSlot (ps_value_bits s) (ps_timestamp s) r (ps_seq s) (ps_dirty s).
Definition store_timestamp (t : Z) (s : PointSlot) : PointSlot :=
  mkPointSlot (ps_value_bits s) t (ps_raw_bits s) (ps_seq s) (ps_dirty s).
Definition store_dirty (s : PointSlot) : PointSlot :=
  mkPointSlot (ps_value_bits s) (ps_timestamp s) (ps_raw_bits s) (ps_seq s) 1.

Definition PointSlot_set (s : PointSlot) (value raw timestamp : Z) : PointSlot :=
  store_dirty (seq_fetch_add (store_timestamp timestamp (store_raw raw (store_value value (seq_fetch_add s))))).

Definition PointSlot_try_load_consistent (s : PointSlot) : option reading :=
  let seq1 := ps_seq s in
  if negb (Z.land seq1 1 =? 0) then None
  else
    let value := ps_value_bits s in
    let raw := ps_raw_bits s in
    let ts := ps_timestamp s in
    let seq2 := ps_seq s in
    if seq1 =? seq2 then Some (value, raw, ts) else None.

(** [for _ in 0..MAX { if let Some(r) = try() { return Some(r) } } None] on a
    slot no one writes meanwhile. *)
Fixpoint load_retry (n : nat) (s : PointSlot) : option reading :=
  match n with
  | O => None
  | S n =>
      match PointSlot_try_load_consistent s with
      | Some r => Some r
      | None => load_retry n s
      end
  end.

Definition PointSlot_load_consistent (s : PointSlot) : option reading :=
  load_retry MAX_CONSISTENCY_RETRIES s.

(** * The concurrent protocol *)

(** Where the writer is inside [set value raw timestamp]. *)
Inductive writer_pc :=
| WIdle
| WSeqOdd (d : reading)
| WValueStored (d : reading)
| WRawStored (d : reading)
| WTimestampStored (d : reading)
| WSeqEven (d : reading).

(** Where the reader is inside [load_consistent]; [k] attempts are left after
    the current one ([try_load_consistent] is the case of one attempt), [s1] is
    the sequence number it loaded first.  [n1] is ghost: how many increments the
    sequence counter had received when [s1] was loaded. *)
Inductive reader_pc :=
| RStart (k : nat)
| RSeq1 (k : nat) (n1 s1 : Z)
| RValue (k : nat) (n1 s1 v : Z)
| RRaw (k : nat) (n1 s1 v r : Z)
| RTimestamp (k : nat) (n1 s1 v r t : Z)
| RDone (res : option reading).

(** [incs] (the unbounded number of counter increments) and [committed] (the
    reading of the last completed [set]) are ghost. *)
Record slot_sys := mkSys {
  sys_slot : PointSlot;
  sys_writer : writer_pc;
  sys_reader : reader_pc;
  sys_incs : Z;
  sys_committed : reading
}.

Definition slot_reading (s : PointSlot) : reading := (ps_value_bits s, ps_raw_bits s, ps_timestamp s).

Inductive slot_step : slot_sys -> slot_sys -> Prop :=
| step_set_begin s r n c d :
    slot_step (mkSys s WIdle r n c) (mkSys (seq_fetch_add s) (WSeqOdd d) r (n + 1) c)
| step_set_value s r n c d :
    slot_step (mkSys s (WSeqOdd d) r n c) (mkSys (store_value d.1.1 s) (WValueStored d) r n c)
| step_set_raw s r n c d :
    slot_step (mkSys s (WValueStored d) r n c) (mkSys (store_raw d.1.2 s) (WRawStored d) r n c)
| step_set_timestamp s r n c d :
    slot_step (mkSys s (WRawStored d) r n c) (mkSys (store_timestamp d.2 s) (WTimestampStored d) r n c)
| step_set_end s r n c d :
    slot_step (mkSys s (WTimestampStored d) r n c) (mkSys (seq_fetch_add s) (WSeqEven d) r (n + 1) d)
| step_set_dirty s r n c d :
    slot_step (mkSys s (WSeqEven d) r n c) (mkSys (store_dirty s) WIdle r n c)
| step_clear_dirty s w r n c :
    slot_step (mkSys s w r n c) (mkSys (PointSlot_clear_dirty s) w r n c)
| step_load_exhausted s w n c :
    slot_step (mkSys s w (RStart 0) n c) (mkSys s w (RDone None) n c)
| step_load_seq1_odd s w n c k :
    Z.land (ps_seq s) 1 <> 0 ->
    slot_step (mkSys s w (RStart (S k)) n c) (mkSys s w (RStart k) n c)
| step_load_seq1 s w n c k :
    Z.land (ps_seq s) 1 = 0 ->
    slot_step (mkSys s w (RStart (S k)) n c) (mkSys s w (RSeq1 k n (ps_seq s)) n c)
| step_load_value s w n c k n1 s1 :
    slot_step (mkSys s w (RSeq1 k n1 s1) n c) (mkSys s w (RValue k n1 s1 (ps_value_bits s)) n c)
| step_load_raw s w n c k n1 s1 v :
    slot_step (mkSys s w (RValue k n1 s1 v) n c) (mkSys s w (RRaw k n1 s1 v (ps_raw_bits s)) n c)
| step_load_timestamp s w n c k n1 s1 v r :
    slot_step (mkSys s w (RRaw k n1 s1 v r) n c)
              (mkSys s w (RTimestamp k n1 s1 v r (ps_timestamp s)) n c)
| step_load_seq2_equal s w n c k n1 s1 v r t :
    s1 = ps_seq s ->
    slot_step (mkSys s w (RTimestamp k n1 s1 v r t) n c) (mkSys s w (RDone (Some (v, r, t))) n c)
| step_load_seq2_changed s w n c k n1 s1 v r t :
    s1 <> ps_seq s ->
    slot_step (mkSys s w (RTimestamp k n1 s1 v r t) n c) (mkSys s w (RStart k) n c).

(** The writer is at rest, the reader is about to call [load_consistent] with
    [k] attempts. *)
Definition slot_init (s : PointSlot) (k : nat) : slot_sys :=
  mkSys s WIdle (RStart k) (ps_seq s) (slot_reading s).

Definition slot_rest (s : PointSlot) : Prop := is_uint 32 (ps_seq s) /\ Z.land (ps_seq s) 1 = 0.

(** * Lemmas *)

Lemma land_1_parity z : Z.land z 1 = 0 <-> Z.even z = true.
Proof.
  change 1 with (Z.ones 1). rewrite Z.land_ones by lia. change (2 ^ 1) with 2.
  rewrite Zmod_even. destruct (Z.even z); intuition lia.
Qed.

Lemma wrap_even w z : 1 <= w -> Z.even (wrap w z) = Z.even z.
Proof. intros Hw. rewrite <- !Z.negb_odd. by rewrite wrap_parity. Qed.

Definition writer_quiet (w : writer_pc) : bool :=
  match w with WIdle | WSeqEven _ => true | _ => false end.

(** What the writer has stored so far is in the slot. *)
Definition writer_inv (s : PointSlot) (w : writer_pc) (c : reading) : Prop :=
  match w with
  | WIdle => slot_reading s = c
  | WSeqOdd d => True
  | WValueStored d => ps_value_bits s = d.1.1
  | WRawStored d => ps_value_bits s = d.1.1 /\ ps_raw_bits s = d.1.2
  | WTimestampStored d => slot_reading s = d
  | WSeqEven d => slot_reading s = c /\ c = d
  end.

(** What the reader has loaded so far, relative to the increments since. *)
Definition reader_inv (r : reader_pc) (n : Z) (c : reading) : Prop :=
  match r with
  | RStart _ | RDone _ => True
  | RSeq1 _ n1 s1 => s1 = wrap 32 n1 /\ Z.even n1 = true /\ n1 <= n
  | RValue _ n1 s1 v =>
      s1 = wrap 32 n1 /\ Z.even n1 = true /\ n1 <= n /\ (n1 = n -> v = c.1.1)
  | RRaw _ n1 s1 v r =>
      s1 = wrap 32 n1 /\ Z.even n1 = true /\ n1 <= n /\ (n1 = n -> v = c.1.1 /\ r = c.1.2)
  | RTimestamp _ n1 s1 v r t =>
      s1 = wrap 32 n1 /\ Z.even n1 = true /\ n1 <= n /\ (n1 = n -> (v, r, t) = c)
  end.

Record sys_inv (x : slot_sys) : Prop := {
  inv_seq : ps_seq (sys_slot x) = wrap 32 (sys_incs x);
  inv_parity : Z.even (sys_incs x) = writer_quiet (sys_writer x);
  inv_writer : writer_inv (sys_slot x) (sys_writer x) (sys_committed x);
  inv_reader : reader_inv (sys_reader x) (sys_incs x) (sys_committed x)
}.

Lemma sys_inv_init s k : slot_rest s -> sys_inv (slot_init s k).
Proof.
  intros [Hr He]. split; simpl; try done.
  - symmetry. by apply wrap_small.
  - by apply land_1_parity.
Qed.

(** The reader learns nothing new when the counter moves on. *)
Lemma reader_inv_advance r n c d : reader_inv r n c -> reader_inv r (n + 1) d.
Proof. destruct r; simpl; intuition lia. Qed.

Lemma even_succ_false n b : Z.even n = b -> Z.even (n + 1) = negb b.
Proof. intros <-. rewrite Z.even_add. by destruct (Z.even n). Qed.

(** With the writer quiet, the slot holds the committed reading. *)
Lemma quiet_reading x : sys_inv x -> Z.even (sys_incs x) = true ->
  slot_reading (sys_slot x) = sys_committed x.
Proof.
  intros [_ Hp Hw _] He. rewrite He in Hp.
  destruct (sys_writer x); simpl in *; try done. by destruct Hw.
Qed.

Lemma sys_inv_step x y : slot_step x y -> sys_inv x -> sys_inv y.
Proof.
  intros Hstep Hinv. pose proof (quiet_reading _ Hinv) as Hq.
  destruct Hinv as [Hs Hp Hw Hr]. destruct Hstep; simpl in *; split; simpl;
    try done; try (by apply (reader_inv_advance _ _ c)); try (by rewrite (even_succ_false _ _ Hp)).
  all: try (rewrite Hs; apply wrap_add_wrap_l).
  all: try (by destruct c as [[]]).
  all: try (by destruct d as [[]]; unfold slot_reading in *; simpl in *; intuition congruence).
  all: try (by destruct w; simpl in *; unfold slot_reading in *; simpl; intuition congruence).
  - split; [done |]. split; [|lia]. apply land_1_parity in H. by rewrite Hs, wrap_even in H by lia.
  - destruct Hr as (? & He & ? ). repeat split; try done. intros ->. by rewrite <- (Hq He).
  - destruct Hr as (? & He & ? & Hv). repeat split; try done; [by apply Hv |].
    subst n1. by rewrite <- (Hq He).
  - destruct Hr as (? & He & ? & Hv). repeat split; try done. intros ->.
    destruct (Hv eq_refl) as [-> ->]. by rewrite <- (Hq He).
Qed.

Lemma sys_inv_rtc x y : rtc slot_step x y -> sys_inv x -> sys_inv y.
Proof. induction 1; eauto using sys_inv_step. Qed.

Lemma sys_inv_reachable s k x :
  slot_rest s -> rtc slot_step (slot_init s k) x -> sys_inv x.
Proof. eauto using sys_inv_rtc, sys_inv_init. Qed.

(** A load whose two sequence numbers agree, with fewer than [2^32] increments
    in between, saw no increment at all. *)
Lemma seq_equal_no_incs n1 n :
  n1 <= n -> n - n1 < 2 ^ 32 -> wrap 32 n1 = wrap 32 n -> n1 = n.
Proof. intros Hle Hlt Heq. apply (wrap_eq_diff 32); lia. Qed.

(** ** One thread running alone *)
Definition with_reader (x : slot_sys) (r : reader_pc) : slot_sys :=
  mkSys (sys_slot x) (sys_writer x) r (sys_incs x) (sys_committed x).

Lemma run_set s r n c v rw t :
  rtc slot_step (mkSys s WIdle r n c)
    (mkSys (PointSlot_set s v rw t) WIdle r (n + 2) (v, rw, t)).
Proof.
  replace (n + 2) with (n + 1 + 1) by lia.
  eapply rtc_l; [apply (step_set_begin _ _ _ _ (v, rw, t)) |].
  do 5 (eapply rtc_l; [constructor |]). apply rtc_refl.
Qed.

Fixpoint set_many (m : nat) (s : PointSlot) (v rw t : Z) : PointSlot :=
  match m with
  | O => s
  | S m => set_many m (PointSlot_set s v rw t) v rw t
  end.

Lemma set_seq s v rw t : ps_seq (PointSlot_set s v rw t) = wrap 32 (ps_seq s + 2).
Proof. simpl. unfold wrapping_add. rewrite wrap_add_wrap_l. f_equal. lia. Qed.

Lemma run_set_many m : forall s r n v rw t,
  rtc slot_step (mkSys (PointSlot_set s v rw t) WIdle r n (v, rw, t))
    (mkSys (set_many m (PointSlot_set s v rw t) v rw t) WIdle r (n + 2 * Z.of_nat m) (v, rw, t)).
Proof.
  induction m as [|m IH]; intros s r n v rw t.
  - rewrite Z.add_0_r. apply rtc_refl.
  - etrans; [apply run_set |].
    replace (n + 2 * Z.of_nat (S m)) with (n + 2 + 2 * Z.of_nat m) by lia. apply IH.
Qed.

Lemma set_many_seq m : forall s v rw t,
  is_uint 32 (ps_seq s) -> ps_seq (set_many m s v rw t) = wrap 32 (ps_seq s + 2 * Z.of_nat m).
Proof.
  induction m as [|m IH]; intros s v rw t Hs.
  - simpl. rewrite Z.add_0_r. symmetry. by apply wrap_small.
  - cbn [set_many]. rewrite IH by (rewrite set_seq; by apply wrap_uint).
    rewrite set_seq, wrap_add_wrap_l. f_equal. lia.
Qed.

Lemma set_many_reading m : forall s v rw t,
  slot_reading (set_many m (PointSlot_set s v rw t) v rw t) = (v, rw, t).
Proof. induction m as [|m IH]; intros; [done | apply IH]. Qed.

Lemma load_retry_first n s d :
  (0 < n)%nat -> PointSlot_try_load_consistent s = Some d -> load_retry n s = Some d.
Proof. intros Hn Ht. destruct n; [lia |]. simpl. by rewrite Ht. Qed.

#[local] Opaque Z.to_nat.

Lemma retries_positive : (0 < MAX_CONSISTENCY_RETRIES)%nat.
Proof. unfold MAX_CONSISTENCY_RETRIES. apply (Z2Nat.inj_lt 0 32768); lia. Qed.

(** Reader steps left at most. *)
Definition reader_fuel (r : reader_pc) : nat :=
  match r with
  | RStart k => 5 * k + 1
  | RSeq1 k _ _ => 5 * k + 5
  | RValue k _ _ _ => 5 * k + 4
  | RRaw k _ _ _ _ => 5 * k + 3
  | RTimestamp k _ _ _ _ _ => 5 * k + 2
  | RDone _ => 0
  end.

(** * Properties *)

(** C1: no torn reads.  In every interleaving of a writer performing any number
    of [set]s with a reader, if the reader's second sequence load makes
    [load_consistent] return a reading, then that reading is exactly the one of
    the last completed [set] (or the initial one), it is what the slot holds at
    that moment, and no [set] is in progress -- provided fewer than [2^32]
    counter increments ([2^31] writes) happened during the attempt. *)
Theorem seqlock_no_torn_read s k x y n1 d :
  slot_rest s -> rtc slot_step (slot_init s k) x -> slot_step x y ->
  (exists k s1 v r t, sys_reader x = RTimestamp k n1 s1 v r t) ->
  sys_reader y = RDone (Some d) -> sys_incs x - n1 < 2 ^ 32 ->
  d = sys_committed x /\ slot_reading (sys_slot x) = d /\ writer_quiet (sys_writer x) = true.
Proof.
  intros Hs Hreach Hstep (k' & s1 & v & r & t & Hrd) Hdone Hlt.
  pose proof (sys_inv_reachable _ _ _ Hs Hreach) as Hinv.
  pose proof (quiet_reading _ Hinv) as Hq. destruct Hinv as [Hseq Hp _ Hr].
  destruct Hstep; simpl in *; simplify_eq.
  destruct Hr as (Heq & He & Hle & Hd). rewrite Hseq in Heq.
  assert (n1 = n) as -> by (by apply seq_equal_no_incs).
  rewrite <- Hp, He, (Hq He), (Hd eq_refl). done.
Qed.

Definition demo_slot : PointSlot := PointSlot_set PointSlot_new 7 8 9.

Definition demo_before_seq2 : slot_sys :=
  mkSys (PointSlot_set demo_slot 10 20 30) WIdle (RTimestamp 0 4 4 10 20 30) 4 (10, 20, 30).

Lemma seqlock_no_torn_read_witness :
  (10, 20, 30) = sys_committed demo_before_seq2 /\
  slot_reading (sys_slot demo_before_seq2) = (10, 20, 30) /\
  writer_quiet (sys_writer demo_before_seq2) = true.
Proof.
  apply (seqlock_no_torn_read demo_slot 1 demo_before_seq2
           (mkSys (PointSlot_set demo_slot 10 20 30) WIdle (RDone (Some (10, 20, 30))) 4 (10, 20, 30)) 4).
  - split; vm_compute; [split; congruence | reflexivity].
  - etrans; [apply (run_set demo_slot (RStart 1) 2 (7, 8, 9) 10 20 30) |].
    eapply rtc_l; [apply step_load_seq1; vm_compute; reflexivity |].
    eapply rtc_l; [apply step_load_value |]. eapply rtc_l; [apply step_load_raw |].
    eapply rtc_l; [apply step_load_timestamp |]. apply rtc_refl.
  - apply step_load_seq2_equal. vm_compute. reflexivity.
  - eexists _, _, _, _, _. reflexivity.
  - reflexivity.
  - vm_compute. reflexivity.
Defined.

(** The bound in the no-tearing theorem is tight.  The sequence counter is a
    [u32]: if exactly [2^31] complete [set]s of one reading land between the
    load of the value and the load of the raw part, the counter is back at the
    value first loaded and the reader returns a mix of two readings. *)
Theorem seqlock_wraparound_tears s v0 r0 t0 v r t :
  slot_rest s -> slot_reading s = (v0, r0, t0) ->
  exists x y n1 k s1,
    rtc slot_step (slot_init s 1) x /\ slot_step x y /\
    sys_reader x = RTimestamp k n1 s1 v0 r t /\ sys_incs x - n1 = 2 ^ 32 /\
    sys_reader y = RDone (Some (v0, r, t)) /\ sys_committed x = (v, r, t).
Proof.
  intros Hs Hrd.
  destruct (Z_of_nat_complete (2 ^ 31 - 1) ltac:(lia)) as [m Hm%eq_sym].
  set (s' := set_many m (PointSlot_set s v r t) v r t).
  assert (Hseq : ps_seq s' = ps_seq s).
  { unfold s'. rewrite set_many_seq by (rewrite set_seq; by apply wrap_uint).
    rewrite set_seq, wrap_add_wrap_l, Hm.
    replace (ps_seq s + 2 + 2 * (2 ^ 31 - 1)) with (ps_seq s + 1 * 2 ^ 32) by lia.
    unfold wrap. rewrite Z.mod_add by lia. by apply wrap_small, Hs. }
  assert (Hs' : slot_reading s' = (v, r, t)) by apply set_many_reading.
  exists (mkSys s' WIdle (RTimestamp 0 (ps_seq s) (ps_seq s) v0 r t) (ps_seq s + 2 ^ 32) (v, r, t)).
  exists (mkSys s' WIdle (RDone (Some (v0, r, t))) (ps_seq s + 2 ^ 32) (v, r, t)).
  exists (ps_seq s), 0%nat, (ps_seq s). split; [|split; [|simpl; repeat split; lia]].
  - unfold slot_init. eapply rtc_l; [by apply step_load_seq1, Hs |].
    eapply rtc_l; [apply step_load_value |]. injection Hrd as -> _ _.
    etrans; [apply (run_set s _ _ _ v r t) |].
    etrans; [apply (run_set_many m) |]. fold s'. rewrite Hm.
    replace (ps_seq s + 2 + 2 * (2 ^ 31 - 1)) with (ps_seq s + 2 ^ 32) by lia.
    injection Hs' as _ Hr' Ht'.
    eapply rtc_l; [apply step_load_raw |]. rewrite Hr'.
    eapply rtc_l; [apply step_load_timestamp |]. rewrite Ht'. apply rtc_refl.
  - by apply step_load_seq2_equal.
Qed.

Lemma seqlock_wraparound_tears_witness :
  exists x y n1 k s1,
    rtc slot_step (slot_init demo_slot 1) x /\ slot_step x y /\
    sys_reader x = RTimestamp k n1 s1 7 20 30 /\ sys_incs x - n1 = 2 ^ 32 /\
    sys_reader y = RDone (Some (7, 20, 30)) /\ sys_committed x = (10, 20, 30).
Proof.
  apply (seqlock_wraparound_tears demo_slot 7 8 9 10 20 30).
  - split; vm_compute; [split; congruence | reflexivity].
  - reflexivity.
Defined.

(** [load_consistent] terminates under contention: every step of the reader
    uses up fuel, so from [k] attempts it returns within [5 * k + 1] of its own
    steps whatever the writer does, and the writer's steps never add fuel. *)
Theorem load_consistent_terminates x y :
  slot_step x y ->
  sys_reader y = sys_reader x \/
  (reader_fuel (sys_reader y) < reader_fuel (sys_reader x))%nat.
Proof. destruct 1; simpl; auto; right; lia. Qed.

Definition demo_loaded : slot_sys := mkSys demo_slot WIdle (RSeq1 0 2 2) 2 (7, 8, 9).

Lemma load_consistent_terminates_witness :
  (reader_fuel (sys_reader demo_loaded) < reader_fuel (sys_reader (slot_init demo_slot 1)))%nat.
Proof.
  destruct (load_consistent_terminates (slot_init demo_slot 1) demo_loaded) as [H | H].
  - apply step_load_seq1. vm_compute. reflexivity.
  - discriminate H.
  - exact H.
Defined.

Lemma set_load_spec s v r t :
  slot_rest s ->
  let s' := PointSlot_set s v r t in
  PointSlot_try_load_consistent s' = Some (v, r, t) /\
  PointSlot_load_consistent s' = Some (v, r, t) /\
  PointSlot_is_dirty s' = true /\ slot_rest s' /\ ps_seq s' = wrap 32 (ps_seq s + 2).
Proof.
  intros [Hr He] s'. assert (Hseq : ps_seq s' = wrap 32 (ps_seq s + 2)) by apply set_seq.
  assert (Hev : Z.land (ps_seq s') 1 = 0).
  { apply land_1_parity. rewrite Hseq, wrap_even, Z.even_add by lia.
    apply land_1_parity in He. by rewrite He. }
  assert (Htry : PointSlot_try_load_consistent s' = Some (v, r, t)).
  { unfold PointSlot_try_load_consistent. cbv zeta. rewrite Hev. simpl negb. cbv iota. by rewrite Z.eqb_refl. }
  split; [done |]. split; [|split; [done |]].
  - by apply load_retry_first; [apply retries_positive |].
  - split; [split; [rewrite Hseq; by apply wrap_uint | done] | done].
Qed.

(** Without contention a read returns what the last [set] stored: for a slot
    at rest, [try_load_consistent] and [load_consistent] after [set] give back
    exactly the stored bits, the slot is marked dirty, and its counter advanced
    by two and is even again. *)
Theorem set_then_load s v r t :
  slot_rest s ->
  let s' := PointSlot_set s v r t in
  PointSlot_try_load_consistent s' = Some (v, r, t) /\
  PointSlot_load_consistent s' = Some (v, r, t) /\
  PointSlot_is_dirty s' = true /\ slot_rest s' /\ ps_seq s' = wrap 32 (ps_seq s + 2).
Proof. apply set_load_spec. Qed.

Lemma set_then_load_witness :
  PointSlot_load_consistent (PointSlot_set PointSlot_new 7 8 9) = Some (7, 8, 9).
Proof.
  apply (set_then_load PointSlot_new 7 8 9).
  split; vm_compute; [split; congruence | reflexivity].
Defined.
