(* ===== verification/PointTypes.v ===== *)
(** Core point types: [libs/voltage-core/src/types.rs].

    The four remote point types with their codes and the internal id encoding,
    data quality flags, and point values with their conversions.  Strings are
    Rocq strings (the source only compares them with ASCII literals); [f64] is
    its bit pattern. *)
From stdpp Require Import base numbers list gmap strings.
From Stdlib Require Import ZArith Lia.
From S2P Require Import Prelude.
Local Open Scope Z_scope.

(** * Data *)

Inductive PointType := Telemetry | Signal | Control | Adjustment.

#[export] Instance PointType_eq_dec : EqDecision PointType.
Proof. solve_decision. Defined.

Inductive Quality := Good | Stale | CommFail | DeviceError | OutOfRange | Invalid.

#[export] Instance Quality_eq_dec : EqDecision Quality.
Proof. solve_decision. Defined.

(** [String16(buf, len)]: a 16-byte buffer and the number of bytes used. *)
Inductive Value :=
| VFloat (bits : Z)
| VInteger (i : Z)
| VBool (b : bool)
| VString16 (buf : list Z) (len : Z).

(** * PointType *)

Definition PointType_OFFSET : Z := (2 ^ 32 - 1) / 4.

Definition PointType_as_str (p : PointType) : string :=
  match p with
  | Telemetry => "T"
  | Signal => "S"
  | Control => "C"
  | Adjustment => "A"
  end.

Definition PointType_to_u8 (p : PointType) : Z :=
  match p with
  | Telemetry => 0
  | Signal => 1
  | Control => 2
  | Adjustment => 3
  end.

Definition PointType_from_u8 (value : Z) : option PointType :=
  if value =? 0 then Some Telemetry
  else if value =? 1 then Some Signal
  else if value =? 2 then Some Control
  else if value =? 3 then Some Adjustment
  else None.


Definition PointType_from_str (s : string) : option PointType :=
  if one_of s ["T"; "t"; "YC"; "yc"; "Yc"; "yC"] then Some Telemetry
  else if one_of s ["S"; "s"; "YX"; "yx"; "Yx"; "yX"] then Some Signal
  else if one_of s ["C"; "c"; "YK"; "yk"; "Yk"; "yK"] then Some Control
  else if one_of s ["A"; "a"; "YT"; "yt"; "Yt"; "yT"] then Some Adjustment
  else None.

Definition PointType_is_measurement (p : PointType) : bool :=
  match p with Telemetry | Signal => true | _ => false end.
Definition PointType_is_action (p : PointType) : bool :=
  match p with Control | Adjustment => true | _ => false end.
Definition PointType_is_analog (p : PointType) : bool :=
  match p with Telemetry | Adjustment => true | _ => false end.
Definition PointType_is_digital (p : PointType) : bool :=
  match p with Signal | Control => true | _ => false end.

Definition PointType_type_offset (p : PointType) : Z :=
  match p with
  | Telemetry => 0
  | Signal => PointType_OFFSET
  | Control => wrap 32 (PointType_OFFSET * 2)
  | Adjustment => wrap 32 (PointType_OFFSET * 3)
  end.

Definition PointType_to_internal_id (p : PointType) (point_id : Z) : Z :=
  wrapping_add 32 point_id (PointType_type_offset p).

Definition PointType_from_internal_id (internal_id : Z) : PointType * Z :=
  let type_index := internal_id / PointType_OFFSET in
  let original_id := internal_id mod PointType_OFFSET in
  let point_type :=
    if type_index =? 0 then Telemetry
    else if type_index =? 1 then Signal
    else if type_index =? 2 then Control
    else Adjustment in
  (point_type, original_id).

(** * Quality *)

Definition Quality_is_good (q : Quality) : bool :=
  match q with Good => true | _ => false end.

Definition Quality_to_u8 (q : Quality) : Z :=
  match q with
  | Good => 0
  | Stale => 1
  | CommFail => 2
  | DeviceError => 3
  | OutOfRange => 4
  | Invalid => 0xFF
  end.

Definition Quality_from_u8 (value : Z) : Quality :=
  if value =? 0 then Good
  else if value =? 1 then Stale
  else if value =? 2 then CommFail
  else if value =? 3 then DeviceError
  else if value =? 4 then OutOfRange
  else Invalid.

(** * Value *)

(** [buf[..len].copy_from_slice(&bytes[..len])] into a zeroed [n]-byte buffer. *)
Definition copy_into_buffer (n : nat) (bytes : list Z) : list Z :=
  take n bytes ++ replicate (n - length bytes) 0.

Definition Value_from_bytes (bytes : list Z) : Value :=
  VString16 (copy_into_buffer 16 bytes) (Z.of_nat (length bytes `min` 16)).

Definition Value_as_f64 (v : Value) : option Z :=
  match v with
  | VFloat b => Some b
  | VInteger i => Some (f64_of_Z i)
  | VBool b => Some (if b then f64_one else f64_zero)
  | VString16 _ _ => None
  end.

Definition Value_as_i64 (v : Value) : option Z :=
  match v with
  | VFloat b => Some (f64_to_i64 b)
  | VInteger i => Some i
  | VBool b => Some (if b then 1 else 0)
  | VString16 _ _ => None
  end.

Definition Value_as_bool (v : Value) : option bool :=
  match v with
  | VFloat b => Some (negb (f64_eqb b f64_zero))
  | VInteger i => Some (negb (i =? 0))
  | VBool b => Some b
  | VString16 _ _ => None
  end.

Definition Value_as_str_bytes (v : Value) : option (list Z * Z) :=
  match v with
  | VString16 buf len => Some (buf, len)
  | _ => None
  end.

(** * Lemmas *)

#[export] Instance PointType_countable : Countable PointType.
Proof.
  apply (inj_countable (fun p => Z.to_nat (PointType_to_u8 p))
           (fun n => PointType_from_u8 (Z.of_nat n))).
  by intros [].
Defined.

Lemma to_u8_from_u8 p : PointType_from_u8 (PointType_to_u8 p) = Some p.
Proof. by destruct p. Qed.

Lemma from_u8_to_u8 b p : PointType_from_u8 b = Some p -> PointType_to_u8 p = b.
Proof. unfold PointType_from_u8. bool_cases; intros [= <-]; simpl; congruence. Qed.

Lemma PointType_to_u8_inj p q : PointType_to_u8 p = PointType_to_u8 q -> p = q.
Proof. destruct p, q; simpl; congruence || lia. Qed.

Lemma PointType_to_u8_range p : 0 <= PointType_to_u8 p < 4.
Proof. destruct p; simpl; lia. Qed.

Lemma type_offset_eq p :
  PointType_type_offset p = PointType_OFFSET * PointType_to_u8 p.
Proof. by destruct p. Qed.

Lemma internal_id_div p point_id :
  0 <= point_id < PointType_OFFSET ->
  PointType_from_internal_id (PointType_to_internal_id p point_id) = (p, point_id).
Proof.
  intros Hid. unfold PointType_to_internal_id, wrapping_add. rewrite type_offset_eq.
  assert (Hoff : PointType_OFFSET = 1073741823) by done.
  rewrite wrap_small by (pose proof (PointType_to_u8_range p); unfold is_uint; lia).
  unfold PointType_from_internal_id. rewrite (Z.mul_comm PointType_OFFSET).
  rewrite Z.div_add, Z.div_small, Z.mod_add, Z.mod_small by lia. by destruct p.
Qed.

Lemma internal_id_encode id :
  0 <= id < 4 * PointType_OFFSET ->
  let d := PointType_from_internal_id id in
  PointType_to_internal_id d.1 d.2 = id /\ 0 <= d.2 < PointType_OFFSET.
Proof.
  intros Hid d. assert (Hoff : PointType_OFFSET = 1073741823) by done.
  pose proof (Z.mod_pos_bound id PointType_OFFSET ltac:(lia)) as Hm.
  pose proof (Z.div_mod id PointType_OFFSET ltac:(lia)) as Hdm.
  split; [|done]. unfold PointType_to_internal_id, wrapping_add. rewrite type_offset_eq.
  assert (Hdiv : 0 <= id / PointType_OFFSET < 4).
  { split; [apply Z.div_pos; lia | apply Z.div_lt_upper_bound; lia]. }
  assert (Hidx : PointType_to_u8 d.1 = id / PointType_OFFSET).
  { unfold d, PointType_from_internal_id; simpl. bool_cases; simpl; lia. }
  rewrite Hidx. unfold d; simpl. rewrite wrap_small by (unfold is_uint; lia). lia.
Qed.

(** * Properties *)

(** The internal id encoding is a bijection between (point type, point id
    below OFFSET) and internal ids below [4 * OFFSET]: decoding an encoded pair
    gives the pair back, and encoding a decoded id gives the id back, so points
    of different types never collide. *)
Theorem internal_id_roundtrip p point_id id :
  (0 <= point_id < PointType_OFFSET ->
   PointType_from_internal_id (PointType_to_internal_id p point_id) = (p, point_id)) /\
  (0 <= id < 4 * PointType_OFFSET ->
   PointType_to_internal_id (PointType_from_internal_id id).1 (PointType_from_internal_id id).2 = id).
Proof. split; [apply internal_id_div | apply internal_id_encode]. Qed.

Lemma internal_id_roundtrip_witness :
  PointType_from_internal_id (PointType_to_internal_id Control 42) = (Control, 42) /\
  PointType_to_internal_id (PointType_from_internal_id 2147483700).1
    (PointType_from_internal_id 2147483700).2 = 2147483700.
Proof.
  split.
  - apply (internal_id_roundtrip Control 42 0). vm_compute. split; congruence.
  - apply (internal_id_roundtrip Control 42 2147483700). vm_compute. split; congruence.
Defined.

(** The documented id ranges are off by one per type: OFFSET is
    [0x3FFFFFFF], so the telemetry point [0x3FFFFFFF], the last id of the range
    documented for telemetry, collides with signal point 0, and the four
    topmost internal ids decode to adjustment points that do not encode back. *)
Theorem internal_id_documented_ranges_overlap :
  PointType_to_internal_id Telemetry 0x3FFFFFFF = PointType_to_internal_id Signal 0 /\
  (forall id, 4 * PointType_OFFSET <= id < 2 ^ 32 ->
     exists pid, PointType_from_internal_id id = (Adjustment, pid) /\
       PointType_to_internal_id Adjustment pid <> id).
Proof.
  split; [done |]. intros id Hid. assert (Hoff : PointType_OFFSET = 1073741823) by done.
  exists (id - 4 * PointType_OFFSET).
  assert (Hd : id / PointType_OFFSET = 4).
  { symmetry. apply Z.div_unique with (id - 4 * PointType_OFFSET); lia. }
  assert (Hm : id mod PointType_OFFSET = id - 4 * PointType_OFFSET).
  { symmetry. apply Z.mod_unique with 4; lia. }
  unfold PointType_from_internal_id. rewrite Hd, Hm. split; [done |].
  unfold PointType_to_internal_id, wrapping_add. rewrite type_offset_eq. simpl PointType_to_u8.
  rewrite wrap_small by (unfold is_uint; lia). lia.
Qed.

(** Every textual and numeric code of a point type parses back to it, and
    the four names are the only point types: [from_u8]/[to_u8] and
    [from_str]/[as_str] are mutually inverse on codes. *)
Theorem point_type_codes_roundtrip p b :
  PointType_from_u8 (PointType_to_u8 p) = Some p /\
  PointType_from_str (PointType_as_str p) = Some p /\
  (forall q, PointType_from_u8 b = Some q <-> PointType_to_u8 q = b).
Proof.
  split; [apply to_u8_from_u8 |]. split; [by destruct p |].
  intros q. split; [apply from_u8_to_u8 |]. intros <-. apply to_u8_from_u8.
Qed.
