(* ===== verification/Layout.v ===== *)
(** Static slot layout: [libs/voltage-rtdb-shm/src/layout.rs] and the data type
    of [channel_points.rs].

    [allocate_layouts] assigns every point of every channel a slot; comsrv (the
    writer) and modsrv (the reader) run it independently on the same counts.
    A [BTreeMap] is an association list with strictly increasing keys, a [u32]
    is a [Z], a slot index ([usize]) a [nat]. *)
From stdpp Require Import base numbers list sorting.
From Stdlib Require Import ZArith Lia.
From S2P Require Import Prelude PointTypes.
Local Open Scope Z_scope.

(** * Data *)

(** [ChannelPointCounts(BTreeMap<u32, [u32; 4]>)]: counts are [[T; S; C; A]]. *)
Definition ChannelPointCounts : Type := list (Z * list Z).

Record ChannelLayout := mkChannelLayout {
  cl_base_slot : nat;
  cl_type_offsets : list nat;
  cl_type_counts : list Z;
  cl_total_points : Z
}.

Definition ChannelLayout_default : ChannelLayout :=
  mkChannelLayout 0 [0; 0; 0; 0]%nat [0; 0; 0; 0] 0.

(** * Operations *)

Definition ChannelLayout_slot (l : ChannelLayout) (point_type point_id : Z) : option nat :=
  let type_idx := Z.to_nat point_type in
  match cl_type_counts l !! type_idx, cl_type_offsets l !! type_idx with
  | Some count, Some offset =>
      if (4 <=? type_idx)%nat || (count <=? point_id) then None
      else Some (cl_base_slot l + offset + Z.to_nat point_id)%nat
  | _, _ => None
  end.

Definition ChannelLayout_is_valid (l : ChannelLayout) : bool := 0 <? cl_total_points l.

(** [(slot + 1) & !1] *)
Definition align_to_cache_line (slot : nat) : nat := Nat.ldiff (slot + 1) 1.

(** The loop over the four point types of one channel. *)
Fixpoint allocate_types (has_action_slots : bool) (base type_idx : nat) (counts : list Z)
    (next_slot : nat) : list nat * nat :=
  match counts with
  | [] => ([], next_slot)
  | count :: counts =>
      let next_slot :=
        if (type_idx =? 2)%nat && has_action_slots then align_to_cache_line next_slot
        else next_slot in
      let '(offsets, next) :=
        allocate_types has_action_slots base (S type_idx) counts (next_slot + Z.to_nat count) in
      ((next_slot - base)%nat :: offsets, next)
  end.

Definition sum_u32 (counts : list Z) : Z := foldl (wrapping_add 32) 0 counts.

Definition allocate_channel (counts : list Z) (next_slot : nat) : ChannelLayout * nat :=
  let base := align_to_cache_line next_slot in
  let has_action_slots := 0 <? wrapping_add 32 (nth 2 counts 0) (nth 3 counts 0) in
  let '(offsets, next) := allocate_types has_action_slots base 0 counts base in
  (mkChannelLayout base offsets counts (sum_u32 counts), next).

(** The loop over the channels; [layouts[channel_id]] panics out of range. *)
Fixpoint allocate_loop (cps : ChannelPointCounts) (layouts : list ChannelLayout) (next_slot : nat)
    : outcome (list ChannelLayout * nat) :=
  match cps with
  | [] => Ret (layouts, next_slot)
  | (channel_id, counts) :: cps =>
      if (Z.to_nat channel_id <? length layouts)%nat then
        let '(layout, next) := allocate_channel counts next_slot in
        allocate_loop cps (<[Z.to_nat channel_id := layout]> layouts) next
      else Panic
  end.

Definition allocate_layouts (cps : ChannelPointCounts) : outcome (list ChannelLayout * nat) :=
  let max_channel_id := foldr Z.max 0 (cps.*1) in
  let vec_size := Z.to_nat (wrapping_add 32 max_channel_id 1) in
  allocate_loop cps (replicate vec_size ChannelLayout_default) 0.

(** [self.channel_layouts.get(channel_id)?.slot(point_type, point_id)] *)
Definition layouts_lookup (layouts : list ChannelLayout) (channel_id point_type point_id : Z)
    : option nat :=
  match layouts !! Z.to_nat channel_id with
  | Some l => ChannelLayout_slot l point_type point_id
  | None => None
  end.

(** * Specification *)

(** A [BTreeMap<u32, [u32; 4]>] whose key [u32::MAX] is unused (the code adds
    one to the largest key) and whose C and A counts do not overflow when added. *)
Record counts_wf (cps : ChannelPointCounts) : Prop := {
  cw_sorted : StronglySorted Z.lt (cps.*1);
  cw_ids : Forall (fun p => 0 <= p.1 < 2 ^ 32 - 1) cps;
  cw_counts : Forall (fun p => length p.2 = 4%nat /\ Forall (is_uint 32) p.2 /\
                               nth 2 p.2 0 + nth 3 p.2 0 < 2 ^ 32) cps
}.

Definition cache_line (slot : nat) : nat := (slot `div` 2)%nat.

(** T and S slots are written by comsrv, C and A slots by modsrv. *)
Definition owned_by_modsrv (point_type : Z) : bool := 2 <=? point_type.

(** * Lemmas *)

Lemma sum_nonneg counts : Forall (is_uint 32) counts -> 0 <= foldr Z.add 0 counts.
Proof. induction 1; simpl; solve_uint. Qed.

(** The [u32] sum is the exact sum when that fits. *)
Lemma sum_u32_small counts : Forall (is_uint 32) counts -> foldr Z.add 0 counts < 2 ^ 32 ->
  sum_u32 counts = foldr Z.add 0 counts.
Proof.
  intros Hu Hlt. unfold sum_u32.
  enough (Hgen : forall acc, 0 <= acc -> acc + foldr Z.add 0 counts < 2 ^ 32 ->
            foldl (wrapping_add 32) acc counts = acc + foldr Z.add 0 counts) by (rewrite Hgen; lia).
  clear Hlt. induction Hu as [|c cs Hc Hcs IH]; intros acc Hacc Hb; simpl in *; [lia |].
  pose proof (sum_nonneg cs Hcs). unfold wrapping_add at 2. rewrite wrap_small by solve_uint.
  rewrite IH; solve_uint.
Qed.

Lemma align_even n : align_to_cache_line n = (2 * ((n + 1) `div` 2))%nat.
Proof.
  unfold align_to_cache_line. apply Nat.bits_inj. intros [|i].
  - rewrite Nat.ldiff_spec, Nat.testbit_even_0. apply andb_false_r.
  - rewrite Nat.ldiff_spec, Nat.testbit_even_succ by lia.
    rewrite <- Nat.testbit_div2, Nat.div2_div by lia.
    simpl. rewrite Nat.bits_0. apply andb_true_r.
Qed.

Lemma align_bounds n : (n <= align_to_cache_line n <= n + 1)%nat.
Proof.
  rewrite align_even. pose proof (Nat.div_mod_eq (n + 1) 2).
  pose proof (Nat.mod_upper_bound (n + 1) 2). lia.
Qed.

(** Aligning separates cache lines: a slot below [n] and a slot from the aligned
    [n] on lie on different lines. *)
Lemma align_separates n s1 s2 :
  (s1 < align_to_cache_line n)%nat -> (align_to_cache_line n <= s2)%nat ->
  (cache_line s1 < cache_line s2)%nat.
Proof.
  rewrite align_even. intros H1 H2. unfold cache_line.
  pose proof (Nat.div_mod_eq s1 2). pose proof (Nat.div_mod_eq s2 2).
  pose proof (Nat.mod_upper_bound s1 2). pose proof (Nat.mod_upper_bound s2 2). lia.
Qed.

(** The slot ranges of one channel: [T | S | padding? | C | A]. *)
Record channel_shape (l : ChannelLayout) (counts : list Z) (lo hi : nat) : Prop := {
  csh_counts : cl_type_counts l = counts;
  csh_range : forall t p s, is_uint 8 t -> is_uint 32 p ->
    ChannelLayout_slot l t p = Some s -> (align_to_cache_line lo <= s < hi)%nat;
  csh_inj : forall t1 p1 t2 p2 s, is_uint 8 t1 -> is_uint 32 p1 -> is_uint 8 t2 -> is_uint 32 p2 ->
    ChannelLayout_slot l t1 p1 = Some s -> ChannelLayout_slot l t2 p2 = Some s ->
    t1 = t2 /\ p1 = p2;
  csh_owner : forall t1 p1 t2 p2 s1 s2,
    is_uint 8 t1 -> is_uint 32 p1 -> is_uint 8 t2 -> is_uint 32 p2 ->
    ChannelLayout_slot l t1 p1 = Some s1 -> ChannelLayout_slot l t2 p2 = Some s2 ->
    owned_by_modsrv t1 = false -> owned_by_modsrv t2 = true ->
    (cache_line s1 < cache_line s2)%nat;
  csh_complete : forall t p c, is_uint 8 t -> is_uint 32 p ->
    counts !! Z.to_nat t = Some c -> p < c -> is_Some (ChannelLayout_slot l t p);
  csh_grow : (lo <= hi)%nat;
  csh_total : cl_total_points l = sum_u32 counts
}.

(** The layout of [[a; b; c; d]] from slot [lo], with [m] the start of the C region. *)
Definition channel_at (a b c d : Z) (base m : nat) : ChannelLayout :=
  mkChannelLayout base [0; Z.to_nat a; m - base; m - base + Z.to_nat c]%nat [a; b; c; d]
    (sum_u32 [a; b; c; d]).

Lemma allocate_channel_unroll a b c d lo :
  is_uint 32 a -> is_uint 32 b -> is_uint 32 c -> is_uint 32 d -> c + d < 2 ^ 32 ->
  let base := align_to_cache_line lo in
  let e := (base + Z.to_nat a + Z.to_nat b)%nat in
  let m := if 0 <? c + d then align_to_cache_line e else e in
  allocate_channel [a; b; c; d] lo = (channel_at a b c d base m, m + Z.to_nat c + Z.to_nat d)%nat.
Proof.
  intros Ha Hb Hc Hd Hcd base e m. unfold allocate_channel, wrapping_add. simpl nth.
  rewrite wrap_small by solve_uint. fold base. simpl allocate_types. fold e. fold m.
  assert (e <= m)%nat by (subst m; pose proof (align_bounds e); destruct (0 <? c + d); lia).
  unfold channel_at. f_equal. f_equal. f_equal; [lia |]. f_equal; [lia |]. f_equal; f_equal; lia.
Qed.

(** The four types of a slot query, with the slot each one yields. *)
Lemma channel_at_slot a b c d base m t p s :
  is_uint 8 t -> is_uint 32 p -> ChannelLayout_slot (channel_at a b c d base m) t p = Some s ->
  (t = 0 /\ p < a /\ s = (base + Z.to_nat p)%nat) \/
  (t = 1 /\ p < b /\ s = (base + Z.to_nat a + Z.to_nat p)%nat) \/
  (t = 2 /\ p < c /\ s = (base + (m - base) + Z.to_nat p)%nat) \/
  (t = 3 /\ p < d /\ s = (base + (m - base) + Z.to_nat c + Z.to_nat p)%nat).
Proof.
  intros Ht Hp H. unfold ChannelLayout_slot, channel_at in H. simpl in H.
  assert (Hcase : t = 0 \/ t = 1 \/ t = 2 \/ t = 3 \/ 4 <= t) by solve_uint.
  destruct Hcase as [-> | [-> | [-> | [-> | Hge]]]]; simpl in H.
  1-4: match type of H with context [?x <=? ?y] => destruct (Z.leb_spec x y) end; [done |];
       injection H as <-.
  - left. repeat split; lia.
  - right; left. repeat split; lia.
  - do 2 right; left. repeat split; lia.
  - do 3 right. repeat split; lia.
  - rewrite lookup_ge_None_2 in H by (simpl; lia). done.
Qed.

Lemma list_of_4 (l : list Z) : length l = 4%nat -> exists a b c d, l = [a; b; c; d].
Proof. destruct l as [|a [|b [|c [|d []]]]]; simpl; try lia. intros _. by exists a, b, c, d. Qed.

Lemma allocate_channel_shape counts lo l hi :
  length counts = 4%nat -> Forall (is_uint 32) counts -> nth 2 counts 0 + nth 3 counts 0 < 2 ^ 32 ->
  allocate_channel counts lo = (l, hi) -> channel_shape l counts lo hi.
Proof.
  intros Hlen Hu Hcd Halloc. destruct (list_of_4 _ Hlen) as (a & b & c & d & ->).
  simpl in Hcd. rewrite !Forall_cons in Hu. destruct Hu as (Ha & Hb & Hc & Hd & _).
  rewrite allocate_channel_unroll in Halloc by done.
  set (base := align_to_cache_line lo) in *.
  set (e := (base + Z.to_nat a + Z.to_nat b)%nat) in *.
  set (m := if 0 <? c + d then align_to_cache_line e else e) in *.
  assert (Hm : (e <= m)%nat) by (subst m; pose proof (align_bounds e); destruct (0 <? c + d); lia).
  assert (Hbase : (base <= m)%nat) by lia.
  injection Halloc as <- <-. split.
  - done.
  - intros t p s Ht Hp Hs. apply channel_at_slot in Hs; [|done..]. solve_uint.
  - intros t1 p1 t2 p2 s Ht1 Hp1 Ht2 Hp2 H1 H2.
    apply channel_at_slot in H1, H2; [|done..]. solve_uint.
  - intros t1 p1 t2 p2 s1 s2 Ht1 Hp1 Ht2 Hp2 H1 H2 Ho1 Ho2.
    apply channel_at_slot in H1, H2; [|done..]. unfold owned_by_modsrv in *. bool_hyps.
    assert (Hpos : (0 <? c + d) = true) by (apply Z.ltb_lt; solve_uint).
    subst m. rewrite Hpos in *. apply (align_separates e); solve_uint.
  - intros t p x Ht Hp Hx Hlt. unfold ChannelLayout_slot, channel_at. simpl.
    apply lookup_lt_Some in Hx as Hlt'. simpl in Hlt'.
    assert (Hcase : t = 0 \/ t = 1 \/ t = 2 \/ t = 3) by solve_uint.
    destruct Hcase as [-> | [-> | [-> | ->]]]; simpl in Hx |- *; injection Hx as ->;
      rewrite (proj2 (Z.leb_gt _ _) Hlt); by eexists.
  - pose proof (align_bounds lo). lia.
  - done.
Qed.

(** What the loop has built: each channel's layout, in order, from slot [lo]. *)
Fixpoint laid_out (cps : ChannelPointCounts) (ls : list ChannelLayout) (lo total : nat) : Prop :=
  match cps with
  | [] => total = lo
  | (channel_id, counts) :: cps => exists l hi,
      ls !! Z.to_nat channel_id = Some l /\ channel_shape l counts lo hi /\ laid_out cps ls hi total
  end.

Lemma allocate_loop_spec cps : forall layouts lo,
  counts_wf cps -> Forall (fun p => (Z.to_nat p.1 < length layouts)%nat) cps ->
  exists ls total, allocate_loop cps layouts lo = Ret (ls, total) /\ laid_out cps ls lo total /\
    forall i, i ∉ map Z.to_nat cps.*1 -> ls !! i = layouts !! i.
Proof.
  induction cps as [|[ch counts] cps IH]; intros layouts lo [Hs Hids Hc] Hlen; simpl.
  - by exists layouts, lo.
  - rewrite Forall_cons in Hids, Hc, Hlen. simpl in *.
    destruct Hids as [Hid Hids], Hc as [(Hl4 & Hu & Hcd) Hc], Hlen as [Hlt Hlen].
    apply StronglySorted_cons in Hs as [Hall Hs].
    rewrite (proj2 (Nat.ltb_lt _ _) Hlt).
    destruct (allocate_channel counts lo) as [l hi] eqn:Ealloc.
    destruct (IH (<[Z.to_nat ch := l]> layouts) hi) as (ls & total & Heq & Hlo & Hother).
    { by split. }
    { rewrite length_insert. done. }
    exists ls, total. split; [done |]. split.
    + exists l, hi. split; [|split; [by apply allocate_channel_shape | done]].
      rewrite Hother; [by apply list_lookup_insert_eq |].
      intros (k & Hk & Hin)%list_elem_of_In%in_map_iff. apply list_elem_of_In in Hin.
      rewrite Forall_forall in Hall. specialize (Hall _ Hin). lia.
    + intros i Hi. rewrite not_elem_of_cons in Hi. destruct Hi as [Hne Hi].
      rewrite Hother by done. by apply list_lookup_insert_ne.
Qed.

Lemma foldr_max_ge (ids : list Z) x : x ∈ ids -> x <= foldr Z.max 0 ids.
Proof. induction 1; simpl; lia. Qed.

Lemma foldr_max_lt (ids : list Z) b : 0 < b -> Forall (fun x => 0 <= x < b) ids -> 0 <= foldr Z.max 0 ids < b.
Proof. intros Hb. induction 1; simpl; lia. Qed.

(** The allocation succeeds; channels without an entry keep the empty layout. *)
Lemma allocate_layouts_spec cps : counts_wf cps ->
  exists ls total, allocate_layouts cps = Ret (ls, total) /\ laid_out cps ls 0 total /\
    forall i l, i ∉ map Z.to_nat cps.*1 -> ls !! i = Some l -> l = ChannelLayout_default.
Proof.
  intros Hwf. pose proof (cw_ids _ Hwf) as Hids.
  assert (Hmax : 0 <= foldr Z.max 0 cps.*1 < 2 ^ 32 - 1) by (apply foldr_max_lt; [lia | by rewrite Forall_fmap]).
  unfold allocate_layouts, wrapping_add. rewrite wrap_small by solve_uint.
  edestruct (allocate_loop_spec cps) as (ls & total & Heq & Hlo & Hother); [done | | eexists _, _; split; [exact Heq |]].
  { apply Forall_forall. intros [ch cs] Hin. rewrite length_replicate. simpl.
    rewrite Forall_forall in Hids. specialize (Hids _ Hin). simpl in Hids.
    assert (ch <= foldr Z.max 0 cps.*1); [|lia].
    apply foldr_max_ge, list_elem_of_fmap. by exists (ch, cs). }
  split; [done |]. intros i l Hi Hl. rewrite Hother in Hl by done.
  by apply lookup_replicate in Hl as [-> _].
Qed.

Lemma allocate_loop_length cps : forall layouts lo ls total,
  allocate_loop cps layouts lo = Ret (ls, total) -> length ls = length layouts.
Proof.
  induction cps as [|[ch cs] cps IH]; intros layouts lo ls total H; simpl in H; [congruence |].
  destruct (Z.to_nat ch <? length layouts)%nat; [|done].
  destruct (allocate_channel cs lo). apply IH in H. by rewrite length_insert in H.
Qed.

Lemma allocate_layouts_length cps ls total :
  allocate_layouts cps = Ret (ls, total) -> Z.of_nat (length ls) <= 2 ^ 32.
Proof.
  unfold allocate_layouts. intros ->%allocate_loop_length. rewrite length_replicate.
  unfold wrapping_add. pose proof (wrap_uint 32 (foldr Z.max 0 cps.*1 + 1)). solve_uint.
Qed.

Lemma laid_out_grow cps : forall ls lo total, laid_out cps ls lo total -> (lo <= total)%nat.
Proof.
  induction cps as [|[ch cs] cps IH]; simpl; [lia |].
  intros ls lo total (l & hi & _ & Hsh & Hrest). pose proof (csh_grow _ _ _ _ Hsh).
  specialize (IH _ _ _ Hrest). lia.
Qed.

Lemma laid_out_lookup cps : forall ls lo total ch counts,
  laid_out cps ls lo total -> (ch, counts) ∈ cps ->
  exists l lo' hi', ls !! Z.to_nat ch = Some l /\ channel_shape l counts lo' hi' /\
    (lo <= lo')%nat /\ (hi' <= total)%nat.
Proof.
  induction cps as [|[ch cs] cps IH]; intros ls lo total ch' cs' Hlo Hin; [by apply not_elem_of_nil in Hin |].
  destruct Hlo as (l & hi & Hl & Hsh & Hrest).
  pose proof (csh_grow _ _ _ _ Hsh). pose proof (laid_out_grow _ _ _ _ Hrest).
  apply elem_of_cons in Hin as [[= -> ->] | Hin]; [by exists l, lo, hi |].
  destruct (IH _ _ _ _ _ Hrest Hin) as (l' & lo' & hi' & ? & ? & ? & ?). exists l', lo', hi'. split_and!; done || lia.
Qed.

(** Channels are laid out in the order of their ids, cache line by cache line. *)
Lemma laid_out_ordered cps : forall ls lo total ch1 cs1 ch2 cs2,
  StronglySorted Z.lt (cps.*1) -> laid_out cps ls lo total ->
  (ch1, cs1) ∈ cps -> (ch2, cs2) ∈ cps -> ch1 < ch2 ->
  exists l1 lo1 hi1 l2 lo2 hi2, ls !! Z.to_nat ch1 = Some l1 /\ channel_shape l1 cs1 lo1 hi1 /\
    ls !! Z.to_nat ch2 = Some l2 /\ channel_shape l2 cs2 lo2 hi2 /\ (hi1 <= lo2)%nat.
Proof.
  induction cps as [|[ch cs] cps IH]; intros ls lo total ch1 cs1 ch2 cs2 Hs Hlo H1 H2 Hlt;
    [by apply not_elem_of_nil in H1 |].
  destruct Hlo as (l & hi & Hl & Hsh & Hrest). simpl in Hs.
  apply StronglySorted_cons in Hs as [Hall Hs]. rewrite Forall_forall in Hall.
  apply elem_of_cons in H1 as [[= -> ->] | H1]; apply elem_of_cons in H2 as [[= -> ->] | H2].
  - lia.
  - destruct (laid_out_lookup _ _ _ _ _ _ Hrest H2) as (l2 & lo2 & hi2 & ? & ? & ? & ?).
    by exists l, lo, hi, l2, lo2, hi2.
  - assert (ch < ch1); [|lia]. apply Hall, list_elem_of_fmap. by exists (ch1, cs1).
  - by eapply IH.
Qed.

(** A successful lookup names a configured channel. *)
Lemma lookup_configured cps ls total ch t p s :
  counts_wf cps -> allocate_layouts cps = Ret (ls, total) ->
  is_uint 32 ch -> layouts_lookup ls ch t p = Some s -> is_uint 8 t -> is_uint 32 p ->
  laid_out cps ls 0 total /\ exists counts, (ch, counts) ∈ cps.
Proof.
  intros Hwf Hal Hch Hlk Ht Hp.
  destruct (allocate_layouts_spec cps Hwf) as (ls' & total' & Heq & Hlo & Hdef).
  rewrite Hal in Heq. injection Heq as <- <-. split; [done |].
  destruct (decide (ch ∈ cps.*1)) as [Hin | Hnin].
  { apply list_elem_of_fmap in Hin as ([ch' cs] & -> & Hin). by exists cs. }
  exfalso. unfold layouts_lookup in Hlk. destruct (ls !! Z.to_nat ch) as [l |] eqn:El; [|done].
  apply Hdef in El as ->.
  - unfold ChannelLayout_slot, ChannelLayout_default in Hlk. simpl in Hlk.
    destruct (Z.to_nat t) as [|[|[|[|n]]]]; simpl in Hlk; try done;
      destruct (Z.leb_spec 0 p); done || solve_uint.
  - intros (k & Hk & Hin)%list_elem_of_In%in_map_iff. apply list_elem_of_In in Hin as Hin'.
    apply Hnin. assert (k = ch) as <-; [|done].
    apply list_elem_of_fmap in Hin' as ([k' cs] & -> & Hin').
    pose proof (cw_ids _ Hwf) as Hids. rewrite Forall_forall in Hids.
    specialize (Hids _ Hin'). simpl in *. solve_uint.
Qed.

(** * Theorems *)
Section Claims.
Variables (cps : ChannelPointCounts) (ls : list ChannelLayout) (total : nat).
Hypothesis Hwf : counts_wf cps.
Hypothesis Halloc : allocate_layouts cps = Ret (ls, total).

Lemma lookup_shape ch t p s :
  is_uint 32 ch -> is_uint 8 t -> is_uint 32 p -> layouts_lookup ls ch t p = Some s ->
  exists l counts lo hi, (ch, counts) ∈ cps /\ channel_shape l counts lo hi /\
    ls !! Z.to_nat ch = Some l /\ ChannelLayout_slot l t p = Some s /\ (hi <= total)%nat.
Proof using Hwf Halloc.
  intros Hch Ht Hp Hlk.
  destruct (lookup_configured cps ls total ch t p s) as (Hlo & counts & Hin); [done.. |].
  destruct (laid_out_lookup _ _ _ _ _ _ Hlo Hin) as (l & lo & hi & Hl & Hsh & _ & Hhi).
  unfold layouts_lookup in Hlk. rewrite Hl in Hlk. by exists l, counts, lo, hi.
Qed.

Lemma lookup_channels_separated ch1 t1 p1 s1 ch2 t2 p2 s2 :
  is_uint 32 ch1 -> is_uint 8 t1 -> is_uint 32 p1 -> layouts_lookup ls ch1 t1 p1 = Some s1 ->
  is_uint 32 ch2 -> is_uint 8 t2 -> is_uint 32 p2 -> layouts_lookup ls ch2 t2 p2 = Some s2 ->
  ch1 < ch2 -> (cache_line s1 < cache_line s2)%nat.
Proof using Hwf Halloc.
  intros Hc1 Ht1 Hp1 H1 Hc2 Ht2 Hp2 H2 Hlt.
  destruct (lookup_configured cps ls total ch1 t1 p1 s1) as (Hlo & cs1 & Hin1); [done.. |].
  destruct (lookup_configured cps ls total ch2 t2 p2 s2) as (_ & cs2 & Hin2); [done.. |].
  destruct (laid_out_ordered cps ls 0 total ch1 cs1 ch2 cs2)
    as (l1 & lo1 & hi1 & l2 & lo2 & hi2 & Hl1 & Hsh1 & Hl2 & Hsh2 & Hle); [apply Hwf | done.. |].
  unfold layouts_lookup in H1, H2. rewrite Hl1 in H1. rewrite Hl2 in H2.
  pose proof (csh_range _ _ _ _ Hsh1 t1 p1 s1 Ht1 Hp1 H1).
  pose proof (csh_range _ _ _ _ Hsh2 t2 p2 s2 Ht2 Hp2 H2).
  pose proof (align_bounds lo2). apply (align_separates lo2); lia.
Qed.

Lemma layout_aliases_none ch1 t1 p1 ch2 t2 p2 s :
  is_uint 32 ch1 -> is_uint 8 t1 -> is_uint 32 p1 ->
  is_uint 32 ch2 -> is_uint 8 t2 -> is_uint 32 p2 ->
  layouts_lookup ls ch1 t1 p1 = Some s -> layouts_lookup ls ch2 t2 p2 = Some s ->
  ch1 = ch2 /\ t1 = t2 /\ p1 = p2 /\ (s < total)%nat.
Proof using Hwf Halloc.
  intros Hc1 Ht1 Hp1 Hc2 Ht2 Hp2 H1 H2.
  assert (ch1 = ch2) as <-.
  { destruct (Z.lt_trichotomy ch1 ch2) as [Hlt | [Heq | Hlt]]; [| done |].
    - assert (cache_line s < cache_line s)%nat by (apply (lookup_channels_separated ch1 t1 p1 s ch2 t2 p2 s); done). lia.
    - assert (cache_line s < cache_line s)%nat by (apply (lookup_channels_separated ch2 t2 p2 s ch1 t1 p1 s); done). lia. }
  destruct (lookup_shape ch1 t1 p1 s) as (l & cs & lo & hi & _ & Hsh & Hl & Hs1 & Hhi); [done.. |].
  unfold layouts_lookup in H2. rewrite Hl in H2.
  destruct (csh_inj _ _ _ _ Hsh t1 p1 t2 p2 s) as [-> ->]; [done.. |].
  pose proof (csh_range _ _ _ _ Hsh t2 p2 s Ht2 Hp2 H2). repeat split; lia.
Qed.

(** C3: the slot layout never aliases two points: over all channels, the slot
    determines the (channel, point type, point id) triple, and every slot lies
    below the reported total. *)
Theorem layout_injective ch1 t1 p1 ch2 t2 p2 s :
  is_uint 32 ch1 -> is_uint 8 t1 -> is_uint 32 p1 ->
  is_uint 32 ch2 -> is_uint 8 t2 -> is_uint 32 p2 ->
  layouts_lookup ls ch1 t1 p1 = Some s -> layouts_lookup ls ch2 t2 p2 = Some s ->
  ch1 = ch2 /\ t1 = t2 /\ p1 = p2 /\ (s < total)%nat.
Proof using Hwf Halloc. apply layout_aliases_none. Qed.

(** Writer-ownership padding: a slot comsrv writes (T or S) and a slot modsrv
    writes (C or A) never lie on the same 64-byte cache line, whichever channels
    they belong to. *)
Theorem owners_never_share_cache_line ch1 t1 p1 s1 ch2 t2 p2 s2 :
  is_uint 32 ch1 -> is_uint 8 t1 -> is_uint 32 p1 ->
  is_uint 32 ch2 -> is_uint 8 t2 -> is_uint 32 p2 ->
  layouts_lookup ls ch1 t1 p1 = Some s1 -> layouts_lookup ls ch2 t2 p2 = Some s2 ->
  owned_by_modsrv t1 = false -> owned_by_modsrv t2 = true ->
  cache_line s1 <> cache_line s2.
Proof using Hwf Halloc.
  intros Hc1 Ht1 Hp1 Hc2 Ht2 Hp2 H1 H2 Ho1 Ho2.
  destruct (Z.lt_trichotomy ch1 ch2) as [Hlt | [<- | Hlt]].
  - apply Nat.lt_neq, (lookup_channels_separated ch1 t1 p1 s1 ch2 t2 p2 s2); done.
  - destruct (lookup_shape ch1 t1 p1 s1) as (l & cs & lo & hi & _ & Hsh & Hl & Hs1 & _); [done.. |].
    unfold layouts_lookup in H2. rewrite Hl in H2.
    apply Nat.lt_neq, (csh_owner _ _ _ _ Hsh t1 p1 t2 p2 s1 s2); done.
  - apply not_eq_sym, Nat.lt_neq, (lookup_channels_separated ch2 t2 p2 s2 ch1 t1 p1 s1); done.
Qed.
End Claims.

(** On every well-formed configuration the allocation returns (no index
    panics), and every configured point has a slot. *)
Theorem layout_total cps :
  counts_wf cps ->
  exists ls total, allocate_layouts cps = Ret (ls, total) /\
    forall ch counts t p c, (ch, counts) ∈ cps -> is_uint 8 t -> is_uint 32 p ->
      counts !! Z.to_nat t = Some c -> p < c ->
      exists s, layouts_lookup ls ch t p = Some s /\ (s < total)%nat.
Proof.
  intros Hwf. destruct (allocate_layouts_spec cps Hwf) as (ls & total & Heq & Hlo & _).
  exists ls, total. split; [done |]. intros ch counts t p c Hin Ht Hp Hc Hlt.
  destruct (laid_out_lookup _ _ _ _ _ _ Hlo Hin) as (l & lo & hi & Hl & Hsh & _ & Hhi).
  destruct (csh_complete _ _ _ _ Hsh t p c) as [s Hs]; [done.. |].
  exists s. unfold layouts_lookup. rewrite Hl. split; [done |].
  pose proof (csh_range _ _ _ _ Hsh t p s Ht Hp Hs). lia.
Qed.

(** * Witnesses *)
Definition sample_counts : ChannelPointCounts := [(1, [3; 0; 1; 1]); (4, [1; 2; 0; 0])].

Lemma sample_counts_wf : counts_wf sample_counts.
Proof.
  split; unfold sample_counts; simpl.
  - repeat constructor.
  - repeat constructor; simpl; lia.
  - repeat constructor; simpl; lia.
Qed.

(** Channel 1 has T 0..2 at slots 0-2, padding at 3, C at 4 and A at 5. *)
Lemma layout_injective_witness : exists ls total,
  allocate_layouts sample_counts = Ret (ls, total) /\
  layouts_lookup ls 1 2 0 = Some 4%nat /\
  forall ch t p, is_uint 32 ch -> is_uint 8 t -> is_uint 32 p ->
    layouts_lookup ls ch t p = Some 4%nat -> ch = 1 /\ t = 2 /\ p = 0 /\ (4 < total)%nat.
Proof.
  eexists _, _. split; [vm_compute; reflexivity |]. split; [reflexivity |].
  intros ch t p Hch Ht Hp H.
  apply (layout_injective sample_counts _ _ sample_counts_wf eq_refl ch t p 1 2 0 4%nat);
    done || (unfold is_uint; lia).
Defined.

Lemma owners_never_share_cache_line_witness : exists ls total s1 s2,
  allocate_layouts sample_counts = Ret (ls, total) /\
  layouts_lookup ls 1 0 2 = Some s1 /\ layouts_lookup ls 1 2 0 = Some s2 /\
  cache_line s1 <> cache_line s2.
Proof.
  eexists _, _, _, _. split; [vm_compute; reflexivity |].
  split; [reflexivity |]. split; [reflexivity |].
  eapply (owners_never_share_cache_line sample_counts _ _ sample_counts_wf eq_refl 1 0 2 _ 1 2 0);
    reflexivity || (unfold is_uint; lia).
Defined.

Lemma layout_total_witness : exists ls total, allocate_layouts sample_counts = Ret (ls, total) /\
    forall ch counts t p c, (ch, counts) ∈ sample_counts -> is_uint 8 t -> is_uint 32 p ->
      counts !! Z.to_nat t = Some c -> p < c ->
      exists s, layouts_lookup ls ch t p = Some s /\ (s < total)%nat.
Proof. exact (layout_total sample_counts sample_counts_wf). Defined.
