(* ===== verification/Wire.v ===== *)
(** The two fixed-size frames exchanged over Unix sockets:
    [libs/voltage-rtdb-shm/src/notification.rs] (48 bytes, commands from modsrv
    to comsrv) and [point_watch_event.rs] (56 bytes, changes from comsrv to
    modsrv).

    Both are [#[repr(C)]] plain-old-data structs copied to and from a byte
    buffer; the deployment targets are little-endian and the layout comment of
    [point_watch_event.rs] fixes the byte order. *)
From stdpp Require Import base numbers list.
From Stdlib Require Import ZArith Lia.
From S2P Require Import Prelude PointTypes.
Local Open Scope Z_scope.

(** * Fields of a byte buffer *)

(** The [n] bytes from offset [start]. *)
Definition slice (start n : nat) (bs : list Z) : list Z := take n (drop start bs).
Definition get_le (start n : nat) (bs : list Z) : Z := from_le_bytes (slice start n bs).

Lemma slice_skip start n xs ys :
  (length xs <= start)%nat -> slice start n (xs ++ ys) = slice (start - length xs) n ys.
Proof. intros H. unfold slice. rewrite drop_app_ge by done. done. Qed.

Lemma slice_hit start n xs ys : start = 0%nat -> n = length xs -> slice start n (xs ++ ys) = xs.
Proof. intros -> ->. unfold slice. rewrite drop_0. apply take_app_length. Qed.

Lemma slice_whole start n xs : start = 0%nat -> n = length xs -> slice start n xs = xs.
Proof. intros -> ->. unfold slice. rewrite drop_0. apply take_ge. lia. Qed.

Lemma slice_glue start n m bs :
  slice start n bs ++ slice (start + n) m bs = slice start (n + m) bs.
Proof.
  unfold slice. rewrite <- drop_drop.
  rewrite <- (take_drop n (take (n + m) (drop start bs))).
  rewrite take_take, Nat.min_l by lia. f_equal.
  rewrite skipn_firstn_comm. f_equal. lia.
Qed.

Lemma slice_bytes start n bs : is_bytes bs -> is_bytes (slice start n bs).
Proof. intros H. by apply Forall_take, Forall_drop. Qed.

Lemma length_slice start n bs : (start + n <= length bs)%nat -> length (slice start n bs) = n.
Proof. intros H. unfold slice. rewrite length_take, length_drop. lia. Qed.

Lemma to_le_get_le start n bs :
  is_bytes bs -> (start + n <= length bs)%nat -> to_le_bytes n (get_le start n bs) = slice start n bs.
Proof.
  intros Hb Hl. unfold get_le. rewrite <- (length_slice start n bs) at 1 by done.
  by apply to_from_le_bytes, slice_bytes.
Qed.

Lemma get_le_range start n bs :
  is_bytes bs -> (start + n <= length bs)%nat -> is_uint (8 * Z.of_nat n) (get_le start n bs).
Proof.
  intros Hb Hl. unfold get_le. rewrite <- (length_slice start n bs) at 1 by done.
  by apply from_le_bytes_range, slice_bytes.
Qed.

(** Reduce a field read of a concatenation of fields to the field; the lengths
    of opaque fields are hypotheses of the context. *)
Ltac field_length := rewrite ?length_to_le_bytes in *; lia.
Ltac read_field :=
  unfold get_le;
  repeat rewrite slice_skip by field_length;
  first [rewrite slice_hit by field_length | rewrite slice_whole by field_length];
  rewrite ?from_to_le_bytes; try (apply wrap_small; assumption); try reflexivity.

(** * [ShmNotification] *)

Record ShmNotification := mkShmNotification {
  sn_channel_id : Z;
  sn_point_id : Z;
  sn_point_type : Z;
  sn_padding : list Z;
  sn_value_bits : Z;
  sn_timestamp_ms : Z;
  sn_producer_id : Z;
  sn_seq : Z
}.

Definition ShmNotification_SIZE : nat := 48.

Definition ShmNotification_new (channel_id : Z) (point_type : PointType) (point_id value timestamp_ms
    producer_id seq : Z) : ShmNotification :=
  mkShmNotification channel_id point_id (PointType_to_u8 point_type) (replicate 7 0) value
    timestamp_ms producer_id seq.

Definition ShmNotification_to_bytes (n : ShmNotification) : list Z :=
  to_le_bytes 4 (sn_channel_id n) ++ to_le_bytes 4 (sn_point_id n) ++
  to_le_bytes 1 (sn_point_type n) ++ sn_padding n ++ to_le_bytes 8 (sn_value_bits n) ++
  to_le_bytes 8 (sn_timestamp_ms n) ++ to_le_bytes 8 (sn_producer_id n) ++ to_le_bytes 8 (sn_seq n).

Definition ShmNotification_from_bytes (bs : list Z) : ShmNotification :=
  mkShmNotification (get_le 0 4 bs) (get_le 4 4 bs) (get_le 8 1 bs) (slice 9 7 bs)
    (get_le 16 8 bs) (get_le 24 8 bs) (get_le 32 8 bs) (get_le 40 8 bs).

Definition ShmNotification_value (n : ShmNotification) : Z := sn_value_bits n.

Definition ShmNotification_get_point_type (n : ShmNotification) : option PointType :=
  match sn_point_type n with
  | 2 => Some Control
  | 3 => Some Adjustment
  | _ => None
  end.

(** The machine widths of the fields. *)
Record notification_wf (n : ShmNotification) : Prop := {
  nw_channel : is_uint 32 (sn_channel_id n);
  nw_point : is_uint 32 (sn_point_id n);
  nw_type : is_uint 8 (sn_point_type n);
  nw_padding : length (sn_padding n) = 7%nat /\ is_bytes (sn_padding n);
  nw_value : is_uint 64 (sn_value_bits n);
  nw_ts : is_uint 64 (sn_timestamp_ms n);
  nw_producer : is_uint 64 (sn_producer_id n);
  nw_seq : is_uint 64 (sn_seq n)
}.

(** * [PointWatchEvent] *)

Record PointWatchEvent := mkPointWatchEvent {
  pw_channel_id : Z;
  pw_point_id : Z;
  pw_point_type : Z;
  pw_padding : list Z;
  pw_value_bits : Z;
  pw_raw_bits : Z;
  pw_slot_index : Z;
  pw_timestamp_ms : Z;
  pw_producer_id : Z
}.

Definition PointWatchEvent_SIZE : nat := 56.
Definition PointWatchEvent_value (e : PointWatchEvent) : Z := pw_value_bits e.
Definition PointWatchEvent_raw (e : PointWatchEvent) : Z := pw_raw_bits e.

Definition PointWatchEvent_to_bytes (e : PointWatchEvent) : list Z :=
  to_le_bytes 4 (pw_channel_id e) ++ to_le_bytes 4 (pw_point_id e) ++
  to_le_bytes 1 (pw_point_type e) ++ pw_padding e ++ to_le_bytes 8 (pw_value_bits e) ++
  to_le_bytes 8 (pw_raw_bits e) ++ to_le_bytes 8 (pw_slot_index e) ++
  to_le_bytes 8 (pw_timestamp_ms e) ++ to_le_bytes 8 (pw_producer_id e).

Definition PointWatchEvent_from_bytes (bs : list Z) : PointWatchEvent :=
  mkPointWatchEvent (get_le 0 4 bs) (get_le 4 4 bs) (get_le 8 1 bs) (slice 9 7 bs)
    (get_le 16 8 bs) (get_le 24 8 bs) (get_le 32 8 bs) (get_le 40 8 bs) (get_le 48 8 bs).

Record event_wf (e : PointWatchEvent) : Prop := {
  ew_channel : is_uint 32 (pw_channel_id e);
  ew_point : is_uint 32 (pw_point_id e);
  ew_type : is_uint 8 (pw_point_type e);
  ew_padding : length (pw_padding e) = 7%nat /\ is_bytes (pw_padding e);
  ew_value : is_uint 64 (pw_value_bits e);
  ew_raw : is_uint 64 (pw_raw_bits e);
  ew_slot : is_uint 64 (pw_slot_index e);
  ew_ts : is_uint 64 (pw_timestamp_ms e);
  ew_producer : is_uint 64 (pw_producer_id e)
}.

(** * Frames as a bijection *)

(** What a fixed-size frame promises its users: decoding inverts encoding on
    values of the right widths, and every buffer of the right size is the
    encoding of exactly one such value. *)
Class WireFrame (T : Type) (size : nat) := {
  wf_encode : T -> list Z;
  wf_decode : list Z -> T;
  wf_ok : T -> Prop;
  wf_encode_size : forall t, wf_ok t -> length (wf_encode t) = size /\ is_bytes (wf_encode t);
  wf_roundtrip : forall t, wf_ok t -> wf_decode (wf_encode t) = t;
  wf_surjective : forall bs, length bs = size -> is_bytes bs ->
    wf_ok (wf_decode bs) /\ wf_encode (wf_decode bs) = bs
}.

Ltac split_bytes :=
  repeat match goal with |- is_bytes (_ ++ _) => apply is_bytes_app; split end;
  auto with ems.

Lemma notification_encode_size n : notification_wf n ->
  length (ShmNotification_to_bytes n) = ShmNotification_SIZE /\ is_bytes (ShmNotification_to_bytes n).
Proof.
  intros []. unfold ShmNotification_to_bytes. split.
  - rewrite !length_app, !length_to_le_bytes. destruct nw_padding0 as [-> _]. reflexivity.
  - split_bytes. tauto.
Qed.

Lemma notification_decode_encode n : notification_wf n ->
  ShmNotification_from_bytes (ShmNotification_to_bytes n) = n.
Proof.
  intros [H1 H2 H3 [H4 _] H5 H6 H7 H8]. unfold ShmNotification_from_bytes, ShmNotification_to_bytes.
  destruct n; cbn [sn_channel_id sn_point_id sn_point_type sn_padding sn_value_bits
    sn_timestamp_ms sn_producer_id sn_seq] in *.
  f_equal; read_field.
Qed.

Ltac glue_slices :=
  rewrite ?to_le_get_le by (done || (unfold ShmNotification_SIZE, PointWatchEvent_SIZE in *; lia));
  repeat match goal with
  | |- context [slice ?a ?n ?bs ++ slice ?b ?m ?bs] =>
      change (slice b m bs) with (slice (a + n) m bs); rewrite (slice_glue a n m bs); cbn [Nat.add]
  end;
  apply slice_whole; [reflexivity | done].

Ltac field_ranges :=
  unfold ShmNotification_SIZE, PointWatchEvent_SIZE in *;
  first [ split; [apply length_slice; lia | by apply slice_bytes]
        | match goal with |- is_uint ?w (get_le ?s ?n ?bs) => apply (get_le_range s n bs); [done | lia] end].

Lemma notification_encode_decode bs :
  length bs = ShmNotification_SIZE -> is_bytes bs ->
  notification_wf (ShmNotification_from_bytes bs) /\
  ShmNotification_to_bytes (ShmNotification_from_bytes bs) = bs.
Proof.
  intros Hl Hb. split.
  - split; cbn; field_ranges.
  - unfold ShmNotification_to_bytes, ShmNotification_from_bytes. cbn [sn_channel_id sn_point_id
      sn_point_type sn_padding sn_value_bits sn_timestamp_ms sn_producer_id sn_seq].
    glue_slices.
Qed.

Lemma event_encode_size e : event_wf e ->
  length (PointWatchEvent_to_bytes e) = PointWatchEvent_SIZE /\ is_bytes (PointWatchEvent_to_bytes e).
Proof.
  intros []. unfold PointWatchEvent_to_bytes. split.
  - rewrite !length_app, !length_to_le_bytes. destruct ew_padding0 as [-> _]. reflexivity.
  - split_bytes. tauto.
Qed.

Lemma event_decode_encode e : event_wf e ->
  PointWatchEvent_from_bytes (PointWatchEvent_to_bytes e) = e.
Proof.
  intros [H1 H2 H3 [H4 _] H5 H6 H7 H8 H9]. unfold PointWatchEvent_from_bytes, PointWatchEvent_to_bytes.
  destruct e; cbn [pw_channel_id pw_point_id pw_point_type pw_padding pw_value_bits pw_raw_bits
    pw_slot_index pw_timestamp_ms pw_producer_id] in *.
  f_equal; read_field.
Qed.

Lemma event_encode_decode bs :
  length bs = PointWatchEvent_SIZE -> is_bytes bs ->
  event_wf (PointWatchEvent_from_bytes bs) /\
  PointWatchEvent_to_bytes (PointWatchEvent_from_bytes bs) = bs.
Proof.
  intros Hl Hb. split.
  - split; cbn; field_ranges.
  - unfold PointWatchEvent_to_bytes, PointWatchEvent_from_bytes. cbn [pw_channel_id pw_point_id
      pw_point_type pw_padding pw_value_bits pw_raw_bits pw_slot_index pw_timestamp_ms pw_producer_id].
    glue_slices.
Qed.

#[export] Instance notification_frame : WireFrame ShmNotification ShmNotification_SIZE := {|
  wf_encode := ShmNotification_to_bytes;
  wf_decode := ShmNotification_from_bytes;
  wf_ok := notification_wf;
  wf_encode_size := notification_encode_size;
  wf_roundtrip := notification_decode_encode;
  wf_surjective := notification_encode_decode
|}.

#[export] Instance event_frame : WireFrame PointWatchEvent PointWatchEvent_SIZE := {|
  wf_encode := PointWatchEvent_to_bytes;
  wf_decode := PointWatchEvent_from_bytes;
  wf_ok := event_wf;
  wf_encode_size := event_encode_size;
  wf_roundtrip := event_decode_encode;
  wf_surjective := event_encode_decode
|}.

(** * A connection as a stream of frames *)
Section Stream.
Context {T : Type} {size : nat} `{FR : !WireFrame T size}.
Hypothesis size_pos : (0 < size)%nat.

(** [loop { stream.read_exact(&mut buf) ... }]: one frame per [size] bytes, the
    loop ends at the first incomplete one (end of file). *)
Fixpoint read_frames_fuel (fuel : nat) (bs : list Z) : list T :=
  match fuel with
  | O => []
  | S fuel =>
      if (length bs <? size)%nat then []
      else wf_decode (slice 0 size bs) :: read_frames_fuel fuel (drop size bs)
  end.

(** Every iteration consumes [size] bytes, so [length bs] iterations suffice. *)
Definition read_frames (bs : list Z) : list T := read_frames_fuel (length bs) bs.

Lemma read_frames_fuel_app ts rest fuel :
  Forall wf_ok ts -> (length rest < size)%nat -> (length ts <= fuel)%nat ->
  read_frames_fuel fuel (concat (map wf_encode ts) ++ rest) = ts.
Proof using size_pos.
  intros Hok Hrest. revert fuel. induction Hok as [|t ts Ht _ IH]; intros [|fuel] Hf;
    simpl in *; try lia; try done.
  - by rewrite (proj2 (Nat.ltb_lt _ _) Hrest).
  - destruct (wf_encode_size t Ht) as [Hlen _]. rewrite <- app_assoc.
    rewrite (proj2 (Nat.ltb_ge _ _)) by (rewrite length_app; lia).
    rewrite slice_hit, drop_app_length' by done. rewrite wf_roundtrip by done. f_equal.
    apply IH. lia.
Qed.

Lemma frames_length ts : Forall wf_ok ts -> length (concat (map wf_encode ts)) = (size * length ts)%nat.
Proof.
  induction 1 as [|t ts Ht _ IH]; simpl; [lia |].
  rewrite length_app, IH. destruct (wf_encode_size t Ht) as [-> _]. lia.
Qed.

Lemma read_frames_spec ts rest :
  Forall wf_ok ts -> (length rest < size)%nat ->
  read_frames (concat (map wf_encode ts) ++ rest) = ts.
Proof using size_pos.
  intros Hok Hrest. apply read_frames_fuel_app; [done.. |].
  rewrite length_app, frames_length by done. nia.
Qed.
End Stream.

(** * Theorems *)

(** The 48-byte command frame is a bijection: every notification of the right
    field widths encodes to 48 bytes and decodes back to itself, and every 48-byte
    buffer decodes to one notification whose encoding is that buffer. *)
Theorem notification_frame_bijection :
  (forall n, notification_wf n ->
     length (ShmNotification_to_bytes n) = 48%nat /\
     ShmNotification_from_bytes (ShmNotification_to_bytes n) = n) /\
  (forall bs, length bs = 48%nat -> is_bytes bs ->
     notification_wf (ShmNotification_from_bytes bs) /\
     ShmNotification_to_bytes (ShmNotification_from_bytes bs) = bs).
Proof.
  split; intros.
  - split; [by apply notification_encode_size | by apply notification_decode_encode].
  - by apply notification_encode_decode.
Qed.

(** A byte stream made of PointWatch frames followed by a partial frame is
    split back into exactly the events that were sent, in order. *)
Theorem point_watch_stream_roundtrip es rest :
  Forall event_wf es -> (length rest < 56)%nat ->
  read_frames (FR:=event_frame) (concat (map PointWatchEvent_to_bytes es) ++ rest) = es.
Proof. apply (read_frames_spec (FR:=event_frame)). unfold PointWatchEvent_SIZE. lia. Qed.

(** * Witnesses *)
Definition sample_event : PointWatchEvent :=
  mkPointWatchEvent 7 42 0 (replicate 7 0) 0x4045400000000000 0x4059000000000000 1234
    1700000000123 0xCAFEBABEDEADBEEF.

Lemma sample_event_wf : event_wf sample_event.
Proof.
  split; cbn; try (unfold is_uint; lia). split; [reflexivity |].
  repeat constructor; unfold is_uint; lia.
Qed.

Lemma notification_frame_bijection_witness :
  ShmNotification_from_bytes (ShmNotification_to_bytes
    (ShmNotification_new 1001 Control 5 0x4045400000000000 1700000000000 77 3)) =
  ShmNotification_new 1001 Control 5 0x4045400000000000 1700000000000 77 3.
Proof.
  apply (proj1 notification_frame_bijection). split; cbn; try (unfold is_uint; lia).
  split; [reflexivity |]. repeat constructor; unfold is_uint; lia.
Defined.

Lemma point_watch_stream_roundtrip_witness :
  read_frames (FR:=event_frame) (concat (map PointWatchEvent_to_bytes [sample_event; sample_event]) ++ [1; 2; 3]) =
  [sample_event; sample_event].
Proof.
  apply point_watch_stream_roundtrip; [|simpl; lia].
  repeat constructor; apply sample_event_wf || (unfold is_uint; simpl; lia).
Defined.
