(* ===== verification/SlotIndex.v ===== *)
(** Forward and reverse slot indexes: [ChannelToSlotIndex] of
    [libs/voltage-rtdb-shm/src/shared_config.rs] and [ReverseSlotIndex] of
    [reverse_index.rs].

    The forward index is a hash map built once from the channel layouts; the
    reverse index is a vector built by iterating that map.  A hash map iterates
    in an unspecified order, so the reverse index is built from an arbitrary
    permutation of the entries. *)
From stdpp Require Import base numbers list gmap.
From Stdlib Require Import ZArith Lia.
From S2P Require Import Prelude PointTypes Layout.
Local Open Scope Z_scope.

(** * [ChannelToSlotIndex] *)

Abbreviation point_key := (Z * PointType * Z)%type.

Record ChannelToSlotIndex := mkChannelToSlotIndex {
  csi_index : gmap point_key nat;
  csi_mapped_count : nat
}.

Definition ChannelToSlotIndex_lookup (x : ChannelToSlotIndex) (channel_id : Z) (pt : PointType)
    (point_id : Z) : option nat :=
  csi_index x !! (channel_id, pt, point_id).

Definition ChannelToSlotIndex_len (x : ChannelToSlotIndex) : nat := csi_mapped_count x.
Definition ChannelToSlotIndex_is_empty (x : ChannelToSlotIndex) : bool := (csi_mapped_count x =? 0)%nat.

(** [for point_id in 0..count { if let Some(slot) = layout.slot(..) { insert } }] *)
Definition type_entries (channel_id : Z) (l : ChannelLayout) (pt : PointType) : list (point_key * nat) :=
  let type_idx := PointType_to_u8 pt in
  let count := nth (Z.to_nat type_idx) (cl_type_counts l) 0 in
  omap (fun p : nat =>
          match ChannelLayout_slot l type_idx (Z.of_nat p) with
          | Some slot => Some ((channel_id, pt, Z.of_nat p), slot)
          | None => None
          end) (seq 0 (Z.to_nat count)).

Definition channel_entries (channel_id : Z) (l : ChannelLayout) : list (point_key * nat) :=
  if cl_total_points l =? 0 then []
  else concat (map (type_entries channel_id l) [Telemetry; Signal; Control; Adjustment]).

(** [for (channel_id, layout) in layouts.iter().enumerate()] *)
Fixpoint layouts_entries (i : nat) (ls : list ChannelLayout) : list (point_key * nat) :=
  match ls with
  | [] => []
  | l :: ls => channel_entries (wrap 32 (Z.of_nat i)) l ++ layouts_entries (S i) ls
  end.

Definition insert_entry (m : gmap point_key nat) (e : point_key * nat) : gmap point_key nat :=
  <[e.1 := e.2]> m.

Definition ChannelToSlotIndex_from_layouts (ls : list ChannelLayout) : ChannelToSlotIndex :=
  let index := foldl insert_entry ∅ (layouts_entries 0 ls) in
  mkChannelToSlotIndex index (size index).

(** * [ReverseSlotIndex] *)

Record SlotOrigin := mkSlotOrigin {
  so_channel_id : Z;
  so_point_type : PointType;
  so_point_id : Z
}.

Record ReverseSlotIndex := mkReverseSlotIndex {
  rsi_origins : list (option SlotOrigin);
  rsi_mapped_count : nat
}.

Definition reverse_step (slot_count : nat) (r : ReverseSlotIndex) (e : point_key * nat)
    : ReverseSlotIndex :=
  let '((channel_id, point_type, point_id), slot) := e in
  if (slot <? slot_count)%nat then
    mkReverseSlotIndex (<[slot := Some (mkSlotOrigin channel_id point_type point_id)]> (rsi_origins r))
      (S (rsi_mapped_count r))
  else r.

(** [entries]: the pairs of [forward.iter()], in whatever order it yields them. *)
Definition ReverseSlotIndex_from_forward (entries : list (point_key * nat)) (slot_count : nat)
    : ReverseSlotIndex :=
  foldl (reverse_step slot_count) (mkReverseSlotIndex (replicate slot_count None) 0) entries.

Definition ReverseSlotIndex_get (r : ReverseSlotIndex) (slot : nat) : option SlotOrigin :=
  match rsi_origins r !! slot with
  | Some o => o
  | None => None
  end.

Definition ReverseSlotIndex_slot_count (r : ReverseSlotIndex) : nat := length (rsi_origins r).
Definition ReverseSlotIndex_mapped_count (r : ReverseSlotIndex) : nat := rsi_mapped_count r.

(** * Lemmas *)

Lemma to_u8_range pt : is_uint 8 (PointType_to_u8 pt) /\ PointType_to_u8 pt < 4.
Proof. unfold is_uint. destruct pt; simpl; lia. Qed.

(** A fold of insertions of a functional list is that list as a map. *)
Lemma foldl_insert_lookup (f : point_key -> option nat) es : forall m k s,
  Forall (fun e => f e.1 = Some e.2) es ->
  ((foldl insert_entry m es) !! k = Some s <-> ((k, s) ∈ es) \/ ((k ∉ es.*1) /\ (m !! k = Some s))).
Proof.
  induction es as [|[k' s'] es IH]; intros m k s Hf; simpl.
  - split; [intros H; right; split; [apply not_elem_of_nil | done] |].
    intros [H | [_ H]]; [by apply not_elem_of_nil in H | done].
  - rewrite Forall_cons in Hf. destruct Hf as [Hk Hf]. simpl in Hk.
    rewrite IH by done. unfold insert_entry; simpl.
    rewrite elem_of_cons, not_elem_of_cons.
    destruct (decide (k' = k)) as [-> | Hne].
    + rewrite lookup_insert_eq. split.
      * intros [H | [_ [= ->]]]; tauto.
      * intros [[[= ->] | H] | [[? _] _]]; [|tauto | done].
        destruct (decide (k ∈ es.*1)) as [Hin |]; [|tauto]. left.
        apply list_elem_of_fmap in Hin as ([k2 s2] & -> & Hin). simpl.
        pose proof (proj1 (Forall_forall _ _) Hf _ Hin) as H2. simpl in *. rewrite Hk in H2.
        by injection H2 as ->.
    + rewrite lookup_insert_ne by done. split.
      * intros [H | [H1 H2]]; [tauto |]. right. split; [split; congruence || done | done].
      * intros [[[= -> ->] | H] | [[_ H1] H2]]; [done | tauto | tauto].
Qed.

(** Every entry is a lookup of the layouts. *)
Lemma type_entries_elem ch l pt k s :
  (k, s) ∈ type_entries ch l pt <->
  exists p : nat, k = (ch, pt, Z.of_nat p) /\
    ChannelLayout_slot l (PointType_to_u8 pt) (Z.of_nat p) = Some s.
Proof.
  unfold type_entries. rewrite list_elem_of_omap. split.
  - intros (p & _ & H). destruct (ChannelLayout_slot _ _ _) as [s' |] eqn:E; [|done].
    injection H as <- <-. by exists p.
  - intros (p & -> & Hs). exists p. rewrite Hs. split; [|done].
    apply elem_of_seq. split; [lia |]. simpl.
    unfold ChannelLayout_slot in Hs.
    destruct (cl_type_counts l !! Z.to_nat (PointType_to_u8 pt)) as [c |] eqn:Ec; [|done].
    destruct (cl_type_offsets l !! _); [|done].
    rewrite nth_lookup, Ec. simpl. destruct (Z.leb_spec c (Z.of_nat p)); [|lia].
    by rewrite orb_true_r in Hs.
Qed.

(** A layout of [u32] counts whose [total_points] did not wrap to zero. *)
Record layout_ok (l : ChannelLayout) : Prop := {
  lok_counts : Forall (is_uint 32) (cl_type_counts l);
  lok_total : cl_total_points l = 0 -> Forall (eq 0) (cl_type_counts l)
}.

Lemma slot_point_range l t p s :
  layout_ok l -> 0 <= p -> ChannelLayout_slot l t p = Some s ->
  is_uint 32 p /\ cl_total_points l <> 0 /\ (Z.to_nat t < 4)%nat.
Proof.
  intros [Hu Ht] Hp Hs. unfold ChannelLayout_slot in Hs.
  destruct (cl_type_counts l !! Z.to_nat t) as [c |] eqn:Ec; [|done].
  destruct (cl_type_offsets l !! Z.to_nat t); [|done].
  destruct (Nat.leb_spec 4 (Z.to_nat t)); [done |]. destruct (Z.leb_spec c p); [done |].
  apply list_elem_of_lookup_2 in Ec.
  pose proof (proj1 (Forall_forall _ _) Hu _ Ec). split; [solve_uint |]. split; [|done].
  intros Hz. pose proof (proj1 (Forall_forall _ _) (Ht Hz) _ Ec). lia.
Qed.

Lemma channel_entries_elem ch l k s : layout_ok l ->
  ((k, s) ∈ channel_entries ch l <->
   exists pt p, k = (ch, pt, p) /\ 0 <= p /\ ChannelLayout_slot l (PointType_to_u8 pt) p = Some s).
Proof.
  intros Hok. unfold channel_entries. split.
  - destruct (cl_total_points l =? 0); [by intros ?%not_elem_of_nil |].
    intros H.
    assert (exists pt, (k, s) ∈ type_entries ch l pt) as (pt & Hin).
    { simpl in H. rewrite !elem_of_app in H. destruct H as [H | [H | [H | [H | H]]]]; eauto.
      by apply not_elem_of_nil in H. }
    apply type_entries_elem in Hin as (p & -> & Hs). exists pt, (Z.of_nat p). split_and!; done || lia.
  - intros (pt & p & -> & Hp & Hs). pose proof (slot_point_range _ _ _ _ Hok Hp Hs) as (_ & Hne & _).
    rewrite (proj2 (Z.eqb_neq _ _) Hne).
    assert (Hin : ((ch, pt, p), s) ∈ type_entries ch l pt).
    { apply type_entries_elem. exists (Z.to_nat p). rewrite Z2Nat.id by done. done. }
    simpl. rewrite !elem_of_app. destruct pt; tauto.
Qed.

Lemma layouts_entries_elem ls : forall i k s,
  Forall layout_ok ls -> Z.of_nat (i + length ls) <= 2 ^ 32 ->
  ((k, s) ∈ layouts_entries i ls <->
   exists j l pt p, ls !! j = Some l /\ k = (Z.of_nat (i + j), pt, p) /\ 0 <= p /\
     ChannelLayout_slot l (PointType_to_u8 pt) p = Some s).
Proof.
  induction ls as [|l ls IH]; intros i k s Hok Hlen; simpl.
  - split; [by intros ?%not_elem_of_nil | by intros (j & l & pt & p & ? & _)].
  - rewrite Forall_cons in Hok. destruct Hok as [Hl Hok]. simpl in Hlen.
    rewrite elem_of_app, channel_entries_elem, IH by (done || lia).
    rewrite wrap_small by solve_uint. split.
    + intros [(pt & p & -> & Hp & Hs) | (j & l' & pt & p & Hj & -> & Hp & Hs)].
      * exists O, l, pt, p. rewrite Nat.add_0_r. done.
      * exists (S j), l', pt, p. split_and!; try done. do 3 f_equal. lia.
    + intros (j & l' & pt & p & Hj & -> & Hp & Hs). destruct j as [|j]; simpl in Hj.
      * injection Hj as ->. left. exists pt, p. rewrite Nat.add_0_r. done.
      * right. exists j, l', pt, p. split_and!; try done. do 3 f_equal. lia.
Qed.

Definition key_lookup (ls : list ChannelLayout) (k : point_key) : option nat :=
  layouts_lookup ls k.1.1 (PointType_to_u8 k.1.2) k.2.

Lemma layouts_entries_functional ls :
  Forall layout_ok ls -> Z.of_nat (length ls) <= 2 ^ 32 ->
  Forall (fun e => key_lookup ls e.1 = Some e.2) (layouts_entries 0 ls).
Proof.
  intros Hok Hlen. apply Forall_forall. intros [k s'] Hin. apply layouts_entries_elem in Hin; [|done..].
  destruct Hin as (j & l & pt' & p' & Hj & -> & _ & Hs). unfold key_lookup, layouts_lookup; simpl.
  by rewrite Nat2Z.id, Hj.
Qed.

(** The forward index is the layouts' lookup function. *)
Lemma forward_spec ls ch pt p s :
  Forall layout_ok ls -> Z.of_nat (length ls) <= 2 ^ 32 -> 0 <= ch -> 0 <= p ->
  (ChannelToSlotIndex_lookup (ChannelToSlotIndex_from_layouts ls) ch pt p = Some s <->
   layouts_lookup ls ch (PointType_to_u8 pt) p = Some s).
Proof.
  intros Hok Hlen Hch Hp. unfold ChannelToSlotIndex_lookup, ChannelToSlotIndex_from_layouts; simpl.
  rewrite (foldl_insert_lookup (key_lookup ls)).
  - rewrite lookup_empty, layouts_entries_elem by done. unfold layouts_lookup. split.
    + intros [(j & l & pt' & p' & Hj & [= -> -> ->] & _ & Hs) | [_ ?]]; [|done].
      rewrite Nat2Z.id, Hj. done.
    + intros H. destruct (ls !! Z.to_nat ch) as [l |] eqn:El; [|done]. left.
      exists (Z.to_nat ch), l, pt, p. simpl. rewrite Z2Nat.id by done. done.
  - by apply layouts_entries_functional.
Qed.

Lemma forward_keys_nonneg ls ch pt p s :
  Forall layout_ok ls -> Z.of_nat (length ls) <= 2 ^ 32 ->
  ChannelToSlotIndex_lookup (ChannelToSlotIndex_from_layouts ls) ch pt p = Some s ->
  is_uint 32 ch /\ is_uint 32 p.
Proof.
  intros Hok Hlen. unfold ChannelToSlotIndex_lookup, ChannelToSlotIndex_from_layouts; simpl.
  rewrite (foldl_insert_lookup (key_lookup ls)).
  - rewrite lookup_empty. intros [Hin | [_ ?]]; [|done].
    apply layouts_entries_elem in Hin; [|done..].
    destruct Hin as (j & l & pt' & p' & Hj & [= -> -> ->] & Hp & Hs).
    pose proof (proj1 (Forall_lookup _ _) Hok _ _ Hj) as Hl.
    apply lookup_lt_Some in Hj. split; [solve_uint |]. by eapply slot_point_range.
  - by apply layouts_entries_functional.
Qed.

Definition origin_key (o : SlotOrigin) : point_key := (so_channel_id o, so_point_type o, so_point_id o).

Lemma reverse_step_get slot_count r k s slot o :
  length (rsi_origins r) = slot_count ->
  (ReverseSlotIndex_get (reverse_step slot_count r (k, s)) slot = Some o <->
   (s = slot /\ (slot < slot_count)%nat /\ origin_key o = k) \/
   ((s <> slot \/ (slot_count <= slot)%nat) /\ ReverseSlotIndex_get r slot = Some o)).
Proof.
  intros Hlen. destruct k as [[ch pt] p]. unfold reverse_step, ReverseSlotIndex_get.
  destruct (Nat.ltb_spec s slot_count) as [Hlt | Hge]; simpl.
  - destruct (decide (s = slot)) as [-> | Hne].
    + rewrite list_lookup_insert_eq by lia. split.
      * intros [= <-]. left. done.
      * intros [(_ & _ & Hk) | [[? | ?] _]]; [|done | lia]. destruct o; by injection Hk as -> -> ->.
    + rewrite list_lookup_insert_ne by done. split; [tauto |].
      intros [(? & _) | [_ H]]; [done | done].
  - split; [|intros [(-> & ? & _) | [_ H]]; [lia | done]].
    intros H. right. split; [|done].
    destruct (decide (s = slot)) as [-> |]; [by right | by left].
Qed.

Lemma reverse_step_length slot_count r e :
  length (rsi_origins (reverse_step slot_count r e)) = length (rsi_origins r).
Proof.
  destruct e as [[[ch pt] p] s]. simpl. destruct (s <? slot_count)%nat; [apply length_insert | done].
Qed.

Lemma reverse_fold_get slot_count es : forall r slot o,
  NoDup es.*2 -> length (rsi_origins r) = slot_count ->
  (ReverseSlotIndex_get (foldl (reverse_step slot_count) r es) slot = Some o <->
   ((origin_key o, slot) ∈ es /\ (slot < slot_count)%nat) \/
   ((slot ∉ es.*2 \/ (slot_count <= slot)%nat) /\ ReverseSlotIndex_get r slot = Some o)).
Proof.
  induction es as [|[k s] es IH]; intros r slot o Hnd Hlen; cbn [foldl fmap list_fmap].
  - split; [intros H; right; split; [left; apply not_elem_of_nil | done] |].
    intros [[H _] | [_ H]]; [by apply not_elem_of_nil in H | done].
  - apply NoDup_cons in Hnd as [Hs Hnd].
    rewrite IH; [| done | by rewrite reverse_step_length].
    rewrite (reverse_step_get slot_count r k s slot o Hlen).
    rewrite !elem_of_cons. simpl in *. split.
    + intros [[H1 H2] | [H1 [(-> & H2 & <-) | [H2 H3]]]].
      * left. tauto.
      * left. tauto.
      * right. split; [|done]. destruct H1, H2; try (by right); left. intros [->|?]; done.
    + intros [[[[= <- <-] | H1] H2] | [H1 H2]].
      * right. split; [by left |]. by left.
      * left. done.
      * right. split.
        -- destruct H1 as [H1 | H1]; [left | by right]. tauto.
        -- right. split; [|done]. destruct H1 as [H1 | H1]; [left | by right].
           intros ->. apply H1. by left.
Qed.

(** * Theorems *)

(** Layouts of a configuration whose per-channel totals fit [u32]. *)
Record config_ok (cps : ChannelPointCounts) : Prop := {
  cok_wf : counts_wf cps;
  cok_sums : Forall (fun p => foldr Z.add 0 p.2 < 2 ^ 32) cps
}.

Lemma sum_u32_zero counts : Forall (is_uint 32) counts -> foldr Z.add 0 counts < 2 ^ 32 ->
  sum_u32 counts = 0 -> Forall (eq 0) counts.
Proof.
  intros Hu Hlt. rewrite sum_u32_small by done. clear Hlt. intros H0.
  induction Hu as [|c cs Hc Hcs IH]; [done |]. simpl in H0. pose proof (sum_nonneg cs Hcs).
  constructor; [solve_uint |]. apply IH. solve_uint.
Qed.

Lemma allocated_layouts_ok cps ls total :
  config_ok cps -> allocate_layouts cps = Ret (ls, total) ->
  Forall layout_ok ls /\ Z.of_nat (length ls) <= 2 ^ 32.
Proof.
  intros [Hwf Hsums] Hal. split; [|by eapply allocate_layouts_length].
  destruct (allocate_layouts_spec cps Hwf) as (ls' & total' & Heq & Hlo & Hdef).
  rewrite Hal in Heq. injection Heq as <- <-. apply Forall_lookup. intros i l Hl.
  destruct (decide (i ∈ map Z.to_nat cps.*1)) as [Hin | Hnin].
  - apply list_elem_of_In, in_map_iff in Hin as (ch & <- & Hin). apply list_elem_of_In in Hin.
    apply list_elem_of_fmap in Hin as ([ch' cs] & -> & Hin).
    destruct (laid_out_lookup _ _ _ _ _ _ Hlo Hin) as (l' & lo & hi & Hl' & Hsh & _). simpl in Hl.
    rewrite Hl in Hl'. injection Hl' as <-.
    pose proof (proj1 (Forall_forall _ _) (cw_counts _ Hwf) _ Hin) as (_ & Hu & _).
    pose proof (proj1 (Forall_forall _ _) Hsums _ Hin) as Hs. simpl in *.
    split; rewrite (csh_counts _ _ _ _ Hsh); [done |].
    rewrite (csh_total _ _ _ _ Hsh). by apply sum_u32_zero.
  - rewrite (Hdef i l) by done. split; simpl; [|intros _].
    + repeat constructor; unfold is_uint; lia.
    + repeat constructor.
Qed.

Lemma reverse_index_spec cps ls total entries slot ch pt p :
  config_ok cps -> allocate_layouts cps = Ret (ls, total) ->
  entries ≡ₚ map_to_list (csi_index (ChannelToSlotIndex_from_layouts ls)) ->
  is_uint 32 ch -> is_uint 32 p ->
  (ReverseSlotIndex_get (ReverseSlotIndex_from_forward entries total) slot = Some (mkSlotOrigin ch pt p) <->
   layouts_lookup ls ch (PointType_to_u8 pt) p = Some slot).
Proof.
  intros Hok Hal Hperm Hch Hp. destruct (allocated_layouts_ok _ _ _ Hok Hal) as [Hls Hlen].
  set (idx := ChannelToSlotIndex_from_layouts ls) in *.
  assert (Hlk : forall ch pt p s, is_uint 32 ch -> is_uint 32 p ->
      csi_index idx !! (ch, pt, p) = Some s <-> layouts_lookup ls ch (PointType_to_u8 pt) p = Some s).
  { intros ch' pt' p' s' Hch' Hp'. apply forward_spec; solve_uint || done. }
  assert (Hnd : NoDup entries.*2).
  { apply NoDup_fmap_2_strong; [|rewrite Hperm; apply NoDup_map_to_list].
    intros [[[c1 t1] p1] s1] [[[c2 t2] p2] s2] H1 H2 Heq; simpl in Heq; subst s2.
    rewrite Hperm, elem_of_map_to_list in H1, H2.
    destruct (forward_keys_nonneg ls _ _ _ _ Hls Hlen H1) as [Hc1 Hp1].
    destruct (forward_keys_nonneg ls _ _ _ _ Hls Hlen H2) as [Hc2 Hp2].
    apply Hlk in H1, H2; [|done..].
    destruct (layout_aliases_none cps ls total (cok_wf _ Hok) Hal c1 (PointType_to_u8 t1) p1
      c2 (PointType_to_u8 t2) p2 s1) as (-> & Ht & -> & _); try done; try apply to_u8_range.
    f_equal. f_equal. f_equal. by destruct t1, t2. }
  unfold ReverseSlotIndex_from_forward.
  rewrite reverse_fold_get by (done || apply length_replicate).
  unfold origin_key; simpl. rewrite Hperm, elem_of_map_to_list, Hlk by done. split.
  - intros [[H _] | [_ H]]; [done |]. unfold ReverseSlotIndex_get in H; simpl in H.
    destruct (replicate total None !! slot) as [o |] eqn:E; [|done].
    apply lookup_replicate in E as [-> _]. done.
  - intros H. left. split; [done |].
    by eapply (layout_aliases_none cps ls total (cok_wf _ Hok) Hal ch (PointType_to_u8 pt) p
      ch (PointType_to_u8 pt) p slot); try done; try apply to_u8_range.
Qed.

(** The reverse slot index inverts the layout: whatever order the hash map
    iterates in, looking a slot up yields a point exactly when the layout maps
    that point to the slot (so a slot is attributed to at most one point, and to
    the right one). *)
Theorem reverse_index_inverts cps ls total entries slot ch pt p :
  config_ok cps -> allocate_layouts cps = Ret (ls, total) ->
  entries ≡ₚ map_to_list (csi_index (ChannelToSlotIndex_from_layouts ls)) ->
  is_uint 32 ch -> is_uint 32 p ->
  (ReverseSlotIndex_get (ReverseSlotIndex_from_forward entries total) slot = Some (mkSlotOrigin ch pt p) <->
   layouts_lookup ls ch (PointType_to_u8 pt) p = Some slot).
Proof. apply reverse_index_spec. Qed.

(** * Witnesses *)
Lemma reverse_index_inverts_witness : exists ls total,
  allocate_layouts sample_counts = Ret (ls, total) /\
  ReverseSlotIndex_get (ReverseSlotIndex_from_forward
      (map_to_list (csi_index (ChannelToSlotIndex_from_layouts ls))) total) 4
    = Some (mkSlotOrigin 1 Control 0).
Proof.
  eexists _, _. split; [vm_compute; reflexivity |].
  eapply (reverse_index_inverts sample_counts); [| vm_compute; reflexivity | reflexivity | | | reflexivity];
    try (unfold is_uint; lia).
  split; [apply sample_counts_wf |]. repeat constructor; simpl; lia.
Defined.
