(* ===== verification/PointWatch.v ===== *)
(** PointWatch: the subscription bitmap and the writer-side signaler,
    [libs/voltage-rtdb-shm/src/subscription_bitmap.rs] and [point_watch.rs].

    The bitmap's words live in a shared file; both processes address it through
    the same operations.  The bounded queue between the hot path and the drain
    task is Tokio's [mpsc]: a parameter with the documented behaviour of
    [try_send].  The drain task is the state machine [drain_step]. *)
From stdpp Require Import base numbers list gmap.
From Stdlib Require Import ZArith Lia.
From S2P Require Import Prelude BitWords PointTypes Wire Layout SlotIndex.
Local Open Scope Z_scope.

(** * [SubscriptionBitmap] *)

Definition WATCH_WORDS_COUNT : nat := Z.to_nat 1563.
Definition WATCH_BITMAP_SIZE : nat := (WATCH_WORDS_COUNT * 8)%nat.

(** The mapped words; [create], [open] and [new_in_memory] map
    [WATCH_BITMAP_SIZE] bytes. *)
Record SubscriptionBitmap := mkSubscriptionBitmap { sub_words : list Z }.

(** A fresh zero-filled file. *)
Definition SubscriptionBitmap_create : SubscriptionBitmap :=
  mkSubscriptionBitmap (replicate WATCH_WORDS_COUNT 0).

Inductive BitmapError := WrongBitmapSize (len : nat).

(** [open] of an existing file of [file_len] bytes holding [words]. *)
Definition SubscriptionBitmap_open (file_len : nat) (words : list Z)
    : result SubscriptionBitmap BitmapError :=
  if (file_len =? WATCH_BITMAP_SIZE)%nat then Ok (mkSubscriptionBitmap words)
  else Err (WrongBitmapSize file_len).

Definition SubscriptionBitmap_is_watched (b : SubscriptionBitmap) (slot : nat) : outcome bool :=
  if (WATCH_WORDS_COUNT <=? slot `div` 64)%nat then Ret false
  else match sub_words b !! (slot `div` 64)%nat with
       | Some w => Ret (bit_test w (bit_idx slot))
       | None => Panic
       end.

Definition SubscriptionBitmap_set_watched (b : SubscriptionBitmap) (slot : nat)
    : outcome SubscriptionBitmap :=
  if (WATCH_WORDS_COUNT <=? slot `div` 64)%nat then Ret b
  else outcome_map mkSubscriptionBitmap (words_update bit_set (sub_words b) slot).

Definition SubscriptionBitmap_clear_watched (b : SubscriptionBitmap) (slot : nat)
    : outcome SubscriptionBitmap :=
  if (WATCH_WORDS_COUNT <=? slot `div` 64)%nat then Ret b
  else outcome_map mkSubscriptionBitmap (words_update bit_clear (sub_words b) slot).

Definition SubscriptionBitmap_clear_all (b : SubscriptionBitmap) : SubscriptionBitmap :=
  mkSubscriptionBitmap (map (fun _ => 0) (sub_words b)).

(** [u64::count_ones] *)
Fixpoint count_ones (bits : nat) (w : Z) : nat :=
  match bits with
  | O => O
  | S bits => Nat.b2n (Z.odd w) + count_ones bits (Z.div2 w)
  end.

Definition SubscriptionBitmap_subscription_count (b : SubscriptionBitmap) : nat :=
  list_sum (map (count_ones 64) (sub_words b)).

(** * Specification: the bitmap is a finite set of slots below [100,032]. *)

Definition bitmap_wf (b : SubscriptionBitmap) : Prop := length (sub_words b) = WATCH_WORDS_COUNT.
Definition watch_capacity : nat := (64 * WATCH_WORDS_COUNT)%nat.

(** [b] represents the set [X] of watched slots. *)
Definition watches (b : SubscriptionBitmap) (X : gset nat) : Prop :=
  bitmap_wf b /\ forall slot, words_test (sub_words b) slot = bool_decide (slot ∈ X).

Lemma watch_range slot : (WATCH_WORDS_COUNT <=? slot `div` 64)%nat = negb (slot <? watch_capacity)%nat.
Proof.
  unfold watch_capacity. pose proof (word_index_lt slot WATCH_WORDS_COUNT).
  bool_cases; simpl; try done; lia.
Qed.

Lemma watches_bounded b X slot : watches b X -> slot ∈ X -> (slot < watch_capacity)%nat.
Proof.
  intros [Hwf Hw] Hin. specialize (Hw slot). rewrite bool_decide_eq_true_2 in Hw by done.
  unfold words_test in Hw. destruct (sub_words b !! (slot `div` 64)%nat) eqn:E; [|done].
  apply lookup_lt_Some in E. unfold watch_capacity. apply word_index_lt. by rewrite <- Hwf.
Qed.

Lemma is_watched_spec b X slot : watches b X ->
  SubscriptionBitmap_is_watched b slot = Ret (bool_decide (slot ∈ X)).
Proof.
  intros Hb. pose proof Hb as [Hwf Hw]. unfold SubscriptionBitmap_is_watched.
  rewrite watch_range. destruct (Nat.ltb_spec slot watch_capacity) as [Hlt | Hge]; cbn [negb].
  - rewrite <- Hw. unfold words_test.
    apply word_index_lt in Hlt. rewrite <- Hwf in Hlt.
    destruct (lookup_lt_is_Some_2 _ _ Hlt) as [w Hw']. rewrite Hw'. reflexivity.
  - f_equal. symmetry. apply bool_decide_eq_false. intros Hin.
    pose proof (watches_bounded _ _ _ Hb Hin). lia.
Qed.

Lemma update_watched_spec f v b X X' slot :
  (forall w b c, 0 <= b < 64 -> 0 <= c < 64 ->
     bit_test (f w b) c = if b =? c then v else bit_test w c) ->
  (forall j, bool_decide (j ∈ X') = if (slot =? j)%nat then v else bool_decide (j ∈ X)) ->
  watches b X -> (slot < watch_capacity)%nat ->
  exists b', outcome_map mkSubscriptionBitmap (words_update f (sub_words b) slot) = Ret b' /\ watches b' X'.
Proof.
  intros Hf HX [Hwf Hw] Hlt.
  destruct (words_update_spec f v Hf (sub_words b) slot) as (ws & Hu & Hl & Ht).
  { rewrite Hwf. done. }
  rewrite Hu. eexists. split; [reflexivity |]. split.
  - unfold bitmap_wf. simpl. by rewrite Hl.
  - intros j. simpl. by rewrite Ht, Hw, HX.
Qed.

Lemma set_watched_spec b X slot : watches b X -> (slot < watch_capacity)%nat ->
  exists b', SubscriptionBitmap_set_watched b slot = Ret b' /\ watches b' ({[slot]} ∪ X).
Proof.
  intros Hb Hlt. unfold SubscriptionBitmap_set_watched.
  rewrite watch_range, (proj2 (Nat.ltb_lt _ _) Hlt). cbn [negb].
  apply (update_watched_spec _ true b X); [apply bit_set_spec | | done..].
  intros j. destruct (Nat.eqb_spec slot j) as [-> | Hne].
  - apply bool_decide_eq_true, elem_of_union_l, elem_of_singleton. done.
  - apply bool_decide_ext. rewrite elem_of_union, elem_of_singleton. intuition congruence.
Qed.

Lemma clear_watched_spec b X slot : watches b X ->
  exists b', SubscriptionBitmap_clear_watched b slot = Ret b' /\ watches b' (X ∖ {[slot]}).
Proof.
  intros Hb. unfold SubscriptionBitmap_clear_watched. rewrite watch_range.
  destruct (Nat.ltb_spec slot watch_capacity) as [Hlt | Hge]; cbn [negb].
  - apply (update_watched_spec _ false b X); [apply bit_clear_spec | | done..].
    intros j. destruct (Nat.eqb_spec slot j) as [-> | Hne].
    + apply bool_decide_eq_false. rewrite elem_of_difference, elem_of_singleton. tauto.
    + apply bool_decide_ext. rewrite elem_of_difference, elem_of_singleton. intuition congruence.
  - exists b. split; [done |]. destruct Hb as [Hwf Hw]. split; [done |]. intros j. rewrite Hw.
    apply bool_decide_ext. pose proof (watches_bounded b X j (conj Hwf Hw)) as Hbd.
    rewrite elem_of_difference, elem_of_singleton. split; [|tauto].
    intros Hin. split; [done |]. intros ->. specialize (Hbd Hin). lia.
Qed.

Lemma set_watched_out b slot : (watch_capacity <= slot)%nat -> SubscriptionBitmap_set_watched b slot = Ret b.
Proof.
  intros Hge. unfold SubscriptionBitmap_set_watched. rewrite watch_range.
  by rewrite (proj2 (Nat.ltb_ge _ _) Hge).
Qed.

Lemma create_watches : watches SubscriptionBitmap_create ∅.
Proof.
  split; [apply length_replicate |]. intros slot. unfold SubscriptionBitmap_create.
  cbn [sub_words]. rewrite words_test_replicate. symmetry. apply bool_decide_eq_false. set_solver.
Qed.

Lemma clear_all_watches b X : watches b X -> watches (SubscriptionBitmap_clear_all b) ∅.
Proof.
  intros [Hwf _]. unfold SubscriptionBitmap_clear_all, watches, bitmap_wf. cbn [sub_words].
  split; [by rewrite length_map |]. intros slot.
  replace (map (fun _ : Z => 0) (sub_words b)) with (replicate (length (sub_words b)) 0).
  - rewrite words_test_replicate. symmetry. apply bool_decide_eq_false. set_solver.
  - clear. induction (sub_words b); simpl; congruence.
Qed.

(** ** The subscription count *)

Lemma words_test_shift w ws j : words_test (w :: ws) (64 + j) = words_test ws j.
Proof.
  unfold words_test, bit_idx.
  replace (64 + j)%nat with (j + 1 * 64)%nat by lia.
  rewrite Nat.div_add, Nat.Div0.mod_add, Nat.add_1_r by lia. reflexivity.
Qed.

Lemma words_count_shift w ws n : forall from,
  words_count (w :: ws) (64 + from) n = words_count ws from n.
Proof.
  induction n as [|n IH]; intros from; [done |]. cbn [words_count].
  rewrite words_test_shift. f_equal. apply (IH (S from)).
Qed.

Lemma words_count_word w ws n : forall k, (k + n <= 64)%nat ->
  words_count (w :: ws) k n = count_ones n (Z.shiftr w (Z.of_nat k)).
Proof.
  induction n as [|n IH]; intros k Hk; [done |]. cbn [words_count count_ones].
  rewrite IH by lia. f_equal.
  - f_equal. unfold words_test, bit_idx. rewrite Nat.div_small, Nat.mod_small by lia. cbn [lookup list_lookup].
    rewrite bit_test_testbit, <- Z.bit0_odd, Z.shiftr_spec by lia. f_equal.
  - f_equal. rewrite Z.div2_spec, Z.shiftr_shiftr by lia. f_equal. lia.
Qed.

Lemma subscription_count_words ws :
  list_sum (map (count_ones 64) ws) = words_count ws 0 (64 * length ws).
Proof.
  induction ws as [|w ws IH]; [done |]. cbn [map list_sum foldr length].
  replace (64 * S (length ws))%nat with (64 + 64 * length ws)%nat by lia.
  rewrite words_count_app, words_count_word, (words_count_shift w ws _ 0) by lia.
  rewrite <- IH. f_equal.
Qed.

Lemma words_count_filter ws n : forall from,
  words_count ws from n = length (filter (fun j => words_test ws j = true) (seq from n)).
Proof.
  induction n as [|n IH]; intros from; [done |]. cbn [words_count seq].
  rewrite IH. destruct (words_test ws from) eqn:E.
  - by rewrite filter_cons_True.
  - rewrite filter_cons_False by (rewrite E; discriminate). done.
Qed.

Lemma subscription_count_spec b X : watches b X ->
  SubscriptionBitmap_subscription_count b = size X.
Proof.
  intros Hb. pose proof Hb as [Hwf Hw]. unfold SubscriptionBitmap_subscription_count.
  rewrite subscription_count_words, words_count_filter. unfold size, set_size. simpl.
  apply Permutation_length, NoDup_Permutation.
  - apply NoDup_filter, NoDup_seq.
  - apply NoDup_elements.
  - intros j. rewrite list_elem_of_filter, elem_of_elements, elem_of_seq, Hw, bool_decide_eq_true.
    split; [tauto |]. intros Hin. split; [done |].
    pose proof (watches_bounded _ _ _ Hb Hin) as Hlt. unfold watch_capacity in Hlt.
    rewrite Hwf. lia.
Qed.

(** ** Refinement: any sequence of operations on a fresh bitmap *)
Inductive sub_op := OpSet (slot : nat) | OpClear (slot : nat) | OpClearAll.

Definition sub_exec (b : SubscriptionBitmap) (o : sub_op) : outcome SubscriptionBitmap :=
  match o with
  | OpSet slot => SubscriptionBitmap_set_watched b slot
  | OpClear slot => SubscriptionBitmap_clear_watched b slot
  | OpClearAll => Ret (SubscriptionBitmap_clear_all b)
  end.

Fixpoint sub_run (b : SubscriptionBitmap) (os : list sub_op) : outcome SubscriptionBitmap :=
  match os with
  | [] => Ret b
  | o :: os => let! b' := sub_exec b o in sub_run b' os
  end.

(** The abstract set: out-of-range slots are ignored. *)
Definition sub_spec (X : gset nat) (o : sub_op) : gset nat :=
  match o with
  | OpSet slot => if decide (slot < watch_capacity)%nat then {[slot]} ∪ X else X
  | OpClear slot => X ∖ {[slot]}
  | OpClearAll => ∅
  end.

Lemma sub_exec_refines b X o : watches b X ->
  exists b', sub_exec b o = Ret b' /\ watches b' (sub_spec X o).
Proof.
  intros Hb. destruct o as [slot | slot |]; cbn [sub_exec sub_spec].
  - case_decide; [by apply set_watched_spec |].
    exists b. split; [apply set_watched_out; lia | done].
  - by apply clear_watched_spec.
  - eexists. split; [reflexivity |]. by eapply clear_all_watches.
Qed.

Lemma sub_run_refines os : forall b X, watches b X ->
  exists b', sub_run b os = Ret b' /\ watches b' (foldl sub_spec X os).
Proof.
  induction os as [|o os IH]; intros b X Hb; cbn [sub_run foldl]; [by exists b |].
  destruct (sub_exec_refines b X o Hb) as (b1 & He & Hb1). rewrite He. cbn [outcome_bind].
  by apply IH.
Qed.

(** The subscription bitmap implements a set of slots: after any sequence of
    subscriptions, cancellations and resets, no operation has panicked, the hot
    path test answers membership in the abstract set for every slot index (also
    out of range), and the reported count is the set's size. *)
Theorem subscription_refines_set os :
  exists b, sub_run SubscriptionBitmap_create os = Ret b /\
    (forall slot, SubscriptionBitmap_is_watched b slot = Ret (bool_decide (slot ∈ foldl sub_spec ∅ os))) /\
    SubscriptionBitmap_subscription_count b = size (foldl sub_spec ∅ os).
Proof.
  destruct (sub_run_refines os _ _ create_watches) as (b & Hr & Hb).
  exists b. split; [done |]. split; [intros; by apply is_watched_spec | by apply subscription_count_spec].
Qed.

(** * The signaler *)

(** Tokio's bounded [mpsc::Sender::try_send]: on success the event is queued
    behind those already queued; on [Full] or [Closed] nothing changes. *)
Class MpscSender (C E : Type) := {
  try_send : C -> E -> option C;
  queued : C -> list E;
  try_send_queued : forall c e c', try_send c e = Some c' -> queued c' = queued c ++ [e]
}.

Record PointWatchSignaler (C : Type) := mkPointWatchSignaler {
  sig_subs : SubscriptionBitmap;
  sig_reverse_index : ReverseSlotIndex;
  sig_tx : C;
  sig_dropped_count : Z;
  sig_producer_id : Z
}.
Arguments mkPointWatchSignaler {C}.
Arguments sig_subs {C}.
Arguments sig_reverse_index {C}.
Arguments sig_tx {C}.
Arguments sig_dropped_count {C}.
Arguments sig_producer_id {C}.

Section Signaler.
Context {C : Type} `{MS : !MpscSender C PointWatchEvent}.

Definition PointWatchSignaler_event (s : PointWatchSignaler C) (origin : SlotOrigin) (slot : nat)
    (value raw timestamp_ms : Z) : PointWatchEvent :=
  mkPointWatchEvent (so_channel_id origin) (so_point_id origin) (PointType_to_u8 (so_point_type origin))
    (replicate 7 0) value raw (Z.of_nat slot) timestamp_ms (sig_producer_id s).

Definition PointWatchSignaler_emit (s : PointWatchSignaler C) (slot : nat) (value raw timestamp_ms : Z)
    : outcome (PointWatchSignaler C) :=
  let! watched := SubscriptionBitmap_is_watched (sig_subs s) slot in
  if negb watched then Ret s
  else
    match ReverseSlotIndex_get (sig_reverse_index s) slot with
    | None => Ret s
    | Some origin =>
        match try_send (sig_tx s) (PointWatchSignaler_event s origin slot value raw timestamp_ms) with
        | Some tx => Ret (mkPointWatchSignaler (sig_subs s) (sig_reverse_index s) tx
                            (sig_dropped_count s) (sig_producer_id s))
        | None => Ret (mkPointWatchSignaler (sig_subs s) (sig_reverse_index s) (sig_tx s)
                         (wrapping_add 64 (sig_dropped_count s) 1) (sig_producer_id s))
        end
    end.

(** What [emit] may do: nothing, queue one event for this slot, or count one drop. *)
Lemma emit_spec s X slot value raw ts : watches (sig_subs s) X ->
  exists s', PointWatchSignaler_emit s slot value raw ts = Ret s' /\
    sig_subs s' = sig_subs s /\ sig_reverse_index s' = sig_reverse_index s /\
    sig_producer_id s' = sig_producer_id s /\
    match ReverseSlotIndex_get (sig_reverse_index s) slot with
    | Some origin =>
        if bool_decide (slot ∈ X) then
          (queued (sig_tx s') = queued (sig_tx s) ++ [PointWatchSignaler_event s origin slot value raw ts] /\
           sig_dropped_count s' = sig_dropped_count s) \/
          (sig_tx s' = sig_tx s /\ sig_dropped_count s' = wrapping_add 64 (sig_dropped_count s) 1)
        else s' = s
    | None => s' = s
    end.
Proof.
  intros Hw. unfold PointWatchSignaler_emit. rewrite (is_watched_spec _ _ slot Hw). cbn [outcome_bind].
  destruct (bool_decide (slot ∈ X)); cbn [negb];
    destruct (ReverseSlotIndex_get (sig_reverse_index s) slot) as [origin |] eqn:Eo;
    try (exists s; split_and!; done).
  destruct (try_send (sig_tx s) _) as [tx |] eqn:Es.
  - eexists. split; [reflexivity |]. split_and!; try done. left. split; [|done].
    by apply try_send_queued.
  - eexists. split; [reflexivity |]. split_and!; try done. by right.
Qed.
End Signaler.

(** A bounded FIFO: the behaviour of [mpsc::channel(capacity)] with a receiver. *)
Record bounded_queue := mkQueue { bq_capacity : nat; bq_items : list PointWatchEvent }.

#[export] Instance bounded_queue_sender : MpscSender bounded_queue PointWatchEvent.
Proof.
  refine {| try_send := fun q e =>
              if (length (bq_items q) <? bq_capacity q)%nat
              then Some (mkQueue (bq_capacity q) (bq_items q ++ [e])) else None;
            queued := bq_items |}.
  intros q e q'. destruct (_ <? _)%nat; [|done]. by intros [= <-].
Defined.

(** * The drain task *)

Definition DRAIN_CHANNEL_CAPACITY : nat := Z.to_nat 2048.
Definition MAX_BATCH : nat := 64.
Definition MIN_BACKOFF_MS : Z := 1000.
Definition MAX_BACKOFF_MS : Z := 5000.

Record DrainState := mkDrainState {
  dr_connected : bool;
  dr_backoff_ms : Z;
  dr_last_connect_attempt : option Z;
  dr_reconnect_attempts : Z;
  dr_dropped : Z
}.

(** What the environment answers during one iteration: the clock, whether
    [try_connect] succeeds, and at which event of the batch a write fails. *)
Record DrainInput := mkDrainInput {
  di_now : Z;
  di_connect_ok : bool;
  di_write_fails_at : option nat
}.

Definition drain_init (connected : bool) (dropped : Z) : DrainState :=
  mkDrainState connected MIN_BACKOFF_MS None 0 dropped.

(** [vec![event]; while batch.len() < MAX_BATCH { try_recv }] *)
Definition take_batch (queue : list PointWatchEvent) : list PointWatchEvent * list PointWatchEvent :=
  (take MAX_BATCH queue, drop MAX_BATCH queue).

(** [last_connect_attempt.map(|t| t.elapsed() >= backoff).unwrap_or(true)] *)
Definition drain_should_retry (s : DrainState) (now : Z) : bool :=
  match dr_last_connect_attempt s with
  | Some t => dr_backoff_ms s <=? now - t
  | None => true
  end.

(** The body after a batch was collected; the result carries the events written. *)
Definition drain_step (s : DrainState) (batch : list PointWatchEvent) (i : DrainInput)
    : DrainState * list PointWatchEvent :=
  let drop_batch s := mkDrainState (dr_connected s) (dr_backoff_ms s) (dr_last_connect_attempt s)
    (dr_reconnect_attempts s) (wrapping_add 64 (dr_dropped s) (Z.of_nat (length batch))) in
  let send s :=
    match di_write_fails_at i with
    | Some k =>
        if (k <? length batch)%nat then
          (mkDrainState false MIN_BACKOFF_MS (Some (di_now i)) 0 (dr_dropped s), take k batch)
        else (s, batch)
    | None => (s, batch)
    end in
  if dr_connected s then send s
  else
    if drain_should_retry s (di_now i) then
      if di_connect_ok i then send (mkDrainState true MIN_BACKOFF_MS None 0 (dr_dropped s))
      else
        (drop_batch (mkDrainState false (Z.min (dr_backoff_ms s * 2) MAX_BACKOFF_MS) (Some (di_now i))
           (wrapping_add 32 (dr_reconnect_attempts s) 1) (dr_dropped s)), [])
    else (drop_batch s, []).

(** The task's loop over a queue that is only drained (no new events arrive
    between iterations of this run). *)
Fixpoint drain_run (s : DrainState) (batches : list (list PointWatchEvent * DrainInput))
    : DrainState * list PointWatchEvent :=
  match batches with
  | [] => (s, [])
  | (batch, i) :: rest =>
      let '(s1, sent1) := drain_step s batch i in
      let '(s2, sent2) := drain_run s1 rest in
      (s2, sent1 ++ sent2)
  end.

Definition backoff_ok (s : DrainState) : Prop := MIN_BACKOFF_MS <= dr_backoff_ms s <= MAX_BACKOFF_MS.

(** Number of events of a failed batch that were neither written nor counted. *)
Definition lost_on_write (batch : list PointWatchEvent) (i : DrainInput) : nat :=
  match di_write_fails_at i with
  | Some k => (length batch - k)%nat
  | None => 0%nat
  end.

Lemma drain_step_spec s batch i :
  backoff_ok s -> Z.of_nat (length batch) + dr_dropped s < 2 ^ 64 -> 0 <= dr_dropped s ->
  let '(s', sent) := drain_step s batch i in
  backoff_ok s' /\ (exists rest, batch = sent ++ rest) /\ dr_dropped s <= dr_dropped s' /\
  Z.of_nat (length batch) <=
    Z.of_nat (length sent) + (dr_dropped s' - dr_dropped s) + Z.of_nat (lost_on_write batch i) /\
  dr_dropped s' + Z.of_nat (length sent) <= dr_dropped s + Z.of_nat (length batch).
Proof.
  unfold backoff_ok, drain_step, lost_on_write, wrapping_add, MIN_BACKOFF_MS, MAX_BACKOFF_MS.
  intros Hb Hd Hd0.
  assert (Hw : wrap 64 (dr_dropped s + Z.of_nat (length batch)) = dr_dropped s + Z.of_nat (length batch))
    by (apply wrap_small; solve_uint).
  assert (Hsend : forall k, (k < length batch)%nat -> length (take k batch) = k)
    by (intros; rewrite length_take; lia).
  destruct (dr_connected s); [| destruct (drain_should_retry s (di_now i)); [destruct (di_connect_ok i) |]].
  1, 2: destruct (di_write_fails_at i) as [k |]; [destruct (Nat.ltb_spec k (length batch)) |];
    cbn; rewrite ?Hsend by done; split_and!; try lia;
    solve [by exists []; rewrite app_nil_r | exists (drop k batch); by rewrite take_drop].
  all: cbn; rewrite ?Hw; split_and!; try lia; by exists batch.
Qed.

Definition received (bs : list (list PointWatchEvent * DrainInput)) : nat :=
  list_sum (map (fun p => length p.1) bs).
Definition lost (bs : list (list PointWatchEvent * DrainInput)) : nat :=
  list_sum (map (fun p => lost_on_write p.1 p.2) bs).

(** The drain task accounts for every event it takes off the queue: over any
    run, written plus newly counted drops never exceed the events received, they
    miss at most the tails of batches cut by a write error, and the reconnect
    backoff always stays between 1 s and 5 s. *)
Theorem drain_accounts_for_events bs : forall s s' sent,
  backoff_ok s -> 0 <= dr_dropped s -> dr_dropped s + Z.of_nat (received bs) < 2 ^ 64 ->
  drain_run s bs = (s', sent) ->
  backoff_ok s' /\
  dr_dropped s' + Z.of_nat (length sent) <= dr_dropped s + Z.of_nat (received bs) <=
    dr_dropped s' + Z.of_nat (length sent) + Z.of_nat (lost bs).
Proof.
  induction bs as [|[batch i] bs IH]; intros s s' sent Hb H0 Hlt Hr.
  - injection Hr as <- <-. cbn. split; [done | lia].
  - cbn [drain_run] in Hr. unfold received, lost in *. cbn [map list_sum foldr fst snd] in *.
    fold (list_sum (map (fun p : list PointWatchEvent * DrainInput => length p.1) bs)) in *.
    fold (list_sum (map (fun p : list PointWatchEvent * DrainInput => lost_on_write p.1 p.2) bs)) in *.
    pose proof (drain_step_spec s batch i Hb ltac:(lia) H0) as Hs.
    destruct (drain_step s batch i) as [s1 sent1]. destruct Hs as (Hb1 & _ & Hm & Hge & Hle).
    destruct (drain_run s1 bs) as [s2 sent2] eqn:E2. injection Hr as <- <-.
    destruct (IH s1 s2 sent2 Hb1 ltac:(lia) ltac:(lia) E2) as (Hb2 & Hrange).
    rewrite length_app. split; [done | lia].
Qed.

(** Once the socket accepts connections again, a disconnected drain task
    recovers within the maximum backoff: the first batch taken 5 s or more after
    the last failed attempt is written whole and the backoff is reset. *)
Theorem drain_reconnects s batch i t :
  backoff_ok s -> dr_connected s = false -> dr_last_connect_attempt s = Some t ->
  MAX_BACKOFF_MS <= di_now i - t -> di_connect_ok i = true -> di_write_fails_at i = None ->
  drain_step s batch i = (mkDrainState true MIN_BACKOFF_MS None 0 (dr_dropped s), batch).
Proof.
  unfold backoff_ok. intros Hb Hc Ht Hnow Hok Hw. unfold drain_step, drain_should_retry.
  rewrite Hc, Ht, Hok, Hw. replace (dr_backoff_ms s <=? di_now i - t) with true; [done |].
  symmetry. apply Z.leb_le. lia.
Qed.

(** * Witnesses *)
Lemma drain_accounts_for_events_witness :
  let s := drain_init false 0 in
  let bs := [([sample_event; sample_event], mkDrainInput 0 false None);
             ([sample_event], mkDrainInput 10 true None);
             ([sample_event; sample_event], mkDrainInput 2000 true (Some 1%nat))] in
  exists s' sent, drain_run s bs = (s', sent) /\ backoff_ok s' /\ dr_dropped s' = 3 /\
    dr_dropped s' + Z.of_nat (length sent) <= 5 <= dr_dropped s' + Z.of_nat (length sent) + 1.
Proof.
  intros s bs. eexists _, _. split; [reflexivity |].
  destruct (drain_accounts_for_events bs s (drain_run s bs).1 (drain_run s bs).2) as [H1 H2];
    [split; vm_compute; discriminate | vm_compute; discriminate | vm_compute; reflexivity | reflexivity |].
  split; [exact H1 |]. split; [reflexivity |]. exact H2.
Defined.

Lemma drain_reconnects_witness :
  drain_step (mkDrainState false 5000 (Some 100) 7 3) [sample_event] (mkDrainInput 5100 true None) =
  (mkDrainState true MIN_BACKOFF_MS None 0 3, [sample_event]).
Proof.
  apply (drain_reconnects (mkDrainState false 5000 (Some 100) 7 3) [sample_event] _ 100);
    try reflexivity; try (vm_compute; discriminate). split; vm_compute; discriminate.
Defined.
