(* ===== verification/ShmStore.v ===== *)
(** The shared-memory store: [libs/voltage-rtdb-shm/src/core/header.rs],
    [core/slot_io.rs], [core/writer.rs], [core/reader.rs],
    [core/snapshot_save.rs] and [unified_shm.rs].

    One [Segment] is the memory-mapped file all processes share; a [SlotWriter],
    [SlotReader], [UnifiedWriter], [ActionWriter] or [UnifiedReader] is a
    process-local handle.  Every operation takes the segment and the handle and
    returns both, so two handles of one segment see each other's writes.
    File-system calls are not modelled: a file is its mapped content or its
    bytes, and an operation that fails on I/O is not represented. *)
From stdpp Require Import base numbers list gmap.
From Stdlib Require Import ZArith Lia.
From S2P Require Import Prelude BitWords PointSlot PointTypes Layout Wire SlotIndex PointWatch.
Local Open Scope Z_scope.
Set Warnings "-clear-no-such-hyp".

(** * Header *)

Definition UNIFIED_MAGIC : Z := 0x564F4C544147455F.
Definition UNIFIED_VERSION : Z := 4.
Definition DEFAULT_MAX_SLOTS : Z := 100000.

Record UnifiedHeader := mkUnifiedHeader {
  uh_magic : Z;
  uh_version : Z;
  uh_max_slots : Z;
  uh_slot_count : Z;
  uh_pad : list Z;
  uh_last_update_ts : Z;
  uh_writer_heartbeat : Z;
  uh_routing_hash : Z;
  uh_writer_generation : Z;
  uh_reserved : list Z
}.

(** [size_of::<UnifiedHeader>()] and [size_of::<PointSlot>()]. *)
Definition slot_offset : nat := 64.
Definition point_slot_size : nat := 32.
Definition calculate_file_size (max_slots : Z) : nat := (slot_offset + Z.to_nat max_slots * point_slot_size)%nat.

(** The mapped file: its length in bytes, its header and its slot array. *)
Record Segment := mkSegment {
  sg_len : nat;
  sg_header : UnifiedHeader;
  sg_slots : list PointSlot
}.

Definition set_heartbeat (h : UnifiedHeader) (ts : Z) : UnifiedHeader :=
  mkUnifiedHeader (uh_magic h) (uh_version h) (uh_max_slots h) (uh_slot_count h) (uh_pad h)
    (uh_last_update_ts h) ts (uh_routing_hash h) (uh_writer_generation h) (uh_reserved h).

Definition set_last_update (h : UnifiedHeader) (ts : Z) : UnifiedHeader :=
  mkUnifiedHeader (uh_magic h) (uh_version h) (uh_max_slots h) (uh_slot_count h) (uh_pad h)
    ts (uh_writer_heartbeat h) (uh_routing_hash h) (uh_writer_generation h) (uh_reserved h).

(** * [SlotWriter] *)

Record SlotWriter := mkSlotWriter {
  sw_max_slots : Z;
  sw_slot_count : nat;
  sw_dirty_words : list Z
}.

Definition dirty_word_count (slot_count : nat) : nat := div_ceil64 slot_count.
Definition new_dirty_words (slot_count : nat) : list Z := replicate (dirty_word_count slot_count) 0.

Definition SlotWriter_from_mmap (max_slots : Z) (slot_count : nat) : SlotWriter :=
  mkSlotWriter max_slots slot_count (new_dirty_words slot_count).

(** [assert!(index < slot_count)], then a raw pointer access: beyond the mapped
    slots it would be undefined behaviour, modelled as a panic as well. *)
Definition slot_at (g : Segment) (slot_count index : nat) : outcome PointSlot :=
  if (index <? slot_count)%nat then
    match sg_slots g !! index with
    | Some s => Ret s
    | None => Panic
    end
  else Panic.

Definition SlotWriter_mark_dirty_slot (w : SlotWriter) (slot : nat) : SlotWriter :=
  match sw_dirty_words w !! (slot `div` 64)%nat with
  | Some word =>
      mkSlotWriter (sw_max_slots w) (sw_slot_count w)
        (<[(slot `div` 64)%nat := bit_set word (bit_idx slot)]> (sw_dirty_words w))
  | None => w
  end.

Definition store_slot (g : Segment) (slot : nat) (s : PointSlot) (ts : Z) : Segment :=
  mkSegment (sg_len g) (set_heartbeat (sg_header g) ts) (<[slot := s]> (sg_slots g)).

Definition SlotWriter_set_direct (g : Segment) (w : SlotWriter) (slot : nat) (value raw ts : Z)
    : outcome (Segment * SlotWriter) :=
  let! s := slot_at g (sw_slot_count w) slot in
  Ret (store_slot g slot (PointSlot_set s value raw ts) ts, SlotWriter_mark_dirty_slot w slot).

(** [bits.trailing_zeros()] of a non-zero word. *)
Fixpoint pos_trailing_zeros (p : positive) : nat :=
  match p with
  | xO p => S (pos_trailing_zeros p)
  | _ => O
  end.
Definition trailing_zeros (bits : Z) : nat :=
  match bits with
  | Zpos p => pos_trailing_zeros p
  | _ => 64%nat
  end.

(** [while bits != 0 { push(word_idx * 64 + tz); bits &= bits - 1 }]: every
    iteration clears one of the 64 bits, so 64 iterations suffice. *)
Fixpoint drain_word (fuel slot_count word_idx : nat) (bits : Z) : list nat :=
  match fuel with
  | O => []
  | S fuel =>
      if bits =? 0 then []
      else
        let slot := (word_idx * 64 + trailing_zeros bits)%nat in
        let rest := drain_word fuel slot_count word_idx (Z.land bits (bits - 1)) in
        if (slot <? slot_count)%nat then slot :: rest else rest
  end.

Fixpoint drain_words (slot_count word_idx : nat) (ws : list Z) : list nat :=
  match ws with
  | [] => []
  | word :: ws => drain_word 64 slot_count word_idx word ++ drain_words slot_count (S word_idx) ws
  end.

Definition SlotWriter_take_dirty_slots (w : SlotWriter) : SlotWriter * list nat :=
  (mkSlotWriter (sw_max_slots w) (sw_slot_count w) (map (fun _ => 0) (sw_dirty_words w)),
   drain_words (sw_slot_count w) 0 (sw_dirty_words w)).

Definition SlotWriter_generation (g : Segment) : Z := uh_writer_generation (sg_header g).
Definition SlotWriter_writer_heartbeat (g : Segment) : Z := uh_writer_heartbeat (sg_header g).
Definition SlotWriter_update_heartbeat (g : Segment) (ts : Z) : Segment :=
  mkSegment (sg_len g) (set_heartbeat (sg_header g) ts) (sg_slots g).

Record SlotRead := mkSlotRead { rd_value : Z; rd_raw : Z; rd_timestamp_ms : Z }.

(** [SlotIo::read_slot] of the writer and of the reader: the same body. *)
Definition read_slot (g : Segment) (slot_count index : nat) : outcome (option SlotRead) :=
  if (slot_count <=? index)%nat then Ret None
  else
    let! s := slot_at g slot_count index in
    match PointSlot_try_load_consistent s with
    | Some (value, raw, ts) => Ret (Some (mkSlotRead value raw ts))
    | None => Ret None
    end.

Definition SlotWriter_read_slot (g : Segment) (w : SlotWriter) (index : nat) : outcome (option SlotRead) :=
  read_slot g (sw_slot_count w) index.

Definition SlotWriter_write_slot (g : Segment) (w : SlotWriter) (index : nat) (value raw ts : Z)
    : outcome (bool * Segment * SlotWriter) :=
  if (sw_slot_count w <=? index)%nat then Ret (false, g, w)
  else
    let! s := slot_at g (sw_slot_count w) index in
    Ret (true, store_slot g index (PointSlot_set s value raw ts) ts, SlotWriter_mark_dirty_slot w index).

(** * [SlotReader] *)

Record SlotReader := mkSlotReader { sr_max_slots : Z; sr_slot_count : nat }.

Definition SlotReader_read_slot (g : Segment) (r : SlotReader) (index : nat) : outcome (option SlotRead) :=
  read_slot g (sr_slot_count r) index.

Definition SlotReader_is_writer_alive (g : Segment) (now_ms timeout_ms : Z) : bool :=
  let last_hb := uh_writer_heartbeat (sg_header g) in
  if last_hb =? 0 then false else saturating_sub now_ms last_hb <? timeout_ms.

(** * Snapshot bytes *)

Inductive ShmError :=
| TooManySlots (slots : nat) (max : Z)
| InvalidMagic (got : Z)
| VersionMismatch (got : Z)
| LayoutMismatch (actual expected : Z)
| SlotCountMismatch (file calculated : nat)
| FileTruncated (len : nat)
| MmapTooSmall (len required : nat)
| SnapshotSourceTooSmall (len : nat)
| SnapshotTooSmall (len : nat)
| SnapshotInvalidMagic (got : Z)
| SnapshotVersionMismatch (got : Z)
| SnapshotTruncated (expected got : nat)
| SnapshotMissingField.

Definition UnifiedHeader_bytes (h : UnifiedHeader) : list Z :=
  to_le_bytes 8 (uh_magic h) ++ to_le_bytes 4 (uh_version h) ++ to_le_bytes 4 (uh_max_slots h) ++
  to_le_bytes 4 (uh_slot_count h) ++ uh_pad h ++ to_le_bytes 8 (uh_last_update_ts h) ++
  to_le_bytes 8 (uh_writer_heartbeat h) ++ to_le_bytes 8 (uh_routing_hash h) ++
  to_le_bytes 8 (uh_writer_generation h) ++ uh_reserved h.

Definition slot_snapshot_bytes (value raw ts : Z) : list Z :=
  to_le_bytes 8 value ++ to_le_bytes 8 ts ++ to_le_bytes 8 raw ++ to_le_bytes 4 2 ++ to_le_bytes 4 0.

Definition slot_unwritten_bytes : list Z :=
  to_le_bytes 8 SLOT_UNWRITTEN_BITS ++ replicate 8 0 ++ to_le_bytes 8 SLOT_UNWRITTEN_BITS ++ replicate 8 0.

Definition snapshot_slot (s : PointSlot) : list Z :=
  match PointSlot_try_load_consistent s with
  | Some (value, raw, ts) => slot_snapshot_bytes value raw ts
  | None => slot_unwritten_bytes
  end.

(** The bytes [save_snapshot_impl] writes for the first [slot_count] slots. *)
Definition save_snapshot_impl (g : Segment) (slot_count : nat) : result (list Z) ShmError :=
  if (sg_len g <? slot_offset + slot_count * point_slot_size)%nat
  then Err (SnapshotSourceTooSmall (sg_len g))
  else Ok (UnifiedHeader_bytes (sg_header g) ++ concat (map snapshot_slot (take slot_count (sg_slots g)))).

(** The writer uses the live header count, the reader the count it opened with. *)
Definition SlotWriter_save_snapshot (g : Segment) : result (list Z) ShmError :=
  save_snapshot_impl g (Z.to_nat (uh_slot_count (sg_header g))).
Definition SlotReader_save_snapshot (g : Segment) (r : SlotReader) : result (list Z) ShmError :=
  save_snapshot_impl g (sr_slot_count r).

(** [buf.get(start..start + n)] *)
Definition read_ne_bytes (n : nat) (buf : list Z) (start : nat) : result (list Z) ShmError :=
  if (start + n <=? length buf)%nat then Ok (slice start n buf) else Err SnapshotMissingField.
Definition read_u64_ne (buf : list Z) (start : nat) : result Z ShmError :=
  let? bs := read_ne_bytes 8 buf start in Ok (from_le_bytes bs).
Definition read_u32_ne (buf : list Z) (start : nat) : result Z ShmError :=
  let? bs := read_ne_bytes 4 buf start in Ok (from_le_bytes bs).

(** Magic, version, slot count and layout hash of a snapshot. *)
Definition read_snapshot_header (snap : list Z) : result (Z * Z * Z * Z) ShmError :=
  let? snap_magic := read_u64_ne snap 0 in
  let? snap_version := read_u32_ne snap 8 in
  let? snap_slot_count := read_u32_ne snap 16 in
  let? snap_routing_hash := read_u64_ne snap 40 in
  Ok (snap_magic, snap_version, snap_slot_count, snap_routing_hash).

(** * [UnifiedWriter], [ActionWriter], [UnifiedReader] *)

(** [SharedConfig]: the two capacities [max_slots()] is computed from. *)
Record SharedConfig := mkSharedConfig { sc_max_channels : Z; sc_max_points_per_channel : Z }.

Definition SharedConfig_max_slots (c : SharedConfig) : option Z :=
  Some (wrap 32 (wrap 64 (sc_max_channels c * sc_max_points_per_channel c))).
Definition SharedConfig_with_max_slots (max_slots : Z) : SharedConfig := mkSharedConfig max_slots 1.

Record UnifiedWriter (C : Type) := mkUnifiedWriter {
  uw_inner : SlotWriter;
  uw_channel_layouts : list ChannelLayout;
  uw_point_watch : option (PointWatchSignaler C)
}.
Arguments mkUnifiedWriter {C}.
Arguments uw_inner {C}.
Arguments uw_channel_layouts {C}.
Arguments uw_point_watch {C}.

Record UnifiedReader := mkUnifiedReader {
  ur_inner : SlotReader;
  ur_channel_layouts : list ChannelLayout;
  ur_channel_ids : list Z
}.

(** What [create] reads from the process: its id, the address of a static, the
    wall clock in nanoseconds. *)
Record CreateEnv := mkCreateEnv { ce_pid : Z; ce_anchor : Z; ce_wall_nanos : Z }.

Definition generation_seed (e : CreateEnv) : Z :=
  let process_nonce := wrapping_add 64 (wrap 64 (ce_pid e * 0x9E3779B97F4A7C15)) (ce_anchor e) in
  Z.max (Z.land (wrapping_add 64 (ce_wall_nanos e) process_nonce) (not_u64 1)) 2.

Definition zeroed_slot : PointSlot := mkPointSlot 0 0 0 0 0.

Section Unified.
Context {C : Type} `{MS : !MpscSender C PointWatchEvent}.
(** [ChannelPointCounts::layout_hash]: the FxHash of the counts. *)
Variable layout_hash : ChannelPointCounts -> Z.

Definition UnifiedWriter_create (cfg : SharedConfig) (cps : ChannelPointCounts) (e : CreateEnv)
    : outcome (result (Segment * UnifiedWriter C) ShmError) :=
  let max_slots := default DEFAULT_MAX_SLOTS (SharedConfig_max_slots cfg) in
  let! (channel_layouts, slot_count) := allocate_layouts cps in
  if (Z.to_nat max_slots <? slot_count)%nat then Ret (Err (TooManySlots slot_count max_slots))
  else
    let file_size := calculate_file_size max_slots in
    let header := mkUnifiedHeader UNIFIED_MAGIC UNIFIED_VERSION max_slots (wrap 32 (Z.of_nat slot_count))
      (replicate 4 0) 0 0 (layout_hash cps) (generation_seed e) (replicate 8 0) in
    (* set_len zero-fills; the first slot_count slots become the NaN sentinel *)
    let slots := replicate slot_count (PointSlot_init_unwritten zeroed_slot) ++
                 replicate (Z.to_nat max_slots - slot_count) zeroed_slot in
    Ret (Ok (mkSegment file_size header slots,
             mkUnifiedWriter (SlotWriter_from_mmap max_slots slot_count) channel_layouts None)).

Definition UnifiedWriter_lookup (w : UnifiedWriter C) (channel_id point_type point_id : Z) : option nat :=
  layouts_lookup (uw_channel_layouts w) channel_id point_type point_id.

(** The PointWatch event follows the seqlock write. *)
Definition emit_opt (pw : option (PointWatchSignaler C)) (slot : nat) (value raw ts : Z)
    : outcome (option (PointWatchSignaler C)) :=
  match pw with
  | Some s => outcome_map Some (PointWatchSignaler_emit s slot value raw ts)
  | None => Ret None
  end.

Definition UnifiedWriter_set_direct (g : Segment) (w : UnifiedWriter C) (slot : nat) (value raw ts : Z)
    : outcome (Segment * UnifiedWriter C) :=
  let! (g', inner) := SlotWriter_set_direct g (uw_inner w) slot value raw ts in
  let! pw := emit_opt (uw_point_watch w) slot value raw ts in
  Ret (g', mkUnifiedWriter inner (uw_channel_layouts w) pw).

Definition UnifiedWriter_set (g : Segment) (w : UnifiedWriter C)
    (channel_id point_type point_id value raw ts : Z) : outcome (bool * Segment * UnifiedWriter C) :=
  match uw_channel_layouts w !! Z.to_nat channel_id with
  | Some layout =>
      match ChannelLayout_slot layout point_type point_id with
      | Some slot =>
          let! (g', inner) := SlotWriter_set_direct g (uw_inner w) slot value raw ts in
          let! pw := emit_opt (uw_point_watch w) slot value raw ts in
          Ret (true, g', mkUnifiedWriter inner (uw_channel_layouts w) pw)
      | None => Ret (false, g, w)
      end
  | None => Ret (false, g, w)
  end.

Definition UnifiedWriter_set_action (g : Segment) (w : UnifiedWriter C)
    (channel_id point_type point_id value ts : Z) : outcome (bool * Segment * UnifiedWriter C) :=
  if negb (point_type =? 2) && negb (point_type =? 3) then Ret (false, g, w)
  else UnifiedWriter_set g w channel_id point_type point_id value value ts.

Definition UnifiedWriter_take_dirty_slots (w : UnifiedWriter C) : UnifiedWriter C * list nat :=
  let '(inner, slots) := SlotWriter_take_dirty_slots (uw_inner w) in
  (mkUnifiedWriter inner (uw_channel_layouts w) (uw_point_watch w), slots).

Definition UnifiedWriter_set_point_watcher (w : UnifiedWriter C) (s : option (PointWatchSignaler C))
    : UnifiedWriter C :=
  mkUnifiedWriter (uw_inner w) (uw_channel_layouts w) s.

Definition verify_file_min_size (len : nat) : result unit ShmError :=
  if (len <? slot_offset)%nat then Err (FileTruncated len) else Ok tt.

Definition validate_shm_header (h : UnifiedHeader) (cps : ChannelPointCounts) : result (Z * nat) ShmError :=
  if negb (uh_magic h =? UNIFIED_MAGIC) then Err (InvalidMagic (uh_magic h))
  else if negb (uh_version h =? UNIFIED_VERSION) then Err (VersionMismatch (uh_version h))
  else if negb (layout_hash cps =? uh_routing_hash h)
  then Err (LayoutMismatch (uh_routing_hash h) (layout_hash cps))
  else Ok (uh_max_slots h, Z.to_nat (uh_slot_count h)).

Definition verify_mmap_covers_slots (mmap_len : nat) (max_slots : Z) : result unit ShmError :=
  if (mmap_len <? calculate_file_size max_slots)%nat
  then Err (MmapTooSmall mmap_len (calculate_file_size max_slots)) else Ok tt.

Definition verify_slot_count (file_slot_count calculated_slots : nat) : result unit ShmError :=
  if (calculated_slots =? file_slot_count)%nat then Ok tt
  else Err (SlotCountMismatch file_slot_count calculated_slots).

(** The checks shared by [open_existing] and [UnifiedReader::open], in order:
    file size, header, mapping size, then the slot count of the re-derived layout. *)
Definition open_checks (g : Segment) (cps : ChannelPointCounts)
    : outcome (result (Z * nat * list ChannelLayout) ShmError) :=
  match verify_file_min_size (sg_len g) with
  | Err e => Ret (Err e)
  | Ok _ =>
      match validate_shm_header (sg_header g) cps with
      | Err e => Ret (Err e)
      | Ok (max_slots, slot_count) =>
          match verify_mmap_covers_slots (sg_len g) max_slots with
          | Err e => Ret (Err e)
          | Ok _ =>
              let! (channel_layouts, calculated_slots) := allocate_layouts cps in
              Ret (let? _ := verify_slot_count slot_count calculated_slots in
                   Ok (max_slots, slot_count, channel_layouts))
          end
      end
  end.

Definition UnifiedWriter_open_existing (g : Segment) (cps : ChannelPointCounts)
    : outcome (result (UnifiedWriter C) ShmError) :=
  outcome_map (fun r => let? (max_slots, slot_count, channel_layouts) := r in
     Ok (mkUnifiedWriter (SlotWriter_from_mmap max_slots slot_count) channel_layouts None))
    (open_checks g cps).

(** [layouts.iter().enumerate().filter(is_valid).map(id)] *)
Fixpoint valid_channel_ids (i : nat) (ls : list ChannelLayout) : list Z :=
  match ls with
  | [] => []
  | l :: ls => (if ChannelLayout_is_valid l then [wrap 32 (Z.of_nat i)] else []) ++ valid_channel_ids (S i) ls
  end.

Definition UnifiedReader_open (g : Segment) (cps : ChannelPointCounts)
    : outcome (result UnifiedReader ShmError) :=
  outcome_map (fun r => let? (max_slots, slot_count, channel_layouts) := r in
     Ok (mkUnifiedReader (mkSlotReader max_slots slot_count) channel_layouts
           (valid_channel_ids 0 channel_layouts)))
    (open_checks g cps).

Definition UnifiedReader_open_raw (g : Segment) : result UnifiedReader ShmError :=
  let? _ := verify_file_min_size (sg_len g) in
  if negb (uh_magic (sg_header g) =? UNIFIED_MAGIC) then Err (InvalidMagic (uh_magic (sg_header g)))
  else
    let? _ := verify_mmap_covers_slots (sg_len g) (uh_max_slots (sg_header g)) in
    Ok (mkUnifiedReader (mkSlotReader (uh_max_slots (sg_header g)) (Z.to_nat (uh_slot_count (sg_header g)))) [] []).

Definition UnifiedReader_lookup (r : UnifiedReader) (channel_id point_type point_id : Z) : option nat :=
  layouts_lookup (ur_channel_layouts r) channel_id point_type point_id.

Definition UnifiedReader_get_channel (g : Segment) (r : UnifiedReader) (channel_id point_type point_id : Z)
    : outcome (option (Z * Z)) :=
  match ur_channel_layouts r !! Z.to_nat channel_id with
  | None => Ret None
  | Some layout =>
      match ChannelLayout_slot layout point_type point_id with
      | None => Ret None
      | Some slot =>
          let! point := slot_at g (sr_slot_count (ur_inner r)) slot in
          match PointSlot_load_consistent point with
          | Some (value, _, timestamp) => Ret (Some (value, timestamp))
          | None => Ret None
          end
      end
  end.

(** The restored slots, one by one: [NaN] pairs are the unwritten sentinel,
    other non-finite readings are corrupt; both are skipped. *)
Fixpoint restore_loop (snapshot : list Z) (n i : nat) (g : Segment) (w : UnifiedWriter C)
    : outcome (result (Segment * UnifiedWriter C) ShmError) :=
  match n with
  | O => Ret (Ok (g, w))
  | S n =>
      let sb := slice (slot_offset + i * point_slot_size) point_slot_size snapshot in
      match read_u64_ne sb 0, read_u64_ne sb 8, read_u64_ne sb 16 with
      | Ok value, Ok timestamp, Ok raw =>
          if f64_is_nan value && f64_is_nan raw then restore_loop snapshot n (S i) g w
          else if negb (f64_is_finite value) || negb (f64_is_finite raw) then restore_loop snapshot n (S i) g w
          else
            let! (g', w') := UnifiedWriter_set_direct g w i value raw timestamp in
            restore_loop snapshot n (S i) g' w'
      | Err e, _, _ | _, Err e, _ | _, _, Err e => Ret (Err e)
      end
  end.

Definition UnifiedWriter_restore_from_snapshot (cfg : SharedConfig) (snapshot : list Z)
    (cps : ChannelPointCounts) (e : CreateEnv) (now_ms : Z)
    : outcome (result (Segment * UnifiedWriter C) ShmError) :=
  let! created := UnifiedWriter_create cfg cps e in
  match created with
  | Err e => Ret (Err e)
  | Ok (g, writer) =>
      if (length snapshot <? slot_offset)%nat then Ret (Err (SnapshotTooSmall (length snapshot)))
      else
        match read_snapshot_header snapshot with
        | Ok (snap_magic, snap_version, snap_slot_count, _) =>
            if negb (snap_magic =? UNIFIED_MAGIC) then Ret (Err (SnapshotInvalidMagic snap_magic))
            else if negb (snap_version =? UNIFIED_VERSION) then Ret (Err (SnapshotVersionMismatch snap_version))
            else
              (* a differing layout hash is only logged *)
              let slots_to_restore := Nat.min (Z.to_nat snap_slot_count) (sw_slot_count (uw_inner writer)) in
              if (slots_to_restore =? 0)%nat then Ret (Ok (g, writer))
              else
                let data_end := (slot_offset + slots_to_restore * point_slot_size)%nat in
                if (length snapshot <? data_end)%nat
                then Ret (Err (SnapshotTruncated data_end (length snapshot)))
                else
                  outcome_map (fun r => let? (g', w') := r in
                      Ok (mkSegment (sg_len g') (set_heartbeat (set_last_update (sg_header g') now_ms) now_ms)
                            (sg_slots g'), w'))
                    (restore_loop snapshot slots_to_restore 0 g writer)
        | Err e => Ret (Err e)
        end
  end.
End Unified.

(** modsrv's handle: only [open], [set_action], [generation] and a read-only
    index are exposed. *)
Record ActionWriter (C : Type) := mkActionWriter { aw_writer : UnifiedWriter C }.
Arguments mkActionWriter {C}.
Arguments aw_writer {C}.

Section Action.
Context {C : Type} `{MS : !MpscSender C PointWatchEvent}.
Variable layout_hash : ChannelPointCounts -> Z.

Definition ActionWriter_open (g : Segment) (cps : ChannelPointCounts)
    : outcome (result (ActionWriter C) ShmError) :=
  outcome_map (fun r => let? w := r in Ok (mkActionWriter w)) (UnifiedWriter_open_existing layout_hash g cps).

Definition ActionWriter_set_action (g : Segment) (a : ActionWriter C)
    (channel_id point_type point_id value ts : Z) : outcome (bool * Segment * ActionWriter C) :=
  let! (ok, g', w') := UnifiedWriter_set_action g (aw_writer a) channel_id point_type point_id value ts in
  Ret (ok, g', mkActionWriter w').

Definition ActionWriter_channel_slot_index (a : ActionWriter C) : ChannelToSlotIndex :=
  ChannelToSlotIndex_from_layouts (uw_channel_layouts (aw_writer a)).
End Action.

(** * Lemmas: draining dirty words *)

(** Positions of the set bits of a word, lowest first. *)
Fixpoint pos_bits (k : nat) (p : positive) : list nat :=
  match p with
  | xH => [k]
  | xO p => pos_bits (S k) p
  | xI p => k :: pos_bits (S k) p
  end.
Definition z_bits (k : nat) (z : Z) : list nat :=
  match z with
  | Zpos p => pos_bits k p
  | _ => []
  end.

(** The word with its lowest set bit cleared. *)
Fixpoint clear_lowest (p : positive) : Z :=
  match p with
  | xH => 0
  | xI p => Zpos (xO p)
  | xO p => 2 * clear_lowest p
  end.

Lemma land_double_odd a b : Z.land (2 * a) (2 * b + 1) = 2 * Z.land a b.
Proof.
  apply Z.bits_inj'. intros n Hn. destruct (Z.eq_dec n 0) as [-> | Hne].
  - by rewrite Z.land_spec, !Z.testbit_even_0.
  - replace n with (Z.succ (Z.pred n)) by lia. rewrite Z.land_spec, !Z.testbit_even_succ,
      Z.testbit_odd_succ, Z.land_spec by lia. done.
Qed.

Lemma land_pred p : Z.land (Zpos p) (Zpos p - 1) = clear_lowest p.
Proof.
  induction p as [p _ | p IH |]; [| |done].
  - change (Zpos p~1) with (2 * Zpos p + 1). replace (2 * Zpos p + 1 - 1) with (2 * Zpos p) by lia.
    by rewrite Z.land_comm, land_double_odd, Z.land_diag.
  - change (Zpos p~0) with (2 * Zpos p). replace (2 * Zpos p - 1) with (2 * (Zpos p - 1) + 1) by lia.
    by rewrite land_double_odd, IH.
Qed.

Lemma z_bits_double k z : z_bits k (2 * z) = z_bits (S k) z.
Proof. by destruct z. Qed.

Lemma pos_bits_step p : forall k, pos_bits k p = (k + pos_trailing_zeros p)%nat :: z_bits k (clear_lowest p).
Proof.
  induction p as [p _ | p IH |]; intros k; cbn [pos_bits pos_trailing_zeros clear_lowest].
  - by rewrite Nat.add_0_r.
  - rewrite z_bits_double, IH. f_equal. lia.
  - by rewrite Nat.add_0_r.
Qed.

Lemma clear_lowest_range p : 0 <= clear_lowest p < Zpos p.
Proof. induction p; simpl clear_lowest; lia. Qed.

Lemma drain_word_bits fuel sc wi : forall bits, 0 <= bits -> (length (z_bits 0 bits) <= fuel)%nat ->
  drain_word fuel sc wi bits = filter (fun s => (s < sc)%nat) (map (fun b => wi * 64 + b)%nat (z_bits 0 bits)).
Proof.
  induction fuel as [|fuel IH]; intros bits H0 Hf.
  - simpl in Hf. destruct (z_bits 0 bits); [done | simpl in Hf; lia].
  - destruct bits as [|p|p]; [done | | lia]. cbn [drain_word Z.eqb]. cbn [z_bits] in *.
    rewrite pos_bits_step in Hf |- *. rewrite land_pred. cbn [length] in Hf.
    pose proof (clear_lowest_range p). rewrite IH by lia. cbn [map trailing_zeros Nat.add].
    destruct (Nat.ltb_spec (wi * 64 + pos_trailing_zeros p) sc) as [Hlt | Hge].
    + by rewrite filter_cons_True.
    + rewrite filter_cons_False by lia. done.
Qed.

Lemma pos_bits_elem p : forall k i, i ∈ pos_bits k p <-> (k <= i)%nat /\ Z.testbit (Zpos p) (Z.of_nat i - Z.of_nat k) = true.
Proof.
  induction p as [p IH | p IH |]; intros k i; cbn [pos_bits].
  - rewrite elem_of_cons, IH. change (Zpos p~1) with (2 * Zpos p + 1).
    destruct (decide (i = k)) as [-> | Hne].
    + rewrite Z.sub_diag, Z.testbit_odd_0. intuition lia.
    + replace (Z.of_nat i - Z.of_nat k) with (Z.succ (Z.of_nat i - Z.of_nat (S k))) by lia.
      destruct (decide (S k <= i)%nat); [|intuition lia].
      rewrite Z.testbit_odd_succ by lia. intuition lia.
  - rewrite IH. change (Zpos p~0) with (2 * Zpos p).
    destruct (decide (i = k)) as [-> | Hne].
    + rewrite Z.sub_diag, Z.testbit_even_0. intuition (lia || discriminate).
    + replace (Z.of_nat i - Z.of_nat k) with (Z.succ (Z.of_nat i - Z.of_nat (S k))) by lia.
      destruct (decide (S k <= i)%nat); [|intuition lia].
      rewrite Z.testbit_even_succ by lia. intuition lia.
  - rewrite list_elem_of_singleton. split; [intros ->; rewrite Z.sub_diag; done |].
    intros [Hle Ht]. destruct (decide (i = k)) as [| Hne]; [done |].
    rewrite Z.bits_above_log2 in Ht; [discriminate | lia | cbn; lia].
Qed.

Lemma pos_bits_nodup p : forall k, NoDup (pos_bits k p).
Proof.
  induction p as [p IH | p IH |]; intros k; cbn [pos_bits]; [| done | by apply NoDup_singleton].
  constructor; [|done]. rewrite pos_bits_elem. lia.
Qed.

Lemma z_bits_elem z i : is_uint 64 z -> (i ∈ z_bits 0 z <-> Z.testbit z (Z.of_nat i) = true).
Proof.
  intros Hz. destruct z as [|p|p].
  - cbn [z_bits]. rewrite Z.bits_0. split; [by intros ?%not_elem_of_nil | done].
  - cbn [z_bits]. rewrite pos_bits_elem, Z.sub_0_r. intuition lia.
  - unfold is_uint in Hz. lia.
Qed.

Lemma z_bits_lt z i : is_uint 64 z -> i ∈ z_bits 0 z -> (i < 64)%nat.
Proof.
  intros Hz Hin. apply z_bits_elem in Hin; [|done]. unfold is_uint in Hz.
  destruct (decide (i < 64)%nat) as [| Hge]; [done |]. exfalso.
  destruct (Z.eq_dec z 0) as [-> | Hne]; [by rewrite Z.bits_0 in Hin |].
  rewrite Z.bits_above_log2 in Hin; [done | lia |].
  apply Z.lt_le_trans with 64; [|lia]. apply Z.log2_lt_pow2; lia.
Qed.

Lemma z_bits_nodup z : NoDup (z_bits 0 z).
Proof. destruct z; [apply NoDup_nil_2 | apply pos_bits_nodup | apply NoDup_nil_2]. Qed.

Lemma z_bits_length z : is_uint 64 z -> (length (z_bits 0 z) <= 64)%nat.
Proof.
  intros Hz. assert (Hsub : z_bits 0 z ⊆+ seq 0 64).
  { apply NoDup_submseteq; [apply z_bits_nodup |]. intros i Hi. apply elem_of_seq.
    pose proof (z_bits_lt z i Hz Hi). lia. }
  apply submseteq_length in Hsub. by rewrite length_seq in Hsub.
Qed.

Lemma words_test_uint w ws i : is_uint 64 w ->
  words_test (w :: ws) i = if (i <? 64)%nat then Z.testbit w (Z.of_nat i) else words_test ws (i - 64).
Proof.
  intros Hw. destruct (Nat.ltb_spec i 64) as [Hlt | Hge].
  - unfold words_test, bit_idx. rewrite Nat.div_small, Nat.mod_small by lia. cbn [lookup list_lookup].
    apply bit_test_testbit. lia.
  - rewrite <- (words_test_shift w ws (i - 64)). f_equal. lia.
Qed.

Lemma drain_words_elem sc ws : forall wi i, Forall (is_uint 64) ws ->
  (i ∈ drain_words sc wi ws <->
   (i < sc)%nat /\ (wi * 64 <= i)%nat /\ words_test ws (i - wi * 64) = true).
Proof.
  induction ws as [|w ws IH]; intros wi i Hu; cbn [drain_words].
  - split; [by intros ?%not_elem_of_nil |]. intros (_ & _ & H). unfold words_test in H.
    by rewrite lookup_nil in H.
  - rewrite Forall_cons in Hu. destruct Hu as [Hw Hu].
    rewrite elem_of_app, IH by done.
    rewrite drain_word_bits by (apply Hw || by apply z_bits_length).
    rewrite list_elem_of_filter, words_test_uint by done. split.
    + intros [[Hlt Hin] | (Hlt & Hle & Ht)].
      * apply list_elem_of_fmap in Hin as (b & -> & Hin). pose proof (z_bits_lt _ _ Hw Hin).
        apply z_bits_elem in Hin; [|done]. split_and!; [done | lia |].
        replace (wi * 64 + b - wi * 64)%nat with b by lia.
        by rewrite (proj2 (Nat.ltb_lt _ _)) by lia.
      * split_and!; [done | lia |]. rewrite (proj2 (Nat.ltb_ge _ _)) by lia.
        by replace (i - wi * 64 - 64)%nat with (i - S wi * 64)%nat by lia.
    + intros (Hlt & Hle & Ht). destruct (Nat.ltb_spec (i - wi * 64) 64) as [H64 | H64].
      * left. split; [done |]. apply list_elem_of_fmap. exists (i - wi * 64)%nat.
        split; [lia |]. by apply z_bits_elem.
      * right. split_and!; [done | lia |].
        by replace (i - S wi * 64)%nat with (i - wi * 64 - 64)%nat by lia.
Qed.

Lemma drain_words_nodup sc ws : forall wi, Forall (is_uint 64) ws -> NoDup (drain_words sc wi ws).
Proof.
  induction ws as [|w ws IH]; intros wi Hu; cbn [drain_words]; [apply NoDup_nil_2 |].
  pose proof Hu as Hu'. rewrite Forall_cons in Hu. destruct Hu as [Hw Hu].
  rewrite drain_word_bits by (apply Hw || by apply z_bits_length).
  apply NoDup_app. split; [|split; [|by apply IH]].
  - apply NoDup_filter, NoDup_fmap_2; [intros x y; lia | apply z_bits_nodup].
  - intros i Hi Hi2. apply list_elem_of_filter in Hi as [_ Hi].
    apply list_elem_of_fmap in Hi as (b & -> & Hb). pose proof (z_bits_lt _ _ Hw Hb).
    apply drain_words_elem in Hi2; [lia | done].
Qed.

Lemma bit_set_uint w b : is_uint 64 w -> 0 <= b < 64 -> is_uint 64 (bit_set w b).
Proof.
  intros [H0 Hlt] Hb. unfold bit_set. rewrite Z.shiftl_1_l.
  assert (Hp : 0 <= 2 ^ b < 2 ^ 64) by (split; [apply Z.pow_nonneg; lia | apply Z.pow_lt_mono_r; lia]).
  split; [apply Z.lor_nonneg; lia |].
  destruct (Z.eq_dec (Z.lor w (2 ^ b)) 0) as [-> | Hne]; [lia |].
  assert (0 <= Z.lor w (2 ^ b)) by (apply Z.lor_nonneg; lia).
  apply Z.log2_lt_cancel. rewrite Z.log2_pow2, Z.log2_lor by lia.
  apply Z.max_lub_lt.
  - destruct (Z.eq_dec w 0) as [-> |]; [cbn; lia | apply Z.log2_lt_pow2; lia].
  - rewrite Z.log2_pow2; lia.
Qed.

(** * The store invariant and the slot I/O interface *)

(** A writer handle over a segment: the mapping covers its slots, no write is in
    progress, one dirty word per 64 slots. *)
Record store_wf (g : Segment) (w : SlotWriter) : Prop := {
  swf_cover : (sw_slot_count w <= length (sg_slots g))%nat;
  swf_rest : Forall slot_rest (sg_slots g);
  swf_dirty_len : length (sw_dirty_words w) = div_ceil64 (sw_slot_count w);
  swf_dirty_u64 : Forall (is_uint 64) (sw_dirty_words w)
}.

(** The slots written since the last drain. *)
Definition dirty_set (w : SlotWriter) : gset nat :=
  list_to_set (filter (fun i => words_test (sw_dirty_words w) i = true) (seq 0 (sw_slot_count w))).

Lemma elem_of_dirty_set w i :
  i ∈ dirty_set w <-> (i < sw_slot_count w)%nat /\ words_test (sw_dirty_words w) i = true.
Proof.
  unfold dirty_set. rewrite elem_of_list_to_set, list_elem_of_filter, elem_of_seq. intuition lia.
Qed.

Lemma slot_at_ok g w i : store_wf g w -> (i < sw_slot_count w)%nat ->
  exists s, slot_at g (sw_slot_count w) i = Ret s /\ sg_slots g !! i = Some s /\ slot_rest s.
Proof.
  intros Hwf Hi. unfold slot_at. rewrite (proj2 (Nat.ltb_lt _ _) Hi).
  destruct (lookup_lt_is_Some_2 (sg_slots g) i) as [s Hs].
  { pose proof (swf_cover _ _ Hwf). lia. }
  exists s. rewrite Hs. split_and!; try done.
  by apply (proj1 (Forall_lookup _ _) (swf_rest _ _ Hwf) i).
Qed.

Lemma mark_dirty_spec w slot :
  Forall (is_uint 64) (sw_dirty_words w) -> length (sw_dirty_words w) = div_ceil64 (sw_slot_count w) ->
  (slot < sw_slot_count w)%nat ->
  let w' := SlotWriter_mark_dirty_slot w slot in
  sw_slot_count w' = sw_slot_count w /\ sw_max_slots w' = sw_max_slots w /\
  length (sw_dirty_words w') = length (sw_dirty_words w) /\ Forall (is_uint 64) (sw_dirty_words w') /\
  dirty_set w' = {[slot]} ∪ dirty_set w.
Proof.
  intros Hu Hlen Hlt. pose proof (div_ceil64_spec (sw_slot_count w)) as Hc.
  destruct (words_update_spec bit_set true bit_set_spec (sw_dirty_words w) slot) as (ws & Hup & Hl & Ht);
    [lia |].
  unfold words_update in Hup. unfold SlotWriter_mark_dirty_slot.
  destruct (sw_dirty_words w !! (slot `div` 64)%nat) as [word |] eqn:E; [|done].
  assert (ws = <[(slot `div` 64)%nat:=bit_set word (bit_idx slot)]> (sw_dirty_words w)) as -> by congruence.
  cbn [sw_slot_count sw_max_slots sw_dirty_words]. split_and!; try done.
  - apply Forall_insert; [done |]. apply bit_set_uint; [|apply bit_idx_range].
    by apply (proj1 (Forall_lookup _ _) Hu (slot `div` 64)%nat).
  - apply set_eq. intros i. rewrite elem_of_union, elem_of_singleton, !elem_of_dirty_set. cbn [sw_slot_count sw_dirty_words].
    rewrite Ht. destruct (Nat.eqb_spec slot i) as [-> | Hne]; intuition (done || congruence).
Qed.

(** One write through a writer handle. *)
Lemma store_write_spec g w i v r t s :
  store_wf g w -> (i < sw_slot_count w)%nat -> sg_slots g !! i = Some s ->
  let g' := store_slot g i (PointSlot_set s v r t) t in
  let w' := SlotWriter_mark_dirty_slot w i in
  store_wf g' w' /\ sw_slot_count w' = sw_slot_count w /\
  read_slot g' (sw_slot_count w) i = Ret (Some (mkSlotRead v r t)) /\
  (forall j, j <> i -> read_slot g' (sw_slot_count w) j = read_slot g (sw_slot_count w) j) /\
  dirty_set w' = {[i]} ∪ dirty_set w.
Proof.
  intros Hwf Hi Hs g' w'. pose proof Hwf as [Hcov Hrest Hdl Hdu].
  destruct (mark_dirty_spec w i Hdu Hdl Hi) as (Hc & Hm & Hl & Hu & Hd). fold w' in Hc, Hm, Hl, Hu, Hd.
  destruct (set_load_spec s v r t) as (Htry & _ & _ & Hr & _).
  { by apply (proj1 (Forall_lookup _ _) Hrest i). }
  split_and!; try done.
  - split; [rewrite Hc; cbn; by rewrite length_insert | cbn; by apply Forall_insert | congruence | done].
  - unfold read_slot, slot_at. rewrite (proj2 (Nat.leb_gt _ _) Hi), (proj2 (Nat.ltb_lt _ _) Hi). cbn [sg_slots g' store_slot].
    rewrite list_lookup_insert_eq by (by eapply lookup_lt_Some). cbn [outcome_bind]. by rewrite Htry.
  - intros j Hne. unfold read_slot, slot_at. cbn [sg_slots g' store_slot]. by rewrite list_lookup_insert_ne.
Qed.

(** What the slot layer promises to code that only addresses slots by index
    (the traits [SlotIo] and [SlotIoWrite]): a handle over the shared segment
    behaves as a map from slots to readings with a set of dirty slots. *)
Class SlotIoWrite (H : Type) := {
  io_ok : H -> Prop;
  io_slot_count : H -> nat;
  io_read_slot : H -> nat -> outcome (option SlotRead);
  io_write_slot : H -> nat -> Z -> Z -> Z -> outcome (bool * H);
  io_take_dirty_slots : H -> H * list nat;
  io_dirty : H -> gset nat;
  io_write_in : forall h i v r t, io_ok h -> (i < io_slot_count h)%nat ->
    exists h', io_write_slot h i v r t = Ret (true, h') /\ io_ok h' /\
      io_slot_count h' = io_slot_count h /\ io_read_slot h' i = Ret (Some (mkSlotRead v r t)) /\
      (forall j, j <> i -> io_read_slot h' j = io_read_slot h j) /\ io_dirty h' = {[i]} ∪ io_dirty h;
  io_write_out : forall h i v r t, (io_slot_count h <= i)%nat -> io_write_slot h i v r t = Ret (false, h);
  io_take : forall h, io_ok h ->
    let '(h', l) := io_take_dirty_slots h in
    io_ok h' /\ io_slot_count h' = io_slot_count h /\ (forall j, io_read_slot h' j = io_read_slot h j) /\
    io_dirty h' = ∅ /\ NoDup l /\ forall i, i ∈ l <-> i ∈ io_dirty h
}.

Lemma take_dirty_spec g w : store_wf g w ->
  let '(w', l) := SlotWriter_take_dirty_slots w in
  store_wf g w' /\ sw_slot_count w' = sw_slot_count w /\ dirty_set w' = ∅ /\ NoDup l /\
  forall i, i ∈ l <-> i ∈ dirty_set w.
Proof.
  intros [Hcov Hrest Hdl Hdu]. unfold SlotWriter_take_dirty_slots.
  assert (Hz : map (fun _ : Z => 0) (sw_dirty_words w) = replicate (length (sw_dirty_words w)) 0).
  { clear. induction (sw_dirty_words w); cbn; congruence. }
  rewrite Hz. split_and!.
  - split; cbn [sw_slot_count sw_dirty_words]; try done; [by rewrite length_replicate |].
    apply Forall_replicate. unfold is_uint; lia.
  - done.
  - apply set_eq. intros i. rewrite elem_of_dirty_set. cbn [sw_dirty_words].
    rewrite words_test_replicate. split; [intros [_ ?]; done | set_solver].
  - by apply drain_words_nodup.
  - intros i. rewrite drain_words_elem, elem_of_dirty_set, Nat.sub_0_r by done. intuition lia.
Qed.

#[export] Instance slot_writer_io : SlotIoWrite (Segment * SlotWriter).
Proof.
  refine {|
    io_ok := fun h => store_wf h.1 h.2;
    io_slot_count := fun h => sw_slot_count h.2;
    io_read_slot := fun h i => SlotWriter_read_slot h.1 h.2 i;
    io_write_slot := fun h i v r t =>
      let! (ok, g, w) := SlotWriter_write_slot h.1 h.2 i v r t in Ret (ok, (g, w));
    io_take_dirty_slots := fun h => let '(w, l) := SlotWriter_take_dirty_slots h.2 in ((h.1, w), l);
    io_dirty := fun h => dirty_set h.2
  |}.
  - intros [g w] i v r t Hwf Hi. cbn [fst snd] in *. unfold SlotWriter_write_slot.
    rewrite (proj2 (Nat.leb_gt _ _) Hi). destruct (slot_at_ok g w i Hwf Hi) as (s & -> & Hs & _).
    cbn [outcome_bind]. eexists. split; [reflexivity |]. cbn [fst snd].
    destruct (store_write_spec g w i v r t s Hwf Hi Hs) as (H1 & H2 & H3 & H4 & H5).
    unfold SlotWriter_read_slot. rewrite H2. done.
  - intros [g w] i v r t Hge. cbn [fst snd] in *. unfold SlotWriter_write_slot.
    by rewrite (proj2 (Nat.leb_le _ _) Hge).
  - intros [g w] Hwf. cbn [fst snd] in *. pose proof (take_dirty_spec g w Hwf) as Ht.
    destruct (SlotWriter_take_dirty_slots w) as [w' l]. cbn [fst snd].
    destruct Ht as (H1 & H2 & H3 & H4 & H5). split_and!; try done.
    intros j. unfold SlotWriter_read_slot. by rewrite H2.
Defined.

(** [UnifiedWriter] delegates the slot layer to its [SlotWriter]. *)
#[export] Instance unified_writer_io C : SlotIoWrite (Segment * UnifiedWriter C).
Proof.
  refine {|
    io_ok := fun h => store_wf h.1 (uw_inner h.2);
    io_slot_count := fun h => sw_slot_count (uw_inner h.2);
    io_read_slot := fun h i => SlotWriter_read_slot h.1 (uw_inner h.2) i;
    io_write_slot := fun h i v r t =>
      let! (ok, g, w) := SlotWriter_write_slot h.1 (uw_inner h.2) i v r t in
      Ret (ok, (g, mkUnifiedWriter w (uw_channel_layouts h.2) (uw_point_watch h.2)));
    io_take_dirty_slots := fun h => let '(w, l) := UnifiedWriter_take_dirty_slots h.2 in ((h.1, w), l);
    io_dirty := fun h => dirty_set (uw_inner h.2)
  |}.
  - intros [g w] i v r t Hwf Hi. cbn [fst snd] in *.
    destruct (@io_write_in _ slot_writer_io (g, uw_inner w) i v r t Hwf Hi) as ([g' w'] & Hw & H1 & H2 & H3 & H4 & H5).
    cbn [io_write_slot slot_writer_io fst snd] in Hw.
    destruct (SlotWriter_write_slot g (uw_inner w) i v r t) as [[[ok g1] w1] |]; [|done].
    cbn [outcome_bind] in *. injection Hw as -> -> ->. eexists. split; [reflexivity |]. done.
  - intros [g w] i v r t Hge. cbn [fst snd] in *. unfold SlotWriter_write_slot.
    rewrite (proj2 (Nat.leb_le _ _) Hge). cbn. by destruct w.
  - intros [g w] Hwf. cbn [fst snd] in *. pose proof (take_dirty_spec g (uw_inner w) Hwf) as Ht.
    unfold UnifiedWriter_take_dirty_slots.
    destruct (SlotWriter_take_dirty_slots (uw_inner w)) as [w' l]. cbn [fst snd uw_inner].
    destruct Ht as (H1 & H2 & H3 & H4 & H5). split_and!; try done.
    intros j. unfold SlotWriter_read_slot. by rewrite H2.
Defined.

(** ** Clients of the interface *)
Record slot_write := mkWrite { wr_slot : nat; wr_value : Z; wr_raw : Z; wr_ts : Z }.

Section SlotClient.
Context {H : Type} `{IO : !SlotIoWrite H}.

Fixpoint io_write_all (h : H) (ws : list slot_write) : outcome H :=
  match ws with
  | [] => Ret h
  | x :: ws =>
      let! (_, h') := io_write_slot h (wr_slot x) (wr_value x) (wr_raw x) (wr_ts x) in
      io_write_all h' ws
  end.

(** The reading slot [i] holds after the writes, if one addressed it. *)
Fixpoint last_write (ws : list slot_write) (i : nat) : option SlotRead :=
  match ws with
  | [] => None
  | x :: ws =>
      match last_write ws i with
      | Some r => Some r
      | None => if decide (wr_slot x = i) then Some (mkSlotRead (wr_value x) (wr_raw x) (wr_ts x)) else None
      end
  end.

Lemma io_write_all_spec ws : forall h, io_ok h ->
  exists h', io_write_all h ws = Ret h' /\ io_ok h' /\ io_slot_count h' = io_slot_count h /\
    (forall i, (i < io_slot_count h)%nat ->
       io_read_slot h' i = match last_write ws i with Some r => Ret (Some r) | None => io_read_slot h i end) /\
    (forall i, i ∈ io_dirty h' <->
       i ∈ io_dirty h \/ ((i < io_slot_count h)%nat /\ is_Some (last_write ws i))).
Proof.
  induction ws as [|x ws IH]; intros h Hok; cbn [io_write_all last_write].
  - exists h. split_and!; try done. intros i. split; [tauto |]. intros [? | [_ [? ?]]]; done.
  - destruct (decide (wr_slot x < io_slot_count h)%nat) as [Hlt | Hge].
    + destruct (io_write_in h (wr_slot x) (wr_value x) (wr_raw x) (wr_ts x) Hok Hlt)
        as (h1 & -> & Hok1 & Hc1 & Hr1 & Ho1 & Hd1).
      cbn [outcome_bind]. destruct (IH h1 Hok1) as (h2 & -> & Hok2 & Hc2 & Hr2 & Hd2).
      exists h2. split_and!; try done; [congruence | |]; rewrite Hc1 in *.
      * intros i Hi. rewrite Hr2 by done. destruct (last_write ws i); [done |].
        case_decide as Hx; [by rewrite <- Hx | apply Ho1; congruence].
      * intros i. rewrite Hd2, Hd1, elem_of_union, elem_of_singleton.
        destruct (last_write ws i) as [rd |] eqn:El; [destruct (decide (i = wr_slot x)); naive_solver |].
        case_decide as Hx; subst; split; try naive_solver; intros [? | [_ [? ?]]]; try done; tauto.
    + rewrite io_write_out by lia. cbn [outcome_bind].
      destruct (IH h Hok) as (h2 & -> & Hok2 & Hc2 & Hr2 & Hd2). exists h2. split_and!; try done.
      * intros i Hi. rewrite Hr2 by done. destruct (last_write ws i); [done |]. case_decide; [lia | done].
      * intros i. rewrite Hd2. destruct (last_write ws i) as [rd |] eqn:El; [tauto |].
        case_decide; [|tauto]. split; [naive_solver |]. intros [? | [? _]]; [by left | lia].
Qed.
End SlotClient.

(** Writing a batch of readings by slot index and draining the dirty set, on
    any writer handle: no write panics, out-of-range slots are ignored, every slot
    reads back the last reading written to it (others are unchanged), and the
    drain returns each written slot exactly once and leaves nothing dirty. *)
Theorem write_batch_then_drain g w ws :
  store_wf g w -> dirty_set w = ∅ ->
  exists g' w', io_write_all (g, w) ws = Ret (g', w') /\
    (forall i, (i < sw_slot_count w)%nat ->
       SlotWriter_read_slot g' w' i =
         match last_write ws i with Some r => Ret (Some r) | None => SlotWriter_read_slot g w i end) /\
    let '(w'', l) := SlotWriter_take_dirty_slots w' in
    NoDup l /\ (forall i, i ∈ l <-> (i < sw_slot_count w)%nat /\ is_Some (last_write ws i)) /\
    SlotWriter_take_dirty_slots w'' = (w'', []).
Proof.
  intros Hwf Hd. destruct (@io_write_all_spec _ slot_writer_io ws (g, w) Hwf) as ([g' w'] & Hrun & Hok & Hc & Hr & Hdirty).
  exists g', w'. split; [done |]. split; [exact Hr |].
  pose proof (take_dirty_spec g' w' Hok) as Ht. destruct (SlotWriter_take_dirty_slots w') as [w'' l] eqn:E.
  destruct Ht as (Hwf'' & Hc'' & Hd'' & Hnd & Hl). split_and!; [done | |].
  - intros i. rewrite Hl. pose proof (Hdirty i) as Hi. cbn [io_dirty io_slot_count slot_writer_io snd] in Hi.
    rewrite Hi, Hd. set_solver.
  - unfold SlotWriter_take_dirty_slots in E |- *. injection E as <- <-.
    cbn [sw_max_slots sw_slot_count sw_dirty_words]. f_equal; [f_equal |].
    + by rewrite map_map.
    + cbn. clear. generalize 0%nat. induction (sw_dirty_words w'); intros k; [done |]. cbn. done.
Qed.

(** ** Unified handles *)

(** A unified writer over a segment laid out for [cps]. *)
Record unified_wf {C} (cps : ChannelPointCounts) (g : Segment) (w : UnifiedWriter C) : Prop := {
  uwf_store : store_wf g (uw_inner w);
  uwf_layout : allocate_layouts cps = Ret (uw_channel_layouts w, sw_slot_count (uw_inner w))
}.

(** The reading a channel point holds, as [get_channel] and [read_slot] see it. *)
Definition point_reading (g : Segment) (ls : list ChannelLayout) (count : nat) (ch t p : Z) : option SlotRead :=
  match layouts_lookup ls ch t p with
  | Some slot =>
      match read_slot g count slot with
      | Ret r => r
      | Panic => None
      end
  | None => None
  end.

Lemma read_slot_quiet g w i : store_wf g w -> (i < sw_slot_count w)%nat ->
  exists s, sg_slots g !! i = Some s /\
    read_slot g (sw_slot_count w) i = Ret (Some (mkSlotRead (ps_value_bits s) (ps_raw_bits s) (ps_timestamp s))) /\
    PointSlot_load_consistent s = Some (ps_value_bits s, ps_raw_bits s, ps_timestamp s).
Proof.
  intros Hwf Hi. destruct (slot_at_ok g w i Hwf Hi) as (s & Hat & Hs & [Hr He]).
  exists s. split; [done |]. unfold read_slot. rewrite (proj2 (Nat.leb_gt _ _) Hi), Hat. cbn [outcome_bind].
  assert (Htry : PointSlot_try_load_consistent s = Some (ps_value_bits s, ps_raw_bits s, ps_timestamp s)).
  { unfold PointSlot_try_load_consistent. cbv zeta. rewrite He. cbn [Z.eqb negb]. by rewrite Z.eqb_refl. }
  rewrite Htry. split; [done |]. by apply load_retry_first; [apply retries_positive |].
Qed.

Section UnifiedSpec.
Context {C : Type} `{MS : !MpscSender C PointWatchEvent}.

(** A signaler attached to the writer has a mapped bitmap. *)
Definition signaler_ok (pw : option (PointWatchSignaler C)) : Prop :=
  match pw with
  | Some s => exists X, watches (sig_subs s) X
  | None => True
  end.

Lemma emit_opt_ok pw slot v r t : signaler_ok pw ->
  exists pw', emit_opt pw slot v r t = Ret pw' /\ signaler_ok pw'.
Proof.
  destruct pw as [s |]; [|by exists None]. intros [X Hw]. cbn [emit_opt].
  destruct (emit_spec s X slot v r t Hw) as (s' & -> & Hsubs & _). exists (Some s').
  split; [done |]. exists X. by rewrite Hsubs.
Qed.

Lemma unified_set_direct_spec cps g (w : UnifiedWriter C) slot v r t :
  unified_wf cps g w -> signaler_ok (uw_point_watch w) -> (slot < sw_slot_count (uw_inner w))%nat ->
  exists g' w', UnifiedWriter_set_direct g w slot v r t = Ret (g', w') /\
    unified_wf cps g' w' /\ signaler_ok (uw_point_watch w') /\
    uw_channel_layouts w' = uw_channel_layouts w /\
    sw_slot_count (uw_inner w') = sw_slot_count (uw_inner w) /\
    sg_len g' = sg_len g /\ length (sg_slots g') = length (sg_slots g) /\
    sg_header g' = set_heartbeat (sg_header g) t /\
    read_slot g' (sw_slot_count (uw_inner w)) slot = Ret (Some (mkSlotRead v r t)) /\
    (forall j, j <> slot -> sg_slots g' !! j = sg_slots g !! j) /\
    dirty_set (uw_inner w') = {[slot]} ∪ dirty_set (uw_inner w).
Proof.
  intros [Hst Hlay] Hsig Hlt. unfold UnifiedWriter_set_direct, SlotWriter_set_direct.
  destruct (slot_at_ok g (uw_inner w) slot Hst Hlt) as (s & -> & Hs & _). cbn [outcome_bind].
  destruct (emit_opt_ok (uw_point_watch w) slot v r t Hsig) as (pw' & -> & Hsig'). cbn [outcome_bind].
  destruct (store_write_spec g (uw_inner w) slot v r t s Hst Hlt Hs) as (H1 & H2 & H3 & H4 & H5).
  eexists _, _. split; [reflexivity |]. cbn [uw_inner uw_channel_layouts uw_point_watch].
  split_and!; try done.
  - split; cbn; [done |]. by rewrite H2.
  - cbn. apply length_insert.
  - intros j Hne. cbn. by apply list_lookup_insert_ne.
Qed.

(** [set] is [set_direct] at the slot the layout assigns. *)
Lemma unified_set_unfold g (w : UnifiedWriter C) ch t p v r ts :
  UnifiedWriter_set g w ch t p v r ts =
  match layouts_lookup (uw_channel_layouts w) ch t p with
  | Some slot => outcome_map (fun x => (true, x.1, x.2)) (UnifiedWriter_set_direct g w slot v r ts)
  | None => Ret (false, g, w)
  end.
Proof.
  unfold UnifiedWriter_set, layouts_lookup, UnifiedWriter_set_direct.
  destruct (uw_channel_layouts w !! Z.to_nat ch) as [l |]; [|done].
  destruct (ChannelLayout_slot l t p) as [slot |]; [|done].
  destruct (SlotWriter_set_direct g (uw_inner w) slot v r ts) as [[g' i'] |]; [|done]. cbn [outcome_bind].
  by destruct (emit_opt (uw_point_watch w) slot v r ts).
Qed.
End UnifiedSpec.

Lemma get_channel_reading g (w : SlotWriter) (r : UnifiedReader) cps total ch t p :
  counts_wf cps -> allocate_layouts cps = Ret (ur_channel_layouts r, total) ->
  store_wf g w -> sw_slot_count w = total -> sr_slot_count (ur_inner r) = total ->
  is_uint 32 ch -> is_uint 8 t -> is_uint 32 p ->
  UnifiedReader_get_channel g r ch t p =
  Ret (match layouts_lookup (ur_channel_layouts r) ch t p with
       | Some slot => match sg_slots g !! slot with
                      | Some s => Some (ps_value_bits s, ps_timestamp s)
                      | None => None
                      end
       | None => None
       end).
Proof.
  intros Hwf Hal Hst Hc Hr Hch Ht Hp. unfold UnifiedReader_get_channel, layouts_lookup.
  destruct (ur_channel_layouts r !! Z.to_nat ch) as [l |] eqn:El; [|done].
  destruct (ChannelLayout_slot l t p) as [slot |] eqn:Es; [|done].
  assert (Hlt : (slot < total)%nat).
  { eapply (layout_aliases_none cps _ total Hwf Hal ch t p ch t p slot); try done;
      unfold layouts_lookup; by rewrite El. }
  rewrite Hr, <- Hc in *. destruct (read_slot_quiet g w slot Hst) as (s & Hs & _ & Hload); [lia |].
  unfold slot_at. rewrite (proj2 (Nat.ltb_lt _ _)) by lia. rewrite Hs. cbn [outcome_bind]. by rewrite Hload.
Qed.

(** * Theorems on the unified handles *)
Section UnifiedClaims.
Context {C : Type} `{MS : !MpscSender C PointWatchEvent}.
Variable layout_hash : ChannelPointCounts -> Z.

Lemma open_checks_ok g cps r : open_checks layout_hash g cps = Ret (Ok r) ->
  allocate_layouts cps = Ret (r.2, r.1.2) /\ r.1.2 = Z.to_nat (uh_slot_count (sg_header g)) /\
  r.1.1 = uh_max_slots (sg_header g) /\ uh_magic (sg_header g) = UNIFIED_MAGIC /\
  uh_version (sg_header g) = UNIFIED_VERSION /\ uh_routing_hash (sg_header g) = layout_hash cps /\
  (slot_offset <= sg_len g)%nat /\ (calculate_file_size (uh_max_slots (sg_header g)) <= sg_len g)%nat.
Proof using.
  unfold open_checks, verify_file_min_size, validate_shm_header, verify_mmap_covers_slots, verify_slot_count.
  destruct (Nat.ltb_spec (sg_len g) slot_offset); [done |].
  destruct (Z.eqb_spec (uh_magic (sg_header g)) UNIFIED_MAGIC); cbn [negb]; [|done].
  destruct (Z.eqb_spec (uh_version (sg_header g)) UNIFIED_VERSION); cbn [negb]; [|done].
  destruct (Z.eqb_spec (layout_hash cps) (uh_routing_hash (sg_header g))); cbn [negb]; [|done].
  destruct (Nat.ltb_spec (sg_len g) (calculate_file_size (uh_max_slots (sg_header g)))); [done |].
  destruct (allocate_layouts cps) as [[ls total] |]; [|done]. cbn [outcome_bind].
  destruct (Nat.eqb_spec total (Z.to_nat (uh_slot_count (sg_header g)))) as [-> |]; [|done].
  cbn [result_bind]. intros [= <-]. cbn [fst snd]. split_and!; done || lia.
Qed.

Lemma reader_open_ok g cps r : UnifiedReader_open layout_hash g cps = Ret (Ok r) ->
  allocate_layouts cps = Ret (ur_channel_layouts r, sr_slot_count (ur_inner r)).
Proof using.
  unfold UnifiedReader_open. destruct (open_checks layout_hash g cps) as [[[[m n] ls] | e] |] eqn:E; try done.
  cbn. intros [= <-]. apply open_checks_ok in E. cbn in *. tauto.
Qed.

Lemma unified_set_spec cps g (w : UnifiedWriter C) r ch t p v raw ts slot :
  counts_wf cps -> unified_wf cps g w -> signaler_ok (uw_point_watch w) ->
  UnifiedReader_open layout_hash g cps = Ret (Ok r) ->
  is_uint 32 ch -> is_uint 8 t -> is_uint 32 p -> UnifiedWriter_lookup w ch t p = Some slot ->
  exists g' w', UnifiedWriter_set g w ch t p v raw ts = Ret (true, g', w') /\
    unified_wf cps g' w' /\
    UnifiedReader_get_channel g' r ch t p = Ret (Some (v, ts)) /\
    (forall ch' t' p', is_uint 32 ch' -> is_uint 8 t' -> is_uint 32 p' -> (ch', t', p') <> (ch, t, p) ->
       UnifiedReader_get_channel g' r ch' t' p' = UnifiedReader_get_channel g r ch' t' p') /\
    dirty_set (uw_inner w') = {[slot]} ∪ dirty_set (uw_inner w).
Proof using.
  intros Hwf Huw Hsig Hopen Hch Ht Hp Hlk. pose proof (reader_open_ok _ _ _ Hopen) as Hal.
  pose proof Huw as [Hst Hlay]. rewrite Hal in Hlay. injection Hlay as Hls Hcnt.
  unfold UnifiedWriter_lookup in Hlk. rewrite <- Hls in Hlk.
  assert (Hlt : (slot < sr_slot_count (ur_inner r))%nat)
    by (eapply (layout_aliases_none cps _ _ Hwf Hal ch t p ch t p slot); done).
  destruct (unified_set_direct_spec cps g w slot v raw ts Huw Hsig) as
    (g' & w' & Hset & Huw' & _ & Hls' & Hcnt' & _ & Hlen & _ & Hread & Hother & Hdirty); [lia |].
  exists g', w'. rewrite unified_set_unfold, <- Hls, Hlk, Hset. split; [done |]. split; [done |].
  assert (Hget : forall ch t p, is_uint 32 ch -> is_uint 8 t -> is_uint 32 p ->
     UnifiedReader_get_channel g' r ch t p = Ret (match layouts_lookup (ur_channel_layouts r) ch t p with
       | Some slot => match sg_slots g' !! slot with
                      | Some s => Some (ps_value_bits s, ps_timestamp s) | None => None end
       | None => None end)).
  { intros. eapply (get_channel_reading g' (uw_inner w') r cps); try done; [apply Huw' | congruence]. }
  split_and!; [| |done].
  - rewrite Hget, Hlk by done. destruct (read_slot_quiet g' (uw_inner w') slot) as (s & Hs & Hrd & _);
      [apply Huw' | lia |]. rewrite Hs. rewrite Hcnt', Hread in Hrd. by injection Hrd as -> -> ->.
  - intros ch' t' p' Hch' Ht' Hp' Hne. rewrite Hget by done.
    rewrite (get_channel_reading g (uw_inner w) r cps (sr_slot_count (ur_inner r))) by (done || congruence).
    destruct (layouts_lookup (ur_channel_layouts r) ch' t' p') as [slot' |] eqn:Elk; [|done].
    rewrite Hother; [done |]. intros ->. apply Hne.
    destruct (layout_aliases_none cps _ _ Hwf Hal ch' t' p' ch t p slot) as (-> & -> & -> & _); done.
Qed.

(** What [UnifiedWriter::set] promises at one point: on a configured point (the
    layout of the writer gives it a slot) it returns true, the point reads as
    written, and its slot becomes dirty; on any other point it returns false, the
    segment and the writer are untouched, and readers see no point there.  In both
    cases every other point reads as before. *)
Definition set_contract (g : Segment) (w : UnifiedWriter C) (r : UnifiedReader) (ch t p v raw ts : Z) : Prop :=
  match UnifiedWriter_lookup w ch t p with
  | Some slot => exists g' w', UnifiedWriter_set g w ch t p v raw ts = Ret (true, g', w') /\
      UnifiedReader_get_channel g' r ch t p = Ret (Some (v, ts)) /\
      (forall ch' t' p', is_uint 32 ch' -> is_uint 8 t' -> is_uint 32 p' -> (ch', t', p') <> (ch, t, p) ->
         UnifiedReader_get_channel g' r ch' t' p' = UnifiedReader_get_channel g r ch' t' p') /\
      dirty_set (uw_inner w') = {[slot]} ∪ dirty_set (uw_inner w)
  | None => UnifiedWriter_set g w ch t p v raw ts = Ret (false, g, w) /\
      UnifiedReader_get_channel g r ch t p = Ret None
  end.

(** C2: a value written by channel point is what readers see.  For a segment with no
    write under way, a writer and a reader opened over the same well-formed
    configuration (a point watcher, when there is one, has its bitmap mapped), and
    for every channel, type and point number: [set] on a configured point returns true, the
    reader gets the new value and timestamp for that point and exactly the old
    reading for every other point, and the written slot becomes dirty; [set] on an
    unconfigured point returns false, leaves the segment and the writer as they
    were, and the reader gets None there. *)
Theorem set_visible_to_readers cps g (w : UnifiedWriter C) r ch t p v raw ts :
  counts_wf cps -> unified_wf cps g w -> signaler_ok (uw_point_watch w) ->
  UnifiedReader_open layout_hash g cps = Ret (Ok r) ->
  is_uint 32 ch -> is_uint 8 t -> is_uint 32 p ->
  set_contract g w r ch t p v raw ts.
Proof using.
  intros Hwf Huw Hsig Hopen Hch Ht Hp. unfold set_contract.
  destruct (UnifiedWriter_lookup w ch t p) as [slot |] eqn:Hlk.
  - destruct (unified_set_spec cps g w r ch t p v raw ts slot) as (g' & w' & ? & _ & ?); try done.
    by exists g', w'.
  - unfold UnifiedWriter_lookup in Hlk. rewrite unified_set_unfold, Hlk. split; [done |].
    pose proof (reader_open_ok _ _ _ Hopen) as Hal. pose proof Huw as [Hst Hlay].
    rewrite Hal in Hlay. injection Hlay as Hls Hcnt. rewrite <- Hls in Hlk.
    rewrite (get_channel_reading g (uw_inner w) r cps (sr_slot_count (ur_inner r))) by done. by rewrite Hlk.
Qed.

(** The action writer cannot touch comsrv's points: [set_action] with a
    telemetry or signal type is refused and changes nothing; with any point type it
    leaves the reading of every telemetry and signal point, as any reader sees it,
    unchanged. *)
Theorem action_writer_confined cps g (a : ActionWriter C) r ch t p v ts :
  counts_wf cps -> unified_wf cps g (aw_writer a) -> signaler_ok (uw_point_watch (aw_writer a)) ->
  UnifiedReader_open layout_hash g cps = Ret (Ok r) ->
  is_uint 32 ch -> is_uint 8 t -> is_uint 32 p ->
  exists ok g' a', ActionWriter_set_action g a ch t p v ts = Ret (ok, g', a') /\
    (owned_by_modsrv t = false -> ok = false /\ g' = g /\ a' = a) /\
    (forall ch' t' p', is_uint 32 ch' -> is_uint 8 t' -> is_uint 32 p' -> owned_by_modsrv t' = false ->
       UnifiedReader_get_channel g' r ch' t' p' = UnifiedReader_get_channel g r ch' t' p').
Proof using.
  intros Hwf Huw Hsig Hopen Hch Ht Hp. unfold ActionWriter_set_action, UnifiedWriter_set_action, owned_by_modsrv.
  destruct (negb (t =? 2) && negb (t =? 3)) eqn:Et.
  { eexists _, _, _. split; [reflexivity |]. cbn. split; [|done]. intros _. by destruct a. }
  assert (Hge : 2 <= t) by (apply andb_false_iff in Et as [Et | Et]; bool_hyps; lia).
  destruct (UnifiedWriter_lookup (aw_writer a) ch t p) as [slot |] eqn:Elk.
  - destruct (unified_set_spec cps g (aw_writer a) r ch t p v v ts slot) as (g' & w' & -> & _ & _ & Hother & _);
      [done.. |].
    eexists _, _, _. split; [reflexivity |]. split; [bool_cases; lia || done |].
    intros ch' t' p' Hch' Ht' Hp' Ho. apply Hother; [done.. |]. intros [= -> -> ->]. bool_hyps. lia.
  - rewrite unified_set_unfold. unfold UnifiedWriter_lookup in Elk. rewrite Elk.
    eexists _, _, _. split; [reflexivity |]. cbn. split; [|done]. intros _. by destruct a.
Qed.

(** ** Creating and opening *)

Lemma generation_seed_even e :
  Z.even (generation_seed e) = true /\ 2 <= generation_seed e.
Proof using.
  unfold generation_seed. cbv zeta. set (x := wrapping_add 64 _ _). split; [|lia].
  destruct (Z.max_spec (Z.land x (not_u64 1)) 2) as [[_ ->] | [_ ->]]; [done |].
  rewrite <- Z.negb_odd, <- Z.bit0_odd, Z.land_spec.
  replace (Z.testbit (not_u64 1) 0) with false by reflexivity. by rewrite andb_false_r.
Qed.

(** [max_slots] and the [slot_count] stored in the header are [u32]. *)
Lemma config_max_slots cfg : is_uint 32 (default DEFAULT_MAX_SLOTS (SharedConfig_max_slots cfg)).
Proof using. cbn. by apply wrap_uint. Qed.

Lemma create_spec cfg cps e ls total :
  let max_slots := default DEFAULT_MAX_SLOTS (SharedConfig_max_slots cfg) in
  allocate_layouts cps = Ret (ls, total) -> (total <= Z.to_nat max_slots)%nat ->
  exists g (w : UnifiedWriter C), UnifiedWriter_create layout_hash cfg cps e = Ret (Ok (g, w)) /\
    unified_wf cps g w /\ uw_point_watch w = None /\ dirty_set (uw_inner w) = ∅ /\
    uw_channel_layouts w = ls /\ sw_slot_count (uw_inner w) = total /\
    sg_len g = calculate_file_size max_slots /\ length (sg_slots g) = Z.to_nat max_slots /\
    sg_header g = mkUnifiedHeader UNIFIED_MAGIC UNIFIED_VERSION max_slots (Z.of_nat total)
      (replicate 4 0) 0 0 (layout_hash cps) (generation_seed e) (replicate 8 0) /\
    forall i, (i < total)%nat -> sg_slots g !! i = Some (PointSlot_init_unwritten zeroed_slot).
Proof using.
  intros max_slots Hal Hle. pose proof (config_max_slots cfg) as Hmax. fold max_slots in Hmax.
  unfold UnifiedWriter_create. fold max_slots. rewrite Hal. cbn [outcome_bind].
  rewrite (proj2 (Nat.ltb_ge _ _) Hle), wrap_small by solve_uint.
  eexists _, _. split; [reflexivity |].
  cbn [uw_inner uw_channel_layouts uw_point_watch sg_slots sg_len sg_header].
  assert (Hlen : length (replicate total (PointSlot_init_unwritten zeroed_slot) ++
                         replicate (Z.to_nat max_slots - total) zeroed_slot) = Z.to_nat max_slots).
  { rewrite length_app, !length_replicate. lia. }
  split_and!; try done.
  - split; [|done]. split; cbn [sg_slots SlotWriter_from_mmap uw_inner sw_slot_count sw_dirty_words].
    + rewrite Hlen. lia.
    + apply Forall_app. split; apply Forall_replicate; (split; [unfold is_uint; cbn; lia | done]).
    + apply length_replicate.
    + apply Forall_replicate. unfold is_uint; lia.
  - apply set_eq. intros i. rewrite elem_of_dirty_set. cbn [sw_dirty_words SlotWriter_from_mmap].
    unfold new_dirty_words. rewrite words_test_replicate. split; [intros [_ ?]; done | set_solver].
  - intros i Hi. rewrite lookup_app_l by (rewrite length_replicate; lia).
    by apply lookup_replicate_2.
Qed.

(** The checks of [open] pass on a file laid out as [create] does. *)
Lemma created_open_checks g cps ls total max_slots gen :
  allocate_layouts cps = Ret (ls, total) -> sg_len g = calculate_file_size max_slots ->
  sg_header g = mkUnifiedHeader UNIFIED_MAGIC UNIFIED_VERSION max_slots (Z.of_nat total)
    (replicate 4 0) 0 0 (layout_hash cps) gen (replicate 8 0) ->
  open_checks layout_hash g cps = Ret (Ok (max_slots, total, ls)).
Proof using.
  intros Hal Hlen Hhdr. assert (Hmin : (slot_offset <= sg_len g)%nat) by (rewrite Hlen; unfold calculate_file_size; lia).
  unfold open_checks, verify_file_min_size, validate_shm_header, verify_mmap_covers_slots, verify_slot_count.
  rewrite (proj2 (Nat.ltb_ge _ _) Hmin), Hhdr. cbn [uh_magic uh_version uh_routing_hash uh_max_slots uh_slot_count].
  rewrite !Z.eqb_refl. cbn [negb]. rewrite Hlen, Nat.ltb_irrefl, Hal. cbn [outcome_bind].
  by rewrite Nat2Z.id, Nat.eqb_refl.
Qed.

(** A created segment can be opened: [create] succeeds when the layout fits,
    the resulting generation is even and non-zero (at rest), readers and action
    writers with the same configuration open it with the same layout, every
    configured point reads as the NaN sentinel, and a process whose configuration
    hashes differently is refused. *)
Theorem create_then_open cfg cps e ls total :
  counts_wf cps -> allocate_layouts cps = Ret (ls, total) ->
  (total <= Z.to_nat (default DEFAULT_MAX_SLOTS (SharedConfig_max_slots cfg)))%nat ->
  exists g (w : UnifiedWriter C) r (a : ActionWriter C),
    UnifiedWriter_create layout_hash cfg cps e = Ret (Ok (g, w)) /\ unified_wf cps g w /\
    Z.even (SlotWriter_generation g) = true /\ 2 <= SlotWriter_generation g /\
    UnifiedReader_open layout_hash g cps = Ret (Ok r) /\ ur_channel_layouts r = uw_channel_layouts w /\
    ActionWriter_open layout_hash g cps = Ret (Ok a) /\ unified_wf cps g (aw_writer a) /\
    (forall ch t p slot, is_uint 32 ch -> is_uint 8 t -> is_uint 32 p -> UnifiedReader_lookup r ch t p = Some slot ->
       UnifiedReader_get_channel g r ch t p = Ret (Some (SLOT_UNWRITTEN_BITS, 0))) /\
    (forall cps', layout_hash cps' <> layout_hash cps ->
       UnifiedReader_open layout_hash g cps' = Ret (Err (LayoutMismatch (layout_hash cps) (layout_hash cps')))).
Proof using.
  intros Hwf Hal Hle. destruct (create_spec cfg cps e ls total Hal Hle) as
    (g & w & Hcr & Huw & _ & _ & Hls & Hcnt & Hlen & Hsl & Hhdr & Hslots).
  assert (Hmin : (slot_offset <= sg_len g)%nat) by (rewrite Hlen; unfold calculate_file_size; lia).
  assert (Hchk : open_checks layout_hash g cps = Ret (Ok (uh_max_slots (sg_header g), total, ls))).
  { rewrite (created_open_checks g cps ls total _ _ Hal Hlen Hhdr), Hhdr. done. }
  pose proof (generation_seed_even e) as [Hev Hge].
  eexists g, w, _, _. split; [done |]. split; [done |].
  split; [unfold SlotWriter_generation; by rewrite Hhdr |].
  split; [unfold SlotWriter_generation; by rewrite Hhdr |].
  split; [unfold UnifiedReader_open; rewrite Hchk; reflexivity |].
  split; [done |].
  split; [unfold ActionWriter_open, UnifiedWriter_open_existing; rewrite Hchk; reflexivity |].
  cbn [aw_writer]. split; [|split].
  - pose proof Huw as [[Hc Hr _ _] _]. rewrite Hcnt in Hc. split; [|done].
    split; cbn [uw_inner SlotWriter_from_mmap sw_slot_count sw_dirty_words]; try done.
    + apply length_replicate.
    + apply Forall_replicate. unfold is_uint; lia.
  - intros ch t p slot Hch Ht Hp Hlk. unfold UnifiedReader_lookup in Hlk. cbn [ur_channel_layouts] in Hlk.
    rewrite (get_channel_reading g (uw_inner w) _ cps total) by (done || apply Huw).
    cbn [ur_channel_layouts]. rewrite Hlk, Hslots; [done |].
    by eapply (layout_aliases_none cps ls total Hwf Hal ch t p ch t p slot).
  - intros cps' Hne. unfold UnifiedReader_open, open_checks, verify_file_min_size, validate_shm_header.
    rewrite (proj2 (Nat.ltb_ge _ _) Hmin), Hhdr. cbn [uh_magic uh_version uh_routing_hash].
    rewrite !Z.eqb_refl. cbn [negb]. rewrite (proj2 (Z.eqb_neq _ _) Hne). done.
Qed.

(** ** Snapshots *)

Record header_wf (h : UnifiedHeader) (count : nat) : Prop := {
  hw_magic : uh_magic h = UNIFIED_MAGIC;
  hw_version : uh_version h = UNIFIED_VERSION;
  hw_count : uh_slot_count h = Z.of_nat count /\ is_uint 32 (Z.of_nat count);
  hw_pad : length (uh_pad h) = 4%nat;
  hw_reserved : length (uh_reserved h) = 8%nat
}.

Definition slot_u64 (s : PointSlot) : Prop :=
  is_uint 64 (ps_value_bits s) /\ is_uint 64 (ps_raw_bits s) /\ is_uint 64 (ps_timestamp s).

(** The reading of a slot that a restart preserves: both values finite. *)
Definition restorable (s : PointSlot) : bool :=
  f64_is_finite (ps_value_bits s) && f64_is_finite (ps_raw_bits s).

Lemma snapshot_slot_rest s : slot_rest s ->
  snapshot_slot s = slot_snapshot_bytes (ps_value_bits s) (ps_raw_bits s) (ps_timestamp s).
Proof using.
  intros [_ He]. unfold snapshot_slot, PointSlot_try_load_consistent. cbv zeta. rewrite He.
  cbn [Z.eqb negb]. by rewrite Z.eqb_refl.
Qed.

Lemma slot_snapshot_length v r t : length (slot_snapshot_bytes v r t) = point_slot_size.
Proof using. unfold slot_snapshot_bytes. by rewrite !length_app, !length_to_le_bytes. Qed.

Lemma slot_snapshot_fields v r t : is_uint 64 v -> is_uint 64 r -> is_uint 64 t ->
  read_u64_ne (slot_snapshot_bytes v r t) 0 = Ok v /\ read_u64_ne (slot_snapshot_bytes v r t) 8 = Ok t /\
  read_u64_ne (slot_snapshot_bytes v r t) 16 = Ok r.
Proof using.
  intros Hv Hr Ht. unfold read_u64_ne, read_ne_bytes. rewrite slot_snapshot_length.
  unfold point_slot_size. cbn [Nat.leb Nat.add result_bind].
  split_and!; f_equal; unfold slot_snapshot_bytes; read_field.
Qed.

Lemma slice_chunk k (ls : list (list Z)) : forall i x,
  Forall (fun l => length l = k) ls -> ls !! i = Some x -> slice (i * k) k (concat ls) = x.
Proof using.
  induction ls as [|l ls IH]; intros i x Hall Hx; [done |].
  rewrite Forall_cons in Hall. destruct Hall as [Hl Hall]. cbn [concat].
  destruct i as [|i]; cbn in Hx.
  - injection Hx as ->. cbn [Nat.mul]. by rewrite slice_hit.
  - rewrite slice_skip by lia. replace (S i * k - length l)%nat with (i * k)%nat by lia. by apply IH.
Qed.

Lemma length_chunks k (ls : list (list Z)) :
  Forall (fun l => length l = k) ls -> length (concat ls) = (length ls * k)%nat.
Proof using. induction 1 as [|l ls Hl _ IH]; cbn; [done |]. rewrite length_app. lia. Qed.

Lemma header_bytes_fields h count rest : header_wf h count ->
  length (UnifiedHeader_bytes h) = slot_offset /\
  exists hash, read_snapshot_header (UnifiedHeader_bytes h ++ rest) =
    Ok (UNIFIED_MAGIC, UNIFIED_VERSION, Z.of_nat count, hash).
Proof using.
  intros [Hm Hv [Hc Hc'] Hp Hr].
  assert (Hlen : length (UnifiedHeader_bytes h) = slot_offset).
  { unfold UnifiedHeader_bytes. rewrite !length_app, !length_to_le_bytes, Hp, Hr. reflexivity. }
  split; [done |]. eexists. unfold read_snapshot_header, read_u64_ne, read_u32_ne, read_ne_bytes.
  rewrite length_app, Hlen. unfold slot_offset. cbn [Nat.leb Nat.add result_bind].
  assert (Hf : forall i n, (i + n <= 64)%nat ->
     slice i n (UnifiedHeader_bytes h ++ rest) = slice i n (UnifiedHeader_bytes h)).
  { intros i n Hin. unfold slice. rewrite drop_app_le, take_app_le; try done; rewrite ?length_drop, Hlen; unfold slot_offset; lia. }
  rewrite !Hf by lia. do 3 f_equal; [f_equal; [f_equal |] |].
  - unfold UnifiedHeader_bytes. read_field. rewrite Hm. reflexivity.
  - unfold UnifiedHeader_bytes. read_field. rewrite Hv. reflexivity.
  - unfold UnifiedHeader_bytes. read_field. rewrite Hc. by apply wrap_small.
Qed.

Lemma finite_not_nan b : f64_is_finite b = true -> f64_is_nan b = false.
Proof using. unfold f64_is_finite, f64_is_nan. intros ->%negb_true_iff. done. Qed.

Definition slot_holds (g : Segment) (i : nat) (s : PointSlot) : Prop :=
  exists s', sg_slots g !! i = Some s' /\ slot_reading s' = slot_reading s.

(** The restore loop copies exactly the restorable slots of the snapshot. *)
Lemma restore_loop_spec cps (srcs : list PointSlot) snapshot :
  Forall slot_u64 srcs ->
  (forall i s, srcs !! i = Some s -> slice (slot_offset + i * point_slot_size) point_slot_size snapshot =
     slot_snapshot_bytes (ps_value_bits s) (ps_raw_bits s) (ps_timestamp s)) ->
  forall n i g (w : UnifiedWriter C),
  unified_wf cps g w -> signaler_ok (uw_point_watch w) ->
  (i + n <= length srcs)%nat -> (i + n <= sw_slot_count (uw_inner w))%nat ->
  exists g' w', restore_loop snapshot n i g w = Ret (Ok (g', w')) /\ unified_wf cps g' w' /\
    sw_slot_count (uw_inner w') = sw_slot_count (uw_inner w) /\
    (forall j s, srcs !! j = Some s -> (i <= j < i + n)%nat -> restorable s = true -> slot_holds g' j s) /\
    (forall j, (j < i)%nat \/ (i + n <= j)%nat \/ (exists s, srcs !! j = Some s /\ restorable s = false) ->
       sg_slots g' !! j = sg_slots g !! j) /\
    (forall j, j ∈ dirty_set (uw_inner w') <->
       j ∈ dirty_set (uw_inner w) \/
       ((i <= j < i + n)%nat /\ exists s, srcs !! j = Some s /\ restorable s = true)).
Proof using.
  clear layout_hash. intros Hu64 Hslice n. induction n as [|n IH]; intros i g w Huw Hsig Hlen Hcnt.
  { exists g, w. split_and!; try done; intros; try lia. intuition lia. }
  destruct (lookup_lt_is_Some_2 srcs i) as [s Hs]; [lia |].
  pose proof (proj1 (Forall_lookup _ _) Hu64 _ _ Hs) as (Hv & Hr & Ht).
  cbn [restore_loop]. rewrite (Hslice i s Hs).
  destruct (slot_snapshot_fields _ _ _ Hv Hr Ht) as (-> & -> & ->).
  destruct (restorable s) eqn:Erest.
  - pose proof Erest as Hfin. unfold restorable in Hfin. apply andb_prop in Hfin as [Hf1 Hf2].
    rewrite (finite_not_nan _ Hf1), Hf1, Hf2. cbn [andb orb negb].
    destruct (unified_set_direct_spec cps g w i (ps_value_bits s) (ps_raw_bits s) (ps_timestamp s) Huw Hsig)
      as (g1 & w1 & -> & Huw1 & Hsig1 & _ & Hc1 & _ & _ & _ & Hread & Hother & Hd1); [lia |].
    cbn [outcome_bind]. destruct (IH (S i) g1 w1 Huw1 Hsig1) as (g2 & w2 & -> & Huw2 & Hc2 & Hin & Hout & Hd2); [lia.. |].
    exists g2, w2. split_and!; try done; [congruence | | |].
    + intros j s' Hj Hrange Hre. destruct (decide (j = i)) as [-> | Hne]; [|by apply Hin; [| lia |]].
      rewrite Hs in Hj. injection Hj as <-. unfold slot_holds. rewrite Hout by (left; lia).
      destruct (read_slot_quiet g1 (uw_inner w1) i) as (s1 & Hs1 & Hrd & _); [apply Huw1 | lia |].
      rewrite Hc1, Hread in Hrd. injection Hrd as E1 E2 E3. exists s1. split; [done |].
      unfold slot_reading. by rewrite E1, E2, E3.
    + intros j Hj. rewrite Hout, Hother; try done; [|intuition lia].
      intros ->. destruct Hj as [? | [? | (s' & Hs' & Hre)]]; [lia.. |]. rewrite Hs in Hs'. congruence.
    + intros j. rewrite Hd2, Hd1, elem_of_union, elem_of_singleton. split.
      * intros [[-> | ?] | [? ?]]; [right; split; [lia | by exists s] | tauto | right; split; [lia | done]].
      * intros [? | [? ?]]; [tauto |]. destruct (decide (j = i)); [tauto | right; split; [lia | done]].
  - assert (Hskip : forall A (x y : A), (if f64_is_nan (ps_value_bits s) && f64_is_nan (ps_raw_bits s) then x
        else if negb (f64_is_finite (ps_value_bits s)) || negb (f64_is_finite (ps_raw_bits s)) then x else y) = x).
    { intros A x y. destruct (_ && _); [done |]. rewrite <- negb_andb. unfold restorable in Erest. by rewrite Erest. }
    rewrite Hskip. destruct (IH (S i) g w Huw Hsig) as (g2 & w2 & -> & Huw2 & Hc2 & Hin & Hout & Hd2); [lia.. |].
    exists g2, w2. split_and!; try done.
    + intros j s' Hj Hrange Hre. destruct (decide (j = i)) as [-> | Hne]; [congruence | by apply Hin; [| lia |]].
    + intros j Hj. apply Hout. destruct Hj as [? | [? | ?]]; [left; lia | right; left; lia | by do 2 right].
    + intros j. rewrite Hd2. split.
      * intros [? | [? ?]]; [tauto | right; split; [lia | done]].
      * intros [? | [? (s' & Hs' & Hre)]]; [tauto |]. destruct (decide (j = i)) as [-> |]; [congruence |].
        right. split; [lia |]. by exists s'.
Qed.

(** What a restarted writer must show for slot [i] of the old segment [g]: the
    old reading when it was finite, else the unwritten sentinel. *)
Definition restored_reading (s : PointSlot) : SlotRead :=
  if restorable s then mkSlotRead (ps_value_bits s) (ps_raw_bits s) (ps_timestamp s)
  else mkSlotRead SLOT_UNWRITTEN_BITS SLOT_UNWRITTEN_BITS 0.

(** The bytes a save produces: the header fields the restore checks, then one
    32-byte image per slot. *)
Lemma saved_snapshot_spec cps g (w : UnifiedWriter C) :
  let count := sw_slot_count (uw_inner w) in
  unified_wf cps g w -> header_wf (sg_header g) count ->
  (slot_offset + count * point_slot_size <= sg_len g)%nat ->
  exists bytes hash, SlotWriter_save_snapshot g = Ok bytes /\
    length bytes = (slot_offset + count * point_slot_size)%nat /\
    read_snapshot_header bytes = Ok (UNIFIED_MAGIC, UNIFIED_VERSION, Z.of_nat count, hash) /\
    forall i s, take count (sg_slots g) !! i = Some s ->
      slice (slot_offset + i * point_slot_size) point_slot_size bytes =
      slot_snapshot_bytes (ps_value_bits s) (ps_raw_bits s) (ps_timestamp s).
Proof using.
  intros count [[Hcov Hrest _ _] Hal] Hhdr Hlen. set (srcs := take count (sg_slots g)).
  assert (Hsl : length srcs = count) by (subst srcs; rewrite length_take; lia).
  assert (Hsr : forall i s, srcs !! i = Some s -> slot_rest s).
  { intros i s Hi. apply lookup_take_Some in Hi as [Hi _]. by apply (proj1 (Forall_lookup _ _) Hrest i). }
  assert (Hchunks : Forall (fun l => length l = point_slot_size) (map snapshot_slot srcs)).
  { apply Forall_forall. intros l (s & -> & Hin)%list_elem_of_fmap.
    apply list_elem_of_lookup in Hin as [i Hi].
    rewrite snapshot_slot_rest by (by eapply Hsr). apply slot_snapshot_length. }
  destruct (header_bytes_fields (sg_header g) count (concat (map snapshot_slot srcs)) Hhdr) as (Hhl & hash & Hfields).
  exists (UnifiedHeader_bytes (sg_header g) ++ concat (map snapshot_slot srcs)), hash. split_and!.
  - unfold SlotWriter_save_snapshot, save_snapshot_impl. rewrite (proj1 (hw_count _ _ Hhdr)), Nat2Z.id.
    by rewrite (proj2 (Nat.ltb_ge _ _)) by lia.
  - rewrite length_app, (length_chunks point_slot_size), length_map, Hsl, Hhl by done. done.
  - done.
  - intros i s Hi. rewrite slice_skip, Hhl by lia.
    replace (slot_offset + i * point_slot_size - slot_offset)%nat with (i * point_slot_size)%nat by lia.
    rewrite <- snapshot_slot_rest by (by eapply Hsr).
    apply slice_chunk; [done |]. by rewrite list_lookup_fmap, Hi.
Qed.

(** C7: snapshot round trip: saving a quiescent segment and restoring it under the
    same configuration succeeds; every slot whose value and raw value are finite
    reads back bit-for-bit with its timestamp, every other slot reads as unwritten,
    and exactly the restored slots are dirty. *)
Theorem snapshot_roundtrip cfg cps e now g (w : UnifiedWriter C) :
  counts_wf cps -> unified_wf cps g w -> header_wf (sg_header g) (sw_slot_count (uw_inner w)) ->
  Forall slot_u64 (sg_slots g) ->
  (slot_offset + sw_slot_count (uw_inner w) * point_slot_size <= sg_len g)%nat ->
  (sw_slot_count (uw_inner w) <= Z.to_nat (default DEFAULT_MAX_SLOTS (SharedConfig_max_slots cfg)))%nat ->
  exists bytes g' (w' : UnifiedWriter C),
    SlotWriter_save_snapshot g = Ok bytes /\
    UnifiedWriter_restore_from_snapshot layout_hash cfg bytes cps e now = Ret (Ok (g', w')) /\
    unified_wf cps g' w' /\ uw_channel_layouts w' = uw_channel_layouts w /\
    forall i s, (i < sw_slot_count (uw_inner w))%nat -> sg_slots g !! i = Some s ->
      read_slot g' (sw_slot_count (uw_inner w')) i = Ret (Some (restored_reading s)) /\
      (i ∈ dirty_set (uw_inner w') <-> restorable s = true).
Proof using.
  intros Hwf Huw Hhdr Hu64 Hlen Hmax. pose proof Huw as [[Hcov _ _ _] Hal].
  destruct (saved_snapshot_spec cps g w Huw Hhdr Hlen) as (bytes & hash & Hsave & Hbl & Hfields & Hslice).
  set (count := sw_slot_count (uw_inner w)) in *.
  destruct (create_spec cfg cps e (uw_channel_layouts w) count Hal Hmax) as
    (g0 & w0 & Hcr & Huw0 & Hpw0 & Hd0 & Hls0 & Hc0 & _ & _ & _ & Hinit).
  exists bytes. unfold UnifiedWriter_restore_from_snapshot. rewrite Hcr. cbn [outcome_bind].
  rewrite (proj2 (Nat.ltb_ge _ _)), Hfields, !Z.eqb_refl by (rewrite Hbl; lia). cbn [negb].
  rewrite Nat2Z.id, Hc0, Nat.min_id. destruct (Nat.eqb_spec count 0) as [Hz | Hnz].
  { exists g0, w0. split_and!; try done. intros i s Hi. lia. }
  rewrite (proj2 (Nat.ltb_ge _ _)) by (rewrite Hbl; lia).
  destruct (restore_loop_spec cps (take count (sg_slots g)) bytes (Forall_take _ _ _ Hu64) Hslice count 0 g0 w0)
    as (g2 & w2 & Hrun & Huw2 & Hc2 & Hin & Hout & Hd2); try done; [by rewrite Hpw0 | rewrite length_take; lia | lia |].
  rewrite Hrun. eexists _, _. split; [done |]. split; [reflexivity |]. split; [|split].
  - pose proof Huw2 as [[? ? ? ?] ?]. split; [split |]; done.
  - pose proof (uwf_layout _ _ _ Huw2) as Hal2. rewrite Hal in Hal2. by injection Hal2 as <-.
  - intros i s Hi Hs. assert (Hsi : take count (sg_slots g) !! i = Some s) by (by rewrite lookup_take_lt).
    split.
    + rewrite Hc2, Hc0. change (read_slot g2 count i = Ret (Some (restored_reading s))).
      destruct (read_slot_quiet g2 (uw_inner w2) i) as (s2 & Hs2 & Hrd & _); [apply Huw2 | lia |].
      rewrite Hc2, Hc0 in Hrd. rewrite Hrd. unfold restored_reading. destruct (restorable s) eqn:Er.
      * destruct (Hin i s Hsi ltac:(lia) Er) as (s' & Hs' & Heq). rewrite Hs2 in Hs'. injection Hs' as <-.
        unfold slot_reading in Heq. by injection Heq as -> -> ->.
      * assert (Hkeep : sg_slots g2 !! i = sg_slots g0 !! i) by (apply Hout; do 2 right; by exists s).
        rewrite Hs2, Hinit in Hkeep by lia. by injection Hkeep as ->.
    + rewrite Hd2, Hd0. split.
      * intros [? | [_ (s' & Hs' & Hr)]]; [set_solver | congruence].
      * intros Hr. right. split; [lia |]. by exists s.
Qed.

(** The event [set] owes to PointWatch for a point. *)
Definition point_event (s : PointWatchSignaler C) (ch : Z) (pt : PointType) (p : Z) (slot : nat) (v raw ts : Z)
    : PointWatchEvent :=
  PointWatchSignaler_event s (mkSlotOrigin ch pt p) slot v raw ts.

(** PointWatch attribution: when a signaler built over the writer's own layout
    is attached, [set] of a configured point queues (if the slot is subscribed and
    the queue has room) exactly one event, which names that channel, point type and
    point and carries the written value; a full queue counts one drop; an
    unsubscribed slot produces nothing. *)
Theorem set_event_attribution cps g (w : UnifiedWriter C) s X entries ch pt p v raw ts slot :
  config_ok cps -> unified_wf cps g w -> uw_point_watch w = Some s -> watches (sig_subs s) X ->
  entries ≡ₚ map_to_list (csi_index (ChannelToSlotIndex_from_layouts (uw_channel_layouts w))) ->
  sig_reverse_index s = ReverseSlotIndex_from_forward entries (sw_slot_count (uw_inner w)) ->
  is_uint 32 ch -> is_uint 32 p -> UnifiedWriter_lookup w ch (PointType_to_u8 pt) p = Some slot ->
  exists g' w' s', UnifiedWriter_set g w ch (PointType_to_u8 pt) p v raw ts = Ret (true, g', w') /\
    uw_point_watch w' = Some s' /\
    if bool_decide (slot ∈ X) then
      (queued (sig_tx s') = queued (sig_tx s) ++ [point_event s ch pt p slot v raw ts] /\
       sig_dropped_count s' = sig_dropped_count s) \/
      (sig_tx s' = sig_tx s /\ sig_dropped_count s' = wrapping_add 64 (sig_dropped_count s) 1)
    else s' = s.
Proof using.
  clear layout_hash. intros Hok [Hst Hal] Hpw Hw Hperm Hrev Hch Hp Hlk. rewrite unified_set_unfold.
  unfold UnifiedWriter_lookup in Hlk. rewrite Hlk. unfold UnifiedWriter_set_direct, SlotWriter_set_direct.
  assert (Hlt : (slot < sw_slot_count (uw_inner w))%nat).
  { eapply (layout_aliases_none cps _ _ (cok_wf _ Hok) Hal ch (PointType_to_u8 pt) p ch (PointType_to_u8 pt) p slot);
      done || apply to_u8_range. }
  destruct (slot_at_ok g (uw_inner w) slot Hst Hlt) as (sl & -> & _). cbn [outcome_bind].
  rewrite Hpw. cbn [emit_opt]. destruct (emit_spec s X slot v raw ts Hw) as (s' & -> & _ & _ & _ & Hemit).
  exists (store_slot g slot (PointSlot_set sl v raw ts) ts), (mkUnifiedWriter (SlotWriter_mark_dirty_slot (uw_inner w) slot)
    (uw_channel_layouts w) (Some s')), s'. split; [done |]. split; [done |].
  pose proof (proj2 (reverse_index_spec cps _ _ entries slot ch pt p Hok Hal Hperm Hch Hp) Hlk) as Hget.
  rewrite Hrev, Hget in Hemit. done.
Qed.
End UnifiedClaims.

(** * Witnesses *)
Section Samples.
Definition sample_cfg : SharedConfig := SharedConfig_with_max_slots 16.
Definition sample_env : CreateEnv := mkCreateEnv 4242 0x7F0012345670 1700000000123456789.
Definition sample_hash (cps : ChannelPointCounts) : Z :=
  wrap 64 (foldr (fun p acc => p.1 + 31 * (foldr Z.add 0 p.2 + 31 * acc)) 0 cps).
Definition created_segment (r : outcome (result (Segment * UnifiedWriter bounded_queue) ShmError)) : option Segment :=
  match r with Ret (Ok (g, _)) => Some g | _ => None end.
Definition sample_segment : Segment :=
  Eval vm_compute in default (mkSegment 0 (mkUnifiedHeader 0 0 0 0 [] 0 0 0 0 []) [])
    (created_segment (UnifiedWriter_create sample_hash sample_cfg sample_counts sample_env)).
Definition sample_layouts : list ChannelLayout :=
  Eval vm_compute in match allocate_layouts sample_counts with Ret (ls, _) => ls | Panic => [] end.
Definition sample_signaler : PointWatchSignaler bounded_queue :=
  mkPointWatchSignaler (mkSubscriptionBitmap (<[0%nat := 16]> (replicate WATCH_WORDS_COUNT 0)))
    (ReverseSlotIndex_from_forward (map_to_list (csi_index (ChannelToSlotIndex_from_layouts sample_layouts))) 9)
    (mkQueue 8 []) 0 77.
Definition sample_writer : UnifiedWriter bounded_queue :=
  mkUnifiedWriter (SlotWriter_from_mmap 16 9) sample_layouts None.
Definition sample_watched_writer : UnifiedWriter bounded_queue :=
  UnifiedWriter_set_point_watcher sample_writer (Some sample_signaler).
Definition sample_reader : UnifiedReader :=
  mkUnifiedReader (mkSlotReader 16 9) sample_layouts [1; 4].

Lemma sample_store_wf : store_wf sample_segment (SlotWriter_from_mmap 16 9).
Proof.
  split; cbn.
  - lia.
  - repeat constructor; unfold is_uint; cbn; lia.
  - reflexivity.
  - repeat constructor; unfold is_uint; lia.
Qed.

Lemma sample_unified_wf : unified_wf sample_counts sample_segment sample_writer.
Proof. split; [apply sample_store_wf | vm_compute; reflexivity]. Qed.

Lemma write_batch_then_drain_witness : exists g' w',
  io_write_all (sample_segment, SlotWriter_from_mmap 16 9) [mkWrite 3 1 2 5; mkWrite 99 0 0 0; mkWrite 3 7 8 6] = Ret (g', w') /\
  SlotWriter_read_slot g' w' 3 = Ret (Some (mkSlotRead 7 8 6)) /\
  let '(w'', l) := SlotWriter_take_dirty_slots w' in forall i, i ∈ l -> i = 3%nat.
Proof.
  destruct (write_batch_then_drain sample_segment (SlotWriter_from_mmap 16 9)
    [mkWrite 3 1 2 5; mkWrite 99 0 0 0; mkWrite 3 7 8 6]) as (g' & w' & Hrun & Hread & Hdrain).
  - apply sample_store_wf.
  - vm_compute. reflexivity.
  - exists g', w'. split; [exact Hrun |]. split; [apply (Hread 3%nat); cbn; lia |].
    destruct (SlotWriter_take_dirty_slots w') as [w'' l]. destruct Hdrain as (_ & Hl & _).
    intros i Hi. apply Hl in Hi as [Hlt [x Hx]]. cbn in Hlt, Hx.
    repeat (case_decide; [congruence || (cbn in *; lia) |]). discriminate.
Defined.

Lemma set_visible_to_readers_witness :
  set_contract sample_segment sample_writer sample_reader 1 0 2 7 8 9 /\
  UnifiedWriter_lookup sample_writer 1 0 2 = Some 2%nat /\
  set_contract sample_segment sample_writer sample_reader 1 0 99 7 8 9 /\
  UnifiedWriter_lookup sample_writer 1 0 99 = None.
Proof.
  split_and!; [| vm_compute; reflexivity | | vm_compute; reflexivity].
  all: apply (set_visible_to_readers sample_hash sample_counts sample_segment sample_writer sample_reader);
    [apply sample_counts_wf | apply sample_unified_wf | exact I | vm_compute; reflexivity
    | unfold is_uint; lia ..].
Defined.

Lemma action_writer_confined_witness : exists ok g' a',
  ActionWriter_set_action sample_segment (mkActionWriter sample_writer) 1 2 0 7 9 = Ret (ok, g', a') /\
  UnifiedReader_get_channel g' sample_reader 1 0 2 = UnifiedReader_get_channel sample_segment sample_reader 1 0 2.
Proof.
  destruct (action_writer_confined sample_hash sample_counts sample_segment (mkActionWriter sample_writer)
    sample_reader 1 2 0 7 9) as (ok & g' & a' & H1 & _ & H2);
    [apply sample_counts_wf | apply sample_unified_wf | exact I | vm_compute; reflexivity
    | unfold is_uint; lia .. |].
  exists ok, g', a'. split; [assumption |]. apply H2; unfold is_uint; lia || reflexivity.
Defined.

Lemma create_then_open_witness : exists g (w : UnifiedWriter bounded_queue) r (a : ActionWriter bounded_queue),
  UnifiedWriter_create sample_hash sample_cfg sample_counts sample_env = Ret (Ok (g, w)) /\
  UnifiedReader_open sample_hash g sample_counts = Ret (Ok r) /\
  ActionWriter_open sample_hash g sample_counts = Ret (Ok a).
Proof.
  destruct (create_then_open (C:=bounded_queue) sample_hash sample_cfg sample_counts sample_env sample_layouts 9)
    as (g & w & r & a & H1 & _ & _ & _ & H2 & _ & H3 & _);
    [apply sample_counts_wf | vm_compute; reflexivity | vm_compute; lia |].
  exists g, w, r, a. split_and!; assumption.
Defined.

Lemma snapshot_roundtrip_witness : exists bytes g' (w' : UnifiedWriter bounded_queue),
  SlotWriter_save_snapshot sample_segment = Ok bytes /\
  UnifiedWriter_restore_from_snapshot sample_hash sample_cfg bytes sample_counts sample_env 5 = Ret (Ok (g', w')) /\
  unified_wf sample_counts g' w'.
Proof.
  destruct (snapshot_roundtrip sample_hash sample_cfg sample_counts sample_env 5 sample_segment sample_writer)
    as (bytes & g' & w' & H1 & H2 & H3 & _).
  - apply sample_counts_wf.
  - apply sample_unified_wf.
  - split; try reflexivity. split; [reflexivity | unfold is_uint; cbn; lia].
  - repeat constructor; unfold is_uint; cbn; lia.
  - vm_compute. lia.
  - vm_compute. lia.
  - exists bytes, g', w'. split_and!; assumption.
Defined.

Lemma sample_watches : watches (sig_subs sample_signaler) {[4%nat]}.
Proof.
  destruct (set_watched_spec SubscriptionBitmap_create ∅ 4) as (b & Hb & Hw).
  - apply create_watches.
  - unfold watch_capacity, WATCH_WORDS_COUNT. lia.
  - assert (b = sig_subs sample_signaler) as <-.
    { vm_compute in Hb. injection Hb as <-. reflexivity. }
    by rewrite (right_id_L ∅ (∪)) in Hw.
Qed.

Lemma set_event_attribution_witness : exists g' w' s',
  UnifiedWriter_set sample_segment sample_watched_writer 1 2 0 7 8 9 = Ret (true, g', w') /\
  uw_point_watch w' = Some s' /\
  (queued (sig_tx s') = [point_event sample_signaler 1 Control 0 4 7 8 9] \/ sig_dropped_count s' = 1).
Proof.
  destruct (set_event_attribution sample_counts sample_segment sample_watched_writer sample_signaler {[4%nat]}
    (map_to_list (csi_index (ChannelToSlotIndex_from_layouts sample_layouts))) 1 Control 0 7 8 9 4)
    as (g' & w' & s' & H1 & H2 & H3).
  - split; [apply sample_counts_wf | repeat constructor; cbn; lia].
  - split; [apply sample_store_wf | vm_compute; reflexivity].
  - reflexivity.
  - apply sample_watches.
  - reflexivity.
  - reflexivity.
  - unfold is_uint; lia.
  - unfold is_uint; lia.
  - vm_compute. reflexivity.
  - exists g', w', s'. split; [exact H1 |]. split; [exact H2 |].
    rewrite bool_decide_eq_true_2 in H3 by set_solver. destruct H3 as [[H3 _] | [_ H3]]; [left | right]; exact H3.
Defined.

(** One telemetry point on channel 2, then a configuration that adds channel 1. *)
Definition old_counts : ChannelPointCounts := [(2, [1; 0; 0; 0])].
Definition new_counts : ChannelPointCounts := [(1, [1; 0; 0; 0]); (2, [1; 0; 0; 0])].

(** Run comsrv once with [old_counts], writing [v] to channel 2, and save; restart
    with [new_counts] from that snapshot and read both channels. *)
Definition restart_with_new_config (v : Z) : outcome (option (Z * Z) * option (Z * Z)) :=
  let! c := UnifiedWriter_create (C:=bounded_queue) sample_hash sample_cfg old_counts sample_env in
  match c with
  | Err _ => Panic
  | Ok (g, w) =>
      let! (_, g, w) := UnifiedWriter_set g w 2 0 0 v v 1000 in
      match SlotWriter_save_snapshot g with
      | Err _ => Panic
      | Ok bytes =>
          let! c := UnifiedWriter_restore_from_snapshot (C:=bounded_queue) sample_hash sample_cfg bytes new_counts sample_env 2000 in
          match c with
          | Err _ => Panic
          | Ok (g, w) =>
              let! r := UnifiedReader_open sample_hash g new_counts in
              match r with
              | Err _ => Panic
              | Ok r =>
                  let! a := UnifiedReader_get_channel g r 1 0 0 in
                  let! b := UnifiedReader_get_channel g r 2 0 0 in
                  Ret (a, b)
              end
          end
      end
  end.

(** A snapshot taken under another layout is restored into the wrong points:
    after a channel with a smaller id is added, the restart shows channel 2's saved
    value as channel 1's reading, and channel 2 as unwritten, although the two
    configurations have different layout hashes. *)
Theorem restore_ignores_layout_hash :
  sample_hash old_counts <> sample_hash new_counts /\
  restart_with_new_config 0x4045400000000000 =
    Ret (Some (0x4045400000000000, 1000), Some (SLOT_UNWRITTEN_BITS, 0)).
Proof. split; [vm_compute; discriminate | vm_compute; reflexivity]. Qed.
End Samples.
