(* ===== verification/PoolIndex.v ===== *)
(** The dynamic unified pool: [libs/voltage-rtdb-shm/src/channel_index.rs] and
    [instance_index.rs] over one slot allocator.

    The indexes publish a new map on every change ([ArcSwap]); an operation is a
    function from the current maps and allocator to the new ones.  The allocator
    is used through the class [SlotAllocator]; [SlotBitmap] implements it. *)
From stdpp Require Import base numbers list gmap.
From Stdlib Require Import ZArith Lia.
From S2P Require Import Prelude BitWords Bitmap PointTypes Layout.
Set Warnings "-clear-no-such-hyp".

(** * The allocator interface *)

(** What an allocator of contiguous blocks promises: an allocation returns a
    block of free slots and takes exactly those; it fails only when no such block
    exists; freeing a block that is entirely taken releases exactly its slots. *)
Class SlotAllocator (A : Type) := {
  al_ok : A -> Prop;
  al_total : A -> nat;
  al_taken : A -> nat -> bool;
  al_alloc : A -> nat -> outcome (A * option SlotAllocation);
  al_free : A -> nat -> nat -> outcome A;
  al_alloc_spec : forall s count, al_ok s ->
    exists s' r, al_alloc s count = Ret (s', r) /\ al_ok s' /\ al_total s' = al_total s /\
      match r with
      | Some a => alloc_count a = count /\ 0 < count /\
          free_run (al_taken s) (al_total s) (alloc_base_slot a) count /\
          forall j, al_taken s' j = owns a j || al_taken s j
      | None => s' = s /\ (count = 0 \/ forall b, ~ free_run (al_taken s) (al_total s) b count)
      end;
  al_free_spec : forall s b count, al_ok s -> b + count <= al_total s ->
    (forall j, b <= j < b + count -> al_taken s j = true) ->
    exists s', al_free s b count = Ret s' /\ al_ok s' /\ al_total s' = al_total s /\
      forall j, al_taken s' j = negb (in_block b count j) && al_taken s j
}.

#[export] Instance slot_bitmap_allocator : SlotAllocator SlotBitmap.
Proof.
  refine {|
    al_ok := SlotBitmap_wf; al_total := sb_total_slots; al_taken := SlotBitmap_is_allocated;
    al_alloc := SlotBitmap_alloc_contiguous; al_free := SlotBitmap_free
  |}.
  - intros s count Hwf. destruct (alloc_contiguous_correct s count Hwf) as (s' & r & H1 & H2 & H3 & H4).
    exists s', r. split_and!; try done. destruct r as [a |]; [|done].
    destruct H4 as (? & ? & Hc & _ & Hj). split_and!; try done. by apply chosen_block_free.
  - intros s b count Hwf Hle Hall.
    destruct (free_block_spec s b count Hwf Hle Hall) as (s' & ? & ? & ? & _ & ?). by exists s'.
Defined.

(** * Data *)

Record DynamicChannelLayout := mkDynamicChannelLayout {
  dcl_base_slot : nat;
  dcl_type_counts : list Z;
  dcl_total_points : Z;
  dcl_allocation : SlotAllocation
}.

Record SharedSlotRef := mkSharedSlotRef {
  ssr_slot_id : nat;
  ssr_point_type : PointType;
  ssr_point_id : Z;
  ssr_source_channel_id : Z;
  ssr_source_point_type : PointType;
  ssr_source_point_id : Z
}.

Record DynamicInstanceLayout := mkDynamicInstanceLayout {
  dil_instance_id : Z;
  dil_own_base : nat;
  dil_own_counts : list Z;
  dil_own_total : Z;
  dil_own_allocation : option SlotAllocation;
  dil_shared_slots : list SharedSlotRef;
  dil_shared_lookup : gmap (PointType * Z) nat
}.

Abbreviation ChannelIndex := (gmap Z DynamicChannelLayout).
Abbreviation InstanceIndex := (gmap Z DynamicInstanceLayout).

Inductive IndexError :=
| ZeroPoints
| AlreadyExists (id : Z)
| AllocationFailed (total id : Z)
| NotFound (id : Z)
| BitmapRequired.

(** * [DynamicChannelLayout] *)

Definition DynamicChannelLayout_new (a : SlotAllocation) (type_counts : list Z) : DynamicChannelLayout :=
  mkDynamicChannelLayout (alloc_base_slot a) type_counts (sum_u32 type_counts) a.

(** Point ids are 1-based; the offset is the [u32] sum of the preceding counts. *)
Definition DynamicChannelLayout_slot (l : DynamicChannelLayout) (pt : PointType) (point_id : Z) : option nat :=
  let type_idx := Z.to_nat (PointType_to_u8 pt) in
  if ((point_id =? 0) || (nth type_idx (dcl_type_counts l) 0 <? point_id))%Z then None
  else
    let offset := sum_u32 (take type_idx (dcl_type_counts l)) in
    Some (dcl_base_slot l + Z.to_nat offset + Z.to_nat (point_id - 1)).

Definition DynamicChannelLayout_is_valid (l : DynamicChannelLayout) : bool := (0 <? dcl_total_points l)%Z.
Definition DynamicChannelLayout_count (l : DynamicChannelLayout) (pt : PointType) : Z :=
  nth (Z.to_nat (PointType_to_u8 pt)) (dcl_type_counts l) 0%Z.

(** * [DynamicInstanceLayout] *)

Definition DynamicInstanceLayout_new (instance_id : Z) (allocation : option SlotAllocation) (own_counts : list Z)
    : DynamicInstanceLayout :=
  mkDynamicInstanceLayout instance_id
    (match allocation with Some a => alloc_base_slot a | None => 0 end)
    own_counts (sum_u32 own_counts) allocation [] ∅.

(** Own points are [M] (stored as Telemetry) and [A]. *)
Definition own_type_idx (pt : PointType) : option nat :=
  match pt with
  | Telemetry => Some 0
  | Adjustment => Some 1
  | _ => None
  end.

Definition DynamicInstanceLayout_own_slot (l : DynamicInstanceLayout) (pt : PointType) (point_id : Z) : option nat :=
  match own_type_idx pt with
  | None => None
  | Some type_idx =>
      if ((point_id =? 0) || (nth type_idx (dil_own_counts l) 0 <? point_id))%Z then None
      else
        let offset := sum_u32 (take type_idx (dil_own_counts l)) in
        Some (dil_own_base l + Z.to_nat offset + Z.to_nat (point_id - 1))
  end.

Definition DynamicInstanceLayout_slot (l : DynamicInstanceLayout) (pt : PointType) (point_id : Z) : option nat :=
  match dil_shared_lookup l !! (pt, point_id) with
  | Some slot_id => Some slot_id
  | None => DynamicInstanceLayout_own_slot l pt point_id
  end.

Definition set_shared (l : DynamicInstanceLayout) (slots : list SharedSlotRef) (lookup : gmap (PointType * Z) nat)
    : DynamicInstanceLayout :=
  mkDynamicInstanceLayout (dil_instance_id l) (dil_own_base l) (dil_own_counts l) (dil_own_total l)
    (dil_own_allocation l) slots lookup.

(** The first route of a point wins: an occupied key leaves everything unchanged. *)
Definition DynamicInstanceLayout_add_shared_slot (l : DynamicInstanceLayout) (r : SharedSlotRef)
    : DynamicInstanceLayout :=
  let key := (ssr_point_type r, ssr_point_id r) in
  match dil_shared_lookup l !! key with
  | Some _ => l
  | None => set_shared l (dil_shared_slots l ++ [r]) (<[key := ssr_slot_id r]> (dil_shared_lookup l))
  end.

Definition ref_matches (pt : PointType) (point_id : Z) (s : SharedSlotRef) : bool :=
  bool_decide (ssr_point_type s = pt) && (ssr_point_id s =? point_id)%Z.

(** [iter().position(..)] then [Vec::remove]. *)
Fixpoint remove_first (pt : PointType) (point_id : Z) (slots : list SharedSlotRef)
    : option (SharedSlotRef * list SharedSlotRef) :=
  match slots with
  | [] => None
  | s :: slots =>
      if ref_matches pt point_id s then Some (s, slots)
      else match remove_first pt point_id slots with
           | Some (r, rest) => Some (r, s :: rest)
           | None => None
           end
  end.

Definition DynamicInstanceLayout_remove_shared_slot (l : DynamicInstanceLayout) (pt : PointType) (point_id : Z)
    : DynamicInstanceLayout * option SharedSlotRef :=
  let lookup := delete (pt, point_id) (dil_shared_lookup l) in
  match remove_first pt point_id (dil_shared_slots l) with
  | Some (r, rest) => (set_shared l rest lookup, Some r)
  | None => (set_shared l (dil_shared_slots l) lookup, None)
  end.

Definition DynamicInstanceLayout_is_valid (l : DynamicInstanceLayout) : bool :=
  (0 <? dil_own_total l)%Z || negb (bool_decide (dil_shared_slots l = [])).
Definition DynamicInstanceLayout_own_count (l : DynamicInstanceLayout) (pt : PointType) : Z :=
  match own_type_idx pt with
  | Some i => nth i (dil_own_counts l) 0%Z
  | None => 0%Z
  end.
Definition DynamicInstanceLayout_shared_count (l : DynamicInstanceLayout) : nat := length (dil_shared_slots l).

(** * Index operations *)
Section Ops.
Context {A : Type} `{AL : !SlotAllocator A}.
Implicit Types (ci : ChannelIndex) (ii : InstanceIndex) (bm : A).

Definition ChannelIndex_slot ci (channel_id : Z) (pt : PointType) (point_id : Z) : option nat :=
  match ci !! channel_id with
  | Some l => DynamicChannelLayout_slot l pt point_id
  | None => None
  end.

Definition ChannelIndex_contains ci (channel_id : Z) : bool := bool_decide (is_Some (ci !! channel_id)).

Definition ChannelIndex_add_channel ci (channel_id : Z) (type_counts : list Z) bm
    : outcome (ChannelIndex * A * result DynamicChannelLayout IndexError) :=
  let total := sum_u32 type_counts in
  if (total =? 0)%Z then Ret (ci, bm, Err ZeroPoints)
  else if ChannelIndex_contains ci channel_id then Ret (ci, bm, Err (AlreadyExists channel_id))
  else
    let! (bm', allocation) := al_alloc bm (Z.to_nat total) in
    match allocation with
    | None => Ret (ci, bm', Err (AllocationFailed total channel_id))
    | Some a =>
        let layout := DynamicChannelLayout_new a type_counts in
        Ret (<[channel_id := layout]> ci, bm', Ok layout)
    end.

Definition ChannelIndex_remove_channel ci (channel_id : Z) bm
    : outcome (ChannelIndex * A * result DynamicChannelLayout IndexError) :=
  match ci !! channel_id with
  | None => Ret (ci, bm, Err (NotFound channel_id))
  | Some layout =>
      let ci' := delete channel_id ci in
      let! bm' := al_free bm (alloc_base_slot (dcl_allocation layout)) (alloc_count (dcl_allocation layout)) in
      Ret (ci', bm', Ok layout)
  end.

Definition ChannelIndex_update_channel ci (channel_id : Z) (new_type_counts : list Z) bm
    : outcome (ChannelIndex * A * result DynamicChannelLayout IndexError) :=
  if ChannelIndex_contains ci channel_id then
    let! (ci', bm', r) := ChannelIndex_remove_channel ci channel_id bm in
    match r with
    | Err e => Ret (ci', bm', Err e)
    | Ok _ => ChannelIndex_add_channel ci' channel_id new_type_counts bm'
    end
  else ChannelIndex_add_channel ci channel_id new_type_counts bm.

Definition InstanceIndex_slot ii (instance_id : Z) (pt : PointType) (point_id : Z) : option nat :=
  match ii !! instance_id with
  | Some l => DynamicInstanceLayout_slot l pt point_id
  | None => None
  end.

Definition InstanceIndex_add_instance ii (instance_id : Z) (own_counts : list Z) (bm : option A)
    : outcome (InstanceIndex * option A * result DynamicInstanceLayout IndexError) :=
  if bool_decide (is_Some (ii !! instance_id)) then Ret (ii, bm, Err (AlreadyExists instance_id))
  else
    let total := sum_u32 own_counts in
    let finish (bm' : option A) allocation :=
      let layout := DynamicInstanceLayout_new instance_id allocation own_counts in
      (<[instance_id := layout]> ii, bm', Ok layout) in
    if (0 <? total)%Z then
      match bm with
      | None => Ret (ii, bm, Err BitmapRequired)
      | Some b =>
          let! (b', allocation) := al_alloc b (Z.to_nat total) in
          match allocation with
          | None => Ret (ii, Some b', Err (AllocationFailed total instance_id))
          | Some a => Ret (finish (Some b') (Some a))
          end
      end
    else Ret (finish bm None).

Definition InstanceIndex_remove_instance ii (instance_id : Z) (bm : option A)
    : outcome (InstanceIndex * option A * result DynamicInstanceLayout IndexError) :=
  match ii !! instance_id with
  | None => Ret (ii, bm, Err (NotFound instance_id))
  | Some layout =>
      let ii' := delete instance_id ii in
      match dil_own_allocation layout, bm with
      | Some a, Some b =>
          let! b' := al_free b (alloc_base_slot a) (alloc_count a) in
          Ret (ii', Some b', Ok layout)
      | _, _ => Ret (ii', bm, Ok layout)
      end
  end.

(** [get], change the clone, publish it under the same id. *)
Definition with_instance {T} ii (instance_id : Z) (f : DynamicInstanceLayout -> DynamicInstanceLayout * T)
    : InstanceIndex * result T IndexError :=
  match ii !! instance_id with
  | None => (ii, Err (NotFound instance_id))
  | Some l => let '(l', t) := f l in (<[instance_id := l']> ii, Ok t)
  end.

Definition InstanceIndex_add_shared_slot ii (instance_id : Z) (r : SharedSlotRef) :=
  with_instance ii instance_id (fun l => (DynamicInstanceLayout_add_shared_slot l r, tt)).
Definition InstanceIndex_remove_shared_slot ii (instance_id : Z) (pt : PointType) (point_id : Z) :=
  with_instance ii instance_id (fun l => DynamicInstanceLayout_remove_shared_slot l pt point_id).
Definition InstanceIndex_clear_shared_slots ii (instance_id : Z) :=
  with_instance ii instance_id (fun l => (set_shared l [] ∅, length (dil_shared_slots l))).
End Ops.

(** * The pool invariant *)

(** Who owns a block: a channel or an instance. *)
Abbreviation owner := (Z + Z)%type.

Definition block_of (ci : ChannelIndex) (ii : InstanceIndex) (o : owner) : option SlotAllocation :=
  match o with
  | inl ch => dcl_allocation <$> ci !! ch
  | inr i => ii !! i ≫= dil_own_allocation
  end.

Section Pool.
Context {A : Type} `{AL : !SlotAllocator A}.

(** Blocks are inside the pool and disjoint, and the taken slots are exactly the
    owned ones: no slot is shared and none is leaked. *)
Record pool_inv (bm : A) (f : owner -> option SlotAllocation) : Prop := {
  pi_ok : al_ok bm;
  pi_range : forall o a, f o = Some a -> alloc_base_slot a + alloc_count a <= al_total bm;
  pi_taken : forall j, j < al_total bm ->
    al_taken bm j = true <-> exists o a, f o = Some a /\ owns a j = true;
  pi_disjoint : forall o1 o2 a1 a2 j, f o1 = Some a1 -> f o2 = Some a2 ->
    owns a1 j = true -> owns a2 j = true -> o1 = o2
}.

#[export] Instance pool_inv_proper bm : Proper (pointwise_relation owner eq ==> iff) (pool_inv bm).
Proof.
  assert (H : forall f g, pointwise_relation owner eq f g -> pool_inv bm f -> pool_inv bm g).
  { intros f g Hfg [H1 H2 H3 H4]. split; [done | | |].
    - intros o a Ha. rewrite <- Hfg in Ha. eauto.
    - intros j Hj. rewrite H3 by done. split; intros (o & a & Ha & Ho); exists o, a.
      + by rewrite <- Hfg.
      + by rewrite Hfg.
    - intros o1 o2 a1 a2 j. rewrite <- !Hfg. eauto. }
  intros f g Hfg. split; apply H; [done | by symmetry].
Qed.

Definition fupdate (f : owner -> option SlotAllocation) (o : owner) (x : option SlotAllocation)
    : owner -> option SlotAllocation := fun o' => if decide (o' = o) then x else f o'.

Lemma pool_alloc bm f o count : pool_inv bm f -> f o = None ->
  exists bm' r, al_alloc bm count = Ret (bm', r) /\
    match r with
    | Some a => alloc_count a = count /\ pool_inv bm' (fupdate f o (Some a))
    | None => bm' = bm
    end.
Proof.
  intros [Hok Hr Ht Hd] Ho. destruct (al_alloc_spec bm count Hok) as (bm' & r & Heq & Hok' & Htot & Hspec).
  exists bm', r. split; [done |]. destruct r as [a |]; [|by destruct Hspec].
  destruct Hspec as (Hc & Hpos & [Hle Hfree] & Hj). split; [done |].
  assert (Hown : forall j, owns a j = true -> j < al_total bm /\ al_taken bm j = false).
  { intros j Hj'. unfold owns in Hj'. apply in_block_true in Hj'. rewrite Hc in Hj'. split; [lia | by apply Hfree]. }
  assert (Hold : forall o' a' j, f o' = Some a' -> owns a' j = true -> owns a j = true -> False).
  { intros o' a' j Ha' Hj' Hj2. destruct (Hown j Hj2) as [Hlt Hnot].
    assert (al_taken bm j = true) by (apply Ht; [done |]; by exists o', a'). congruence. }
  unfold fupdate. split; [done | | |].
  - intros o' a'. rewrite Htot. case_decide; [|by apply Hr]. intros [= <-]. rewrite Hc. done.
  - intros j Hlt. rewrite Htot in Hlt. rewrite Hj, orb_true_iff, Ht by done. split.
    + intros [Ha | (o' & a' & Ha' & Hj')]; [exists o, a | exists o', a'].
      * by rewrite decide_True.
      * rewrite decide_False; [done |]. intros ->. congruence.
    + intros (o' & a' & Ha' & Hj'). case_decide; [left; congruence |]. right. by exists o', a'.
  - intros o1 o2 a1 a2 j. do 2 case_decide; subst; try done.
    + intros [= <-] Ha2 Hj1 Hj2. exfalso. by eapply Hold.
    + intros Ha1 [= <-] Hj1 Hj2. exfalso. by eapply Hold.
    + by apply Hd.
Qed.

Lemma pool_free bm f o a : pool_inv bm f -> f o = Some a ->
  exists bm', al_free bm (alloc_base_slot a) (alloc_count a) = Ret bm' /\ pool_inv bm' (fupdate f o None).
Proof.
  intros [Hok Hr Ht Hd] Ho. pose proof (Hr o a Ho) as Hle.
  assert (Hall : forall j, alloc_base_slot a <= j < alloc_base_slot a + alloc_count a -> al_taken bm j = true).
  { intros j Hj. apply Ht; [lia |]. exists o, a. split; [done |]. by apply in_block_true. }
  destruct (al_free_spec bm _ _ Hok Hle Hall) as (bm' & Heq & Hok' & Htot & Hj).
  exists bm'. split; [done |]. unfold fupdate. split; [done | | |].
  - intros o' a'. rewrite Htot. case_decide; [done |]. apply Hr.
  - intros j Hlt. rewrite Htot in Hlt. rewrite Hj, andb_true_iff, negb_true_iff, Ht by done. split.
    + intros (Hn & o' & a' & Ha' & Hj'). exists o', a'. rewrite decide_False; [done |].
      intros ->. rewrite Ho in Ha'. injection Ha' as <-. unfold owns in Hj'. congruence.
    + intros (o' & a' & Ha' & Hj'). case_decide as Hne; [done |]. split; [|by exists o', a'].
      destruct (in_block (alloc_base_slot a) (alloc_count a) j) eqn:E; [|done].
      exfalso. apply Hne. by eapply Hd.
  - intros o1 o2 a1 a2 j. do 2 case_decide; try done. by apply Hd.
Qed.

(** A failed allocation means there is no free run of that length. *)
Lemma pool_alloc_fails bm f count bm' : pool_inv bm f -> al_alloc bm count = Ret (bm', None) ->
  bm' = bm /\ (count = 0 \/ forall b, ~ free_run (al_taken bm) (al_total bm) b count).
Proof.
  intros [Hok _ _ _] Heq. destruct (al_alloc_spec bm count Hok) as (s' & r & Heq' & _ & _ & Hr).
  rewrite Heq in Heq'. injection Heq' as <- <-. done.
Qed.
End Pool.

(** * Points inside blocks *)
Section Prefix.
Local Open Scope Z_scope.
Implicit Types counts : list Z.

Definition psum counts (i : nat) : Z := foldr Z.add 0 (take i counts).

Lemma foldr_add_app xs ys : foldr Z.add 0 (xs ++ ys) = foldr Z.add 0 xs + foldr Z.add 0 ys.
Proof. induction xs; simpl; lia. Qed.

Lemma psum_S counts i : (i < length counts)%nat -> psum counts (S i) = psum counts i + nth i counts 0.
Proof.
  intros Hi. unfold psum. destruct (lookup_lt_is_Some_2 counts i Hi) as [c Hc].
  rewrite (take_S_r _ _ _ Hc), foldr_add_app, nth_lookup, Hc. simpl. lia.
Qed.

Lemma psum_mono counts i j : Forall (is_uint 32) counts -> (i <= j)%nat -> psum counts i <= psum counts j.
Proof.
  intros Hu Hij. unfold psum. replace (take j counts) with (take i counts ++ take (j - i) (drop i counts)).
  - rewrite foldr_add_app. pose proof (sum_nonneg (take (j - i) (drop i counts))
      (Forall_take _ _ _ (Forall_drop _ _ _ Hu))). lia.
  - rewrite take_drop_commute. replace (i + (j - i))%nat with j by lia.
    rewrite <- (take_drop i (take j counts)) at 2. rewrite take_take, Nat.min_l by lia. done.
Qed.

Lemma psum_all counts : psum counts (length counts) = foldr Z.add 0 counts.
Proof. unfold psum. by rewrite take_ge. Qed.

(** Index [psum i + (p - 1)] of point [p] of type [i]. *)
Lemma prefix_range counts i p : Forall (is_uint 32) counts -> (i < length counts)%nat ->
  0 < p <= nth i counts 0 -> 0 <= psum counts i + (p - 1) < foldr Z.add 0 counts.
Proof.
  intros Hu Hi Hp. pose proof (psum_S counts i Hi). pose proof (psum_mono counts 0 i Hu ltac:(lia)) as Hps.
  pose proof (psum_mono counts (S i) (length counts) Hu ltac:(lia)). rewrite psum_all in *.
  unfold psum in Hps at 1. simpl in Hps. lia.
Qed.

Lemma prefix_inj counts i p i' p' : Forall (is_uint 32) counts ->
  (i < length counts)%nat -> (i' < length counts)%nat ->
  0 < p <= nth i counts 0 -> 0 < p' <= nth i' counts 0 ->
  psum counts i + (p - 1) = psum counts i' + (p' - 1) -> i = i' /\ p = p'.
Proof.
  intros Hu Hi Hi' Hp Hp' Heq. pose proof (psum_S counts i Hi). pose proof (psum_S counts i' Hi').
  destruct (Nat.lt_trichotomy i i') as [Hlt | [-> | Hlt]]; [| split; lia |].
  - pose proof (psum_mono counts (S i) i' Hu ltac:(lia)). lia.
  - pose proof (psum_mono counts (S i') i Hu ltac:(lia)). lia.
Qed.

Lemma sum_u32_take counts i : Forall (is_uint 32) counts -> foldr Z.add 0 counts < 2 ^ 32 ->
  sum_u32 (take i counts) = psum counts i.
Proof.
  intros Hu Hlt. apply sum_u32_small; [by apply Forall_take |].
  destruct (decide (i <= length counts)%nat) as [Hle | Hgt].
  - pose proof (psum_mono counts i (length counts) Hu Hle). rewrite psum_all in *. unfold psum in *. lia.
  - rewrite take_ge by lia. done.
Qed.
End Prefix.

Definition counts_ok (n : nat) (counts : list Z) : Prop :=
  length counts = n /\ Forall (is_uint 32) counts /\ (foldr Z.add 0 counts < 2 ^ 32)%Z.

Record channel_layout_ok (l : DynamicChannelLayout) : Prop := {
  clo_counts : counts_ok 4 (dcl_type_counts l);
  clo_base : dcl_base_slot l = alloc_base_slot (dcl_allocation l);
  clo_size : Z.of_nat (alloc_count (dcl_allocation l)) = foldr Z.add 0%Z (dcl_type_counts l)
}.

Record instance_layout_ok (l : DynamicInstanceLayout) : Prop := {
  ilo_counts : counts_ok 2 (dil_own_counts l);
  ilo_alloc : match dil_own_allocation l with
              | Some a => dil_own_base l = alloc_base_slot a /\
                          Z.of_nat (alloc_count a) = foldr Z.add 0%Z (dil_own_counts l)
              | None => foldr Z.add 0%Z (dil_own_counts l) = 0%Z
              end
}.

Lemma owns_offset a base off : base = alloc_base_slot a -> off < alloc_count a -> owns a (base + off) = true.
Proof. intros -> H. apply in_block_true. lia. Qed.

Lemma to_u8_idx pt : Z.to_nat (PointType_to_u8 pt) < 4.
Proof. destruct pt; simpl; lia. Qed.

(** A resolved channel point is slot [base + index] with its index inside the block. *)
Lemma channel_slot_index l pt p s : channel_layout_ok l -> is_uint 32 p ->
  DynamicChannelLayout_slot l pt p = Some s ->
  (0 < p <= nth (Z.to_nat (PointType_to_u8 pt)) (dcl_type_counts l) 0)%Z /\
  s = dcl_base_slot l + Z.to_nat (psum (dcl_type_counts l) (Z.to_nat (PointType_to_u8 pt)) + (p - 1)) /\
  owns (dcl_allocation l) s = true.
Proof.
  intros [(Hlen & Hu & Hsum) Hb Hsz] Hp. unfold DynamicChannelLayout_slot.
  set (i := Z.to_nat (PointType_to_u8 pt)). pose proof (to_u8_idx pt) as Hi. fold i in Hi.
  destruct (Z.eqb_spec p 0); [done |]. destruct (Z.ltb_spec (nth i (dcl_type_counts l) 0%Z) p); [done |].
  cbn [orb]. rewrite sum_u32_take by done. intros [= <-].
  assert (Hr : (0 < p <= nth i (dcl_type_counts l) 0)%Z) by solve_uint.
  pose proof (prefix_range _ i p Hu ltac:(lia) Hr). pose proof (psum_mono _ 0 i Hu ltac:(lia)) as Hps.
  unfold psum in Hps at 1. simpl in Hps.
  assert (Hs : dcl_base_slot l + Z.to_nat (psum (dcl_type_counts l) i) + Z.to_nat (p - 1) =
               dcl_base_slot l + Z.to_nat (psum (dcl_type_counts l) i + (p - 1))) by lia.
  rewrite Hs. split_and!; try done; try lia. apply owns_offset; [done | lia].
Qed.

Lemma instance_slot_index l pt p s : instance_layout_ok l -> is_uint 32 p ->
  DynamicInstanceLayout_own_slot l pt p = Some s ->
  exists i a, own_type_idx pt = Some i /\ i < 2 /\ dil_own_allocation l = Some a /\
    (0 < p <= nth i (dil_own_counts l) 0)%Z /\
    s = dil_own_base l + Z.to_nat (psum (dil_own_counts l) i + (p - 1)) /\ owns a s = true.
Proof.
  intros [(Hlen & Hu & Hsum) Hal] Hp. unfold DynamicInstanceLayout_own_slot.
  destruct (own_type_idx pt) as [i |] eqn:Ei; [|done].
  assert (Hi : i < 2) by (destruct pt; simpl in Ei; injection Ei as <- || done; lia).
  destruct (Z.eqb_spec p 0); [done |]. destruct (Z.ltb_spec (nth i (dil_own_counts l) 0%Z) p); [done |].
  cbn [orb]. rewrite sum_u32_take by done. intros [= <-].
  assert (Hr : (0 < p <= nth i (dil_own_counts l) 0)%Z) by solve_uint.
  pose proof (prefix_range _ i p Hu ltac:(lia) Hr). pose proof (psum_mono _ 0 i Hu ltac:(lia)) as Hps.
  unfold psum in Hps at 1. simpl in Hps.
  destruct (dil_own_allocation l) as [a |]; [|lia]. destruct Hal as [Hb Hsz].
  exists i, a. split_and!; try done; try lia.
  replace (dil_own_base l + Z.to_nat (psum (dil_own_counts l) i) + Z.to_nat (p - 1)) with
    (dil_own_base l + Z.to_nat (psum (dil_own_counts l) i + (p - 1))) by lia.
  apply owns_offset; [done | lia].
Qed.

(** * Sequences of operations on one pool *)

(** Any allocator that keeps the promises of [SlotAllocator] will do. *)
Section System.
Context {A : Type} `{AL : !SlotAllocator A}.

Record PoolState := mkPoolState {
  pl_channels : ChannelIndex;
  pl_instances : InstanceIndex;
  pl_bitmap : A
}.

Inductive pool_op :=
| AddChannel (ch : Z) (counts : list Z)
| RemoveChannel (ch : Z)
| UpdateChannel (ch : Z) (counts : list Z)
| AddInstance (i : Z) (counts : list Z)
| RemoveInstance (i : Z)
| AddShared (i : Z) (r : SharedSlotRef)
| RemoveShared (i : Z) (pt : PointType) (p : Z)
| ClearShared (i : Z).

(** The state after one operation; errors leave their (unchanged) state behind. *)
Definition pool_exec (s : PoolState) (o : pool_op) : outcome PoolState :=
  let ci := pl_channels s in let ii := pl_instances s in let bm := pl_bitmap s in
  match o with
  | AddChannel ch counts =>
      outcome_map (fun '(ci', bm', _) => mkPoolState ci' ii bm') (ChannelIndex_add_channel ci ch counts bm)
  | RemoveChannel ch =>
      outcome_map (fun '(ci', bm', _) => mkPoolState ci' ii bm') (ChannelIndex_remove_channel ci ch bm)
  | UpdateChannel ch counts =>
      outcome_map (fun '(ci', bm', _) => mkPoolState ci' ii bm') (ChannelIndex_update_channel ci ch counts bm)
  | AddInstance i counts =>
      outcome_map (fun '(ii', bm', _) => mkPoolState ci ii' (default bm bm'))
        (InstanceIndex_add_instance ii i counts (Some bm))
  | RemoveInstance i =>
      outcome_map (fun '(ii', bm', _) => mkPoolState ci ii' (default bm bm'))
        (InstanceIndex_remove_instance ii i (Some bm))
  | AddShared i r => Ret (mkPoolState ci (InstanceIndex_add_shared_slot ii i r).1 bm)
  | RemoveShared i pt p => Ret (mkPoolState ci (InstanceIndex_remove_shared_slot ii i pt p).1 bm)
  | ClearShared i => Ret (mkPoolState ci (InstanceIndex_clear_shared_slots ii i).1 bm)
  end.

Fixpoint pool_run (s : PoolState) (os : list pool_op) : outcome PoolState :=
  match os with
  | [] => Ret s
  | o :: os => let! s' := pool_exec s o in pool_run s' os
  end.

(** Counts are [u32] arrays whose total fits [u32]. *)
Definition op_ok (o : pool_op) : Prop :=
  match o with
  | AddChannel _ counts | UpdateChannel _ counts => counts_ok 4 counts
  | AddInstance _ counts => counts_ok 2 counts
  | _ => True
  end.

Record pool_state_ok (s : PoolState) : Prop := {
  pso_pool : pool_inv (pl_bitmap s) (block_of (pl_channels s) (pl_instances s));
  pso_channels : map_Forall (fun _ => channel_layout_ok) (pl_channels s);
  pso_instances : map_Forall (fun _ => instance_layout_ok) (pl_instances s)
}.

Lemma block_of_insert_channel ci ii ch l :
  pointwise_relation owner eq (fupdate (block_of ci ii) (inl ch) (Some (dcl_allocation l)))
    (block_of (<[ch := l]> ci) ii).
Proof.
  intros [c | i]; unfold fupdate, block_of; case_decide as H; simplify_eq; try done.
  - by rewrite lookup_insert_eq.
  - rewrite lookup_insert_ne by congruence. done.
Qed.

Lemma block_of_delete_channel ci ii ch :
  pointwise_relation owner eq (fupdate (block_of ci ii) (inl ch) None) (block_of (delete ch ci) ii).
Proof.
  intros [c | i]; unfold fupdate, block_of; case_decide as H; simplify_eq; try done.
  - by rewrite lookup_delete_eq.
  - rewrite lookup_delete_ne by congruence. done.
Qed.

Lemma block_of_insert_instance ci ii i l :
  pointwise_relation owner eq (fupdate (block_of ci ii) (inr i) (dil_own_allocation l))
    (block_of ci (<[i := l]> ii)).
Proof.
  intros [c | i']; unfold fupdate, block_of; case_decide as H; simplify_eq; try done.
  - by rewrite lookup_insert_eq.
  - rewrite lookup_insert_ne by congruence. done.
Qed.

Lemma block_of_delete_instance ci ii i :
  pointwise_relation owner eq (fupdate (block_of ci ii) (inr i) None) (block_of ci (delete i ii)).
Proof.
  intros [c | i']; unfold fupdate, block_of; case_decide as H; simplify_eq; try done.
  - by rewrite lookup_delete_eq.
  - rewrite lookup_delete_ne by congruence. done.
Qed.

(** Changing an instance's routes keeps its block. *)
Lemma block_of_same_alloc ci ii i l l' : ii !! i = Some l -> dil_own_allocation l' = dil_own_allocation l ->
  pointwise_relation owner eq (block_of ci ii) (block_of ci (<[i := l']> ii)).
Proof.
  intros Hl Heq [c | i']; unfold block_of; [done |].
  destruct (decide (i' = i)) as [-> |].
  - by rewrite lookup_insert_eq, Hl.
  - by rewrite lookup_insert_ne.
Qed.

Lemma add_channel_ok ci ii bm ch counts : counts_ok 4 counts ->
  pool_state_ok (mkPoolState ci ii bm) ->
  exists ci' bm' r, ChannelIndex_add_channel ci ch counts bm = Ret (ci', bm', r) /\
    pool_state_ok (mkPoolState ci' ii bm') /\
    match r with
    | Ok l => ci' = <[ch := l]> ci /\ ci !! ch = None /\ dcl_type_counts l = counts
    | Err _ => ci' = ci /\ bm' = bm
    end.
Proof.
  intros Hc [Hp Hch Hin]. cbn in *. unfold ChannelIndex_add_channel, ChannelIndex_contains.
  destruct (Z.eqb_spec (sum_u32 counts) 0) as [H0 | H0]; [eexists _, _, _; split; [done |]; by split|].
  case_bool_decide as Hex; [eexists _, _, _; split; [done |]; by split|].
  apply eq_None_not_Some in Hex.
  destruct (pool_alloc bm (block_of ci ii) (inl ch) (Z.to_nat (sum_u32 counts)) Hp) as (bm' & r & -> & Hr).
  { cbn. by rewrite Hex. }
  cbn [outcome_bind]. destruct r as [a |]; [|subst; eexists _, _, _; split; [done |]; by split].
  destruct Hr as [Hcount Hp']. eexists _, _, _. split; [done |]. split; [|done].
  split; cbn; [|apply map_Forall_insert; [done |]; split; [|done] | done].
  - by rewrite <- block_of_insert_channel.
  - destruct Hc as (Hlen & Hu & Hlt). pose proof (sum_nonneg _ Hu).
    split; cbn; [done | done |]. rewrite Hcount, sum_u32_small by done. lia.
Qed.

Lemma remove_channel_ok ci ii bm ch : pool_state_ok (mkPoolState ci ii bm) ->
  exists ci' bm' r, ChannelIndex_remove_channel ci ch bm = Ret (ci', bm', r) /\
    pool_state_ok (mkPoolState ci' ii bm') /\
    match r with
    | Ok l => ci' = delete ch ci /\ ci !! ch = Some l
    | Err e => ci' = ci /\ bm' = bm /\ ci !! ch = None /\ e = NotFound ch
    end.
Proof.
  intros [Hp Hch Hin]. cbn in *. unfold ChannelIndex_remove_channel.
  destruct (ci !! ch) as [l |] eqn:El; [|eexists _, _, _; split; [done |]; by split].
  destruct (pool_free bm (block_of ci ii) (inl ch) (dcl_allocation l) Hp) as (bm' & -> & Hp').
  { cbn. by rewrite El. }
  cbn [outcome_bind]. eexists _, _, _. split; [done |]. split; [|done].
  split; cbn; [by rewrite <- block_of_delete_channel | by apply map_Forall_delete | done].
Qed.

Lemma update_channel_ok ci ii bm ch counts : counts_ok 4 counts ->
  pool_state_ok (mkPoolState ci ii bm) ->
  exists ci' bm' r, ChannelIndex_update_channel ci ch counts bm = Ret (ci', bm', r) /\
    pool_state_ok (mkPoolState ci' ii bm').
Proof.
  intros Hc Hok. unfold ChannelIndex_update_channel.
  destruct (ChannelIndex_contains ci ch).
  - destruct (remove_channel_ok ci ii bm ch Hok) as (ci1 & bm1 & r1 & -> & Hok1 & Hr1). cbn [outcome_bind].
    destruct r1 as [l | e].
    + destruct (add_channel_ok ci1 ii bm1 ch counts Hc Hok1) as (ci2 & bm2 & r2 & -> & Hok2 & _). by eexists _, _, _.
    + by eexists _, _, _.
  - destruct (add_channel_ok ci ii bm ch counts Hc Hok) as (ci2 & bm2 & r2 & -> & Hok2 & _). by eexists _, _, _.
Qed.

Lemma add_instance_ok ci ii bm i counts : counts_ok 2 counts ->
  pool_state_ok (mkPoolState ci ii bm) ->
  exists ii' bm' r, InstanceIndex_add_instance ii i counts (Some bm) = Ret (ii', Some bm', r) /\
    pool_state_ok (mkPoolState ci ii' bm').
Proof.
  intros Hc [Hp Hch Hin]. cbn in *. unfold InstanceIndex_add_instance.
  case_bool_decide as Hex; [by eexists _, _, _|]. apply eq_None_not_Some in Hex.
  assert (Hnone : block_of ci ii (inr i) = None) by (cbn; by rewrite Hex).
  pose proof Hc as (Hlen & Hu & Hlt). pose proof (sum_nonneg _ Hu). pose proof (sum_u32_small _ Hu Hlt) as Hs.
  destruct (Z.ltb_spec 0 (sum_u32 counts)) as [Hpos | Hz].
  - destruct (pool_alloc bm _ (inr i) (Z.to_nat (sum_u32 counts)) Hp Hnone) as (bm' & r & -> & Hr).
    cbn [outcome_bind]. destruct r as [a |]; [|subst; by eexists _, _, _].
    destruct Hr as [Hcount Hp']. eexists _, _, _. split; [done |].
    split; cbn; [| done | apply map_Forall_insert; [done |]; split; [|done]].
    + by rewrite <- block_of_insert_instance.
    + split; cbn; [done |]. split; [done |]. lia.
  - eexists _, _, _. split; [done |].
    split; cbn; [| done | apply map_Forall_insert; [done |]; split; [|done]].
    + rewrite <- block_of_insert_instance. cbn. rewrite <- Hnone.
      assert (Heq : pointwise_relation owner eq (block_of ci ii) (fupdate (block_of ci ii) (inr i) (block_of ci ii (inr i)))).
      { intros o. unfold fupdate. by case_decide; subst. }
      by rewrite <- Heq.
    + split; cbn; [done |]. lia.
Qed.

Lemma remove_instance_ok ci ii bm i : pool_state_ok (mkPoolState ci ii bm) ->
  exists ii' bm' r, InstanceIndex_remove_instance ii i (Some bm) = Ret (ii', Some bm', r) /\
    pool_state_ok (mkPoolState ci ii' bm').
Proof.
  intros [Hp Hch Hin]. cbn in *. unfold InstanceIndex_remove_instance.
  destruct (ii !! i) as [l |] eqn:El; [|by eexists _, _, _].
  destruct (dil_own_allocation l) as [a |] eqn:Ea.
  - destruct (pool_free bm (block_of ci ii) (inr i) a Hp) as (bm' & -> & Hp').
    { cbn. by rewrite El. }
    cbn [outcome_bind]. eexists _, _, _. split; [done |].
    split; cbn; [by rewrite <- block_of_delete_instance | done | by apply map_Forall_delete].
  - eexists _, _, _. split; [done |].
    split; cbn; [rewrite <- block_of_delete_instance | done | by apply map_Forall_delete].
    assert (Heq : pointwise_relation owner eq (block_of ci ii) (fupdate (block_of ci ii) (inr i) None)).
    { intros o. unfold fupdate. case_decide; subst; [|done]. cbn. by rewrite El. }
    by rewrite <- Heq.
Qed.

(** A route change rewrites only the shared part of a layout. *)
Lemma with_instance_ok {T} ci ii bm i (f : DynamicInstanceLayout -> DynamicInstanceLayout * T) :
  (forall l, exists slots lookup, (f l).1 = set_shared l slots lookup) ->
  pool_state_ok (mkPoolState ci ii bm) ->
  pool_state_ok (mkPoolState ci (with_instance ii i f).1 bm).
Proof.
  intros Hf [Hp Hch Hin]. unfold with_instance. destruct (ii !! i) as [l |] eqn:El; [|by split].
  destruct (Hf l) as (slots & lookup & Heq). destruct (f l) as [l' t]. cbn in *. subst l'.
  split; cbn; [| done |].
  - rewrite <- (block_of_same_alloc ci ii i l); done.
  - apply map_Forall_insert_2; [|done]. pose proof (Hin _ _ El) as [H1 H2]. by split.
Qed.

Lemma pool_exec_ok s o : op_ok o -> pool_state_ok s ->
  exists s', pool_exec s o = Ret s' /\ pool_state_ok s'.
Proof.
  destruct s as [ci ii bm]. intros Ho Hok.
  destruct o as [ch counts | ch | ch counts | i counts | i | i r | i pt p | i]; cbn [pool_exec pl_channels pl_instances pl_bitmap] in *.
  - destruct (add_channel_ok ci ii bm ch counts Ho Hok) as (? & ? & ? & -> & ? & _). by eexists.
  - destruct (remove_channel_ok ci ii bm ch Hok) as (? & ? & ? & -> & ? & _). by eexists.
  - destruct (update_channel_ok ci ii bm ch counts Ho Hok) as (? & ? & ? & -> & ?). by eexists.
  - destruct (add_instance_ok ci ii bm i counts Ho Hok) as (? & ? & ? & -> & ?). by eexists.
  - destruct (remove_instance_ok ci ii bm i Hok) as (? & ? & ? & -> & ?). by eexists.
  - eexists. split; [done |]. apply with_instance_ok; [|done]. intros l. cbn.
    unfold DynamicInstanceLayout_add_shared_slot.
    destruct (dil_shared_lookup l !! _); [exists (dil_shared_slots l), (dil_shared_lookup l); by destruct l | by eexists _, _].
  - eexists. split; [done |]. apply with_instance_ok; [|done]. intros l.
    unfold DynamicInstanceLayout_remove_shared_slot. destruct (remove_first _ _ _) as [[? ?] |]; by eexists _, _.
  - eexists. split; [done |]. apply with_instance_ok; [|done]. intros l. cbn. by eexists _, _.
Qed.

Lemma pool_run_ok os : forall s, Forall op_ok os -> pool_state_ok s ->
  exists s', pool_run s os = Ret s' /\ pool_state_ok s'.
Proof.
  induction os as [|o os IH]; intros s Hos Hok; cbn; [by exists s |].
  rewrite Forall_cons in Hos. destruct Hos as [Ho Hos].
  destruct (pool_exec_ok s o Ho Hok) as (s1 & -> & Hok1). cbn [outcome_bind]. by apply IH.
Qed.

Lemma pool_empty_ok bm : al_ok bm -> (forall j, al_taken bm j = false) ->
  pool_state_ok (mkPoolState ∅ ∅ bm).
Proof.
  intros Hok Hfree. split; cbn; [|apply map_Forall_empty..]. split; [done | | |].
  - intros [c | i] a; cbn; by rewrite lookup_empty.
  - intros j _. rewrite Hfree. split; [done |]. intros ([c | i] & a & Ha & _); cbn in Ha; by rewrite lookup_empty in Ha.
  - intros [c | i] o2 a1 a2 j Ha; cbn in Ha; by rewrite lookup_empty in Ha.
Qed.

(** The slot of a point in its owner's own block. *)
Definition owner_slot (s : PoolState) (o : owner) (pt : PointType) (p : Z) : option nat :=
  match o with
  | inl ch => ChannelIndex_slot (pl_channels s) ch pt p
  | inr i => match pl_instances s !! i with
             | Some l => DynamicInstanceLayout_own_slot l pt p
             | None => None
             end
  end.

Lemma owner_slot_block s o pt p slot : pool_state_ok s -> is_uint 32 p -> owner_slot s o pt p = Some slot ->
  exists a, block_of (pl_channels s) (pl_instances s) o = Some a /\ owns a slot = true.
Proof.
  intros [_ Hch Hin] Hp. destruct o as [ch | i]; cbn; unfold ChannelIndex_slot.
  - destruct (pl_channels s !! ch) as [l |] eqn:El; [|done]. intros Hs.
    exists (dcl_allocation l). split; [done |].
    by destruct (channel_slot_index l pt p slot (Hch _ _ El) Hp Hs) as (_ & _ & ?).
  - destruct (pl_instances s !! i) as [l |] eqn:El; [|done]. intros Hs. cbn.
    destruct (instance_slot_index l pt p slot (Hin _ _ El) Hp Hs) as (? & a & _ & _ & Ha & _ & _ & ?). by exists a.
Qed.

Lemma owner_slot_inj s o pt p pt' p' slot : pool_state_ok s -> is_uint 32 p -> is_uint 32 p' ->
  owner_slot s o pt p = Some slot -> owner_slot s o pt' p' = Some slot -> pt = pt' /\ p = p'.
Proof.
  intros [_ Hch Hin] Hp Hp'. destruct o as [ch | i]; cbn; unfold ChannelIndex_slot.
  - destruct (pl_channels s !! ch) as [l |] eqn:El; [|done]. intros H1 H2.
    pose proof (Hch _ _ El) as Hl. pose proof (clo_counts _ Hl) as (Hlen & Hu & _).
    destruct (channel_slot_index l pt p slot Hl Hp H1) as (Hr1 & He1 & _).
    destruct (channel_slot_index l pt' p' slot Hl Hp' H2) as (Hr2 & He2 & _).
    pose proof (to_u8_idx pt). pose proof (to_u8_idx pt').
    pose proof (prefix_range _ (Z.to_nat (PointType_to_u8 pt)) p Hu ltac:(lia) Hr1).
    pose proof (prefix_range _ (Z.to_nat (PointType_to_u8 pt')) p' Hu ltac:(lia) Hr2).
    destruct (prefix_inj (dcl_type_counts l) (Z.to_nat (PointType_to_u8 pt)) p (Z.to_nat (PointType_to_u8 pt')) p')
      as [Hi ->]; try done; try lia. split; [|done]. by destruct pt, pt'.
  - destruct (pl_instances s !! i) as [l |] eqn:El; [|done]. intros H1 H2.
    pose proof (Hin _ _ El) as Hl. pose proof (ilo_counts _ Hl) as (Hlen & Hu & _).
    destruct (instance_slot_index l pt p slot Hl Hp H1) as (i1 & a1 & Hi1 & Hlt1 & _ & Hr1 & He1 & _).
    destruct (instance_slot_index l pt' p' slot Hl Hp' H2) as (i2 & a2 & Hi2 & Hlt2 & _ & Hr2 & He2 & _).
    pose proof (prefix_range _ i1 p Hu ltac:(lia) Hr1). pose proof (prefix_range _ i2 p' Hu ltac:(lia) Hr2).
    destruct (prefix_inj (dil_own_counts l) i1 p i2 p') as [-> ->]; try done; try lia.
    split; [|done]. destruct pt, pt'; cbn in *; congruence.
Qed.

Lemma pool_points_lemma os bm s : al_ok bm -> (forall j, al_taken bm j = false) -> Forall op_ok os ->
  pool_run (mkPoolState ∅ ∅ bm) os = Ret s ->
  forall o1 pt1 p1 o2 pt2 p2 slot, is_uint 32 p1 -> is_uint 32 p2 ->
    owner_slot s o1 pt1 p1 = Some slot -> owner_slot s o2 pt2 p2 = Some slot ->
    o1 = o2 /\ pt1 = pt2 /\ p1 = p2 /\ slot < al_total (pl_bitmap s) /\ al_taken (pl_bitmap s) slot = true.
Proof.
  intros Hok Hfree Hos Hrun o1 pt1 p1 o2 pt2 p2 slot Hp1 Hp2 H1 H2.
  destruct (pool_run_ok os _ Hos (pool_empty_ok bm Hok Hfree)) as (s' & Hrun' & Hs).
  rewrite Hrun in Hrun'. injection Hrun' as <-.
  destruct (owner_slot_block s o1 pt1 p1 slot Hs Hp1 H1) as (a1 & Ha1 & Ho1).
  destruct (owner_slot_block s o2 pt2 p2 slot Hs Hp2 H2) as (a2 & Ha2 & Ho2).
  pose proof (pso_pool _ Hs) as [_ Hr Ht Hd].
  assert (o1 = o2) as <- by (by eapply Hd). destruct (owner_slot_inj s o1 pt1 p1 pt2 p2 slot) as [-> ->]; [done.. |].
  pose proof (Hr _ _ Ha1). apply in_block_true in Ho1 as Hb. split_and!; try done; [lia |].
  apply Ht; [lia |]. by exists o1, a1.
Qed.
End System.
Arguments PoolState : clear implicits.
Arguments mkPoolState {A}.

(** * Theorems *)

(** A fresh bitmap of [n] slots. *)
Lemma SlotBitmap_new_ok n : (Z.of_nat n < 2 ^ 32)%Z ->
  SlotBitmap_wf (SlotBitmap_new n) /\ forall j, SlotBitmap_is_allocated (SlotBitmap_new n) j = false.
Proof.
  intros Hn. assert (Hfree : forall j, SlotBitmap_is_allocated (SlotBitmap_new n) j = false).
  { intros j. unfold SlotBitmap_is_allocated, SlotBitmap_new. cbn [sb_total_slots sb_bitmap].
    destruct (n <=? j); [done |]. apply words_test_replicate. }
  split; [|done]. split; unfold SlotBitmap_new; cbn [sb_total_slots sb_bitmap sb_allocated_count sb_first_free_hint].
  - done.
  - apply length_replicate.
  - rewrite (words_count_const _ false); [done |]. intros j _. apply words_test_replicate.
  - lia.
Qed.

(** C5: the unified pool never hands one slot to two points: after any sequence of
    channel and instance additions, removals, updates and route changes on a fresh
    pool, none of which panics, a slot resolved for a channel point or an
    instance's own point determines the owner, the point type and the point id, and
    is marked allocated inside the pool. *)
Theorem pool_points_disjoint n os :
  (Z.of_nat n < 2 ^ 32)%Z -> Forall op_ok os ->
  exists s : PoolState SlotBitmap, pool_run (mkPoolState ∅ ∅ (SlotBitmap_new n)) os = Ret s /\
    forall o1 pt1 p1 o2 pt2 p2 slot, is_uint 32 p1 -> is_uint 32 p2 ->
      owner_slot s o1 pt1 p1 = Some slot -> owner_slot s o2 pt2 p2 = Some slot ->
      o1 = o2 /\ pt1 = pt2 /\ p1 = p2 /\ slot < sb_total_slots (pl_bitmap s) /\
      SlotBitmap_is_allocated (pl_bitmap s) slot = true.
Proof.
  intros Hn Hos. destruct (SlotBitmap_new_ok n Hn) as [Hok Hfree].
  destruct (pool_run_ok os _ Hos (pool_empty_ok (AL:=slot_bitmap_allocator) (SlotBitmap_new n) Hok Hfree)) as (s & Hrun & _).
  exists s. split; [done |]. by apply (pool_points_lemma (AL:=slot_bitmap_allocator) os (SlotBitmap_new n) s).
Qed.

(** No slot is leaked: in every state such a sequence reaches, a slot is
    marked allocated exactly when some channel or instance still owns it. *)
Theorem pool_no_leak n os s j :
  (Z.of_nat n < 2 ^ 32)%Z -> Forall op_ok os ->
  pool_run (mkPoolState ∅ ∅ (SlotBitmap_new n)) os = Ret s -> j < sb_total_slots (pl_bitmap s) ->
  SlotBitmap_is_allocated (pl_bitmap s) j = true <->
  exists o a, block_of (pl_channels s) (pl_instances s) o = Some a /\ owns a j = true.
Proof.
  intros Hn Hos Hrun. destruct (SlotBitmap_new_ok n Hn) as [Hok Hfree].
  destruct (pool_run_ok os _ Hos (pool_empty_ok (AL:=slot_bitmap_allocator) (SlotBitmap_new n) Hok Hfree)) as (s' & Hrun' & Hs).
  rewrite Hrun in Hrun'. injection Hrun' as <-. apply (pi_taken _ _ (pso_pool _ Hs)).
Qed.

(** ** Observable consequences of the operations' order *)

(** [update_channel] is not atomic: when the new size does not fit, the call
    fails and the channel that existed before it is gone. *)
Theorem update_channel_failure_loses_channel :
  exists s : PoolState SlotBitmap,
    pool_run (mkPoolState ∅ ∅ (SlotBitmap_new 8)) [AddChannel 1 [4; 0; 0; 0]%Z] = Ret s /\
    ChannelIndex_slot (pl_channels s) 1 Telemetry 1 = Some 0 /\
    exists ci' bm', ChannelIndex_update_channel (pl_channels s) 1 [9; 0; 0; 0]%Z (pl_bitmap s) =
      Ret (ci', bm', Err (AllocationFailed 9 1)) /\
      ChannelIndex_contains ci' 1 = false.
Proof. eexists. split; [vm_compute; reflexivity |]. split; [vm_compute; reflexivity |].
  eexists _, _. split; vm_compute; reflexivity. Qed.

(** Removing a channel does not look at the instances routed to it: the route
    still resolves to the freed slot, and once another channel is added the
    instance reads that channel's point. *)
Theorem removed_channel_leaves_dangling_route :
  exists s : PoolState SlotBitmap,
    pool_run (mkPoolState ∅ ∅ (SlotBitmap_new 8))
      [AddChannel 1 [2; 0; 0; 0]%Z; AddInstance 7 [0; 0]%Z;
       AddShared 7 (mkSharedSlotRef 0 Telemetry 5 1 Telemetry 1);
       RemoveChannel 1; AddChannel 2 [2; 0; 0; 0]%Z] = Ret s /\
    InstanceIndex_slot (pl_instances s) 7 Telemetry 5 = Some 0 /\
    ChannelIndex_slot (pl_channels s) 2 Telemetry 1 = Some 0.
Proof. eexists. split; [vm_compute; reflexivity |]. split; vm_compute; reflexivity. Qed.

(** ** Shared routes *)

Record shared_ok (l : DynamicInstanceLayout) : Prop := {
  sho_lookup : forall pt p slot, dil_shared_lookup l !! (pt, p) = Some slot <->
    exists r, r ∈ dil_shared_slots l /\ ssr_point_type r = pt /\ ssr_point_id r = p /\ ssr_slot_id r = slot;
  sho_nodup : NoDup (map (fun r => (ssr_point_type r, ssr_point_id r)) (dil_shared_slots l))
}.

Lemma add_shared_ok l r : shared_ok l ->
  let l' := DynamicInstanceLayout_add_shared_slot l r in
  shared_ok l' /\
  (dil_shared_lookup l !! (ssr_point_type r, ssr_point_id r) = None ->
   DynamicInstanceLayout_slot l' (ssr_point_type r) (ssr_point_id r) = Some (ssr_slot_id r)) /\
  (forall pt p, (pt, p) <> (ssr_point_type r, ssr_point_id r) ->
     DynamicInstanceLayout_slot l' pt p = DynamicInstanceLayout_slot l pt p).
Proof.
  intros [Hlk Hnd]. unfold DynamicInstanceLayout_add_shared_slot, DynamicInstanceLayout_slot. cbv zeta.
  destruct (dil_shared_lookup l !! (ssr_point_type r, ssr_point_id r)) as [s0 |] eqn:E; [done |].
  cbn [set_shared dil_shared_lookup dil_shared_slots dil_own_counts dil_own_base]. split_and!.
  - split; cbn [set_shared dil_shared_lookup dil_shared_slots].
    + intros pt p slot. destruct (decide ((pt, p) = (ssr_point_type r, ssr_point_id r))) as [[= -> ->] | Hne].
      * rewrite lookup_insert_eq. split.
        -- intros [= <-]. exists r. split_and!; try done. apply elem_of_app. right. by apply list_elem_of_singleton.
        -- intros (r' & Hin & Ht & Hp & <-). apply elem_of_app in Hin as [Hin | ->%list_elem_of_singleton]; [|done].
           assert (Hs : dil_shared_lookup l !! (ssr_point_type r, ssr_point_id r) = Some (ssr_slot_id r'))
             by (apply Hlk; by exists r'). congruence.
      * rewrite lookup_insert_ne, Hlk by congruence. split; intros (r' & Hin & Ht & Hp & Hs); exists r'.
        -- split_and!; try done. apply elem_of_app. by left.
        -- apply elem_of_app in Hin as [Hin | ->%list_elem_of_singleton]; [done | congruence].
    + rewrite map_app. apply NoDup_app. split_and!; [done | | by apply NoDup_singleton].
      intros x (r' & -> & Hin)%list_elem_of_fmap Hx%list_elem_of_singleton. injection Hx as Ht Hp.
      assert (Hs : dil_shared_lookup l !! (ssr_point_type r, ssr_point_id r) = Some (ssr_slot_id r'))
        by (apply Hlk; by exists r'). congruence.
  - intros _. by rewrite lookup_insert_eq.
  - intros pt p Hne. rewrite lookup_insert_ne by congruence. done.
Qed.

Lemma ref_matches_true pt p s : ref_matches pt p s = true <-> ssr_point_type s = pt /\ ssr_point_id s = p.
Proof. unfold ref_matches. rewrite andb_true_iff, bool_decide_eq_true, Z.eqb_eq. done. Qed.

(** With distinct keys, removing the first match removes the only one. *)
Lemma remove_first_spec pt p slots :
  NoDup (map (fun r => (ssr_point_type r, ssr_point_id r)) slots) ->
  match remove_first pt p slots with
  | Some (r, rest) => ssr_point_type r = pt /\ ssr_point_id r = p /\ r ∈ slots /\
      NoDup (map (fun r => (ssr_point_type r, ssr_point_id r)) rest) /\
      (forall r', r' ∈ rest <-> r' ∈ slots /\ (ssr_point_type r', ssr_point_id r') <> (pt, p))
  | None => forall r', r' ∈ slots -> (ssr_point_type r', ssr_point_id r') <> (pt, p)
  end.
Proof.
  induction slots as [|s slots IH]; cbn [remove_first map]; intros Hnd.
  - intros r' H. by apply not_elem_of_nil in H.
  - apply NoDup_cons in Hnd as [Hs Hnd]. destruct (ref_matches pt p s) eqn:Em.
    + apply ref_matches_true in Em as [<- <-]. split_and!; try done; [by left |].
      intros r'. rewrite elem_of_cons. split.
      * intros Hin. split; [by right |]. intros Heq. apply Hs. rewrite <- Heq. by apply list_elem_of_fmap_2'  with r'.
      * intros [[-> | Hin] Hne]; [done | done].
    + assert (Hsne : (ssr_point_type s, ssr_point_id s) <> (pt, p)).
      { intros [= H1 H2]. by rewrite (proj2 (ref_matches_true pt p s)) in Em. }
      specialize (IH Hnd). destruct (remove_first pt p slots) as [[r rest] |].
      * destruct IH as (H1 & H2 & H3 & H4 & H5). split_and!; try done; [by right | |].
        -- cbn [map]. constructor; [|done]. intros (r' & Heq & Hin)%list_elem_of_fmap. apply Hs.
           apply H5 in Hin as [Hin _]. apply list_elem_of_fmap. by exists r'.
        -- intros r'. rewrite !elem_of_cons, H5. split.
           ++ intros [-> | [? ?]]; [split; [by left | done] | split; [by right | done]].
           ++ intros [[-> | ?] ?]; [by left | by right].
      * intros r' [-> | Hin]%elem_of_cons; [done | by apply IH].
Qed.

Lemma remove_shared_ok l pt p : shared_ok l ->
  let '(l', res) := DynamicInstanceLayout_remove_shared_slot l pt p in
  shared_ok l' /\ dil_shared_lookup l' = delete (pt, p) (dil_shared_lookup l) /\
  ssr_slot_id <$> res = dil_shared_lookup l !! (pt, p).
Proof.
  intros [Hlk Hnd]. unfold DynamicInstanceLayout_remove_shared_slot.
  pose proof (remove_first_spec pt p (dil_shared_slots l) Hnd) as Hrem.
  assert (Hkeep : forall slots : list SharedSlotRef, (forall r', r' ∈ slots <-> r' ∈ dil_shared_slots l /\ (ssr_point_type r', ssr_point_id r') <> (pt, p)) ->
     forall pt' p' slot, delete (pt, p) (dil_shared_lookup l) !! (pt', p') = Some slot <->
       exists r, r ∈ slots /\ ssr_point_type r = pt' /\ ssr_point_id r = p' /\ ssr_slot_id r = slot).
  { intros slots Hsl pt' p' slot. rewrite lookup_delete_Some, Hlk. split.
    - intros (Hne & r & Hin & <- & <- & <-). exists r. rewrite Hsl. split_and!; done || congruence.
    - intros (r & Hin & <- & <- & <-). apply Hsl in Hin as [Hin Hne]. split; [congruence | by exists r]. }
  destruct (remove_first pt p (dil_shared_slots l)) as [[r rest] |].
  - destruct Hrem as (H1 & H2 & H3 & H4 & H5). split_and!; [split; cbn; [by apply Hkeep | done] | done |].
    cbn. symmetry. apply Hlk. by exists r.
  - assert (Hsame : forall r', r' ∈ dil_shared_slots l <-> r' ∈ dil_shared_slots l /\ (ssr_point_type r', ssr_point_id r') <> (pt, p))
      by (intros r'; split; [intros Hin; split; [done | by apply Hrem] | tauto]).
    split_and!; [split; cbn; [by apply Hkeep | done] | done |].
    cbn. symmetry. apply eq_None_not_Some. intros [slot Hslot]. apply Hlk in Hslot as (r & Hin & Ht & Hp & _).
    apply (Hrem r Hin). congruence.
Qed.

Inductive route_op := RouteAdd (r : SharedSlotRef) | RouteRemove (pt : PointType) (p : Z) | RouteClear.

Definition route_exec (l : DynamicInstanceLayout) (o : route_op) : DynamicInstanceLayout :=
  match o with
  | RouteAdd r => DynamicInstanceLayout_add_shared_slot l r
  | RouteRemove pt p => (DynamicInstanceLayout_remove_shared_slot l pt p).1
  | RouteClear => set_shared l [] ∅
  end.

(** The abstract route table: adding keeps an existing route. *)
Definition route_spec (m : gmap (PointType * Z) nat) (o : route_op) : gmap (PointType * Z) nat :=
  match o with
  | RouteAdd r => let k := (ssr_point_type r, ssr_point_id r) in
                  if m !! k is Some _ then m else <[k := ssr_slot_id r]> m
  | RouteRemove pt p => delete (pt, p) m
  | RouteClear => ∅
  end.

Lemma route_exec_ok l o : shared_ok l ->
  shared_ok (route_exec l o) /\ dil_shared_lookup (route_exec l o) = route_spec (dil_shared_lookup l) o /\
  dil_own_counts (route_exec l o) = dil_own_counts l /\ dil_own_base (route_exec l o) = dil_own_base l.
Proof.
  intros Hok. destruct o as [r | pt p |]; cbn [route_exec route_spec].
  - destruct (add_shared_ok l r Hok) as (Hok' & _). split; [done |].
    unfold DynamicInstanceLayout_add_shared_slot. by destruct (dil_shared_lookup l !! _).
  - pose proof (remove_shared_ok l pt p Hok) as H.
    unfold DynamicInstanceLayout_remove_shared_slot in *. destruct (remove_first _ _ _) as [[? ?] |]; tauto.
  - split_and!; try done. split; cbn; [|constructor]. intros pt p slot. rewrite lookup_empty.
    split; [done |]. by intros (r & ?%not_elem_of_nil & _).
Qed.

(** An instance's routes: after any sequence of route additions, removals and
    clears, the O(1) lookup table and the list of routes describe the same map,
    a point resolves to its route's slot when it has one (the first added wins) and
    to its own slot otherwise. *)
Theorem instance_routes_refine_map id alloc own_counts os :
  let l := foldl route_exec (DynamicInstanceLayout_new id alloc own_counts) os in
  let m := foldl route_spec ∅ os in
  shared_ok l /\
  forall pt p, DynamicInstanceLayout_slot l pt p =
    match m !! (pt, p) with
    | Some slot => Some slot
    | None => DynamicInstanceLayout_own_slot (DynamicInstanceLayout_new id alloc own_counts) pt p
    end.
Proof.
  set (l0 := DynamicInstanceLayout_new id alloc own_counts).
  assert (H0 : shared_ok l0).
  { split; cbn; [|constructor]. intros pt p slot. rewrite lookup_empty.
    split; [done |]. by intros (r & ?%not_elem_of_nil & _). }
  assert (Hgen : forall os l, shared_ok l ->
     shared_ok (foldl route_exec l os) /\ dil_shared_lookup (foldl route_exec l os) = foldl route_spec (dil_shared_lookup l) os /\
     dil_own_counts (foldl route_exec l os) = dil_own_counts l /\ dil_own_base (foldl route_exec l os) = dil_own_base l).
  { clear. induction os as [|o os IH]; intros l Hl; cbn; [done |].
    destruct (route_exec_ok l o Hl) as (H1 & H2 & H3 & H4). destruct (IH _ H1) as (G1 & G2 & G3 & G4).
    rewrite G2, G3, G4, H2, H3, H4. done. }
  destruct (Hgen os l0 H0) as (H1 & H2 & H3 & H4). split; [done |]. intros pt p.
  unfold DynamicInstanceLayout_slot, DynamicInstanceLayout_own_slot. rewrite H2, H3, H4. done.
Qed.

(** * Witnesses *)
Definition sample_ops : list pool_op :=
  [AddChannel 1 [2; 1; 0; 0]%Z; AddInstance 7 [1; 1]%Z; AddChannel 2 [2; 0; 0; 0]%Z; RemoveChannel 1;
   AddShared 7 (mkSharedSlotRef 5 Telemetry 9 2 Telemetry 1); UpdateChannel 2 [3; 0; 0; 0]%Z].

Lemma sample_ops_ok : Forall op_ok sample_ops.
Proof.
  unfold sample_ops. repeat constructor; cbn; unfold is_uint; lia.
Qed.

Lemma pool_points_disjoint_witness :
  exists s : PoolState SlotBitmap, pool_run (mkPoolState ∅ ∅ (SlotBitmap_new 16)) sample_ops = Ret s /\
    owner_slot s (inl 2%Z) Telemetry 1 = Some 0 /\ owner_slot s (inr 7%Z) Telemetry 1 = Some 3 /\
    forall o pt p, is_uint 32 p -> owner_slot s o pt p = Some 3 -> o = inr 7%Z.
Proof.
  destruct (pool_points_disjoint 16 sample_ops ltac:(lia) sample_ops_ok) as (s & Hrun & Hdisj).
  exists s. split; [exact Hrun |].
  assert (Hs : owner_slot s (inl 2%Z) Telemetry 1 = Some 0 /\ owner_slot s (inr 7%Z) Telemetry 1 = Some 3).
  { vm_compute in Hrun. injection Hrun as <-. split; vm_compute; reflexivity. }
  destruct Hs as [Hs1 Hs2]. split; [exact Hs1 |]. split; [exact Hs2 |].
  intros o pt p Hp Ho. by destruct (Hdisj o pt p (inr 7%Z) Telemetry 1%Z 3 Hp ltac:(unfold is_uint; lia) Ho Hs2) as (-> & _).
Defined.

Lemma pool_no_leak_witness : exists s : PoolState SlotBitmap,
  pool_run (mkPoolState ∅ ∅ (SlotBitmap_new 16)) sample_ops = Ret s /\
  (SlotBitmap_is_allocated (pl_bitmap s) 6 = true <->
   exists o a, block_of (pl_channels s) (pl_instances s) o = Some a /\ owns a 6 = true).
Proof.
  eexists. split; [vm_compute; reflexivity |].
  apply (pool_no_leak 16 sample_ops); [lia | apply sample_ops_ok | vm_compute; reflexivity | vm_compute; lia].
Defined.
