(* ===== verification/Routing.v ===== *)
(** Routing cache: [libs/voltage-routing/src/routing_cache.rs].

    Route keys and targets are parsed from the strings of the configuration
    ("id:type:point", "instance:M:point", "channel:type:point|scale|offset") into
    hash maps.  The data is a list of string pairs in the unspecified order in which
    a [HashMap] is consumed.  Parsing an [f64] is a parameter; [u32] parsing and
    printing are written out. *)
From stdpp Require Import base numbers list gmap strings.
From Stdlib Require Import ZArith Lia Ascii.
From S2P Require Import Prelude PointTypes SlotIndex.
Local Open Scope Z_scope.
Set Warnings "-clear-no-such-hyp".

(** * Data *)

Record C2MTarget := mkC2MTarget { c2m_instance_id : Z; c2m_point_id : Z }.
Record C2CTarget := mkC2CTarget {
  c2c_channel_id : Z;
  c2c_point_type : PointType;
  c2c_point_id : Z;
  c2c_scale : Z;
  c2c_offset : Z;
}.
Record M2CTarget := mkM2CTarget { m2c_channel_id : Z; m2c_point_type : PointType; m2c_point_id : Z }.

(** (channel or instance, type, point). *)
Abbreviation route_key := (Z * PointType * Z)%type.

Record RoutingCache := mkRoutingCache {
  rc_c2m : gmap route_key C2MTarget;
  rc_c2c : gmap route_key C2CTarget;
  rc_m2c : gmap route_key M2CTarget;
  rc_c2m_reverse : gmap (Z * Z) route_key;
}.

Definition C2CTarget_transform (t : C2CTarget) (value : Z) : Z := f64_add (f64_mul (c2c_scale t) value) (c2c_offset t).
Definition C2CTarget_is_identity_transform (t : C2CTarget) : bool :=
  f64_eqb (c2c_scale t) f64_one && f64_eqb (c2c_offset t) f64_zero.

(** * Strings *)

(** [s.split(c).collect()]. *)
Fixpoint split_on (c : Ascii.ascii) (s : string) : list string :=
  match s with
  | EmptyString => [EmptyString]
  | String a s' =>
      if Ascii.eqb a c then EmptyString :: split_on c s'
      else match split_on c s' with
           | part :: parts => String a part :: parts
           | [] => [String a EmptyString]
           end
  end.

(** [s.splitn(3, c)]: the third part is the rest, separators included. *)
Fixpoint cut_at (c : Ascii.ascii) (s : string) : string * option string :=
  match s with
  | EmptyString => (EmptyString, None)
  | String a s' =>
      if Ascii.eqb a c then (EmptyString, Some s')
      else let '(part, rest) := cut_at c s' in (String a part, rest)
  end.
Definition splitn3 (c : Ascii.ascii) (s : string) : string * option string * option string :=
  let '(p1, r1) := cut_at c s in
  match r1 with
  | None => (p1, None, None)
  | Some r1 => let '(p2, r2) := cut_at c r1 in (p1, Some p2, r2)
  end.

Definition digit_value (a : Ascii.ascii) : option Z :=
  let n := Z.of_nat (Ascii.nat_of_ascii a) in
  if (48 <=? n) && (n <=? 57) then Some (n - 48) else None.

Fixpoint parse_digits (s : string) (acc : Z) : option Z :=
  match s with
  | EmptyString => Some acc
  | String a s' =>
      match digit_value a with
      | None => None
      | Some d => let v := acc * 10 + d in if 2 ^ 32 <=? v then None else parse_digits s' v
      end
  end.

(** [str::parse::<u32>]: an optional [+], at least one digit, no overflow. *)
Definition parse_u32 (s : string) : option Z :=
  match s with
  | EmptyString => None
  | String a s' =>
      if Ascii.eqb a "+"%char
      then match s' with EmptyString => None | _ => parse_digits s' 0 end
      else parse_digits s 0
  end.

Definition parse_point_type (s : string) : option PointType :=
  if String.eqb s "T" then Some Telemetry
  else if String.eqb s "S" then Some Signal
  else if String.eqb s "C" then Some Control
  else if String.eqb s "A" then Some Adjustment
  else None.

Definition parse_c2m_target (s : string) : option C2MTarget :=
  match split_on ":" s with
  | [p0; _; p2] =>
      match parse_u32 p0, parse_u32 p2 with
      | Some instance_id, Some point_id => Some (mkC2MTarget instance_id point_id)
      | _, _ => None
      end
  | _ => None
  end.

(** [parse_channel_point] and [parse_route_key] have the same body. *)
Definition parse_channel_point (s : string) : option route_key :=
  match split_on ":" s with
  | [p0; p1; p2] =>
      match parse_u32 p0, parse_point_type p1, parse_u32 p2 with
      | Some id, Some point_type, Some point_id => Some (id, point_type, point_id)
      | _, _, _ => None
      end
  | _ => None
  end.
Definition parse_route_key (s : string) : option route_key := parse_channel_point s.

Section Cache.
(** [str::parse::<f64>] as a bit pattern. *)
Variable parse_f64 : string -> option Z.

Definition parse_c2c_value (s : string) : option C2CTarget :=
  let '(target_str, scale_str, offset_str) := splitn3 "|" s in
  match parse_channel_point target_str with
  | None => None
  | Some (channel_id, point_type, point_id) =>
      Some (mkC2CTarget channel_id point_type point_id
              (default f64_one (scale_str ≫= parse_f64)) (default f64_zero (offset_str ≫= parse_f64)))
  end.

Definition m2c_from_parts (k : route_key) : M2CTarget :=
  let '(channel_id, point_type, point_id) := k in mkM2CTarget channel_id point_type point_id.

(** * Building the tables *)

Definition c2m_step (ts : gmap route_key C2MTarget * gmap (Z * Z) route_key) (kv : string * string) :=
  match parse_route_key kv.1, parse_c2m_target kv.2 with
  | Some key, Some target =>
      (<[key := target]> ts.1, <[(c2m_instance_id target, c2m_point_id target) := key]> ts.2)
  | _, _ => ts
  end.

Definition m2c_step (t : gmap route_key M2CTarget) (kv : string * string) : gmap route_key M2CTarget :=
  match parse_route_key kv.1, parse_channel_point kv.2 with
  | Some key, Some parts => <[key := m2c_from_parts parts]> t
  | _, _ => t
  end.

Definition c2c_step (t : gmap route_key C2CTarget) (kv : string * string) : gmap route_key C2CTarget :=
  match parse_route_key kv.1, parse_c2c_value kv.2 with
  | Some key, Some target => <[key := target]> t
  | _, _ => t
  end.

Definition build_tables (c2m_data m2c_data c2c_data : list (string * string)) : RoutingCache :=
  let '(c2m, c2m_reverse) := foldl c2m_step (∅, ∅) c2m_data in
  mkRoutingCache c2m (foldl c2c_step ∅ c2c_data) (foldl m2c_step ∅ m2c_data) c2m_reverse.

Definition RoutingCache_new : RoutingCache := mkRoutingCache ∅ ∅ ∅ ∅.
Definition RoutingCache_from_maps := build_tables.

Definition RoutingCache_lookup_c2m_by_parts (rc : RoutingCache) (channel_id : Z) (pt : PointType) (point_id : Z) :=
  rc_c2m rc !! (channel_id, pt, point_id).
Definition RoutingCache_lookup_c2c_by_parts (rc : RoutingCache) (channel_id : Z) (pt : PointType) (point_id : Z) :=
  rc_c2c rc !! (channel_id, pt, point_id).
Definition RoutingCache_lookup_m2c_by_parts (rc : RoutingCache) (instance_id : Z) (pt : PointType) (point_id : Z) :=
  rc_m2c rc !! (instance_id, pt, point_id).
Definition RoutingCache_lookup_c2m_reverse (rc : RoutingCache) (instance_id instance_point_id : Z) :=
  rc_c2m_reverse rc !! (instance_id, instance_point_id).
Definition RoutingCache_lookup_c2m (rc : RoutingCache) (key : string) : option C2MTarget :=
  parse_route_key key ≫= fun k => rc_c2m rc !! k.
Definition RoutingCache_lookup_m2c (rc : RoutingCache) (key : string) : option M2CTarget :=
  parse_route_key key ≫= fun k => rc_m2c rc !! k.
End Cache.

(** ** Hot reload: [update] stores the four new tables one after the other. *)
Definition update_stores (new : RoutingCache) : list (RoutingCache -> RoutingCache) :=
  [ (fun rc => mkRoutingCache (rc_c2m new) (rc_c2c rc) (rc_m2c rc) (rc_c2m_reverse rc));
    (fun rc => mkRoutingCache (rc_c2m rc) (rc_c2c new) (rc_m2c rc) (rc_c2m_reverse rc));
    (fun rc => mkRoutingCache (rc_c2m rc) (rc_c2c rc) (rc_m2c new) (rc_c2m_reverse rc));
    (fun rc => mkRoutingCache (rc_c2m rc) (rc_c2c rc) (rc_m2c rc) (rc_c2m_reverse new)) ].
Definition after_stores (old new : RoutingCache) (i : nat) : RoutingCache :=
  foldl (fun rc f => f rc) old (take i (update_stores new)).
Definition RoutingCache_update (old new : RoutingCache) : RoutingCache := after_stores old new 4.

(** The tables [content_hash] sees when its two loads happen after [i] and [j]
    stores of a concurrent [update]. *)
Definition hash_view (old new : RoutingCache) (i j : nat) : gmap route_key C2MTarget * gmap route_key M2CTarget :=
  (rc_c2m (after_stores old new i), rc_m2c (after_stores old new j)).

(** ** Printing, as the loader and [Display] write keys and targets. *)
Definition digit_char (d : Z) : Ascii.ascii := Ascii.ascii_of_nat (48 + Z.to_nat d).
Fixpoint dec_digits (fuel : nat) (n : Z) (acc : string) : string :=
  match fuel with
  | O => acc
  | S fuel =>
      let acc := String (digit_char (n mod 10)) acc in
      if n <? 10 then acc else dec_digits fuel (n / 10) acc
  end.
(** [u32::to_string]: ten digits are enough. *)
Definition print_u32 (n : Z) : string := dec_digits 10 n "".
Definition print_key (k : route_key) : string :=
  let '(id, pt, p) := k in (print_u32 id +:+ ":" +:+ PointType_as_str pt +:+ ":" +:+ print_u32 p)%string.
Definition C2MTarget_fmt (t : C2MTarget) : string :=
  (print_u32 (c2m_instance_id t) +:+ ":M:" +:+ print_u32 (c2m_point_id t))%string.
Definition M2CTarget_fmt (t : M2CTarget) : string := print_key (m2c_channel_id t, m2c_point_type t, m2c_point_id t).
Definition C2CTarget_fmt (t : C2CTarget) : string := print_key (c2c_channel_id t, c2c_point_type t, c2c_point_id t).

Example parse_key : parse_route_key "1001:T:5" = Some (1001, Telemetry, 5) /\ parse_route_key "1:X:5" = None
  /\ parse_route_key "1:T" = None /\ parse_route_key "4294967296:T:1" = None /\ parse_route_key "+7:A:01" = Some (7, Adjustment, 1).
Proof. vm_compute. repeat split; reflexivity. Qed.
Example print_key_ex : print_key (1001, Telemetry, 50) = "1001:T:50"%string.
Proof. vm_compute. reflexivity. Qed.

(** * Parsing inverts printing *)

Lemma digit_value_char d : 0 <= d < 10 -> digit_value (digit_char d) = Some d.
Proof.
  intros Hd. unfold digit_value, digit_char. rewrite nat_ascii_embedding by lia.
  rewrite Nat2Z.inj_add, Z2Nat.id by lia.
  destruct (Z.leb_spec 48 (Z.of_nat 48 + d)), (Z.leb_spec (Z.of_nat 48 + d) 57); try lia. cbn [andb]. f_equal. lia.
Qed.

Lemma parse_dec_digits fuel : forall n s, 0 <= n < 10 ^ Z.of_nat fuel -> n < 2 ^ 32 ->
  parse_digits (dec_digits fuel n s) 0 = parse_digits s n.
Proof.
  induction fuel as [|fuel IH]; intros n s Hn Hmax; [cbn in Hn; assert (n = 0) as -> by lia; done |].
  rewrite Nat2Z.inj_succ, Z.pow_succ_r in Hn by lia. cbn [dec_digits].
  pose proof (Z.mod_pos_bound n 10 ltac:(lia)). pose proof (Z.div_mod n 10 ltac:(lia)).
  assert (Hstep : parse_digits (String (digit_char (n mod 10)) s) (n / 10) = parse_digits s n).
  { cbn [parse_digits]. rewrite digit_value_char by lia. replace (n / 10 * 10 + n mod 10) with n by lia.
    by rewrite (proj2 (Z.leb_gt _ _)) by lia. }
  destruct (Z.ltb_spec n 10) as [Hlt | Hge].
  - rewrite <- Hstep. by rewrite Z.div_small by lia.
  - rewrite IH; [exact Hstep | | lia]. split; [apply Z.div_pos; lia | apply Z.div_lt_upper_bound; lia].
Qed.

(** Printed numbers are non-empty strings of digits. *)
Fixpoint all_digits (s : string) : Prop :=
  match s with
  | EmptyString => True
  | String a s => (exists d, 0 <= d < 10 /\ a = digit_char d) /\ all_digits s
  end.

Lemma dec_digits_all fuel : forall n s, 0 <= n -> all_digits s -> all_digits (dec_digits fuel n s).
Proof.
  induction fuel as [|fuel IH]; intros n s Hn Hs; [done |]. cbn [dec_digits].
  assert (Hd : all_digits (String (digit_char (n mod 10)) s)).
  { split; [exists (n mod 10); split; [apply Z.mod_pos_bound; lia | done] | done]. }
  destruct (n <? 10); [done |]. apply IH; [apply Z.div_pos; lia | done].
Qed.

Lemma dec_digits_nonempty fuel : forall n a s, exists b t, dec_digits fuel n (String a s) = String b t.
Proof. induction fuel as [|fuel IH]; intros n a s; cbn [dec_digits]; [by eexists _, _ |]. destruct (n <? 10); eauto. Qed.

Lemma print_u32_shape n : 0 <= n -> all_digits (print_u32 n) /\ exists b t, print_u32 n = String b t.
Proof.
  intros Hn. split; [by apply dec_digits_all |]. unfold print_u32. cbn [dec_digits].
  destruct (n <? 10); [by eexists _, _ | apply (dec_digits_nonempty 9)].
Qed.

Lemma digit_char_neq d c : 0 <= d < 10 -> digit_value c = None -> Ascii.eqb (digit_char d) c = false.
Proof.
  intros Hd Hc. apply Ascii.eqb_neq. intros <-. by rewrite digit_value_char in Hc.
Qed.

Lemma parse_print_u32 n : is_uint 32 n -> parse_u32 (print_u32 n) = Some n.
Proof.
  intros Hn. unfold is_uint in Hn. destruct (print_u32_shape n) as [Hall (b & t & Hb)]; [lia |].
  unfold parse_u32. rewrite Hb in *. destruct Hall as [(d & Hd & ->) _].
  rewrite digit_char_neq by done. rewrite <- Hb. unfold print_u32. rewrite parse_dec_digits by (cbn; lia). done.
Qed.

Lemma print_u32_inj a b : is_uint 32 a -> is_uint 32 b -> print_u32 a = print_u32 b -> a = b.
Proof. intros Ha Hb H. apply (f_equal parse_u32) in H. rewrite !parse_print_u32 in H by done. by injection H. Qed.

(** ** Separators *)

Lemma split_on_cons c a s : Ascii.eqb a c = false ->
  split_on c (String a s) = match split_on c s with part :: parts => String a part :: parts | [] => [String a ""] end.
Proof. intros H. cbn [split_on]. by rewrite H. Qed.

Fixpoint free_of (c : ascii) (s : string) : Prop :=
  match s with EmptyString => True | String a s => Ascii.eqb a c = false /\ free_of c s end.

Lemma split_on_app c x y : free_of c x -> split_on c (x +:+ String c y) = x :: split_on c y.
Proof.
  induction x as [|a x IH]; intros Hx; cbn [String.append free_of] in *.
  - change ("" +:+ String c y)%string with (String c y). cbn [split_on]. by rewrite Ascii.eqb_refl.
  - destruct Hx as [Ha Hx]. change (String a x +:+ String c y)%string with (String a (x +:+ String c y))%string.
    rewrite split_on_cons by done. by rewrite IH.
Qed.

Lemma split_on_free c x : free_of c x -> split_on c x = [x].
Proof.
  induction x as [|a x IH]; intros Hx; [done |]. destruct Hx as [Ha Hx]. rewrite split_on_cons by done. by rewrite IH.
Qed.

Lemma print_free c n : digit_value c = None -> 0 <= n -> free_of c (print_u32 n).
Proof.
  intros Hc Hn. destruct (print_u32_shape n Hn) as [Hall _]. revert Hall.
  induction (print_u32 n) as [|a s IH]; [done |]. intros [(d & Hd & ->) Hs]. split; [by apply digit_char_neq | auto].
Qed.

Definition key_ok (k : route_key) : Prop := is_uint 32 k.1.1 /\ is_uint 32 k.2.

Lemma parse_print_key k : key_ok k -> parse_route_key (print_key k) = Some k.
Proof.
  destruct k as [[id pt] p]. intros [Hid Hp]. cbn in Hid, Hp. unfold is_uint in *.
  unfold parse_route_key, parse_channel_point, print_key.
  change ((print_u32 id +:+ ":" +:+ PointType_as_str pt +:+ ":" +:+ print_u32 p)%string) with
    ((print_u32 id +:+ String ":" (PointType_as_str pt +:+ String ":" (print_u32 p)))%string).
  rewrite split_on_app by (apply print_free; [done | lia]).
  rewrite split_on_app by (by destruct pt). rewrite split_on_free by (apply print_free; [done | lia]).
  rewrite !parse_print_u32 by (unfold is_uint; lia). by destruct pt.
Qed.

Definition c2m_ok (t : C2MTarget) : Prop := is_uint 32 (c2m_instance_id t) /\ is_uint 32 (c2m_point_id t).

Lemma parse_print_c2m t : c2m_ok t -> parse_c2m_target (C2MTarget_fmt t) = Some t.
Proof.
  destruct t as [i p]. intros [Hi Hp]. cbn in Hi, Hp. unfold is_uint in *. unfold parse_c2m_target, C2MTarget_fmt.
  cbn [c2m_instance_id c2m_point_id].
  change ((print_u32 i +:+ ":M:" +:+ print_u32 p)%string) with
    ((print_u32 i +:+ String ":" ("M" +:+ String ":" (print_u32 p)))%string).
  rewrite split_on_app by (apply print_free; [done | lia]).
  rewrite split_on_app by done. rewrite split_on_free by (apply print_free; [done | lia]).
  by rewrite !parse_print_u32 by (unfold is_uint; lia).
Qed.

(** * The tables *)

(** The rows of a route table as the configuration holds them. *)
Definition c2m_rows (l : list (route_key * C2MTarget)) : list (string * string) :=
  map (fun kt => (print_key kt.1, C2MTarget_fmt kt.2)) l.
Definition m2c_rows (l : list (route_key * M2CTarget)) : list (string * string) :=
  map (fun kt => (print_key kt.1, M2CTarget_fmt kt.2)) l.

Definition reverse_of (l : list (route_key * C2MTarget)) (m : gmap (Z * Z) route_key) : gmap (Z * Z) route_key :=
  foldl (fun m kt => <[(c2m_instance_id kt.2, c2m_point_id kt.2) := kt.1]> m) m l.
Definition forward_of {T} (l : list (route_key * T)) (m : gmap route_key T) : gmap route_key T :=
  foldl (fun m kt => <[kt.1 := kt.2]> m) m l.

Lemma c2m_rows_build l : Forall (fun kt => key_ok kt.1 /\ c2m_ok kt.2) l -> forall f r,
  foldl c2m_step (f, r) (c2m_rows l) = (forward_of l f, reverse_of l r).
Proof.
  induction 1 as [|[k t] l [Hk Ht] _ IH]; intros f r; [done |]. cbn [c2m_rows map foldl].
  unfold c2m_step at 2. cbn [fst snd]. rewrite parse_print_key, parse_print_c2m by done. apply IH.
Qed.

Lemma m2c_rows_build l :
  Forall (fun kt => key_ok kt.1 /\ key_ok (m2c_channel_id kt.2, m2c_point_type kt.2, m2c_point_id kt.2)) l -> forall f,
  foldl m2c_step f (m2c_rows l) = forward_of l f.
Proof.
  induction 1 as [|[k t] l [Hk Ht] _ IH]; intros f; [done |]. cbn [m2c_rows map foldl].
  unfold m2c_step at 2. cbn [fst snd] in *. rewrite parse_print_key by done.
  unfold M2CTarget_fmt. rewrite (parse_print_key _ Ht : parse_channel_point _ = _). cbn [m2c_from_parts].
  destruct t. apply IH.
Qed.

Lemma forward_of_lookup {T} (l : list (route_key * T)) : NoDup l.*1 -> forall m k,
  forward_of l m !! k = match (list_to_map l : gmap route_key T) !! k with Some t => Some t | None => m !! k end.
Proof.
  induction l as [|[k' t'] l IH]; intros Hnd m k; [cbn [list_to_map foldr]; by rewrite lookup_empty |].
  cbn [fmap list_fmap] in Hnd. apply NoDup_cons in Hnd as [Hni Hnd]. cbn [forward_of foldl].
  change (foldl _ _ l) with (forward_of l (<[k' := t']> m)). rewrite IH by done. cbn [list_to_map foldr fst snd].
  destruct (decide (k = k')) as [-> | Hne].
  - rewrite (not_elem_of_list_to_map_1 l k') by done. by simplify_map_eq.
  - by rewrite !lookup_insert_ne by done.
Qed.

(** Any order of the rows of a table rebuilds it. *)
Lemma forward_of_table {T} (routes : gmap route_key T) l : l ≡ₚ map_to_list routes -> forward_of l ∅ = routes.
Proof.
  intros Hp. assert (Hnd : NoDup l.*1) by (rewrite Hp; apply NoDup_fst_map_to_list).
  apply map_eq. intros k. rewrite forward_of_lookup, lookup_empty by done.
  assert (Hl : (list_to_map l : gmap route_key T) = routes).
  { rewrite (list_to_map_proper l (map_to_list routes)) by done. apply list_to_map_to_list. }
  rewrite Hl. by destruct (routes !! k).
Qed.

(** The reverse table points back into the forward one. *)
Lemma reverse_of_lookup l : NoDup l.*1 -> forall m ip k, reverse_of l m !! ip = Some k ->
  m !! ip = Some k \/ exists t, (k, t) ∈ l /\ (c2m_instance_id t, c2m_point_id t) = ip.
Proof.
  induction l as [|[k' t'] l IH]; intros Hnd m ip k Hk; [by left |]. cbn [fmap list_fmap] in Hnd.
  apply NoDup_cons in Hnd as [_ Hnd]. destruct (IH Hnd _ _ _ Hk) as [Hm | (t & Hin & Heq)].
  - cbn [fst snd] in Hm. apply lookup_insert_Some in Hm as [[<- <-] | [_ Hm]]; [| by left].
    right. exists t'. split; [by left | done].
  - right. exists t. split; [by right | done].
Qed.

Lemma reverse_of_total l : forall m ip, is_Some (m !! ip) \/ (exists k t, (k, t) ∈ l /\ (c2m_instance_id t, c2m_point_id t) = ip) ->
  is_Some (reverse_of l m !! ip).
Proof.
  induction l as [|[k' t'] l IH]; intros m ip H.
  - destruct H as [H | (k & t & Hin & _)]; [done | by apply elem_of_nil in Hin].
  - apply IH. cbn [fst snd]. destruct H as [H | (k & t & Hin & Heq)].
    + left. destruct (decide ((c2m_instance_id t', c2m_point_id t') = ip)) as [<- | Hne];
        [rewrite lookup_insert, decide_True by done; eauto | by rewrite lookup_insert_ne].
    + apply elem_of_cons in Hin as [[= -> ->] | Hin]; [| right; by exists k, t].
      left. rewrite <- Heq, lookup_insert, decide_True by done. eauto.
Qed.

(** * Theorems *)

Definition table_ok (routes : gmap route_key C2MTarget) (m2c : gmap route_key M2CTarget) : Prop :=
  map_Forall (fun k t => key_ok k /\ c2m_ok t) routes /\
  map_Forall (fun k t => key_ok k /\ key_ok (m2c_channel_id t, m2c_point_type t, m2c_point_id t)) m2c.

Lemma table_rows_ok {T} (Q : route_key -> T -> Prop) (m : gmap route_key T) l :
  map_Forall Q m -> l ≡ₚ map_to_list m -> Forall (fun kt => Q kt.1 kt.2) l.
Proof.
  intros Hm Hp. rewrite Hp. apply Forall_forall. intros [k t] Hin. apply elem_of_map_to_list in Hin. by apply Hm.
Qed.

(** C39: the cache serves exactly the configured routes: whatever order the rows of
    the uplink and downlink tables are consumed in, parsing them back gives the
    tables, so a lookup by parts and a lookup by the printed key both return the
    configured target or nothing. *)
Theorem cache_serves_configured_routes parse_f64 c2m m2c c2m_data m2c_data c2c_data :
  table_ok c2m m2c -> c2m_data ≡ₚ map_to_list c2m -> m2c_data ≡ₚ map_to_list m2c ->
  let rc := RoutingCache_from_maps parse_f64 (c2m_rows c2m_data) (m2c_rows m2c_data) c2c_data in
  (forall ch pt p, RoutingCache_lookup_c2m_by_parts rc ch pt p = c2m !! (ch, pt, p)) /\
  (forall i pt p, RoutingCache_lookup_m2c_by_parts rc i pt p = m2c !! (i, pt, p)) /\
  (forall k, key_ok k -> RoutingCache_lookup_c2m rc (print_key k) = c2m !! k /\
                         RoutingCache_lookup_m2c rc (print_key k) = m2c !! k).
Proof.
  intros [Hc Hm] Hpc Hpm. cbv zeta. unfold RoutingCache_from_maps, build_tables.
  rewrite c2m_rows_build by exact (table_rows_ok _ _ _ Hc Hpc).
  rewrite m2c_rows_build by exact (table_rows_ok _ _ _ Hm Hpm).
  rewrite (forward_of_table c2m), (forward_of_table m2c) by done. split; [done | split; [done |]].
  intros k Hk. unfold RoutingCache_lookup_c2m, RoutingCache_lookup_m2c. by rewrite parse_print_key.
Qed.

(** The reverse uplink table agrees with the forward one: it has an entry for
    exactly the instance points that some channel point feeds, and the channel
    point it names is routed to that instance point. *)
Theorem reverse_routes_agree parse_f64 c2m m2c c2m_data m2c_data c2c_data :
  table_ok c2m m2c -> c2m_data ≡ₚ map_to_list c2m ->
  let rc := RoutingCache_from_maps parse_f64 (c2m_rows c2m_data) (m2c_rows m2c_data) c2c_data in
  (forall i p k, RoutingCache_lookup_c2m_reverse rc i p = Some k -> c2m !! k = Some (mkC2MTarget i p)) /\
  (forall k i p, c2m !! k = Some (mkC2MTarget i p) -> is_Some (RoutingCache_lookup_c2m_reverse rc i p)).
Proof.
  intros [Hc _] Hpc. cbv zeta. unfold RoutingCache_from_maps, build_tables, RoutingCache_lookup_c2m_reverse.
  rewrite c2m_rows_build by exact (table_rows_ok _ _ _ Hc Hpc). cbn [rc_c2m_reverse].
  assert (Hnd : NoDup c2m_data.*1) by (rewrite Hpc; apply NoDup_fst_map_to_list).
  assert (Hin : forall k t, (k, t) ∈ c2m_data <-> c2m !! k = Some t).
  { intros k t. rewrite Hpc. apply elem_of_map_to_list. }
  split.
  - intros i p k Hk. destruct (reverse_of_lookup c2m_data Hnd ∅ (i, p) k Hk) as [He | ([i' p'] & Hel & [= <- <-])];
      [by rewrite lookup_empty in He | by apply Hin].
  - intros k i p Hk. apply reverse_of_total. right. exists k, (mkC2MTarget i p). split; [by apply Hin | done].
Qed.

(** The two loads of [content_hash] do not form a snapshot: with one load before
    and one after the stores of a concurrent [update], it hashes the old uplink
    table with the new downlink table, a pair that neither configuration has. *)
Theorem content_hash_can_mix old new :
  rc_c2m old <> rc_c2m new -> rc_m2c old <> rc_m2c new ->
  let view := hash_view old new 0 3 in
  view <> hash_view old new 0 0 /\ view <> hash_view old new 4 4.
Proof.
  intros Hc Hm. split; intros Heq.
  - apply Hm. symmetry. exact (f_equal snd Heq).
  - apply Hc. exact (f_equal fst Heq).
Qed.

(** Two spellings of one key leave a stale reverse route: the forward table keeps
    the last row, the reverse table keeps both. *)
Theorem respelled_key_leaves_stale_reverse parse_f64 :
  let rc := RoutingCache_from_maps parse_f64 [("1:T:1", "7:M:1"); ("01:T:1", "8:M:2")]%string [] [] in
  RoutingCache_lookup_c2m_reverse rc 7 1 = Some (1, Telemetry, 1) /\
  RoutingCache_lookup_c2m_by_parts rc 1 Telemetry 1 = Some (mkC2MTarget 8 2).
Proof. vm_compute. split; reflexivity. Qed.

(** * Witnesses *)

Definition sample_c2m : gmap route_key C2MTarget := {[ (1001, Telemetry, 1) := mkC2MTarget 23 4 ]}.
Definition sample_m2c : gmap route_key M2CTarget := {[ (23, Adjustment, 4) := mkM2CTarget 2 Adjustment 1 ]}.
Lemma sample_table_ok : table_ok sample_c2m sample_m2c.
Proof.
  split; apply map_Forall_singleton; (split; [split | split]); cbn; unfold is_uint; lia.
Qed.

Lemma cache_serves_configured_routes_witness :
  let rc := RoutingCache_from_maps (fun _ => None) (c2m_rows (map_to_list sample_c2m)) (m2c_rows (map_to_list sample_m2c)) [] in
  (forall ch pt p, RoutingCache_lookup_c2m_by_parts rc ch pt p = sample_c2m !! (ch, pt, p)) /\
  (forall i pt p, RoutingCache_lookup_m2c_by_parts rc i pt p = sample_m2c !! (i, pt, p)) /\
  (forall k, key_ok k -> RoutingCache_lookup_c2m rc (print_key k) = sample_c2m !! k /\
                         RoutingCache_lookup_m2c rc (print_key k) = sample_m2c !! k).
Proof.
  apply (cache_serves_configured_routes (fun _ => None) sample_c2m sample_m2c); [apply sample_table_ok | done | done].
Defined.

Lemma reverse_routes_agree_witness :
  let rc := RoutingCache_from_maps (fun _ => None) (c2m_rows (map_to_list sample_c2m)) (m2c_rows []) [] in
  (forall i p k, RoutingCache_lookup_c2m_reverse rc i p = Some k -> sample_c2m !! k = Some (mkC2MTarget i p)) /\
  (forall k i p, sample_c2m !! k = Some (mkC2MTarget i p) -> is_Some (RoutingCache_lookup_c2m_reverse rc i p)).
Proof. apply (reverse_routes_agree (fun _ => None) sample_c2m sample_m2c); [apply sample_table_ok | done]. Defined.
