(* ===== verification/BatchDirect.v ===== *)
(** Direct batch writes: [libs/voltage-rtdb-shm/src/batch_direct.rs], with the
    update and result records of [libs/voltage-routing/src/batch.rs].

    comsrv's hot path: the telemetry of a poll cycle is written straight into the
    shared-memory slots, and values with a channel-to-channel route are forwarded
    recursively.  Updates are grouped by a hash map whose iteration order is not
    specified: [iter] is the order it takes, any permutation of the groups.  [now]
    gives the timestamp each (recursive) call reads. *)
From stdpp Require Import base numbers list gmap.
From Stdlib Require Import ZArith Lia.
From S2P Require Import Prelude PointTypes Layout Wire SlotIndex PointSlot PointWatch ShmStore Routing.
Local Open Scope Z_scope.
Set Warnings "-clear-no-such-hyp".

(** * Data *)

Definition MAX_C2C_CASCADE_DEPTH : Z := 2.

Record ChannelPointUpdate := mkUpdate {
  cu_channel_id : Z;
  cu_point_type : PointType;
  cu_point_id : Z;
  cu_value : Z;
  cu_raw_value : option Z;
  cu_cascade_depth : Z;
}.

Definition ChannelPointUpdate_new (channel_id : Z) (pt : PointType) (point_id value : Z) : ChannelPointUpdate :=
  mkUpdate channel_id pt point_id value None 0.
Definition ChannelPointUpdate_with_raw (u : ChannelPointUpdate) (raw : Z) : ChannelPointUpdate :=
  mkUpdate (cu_channel_id u) (cu_point_type u) (cu_point_id u) (cu_value u) (Some raw) (cu_cascade_depth u).

Record BatchRoutingResult := mkBatchResult {
  br_channel_writes : nat;
  br_c2m_writes : nat;
  br_c2c_forwards : nat;
  br_cycles_detected : nat;
  br_slot_misses : nat;
}.

Definition BatchRoutingResult_default : BatchRoutingResult := mkBatchResult 0 0 0 0 0.
Definition BatchRoutingResult_merge (a b : BatchRoutingResult) : BatchRoutingResult :=
  mkBatchResult (br_channel_writes a + br_channel_writes b) (br_c2m_writes a + br_c2m_writes b)
    (br_c2c_forwards a + br_c2c_forwards b) (br_cycles_detected a + br_cycles_detected b)
    (br_slot_misses a + br_slot_misses b).

Definition add_write (r : BatchRoutingResult) : BatchRoutingResult :=
  mkBatchResult (S (br_channel_writes r)) (br_c2m_writes r) (br_c2c_forwards r) (br_cycles_detected r) (br_slot_misses r).
Definition add_miss (r : BatchRoutingResult) : BatchRoutingResult :=
  mkBatchResult (br_channel_writes r) (br_c2m_writes r) (br_c2c_forwards r) (br_cycles_detected r) (S (br_slot_misses r)).
Definition add_cycle (r : BatchRoutingResult) : BatchRoutingResult :=
  mkBatchResult (br_channel_writes r) (br_c2m_writes r) (br_c2c_forwards r) (S (br_cycles_detected r)) (br_slot_misses r).
Definition add_forwards (r : BatchRoutingResult) (n : nat) : BatchRoutingResult :=
  mkBatchResult (br_channel_writes r) (br_c2m_writes r) (br_c2c_forwards r + n) (br_cycles_detected r) (br_slot_misses r).

(** * Grouping *)

Abbreviation group := (Z * PointType * list ChannelPointUpdate)%type.

(** [grouped.entry(key).or_default().push(update)]. *)
Fixpoint push_group (u : ChannelPointUpdate) (gs : list group) : list group :=
  match gs with
  | [] => [((cu_channel_id u, cu_point_type u), [u])]
  | (key, us) :: gs =>
      if decide (key = (cu_channel_id u, cu_point_type u)) then (key, us ++ [u]) :: gs
      else (key, us) :: push_group u gs
  end.

(** Cross-writer points are refused. *)
Definition group_updates (us : list ChannelPointUpdate) : list group :=
  foldl (fun gs u => if negb (PointType_is_measurement (cu_point_type u)) then gs else push_group u gs) [] us.

(** * The batch *)

Section Batch.
Context {C : Type} `{MS : !MpscSender C PointWatchEvent}.
Variable idx : ChannelToSlotIndex.
Variable rc : RoutingCache.
Variable iter : list group -> list group.
Variable now : nat -> Z.

(** The shared memory, and the number of calls made so far. *)
Record BatchEnv := mkBatchEnv {
  be_segment : Segment;
  be_writer : UnifiedWriter C;
  be_calls : nat;
}.

Record GroupState := mkGroupState {
  gs_env : BatchEnv;
  gs_visited : gset point_key;
  gs_forwards : list ChannelPointUpdate;
  gs_result : BatchRoutingResult;
}.

Definition write_point (env : BatchEnv) (slot : nat) (value raw ts : Z) : outcome BatchEnv :=
  let! (g, w) := UnifiedWriter_set_direct (be_segment env) (be_writer env) slot value raw ts in
  Ret (mkBatchEnv g w (be_calls env)).

(** The C2C part of an update, after its own write. *)
Definition route_c2c (s : GroupState) (channel_id : Z) (pt : PointType) (u : ChannelPointUpdate) : GroupState :=
  if cu_cascade_depth u <? MAX_C2C_CASCADE_DEPTH then
    match RoutingCache_lookup_c2c_by_parts rc channel_id pt (cu_point_id u) with
    | Some target =>
        let target_key := (c2c_channel_id target, c2c_point_type target, c2c_point_id target) in
        if decide (target_key ∈ gs_visited s)
        then mkGroupState (gs_env s) (gs_visited s) (gs_forwards s) (add_cycle (gs_result s))
        else
          mkGroupState (gs_env s) (gs_visited s)
            (gs_forwards s ++ [mkUpdate (c2c_channel_id target) (c2c_point_type target) (c2c_point_id target)
                                 (C2CTarget_transform target (cu_value u)) None (cu_cascade_depth u + 1)])
            (gs_result s)
    | None => s
    end
  else s.

Definition direct_update (ts channel_id : Z) (pt : PointType) (s : GroupState) (u : ChannelPointUpdate)
    : outcome GroupState :=
  let raw_value := default (cu_value u) (cu_raw_value u) in
  let visited := {[ (channel_id, pt, cu_point_id u) ]} ∪ gs_visited s in
  let! s :=
    match ChannelToSlotIndex_lookup idx channel_id pt (cu_point_id u) with
    | Some slot =>
        let! env := write_point (gs_env s) slot (cu_value u) raw_value ts in
        Ret (mkGroupState env visited (gs_forwards s) (add_write (gs_result s)))
    | None => Ret (mkGroupState (gs_env s) visited (gs_forwards s) (add_miss (gs_result s)))
    end in
  Ret (route_c2c s channel_id pt u).

Fixpoint direct_updates (ts channel_id : Z) (pt : PointType) (s : GroupState) (us : list ChannelPointUpdate)
    : outcome GroupState :=
  match us with
  | [] => Ret s
  | u :: us => let! s := direct_update ts channel_id pt s u in direct_updates ts channel_id pt s us
  end.

(** One group: its writes, then its forwards through [recurse]. *)
Definition direct_group (recurse : BatchEnv -> list ChannelPointUpdate -> gset point_key -> outcome (BatchEnv * BatchRoutingResult))
    (ts : Z) (visited : gset point_key) (acc : BatchEnv * BatchRoutingResult) (gr : group)
    : outcome (BatchEnv * BatchRoutingResult) :=
  let '((channel_id, pt), us) := gr in
  let '(env, result) := acc in
  let! s := direct_updates ts channel_id pt (mkGroupState env visited [] result) us in
  match gs_forwards s with
  | [] => Ret (gs_env s, gs_result s)
  | forwards =>
      let! (env, sub_result) := recurse (gs_env s) forwards (gs_visited s) in
      Ret (env, BatchRoutingResult_merge (add_forwards (gs_result s) (length forwards)) sub_result)
  end.

Fixpoint direct_groups (recurse : BatchEnv -> list ChannelPointUpdate -> gset point_key -> outcome (BatchEnv * BatchRoutingResult))
    (ts : Z) (visited : gset point_key) (acc : BatchEnv * BatchRoutingResult) (gs : list group)
    : outcome (BatchEnv * BatchRoutingResult) :=
  match gs with
  | [] => Ret acc
  | gr :: gs => let! acc := direct_group recurse ts visited acc gr in direct_groups recurse ts visited acc gs
  end.

(** [fuel] bounds the recursion; running out of it is a [Panic] that
    [batch_direct_total] excludes. *)
Fixpoint write_channel_batch_direct_impl (fuel : nat) (env : BatchEnv) (updates : list ChannelPointUpdate)
    (visited : gset point_key) : outcome (BatchEnv * BatchRoutingResult) :=
  match updates with
  | [] => Ret (env, BatchRoutingResult_default)
  | _ =>
      match fuel with
      | O => Panic
      | S fuel =>
          let ts := now (be_calls env) in
          let env := mkBatchEnv (be_segment env) (be_writer env) (S (be_calls env)) in
          direct_groups (write_channel_batch_direct_impl fuel) ts visited
            (env, BatchRoutingResult_default) (iter (group_updates updates))
      end
  end.

(** Forwards carry a larger depth and stop at [MAX_C2C_CASCADE_DEPTH], so three
    nested calls are enough. *)
Definition write_channel_batch_direct (env : BatchEnv) (updates : list ChannelPointUpdate)
    : outcome (BatchEnv * BatchRoutingResult) :=
  write_channel_batch_direct_impl 3 env updates ∅.
End Batch.
Arguments BatchEnv C : clear implicits.
Arguments mkBatchEnv {C}.
Arguments be_segment {C}.
Arguments be_writer {C}.
Arguments be_calls {C}.

(** * Groups *)

Definition group_size (gs : list group) : nat := foldr (fun gr n => length gr.2 + n)%nat 0%nat gs.
Definition measured_update (u : ChannelPointUpdate) : bool := PointType_is_measurement (cu_point_type u).

(** A property of updates, lifted to groups with the ownership check. *)
Definition groups_ok (Q : ChannelPointUpdate -> Prop) (gs : list group) : Prop :=
  Forall (fun gr => PointType_is_measurement gr.1.2 = true /\ Forall Q gr.2) gs.

Lemma push_group_ok Q u gs : groups_ok Q gs -> measured_update u = true -> Q u ->
  groups_ok Q (push_group u gs) /\ group_size (push_group u gs) = S (group_size gs).
Proof.
  intros Hgs Hm Hu. induction Hgs as [|[key us] gs [Hk Hus] Hgs IH]; cbn [push_group].
  - split; [| done]. apply Forall_singleton. split; [done |]. by apply Forall_singleton.
  - destruct IH as [IHok IHs]. case_decide as Hkey.
    + split; [apply Forall_cons; split; [split; [done |] | done]; apply Forall_app; split; [done | by apply Forall_singleton] |].
      unfold group_size. cbn [foldr snd]. rewrite length_app. cbn [length]. lia.
    + split; [by apply Forall_cons |]. unfold group_size in *. cbn [foldr snd]. lia.
Qed.

Lemma group_updates_ok Q us : Forall Q us ->
  groups_ok Q (group_updates us) /\ group_size (group_updates us) = length (filter (fun u => measured_update u = true) us).
Proof.
  intros HQ. unfold group_updates.
  assert (H : forall gs, groups_ok Q gs ->
    groups_ok Q (foldl (fun gs u => if negb (PointType_is_measurement (cu_point_type u)) then gs else push_group u gs) gs us) /\
    group_size (foldl (fun gs u => if negb (PointType_is_measurement (cu_point_type u)) then gs else push_group u gs) gs us) =
      (group_size gs + length (filter (fun u => measured_update u = true) us))%nat).
  { induction HQ as [|u us Hu _ IH]; intros gs Hgs; cbn [foldl].
    - rewrite filter_nil. cbn. split; [done | lia].
    - rewrite filter_cons. change (PointType_is_measurement (cu_point_type u)) with (measured_update u).
      destruct (measured_update u) eqn:Em; cbn [negb].
      + rewrite decide_True by done. destruct (push_group_ok Q u gs Hgs Em Hu) as [Hp Hs].
        destruct (IH _ Hp) as [H1 H2]. split; [done |]. rewrite H2, Hs. cbn [length]. lia.
      + rewrite decide_False by done. by apply IH. }
  destruct (H [] ltac:(constructor)) as [H1 H2]. done.
Qed.

Lemma group_size_perm gs gs' : gs ≡ₚ gs' -> group_size gs = group_size gs'.
Proof. induction 1; cbn [group_size foldr] in *; unfold group_size in *; lia. Qed.

Lemma group_concat_perm (gs gs' : list group) : gs ≡ₚ gs' -> concat (map snd gs) ≡ₚ concat (map snd gs').
Proof.
  induction 1 as [| x gs gs' _ IH | x y gs | gs1 gs2 gs3 _ IH1 _ IH2]; cbn [map concat]; [done | by rewrite IH | | by rewrite IH1].
  rewrite !app_assoc. by rewrite (Permutation_app_comm x.2 y.2).
Qed.

(** The groups partition the measured updates, each under its own key. *)
Definition update_key (u : ChannelPointUpdate) : point_key := (cu_channel_id u, cu_point_type u, cu_point_id u).
Definition keyed (gs : list group) : Prop :=
  Forall (fun gr => Forall (fun u => (cu_channel_id u, cu_point_type u) = gr.1) gr.2) gs.

Lemma push_group_keyed u gs : keyed gs -> keyed (push_group u gs) /\
  concat (map snd (push_group u gs)) ≡ₚ u :: concat (map snd gs).
Proof.
  intros Hgs. induction Hgs as [|[key us] gs Hus Hgs [IHk IHp]]; cbn [push_group].
  - split; [| done]. apply Forall_singleton. by apply Forall_singleton.
  - case_decide as Hkey; cbn [map concat snd].
    + split; [apply Forall_cons; split; [apply Forall_app; split; [done | by apply Forall_singleton] | done] |].
      rewrite <- app_assoc. cbn. by rewrite Permutation_middle.
    + split; [by apply Forall_cons |]. rewrite IHp. by rewrite Permutation_middle.
Qed.

Lemma group_updates_keyed us : keyed (group_updates us) /\
  concat (map snd (group_updates us)) ≡ₚ filter (fun u => measured_update u = true) us.
Proof.
  unfold group_updates.
  assert (H : forall gs, keyed gs ->
    let gs' := foldl (fun gs u => if negb (PointType_is_measurement (cu_point_type u)) then gs else push_group u gs) gs us in
    keyed gs' /\ concat (map snd gs') ≡ₚ concat (map snd gs) ++ filter (fun u => measured_update u = true) us).
  { induction us as [|u us IH]; intros gs Hgs; cbn [foldl]; cbv zeta.
    - rewrite filter_nil, app_nil_r. done.
    - rewrite filter_cons. change (PointType_is_measurement (cu_point_type u)) with (measured_update u).
      destruct (measured_update u) eqn:Em; cbn [negb].
      + rewrite decide_True by done. destruct (push_group_keyed u gs Hgs) as [Hk Hp].
        destruct (IH _ Hk) as [H1 H2]. split; [done |]. rewrite H2, Hp. cbn. by rewrite Permutation_middle.
      + rewrite decide_False by done. by apply IH. }
  destruct (H [] ltac:(constructor)) as [H1 H2]. done.
Qed.

(** * Correctness *)

Section Spec.
Context {C : Type} `{MS : !MpscSender C PointWatchEvent}.
Variable cps : ChannelPointCounts.
Hypothesis Hcfg : config_ok cps.
Variable ls : list ChannelLayout.
Variable total : nat.
Hypothesis Halloc : allocate_layouts cps = Ret (ls, total).
Variable rc : RoutingCache.
Variable iter : list group -> list group.
Hypothesis Hiter : forall gs, iter gs ≡ₚ gs.
Variable now : nat -> Z.

Let idx := ChannelToSlotIndex_from_layouts ls.

(** The slots comsrv owns. *)
Definition measured_slot (j : nat) : Prop :=
  exists ch pt p, PointType_is_measurement pt = true /\ is_uint 32 ch /\ is_uint 32 p /\
    layouts_lookup ls ch (PointType_to_u8 pt) p = Some j.

Definition env_ok (env : BatchEnv C) : Prop :=
  unified_wf cps (be_segment env) (be_writer env) /\ signaler_ok (uw_point_watch (be_writer env)).

(** Only slots comsrv owns change. *)
Definition env_frame (env env' : BatchEnv C) : Prop :=
  forall j, ~ measured_slot j -> sg_slots (be_segment env') !! j = sg_slots (be_segment env) !! j.

Lemma env_frame_trans a b c : env_frame a b -> env_frame b c -> env_frame a c.
Proof. intros H1 H2 j Hj. rewrite H2, H1 by done. done. Qed.

Lemma write_point_ok env ch pt p slot v r t :
  env_ok env -> PointType_is_measurement pt = true -> ChannelToSlotIndex_lookup idx ch pt p = Some slot ->
  exists env', write_point env slot v r t = Ret env' /\ env_ok env' /\ env_frame env env' /\
    read_slot (be_segment env') total slot = Ret (Some (mkSlotRead v r t)) /\
    (forall j, j <> slot -> sg_slots (be_segment env') !! j = sg_slots (be_segment env) !! j).
Proof using Hcfg Halloc.
  intros [Hw Hs] Hm Hl. destruct (allocated_layouts_ok cps ls total Hcfg Halloc) as [Hok Hlen].
  destruct (forward_keys_nonneg ls ch pt p slot Hok Hlen Hl) as [Hch Hp].
  apply forward_spec in Hl; [| done | done | solve_uint | solve_uint].
  pose proof (uwf_layout _ _ _ Hw) as Hlay. rewrite Halloc in Hlay. injection Hlay as Hls Htot.
  assert (Hlt : (slot < total)%nat).
  { by eapply (layout_aliases_none cps ls total (cok_wf _ Hcfg) Halloc ch (PointType_to_u8 pt) p ch (PointType_to_u8 pt) p);
      try done; try apply to_u8_range. }
  destruct (unified_set_direct_spec cps (be_segment env) (be_writer env) slot v r t Hw Hs) as
    (g' & w' & Hset & Hw' & Hs' & _ & Hc & _ & _ & _ & Hread & Hother & _); [lia |].
  unfold write_point. rewrite Hset. cbn [outcome_bind]. eexists. split; [reflexivity |].
  split; [done |]. cbn [be_segment]. rewrite <- Htot in Hread. split; [| split; [done | exact Hother]].
  intros j Hj. apply Hother. intros ->. apply Hj. by exists ch, pt, p.
Qed.

Definition processed (r : BatchRoutingResult) : nat := br_channel_writes r + br_slot_misses r.

(** The updates a call may make with [fuel] levels left. *)
Definition depth_ok (fuel : nat) (u : ChannelPointUpdate) : Prop := 3 - Z.of_nat fuel <= cu_cascade_depth u.

Definition measured_routes : Prop := map_Forall (fun _ t => PointType_is_measurement (c2c_point_type t) = true) (rc_c2c rc).

Lemma direct_update_ok fuel ts ch pt s u :
  env_ok (gs_env s) -> PointType_is_measurement pt = true -> depth_ok (S fuel) u ->
  exists s', direct_update idx rc ts ch pt s u = Ret s' /\ env_ok (gs_env s') /\ env_frame (gs_env s) (gs_env s') /\
    processed (gs_result s') = S (processed (gs_result s)) /\
    br_c2c_forwards (gs_result s') = br_c2c_forwards (gs_result s) /\
    exists fs, gs_forwards s' = gs_forwards s ++ fs /\
      Forall (fun f => depth_ok fuel f /\ 1 <= Z.of_nat fuel /\ (measured_routes -> measured_update f = true)) fs.
Proof using Hcfg Halloc.
  intros Hok Hm Hd. unfold direct_update.
  assert (Hw : exists s1,
    (match ChannelToSlotIndex_lookup idx ch pt (cu_point_id u) with
     | Some slot => let! env := write_point (gs_env s) slot (cu_value u) (default (cu_value u) (cu_raw_value u)) ts in
         Ret (mkGroupState env ({[(ch, pt, cu_point_id u)]} ∪ gs_visited s) (gs_forwards s) (add_write (gs_result s)))
     | None => Ret (mkGroupState (gs_env s) ({[(ch, pt, cu_point_id u)]} ∪ gs_visited s) (gs_forwards s) (add_miss (gs_result s)))
     end) = Ret s1 /\ env_ok (gs_env s1) /\ env_frame (gs_env s) (gs_env s1) /\
    processed (gs_result s1) = S (processed (gs_result s)) /\
    br_c2c_forwards (gs_result s1) = br_c2c_forwards (gs_result s) /\ gs_forwards s1 = gs_forwards s).
  { destruct (ChannelToSlotIndex_lookup idx ch pt (cu_point_id u)) as [slot|] eqn:El.
    - destruct (write_point_ok (gs_env s) ch pt _ slot (cu_value u) (default (cu_value u) (cu_raw_value u)) ts Hok Hm El)
        as (env' & -> & H1 & H2 & _). cbn [outcome_bind]. eexists. split; [reflexivity |]. done.
    - eexists. split; [reflexivity |]. split; [done |]. split; [by intros j |]. unfold processed; cbn. split; [lia | done]. }
  destruct Hw as (s1 & -> & Hok1 & Hf1 & Hp1 & Hc1 & Hfw1). cbn [outcome_bind].
  eexists. split; [reflexivity |]. unfold route_c2c. unfold depth_ok in *.
  destruct (Z.ltb_spec (cu_cascade_depth u) MAX_C2C_CASCADE_DEPTH) as [Hlt | _];
    [| split_and!; try done; exists []; rewrite app_nil_r; split; [done | constructor]].
  destruct (RoutingCache_lookup_c2c_by_parts rc ch pt (cu_point_id u)) as [t|] eqn:Et;
    [| split_and!; try done; exists []; rewrite app_nil_r; split; [done | constructor]].
  case_decide; cbn [gs_env gs_result gs_forwards].
  - split_and!; try done. exists []. rewrite app_nil_r. split; [done | constructor].
  - split_and!; try done. rewrite Hfw1. eexists. split; [reflexivity |]. apply Forall_singleton.
    cbn [cu_cascade_depth]. unfold MAX_C2C_CASCADE_DEPTH in Hlt. split; [lia |]. split; [lia |].
    intros Hr. exact (Hr _ _ Et).
Qed.

Lemma direct_updates_ok fuel ts ch pt us : forall s,
  env_ok (gs_env s) -> PointType_is_measurement pt = true -> Forall (depth_ok (S fuel)) us ->
  exists s', direct_updates idx rc ts ch pt s us = Ret s' /\ env_ok (gs_env s') /\ env_frame (gs_env s) (gs_env s') /\
    processed (gs_result s') = (processed (gs_result s) + length us)%nat /\
    br_c2c_forwards (gs_result s') = br_c2c_forwards (gs_result s) /\
    exists fs, gs_forwards s' = gs_forwards s ++ fs /\
      Forall (fun f => depth_ok fuel f /\ 1 <= Z.of_nat fuel /\ (measured_routes -> measured_update f = true)) fs.
Proof using Hcfg Halloc.
  induction us as [|u us IH]; intros s Hok Hm Hd; cbn [direct_updates].
  - exists s. split_and!; try done; try (by intros j); try (cbn; lia). exists []. rewrite app_nil_r. split; [done | constructor].
  - apply Forall_cons in Hd as [Hu Hd].
    destruct (direct_update_ok fuel ts ch pt s u Hok Hm Hu) as (s1 & -> & Hok1 & Hf1 & Hp1 & Hc1 & fs1 & Hfw1 & Hfs1).
    cbn [outcome_bind]. destruct (IH s1 Hok1 Hm Hd) as (s2 & -> & Hok2 & Hf2 & Hp2 & Hc2 & fs2 & Hfw2 & Hfs2).
    exists s2. split_and!; try done; [by eapply env_frame_trans | rewrite Hp2, Hp1; cbn; lia | congruence |].
    exists (fs1 ++ fs2). rewrite Hfw2, Hfw1, app_assoc. split; [done | by apply Forall_app].
Qed.

(** What a call promises about its result. *)
Definition batch_post (env : BatchEnv C) (n : nat) (exact : Prop) (acc : BatchRoutingResult)
    (o : outcome (BatchEnv C * BatchRoutingResult)) : Prop :=
  exists env' r, o = Ret (env', r) /\ env_ok env' /\ env_frame env env' /\
    (processed r + br_c2c_forwards acc <= processed acc + n + br_c2c_forwards r)%nat /\
    (exact -> processed r + br_c2c_forwards acc = processed acc + n + br_c2c_forwards r)%nat.

Section Recursion.
Variable fuel : nat.
Variable recurse : BatchEnv C -> list ChannelPointUpdate -> gset point_key -> outcome (BatchEnv C * BatchRoutingResult).
Hypothesis Hrec : forall env us visited, env_ok env -> Forall (depth_ok fuel) us -> (1 <= fuel)%nat ->
  batch_post env (length us) (measured_routes /\ Forall (fun u => measured_update u = true) us)
    BatchRoutingResult_default (recurse env us visited).

Lemma direct_group_ok ts visited env acc gr :
  env_ok env -> PointType_is_measurement gr.1.2 = true -> Forall (depth_ok (S fuel)) gr.2 ->
  batch_post env (length gr.2) measured_routes acc (direct_group idx rc recurse ts visited (env, acc) gr).
Proof using Hcfg Halloc Hrec now.
  destruct gr as [[ch pt] us]. intros Hok Hm Hd. cbn [fst snd direct_group] in *.
  destruct (direct_updates_ok fuel ts ch pt us (mkGroupState env visited [] acc) Hok Hm Hd)
    as (s & -> & Hok1 & Hf1 & Hp1 & Hc1 & fs & Hfw & Hfs).
  cbn [outcome_bind gs_env gs_result gs_forwards app] in *. rewrite Hfw. destruct fs as [|f fs].
  - eexists _, _. split; [reflexivity |]. split_and!; try done; [lia | intros _; lia].
  - apply Forall_cons in Hfs as Hhd. destruct Hhd as [(_ & Hfuel & _) _].
    assert (Hall : measured_routes -> Forall (fun u => measured_update u = true) (f :: fs))
      by (intros Hr; rewrite Forall_forall in Hfs |- *; naive_solver).
    destruct (Hrec (gs_env s) (f :: fs) (gs_visited s) Hok1) as (env' & sub & -> & Hok2 & Hf2 & Hle & Heq);
      [rewrite Forall_forall in Hfs |- *; naive_solver | lia |].
    cbn [outcome_bind]. eexists _, _. split; [reflexivity |]. split; [done |]. split; [by eapply env_frame_trans |].
    unfold processed in *. cbn [BatchRoutingResult_merge add_forwards BatchRoutingResult_default
      br_channel_writes br_slot_misses br_c2c_forwards length] in *.
    split; [lia |]. intros Hr. specialize (Heq (conj Hr (Hall Hr))). lia.
Qed.

Lemma direct_groups_ok ts visited gs : forall env acc,
  env_ok env -> groups_ok (depth_ok (S fuel)) gs ->
  batch_post env (group_size gs) measured_routes acc (direct_groups idx rc recurse ts visited (env, acc) gs).
Proof using Hcfg Halloc Hrec now.
  induction gs as [|gr gs IH]; intros env acc Hok Hgs; cbn [direct_groups].
  - exists env, acc. split; [done |]. split; [done |]. split; [by intros j |]. cbn. split; [lia | intros _; lia].
  - apply Forall_cons in Hgs as [[Hm Hd] Hgs].
    destruct (direct_group_ok ts visited env acc gr Hok Hm Hd) as (env1 & r1 & -> & Hok1 & Hf1 & Hle1 & Heq1).
    cbn [outcome_bind]. destruct (IH env1 r1 Hok1 Hgs) as (env2 & r2 & -> & Hok2 & Hf2 & Hle2 & Heq2).
    exists env2, r2. split; [done |]. split; [done |]. split; [by eapply env_frame_trans |].
    cbn [group_size foldr]. change (foldr _ _ gs) with (group_size gs).
    split; [lia |]. intros Hr. specialize (Heq1 Hr). specialize (Heq2 Hr). lia.
Qed.
End Recursion.

Lemma filter_all us : Forall (fun u => measured_update u = true) us -> filter (fun u => measured_update u = true) us = us.
Proof. induction 1 as [|u us Hu _ IH]; [done |]. rewrite filter_cons, decide_True by done. by rewrite IH. Qed.

Lemma batch_impl_ok fuel : forall env us visited, env_ok env -> Forall (depth_ok fuel) us -> (1 <= fuel)%nat ->
  batch_post env (length us) (measured_routes /\ Forall (fun u => measured_update u = true) us)
    BatchRoutingResult_default (write_channel_batch_direct_impl idx rc iter now fuel env us visited).
Proof using Hcfg Halloc Hiter.
  induction fuel as [|fuel IH]; intros env us visited Hok Hd Hfuel; [lia |].
  destruct us as [|u us0] eqn:Eus; cbn [write_channel_batch_direct_impl].
  { exists env, BatchRoutingResult_default. split; [done |]. split; [done |]. split; [by intros j |]. cbn. split; [lia | done]. }
  rewrite <- Eus in *. clear Eus u us0. destruct (group_updates_ok (depth_ok (S fuel)) us Hd) as [Hgs Hsize].
  set (env1 := mkBatchEnv (be_segment env) (be_writer env) (S (be_calls env))).
  assert (Hgs' : groups_ok (depth_ok (S fuel)) (iter (group_updates us))) by (unfold groups_ok; by rewrite Hiter).
  destruct (direct_groups_ok fuel (write_channel_batch_direct_impl idx rc iter now fuel)
    (fun env us v H1 H2 H3 => IH env us v H1 H2 H3)
    (now (be_calls env)) visited (iter (group_updates us)) env1 BatchRoutingResult_default Hok Hgs')
    as (env' & r & -> & Hok' & Hf' & Hle & Heq).
  exists env', r. split; [done |]. split; [done |]. split; [exact Hf' |].
  rewrite (group_size_perm _ _ (Hiter (group_updates us))), Hsize in Hle, Heq.
  pose proof (length_filter (fun u => measured_update u = true) us) as Hlf. split; [lia |].
  intros [Hr Hall]. rewrite (filter_all us Hall) in Heq. by apply Heq.
Qed.

(** A batch write always returns and accounts for every point: whatever the
    routes, the iteration order and the batch, no slot write panics and three
    nested calls suffice; every accepted update or forward is counted as written or
    as a slot miss, and none is dropped silently when all points and route targets
    are telemetry or signals. *)
Theorem batch_direct_total env us :
  env_ok env -> Forall (fun u => 0 <= cu_cascade_depth u) us ->
  exists env' r, write_channel_batch_direct idx rc iter now env us = Ret (env', r) /\ env_ok env' /\
    (br_channel_writes r + br_slot_misses r <= length us + br_c2c_forwards r)%nat /\
    (measured_routes -> Forall (fun u => measured_update u = true) us ->
     (br_channel_writes r + br_slot_misses r = length us + br_c2c_forwards r)%nat).
Proof using Hcfg Halloc Hiter.
  intros Hok Hd. destruct (batch_impl_ok 3 env us ∅ Hok) as (env' & r & Heq & Hok' & _ & Hle & Hex);
    [rewrite Forall_forall in Hd |- *; intros u Hu; specialize (Hd u Hu); unfold depth_ok; lia | lia |].
  exists env', r. split; [exact Heq |]. split; [done |]. unfold processed in *. cbn in Hle, Hex.
  split; [lia |]. intros Hr Hall. specialize (Hex (conj Hr Hall)). lia.
Qed.

(** C8: the hot path never writes a control or adjustment point: whatever batch
    comsrv writes and wherever channel-to-channel routes lead, the reading of every
    point modsrv owns, as any reader sees it, is unchanged. *)
Theorem batch_direct_owner_safe layout_hash env us env' res (r : UnifiedReader) ch t p :
  env_ok env -> Forall (fun u => 0 <= cu_cascade_depth u) us ->
  write_channel_batch_direct idx rc iter now env us = Ret (env', res) ->
  UnifiedReader_open layout_hash (be_segment env) cps = Ret (Ok r) ->
  is_uint 32 ch -> is_uint 8 t -> is_uint 32 p -> owned_by_modsrv t = true ->
  UnifiedReader_get_channel (be_segment env') r ch t p = UnifiedReader_get_channel (be_segment env) r ch t p.
Proof using Hcfg Halloc Hiter.
  intros Hok Hd Hrun Hopen Hch Ht Hp Hown.
  destruct (batch_impl_ok 3 env us ∅ Hok) as (env1 & r1 & Heq & Hok' & Hf & _);
    [rewrite Forall_forall in Hd |- *; intros u Hu; specialize (Hd u Hu); unfold depth_ok; lia | lia |].
  unfold write_channel_batch_direct in Hrun. rewrite Heq in Hrun. injection Hrun as -> ->.
  pose proof (reader_open_ok layout_hash _ _ _ Hopen) as Hal. rewrite Halloc in Hal. injection Hal as Hls Htot.
  destruct Hok as [Hw Hs], Hok' as [Hw' Hs']. pose proof (uwf_layout _ _ _ Hw) as Hl1. pose proof (uwf_layout _ _ _ Hw') as Hl2.
  rewrite Halloc in Hl1, Hl2. injection Hl1 as _ Ht1. injection Hl2 as _ Ht2.
  rewrite (get_channel_reading (be_segment env') (uw_inner (be_writer env')) r cps total) by
    (done || congruence || apply Hcfg || apply Hw').
  rewrite (get_channel_reading (be_segment env) (uw_inner (be_writer env)) r cps total) by
    (done || congruence || apply Hcfg || apply Hw).
  rewrite <- Hls. destruct (layouts_lookup ls ch t p) as [slot|] eqn:El; [| done]. rewrite Hf; [done |].
  intros (ch' & pt' & p' & Hm & Hch' & Hp' & El').
  destruct (layout_aliases_none cps ls total (cok_wf _ Hcfg) Halloc ch t p ch' (PointType_to_u8 pt') p' slot)
    as (_ & -> & _); try done; [apply to_u8_range |]. by destruct pt'.
Qed.

(** ** Delivery without forwarding *)

Definition update_slot (u : ChannelPointUpdate) : option nat :=
  ChannelToSlotIndex_lookup idx (cu_channel_id u) (cu_point_type u) (cu_point_id u).
Definition update_reading (ts : Z) (u : ChannelPointUpdate) : SlotRead :=
  mkSlotRead (cu_value u) (default (cu_value u) (cu_raw_value u)) ts.

(** The updates [us] are in the slots, and nothing else changed. *)
Definition delivered (ts : Z) (us : list ChannelPointUpdate) (env env' : BatchEnv C) : Prop :=
  (forall u slot, u ∈ us -> update_slot u = Some slot ->
     read_slot (be_segment env') total slot = Ret (Some (update_reading ts u))) /\
  (forall j, (forall u, u ∈ us -> update_slot u <> Some j) ->
     sg_slots (be_segment env') !! j = sg_slots (be_segment env) !! j).

Lemma read_slot_ext g g' i : sg_slots g' !! i = sg_slots g !! i -> read_slot g' total i = read_slot g total i.
Proof. intros H. unfold read_slot, slot_at. by rewrite H. Qed.

Lemma update_slot_inj u1 u2 slot : update_slot u1 = Some slot -> update_slot u2 = Some slot -> update_key u1 = update_key u2.
Proof using Hcfg Halloc.
  unfold update_slot, update_key. intros H1 H2. destruct (allocated_layouts_ok cps ls total Hcfg Halloc) as [Hok Hlen].
  destruct (forward_keys_nonneg ls _ _ _ _ Hok Hlen H1) as [Hc1 Hp1], (forward_keys_nonneg ls _ _ _ _ Hok Hlen H2) as [Hc2 Hp2].
  apply forward_spec in H1; [| done | done | solve_uint | solve_uint].
  apply forward_spec in H2; [| done | done | solve_uint | solve_uint].
  destruct (layout_aliases_none cps ls total (cok_wf _ Hcfg) Halloc _ _ _ _ _ _ slot Hc1 (proj1 (to_u8_range _)) Hp1
    Hc2 (proj1 (to_u8_range _)) Hp2 H1 H2) as (-> & Ht & -> & _).
  f_equal. f_equal. by destruct (cu_point_type u1), (cu_point_type u2).
Qed.

Lemma delivered_app ts us1 us2 env env1 env2 : NoDup (update_key <$> us1 ++ us2) ->
  delivered ts us1 env env1 -> delivered ts us2 env1 env2 -> delivered ts (us1 ++ us2) env env2.
Proof using Hcfg Halloc.
  intros Hnd [Hr1 Hf1] [Hr2 Hf2]. rewrite fmap_app in Hnd. apply NoDup_app in Hnd as (_ & Hdis & _). split.
  - intros u slot Hin Hs. apply elem_of_app in Hin as [Hin | Hin]; [| by apply Hr2].
    rewrite (read_slot_ext (be_segment env1)); [by apply Hr1 |]. apply Hf2. intros u2 Hu2 Hs2.
    apply (Hdis (update_key u)); [by apply list_elem_of_fmap_2 |].
    rewrite (update_slot_inj u u2 slot Hs Hs2). by apply list_elem_of_fmap_2.
  - intros j Hj. rewrite Hf2, Hf1; [done | |]; intros u Hu; apply Hj, elem_of_app; auto.
Qed.

Lemma direct_updates_delivered ts ch pt us : forall s,
  rc_c2c rc = ∅ -> env_ok (gs_env s) -> PointType_is_measurement pt = true ->
  Forall (fun u => (cu_channel_id u, cu_point_type u) = (ch, pt)) us -> NoDup (update_key <$> us) ->
  exists s', direct_updates idx rc ts ch pt s us = Ret s' /\ env_ok (gs_env s') /\ gs_forwards s' = gs_forwards s /\
    delivered ts us (gs_env s) (gs_env s').
Proof using Hcfg Halloc.
  intros s Hc. revert s. induction us as [|u us IH]; intros s Hok Hm Hk Hnd; cbn [direct_updates].
  - exists s. split; [done |]. split; [done |]. split; [done |]. split; [| done]. intros u slot Hu. by apply elem_of_nil in Hu.
  - apply Forall_cons in Hk as [Hu Hk]. injection Hu as Hch Hpt. pose proof Hnd as Hnd0. rewrite fmap_cons in Hnd.
    apply NoDup_cons in Hnd as [_ Hnd].
    assert (Hstep : exists s1, direct_update idx rc ts ch pt s u = Ret s1 /\ env_ok (gs_env s1) /\
      gs_forwards s1 = gs_forwards s /\ delivered ts [u] (gs_env s) (gs_env s1)).
    { unfold direct_update, route_c2c, RoutingCache_lookup_c2c_by_parts. rewrite Hc.
      destruct (ChannelToSlotIndex_lookup idx ch pt (cu_point_id u)) as [slot|] eqn:El.
      - destruct (write_point_ok (gs_env s) ch pt _ slot (cu_value u) (default (cu_value u) (cu_raw_value u)) ts Hok Hm El)
          as (env' & -> & H1 & _ & H3 & H4). cbn [outcome_bind]. eexists. split; [reflexivity |].
        rewrite lookup_empty. destruct (_ <? _); cbn [gs_env gs_forwards]; (split; [done |]; split; [done |]; split).
        all: try (intros j Hj; apply H4; intros ->; apply (Hj u); [by left | unfold update_slot; by rewrite Hch, Hpt]).
        all: intros u' slot' Hu' Hs'; apply list_elem_of_singleton in Hu' as ->; unfold update_slot in Hs';
          rewrite Hch, Hpt, El in Hs'; injection Hs' as <-; exact H3.
      - cbn [outcome_bind]. eexists. split; [reflexivity |]. rewrite lookup_empty.
        destruct (_ <? _); cbn [gs_env gs_forwards]; (split; [done |]; split; [done |]; split; [| done]).
        all: intros u' slot' Hu' Hs'; apply list_elem_of_singleton in Hu' as ->; unfold update_slot in Hs';
          rewrite Hch, Hpt, El in Hs'; discriminate. }
    destruct Hstep as (s1 & -> & Hok1 & Hfw1 & Hd1). cbn [outcome_bind].
    destruct (IH s1 Hok1 Hm Hk Hnd) as (s2 & -> & Hok2 & Hfw2 & Hd2). exists s2. split; [done |]. split; [done |].
    split; [congruence |]. by apply (delivered_app ts [u] us (gs_env s) (gs_env s1)).
Qed.

Lemma direct_groups_delivered recurse ts visited gs : forall env acc,
  rc_c2c rc = ∅ -> env_ok env -> groups_ok (fun _ => True) gs -> keyed gs ->
  NoDup (update_key <$> concat (map snd gs)) ->
  exists env' r, direct_groups idx rc recurse ts visited (env, acc) gs = Ret (env', r) /\ env_ok env' /\
    delivered ts (concat (map snd gs)) env env'.
Proof using Hcfg Halloc.
  intros env acc Hc. revert env acc. induction gs as [|[[ch pt] us] gs IH]; intros env acc Hok Hg Hk Hnd; cbn [direct_groups map concat snd].
  - exists env, acc. split; [done |]. split; [done |]. split; [| done]. intros u slot Hu. by apply elem_of_nil in Hu.
  - apply Forall_cons in Hg as [[Hm _] Hg]. apply Forall_cons in Hk as [Hku Hk]. cbn [fst snd map concat] in *.
    pose proof Hnd as Hnd0. rewrite fmap_app in Hnd. apply NoDup_app in Hnd as (Hnd1 & _ & Hnd2).
    destruct (direct_updates_delivered ts ch pt us (mkGroupState env visited [] acc) Hc Hok Hm Hku Hnd1)
      as (s & Hs & Hok1 & Hfw & Hd1). unfold direct_group at 1. rewrite Hs. cbn [outcome_bind gs_forwards] in *.
    rewrite Hfw. cbn [outcome_bind].
    destruct (IH (gs_env s) (gs_result s) Hok1 Hg Hk Hnd2) as (env' & r & -> & Hok2 & Hd2).
    exists env', r. split; [done |]. split; [done |]. by eapply delivered_app.
Qed.

Lemma batch_impl_unfold fuel env us visited : us <> [] ->
  write_channel_batch_direct_impl idx rc iter now (S fuel) env us visited =
  direct_groups idx rc (write_channel_batch_direct_impl idx rc iter now fuel) (now (be_calls env)) visited
    (mkBatchEnv (be_segment env) (be_writer env) (S (be_calls env)), BatchRoutingResult_default)
    (iter (group_updates us)).
Proof. by destruct us. Qed.

Lemma batch_delivered env us :
  rc_c2c rc = ∅ -> env_ok env -> NoDup (update_key <$> us) -> us <> [] ->
  exists env' r, write_channel_batch_direct idx rc iter now env us = Ret (env', r) /\ env_ok env' /\
    delivered (now (be_calls env)) (filter (fun u => measured_update u = true) us) env env'.
Proof using Hcfg Halloc Hiter.
  intros Hc Hok Hnd Hne. unfold write_channel_batch_direct. rewrite batch_impl_unfold by done.
  destruct (group_updates_keyed us) as [Hk Hp].
  destruct (group_updates_ok (fun _ => True) us) as [Hg _]; [by apply Forall_true |].
  assert (Hperm : concat (map snd (iter (group_updates us))) ≡ₚ filter (fun u => measured_update u = true) us).
  { rewrite <- Hp. apply group_concat_perm, Hiter. }
  destruct (direct_groups_delivered (write_channel_batch_direct_impl idx rc iter now 2) (now (be_calls env)) ∅ (iter (group_updates us))
    (mkBatchEnv (be_segment env) (be_writer env) (S (be_calls env))) BatchRoutingResult_default Hc Hok)
    as (env' & r & Hrun & Hok' & [Hd1 Hd2]).
  - unfold groups_ok. by rewrite Hiter.
  - unfold keyed. by rewrite Hiter.
  - rewrite Hperm. eapply sublist_NoDup; [exact Hnd |]. apply fmap_sublist, sublist_filter.
  - exists env', r. split; [exact Hrun |]. split; [done |]. split.
    + intros u' slot Hu'. apply Hd1. by rewrite Hperm.
    + intros j Hj. apply Hd2. intros u'. rewrite Hperm. apply Hj.
Qed.

(** C4: a poll cycle reaches shared memory: without forwarding routes and with each
    point at most once in the batch, every telemetry or signal point with a slot
    reads afterwards the value, raw value and timestamp of its update, in whatever
    order the groups are written, and every other slot is unchanged. *)
Theorem batch_direct_delivers env us :
  rc_c2c rc = ∅ -> env_ok env -> NoDup (update_key <$> us) -> us <> [] ->
  exists env' r, write_channel_batch_direct idx rc iter now env us = Ret (env', r) /\ env_ok env' /\
    delivered (now (be_calls env)) (filter (fun u => measured_update u = true) us) env env'.
Proof using Hcfg Halloc Hiter. apply batch_delivered. Qed.
End Spec.

(** * A false cycle *)

Definition forward_route : RoutingCache :=
  mkRoutingCache ∅ {[ (1, Telemetry, 2) := mkC2CTarget 1 Telemetry 0 f64_one f64_zero ]} ∅ ∅.
Definition sample_batch_env : BatchEnv bounded_queue := mkBatchEnv sample_segment sample_writer 0.
Definition sample_index : ChannelToSlotIndex := ChannelToSlotIndex_from_layouts sample_layouts.
Definition batch_counts (o : outcome (BatchEnv bounded_queue * BatchRoutingResult)) : option (nat * nat) :=
  match o with Ret (_, r) => Some (br_c2c_forwards r, br_cycles_detected r) | Panic => None end.

(** The visited set of a group holds every earlier point of the same batch, not only
    the points on the forwarding chain: with the single route from point 2 to
    point 0 and no cycle anywhere, the forward is skipped as a cycle when the batch
    lists point 0 first and made when it lists point 2 first. *)
Theorem batch_order_fakes_cycle :
  let p0 := ChannelPointUpdate_new 1 Telemetry 0 f64_one in
  let p2 := ChannelPointUpdate_new 1 Telemetry 2 f64_one in
  let run us := batch_counts (write_channel_batch_direct sample_index forward_route id (fun _ => 5) sample_batch_env us) in
  run [p0; p2] = Some (0, 1)%nat /\ run [p2; p0] = Some (1, 0)%nat.
Proof. vm_compute. split; reflexivity. Qed.

(** * Witnesses *)

Lemma sample_config_ok : config_ok sample_counts.
Proof. split; [apply sample_counts_wf |]. repeat constructor; simpl; lia. Qed.

Lemma sample_batch_env_ok : env_ok sample_counts sample_batch_env.
Proof. split; [apply sample_unified_wf | exact I]. Qed.

Lemma sample_alloc : allocate_layouts sample_counts = Ret (sample_layouts, 9%nat).
Proof. vm_compute. reflexivity. Qed.

Definition sample_updates : list ChannelPointUpdate :=
  [ChannelPointUpdate_new 1 Telemetry 2 f64_one; ChannelPointUpdate_new 4 Signal 1 f64_zero;
   ChannelPointUpdate_new 1 Control 0 f64_one].

Lemma batch_direct_total_witness : exists env' r,
  write_channel_batch_direct (ChannelToSlotIndex_from_layouts sample_layouts) forward_route reverse (fun _ => 5)
    sample_batch_env sample_updates = Ret (env', r) /\ env_ok sample_counts env' /\
  (br_channel_writes r + br_slot_misses r <= length sample_updates + br_c2c_forwards r)%nat /\
  (measured_routes forward_route -> Forall (fun u => measured_update u = true) sample_updates ->
   (br_channel_writes r + br_slot_misses r = length sample_updates + br_c2c_forwards r)%nat).
Proof.
  apply (batch_direct_total sample_counts sample_config_ok sample_layouts 9 sample_alloc);
    [intros gs; apply reverse_Permutation | apply sample_batch_env_ok | repeat constructor; cbn; lia].
Defined.

Lemma batch_direct_owner_safe_witness : exists env' res,
  write_channel_batch_direct (ChannelToSlotIndex_from_layouts sample_layouts) forward_route id (fun _ => 5)
    sample_batch_env sample_updates = Ret (env', res) /\
  UnifiedReader_get_channel (be_segment env') sample_reader 1 2 0 = UnifiedReader_get_channel sample_segment sample_reader 1 2 0.
Proof.
  eexists _, _. split; [vm_compute; reflexivity |].
  eapply (batch_direct_owner_safe sample_counts sample_config_ok sample_layouts 9 sample_alloc forward_route id
    (fun _ => reflexivity _) (fun _ => 5) sample_hash sample_batch_env sample_updates _ _ sample_reader 1 2 0);
    [apply sample_batch_env_ok | repeat constructor; cbn; lia | vm_compute; reflexivity | vm_compute; reflexivity
    | unfold is_uint; lia .. | reflexivity].
Defined.

Lemma batch_direct_delivers_witness : exists env' r,
  write_channel_batch_direct (ChannelToSlotIndex_from_layouts sample_layouts) RoutingCache_new reverse (fun _ => 5)
    sample_batch_env sample_updates = Ret (env', r) /\ env_ok sample_counts env' /\
  delivered sample_layouts 9 5 (filter (fun u => measured_update u = true) sample_updates) sample_batch_env env'.
Proof.
  apply (batch_direct_delivers sample_counts sample_config_ok sample_layouts 9 sample_alloc);
    [intros gs; apply reverse_Permutation | reflexivity | apply sample_batch_env_ok | | discriminate].
  apply (bool_decide_unpack _). vm_compute. exact I.
Defined.
