(* ===== verification/Rtdb.v ===== *)
(** The real-time database: [libs/voltage-rtdb/src/memory_impl.rs] (MemoryRtdb),
    [write_buffer.rs] (WriteBuffer), [numfmt.rs] and the batch helpers of [lib.rs].

    A DashMap is a finite map; its iteration order is whatever permutation the caller
    of a definition supplies.  [Bytes] are [string]s.  Number formatting by ryu and
    parsing of floats are parameters.  Operations on one store are atomic per key, as
    the shard locks make them; a flush is split at the database call, so writes can
    land while it is in flight.  The Redis client is the [HashRtdb] interface. *)
From stdpp Require Import base numbers list gmap strings sorting.
From Stdlib Require Import ZArith Lia Ascii.
From S2P Require Import Prelude PointTypes Routing.
Local Open Scope Z_scope.
Set Warnings "-clear-no-such-hyp".

(** * Numbers as text *)

Definition print_i64 (z : Z) : string :=
  if z <? 0 then ("-" +:+ dec_digits 20 (- z) "")%string else dec_digits 20 z "".
Definition i64_to_bytes (z : Z) : string := print_i64 z.

(** [str::parse::<i64>]: an optional sign, at least one digit, no overflow. *)
Fixpoint parse_digits_within (lo hi sign : Z) (s : string) (acc : Z) : option Z :=
  match s with
  | EmptyString => Some acc
  | String a s =>
      match digit_value a with
      | Some d =>
          let acc := acc * 10 + sign * d in
          if (lo <=? acc) && (acc <=? hi) then parse_digits_within lo hi sign s acc else None
      | None => None
      end
  end.
Definition I64_MAX : Z := 2 ^ 63 - 1.
Definition I64_MIN : Z := - 2 ^ 63.
Definition parse_i64 (s : string) : option Z :=
  match s with
  | EmptyString => None
  | String a s' =>
      if Ascii.eqb a "-"%char then match s' with EmptyString => None | _ => parse_digits_within I64_MIN I64_MAX (-1) s' 0 end
      else if Ascii.eqb a "+"%char then match s' with EmptyString => None | _ => parse_digits_within I64_MIN I64_MAX 1 s' 0 end
      else parse_digits_within I64_MIN I64_MAX 1 s 0
  end.

(** [PointIdCache]: strings of small point ids, filled on demand. *)
Definition PointIdCache : Type := list (option string).
Definition PointIdCache_DEFAULT_CAPACITY : nat := 1024.
Definition PointIdCache_with_capacity (n : nat) : PointIdCache := replicate n None.
Definition PointIdCache_new : PointIdCache := PointIdCache_with_capacity PointIdCache_DEFAULT_CAPACITY.
Definition PointIdCache_get (c : PointIdCache) (point_id : Z) : PointIdCache * string :=
  match c !! Z.to_nat point_id with
  | Some (Some cached) => (c, cached)
  | Some None => (<[Z.to_nat point_id := Some (print_u32 point_id)]> c, print_u32 point_id)
  | None => (c, print_u32 point_id)
  end.

(** * Keys *)

(** [KeySpaceConfig] in its production configuration ([libs/voltage-model/src/keyspace.rs]). *)
Definition instance_measurement_key (i : Z) : string := ("inst:" +:+ print_u32 i +:+ ":M")%string.
Definition instance_action_key (i : Z) : string := ("inst:" +:+ print_u32 i +:+ ":A")%string.
Definition instance_measurement_ts_key (i : Z) : string := ("inst:" +:+ print_u32 i +:+ ":M:ts")%string.
Definition instance_action_ts_key (i : Z) : string := ("inst:" +:+ print_u32 i +:+ ":A:ts")%string.
Definition channel_key (c : Z) (pt : PointType) : string := ("comsrv:" +:+ print_u32 c +:+ ":" +:+ PointType_as_str pt)%string.

(** * MemoryRtdb *)

Abbreviation Hash := (gmap string string).
Record MemoryRtdb := mkMemoryRtdb {
  kv_store : gmap string string;
  hash_store : gmap string Hash;
  list_store : gmap string (list string);
  set_store : gmap string (gset string)
}.
Definition MemoryRtdb_new : MemoryRtdb := mkMemoryRtdb ∅ ∅ ∅ ∅.
Definition MemoryRtdb_clear (db : MemoryRtdb) : MemoryRtdb := MemoryRtdb_new.
Record MemoryStats := mkMemoryStats { kv_count : nat; hash_count : nat; list_count : nat; set_count : nat }.
Definition MemoryRtdb_stats (db : MemoryRtdb) : MemoryStats :=
  mkMemoryStats (size (kv_store db)) (size (hash_store db)) (size (list_store db)) (size (set_store db)).

Definition with_kv (db : MemoryRtdb) kv := mkMemoryRtdb kv (hash_store db) (list_store db) (set_store db).
Definition with_hash (db : MemoryRtdb) h := mkMemoryRtdb (kv_store db) h (list_store db) (set_store db).
Definition with_list (db : MemoryRtdb) l := mkMemoryRtdb (kv_store db) (hash_store db) l (set_store db).
Definition with_set (db : MemoryRtdb) s := mkMemoryRtdb (kv_store db) (hash_store db) (list_store db) s.

Definition MemoryRtdb_get (db : MemoryRtdb) (key : string) : option string := kv_store db !! key.
Definition MemoryRtdb_set (db : MemoryRtdb) (key value : string) : MemoryRtdb := with_kv db (<[key := value]> (kv_store db)).
Definition MemoryRtdb_del (db : MemoryRtdb) (key : string) : MemoryRtdb * bool :=
  (with_kv db (delete key (kv_store db)), bool_decide (is_Some (kv_store db !! key))).
Definition MemoryRtdb_exists (db : MemoryRtdb) (key : string) : bool := bool_decide (is_Some (kv_store db !! key)).

Section Floats.
Variable parse_f64 : string -> option Z.
Variable f64_to_bytes : Z -> string.

Definition MemoryRtdb_incrbyfloat (db : MemoryRtdb) (key : string) (increment : Z) : MemoryRtdb * Z :=
  let entry := default "0"%string (kv_store db !! key) in
  let current := default f64_zero (parse_f64 entry) in
  let new_val := f64_add current increment in
  (with_kv db (<[key := f64_to_bytes new_val]> (kv_store db)), new_val).
End Floats.

(** ** Hashes *)

Definition entry_or_default (h : gmap string Hash) (key : string) : Hash := default ∅ (h !! key).
Definition insert_fields (fields : list (string * string)) (h : Hash) : Hash := foldl (fun h '(f, v) => <[f := v]> h) h fields.

Definition MemoryRtdb_hash_set (db : MemoryRtdb) (key field value : string) : MemoryRtdb :=
  with_hash db (<[key := <[field := value]> (entry_or_default (hash_store db) key)]> (hash_store db)).
Definition MemoryRtdb_hash_setnx (db : MemoryRtdb) (key field value : string) : MemoryRtdb * bool :=
  let entry := entry_or_default (hash_store db) key in
  match entry !! field with
  | Some _ => (with_hash db (<[key := entry]> (hash_store db)), false)
  | None => (with_hash db (<[key := <[field := value]> entry]> (hash_store db)), true)
  end.
Definition MemoryRtdb_hash_get (db : MemoryRtdb) (key field : string) : option string :=
  hash_store db !! key ≫= fun hash => hash !! field.
Definition MemoryRtdb_hash_mget (db : MemoryRtdb) (key : string) (fields : list string) : list (option string) :=
  match hash_store db !! key with
  | Some hash => map (fun f => hash !! f) fields
  | None => replicate (length fields) None
  end.
Definition MemoryRtdb_hash_mset (db : MemoryRtdb) (key : string) (fields : list (string * string)) : MemoryRtdb :=
  with_hash db (<[key := insert_fields fields (entry_or_default (hash_store db) key)]> (hash_store db)).
Definition MemoryRtdb_hash_get_all (db : MemoryRtdb) (key : string) : Hash := entry_or_default (hash_store db) key.
Definition MemoryRtdb_hash_del (db : MemoryRtdb) (key field : string) : MemoryRtdb * bool :=
  match hash_store db !! key with
  | Some hash => (with_hash db (<[key := delete field hash]> (hash_store db)), bool_decide (is_Some (hash !! field)))
  | None => (db, false)
  end.
Definition MemoryRtdb_hash_del_many (db : MemoryRtdb) (key : string) (fields : list string) : MemoryRtdb * nat :=
  match hash_store db !! key with
  | Some hash =>
      let '(hash, removed) :=
        foldl (fun '(hash, removed) f => (delete f hash, match hash !! f with Some _ => S removed | None => removed end)) (hash, 0%nat) fields in
      (with_hash db (<[key := hash]> (hash_store db)), removed)
  | None => (db, 0%nat)
  end.
(** The sum is an i64; release builds wrap. *)
Definition MemoryRtdb_hincrby (db : MemoryRtdb) (key field : string) (increment : Z) : MemoryRtdb * Z :=
  let hash := entry_or_default (hash_store db) key in
  let entry := default "0"%string (hash !! field) in
  let current := default 0 (parse_i64 entry) in
  let new_val := to_signed 64 (wrap 64 (current + increment)) in
  (with_hash db (<[key := <[field := i64_to_bytes new_val]> hash]> (hash_store db)), new_val).

Definition HashMsetOps : Type := list (string * list (string * string)).
Definition mset_op (h : gmap string Hash) (op : string * list (string * string)) : gmap string Hash :=
  match op.2 with
  | [] => h
  | fields => <[op.1 := insert_fields fields (entry_or_default h op.1)]> h
  end.
Definition mset_ops (h : gmap string Hash) (ops : HashMsetOps) : gmap string Hash := foldl mset_op h ops.
Definition MemoryRtdb_pipeline_hash_mset (db : MemoryRtdb) (operations : HashMsetOps) : MemoryRtdb :=
  with_hash db (mset_ops (hash_store db) operations).

(** ** Lists *)

Definition MemoryRtdb_list_lpush (db : MemoryRtdb) (key value : string) : MemoryRtdb :=
  with_list db (<[key := value :: default [] (list_store db !! key)]> (list_store db)).
Definition MemoryRtdb_list_rpush (db : MemoryRtdb) (key value : string) : MemoryRtdb :=
  with_list db (<[key := default [] (list_store db !! key) ++ [value]]> (list_store db)).
Definition MemoryRtdb_list_lpop (db : MemoryRtdb) (key : string) : MemoryRtdb * option string :=
  match list_store db !! key with
  | Some (v :: l) => (with_list db (<[key := l]> (list_store db)), Some v)
  | _ => (db, None)
  end.
Definition MemoryRtdb_list_rpop (db : MemoryRtdb) (key : string) : MemoryRtdb * option string :=
  match list_store db !! key with
  | Some l => match last l with Some v => (with_list db (<[key := removelast l]> (list_store db)), Some v) | None => (db, None) end
  | None => (db, None)
  end.

(** One pass of [list_blpop] over the keys, and its polling loop: [polls] are the
    states of the database and the elapsed seconds the polls find; [None] is a loop
    that is still waiting. *)
Fixpoint blpop_pass (db : MemoryRtdb) (keys : list string) : option (MemoryRtdb * (string * string)) :=
  match keys with
  | [] => None
  | key :: keys =>
      match MemoryRtdb_list_lpop db key with
      | (db, Some value) => Some (db, (key, value))
      | (_, None) => blpop_pass db keys
      end
  end.
Fixpoint MemoryRtdb_list_blpop (keys : list string) (timeout : Z) (polls : list (MemoryRtdb * Z))
    : option (MemoryRtdb * option (string * string)) :=
  match polls with
  | [] => None
  | (db, waited) :: polls =>
      match blpop_pass db keys with
      | Some (db, kv) => Some (db, Some kv)
      | None => if timeout <=? waited then Some (db, None) else MemoryRtdb_list_blpop keys timeout polls
      end
  end.

(** [isize] arguments, [usize] results; [stop + 1] wraps in release builds. *)
Definition normalize_list_indices (len start stop : Z) : Z * Z :=
  let start_idx := if start <? 0 then Z.max (len + start) 0 else Z.min start len in
  let stop_idx := if stop <? 0 then Z.max (len + stop + 1) 0 else wrap 64 (Z.min (to_signed 64 (wrap 64 (stop + 1))) len) in
  (start_idx, stop_idx).
(** [Vec::with_capacity] panics beyond [isize::MAX] bytes; a [Bytes] has 32. *)
Definition capacity_ok (count : Z) : bool := count * 32 <=? I64_MAX.
Definition slice_list (l : list string) (start_idx stop_idx : Z) : list string :=
  take (Z.to_nat (stop_idx - start_idx)) (drop (Z.to_nat start_idx) l).
Definition MemoryRtdb_list_range (db : MemoryRtdb) (key : string) (start stop : Z) : outcome (list string) :=
  match list_store db !! key with
  | Some l =>
      let '(start_idx, stop_idx) := normalize_list_indices (Z.of_nat (length l)) start stop in
      if start_idx <? stop_idx then
        if capacity_ok (stop_idx - start_idx) then Ret (slice_list l start_idx stop_idx) else Panic
      else Ret []
  | None => Ret []
  end.
Definition MemoryRtdb_list_trim (db : MemoryRtdb) (key : string) (start stop : Z) : MemoryRtdb :=
  match list_store db !! key with
  | Some l =>
      let len := Z.of_nat (length l) in
      let '(start_idx, stop_idx) := normalize_list_indices len start stop in
      let l := if (start_idx <? stop_idx) && (stop_idx <=? len) then slice_list l start_idx stop_idx else [] in
      with_list db (<[key := l]> (list_store db))
  | None => db
  end.

(** ** Sets and scans *)

Definition MemoryRtdb_sadd (db : MemoryRtdb) (key member : string) : MemoryRtdb * bool :=
  let set := default ∅ (set_store db !! key) in
  (with_set db (<[key := {[member]} ∪ set]> (set_store db)), negb (bool_decide (member ∈ set))).
Definition MemoryRtdb_srem (db : MemoryRtdb) (key member : string) : MemoryRtdb * bool :=
  match set_store db !! key with
  | Some set => (with_set db (<[key := set ∖ {[member]}]> (set_store db)), bool_decide (member ∈ set))
  | None => (db, false)
  end.
Definition MemoryRtdb_smembers (order : gset string -> list string) (db : MemoryRtdb) (key : string) : list string :=
  match set_store db !! key with Some set => order set | None => [] end.

(** The glob becomes a regular expression: [*] is any text, [?] any character, every
    other character is taken over as it is. *)
Fixpoint glob_to_regex (pattern : string) : string :=
  match pattern with
  | EmptyString => EmptyString
  | String a s =>
      if Ascii.eqb a "*"%char then (".*" +:+ glob_to_regex s)%string
      else if Ascii.eqb a "?"%char then String "." (glob_to_regex s)
      else String a (glob_to_regex s)
  end.
Definition key_le (a b : string) : Prop := String.leb a b = true.
#[export] Instance key_le_dec : RelDecision key_le.
Proof. intros a b. unfold key_le. apply _. Defined.
(** [regex] compiles an expression to a matcher, or fails.  Sorting and removing
    duplicates makes the order in which the stores are walked irrelevant. *)
Definition MemoryRtdb_scan_match (regex : string -> option (string -> bool)) (db : MemoryRtdb) (pattern : string) : option (list string) :=
  match regex ("^" +:+ glob_to_regex pattern +:+ "$")%string with
  | Some is_match =>
      let keys := dom (kv_store db) ∪ dom (hash_store db) ∪ dom (list_store db) in
      Some (merge_sort key_le (filter (fun k => is_match k = true) (elements keys)))
  | None => None
  end.

(** * WriteBuffer *)

Record WriteBufferConfig := mkWriteBufferConfig {
  flush_interval_ms : Z;
  max_fields_per_key : nat;
  max_pending_keys : nat;
  key_ttl_seconds : option Z
}.
(** The limits are written as products so that no large unary number is built before
    it is used. *)
Definition WriteBufferConfig_default : WriteBufferConfig := mkWriteBufferConfig 20 (100 * 10) (100 * 100) None.
Definition WriteBufferConfig_low_latency : WriteBufferConfig := mkWriteBufferConfig 10 500 (100 * 100) None.
Definition WriteBufferConfig_high_throughput : WriteBufferConfig := mkWriteBufferConfig 50 (100 * 20) (100 * 200) None.

Record WriteBufferStats := mkWriteBufferStats {
  buffered_writes : Z;
  flush_count : Z;
  fields_flushed : Z;
  forced_flushes : Z;
  flush_errors : Z;
  overflow_drops : Z
}.
Definition WriteBufferStats_default : WriteBufferStats := mkWriteBufferStats 0 0 0 0 0 0.
Definition add_buffered (n : Z) (s : WriteBufferStats) : WriteBufferStats :=
  mkWriteBufferStats (wrapping_add 64 (buffered_writes s) n) (flush_count s) (fields_flushed s) (forced_flushes s) (flush_errors s) (overflow_drops s).
Definition add_flushed (n : Z) (s : WriteBufferStats) : WriteBufferStats :=
  mkWriteBufferStats (buffered_writes s) (wrapping_add 64 (flush_count s) 1) (wrapping_add 64 (fields_flushed s) n) (forced_flushes s) (flush_errors s) (overflow_drops s).
Definition add_forced (s : WriteBufferStats) : WriteBufferStats :=
  mkWriteBufferStats (buffered_writes s) (flush_count s) (fields_flushed s) (wrapping_add 64 (forced_flushes s) 1) (flush_errors s) (overflow_drops s).
Definition add_flush_error (s : WriteBufferStats) : WriteBufferStats :=
  mkWriteBufferStats (buffered_writes s) (flush_count s) (fields_flushed s) (forced_flushes s) (wrapping_add 64 (flush_errors s) 1) (overflow_drops s).
Definition add_drops (n : Z) (s : WriteBufferStats) : WriteBufferStats :=
  mkWriteBufferStats (buffered_writes s) (flush_count s) (fields_flushed s) (forced_flushes s) (flush_errors s) (wrapping_add 64 (overflow_drops s) n).

Record BufferOverflow := mkBufferOverflow { bo_key : string; bo_dropped_fields : nat; bo_pending_keys : nat; bo_max_pending_keys : nat }.

(** [wb_notified] is the permit stored in the [Notify]. *)
Record WriteBuffer := mkWriteBuffer {
  wb_pending : gmap string Hash;
  wb_notified : bool;
  wb_config : WriteBufferConfig;
  wb_stats : WriteBufferStats;
  wb_last_expire_secs : Z
}.
Definition WriteBuffer_new (config : WriteBufferConfig) : WriteBuffer := mkWriteBuffer ∅ false config WriteBufferStats_default 0.

Definition buffer_full (b : WriteBuffer) (key : string) : bool :=
  (max_pending_keys (wb_config b) <=? size (wb_pending b))%nat && negb (bool_decide (is_Some (wb_pending b !! key))).
Definition buffer_drop (b : WriteBuffer) (key : string) (dropped : nat) : WriteBuffer * result unit BufferOverflow :=
  (mkWriteBuffer (wb_pending b) true (wb_config b) (add_drops (Z.of_nat dropped) (wb_stats b)) (wb_last_expire_secs b),
   Err (mkBufferOverflow key dropped (size (wb_pending b)) (max_pending_keys (wb_config b)))).
Definition buffer_fields (b : WriteBuffer) (key : string) (fields : list (string * string)) : WriteBuffer * result unit BufferOverflow :=
  let entry := insert_fields fields (entry_or_default (wb_pending b) key) in
  let force := (max_fields_per_key (wb_config b) <=? size entry)%nat in
  let stats := add_buffered (Z.of_nat (length fields)) (wb_stats b) in
  (mkWriteBuffer (<[key := entry]> (wb_pending b)) (wb_notified b || force) (wb_config b)
     (if force then add_forced stats else stats) (wb_last_expire_secs b), Ok tt).

Definition WriteBuffer_buffer_hash_set (b : WriteBuffer) (key field value : string) : WriteBuffer * result unit BufferOverflow :=
  if buffer_full b key then buffer_drop b key 1 else buffer_fields b key [(field, value)].
Definition WriteBuffer_buffer_hash_mset (b : WriteBuffer) (key : string) (fields : list (string * string))
    : WriteBuffer * result unit BufferOverflow :=
  match fields with
  | [] => (b, Ok tt)
  | _ => if buffer_full b key then buffer_drop b key (length fields) else buffer_fields b key fields
  end.

(** [or_insert]: a field that has a fresher value keeps it. *)
Definition requeue_fields (fields : list (string * string)) (h : Hash) : Hash :=
  foldl (fun h '(f, v) => match h !! f with Some _ => h | None => <[f := v]> h end) h fields.
Definition WriteBuffer_requeue_failed (b : WriteBuffer) (operations : HashMsetOps) : WriteBuffer :=
  mkWriteBuffer (foldl (fun p '(key, fields) => <[key := requeue_fields fields (entry_or_default p key)]> p) (wb_pending b) operations)
    (wb_notified b) (wb_config b) (wb_stats b) (wb_last_expire_secs b).

(** The non-empty entries, in the orders the maps iterate in. *)
Record DrainOrder := mkDrainOrder {
  do_keys : list (string * Hash) -> list (string * Hash);
  do_fields : Hash -> list (string * string)
}.
Definition WriteBuffer_drain_pending (o : DrainOrder) (b : WriteBuffer) : WriteBuffer * HashMsetOps :=
  (mkWriteBuffer ∅ (wb_notified b) (wb_config b) (wb_stats b) (wb_last_expire_secs b),
   map (fun kh => (kh.1, do_fields o kh.2)) (filter (fun kh => kh.2 <> ∅) (do_keys o (map_to_list (wb_pending b))))).

Definition WriteBuffer_pending_keys (b : WriteBuffer) : nat := size (wb_pending b).
Definition WriteBuffer_pending_fields (b : WriteBuffer) : nat := list_sum (map (fun kh => size kh.2) (map_to_list (wb_pending b))).

(** [flush] before and after the database call.  [flush_end] returns the keys whose
    expiry is refreshed, with the TTL. *)
Definition field_count (ops : HashMsetOps) : nat := list_sum (map (fun op => length op.2) ops).
Definition flush_end (b : WriteBuffer) (ops : HashMsetOps) (ok : bool) (now : Z) : WriteBuffer * list (string * Z) * option nat :=
  if ok then
    let '(b, expired) :=
      match key_ttl_seconds (wb_config b) with
      | Some ttl =>
          if 300 <=? saturating_sub now (wb_last_expire_secs b)
          then (mkWriteBuffer (wb_pending b) (wb_notified b) (wb_config b) (wb_stats b) now, map (fun op => (op.1, ttl)) ops)
          else (b, [])
      | None => (b, [])
      end in
    (mkWriteBuffer (wb_pending b) (wb_notified b) (wb_config b) (add_flushed (Z.of_nat (field_count ops)) (wb_stats b)) (wb_last_expire_secs b),
     expired, Some (field_count ops))
  else (WriteBuffer_requeue_failed b ops, [], None).

(** * The interface to a database *)

(** A database that can fail; [rt_view] is its hash part. *)
Class HashRtdb (W : Type) := {
  rt_pipeline_hash_mset : W -> HashMsetOps -> W * bool;
  rt_hash_mset : W -> string -> list (string * string) -> W * bool;
  rt_view : W -> gmap string Hash
}.
(** What callers rely on: a call that reports success has applied its fields. *)
Class HashRtdbSpec (W : Type) `{HashRtdb W} : Prop := {
  rt_pipeline_ok w ops w' : rt_pipeline_hash_mset w ops = (w', true) -> rt_view w' = mset_ops (rt_view w) ops;
  rt_mset_ok w key fields w' : rt_hash_mset w key fields = (w', true) ->
    rt_view w' = <[key := insert_fields fields (entry_or_default (rt_view w) key)]> (rt_view w);
}.
#[export] Instance memory_hash_rtdb : HashRtdb MemoryRtdb := {
  rt_pipeline_hash_mset db ops := (MemoryRtdb_pipeline_hash_mset db ops, true);
  rt_hash_mset db key fields := (MemoryRtdb_hash_mset db key fields, true);
  rt_view := hash_store
}.
#[export] Instance memory_hash_rtdb_spec : HashRtdbSpec MemoryRtdb.
Proof. split; intros; simplify_eq/=; done. Qed.

Section Flush.
Context {W : Type} `{!HashRtdb W}.

(** [flush], [flush_now], and one iteration of [flush_loop]. *)
Definition WriteBuffer_flush (o : DrainOrder) (b : WriteBuffer) (w : W) (now : Z) : WriteBuffer * W * list (string * Z) * option nat :=
  match WriteBuffer_drain_pending o b with
  | (b, []) => (b, w, [], Some 0%nat)
  | (b, ops) =>
      let '(w, ok) := rt_pipeline_hash_mset w ops in
      let '(b, expired, n) := flush_end b ops ok now in
      (b, w, expired, n)
  end.
Definition flush_loop_step (o : DrainOrder) (b : WriteBuffer) (w : W) (now : Z) : WriteBuffer * W * list (string * Z) :=
  let b := mkWriteBuffer (wb_pending b) false (wb_config b) (wb_stats b) (wb_last_expire_secs b) in
  match WriteBuffer_flush o b w now with
  | (b, w, expired, Some _) => (b, w, expired)
  | (b, w, expired, None) =>
      (mkWriteBuffer (wb_pending b) (wb_notified b) (wb_config b) (add_flush_error (wb_stats b)) (wb_last_expire_secs b), w, expired)
  end.

(** * Batch helpers *)
Variable f64_to_bytes : Z -> string.

(** The three layers of a channel: values, timestamps, raw values. *)
Definition layer_fields (points : list (Z * Z * Z)) (timestamp_ms : Z)
    : list (string * string) * list (string * string) * list (string * string) :=
  (map (fun '(p, v, _) => (print_u32 p, f64_to_bytes v)) points,
   map (fun '(p, _, _) => (print_u32 p, i64_to_bytes timestamp_ms)) points,
   map (fun '(p, _, r) => (print_u32 p, f64_to_bytes r)) points).
Definition write_channel_points (w : W) (channel_key : string) (points : list (Z * Z * Z)) (timestamp_ms : Z) : W * option nat :=
  match points with
  | [] => (w, Some 0%nat)
  | _ =>
      let '(values, timestamps, raw_values) := layer_fields points timestamp_ms in
      let '(w, ok) := rt_pipeline_hash_mset w
        [(channel_key, values); ((channel_key +:+ ":ts")%string, timestamps); ((channel_key +:+ ":raw")%string, raw_values)] in
      (w, if ok then Some (length points) else None)
  end.
End Flush.

Definition dropped_of (r : result unit BufferOverflow) : nat := match r with Ok _ => 0%nat | Err e => bo_dropped_fields e end.
Definition buffer_channel_points (f64_to_bytes : Z -> string) (b : WriteBuffer) (channel_key : string) (points : list (Z * Z * Z)) (timestamp_ms : Z)
    : WriteBuffer * nat :=
  match points with
  | [] => (b, 0%nat)
  | _ =>
      let '(values, timestamps, raw_values) := layer_fields f64_to_bytes points timestamp_ms in
      let '(b, r1) := WriteBuffer_buffer_hash_mset b channel_key values in
      let '(b, r2) := WriteBuffer_buffer_hash_mset b (channel_key +:+ ":ts")%string timestamps in
      let '(b, r3) := WriteBuffer_buffer_hash_mset b (channel_key +:+ ":raw")%string raw_values in
      (b, ((length points * 3 - dropped_of r1 - dropped_of r2 - dropped_of r3) `div` 3)%nat)
  end.

(** * Hash data up to empty hashes *)

Definition hget (h : gmap string Hash) (key field : string) : option string := h !! key ≫= fun hash => hash !! field.
Definition same_data (a b : gmap string Hash) : Prop := forall k f, hget a k f = hget b k f.
Infix "≡ₕ" := same_data (at level 70).
#[export] Instance same_data_equivalence : Equivalence same_data.
Proof. split; [done | intros a b H k f; by rewrite H | intros a b c H1 H2 k f; by rewrite H1, H2]. Qed.

(** The first choice that is present. *)
#[export] Instance option_choice_assoc {A} : Assoc (=) (union (A:=option A)).
Proof. intros [] [] []; done. Qed.

Lemma insert_fields_union fs : forall h, insert_fields fs h = list_to_map (reverse fs) ∪ h.
Proof.
  induction fs as [|[f v] fs IH] using rev_ind; intros h; [symmetry; exact (left_id_L ∅ (∪) h) |].
  unfold insert_fields in *. rewrite foldl_app, reverse_snoc. cbn [foldl]. rewrite IH, list_to_map_cons. by rewrite insert_union_l.
Qed.

Lemma requeue_fields_union fs : forall h, requeue_fields fs h = h ∪ list_to_map fs.
Proof.
  induction fs as [|[f v] fs IH]; intros h; [symmetry; exact (right_id_L ∅ (∪) h) |].
  unfold requeue_fields in *. cbn [foldl]. rewrite IH, list_to_map_cons. destruct (h !! f) as [w|] eqn:E.
  - apply map_eq. intros g. rewrite !lookup_union. destruct (decide (f = g)) as [<- | Hne].
    + rewrite E. by rewrite !union_Some_l.
    + by rewrite lookup_insert_ne.
  - rewrite <- insert_union_l. by rewrite insert_union_r.
Qed.

Lemma hget_insert h k m k' f : hget (<[k := m]> h) k' f = if decide (k = k') then m !! f else hget h k' f.
Proof. unfold hget. case_decide as Hk; [subst; by rewrite lookup_insert_eq | by rewrite lookup_insert_ne]. Qed.

Lemma entry_lookup h k f : entry_or_default h k !! f = hget h k f.
Proof. unfold entry_or_default, hget. by destruct (h !! k). Qed.

(** The fields an operation writes. *)
Definition op_get (op : string * list (string * string)) (k f : string) : option string :=
  if decide (op.1 = k) then list_to_map (M:=Hash) (reverse op.2) !! f else None.

Lemma hget_mset_op h op k f : hget (mset_op h op) k f = op_get op k f ∪ hget h k f.
Proof.
  destruct op as [key fs]. unfold op_get. cbn [fst snd].
  assert (He : hget (<[key := insert_fields fs (entry_or_default h key)]> h) k f =
    (if decide (key = k) then list_to_map (M:=Hash) (reverse fs) !! f else None) ∪ hget h k f).
  { rewrite hget_insert, insert_fields_union, lookup_union, entry_lookup. case_decide; [by subst | by rewrite (left_id_L None (∪))]. }
  destruct fs as [|p fs]; [| exact He]. cbn. case_decide; by rewrite ?lookup_empty, (left_id_L None (∪)).
Qed.

(** Later operations win. *)
Fixpoint ops_get (ops : HashMsetOps) (k f : string) : option string :=
  match ops with [] => None | op :: ops => ops_get ops k f ∪ op_get op k f end.

Lemma hget_mset_ops ops : forall h k f, hget (mset_ops h ops) k f = ops_get ops k f ∪ hget h k f.
Proof.
  induction ops as [|op ops IH]; intros h k f; cbn; [by rewrite (left_id_L None (∪)) |].
  unfold mset_ops in IH. by rewrite IH, hget_mset_op, (assoc_L (∪)).
Qed.

#[export] Instance mset_ops_proper : Proper (same_data ==> eq ==> same_data) mset_ops.
Proof. intros a b H ? ops -> k f. by rewrite !hget_mset_ops, H. Qed.

(** ** Operations with distinct keys and fields *)

Record ops_wf (ops : HashMsetOps) : Prop := {
  wf_keys : NoDup ops.*1;
  wf_fields : Forall (fun op => NoDup op.2.*1) ops
}.

Lemma op_get_nodup op k f : NoDup op.2.*1 -> op_get op k f = if decide (op.1 = k) then list_to_map (M:=Hash) op.2 !! f else None.
Proof.
  intros Hnd. unfold op_get. case_decide; [| done]. f_equal. apply list_to_map_proper; [| apply reverse_Permutation].
  by rewrite reverse_Permutation.
Qed.

Lemma ops_get_absent ops k f : k ∉ ops.*1 -> ops_get ops k f = None.
Proof.
  induction ops as [|op ops IH]; [done |]. cbn [ops_get fmap list_fmap]. intros [Hne Hnin]%not_elem_of_cons.
  rewrite IH by done. unfold op_get. by rewrite decide_False.
Qed.

Lemma ops_get_elem ops k f v : ops_wf ops -> ops_get ops k f = Some v <-> exists fs, (k, fs) ∈ ops /\ (f, v) ∈ fs.
Proof.
  intros [Hk Hf]. induction ops as [|[key fs] ops IH]; cbn [ops_get].
  - split; [done | intros (fs & H & _); by apply not_elem_of_nil in H].
  - apply NoDup_cons in Hk as [Hnin Hk]. apply Forall_cons in Hf as [Hfs Hf]. rewrite op_get_nodup by done. cbn [fst snd].
    specialize (IH Hk Hf). setoid_rewrite elem_of_cons. destruct (decide (key = k)) as [-> | Hne].
    + rewrite ops_get_absent, (left_id_L None (∪)), <- elem_of_list_to_map by done. split; [by eauto |].
      intros (fs' & [[= ->] | Hin] & Hv); [done |]. exfalso. apply Hnin. apply list_elem_of_fmap. by exists (k, fs').
    + rewrite (right_id_L None (∪)), IH. split; intros (fs' & H & Hv); exists fs'; split; auto. by destruct H as [[= -> _] | ].
Qed.

(** Requeued operations give way to what is pending. *)
Lemma hget_requeue ops : ops_wf ops -> forall b k f,
  hget (wb_pending (WriteBuffer_requeue_failed b ops)) k f = hget (wb_pending b) k f ∪ ops_get ops k f.
Proof.
  intros [Hk Hf] b. unfold WriteBuffer_requeue_failed. cbn [wb_pending]. generalize (wb_pending b).
  induction ops as [|[key fs] ops IH]; intros p k f; cbn [foldl ops_get]; [by rewrite (right_id_L None (∪)) |].
  apply NoDup_cons in Hk as [Hnin Hk]. apply Forall_cons in Hf as [Hfs Hf]. rewrite IH by done.
  rewrite hget_insert, op_get_nodup by done. cbn [fst snd]. destruct (decide (key = k)) as [<- | Hne].
  - by rewrite requeue_fields_union, lookup_union, entry_lookup, ops_get_absent, (left_id_L None (∪)), (right_id_L None (∪)).
  - by rewrite (right_id_L None (∪)).
Qed.

(** * The buffer between its writers and the database

    Writers buffer fields at any time; one flusher drains the buffer, calls the
    database and finishes.  A failed call may have applied any part of its fields. *)

Definition order_ok (o : DrainOrder) : Prop := (forall l, do_keys o l ≡ₚ l) /\ (forall h, do_fields o h ≡ₚ map_to_list h).

Record BufferSystem := mkBufferSystem { bs_buffer : WriteBuffer; bs_flight : option HashMsetOps; bs_db : gmap string Hash }.

Definition applied_in_part (db : gmap string Hash) (ops : HashMsetOps) (db' : gmap string Hash) : Prop :=
  forall k f, hget db' k f = hget db k f \/ hget db' k f = ops_get ops k f ∪ hget db k f.

(** The label holds the accepted write, if the step is one. *)
Definition accepted_op (r : result unit BufferOverflow) (op : string * list (string * string)) : HashMsetOps :=
  match r with Ok _ => [op] | Err _ => [] end.
Inductive buffer_step : BufferSystem -> HashMsetOps -> BufferSystem -> Prop :=
| Step_set b fl db k f v b' r : WriteBuffer_buffer_hash_set b k f v = (b', r) ->
    buffer_step (mkBufferSystem b fl db) (accepted_op r (k, [(f, v)])) (mkBufferSystem b' fl db)
| Step_mset b fl db k fs b' r : WriteBuffer_buffer_hash_mset b k fs = (b', r) ->
    buffer_step (mkBufferSystem b fl db) (accepted_op r (k, fs)) (mkBufferSystem b' fl db)
| Step_drain b db o b' ops : order_ok o -> WriteBuffer_drain_pending o b = (b', ops) ->
    buffer_step (mkBufferSystem b None db) [] (mkBufferSystem b' (match ops with [] => None | _ => Some ops end) db)
| Step_flushed b ops db now b' expired n : flush_end b ops true now = (b', expired, n) ->
    buffer_step (mkBufferSystem b (Some ops) db) [] (mkBufferSystem b' None (mset_ops db ops))
| Step_failed b ops db now b' expired n db' : flush_end b ops false now = (b', expired, n) -> applied_in_part db ops db' ->
    buffer_step (mkBufferSystem b (Some ops) db) [] (mkBufferSystem b' None db').

Inductive buffer_run : BufferSystem -> HashMsetOps -> BufferSystem -> Prop :=
| Run_nil s : buffer_run s [] s
| Run_snoc s acc s1 l s2 : buffer_run s acc s1 -> buffer_step s1 l s2 -> buffer_run s (acc ++ l) s2.

(** What a reader of the database will see once everything has been flushed. *)
Definition flight_get (fl : option HashMsetOps) (k f : string) : option string := fl ≫= fun ops => ops_get ops k f.
Definition eventual (s : BufferSystem) (k f : string) : option string :=
  hget (wb_pending (bs_buffer s)) k f ∪ (flight_get (bs_flight s) k f ∪ hget (bs_db s) k f).

Lemma buffer_fields_get b k fs k' f :
  hget (wb_pending (buffer_fields b k fs).1) k' f = op_get (k, fs) k' f ∪ hget (wb_pending b) k' f.
Proof.
  unfold buffer_fields, op_get. cbn [fst snd wb_pending]. rewrite hget_insert, insert_fields_union, lookup_union, entry_lookup.
  case_decide; [by subst | by rewrite (left_id_L None (∪))].
Qed.

Lemma buffer_mset_get b k fs b' r : WriteBuffer_buffer_hash_mset b k fs = (b', r) ->
  forall k' f, hget (wb_pending b') k' f = ops_get (accepted_op r (k, fs)) k' f ∪ hget (wb_pending b) k' f.
Proof.
  intros H k' f. unfold WriteBuffer_buffer_hash_mset in H. destruct fs as [|p fs].
  - injection H as <- <-. cbn [accepted_op ops_get]. unfold op_get. cbn [fst snd].
    by case_decide; rewrite (left_id_L None (∪)), ?reverse_nil, ?list_to_map_nil, ?lookup_empty, (left_id_L None (∪)).
  - destruct (buffer_full b k).
    + injection H as <- <-. cbn [wb_pending accepted_op ops_get]. by rewrite (left_id_L None (∪)).
    + assert (Hb : b' = (buffer_fields b k (p :: fs)).1) by (by rewrite H). assert (Hr : r = Ok tt) by (by injection H).
      subst. cbn [accepted_op ops_get]. by rewrite (left_id_L None (∪)), buffer_fields_get.
Qed.

(** A single field is a batch of one. *)
Lemma buffer_set_mset b k f v : WriteBuffer_buffer_hash_set b k f v = WriteBuffer_buffer_hash_mset b k [(f, v)].
Proof. done. Qed.

Lemma drain_spec o b b' ops : order_ok o -> WriteBuffer_drain_pending o b = (b', ops) ->
  ops_wf ops /\ (forall k f, ops_get ops k f = hget (wb_pending b) k f) /\ wb_pending b' = ∅.
Proof.
  intros [Hok Hof] H. unfold WriteBuffer_drain_pending in H. injection H as <- <-.
  set (l := filter (fun kh => kh.2 <> ∅) (do_keys o (map_to_list (wb_pending b)))).
  assert (Hl : forall k h, (k, h) ∈ l <-> wb_pending b !! k = Some h /\ h <> ∅).
  { intros k h. unfold l. rewrite list_elem_of_filter, (Hok _), elem_of_map_to_list. naive_solver. }
  assert (Hwf : ops_wf (map (fun kh => (kh.1, do_fields o kh.2)) l)).
  { split.
    - rewrite <- list_fmap_compose. assert (Hs : sublist (fst <$> l) (fst <$> do_keys o (map_to_list (wb_pending b)))).
      { apply fmap_sublist, sublist_filter. }
      eapply sublist_NoDup; [| exact Hs]. rewrite (Hok _). apply NoDup_fst_map_to_list.
    - apply Forall_map, Forall_forall. intros [k h] _. cbn. rewrite (Hof _). apply NoDup_fst_map_to_list. }
  split; [exact Hwf |]. split; [| done]. intros k f. apply option_eq. intros v. rewrite ops_get_elem by done.
  unfold hget. split.
  - intros (fs & ([k' h] & [= -> ->] & [Hp _]%Hl)%list_elem_of_fmap & Hv). rewrite Hp. cbn. by rewrite (Hof _), elem_of_map_to_list in Hv.
  - intros Hv. destruct (wb_pending b !! k) as [h|] eqn:E; cbn in Hv; [| done]. exists (do_fields o h). split.
    + apply list_elem_of_fmap. exists (k, h). split; [done |]. apply Hl. split; [done |]. intros ->. by rewrite lookup_empty in Hv.
    + by rewrite (Hof _), elem_of_map_to_list.
Qed.

Definition flight_wf (s : BufferSystem) : Prop := match bs_flight s with Some ops => ops_wf ops | None => True end.

(** A step adds the accepted write to what will be read, on top of all before. *)
Lemma buffer_step_eventual s l s' : flight_wf s -> buffer_step s l s' ->
  flight_wf s' /\ forall k f, eventual s' k f = ops_get l k f ∪ eventual s k f.
Proof.
  intros Hwf Hstep. destruct Hstep as [b fl db k f v b' r H | b fl db k fs b' r H | b db o b' ops Ho H | b ops db now b' ex n H | b ops db now b' ex n db' H Hp];
    unfold flight_wf, eventual in *; cbn [bs_buffer bs_flight bs_db] in *.
  - rewrite buffer_set_mset in H. split; [done |]. intros k' f'. by rewrite (buffer_mset_get _ _ _ _ _ H), <- (assoc_L (∪)).
  - split; [done |]. intros k' f'. by rewrite (buffer_mset_get _ _ _ _ _ H), <- (assoc_L (∪)).
  - destruct (drain_spec _ _ _ _ Ho H) as (Hops & Hget & ->). split; [by destruct ops |]. intros k f. cbn [ops_get].
    assert (Hfl : flight_get (match ops with [] => None | _ => Some ops end) k f = ops_get ops k f) by (by destruct ops).
    rewrite Hfl, Hget. unfold hget at 1, flight_get. rewrite lookup_empty. cbn. by destruct (hget (wb_pending b) k f), (hget db k f).
  - unfold flush_end in H. assert (Hb : wb_pending b' = wb_pending b) by (repeat case_match; simplify_eq/=; done). rewrite Hb.
    split; [done |]. intros k f. rewrite hget_mset_ops. cbn. by destruct (hget (wb_pending b) k f), (ops_get ops k f), (hget db k f).
  - injection H as <- <- <-. split; [done |]. intros k f. rewrite hget_requeue by done. cbn.
    destruct (Hp k f) as [-> | ->]; by destruct (hget (wb_pending b) k f), (ops_get ops k f), (hget db k f).
Qed.

Lemma ops_get_app a b k f : ops_get (a ++ b) k f = ops_get b k f ∪ ops_get a k f.
Proof. induction a as [|op a IH]; cbn; [by destruct (ops_get b k f) | by rewrite IH, (assoc_L (∪))]. Qed.

Lemma buffer_run_eventual config db0 acc s : buffer_run (mkBufferSystem (WriteBuffer_new config) None db0) acc s ->
  flight_wf s /\ forall k f, eventual s k f = ops_get acc k f ∪ hget db0 k f.
Proof.
  remember (mkBufferSystem (WriteBuffer_new config) None db0) as s0 eqn:E0.
  induction 1 as [s | s acc s1 l s2 Hrun IH Hstep]; subst.
  - split; [done |]. intros k f. unfold eventual. cbn. unfold hget at 1. rewrite lookup_empty. by destruct (hget db0 k f).
  - destruct (IH eq_refl) as [Hwf Hev]. destruct (buffer_step_eventual _ _ _ Hwf Hstep) as [Hwf' Hev']. split; [done |].
    intros k f. by rewrite Hev', Hev, ops_get_app, (assoc_L (∪)).
Qed.

(** C14: the write buffer loses no accepted write and never lets an older value replace a
    newer one: in every interleaving of writers with flushes that succeed or fail,
    also in part, the pending fields over the ones in flight over the database are
    the accepted writes, in order, applied to the initial database; when nothing is
    pending or in flight, that is what the database holds. *)
Theorem buffer_preserves_writes config db0 acc s :
  buffer_run (mkBufferSystem (WriteBuffer_new config) None db0) acc s ->
  (forall k f, eventual s k f = hget (mset_ops db0 acc) k f) /\
  (wb_pending (bs_buffer s) = ∅ -> bs_flight s = None -> bs_db s ≡ₕ mset_ops db0 acc).
Proof.
  intros Hrun. destruct (buffer_run_eventual _ _ _ _ Hrun) as [_ Hev]. split.
  - intros k f. by rewrite Hev, hget_mset_ops.
  - intros Hp Hf k f. rewrite hget_mset_ops, <- Hev. unfold eventual. rewrite Hp, Hf. unfold hget at 2. rewrite lookup_empty. by destruct (hget (bs_db s) k f).
Qed.

Definition list_order : DrainOrder := mkDrainOrder (fun l => l) map_to_list.
Lemma list_order_ok : order_ok list_order.
Proof. split; done. Qed.

(** Two writes of a field around a flush that fails after applying the first. *)
Definition low_latency_system : BufferSystem := mkBufferSystem (WriteBuffer_new WriteBufferConfig_low_latency) None ∅.
Lemma buffer_preserves_writes_witness :
  exists s, buffer_run low_latency_system [("comsrv:1:T", [("1", "10")]); ("comsrv:1:T", [("1", "11")])] s /\ bs_flight s = None /\
    hget (bs_db s) "comsrv:1:T" "1" = Some "10" /\ eventual s "comsrv:1:T" "1" = Some "11".
Proof.
  set (k := "comsrv:1:T").
  set (b1 := (WriteBuffer_buffer_hash_set (WriteBuffer_new WriteBufferConfig_low_latency) k "1" "10").1).
  set (ops := [(k, [("1", "10")])]). set (b2 := (WriteBuffer_drain_pending list_order b1).1).
  set (b3 := (WriteBuffer_buffer_hash_set b2 k "1" "11").1).
  set (s := mkBufferSystem (flush_end b3 ops false 0).1.1 None {[ k := {[ "1" := "10" ]} ]}).
  assert (Hrun : buffer_run low_latency_system [(k, [("1", "10")]); (k, [("1", "11")])] s).
  { change [(k, [("1", "10")]); (k, [("1", "11")])] with (((([] ++ [(k, [("1", "10")])]) ++ []) ++ [(k, [("1", "11")])]) ++ [] : HashMsetOps).
    eapply Run_snoc; [eapply Run_snoc; [eapply Run_snoc; [eapply Run_snoc; [apply Run_nil |] |] |] |].
    - change [(k, [("1", "10")])] with (accepted_op (Ok tt) (k, [("1", "10")])). apply (Step_set _ None ∅ k "1" "10" b1). vm_compute. reflexivity.
    - apply (Step_drain b1 ∅ list_order b2 ops list_order_ok). vm_compute. reflexivity.
    - change [(k, [("1", "11")])] with (accepted_op (Ok tt) (k, [("1", "11")])). apply (Step_set b2 (Some ops) ∅ k "1" "11" b3). vm_compute. reflexivity.
    - eapply (Step_failed b3 ops ∅ 0 _ [] None); [vm_compute; reflexivity |]. intros k' f. right.
      unfold ops, hget. cbn [ops_get]. unfold op_get. cbn [fst snd]. rewrite lookup_empty. destruct (decide (k = k')) as [<- | Hne].
      + rewrite lookup_singleton_eq. cbn. by destruct (decide ("1" = f)) as [<- | Hn]; [vm_compute | rewrite lookup_singleton_ne, lookup_insert_ne, lookup_empty].
      + by rewrite lookup_singleton_ne. }
  exists s. split; [exact Hrun |]. split; [reflexivity |]. split; [vm_compute; reflexivity |].
  rewrite (proj1 (buffer_preserves_writes _ _ _ _ Hrun)). vm_compute. reflexivity.
Defined.

(** ** The limit on pending keys *)

Lemma buffer_mset_size b k fs b' r : WriteBuffer_buffer_hash_mset b k fs = (b', r) -> wb_config b' = wb_config b /\
  ((size (wb_pending b) <= max_pending_keys (wb_config b))%nat -> (size (wb_pending b') <= max_pending_keys (wb_config b))%nat).
Proof.
  intros H. unfold WriteBuffer_buffer_hash_mset in H. destruct fs as [|p fs]; [by injection H as <- <- |].
  destruct (buffer_full b k) eqn:E; [by injection H as <- <- |].
  assert (Hb : b' = (buffer_fields b k (p :: fs)).1) by (by rewrite H). subst b'. unfold buffer_fields. cbn [fst wb_config wb_pending].
  split; [done |]. intros Hle. unfold buffer_full in E. rewrite map_size_insert. destruct (wb_pending b !! k) eqn:Ek; [done |].
  rewrite bool_decide_eq_false_2 in E by (intros [? ?]; done).
  rewrite andb_true_r in E. apply Nat.leb_gt in E. lia.
Qed.

Lemma requeue_size ops : forall b, (size (wb_pending (WriteBuffer_requeue_failed b ops)) <= size (wb_pending b) + length ops)%nat.
Proof.
  intros b. unfold WriteBuffer_requeue_failed. cbn [wb_pending]. generalize (wb_pending b).
  induction ops as [|[k fs] ops IH]; intros p; cbn [foldl length]; [lia |].
  etransitivity; [apply IH |]. rewrite map_size_insert. case_match; cbn; lia.
Qed.

(** Only a failed flush can raise the number of pending keys above the limit. *)
Lemma pending_keys_step s l s' : buffer_step s l s' ->
  wb_config (bs_buffer s') = wb_config (bs_buffer s) /\
  ((size (wb_pending (bs_buffer s)) <= max_pending_keys (wb_config (bs_buffer s)))%nat ->
   (size (wb_pending (bs_buffer s')) <= max_pending_keys (wb_config (bs_buffer s)))%nat \/
   exists ops, bs_flight s = Some ops /\ bs_flight s' = None /\
     (size (wb_pending (bs_buffer s')) <= size (wb_pending (bs_buffer s)) + length ops)%nat).
Proof.
  destruct 1 as [b fl db k f v b' r H | b fl db k fs b' r H | b db o b' ops Ho H | b ops db now b' ex n H | b ops db now b' ex n db' H Hp];
    cbn [bs_buffer bs_flight].
  - rewrite buffer_set_mset in H. apply buffer_mset_size in H as [Hc Hs]. split; [done |]. intros Hle. left. auto.
  - apply buffer_mset_size in H as [Hc Hs]. split; [done |]. intros Hle. left. auto.
  - unfold WriteBuffer_drain_pending in H. injection H as <- _. cbn [wb_config wb_pending]. split; [done |]. intros _. left. rewrite map_size_empty. lia.
  - unfold flush_end in H. assert (Hb : wb_pending b' = wb_pending b /\ wb_config b' = wb_config b) by (repeat case_match; simplify_eq/=; done).
    destruct Hb as [-> ->]. split; [done |]. intros Hle. by left.
  - injection H as <- <- <-. split; [done |]. intros _. right. exists ops. split; [done |]. split; [done |]. apply requeue_size.
Qed.

Lemma keys_size (h : gmap string Hash) keys : NoDup keys -> (forall k, k ∈ keys -> exists f v, hget h k f = Some v) -> (length keys <= size h)%nat.
Proof.
  intros Hnd Hk. rewrite <- size_dom, <- (size_list_to_set (C:=gset string)) by done. apply subseteq_size.
  intros k Hin%elem_of_list_to_set. destruct (Hk k Hin) as (f & v & Hv). apply elem_of_dom. unfold hget in Hv.
  by destruct (h !! k).
Qed.

(** One round with an unreachable database: drain, buffer a new key, fail. *)
Lemma failed_round b k : (1 <= max_pending_keys (wb_config b))%nat -> exists l b',
  buffer_run (mkBufferSystem b None ∅) l (mkBufferSystem b' None ∅) /\ wb_config b' = wb_config b /\
  (forall k' f, hget (wb_pending b') k' f = op_get (k, [("f", "v")]) k' f ∪ hget (wb_pending b) k' f).
Proof.
  intros Hmax. destruct (WriteBuffer_drain_pending list_order b) as [b1 ops] eqn:Ed.
  destruct (drain_spec _ _ _ _ list_order_ok Ed) as (Hwf & Hget & Hb1).
  assert (Hc : wb_config b1 = wb_config b) by (unfold WriteBuffer_drain_pending in Ed; by injection Ed as <- _).
  destruct (WriteBuffer_buffer_hash_set b1 k "f" "v") as [b2 r] eqn:E2.
  assert (Hb2 : b2 = (buffer_fields b1 k [("f", "v")]).1 /\ r = Ok tt).
  { unfold WriteBuffer_buffer_hash_set, buffer_full in E2. rewrite Hb1, map_size_empty, Hc in E2.
    rewrite (proj2 (Nat.leb_gt _ _)) in E2 by lia. cbn [andb] in E2. rewrite E2. split; [done |]. by injection E2. }
  destruct Hb2 as [-> ->].
  assert (Hg : forall k' f, hget (wb_pending (buffer_fields b1 k [("f", "v")]).1) k' f = op_get (k, [("f", "v")]) k' f).
  { intros k' f. rewrite buffer_fields_get, Hb1. unfold hget. rewrite lookup_empty. apply (right_id_L None (∪)). }
  pose proof (Run_snoc _ _ _ _ _ (Run_snoc _ _ _ _ _ (Run_nil _) (Step_drain b ∅ list_order b1 ops list_order_ok Ed)) (Step_set _ _ ∅ _ _ _ _ _ E2)) as Hrun.
  destruct ops as [|op ops].
  - eexists _, _. split; [exact Hrun |]. split; [done |]. intros k' f. rewrite Hg, <- Hget. symmetry. apply (right_id_L None (∪)).
  - eexists _, (WriteBuffer_requeue_failed (buffer_fields b1 k [("f", "v")]).1 (op :: ops)). split.
    + eapply Run_snoc; [exact Hrun |]. eapply (Step_failed _ _ _ 0); [reflexivity |]. intros k' f. by left.
    + split; [done |]. intros k' f. by rewrite hget_requeue, Hg, Hget.
Qed.

Lemma buffer_run_trans s acc s1 acc' s2 : buffer_run s acc s1 -> buffer_run s1 acc' s2 -> buffer_run s (acc ++ acc') s2.
Proof.
  intros H1. induction 1 as [s' | s' acc' s'' l s2 Hrun IH Hstep]; [by rewrite app_nil_r |].
  rewrite (assoc_L (++)). eapply Run_snoc; [by apply IH | done].
Qed.

(** The limit on pending keys does not hold while the database is unreachable: drained
    keys are put back without a check while new keys take their place, so for every
    number there is a run of failing flushes after which more keys are pending,
    whatever limit (of at least one) is configured. *)
Theorem pending_keys_unbounded_on_failure config n : (1 <= max_pending_keys config)%nat ->
  exists acc s, buffer_run (mkBufferSystem (WriteBuffer_new config) None ∅) acc s /\ bs_db s = ∅ /\ (n < size (wb_pending (bs_buffer s)))%nat.
Proof.
  intros Hmax.
  assert (H : exists acc b keys, buffer_run (mkBufferSystem (WriteBuffer_new config) None ∅) acc (mkBufferSystem b None ∅) /\
    wb_config b = config /\ NoDup keys /\ length keys = S n /\ forall k, k ∈ keys -> exists f v, hget (wb_pending b) k f = Some v).
  { induction (S n) as [|m IH].
    - exists [], (WriteBuffer_new config), []. split; [constructor |]. split; [done |]. split; [constructor |]. split; [done |].
      intros k Hk. by apply not_elem_of_nil in Hk.
    - destruct IH as (acc & b & keys & Hrun & Hc & Hnd & Hlen & Hk). set (k := fresh keys).
      destruct (failed_round b k) as (l & b' & Hrun' & Hc' & Hg); [by rewrite Hc |].
      exists (acc ++ l), b', (k :: keys). split; [by eapply buffer_run_trans |]. split; [congruence |].
      split; [constructor; [apply infinite_is_fresh | done] |]. split; [cbn; lia |].
      intros k' [-> | Hin]%elem_of_cons.
      + exists "f", "v". rewrite Hg. unfold op_get. cbn [fst snd]. rewrite decide_True by done.
        rewrite reverse_singleton. cbn. by rewrite lookup_insert_eq, union_Some_l.
      + destruct (Hk k' Hin) as (f & v & Hv). destruct (op_get (k, [("f", "v")]) k' f) as [w|] eqn:Ew.
        * exists f, w. rewrite Hg, Ew. apply union_Some_l.
        * exists f, v. rewrite Hg, Ew, Hv. apply (left_id_L None (∪)). }
  destruct H as (acc & b & keys & Hrun & _ & Hnd & Hlen & Hk). exists acc, (mkBufferSystem b None ∅). split; [done |]. split; [done |].
  cbn [bs_buffer]. pose proof (keys_size _ _ Hnd Hk). lia.
Qed.

Lemma pending_keys_unbounded_on_failure_witness :
  exists acc s, buffer_run low_latency_system acc s /\ bs_db s = ∅ /\ (300 * 300 < size (wb_pending (bs_buffer s)))%nat.
Proof. apply (pending_keys_unbounded_on_failure WriteBufferConfig_low_latency). cbn [max_pending_keys WriteBufferConfig_low_latency]. lia. Defined.

(** * Ranges of lists *)

(** Redis's definition: the elements from [start] to [stop], both included, negative
    indices counting from the end. *)
Definition from_end (len i : Z) : Z := if i <? 0 then len + i else i.
Fixpoint range_from (i lo hi : Z) (l : list string) : list string :=
  match l with
  | [] => []
  | x :: l => (if (lo <=? i) && (i <=? hi) then [x] else []) ++ range_from (i + 1) lo hi l
  end.
Definition redis_range (l : list string) (start stop : Z) : list string :=
  let len := Z.of_nat (length l) in range_from 0 (from_end len start) (from_end len stop) l.

Lemma range_from_slice l : forall i lo hi,
  range_from i lo hi l = take (Z.to_nat (hi + 1 - Z.max lo i)) (drop (Z.to_nat (lo - i)) l).
Proof.
  induction l as [|x l IH]; intros i lo hi; cbn [range_from]; [by rewrite drop_nil, take_nil |]. rewrite IH.
  destruct (Z.leb_spec lo i) as [Hlo | Hlo].
  - replace (Z.to_nat (lo - i)) with 0%nat by lia. replace (Z.to_nat (lo - (i + 1))) with 0%nat by lia. rewrite !drop_0.
    rewrite !Z.max_r by lia. destruct (Z.leb_spec i hi) as [Hhi | Hhi]; cbn [andb app].
    + replace (Z.to_nat (hi + 1 - i)) with (S (Z.to_nat (hi + 1 - (i + 1)))) by lia. done.
    + replace (Z.to_nat (hi + 1 - i)) with 0%nat by lia. replace (Z.to_nat (hi + 1 - (i + 1))) with 0%nat by lia. done.
  - cbn [andb app]. replace (Z.to_nat (lo - i)) with (S (Z.to_nat (lo - (i + 1)))) by lia. cbn [drop]. f_equal. lia.
Qed.

Lemma take_all_same {A} (n m : nat) (l : list A) : (n = m \/ length l <= n /\ length l <= m)%nat -> take n l = take m l.
Proof. intros [-> | [Hn Hm]]; [done |]. by rewrite !take_ge by lia. Qed.

Lemma slice_range l start stop : - 2 ^ 63 <= start -> - 2 ^ 63 <= stop < 2 ^ 63 - 1 -> Z.of_nat (length l) < 2 ^ 58 ->
  let '(a, b) := normalize_list_indices (Z.of_nat (length l)) start stop in
  0 <= a <= Z.of_nat (length l) /\ 0 <= b <= Z.of_nat (length l) /\
  redis_range l start stop = if a <? b then slice_list l a b else [].
Proof.
  intros Hs Ht Hl. unfold normalize_list_indices, redis_range, from_end, slice_list. set (len := Z.of_nat (length l)) in *.
  rewrite (to_signed_wrap 64) by (change (2 ^ (64 - 1)) with (2 ^ 63); lia).
  set (a := if start <? 0 then Z.max (len + start) 0 else Z.min start len).
  set (b := if stop <? 0 then Z.max (len + stop + 1) 0 else wrap 64 (Z.min (stop + 1) len)).
  assert (Hb : b = Z.max 0 (Z.min ((if stop <? 0 then len + stop else stop) + 1) len)).
  { unfold b. destruct (Z.ltb_spec stop 0); [lia |]. rewrite wrap_small by (unfold is_uint; change (2 ^ 64) with (2 * 2 ^ 63); lia). lia. }
  assert (Ha : a = Z.max 0 (Z.min (if start <? 0 then len + start else start) len)) by (unfold a; destruct (Z.ltb_spec start 0); lia).
  clearbody a b. set (lo := if start <? 0 then len + start else start) in *. set (hi := if stop <? 0 then len + stop else stop) in *.
  split; [lia |]. split; [lia |]. rewrite range_from_slice.
  replace (drop (Z.to_nat (lo - 0)) l) with (drop (Z.to_nat a) l).
  2: { destruct (Z.le_gt_cases lo len); [f_equal; lia |]. rewrite !drop_ge by lia. done. }
  assert (Hd : length (drop (Z.to_nat a) l) = Z.to_nat (len - a)) by (rewrite length_drop; lia).
  destruct (Z.ltb_spec a b).
  - apply take_all_same. rewrite Hd. lia.
  - destruct (Z.le_gt_cases len a) as [Hge | Hlt].
    + rewrite drop_ge by lia. apply take_nil.
    + replace (Z.to_nat (hi + 1 - Z.max lo 0)) with 0%nat by lia. done.
Qed.

(** [list_range] and [list_trim] are Redis's LRANGE and LTRIM: for indices short of
    the largest [isize] they give the elements from start to stop, counted from the end
    when negative, and trimming keeps exactly those. *)
Theorem list_range_is_redis db key l start stop :
  list_store db !! key = Some l -> - 2 ^ 63 <= start -> - 2 ^ 63 <= stop < 2 ^ 63 - 1 -> Z.of_nat (length l) < 2 ^ 58 ->
  MemoryRtdb_list_range db key start stop = Ret (redis_range l start stop) /\
  list_store (MemoryRtdb_list_trim db key start stop) = <[key := redis_range l start stop]> (list_store db).
Proof.
  intros Hl Hs Ht Hlen. unfold MemoryRtdb_list_range, MemoryRtdb_list_trim. rewrite Hl.
  pose proof (slice_range l start stop Hs Ht Hlen) as H. destruct (normalize_list_indices _ start stop) as [a b].
  destruct H as (Ha & Hb & ->). destruct (Z.ltb_spec a b).
  - unfold capacity_ok. replace ((b - a) * 32 <=? I64_MAX) with true; [| symmetry; apply Z.leb_le; unfold I64_MAX; lia].
    split; [done |]. cbn [andb]. by rewrite (proj2 (Z.leb_le _ _)) by lia.
  - split; done.
Qed.

Lemma list_range_is_redis_witness :
  let db := MemoryRtdb_list_rpush (MemoryRtdb_list_rpush (MemoryRtdb_list_rpush MemoryRtdb_new "q" "a") "q" "b") "q" "c" in
  MemoryRtdb_list_range db "q" (-2) (-1) = Ret ["b"; "c"] /\
  list_store (MemoryRtdb_list_trim db "q" (-2) (-1)) = <[ "q" := ["b"; "c"] ]> (list_store db).
Proof.
  intros db. change ["b"; "c"] with (redis_range ["a"; "b"; "c"] (-2) (-1)).
  apply (list_range_is_redis db "q" ["a"; "b"; "c"] (-2) (-1)); [vm_compute; reflexivity | lia | lia | cbn; lia].
Defined.

(** With the largest index, which Redis clients pass for "to the end", [stop + 1] wraps
    and the capacity of the result overflows. *)
Lemma list_range_max_panics db key l : list_store db !! key = Some l -> l <> [] -> Z.of_nat (length l) < 2 ^ 63 ->
  MemoryRtdb_list_range db key 0 I64_MAX = Panic.
Proof.
  intros Hl Hne Hlen. unfold MemoryRtdb_list_range, normalize_list_indices. rewrite Hl. cbn [Z.ltb Z.compare].
  destruct l as [|x l]; [done |]. cbn [length] in *.
  change (to_signed 64 (wrap 64 (I64_MAX + 1))) with (- 2 ^ 63). rewrite (Z.min_l (- 2 ^ 63)) by lia.
  change (I64_MAX <? 0) with false. change (wrap 64 (- 2 ^ 63)) with (2 ^ 63). rewrite Z.min_l by lia.
  reflexivity.
Qed.
