(* ===== verification/BatchRedis.v ===== *)
(** Batch writes to Redis: [libs/voltage-routing/src/batch.rs].

    A batch of channel updates is written to the hashes of its channels (value,
    timestamp and raw value), copied to the instance points it feeds, and forwarded
    along the channel-to-channel routes, recursively.  [write_channel_batch] writes to
    the database at once, [write_channel_batch_buffered] to the write buffer.  The two
    functions of the source share their walk over groups and forwards; here the walk
    is one definition and the writes of a group a parameter of it.  The hash maps are
    FxHashMaps: [iter] and [iter_inst] are the orders they iterate in, deterministic
    functions of what was inserted.  [now] is the clock each call reads, [None] before
    the epoch. *)
From stdpp Require Import base numbers list gmap strings.
From Stdlib Require Import ZArith Lia.
From S2P Require Import Prelude PointTypes SlotIndex Routing BatchDirect Rtdb.
Local Open Scope Z_scope.
Set Warnings "-clear-no-such-hyp".

(** * Collecting a group *)

(** [instance_writes.entry(id).or_default().push(field)] *)
Fixpoint push_field (id : Z) (fv : string * string) (m : list (Z * list (string * string))) : list (Z * list (string * string)) :=
  match m with
  | [] => [(id, [fv])]
  | (id', fs) :: m => if id' =? id then (id', fs ++ [fv]) :: m else (id', fs) :: push_field id fv m
  end.

Record GroupPlan := mkGroupPlan {
  gp_points : list (Z * Z * Z);
  gp_instance_writes : list (Z * list (string * string));
  gp_instance_ts_writes : list (Z * list (string * string));
  gp_forwards : list ChannelPointUpdate;
  gp_visited : gset point_key;
  gp_cycles : nat
}.

(** All updates are grouped, whatever their type. *)
Definition group_all (us : list ChannelPointUpdate) : list group := foldl (fun gs u => push_group u gs) [] us.

Section Batch.
Variable rc : RoutingCache.
Variable iter : list group -> list group.
Variable iter_inst : list (Z * list (string * string)) -> list (Z * list (string * string)).
Variable f64_to_bytes : Z -> string.

Definition plan_c2m (ts channel_id : Z) (pt : PointType) (u : ChannelPointUpdate) (p : GroupPlan) : GroupPlan :=
  match RoutingCache_lookup_c2m_by_parts rc channel_id pt (cu_point_id u) with
  | Some target =>
      let field := print_u32 (c2m_point_id target) in
      mkGroupPlan (gp_points p)
        (push_field (c2m_instance_id target) (field, f64_to_bytes (cu_value u)) (gp_instance_writes p))
        (push_field (c2m_instance_id target) (field, i64_to_bytes ts) (gp_instance_ts_writes p))
        (gp_forwards p) (gp_visited p) (gp_cycles p)
  | None => p
  end.

Definition plan_c2c (channel_id : Z) (pt : PointType) (u : ChannelPointUpdate) (p : GroupPlan) : GroupPlan :=
  if cu_cascade_depth u <? MAX_C2C_CASCADE_DEPTH then
    match RoutingCache_lookup_c2c_by_parts rc channel_id pt (cu_point_id u) with
    | Some target =>
        if decide ((c2c_channel_id target, c2c_point_type target, c2c_point_id target) ∈ gp_visited p)
        then mkGroupPlan (gp_points p) (gp_instance_writes p) (gp_instance_ts_writes p) (gp_forwards p) (gp_visited p) (S (gp_cycles p))
        else mkGroupPlan (gp_points p) (gp_instance_writes p) (gp_instance_ts_writes p)
               (gp_forwards p ++ [mkUpdate (c2c_channel_id target) (c2c_point_type target) (c2c_point_id target)
                                    (C2CTarget_transform target (cu_value u)) None (cu_cascade_depth u + 1)])
               (gp_visited p) (gp_cycles p)
    | None => p
    end
  else p.

Definition plan_update (ts channel_id : Z) (pt : PointType) (p : GroupPlan) (u : ChannelPointUpdate) : GroupPlan :=
  let raw_value := default (cu_value u) (cu_raw_value u) in
  let p := mkGroupPlan (gp_points p ++ [(cu_point_id u, cu_value u, raw_value)]) (gp_instance_writes p) (gp_instance_ts_writes p)
             (gp_forwards p) ({[ (channel_id, pt, cu_point_id u) ]} ∪ gp_visited p) (gp_cycles p) in
  plan_c2c channel_id pt u (plan_c2m ts channel_id pt u p).

Definition plan_group (ts channel_id : Z) (pt : PointType) (visited : gset point_key) (us : list ChannelPointUpdate) : GroupPlan :=
  foldl (plan_update ts channel_id pt) (mkGroupPlan [] [] [] [] visited 0) us.

(** * The walk *)

Definition add_writes (n : nat) (r : BatchRoutingResult) : BatchRoutingResult :=
  mkBatchResult (br_channel_writes r + n) (br_c2m_writes r) (br_c2c_forwards r) (br_cycles_detected r) (br_slot_misses r).
Definition add_c2m (r : BatchRoutingResult) : BatchRoutingResult :=
  mkBatchResult (br_channel_writes r) (S (br_c2m_writes r)) (br_c2c_forwards r) (br_cycles_detected r) (br_slot_misses r).
Definition add_cycles (n : nat) (r : BatchRoutingResult) : BatchRoutingResult :=
  mkBatchResult (br_channel_writes r) (br_c2m_writes r) (br_c2c_forwards r) (br_cycles_detected r + n) (br_slot_misses r).
Definition add_misses (n : nat) (r : BatchRoutingResult) : BatchRoutingResult :=
  mkBatchResult (br_channel_writes r) (br_c2m_writes r) (br_c2c_forwards r) (br_cycles_detected r) (br_slot_misses r + n).

Section Walk.
Context {S : Type}.
(** The writes of a group: [None] is an error that ends the batch. *)
Variable emit : S -> Z -> Z * PointType -> GroupPlan -> BatchRoutingResult -> S * option BatchRoutingResult.
Variable clock : nat -> option Z.

(** The state, the number of calls made, the result or an error. *)
Definition walk_out : Type := option (S * nat * option BatchRoutingResult).

Fixpoint walk_groups (recurse : S -> nat -> list ChannelPointUpdate -> gset point_key -> walk_out) (ts : Z) (visited : gset point_key)
    (s : S) (calls : nat) (r : BatchRoutingResult) (gs : list group) : walk_out :=
  match gs with
  | [] => Some (s, calls, Some r)
  | (key, us) :: gs =>
      let p := plan_group ts key.1 key.2 visited us in
      match emit s ts key p (add_cycles (gp_cycles p) r) with
      | (s, None) => Some (s, calls, None)
      | (s, Some r) =>
          match gp_forwards p with
          | [] => walk_groups recurse ts visited s calls r gs
          | forwards =>
              match recurse s calls forwards (gp_visited p) with
              | Some (s, calls, Some sub) =>
                  walk_groups recurse ts visited s calls (BatchRoutingResult_merge (add_forwards r (length forwards)) sub) gs
              | out => out
              end
          end
      end
  end.

Fixpoint batch_walk (fuel : nat) (s : S) (calls : nat) (us : list ChannelPointUpdate) (visited : gset point_key) : walk_out :=
  match fuel with
  | O => None
  | Datatypes.S fuel =>
      match us with
      | [] => Some (s, calls, Some BatchRoutingResult_default)
      | _ =>
          match clock calls with
          | Some ts => walk_groups (batch_walk fuel) ts visited s (Datatypes.S calls) BatchRoutingResult_default (iter (group_all us))
          | None => Some (s, Datatypes.S calls, None)
          end
      end
  end.
End Walk.

(** The call itself and at most [MAX_C2C_CASCADE_DEPTH] levels of forwards. *)
Definition batch_fuel : nat := 3.

(** * Direct writes *)

Section Direct.
Context {W : Type} `{HR : !HashRtdb W}.
Variable now : nat -> option Z.

Fixpoint mset_instances (key : Z -> string) (w : W) (l : list (Z * list (string * string))) : W * bool :=
  match l with
  | [] => (w, true)
  | (id, fields) :: l => let '(w, ok) := rt_hash_mset w (key id) fields in if ok then mset_instances key w l else (w, false)
  end.

Definition emit_redis (w : W) (ts : Z) (key : Z * PointType) (p : GroupPlan) (r : BatchRoutingResult) : W * option BatchRoutingResult :=
  match write_channel_points f64_to_bytes w (channel_key key.1 key.2) (gp_points p) ts with
  | (w, None) => (w, None)
  | (w, Some written) =>
      let r := add_writes written r in
      match mset_instances instance_measurement_key w (iter_inst (gp_instance_writes p)) with
      | (w, false) => (w, None)
      | (w, true) =>
          let r := foldl (fun r _ => add_c2m r) r (iter_inst (gp_instance_writes p)) in
          match mset_instances instance_measurement_ts_key w (iter_inst (gp_instance_ts_writes p)) with
          | (w, false) => (w, None)
          | (w, true) => (w, Some r)
          end
      end
  end.

Definition write_channel_batch_impl (fuel : nat) : W -> nat -> list ChannelPointUpdate -> gset point_key -> walk_out :=
  batch_walk emit_redis now fuel.
Definition write_channel_batch (w : W) (us : list ChannelPointUpdate) : walk_out :=
  write_channel_batch_impl batch_fuel w 0 us ∅.
End Direct.

(** * Buffered writes *)

Section Buffered.
Variable now : nat -> option Z.

Definition buffer_instance (key : Z -> string) (b : WriteBuffer) (r : BatchRoutingResult) (idf : Z * list (string * string))
    : WriteBuffer * BatchRoutingResult :=
  let '(b, res) := WriteBuffer_buffer_hash_mset b (key idf.1) idf.2 in (b, add_misses (dropped_of res) r).

Definition emit_buffered (b : WriteBuffer) (ts : Z) (key : Z * PointType) (p : GroupPlan) (r : BatchRoutingResult)
    : WriteBuffer * option BatchRoutingResult :=
  let '(b, buffered) := buffer_channel_points f64_to_bytes b (channel_key key.1 key.2) (gp_points p) ts in
  let r := add_writes buffered r in
  let '(b, r) := foldl (fun '(b, r) idf => let '(b, r) := buffer_instance instance_measurement_key b r idf in (b, add_c2m r))
                   (b, r) (iter_inst (gp_instance_writes p)) in
  let '(b, r) := foldl (fun '(b, r) idf => let '(b, r) := buffer_instance instance_measurement_ts_key b r idf in (b, r))
                   (b, r) (iter_inst (gp_instance_ts_writes p)) in
  (b, Some r).

(** A clock before the epoch counts as zero. *)
Definition write_channel_batch_buffered_impl (fuel : nat) : WriteBuffer -> nat -> list ChannelPointUpdate -> gset point_key -> walk_out :=
  batch_walk emit_buffered (fun n => Some (default 0 (now n))) fuel.
Definition write_channel_batch_buffered (b : WriteBuffer) (us : list ChannelPointUpdate) : walk_out :=
  write_channel_batch_buffered_impl batch_fuel b 0 us ∅.
End Buffered.
End Batch.

(** * Walks terminate *)

Section Totality.
Variable rc : RoutingCache.
Variable iter : list group -> list group.
Hypothesis Hiter : forall gs, iter gs ≡ₚ gs.
Variable f64_to_bytes : Z -> string.
Context {S : Type}.
Variable emit : S -> Z -> Z * PointType -> GroupPlan -> BatchRoutingResult -> S * option BatchRoutingResult.
Variable clock : nat -> option Z.

Definition deep (d : Z) (us : list ChannelPointUpdate) : Prop := Forall (fun u => d <= cu_cascade_depth u) us.

Lemma plan_group_forwards ts ch pt visited us d : deep d us ->
  deep (d + 1) (gp_forwards (plan_group rc f64_to_bytes ts ch pt visited us)) /\
  (2 <= d -> gp_forwards (plan_group rc f64_to_bytes ts ch pt visited us) = []).
Proof.
  unfold plan_group. set (p0 := mkGroupPlan [] [] [] [] visited 0).
  assert (H0 : deep (d + 1) (gp_forwards p0) /\ (2 <= d -> gp_forwards p0 = [])) by (split; [constructor | done]).
  revert H0. generalize p0. clear p0. induction us as [|u us IH]; intros p Hp Hd; [done |].
  apply Forall_cons in Hd as [Hu Hd]. cbn [foldl]. apply IH; [| done]. clear IH.
  unfold plan_update. set (q := mkGroupPlan _ _ _ _ _ _).
  assert (Hq : gp_forwards (plan_c2m rc f64_to_bytes ts ch pt u q) = gp_forwards p) by (unfold plan_c2m; by case_match).
  unfold plan_c2c, MAX_C2C_CASCADE_DEPTH. destruct (Z.ltb_spec (cu_cascade_depth u) 2) as [Hlt | Hge]; [| by rewrite Hq].
  case_match; [| by rewrite Hq]. case_decide; cbn [gp_forwards]; rewrite Hq; [done |].
  split; [| lia]. apply Forall_app. split; [apply Hp |]. constructor; [cbn; lia | done].
Qed.

Lemma push_group_deep d u gs : d <= cu_cascade_depth u -> Forall (fun gr => deep d gr.2) gs -> Forall (fun gr => deep d gr.2) (push_group u gs).
Proof.
  intros Hu. induction gs as [|[key us] gs IH]; intros Hg; cbn [push_group].
  - repeat constructor. done.
  - apply Forall_cons in Hg as [Hus Hg]. case_decide; constructor; auto. apply Forall_app. split; [done |]. by constructor.
Qed.

Lemma group_all_deep d us : deep d us -> Forall (fun gr => deep d gr.2) (group_all us).
Proof.
  unfold group_all. assert (H0 : Forall (fun gr : group => deep d gr.2) []) by constructor. revert H0. generalize (@nil group).
  induction us as [|u us IH]; intros gs Hg Hd; [done |]. apply Forall_cons in Hd as [Hu Hd]. cbn [foldl].
  apply IH; [by apply push_group_deep | done].
Qed.

Lemma walk_groups_total (recurse : S -> nat -> list ChannelPointUpdate -> gset point_key -> @walk_out S) ts visited d gs :
  (d < 2 -> forall s calls us v, deep (d + 1) us -> recurse s calls us v <> None) ->
  Forall (fun gr => deep d gr.2) gs -> forall s calls r,
  walk_groups rc f64_to_bytes emit recurse ts visited s calls r gs <> None.
Proof.
  intros Hrec. induction 1 as [|[key us] gs Hus Hgs IH]; intros s calls r; cbn [walk_groups]; [done |]. cbv zeta.
  destruct (emit _ _ _ _ _) as [s' [r'|]]; [| done].
  destruct (plan_group_forwards ts key.1 key.2 visited us d Hus) as [Hf Hnil].
  destruct (gp_forwards _) as [|u fw] eqn:E; [apply IH |].
  assert (Hd : d < 2) by (destruct (Z.le_gt_cases 2 d) as [H2 |]; [discriminate (Hnil H2) | lia]).
  specialize (Hrec Hd s' calls (u :: fw) (gp_visited (plan_group rc f64_to_bytes ts key.1 key.2 visited us)) Hf).
  destruct (recurse _ _ _ _) as [[[s2 c2] [sub|]]|]; [apply IH | done | done].
Qed.

(** Every walk returns within the fuel of its depth. *)
Lemma batch_walk_total fuel : forall d s calls us visited, 2 - d < Z.of_nat fuel -> (0 < fuel)%nat -> deep d us ->
  batch_walk rc iter f64_to_bytes emit clock fuel s calls us visited <> None.
Proof.
  induction fuel as [|fuel IH]; intros d s calls us visited Hfuel Hpos Hd; [lia |]. cbn [batch_walk].
  destruct us as [|u us]; [done |]. destruct (clock calls) as [ts|]; [| done].
  apply (walk_groups_total _ _ _ d).
  - intros Hlt s' c' us' v' Hd'. apply (IH (d + 1)); [lia | lia | done].
  - rewrite (Hiter _). by apply group_all_deep.
Qed.
End Totality.

(** * Simulation of walks *)

Section Simulation.
Variable rc : RoutingCache.
Variable iter : list group -> list group.
Variable f64_to_bytes : Z -> string.
Context {S1 S2 : Type}.
Variable emit1 : S1 -> Z -> Z * PointType -> GroupPlan -> BatchRoutingResult -> S1 * option BatchRoutingResult.
Variable emit2 : S2 -> Z -> Z * PointType -> GroupPlan -> BatchRoutingResult -> S2 * option BatchRoutingResult.
Variable clock1 clock2 : nat -> option Z.
Variable R : S1 -> S2 -> Prop.
(** [ok] holds of the final state and so of every state before it. *)
Variable grows : S1 -> S1 -> Prop.
Variable ok : S1 -> Prop.
Hypothesis grows_refl : forall s, grows s s.
Hypothesis grows_trans : forall a b c, grows a b -> grows b c -> grows a c.
Hypothesis emit_grows : forall s ts key p r, grows s (emit1 s ts key p r).1.
Hypothesis ok_before : forall a b, grows a b -> ok b -> ok a.
Hypothesis clocks : forall n ts, clock1 n = Some ts -> clock2 n = Some ts.
Hypothesis emits : forall s1 s2 ts key p r s1' r', R s1 s2 -> ok s1' -> emit1 s1 ts key p r = (s1', Some r') ->
  exists s2', emit2 s2 ts key p r = (s2', Some r') /\ R s1' s2'.

Lemma walk_groups_sim rec1 rec2 ts visited gs :
  (forall s calls us v s' calls' o, rec1 s calls us v = Some (s', calls', o) -> grows s s') ->
  (forall s1 s2 calls us v s1' calls' r, R s1 s2 -> ok s1' -> rec1 s1 calls us v = Some (s1', calls', Some r) ->
     exists s2', rec2 s2 calls us v = Some (s2', calls', Some r) /\ R s1' s2') ->
  (forall s calls r s' calls' o, walk_groups rc f64_to_bytes emit1 rec1 ts visited s calls r gs = Some (s', calls', o) -> grows s s') /\
  (forall s1 s2 calls r s1' calls' r', R s1 s2 -> ok s1' ->
     walk_groups rc f64_to_bytes emit1 rec1 ts visited s1 calls r gs = Some (s1', calls', Some r') ->
     exists s2', walk_groups rc f64_to_bytes emit2 rec2 ts visited s2 calls r gs = Some (s2', calls', Some r') /\ R s1' s2').
Proof.
  intros Hg1 Hsim. induction gs as [|[key us] gs [IHg IHs]]; cbn [walk_groups]; cbv zeta.
  { split; [intros; simplify_eq; done | intros s1 s2 calls r s1' calls' r' HR _ [= <- <- <-]; eauto]. }
  set (p := plan_group rc f64_to_bytes ts key.1 key.2 visited us). split.
  - intros s calls r s' calls' o H. pose proof (emit_grows s ts key p (add_cycles (gp_cycles p) r)) as Hs.
    destruct (emit1 s ts key p _) as [s1 [r1|]]; cbn [fst] in Hs; [| by simplify_eq].
    destruct (gp_forwards p) as [|u fw]; [eapply grows_trans; [exact Hs | by eapply IHg] |].
    destruct (rec1 s1 calls (u :: fw) (gp_visited p)) as [[[s2 c2] [sub|]]|] eqn:Er; simplify_eq.
    + eapply grows_trans; [exact Hs |]. eapply grows_trans; [by eapply Hg1 | by eapply IHg].
    + eapply grows_trans; [exact Hs | by eapply Hg1].
  - intros s1 s2 calls r s1' calls' r' HR Hok H.
    destruct (emit1 s1 ts key p _) as [sa [ra|]] eqn:Ee; [| done].
    destruct (gp_forwards p) as [|u fw].
    + assert (Hoka : ok sa) by (eapply ok_before; [by eapply IHg | done]).
      destruct (emits _ _ _ _ _ _ _ _ HR Hoka Ee) as (sb & -> & HRb). by eapply IHs.
    + destruct (rec1 sa calls (u :: fw) (gp_visited p)) as [[[sc cc] [sub|]]|] eqn:Er; [| done | done].
      assert (Hokc : ok sc) by (eapply ok_before; [by eapply IHg | done]).
      assert (Hoka : ok sa) by (eapply ok_before; [by eapply Hg1 | done]).
      destruct (emits _ _ _ _ _ _ _ _ HR Hoka Ee) as (sb & -> & HRb).
      destruct (Hsim _ _ _ _ _ _ _ _ HRb Hokc Er) as (sd & -> & HRd). by eapply IHs.
Qed.

Lemma batch_walk_sim fuel :
  (forall s calls us v s' calls' o, batch_walk rc iter f64_to_bytes emit1 clock1 fuel s calls us v = Some (s', calls', o) -> grows s s') /\
  (forall s1 s2 calls us v s1' calls' r, R s1 s2 -> ok s1' ->
     batch_walk rc iter f64_to_bytes emit1 clock1 fuel s1 calls us v = Some (s1', calls', Some r) ->
     exists s2', batch_walk rc iter f64_to_bytes emit2 clock2 fuel s2 calls us v = Some (s2', calls', Some r) /\ R s1' s2').
Proof.
  induction fuel as [|fuel [IHg IHs]]; cbn [batch_walk]; [done |]. split.
  - intros s calls us v s' calls' o H. destruct us as [|u us]; [by simplify_eq |].
    destruct (clock1 calls) as [ts|]; [| by simplify_eq]. by eapply (walk_groups_sim _ _ ts v _ IHg IHs).
  - intros s1 s2 calls us v s1' calls' r HR Hok H. destruct us as [|u us]; [simplify_eq; eauto |].
    destruct (clock1 calls) as [ts|] eqn:Ec; [| done]. rewrite (clocks _ _ Ec). by eapply (walk_groups_sim _ _ ts v _ IHg IHs).
Qed.
End Simulation.

(** * The operations of a batch

    The reference both paths implement: the hash operations of the walk, in order. *)

Section Equivalence.
Variable rc : RoutingCache.
Variable iter : list group -> list group.
Variable iter_inst : list (Z * list (string * string)) -> list (Z * list (string * string)).
Variable f64_to_bytes : Z -> string.
Variable now : nat -> option Z.

Definition layer_ops (ts : Z) (key : Z * PointType) (points : list (Z * Z * Z)) : HashMsetOps :=
  let ck := channel_key key.1 key.2 in
  let '(values, timestamps, raw_values) := layer_fields f64_to_bytes points ts in
  [(ck, values); ((ck +:+ ":ts")%string, timestamps); ((ck +:+ ":raw")%string, raw_values)].
Definition instance_ops (key : Z -> string) (l : list (Z * list (string * string))) : HashMsetOps := map (fun idf => (key idf.1, idf.2)) l.
Definition group_ops (ts : Z) (key : Z * PointType) (p : GroupPlan) : HashMsetOps :=
  layer_ops ts key (gp_points p) ++ instance_ops instance_measurement_key (iter_inst (gp_instance_writes p)) ++
  instance_ops instance_measurement_ts_key (iter_inst (gp_instance_ts_writes p)).
Definition emit_ops (acc : HashMsetOps) (ts : Z) (key : Z * PointType) (p : GroupPlan) (r : BatchRoutingResult)
    : HashMsetOps * option BatchRoutingResult :=
  (acc ++ group_ops ts key p,
   Some (foldl (fun r _ => add_c2m r) (add_writes (length (gp_points p)) r) (iter_inst (gp_instance_writes p)))).
Definition batch_ops (us : list ChannelPointUpdate) : walk_out :=
  batch_walk rc iter f64_to_bytes emit_ops (fun n => Some (default 0 (now n))) batch_fuel [] 0 us ∅.

Lemma mset_ops_app h a b : mset_ops h (a ++ b) = mset_ops (mset_ops h a) b.
Proof. apply foldl_app. Qed.

(** ** Direct writes follow the reference *)

Section DirectSim.
Context {W : Type} `{HR : !HashRtdb W} `{HS : !HashRtdbSpec W}.

Lemma mset_instances_view key l : forall (w w' : W), mset_instances key w l = (w', true) ->
  rt_view w' ≡ₕ mset_ops (rt_view w) (instance_ops key l).
Proof.
  induction l as [|[id fs] l IH]; intros w w' H; cbn in *; [by simplify_eq |].
  destruct (rt_hash_mset w (key id) fs) as [w1 []] eqn:E; [| done]. rewrite (IH _ _ H). apply rt_mset_ok in E.
  apply mset_ops_proper; [| done]. rewrite E. intros k f. rewrite hget_mset_op, hget_insert, insert_fields_union, lookup_union, entry_lookup.
  unfold op_get. cbn [fst snd]. case_decide; [by subst | by rewrite (left_id_L None (∪))].
Qed.

Lemma write_channel_points_view (w w' : W) key points ts n :
  write_channel_points f64_to_bytes w (channel_key key.1 key.2) points ts = (w', Some n) ->
  n = length points /\ rt_view w' = mset_ops (rt_view w) (layer_ops ts key points).
Proof.
  unfold write_channel_points, layer_ops. destruct points as [|pt points]; [by intros [= <- <-] |].
  destruct (layer_fields f64_to_bytes (pt :: points) ts) as [[vs tss] rs].
  destruct (rt_pipeline_hash_mset w _) as [w1 []] eqn:E; intros [= <- <-]. split; [done |]. by apply rt_pipeline_ok in E.
Qed.

Lemma emit_redis_sim (w0 w : W) acc ts key p r w' r' :
  rt_view w ≡ₕ mset_ops (rt_view w0) acc -> emit_redis iter_inst f64_to_bytes w ts key p r = (w', Some r') ->
  exists acc', emit_ops acc ts key p r = (acc', Some r') /\ rt_view w' ≡ₕ mset_ops (rt_view w0) acc'.
Proof.
  intros HRel H. unfold emit_redis in H.
  destruct (write_channel_points _ w _ _ ts) as [w1 [n|]] eqn:E1; [| done].
  destruct (mset_instances instance_measurement_key w1 _) as [w2 []] eqn:E2; [| done].
  destruct (mset_instances instance_measurement_ts_key w2 _) as [w3 []] eqn:E3; [| done].
  injection H as -> <-. apply write_channel_points_view in E1 as [-> E1]. apply mset_instances_view in E2, E3.
  eexists. split; [reflexivity |]. unfold group_ops. rewrite !mset_ops_app, E3, E2, E1. by rewrite HRel.
Qed.
End DirectSim.

(** ** Buffered writes follow the reference while the buffer has room *)

Section BufferedSim.
Variable b0 : WriteBuffer.

Definition buffer_rel (b : WriteBuffer) (acc : HashMsetOps) : Prop :=
  wb_config b = wb_config b0 /\ forall k f, hget (wb_pending b) k f = ops_get acc k f ∪ hget (wb_pending b0) k f.
Definition buffer_grows (a b : WriteBuffer) : Prop :=
  wb_config b = wb_config a /\ (size (wb_pending a) <= size (wb_pending b))%nat.
Definition has_room (b : WriteBuffer) : Prop := (size (wb_pending b) < max_pending_keys (wb_config b))%nat.

Lemma buffer_grows_trans a b c : buffer_grows a b -> buffer_grows b c -> buffer_grows a c.
Proof. intros [? ?] [? ?]. split; [congruence | lia]. Qed.
Lemma room_before a b : buffer_grows a b -> has_room b -> has_room a.
Proof. intros [Hc Hs] Hr. unfold has_room in *. rewrite Hc in Hr. lia. Qed.

Lemma buffer_mset_grows b k fs : buffer_grows b (WriteBuffer_buffer_hash_mset b k fs).1.
Proof.
  unfold WriteBuffer_buffer_hash_mset, buffer_grows. destruct fs as [|p fs]; [done |].
  destruct (buffer_full b k); [done |]. unfold buffer_fields. cbn [fst wb_config wb_pending]. split; [done |].
  rewrite map_size_insert. case_match; cbn; lia.
Qed.

Lemma buffer_mset_sim b acc k fs b' res : buffer_rel b acc -> has_room b ->
  WriteBuffer_buffer_hash_mset b k fs = (b', res) -> dropped_of res = 0%nat /\ buffer_rel b' (acc ++ [(k, fs)]).
Proof.
  intros [Hc HR] Hroom H. pose proof (buffer_mset_get _ _ _ _ _ H) as Hg. apply buffer_mset_size in H as Hs.
  assert (Hres : res = Ok tt).
  { unfold WriteBuffer_buffer_hash_mset, buffer_full in H. unfold has_room in Hroom.
    rewrite (proj2 (Nat.leb_gt _ _)) in H by lia. cbn [andb] in H. by destruct fs; injection H. }
  subst res. split; [done |]. split; [by rewrite (proj1 Hs) |]. intros k' f.
  rewrite Hg, HR, ops_get_app, (assoc_L (∪)). done.
Qed.

Lemma buffer_points_grows b key points ts : buffer_grows b (buffer_channel_points f64_to_bytes b key points ts).1.
Proof.
  unfold buffer_channel_points. destruct points as [|pt points]; [done |].
  destruct (layer_fields _ _ _) as [[vs tss] rs].
  pose proof (buffer_mset_grows b key vs) as H1. destruct (WriteBuffer_buffer_hash_mset b key vs) as [b1 r1].
  pose proof (buffer_mset_grows b1 (key +:+ ":ts")%string tss) as H2. destruct (WriteBuffer_buffer_hash_mset b1 _ tss) as [b2 r2].
  pose proof (buffer_mset_grows b2 (key +:+ ":raw")%string rs) as H3. destruct (WriteBuffer_buffer_hash_mset b2 _ rs) as [b3 r3].
  cbn [fst] in *. eauto using buffer_grows_trans.
Qed.

Lemma buffer_points_sim b acc ts key points b' n : buffer_rel b acc ->
  buffer_channel_points f64_to_bytes b (channel_key key.1 key.2) points ts = (b', n) -> has_room b' ->
  n = length points /\ buffer_rel b' (acc ++ layer_ops ts key points).
Proof.
  intros HR H Hroom. unfold buffer_channel_points, layer_ops in *. destruct points as [|pt points].
  { injection H as <- <-. split; [done |]. destruct HR as [Hc HR]. split; [done |]. intros k f. rewrite HR, ops_get_app.
    assert (Hn : ops_get (layer_ops ts key []) k f = None).
    { unfold layer_ops, layer_fields. cbn [map ops_get]. unfold op_get. cbn [fst snd].
      repeat case_decide; rewrite ?reverse_nil, ?list_to_map_nil, ?lookup_empty; done. }
    unfold layer_ops in Hn. rewrite Hn. by rewrite (left_id_L None (∪)). }
  destruct (layer_fields f64_to_bytes (pt :: points) ts) as [[vs tss] rs].
  set (ck := channel_key key.1 key.2) in *. destruct (WriteBuffer_buffer_hash_mset b ck vs) as [b1 r1] eqn:E1.
  destruct (WriteBuffer_buffer_hash_mset b1 _ tss) as [b2 r2] eqn:E2.
  destruct (WriteBuffer_buffer_hash_mset b2 _ rs) as [b3 r3] eqn:E3. injection H as <- <-.
  pose proof (buffer_mset_grows b ck vs) as G1. pose proof (buffer_mset_grows b1 (ck +:+ ":ts")%string tss) as G2.
  pose proof (buffer_mset_grows b2 (ck +:+ ":raw")%string rs) as G3. rewrite E1 in G1. rewrite E2 in G2. rewrite E3 in G3. cbn [fst] in G1, G2, G3.
  destruct (buffer_mset_sim _ _ _ _ _ _ HR (room_before _ _ (buffer_grows_trans _ _ _ G1 (buffer_grows_trans _ _ _ G2 G3)) Hroom) E1) as [-> R1].
  destruct (buffer_mset_sim _ _ _ _ _ _ R1 (room_before _ _ (buffer_grows_trans _ _ _ G2 G3) Hroom) E2) as [-> R2].
  destruct (buffer_mset_sim _ _ _ _ _ _ R2 (room_before _ _ G3 Hroom) E3) as [-> R3].
  rewrite <- !(assoc_L (++)) in R3. split; [| exact R3]. rewrite !Nat.sub_0_r. exact (Nat.div_mul (length (pt :: points)) 3 ltac:(lia)).
Qed.

Lemma buffer_instance_grows key b r idf : buffer_grows b (buffer_instance key b r idf).1.
Proof.
  unfold buffer_instance. pose proof (buffer_mset_grows b (key idf.1) idf.2) as H.
  by destruct (WriteBuffer_buffer_hash_mset b (key idf.1) idf.2).
Qed.

Lemma add_misses_0 r : add_misses 0 r = r.
Proof. destruct r. unfold add_misses. cbn. by rewrite Nat.add_0_r. Qed.

(** Buffering the writes of a list of instances; [count] is what each adds to the result. *)
Lemma buffer_instances_grows key count l : forall b r,
  buffer_grows b (foldl (fun '(b, r) idf => let '(b, r) := buffer_instance key b r idf in (b, count r)) (b, r) l).1.
Proof.
  induction l as [|idf l IH]; intros b r; [done |]. cbn [foldl]. pose proof (buffer_instance_grows key b r idf) as H.
  destruct (buffer_instance key b r idf) as [b1 r1]. eapply buffer_grows_trans; [exact H | apply IH].
Qed.

Lemma buffer_instances_sim key count l : forall b acc r b' r', buffer_rel b acc ->
  foldl (fun '(b, r) idf => let '(b, r) := buffer_instance key b r idf in (b, count r)) (b, r) l = (b', r') -> has_room b' ->
  r' = foldl (fun r _ => count r) r l /\ buffer_rel b' (acc ++ instance_ops key l).
Proof.
  induction l as [|idf l IH]; intros b acc r b' r' HR H Hroom; cbn [foldl] in H.
  { injection H as <- <-. by rewrite app_nil_r. }
  pose proof (buffer_instances_grows key count l) as G. pose proof (buffer_mset_grows b (key idf.1) idf.2) as G0.
  unfold buffer_instance in H at 2. destruct (WriteBuffer_buffer_hash_mset b (key idf.1) idf.2) as [b1 res] eqn:E.
  assert (Hroom1 : has_room b1) by (eapply room_before; [| exact Hroom]; specialize (G b1 (count (add_misses (dropped_of res) r))); by rewrite H in G).
  destruct (buffer_mset_sim _ _ _ _ _ _ HR (room_before _ _ G0 Hroom1) E) as [Hd HR1]. rewrite Hd, add_misses_0 in H.
  destruct (IH _ _ _ _ _ HR1 H Hroom) as [-> HR2]. split; [done |]. by rewrite <- (assoc_L (++)) in HR2.
Qed.

Lemma emit_buffered_grows b ts key p r : buffer_grows b (emit_buffered iter_inst f64_to_bytes b ts key p r).1.
Proof.
  unfold emit_buffered. pose proof (buffer_points_grows b (channel_key key.1 key.2) (gp_points p) ts) as G1.
  destruct (buffer_channel_points _ b _ _ ts) as [b1 n].
  pose proof (buffer_instances_grows instance_measurement_key add_c2m (iter_inst (gp_instance_writes p)) b1 (add_writes n r)) as G2.
  destruct (foldl _ (b1, add_writes n r) _) as [b2 r2].
  pose proof (buffer_instances_grows instance_measurement_ts_key (fun r => r) (iter_inst (gp_instance_ts_writes p)) b2 r2) as G3.
  destruct (foldl _ (b2, r2) _) as [b3 r3]. cbn [fst] in *. eauto using buffer_grows_trans.
Qed.

Lemma foldl_same {A B} (q : A) (l : list B) : foldl (fun r _ => r) q l = q.
Proof. by induction l. Qed.

Lemma emit_buffered_sim b acc ts key p r b' r' : buffer_rel b acc -> has_room b' ->
  emit_buffered iter_inst f64_to_bytes b ts key p r = (b', Some r') ->
  exists acc', emit_ops acc ts key p r = (acc', Some r') /\ buffer_rel b' acc'.
Proof.
  intros HR Hroom H. unfold emit_buffered in H. destruct (buffer_channel_points _ b _ _ ts) as [b1 n] eqn:E1.
  pose proof (buffer_instances_grows instance_measurement_key add_c2m (iter_inst (gp_instance_writes p)) b1 (add_writes n r)) as G2.
  destruct (foldl _ (b1, add_writes n r) _) as [b2 r2] eqn:E2.
  pose proof (buffer_instances_grows instance_measurement_ts_key (fun r => r) (iter_inst (gp_instance_ts_writes p)) b2 r2) as G3.
  destruct (foldl _ (b2, r2) _) as [b3 r3] eqn:E3. injection H as -> <-. cbn [fst] in G2, G3.
  pose proof (room_before _ _ G3 Hroom) as Hroom2. pose proof (room_before _ _ G2 Hroom2) as Hroom1.
  destruct (buffer_points_sim _ _ _ _ _ _ _ HR E1 Hroom1) as [-> R1].
  destruct (buffer_instances_sim _ _ _ _ _ _ _ _ R1 E2 Hroom2) as [-> R2].
  destruct (buffer_instances_sim _ (fun r => r) _ _ _ _ _ _ R2 E3 Hroom) as [-> R3].
  rewrite (foldl_same _ (iter_inst (gp_instance_ts_writes p))). eexists. split; [reflexivity |].
  unfold group_ops. by rewrite <- !(assoc_L (++)) in R3.
Qed.
End BufferedSim.

(** C15: buffering a batch is equivalent to writing it: when the buffered batch leaves room
    in the buffer, it returns the counts of the direct one, and flushing it gives the
    database that the direct one produces, field by field. *)
Theorem buffered_batch_equals_direct {W} `{HR : !HashRtdb W} `{HS : !HashRtdbSpec W} (w0 : W) b0 us w1 c1 r1 b1 c2 r2 :
  wb_pending b0 = ∅ ->
  write_channel_batch rc iter iter_inst f64_to_bytes now w0 us = Some (w1, c1, Some r1) ->
  write_channel_batch_buffered rc iter iter_inst f64_to_bytes now b0 us = Some (b1, c2, Some r2) ->
  has_room b1 ->
  r2 = r1 /\ forall o t b2 w2 expired n, order_ok o -> WriteBuffer_flush o b1 w0 t = (b2, w2, expired, Some n) -> rt_view w2 ≡ₕ rt_view w1.
Proof.
  intros Hempty Hd Hb Hroom. set (clock := fun n => Some (default 0 (now n))).
  destruct (batch_walk_sim rc iter f64_to_bytes (emit_redis iter_inst f64_to_bytes) emit_ops now clock
    (fun (w : W) acc => rt_view w ≡ₕ mset_ops (rt_view w0) acc) (fun _ _ => True) (fun _ => True)) with (fuel := batch_fuel) as [_ Hsim1]; try done.
  { intros n ts Hn. unfold clock. by rewrite Hn. }
  { intros. by eapply emit_redis_sim. }
  destruct (batch_walk_sim rc iter f64_to_bytes (emit_buffered iter_inst f64_to_bytes) emit_ops clock clock
    (buffer_rel b0) buffer_grows has_room) with (fuel := batch_fuel) as [_ Hsim2];
    [done | exact buffer_grows_trans | intros; apply emit_buffered_grows | exact room_before | done | |].
  { intros. by eapply emit_buffered_sim. }
  destruct (Hsim1 w0 [] 0%nat us ∅ w1 c1 r1 (reflexivity _) I Hd) as (acc & Hacc & HR1).
  assert (Hrel0 : buffer_rel b0 b0 []) by (split; [done |]; intros k f; cbn; by destruct (hget (wb_pending b0) k f)).
  destruct (Hsim2 b0 [] 0%nat us ∅ b1 c2 r2 Hrel0 Hroom Hb) as (acc' & Hacc' & [_ HR2]).
  rewrite Hacc in Hacc'. injection Hacc' as <- _ <-. split; [done |].
  intros o t b2 w2 ex n Ho Hf. unfold WriteBuffer_flush in Hf. destruct (WriteBuffer_drain_pending o b1) as [b3 ops] eqn:Ed.
  destruct (drain_spec _ _ _ _ Ho Ed) as (_ & Hget & _).
  assert (Hops : forall k f, ops_get ops k f = ops_get acc k f).
  { intros k f. rewrite Hget, HR2, Hempty. unfold hget. rewrite lookup_empty. by destruct (ops_get acc k f). }
  assert (Hv : rt_view w2 = mset_ops (rt_view w0) ops).
  { destruct ops as [|op ops]; [by simplify_eq |]. destruct (rt_pipeline_hash_mset w0 (op :: ops)) as [w' []] eqn:E; cbn in Hf.
    - apply rt_pipeline_ok in E. rewrite <- E. repeat case_match; by simplify_eq.
    - by simplify_eq. }
  rewrite HR1, Hv. intros k f. by rewrite !hget_mset_ops, Hops.
Qed.
End Equivalence.

(** * Both batches return *)

Section NoError.
Variable rc : RoutingCache.
Variable iter : list group -> list group.
Variable f64_to_bytes : Z -> string.
Context {S : Type}.
Variable emit : S -> Z -> Z * PointType -> GroupPlan -> BatchRoutingResult -> S * option BatchRoutingResult.
Variable clock : nat -> option Z.
Hypothesis emit_ok : forall s ts key p r, (emit s ts key p r).2 <> None.
Hypothesis clock_ok : forall n, clock n <> None.

Lemma batch_walk_no_error fuel : forall s calls us visited s' calls',
  batch_walk rc iter f64_to_bytes emit clock fuel s calls us visited <> Some (s', calls', None).
Proof.
  induction fuel as [|fuel IH]; intros s calls us visited s' calls'; cbn [batch_walk]; [done |].
  destruct us as [|u us]; [done |]. destruct (clock calls) as [ts|] eqn:Ec; [| by apply clock_ok in Ec].
  generalize (iter (group_all (u :: us))) (Datatypes.S calls) BatchRoutingResult_default s. clear Ec s calls u us.
  induction l as [|[key us] l IHl]; intros calls r s; cbn [walk_groups]; [done |]. cbv zeta.
  pose proof (emit_ok s ts key (plan_group rc f64_to_bytes ts key.1 key.2 visited us)
    (add_cycles (gp_cycles (plan_group rc f64_to_bytes ts key.1 key.2 visited us)) r)) as He.
  destruct (emit s ts key _ _) as [s1 [r1|]]; [| done]. destruct (gp_forwards _) as [|f fw]; [apply IHl |].
  pose proof (IH s1 calls (f :: fw) (gp_visited (plan_group rc f64_to_bytes ts key.1 key.2 visited us))) as Hr.
  destruct (batch_walk rc iter f64_to_bytes emit clock fuel s1 calls (f :: fw) _) as [[[s2 c2] [sub|]]|]; [apply IHl | apply Hr | done].
Qed.
End NoError.

(** Both batch writes return for every batch, whatever the routes and however they
    cycle: the direct one with a result or an error of the database or the clock, the
    buffered one with a result. *)
Theorem redis_batch_total rc iter iter_inst f64_to_bytes now {W} `{HR : !HashRtdb W} (w : W) b us :
  (forall gs, iter gs ≡ₚ gs) -> Forall (fun u => 0 <= cu_cascade_depth u) us ->
  is_Some (write_channel_batch rc iter iter_inst f64_to_bytes now w us) /\
  exists b' calls r, write_channel_batch_buffered rc iter iter_inst f64_to_bytes now b us = Some (b', calls, Some r).
Proof.
  intros Hiter Hd.
  assert (Ht : forall S emit clock (s : S), batch_walk rc iter f64_to_bytes emit clock batch_fuel s 0 us ∅ <> None).
  { intros S emit clock s. apply (batch_walk_total rc iter Hiter f64_to_bytes emit clock batch_fuel 0); [unfold batch_fuel; lia | unfold batch_fuel; lia | done]. }
  split; [by apply not_eq_None_Some, Ht |].
  unfold write_channel_batch_buffered, write_channel_batch_buffered_impl. set (clock := fun n => Some (default 0 (now n))).
  specialize (Ht _ (emit_buffered iter_inst f64_to_bytes) clock b).
  destruct (batch_walk rc iter f64_to_bytes (emit_buffered iter_inst f64_to_bytes) clock batch_fuel b 0 us ∅) as [[[b' calls] [r|]]|] eqn:E; [eauto | | done].
  exfalso. revert E. apply batch_walk_no_error; [| done]. intros s ts key p r. unfold emit_buffered. by repeat case_match.
Qed.

(** * A sample batch *)

(** Telemetry 1 of channel 1001 feeds instance point 23:4 and is forwarded to telemetry
    7 of channel 1002, which is routed back: a cycle. *)
Definition cyclic_routes : RoutingCache :=
  mkRoutingCache {[ (1001, Telemetry, 1) := mkC2MTarget 23 4 ]}
    {[ (1001, Telemetry, 1) := mkC2CTarget 1002 Telemetry 7 f64_one f64_zero; (1002, Telemetry, 7) := mkC2CTarget 1001 Telemetry 1 f64_one f64_zero ]} ∅ ∅.
Definition redis_updates : list ChannelPointUpdate := [ChannelPointUpdate_new 1001 Telemetry 1 f64_one; ChannelPointUpdate_new 1001 Telemetry 2 f64_zero].
Definition sample_clock (n : nat) : option Z := Some (1700000000000 + Z.of_nat n).
Definition sample_direct := write_channel_batch cyclic_routes id id print_i64 sample_clock MemoryRtdb_new redis_updates.
Definition sample_buffered :=
  write_channel_batch_buffered cyclic_routes id id print_i64 sample_clock (WriteBuffer_new (mkWriteBufferConfig 20 100 100 None)) redis_updates.

Example sample_batch_counts :
  (sample_direct ≫= fun '(_, _, r) => r) = Some (mkBatchResult 3 1 1 1 0) /\
  (sample_direct ≫= fun '(db, _, _) => MemoryRtdb_hash_get db "inst:23:M" "4") = Some (print_i64 f64_one) /\
  (sample_direct ≫= fun '(db, _, _) => MemoryRtdb_hash_get db "comsrv:1002:T:ts" "7") = Some "1700000000001".
Proof. vm_compute. done. Qed.

Lemma buffered_batch_equals_direct_witness :
  let direct := default (MemoryRtdb_new, 0%nat, None) sample_direct in
  let buffered := default (WriteBuffer_new WriteBufferConfig_default, 0%nat, None) sample_buffered in
  buffered.2 = direct.2 /\
  hash_store (WriteBuffer_flush list_order buffered.1.1 MemoryRtdb_new 0).1.1.2 ≡ₕ hash_store direct.1.1.
Proof.
  intros direct buffered.
  assert (H : buffered.2 = Some (mkBatchResult 3 1 1 1 0)) by (vm_compute; reflexivity).
  destruct (buffered_batch_equals_direct cyclic_routes id id print_i64 sample_clock MemoryRtdb_new
    (WriteBuffer_new (mkWriteBufferConfig 20 100 100 None)) redis_updates direct.1.1 2%nat (mkBatchResult 3 1 1 1 0) buffered.1.1 2%nat
    (mkBatchResult 3 1 1 1 0)) as [Hr Hf].
  - reflexivity.
  - vm_compute. reflexivity.
  - vm_compute. reflexivity.
  - apply Nat.ltb_lt. vm_compute. reflexivity.
  - split; [rewrite H; vm_compute; reflexivity |].
    destruct (WriteBuffer_flush list_order buffered.1.1 MemoryRtdb_new 0) as [[[b2 w2] ex] [n|]] eqn:E.
    + apply (Hf list_order 0 b2 w2 ex n list_order_ok E).
    + exfalso. apply (f_equal snd) in E. vm_compute in E. discriminate.
Defined.

Lemma redis_batch_total_witness : is_Some sample_direct.
Proof.
  apply (redis_batch_total cyclic_routes id id print_i64 sample_clock MemoryRtdb_new (WriteBuffer_new WriteBufferConfig_default) redis_updates).
  - done.
  - repeat constructor; vm_compute; discriminate.
Defined.
