(* ===== verification/ShmSync.v ===== *)
(** The shared-memory handle ([libs/voltage-rtdb-shm/src/shm_handle.rs]) and the
    background task that copies shared memory to the database
    ([services/comsrv/src/store/shm_redis_sync.rs]).

    A [ShmHandle] holds the current layout: a writer with its forward and reverse
    index, replaced as a whole on a routing reload.  [ShmRedisSync] wakes every 100 ms,
    takes the slots written since (or, every 600th tick, all slots), and sends those
    whose sequence number moved to the hashes of their channel and of the model
    instance they feed.  A pass reads its candidates slot by slot while other tasks and
    processes write them, then waits for the database and updates its bookkeeping:
    [sync_step] interleaves its single accesses with writes, with reloads and with failing
    calls; [usual] names the events it relies on not to happen. *)
From stdpp Require Import base numbers list gmap strings sorting.
From Stdlib Require Import ZArith Lia.
From S2P Require Import Prelude BitWords PointSlot PointTypes Layout Wire SlotIndex PointWatch ShmStore Routing Rtdb.
Local Open Scope Z_scope.
Set Warnings "-clear-no-such-hyp".

(** * [ShmLayout] and [ShmHandle] *)

Record ShmLayout (C : Type) := mkShmLayout {
  sl_writer : UnifiedWriter C;
  sl_index : ChannelToSlotIndex;
  sl_reverse_index : ReverseSlotIndex;
}.
Arguments mkShmLayout {C}.
Arguments sl_writer {C}.
Arguments sl_index {C}.
Arguments sl_reverse_index {C}.

(** The layout behind the [ArcSwapOption], with the address of its [Arc]. *)
Record ShmHandle (C : Type) := mkShmHandle {
  sh_layout : option (Z * ShmLayout C);
  sh_config : SharedConfig;
  sh_point_watcher : option (PointWatchSignaler C);
}.
Arguments mkShmHandle {C}.
Arguments sh_layout {C}.
Arguments sh_config {C}.
Arguments sh_point_watcher {C}.

Inductive RebuildError := RebuildCreateIo | RebuildCreate (e : ShmError) | RebuildFlush | RebuildRename
  | RebuildReopenIo | RebuildReopen (e : ShmError).
(** Which of the file-system calls of a rebuild succeed: creating and mapping the
    staging file, flushing it, renaming it, opening and mapping the canonical path. *)
Record RebuildFs := mkRebuildFs { fs_create : bool; fs_flush : bool; fs_rename : bool; fs_reopen : bool }.

Section Handle.
Context {C : Type} `{MS : !MpscSender C PointWatchEvent}.
Variable layout_hash : ChannelPointCounts -> Z.
(** The order in which the forward index iterates. *)
Variable entries_of : gmap point_key nat -> list (point_key * nat).

Definition ShmLayout_new (writer : UnifiedWriter C) (index : ChannelToSlotIndex) : ShmLayout C :=
  let slot_count := sw_slot_count (uw_inner writer) in
  mkShmLayout writer index (ReverseSlotIndex_from_forward (entries_of (csi_index index)) slot_count).

Definition ShmHandle_new (config : SharedConfig) (address : Z) (writer : UnifiedWriter C) (index : ChannelToSlotIndex)
    : ShmHandle C :=
  mkShmHandle (Some (address, ShmLayout_new writer index)) config None.
Definition ShmHandle_empty (config : SharedConfig) : ShmHandle C := mkShmHandle None config None.
Definition ShmHandle_is_available (h : ShmHandle C) : bool := bool_decide (is_Some (sh_layout h)).
Definition ShmHandle_store_point_watcher (h : ShmHandle C) (s : PointWatchSignaler C) : ShmHandle C :=
  mkShmHandle (sh_layout h) (sh_config h) (Some s).

(** [ChannelToSlotIndex::from_unified_writer]. *)
Definition ChannelToSlotIndex_from_unified_writer (w : UnifiedWriter C) : ChannelToSlotIndex :=
  ChannelToSlotIndex_from_layouts (uw_channel_layouts w).

(** [rebuild_via_swap]: [canonical] is the file at the canonical path.  The staging file
    is created, flushed, renamed over the canonical one and opened again from there; the
    handle changes last. *)
Definition ShmHandle_rebuild_via_swap (h : ShmHandle C) (canonical : Segment) (cps : ChannelPointCounts) (e : CreateEnv)
    (fs : RebuildFs) (address : Z) : outcome (result unit RebuildError * ShmHandle C * Segment) :=
  if negb (fs_create fs) then Ret (Err RebuildCreateIo, h, canonical)
  else
  let! created := UnifiedWriter_create (C:=C) layout_hash (sh_config h) cps e in
  match created with
  | Err e => Ret (Err (RebuildCreate e), h, canonical)
  | Ok (staging, _) =>
      if negb (fs_flush fs) then Ret (Err RebuildFlush, h, canonical)
      else if negb (fs_rename fs) then Ret (Err RebuildRename, h, canonical)
      else if negb (fs_reopen fs) then Ret (Err RebuildReopenIo, h, staging)
      else
        let! opened := UnifiedWriter_open_existing (C:=C) layout_hash staging cps in
        match opened with
        | Err e => Ret (Err (RebuildReopen e), h, staging)
        | Ok writer =>
            let writer := match sh_point_watcher h with
                          | Some pw => UnifiedWriter_set_point_watcher writer (Some pw)
                          | None => writer
                          end in
            let index := ChannelToSlotIndex_from_unified_writer writer in
            Ret (Ok tt, mkShmHandle (Some (address, ShmLayout_new writer index)) (sh_config h) (sh_point_watcher h), staging)
        end
  end.
Definition ShmHandle_rebuild := ShmHandle_rebuild_via_swap.
End Handle.

(** * [ShmRedisSync] *)

Definition MAX_PIPELINE_SLOTS : nat := Z.to_nat 1024.
Definition MAX_RETRY_SLOTS : nat := (MAX_PIPELINE_SLOTS * 4)%nat.
Definition FULL_SCAN_INTERVAL : Z := 600.

Definition channel_ts_key (c : Z) (pt : PointType) : string :=
  ("comsrv:" +:+ print_u32 c +:+ ":" +:+ PointType_as_str pt +:+ ":ts")%string.
Definition channel_raw_key (c : Z) (pt : PointType) : string :=
  ("comsrv:" +:+ print_u32 c +:+ ":" +:+ PointType_as_str pt +:+ ":raw")%string.

(** [POINT_ID_POOL]: the texts of 0 to 255; larger ids are formatted. *)
Definition POINT_ID_POOL : list string := map (fun i => print_u32 (Z.of_nat i)) (seq 0 256).
Definition get_point_id_str_or_alloc (point_id : Z) : string :=
  if point_id <? 256 then default EmptyString (POINT_ID_POOL !! Z.to_nat point_id) else print_u32 point_id.

Record SyncState := mkSyncState {
  ss_last_seq : list Z;
  ss_last_layout_ptr : Z;
  ss_last_routing_hash : Z;
  ss_retry_slots : list nat;
  ss_tick_count : Z;
}.

Definition ShmRedisSync_new (max_slots : nat) : SyncState := mkSyncState (replicate max_slots 0) 0 0 [] 0.

Definition next_tick (st : SyncState) : SyncState :=
  mkSyncState (ss_last_seq st) (ss_last_layout_ptr st) (ss_last_routing_hash st) (ss_retry_slots st)
    (wrap 64 (ss_tick_count st + 1)).

(** [Vec::dedup]: runs of equal elements become one. *)
Fixpoint vec_dedup (l : list nat) : list nat :=
  match l with
  | a :: (b :: _) as t => if (a =? b)%nat then vec_dedup t else a :: vec_dedup t
  | _ => l
  end.
Definition sort_dedup (l : list nat) : list nat := vec_dedup (merge_sort le l).

(** [if retry_slots.len() > MAX_RETRY_SLOTS { drain(..drop_count) }]. *)
Definition cap_retry (l : list nat) : list nat :=
  if (MAX_RETRY_SLOTS <? length l)%nat then drop (length l - MAX_RETRY_SLOTS) l else l.

(** [ops.entry(key).or_default().push(field)]. *)
Definition push_op (ops : gmap string (list (string * string))) (e : string * (string * string)) :=
  <[e.1 := default [] (ops !! e.1) ++ [e.2]]> ops.

(** What one pass accumulates over its candidates. *)
Record ScanAcc := mkScanAcc {
  sa_last_seq : list Z;
  sa_retry : list nat;
  sa_ops : gmap string (list (string * string));
  sa_synced : list (nat * Z);
}.

Section Sync.
Context {C : Type} `{MS : !MpscSender C PointWatchEvent}.
Variable f64_to_bytes : Z -> string.
(** [RoutingCache::content_hash]: an FxHash of its C2M and M2C tables. *)
Variable content_hash : RoutingCache -> Z.
(** The order in which the hash map of operations iterates. *)
Variable ops_order : list (string * list (string * string)) -> list (string * list (string * string)).

(** The fields a slot is published under. *)
Definition slot_fields (rc : RoutingCache) (o : SlotOrigin) (value raw ts : Z) : list (string * (string * string)) :=
  let ch := so_channel_id o in
  let pt := so_point_type o in
  let field := get_point_id_str_or_alloc (so_point_id o) in
  let ts_bytes := i64_to_bytes (to_signed 64 ts) in
  [(channel_key ch pt, (field, f64_to_bytes value));
   (channel_ts_key ch pt, (field, ts_bytes));
   (channel_raw_key ch pt, (field, f64_to_bytes raw))] ++
  match RoutingCache_lookup_c2m_by_parts rc ch pt (so_point_id o) with
  | Some target =>
      let inst_field := get_point_id_str_or_alloc (c2m_point_id target) in
      [(instance_measurement_key (c2m_instance_id target), (inst_field, f64_to_bytes value));
       (instance_measurement_ts_key (c2m_instance_id target), (inst_field, ts_bytes))]
  | None => []
  end.

(** The body of [for slot_idx in candidate_slots], in the two accesses it makes to the
    slot.  The first reads the sequence number and says whether the slot has to be
    loaded; [self.last_seq[slot_idx]] panics out of range. *)
Definition scan_peek (last_seq : list Z) (i : nat) (seq : Z) : outcome bool :=
  match last_seq !! i with
  | None => Panic
  | Some last => Ret (negb (seq =? last))
  end.

(** The second is [try_load_consistent]; the rest of the body works on its result. *)
Definition scan_loaded (rev : ReverseSlotIndex) (rc : RoutingCache) (acc : ScanAcc) (i : nat) (seq : Z) (loaded : option (Z * Z * Z))
    : ScanAcc :=
  let seen := mkScanAcc (<[i := seq]> (sa_last_seq acc)) (sa_retry acc) (sa_ops acc) (sa_synced acc) in
  match loaded with
  | None => mkScanAcc (sa_last_seq acc) (sa_retry acc ++ [i]) (sa_ops acc) (sa_synced acc)
  | Some (value, raw, ts) =>
      if negb (f64_is_finite value) || negb (f64_is_finite raw) then seen
      else
        match ReverseSlotIndex_get rev i with
        | None => seen
        | Some o => mkScanAcc (sa_last_seq acc) (sa_retry acc)
                      (foldl push_op (sa_ops acc) (slot_fields rc o value raw ts)) (sa_synced acc ++ [(i, seq)])
        end
  end.

(** The body on a slot nobody writes in between. *)
Definition scan_slot (g : Segment) (slot_count : nat) (rev : ReverseSlotIndex) (rc : RoutingCache) (acc : ScanAcc) (i : nat)
    : outcome ScanAcc :=
  if (slot_count <=? i)%nat then Ret acc
  else
    let! slot := slot_at g slot_count i in
    let! load := scan_peek (sa_last_seq acc) i (ps_seq slot) in
    if load then Ret (scan_loaded rev rc acc i (ps_seq slot) (PointSlot_try_load_consistent slot)) else Ret acc.

Fixpoint scan_slots (g : Segment) (slot_count : nat) (rev : ReverseSlotIndex) (rc : RoutingCache) (acc : ScanAcc) (l : list nat)
    : outcome ScanAcc :=
  match l with
  | [] => Ret acc
  | i :: l => let! acc := scan_slot g slot_count rev rc acc i in scan_slots g slot_count rev rc acc l
  end.

(** A pass waiting for the database: its operations and the slots they publish. *)
Abbreviation flight := (HashMsetOps * list (nat * Z))%type.

(** The layout and routing checks at the start of a pass. *)
Definition note_layout (st : SyncState) (slot_count : nat) (ptr : Z) (rc : RoutingCache) : SyncState * bool :=
  let last_seq := if (length (ss_last_seq st) <? slot_count)%nat
                  then ss_last_seq st ++ replicate (slot_count - length (ss_last_seq st)) 0
                  else ss_last_seq st in
  let layout_changed := negb (ss_last_layout_ptr st =? 0) && negb (ptr =? ss_last_layout_ptr st) in
  let routing_hash := content_hash rc in
  let routing_changed := negb (ss_last_routing_hash st =? 0) && negb (routing_hash =? ss_last_routing_hash st) in
  if layout_changed || routing_changed
  then (mkSyncState (replicate (length last_seq) 0) ptr routing_hash [] (ss_tick_count st), layout_changed)
  else (mkSyncState last_seq ptr routing_hash (ss_retry_slots st) (ss_tick_count st), layout_changed).

(** The candidates of a pass, sorted and without duplicates, and the retry list
    they leave. *)
Definition pick_candidates (st : SyncState) (found : list nat) : list nat * list nat :=
  let all := sort_dedup (found ++ ss_retry_slots st) in
  if (MAX_PIPELINE_SLOTS <? length all)%nat
  then (take MAX_PIPELINE_SLOTS all, cap_retry (drop MAX_PIPELINE_SLOTS all))
  else (all, []).

(** [flush_once] up to the loop over the candidates: the writer whose dirty bits are
    taken, the state and the candidates, or the state of a pass that is skipped.  (An
    empty candidate list runs the loop no time and ends the pass as the early return
    of the source does.) *)
Definition flush_start (g : Segment) (layout : option (Z * ShmLayout C)) (rc : RoutingCache) (st : SyncState)
    : UnifiedWriter C * SyncState * list nat + SyncState :=
  match layout with
  | None => inr st
  | Some (ptr, l) =>
      let writer := sl_writer l in
      let slot_count := sw_slot_count (uw_inner writer) in
      if (slot_count =? 0)%nat then inr st
      else if Z.land (SlotWriter_generation g) 1 =? 1 then inr (next_tick st)
      else
        let '(st, layout_changed) := note_layout st slot_count ptr rc in
        let full_scan := layout_changed || (ss_tick_count st =? 0) || (ss_tick_count st mod FULL_SCAN_INTERVAL =? 0) in
        let '(writer, found) := if full_scan then (writer, seq 0 slot_count) else UnifiedWriter_take_dirty_slots writer in
        let '(candidates, retry) := pick_candidates st found in
        inl (writer, mkSyncState (ss_last_seq st) (ss_last_layout_ptr st) (ss_last_routing_hash st) retry (ss_tick_count st), candidates)
  end.

(** [flush_once] from the end of the loop to the database call.  Without operations
    the pass is over. *)
Definition flush_send (st : SyncState) (ops : gmap string (list (string * string))) (synced : list (nat * Z)) : SyncState * option flight :=
  match ops_order (map_to_list ops) with
  | [] => (next_tick st, None)
  | hash_ops => (st, Some (hash_ops, synced))
  end.

(** The bookkeeping between the loop and the state of the task. *)
Definition acc_of (st : SyncState) (ops : gmap string (list (string * string))) (synced : list (nat * Z)) : ScanAcc :=
  mkScanAcc (ss_last_seq st) (ss_retry_slots st) ops synced.
Definition put_acc (st : SyncState) (acc : ScanAcc) : SyncState :=
  mkSyncState (sa_last_seq acc) (ss_last_layout_ptr st) (ss_last_routing_hash st) (sa_retry acc) (ss_tick_count st).

(** [flush_once] up to the database call, with no other task in between. *)
Definition flush_begin (g : Segment) (layout : option (Z * ShmLayout C)) (rc : RoutingCache) (st : SyncState)
    : outcome (UnifiedWriter C * SyncState * option flight + SyncState) :=
  match layout with
  | None => Ret (inr st)
  | Some (_, l) =>
      match flush_start g layout rc st with
      | inr st => Ret (inr st)
      | inl (writer, st, candidates) =>
          let! acc := scan_slots g (sw_slot_count (uw_inner (sl_writer l))) (sl_reverse_index l) rc (acc_of st ∅ []) candidates in
          let '(st, fl) := flush_send (put_acc st acc) (sa_ops acc) (sa_synced acc) in
          Ret (inl (writer, st, fl))
      end
  end.

(** [flush_once] after the database call. *)
Definition flush_finish (st : SyncState) (synced : list (nat * Z)) (ok : bool) : outcome SyncState :=
  if negb ok then
    Ret (next_tick (mkSyncState (ss_last_seq st) (ss_last_layout_ptr st) (ss_last_routing_hash st)
                      (sort_dedup (ss_retry_slots st ++ map fst synced)) (ss_tick_count st)))
  else if forallb (fun x => (x.1 <? length (ss_last_seq st))%nat) synced then
    Ret (next_tick (mkSyncState (foldl (fun l x => <[x.1 := x.2]> l) (ss_last_seq st) synced) (ss_last_layout_ptr st)
                      (ss_last_routing_hash st) (ss_retry_slots st) (ss_tick_count st)))
  else Panic.

(** A whole pass with no other task in between. *)
Definition ShmRedisSync_flush_once {W} `{!HashRtdb W} (w : W) (g : Segment) (layout : option (Z * ShmLayout C))
    (rc : RoutingCache) (st : SyncState) : outcome (W * option (Z * ShmLayout C) * SyncState) :=
  let! begun := flush_begin g layout rc st in
  let swap writer := match layout with
                     | Some (ptr, l) => Some (ptr, mkShmLayout writer (sl_index l) (sl_reverse_index l))
                     | None => None
                     end in
  match begun with
  | inr st => Ret (w, layout, st)
  | inl (writer, st, None) => Ret (w, swap writer, st)
  | inl (writer, st, Some (ops, synced)) =>
      let '(w, ok) := rt_pipeline_hash_mset w ops in
      let! st := flush_finish st synced ok in
      Ret (w, swap writer, st)
  end.
End Sync.

(** * Sorted candidates *)

Lemma vec_dedup_elem l i : i ∈ vec_dedup l <-> i ∈ l.
Proof.
  induction l as [|a [|b t] IH]; [done | done |]. cbn [vec_dedup] in *. destruct (Nat.eqb_spec a b) as [-> | Hne].
  - rewrite IH. set_solver.
  - rewrite !(elem_of_cons _ i a), IH. done.
Qed.

Lemma vec_dedup_strict l : StronglySorted le l -> StronglySorted lt (vec_dedup l).
Proof.
  induction l as [|a [|b t] IH]; intros Hs; [constructor | repeat constructor |].
  apply StronglySorted_cons in Hs as [Ha Hs]. cbn [vec_dedup]. destruct (Nat.eqb_spec a b) as [-> | Hne]; [by apply IH |].
  apply StronglySorted_cons. split; [| by apply IH]. apply Forall_forall. intros x Hx. apply (vec_dedup_elem (b :: t)) in Hx.
  apply Forall_cons in Ha as [Hab Ha]. apply StronglySorted_cons in Hs as [Hb _].
  apply elem_of_cons in Hx as [-> | Hx]; [lia |]. pose proof (proj1 (Forall_forall _ _) Hb x Hx). lia.
Qed.

Lemma sort_dedup_elem l i : i ∈ sort_dedup l <-> i ∈ l.
Proof. unfold sort_dedup. by rewrite vec_dedup_elem, merge_sort_Permutation. Qed.

Lemma sort_dedup_strict l : StronglySorted lt (sort_dedup l).
Proof. apply vec_dedup_strict, StronglySorted_merge_sort; apply _. Qed.

Lemma strict_nodup l : StronglySorted lt l -> NoDup l.
Proof.
  induction l as [|a l IH]; [constructor |]. intros [Ha Hs]%StronglySorted_cons. constructor; [| by apply IH].
  intros Hin. pose proof (proj1 (Forall_forall _ _) Ha a Hin). lia.
Qed.

Lemma seq_strict k n : StronglySorted lt (seq k n).
Proof.
  revert k. induction n as [|n IH]; intros k; [constructor |]. apply StronglySorted_cons. split; [| apply IH].
  apply Forall_forall. intros x Hx%elem_of_seq. lia.
Qed.

Lemma strict_unique l1 l2 : StronglySorted lt l1 -> StronglySorted lt l2 -> (forall i, i ∈ l1 <-> i ∈ l2) -> l1 = l2.
Proof.
  intros H1 H2 He. eapply (StronglySorted_unique_strong lt); [| done | done |].
  - intros x1 x2 _ _ Ha Hb. lia.
  - by apply NoDup_Permutation; [apply strict_nodup | apply strict_nodup |].
Qed.

Lemma sort_dedup_all l n : (forall i, i ∈ l <-> (i < n)%nat) -> sort_dedup l = seq 0 n.
Proof.
  intros H. apply strict_unique; [apply sort_dedup_strict | apply seq_strict |].
  intros i. rewrite sort_dedup_elem, H, elem_of_seq. lia.
Qed.

Lemma sort_dedup_length l n : (forall i, i ∈ l -> (i < n)%nat) -> (length (sort_dedup l) <= n)%nat.
Proof.
  intros H. rewrite <- (length_seq n 0). apply submseteq_length, NoDup_submseteq.
  - apply strict_nodup, sort_dedup_strict.
  - intros i. rewrite sort_dedup_elem, elem_of_seq. intros Hi%H. lia.
Qed.

(** * Keys *)

Lemma get_point_id_str_print p : is_uint 32 p -> get_point_id_str_or_alloc p = print_u32 p.
Proof.
  intros Hp. unfold get_point_id_str_or_alloc, POINT_ID_POOL. destruct (Z.ltb_spec p 256); [| done].
  unfold is_uint in Hp. rewrite list_lookup_fmap, lookup_seq_lt by lia.
  change (print_u32 (Z.of_nat (0 + Z.to_nat p)) = print_u32 p). f_equal. lia.
Qed.

Definition colon : Ascii.ascii := Ascii.ascii_of_nat 58.

Lemma print_no_colon n : is_uint 32 n -> free_of colon (print_u32 n).
Proof. intros Hn. unfold is_uint in Hn. apply print_free; [done | lia]. Qed.

Lemma as_str_no_colon pt : free_of colon (PointType_as_str pt).
Proof. by destruct pt. Qed.

Lemma channel_key_parts c pt : is_uint 32 c ->
  split_on colon (channel_key c pt) = ["comsrv"; print_u32 c; PointType_as_str pt]%string /\
  split_on colon (channel_ts_key c pt) = ["comsrv"; print_u32 c; PointType_as_str pt; "ts"]%string /\
  split_on colon (channel_raw_key c pt) = ["comsrv"; print_u32 c; PointType_as_str pt; "raw"]%string.
Proof.
  intros Hc. pose proof (print_no_colon c Hc) as Hp. pose proof (as_str_no_colon pt) as Ht.
  unfold channel_key, channel_ts_key, channel_raw_key.
  change ("comsrv:" +:+ ?x)%string with ("comsrv" +:+ String colon x)%string.
  change (":" +:+ ?x)%string with (String colon x).
  rewrite !split_on_app by (done || cbn; tauto). rewrite (split_on_free _ (PointType_as_str pt)) by done. done.
Qed.

Lemma instance_key_parts c : is_uint 32 c ->
  split_on colon (instance_measurement_key c) = ["inst"; print_u32 c; "M"]%string /\
  split_on colon (instance_measurement_ts_key c) = ["inst"; print_u32 c; "M"; "ts"]%string.
Proof.
  intros Hc. pose proof (print_no_colon c Hc) as Hp. unfold instance_measurement_key, instance_measurement_ts_key.
  change ("inst:" +:+ ?x)%string with ("inst" +:+ String colon x)%string.
  change (":M")%string with (String colon "M")%string. change (":M:ts")%string with (String colon "M:ts")%string.
  rewrite !split_on_app by (done || cbn; tauto). done.
Qed.

(** * Who publishes a field *)

Definition origin_ok (o : SlotOrigin) : Prop := is_uint 32 (so_channel_id o) /\ is_uint 32 (so_point_id o).

(** A routing cache of 32-bit ids in which no two points feed the same instance point. *)
Record routes_ok (rc : RoutingCache) : Prop := {
  ro_u32 : forall k t, rc_c2m rc !! k = Some t -> c2m_ok t;
  ro_inj : forall k1 k2 t, rc_c2m rc !! k1 = Some t -> rc_c2m rc !! k2 = Some t -> k1 = k2;
}.

Section Fields.
Variable f64_to_bytes : Z -> string.
Variable rc : RoutingCache.
Hypothesis Hrc : routes_ok rc.

(** The key, split at its colons, and the field number a slot may publish under. *)
Inductive published_as (o : SlotOrigin) : list string -> Z -> Prop :=
| As_channel suffix : suffix = [] \/ suffix = ["ts"]%string \/ suffix = ["raw"]%string ->
    published_as o (["comsrv"; print_u32 (so_channel_id o); PointType_as_str (so_point_type o)]%string ++ suffix) (so_point_id o)
| As_instance suffix t : suffix = [] \/ suffix = ["ts"]%string -> c2m_ok t ->
    rc_c2m rc !! (so_channel_id o, so_point_type o, so_point_id o) = Some t ->
    published_as o (["inst"; print_u32 (c2m_instance_id t); "M"]%string ++ suffix) (c2m_point_id t).

Lemma slot_fields_as o v r ts k f x : origin_ok o -> (k, (f, x)) ∈ slot_fields f64_to_bytes rc o v r ts ->
  exists p, is_uint 32 p /\ f = print_u32 p /\ published_as o (split_on colon k) p.
Proof using Hrc.
  intros [Hc Hp] Hin. destruct (channel_key_parts (so_channel_id o) (so_point_type o) Hc) as (K1 & K2 & K3).
  unfold slot_fields in Hin. rewrite (get_point_id_str_print (so_point_id o)) in Hin by done.
  apply elem_of_app in Hin as [Hin | Hin].
  - exists (so_point_id o). split; [done |]. apply elem_of_cons in Hin as [[= -> -> ->] | Hin].
    { split; [done |]. rewrite K1. apply (As_channel o []). auto. }
    apply elem_of_cons in Hin as [[= -> -> ->] | Hin].
    { split; [done |]. rewrite K2. apply (As_channel o ["ts"]%string). auto. }
    apply list_elem_of_singleton in Hin as [= -> -> ->]. split; [done |]. rewrite K3. apply (As_channel o ["raw"]%string). auto.
  - unfold RoutingCache_lookup_c2m_by_parts in Hin. destruct (rc_c2m rc !! _) as [t|] eqn:El; [| by apply elem_of_nil in Hin].
    pose proof (ro_u32 _ Hrc _ _ El) as [Hi Hip]. destruct (instance_key_parts (c2m_instance_id t) Hi) as (K4 & K5).
    rewrite (get_point_id_str_print (c2m_point_id t)) in Hin by done. exists (c2m_point_id t). split; [done |].
    apply elem_of_cons in Hin as [[= -> -> ->] | Hin].
    { split; [done |]. rewrite K4. apply (As_instance o []); [auto | done | done]. }
    apply list_elem_of_singleton in Hin as [= -> -> ->]. split; [done |]. rewrite K5.
    apply (As_instance o ["ts"]%string); [auto | done | done].
Qed.

Lemma published_as_inj o1 o2 l1 l2 p1 p2 : origin_ok o1 -> origin_ok o2 ->
  published_as o1 l1 p1 -> published_as o2 l2 p2 -> l1 = l2 -> p1 = p2 -> o1 = o2.
Proof using Hrc.
  intros [Hc1 Hp1] [Hc2 Hp2]. destruct o1 as [c1 t1 q1], o2 as [c2 t2 q2]. cbn [so_channel_id so_point_id] in *.
  intros [s1 _ | s1 u1 _ Hu1 Hl1] [s2 _ | s2 u2 _ Hu2 Hl2] El Ep; cbn [so_channel_id so_point_type so_point_id app] in *; try done.
  - injection El as Ec Et _. f_equal; [by apply print_u32_inj | by destruct t1, t2 | done].
  - injection El as Ei _. apply print_u32_inj in Ei; [| apply Hu1 | apply Hu2].
    assert (u1 = u2) as -> by (destruct u1, u2; cbn in *; congruence).
    pose proof (ro_inj _ Hrc _ _ _ Hl1 Hl2). congruence.
Qed.

(** A field of a key is published by one slot only. *)
Lemma slot_fields_owner o1 o2 v1 r1 t1 v2 r2 t2 k f x1 x2 : origin_ok o1 -> origin_ok o2 ->
  (k, (f, x1)) ∈ slot_fields f64_to_bytes rc o1 v1 r1 t1 -> (k, (f, x2)) ∈ slot_fields f64_to_bytes rc o2 v2 r2 t2 -> o1 = o2.
Proof using Hrc.
  intros H1 H2 Hin1 Hin2. destruct (slot_fields_as _ _ _ _ _ _ _ H1 Hin1) as (p1 & Hp1 & E1 & A1).
  destruct (slot_fields_as _ _ _ _ _ _ _ H2 Hin2) as (p2 & Hp2 & E2 & A2).
  rewrite E1 in E2. apply print_u32_inj in E2; [| done..]. by eapply published_as_inj.
Qed.

Lemma slot_fields_keys o v r ts : origin_ok o -> NoDup (slot_fields f64_to_bytes rc o v r ts).*1.
Proof using Hrc.
  intros [Hc Hp]. apply (NoDup_fmap_1 (split_on colon)). destruct (channel_key_parts (so_channel_id o) (so_point_type o) Hc) as (K1 & K2 & K3).
  unfold slot_fields, RoutingCache_lookup_c2m_by_parts. destruct (rc_c2m rc !! _) as [t|] eqn:El; cbn [app fmap list_fmap fst].
  - destruct (instance_key_parts (c2m_instance_id t)) as (K4 & K5); [apply (ro_u32 _ Hrc _ _ El) |].
    rewrite K1, K2, K3, K4, K5. repeat apply NoDup_cons_2; try apply NoDup_nil_2; set_solver.
  - rewrite K1, K2, K3. repeat apply NoDup_cons_2; try apply NoDup_nil_2; set_solver.
Qed.
End Fields.

(** * Collected operations *)

Definition collect (es : list (string * (string * string))) : gmap string (list (string * string)) := foldl push_op ∅ es.
Definition field_of (e : string * (string * string)) : string * string := (e.1, e.2.1).

Lemma push_lookup es : forall ops k, foldl push_op ops es !! k =
  match filter (fun e => e.1 = k) es with [] => ops !! k | es' => Some (default [] (ops !! k) ++ es'.*2) end.
Proof.
  induction es as [|[k0 v] es IH]; intros ops k; cbn [foldl]; [done |]. rewrite IH. unfold push_op at 1. cbn [fst snd].
  rewrite filter_cons. destruct (decide (k0 = k)) as [-> | Hne].
  - rewrite decide_True by done. rewrite lookup_insert_eq. unfold push_op. cbn [fst snd]. rewrite lookup_insert_eq. cbn [fmap list_fmap snd].
    destruct (filter _ es); cbn [fmap list_fmap]; [done |]. f_equal. symmetry. apply (app_assoc _ [v]).
  - rewrite decide_False by done. unfold push_op. cbn [fst snd]. by rewrite !lookup_insert_ne by done.
Qed.

Lemma collect_lookup es k l : collect es !! k = Some l <-> l <> [] /\ l = (filter (fun e => e.1 = k) es).*2.
Proof.
  unfold collect. rewrite push_lookup, lookup_empty. destruct (filter (fun e => e.1 = k) es) as [|e es']; cbn; [naive_solver |].
  split; [intros [= <-]; done | intros [_ ->]; done].
Qed.

Lemma collect_wf es ops : NoDup (field_of <$> es) -> ops ≡ₚ map_to_list (collect es) -> ops_wf ops.
Proof.
  intros Hnd Hp. split; [rewrite Hp; apply NoDup_fst_map_to_list |]. rewrite Hp. apply Forall_forall. intros [k l].
  rewrite elem_of_map_to_list, collect_lookup. intros [_ ->]. cbn [snd]. apply (NoDup_fmap_1 (pair k)).
  rewrite <- !list_fmap_compose.
  erewrite (list_fmap_ext _ field_of); [eapply sublist_NoDup; [exact Hnd | apply fmap_sublist, sublist_filter] |].
  intros i e He. apply list_elem_of_lookup_2, list_elem_of_filter in He as [<- _]. done.
Qed.

Lemma collect_get es ops k f x : NoDup (field_of <$> es) -> ops ≡ₚ map_to_list (collect es) ->
  ops_get ops k f = Some x <-> (k, (f, x)) ∈ es.
Proof.
  intros Hnd Hp. rewrite ops_get_elem by (by eapply collect_wf). setoid_rewrite Hp. setoid_rewrite elem_of_map_to_list. split.
  - intros (fs & Hl & Hin). apply collect_lookup in Hl as [_ ->]. apply list_elem_of_fmap in Hin as ([k' fx] & Hfx & Hin).
    cbn in Hfx. subst fx. by apply list_elem_of_filter in Hin as [[= ->] Hin].
  - intros Hin. exists (filter (fun e => e.1 = k) es).*2. assert (Hf : (f, x) ∈ (filter (fun e => e.1 = k) es).*2).
    { apply list_elem_of_fmap. exists (k, (f, x)). split; [done |]. by apply list_elem_of_filter. }
    split; [| done]. apply collect_lookup. split; [| done]. intros Hn. rewrite Hn in Hf. by apply elem_of_nil in Hf.
Qed.

Lemma collect_nil es : collect es = ∅ <-> es = [].
Proof.
  split; [| by intros ->]. destruct es as [|e es]; [done |]. intros H. exfalso.
  assert (Hc : collect (e :: es) !! e.1 = None) by (by rewrite H). unfold collect in Hc. rewrite push_lookup, filter_cons, decide_True in Hc by done.
  discriminate.
Qed.

(** * The scan of a pass *)

Section Scan.
Variable f64_to_bytes : Z -> string.
Variable g : Segment.
Variable w : SlotWriter.
Variable rev : ReverseSlotIndex.
Variable rc : RoutingCache.
Hypothesis Hwf : store_wf g w.

Definition slot_seq (i : nat) : Z := match sg_slots g !! i with Some s => ps_seq s | None => 0 end.

(** A slot with an origin that holds a finite reading. *)
Definition publishable (i : nat) : option (SlotOrigin * PointSlot) :=
  match sg_slots g !! i with
  | Some s =>
      if f64_is_finite (ps_value_bits s) && f64_is_finite (ps_raw_bits s)
      then option_map (fun o => (o, s)) (ReverseSlotIndex_get rev i)
      else None
  | None => None
  end.

Definition fields_of (i : nat) : list (string * (string * string)) :=
  match publishable i with
  | Some (o, s) => slot_fields f64_to_bytes rc o (ps_value_bits s) (ps_raw_bits s) (ps_timestamp s)
  | None => []
  end.

Lemma scan_slot_ok acc i last : (i < sw_slot_count w)%nat -> sa_last_seq acc !! i = Some last ->
  scan_slot f64_to_bytes g (sw_slot_count w) rev rc acc i =
  Ret (if slot_seq i =? last then acc
       else match publishable i with
            | None => mkScanAcc (<[i := slot_seq i]> (sa_last_seq acc)) (sa_retry acc) (sa_ops acc) (sa_synced acc)
            | Some _ => mkScanAcc (sa_last_seq acc) (sa_retry acc) (foldl push_op (sa_ops acc) (fields_of i))
                          (sa_synced acc ++ [(i, slot_seq i)])
            end).
Proof using Hwf.
  intros Hi Hl. unfold scan_slot, fields_of, publishable, slot_seq. rewrite (proj2 (Nat.leb_gt _ _) Hi).
  destruct (slot_at_ok g w i Hwf Hi) as (s & -> & -> & [_ He]). cbn [outcome_bind]. unfold scan_peek. rewrite Hl. cbn [outcome_bind].
  destruct (ps_seq s =? last); [done |]. cbn [negb]. unfold scan_loaded, PointSlot_try_load_consistent. cbv zeta. rewrite He. cbn [Z.eqb negb]. rewrite Z.eqb_refl.
  destruct (f64_is_finite (ps_value_bits s)), (f64_is_finite (ps_raw_bits s)); cbn [negb orb andb]; try done.
  by destruct (ReverseSlotIndex_get rev i).
Qed.

(** What a scan does to each candidate: it is queued for the database, or its
    sequence number is taken over. *)
Record scanned (acc acc' : ScanAcc) (l : list nat) (sy : list nat) : Prop := {
  sc_retry : sa_retry acc' = sa_retry acc;
  sc_length : length (sa_last_seq acc') = length (sa_last_seq acc);
  sc_other : forall i, i ∉ l \/ (sw_slot_count w <= i)%nat -> sa_last_seq acc' !! i = sa_last_seq acc !! i;
  sc_synced : sa_synced acc' = sa_synced acc ++ map (fun i => (i, slot_seq i)) sy;
  sc_ops : sa_ops acc' = foldl push_op (sa_ops acc) (concat (map fields_of sy));
  sc_sub : sublist sy l;
  sc_range : Forall (fun i => (i < sw_slot_count w)%nat) sy;
  sc_each : forall i last, i ∈ l -> (i < sw_slot_count w)%nat -> sa_last_seq acc !! i = Some last ->
    ((i ∈ sy) /\ slot_seq i <> last /\ is_Some (publishable i) /\ sa_last_seq acc' !! i = Some last) \/
    ((i ∉ sy) /\ (slot_seq i = last \/ publishable i = None) /\ sa_last_seq acc' !! i = Some (slot_seq i));
}.

Lemma scanned_skip acc acc' i l sy : (sw_slot_count w <= i)%nat -> scanned acc acc' l sy -> scanned acc acc' (i :: l) sy.
Proof.
  intros Hi []. split; try done; [| by apply sublist_cons |].
  - intros j Hj. apply sc_other0. rewrite elem_of_cons in Hj. destruct Hj; [left; tauto | by right].
  - intros j last Hj Hjn. apply elem_of_cons in Hj as [-> | Hj]; [lia | by apply sc_each0].
Qed.

(** A queued slot, or one whose number is taken over, before the rest of the list. *)
Lemma scanned_cons (queued : bool) acc acc1 acc' i l sy last : i ∉ l -> (i < sw_slot_count w)%nat -> sa_last_seq acc !! i = Some last ->
  length (sa_last_seq acc1) = length (sa_last_seq acc) -> sa_retry acc1 = sa_retry acc ->
  (forall j, j <> i -> sa_last_seq acc1 !! j = sa_last_seq acc !! j) ->
  (if queued then slot_seq i <> last /\ is_Some (publishable i) /\ sa_last_seq acc1 !! i = Some last /\
     sa_synced acc1 = sa_synced acc ++ [(i, slot_seq i)] /\ sa_ops acc1 = foldl push_op (sa_ops acc) (fields_of i)
   else (slot_seq i = last \/ publishable i = None) /\ sa_last_seq acc1 !! i = Some (slot_seq i) /\
     sa_synced acc1 = sa_synced acc /\ sa_ops acc1 = sa_ops acc) ->
  scanned acc1 acc' l sy -> scanned acc acc' (i :: l) (if queued then i :: sy else sy).
Proof.
  intros Hni Hi Hlast Hl1 Hr1 Ho1 Hq []. assert (Hnsy : i ∉ sy).
  { intros H. apply Hni. eapply elem_of_submseteq; [exact H | by apply sublist_submseteq]. }
  split; try (congruence || lia).
  - intros j Hj. rewrite sc_other0.
    + apply Ho1. intros ->. destruct Hj as [Hj | Hj]; [apply Hj; left | lia].
    + destruct Hj as [Hj | Hj]; [left; by intros Hj'; apply Hj; right | by right].
  - destruct queued; destruct_and! Hq; rewrite sc_synced0; [| congruence]. rewrite H2. cbn [map]. by rewrite <- (assoc_L (++)).
  - destruct queued; destruct_and! Hq; rewrite sc_ops0; [| congruence]. cbn [map concat]. rewrite foldl_app. congruence.
  - destruct queued; [by apply sublist_skip | by apply sublist_cons].
  - destruct queued; [by constructor | done].
  - intros j last' Hj Hjn Hjl. apply elem_of_cons in Hj as [-> | Hj].
    + rewrite Hlast in Hjl. injection Hjl as <-. destruct queued; [left | right]; destruct_and! Hq; rewrite sc_other0 by auto;
        (split; [set_solver | done]).
    + assert (j <> i) by (by intros ->). destruct (sc_each0 j last' Hj Hjn) as [(? & ?) | (? & ?)]; [by rewrite Ho1 | left | right];
        (split; [destruct queued; set_solver | done]).
Qed.

Lemma scan_slots_ok l : forall acc, NoDup l -> (sw_slot_count w <= length (sa_last_seq acc))%nat ->
  exists acc' sy, scan_slots f64_to_bytes g (sw_slot_count w) rev rc acc l = Ret acc' /\ scanned acc acc' l sy.
Proof using Hwf.
  induction l as [|i l IH]; intros acc Hnd Hlen; cbn [scan_slots].
  { exists acc, []. split; [done |]. split; try done; [by rewrite app_nil_r | intros ? ? H; by apply elem_of_nil in H]. }
  apply NoDup_cons in Hnd as [Hni Hnd]. destruct (decide (i < sw_slot_count w)%nat) as [Hi | Hi]; cycle 1.
  { unfold scan_slot at 1. rewrite (proj2 (Nat.leb_le _ _)) by lia. cbn [outcome_bind].
    destruct (IH acc Hnd Hlen) as (acc' & sy & -> & Hs). exists acc', sy. split; [done |]. apply scanned_skip; [lia | done]. }
  destruct (lookup_lt_is_Some_2 (sa_last_seq acc) i) as [last Hlast]; [lia |].
  rewrite (scan_slot_ok acc i last Hi Hlast). cbn [outcome_bind].
  match goal with |- context [scan_slots _ _ _ _ _ ?a l] => set (acc1 := a) end.
  assert (H1 : length (sa_last_seq acc1) = length (sa_last_seq acc) /\ sa_retry acc1 = sa_retry acc /\
               forall j, j <> i -> sa_last_seq acc1 !! j = sa_last_seq acc !! j).
  { unfold acc1. destruct (_ =? _); [done |]. destruct (publishable i); cbn; [done |].
    split; [by rewrite length_insert |]. split; [done |]. intros j Hj. by apply list_lookup_insert_ne. }
  destruct H1 as (Hl1 & Hr1 & Ho1). destruct (IH acc1 Hnd) as (acc' & sy & -> & Hs); [lia |].
  exists acc', (if negb (slot_seq i =? last) && bool_decide (is_Some (publishable i)) then i :: sy else sy). split; [done |].
  eapply scanned_cons; try done. clear Hs. unfold acc1.
  destruct (Z.eqb_spec (slot_seq i) last) as [-> |]; cbn [negb andb]; [by auto |].
  destruct (publishable i) eqn:Ep; cbn [sa_last_seq sa_synced sa_ops].
  - rewrite bool_decide_true by eauto. split_and!; eauto.
  - rewrite bool_decide_false by (by intros [? [=]]). split_and!; [by right | by rewrite list_lookup_insert_eq by lia | done | done].
Qed.
End Scan.

(** * The task among writers, reloads and failures *)

Section System.
Context {C : Type} `{MS : !MpscSender C PointWatchEvent}.
Variable f64_to_bytes : Z -> string.
Variable content_hash : RoutingCache -> Z.
Variable ops_order : list (string * list (string * string)) -> list (string * list (string * string)).
Hypothesis Horder : forall l, ops_order l ≡ₚ l.

(** A pass in its loop: what it captured at its start (the layout guard keeps the old
    layout alive; [pa_current] says whether that layout is still the published one), the
    candidates left, the slot whose sequence number it has read, and what it has
    collected. *)
Record Pass := mkPass {
  pa_current : bool;
  pa_count : nat;
  pa_rev : ReverseSlotIndex;
  pa_todo : list nat;
  pa_peeked : option (nat * Z);
  pa_ops : gmap string (list (string * string));
  pa_synced : list (nat * Z);
}.
(** Between passes, in the loop, or waiting for the database. *)
Inductive Phase := PIdle | PScan (p : Pass) | PFlight (ops : HashMsetOps) (synced : list (nat * Z)).

(** [y_open]: the slots with a write under way (an odd sequence number); [y_seg] holds
    what the last complete write of each slot left. *)
Record SyncSystem := mkSyncSystem {
  y_seg : Segment;
  y_ptr : Z;
  y_layout : ShmLayout C;
  y_rc : RoutingCache;
  y_sync : SyncState;
  y_open : gset nat;
  y_phase : Phase;
  y_db : gmap string Hash;
}.

Definition y_writer (y : SyncSystem) : SlotWriter := uw_inner (sl_writer (y_layout y)).
Definition y_count (y : SyncSystem) : nat := sw_slot_count (y_writer y).
Definition with_writer (l : ShmLayout C) (w : UnifiedWriter C) : ShmLayout C := mkShmLayout w (sl_index l) (sl_reverse_index l).
Definition phase_of (fl : option (HashMsetOps * list (nat * Z))) : Phase :=
  match fl with Some (ops, synced) => PFlight ops synced | None => PIdle end.
Definition orphaned (ph : Phase) : Phase :=
  match ph with
  | PScan p => PScan (mkPass false (pa_count p) (pa_rev p) (pa_todo p) (pa_peeked p) (pa_ops p) (pa_synced p))
  | _ => ph
  end.
Definition peeking (p : Pass) (todo : list nat) (peeked : option (nat * Z)) : Pass :=
  mkPass (pa_current p) (pa_count p) (pa_rev p) todo peeked (pa_ops p) (pa_synced p).
Definition collected (p : Pass) (acc : ScanAcc) : Pass :=
  mkPass (pa_current p) (pa_count p) (pa_rev p) (pa_todo p) None (sa_ops acc) (sa_synced acc).

(** A layout over its segment: the slots are mapped and at rest, a point owns at
    most one slot, and a slot never written holds no finite reading. *)
Record layout_sound (g : Segment) (l : ShmLayout C) : Prop := {
  ls_store : store_wf g (uw_inner (sl_writer l));
  ls_origins : forall i o, ReverseSlotIndex_get (sl_reverse_index l) i = Some o -> origin_ok o;
  ls_inj : forall i j o, ReverseSlotIndex_get (sl_reverse_index l) i = Some o ->
    ReverseSlotIndex_get (sl_reverse_index l) j = Some o -> i = j;
  ls_fresh : forall i, (i < sw_slot_count (uw_inner (sl_writer l)))%nat -> slot_seq g i = 0 ->
    publishable g (sl_reverse_index l) i = None;
}.

(** What [seq_raw] reads, and what [try_load_consistent] may return: nothing (always
    possible, a write may pass through the load), or what the slot holds when no write
    is under way (PointSlot.v: a read that completes returns what one write stored). *)
Definition observed_seq (g : Segment) (open : gset nat) (i : nat) : Z :=
  if decide (i ∈ open) then slot_seq g i + 1 else slot_seq g i.
Definition load_result (g : Segment) (open : gset nat) (i : nat) (loaded : option (Z * Z * Z)) : Prop :=
  loaded = None \/ ((i ∉ open) /\ exists s, sg_slots g !! i = Some s /\ loaded = PointSlot_try_load_consistent s).

Inductive SyncEvent := EvOpen (i : nat) | EvCommit (i : nat) | EvMark (i : nat) | EvRebuild (ptr : Z) (rc : RoutingCache)
  | EvReroute (rc : RoutingCache) | EvPass.

(** Writers, reloads and the task.  A write opens its slot, stores the reading (odd to
    even sequence number) and, when it is a write of this process, marks the slot dirty
    and signals; another process has a dirty bitmap of its own.  The start of a pass (the
    layout, the routing hash, the dirty bits) is one step; then the task makes one access
    to a slot per step, and every slot looks up the routing cache of that moment.  A pass
    whose layout was replaced may read anything from its old file. *)
Inductive sync_step : SyncSystem -> SyncEvent -> SyncSystem -> Prop :=
| Sync_open g ptr l rc st op ph db i :
    (i < sw_slot_count (uw_inner (sl_writer l)))%nat -> i ∉ op ->
    sync_step (mkSyncSystem g ptr l rc st op ph db) (EvOpen i) (mkSyncSystem g ptr l rc st ({[i]} ∪ op) ph db)
| Sync_commit g ptr l rc st op ph db i v r t s :
    (i < sw_slot_count (uw_inner (sl_writer l)))%nat -> i ∈ op -> sg_slots g !! i = Some s ->
    sync_step (mkSyncSystem g ptr l rc st op ph db) (EvCommit i)
      (mkSyncSystem (store_slot g i (PointSlot_set s v r t) t) ptr l rc st (op ∖ {[i]}) ph db)
| Sync_mark g ptr l rc st op ph db i watch :
    (i < sw_slot_count (uw_inner (sl_writer l)))%nat ->
    sync_step (mkSyncSystem g ptr l rc st op ph db) (EvMark i)
      (mkSyncSystem g ptr (with_writer l (mkUnifiedWriter (SlotWriter_mark_dirty_slot (uw_inner (sl_writer l)) i)
         (uw_channel_layouts (sl_writer l)) watch)) rc st op ph db)
| Sync_rebuild g ptr l rc st op ph db g' ptr' l' rc' :
    layout_sound g' l' -> ptr' <> 0 ->
    sync_step (mkSyncSystem g ptr l rc st op ph db) (EvRebuild ptr' rc') (mkSyncSystem g' ptr' l' rc' st ∅ (orphaned ph) db)
| Sync_reroute g ptr l rc st op ph db rc' :
    sync_step (mkSyncSystem g ptr l rc st op ph db) (EvReroute rc') (mkSyncSystem g ptr l rc' st op ph db)
| Sync_start g ptr l rc st op db w' st' candidates :
    flush_start content_hash g (Some (ptr, l)) rc st = inl (w', st', candidates) ->
    sync_step (mkSyncSystem g ptr l rc st op PIdle db) EvPass
      (mkSyncSystem g ptr (with_writer l w') rc st' op
         (PScan (mkPass true (sw_slot_count (uw_inner (sl_writer l))) (sl_reverse_index l) candidates None ∅ [])) db)
| Sync_skip g ptr l rc st op db st' :
    flush_start content_hash g (Some (ptr, l)) rc st = inr st' ->
    sync_step (mkSyncSystem g ptr l rc st op PIdle db) EvPass (mkSyncSystem g ptr l rc st' op PIdle db)
| Sync_beyond g ptr l rc st op db p i todo :
    pa_peeked p = None -> pa_todo p = i :: todo -> (pa_count p <= i)%nat ->
    sync_step (mkSyncSystem g ptr l rc st op (PScan p) db) EvPass (mkSyncSystem g ptr l rc st op (PScan (peeking p todo None)) db)
| Sync_peek g ptr l rc st op db p i todo seq load :
    pa_peeked p = None -> pa_todo p = i :: todo -> (i < pa_count p)%nat ->
    (pa_current p = true -> seq = observed_seq g op i) -> scan_peek (ss_last_seq st) i seq = Ret load ->
    sync_step (mkSyncSystem g ptr l rc st op (PScan p) db) EvPass
      (mkSyncSystem g ptr l rc st op (PScan (peeking p todo (if load then Some (i, seq) else None))) db)
| Sync_load g ptr l rc st op db p i seq loaded acc :
    pa_peeked p = Some (i, seq) -> (pa_current p = true -> load_result g op i loaded) ->
    scan_loaded f64_to_bytes (pa_rev p) rc (acc_of st (pa_ops p) (pa_synced p)) i seq loaded = acc ->
    sync_step (mkSyncSystem g ptr l rc st op (PScan p) db) EvPass (mkSyncSystem g ptr l rc (put_acc st acc) op (PScan (collected p acc)) db)
| Sync_send g ptr l rc st op db p st' fl :
    pa_peeked p = None -> pa_todo p = [] -> flush_send ops_order st (pa_ops p) (pa_synced p) = (st', fl) ->
    sync_step (mkSyncSystem g ptr l rc st op (PScan p) db) EvPass (mkSyncSystem g ptr l rc st' op (phase_of fl) db)
| Sync_success g ptr l rc st op ops synced db st' :
    flush_finish st synced true = Ret st' ->
    sync_step (mkSyncSystem g ptr l rc st op (PFlight ops synced) db) EvPass (mkSyncSystem g ptr l rc st' op PIdle (mset_ops db ops))
| Sync_failure g ptr l rc st op ops synced db db' st' :
    applied_in_part db ops db' -> flush_finish st synced false = Ret st' ->
    sync_step (mkSyncSystem g ptr l rc st op (PFlight ops synced) db) EvPass (mkSyncSystem g ptr l rc st' op PIdle db').

(** ** What the task relies on

    The code notices a write by its sequence number, a rebuild by the address of the
    layout, and a routing change by a hash that is not zero.  [usual] excludes the events
    it cannot notice: a sequence number that wraps at 2^32, a layout allocated at the
    address the last pass saw, a routing cache of the same hash as the last one seen or
    following one whose hash was zero; and routing caches in which two channel points
    feed one instance point, whose field the two would overwrite in turn. *)
Definition seq_room (g : Segment) (i : nat) : Prop := slot_seq g i + 2 < 2 ^ 32.

Definition usual (y : SyncSystem) (e : SyncEvent) : Prop :=
  match e with
  | EvCommit i => seq_room (y_seg y) i
  | EvRebuild ptr rc => ptr <> ss_last_layout_ptr (y_sync y) /\ routes_ok rc
  | EvReroute rc => routes_ok rc /\ content_hash rc <> ss_last_routing_hash (y_sync y) /\
      (ss_last_layout_ptr (y_sync y) = 0 \/ ss_last_routing_hash (y_sync y) <> 0)
  | _ => True
  end.
Definition usual_step (y y' : SyncSystem) : Prop := exists e, usual y e /\ sync_step y e y'.

(** The task starts over a sound layout with no write under way. *)
Definition sync_init (y : SyncSystem) : Prop :=
  layout_sound (y_seg y) (y_layout y) /\ routes_ok (y_rc y) /\ y_ptr y <> 0 /\
  (exists n, y_sync y = ShmRedisSync_new n) /\ y_phase y = PIdle /\ y_open y = ∅.

(** The database holds the fields of slot [i] as the slot reads now. *)
Definition published (y : SyncSystem) (i : nat) : Prop :=
  forall k f x, (k, (f, x)) ∈ fields_of f64_to_bytes (y_seg y) (sl_reverse_index (y_layout y)) (y_rc y) i ->
    hget (y_db y) k f = Some x.

(** The last pass saw the current layout and routing. *)
Definition sync_current (y : SyncSystem) : Prop :=
  ss_last_layout_ptr (y_sync y) = y_ptr y /\ ss_last_routing_hash (y_sync y) = content_hash (y_rc y).

(** ** The invariant *)

(** The bookkeeping never runs ahead of the database. *)
Record marks_ok (y : SyncSystem) : Prop := {
  mk_length : (y_count y <= length (ss_last_seq (y_sync y)))%nat;
  mk_retry : Forall (fun i => (i < y_count y)%nat) (ss_retry_slots (y_sync y));
  mk_le : forall i q, (i < y_count y)%nat -> ss_last_seq (y_sync y) !! i = Some q -> 0 <= q <= slot_seq (y_seg y) i;
  mk_published : forall i, (i < y_count y)%nat -> ss_last_seq (y_sync y) !! i = Some (slot_seq (y_seg y) i) -> published y i;
}.

(** The operations collected by a pass are the fields of its slots. *)
Record flight_ok (y : SyncSystem) (ops : HashMsetOps) (synced : list (nat * Z)) (es : list (string * (string * string))) : Prop := {
  fl_nodup : NoDup (field_of <$> es);
  fl_ops : ops ≡ₚ map_to_list (collect es);
  fl_slots : NoDup synced.*1;
  fl_each : forall i q, (i, q) ∈ synced -> (i < y_count y)%nat /\ q <= slot_seq (y_seg y) i /\
    (exists last, ss_last_seq (y_sync y) !! i = Some last /\ last < q) /\
    (q = slot_seq (y_seg y) i -> fields_of f64_to_bytes (y_seg y) (sl_reverse_index (y_layout y)) (y_rc y) i ⊆ es);
  fl_owner : forall k f x, (k, (f, x)) ∈ es -> exists i o v r t, i ∈ synced.*1 /\
    ReverseSlotIndex_get (sl_reverse_index (y_layout y)) i = Some o /\ (k, (f, x)) ∈ slot_fields f64_to_bytes (y_rc y) o v r t;
}.

(** A pass in its loop over the current layout: no slot is visited twice, and a number
    it has read belongs to a complete write or to one still under way. *)
Record scan_ok (y : SyncSystem) (p : Pass) : Prop := {
  sp_current : pa_current p = true;
  sp_count : pa_count p = y_count y;
  sp_rev : pa_rev p = sl_reverse_index (y_layout y);
  sp_nodup : NoDup (option_list (fst <$> pa_peeked p) ++ pa_todo p ++ (pa_synced p).*1);
  sp_range : Forall (fun i => (i < y_count y)%nat) (pa_todo p);
  sp_peeked : forall i q, pa_peeked p = Some (i, q) -> (i < y_count y)%nat /\
    (exists last, ss_last_seq (y_sync y) !! i = Some last /\ last < q) /\
    (q <= slot_seq (y_seg y) i \/ (q = slot_seq (y_seg y) i + 1 /\ i ∈ y_open y));
  sp_queued : exists es, pa_ops p = collect es /\ flight_ok y (map_to_list (pa_ops p)) (pa_synced p) es;
}.

(** What holds of a pass over any layout: its indices are in range. *)
Definition pass_in_range (st : SyncState) (ph : Phase) : Prop :=
  match ph with
  | PIdle => True
  | PScan p => (pa_count p <= length (ss_last_seq st))%nat /\ Forall (fun x => (x.1 < length (ss_last_seq st))%nat) (pa_synced p) /\
      forall i q, pa_peeked p = Some (i, q) -> (i < length (ss_last_seq st))%nat
  | PFlight _ synced => Forall (fun x => (x.1 < length (ss_last_seq st))%nat) synced
  end.

Record sync_inv (y : SyncSystem) : Prop := {
  si_layout : layout_sound (y_seg y) (y_layout y);
  si_routing : routes_ok (y_rc y);
  si_ptr : y_ptr y <> 0;
  si_first : ss_last_layout_ptr (y_sync y) = 0 -> ss_last_routing_hash (y_sync y) = 0 /\
    Forall (eq 0) (ss_last_seq (y_sync y)) /\ ss_retry_slots (y_sync y) = [];
  si_zero : ss_last_layout_ptr (y_sync y) = y_ptr y -> ss_last_routing_hash (y_sync y) = 0 -> content_hash (y_rc y) = 0;
  si_marks : sync_current y -> marks_ok y;
  si_range : pass_in_range (y_sync y) (y_phase y);
  si_scan : forall p, y_phase y = PScan p -> sync_current y -> scan_ok y p;
  si_flight : forall ops synced, y_phase y = PFlight ops synced -> sync_current y -> exists es, flight_ok y ops synced es;
  si_busy : y_phase y <> PIdle -> ss_last_layout_ptr (y_sync y) <> 0;
}.

Lemma slot_seq_range g l i : layout_sound g l -> (i < sw_slot_count (uw_inner (sl_writer l)))%nat -> 0 <= slot_seq g i < 2 ^ 32.
Proof.
  intros Hl Hi. destruct (slot_at_ok g _ i (ls_store _ _ Hl) Hi) as (s & _ & Hs & [Hu _]). unfold slot_seq. by rewrite Hs.
Qed.

Lemma fields_as g rev rc i k f x : (k, (f, x)) ∈ fields_of f64_to_bytes g rev rc i -> exists o v r t,
  ReverseSlotIndex_get rev i = Some o /\ (k, (f, x)) ∈ slot_fields f64_to_bytes rc o v r t.
Proof.
  unfold fields_of, publishable. destruct (sg_slots g !! i) as [s|]; [| by intros ?%elem_of_nil].
  destruct (_ && _); [| by intros ?%elem_of_nil]. destruct (ReverseSlotIndex_get rev i) as [o|]; [| by intros ?%elem_of_nil].
  cbn [option_map]. eauto 10.
Qed.

Lemma fields_nodup g l rc sy : layout_sound g l -> routes_ok rc -> NoDup sy ->
  NoDup (field_of <$> concat (map (fields_of f64_to_bytes g (sl_reverse_index l) rc) sy)).
Proof.
  intros Hl Hrc. induction sy as [|i sy IH]; intros Hnd; [by apply NoDup_nil |]. apply NoDup_cons in Hnd as [Hni Hnd].
  cbn [map concat]. rewrite fmap_app. apply NoDup_app. split; [| split; [| by apply IH]].
  - unfold fields_of. destruct (publishable _ _ i) as [[o s]|] eqn:Ep; [| by apply NoDup_nil].
    apply (NoDup_fmap_1 fst). rewrite <- list_fmap_compose. apply slot_fields_keys; [done |].
    apply (ls_origins _ _ Hl i). revert Ep. unfold publishable. destruct (sg_slots g !! i); [| done].
    destruct (_ && _); [| done]. by destruct (ReverseSlotIndex_get _ i) as [o'|]; [intros [= <- _] |].
  - intros [k f] H1 H2. apply list_elem_of_fmap in H1 as ([k1 [f1 x1]] & [= <- <-] & H1).
    apply list_elem_of_fmap in H2 as ([k2 [f2 x2]] & [= <- <-] & H2). apply list_elem_of_In, in_concat in H2 as (es & Hes & H2).
    apply in_map_iff in Hes as (j & <- & Hj). apply list_elem_of_In in H2, Hj.
    destruct (fields_as _ _ _ _ _ _ _ H1) as (o1 & ? & ? & ? & R1 & F1), (fields_as _ _ _ _ _ _ _ H2) as (o2 & ? & ? & ? & R2 & F2).
    assert (o1 = o2) as -> by (eapply slot_fields_owner; eauto using ls_origins).
    by rewrite (ls_inj _ _ Hl _ _ _ R1 R2) in Hni.
Qed.

(** ** Writes and reloads *)

Lemma set_direct_inv g w i v r t g' w' : SlotWriter_set_direct g w i v r t = Ret (g', w') ->
  exists s, (i < sw_slot_count w)%nat /\ sg_slots g !! i = Some s /\
    g' = store_slot g i (PointSlot_set s v r t) t /\ w' = SlotWriter_mark_dirty_slot w i.
Proof.
  unfold SlotWriter_set_direct, slot_at. destruct (Nat.ltb_spec i (sw_slot_count w)); [| done].
  destruct (sg_slots g !! i) as [s|]; [| done]. cbn. intros [= <- <-]. by exists s.
Qed.

Lemma unified_set_direct_inv g (w : UnifiedWriter C) i v r t g' w' : UnifiedWriter_set_direct g w i v r t = Ret (g', w') ->
  exists s, (i < sw_slot_count (uw_inner w))%nat /\ sg_slots g !! i = Some s /\
    g' = store_slot g i (PointSlot_set s v r t) t /\ uw_inner w' = SlotWriter_mark_dirty_slot (uw_inner w) i.
Proof.
  unfold UnifiedWriter_set_direct. destruct (SlotWriter_set_direct g (uw_inner w) i v r t) as [[g1 w1]|] eqn:Es; [| done]. cbn [outcome_bind].
  destruct (emit_opt _ i v r t); [| done]. intros [= <- <-]. by apply set_direct_inv.
Qed.

(** One write seen by the task. *)
Record slot_written (g g' : Segment) (i : nat) : Prop := {
  sw_seq : slot_seq g' i = slot_seq g i + 2;
  sw_frame : forall j, j <> i -> sg_slots g' !! j = sg_slots g !! j;
}.

Lemma set_written g (w : SlotWriter) i s v r t : store_wf g w -> seq_room g i -> (i < sw_slot_count w)%nat -> sg_slots g !! i = Some s ->
  let g' := store_slot g i (PointSlot_set s v r t) t in
  slot_written g g' i /\ store_wf g' (SlotWriter_mark_dirty_slot w i) /\ store_wf g' w /\
  sw_slot_count (SlotWriter_mark_dirty_slot w i) = sw_slot_count w.
Proof.
  intros Hwf Hroom Hi Hs g'. destruct (store_write_spec g w i v r t s Hwf Hi Hs) as (Hwf' & Hc & _).
  pose proof (proj1 (Forall_lookup _ _) (swf_rest _ _ Hwf) i s Hs) as [Hu _].
  split; [| split; [exact Hwf' | split; [| exact Hc]]].
  - split; [| intros j Hj; cbn; by apply list_lookup_insert_ne].
    unfold slot_seq, seq_room in *. unfold slot_seq in Hroom. cbn [g' store_slot sg_slots]. rewrite list_lookup_insert_eq by (by eapply lookup_lt_Some).
    rewrite Hs in *. rewrite set_seq. unfold wrap, is_uint in *. rewrite Z.mod_small; lia.
  - destruct Hwf' as [H1 H2 _ _], Hwf as [_ _ H3 H4]. rewrite Hc in H1. by split.
Qed.

Lemma written_frame g g' i rev rc j : slot_written g g' i -> j <> i ->
  slot_seq g' j = slot_seq g j /\ publishable g' rev j = publishable g rev j /\
  fields_of f64_to_bytes g' rev rc j = fields_of f64_to_bytes g rev rc j.
Proof. intros [_ Hf] Hj. unfold fields_of, publishable, slot_seq. by rewrite (Hf j Hj). Qed.

(** Only the segment, the layout's index, the routing and the marks enter the claims on a
    pass. *)
Ltac system_fields := unfold y_count, y_writer, published, sync_current in *;
  cbn [y_seg y_layout y_rc y_ptr y_sync y_open y_phase y_db] in *.

Lemma marks_any g ptr l rc st op op' ph ph' db : marks_ok (mkSyncSystem g ptr l rc st op ph db) -> marks_ok (mkSyncSystem g ptr l rc st op' ph' db).
Proof. intros []. by split. Qed.
Lemma flight_any g ptr l rc st op op' ph ph' db db' ops synced es : flight_ok (mkSyncSystem g ptr l rc st op ph db) ops synced es ->
  flight_ok (mkSyncSystem g ptr l rc st op' ph' db') ops synced es.
Proof. intros []. by split. Qed.

Lemma marks_write g g' ptr l rc st op op' ph db i : layout_sound g l -> (i < sw_slot_count (uw_inner (sl_writer l)))%nat -> slot_written g g' i ->
  marks_ok (mkSyncSystem g ptr l rc st op ph db) -> marks_ok (mkSyncSystem g' ptr l rc st op' ph db).
Proof.
  intros Hl Hi Hw [M1 M2 M3 M4]. pose proof (slot_seq_range g l i Hl Hi) as Hge. split; system_fields; try done.
  - intros j q Hj Hq. specialize (M3 j q Hj Hq). destruct (decide (j = i)) as [-> | Hne]; [rewrite (sw_seq _ _ _ Hw); lia |].
    destruct (written_frame g g' i (sl_reverse_index l) rc j Hw Hne) as (-> & _). done.
  - intros j Hj Hq. destruct (decide (j = i)) as [-> | Hne].
    + specialize (M3 i _ Hj Hq). rewrite (sw_seq _ _ _ Hw) in M3. lia.
    + destruct (written_frame g g' i (sl_reverse_index l) rc j Hw Hne) as (E1 & _ & ->). rewrite E1 in Hq. by apply M4.
Qed.

Lemma flight_write g g' ptr l rc st op op' ph db i ops synced es : slot_written g g' i ->
  flight_ok (mkSyncSystem g ptr l rc st op ph db) ops synced es -> flight_ok (mkSyncSystem g' ptr l rc st op' ph db) ops synced es.
Proof.
  intros Hw [F1 F2 F3 F4 F5]. split; system_fields; try done.
  intros j q Hj. destruct (F4 j q Hj) as (A1 & A2 & A3 & A4). split; [done |]. destruct (decide (j = i)) as [-> | Hne].
  - rewrite (sw_seq _ _ _ Hw). split; [lia |]. split; [done |]. lia.
  - destruct (written_frame g g' i (sl_reverse_index l) rc j Hw Hne) as (-> & _ & ->). done.
Qed.

Lemma scan_write g g' ptr l rc st op ph db i p : slot_written g g' i -> scan_ok (mkSyncSystem g ptr l rc st op ph db) p ->
  scan_ok (mkSyncSystem g' ptr l rc st (op ∖ {[i]}) ph db) p.
Proof.
  intros Hw [S1 S2 S3 S4 S5 S6 (es & S7 & S8)]. split; system_fields; try done.
  - intros j q Hj. destruct (S6 j q Hj) as (B1 & B2 & B3). split; [done |]. split; [done |]. destruct (decide (j = i)) as [-> | Hne].
    + left. rewrite (sw_seq _ _ _ Hw). lia.
    + destruct (written_frame g g' i (sl_reverse_index l) rc j Hw Hne) as (-> & _). set_solver.
  - exists es. split; [done |]. by eapply flight_write.
Qed.

Lemma inv_commit g ptr l rc st op ph db i s v r t : sync_inv (mkSyncSystem g ptr l rc st op ph db) -> seq_room g i ->
  (i < sw_slot_count (uw_inner (sl_writer l)))%nat -> sg_slots g !! i = Some s ->
  sync_inv (mkSyncSystem (store_slot g i (PointSlot_set s v r t) t) ptr l rc st (op ∖ {[i]}) ph db).
Proof.
  intros [Hl Hr Hp Hf Hz Hm Hrg Hsc Hfl Hb] Hroom Hi Hs. system_fields.
  destruct (set_written g _ i s v r t (ls_store _ _ Hl) Hroom Hi Hs) as (Hw & _ & Hwf & _).
  pose proof (slot_seq_range g l i Hl Hi) as Hge. set (g' := store_slot g i _ t) in *.
  split; system_fields; try done.
  - split; [done | apply (ls_origins _ _ Hl) | apply (ls_inj _ _ Hl) |].
    intros j Hj H0. destruct (decide (j = i)) as [-> | Hne]; [rewrite (sw_seq _ _ _ Hw) in H0; lia |].
    destruct (written_frame g g' i (sl_reverse_index l) rc j Hw Hne) as (E1 & -> & _). apply (ls_fresh _ _ Hl); [done | lia].
  - intros Hc. eapply marks_write; [exact Hl | exact Hi | exact Hw | exact (Hm Hc)].
  - intros p -> Hc. eapply scan_write; [exact Hw |]. by apply (Hsc p).
  - intros ops synced -> Hc. destruct (Hfl ops synced eq_refl Hc) as [es F]. exists es. by eapply flight_write.
Qed.

(** A step that changes only the open writes, the dirty bits or the watcher. *)
Lemma inv_same g ptr l l' rc st op op' ph db : sync_inv (mkSyncSystem g ptr l rc st op ph db) ->
  store_wf g (uw_inner (sl_writer l')) -> sl_reverse_index l' = sl_reverse_index l ->
  sw_slot_count (uw_inner (sl_writer l')) = sw_slot_count (uw_inner (sl_writer l)) -> op ⊆ op' ->
  sync_inv (mkSyncSystem g ptr l' rc st op' ph db).
Proof.
  intros [Hl Hr Hp Hf Hz Hm Hrg Hsc Hfl Hb] Hwf Hrev Hc Hop. system_fields.
  assert (Hfo : forall ops synced es, flight_ok (mkSyncSystem g ptr l rc st op ph db) ops synced es -> flight_ok (mkSyncSystem g ptr l' rc st op' ph db) ops synced es).
  { intros ops synced es [F1 F2 F3 F4 F5]. split; system_fields; rewrite ?Hrev, ?Hc; done. }
  split; system_fields; try done.
  - destruct Hl as [L1 L2 L3 L4]. split; rewrite ?Hrev, ?Hc; done.
  - intros Hcur. destruct (Hm Hcur). split; system_fields; rewrite ?Hrev, ?Hc; done.
  - intros p Hph Hcur. destruct (Hsc p Hph Hcur) as [S1 S2 S3 S4 S5 S6 (es & S7 & S8)]. split; system_fields; rewrite ?Hrev, ?Hc; try done.
    + intros i q Hi. destruct (S6 i q Hi) as (B1 & B2 & B3). split; [done |]. split; [done |]. set_solver.
    + exists es. split; [done |]. by apply Hfo.
  - intros ops synced Hph Hcur. destruct (Hfl ops synced Hph Hcur) as [es F]. exists es. by apply Hfo.
Qed.

Lemma orphaned_range st ph : pass_in_range st ph -> pass_in_range st (orphaned ph).
Proof. by destruct ph. Qed.
Lemma orphaned_scan ph p : orphaned ph = PScan p -> pa_current p = false.
Proof. destruct ph; try done. by intros [= <-]. Qed.
Lemma orphaned_idle ph : orphaned ph <> PIdle -> ph <> PIdle.
Proof. by destruct ph. Qed.

Lemma inv_rebuild g ptr l rc st op ph db g' ptr' l' rc' : sync_inv (mkSyncSystem g ptr l rc st op ph db) ->
  layout_sound g' l' -> routes_ok rc' -> ptr' <> 0 -> ptr' <> ss_last_layout_ptr st ->
  sync_inv (mkSyncSystem g' ptr' l' rc' st ∅ (orphaned ph) db).
Proof.
  intros [Hl Hr Hp Hf Hz Hm Hrg Hsc Hfl Hb] Hl' Hr' Hp' Hne. system_fields. split; system_fields; try done.
  - intros [E _]. congruence.
  - by apply orphaned_range.
  - intros p _ [E _]. congruence.
  - intros ops synced _ [E _]. congruence.
  - intros H%orphaned_idle. by apply Hb.
Qed.

Lemma inv_reroute g ptr l rc st op ph db rc' : sync_inv (mkSyncSystem g ptr l rc st op ph db) -> routes_ok rc' ->
  content_hash rc' <> ss_last_routing_hash st -> (ss_last_layout_ptr st = 0 \/ ss_last_routing_hash st <> 0) ->
  sync_inv (mkSyncSystem g ptr l rc' st op ph db).
Proof.
  intros [Hl Hr Hp Hf Hz Hm Hrg Hsc Hfl Hb] Hr' Hne Hseen. system_fields. split; system_fields; try done.
  - intros E H0. destruct Hseen; congruence.
  - intros [_ E]. congruence.
  - intros p _ [_ E]. congruence.
  - intros ops synced _ [_ E]. congruence.
Qed.

(** ** The start of a pass *)

(** Marks at zero claim nothing. *)
Lemma zero_marks g ptr l rc st op ph db : layout_sound g l -> (sw_slot_count (uw_inner (sl_writer l)) <= length (ss_last_seq st))%nat ->
  Forall (eq 0) (ss_last_seq st) -> ss_retry_slots st = [] -> marks_ok (mkSyncSystem g ptr l rc st op ph db).
Proof.
  intros Hl Hlen Hz Hr. assert (Hq : forall i q, ss_last_seq st !! i = Some q -> q = 0).
  { intros i q Hq. by rewrite (proj1 (Forall_lookup _ _) Hz i q Hq). }
  split; system_fields; [done | by rewrite Hr | |].
  - intros i q Hi ->%Hq. pose proof (slot_seq_range g l i Hl Hi). lia.
  - intros i Hi H0%Hq k f x. unfold fields_of. rewrite (ls_fresh _ _ Hl i Hi H0). by intros ?%elem_of_nil.
Qed.

Lemma note_layout_ok g ptr l rc st op db st1 ch : sync_inv (mkSyncSystem g ptr l rc st op PIdle db) ->
  note_layout content_hash st (sw_slot_count (uw_inner (sl_writer l))) ptr rc = (st1, ch) ->
  (forall op' ph, marks_ok (mkSyncSystem g ptr l rc st1 op' ph db)) /\ ss_last_layout_ptr st1 = ptr /\
  ss_last_routing_hash st1 = content_hash rc /\ ss_tick_count st1 = ss_tick_count st /\
  (ch = true -> ss_retry_slots st1 = []) /\
  (sync_current (mkSyncSystem g ptr l rc st op PIdle db) -> ch = false /\ ss_last_seq st1 = ss_last_seq st /\ ss_retry_slots st1 = ss_retry_slots st).
Proof.
  intros [Hl Hr Hp Hf Hz Hm _ _ _ _]. unfold note_layout. system_fields.
  set (n := sw_slot_count _) in *. set (last_seq := if (_ <? n)%nat then _ else _).
  assert (Hlen : (n <= length last_seq)%nat).
  { unfold last_seq. destruct (Nat.ltb_spec (length (ss_last_seq st)) n); [rewrite length_app, length_replicate; lia | lia]. }
  assert (Hcur : ss_last_layout_ptr st = ptr /\ ss_last_routing_hash st = content_hash rc -> last_seq = ss_last_seq st).
  { intros [M _ _ _]%Hm. unfold last_seq. system_fields. destruct (Nat.ltb_spec (length (ss_last_seq st)) n); [lia | done]. }
  assert (Hsame : ss_last_layout_ptr st = ptr /\ ss_last_routing_hash st = content_hash rc ->
    let st1 := mkSyncState last_seq ptr (content_hash rc) (ss_retry_slots st) (ss_tick_count st) in
    forall op' ph, marks_ok (mkSyncSystem g ptr l rc st1 op' ph db)).
  { intros Hc. cbv zeta. rewrite (Hcur Hc). destruct (Hm Hc) as [M1 M2 M3 M4]. by split. }
  destruct (Z.eqb_spec (ss_last_layout_ptr st) 0) as [H0 | H0].
  { destruct (Hf H0) as (H1 & Hzs & Hre). rewrite H1. cbn [negb andb orb Z.eqb]. intros [= <- <-].
    cbn [ss_last_layout_ptr ss_last_routing_hash ss_tick_count ss_retry_slots ss_last_seq].
    split_and!; try done; [| intros [E _]; lia]. intros op' ph. apply zero_marks; cbn; try done. unfold last_seq.
    destruct (_ <? n)%nat; [| done]. apply Forall_app. split; [done |]. by apply Forall_replicate. }
  assert (Hreset : forall op' ph, marks_ok (mkSyncSystem g ptr l rc (mkSyncState (replicate (length last_seq) 0) ptr (content_hash rc) [] (ss_tick_count st)) op' ph db)).
  { intros op' ph. apply zero_marks; cbn; [done | by rewrite length_replicate | by apply Forall_replicate | done]. }
  cbn [negb andb]. destruct (Z.eqb_spec ptr (ss_last_layout_ptr st)) as [Ep | Ep]; cbn [negb orb];
    [| intros [= <- <-]; cbn [ss_last_layout_ptr ss_last_routing_hash ss_tick_count ss_retry_slots ss_last_seq]; split_and!; try done; intros [? _]; congruence].
  assert (Heq : ss_last_routing_hash st = content_hash rc \/ (ss_last_routing_hash st <> 0 /\ content_hash rc <> ss_last_routing_hash st)).
  { destruct (Z.eq_dec (ss_last_routing_hash st) (content_hash rc)) as [| Hne]; [by left | right]. split; [| done]. intros E. specialize (Hz (eq_sym Ep) E). congruence. }
  destruct Heq as [Eh | [Hh Hne]].
  - rewrite <- Eh, Z.eqb_refl. cbn [negb]. rewrite andb_false_r. intros [= <- <-].
    cbn [ss_last_layout_ptr ss_last_routing_hash ss_tick_count ss_retry_slots ss_last_seq]. rewrite Eh. rewrite Hcur by done. split_and!; try done.
    rewrite <- Hcur by done. by apply Hsame.
  - rewrite (proj2 (Z.eqb_neq _ _) Hh), (proj2 (Z.eqb_neq _ _) Hne). cbn [negb andb]. intros [= <- <-].
    cbn [ss_last_layout_ptr ss_last_routing_hash ss_tick_count ss_retry_slots ss_last_seq]. split_and!; try done. intros [_ ?]. congruence.
Qed.

Lemma note_retry st n ptr rc st1 ch : note_layout content_hash st n ptr rc = (st1, ch) -> ss_retry_slots st1 ⊆ ss_retry_slots st.
Proof. unfold note_layout. destruct (_ || _); intros [= <- <-]; cbn; [set_solver | done]. Qed.

Lemma pick_spec st found n cands retry : pick_candidates st found = (cands, retry) ->
  Forall (fun i => (i < n)%nat) found -> Forall (fun i => (i < n)%nat) (ss_retry_slots st) ->
  NoDup cands /\ Forall (fun i => (i < n)%nat) cands /\ Forall (fun i => (i < n)%nat) retry.
Proof.
  intros Hp Hf Hr. set (all := sort_dedup (found ++ ss_retry_slots st)).
  assert (Ha : Forall (fun i => (i < n)%nat) all).
  { apply Forall_forall. intros i. unfold all. rewrite sort_dedup_elem, elem_of_app. rewrite Forall_forall in Hf, Hr. intros [?%Hf | ?%Hr]; done. }
  assert (Hnd : NoDup all) by apply strict_nodup, sort_dedup_strict.
  unfold pick_candidates in Hp. fold all in Hp. destruct (_ <? length all)%nat; injection Hp as <- <-; [| done].
  split; [eapply sublist_NoDup; [exact Hnd | apply sublist_take] |]. split; [by apply Forall_take |].
  unfold cap_retry. destruct (_ <? _)%nat; repeat apply Forall_drop; done.
Qed.

Lemma dirty_range g (w w' : UnifiedWriter C) found : store_wf g (uw_inner w) -> UnifiedWriter_take_dirty_slots w = (w', found) ->
  store_wf g (uw_inner w') /\ sw_slot_count (uw_inner w') = sw_slot_count (uw_inner w) /\
  dirty_set (uw_inner w') = ∅ /\ (forall i, i ∈ found <-> i ∈ dirty_set (uw_inner w)) /\
  Forall (fun i => (i < sw_slot_count (uw_inner w))%nat) found.
Proof.
  intros Hwf. unfold UnifiedWriter_take_dirty_slots. pose proof (take_dirty_spec g (uw_inner w) Hwf) as Ht.
  destruct (SlotWriter_take_dirty_slots (uw_inner w)) as [w1 l]. intros [= <- <-]. destruct Ht as (H1 & H2 & H3 & _ & H5). cbn [uw_inner].
  split_and!; try done. apply Forall_forall. intros i Hi. apply H5, elem_of_dirty_set in Hi. tauto.
Qed.

(** What a pass that is not skipped went through at its start. *)
Definition full_scan_due (st : SyncState) (layout_changed : bool) : bool :=
  layout_changed || (ss_tick_count st =? 0) || (ss_tick_count st mod FULL_SCAN_INTERVAL =? 0).
Definition with_retry (st : SyncState) (retry : list nat) : SyncState :=
  mkSyncState (ss_last_seq st) (ss_last_layout_ptr st) (ss_last_routing_hash st) retry (ss_tick_count st).

Record started (g : Segment) (ptr : Z) (l : ShmLayout C) (rc : RoutingCache) (st st1 : SyncState) (ch : bool) (w' : UnifiedWriter C)
    (found cands retry : list nat) : Prop := {
  sd_note : note_layout content_hash st (sw_slot_count (uw_inner (sl_writer l))) ptr rc = (st1, ch);
  sd_found : (if full_scan_due st1 ch then (sl_writer l, seq 0 (sw_slot_count (uw_inner (sl_writer l))))
              else UnifiedWriter_take_dirty_slots (sl_writer l)) = (w', found);
  sd_pick : pick_candidates st1 found = (cands, retry);
  sd_range : Forall (fun i => (i < sw_slot_count (uw_inner (sl_writer l)))%nat) found;
  sd_nodup : NoDup cands;
  sd_cands : Forall (fun i => (i < sw_slot_count (uw_inner (sl_writer l)))%nat) cands;
  sd_retry : Forall (fun i => (i < sw_slot_count (uw_inner (sl_writer l)))%nat) retry;
  sd_writer : store_wf g (uw_inner w') /\ sw_slot_count (uw_inner w') = sw_slot_count (uw_inner (sl_writer l));
}.

(** A pass is skipped only without slots or during a reconfiguration. *)
Lemma flush_start_cases g ptr l rc st op db : sync_inv (mkSyncSystem g ptr l rc st op PIdle db) ->
  (flush_start content_hash g (Some (ptr, l)) rc st = inr st /\ sw_slot_count (uw_inner (sl_writer l)) = 0%nat) \/
  (flush_start content_hash g (Some (ptr, l)) rc st = inr (next_tick st) /\ Z.land (SlotWriter_generation g) 1 = 1) \/
  exists st1 ch w' found cands retry, started g ptr l rc st st1 ch w' found cands retry /\
    flush_start content_hash g (Some (ptr, l)) rc st = inl (w', with_retry st1 retry, cands).
Proof.
  intros Hinv. unfold flush_start. destruct (Nat.eqb_spec (sw_slot_count (uw_inner (sl_writer l))) 0) as [E | Hn]; [by left |].
  destruct (Z.eqb_spec (Z.land (SlotWriter_generation g) 1) 1) as [E | Hg]; [by right; left |]. right; right.
  pose proof (ls_store _ _ (si_layout _ Hinv)) as Hwf. cbn [y_seg y_layout] in Hwf.
  destruct (note_layout content_hash st _ ptr rc) as [st1 ch] eqn:En. destruct (note_layout_ok _ _ _ _ _ _ _ _ _ Hinv En) as (Hm & _).
  pose proof (mk_retry _ (Hm ∅ PIdle)) as M2. system_fields. fold (full_scan_due st1 ch).
  destruct (if full_scan_due st1 ch then _ else _) as [w' found] eqn:Ef.
  assert (Hd : Forall (fun i => (i < sw_slot_count (uw_inner (sl_writer l)))%nat) found /\
               store_wf g (uw_inner w') /\ sw_slot_count (uw_inner w') = sw_slot_count (uw_inner (sl_writer l))).
  { destruct (full_scan_due st1 ch); [| destruct (dirty_range _ _ _ _ Hwf Ef) as (? & ? & _ & _ & ?); done].
    injection Ef as <- <-. split; [| done]. apply Forall_forall. intros i ?%elem_of_seq. lia. }
  destruct Hd as [Hrange Hw]. destruct (pick_candidates st1 found) as [cands retry] eqn:Ep. destruct (pick_spec _ _ _ _ _ Ep Hrange M2) as (H1 & H2 & H3).
  exists st1, ch, w', found, cands, retry. split; [by split | done].
Qed.

Lemma started_inv g ptr l rc st op db st1 ch w' found cands retry : sync_inv (mkSyncSystem g ptr l rc st op PIdle db) ->
  started g ptr l rc st st1 ch w' found cands retry ->
  sync_inv (mkSyncSystem g ptr (with_writer l w') rc (with_retry st1 retry) op
    (PScan (mkPass true (sw_slot_count (uw_inner (sl_writer l))) (sl_reverse_index l) cands None ∅ [])) db).
Proof.
  intros Hinv [S1 S2 S3 S4 S5 S6 S7 [S8 S9]]. destruct (note_layout_ok _ _ _ _ _ _ _ _ _ Hinv S1) as (Hm & E1 & E2 & _).
  destruct Hinv as [[L1 L2 L3 L4] Hr Hp _ _ _ _ _ _ _]. specialize (Hm op PIdle). destruct Hm as [M1 M2 M3 M4]. system_fields.
  split; system_fields; cbn [with_retry ss_last_layout_ptr ss_last_routing_hash ss_last_seq ss_retry_slots pass_in_range pa_count pa_synced pa_peeked]; try done; try congruence.
  - split; cbn [with_writer sl_writer sl_reverse_index]; rewrite ?S9; done.
  - intros _. split; system_fields; cbn [with_writer sl_writer sl_reverse_index with_retry ss_last_seq ss_retry_slots]; rewrite ?S9; done.
  - intros p [= <-] _. split; system_fields; cbn [with_writer sl_writer sl_reverse_index pa_current pa_count pa_rev pa_peeked pa_todo pa_synced pa_ops]; rewrite ?S9; try done.
    + cbn. by rewrite app_nil_r.
    + exists []. split; [done |]. split; system_fields; [by apply NoDup_nil | done | by apply NoDup_nil | by intros ? ? ?%elem_of_nil | by intros ? ? ? ?%elem_of_nil].
Qed.

(** ** The loop *)

Lemma scan_peek_ok g ptr l rc st op p db i todo seq : sync_inv (mkSyncSystem g ptr l rc st op (PScan p) db) -> pa_peeked p = None ->
  pa_todo p = i :: todo -> (i < pa_count p)%nat -> (pa_current p = true -> seq = observed_seq g op i) ->
  exists load, scan_peek (ss_last_seq st) i seq = Ret load /\
    sync_inv (mkSyncSystem g ptr l rc st op (PScan (peeking p todo (if load then Some (i, seq) else None))) db).
Proof.
  intros [Hl Hr Hp Hf Hz Hm Hrg Hsc Hfl Hb] Hpk Htodo Hi Hseq. system_fields. destruct Hrg as (R1 & R2 & _).
  destruct (lookup_lt_is_Some_2 (ss_last_seq st) i) as [last Hlast]; [lia |]. exists (negb (seq =? last)). unfold scan_peek. rewrite Hlast. split; [done |].
  split; system_fields; cbn [pass_in_range peeking pa_count pa_synced pa_peeked]; try done.
  - intros Hc. eapply marks_any, Hm, Hc.
  - split; [done |]. split; [done |]. intros j q Hj. destruct (negb (seq =? last)); [| done]. injection Hj as <- <-. lia.
  - intros p' [= <-] Hc. destruct (Hsc p eq_refl Hc) as [S1 S2 S3 S4 S5 S6 (es & S7 & S8)]. destruct (Hm Hc) as [_ _ M3 _]. system_fields.
    rewrite Hpk, Htodo in S4. rewrite Htodo in S5. apply Forall_cons in S5 as [_ S5]. cbn [option_list fmap option_fmap option_map app] in S4.
    split; system_fields; cbn [peeking pa_current pa_count pa_rev pa_peeked pa_todo pa_synced pa_ops]; try done.
    + destruct (negb (seq =? last)); cbn; [done |]. by apply NoDup_cons in S4 as [_ ?].
    + intros j q Hj. destruct (Z.eqb_spec seq last) as [| Hne]; [done |]. injection Hj as <- <-. rewrite S2 in Hi. split; [done |].
      specialize (M3 i last Hi Hlast). rewrite (Hseq S1) in *. unfold observed_seq in *. split; [exists last; split; [done |] |]; destruct (decide (i ∈ op)); lia || auto.
    + exists es. split; [done |]. by eapply flight_any.
  - intros _. by apply Hb.
Qed.

Lemma beyond_ok g ptr l rc st op p db i todo : sync_inv (mkSyncSystem g ptr l rc st op (PScan p) db) -> pa_peeked p = None ->
  pa_todo p = i :: todo -> sync_inv (mkSyncSystem g ptr l rc st op (PScan (peeking p todo None)) db).
Proof.
  intros [Hl Hr Hp Hf Hz Hm Hrg Hsc Hfl Hb] Hpk Htodo. system_fields. split; system_fields; cbn [pass_in_range peeking pa_count pa_synced pa_peeked] in *; try done.
  - intros Hc. eapply marks_any, Hm, Hc.
  - destruct Hrg as (R1 & R2 & _). done.
  - intros p' [= <-] Hc. destruct (Hsc p eq_refl Hc) as [S1 S2 S3 S4 S5 S6 (es & S7 & S8)]. system_fields.
    rewrite Hpk, Htodo in S4. rewrite Htodo in S5. apply Forall_cons in S5 as [_ S5]. cbn in S4. apply NoDup_cons in S4 as [_ S4].
    split; system_fields; cbn [peeking pa_current pa_count pa_rev pa_peeked pa_todo pa_synced pa_ops]; try done.
    exists es. split; [done |]. by eapply flight_any.
  - intros _. by apply Hb.
Qed.

(** The three ends of the loop body. *)
Lemma scan_loaded_cases rev rc acc i q loaded : let acc' := scan_loaded f64_to_bytes rev rc acc i q loaded in
  (loaded = None /\ acc' = mkScanAcc (sa_last_seq acc) (sa_retry acc ++ [i]) (sa_ops acc) (sa_synced acc)) \/
  exists v r t, loaded = Some (v, r, t) /\
    ((f64_is_finite v && f64_is_finite r = false \/ ReverseSlotIndex_get rev i = None) /\
       acc' = mkScanAcc (<[i := q]> (sa_last_seq acc)) (sa_retry acc) (sa_ops acc) (sa_synced acc) \/
     exists o, f64_is_finite v && f64_is_finite r = true /\ ReverseSlotIndex_get rev i = Some o /\
       acc' = mkScanAcc (sa_last_seq acc) (sa_retry acc) (foldl push_op (sa_ops acc) (slot_fields f64_to_bytes rc o v r t)) (sa_synced acc ++ [(i, q)])).
Proof.
  cbv zeta. unfold scan_loaded. destruct loaded as [[[v r] t]|]; [right | by left]. exists v, r, t. split; [done |].
  destruct (f64_is_finite v), (f64_is_finite r); cbn [negb orb andb]; try (left; split; [by left | done]).
  destruct (ReverseSlotIndex_get rev i) as [o|]; [right | left; split; [by right | done]]. by exists o.
Qed.

Lemma loaded_slot g l op i v r t : layout_sound g l -> (i < sw_slot_count (uw_inner (sl_writer l)))%nat -> load_result g op i (Some (v, r, t)) ->
  (i ∉ op) /\ exists s, sg_slots g !! i = Some s /\ v = ps_value_bits s /\ r = ps_raw_bits s /\ t = ps_timestamp s.
Proof.
  intros Hl Hi [H | (Hop & s & Hs & H)]; [done |]. split; [done |]. exists s. split; [done |].
  pose proof (proj1 (Forall_lookup _ _) (swf_rest _ _ (ls_store _ _ Hl)) i s Hs) as [_ He].
  unfold PointSlot_try_load_consistent in H. cbv zeta in H. rewrite He in H. cbn [Z.eqb negb] in H. rewrite Z.eqb_refl in H. by injection H.
Qed.

Lemma marks_seen g ptr l rc st op ph db i q : marks_ok (mkSyncSystem g ptr l rc st op ph db) -> 0 <= q <= slot_seq g i ->
  (q = slot_seq g i -> publishable g (sl_reverse_index l) i = None) ->
  marks_ok (mkSyncSystem g ptr l rc (mkSyncState (<[i := q]> (ss_last_seq st)) (ss_last_layout_ptr st) (ss_last_routing_hash st) (ss_retry_slots st) (ss_tick_count st)) op ph db).
Proof.
  intros [M1 M2 M3 M4] Hq Hpub. split; system_fields; cbn [ss_last_seq ss_retry_slots]; rewrite ?length_insert; try done.
  - intros j q' Hj Hq'. apply list_lookup_insert_Some in Hq' as [(<- & <- & _) | (_ & Hq')]; [done | by apply M3].
  - intros j Hj Hq'. apply list_lookup_insert_Some in Hq' as [(<- & E & _) | (_ & Hq')]; [| by apply M4].
    intros k f x. unfold fields_of. rewrite (Hpub E). by intros ?%elem_of_nil.
Qed.

Lemma marks_retry g ptr l rc st op ph db i : marks_ok (mkSyncSystem g ptr l rc st op ph db) -> (i < sw_slot_count (uw_inner (sl_writer l)))%nat ->
  marks_ok (mkSyncSystem g ptr l rc (mkSyncState (ss_last_seq st) (ss_last_layout_ptr st) (ss_last_routing_hash st) (ss_retry_slots st ++ [i]) (ss_tick_count st)) op ph db).
Proof. intros [M1 M2 M3 M4] Hi. split; system_fields; cbn [ss_last_seq ss_retry_slots]; try done. apply Forall_app. split; [done | by constructor]. Qed.

(** Taking over the number of a slot the pass has not queued. *)
Lemma flight_mark g ptr l rc st st' op ph db ops synced es : flight_ok (mkSyncSystem g ptr l rc st op ph db) ops synced es ->
  (forall j, j ∈ synced.*1 -> ss_last_seq st' !! j = ss_last_seq st !! j) -> flight_ok (mkSyncSystem g ptr l rc st' op ph db) ops synced es.
Proof.
  intros [F1 F2 F3 F4 F5] Hsame. split; system_fields; try done. intros j q Hj. rewrite Hsame; [by apply F4 |].
  apply list_elem_of_fmap. by exists (j, q).
Qed.

Lemma flight_queue g ptr l rc st op ph db es synced i q o s : layout_sound g l -> routes_ok rc ->
  flight_ok (mkSyncSystem g ptr l rc st op ph db) (map_to_list (collect es)) synced es -> i ∉ synced.*1 ->
  (i < sw_slot_count (uw_inner (sl_writer l)))%nat -> q <= slot_seq g i -> (exists last, ss_last_seq st !! i = Some last /\ last < q) ->
  sg_slots g !! i = Some s -> f64_is_finite (ps_value_bits s) && f64_is_finite (ps_raw_bits s) = true -> ReverseSlotIndex_get (sl_reverse_index l) i = Some o ->
  let fs := slot_fields f64_to_bytes rc o (ps_value_bits s) (ps_raw_bits s) (ps_timestamp s) in
  flight_ok (mkSyncSystem g ptr l rc st op ph db) (map_to_list (collect (es ++ fs))) (synced ++ [(i, q)]) (es ++ fs).
Proof.
  intros Hl Hrc [F1 F2 F3 F4 F5] Hi Hlt Hq Hlast Hs Hfin Ho fs. pose proof (ls_origins _ _ Hl i o Ho) as Hoo. split; system_fields.
  - rewrite fmap_app. apply NoDup_app. split; [done |]. split.
    + intros [k f] H1 H2. apply list_elem_of_fmap in H1 as ([k1 [f1 x1]] & [= <- <-] & H1). apply list_elem_of_fmap in H2 as ([k2 [f2 x2]] & [= <- <-] & H2).
      destruct (F5 _ _ _ H1) as (j & o' & v' & r' & t' & Hj & Hr' & Ho').
      assert (o' = o) as -> by (eapply slot_fields_owner; eauto using ls_origins). by rewrite (ls_inj _ _ Hl _ _ _ Hr' Ho) in Hj.
    + apply (NoDup_fmap_1 fst). rewrite <- list_fmap_compose. by apply slot_fields_keys.
  - done.
  - rewrite fmap_app. apply NoDup_app. split; [done |]. split; [| apply NoDup_singleton]. intros j Hj ->%list_elem_of_singleton. done.
  - intros j q' [Hj | Hj]%elem_of_app.
    + destruct (F4 j q' Hj) as (A1 & A2 & A3 & A4). split_and!; try done. intros E e He. apply elem_of_app. left. by apply A4.
    + apply list_elem_of_singleton in Hj as [= -> ->]. split_and!; try done. intros _ e He. apply elem_of_app. right.
      unfold fields_of, publishable in He. rewrite Hs, Hfin, Ho in He. exact He.
  - intros k f x [Hx | Hx]%elem_of_app.
    + destruct (F5 _ _ _ Hx) as (j & o' & v' & r' & t' & Hj & H). exists j, o', v', r', t'. split; [| done]. rewrite fmap_app. apply elem_of_app. by left.
    + exists i, o, (ps_value_bits s), (ps_raw_bits s), (ps_timestamp s). split; [| done]. rewrite fmap_app. apply elem_of_app. right. by left.
Qed.

(** The claims after the loop body, over the current layout. *)
Lemma loaded_scan_ok g ptr l rc st op p db i q loaded : layout_sound g l -> routes_ok rc -> marks_ok (mkSyncSystem g ptr l rc st op (PScan p) db) ->
  scan_ok (mkSyncSystem g ptr l rc st op (PScan p) db) p -> pa_peeked p = Some (i, q) -> load_result g op i loaded ->
  let acc := scan_loaded f64_to_bytes (pa_rev p) rc (acc_of st (pa_ops p) (pa_synced p)) i q loaded in
  let y' := mkSyncSystem g ptr l rc (put_acc st acc) op (PScan (collected p acc)) db in marks_ok y' /\ scan_ok y' (collected p acc).
Proof.
  intros Hl Hrc Hm [S1 S2 S3 S4 S5 S6 (es & S7 & S8)] Hpk Hload. destruct (S6 i q Hpk) as (Hi & (last & Hlast & Hlt) & Hq).
  rewrite Hpk in S4. cbn in S4. apply NoDup_cons in S4 as [Hni S4]. rewrite elem_of_app in Hni. pose proof (mk_le _ Hm i last Hi Hlast) as Hle. system_fields.
  cbv zeta. rewrite S3. assert (Hany : forall st' ph', marks_ok (mkSyncSystem g ptr l rc st' op (PScan p) db) -> marks_ok (mkSyncSystem g ptr l rc st' op ph' db)) by (intros; by eapply marks_any).
  destruct (scan_loaded_cases (sl_reverse_index l) rc (acc_of st (pa_ops p) (pa_synced p)) i q loaded) as [(-> & ->) | (v & r & t & -> & [(Hwhy & ->) | (o & Hfin & Ho & ->)])].
  - unfold put_acc, acc_of, collected. cbn [sa_last_seq sa_retry sa_ops sa_synced]. split; [by apply Hany, marks_retry |].
    split; system_fields; cbn [pa_current pa_count pa_rev pa_peeked pa_todo pa_synced pa_ops]; try done. exists es. split; [done |].
    eapply flight_any, (flight_mark _ _ _ _ st); [exact S8 | done].
  - destruct (loaded_slot g l op i v r t Hl Hi Hload) as (Hop & s & Hs & -> & -> & ->).
    unfold put_acc, acc_of, collected. cbn [sa_last_seq sa_retry sa_ops sa_synced]. split.
    + apply Hany, marks_seen; [done | destruct Hq as [| [_ ?]]; [lia | done] |]. intros _. unfold publishable. rewrite Hs.
      destruct Hwhy as [-> | ->]; [done |]. by destruct (_ && _).
    + split; system_fields; cbn [pa_current pa_count pa_rev pa_peeked pa_todo pa_synced pa_ops]; try done. exists es. split; [done |].
      eapply flight_any, (flight_mark _ _ _ _ st); [exact S8 |]. intros j Hj. apply list_lookup_insert_ne. intros ->. apply Hni. by right.
  - destruct (loaded_slot g l op i v r t Hl Hi Hload) as (Hop & s & Hs & -> & -> & ->).
    unfold put_acc, acc_of, collected. cbn [sa_last_seq sa_retry sa_ops sa_synced]. assert (Hst : mkSyncState (ss_last_seq st) (ss_last_layout_ptr st) (ss_last_routing_hash st) (ss_retry_slots st) (ss_tick_count st) = st) by (by destruct st).
    rewrite Hst. split; [by apply Hany |]. split; system_fields; cbn [pa_current pa_count pa_rev pa_peeked pa_todo pa_synced pa_ops]; try done.
    + cbn. rewrite fmap_app, (assoc_L (++)). apply NoDup_app. split; [done |]. split; [| apply NoDup_singleton].
      intros j Hj ->%list_elem_of_singleton. apply Hni. by apply elem_of_app.
    + exists (es ++ slot_fields f64_to_bytes rc o (ps_value_bits s) (ps_raw_bits s) (ps_timestamp s)).
      assert (Hc : foldl push_op (pa_ops p) (slot_fields f64_to_bytes rc o (ps_value_bits s) (ps_raw_bits s) (ps_timestamp s)) =
        collect (es ++ slot_fields f64_to_bytes rc o (ps_value_bits s) (ps_raw_bits s) (ps_timestamp s))) by (unfold collect; by rewrite foldl_app, S7).
      split; [done |]. rewrite Hc. rewrite S7 in S8. eapply flight_any, flight_queue; try done; [intros H; apply Hni; by right | destruct Hq as [| [_ ?]]; [lia | done] | by exists last].
Qed.

Lemma load_ok g ptr l rc st op p db i q loaded : sync_inv (mkSyncSystem g ptr l rc st op (PScan p) db) -> pa_peeked p = Some (i, q) ->
  (pa_current p = true -> load_result g op i loaded) ->
  let acc := scan_loaded f64_to_bytes (pa_rev p) rc (acc_of st (pa_ops p) (pa_synced p)) i q loaded in
  sync_inv (mkSyncSystem g ptr l rc (put_acc st acc) op (PScan (collected p acc)) db).
Proof.
  intros [Hl Hr Hp Hf Hz Hm Hrg Hsc Hfl Hb] Hpk Hload. cbv zeta. set (acc := scan_loaded _ _ _ _ i q loaded). system_fields.
  assert (Hcur : ss_last_layout_ptr st = ptr /\ ss_last_routing_hash st = content_hash rc ->
    let y' := mkSyncSystem g ptr l rc (put_acc st acc) op (PScan (collected p acc)) db in marks_ok y' /\ scan_ok y' (collected p acc)).
  { intros Hc. pose proof (Hsc p eq_refl Hc) as Hs. apply loaded_scan_ok; try done; [by apply Hm |]. apply Hload, (sp_current _ _ Hs). }
  destruct Hrg as (R1 & R2 & R3). assert (Hlen : length (sa_last_seq acc) = length (ss_last_seq st) /\ Forall (fun x => (x.1 < length (ss_last_seq st))%nat) (sa_synced acc)).
  { unfold acc. destruct (scan_loaded_cases (pa_rev p) rc (acc_of st (pa_ops p) (pa_synced p)) i q loaded) as [(-> & ->) | (v & r & t & -> & [(Hwhy & ->) | (o & Hfin & Ho & ->)])]; cbn; [done | by rewrite length_insert |].
    split; [done |]. apply Forall_app. split; [done |]. constructor; [| done]. by eapply R3. }
  destruct Hlen as [Hlen Hsy]. split; system_fields; cbn [put_acc ss_last_layout_ptr ss_last_routing_hash ss_last_seq ss_retry_slots pass_in_range collected pa_count pa_synced pa_peeked]; try done.
  - intros H0. exfalso. by apply Hb.
  - intros Hc. by apply Hcur.
  - rewrite Hlen. done.
  - intros p' [= <-] Hc. by apply Hcur.
  - intros _. by apply Hb.
Qed.

Lemma order_nil m : ops_order (map_to_list m) = [] <-> m = ∅.
Proof using Horder.
  split; [| intros ->; apply Permutation_nil_r; by rewrite Horder, map_to_list_empty].
  intros Hn. apply map_to_list_empty_iff. apply Permutation_nil. by rewrite <- Hn, Horder.
Qed.

Lemma marks_next_tick g ptr l rc st op op' ph ph' db : marks_ok (mkSyncSystem g ptr l rc st op ph db) -> marks_ok (mkSyncSystem g ptr l rc (next_tick st) op' ph' db).
Proof. intros []. by split. Qed.

Lemma send_ok g ptr l rc st op p db st' fl : sync_inv (mkSyncSystem g ptr l rc st op (PScan p) db) ->
  flush_send ops_order st (pa_ops p) (pa_synced p) = (st', fl) -> sync_inv (mkSyncSystem g ptr l rc st' op (phase_of fl) db).
Proof using Horder.
  intros [Hl Hr Hp Hf Hz Hm Hrg Hsc Hfl Hb] Hsend. unfold flush_send in Hsend. system_fields. destruct Hrg as (R1 & R2 & R3).
  destruct (ops_order (map_to_list (pa_ops p))) as [|e ops] eqn:Eo; injection Hsend as <- <-; split; system_fields; cbn [phase_of next_tick ss_last_layout_ptr ss_last_routing_hash ss_last_seq ss_retry_slots pass_in_range] in *; try done.
  - intros Hc. eapply marks_next_tick, Hm, Hc.
  - intros Hc. eapply marks_any, Hm, Hc.
  - intros ops' synced [= <- <-] Hc. destruct (Hsc p eq_refl Hc) as [_ _ _ _ _ _ (es & S7 & S8)]. exists es.
    eapply flight_any. destruct S8 as [F1 F2 F3 F4 F5]. split; try done. by rewrite <- Eo, Horder.
  - intros _. by apply Hb.
Qed.

(** ** The end of a pass *)

Lemma set_marks synced : forall l, NoDup synced.*1 -> Forall (fun x => (x.1 < length l)%nat) synced ->
  length (foldl (fun l x => <[x.1 := x.2]> l) l synced) = length l /\
  (forall i, i ∉ synced.*1 -> foldl (fun l x => <[x.1 := x.2]> l) l synced !! i = l !! i) /\
  (forall (i : nat) (q : Z), (i, q) ∈ synced -> foldl (fun l x => <[x.1 := x.2]> l) l synced !! i = Some q).
Proof.
  induction synced as [|[i q] synced IH]; intros l Hnd Hr; cbn [foldl].
  { split_and!; [done | done |]. intros ? ? H. by apply elem_of_nil in H. }
  rewrite fmap_cons in Hnd. apply NoDup_cons in Hnd as [Hni Hnd]. apply Forall_cons in Hr as [Hi Hr]. cbn [fst snd] in *.
  destruct (IH (<[i := q]> l)) as (H1 & H2 & H3); [done | by rewrite length_insert |]. split_and!.
  - by rewrite H1, length_insert.
  - intros j Hj. rewrite fmap_cons, elem_of_cons in Hj. cbn [fst] in Hj. rewrite H2 by tauto. apply list_lookup_insert_ne. intros ->. tauto.
  - intros j q' Hj. apply elem_of_cons in Hj as [[= -> ->] | Hj]; [| by apply H3]. rewrite H2 by done. by apply list_lookup_insert_eq.
Qed.

(** A pass touches no field of a slot it did not queue. *)
Lemma untouched y ops synced es i k f x : layout_sound (y_seg y) (y_layout y) -> routes_ok (y_rc y) -> flight_ok y ops synced es ->
  i ∉ synced.*1 -> (k, (f, x)) ∈ fields_of f64_to_bytes (y_seg y) (sl_reverse_index (y_layout y)) (y_rc y) i -> ops_get ops k f = None.
Proof.
  intros Hl Hrc [F1 F2 _ _ F5] Hi Hx. destruct (ops_get ops k f) as [x'|] eqn:Eo; [| done]. exfalso. apply Hi.
  apply (collect_get es ops) in Eo; [| done..]. destruct (F5 _ _ _ Eo) as (j & o & v & r & t & Hj & Hr & Ho).
  destruct (fields_as _ _ _ _ _ _ _ Hx) as (o' & v' & r' & t' & Hr' & Ho').
  assert (o = o') as -> by (eapply slot_fields_owner; eauto using ls_origins). by rewrite (ls_inj _ _ Hl _ _ _ Hr' Hr).
Qed.

Lemma success_marks y ops synced es st' : layout_sound (y_seg y) (y_layout y) -> routes_ok (y_rc y) -> marks_ok y -> flight_ok y ops synced es ->
  flush_finish (y_sync y) synced true = Ret st' ->
  marks_ok (mkSyncSystem (y_seg y) (y_ptr y) (y_layout y) (y_rc y) st' (y_open y) PIdle (mset_ops (y_db y) ops)).
Proof.
  intros Hl Hrc [M1 M2 M3 M4] F. unfold flush_finish. cbn [negb]. destruct (forallb _ synced) eqn:Ef; [| done]. intros [= <-].
  assert (Hr : Forall (fun x => (x.1 < length (ss_last_seq (y_sync y)))%nat) synced).
  { rewrite forallb_forall in Ef. apply Forall_forall. intros x Hx. apply Nat.ltb_lt, Ef, list_elem_of_In, Hx. }
  destruct (set_marks synced _ (fl_slots _ _ _ _ F) Hr) as (S1 & S2 & S3).
  assert (Hcase : forall i q, foldl (fun l x => <[x.1 := x.2]> l) (ss_last_seq (y_sync y)) synced !! i = Some q ->
    (i, q) ∈ synced \/ ((i ∉ synced.*1) /\ ss_last_seq (y_sync y) !! i = Some q)).
  { intros i q Hq. destruct (decide (i ∈ synced.*1)) as [Hin | Hni]; [left | right; split; [done | by rewrite <- S2]].
    apply list_elem_of_fmap in Hin as ([j q'] & -> & Hin). cbn [fst] in *. rewrite (S3 _ _ Hin) in Hq. by injection Hq as ->. }
  split; system_fields; cbn [next_tick ss_last_seq ss_retry_slots] in *.
  - by rewrite S1.
  - done.
  - intros i q Hi Hq. destruct (Hcase i q Hq) as [Hin | [_ Hq']]; [| by apply M3].
    destruct (fl_each _ _ _ _ F i q Hin) as (_ & Hle & (last & Hlast & Hlt) & _). pose proof (M3 i last Hi Hlast). lia.
  - intros i Hi Hq k f x Hx. rewrite hget_mset_ops. destruct (Hcase i _ Hq) as [Hin | [Hni Hq']].
    + destruct (fl_each _ _ _ _ F i _ Hin) as (_ & _ & _ & Hsub). apply (Hsub eq_refl) in Hx.
      apply (collect_get es ops) in Hx; [| apply (fl_nodup _ _ _ _ F) | apply (fl_ops _ _ _ _ F)]. rewrite Hx. by destruct (hget (y_db y) k f).
    + rewrite (untouched y ops synced es i k f x), (left_id_L None (∪)) by done. by apply (M4 i).
Qed.

Lemma failure_marks y ops synced es st' db' : layout_sound (y_seg y) (y_layout y) -> routes_ok (y_rc y) -> marks_ok y -> flight_ok y ops synced es ->
  applied_in_part (y_db y) ops db' -> flush_finish (y_sync y) synced false = Ret st' ->
  marks_ok (mkSyncSystem (y_seg y) (y_ptr y) (y_layout y) (y_rc y) st' (y_open y) PIdle db').
Proof.
  intros Hl Hrc [M1 M2 M3 M4] F Hp [= <-].
  split; system_fields; cbn [next_tick ss_last_seq ss_retry_slots] in *; try done.
  - apply Forall_forall. intros i. rewrite sort_dedup_elem, elem_of_app. intros [Hi | Hi]; [by apply (proj1 (Forall_forall _ _) M2) |].
    apply list_elem_of_In, in_map_iff in Hi as ([j q] & <- & Hin). apply list_elem_of_In in Hin. apply (fl_each _ _ _ _ F j q Hin).
  - intros i Hi Hq k f x Hx. assert (Hni : i ∉ synced.*1).
    { intros Hin. apply list_elem_of_fmap in Hin as ([j q] & -> & Hin). cbn [fst] in *.
      destruct (fl_each _ _ _ _ F j q Hin) as (_ & Hle & (last & Hlast & Hlt) & _). rewrite Hq in Hlast. injection Hlast as Hlast. lia. }
    pose proof (M4 i Hi Hq k f x Hx) as Hx0. destruct (Hp k f) as [-> | ->]; [done |].
    by rewrite (untouched y ops synced es i k f x), (left_id_L None (∪)).
Qed.

Lemma finish_seen st synced ok st' : flush_finish st synced ok = Ret st' ->
  ss_last_layout_ptr st' = ss_last_layout_ptr st /\ ss_last_routing_hash st' = ss_last_routing_hash st.
Proof. unfold flush_finish. destruct ok; cbn; [destruct (forallb _ _); [| done] |]; by intros [= <-]. Qed.

Lemma inv_finish g ptr l rc st st' op ops synced ok db db' : sync_inv (mkSyncSystem g ptr l rc st op (PFlight ops synced) db) ->
  flush_finish st synced ok = Ret st' ->
  (sync_current (mkSyncSystem g ptr l rc st op (PFlight ops synced) db) -> marks_ok (mkSyncSystem g ptr l rc st' op PIdle db')) ->
  sync_inv (mkSyncSystem g ptr l rc st' op PIdle db').
Proof.
  intros [Hl Hr Hp Hf Hz Hm _ _ _ Hb] Hfin Hmarks. destruct (finish_seen _ _ _ _ Hfin) as [E1 E2].
  split; system_fields; rewrite ?E1, ?E2; try done. intros H0. exfalso. by apply Hb.
Qed.

Lemma inv_success g ptr l rc st op ops synced db st' : sync_inv (mkSyncSystem g ptr l rc st op (PFlight ops synced) db) ->
  flush_finish st synced true = Ret st' -> sync_inv (mkSyncSystem g ptr l rc st' op PIdle (mset_ops db ops)).
Proof.
  intros Hinv Hfin. eapply inv_finish; [done | done |]. intros Hc. destruct (si_flight _ Hinv _ _ eq_refl Hc) as [es F].
  apply (success_marks _ _ _ _ _ (si_layout _ Hinv) (si_routing _ Hinv) (si_marks _ Hinv Hc) F Hfin).
Qed.

Lemma sync_inv_step y y' : usual_step y y' -> sync_inv y -> sync_inv y'.
Proof using Horder.
  intros [e [He Hstep]] Hinv. destruct Hstep as [g ptr l rc st op ph db i Hi Hop | g ptr l rc st op ph db i v r t s Hi Hop Hs
    | g ptr l rc st op ph db i watch Hi | g ptr l rc st op ph db g' ptr' l' rc' Hl' Hp' | g ptr l rc st op ph db rc'
    | g ptr l rc st op db w' st' cands Hb | g ptr l rc st op db st' Hb | g ptr l rc st op db p i todo Hpk Ht Hi
    | g ptr l rc st op db p i todo seq load Hpk Ht Hi Hseq Hp | g ptr l rc st op db p i seq loaded acc Hpk Hload <-
    | g ptr l rc st op db p st' fl Hpk Ht Hsend | g ptr l rc st op ops synced db st' Hfin | g ptr l rc st op ops synced db db' st' Happ Hfin];
    cbn [usual y_seg y_sync] in He.
  - pose proof (ls_store _ _ (si_layout _ Hinv)). eapply inv_same; [exact Hinv | done | done | done | set_solver].
  - by apply inv_commit.
  - destruct (ls_store _ _ (si_layout _ Hinv)) as [W1 W2 W3 W4]. cbn [y_seg y_layout] in *.
    destruct (mark_dirty_spec _ i W4 W3 Hi) as (Hc & _ & Hl & Hu & _). eapply inv_same; [exact Hinv | | done | done | done]. cbn [with_writer sl_writer uw_inner].
    split; rewrite ?Hc; [done | done | congruence | done].
  - destruct He. by eapply inv_rebuild.
  - destruct He as (? & ? & ?). by eapply inv_reroute.
  - destruct (flush_start_cases _ _ _ _ _ _ _ Hinv) as [(E & _) | [(E & _) | (st1 & ch & w1 & found & cands' & retry & Hst & E)]];
      rewrite E in Hb; try discriminate. injection Hb as <- <- <-. by eapply started_inv.
  - assert (st' = st \/ st' = next_tick st) as [-> | ->]; [| done |].
    { destruct (flush_start_cases _ _ _ _ _ _ _ Hinv) as [(E & _) | [(E & _) | (st1 & ch & w1 & found & cands' & retry & Hst & E)]];
        rewrite E in Hb; try discriminate; injection Hb as <-; auto. }
    destruct Hinv as [? ? ? ? ? Hm]. split; system_fields; try done. intros Hc. eapply marks_next_tick, Hm, Hc.
  - by eapply beyond_ok.
  - destruct (scan_peek_ok _ _ _ _ _ _ _ _ _ _ _ Hinv Hpk Ht Hi Hseq) as (load' & Hp' & H). rewrite Hp in Hp'. by injection Hp' as ->.
  - by apply load_ok.
  - by eapply send_ok.
  - by eapply inv_success.
  - eapply inv_finish; [done | done |]. intros Hc. destruct (si_flight _ Hinv _ _ eq_refl Hc) as [es F].
    apply (failure_marks _ _ _ _ _ _ (si_layout _ Hinv) (si_routing _ Hinv) (si_marks _ Hinv Hc) F Happ Hfin).
Qed.

Lemma sync_inv_init y : sync_init y -> sync_inv y.
Proof.
  destruct y as [g ptr l rc st op ph db]. intros (Hl & Hr & Hp & [n Hn] & Hph & Hop). system_fields. subst st ph op.
  split; system_fields; cbn [ShmRedisSync_new ss_last_layout_ptr ss_last_routing_hash ss_last_seq ss_retry_slots]; try done.
  - intros _. split_and!; [done | by apply Forall_replicate | done].
  - intros [E _]. congruence.
Qed.

Lemma inv_reachable y0 y : sync_init y0 -> rtc usual_step y0 y -> sync_inv y.
Proof using Horder. intros H0%sync_inv_init Hr. induction Hr; eauto using sync_inv_step. Qed.

(** Where the task would index out of range: at the next candidate, or when it records
    what the database accepted. *)
Definition next_access_panics (y : SyncSystem) : Prop :=
  match y_phase y with
  | PIdle => False
  | PScan p => exists i todo seq, pa_peeked p = None /\ pa_todo p = i :: todo /\ (i < pa_count p)%nat /\ scan_peek (ss_last_seq (y_sync y)) i seq = Panic
  | PFlight _ synced => flush_finish (y_sync y) synced true = Panic
  end.

Lemma inv_no_panic y : sync_inv y -> ~ next_access_panics y.
Proof.
  intros Hinv. pose proof (si_range _ Hinv) as Hr. unfold next_access_panics. destruct (y_phase y) as [|p|ops synced]; [by intros [] | |].
  - intros (i & todo & seq & _ & _ & Hi & Hp). destruct Hr as (R1 & _). unfold scan_peek in Hp.
    destruct (lookup_lt_is_Some_2 (ss_last_seq (y_sync y)) i) as [last Hlast]; [lia |]. by rewrite Hlast in Hp.
  - unfold flush_finish. cbn [negb]. rewrite (proj2 (forallb_forall _ synced)); [done |].
    intros x Hx. apply Nat.ltb_lt. by apply (proj1 (Forall_forall _ _) Hr), list_elem_of_In.
Qed.

(** C10: the synchronisation task never takes an unpublished reading for published.  The
    task reads the slots one access at a time; between any two of its accesses there
    may be writes of this and other processes (which a read can find under way), layout
    rebuilds, routing reloads, and its database calls may fail after applying any part of
    their fields.  In every such run of usual events (no sequence number wraps at 2^32;
    a rebuilt layout is not allocated at the address the last pass saw; a new routing
    cache differs in its hash from the last one seen, which was not zero; no two channel
    points feed one instance point): the task never indexes out of range, and when it has
    recorded the sequence number a slot has now (and its last pass saw the current layout
    and routing), the database holds the slot's value, timestamp and raw value under its
    channel and, where the point feeds a model instance, under that instance. *)
Theorem sync_marks_are_published y0 y : sync_init y0 -> rtc usual_step y0 y ->
  (~ next_access_panics y) /\
  (sync_current y -> forall i, (i < y_count y)%nat -> ss_last_seq (y_sync y) !! i = Some (slot_seq (y_seg y) i) -> published y i).
Proof using Horder.
  intros H0 Hr. pose proof (inv_reachable _ _ H0 Hr) as Hinv. split; [by apply inv_no_panic |].
  intros Hc i Hi Hq. by apply (mk_published _ (si_marks _ Hinv Hc)).
Qed.

(** ** A pass with no other task in between *)

(** The loop of [flush_begin] is a run of the steps of the task. *)
Lemma scan_run g ptr l rc db rev : forall todo st ops synced acc,
  scan_slots f64_to_bytes g (sw_slot_count (uw_inner (sl_writer l))) rev rc (acc_of st ops synced) todo = Ret acc ->
  rtc usual_step (mkSyncSystem g ptr l rc st ∅ (PScan (mkPass true (sw_slot_count (uw_inner (sl_writer l))) rev todo None ops synced)) db)
    (mkSyncSystem g ptr l rc (put_acc st acc) ∅ (PScan (mkPass true (sw_slot_count (uw_inner (sl_writer l))) rev [] None (sa_ops acc) (sa_synced acc))) db).
Proof.
  clear Horder. induction todo as [|i todo IH]; intros st ops synced acc Hs; cbn [scan_slots] in Hs.
  { injection Hs as <-. cbn [acc_of sa_ops sa_synced]. unfold put_acc. cbn. by destruct st. }
  destruct (scan_slot _ _ _ _ _ _ i) as [acc1|] eqn:E1; [| done]. cbn [outcome_bind] in Hs. unfold scan_slot in E1.
  destruct (Nat.leb_spec (sw_slot_count (uw_inner (sl_writer l))) i) as [Hle | Hlt].
  { injection E1 as <-. eapply rtc_l; [| by apply IH]. exists EvPass. split; [done |]. by apply (Sync_beyond _ _ _ _ _ _ _ (mkPass true _ rev (i :: todo) None ops synced) i todo). }
  destruct (slot_at g _ i) as [slot|] eqn:Es; [| done]. cbn [outcome_bind] in E1.
  assert (Hobs : slot_seq g i = ps_seq slot /\ sg_slots g !! i = Some slot).
  { unfold slot_at in Es. destruct (_ <? _)%nat; [| done]. unfold slot_seq. destruct (sg_slots g !! i); [| done]. by injection Es as ->. }
  destruct Hobs as [Hobs Hslot]. destruct (scan_peek (sa_last_seq (acc_of st ops synced)) i (ps_seq slot)) as [load|] eqn:Ep; [| done]. cbn [outcome_bind] in E1.
  eapply rtc_l.
  { exists EvPass. split; [done |]. apply (Sync_peek _ _ _ _ _ ∅ _ (mkPass true _ rev (i :: todo) None ops synced) i todo (ps_seq slot) load); done. }
  destruct load; cbn [peeking] in *; injection E1 as <-; [| by apply IH].
  eapply rtc_l.
  { exists EvPass. split; [done |]. eapply (Sync_load _ _ _ _ _ ∅ _ _ i (ps_seq slot) (PointSlot_try_load_consistent slot)); [done | | reflexivity].
    intros _. right. split; [set_solver |]. by exists slot. }
  cbn [pa_rev pa_ops pa_synced peeking collected pa_current pa_count pa_todo]. set (acc1 := scan_loaded _ _ _ _ _ _ _) in *.
  apply (IH (put_acc st acc1) (sa_ops acc1) (sa_synced acc1) acc). rewrite <- Hs. f_equal. by destruct acc1.
Qed.

Lemma flush_begin_run g ptr l rc st db w' st' fl : sync_inv (mkSyncSystem g ptr l rc st ∅ PIdle db) ->
  flush_begin f64_to_bytes content_hash ops_order g (Some (ptr, l)) rc st = Ret (inl (w', st', fl)) ->
  rtc usual_step (mkSyncSystem g ptr l rc st ∅ PIdle db) (mkSyncSystem g ptr (with_writer l w') rc st' ∅ (phase_of fl) db).
Proof.
  clear Horder. intros Hinv Hb. unfold flush_begin in Hb. destruct (flush_start_cases _ _ _ _ _ _ _ Hinv) as [(E & _) | [(E & _) | (st1 & ch & w1 & found & cands & retry & Hst & E)]];
    rewrite E in Hb; try discriminate. eapply rtc_l; [exists EvPass; split; [done |]; apply Sync_start, E |].
  destruct (scan_slots _ _ _ _ _ _ _) as [acc|] eqn:Es; [| done]. cbn [outcome_bind] in Hb.
  destruct (flush_send _ _ _ _) as [st2 fl2] eqn:Ef. injection Hb as -> -> ->.
  assert (Hc : sw_slot_count (uw_inner w') = sw_slot_count (uw_inner (sl_writer l))) by apply (sd_writer _ _ _ _ _ _ _ _ _ _ _ Hst).
  pose proof (scan_run g ptr (with_writer l w') rc db (sl_reverse_index l) cands (with_retry st1 retry) ∅ [] acc) as Hrun.
  cbn [with_writer sl_writer] in Hrun. rewrite Hc in Hrun. etransitivity; [apply Hrun, Es |].
  apply rtc_once. exists EvPass. split; [done |]. by eapply Sync_send.
Qed.

Lemma inv_begin g ptr l rc st db w' st' fl : sync_inv (mkSyncSystem g ptr l rc st ∅ PIdle db) ->
  flush_begin f64_to_bytes content_hash ops_order g (Some (ptr, l)) rc st = Ret (inl (w', st', fl)) ->
  sync_inv (mkSyncSystem g ptr (with_writer l w') rc st' ∅ (phase_of fl) db).
Proof using Horder.
  intros Hinv Hb. pose proof (flush_begin_run _ _ _ _ _ _ _ _ _ Hinv Hb) as Hr. revert Hinv.
  generalize dependent (mkSyncSystem g ptr l rc st ∅ PIdle db). intros y Hr Hinv. induction Hr; eauto using sync_inv_step.
Qed.

(** What a whole pass went through. *)
Record begun (g : Segment) (ptr : Z) (l : ShmLayout C) (rc : RoutingCache) (st st1 : SyncState) (ch : bool) (w' : UnifiedWriter C)
    (found cands retry : list nat) (acc : ScanAcc) (sy : list nat) : Prop := {
  bg_start : started g ptr l rc st st1 ch w' found cands retry;
  bg_scan : scanned f64_to_bytes g (uw_inner (sl_writer l)) (sl_reverse_index l) rc (mkScanAcc (ss_last_seq st1) retry ∅ []) acc cands sy;
}.

(** The bookkeeping after a scan, and the operations it sends. *)
Definition scanned_state (st1 : SyncState) (acc : ScanAcc) : SyncState :=
  mkSyncState (sa_last_seq acc) (ss_last_layout_ptr st1) (ss_last_routing_hash st1) (sa_retry acc) (ss_tick_count st1).
Definition scanned_result (w' : UnifiedWriter C) (st1 : SyncState) (acc : ScanAcc) (sy : list nat)
    : UnifiedWriter C * SyncState * option (HashMsetOps * list (nat * Z)) :=
  match sy with
  | [] => (w', next_tick (scanned_state st1 acc), None)
  | _ => (w', scanned_state st1 acc, Some (ops_order (map_to_list (sa_ops acc)), sa_synced acc))
  end.

Lemma queued_fields g w rev rc acc acc' l sy i : scanned f64_to_bytes g w rev rc acc acc' l sy -> NoDup l ->
  (sw_slot_count w <= length (sa_last_seq acc))%nat -> i ∈ sy ->
  exists o s, publishable g rev i = Some (o, s) /\ ReverseSlotIndex_get rev i = Some o /\ (i < sw_slot_count w)%nat /\ i ∈ l.
Proof.
  intros [] Hnd Hlen Hi. assert (Hn : (i < sw_slot_count w)%nat) by (by apply (proj1 (Forall_forall _ _) sc_range0)).
  assert (Hl : i ∈ l) by (eapply elem_of_submseteq; [exact Hi | by apply sublist_submseteq]).
  destruct (lookup_lt_is_Some_2 (sa_last_seq acc) i) as [last Hlast]; [lia |].
  destruct (sc_each0 i last Hl Hn Hlast) as [(_ & _ & [[o s] Hp] & _) | (Hni & _)]; [| done].
  exists o, s. split_and!; try done. revert Hp. unfold publishable. destruct (sg_slots g !! i); [| done]. destruct (_ && _); [| done].
  by destruct (ReverseSlotIndex_get rev i) as [o'|]; [intros [= <- _] |].
Qed.

Lemma begun_ops_empty g ptr l rc st st1 ch w' found cands retry acc sy :
  begun g ptr l rc st st1 ch w' found cands retry acc sy -> (sw_slot_count (uw_inner (sl_writer l)) <= length (ss_last_seq st1))%nat ->
  sa_ops acc = ∅ <-> sy = [].
Proof.
  intros [Hst Hsc] Hlen. pose proof (sd_nodup _ _ _ _ _ _ _ _ _ _ _ Hst) as Hnd. rewrite (sc_ops _ _ _ _ _ _ _ _ _ Hsc). fold (collect (concat (map (fields_of f64_to_bytes g (sl_reverse_index l) rc) sy))).
  rewrite collect_nil. split; [| by intros ->]. destruct sy as [|i sy]; [done |]. cbn [map concat].
  destruct (queued_fields _ _ _ _ _ _ _ _ i Hsc Hnd Hlen) as (o & s0 & Hp & _); [left |].
  unfold fields_of at 1. rewrite Hp. unfold slot_fields. done.
Qed.

(** A pass over a sound layout with nobody writing never panics. *)
Lemma flush_begin_ok g ptr l rc st db : sync_inv (mkSyncSystem g ptr l rc st ∅ PIdle db) ->
  sw_slot_count (uw_inner (sl_writer l)) <> 0%nat -> Z.land (SlotWriter_generation g) 1 <> 1 ->
  exists st1 ch w' found cands retry acc sy, begun g ptr l rc st st1 ch w' found cands retry acc sy /\
    flush_begin f64_to_bytes content_hash ops_order g (Some (ptr, l)) rc st = Ret (inl (scanned_result w' st1 acc sy)).
Proof using Horder.
  intros Hinv Hn Hg. unfold flush_begin.
  destruct (flush_start_cases _ _ _ _ _ _ _ Hinv) as [(E & ?) | [(E & ?) | (st1 & ch & w1 & found & cands & retry & Hst & E)]]; [done | done |]. rewrite E.
  pose proof (ls_store _ _ (si_layout _ Hinv)) as Hwf. destruct (note_layout_ok _ _ _ _ _ _ _ _ _ Hinv (sd_note _ _ _ _ _ _ _ _ _ _ _ Hst)) as (Hm & _).
  pose proof (mk_length _ (Hm ∅ PIdle)) as M1. system_fields.
  destruct (scan_slots_ok f64_to_bytes g (uw_inner (sl_writer l)) (sl_reverse_index l) rc Hwf cands (mkScanAcc (ss_last_seq st1) retry ∅ []))
    as (acc & sy & Hs & Hsc); [apply Hst | done |].
  assert (Hb : begun g ptr l rc st st1 ch w1 found cands retry acc sy) by (by split).
  exists st1, ch, w1, found, cands, retry, acc, sy. split; [exact Hb |]. pose proof (begun_ops_empty _ _ _ _ _ _ _ _ _ _ _ _ _ Hb M1) as He.
  unfold acc_of. cbn [with_retry ss_last_seq ss_retry_slots]. rewrite Hs. cbn [outcome_bind]. unfold flush_send, scanned_result. destruct sy as [|i sy].
  - by rewrite (proj2 (order_nil _) (proj2 He eq_refl)).
  - destruct (ops_order (map_to_list (sa_ops acc))) eqn:Eo; [| done]. apply order_nil in Eo. apply He in Eo. done.
Qed.

(** A write of this process, as steps. *)
Lemma set_direct_run g ptr l rc st op ph db i v r t g' w' : UnifiedWriter_set_direct g (sl_writer l) i v r t = Ret (g', w') -> i ∉ op -> seq_room g i ->
  rtc usual_step (mkSyncSystem g ptr l rc st op ph db) (mkSyncSystem g' ptr (with_writer l w') rc st op ph db).
Proof.
  clear Horder. intros Hset Hop Hroom. pose proof Hset as Hset'. apply unified_set_direct_inv in Hset' as (s & Hi & Hs & -> & Ew).
  eapply rtc_l; [exists (EvOpen i); split; [done |]; by apply Sync_open |].
  eapply rtc_l; [exists (EvCommit i); split; [exact Hroom |]; eapply (Sync_commit _ _ _ _ _ _ _ _ i v r t s); [done | set_solver | done] |].
  assert (Hop' : ({[i]} ∪ op) ∖ {[i]} = op) by set_solver. rewrite Hop'.
  apply rtc_once. exists (EvMark i). split; [done |].
  assert (Hw : w' = mkUnifiedWriter (SlotWriter_mark_dirty_slot (uw_inner (sl_writer l)) i) (uw_channel_layouts (sl_writer l)) (uw_point_watch w')).
  { unfold UnifiedWriter_set_direct in Hset. destruct (SlotWriter_set_direct _ _ _ _ _ _) as [[g1 w1]|]; [| done]. cbn [outcome_bind] in Hset.
    destruct (emit_opt _ i v r t); [| done]. cbn in Hset. injection Hset as _ <-. cbn in *. by rewrite Ew. }
  rewrite Hw. by apply Sync_mark.
Qed.

(** ** Passes without writes in between *)

Section Quiet.
Context {W : Type} `{HR : !HashRtdb W} `{HS : !HashRtdbSpec W}.
(** Every call succeeds. *)
Hypothesis Hup : forall (w : W) ops, (rt_pipeline_hash_mset w ops).2 = true.
Variable g : Segment.
Variable ptr : Z.
Variable rc : RoutingCache.
Variable n : nat.
Hypothesis Hn : n <> 0%nat.
Hypothesis Heven : Z.land (SlotWriter_generation g) 1 <> 1.

Definition flush_tick (x : W * ShmLayout C * SyncState) : outcome (W * ShmLayout C * SyncState) :=
  let '(w, l, st) := x in
  let! (w', l', st') := ShmRedisSync_flush_once f64_to_bytes content_hash ops_order w g (Some (ptr, l)) rc st in
  match l' with Some (_, l') => Ret (w', l', st') | None => Panic end.

Fixpoint flush_ticks (k : nat) (x : W * ShmLayout C * SyncState) : outcome (W * ShmLayout C * SyncState) :=
  match k with O => Ret x | S k => let! x := flush_tick x in flush_ticks k x end.

Definition tick_system (x : W * ShmLayout C * SyncState) : SyncSystem := mkSyncSystem g ptr x.1.2 rc x.2 ∅ PIdle (rt_view x.1.1).
Definition tick_inv (x : W * ShmLayout C * SyncState) : Prop :=
  sync_inv (tick_system x) /\ sw_slot_count (uw_inner (sl_writer x.1.2)) = n.
Definition clean (st : SyncState) (i : nat) : Prop := ss_last_seq st !! i = Some (slot_seq g i).

(** What one pass does to the bookkeeping. *)
Record ticked (x x' : W * ShmLayout C * SyncState) (st1 : SyncState) (found cands : list nat) : Prop := {
  tk_inv : tick_inv x';
  tk_current : sync_current (tick_system x');
  tk_count : ss_tick_count x'.2 = wrap 64 (ss_tick_count x.2 + 1);
  tk_pick : pick_candidates st1 found = (cands, ss_retry_slots x'.2);
  tk_found : (found = seq 0 n /\ dirty_set (uw_inner (sl_writer x'.1.2)) = dirty_set (uw_inner (sl_writer x.1.2))) \/
    ((forall i, i ∈ found <-> i ∈ dirty_set (uw_inner (sl_writer x.1.2))) /\ dirty_set (uw_inner (sl_writer x'.1.2)) = ∅);
  tk_full : ss_tick_count x.2 mod FULL_SCAN_INTERVAL = 0 -> found = seq 0 n;
  tk_part : sync_current (tick_system x) -> ss_tick_count x.2 mod FULL_SCAN_INTERVAL <> 0 ->
    (forall i, i ∈ found <-> i ∈ dirty_set (uw_inner (sl_writer x.1.2))) /\ dirty_set (uw_inner (sl_writer x'.1.2)) = ∅;
  tk_range : Forall (fun i => (i < n)%nat) (found ++ ss_retry_slots st1);
  tk_retry : sync_current (tick_system x) -> ss_retry_slots st1 = ss_retry_slots x.2;
  tk_retry_sub : ss_retry_slots st1 ⊆ ss_retry_slots x.2;
  tk_clean : forall i, i ∈ cands -> clean x'.2 i;
  tk_keep : sync_current (tick_system x) -> forall i, (i < n)%nat -> clean x.2 i -> clean x'.2 i;
  tk_db : forall i k f v, i ∉ cands -> (k, (f, v)) ∈ fields_of f64_to_bytes g (sl_reverse_index x.1.2) rc i ->
    hget (rt_view x'.1.1) k f = hget (rt_view x.1.1) k f;
  tk_rev : sl_reverse_index x'.1.2 = sl_reverse_index x.1.2;
}.

(** The bookkeeping after a pass whose call succeeded. *)
Definition finished_state (st1 : SyncState) (acc : ScanAcc) : SyncState :=
  next_tick (mkSyncState (foldl (fun l x => <[x.1 := x.2]> l) (sa_last_seq acc) (sa_synced acc)) (ss_last_layout_ptr st1)
    (ss_last_routing_hash st1) (sa_retry acc) (ss_tick_count st1)).

Lemma flush_tick_ok x : tick_inv x -> exists st1 ch w1 found cands retry acc sy w',
  begun g ptr x.1.2 rc x.2 st1 ch w1 found cands retry acc sy /\
  flush_tick x = Ret (w', with_writer x.1.2 w1, finished_state st1 acc) /\ tick_inv (w', with_writer x.1.2 w1, finished_state st1 acc) /\
  (forall i k f v, i ∉ sy -> (k, (f, v)) ∈ fields_of f64_to_bytes g (sl_reverse_index x.1.2) rc i -> hget (rt_view w') k f = hget (rt_view x.1.1) k f).
Proof using Horder HS Hup Hn Heven.
  destruct x as [[w l] st]. intros [Hinv Hc]. unfold tick_inv, tick_system in *. cbn [fst snd] in *.
  destruct (flush_begin_ok _ _ _ _ _ _ Hinv) as (st1 & ch & w1 & found & cands & retry & acc & sy & Hb & Heq); [congruence | done |].
  exists st1, ch, w1, found, cands, retry, acc, sy.
  assert (Hc1 : sw_slot_count (uw_inner w1) = sw_slot_count (uw_inner (sl_writer l))) by apply (sd_writer _ _ _ _ _ _ _ _ _ _ _ (bg_start _ _ _ _ _ _ _ _ _ _ _ _ _ Hb)).
  assert (Hsy : sa_synced acc = map (fun i => (i, slot_seq g i)) sy) by (exact (sc_synced _ _ _ _ _ _ _ _ _ (bg_scan _ _ _ _ _ _ _ _ _ _ _ _ _ Hb))).
  pose proof Heq as Heq'. unfold flush_tick, ShmRedisSync_flush_once, finished_state. rewrite Heq. cbn [outcome_bind]. unfold scanned_result in *.
  destruct sy as [|i sy]; cbn [outcome_bind].
  - exists w. split; [done |]. rewrite Hsy. cbn [map foldl]. split; [done |]. cbn [fst snd]. split; [| done]. split; [| cbn; congruence].
    apply (inv_begin _ _ _ _ _ _ _ _ _ Hinv Heq').
  - pose proof (inv_begin _ _ _ _ _ _ _ _ _ Hinv Heq') as Hfl. cbn [phase_of] in Hfl.
    destruct (rt_pipeline_hash_mset w (ops_order (map_to_list (sa_ops acc)))) as [w' ok] eqn:Ew.
    pose proof (Hup w (ops_order (map_to_list (sa_ops acc)))) as Hok. rewrite Ew in Hok. cbn [snd] in Hok. subst ok.
    assert (Hfin : flush_finish (scanned_state st1 acc) (sa_synced acc) true = Ret (finished_state st1 acc)).
    { unfold flush_finish. cbn [negb]. rewrite (proj2 (forallb_forall _ _)); [done |]. intros x Hx. apply Nat.ltb_lt.
      by apply (proj1 (Forall_forall _ _) (si_range _ Hfl)), list_elem_of_In. }
    rewrite Hfin. cbn [outcome_bind]. exists w'. split; [done |]. split; [done |]. cbn [fst snd]. rewrite (rt_pipeline_ok _ _ _ Ew). split.
    + split; [| cbn; congruence]. apply (inv_success _ _ _ _ _ _ _ _ _ _ Hfl Hfin).
    + intros j k f v Hj Hv. rewrite hget_mset_ops. destruct (si_flight _ Hfl _ _ eq_refl) as [es F].
      { destruct (note_layout_ok _ _ _ _ _ _ _ _ _ Hinv (sd_note _ _ _ _ _ _ _ _ _ _ _ (bg_start _ _ _ _ _ _ _ _ _ _ _ _ _ Hb))) as (_ & E1 & E2 & _). done. }
      rewrite (untouched _ _ _ _ j k f v (si_layout _ Hfl) (si_routing _ Hfl) F), (left_id_L None (∪)); try done.
      rewrite Hsy. intros Hin. apply Hj. apply list_elem_of_fmap in Hin as ([j' q] & -> & Hin).
      apply list_elem_of_In, in_map_iff in Hin as (j0 & [= <- _] & Hin). by apply list_elem_of_In.
Qed.

Lemma finished_clean l st st1 ch w1 found cands retry acc sy : begun g ptr l rc st st1 ch w1 found cands retry acc sy ->
  sw_slot_count (uw_inner (sl_writer l)) = n -> (n <= length (ss_last_seq st1))%nat -> Forall (fun i => (i < n)%nat) cands ->
  (forall i, i ∈ cands -> clean (finished_state st1 acc) i) /\
  (forall i, i ∉ cands -> ss_last_seq (finished_state st1 acc) !! i = ss_last_seq st1 !! i).
Proof.
  intros [Hst Hsc] Hc Hlen Hr. pose proof (sd_nodup _ _ _ _ _ _ _ _ _ _ _ Hst) as Hnd. assert (Hsy : sa_synced acc = map (fun i => (i, slot_seq g i)) sy) by (exact (sc_synced _ _ _ _ _ _ _ _ _ Hsc)).
  assert (Hfst : (sa_synced acc).*1 = sy) by (rewrite Hsy; clear; induction sy; csimpl; congruence).
  assert (Hsub : forall i, i ∈ sy -> i ∈ cands).
  { intros i Hi. eapply elem_of_submseteq; [exact Hi | apply sublist_submseteq, (sc_sub _ _ _ _ _ _ _ _ _ Hsc)]. }
  destruct (set_marks (sa_synced acc) (sa_last_seq acc)) as (_ & S2 & S3).
  - rewrite Hfst. eapply sublist_NoDup; [exact Hnd | apply (sc_sub _ _ _ _ _ _ _ _ _ Hsc)].
  - apply Forall_forall. intros [i q] Hin. rewrite (sc_length _ _ _ _ _ _ _ _ _ Hsc). cbn [fst sa_last_seq].
    assert (i ∈ sy) as Hi%Hsub by (rewrite <- Hfst; by apply list_elem_of_fmap_2 with (f := fst) in Hin).
    pose proof (proj1 (Forall_forall _ _) Hr i Hi). cbn in *. lia.
  - rewrite Hfst in S2. unfold clean, finished_state, next_tick. cbn [ss_last_seq]. split.
    + intros i Hi. pose proof (proj1 (Forall_forall _ _) Hr i Hi) as Hin. cbn in Hin.
      destruct (lookup_lt_is_Some_2 (ss_last_seq st1) i) as [last Hlast]; [lia |].
      destruct (sc_each _ _ _ _ _ _ _ _ _ Hsc i last Hi) as [(Hs & _) | (Hs & _ & H)]; [lia | done | |].
      * apply S3. rewrite Hsy. apply list_elem_of_fmap. by exists i.
      * by rewrite S2.
    + intros i Hi. rewrite S2 by auto. rewrite (sc_other _ _ _ _ _ _ _ _ _ Hsc) by auto. done.
Qed.

Lemma tick_ok x : tick_inv x -> exists x' st1 found cands, flush_tick x = Ret x' /\ ticked x x' st1 found cands.
Proof using Horder HS Hup Hn Heven.
  intros Hx. destruct (flush_tick_ok x Hx) as (st1 & ch & w1 & found & cands & retry & acc & sy & w' & Hb & Heq & Hx' & Hdb). destruct Hx as [Hinv Hc].
  pose proof (bg_start _ _ _ _ _ _ _ _ _ _ _ _ _ Hb) as Hst. destruct (note_layout_ok _ _ _ _ _ _ _ _ _ Hinv (sd_note _ _ _ _ _ _ _ _ _ _ _ Hst)) as (Hm & E1 & E2 & E3 & Hrn & Hcur).
  specialize (Hm ∅ PIdle). pose proof (mk_length _ Hm) as M1. pose proof (mk_retry _ Hm) as M2. unfold y_count, y_writer in M1, M2. cbn [y_layout y_sync] in M1, M2. rewrite Hc in M1, M2.
  pose proof (sd_range _ _ _ _ _ _ _ _ _ _ _ Hst) as Hr. rewrite Hc in Hr.
  destruct (pick_spec _ _ _ _ _ (sd_pick _ _ _ _ _ _ _ _ _ _ _ Hst) Hr M2) as (_ & Hcr & _).
  destruct (finished_clean _ _ _ _ _ _ _ _ _ _ Hb Hc M1 Hcr) as [Hcl Hkeep].
  exists (w', with_writer x.1.2 w1, finished_state st1 acc), st1, found, cands. split; [exact Heq |].
  pose proof (sd_found _ _ _ _ _ _ _ _ _ _ _ Hst) as Hf.
  split; unfold tick_system, sync_current; cbn [fst snd y_layout y_sync y_ptr y_rc finished_state next_tick ss_last_layout_ptr ss_last_routing_hash ss_tick_count ss_retry_slots with_writer sl_writer].
  - exact Hx'.
  - done.
  - by rewrite E3.
  - rewrite (sc_retry _ _ _ _ _ _ _ _ _ (bg_scan _ _ _ _ _ _ _ _ _ _ _ _ _ Hb)). apply (sd_pick _ _ _ _ _ _ _ _ _ _ _ Hst).
  - rewrite Hc in Hf. destruct (full_scan_due st1 ch); [left; by injection Hf as <- <- | right].
    destruct (dirty_range g _ _ _ (ls_store _ _ (si_layout _ Hinv)) Hf) as (_ & _ & H1 & H2 & _). done.
  - intros H0. unfold full_scan_due in Hf. rewrite E3, Hc, H0, Z.eqb_refl, orb_true_r in Hf. by injection Hf as _ <-.
  - intros Hcu Hne. unfold full_scan_due in Hf. rewrite E3 in Hf. destruct (Hcur Hcu) as (-> & _). rewrite (proj2 (Z.eqb_neq _ _) Hne) in Hf.
    destruct (Z.eqb_spec (ss_tick_count x.2) 0) as [H0 | _]; [by rewrite H0 in Hne |].
    destruct (dirty_range g _ _ _ (ls_store _ _ (si_layout _ Hinv)) Hf) as (_ & _ & H1 & H2 & _). done.
  - by apply Forall_app.
  - intros Hcu. by destruct (Hcur Hcu) as (_ & _ & ->).
  - eapply note_retry, (sd_note _ _ _ _ _ _ _ _ _ _ _ Hst).
  - exact Hcl.
  - intros Hcu i Hi Hold. destruct (decide (i ∈ cands)) as [Hin | Hni]; [by apply Hcl |].
    unfold clean in *. rewrite Hkeep by done. by destruct (Hcur Hcu) as (_ & -> & _).
  - intros i k f v Hi. apply Hdb. intros Hs. apply Hi. eapply elem_of_submseteq; [exact Hs |].
    apply sublist_submseteq, (sc_sub _ _ _ _ _ _ _ _ _ (bg_scan _ _ _ _ _ _ _ _ _ _ _ _ _ Hb)).
  - done.
Qed.

(** With at most 5120 slots no candidate is ever dropped. *)
Lemma pick_small st found m : Forall (fun i => (i < m)%nat) (found ++ ss_retry_slots st) -> (m <= MAX_PIPELINE_SLOTS + MAX_RETRY_SLOTS)%nat ->
  let all := sort_dedup (found ++ ss_retry_slots st) in
  pick_candidates st found = (take MAX_PIPELINE_SLOTS all, drop MAX_PIPELINE_SLOTS all) /\
  (length (drop MAX_PIPELINE_SLOTS all) <= MAX_RETRY_SLOTS)%nat.
Proof.
  intros Hr Hm all. assert (Hlen : (length all <= m)%nat).
  { apply sort_dedup_length. intros i Hi. by apply (proj1 (Forall_forall _ _) Hr). }
  rewrite length_drop. split; [| lia]. unfold pick_candidates. fold all. destruct (Nat.ltb_spec MAX_PIPELINE_SLOTS (length all)) as [H | H].
  - unfold cap_retry. rewrite length_drop. destruct (Nat.ltb_spec MAX_RETRY_SLOTS (length all - MAX_PIPELINE_SLOTS)); [lia | done].
  - by rewrite take_ge, drop_ge.
Qed.

(** Slots the bookkeeping still owes are in the retry list. *)
Definition owed_in_retry (st : SyncState) : Prop := forall i, (i < n)%nat -> clean st i \/ i ∈ ss_retry_slots st.

Lemma take_or_drop (l : list nat) k i : i ∈ l <-> i ∈ take k l \/ i ∈ drop k l.
Proof. rewrite <- elem_of_app. by rewrite take_drop. Qed.

Hypothesis Hsmall : (n <= MAX_PIPELINE_SLOTS + MAX_RETRY_SLOTS)%nat.

Lemma tick_retry x x' st1 found cands : ticked x x' st1 found cands ->
  (forall i, i ∈ found ++ ss_retry_slots st1 -> clean x'.2 i \/ i ∈ ss_retry_slots x'.2) /\
  (length (ss_retry_slots x'.2) <= MAX_RETRY_SLOTS)%nat /\
  (length (ss_retry_slots x'.2) <= length (found ++ ss_retry_slots st1) - MAX_PIPELINE_SLOTS)%nat.
Proof using Hn Hsmall.
  intros [_ _ _ Hp _ _ _ Hr _ _ Hcl _ _ _]. destruct (pick_small st1 found n Hr Hsmall) as [Hp' Hlen]. rewrite Hp' in Hp. injection Hp as Hca <-.
  split; [| split; [done |]].
  - intros i Hi. destruct (proj1 (take_or_drop (sort_dedup (found ++ ss_retry_slots st1)) MAX_PIPELINE_SLOTS i)) as [H | H]; [by apply sort_dedup_elem | | by right].
    left. apply Hcl. congruence.
  - rewrite length_drop. assert (length (sort_dedup (found ++ ss_retry_slots st1)) <= length (found ++ ss_retry_slots st1))%nat; [| lia].
    apply submseteq_length, NoDup_submseteq; [apply strict_nodup, sort_dedup_strict |]. intros i. apply sort_dedup_elem.
Qed.

Lemma ticks_inv k : forall x, tick_inv x -> 0 <= ss_tick_count x.2 -> ss_tick_count x.2 + Z.of_nat k < 2 ^ 64 ->
  exists x', flush_ticks k x = Ret x' /\ tick_inv x' /\ ss_tick_count x'.2 = ss_tick_count x.2 + Z.of_nat k /\
    (sync_current (tick_system x) -> sync_current (tick_system x') /\ forall i, (i < n)%nat -> clean x.2 i -> clean x'.2 i).
Proof using Horder HS Hup Hn Heven.
  clear Hsmall. induction k as [|k IH]; intros x Hx H0 Hk; cbn [flush_ticks].
  { exists x. split; [done |]. split; [done |]. split; [lia | done]. }
  destruct (tick_ok x Hx) as (x1 & st1 & found & cands & -> & T). cbn [outcome_bind].
  pose proof (tk_count _ _ _ _ _ T) as Ht. unfold wrap in Ht. rewrite Z.mod_small in Ht by lia.
  destruct (IH x1 (tk_inv _ _ _ _ _ T)) as (x' & -> & Hx' & Ht' & Hc'); [lia | lia |].
  exists x'. split; [done |]. split; [done |]. split; [lia |]. intros Hc. destruct (Hc' (tk_current _ _ _ _ _ T)) as [H1 H2].
  split; [done |]. intros i Hi Hcl. apply H2; [done |]. by apply (tk_keep _ _ _ _ _ T).
Qed.

Lemma flush_ticks_app a b x : flush_ticks (a + b) x = outcome_bind (flush_ticks a x) (flush_ticks b).
Proof. revert x. induction a as [|a IH]; intros x; cbn [flush_ticks Nat.add outcome_bind]; [done |]. destruct (flush_tick x); [apply IH | done]. Qed.

(** The pass after a full scan and those that follow drain the retry list. *)
Lemma drain_ticks m : forall x, tick_inv x -> sync_current (tick_system x) -> 0 <= ss_tick_count x.2 -> ss_tick_count x.2 + Z.of_nat m < 2 ^ 64 ->
  (forall j, 0 <= j < Z.of_nat m -> (ss_tick_count x.2 + j) mod FULL_SCAN_INTERVAL <> 0) ->
  owed_in_retry x.2 -> (length (ss_retry_slots x.2) <= m * MAX_PIPELINE_SLOTS)%nat -> dirty_set (uw_inner (sl_writer x.1.2)) = ∅ ->
  exists x', flush_ticks m x = Ret x' /\ tick_inv x' /\ sync_current (tick_system x') /\
    ss_tick_count x'.2 = ss_tick_count x.2 + Z.of_nat m /\ (forall i, (i < n)%nat -> clean x'.2 i).
Proof using Horder HS Hup Hn Heven Hsmall.
  induction m as [|m IH]; intros x Hx Hc H0 Hk Hnf Ho Hlen Hd; cbn [flush_ticks].
  { exists x. split; [done |]. split; [done |]. split; [done |]. split; [lia |]. intros i Hi. destruct (Ho i Hi) as [H | H]; [done |].
    destruct (ss_retry_slots x.2); [by apply elem_of_nil in H | cbn in Hlen; lia]. }
  destruct (tick_ok x Hx) as (x1 & st1 & found & cands & -> & T). cbn [outcome_bind].
  pose proof (tk_count _ _ _ _ _ T) as Ht. unfold wrap in Ht. rewrite Z.mod_small in Ht by lia.
  destruct (tk_part _ _ _ _ _ T Hc) as [Hfd Hd1]; [rewrite <- (Z.add_0_r (ss_tick_count x.2)); apply Hnf; lia |].
  assert (found = []) as ->.
  { destruct found as [|i found]; [done |]. exfalso. assert (i ∈ dirty_set (uw_inner (sl_writer x.1.2))) by (apply Hfd; left). set_solver. }
  destruct (tick_retry _ _ _ _ _ T) as (R1 & _ & R3). cbn [app] in *. rewrite (tk_retry _ _ _ _ _ T Hc) in *.
  destruct (IH x1 (tk_inv _ _ _ _ _ T) (tk_current _ _ _ _ _ T)) as (x' & -> & Hx' & Hc' & Ht' & Hcl); try lia; try done.
  - intros j Hj. rewrite Ht. replace (ss_tick_count x.2 + 1 + j) with (ss_tick_count x.2 + (1 + j)) by lia. apply Hnf. lia.
  - intros i Hi. destruct (Ho i Hi) as [H | H]; [left; by apply (tk_keep _ _ _ _ _ T) | by apply R1].
  - exists x'. split_and!; try done. lia.
Qed.

(** A full scan leaves every slot it did not reach in the retry list. *)
Lemma full_scan_tick x : tick_inv x -> ss_tick_count x.2 mod FULL_SCAN_INTERVAL = 0 -> 0 <= ss_tick_count x.2 < 2 ^ 64 - 1 ->
  exists x', flush_tick x = Ret x' /\ tick_inv x' /\ sync_current (tick_system x') /\ owed_in_retry x'.2 /\ ss_tick_count x'.2 = ss_tick_count x.2 + 1.
Proof using Horder HS Hup Hn Heven Hsmall.
  intros Hx Hm Ht. destruct (tick_ok x Hx) as (x1 & st1 & found & cands & -> & T). exists x1. split; [done |].
  destruct (tick_retry _ _ _ _ _ T) as (R1 & _). rewrite (tk_full _ _ _ _ _ T Hm) in R1.
  split; [apply (tk_inv _ _ _ _ _ T) |]. split; [apply (tk_current _ _ _ _ _ T) |]. split.
  - intros i Hi. apply R1, elem_of_app. left. apply elem_of_seq. lia.
  - rewrite (tk_count _ _ _ _ _ T). unfold wrap. rewrite Z.mod_small; lia.
Qed.

(** The next pass also takes the slots that were dirty before the full scan. *)
Lemma settle_tick x : tick_inv x -> sync_current (tick_system x) -> ss_tick_count x.2 mod FULL_SCAN_INTERVAL <> 0 -> 0 <= ss_tick_count x.2 < 2 ^ 64 - 1 ->
  owed_in_retry x.2 ->
  exists x', flush_tick x = Ret x' /\ tick_inv x' /\ sync_current (tick_system x') /\ owed_in_retry x'.2 /\ ss_tick_count x'.2 = ss_tick_count x.2 + 1 /\
    (length (ss_retry_slots x'.2) <= MAX_RETRY_SLOTS)%nat /\ dirty_set (uw_inner (sl_writer x'.1.2)) = ∅.
Proof using Horder HS Hup Hn Heven Hsmall.
  intros Hx Hc Hm Ht Ho. destruct (tick_ok x Hx) as (x1 & st1 & found & cands & -> & T). exists x1. split; [done |].
  destruct (tick_retry _ _ _ _ _ T) as (R1 & R2 & _). destruct (tk_part _ _ _ _ _ T Hc Hm) as [_ Hd].
  split; [apply (tk_inv _ _ _ _ _ T) |]. split; [apply (tk_current _ _ _ _ _ T) |]. split; [| split; [| by split]].
  - intros i Hi. destruct (Ho i Hi) as [H | H]; [left; by apply (tk_keep _ _ _ _ _ T) |].
    apply R1, elem_of_app. right. by rewrite (tk_retry _ _ _ _ _ T Hc).
  - rewrite (tk_count _ _ _ _ _ T). unfold wrap. rewrite Z.mod_small; lia.
Qed.

Lemma ticks_converge k x : tick_inv x -> 0 <= ss_tick_count x.2 -> ss_tick_count x.2 + Z.of_nat k < 2 ^ 64 -> (605 <= k)%nat ->
  exists x', flush_ticks k x = Ret x' /\ tick_inv x' /\ sync_current (tick_system x') /\ forall i, (i < n)%nat -> clean x'.2 i.
Proof using Horder HS Hup Hn Heven Hsmall.
  intros Hx H0 Hk Hle. set (t := ss_tick_count x.2) in *. set (k0 := Z.to_nat ((- t) mod 600)).
  assert (Hk0 : (k0 <= 599)%nat) by (unfold k0; pose proof (Z.mod_pos_bound (- t) 600); lia).
  assert (Hmod : exists q, t + Z.of_nat k0 = 600 * q).
  { exists ((t + Z.of_nat k0) / 600). unfold k0. rewrite Z2Nat.id by (apply Z.mod_pos_bound; lia).
    pose proof (Z.div_mod (t + (- t) mod 600) 600 ltac:(lia)) as Hd. rewrite Zplus_mod_idemp_r, Z.add_opp_diag_r, Z.mod_0_l in Hd; lia. }
  destruct Hmod as [q Hq]. replace k with (k0 + (1 + (1 + (4 + (k - k0 - 6)))))%nat by lia.
  destruct (ticks_inv k0 x Hx H0) as (x1 & H1 & Hx1 & Ht1 & _); [lia |]. rewrite flush_ticks_app, H1. cbn [outcome_bind]. fold t in Ht1.
  unfold FULL_SCAN_INTERVAL in *. destruct (full_scan_tick x1 Hx1) as (x2 & H2 & Hx2 & Hc2 & Ho2 & Ht2).
  { rewrite Ht1, Hq, Z.mul_comm. apply Z_mod_mult. } { lia. }
  rewrite flush_ticks_app. cbn [flush_ticks]. rewrite H2. cbn [outcome_bind].
  assert (Hnm : forall j, 1 <= j < 600 -> (t + Z.of_nat k0 + j) mod FULL_SCAN_INTERVAL <> 0).
  { intros j Hj. unfold FULL_SCAN_INTERVAL. rewrite Hq, Z.add_comm, (Z.mul_comm 600), Z.mod_add, Z.mod_small by lia. lia. }
  destruct (settle_tick x2 Hx2 Hc2) as (x3 & H3 & Hx3 & Hc3 & Ho3 & Ht3 & Hlen3 & Hd3); [rewrite Ht2, Ht1; apply Hnm; lia | lia | done |].
  rewrite flush_ticks_app. cbn [flush_ticks]. rewrite H3. cbn [outcome_bind]. rewrite flush_ticks_app.
  destruct (drain_ticks 4 x3 Hx3 Hc3) as (x4 & H4 & Hx4 & Hc4 & Ht4 & Hcl4); [lia | lia | | done | unfold MAX_RETRY_SLOTS in Hlen3; lia | done |].
  { intros j Hj. replace (ss_tick_count x3.2 + j) with (t + Z.of_nat k0 + (2 + j)) by lia. apply Hnm. lia. }
  rewrite H4. cbn [outcome_bind]. destruct (ticks_inv (k - k0 - 6) x4 Hx4) as (x5 & H5 & Hx5 & _ & Hc5); [lia | lia |].
  exists x5. split; [done |]. split; [done |]. destruct (Hc5 Hc4) as [H6 H7]. split; [done |]. intros i Hi. apply H7; auto.
Qed.

(** With at most 1024 slots one pass publishes every slot that was dirty. *)
Lemma dirty_published x : tick_inv x -> (n <= MAX_PIPELINE_SLOTS)%nat -> exists x', flush_tick x = Ret x' /\
  sl_reverse_index x'.1.2 = sl_reverse_index x.1.2 /\
  forall i, i ∈ dirty_set (uw_inner (sl_writer x.1.2)) -> published (tick_system x') i.
Proof using Horder HS Hup Hn Heven.
  clear Hsmall. intros Hx Hs. destruct (tick_ok x Hx) as (x' & st1 & found & cands & Heq & T). exists x'. split; [done |].
  split; [apply (tk_rev _ _ _ _ _ T) |]. intros i Hi. destruct (tk_inv _ _ _ _ _ T) as [Hinv Hc].
  apply elem_of_dirty_set in Hi as Hlt. destruct Hlt as [Hlt _]. rewrite (proj2 Hx) in Hlt.
  apply (mk_published _ (si_marks _ Hinv (tk_current _ _ _ _ _ T))); [unfold y_count, y_writer, tick_system; cbn in *; lia |].
  apply (tk_clean _ _ _ _ _ T). assert (Hin : i ∈ found).
  { destruct (tk_found _ _ _ _ _ T) as [[-> _] | [Hf _]]; [apply elem_of_seq; lia | by apply Hf]. }
  pose proof (tk_pick _ _ _ _ _ T) as Hp. unfold pick_candidates in Hp.
  assert (Hlen : (length (sort_dedup (found ++ ss_retry_slots st1)) <= n)%nat).
  { apply sort_dedup_length. intros j Hj. by apply (proj1 (Forall_forall _ _) (tk_range _ _ _ _ _ T)). }
  rewrite (proj2 (Nat.ltb_ge _ _)) in Hp by lia. injection Hp as <- _. apply sort_dedup_elem, elem_of_app. by left.
Qed.

(** ** Slots a full scan drops *)

#[local] Opaque MAX_PIPELINE_SLOTS MAX_RETRY_SLOTS.

Lemma pick_all st found : (forall i, i ∈ found ++ ss_retry_slots st <-> (i < n)%nat) -> (MAX_PIPELINE_SLOTS + MAX_RETRY_SLOTS < n)%nat ->
  pick_candidates st found = (seq 0 MAX_PIPELINE_SLOTS, seq (n - MAX_RETRY_SLOTS) MAX_RETRY_SLOTS).
Proof.
  clear Hsmall Hn. intros Hall Hbig. unfold pick_candidates. rewrite (sort_dedup_all _ n Hall), length_seq.
  rewrite (proj2 (Nat.ltb_lt _ _)) by lia. unfold cap_retry. rewrite length_drop, length_seq, (proj2 (Nat.ltb_lt _ _)) by lia.
  rewrite take_seq, !drop_seq. f_equal; f_equal; lia.
Qed.

(** What keeps slot [i] from ever being a candidate. *)
Definition starved (i : nat) (x : W * ShmLayout C * SyncState) : Prop :=
  (i ∉ ss_retry_slots x.2) /\
  (i ∈ dirty_set (uw_inner (sl_writer x.1.2)) -> forall j, (j < n)%nat -> j ∈ dirty_set (uw_inner (sl_writer x.1.2))).

Lemma starve_tick i x x' st1 found cands : (MAX_PIPELINE_SLOTS + MAX_RETRY_SLOTS < n)%nat -> (MAX_PIPELINE_SLOTS <= i < n - MAX_RETRY_SLOTS)%nat ->
  starved i x -> ticked x x' st1 found cands -> starved i x' /\ i ∉ cands.
Proof.
  clear Hsmall Hn. intros Hbig Hi [Hr Hd] T. pose proof (tk_retry_sub _ _ _ _ _ T) as Hsub. pose proof (tk_pick _ _ _ _ _ T) as Hp.
  pose proof (proj1 (Forall_forall _ _) (tk_range _ _ _ _ _ T)) as Hrg. cbn beta in Hrg.
  assert (Hall : (forall j, (j < n)%nat -> j ∈ found) -> cands = seq 0 MAX_PIPELINE_SLOTS /\ ss_retry_slots x'.2 = seq (n - MAX_RETRY_SLOTS) MAX_RETRY_SLOTS).
  { intros Hf. rewrite pick_all in Hp; [by injection Hp as -> -> | | done]. intros j. split; [apply Hrg |]. intros Hj. apply elem_of_app. left. by apply Hf. }
  assert (Hnone : i ∉ found -> (i ∉ cands) /\ i ∉ ss_retry_slots x'.2).
  { intros Hni. assert (Hall' : i ∉ sort_dedup (found ++ ss_retry_slots st1)) by (rewrite sort_dedup_elem, elem_of_app; intros [? | ?]; [done | by apply Hr, Hsub]).
    unfold pick_candidates in Hp. destruct (_ <? _)%nat; injection Hp as <- <-.
    - split; intros Hin; apply Hall', (take_or_drop _ MAX_PIPELINE_SLOTS); [by left | right].
      unfold cap_retry in Hin. destruct (_ <? _)%nat; [eapply take_or_drop; by right | done].
    - split; [done | by intros ?%elem_of_nil]. }
  destruct (tk_found _ _ _ _ _ T) as [[-> Hd'] | [Hf Hd']].
  - destruct Hall as [-> Hr']; [intros j Hj; apply elem_of_seq; lia |]. unfold starved. rewrite Hr', Hd', !elem_of_seq. split; [split; [lia | done] | lia].
  - unfold starved. rewrite Hd'. destruct (decide (i ∈ found)) as [Hin | Hni].
    + destruct Hall as [-> ->]; [intros j Hj; apply Hf, Hd; [by apply Hf | done] |]. rewrite !elem_of_seq. split; [split; [lia | set_solver] | lia].
    + destruct (Hnone Hni). split; [split; [done | set_solver] | done].
Qed.

Lemma starve_ticks k i : forall x, tick_inv x -> (MAX_PIPELINE_SLOTS + MAX_RETRY_SLOTS < n)%nat -> (MAX_PIPELINE_SLOTS <= i < n - MAX_RETRY_SLOTS)%nat ->
  starved i x -> exists x', flush_ticks k x = Ret x' /\
    forall key f v, (key, (f, v)) ∈ fields_of f64_to_bytes g (sl_reverse_index x.1.2) rc i -> hget (rt_view x'.1.1) key f = hget (rt_view x.1.1) key f.
Proof using Horder HS Hup Hn Heven.
  clear Hsmall. induction k as [|k IH]; intros x Hx Hbig Hi Hst; cbn [flush_ticks]; [by exists x |].
  destruct (tick_ok x Hx) as (x1 & st1 & found & cands & -> & T). cbn [outcome_bind].
  destruct (starve_tick i _ _ _ _ _ Hbig Hi Hst T) as [Hst1 Hni].
  destruct (IH x1 (tk_inv _ _ _ _ _ T) Hbig Hi Hst1) as (x' & -> & Hdb). exists x'. split; [done |].
  intros key f v Hv. rewrite (Hdb key f v) by (by rewrite (tk_rev _ _ _ _ _ T)). by apply (tk_db _ _ _ _ _ T i key f v).
Qed.
End Quiet.

(** C11: the database converges to shared memory.  From any state between passes that a
    run of usual events reaches (sequence numbers do not wrap, a rebuilt layout is not at
    the address the last pass saw, a new routing cache differs in its hash from the last
    one seen, which was not zero, no two channel points feed one instance point), with no
    write under way, between 1 and 5120 slots, no reconfiguration flagged and no further
    writes, 605 passes whose calls succeed (a minute) are enough, as long as the 64-bit
    tick counter does not wrap: they all return, and afterwards the database holds the
    fields of every slot, also those written by other processes or lost in failed calls. *)
Theorem redis_converges {W} `{HR : !HashRtdb W} `{HS : !HashRtdbSpec W} (w : W) y0 y k :
  (forall (w : W) ops, (rt_pipeline_hash_mset w ops).2 = true) ->
  sync_init y0 -> rtc usual_step y0 y -> y_phase y = PIdle -> y_open y = ∅ -> rt_view w = y_db y ->
  y_count y <> 0%nat -> (y_count y <= MAX_PIPELINE_SLOTS + MAX_RETRY_SLOTS)%nat -> Z.land (SlotWriter_generation (y_seg y)) 1 <> 1 ->
  0 <= ss_tick_count (y_sync y) -> ss_tick_count (y_sync y) + Z.of_nat k < 2 ^ 64 -> (605 <= k)%nat ->
  exists w' l' st', flush_ticks (y_seg y) (y_ptr y) (y_rc y) k (w, y_layout y, y_sync y) = Ret (w', l', st') /\
    forall i, (i < y_count y)%nat -> published (mkSyncSystem (y_seg y) (y_ptr y) l' (y_rc y) st' ∅ PIdle (rt_view w')) i.
Proof using Horder.
  intros Hup H0 Hr Hph Hop Hdb Hn Hs He Ht Hk Hle. pose proof (inv_reachable _ _ H0 Hr) as Hinv. destruct y as [g ptr l rc st op ph db]. system_fields. subst ph op db.
  destruct (ticks_converge Hup g ptr rc _ Hn He Hs k (w, l, st)) as ([[w' l'] st'] & H1 & [Hi Hc] & Hcu & Hcl); try done.
  exists w', l', st'. split; [done |]. intros i Hlt. apply (mk_published _ (si_marks _ Hi Hcu)); [| by apply Hcl].
  unfold y_count, y_writer, tick_system. cbn in *. lia.
Qed.

(** With more than 5120 slots the full scan cannot heal the middle of the table: a slot
    between the first 1024 and the last 4096 that is not in the retry list, and that is not dirty (or dirty together
    with all other slots, as after a restart), is never published, however many passes run and succeed without
    further writes: its fields in the database stay as they are. *)
Theorem middle_slots_starve {W} `{HR : !HashRtdb W} `{HS : !HashRtdbSpec W} (w : W) y0 y k i :
  (forall (w : W) ops, (rt_pipeline_hash_mset w ops).2 = true) ->
  sync_init y0 -> rtc usual_step y0 y -> y_phase y = PIdle -> y_open y = ∅ -> rt_view w = y_db y ->
  Z.land (SlotWriter_generation (y_seg y)) 1 <> 1 ->
  (MAX_PIPELINE_SLOTS <= i < y_count y - MAX_RETRY_SLOTS)%nat -> i ∉ ss_retry_slots (y_sync y) ->
  (i ∈ dirty_set (y_writer y) -> forall j, (j < y_count y)%nat -> j ∈ dirty_set (y_writer y)) ->
  exists w' l' st', flush_ticks (y_seg y) (y_ptr y) (y_rc y) k (w, y_layout y, y_sync y) = Ret (w', l', st') /\
    forall key f v, (key, (f, v)) ∈ fields_of f64_to_bytes (y_seg y) (sl_reverse_index (y_layout y)) (y_rc y) i ->
      hget (rt_view w') key f = hget (y_db y) key f.
Proof using Horder.
  intros Hup H0 Hr Hph Hop Hdb He Hi Hre Hd. pose proof (inv_reachable _ _ H0 Hr) as Hinv. destruct y as [g ptr l rc st op ph db]. system_fields. subst ph op db.
  destruct (starve_ticks Hup g ptr rc (sw_slot_count (uw_inner (sl_writer l))) ltac:(lia) He k i (w, l, st)) as ([[w' l'] st'] & H1 & H2);
    [done | lia | done | done |]. exists w', l', st'. split; [done |]. exact H2.
Qed.
End System.

(** * Rebuilding the layout *)

Section Rebuild.
Context {C : Type} `{MS : !MpscSender C PointWatchEvent}.
Variable layout_hash : ChannelPointCounts -> Z.
Variable entries_of : gmap point_key nat -> list (point_key * nat).
Hypothesis Hentries : forall m, entries_of m ≡ₚ map_to_list m.

Lemma reverse_fold_get_inv slot_count es : forall r slot o, length (rsi_origins r) = slot_count ->
  ReverseSlotIndex_get (foldl (reverse_step slot_count) r es) slot = Some o -> (origin_key o, slot) ∈ es \/ ReverseSlotIndex_get r slot = Some o.
Proof.
  induction es as [|[k s] es IH]; intros r slot o Hlen Hg; cbn [foldl] in Hg; [by right |].
  apply IH in Hg as [Hin | Hg]; [by left; right | | by rewrite reverse_step_length].
  apply reverse_step_get in Hg as [(-> & _ & <-) | [_ Hg]]; [left; by left | by right | done].
Qed.

(** A layout over a fresh segment: what [ShmHandle::new] and a rebuild publish. *)
Lemma fresh_layout_sound cps ls total g (w : UnifiedWriter C) : config_ok cps -> allocate_layouts cps = Ret (ls, total) ->
  unified_wf cps g w -> (forall i, (i < total)%nat -> sg_slots g !! i = Some (PointSlot_init_unwritten zeroed_slot)) ->
  layout_sound g (ShmLayout_new entries_of w (ChannelToSlotIndex_from_unified_writer w)) /\
  forall ch pt p slot, is_uint 32 ch -> is_uint 32 p ->
    ChannelToSlotIndex_lookup (sl_index (ShmLayout_new entries_of w (ChannelToSlotIndex_from_unified_writer w))) ch pt p = Some slot <->
    ReverseSlotIndex_get (sl_reverse_index (ShmLayout_new entries_of w (ChannelToSlotIndex_from_unified_writer w))) slot = Some (mkSlotOrigin ch pt p).
Proof using Hentries.
  intros Hcfg Hal [Hst Hlay] Hslots. rewrite Hal in Hlay. injection Hlay as Hls Htot.
  destruct (allocated_layouts_ok cps ls total Hcfg Hal) as [Hok Hlen].
  unfold ShmLayout_new, ChannelToSlotIndex_from_unified_writer. rewrite <- Hls, <- Htot. cbn [sl_index sl_reverse_index].
  set (idx := ChannelToSlotIndex_from_layouts ls). set (rev := ReverseSlotIndex_from_forward _ total).
  assert (Hrev : forall i o, ReverseSlotIndex_get rev i = Some o -> csi_index idx !! origin_key o = Some i).
  { intros i [ch pt p] Ho. unfold rev, ReverseSlotIndex_from_forward in Ho. apply reverse_fold_get_inv in Ho as [Hin | Hn]; [| | apply length_replicate].
    - rewrite Hentries in Hin. by apply elem_of_map_to_list in Hin.
    - unfold ReverseSlotIndex_get in Hn. cbn in Hn. destruct (replicate total None !! i) as [o|] eqn:E; [| done].
      apply lookup_replicate in E as [-> _]. done. }
  split; [split |]; cbn [sl_writer sl_reverse_index]; fold rev.
  - done.
  - intros i [ch pt p] Ho%Hrev. by eapply (forward_keys_nonneg ls ch pt p i Hok Hlen).
  - intros i j o Hi%Hrev Hj%Hrev. congruence.
  - intros i Hi _. rewrite <- Htot in Hi. unfold publishable. by rewrite Hslots by done.
  - intros ch pt p slot Hch Hp. unfold rev, idx. rewrite (reverse_index_spec cps ls total _ slot ch pt p Hcfg Hal (Hentries _) Hch Hp).
    unfold ChannelToSlotIndex_lookup. apply forward_spec; solve_uint || done.
Qed.

(** C12: the outcomes of a rebuild, when the new configuration fits in the slots of the
    handle's configuration.  If creating, flushing or renaming the staging file fails, the
    rebuild returns an error and the handle and the canonical file stay as they were.  If
    only the re-open after the rename fails, it returns an error with the handle as it was
    while the canonical file is already the new one, which readers of the new
    configuration can open.  Otherwise the handle holds a writer over the new canonical
    file, every point of which reads as unwritten, a forward and a reverse index that are
    inverse to each other, and the signaler registered before; the synchronisation task
    may run on it. *)
Theorem rebuild_coherent (h : ShmHandle C) canonical cps e fs address ls total :
  config_ok cps -> allocate_layouts cps = Ret (ls, total) ->
  (total <= Z.to_nat (default DEFAULT_MAX_SLOTS (SharedConfig_max_slots (sh_config h))))%nat ->
  (fs_create fs && fs_flush fs && fs_rename fs = false -> exists err,
     ShmHandle_rebuild layout_hash entries_of h canonical cps e fs address = Ret (Err err, h, canonical)) /\
  (fs_create fs && fs_flush fs && fs_rename fs = true -> fs_reopen fs = false -> exists g r,
     ShmHandle_rebuild layout_hash entries_of h canonical cps e fs address = Ret (Err RebuildReopenIo, h, g) /\
     UnifiedReader_open layout_hash g cps = Ret (Ok r)) /\
  (fs_create fs && fs_flush fs && fs_rename fs = true -> fs_reopen fs = true -> exists h' g l,
     ShmHandle_rebuild layout_hash entries_of h canonical cps e fs address = Ret (Ok tt, h', g) /\
     sh_layout h' = Some (address, l) /\ sh_config h' = sh_config h /\ sh_point_watcher h' = sh_point_watcher h /\
     layout_sound g l /\ unified_wf cps g (sl_writer l) /\ uw_point_watch (sl_writer l) = sh_point_watcher h /\
     Z.land (SlotWriter_generation g) 1 <> 1 /\
     (forall i, (i < total)%nat -> SlotWriter_read_slot g (uw_inner (sl_writer l)) i = Ret (Some (mkSlotRead SLOT_UNWRITTEN_BITS SLOT_UNWRITTEN_BITS 0))) /\
     (forall ch pt p slot, is_uint 32 ch -> is_uint 32 p ->
        ChannelToSlotIndex_lookup (sl_index l) ch pt p = Some slot <->
        ReverseSlotIndex_get (sl_reverse_index l) slot = Some (mkSlotOrigin ch pt p))).
Proof using Hentries.
  intros Hcfg Hal Hfit. destruct (create_spec (C:=C) layout_hash (sh_config h) cps e ls total Hal Hfit) as
    (g & w & Hcr & [[Hcov Hrest _ _] Hlay] & _ & _ & Hls & Hcnt & Hlen & _ & Hhdr & Hslots). rewrite Hcnt in Hcov.
  pose proof (created_open_checks layout_hash g cps ls total _ _ Hal Hlen Hhdr) as Hchk.
  unfold ShmHandle_rebuild, ShmHandle_rebuild_via_swap. rewrite Hcr. cbn [outcome_bind].
  destruct fs as [f1 f2 f3 f4]. cbn [fs_create fs_flush fs_rename fs_reopen].
  split; [destruct f1, f2, f3; cbn [negb andb]; intros [=]; eauto |]. split.
  { destruct f1, f2, f3; cbn [negb andb]; intros [=] ->. cbn [negb]. eexists g, _. split; [reflexivity |]. unfold UnifiedReader_open. rewrite Hchk. reflexivity. }
  intros [[-> ->]%andb_prop ->]%andb_prop ->. cbn [negb]. unfold UnifiedWriter_open_existing. rewrite Hchk. cbn [outcome_map outcome_bind result_bind].
  cbv zeta. match goal with |- context [ChannelToSlotIndex_from_unified_writer ?x] => set (nw := x) end.
  assert (Hnw : uw_inner nw = SlotWriter_from_mmap (default DEFAULT_MAX_SLOTS (SharedConfig_max_slots (sh_config h))) total /\
    uw_channel_layouts nw = ls /\ uw_point_watch nw = sh_point_watcher h).
  { unfold nw. by destruct (sh_point_watcher h). }
  clearbody nw. destruct Hnw as (Hi & Hl & Hpw).
  assert (Huw : unified_wf cps g nw).
  { split; [| rewrite Hl, Hi; done]. rewrite Hi. split; cbn [SlotWriter_from_mmap sw_slot_count sw_dirty_words]; try done.
    - apply length_replicate.
    - apply Forall_replicate. unfold is_uint; lia. }
  destruct (fresh_layout_sound cps ls total g nw Hcfg Hal Huw Hslots) as [Hs Hidx].
  eexists _, g, _. split; [reflexivity |]. cbn [sh_layout sh_config sh_point_watcher]. split_and!; try done.
  - unfold SlotWriter_generation. rewrite Hhdr. cbn [uh_writer_generation]. pose proof (generation_seed_even e) as [Hev _].
    apply land_1_parity in Hev. rewrite Hev. done.
  - intros i Hlt. destruct (read_slot_quiet g (uw_inner nw) i (uwf_store _ _ _ Huw)) as (s & Hs' & Hr & _); [rewrite Hi; done |].
    unfold SlotWriter_read_slot. cbn [sl_writer ShmLayout_new]. rewrite Hr. rewrite Hslots in Hs' by done. by injection Hs' as <-.
Qed.
End Rebuild.

(** * Routes added to an empty cache

    The task takes a hash of zero for "no routing seen yet".  The hash of a cache without
    routes is zero as well, so the first routes of a running system are no change to it:
    a point that is not written again is never published under its instance. *)
Definition sync_hash (rc : RoutingCache) : Z := Z.of_nat (size (rc_c2m rc)).
Definition sync_routes : RoutingCache := mkRoutingCache {[ (1, Telemetry, 0) := mkC2MTarget 23 4 ]} ∅ ∅ ∅.
Definition sync_layout : ShmLayout bounded_queue :=
  ShmLayout_new map_to_list sample_writer (ChannelToSlotIndex_from_unified_writer sample_writer).
Definition reading_7 : Z := 0x401C000000000000.

(** One write, a pass without routes, then passes with them. *)
Definition late_routing (k : nat) : outcome (option string * option string) :=
  let! (g, w) := UnifiedWriter_set_direct sample_segment sample_writer 0 reading_7 reading_7 1700 in
  let l := mkShmLayout w (sl_index sync_layout) (sl_reverse_index sync_layout) in
  let! (db, l, st) := flush_ticks print_i64 sync_hash id g 4096 RoutingCache_new 1 (MemoryRtdb_new, l, ShmRedisSync_new 9) in
  let! (db, l, st) := flush_ticks print_i64 sync_hash id g 4096 sync_routes k (db, l, st) in
  Ret (MemoryRtdb_hash_get db (channel_key 1 Telemetry) "0", MemoryRtdb_hash_get db (instance_measurement_key 23) "4").

Theorem first_routes_not_published :
  late_routing 700 = Ret (Some (print_i64 reading_7), None).
Proof. vm_compute. reflexivity. Qed.

(** * A layout at a known address

    The task tells layouts apart by the address of their [Arc] and holds no reference to
    the one it saw last.  After two rebuilds between two passes the new layout can be at
    that address; a slot of the new file that has been written as often as the old one
    was when it was published then counts as published. *)
Definition reused_address (k : nat) : outcome (option string) :=
  let! (g, w) := UnifiedWriter_set_direct sample_segment sample_writer 0 reading_7 reading_7 1700 in
  let l := mkShmLayout w (sl_index sync_layout) (sl_reverse_index sync_layout) in
  let! (db, l, st) := flush_ticks print_i64 sync_hash id g 4096 sync_routes 1 (MemoryRtdb_new, l, ShmRedisSync_new 9) in
  let! (g, w) := UnifiedWriter_set_direct sample_segment sample_writer 0 f64_one f64_one 1800 in
  let l := mkShmLayout w (sl_index sync_layout) (sl_reverse_index sync_layout) in
  let! (db, l, st) := flush_ticks print_i64 sync_hash id g 4096 sync_routes k (db, l, st) in
  Ret (MemoryRtdb_hash_get db (channel_key 1 Telemetry) "0").

Theorem reused_address_not_published : reused_address 700 = Ret (Some (print_i64 reading_7)).
Proof. vm_compute. reflexivity. Qed.

(** * Witnesses *)

Lemma sync_config_ok : config_ok sample_counts.
Proof. split; [apply sample_counts_wf |]. repeat constructor; simpl; lia. Qed.

Lemma sync_routes_ok : routes_ok sync_routes.
Proof.
  unfold sync_routes. split; cbn [rc_c2m].
  - intros k t Ht. apply lookup_singleton_Some in Ht as [_ <-]. split; cbn; unfold is_uint; lia.
  - intros k1 k2 t H1 H2. apply lookup_singleton_Some in H1 as [<- _], H2 as [<- _]. done.
Qed.

Definition sync_y0 : SyncSystem := mkSyncSystem sample_segment 4096 sync_layout sync_routes (ShmRedisSync_new 9) ∅ PIdle ∅.

Lemma sync_y0_init : sync_init sync_y0.
Proof.
  split; [| split; [apply sync_routes_ok | split; [done | split; [by exists 9%nat | done]]]].
  apply (fresh_layout_sound map_to_list (fun m => reflexivity _) sample_counts sample_layouts 9);
    [apply sync_config_ok | vm_compute; reflexivity | apply sample_unified_wf |].
  intros i Hi. do 9 (destruct i as [|i]; [reflexivity |]). lia.
Qed.

(** Slot 0 is written, a pass scans it, its call succeeds. *)
Definition sync_written : Segment * UnifiedWriter bounded_queue :=
  Eval vm_compute in
  match UnifiedWriter_set_direct sample_segment sample_writer 0 reading_7 reading_7 1700 with
  | Ret x => x | Panic => (sample_segment, sample_writer) end.
Definition sync_g1 : Segment := Eval vm_compute in sync_written.1.
Definition sync_w1 : UnifiedWriter bounded_queue := Eval vm_compute in sync_written.2.
Definition sync_y1 : SyncSystem := mkSyncSystem sync_g1 4096 (with_writer sync_layout sync_w1) sync_routes (ShmRedisSync_new 9) ∅ PIdle ∅.
Definition sync_flown : UnifiedWriter bounded_queue * SyncState * option (HashMsetOps * list (nat * Z)) :=
  Eval vm_compute in
  match flush_begin print_i64 sync_hash id sync_g1 (Some (4096, with_writer sync_layout sync_w1)) sync_routes (ShmRedisSync_new 9) with
  | Ret (inl r) => r | _ => (sync_w1, ShmRedisSync_new 9, None) end.
Definition sync_y2 : SyncSystem := mkSyncSystem sync_g1 4096 (with_writer (with_writer sync_layout sync_w1) sync_flown.1.1) sync_routes sync_flown.1.2 ∅ (phase_of sync_flown.2) ∅.
Definition sync_landed : SyncState :=
  Eval vm_compute in match flush_finish sync_flown.1.2 (default ([], []) sync_flown.2).2 true with Ret st => st | Panic => ShmRedisSync_new 9 end.
Definition sync_y3 : SyncSystem :=
  mkSyncSystem sync_g1 4096 (with_writer (with_writer sync_layout sync_w1) sync_flown.1.1) sync_routes sync_landed ∅ PIdle (mset_ops ∅ (default ([], []) sync_flown.2).1).

Lemma sync_y1_reached : rtc (usual_step print_i64 sync_hash id) sync_y0 sync_y1.
Proof.
  apply (set_direct_run print_i64 sync_hash id sample_segment 4096 sync_layout sync_routes (ShmRedisSync_new 9) ∅ PIdle ∅ 0 reading_7 reading_7 1700).
  - vm_compute. reflexivity.
  - set_solver.
  - vm_compute. reflexivity.
Qed.

Lemma sync_y3_reached : rtc (usual_step print_i64 sync_hash id) sync_y0 sync_y3.
Proof.
  etransitivity; [apply sync_y1_reached |]. apply (rtc_r _ sync_y2 _).
  - apply (flush_begin_run print_i64 sync_hash id).
    + apply (inv_reachable print_i64 sync_hash id (fun l => reflexivity l) sync_y0 sync_y1 sync_y0_init sync_y1_reached).
    + vm_compute. reflexivity.
  - exists EvPass. split; [done |]. apply (Sync_success print_i64 sync_hash id). vm_compute. reflexivity.
Qed.

Lemma sync_marks_are_published_witness :
  ss_last_seq (y_sync sync_y3) !! 0%nat = Some (slot_seq (y_seg sync_y3) 0) /\
  hget (y_db sync_y3) (instance_measurement_key 23) "4" = Some (print_i64 reading_7).
Proof.
  split; [vm_compute; reflexivity |].
  destruct (sync_marks_are_published print_i64 sync_hash id (fun l => reflexivity l) sync_y0 sync_y3 sync_y0_init sync_y3_reached) as (_ & H).
  apply (H (conj eq_refl eq_refl) 0%nat); [vm_compute; lia | vm_compute; reflexivity |].
  apply list_elem_of_lookup_2 with (i := 3%nat). vm_compute. reflexivity.
Defined.

Lemma redis_converges_witness : exists w' l' st',
  flush_ticks print_i64 sync_hash id sync_g1 4096 sync_routes 605 (MemoryRtdb_new, y_layout sync_y1, y_sync sync_y1) = Ret (w', l', st') /\
  published print_i64 (mkSyncSystem sync_g1 4096 l' sync_routes st' ∅ PIdle (rt_view w')) 0.
Proof.
  destruct (redis_converges print_i64 sync_hash id (fun l => reflexivity l) MemoryRtdb_new sync_y0 sync_y1 605) as (w' & l' & st' & H1 & H2);
    [done | apply sync_y0_init | apply sync_y1_reached | done | done | done | done | apply Nat.leb_le; vm_compute; reflexivity | done | done | done | lia |].
  exists w', l', st'. split; [exact H1 |]. apply H2. vm_compute. lia.
Defined.

(** 5121 slots, all written by another process. *)
Definition big_count : nat := Z.to_nat 5121.
Definition big_segment : Segment :=
  mkSegment (calculate_file_size 5121) (sg_header sample_segment) (replicate big_count (PointSlot_set PointSlot_new f64_one f64_one 1700)).
Definition big_origin (i : nat) : option SlotOrigin := Some (mkSlotOrigin 7 Telemetry (Z.of_nat i)).
Definition big_layout : ShmLayout bounded_queue :=
  mkShmLayout (mkUnifiedWriter (SlotWriter_from_mmap 5121 big_count) [] None) (mkChannelToSlotIndex ∅ 0)
    (mkReverseSlotIndex (big_origin <$> seq 0 big_count) big_count).
Definition big_system : SyncSystem := mkSyncSystem big_segment 4096 big_layout sync_routes (ShmRedisSync_new big_count) ∅ PIdle ∅.

Lemma big_get i : ReverseSlotIndex_get (sl_reverse_index big_layout) i = if decide (i < big_count)%nat then big_origin i else None.
Proof.
  unfold ReverseSlotIndex_get. cbn [big_layout sl_reverse_index rsi_origins]. rewrite list_lookup_fmap. case_decide.
  - by rewrite lookup_seq_lt.
  - by rewrite lookup_seq_ge by lia.
Qed.

Lemma big_slot i : (i < big_count)%nat -> sg_slots big_segment !! i = Some (PointSlot_set PointSlot_new f64_one f64_one 1700).
Proof. intros Hi. by apply lookup_replicate_2. Qed.

Lemma big_system_init : sync_init big_system.
Proof.
  split; [| split; [apply sync_routes_ok | split; [done | split; [by exists big_count | done]]]]. split.
  - split; cbn [big_system y_seg y_layout big_segment big_layout sl_writer uw_inner SlotWriter_from_mmap sw_slot_count sw_dirty_words sg_slots].
    + by rewrite length_replicate.
    + apply Forall_replicate. split; [split; [vm_compute; congruence | vm_compute; reflexivity] | reflexivity].
    + apply length_replicate.
    + apply Forall_replicate. unfold is_uint; lia.
  - intros i o. rewrite big_get. case_decide; [| done]. intros [= <-]. unfold big_count in *. split; cbn; unfold is_uint; lia.
  - intros i j o. rewrite !big_get. do 2 (case_decide; [| done]). intros [= <-] [= E]. lia.
  - intros i Hi. unfold slot_seq. cbn [big_system y_seg]. rewrite (big_slot i) by done. done.
Qed.

Lemma middle_slots_starve_witness : exists w' l' st',
  flush_ticks print_i64 sync_hash id big_segment 4096 sync_routes 1200 (MemoryRtdb_new, big_layout, ShmRedisSync_new big_count) = Ret (w', l', st') /\
  hget (rt_view w') (channel_key 7 Telemetry) "1024" = None.
Proof.
  destruct (middle_slots_starve print_i64 sync_hash id (fun l => reflexivity l) MemoryRtdb_new big_system big_system 1200 (Z.to_nat 1024))
    as (w' & l' & st' & H1 & H2);
    [done | apply big_system_init | done | done | done | done | done | | apply not_elem_of_nil | |].
  - unfold y_count, y_writer, big_system, MAX_PIPELINE_SLOTS, MAX_RETRY_SLOTS. cbn [y_layout big_layout sl_writer uw_inner SlotWriter_from_mmap sw_slot_count].
    unfold MAX_PIPELINE_SLOTS, big_count. lia.
  - rewrite elem_of_dirty_set. cbn [y_writer big_system y_layout big_layout sl_writer uw_inner SlotWriter_from_mmap sw_dirty_words].
    unfold new_dirty_words. rewrite words_test_replicate. intros [_ H]. discriminate H.
  - exists w', l', st'. split; [exact H1 |]. apply (H2 _ _ (print_i64 f64_one)).
    assert (Hlt : (Z.to_nat 1024 < big_count)%nat) by (unfold big_count; lia).
    unfold fields_of, publishable. cbn [big_system y_seg y_layout y_rc]. rewrite big_slot, big_get, decide_True by done. left.
Defined.

Lemma rebuild_coherent_witness : exists h' g l,
  ShmHandle_rebuild sample_hash map_to_list (mkShmHandle None sample_cfg (Some sample_signaler)) sample_segment sample_counts sample_env (mkRebuildFs true true true true) 8192
    = Ret (Ok tt, h', g) /\ sh_layout h' = Some (8192, l) /\ uw_point_watch (sl_writer l) = Some sample_signaler.
Proof.
  destruct (rebuild_coherent sample_hash map_to_list (fun m => reflexivity _) (mkShmHandle None sample_cfg (Some sample_signaler))
    sample_segment sample_counts sample_env (mkRebuildFs true true true true) 8192 sample_layouts 9 sync_config_ok) as (_ & _ & H);
    [vm_compute; reflexivity | apply Nat.leb_le; vm_compute; reflexivity |].
  destruct (H eq_refl eq_refl) as (h' & g & l & H1 & H2 & _ & _ & _ & _ & H3 & _). exists h', g, l. split; [exact H1 |]. split; [exact H2 | exact H3].
Defined.
