(* ===== verification/Validation.v ===== *)
(** Value and name validation: [libs/voltage-model/src/validation.rs].

    An [f64] is its bit pattern; a name is the list of its Unicode code points,
    whose [len()] is the length of the UTF-8 encoding. *)
From stdpp Require Import base numbers list.
From Stdlib Require Import ZArith Lia.
From S2P Require Import Prelude.
Local Open Scope Z_scope.
Set Warnings "-clear-no-such-hyp".

(** * Numeric values *)

Record ValidationConfig := mkValidationConfig {
  vc_reject_nan : bool;
  vc_reject_infinity : bool;
  vc_max_abs_value : option Z
}.

Definition ValidationConfig_default : ValidationConfig := mkValidationConfig true true None.
(** [1e15] *)
Definition f64_1e15 : Z := 0x430C6BF526340000.
Definition ValidationConfig_strict : ValidationConfig := mkValidationConfig true true (Some f64_1e15).
Definition ValidationConfig_permissive : ValidationConfig := ValidationConfig_default.
Definition ValidationConfig_allow_all : ValidationConfig := mkValidationConfig false false None.

Inductive ValueValidationError :=
| ValueNaN
| ValueInfinity
| ValueOutOfRange (value max : Z).

Definition validate_value (value : Z) (config : ValidationConfig) : result Z ValueValidationError :=
  if vc_reject_nan config && f64_is_nan value then Err ValueNaN
  else if vc_reject_infinity config && f64_is_infinite value then Err ValueInfinity
  else
    match vc_max_abs_value config with
    | Some max => if f64_ltb max (f64_abs value) then Err (ValueOutOfRange value max) else Ok value
    | None => Ok value
    end.

Definition is_value_valid (value : Z) (config : ValidationConfig) : bool :=
  match validate_value value config with Ok _ => true | Err _ => false end.

Definition sanitize_value (value dflt : Z) (config : ValidationConfig) : Z :=
  match validate_value value config with Ok v => v | Err _ => dflt end.

(** * Names *)

Definition utf8_len (c : Z) : Z :=
  if c <? 0x80 then 1 else if c <? 0x800 then 2 else if c <? 0x10000 then 3 else 4.
Definition str_len (name : list Z) : Z := foldr (fun c n => utf8_len c + n) 0 name.

(** [char::is_control]: the general category Cc. *)
Definition is_control (c : Z) : bool := (c <? 0x20) || ((0x7F <=? c) && (c <? 0xA0)).

(** Slash, backslash, colon, star, question mark, double quote, angle brackets, bar. *)
Definition FORBIDDEN_CHARS : list Z := [0x2F; 0x5C; 0x3A; 0x2A; 0x3F; 0x22; 0x3C; 0x3E; 0x7C].

Definition is_ascii_alphanumeric (c : Z) : bool :=
  ((0x30 <=? c) && (c <=? 0x39)) || ((0x41 <=? c) && (c <=? 0x5A)) || ((0x61 <=? c) && (c <=? 0x7A)).

Inductive NameError :=
| NameEmpty
| NameTooLong (len : Z)
| NameControl
| NameForbidden (c : Z)
| NameInvalidChar.

(** The loop over the characters: the first offending one decides. *)
Fixpoint check_chars (name : list Z) : result unit NameError :=
  match name with
  | [] => Ok tt
  | c :: name =>
      if is_control c then Err NameControl
      else if existsb (Z.eqb c) FORBIDDEN_CHARS then Err (NameForbidden c)
      else check_chars name
  end.

Definition validate_instance_name (name : list Z) : result unit NameError :=
  match name with
  | [] => Err NameEmpty
  | _ => if 64 <? str_len name then Err (NameTooLong (str_len name)) else check_chars name
  end.

Definition validate_product_name (name : list Z) : result unit NameError :=
  match name with
  | [] => Err NameEmpty
  | _ => if 64 <? str_len name then Err (NameTooLong (str_len name)) else check_chars name
  end.

Definition validate_calculation_id (id : list Z) : result unit NameError :=
  match id with
  | [] => Err NameEmpty
  | _ =>
      if 128 <? str_len id then Err (NameTooLong (str_len id))
      else if forallb (fun c => is_ascii_alphanumeric c || (c =? 0x5F) || (c =? 0x2D) || (c =? 0x2E)) id
      then Ok tt else Err NameInvalidChar
  end.

Example f64_1e15_ok : f64_1e15 = f64_of_Z (10 ^ 15).
Proof. vm_compute. reflexivity. Qed.

(** * Lemmas *)
Lemma nan_or_inf_not_finite v : f64_is_finite v = negb (f64_is_nan v || f64_is_infinite v).
Proof.
  unfold f64_is_finite, f64_is_nan, f64_is_infinite.
  by destruct (f64_exponent v =? 0x7FF), (f64_fraction v =? 0).
Qed.

Lemma validate_default v : validate_value v ValidationConfig_default =
  if f64_is_finite v then Ok v else if f64_is_nan v then Err ValueNaN else Err ValueInfinity.
Proof.
  unfold validate_value. cbn [ValidationConfig_default vc_reject_nan vc_reject_infinity vc_max_abs_value andb].
  rewrite nan_or_inf_not_finite. by destruct (f64_is_nan v), (f64_is_infinite v).
Qed.

Lemma check_chars_ok name : check_chars name = Ok tt <->
  Forall (fun c => is_control c = false /\ c ∉ FORBIDDEN_CHARS) name.
Proof.
  induction name as [|c name IH]; cbn [check_chars]; [done |].
  rewrite Forall_cons, <- IH. destruct (is_control c); [naive_solver |].
  destruct (existsb (Z.eqb c) FORBIDDEN_CHARS) eqn:E.
  - apply existsb_exists in E as (x & Hin & ->%Z.eqb_eq). apply list_elem_of_In in Hin.
    split; [done |]. intros [[_ H] _]. by destruct H.
  - split; [|tauto]. intros H. split; [|done]. split; [done |]. intros Hin.
    assert (existsb (Z.eqb c) FORBIDDEN_CHARS = true); [|congruence].
    apply existsb_exists. exists c. split; [by apply list_elem_of_In | apply Z.eqb_refl].
Qed.

(** The default validation passes exactly the finite values, unchanged, and a
    configuration that rejects NaN and infinity never passes a non-finite value
    whatever its range limit. *)
Theorem validation_rejects_non_finite :
  (forall v, validate_value v ValidationConfig_default = Ok v <-> f64_is_finite v = true) /\
  (forall v v' config, vc_reject_nan config = true -> vc_reject_infinity config = true ->
     validate_value v config = Ok v' -> v' = v /\ f64_is_finite v = true) /\
  (forall v d config, is_value_valid v config = false -> sanitize_value v d config = d).
Proof.
  split; [|split].
  - intros v. rewrite validate_default. destruct (f64_is_finite v); [done |]. by destruct (f64_is_nan v).
  - intros v v' config Hn Hi. unfold validate_value. rewrite Hn, Hi, nan_or_inf_not_finite. cbn [andb].
    destruct (f64_is_nan v), (f64_is_infinite v); try done.
    destruct (vc_max_abs_value config) as [max |]; [destruct (f64_ltb max (f64_abs v)) |]; naive_solver.
  - intros v d config. unfold is_value_valid, sanitize_value. by destruct (validate_value v config).
Qed.

(** A name is accepted exactly when it is non-empty, at most 64 UTF-8 bytes
    long, and free of control characters and of the nine forbidden characters. *)
Theorem instance_name_accepted name :
  validate_instance_name name = Ok tt <->
  name <> [] /\ str_len name <= 64 /\ Forall (fun c => is_control c = false /\ c ∉ FORBIDDEN_CHARS) name.
Proof.
  unfold validate_instance_name. destruct name as [|c name]; [naive_solver |].
  destruct (Z.ltb_spec 64 (str_len (c :: name))) as [Hlt | Hle].
  - split; [done |]. intros (_ & ? & _). lia.
  - rewrite check_chars_ok. naive_solver.
Qed.

(** The length limit counts UTF-8 bytes, not characters: a name of 22 CJK
    characters is refused as too long although it has fewer than 64 characters. *)
Theorem name_limit_is_in_bytes :
  let name := replicate 22 0x8D1F in
  length name = 22%nat /\ Forall (fun c => is_control c = false /\ c ∉ FORBIDDEN_CHARS) name /\
  validate_instance_name name = Err (NameTooLong 66).
Proof.
  cbv zeta. split; [reflexivity |]. split; [|vm_compute; reflexivity].
  apply Forall_replicate. split; [reflexivity |]. unfold FORBIDDEN_CHARS. rewrite !elem_of_cons, elem_of_nil. lia.
Qed.

Lemma validation_rejects_non_finite_witness :
  validate_value f64_one ValidationConfig_default = Ok f64_one /\
  f64_is_finite f64_one = true.
Proof.
  split; [reflexivity |].
  apply (proj1 (proj2 validation_rejects_non_finite) f64_one f64_one ValidationConfig_strict);
    reflexivity.
Defined.
