(* ===== verification/Listener.v ===== *)
(** The command listener of comsrv:
    [services/comsrv/src/core/channels/shm_listener.rs] (and [ChannelCommand] of
    [core/channels/types.rs]).

    [handle_notification] filters duplicate and stale command events per point,
    validates the value and hands a command to the channel.  The outcome of
    [send] under its 50 ms timeout is decided by the environment: a parameter.
    [handle_connection] decodes a byte stream with the frames of Wire.v.

    The accept loop spawns one task per connection; [listener_step] interleaves them.
    A task's step is the handling of one event up to the send ([receive_event]: the
    entry update under the lock of its map entry, the validation, the command), or
    the sender lookup and the end of that send ([send_fate]), or the end of the task
    (shutdown or a read error).  [ls_last_sequences], [ls_dropped_count] and what the
    channels received are shared; [sy_accepted] and [sy_log] record the run. *)
From stdpp Require Import base numbers list gmap strings pretty sorting.
From Stdlib Require Import ZArith Lia.
From S2P Require Import Prelude PointTypes Wire Validation.
Local Open Scope Z_scope.

(** * Data *)

(** Commands of [types.rs]; the listener builds the first two. *)
Inductive ChannelCommand :=
| CmdControl (command_id : string) (point_id value timestamp : Z)
| CmdAdjustment (command_id : string) (point_id value timestamp : Z)
| CmdBatchControl (command_id : string) (points : list (Z * Z)) (timestamp : Z)
| CmdBatchAdjustment (command_id : string) (points : list (Z * Z)) (timestamp : Z).

(** (channel, point type byte, point). *)
Abbreviation seq_key := (Z * Z * Z)%type.

Record ListenerState := mkListenerState {
  ls_last_sequences : gmap seq_key (Z * Z);
  ls_dropped_count : Z;
  ls_sent : list (Z * ChannelCommand)
}.

(** Outcome of [timeout(50ms, sender.send(command))]. *)
Inductive SendOutcome := SendOk | SendClosed | SendTimeout.

(** * Command ids: [uds-{producer_id:016x}-{seq}] *)

Definition hex_digit (d : Z) : Ascii.ascii :=
  Ascii.ascii_of_nat (Z.to_nat (if d <? 10 then 48 + d else 87 + d)).

(** Fixed-width lower-case hexadecimal, most significant digit first. *)
Fixpoint hex_digits (n : nat) (z : Z) (acc : string) : string :=
  match n with
  | O => acc
  | S n => hex_digits n (Z.shiftr z 4) (String (hex_digit (Z.land z 15)) acc)
  end.

Definition format_command_id (producer_id seq : Z) : string :=
  "uds-" +:+ hex_digits 16 producer_id "" +:+ "-" +:+ pretty (Z.to_N seq).

Definition ShmCommandListener_build_command (pt : PointType) (point_id value timestamp producer_id seq : Z)
    : ChannelCommand :=
  let command_id := format_command_id producer_id seq in
  match pt with
  | Control => CmdControl command_id point_id value timestamp
  | _ => CmdAdjustment command_id point_id value timestamp
  end.

(** * Handling one event *)

(** [notif.seq.wrapping_sub(last_seq) > u64::MAX / 2] *)
Definition seq_is_stale (seq last_seq : Z) : bool := (2 ^ 64 - 1) / 2 <? wrapping_sub 64 seq last_seq.

(** The entry update: [None] when the event is stale or a duplicate. *)
Definition accept_sequence (last : gmap seq_key (Z * Z)) (n : ShmNotification)
    : option (gmap seq_key (Z * Z)) :=
  let key := (sn_channel_id n, sn_point_type n, sn_point_id n) in
  let entry := (sn_producer_id n, sn_seq n) in
  match last !! key with
  | Some (last_producer, last_seq) =>
      let same_producer := last_producer =? sn_producer_id n in
      if same_producer && seq_is_stale (sn_seq n) last_seq then None
      else if same_producer && (sn_seq n =? last_seq) then None
      else Some (<[key := entry]> last)
  | None => Some (<[key := entry]> last)
  end.

Section Listener.
(** Registered channels (DashMap of senders), and what each [send] returns. *)
Variable registered : Z -> bool.
Variable send_outcome : Z -> ChannelCommand -> SendOutcome.

Definition ShmCommandListener_handle_notification (s : ListenerState) (n : ShmNotification) : ListenerState :=
  match ShmNotification_get_point_type n with
  | None => s
  | Some pt =>
      match accept_sequence (ls_last_sequences s) n with
      | None => s
      | Some last =>
          match validate_value (ShmNotification_value n) ValidationConfig_default with
          | Err _ => mkListenerState last (ls_dropped_count s) (ls_sent s)
          | Ok value =>
              let command := ShmCommandListener_build_command pt (sn_point_id n) value
                               (to_signed 64 (sn_timestamp_ms n)) (sn_producer_id n) (sn_seq n) in
              if registered (sn_channel_id n) then
                match send_outcome (sn_channel_id n) command with
                | SendOk => mkListenerState last (ls_dropped_count s) (ls_sent s ++ [(sn_channel_id n, command)])
                | SendClosed => mkListenerState last (ls_dropped_count s) (ls_sent s)
                | SendTimeout => mkListenerState last (wrapping_add 64 (ls_dropped_count s) 1) (ls_sent s)
                end
              else mkListenerState last (ls_dropped_count s) (ls_sent s)
          end
      end
  end.

Definition ListenerState_new : ListenerState := mkListenerState ∅ 0 [].

(** The read loop of one connection, up to end of file. *)
Definition ShmCommandListener_handle_connection (s : ListenerState) (stream : list Z) : ListenerState :=
  foldl ShmCommandListener_handle_notification s (read_frames (FR:=notification_frame) stream).

(** * The connections as concurrent tasks *)

(** What becomes of an event: of no command type, filtered, not finite, no sender,
    handed to the channel, channel closed, channel full for 50 ms, or not read
    before its task ended. *)
Inductive Fate := FIgnored | FStale | FInvalid | FUnregistered | FHanded | FClosed | FFull | FUnread.

(** [handle_notification] up to the sender lookup. *)
Definition receive_event (last : gmap seq_key (Z * Z)) (n : ShmNotification)
    : gmap seq_key (Z * Z) * (Fate + ChannelCommand) :=
  match ShmNotification_get_point_type n with
  | None => (last, inl FIgnored)
  | Some pt =>
      match accept_sequence last n with
      | None => (last, inl FStale)
      | Some last =>
          match validate_value (ShmNotification_value n) ValidationConfig_default with
          | Err _ => (last, inl FInvalid)
          | Ok value => (last, inr (ShmCommandListener_build_command pt (sn_point_id n) value
                               (to_signed 64 (sn_timestamp_ms n)) (sn_producer_id n) (sn_seq n)))
          end
      end
  end.

(** The sender lookup and the send. *)
Definition send_fate (registered : bool) (o : SendOutcome) : Fate :=
  if registered then match o with SendOk => FHanded | SendClosed => FClosed | SendTimeout => FFull end
  else FUnregistered.
Definition finish_send (s : ListenerState) (channel_id : Z) (command : ChannelCommand) (f : Fate) : ListenerState :=
  match f with
  | FHanded => mkListenerState (ls_last_sequences s) (ls_dropped_count s) (ls_sent s ++ [(channel_id, command)])
  | FFull => mkListenerState (ls_last_sequences s) (wrapping_add 64 (ls_dropped_count s) 1) (ls_sent s)
  | _ => s
  end.
Definition set_last (s : ListenerState) (last : gmap seq_key (Z * Z)) : ListenerState :=
  mkListenerState last (ls_dropped_count s) (ls_sent s).

(** A task: the events it has still to read, and the one it is sending. *)
Record ConnTask := mkConnTask {
  ct_stream : list ShmNotification;
  ct_sending : option (ShmNotification * ChannelCommand)
}.
Record ListenerSystem := mkListenerSystem {
  sy_shared : ListenerState;
  sy_tasks : list ConnTask;
  sy_accepted : list (nat * ShmNotification);
  sy_log : list (nat * (ShmNotification * Fate))
}.
Definition spawn_tasks (streams : list (list Z)) : ListenerSystem :=
  mkListenerSystem ListenerState_new
    (map (fun bytes => mkConnTask (read_frames (FR:=notification_frame) bytes) None) streams) [] [].

(** What the scheduler and the environment choose at a step. *)
Inductive TaskEvent :=
| TaskReads (conn : nat)
| TaskSends (conn : nat) (registered : bool) (o : SendOutcome)
| TaskStops (conn : nat).

Definition passed_filter (f : Fate) : bool :=
  match f with FIgnored | FStale | FUnread => false | _ => true end.

(** One step of one task; a step its task is not ready for changes nothing. *)
Definition listener_step (y : ListenerSystem) (e : TaskEvent) : ListenerSystem :=
  match e with
  | TaskReads i =>
      match sy_tasks y !! i with
      | Some (mkConnTask (n :: rest) None) =>
          match receive_event (ls_last_sequences (sy_shared y)) n with
          | (last, inl f) =>
              mkListenerSystem (set_last (sy_shared y) last) (<[i := mkConnTask rest None]> (sy_tasks y))
                (if passed_filter f then sy_accepted y ++ [(i, n)] else sy_accepted y) (sy_log y ++ [(i, (n, f))])
          | (last, inr c) =>
              mkListenerSystem (set_last (sy_shared y) last) (<[i := mkConnTask rest (Some (n, c))]> (sy_tasks y))
                (sy_accepted y ++ [(i, n)]) (sy_log y)
          end
      | _ => y
      end
  | TaskSends i registered o =>
      match sy_tasks y !! i with
      | Some (mkConnTask rest (Some (n, c))) =>
          let f := send_fate registered o in
          mkListenerSystem (finish_send (sy_shared y) (sn_channel_id n) c f) (<[i := mkConnTask rest None]> (sy_tasks y))
            (sy_accepted y) (sy_log y ++ [(i, (n, f))])
      | _ => y
      end
  | TaskStops i =>
      match sy_tasks y !! i with
      | Some (mkConnTask rest None) =>
          mkListenerSystem (sy_shared y) (<[i := mkConnTask [] None]> (sy_tasks y)) (sy_accepted y)
            (sy_log y ++ map (fun n => (i, (n, FUnread))) rest)
      | _ => y
      end
  end.
Definition run_tasks (y : ListenerSystem) (schedule : list TaskEvent) : ListenerSystem := foldl listener_step y schedule.

(** * Lemmas *)

Definition key_of (n : ShmNotification) : seq_key := (sn_channel_id n, sn_point_type n, sn_point_id n).

(** Which notifications of a run pass the sequence filter, in order. *)
Fixpoint accepted (last : gmap seq_key (Z * Z)) (ns : list ShmNotification) : list ShmNotification :=
  match ns with
  | [] => []
  | n :: ns =>
      match ShmNotification_get_point_type n with
      | None => accepted last ns
      | Some _ =>
          match accept_sequence last n with
          | None => accepted last ns
          | Some last' => n :: accepted last' ns
          end
      end
  end.

(** What one accepted event contributes to the sent commands. *)
Definition sent_by (n : ShmNotification) : list (Z * ChannelCommand) :=
  match ShmNotification_get_point_type n with
  | None => []
  | Some pt =>
      let command := ShmCommandListener_build_command pt (sn_point_id n) (sn_value_bits n)
                       (to_signed 64 (sn_timestamp_ms n)) (sn_producer_id n) (sn_seq n) in
      if f64_is_finite (sn_value_bits n) && registered (sn_channel_id n) then
        match send_outcome (sn_channel_id n) command with
        | SendOk => [(sn_channel_id n, command)]
        | _ => []
        end
      else []
  end.

Lemma handle_notification_spec s n :
  let s' := ShmCommandListener_handle_notification s n in
  match ShmNotification_get_point_type n, accept_sequence (ls_last_sequences s) n with
  | Some _, Some last => ls_last_sequences s' = last /\ ls_sent s' = ls_sent s ++ sent_by n
  | _, _ => s' = s
  end.
Proof using.
  cbv zeta. unfold ShmCommandListener_handle_notification, sent_by, ShmNotification_value.
  destruct (ShmNotification_get_point_type n) as [pt |]; [|done].
  destruct (accept_sequence (ls_last_sequences s) n) as [last |]; [|done].
  rewrite validate_default. destruct (f64_is_finite (sn_value_bits n)); cbn [andb].
  - destruct (registered (sn_channel_id n)); [|by rewrite app_nil_r].
    destruct (send_outcome _ _); cbn; split; done || by rewrite app_nil_r.
  - destruct (f64_is_nan (sn_value_bits n)); cbn; by rewrite app_nil_r.
Qed.

Lemma run_sent ns : forall s,
  ls_sent (foldl ShmCommandListener_handle_notification s ns) =
  ls_sent s ++ concat (map sent_by (accepted (ls_last_sequences s) ns)).
Proof using.
  induction ns as [|n ns IH]; intros s; cbn [foldl accepted]; [by rewrite app_nil_r |].
  rewrite IH. pose proof (handle_notification_spec s n) as H. cbv zeta in H.
  destruct (ShmNotification_get_point_type n) as [pt |]; [|by rewrite H].
  destruct (accept_sequence (ls_last_sequences s) n) as [last |]; [|by rewrite H].
  destruct H as [-> ->]. cbn [map concat]. by rewrite <- app_assoc.
Qed.
End Listener.

(** * Order and uniqueness of accepted events *)

(** The place of a counter in the window of [2^63] counters that starts at [b]; a
    producer's counter wraps at [2^64]. *)
Definition place (b q : Z) : Z := wrapping_sub 64 q b.
Definition from_window (P b : Z) (n : ShmNotification) : Prop :=
  sn_producer_id n = P /\ is_uint 64 (sn_seq n) /\ place b (sn_seq n) < 2 ^ 63.

Lemma place_difference b x y : wrapping_sub 64 y x = wrap 64 (place b y - place b x).
Proof.
  unfold place, wrapping_sub, wrap. rewrite <- Zminus_mod. f_equal. lia.
Qed.
Lemma place_nonneg b x : 0 <= place b x.
Proof. apply (wrap_uint 64). lia. Qed.
Lemma place_inj b x y : is_uint 64 x -> is_uint 64 y -> place b x = place b y -> x = y.
Proof.
  intros Hx Hy E. pose proof (place_difference b y x) as H. rewrite E, Z.sub_diag in H.
  unfold wrapping_sub, wrap, is_uint in *. change (0 mod 2 ^ 64) with 0 in H. apply Z.mod_divide in H as [k Hk]; [| done]. nia.
Qed.

Lemma seq_filter_order b seq last : is_uint 64 seq -> is_uint 64 last ->
  place b seq < 2 ^ 63 -> place b last < 2 ^ 63 ->
  seq_is_stale seq last || (seq =? last) = (place b seq <=? place b last).
Proof.
  intros Hs Hl Hps Hpl. pose proof (place_nonneg b seq). pose proof (place_nonneg b last).
  unfold seq_is_stale. rewrite (place_difference b). unfold wrap.
  change ((2 ^ 64 - 1) / 2) with (2 ^ 63 - 1). change (2 ^ 64) with (2 * 2 ^ 63) in *.
  destruct (Z.leb_spec (place b seq) (place b last)) as [Hle | Hgt].
  - destruct (Z.eqb_spec seq last) as [-> | Hne]; [by rewrite orb_true_r |].
    assert (place b seq <> place b last) by (intros E; by apply place_inj in E).
    rewrite orb_false_r. apply Z.ltb_lt. rewrite <- (Z.mod_add _ 1) by lia. rewrite Z.mod_small; lia.
  - destruct (Z.eqb_spec seq last) as [-> |]; [lia |]. rewrite orb_false_r. apply Z.ltb_ge.
    rewrite Z.mod_small; lia.
Qed.

Definition table_of (P b : Z) (last : gmap seq_key (Z * Z)) : Prop :=
  map_Forall (fun _ e => e.1 = P /\ is_uint 64 e.2 /\ place b e.2 < 2 ^ 63) last.

Lemma accept_spec P b last n : table_of P b last -> from_window P b n ->
  accept_sequence last n =
  match last !! key_of n with
  | Some (_, q) => if place b (sn_seq n) <=? place b q then None else Some (<[key_of n := (P, sn_seq n)]> last)
  | None => Some (<[key_of n := (P, sn_seq n)]> last)
  end.
Proof.
  intros Ht (<- & Hs & Hp). unfold accept_sequence, key_of.
  destruct (last !! (sn_channel_id n, sn_point_type n, sn_point_id n)) as [[p q] |] eqn:E; [|done].
  destruct (Ht _ _ E) as (Hpr & Hq & Hpq). cbn in Hpr, Hq, Hpq. subst p. rewrite Z.eqb_refl. cbn [andb].
  rewrite <- (seq_filter_order b _ _ Hs Hq Hp Hpq). by destruct (seq_is_stale (sn_seq n) q), (sn_seq n =? q).
Qed.

Lemma table_insert P b last n : table_of P b last -> from_window P b n -> table_of P b (<[key_of n := (P, sn_seq n)]> last).
Proof. intros Ht (_ & ? & ?). by apply map_Forall_insert_2. Qed.

(** Same point: [b] comes after [a] in the wrapping order of the counters. *)
Definition newer (a b : ShmNotification) : Prop :=
  key_of a = key_of b -> 0 < wrapping_sub 64 (sn_seq b) (sn_seq a) < 2 ^ 63.
Definition placed_before (base : Z) (a b : ShmNotification) : Prop :=
  key_of a = key_of b -> place base (sn_seq a) < place base (sn_seq b).

Lemma placed_newer P b x y : from_window P b x -> from_window P b y -> placed_before b x y -> newer x y.
Proof.
  intros (_ & Hx & Hpx) (_ & Hy & Hpy) H E. specialize (H E). rewrite (place_difference b).
  pose proof (place_nonneg b (sn_seq x)). unfold wrap. rewrite Z.mod_small by (change (2 ^ 64) with (2 * 2 ^ 63); lia). lia.
Qed.
Lemma newer_irrefl a : ~ newer a a.
Proof. intros H. specialize (H eq_refl). unfold wrapping_sub in H. rewrite Z.sub_diag in H. by destruct H. Qed.

(** * The tasks, over every schedule *)

Definition on_conn {A} (i : nat) (l : list (nat * A)) : list A :=
  omap (fun e => if decide (e.1 = i) then Some e.2 else None) l.

Lemma on_conn_app {A} i (l1 l2 : list (nat * A)) : on_conn i (l1 ++ l2) = on_conn i l1 ++ on_conn i l2.
Proof. apply omap_app. Qed.
Lemma on_conn_one {A} i j (a : A) : on_conn i [(j, a)] = if decide (j = i) then [a] else [].
Proof. unfold on_conn. cbn. by destruct (decide (j = i)). Qed.
Lemma on_conn_cons {A} i j (a : A) l : on_conn i ((j, a) :: l) = (if decide (j = i) then [a] else []) ++ on_conn i l.
Proof. change ((j, a) :: l) with ([(j, a)] ++ l). by rewrite on_conn_app, on_conn_one. Qed.
Lemma on_conn_map {A B} i j (f : B -> A) l : on_conn i (map (fun n => (j, f n)) l) = if decide (j = i) then map f l else [].
Proof.
  induction l as [|b l IH]; cbn [map]; [by destruct (decide (j = i)) |].
  rewrite on_conn_cons, IH. by destruct (decide (j = i)).
Qed.
Lemma elem_of_on_conn {A} i (a : A) l : a ∈ on_conn i l <-> (i, a) ∈ l.
Proof.
  unfold on_conn. rewrite list_elem_of_omap. split.
  - intros ([j x] & Hin & H). cbn in H. by destruct (decide (j = i)); simplify_eq.
  - intros H. exists (i, a). split; [done |]. cbn. by rewrite decide_True.
Qed.
Lemma on_conn_sublist {A} i (l : list (nat * A)) : on_conn i l `sublist_of` map snd l.
Proof.
  induction l as [|[j a] l IH]; [done |]. rewrite on_conn_cons. cbn [map snd].
  destruct (decide (j = i)); cbn; by constructor.
Qed.

(** A log whose parts per connection are free of duplicates and disjoint has none. *)
Lemma on_conn_nodup {A} (l : list (nat * A)) : (forall i, NoDup (on_conn i l)) ->
  (forall i j a, (i, a) ∈ l -> (j, a) ∈ l -> i = j) -> NoDup (map snd l).
Proof.
  induction l as [|[j a] l IH]; intros Hn Hd; [constructor |]. cbn [map snd]. constructor.
  - intros ([i x] & Hx & Hin)%list_elem_of_fmap. cbn in Hx. subst x.
    assert (i = j) as -> by (eapply Hd; [by right | by left]).
    specialize (Hn j). rewrite on_conn_cons, decide_True in Hn by done.
    apply NoDup_cons in Hn as [Hn _]. apply Hn. by apply elem_of_on_conn.
  - apply IH.
    + intros i. specialize (Hn i). rewrite on_conn_cons in Hn. by apply NoDup_app in Hn as (_ & _ & ?).
    + intros i k x Hi Hk. by eapply Hd; right.
Qed.

Lemma sorted_sublist {A} (R : A -> A -> Prop) l k : l `sublist_of` k -> StronglySorted R k -> StronglySorted R l.
Proof.
  induction 1 as [|x l k H IH|x l k H IH]; intros Hs; [done | |]; apply StronglySorted_cons in Hs as [Hx Hs].
  - constructor; [by apply IH |]. apply Forall_forall. intros z Hz. apply (proj1 (Forall_forall _ _) Hx).
    eapply elem_of_submseteq; [exact Hz | by apply sublist_submseteq].
  - by apply IH.
Qed.
Lemma newer_nodup l : StronglySorted newer l -> NoDup l.
Proof.
  induction 1 as [|a l _ IH Ha]; constructor; [| done]. intros Hin. apply (newer_irrefl a). by apply (proj1 (Forall_forall _ _) Ha).
Qed.

(** The command of an event, and the reason of each fate. *)
Definition command_for (n : ShmNotification) : option ChannelCommand :=
  (fun pt => ShmCommandListener_build_command pt (sn_point_id n) (sn_value_bits n)
               (to_signed 64 (sn_timestamp_ms n)) (sn_producer_id n) (sn_seq n)) <$> ShmNotification_get_point_type n.
Definition handed_over (e : nat * (ShmNotification * Fate)) : option (Z * ChannelCommand) :=
  match e.2.2 with FHanded => pair (sn_channel_id e.2.1) <$> command_for e.2.1 | _ => None end.
Definition in_hand (t : ConnTask) : list ShmNotification :=
  match ct_sending t with Some (n, _) => n :: ct_stream t | None => ct_stream t end.
Definition being_sent (t : ConnTask) : list ShmNotification :=
  match ct_sending t with Some (n, _) => [n] | None => [] end.
Definition filtered_in (l : list (ShmNotification * Fate)) : list ShmNotification :=
  omap (fun e => if passed_filter e.2 then Some e.1 else None) l.

(** An event of connection [i] is ignored only for its type, stale only behind an event
    of its point accepted before (when on the same connection, read before), invalid
    only when its value is not finite.  [hist] is the log of the connection. *)
Definition fate_reason (b : Z) (acc : list (nat * ShmNotification)) (i : nat) (hist : list (ShmNotification * Fate))
    (n : ShmNotification) (f : Fate) : Prop :=
  match f with
  | FIgnored => ShmNotification_get_point_type n = None
  | FStale => exists j m, (j, m) ∈ acc /\ key_of m = key_of n /\ place b (sn_seq n) <= place b (sn_seq m) /\
      (j = i -> exists l1 l2, hist = l1 ++ (n, FStale) :: l2 /\ m ∈ map fst l1)
  | FInvalid => f64_is_finite (sn_value_bits n) = false
  | FUnread => True
  | _ => f64_is_finite (sn_value_bits n) = true /\ is_Some (ShmNotification_get_point_type n)
  end.

(** The record of a run covers each connection's stream in order: the events logged for
    it, the one being sent, then those still to read. *)
Record log_ok (nss : list (list ShmNotification)) (y : ListenerSystem) : Prop := {
  lo_tasks : length (sy_tasks y) = length nss;
  lo_events : forall i t ns, sy_tasks y !! i = Some t -> nss !! i = Some ns ->
    map fst (on_conn i (sy_log y)) ++ in_hand t = ns;
  lo_accepted : forall i t, sy_tasks y !! i = Some t ->
    on_conn i (sy_accepted y) = filtered_in (on_conn i (sy_log y)) ++ being_sent t;
  lo_known : forall i n, (i, n) ∈ sy_accepted y -> (i < length (sy_tasks y))%nat;
  lo_logged : forall i e, (i, e) ∈ sy_log y -> (i < length (sy_tasks y))%nat
}.
(** The shared table holds, for each point, its latest accepted event. *)
Record filter_ok (P b : Z) (y : ListenerSystem) : Prop := {
  fo_sorted : StronglySorted (placed_before b) (map snd (sy_accepted y));
  fo_window : forall i n, (i, n) ∈ sy_accepted y -> from_window P b n;
  fo_table : forall k p q, ls_last_sequences (sy_shared y) !! k = Some (p, q) ->
    p = P /\ exists i m, (i, m) ∈ sy_accepted y /\ key_of m = k /\ sn_seq m = q;
  fo_latest : forall i m, (i, m) ∈ sy_accepted y -> exists q,
    ls_last_sequences (sy_shared y) !! key_of m = Some (P, q) /\ place b (sn_seq m) <= place b q
}.
Record fates_ok (b : Z) (y : ListenerSystem) : Prop := {
  fa_sending : forall i t n c, sy_tasks y !! i = Some t -> ct_sending t = Some (n, c) ->
    command_for n = Some c /\ f64_is_finite (sn_value_bits n) = true;
  fa_reasons : forall i n f, (i, (n, f)) ∈ sy_log y -> fate_reason b (sy_accepted y) i (on_conn i (sy_log y)) n f;
  fa_sent : ls_sent (sy_shared y) = omap handed_over (sy_log y)
}.
Definition listener_inv (P b : Z) (nss : list (list ShmNotification)) (y : ListenerSystem) : Prop :=
  log_ok nss y /\ filter_ok P b y /\ fates_ok b y.

(** A task moves events from its hand to the log, and accepts the ones it announces. *)
Lemma log_ok_step nss y i t t' s' es acc : log_ok nss y -> sy_tasks y !! i = Some t ->
  map fst es ++ in_hand t' = in_hand t -> being_sent t ++ acc = filtered_in es ++ being_sent t' ->
  log_ok nss (mkListenerSystem s' (<[i := t']> (sy_tasks y)) (sy_accepted y ++ map (pair i) acc) (sy_log y ++ map (pair i) es)).
Proof.
  intros [H1 H2 H3 H4 H5] Hi He Ha. pose proof (lookup_lt_Some _ _ _ Hi) as Hlt.
  assert (Hc : forall {A} j (l : list A), on_conn j (map (pair i) l) = if decide (i = j) then l else []).
  { intros A j l. rewrite (on_conn_map j i id). by rewrite map_id. }
  split; cbn [sy_tasks sy_accepted sy_log].
  - by rewrite length_insert.
  - intros j t1 ns Hj Hns. rewrite on_conn_app, Hc, map_app. destruct (decide (i = j)) as [<- | Hne].
    + rewrite list_lookup_insert_eq in Hj by done. injection Hj as <-. rewrite <- (assoc_L (++)), He. by apply H2.
    + rewrite list_lookup_insert_ne in Hj by done. cbn. rewrite app_nil_r. by apply H2.
  - intros j t1 Hj. rewrite !on_conn_app, !Hc. destruct (decide (i = j)) as [<- | Hne].
    + rewrite list_lookup_insert_eq in Hj by done. injection Hj as <-. unfold filtered_in at 1. rewrite omap_app.
      rewrite (H3 i t Hi), <- !(assoc_L (++)). f_equal. exact Ha.
    + rewrite list_lookup_insert_ne in Hj by done. rewrite !app_nil_r. by apply H3.
  - intros j n [Hin | Hin]%elem_of_app; rewrite length_insert; [by eapply H4 |].
    apply list_elem_of_fmap in Hin as (? & [= -> ->] & _). done.
  - intros j e [Hin | Hin]%elem_of_app; rewrite length_insert; [by eapply H5 |].
    apply list_elem_of_fmap in Hin as (? & [= -> ->] & _). done.
Qed.

Lemma fate_reason_mono b acc acc' i hist l n f : fate_reason b acc i hist n f -> (forall x, x ∈ acc -> x ∈ acc') ->
  fate_reason b acc' i (hist ++ l) n f.
Proof.
  destruct f; cbn; try done. intros (j & m & Hin & Hk & Hle & Hj) Hsub. exists j, m. split; [by apply Hsub |]. do 2 (split; [done |]).
  intros E. destruct (Hj E) as (l1 & l2 & -> & Hm). exists l1, (l2 ++ l). split; [by rewrite <- (assoc_L (++)) | done].
Qed.

(** ** Reading an event *)

Lemma filter_ok_table P b y : filter_ok P b y -> table_of P b (ls_last_sequences (sy_shared y)).
Proof.
  intros [_ Hw Ht _] k [p q] Hk. destruct (Ht k p q Hk) as (-> & i & m & Hin & _ & <-). destruct (Hw _ _ Hin) as (_ & ? & ?). done.
Qed.

Lemma filter_ok_keep P b y ts log : filter_ok P b y -> filter_ok P b (mkListenerSystem (sy_shared y) ts (sy_accepted y) log).
Proof. by intros []; split. Qed.

Lemma filter_ok_accept P b y i n ts log sh : filter_ok P b y -> from_window P b n ->
  (forall p q, ls_last_sequences (sy_shared y) !! key_of n = Some (p, q) -> place b q < place b (sn_seq n)) ->
  ls_last_sequences sh = <[key_of n := (P, sn_seq n)]> (ls_last_sequences (sy_shared y)) ->
  filter_ok P b (mkListenerSystem sh ts (sy_accepted y ++ [(i, n)]) log).
Proof.
  intros [H1 H2 H3 H4] Hn Hlast Hsh. split; cbn [sy_accepted sy_shared]; rewrite ?Hsh.
  - rewrite map_app. cbn [map snd]. apply StronglySorted_app. split; [| split; [done | repeat constructor]].
    intros x z Hx Hz Hk. apply list_elem_of_singleton in Hz as ->. apply list_elem_of_fmap in Hx as ([j m] & -> & Hin). cbn in *.
    destruct (H4 j m Hin) as (q & Hq & Hle). rewrite Hk in Hq. specialize (Hlast _ _ Hq). lia.
  - intros j m [Hin | Hin]%elem_of_app; [by eapply H2 |]. apply list_elem_of_singleton in Hin. by simplify_eq.
  - intros k p q. destruct (decide (key_of n = k)) as [<- | Hne].
    + rewrite lookup_insert_eq. intros [= <- <-]. split; [done |]. exists i, n. split; [| done]. apply elem_of_app. right. by left.
    + rewrite lookup_insert_ne by done. intros Hk. destruct (H3 _ _ _ Hk) as (-> & j & m & Hin & ?). split; [done |].
      exists j, m. split; [| done]. apply elem_of_app. by left.
  - intros j m [Hin | Hin]%elem_of_app.
    + destruct (H4 j m Hin) as (q & Hq & Hle). destruct (decide (key_of n = key_of m)) as [E | Hne].
      * rewrite E, lookup_insert_eq. exists (sn_seq n). split; [done |]. rewrite E in Hlast. specialize (Hlast _ _ Hq). lia.
      * rewrite lookup_insert_ne by done. by exists q.
    + apply list_elem_of_singleton in Hin. simplify_eq. exists (sn_seq n). rewrite lookup_insert_eq. split; [done | lia].
Qed.

(** What reading an event means, by cases of its type, the filter and its value. *)
Lemma receive_event_cases P b last n : table_of P b last -> from_window P b n ->
  match receive_event last n with
  | (last', inl f) => if passed_filter f
      then f = FInvalid /\ f64_is_finite (sn_value_bits n) = false /\ last' = <[key_of n := (P, sn_seq n)]> last /\
           (forall p q, last !! key_of n = Some (p, q) -> place b q < place b (sn_seq n))
      else last' = last /\ match f with
           | FIgnored => ShmNotification_get_point_type n = None
           | FStale => exists p q, last !! key_of n = Some (p, q) /\ place b (sn_seq n) <= place b q
           | _ => False
           end
  | (last', inr c) => last' = <[key_of n := (P, sn_seq n)]> last /\ command_for n = Some c /\
      f64_is_finite (sn_value_bits n) = true /\
      (forall p q, last !! key_of n = Some (p, q) -> place b q < place b (sn_seq n))
  end.
Proof.
  intros Ht Hn. unfold receive_event, command_for. destruct (ShmNotification_get_point_type n) as [pt|]; [| done].
  rewrite (accept_spec P b last n Ht Hn).
  destruct (match last !! key_of n with Some (_, q) => _ | None => _ end) as [last'|] eqn:E.
  - assert (Hl : last' = <[key_of n := (P, sn_seq n)]> last /\
      (forall p q, last !! key_of n = Some (p, q) -> place b q < place b (sn_seq n))).
    { destruct (last !! key_of n) as [[p q]|]; [| by simplify_eq].
      destruct (Z.leb_spec (place b (sn_seq n)) (place b q)); simplify_eq. split; [done |]. by intros ? ? [= <- <-]. }
    destruct Hl as [-> Hq]. unfold ShmNotification_value. rewrite validate_default.
    destruct (f64_is_finite (sn_value_bits n)) eqn:Ef; [done |].
    destruct (f64_is_nan (sn_value_bits n)); cbn; done.
  - cbn. split; [done |]. destruct (last !! key_of n) as [[p q]|]; [| done].
    destruct (Z.leb_spec (place b (sn_seq n)) (place b q)); [| done]. by exists p, q.
Qed.

(** ** Every step *)

Lemma fates_ok_step b y i t' s' es acc : fates_ok b y ->
  (forall n c, ct_sending t' = Some (n, c) -> command_for n = Some c /\ f64_is_finite (sn_value_bits n) = true) ->
  (forall n f, (n, f) ∈ es -> fate_reason b (sy_accepted y ++ acc) i (on_conn i (sy_log y) ++ es) n f) ->
  ls_sent s' = ls_sent (sy_shared y) ++ omap handed_over (map (pair i) es) ->
  fates_ok b (mkListenerSystem s' (<[i := t']> (sy_tasks y)) (sy_accepted y ++ acc) (sy_log y ++ map (pair i) es)).
Proof.
  intros [H1 H2 H3] Ht He Hs. split; cbn [sy_shared sy_tasks sy_accepted sy_log].
  - intros j t n c Hj. destruct (decide (i = j)) as [<- | Hne]; [| rewrite list_lookup_insert_ne in Hj by done; by eapply H1].
    apply list_lookup_insert_Some in Hj as [(_ & <- & _) | (? & _)]; [by apply Ht | done].
  - intros j n f Hin. rewrite on_conn_app. apply elem_of_app in Hin as [Hin | Hin].
    + eapply fate_reason_mono; [by eapply H2 |]. intros x Hx. apply elem_of_app. by left.
    + apply list_elem_of_fmap in Hin as ([? ?] & [= -> <- <-] & Hin). rewrite (on_conn_map i i id), decide_True, map_id by done. by apply He.
  - rewrite Hs, H3, omap_app. done.
Qed.

Lemma stale_reason P b nss y i rest n q p : log_ok nss y -> filter_ok P b y -> sy_tasks y !! i = Some (mkConnTask rest None) ->
  ls_last_sequences (sy_shared y) !! key_of n = Some (p, q) ->
  place b (sn_seq n) <= place b q -> fate_reason b (sy_accepted y) i (on_conn i (sy_log y) ++ [(n, FStale)]) n FStale.
Proof.
  intros Hl Hf Hi Hk Hle. destruct (fo_table _ _ _ Hf _ _ _ Hk) as (_ & j & m & Hin & Hkey & <-). exists j, m. do 3 (split; [done |]).
  intros ->. exists (on_conn i (sy_log y)), []. split; [done |]. apply elem_of_on_conn in Hin.
  rewrite (lo_accepted _ _ Hl i _ Hi), app_nil_r in Hin. unfold filtered_in in Hin. apply list_elem_of_omap in Hin as ([m' f] & Hin & He). cbn in He.
  destruct (passed_filter f); simplify_eq. apply list_elem_of_fmap. by exists (m, f).
Qed.

Lemma reads_inv P b nss y i : Forall (Forall (from_window P b)) nss -> listener_inv P b nss y ->
  listener_inv P b nss (listener_step y (TaskReads i)).
Proof.
  intros Hw (Hl & Hf & Ha). cbn [listener_step]. destruct (sy_tasks y !! i) as [[[|n rest] [[]|]]|] eqn:Ei; try done.
  assert (Hn : from_window P b n).
  { destruct (lookup_lt_is_Some_2 nss i) as [ns Hns]; [rewrite <- (lo_tasks _ _ Hl); by eapply lookup_lt_Some |].
    pose proof (lo_events _ _ Hl i _ ns Ei Hns) as E. cbn in E.
    apply (proj1 (Forall_forall _ _) (Forall_lookup_1 _ _ _ _ Hw Hns)). rewrite <- E. apply elem_of_app. right. by left. }
  pose proof (receive_event_cases P b _ n (filter_ok_table _ _ _ Hf) Hn) as Hr.
  destruct (receive_event (ls_last_sequences (sy_shared y)) n) as [last' [f | c]].
  - destruct (passed_filter f) eqn:Ef.
    + destruct Hr as (-> & Hv & -> & Hq). split; [| split].
      * by apply (log_ok_step nss y i _ (mkConnTask rest None) _ [(n, FInvalid)] [n] Hl Ei).
      * by eapply filter_ok_accept.
      * apply (fates_ok_step b y i (mkConnTask rest None) _ [(n, FInvalid)] [(i, n)] Ha); [done | | by rewrite app_nil_r].
        intros ? ? [= -> ->]%list_elem_of_singleton. done.
    + destruct Hr as (-> & Hr). assert (Hs : set_last (sy_shared y) (ls_last_sequences (sy_shared y)) = sy_shared y) by (by destruct (sy_shared y)).
      rewrite Hs. split; [| split].
      * pose proof (log_ok_step nss y i _ (mkConnTask rest None) (sy_shared y) [(n, f)] [] Hl Ei eq_refl) as H.
        cbn [map] in H. rewrite ?app_nil_r in H. apply H. cbn. by rewrite Ef.
      * by apply filter_ok_keep.
      * pose proof (fates_ok_step b y i (mkConnTask rest None) (sy_shared y) [(n, f)] [] Ha) as H. rewrite app_nil_r in H.
        apply H; [done | | by destruct f; rewrite ?app_nil_r].
        intros ? ? [= -> ->]%list_elem_of_singleton. destruct f; try done. destruct Hr as (p & q & Hk & Hle). rewrite ?app_nil_r. by eapply stale_reason.
  - destruct Hr as (-> & Hc & Hv & Hq). split; [| split].
    + pose proof (log_ok_step nss y i _ (mkConnTask rest (Some (n, c))) (set_last (sy_shared y) (<[key_of n:=(P, sn_seq n)]> (ls_last_sequences (sy_shared y)))) [] [n] Hl Ei eq_refl eq_refl) as H.
      cbn [map] in H. by rewrite app_nil_r in H.
    + by eapply filter_ok_accept.
    + pose proof (fates_ok_step b y i (mkConnTask rest (Some (n, c))) (set_last (sy_shared y) (<[key_of n:=(P, sn_seq n)]> (ls_last_sequences (sy_shared y)))) [] [(i, n)] Ha) as H.
      cbn [map] in H. rewrite !app_nil_r in H. apply H; [by intros ? ? [= <- <-] | by intros ? ? ?%not_elem_of_nil | done].
Qed.

Lemma sends_inv P b nss y i registered o : listener_inv P b nss y -> listener_inv P b nss (listener_step y (TaskSends i registered o)).
Proof.
  intros (Hl & Hf & Ha). cbn [listener_step]. destruct (sy_tasks y !! i) as [[rest [[n c]|]]|] eqn:Ei; try done.
  destruct (fa_sending _ _ Ha i _ n c Ei eq_refl) as [Hc Hv]. set (f := send_fate registered o).
  assert (Hpass : passed_filter f = true /\ f <> FInvalid) by (unfold f; by destruct registered, o).
  assert (Hpt : is_Some (ShmNotification_get_point_type n)) by (unfold command_for in Hc; destruct (ShmNotification_get_point_type n); done).
  assert (Hsame : ls_last_sequences (finish_send (sy_shared y) (sn_channel_id n) c f) = ls_last_sequences (sy_shared y)) by (by destruct f).
  split; [| split].
  - pose proof (log_ok_step nss y i _ (mkConnTask rest None) (finish_send (sy_shared y) (sn_channel_id n) c f) [(n, f)] [] Hl Ei eq_refl) as H.
    cbn [map] in H. rewrite ?app_nil_r in H. apply H. cbn. by rewrite (proj1 Hpass).
  - destruct Hf as [H1 H2 H3 H4]. split; cbn [sy_accepted sy_shared]; rewrite ?Hsame; done.
  - pose proof (fates_ok_step b y i (mkConnTask rest None) (finish_send (sy_shared y) (sn_channel_id n) c f) [(n, f)] [] Ha) as H.
    rewrite app_nil_r in H. apply H; [done | |].
    + intros ? ? [= -> ->]%list_elem_of_singleton. destruct Hpass as [Hp Hi]. by destruct f.
    + unfold finish_send. cbn. unfold handed_over. cbn [fst snd]. rewrite Hc. destruct f; cbn; by rewrite ?app_nil_r.
Qed.

Lemma stops_inv P b nss y i : listener_inv P b nss y -> listener_inv P b nss (listener_step y (TaskStops i)).
Proof.
  intros (Hl & Hf & Ha). cbn [listener_step]. destruct (sy_tasks y !! i) as [[rest [[]|]]|] eqn:Ei; try done.
  set (es := map (fun n => (n, FUnread)) rest).
  assert (Hes : map (fun n => (i, (n, FUnread))) rest = map (pair i) es) by (unfold es; by rewrite map_map).
  assert (H1 : map fst es = rest) by (unfold es; rewrite map_map; apply map_id).
  assert (H2 : filtered_in es = []) by (unfold es; clear; induction rest; done).
  assert (H3 : omap handed_over (map (pair i) es) = []) by (unfold es; clear; induction rest; done).
  rewrite Hes. split; [| split].
  - pose proof (log_ok_step nss y i _ (mkConnTask [] None) (sy_shared y) es [] Hl Ei) as H. cbn [map] in H. rewrite ?app_nil_r in H.
    apply H; [by rewrite H1, ?app_nil_r | by rewrite H2].
  - by apply filter_ok_keep.
  - pose proof (fates_ok_step b y i (mkConnTask [] None) (sy_shared y) es [] Ha) as H. rewrite app_nil_r in H.
    apply H; [done | | by rewrite H3, app_nil_r].
    intros n f Hin. unfold es in Hin. apply list_elem_of_fmap in Hin as (? & [= -> ->] & _). done.
Qed.

Definition tasks_of (nss : list (list ShmNotification)) : ListenerSystem :=
  mkListenerSystem ListenerState_new (map (fun ns => mkConnTask ns None) nss) [] [].

Lemma tasks_of_inv P b nss : listener_inv P b nss (tasks_of nss).
Proof.
  split; [| split]; split; cbn [tasks_of sy_tasks sy_accepted sy_log sy_shared ListenerState_new ls_last_sequences ls_sent].
  - apply length_map.
  - intros i t ns Ht Hns. apply list_lookup_fmap_Some in Ht as (ns' & Ht & Hns'). simplify_eq. cbn. congruence.
  - intros i t Ht. apply list_lookup_fmap_Some in Ht as (ns & -> & _). done.
  - by intros ? ? ?%not_elem_of_nil.
  - by intros ? ? ?%not_elem_of_nil.
  - constructor.
  - by intros ? ? ?%not_elem_of_nil.
  - intros k p q. by rewrite lookup_empty.
  - by intros ? ? ?%not_elem_of_nil.
  - intros i t n c Ht. apply list_lookup_fmap_Some in Ht as (ns & -> & _). done.
  - by intros ? ? ? ?%not_elem_of_nil.
  - done.
Qed.

Lemma run_tasks_inv P b nss schedule : Forall (Forall (from_window P b)) nss ->
  listener_inv P b nss (run_tasks (tasks_of nss) schedule).
Proof.
  intros Hw. unfold run_tasks. generalize (tasks_of_inv P b nss). generalize (tasks_of nss).
  induction schedule as [|e schedule IH]; intros y Hy; [done |]. cbn [foldl]. apply IH.
  destruct e; [by apply reads_inv | by apply sends_inv | by apply stops_inv].
Qed.

(** A task left alone handles an event as [handle_notification] does. *)
Lemma task_handles_notification y i n rest registered o : sy_tasks y !! i = Some (mkConnTask (n :: rest) None) ->
  let y' := run_tasks y [TaskReads i; TaskSends i registered o] in
  sy_shared y' = ShmCommandListener_handle_notification (fun _ => registered) (fun _ _ => o) (sy_shared y) n /\
  sy_tasks y' = <[i := mkConnTask rest None]> (sy_tasks y).
Proof.
  intros Hi. cbv zeta. unfold run_tasks. cbn [foldl]. cbn [listener_step]. rewrite Hi. pose proof (lookup_lt_Some _ _ _ Hi) as Hlt.
  unfold receive_event, ShmCommandListener_handle_notification.
  assert (Hset : set_last (sy_shared y) (ls_last_sequences (sy_shared y)) = sy_shared y) by (by destruct (sy_shared y)).
  destruct (ShmNotification_get_point_type n) as [pt|];
    [| cbn [sy_tasks]; rewrite list_lookup_insert_eq by done; cbn [sy_shared]; by rewrite Hset].
  destruct (accept_sequence (ls_last_sequences (sy_shared y)) n) as [last|];
    [| cbn [sy_tasks]; rewrite list_lookup_insert_eq by done; cbn [sy_shared]; by rewrite Hset].
  destruct (validate_value (ShmNotification_value n) ValidationConfig_default) as [v|e];
    cbn [sy_tasks sy_shared]; rewrite list_lookup_insert_eq by done; [| done].
  cbn [sy_shared sy_tasks]. rewrite list_insert_insert_eq. split; [| done]. destruct registered; [| done]. by destruct o.
Qed.

(** ** Causes and progress *)

(** The step of the schedule behind a fate that the channel or the shutdown decided. *)
Definition caused_by (schedule : list TaskEvent) (i : nat) (f : Fate) : Prop :=
  match f with
  | FHanded => TaskSends i true SendOk ∈ schedule
  | FUnregistered => exists o, TaskSends i false o ∈ schedule
  | FClosed => TaskSends i true SendClosed ∈ schedule
  | FFull => TaskSends i true SendTimeout ∈ schedule
  | FUnread => TaskStops i ∈ schedule
  | _ => True
  end.

Lemma receive_event_fate last n last' f : receive_event last n = (last', inl f) -> f = FIgnored \/ f = FStale \/ f = FInvalid.
Proof.
  unfold receive_event. destruct (ShmNotification_get_point_type n); [| intros [= _ <-]; by left].
  destruct (accept_sequence last n); [| intros [= _ <-]; by right; left]. destruct (validate_value _ _); intros [=]; by right; right.
Qed.

Lemma listener_step_log y e : exists i es, sy_log (listener_step y e) = sy_log y ++ map (pair i) es /\ forall n f, (n, f) ∈ es -> caused_by [e] i f.
Proof.
  assert (Hid : forall i, exists j es, sy_log y = sy_log y ++ map (pair j) es /\ forall (n : ShmNotification) f, (n, f) ∈ es -> caused_by [e] j f)
    by (intros i; exists i, []; split; [by rewrite app_nil_r | by intros ? ? ?%not_elem_of_nil]).
  destruct e as [i | i registered o | i]; cbn [listener_step].
  - destruct (sy_tasks y !! i) as [[[|n rest] [[]|]]|]; try by apply Hid.
    destruct (receive_event (ls_last_sequences (sy_shared y)) n) as [last' [f | c]] eqn:Er; [| by apply Hid].
    exists i, [(n, f)]. split; [done |]. intros ? ? [= -> ->]%list_elem_of_singleton.
    destruct (receive_event_fate _ _ _ _ Er) as [-> | [-> | ->]]; done.
  - destruct (sy_tasks y !! i) as [[rest [[n c]|]]|]; try by apply Hid.
    exists i, [(n, send_fate registered o)]. split; [done |]. intros ? ? [= -> ->]%list_elem_of_singleton.
    destruct registered, o; cbn; try by left. all: eexists; by left.
  - destruct (sy_tasks y !! i) as [[rest [[]|]]|]; try by apply Hid.
    exists i, (map (fun n => (n, FUnread)) rest). split; [cbn; by rewrite map_map |].
    intros n f (? & [= -> ->] & _)%list_elem_of_fmap. cbn. by left.
Qed.

Lemma caused_by_mono l1 l2 i f : caused_by l1 i f -> (forall x, x ∈ l1 -> x ∈ l2) -> caused_by l2 i f.
Proof. destruct f; cbn; try done; intros H Hsub; try by apply Hsub. destruct H as [o H]. exists o. by apply Hsub. Qed.

Lemma run_tasks_causes schedule : forall y i n f, (i, (n, f)) ∈ sy_log (run_tasks y schedule) ->
  (i, (n, f)) ∈ sy_log y \/ caused_by schedule i f.
Proof.
  induction schedule as [|e schedule IH]; intros y i n f Hin; [by left |].
  destruct (IH (listener_step y e) i n f Hin) as [H | H].
  - destruct (listener_step_log y e) as (j & es & Hlog & Hes). rewrite Hlog in H. apply elem_of_app in H as [H | H]; [by left |]. right.
    apply list_elem_of_fmap in H as ([? ?] & [= -> <- <-] & H). eapply caused_by_mono; [by eapply Hes |].
    intros x ->%list_elem_of_singleton. by left.
  - right. eapply caused_by_mono; [exact H |]. intros x Hx. by right.
Qed.

(** A task can always be run to its end, the others standing still. *)
Lemma task_can_finish i : forall k y t, sy_tasks y !! i = Some t -> length (in_hand t) = k ->
  exists more, sy_tasks (run_tasks y more) = <[i := mkConnTask [] None]> (sy_tasks y).
Proof.
  induction k as [|k IH]; intros y [ns s] Hi Hk.
  - exists []. destruct s as [[n c]|]; [done |]. destruct ns; [| done]. cbn. by rewrite list_insert_id.
  - pose proof (lookup_lt_Some _ _ _ Hi) as Hlt.
    assert (Hend : forall y', sy_tasks y' = <[i := mkConnTask (tail (in_hand (mkConnTask ns s))) None]> (sy_tasks y) ->
      exists more, sy_tasks (run_tasks y' more) = <[i := mkConnTask [] None]> (sy_tasks y)).
    { intros y' Hy'. destruct (IH y' (mkConnTask (tail (in_hand (mkConnTask ns s))) None)) as [more Hm].
      - rewrite Hy'. by apply list_lookup_insert_eq.
      - destruct (in_hand (mkConnTask ns s)); cbn in *; [done | lia].
      - exists more. by rewrite Hm, Hy', list_insert_insert_eq. }
    destruct s as [[n c]|].
    + destruct (Hend (listener_step y (TaskSends i true SendOk))) as [more Hm]; [cbn [listener_step]; by rewrite Hi |].
      by exists (TaskSends i true SendOk :: more).
    + destruct ns as [|n rest]; [done |].
      destruct (Hend (run_tasks y [TaskReads i; TaskSends i true SendOk])) as [more Hm];
        [by apply (task_handles_notification y i n rest true SendOk) |].
      by exists (TaskReads i :: TaskSends i true SendOk :: more).
Qed.

Definition all_done (y : ListenerSystem) : Prop := Forall (fun t => in_hand t = []) (sy_tasks y).

Lemma tasks_can_finish y : exists more, all_done (run_tasks y more).
Proof.
  assert (H : forall k, (k <= length (sy_tasks y))%nat -> exists more, length (sy_tasks (run_tasks y more)) = length (sy_tasks y) /\
    forall i t, (i < k)%nat -> sy_tasks (run_tasks y more) !! i = Some t -> in_hand t = []).
  { induction k as [|k IH]; intros Hk; [exists []; split; [done | lia] |].
    destruct (IH ltac:(lia)) as (more & Hlen & Hdone). destruct (lookup_lt_is_Some_2 (sy_tasks (run_tasks y more)) k) as [t Ht]; [lia |].
    destruct (task_can_finish k _ _ t Ht eq_refl) as [more2 Hm]. exists (more ++ more2). unfold run_tasks in *. rewrite foldl_app, Hm, length_insert.
    split; [done |]. intros i t' Hi. destruct (decide (i = k)) as [-> | Hne].
    - rewrite list_lookup_insert_eq by lia. by intros [= <-].
    - rewrite list_lookup_insert_ne by done. apply Hdone. lia. }
  destruct (H (length (sy_tasks y)) ltac:(lia)) as (more & Hlen & Hdone). exists more. apply Forall_lookup_2. intros i t Ht.
  eapply Hdone; [| exact Ht]. rewrite <- Hlen. by eapply lookup_lt_Some.
Qed.

(** ** What the channels receive *)

Definition handed_events (y : ListenerSystem) : list (nat * ShmNotification) :=
  omap (fun e => match e.2.2 with FHanded => Some (e.1, e.2.1) | _ => None end) (sy_log y).

(** The commands handed over are those of the events in [handed_events], one for one;
    each event was accepted, once; the accepted events of a point advance in the
    wrapping order of the counters, and so do those of a connection when they are
    handed over; an event is filtered out only when an event of its point at the same
    place or later was accepted. *)
Record orderly (y : ListenerSystem) : Prop := {
  or_accepted : StronglySorted newer (map snd (sy_accepted y));
  or_commands : map Some (ls_sent (sy_shared y)) =
    map (fun h => pair (sn_channel_id h.2) <$> command_for h.2) (handed_events y);
  or_once : NoDup (map snd (handed_events y));
  or_passed : forall h, h ∈ handed_events y -> h ∈ sy_accepted y;
  or_connection : forall i, StronglySorted newer (on_conn i (handed_events y));
  or_stale : forall i n, (i, (n, FStale)) ∈ sy_log y -> exists j m, (j, m) ∈ sy_accepted y /\
    key_of m = key_of n /\ wrapping_sub 64 (sn_seq m) (sn_seq n) < 2 ^ 63
}.

Lemma handed_on_conn i (log : list (nat * (ShmNotification * Fate))) :
  on_conn i (omap (fun e => match e.2.2 with FHanded => Some (e.1, e.2.1) | _ => None end) log) `sublist_of`
  filtered_in (on_conn i log).
Proof.
  induction log as [|[j [n f]] log IH]; [done |]. rewrite on_conn_cons. unfold filtered_in. rewrite omap_app. fold (filtered_in (on_conn i log)).
  cbn [omap list_omap fst snd]. destruct f; cbn [fst snd]; try (destruct (decide (j = i)); cbn; [by constructor || done | done]).
  rewrite on_conn_cons. destruct (decide (j = i)); cbn; [by constructor | done].
Qed.

Lemma sorted_newer P b l : Forall (from_window P b) l -> StronglySorted (placed_before b) l -> StronglySorted newer l.
Proof.
  induction 2 as [|n l Hs IH Hn]; [constructor |]. apply Forall_cons in H as [Hw Hws]. constructor; [by apply IH |].
  apply Forall_forall. intros m Hm. eapply placed_newer; [exact Hw | by apply (proj1 (Forall_forall _ _) Hws) | by apply (proj1 (Forall_forall _ _) Hn)].
Qed.

Lemma handed_accepted nss y h : log_ok nss y -> h ∈ handed_events y -> h ∈ sy_accepted y.
Proof.
  destruct h as [i n]. intros Hl Hin. apply elem_of_on_conn.
  assert (Hlt : (i < length (sy_tasks y))%nat).
  { unfold handed_events in Hin. apply list_elem_of_omap in Hin as ([j [m f]] & Hin & He). cbn in He.
    destruct f; try done. injection He as -> ->. by eapply lo_logged. }
  destruct (lookup_lt_is_Some_2 _ _ Hlt) as [t Ht]. rewrite (lo_accepted _ _ Hl i t Ht). apply elem_of_app. left.
  eapply elem_of_submseteq; [| apply sublist_submseteq, handed_on_conn]. by apply elem_of_on_conn.
Qed.

Lemma sent_commands_match b y : fates_ok b y ->
  map Some (ls_sent (sy_shared y)) = map (fun h => pair (sn_channel_id h.2) <$> command_for h.2) (handed_events y).
Proof.
  intros [_ Hr ->]. unfold handed_events.
  assert (Hh : forall i n, (i, (n, FHanded)) ∈ sy_log y -> is_Some (ShmNotification_get_point_type n)) by (intros i n H; by apply (Hr i n FHanded)).
  clear Hr. induction (sy_log y) as [|[i [n f]] log IH]; [done |].
  specialize (IH (fun j m H => Hh j m (list_elem_of_further _ _ _ H))). cbn [omap list_omap fst snd handed_over].
  unfold handed_over at 1. cbn [fst snd]. destruct f; cbn [fst snd]; try exact IH.
  destruct (Hh i n (list_elem_of_here _ _)) as [pt Hpt]. unfold command_for in *. rewrite Hpt. cbn. rewrite Hpt. f_equal. exact IH.
Qed.

Lemma run_orderly P b nss y : listener_inv P b nss y -> orderly y.
Proof.
  intros (Hl & Hf & Ha).
  assert (Hwin : Forall (from_window P b) (map snd (sy_accepted y))).
  { apply Forall_forall. intros n ([i m] & -> & Hin)%list_elem_of_fmap. by eapply fo_window. }
  assert (Hsort : StronglySorted newer (map snd (sy_accepted y))) by (eapply sorted_newer; [exact Hwin | apply Hf]).
  assert (Hconn : forall i, StronglySorted newer (on_conn i (handed_events y))).
  { intros i. eapply sorted_sublist; [| exact Hsort]. transitivity (on_conn i (sy_accepted y)); [| apply on_conn_sublist].
    destruct (lt_dec i (length (sy_tasks y))) as [Hi | Hi].
    - destruct (lookup_lt_is_Some_2 _ _ Hi) as [t Ht]. rewrite (lo_accepted _ _ Hl i t Ht). apply sublist_inserts_r, handed_on_conn.
    - destruct (on_conn i (handed_events y)) as [|n l] eqn:E; [apply sublist_nil_l |]. exfalso. apply Hi.
      eapply (lo_known _ _ Hl i n), handed_accepted; [done |]. apply elem_of_on_conn. rewrite E. by left. }
  split; [done | by eapply sent_commands_match | | intros h; by eapply handed_accepted | done |].
  - apply on_conn_nodup; [intros i; by apply newer_nodup |]. intros i j a Hi Hj.
    apply (handed_accepted _ _ _ Hl) in Hi, Hj. apply newer_nodup in Hsort.
    apply list_elem_of_lookup in Hi as [x Hx], Hj as [z Hz].
    assert (x = z) as -> by (eapply NoDup_lookup; [exact Hsort | |]; apply list_lookup_fmap_Some; [by exists (i, a) | by exists (j, a)]).
    rewrite Hx in Hz. by simplify_eq.
  - intros i n Hin. destruct (fa_reasons _ _ Ha i n FStale Hin) as (j & m & Hm & Hk & Hle & _). exists j, m. split; [done |]. split; [done |].
    destruct (fo_window _ _ _ Hf _ _ Hm) as (_ & Hu & Hp). pose proof (place_nonneg b (sn_seq n)).
    rewrite (place_difference b). unfold wrap. rewrite Z.mod_small by (change (2 ^ 64) with (2 * 2 ^ 63); lia). lia.
Qed.

(** * Command ids *)

Lemma string_app_assoc (s t u : string) : s +:+ (t +:+ u) = (s +:+ t) +:+ u.
Proof.
  induction s as [|c s IH]; [done |].
  change (String c (s +:+ (t +:+ u)) = String c ((s +:+ t) +:+ u)). by rewrite IH.
Qed.

Lemma hex_digits_app n : forall z acc, hex_digits n z acc = hex_digits n z "" +:+ acc.
Proof.
  induction n as [|n IH]; intros z acc; cbn [hex_digits]; [done |].
  rewrite IH, (IH _ (String _ "")). by rewrite <- string_app_assoc.
Qed.

Lemma string_app_cons_inj s1 s2 c1 c2 r1 r2 :
  String.length s1 = String.length s2 -> s1 +:+ String c1 r1 = s2 +:+ String c2 r2 ->
  s1 = s2 /\ c1 = c2 /\ r1 = r2.
Proof.
  revert s2. induction s1 as [|a s1 IH]; intros [|b s2]; cbn; try done.
  - by intros _ [= -> ->].
  - intros [= Hl] [= -> H]. destruct (IH s2 Hl H) as (-> & -> & ->). done.
Qed.

Lemma string_length_app s t : String.length (s +:+ t) = (String.length s + String.length t)%nat.
Proof.
  induction s as [|c s IH]; [done |].
  change (S (String.length (s +:+ t)) = S (String.length s + String.length t)). by rewrite IH.
Qed.

Lemma length_hex_digits n : forall z, String.length (hex_digits n z "") = n.
Proof.
  induction n as [|n IH]; intros z; cbn [hex_digits]; [done |].
  rewrite hex_digits_app, string_length_app, IH. cbn. lia.
Qed.

Lemma hex_digit_inj a b : 0 <= a < 16 -> 0 <= b < 16 -> hex_digit a = hex_digit b -> a = b.
Proof.
  intros Ha Hb H. unfold hex_digit in H. apply (f_equal Ascii.nat_of_ascii) in H.
  rewrite !Ascii.nat_ascii_embedding in H by (bool_cases; lia). revert H. bool_cases; lia.
Qed.

Lemma hex_digits_inj n : forall a b, is_uint (4 * Z.of_nat n) a -> is_uint (4 * Z.of_nat n) b ->
  hex_digits n a "" = hex_digits n b "" -> a = b.
Proof.
  induction n as [|n IH]; intros a b Ha Hb H.
  - unfold is_uint in *. change (2 ^ (4 * Z.of_nat 0)) with 1 in *. lia.
  - cbn [hex_digits] in H. rewrite (hex_digits_app n (Z.shiftr a 4)), (hex_digits_app n (Z.shiftr b 4)) in H.
    apply string_app_cons_inj in H as (H1 & H2 & _); [|by rewrite !length_hex_digits].
    replace (4 * Z.of_nat (S n)) with (4 * Z.of_nat n + 4) in * by lia.
    assert (Hsh : forall x, is_uint (4 * Z.of_nat n + 4) x -> is_uint (4 * Z.of_nat n) (Z.shiftr x 4)).
    { intros x [Hx0 Hx]. rewrite Z.pow_add_r in Hx by lia. rewrite Z.shiftr_div_pow2 by lia.
      split; [apply Z.div_pos; lia | apply Z.div_lt_upper_bound; lia]. }
    apply IH in H1; [|by apply Hsh..].
    assert (Hlo : forall x, Z.land x 15 = x mod 2 ^ 4) by (intros x; apply (Z.land_ones x 4); lia).
    rewrite !Hlo in H2. apply hex_digit_inj in H2; [|apply Z.mod_pos_bound; lia..].
    rewrite !Z.shiftr_div_pow2 in H1 by lia. rewrite (Z.div_mod a (2 ^ 4)), (Z.div_mod b (2 ^ 4)) by lia. lia.
Qed.

(** * Theorems *)
Section Claims.
Variable registered : Z -> bool.
Variable send_outcome : Z -> ChannelCommand -> SendOutcome.
Let handle := ShmCommandListener_handle_notification registered send_outcome.

(** Nothing unsafe reaches a device: over any sequence of events, from any
    producers, every command handed to a channel belongs to a registered channel,
    is a Control or Adjustment of one of the events, and carries a finite value. *)
Theorem sent_commands_are_safe ns ch cmd :
  (ch, cmd) ∈ ls_sent (foldl handle ListenerState_new ns) ->
  registered ch = true /\ exists n pt, n ∈ ns /\ sn_channel_id n = ch /\
    ShmNotification_get_point_type n = Some pt /\ (pt = Control \/ pt = Adjustment) /\
    f64_is_finite (sn_value_bits n) = true /\
    cmd = ShmCommandListener_build_command pt (sn_point_id n) (sn_value_bits n)
            (to_signed 64 (sn_timestamp_ms n)) (sn_producer_id n) (sn_seq n).
Proof using.
  unfold handle. rewrite run_sent. cbn [ListenerState_new ls_sent ls_last_sequences app].
  intros (l & Hin & Hl)%list_elem_of_In%in_concat. apply list_elem_of_In in Hl.
  apply in_map_iff in Hin as (n & <- & Hn). apply list_elem_of_In in Hn.
  assert (Hsub : forall ns last, n ∈ accepted last ns -> n ∈ ns).
  { clear. induction ns as [|m ns IH]; intros last; cbn [accepted]; [done |]. rewrite elem_of_cons.
    destruct (ShmNotification_get_point_type m); [|intros; right; by eapply IH].
    destruct (accept_sequence last m); [|intros; right; by eapply IH].
    rewrite elem_of_cons. intros [-> | H]; [by left | right; by eapply IH]. }
  unfold sent_by in Hl. destruct (ShmNotification_get_point_type n) as [pt |] eqn:Ept; [|by apply not_elem_of_nil in Hl].
  destruct (f64_is_finite (sn_value_bits n)) eqn:Ef; [|by apply not_elem_of_nil in Hl].
  destruct (registered (sn_channel_id n)) eqn:Er; cbn [andb] in Hl; [|by apply not_elem_of_nil in Hl].
  destruct (send_outcome _ _); try by apply not_elem_of_nil in Hl.
  apply list_elem_of_singleton in Hl. injection Hl as -> ->. split; [done |].
  exists n, pt. split_and!; try done; [by eapply Hsub |].
  unfold ShmNotification_get_point_type in Ept.
  repeat match type of Ept with context [match ?x with _ => _ end] => destruct x; try discriminate end;
    injection Ept as <-; tauto.
Qed.

(** A connection's byte stream is processed event by event: frames sent back
    to back, followed by a partial frame, have exactly the effect of handling the
    encoded events in order; the partial frame has none. *)
Theorem connection_processes_frames s ns rest :
  Forall notification_wf ns -> (length rest < 48)%nat ->
  ShmCommandListener_handle_connection registered send_outcome s
    (concat (map ShmNotification_to_bytes ns) ++ rest) = foldl handle s ns.
Proof using.
  intros Hns Hrest. unfold ShmCommandListener_handle_connection, handle.
  rewrite (read_frames_spec (FR:=notification_frame)); [done | unfold ShmNotification_SIZE; lia | done | done].
Qed.
End Claims.

(** C6: at most once and in order, over every interleaving of the listener's tasks:
    whatever byte streams the connections carry, as long as their events come from
    one producer and their counters lie within 2^63 consecutive values (the counter
    may wrap at 2^64), and whatever the scheduler and the channels do, the accepted
    events of a point strictly advance in wrapping order across all connections;
    the commands handed to the channels are those of accepted events, each handed
    over at most once, and those of one connection in that order; an event is
    dropped as stale only when an event of its point at the same or a later counter
    was accepted. *)
Theorem commands_once_in_order P b streams schedule :
  Forall (Forall (from_window P b)) (map (read_frames (FR:=notification_frame)) streams) ->
  orderly (run_tasks (spawn_tasks streams) schedule).
Proof.
  intros Hw. pose proof (run_tasks_inv P b _ schedule Hw) as H. unfold tasks_of in H. rewrite map_map in H. by eapply run_orderly.
Qed.

(** Command ids identify the event: two 64-bit (producer, counter) pairs with
    the same formatted id are equal. *)
Theorem command_id_injective p1 s1 p2 s2 :
  is_uint 64 p1 -> is_uint 64 p2 -> 0 <= s1 -> 0 <= s2 ->
  format_command_id p1 s1 = format_command_id p2 s2 -> p1 = p2 /\ s1 = s2.
Proof.
  intros Hp1 Hp2 Hs1 Hs2 H. unfold format_command_id in H.
  assert (Hinj := hex_digits_inj 16 p1 p2 Hp1 Hp2).
  assert (Hl1 := length_hex_digits 16 p1). assert (Hl2 := length_hex_digits 16 p2).
  generalize dependent (hex_digits 16 p1 ""). generalize dependent (hex_digits 16 p2 "").
  intros g2 Hl2 g1 H Hinj Hl1. injection H as H.
  apply string_app_cons_inj in H as (Hh & _ & Hd); [|by rewrite Hl1, Hl2].
  split; [by apply Hinj |].
  apply (inj pretty) in Hd. apply Z2N.inj in Hd; done.
Qed.

Example command_id_sample : format_command_id 0xCAFEBABEDEADBEEF 42 = "uds-cafebabedeadbeef-42".
Proof. vm_compute. reflexivity. Qed.

(** * Witnesses *)
Definition cmd_event (seq value : Z) : ShmNotification := ShmNotification_new 1001 Control 5 value 1700000000000 77 seq.
Definition sample_events : list ShmNotification := [cmd_event 1 0; cmd_event 1 0; cmd_event 3 f64_one; cmd_event 2 0].
Definition all_registered (_ : Z) : bool := true.
Definition always_ok (_ : Z) (_ : ChannelCommand) : SendOutcome := SendOk.

Lemma cmd_event_wf seq value : is_uint 64 seq -> is_uint 64 value -> notification_wf (cmd_event seq value).
Proof.
  intros Hs Hv. split; cbn; try (unfold is_uint; lia); try done.
  split; [reflexivity |]. repeat constructor; unfold is_uint; lia.
Qed.

(** Two connections around the wrap of the counter, the older one read last: its
    replay of counter 2^64 - 1 is stale once counter 1 was accepted. *)
Definition wrapping_streams : list (list Z) :=
  [concat (map ShmNotification_to_bytes [cmd_event (2 ^ 64 - 2) 0; cmd_event (2 ^ 64 - 1) 0]);
   concat (map ShmNotification_to_bytes [cmd_event (2 ^ 64 - 2) 0; cmd_event 1 f64_one])].
Definition wrapping_schedule : list TaskEvent :=
  [TaskReads 0; TaskReads 1; TaskReads 1; TaskSends 1 true SendOk; TaskSends 0 true SendOk; TaskReads 0].

Lemma commands_once_in_order_witness :
  orderly (run_tasks (spawn_tasks wrapping_streams) wrapping_schedule) /\
  sy_log (run_tasks (spawn_tasks wrapping_streams) wrapping_schedule) =
    [(1, (cmd_event (2 ^ 64 - 2) 0, FStale)); (1, (cmd_event 1 f64_one, FHanded));
     (0, (cmd_event (2 ^ 64 - 2) 0, FHanded)); (0, (cmd_event (2 ^ 64 - 1) 0, FStale))]%nat.
Proof.
  split; [| vm_compute; reflexivity]. apply (commands_once_in_order 77 (2 ^ 64 - 2)).
  assert (E : map (read_frames (FR:=notification_frame)) wrapping_streams =
    [[cmd_event (2 ^ 64 - 2) 0; cmd_event (2 ^ 64 - 1) 0]; [cmd_event (2 ^ 64 - 2) 0; cmd_event 1 f64_one]]) by (vm_compute; reflexivity).
  rewrite E. repeat constructor; vm_compute; congruence.
Defined.

(** Across two connections the order is not kept beyond the filter: both commands of
    the point are accepted in order, and the later one reaches the channel first. *)
Lemma connections_reorder_commands :
  let y := run_tasks (tasks_of [[cmd_event 1 0]; [cmd_event 2 f64_one]])
             [TaskReads 0; TaskReads 1; TaskSends 1 true SendOk; TaskSends 0 true SendOk] in
  map snd (sy_accepted y) = [cmd_event 1 0; cmd_event 2 f64_one] /\
  map snd (handed_events y) = [cmd_event 2 f64_one; cmd_event 1 0].
Proof. vm_compute. done. Qed.

Lemma sent_commands_are_safe_witness : exists cmd,
  (1001, cmd) ∈ ls_sent (foldl (ShmCommandListener_handle_notification all_registered always_ok) ListenerState_new sample_events) /\
  exists n, n ∈ sample_events /\ f64_is_finite (sn_value_bits n) = true.
Proof.
  exists (ShmCommandListener_build_command Control 5 0 1700000000000 77 1).
  assert (Hin : (1001, ShmCommandListener_build_command Control 5 0 1700000000000 77 1) ∈
    ls_sent (foldl (ShmCommandListener_handle_notification all_registered always_ok) ListenerState_new sample_events)).
  { vm_compute. left. }
  split; [exact Hin |].
  destruct (sent_commands_are_safe all_registered always_ok sample_events _ _ Hin) as (_ & n & pt & Hn & _ & _ & _ & Hf & _).
  exists n. split; assumption.
Defined.

Lemma connection_processes_frames_witness :
  ls_sent (ShmCommandListener_handle_connection all_registered always_ok ListenerState_new
    (concat (map ShmNotification_to_bytes [cmd_event 1 0; cmd_event 3 f64_one]) ++ [1; 2; 3])) =
  ls_sent (foldl (ShmCommandListener_handle_notification all_registered always_ok) ListenerState_new
    [cmd_event 1 0; cmd_event 3 f64_one]).
Proof.
  rewrite (connection_processes_frames all_registered always_ok ListenerState_new
    [cmd_event 1 0; cmd_event 3 f64_one] [1; 2; 3]); [reflexivity | | cbn; lia].
  repeat constructor; cbn; try (unfold is_uint, f64_one; lia).
Defined.

Lemma command_id_injective_witness : 77 = 77 /\ 3 = 3.
Proof. apply (command_id_injective 77 3 77 3); unfold is_uint; lia || reflexivity. Defined.
