(* ===== verification/Reconnect.v ===== *)
(** Reconnection state machine: [services/comsrv/src/runtime/reconnect.rs].

    Instants and durations are nanoseconds on the monotonic clock; every operation
    that calls [Instant::now] takes the time as an argument.  [u32] and [u64]
    counters are [Z] values that wrap as a release build does.  The delay formula
    of [calculate_next_delay] changes no state and is not modelled: it uses [powi],
    whose precision is unspecified, and random jitter. *)
From stdpp Require Import base numbers list.
From Stdlib Require Import ZArith Lia.
From S2P Require Import Prelude.
Local Open Scope Z_scope.
Set Warnings "-clear-no-such-hyp".

(** * Data *)

Inductive ReconnectState := RConnected | RDisconnected | RReconnecting | RFailed.

#[export] Instance ReconnectState_eq_dec : EqDecision ReconnectState.
Proof. solve_decision. Defined.

Record AutoRecoveryPolicy := mkAutoRecoveryPolicy {
  ar_cooldown : Z;
  ar_max_recovery_rounds : Z;
}.

Record ReconnectPolicy := mkReconnectPolicy {
  rp_max_attempts : Z;
  rp_initial_delay : Z;
  rp_max_delay : Z;
  rp_backoff_multiplier : Z;
  rp_jitter : bool;
}.

Record ReconnectContext := mkReconnectContext {
  rc_current_attempt : Z;
  rc_last_attempt : option Z;
  rc_next_attempt : option Z;
  rc_connection_state : ReconnectState;
}.

Record ReconnectStats := mkReconnectStats {
  rs_total_attempts : Z;
  rs_successful_reconnects : Z;
  rs_failed_reconnects : Z;
  rs_last_connected : option Z;
  rs_connection_start : option Z;
}.

Record ReconnectHelper := mkReconnectHelper {
  rh_policy : ReconnectPolicy;
  rh_context : ReconnectContext;
  rh_stats : ReconnectStats;
  rh_auto_recovery : option AutoRecoveryPolicy;
  rh_failed_at : option Z;
  rh_recovery_rounds : Z;
}.

Definition ns_of_secs (s : Z) : Z := s * 1000000000.
Definition ns_of_millis (ms : Z) : Z := ms * 1000000.

Definition AutoRecoveryPolicy_default : AutoRecoveryPolicy := mkAutoRecoveryPolicy (ns_of_secs 300) 3.
(** [2.0] as a bit pattern. *)
Definition f64_two : Z := 0x4000000000000000.
Definition ReconnectPolicy_default : ReconnectPolicy :=
  mkReconnectPolicy 3 (ns_of_secs 1) (ns_of_secs 60) f64_two true.
Definition ReconnectPolicy_from_config (max_attempts initial_delay_ms max_delay_ms multiplier : Z) : ReconnectPolicy :=
  mkReconnectPolicy max_attempts (ns_of_millis initial_delay_ms) (ns_of_millis max_delay_ms) multiplier true.
Definition ReconnectContext_default : ReconnectContext := mkReconnectContext 0 None None RDisconnected.
Definition ReconnectStats_default : ReconnectStats := mkReconnectStats 0 0 0 None None.

(** * Operations *)

Definition with_context (h : ReconnectHelper) (c : ReconnectContext) : ReconnectHelper :=
  mkReconnectHelper (rh_policy h) c (rh_stats h) (rh_auto_recovery h) (rh_failed_at h) (rh_recovery_rounds h).
Definition with_stats (h : ReconnectHelper) (s : ReconnectStats) : ReconnectHelper :=
  mkReconnectHelper (rh_policy h) (rh_context h) s (rh_auto_recovery h) (rh_failed_at h) (rh_recovery_rounds h).
Definition with_failed_at (h : ReconnectHelper) (t : option Z) : ReconnectHelper :=
  mkReconnectHelper (rh_policy h) (rh_context h) (rh_stats h) (rh_auto_recovery h) t (rh_recovery_rounds h).
Definition with_rounds (h : ReconnectHelper) (n : Z) : ReconnectHelper :=
  mkReconnectHelper (rh_policy h) (rh_context h) (rh_stats h) (rh_auto_recovery h) (rh_failed_at h) n.
Definition set_state (c : ReconnectContext) (s : ReconnectState) : ReconnectContext :=
  mkReconnectContext (rc_current_attempt c) (rc_last_attempt c) (rc_next_attempt c) s.

Definition ReconnectHelper_new (policy : ReconnectPolicy) : ReconnectHelper :=
  mkReconnectHelper policy ReconnectContext_default ReconnectStats_default None None 0.

Definition ReconnectHelper_with_auto_recovery (h : ReconnectHelper) (policy : AutoRecoveryPolicy) : ReconnectHelper :=
  if 0 <? ar_max_recovery_rounds policy
  then mkReconnectHelper (rh_policy h) (rh_context h) (rh_stats h) (Some policy) (rh_failed_at h) (rh_recovery_rounds h)
  else h.

Definition ReconnectHelper_connection_state (h : ReconnectHelper) : ReconnectState :=
  rc_connection_state (rh_context h).

Definition ReconnectHelper_reset (h : ReconnectHelper) : ReconnectHelper :=
  let st := rc_connection_state (rh_context h) in
  with_context h (mkReconnectContext 0 None None (if decide (st = RConnected) then st else RDisconnected)).

(** [failed_at.elapsed()] saturates at zero. *)
Definition elapsed (now t : Z) : Z := saturating_sub now t.

Definition ReconnectHelper_check_auto_recovery (h : ReconnectHelper) (now : Z) : ReconnectHelper * bool :=
  match rh_auto_recovery h with
  | None => (h, false)
  | Some p =>
      if decide (ReconnectHelper_connection_state h <> RFailed) then (h, false)
      else
        let failed_at := default now (rh_failed_at h) in
        let h := with_failed_at h (Some failed_at) in
        if ar_max_recovery_rounds p <=? rh_recovery_rounds h then (h, false)
        else if elapsed now failed_at <? ar_cooldown p then (h, false)
        else
          (ReconnectHelper_reset (with_failed_at (with_rounds h (wrap 32 (rh_recovery_rounds h + 1))) None), true)
  end.

Definition ReconnectHelper_recovery_cooldown_remaining (h : ReconnectHelper) (now : Z) : option Z :=
  match rh_auto_recovery h with
  | None => None
  | Some p =>
      if decide (ReconnectHelper_connection_state h <> RFailed) then None
      else if ar_max_recovery_rounds p <=? rh_recovery_rounds h then None
      else
        match rh_failed_at h with
        | None => None
        | Some t => if ar_cooldown p <=? elapsed now t then Some 0 else Some (ar_cooldown p - elapsed now t)
        end
  end.

Definition ReconnectHelper_mark_connected (h : ReconnectHelper) (now : Z) : ReconnectHelper :=
  let c := rh_context h in let s := rh_stats h in
  mkReconnectHelper (rh_policy h)
    (mkReconnectContext 0 (rc_last_attempt c) (rc_next_attempt c) RConnected)
    (mkReconnectStats (rs_total_attempts s) (rs_successful_reconnects s) (rs_failed_reconnects s) (Some now) (Some now))
    (rh_auto_recovery h) None 0.

Definition ReconnectHelper_mark_disconnected (h : ReconnectHelper) : ReconnectHelper :=
  let s := rh_stats h in
  with_stats (with_context h (set_state (rh_context h) RDisconnected))
    (mkReconnectStats (rs_total_attempts s) (rs_successful_reconnects s) (rs_failed_reconnects s) (rs_last_connected s) None).

Definition attempts_exhausted (h : ReconnectHelper) : bool :=
  (0 <? rp_max_attempts (rh_policy h)) && (rp_max_attempts (rh_policy h) <=? rc_current_attempt (rh_context h)).

(** The branch both recorders take when the attempts are used up. *)
Definition enter_failed (h : ReconnectHelper) (now : Z) : ReconnectHelper :=
  with_failed_at (with_context h (set_state (rh_context h) RFailed)) (Some (default now (rh_failed_at h))).

Definition ReconnectHelper_record_attempt (h : ReconnectHelper) (now : Z) : ReconnectHelper * bool :=
  if attempts_exhausted h then (enter_failed h now, false)
  else
    let c := rh_context h in let s := rh_stats h in
    (with_stats
       (with_context h (mkReconnectContext (wrap 32 (rc_current_attempt c + 1)) (Some now) (rc_next_attempt c) RReconnecting))
       (mkReconnectStats (wrap 64 (rs_total_attempts s + 1)) (rs_successful_reconnects s) (rs_failed_reconnects s)
          (rs_last_connected s) (rs_connection_start s)), true).

Definition ReconnectHelper_record_failure (h : ReconnectHelper) (now : Z) : ReconnectHelper :=
  let s := rh_stats h in
  let h := with_stats h (mkReconnectStats (rs_total_attempts s) (rs_successful_reconnects s)
             (wrap 64 (rs_failed_reconnects s + 1)) (rs_last_connected s) (rs_connection_start s)) in
  if attempts_exhausted h then enter_failed h now
  else with_context h (set_state (rh_context h) RDisconnected).

(** * Sequences of operations *)

Inductive reconnect_op := OpAttempt | OpFailure | OpConnected | OpDisconnected | OpRecovery | OpReset.

(** One call at time [now]; the flag is the call's result ([true] for a call
    without one). *)
Definition reconnect_exec (h : ReconnectHelper) (o : reconnect_op) (now : Z) : ReconnectHelper * bool :=
  match o with
  | OpAttempt => ReconnectHelper_record_attempt h now
  | OpFailure => (ReconnectHelper_record_failure h now, true)
  | OpConnected => (ReconnectHelper_mark_connected h now, true)
  | OpDisconnected => (ReconnectHelper_mark_disconnected h, true)
  | OpRecovery => ReconnectHelper_check_auto_recovery h now
  | OpReset => (ReconnectHelper_reset h, true)
  end.

(** Runs the calls and counts the reconnection attempts that were allowed. *)
Fixpoint reconnect_run (h : ReconnectHelper) (os : list (reconnect_op * Z)) : ReconnectHelper * Z :=
  match os with
  | [] => (h, 0)
  | (o, now) :: os =>
      let '(h', r) := reconnect_exec h o now in
      let '(h'', n) := reconnect_run h' os in
      (h'', n + (match o with OpAttempt => if r then 1 else 0 | _ => 0 end))
  end.

Definition helper_of (policy : ReconnectPolicy) (ar : AutoRecoveryPolicy) : ReconnectHelper :=
  ReconnectHelper_with_auto_recovery (ReconnectHelper_new policy) ar.

Example three_attempts :
  let os := [(OpAttempt, 1); (OpFailure, 2); (OpAttempt, 3); (OpFailure, 4); (OpAttempt, 5); (OpFailure, 6);
             (OpAttempt, 7); (OpRecovery, 8); (OpAttempt, 9)] in
  let '(h, n) := reconnect_run (helper_of ReconnectPolicy_default AutoRecoveryPolicy_default) os in
  n = 3 /\ ReconnectHelper_connection_state h = RFailed /\ rh_failed_at h = Some 6.
Proof. vm_compute. repeat split; reflexivity. Qed.

(** * Invariant *)

(** The rounds a helper may still use. *)
Definition rounds_left (h : ReconnectHelper) : Z :=
  match rh_auto_recovery h with
  | None => 0
  | Some p => ar_max_recovery_rounds p - rh_recovery_rounds h
  end.

Record helper_wf (h : ReconnectHelper) : Prop := {
  hw_max : 0 < rp_max_attempts (rh_policy h) < 2 ^ 32;
  hw_attempt : 0 <= rc_current_attempt (rh_context h) <= rp_max_attempts (rh_policy h);
  hw_rounds : 0 <= rounds_left h;
  hw_round_count : 0 <= rh_recovery_rounds h;
  hw_round_width : forall p, rh_auto_recovery h = Some p -> ar_max_recovery_rounds p < 2 ^ 32;
  (** [Failed] is entered only with the attempts used up and the time recorded. *)
  hw_failed : ReconnectHelper_connection_state h = RFailed ->
    rc_current_attempt (rh_context h) = rp_max_attempts (rh_policy h) /\ is_Some (rh_failed_at h);
}.

(** Attempts the helper can still allow without a successful connection. *)
Definition budget (h : ReconnectHelper) : Z :=
  rp_max_attempts (rh_policy h) * rounds_left h + (rp_max_attempts (rh_policy h) - rc_current_attempt (rh_context h)).

Lemma budget_nonneg h : helper_wf h -> 0 <= budget h.
Proof. intros []. unfold budget. nia. Qed.

Lemma exhausted_spec h : helper_wf h ->
  attempts_exhausted h = true <-> rc_current_attempt (rh_context h) = rp_max_attempts (rh_policy h).
Proof. intros []. unfold attempts_exhausted. rewrite andb_true_iff, Z.ltb_lt, Z.leb_le. lia. Qed.

Lemma enter_failed_ok h now : helper_wf h -> attempts_exhausted h = true ->
  helper_wf (enter_failed h now) /\ budget (enter_failed h now) = budget h.
Proof.
  intros Hw He. apply exhausted_spec in He; [| done]. destruct Hw. split; [| done].
  split; cbn in *; done.
Qed.

Lemma attempt_ok h now : helper_wf h ->
  let '(h', r) := ReconnectHelper_record_attempt h now in
  helper_wf h' /\ budget h' = budget h - (if r then 1 else 0) /\
  rh_policy h' = rh_policy h /\ rh_auto_recovery h' = rh_auto_recovery h.
Proof.
  intros Hw. unfold ReconnectHelper_record_attempt. destruct (attempts_exhausted h) eqn:E.
  - destruct (enter_failed_ok h now Hw E) as [Hw' ->]. split; [done |]. split; [lia | done].
  - assert (Hlt : rc_current_attempt (rh_context h) <> rp_max_attempts (rh_policy h)).
    { intros H. apply exhausted_spec in H; [congruence | done]. }
    destruct Hw. assert (Hwr : wrap 32 (rc_current_attempt (rh_context h) + 1) = rc_current_attempt (rh_context h) + 1)
      by (apply wrap_small; unfold is_uint; lia).
    split; [| split; [unfold budget, rounds_left; cbn; rewrite Hwr; lia | done]].
    split; cbn in *; rewrite ?Hwr; try done; lia.
Qed.

Lemma failure_ok h now : helper_wf h ->
  helper_wf (ReconnectHelper_record_failure h now) /\ budget (ReconnectHelper_record_failure h now) = budget h.
Proof.
  intros Hw. unfold ReconnectHelper_record_failure. set (h' := with_stats h _).
  assert (Hw' : helper_wf h') by (destruct Hw; by split). change (budget h) with (budget h').
  destruct (attempts_exhausted h') eqn:E; [by apply enter_failed_ok |].
  destruct Hw'. split; [| done]. split; cbn in *; try done.
Qed.

Lemma recovery_ok h now : helper_wf h ->
  helper_wf (fst (ReconnectHelper_check_auto_recovery h now)) /\
  budget (fst (ReconnectHelper_check_auto_recovery h now)) = budget h.
Proof.
  intros Hw. unfold ReconnectHelper_check_auto_recovery.
  destruct (rh_auto_recovery h) as [p|] eqn:Ea; [| done]. case_decide as Hs; [done |].
 destruct (hw_failed h Hw Hs) as [Hatt [t Ht]]. rewrite Ht. change (default now (Some t)) with t. cbv zeta.
  assert (Hsame : with_failed_at h (Some t) = h) by (destruct h; cbn in *; by subst). rewrite Hsame.
  destruct (Z.leb_spec (ar_max_recovery_rounds p) (rh_recovery_rounds h)); [done |].
  destruct (Z.ltb_spec (elapsed now t) (ar_cooldown p)); [done |].
  destruct Hw. unfold rounds_left in *. rewrite Ea in *. specialize (hw_round_width0 p eq_refl).
  assert (Hwr : wrap 32 (rh_recovery_rounds h + 1) = rh_recovery_rounds h + 1)
    by (apply wrap_small; unfold is_uint; lia).
  cbn [fst]. unfold ReconnectHelper_reset, ReconnectHelper_connection_state in *. cbn. rewrite Hwr, Hs.
  rewrite decide_False by done. split.
  - split; cbn in *; unfold rounds_left; cbn; rewrite ?Ea; try done; try lia. intros p' Hp'. congruence.
  - unfold budget, rounds_left. cbn. rewrite Ea. nia.
Qed.

(** Calls that neither connect nor reset: the budget pays for every attempt. *)
Lemma run_budget os : forall h,
  helper_wf h -> Forall (fun x => fst x <> OpConnected /\ fst x <> OpReset) os ->
  let '(h', n) := reconnect_run h os in
  helper_wf h' /\ n + budget h' = budget h.
Proof.
  induction os as [|[o now] os IH]; intros h Hw Hos; [cbn; split; [done | lia] |].
  apply Forall_cons in Hos as [[Hc Hr] Hos]. cbn [fst] in Hc, Hr. cbn [reconnect_run].
  assert (Hstep : let '(h', r) := reconnect_exec h o now in
    helper_wf h' /\ budget h' + (match o with OpAttempt => if r then 1 else 0 | _ => 0 end) = budget h).
  { destruct o; try done; cbn [reconnect_exec].
    - pose proof (attempt_ok h now Hw) as Ha. destruct (ReconnectHelper_record_attempt h now) as [h' r].
      destruct Ha as (? & -> & _). split; [done | lia].
    - destruct (failure_ok h now Hw) as [? ->]. split; [done | lia].
    - destruct Hw. split; [by split | unfold budget, rounds_left; cbn; lia].
    - pose proof (recovery_ok h now Hw) as [? Hb]. destruct (ReconnectHelper_check_auto_recovery h now) as [h' r].
      cbn [fst] in *. split; [done | lia]. }
  destruct (reconnect_exec h o now) as [h' r]. destruct Hstep as [Hw' Hb]. specialize (IH h' Hw' Hos).
  destruct (reconnect_run h' os) as [h'' n]. destruct IH as [Hw'' Hn]. split; [done | lia].
Qed.

Lemma helper_of_wf policy ar :
  0 < rp_max_attempts policy < 2 ^ 32 -> 0 <= ar_max_recovery_rounds ar < 2 ^ 32 ->
  helper_wf (helper_of policy ar) /\
  budget (helper_of policy ar) = rp_max_attempts policy * (1 + ar_max_recovery_rounds ar).
Proof.
  intros Hp Ha. unfold helper_of, ReconnectHelper_with_auto_recovery.
  destruct (Z.ltb_spec 0 (ar_max_recovery_rounds ar)).
  - split; [| unfold budget, rounds_left; cbn; lia]. split; cbn; unfold rounds_left; cbn; try done; try lia.
    intros p [= <-]. lia.
  - assert (ar_max_recovery_rounds ar = 0) as -> by lia. split; [| unfold budget, rounds_left; cbn; lia].
    split; cbn; unfold rounds_left; cbn; try done; lia.
Qed.

(** * Theorems *)

(** The retries of a dead channel are bounded: whatever the order and timing of
    attempts, failures, disconnections and recovery checks, without a successful
    connection or a manual reset a helper allows at most
    [max_attempts * (1 + max_recovery_rounds)] reconnection attempts, and the
    attempt counter never passes its limit. *)
Theorem reconnect_attempts_bounded policy ar os :
  0 < rp_max_attempts policy < 2 ^ 32 -> 0 <= ar_max_recovery_rounds ar < 2 ^ 32 ->
  Forall (fun x => fst x <> OpConnected /\ fst x <> OpReset) os ->
  let '(h, n) := reconnect_run (helper_of policy ar) os in
  0 <= rc_current_attempt (rh_context h) <= rp_max_attempts (rh_policy h) /\
  n <= rp_max_attempts policy * (1 + ar_max_recovery_rounds ar).
Proof.
  intros Hp Ha Hos. destruct (helper_of_wf policy ar Hp Ha) as [Hw Hb].
  pose proof (run_budget os _ Hw Hos) as Hrun. destruct (reconnect_run (helper_of policy ar) os) as [h n].
  destruct Hrun as [Hw' Hn]. split; [apply Hw' |]. pose proof (budget_nonneg h Hw'). lia.
Qed.

(** Auto-recovery fires exactly on time: for a failed helper with rounds left,
    the reported remaining cooldown [r] is such that a later check triggers if and
    only if at least [r] has passed; when it triggers, one round is used and the
    helper is back in [Disconnected] with all its attempts available. *)
Theorem auto_recovery_on_time h now now' r :
  helper_wf h -> (forall t, rh_failed_at h = Some t -> t <= now) -> now <= now' ->
  ReconnectHelper_recovery_cooldown_remaining h now = Some r ->
  let '(h', fired) := ReconnectHelper_check_auto_recovery h now' in
  (fired = true <-> now + r <= now') /\
  (fired = true -> ReconnectHelper_connection_state h' = RDisconnected /\
     rc_current_attempt (rh_context h') = 0 /\ rounds_left h' = rounds_left h - 1 /\
     snd (ReconnectHelper_record_attempt h' now') = true) /\
  (fired = false -> h' = h).
Proof.
  intros Hw Hpast Hle Hr. unfold ReconnectHelper_recovery_cooldown_remaining in Hr.
  pose proof (recovery_ok h now' Hw) as [Hw' _].
  unfold ReconnectHelper_check_auto_recovery in *. destruct (rh_auto_recovery h) as [p|] eqn:Ea; [| done].
  case_decide as Hs; [done |]. 
  destruct (Z.leb_spec (ar_max_recovery_rounds p) (rh_recovery_rounds h)); [done |].
  destruct (rh_failed_at h) as [t|] eqn:Et; [| done]. change (default now' (Some t)) with t in *. cbv zeta in *. specialize (Hpast t eq_refl).
  assert (Hsame : with_failed_at h (Some t) = h) by (destruct h; cbn in *; by subst).
  assert (He : elapsed now t = now - t /\ elapsed now' t = now' - t) by (unfold elapsed, saturating_sub; lia).
  destruct He as [He He']. rewrite Hsame in *. rewrite He in Hr. rewrite He' in *.
  destruct (Z.leb_spec (ar_max_recovery_rounds p) (rh_recovery_rounds h)); [lia |].
  assert (Hround : wrap 32 (rh_recovery_rounds h + 1) = rh_recovery_rounds h + 1).
  { destruct Hw. specialize (hw_round_width0 p Ea). apply wrap_small. unfold is_uint. lia. }
  destruct (Z.ltb_spec (now' - t) (ar_cooldown p)) as [Hcold | Hfire].
  - split; [| split; [discriminate | done]]. split; [discriminate |].
    intros Hor. exfalso. destruct (Z.leb_spec (ar_cooldown p) (now - t)); injection Hr as <-; lia.
  - split; [| split; [| discriminate]].
    + split; [| done]. intros _. destruct (Z.leb_spec (ar_cooldown p) (now - t)); injection Hr as <-; lia.
    + intros _. unfold ReconnectHelper_reset, ReconnectHelper_connection_state in *. cbn in *.
      rewrite Hs, decide_False in * by done. unfold rounds_left. cbn. rewrite Ea, Hround.
      split; [done | split; [done | split; [lia |]]].
      unfold ReconnectHelper_record_attempt, attempts_exhausted. cbn. destruct Hw.
      rewrite (proj2 (Z.ltb_lt _ _)), (proj2 (Z.leb_gt _ _)) by lia. done.
Qed.

(** * Witnesses *)

Lemma reconnect_attempts_bounded_witness :
  let '(h, n) := reconnect_run (helper_of ReconnectPolicy_default AutoRecoveryPolicy_default) [(OpAttempt, 5); (OpFailure, 6)] in
  0 <= rc_current_attempt (rh_context h) <= rp_max_attempts (rh_policy h) /\ n <= 3 * (1 + 3).
Proof.
  apply (reconnect_attempts_bounded ReconnectPolicy_default AutoRecoveryPolicy_default); [cbn; lia | cbn; lia |].
  repeat constructor; discriminate.
Defined.

Definition failing_ops : list (reconnect_op * Z) :=
  [(OpAttempt, 1); (OpFailure, 2); (OpAttempt, 3); (OpFailure, 4); (OpAttempt, 5); (OpFailure, 6)].
Definition failed_helper : ReconnectHelper :=
  fst (reconnect_run (helper_of ReconnectPolicy_default AutoRecoveryPolicy_default) failing_ops).

Lemma failed_helper_wf : helper_wf failed_helper.
Proof.
  destruct (helper_of_wf ReconnectPolicy_default AutoRecoveryPolicy_default) as [Hw _]; [cbn; lia | cbn; lia |].
  pose proof (run_budget failing_ops _ Hw ltac:(repeat constructor; discriminate)) as Hrun.
  unfold failed_helper. destruct (reconnect_run _ failing_ops). apply Hrun.
Qed.

Lemma auto_recovery_on_time_witness :
  let '(h', fired) := ReconnectHelper_check_auto_recovery failed_helper (6 + ns_of_secs 300) in
  (fired = true <-> 10 + (ns_of_secs 300 - 4) <= 6 + ns_of_secs 300) /\
  (fired = true -> ReconnectHelper_connection_state h' = RDisconnected /\
     rc_current_attempt (rh_context h') = 0 /\ rounds_left h' = rounds_left failed_helper - 1 /\
     snd (ReconnectHelper_record_attempt h' (6 + ns_of_secs 300)) = true) /\
  (fired = false -> h' = failed_helper).
Proof.
  apply (auto_recovery_on_time failed_helper 10); [apply failed_helper_wf | | unfold ns_of_secs; lia | vm_compute; reflexivity].
  intros t Ht. vm_compute in Ht. injection Ht as <-. lia.
Defined.
