(* ===== verification/Calc.v ===== *)
(** Calculation library: [libs/voltage-calc/src/state.rs], [builtin_functions.rs]
    and [evaluator.rs].

    Stateful functions keep their state in a key-value store as JSON.  The store,
    the clock and the local calendar are classes; serde's JSON form of a state is
    the class [Serde].  Regular expressions and the expression evaluator are the
    crates regex and evalexpr: parameters.  [round] of [builtin_functions.rs] uses
    [powi] and is a parameter too.  An [f64] is its bit pattern. *)
From stdpp Require Import base numbers list gmap strings.
From Stdlib Require Import ZArith Lia.
From S2P Require Import Prelude Routing.
Local Open Scope Z_scope.
Set Warnings "-clear-no-such-hyp".
Set Warnings "-register-all".

Definition f64_nan : Z := 0x7FF8000000000000.
Definition f64_neg_zero : Z := 0x8000000000000000.

Inductive CalcError :=
| CalcExpression
| CalcVariableNotFound (name : string)
| CalcFunction
| CalcState.

(** [trait StateStore] and [Utc::now().timestamp()]; an inner [None] of [cw_get] is
    a missing key, an outer one an error of the backend. *)
Class CalcWorld (W : Type) := {
  cw_get : W -> string -> W * option (option (list Z));
  cw_set : W -> string -> list Z -> W * bool;
  cw_now : W -> W * Z;
}.

Class Serde (T : Type) := {
  to_vec : T -> list Z;
  from_slice : list Z -> option T;
}.

(** What chrono's [Local] gives of an instant (Unix seconds): its local date, the
    days since Monday, [with_day] and [with_month], and the instant of a local
    midnight when it is unique. *)
Class LocalCalendar := {
  cal_date : Z -> Z * Z * Z;
  cal_days_from_monday : Z -> Z;
  cal_with_day : Z -> Z -> option Z;
  cal_with_month : Z -> Z -> option Z;
  cal_midnight : Z * Z * Z -> option Z;
}.

(** * States *)

Record IntegrateState := mkIntegrate { in_last_ts : Z; in_accumulated : Z }.
Record RateOfChangeState := mkRate { ra_last_ts : Z; ra_last_value : Z }.
Record PeriodDeltaState := mkPeriod { pd_snapshot : Z; pd_period_start_ts : Z }.
Record MovingAvgState := mkMoving { ma_values : list Z; ma_position : nat; ma_count : nat }.

Definition MovingAvgState_new (window_size : nat) : MovingAvgState :=
  mkMoving (replicate (Nat.max window_size 1) f64_zero) 0 0.

(** [iter().sum()] starts from negative zero, the neutral element. *)
Definition f64_sum (l : list Z) : Z := foldl f64_add f64_neg_zero l.

Definition MovingAvgState_average (s : MovingAvgState) : Z :=
  if (ma_count s =? 0)%nat || (length (ma_values s) =? 0)%nat then f64_zero
  else
    let n := Nat.min (ma_count s) (length (ma_values s)) in
    f64_div (f64_sum (take n (ma_values s))) (f64_of_Z (Z.of_nat n)).

Definition MovingAvgState_add (s : MovingAvgState) (value : Z) : MovingAvgState * Z :=
  let s := match ma_values s with [] => mkMoving [f64_zero] 0 0 | _ => s end in
  let len := length (ma_values s) in
  let position := (ma_position s mod len)%nat in
  let values := <[position := value]> (ma_values s) in
  let count := if (ma_count s <? len)%nat then S (ma_count s) else ma_count s in
  let s := mkMoving values ((position + 1) mod len)%nat count in
  (s, MovingAvgState_average s).

Definition state_key (context func var : string) : string :=
  ("calc:state:" +:+ context +:+ ":" +:+ func +:+ ":" +:+ var)%string.

(** * Stateful functions *)
Section Builtin.
Context {W : Type} {CW : CalcWorld W}.
Context {SI : Serde IntegrateState} {SM : Serde MovingAvgState} {SR : Serde RateOfChangeState} {SP : Serde PeriodDeltaState}.
Context {CAL : LocalCalendar}.
Variable context : string.

(** [state_store.set(..).await?] followed by [Ok(v)]. *)
Definition save (w : W) (key : string) (data : list Z) (v : Z) : W * result Z CalcError :=
  let '(w, ok) := cw_set w key data in (w, if ok then Ok v else Err CalcState).

Definition BuiltinFunctions_integrate (w : W) (var_name : string) (value unit_factor : Z) : W * result Z CalcError :=
  let key := state_key context "integrate" var_name in
  let '(w, secs) := cw_now w in
  let now := f64_of_Z secs in
  let '(w, got) := cw_get w key in
  match got with
  | None => (w, Err CalcState)
  | Some None => save w key (to_vec (mkIntegrate now f64_zero)) f64_zero
  | Some (Some data) =>
      match from_slice data with
      | None => (w, Err CalcState)
      | Some state =>
          let dt := f64_sub now (in_last_ts state) in
          if f64_leb dt f64_zero then (w, Ok (in_accumulated state))
          else
            let delta := f64_mul (f64_mul value dt) unit_factor in
            let new_accumulated := f64_add (in_accumulated state) delta in
            save w key (to_vec (mkIntegrate now new_accumulated)) new_accumulated
      end
  end.

Definition BuiltinFunctions_moving_avg (w : W) (var_name : string) (value : Z) (window : nat) : W * result Z CalcError :=
  if (window =? 0)%nat then (w, Err CalcFunction)
  else
    let key := state_key context "moving_avg" var_name in
    let '(w, got) := cw_get w key in
    let state :=
      match got with
      | None => Err CalcState
      | Some None => Ok (MovingAvgState_new window)
      | Some (Some data) =>
          match from_slice data with
          | None => Err CalcState
          | Some s => Ok (if (length (ma_values s) =? window)%nat then s else MovingAvgState_new window)
          end
      end in
    match state with
    | Err e => (w, Err e)
    | Ok state => let '(state, avg) := MovingAvgState_add state value in save w key (to_vec state) avg
    end.

Definition BuiltinFunctions_rate_of_change (w : W) (var_name : string) (value : Z) : W * result Z CalcError :=
  let key := state_key context "rate" var_name in
  let '(w, secs) := cw_now w in
  let now := f64_of_Z secs in
  let '(w, got) := cw_get w key in
  match got with
  | None => (w, Err CalcState)
  | Some None => save w key (to_vec (mkRate now value)) f64_nan
  | Some (Some data) =>
      match from_slice data with
      | None => (w, Err CalcState)
      | Some state =>
          let dt := f64_sub now (ra_last_ts state) in
          let rate := if f64_ltb f64_zero dt then f64_div (f64_sub value (ra_last_value state)) dt else f64_nan in
          save w key (to_vec (mkRate now value)) rate
      end
  end.

Definition midnight_or_now (now : Z) (at_date : option Z) : Z :=
  default now (at_date ≫= fun t => cal_midnight (cal_date t)).

Definition get_period_start (now : Z) (period : string) : Z :=
  if String.eqb period "daily" then midnight_or_now now (Some now)
  else if String.eqb period "weekly" then
    midnight_or_now now (Some (now - cal_days_from_monday now * 86400))
  else if String.eqb period "monthly" then midnight_or_now now (cal_with_day now 1)
  else if String.eqb period "quarterly" then
    let month := (cal_date now).1.2 in
    let quarter_month := (month - 1) / 3 * 3 + 1 in
    midnight_or_now now (cal_with_month now quarter_month ≫= fun t => cal_with_day t 1)
  else now.

(** One call of [period_delta] after the state is loaded: rotation at a new period,
    then the reset of a counter that went down. *)
Definition period_step (state : PeriodDeltaState) (current_period_start value : Z) : PeriodDeltaState * Z :=
  let state := if pd_period_start_ts state <? current_period_start
               then mkPeriod value current_period_start else state in
  let state := if f64_ltb value (pd_snapshot state) then mkPeriod value (pd_period_start_ts state) else state in
  (state, f64_sub value (pd_snapshot state)).

Definition BuiltinFunctions_period_delta (w : W) (var_name : string) (value : Z) (period : string)
    : W * result Z CalcError :=
  let key := state_key context "period_delta" (var_name +:+ "_" +:+ period)%string in
  let '(w, now) := cw_now w in
  let '(w, got) := cw_get w key in
  match got with
  | None => (w, Err CalcState)
  | Some None => save w key (to_vec (mkPeriod value (get_period_start now period))) f64_nan
  | Some (Some data) =>
      match from_slice data with
      | None => (w, Err CalcState)
      | Some state =>
          let '(state, delta) := period_step state (get_period_start now period) value in
          save w key (to_vec state) delta
      end
  end.

(** * Stateless functions *)

Definition calc_scale (value factor : Z) : Z := f64_mul value factor.
Definition calc_clamp (value min max : Z) : Z :=
  if f64_is_nan min || f64_is_nan max then value
  else
    let '(lo, hi) := if f64_leb min max then (min, max) else (max, min) in
    if f64_ltb value lo then lo else if f64_ltb hi value then hi else value.
Definition calc_abs (value : Z) : Z := f64_abs value.
Definition calc_min (a b : Z) : Z :=
  if f64_is_nan a then b else if f64_is_nan b then a else if f64_ltb b a then b else a.
Definition calc_max (a b : Z) : Z :=
  if f64_is_nan a then b else if f64_is_nan b then a else if f64_ltb a b then b else a.
Definition calc_sign (value : Z) : Z :=
  if f64_ltb f64_zero value then f64_one
  else if f64_ltb value f64_zero then f64_of_Z (-1) else f64_zero.

(** * Expression evaluation *)

Inductive EvalValue := EvalFloat (f : Z) | EvalInt (i : Z) | EvalBool (b : bool) | EvalTuple (vs : list EvalValue) | EvalOther.

(** A match of a stateful call in a formula: its byte range and captured groups. *)
Record Capture := mkCapture { cap_start : nat; cap_end : nat; cap_var : string; cap_arg : option string }.

(** [Regex::captures_iter] of RE_INTEGRATE, RE_MOVING_AVG, RE_RATE_OF_CHANGE. *)
Variable captures_iter : string -> string -> list Capture.
(** [evalexpr::eval_with_context] with registered functions and variables. *)
Variable eval_with_context : (string -> EvalValue -> option EvalValue) -> gmap string Z -> string -> option EvalValue.
Variable parse_f64 : string -> option Z.
Variable f64_to_string : Z -> string.
(** [(value * 10^decimals).round() / 10^decimals] *)
Variable calc_round : Z -> Z -> Z.

Definition eval_to_f64 (v : EvalValue) : option Z :=
  match v with EvalFloat f => Some f | EvalInt i => Some (f64_of_Z i) | _ => None end.
Definition args2 (v : EvalValue) : option (EvalValue * EvalValue) :=
  match v with EvalTuple [a; b] => Some (a, b) | _ => None end.
Definition args3 (v : EvalValue) : option (EvalValue * EvalValue * EvalValue) :=
  match v with EvalTuple [a; b; c] => Some (a, b, c) | _ => None end.
Definition numeric2 (f : Z -> Z -> Z) (args : EvalValue) : option EvalValue :=
  args2 args ≫= fun '(a, b) => eval_to_f64 a ≫= fun a => eval_to_f64 b ≫= fun b => Some (EvalFloat (f a b)).

(** The functions of [register_stateless_functions] by name. *)
Definition stateless_function (name : string) (args : EvalValue) : option EvalValue :=
  if String.eqb name "scale" then numeric2 calc_scale args
  else if String.eqb name "clamp" then
    args3 args ≫= fun '(v, lo, hi) => eval_to_f64 v ≫= fun v => eval_to_f64 lo ≫= fun lo => eval_to_f64 hi ≫= fun hi =>
    if f64_is_nan lo || f64_is_nan hi || f64_ltb hi lo then None else Some (EvalFloat (calc_clamp v lo hi))
  else if String.eqb name "abs" then EvalFloat <$> (calc_abs <$> eval_to_f64 args)
  else if String.eqb name "min" then numeric2 calc_min args
  else if String.eqb name "max" then numeric2 calc_max args
  else if String.eqb name "round" then
    args2 args ≫= fun '(v, d) => eval_to_f64 v ≫= fun v =>
    match d with
    | EvalInt d => Some (EvalFloat (calc_round v (Z.max (- 2 ^ 31) (Z.min d (2 ^ 31 - 1)))))
    | _ => None
    end
  else if String.eqb name "sign" then EvalFloat <$> (calc_sign <$> eval_to_f64 args)
  else None.

Definition value_to_f64 (v : EvalValue) : option Z :=
  match v with
  | EvalFloat f => Some f
  | EvalInt i => Some (f64_of_Z i)
  | EvalBool b => Some (if b then f64_one else f64_zero)
  | _ => None
  end.

Definition CalcEngine_evaluate_simple (formula : string) (variables : gmap string Z) : result Z CalcError :=
  ok_or (eval_with_context stateless_function variables formula ≫= value_to_f64) CalcExpression.

(** [result.replace_range(range, text)] *)
Definition replace_range (s : string) (i j : nat) (text : string) : string :=
  (String.substring 0 i s +:+ text +:+ String.substring j (String.length s - j) s)%string.

(** The loop of the three [process_*] functions over the matches, last one first;
    [call] is the stateful function. *)
Fixpoint process_matches (call : W -> Capture -> Z -> W * result Z CalcError) (w : W)
    (variables : gmap string Z) (ms : list Capture) (formula : string) : W * result string CalcError :=
  match ms with
  | [] => (w, Ok formula)
  | m :: ms =>
      match variables !! cap_var m with
      | None => (w, Err (CalcVariableNotFound (cap_var m)))
      | Some value =>
          let '(w, r) := call w m value in
          match r with
          | Err e => (w, Err e)
          | Ok v => process_matches call w variables ms (replace_range formula (cap_start m) (cap_end m) (f64_to_string v))
          end
      end
  end.

Definition integrate_factor (m : Capture) : Z := default f64_one (cap_arg m ≫= parse_f64).
(** [parse::<usize>] of the captured digits; a match that overflows is dropped. *)
Fixpoint parse_usize (s : string) (acc : Z) : option nat :=
  match s with
  | EmptyString => Some (Z.to_nat acc)
  | String a s' =>
      match digit_value a with
      | None => None
      | Some d => let v := acc * 10 + d in if 2 ^ 64 <=? v then None else parse_usize s' v
      end
  end.
Definition window_of (m : Capture) : option nat := cap_arg m ≫= fun s => parse_usize s 0.

Definition process_integrate (w : W) (formula : string) (variables : gmap string Z) : W * result string CalcError :=
  process_matches (fun w m v => BuiltinFunctions_integrate w (cap_var m) v (integrate_factor m)) w variables
    (reverse (captures_iter "integrate" formula)) formula.
Definition process_moving_avg (w : W) (formula : string) (variables : gmap string Z) : W * result string CalcError :=
  process_matches (fun w m v => BuiltinFunctions_moving_avg w (cap_var m) v (default 0%nat (window_of m))) w variables
    (reverse (filter (fun m => is_Some (window_of m)) (captures_iter "moving_avg" formula))) formula.
Definition process_rate_of_change (w : W) (formula : string) (variables : gmap string Z) : W * result string CalcError :=
  process_matches (fun w m v => BuiltinFunctions_rate_of_change w (cap_var m) v) w variables
    (reverse (captures_iter "rate_of_change" formula)) formula.

Definition CalcEngine_evaluate (w : W) (formula : string) (variables : gmap string Z) : W * result Z CalcError :=
  let '(w, f1) := process_integrate w formula variables in
  match f1 with
  | Err e => (w, Err e)
  | Ok f1 =>
      let '(w, f2) := process_moving_avg w f1 variables in
      match f2 with
      | Err e => (w, Err e)
      | Ok f2 =>
          let '(w, f3) := process_rate_of_change w f2 variables in
          match f3 with
          | Err e => (w, Err e)
          | Ok f3 => (w, CalcEngine_evaluate_simple f3 variables)
          end
      end
  end.
End Builtin.

(** * The in-memory store and a clock *)

(** [MemoryStateStore] with the instants the clock will show. *)
Record MemoryWorld := mkMemoryWorld { mw_data : gmap string (list Z); mw_times : list Z }.
#[export] Instance memory_calc_world : CalcWorld MemoryWorld := {
  cw_get w key := (w, Some (mw_data w !! key));
  cw_set w key value := (mkMemoryWorld (<[key := value]> (mw_data w)) (mw_times w), true);
  cw_now w := (mkMemoryWorld (mw_data w) (tail (mw_times w)), hd 0 (mw_times w));
}.

(** * Moving averages *)

Definition ma_run (s : MovingAvgState) (vs : list Z) : MovingAvgState :=
  foldl (fun s v => (MovingAvgState_add s v).1) s vs.

(** The [n]-th sample is at position [n mod w] until it is overwritten. *)
Record window_inv (w : nat) (vs : list Z) (s : MovingAvgState) : Prop := {
  wi_len : length (ma_values s) = w;
  wi_count : ma_count s = Nat.min (length vs) w;
  wi_position : ma_position s = (length vs mod w)%nat;
  wi_samples : forall j, (length vs - w <= j < length vs)%nat -> ma_values s !! (j mod w)%nat = vs !! j
}.

Lemma window_new w : (0 < w)%nat -> window_inv w [] (MovingAvgState_new w).
Proof.
  intros Hw. split; cbn -[Nat.max]; [| done | by rewrite Nat.Div0.mod_0_l | intros j Hj; lia].
  rewrite length_replicate. lia.
Qed.

Lemma mod_neq w i n : (0 < w)%nat -> (i < n)%nat -> (n < i + w)%nat -> (i mod w <> n mod w)%nat.
Proof.
  intros Hw H1 H2 Heq. pose proof (Nat.div_mod_eq i w) as Hi. pose proof (Nat.div_mod_eq n w) as Hn.
  assert (n - i = w * (n / w - i / w))%nat as Hd by (rewrite Nat.mul_sub_distr_l; lia).
  destruct (n / w - i / w)%nat; nia.
Qed.

Lemma window_add w vs s v :
  (0 < w)%nat -> window_inv w vs s -> window_inv w (vs ++ [v]) (MovingAvgState_add s v).1.
Proof.
  intros Hw [Hl Hc Hp Hs]. unfold MovingAvgState_add.
  destruct (ma_values s) as [|x xs] eqn:E; [cbn in Hl; lia |]. rewrite <- E in *. clear E x xs.
  rewrite Hp, Hl, Nat.Div0.mod_mod. cbn [fst]. split; cbn [ma_values ma_count ma_position].
  - by rewrite length_insert.
  - rewrite length_app, Hc. cbn [length]. case_match; bool_hyps; lia.
  - rewrite length_app. cbn [length]. by rewrite Nat.Div0.add_mod_idemp_l.
  - rewrite length_app. cbn [length]. intros j Hj. destruct (decide (j = length vs)) as [-> | Hne].
    + rewrite list_lookup_insert_eq by (rewrite Hl; apply Nat.mod_upper_bound; lia).
      by rewrite lookup_app_r, Nat.sub_diag by lia.
    + rewrite list_lookup_insert_ne by (apply not_eq_sym, mod_neq; lia).
      rewrite lookup_app_l by lia. apply Hs. lia.
Qed.

Lemma window_run w vs : (0 < w)%nat -> window_inv w vs (ma_run (MovingAvgState_new w) vs).
Proof.
  intros Hw. induction vs as [|v vs IH] using rev_ind; [by apply window_new |].
  unfold ma_run in *. rewrite foldl_app. cbn [foldl]. by apply window_add.
Qed.

Lemma rotate_perm (l : list Z) n : rotate n l ≡ₚ l.
Proof. unfold rotate. by rewrite Permutation_app_comm, take_drop. Qed.

(** The buffer holds the last [w] samples, in some order. *)
Lemma window_content w vs s :
  (0 < w)%nat -> window_inv w vs s -> take (ma_count s) (ma_values s) ≡ₚ drop (length vs - w) vs.
Proof.
  intros Hw [Hl Hc Hp Hs]. rewrite Hc. destruct (decide (length vs <= w)%nat) as [Hle | Hgt].
  - replace (length vs - w)%nat with 0%nat by lia. rewrite drop_0, Nat.min_l by lia. apply reflexive_eq.
    apply list_eq. intros i. destruct (decide (i < length vs)%nat) as [Hi | Hi].
    + rewrite lookup_take_lt by lia. rewrite <- Hs by lia. destruct (decide (i = w)); [lia |].
      by rewrite Nat.mod_small by lia.
    + rewrite !lookup_ge_None_2; [done | lia |]. rewrite length_take. lia.
  - rewrite Nat.min_r by lia. rewrite take_ge by lia. rewrite <- (rotate_perm (ma_values s) (length vs)).
    apply reflexive_eq, list_eq. intros i. rewrite lookup_drop. destruct (decide (i < w)%nat) as [Hi | Hi].
    + rewrite lookup_rotate_r by lia. rewrite Hl. unfold rotate_nat_add.
      rewrite <- Nat2Z.inj_add, <- Nat2Z.inj_mod, Nat2Z.id. rewrite <- Hs by lia. f_equal.
      replace (length vs + i)%nat with (length vs - w + i + 1 * w)%nat by lia. by rewrite Nat.Div0.mod_add.
    + rewrite !lookup_ge_None_2; [done | lia |]. rewrite length_rotate. lia.
Qed.

Lemma window_average w vs s :
  (0 < w)%nat -> vs <> [] -> window_inv w vs s ->
  exists buf, buf ≡ₚ drop (length vs - w) vs /\
    MovingAvgState_average s = f64_div (f64_sum buf) (f64_of_Z (Z.of_nat (length buf))).
Proof.
  intros Hw Hne Hi. exists (take (ma_count s) (ma_values s)). split; [by apply window_content |].
  destruct Hi as [Hl Hc _ _]. assert (0 < length vs)%nat by (destruct vs; cbn; [done | lia]).
  unfold MovingAvgState_average. rewrite (proj2 (Nat.eqb_neq _ _)) by lia. rewrite (proj2 (Nat.eqb_neq _ _)) by lia.
  cbn [orb]. rewrite length_take, Hl, Hc. by rewrite (Nat.min_l (Nat.min _ _)) by lia.
Qed.

Definition all_finite (vs : list Z) : Prop := Forall (fun v => f64_is_finite v = true) vs.

Lemma window_finite vs w : all_finite vs -> all_finite (ma_values (ma_run (MovingAvgState_new w) vs)).
Proof.
  intros Hf. induction vs as [|v vs IH] using rev_ind; [by apply Forall_replicate |].
  apply Forall_app in Hf as [Hf [Hv _]%Forall_cons]. specialize (IH Hf).
  - unfold ma_run in *. rewrite foldl_app. cbn [foldl]. unfold MovingAvgState_add.
    destruct (foldl _ _ _) as [vals pos cnt]. cbn [ma_values] in *.
    destruct vals; cbn [fst ma_values]; apply Forall_insert; done || by repeat constructor.
Qed.

Section MovingAvg.
Context {SM : Serde MovingAvgState}.
Variable context var : string.
Variable window : nat.
(** JSON carries finite numbers exactly; a NaN or an infinity is written as null,
    which does not parse as a number. *)
Hypothesis serde_finite : forall s, all_finite (ma_values s) -> from_slice (to_vec s) = Some s.
Hypothesis serde_null : forall s, ~ all_finite (ma_values s) -> from_slice (to_vec s) = None.

Definition avg_calls (w : MemoryWorld) (vs : list Z) : MemoryWorld :=
  foldl (fun w v => (BuiltinFunctions_moving_avg context w var v window).1) w vs.

Definition avg_key : string := state_key context "moving_avg" var.

Lemma avg_call_first w v :
  (0 < window)%nat -> mw_data w !! avg_key = None ->
  BuiltinFunctions_moving_avg context w var v window =
  let '(s, avg) := MovingAvgState_add (MovingAvgState_new window) v in
  (mkMemoryWorld (<[avg_key := to_vec s]> (mw_data w)) (mw_times w), Ok avg).
Proof.
  intros Hw Hn. unfold BuiltinFunctions_moving_avg. rewrite (proj2 (Nat.eqb_neq _ _)) by lia.
  cbn [cw_get memory_calc_world]. fold avg_key. rewrite Hn. by destruct (MovingAvgState_add _ v).
Qed.

Lemma avg_call_next w s v :
  (0 < window)%nat -> mw_data w !! avg_key = Some (to_vec s) -> all_finite (ma_values s) ->
  length (ma_values s) = window ->
  BuiltinFunctions_moving_avg context w var v window =
  let '(s, avg) := MovingAvgState_add s v in
  (mkMemoryWorld (<[avg_key := to_vec s]> (mw_data w)) (mw_times w), Ok avg).
Proof using serde_finite.
  intros Hw Hs Hf Hl. unfold BuiltinFunctions_moving_avg. rewrite (proj2 (Nat.eqb_neq _ _)) by lia.
  cbn [cw_get memory_calc_world]. fold avg_key. rewrite Hs, serde_finite by done.
  rewrite Hl, Nat.eqb_refl. by destruct (MovingAvgState_add _ v).
Qed.

(** A call after finite samples: the stored state and the result are those of the
    samples so far. *)
Lemma avg_call_run w vs v :
  (0 < window)%nat -> mw_data w !! avg_key = None -> all_finite vs ->
  let s := ma_run (MovingAvgState_new window) (vs ++ [v]) in
  let '(w', r) := BuiltinFunctions_moving_avg context (avg_calls w vs) var v window in
  mw_data w' !! avg_key = Some (to_vec s) /\ r = Ok (MovingAvgState_average s).
Proof using serde_finite.
  intros Hw Hn Hfx. revert v. induction vs as [|x vs IH] using rev_ind; intros v.
  - cbn zeta. cbn [app]. cbn [avg_calls ma_run foldl]. rewrite avg_call_first by done.
    destruct (MovingAvgState_add _ v) as [s avg] eqn:E. cbn. rewrite lookup_insert_eq. split; [done |].
    by injection E as <- <-.
  - assert (Hk : mw_data (avg_calls w (vs ++ [x])) !! avg_key = Some (to_vec (ma_run (MovingAvgState_new window) (vs ++ [x])))).
    { apply Forall_app in Hfx as [Hf _]. specialize (IH Hf x). cbn zeta in IH. unfold avg_calls. rewrite foldl_app. cbn [foldl]. fold (avg_calls w vs).
      destruct (BuiltinFunctions_moving_avg _ _ _ x _). apply IH. }
    rewrite (avg_call_next _ _ _ Hw Hk) by (try apply window_finite; try apply window_run; done).
    assert (Hrun : ma_run (MovingAvgState_new window) ((vs ++ [x]) ++ [v]) =
      (MovingAvgState_add (ma_run (MovingAvgState_new window) (vs ++ [x])) v).1) by (unfold ma_run; by rewrite foldl_app).
    cbn zeta. rewrite Hrun. destruct (MovingAvgState_add _ v) as [s avg] eqn:E. cbn. rewrite lookup_insert_eq. split; [done |].
    by injection E as <- <-.
Qed.

(** The moving average is the average of the last [window] samples: after any
    sequence of finite samples, a call returns the sum of exactly the last
    [window] of them (fewer while the window fills), in buffer order, divided by
    their number. *)
Theorem moving_avg_of_last_samples w vs v :
  (0 < window)%nat -> mw_data w !! avg_key = None -> all_finite vs ->
  exists buf, buf ≡ₚ drop (S (length vs) - window) (vs ++ [v]) /\
    snd (BuiltinFunctions_moving_avg context (avg_calls w vs) var v window) =
    Ok (f64_div (f64_sum buf) (f64_of_Z (Z.of_nat (length buf)))).
Proof using serde_finite.
  intros Hw Hn Hf. destruct (window_average window (vs ++ [v]) (ma_run (MovingAvgState_new window) (vs ++ [v])))
    as (buf & Hp & Ha); [done | by destruct vs | by apply window_run |].
  exists buf. rewrite length_app in Hp. cbn [length] in Hp. rewrite Nat.add_1_r in Hp.
  split; [done |]. pose proof (avg_call_run w vs v Hw Hn Hf) as Hr. cbn zeta in Hr.
  destruct (BuiltinFunctions_moving_avg _ _ _ v _). destruct Hr as [_ ->]. cbn. by rewrite Ha.
Qed.

(** One infinite sample, such as the quotient of a division by zero, is stored as
    null: every later call with the window unchanged fails and leaves the state. *)
Theorem moving_avg_poisoned w vs v vs' v' :
  (0 < window)%nat -> mw_data w !! avg_key = None -> all_finite vs -> f64_is_finite v = false ->
  snd (BuiltinFunctions_moving_avg context (avg_calls w (vs ++ v :: vs')) var v' window) = Err CalcState.
Proof using serde_finite serde_null.
  intros Hw Hn Hf Hv.
  assert (Hbad : ~ all_finite (ma_values (ma_run (MovingAvgState_new window) (vs ++ [v])))).
  { destruct (window_run window (vs ++ [v]) Hw) as [Hl _ _ Hs]. rewrite length_app in Hs. cbn [length] in Hs.
    specialize (Hs (length vs) ltac:(lia)). rewrite lookup_app_r, Nat.sub_diag in Hs by lia. cbn in Hs.
    intros Hall. eapply Forall_lookup_1 in Hs; [| exact Hall]. cbn in Hs. congruence. }
  assert (Hstep : forall w x, mw_data w !! avg_key = Some (to_vec (ma_run (MovingAvgState_new window) (vs ++ [v]))) ->
    BuiltinFunctions_moving_avg context w var x window = (w, Err CalcState)).
  { intros w' x Hk. unfold BuiltinFunctions_moving_avg. rewrite (proj2 (Nat.eqb_neq _ _)) by lia.
    cbn [cw_get memory_calc_world]. fold avg_key. by rewrite Hk, serde_null. }
  assert (Hk : mw_data (avg_calls w (vs ++ [v])) !! avg_key = Some (to_vec (ma_run (MovingAvgState_new window) (vs ++ [v])))).
  { pose proof (avg_call_run w vs v Hw Hn Hf) as Hr. cbn zeta in Hr. unfold avg_calls. rewrite foldl_app. cbn [foldl].
    fold (avg_calls w vs). destruct (BuiltinFunctions_moving_avg _ _ _ v _). apply Hr. }
  replace (vs ++ v :: vs') with ((vs ++ [v]) ++ vs') by by rewrite <- app_assoc.
  unfold avg_calls at 1. rewrite foldl_app. fold (avg_calls w (vs ++ [v])).
  assert (Hfix : foldl (fun w v => (BuiltinFunctions_moving_avg context w var v window).1) (avg_calls w (vs ++ [v])) vs' = avg_calls w (vs ++ [v])).
  { induction vs' as [|x vs' IH]; [done |]. cbn [foldl]. by rewrite Hstep. }
  by rewrite Hfix, Hstep.
Qed.
End MovingAvg.

(** * Period deltas *)

Lemma f64_ltb_irrefl v : f64_ltb v v = false.
Proof.
  unfold f64_ltb, SpecFloat.SFltb. destruct (f64_to_sf v) as [[]|[]| |[] m e]; cbn; try done;
    rewrite Z.compare_refl, Pos.compare_cont_refl; done.
Qed.

Section PeriodDelta.
Context {SP : Serde PeriodDeltaState} {CAL : LocalCalendar}.
Variable context var period : string.
Hypothesis serde_period : forall s, f64_is_finite (pd_snapshot s) = true -> from_slice (to_vec s) = Some s.

Definition delta_key : string := state_key context "period_delta" (var +:+ "_" +:+ period)%string.

(** A call at time [tv.1] with counter reading [tv.2]. *)
Definition delta_call (d : gmap string (list Z)) (tv : Z * Z) : gmap string (list Z) * result Z CalcError :=
  let '(w, r) := BuiltinFunctions_period_delta context (mkMemoryWorld d [tv.1]) var tv.2 period in (mw_data w, r).
Definition delta_calls (d : gmap string (list Z)) (tvs : list (Z * Z)) : gmap string (list Z) :=
  foldl (fun d tv => (delta_call d tv).1) d tvs.
Definition start_of (tv : Z * Z) : Z := get_period_start tv.1 period.

Lemma delta_call_first d tv :
  d !! delta_key = None ->
  delta_call d tv = (<[delta_key := to_vec (mkPeriod tv.2 (start_of tv))]> d, Ok f64_nan).
Proof. intros Hd. unfold delta_call, BuiltinFunctions_period_delta. cbn -[state_key]. fold delta_key. by rewrite Hd. Qed.

Lemma delta_call_next d tv s :
  d !! delta_key = Some (to_vec s) -> f64_is_finite (pd_snapshot s) = true ->
  delta_call d tv =
  let '(s', delta) := period_step s (start_of tv) tv.2 in (<[delta_key := to_vec s']> d, Ok delta).
Proof using serde_period.
  intros Hd Hf. unfold delta_call, BuiltinFunctions_period_delta. cbn -[state_key period_step]. fold delta_key.
  rewrite Hd, serde_period by done. fold (start_of tv). by destruct (period_step _ _ _).
Qed.

(** What the store holds after a history: a finite snapshot taken no later than
    the newest period. *)
Definition delta_state_ok (bound : Z) (d : gmap string (list Z)) : Prop :=
  d !! delta_key = None \/
  exists s, d !! delta_key = Some (to_vec s) /\ f64_is_finite (pd_snapshot s) = true /\ pd_period_start_ts s < bound.

Lemma delta_calls_ok bound d h :
  delta_state_ok bound d -> Forall (fun tv => start_of tv < bound /\ f64_is_finite tv.2 = true) h ->
  delta_state_ok bound (delta_calls d h).
Proof using serde_period.
  intros Hd Hh. revert d Hd. induction Hh as [|tv h [Hb Hf] Hh IH]; intros d Hd; [done |].
  cbn [delta_calls foldl]. apply IH. destruct Hd as [Hd | (s & Hd & Hs & Hlt)].
  - rewrite delta_call_first by done. right. eexists. cbn [fst]. by rewrite lookup_insert_eq.
  - rewrite (delta_call_next _ _ s) by done. right. unfold period_step.
    repeat case_match; simplify_eq; cbn [fst]; eexists; rewrite lookup_insert_eq; split; done.
Qed.

(** The first call of a new period takes its reading as the baseline. *)
Lemma delta_call_rotates d tv :
  delta_state_ok (start_of tv) d -> f64_is_finite tv.2 = true ->
  (delta_call d tv).1 !! delta_key = Some (to_vec (mkPeriod tv.2 (start_of tv))).
Proof using serde_period.
  intros [Hd | (s & Hd & Hs & Hlt)] Hf.
  - rewrite delta_call_first by done. cbn [fst]. by rewrite lookup_insert_eq.
  - rewrite (delta_call_next _ _ s) by done. unfold period_step. rewrite (proj2 (Z.ltb_lt _ _)) by done.
    cbn [pd_snapshot pd_period_start_ts]. rewrite f64_ltb_irrefl. cbn [fst]. by rewrite lookup_insert_eq.
Qed.

Lemma delta_call_same_period d tv v0 :
  d !! delta_key = Some (to_vec (mkPeriod v0 (start_of tv))) -> f64_is_finite v0 = true -> f64_ltb tv.2 v0 = false ->
  let '(d', r) := delta_call d tv in
  d' !! delta_key = Some (to_vec (mkPeriod v0 (start_of tv))) /\ r = Ok (f64_sub tv.2 v0).
Proof using serde_period.
  intros Hd Hf Hge. rewrite (delta_call_next _ _ _ Hd) by done. unfold period_step. cbn [pd_period_start_ts].
  rewrite Z.ltb_irrefl. cbn [pd_snapshot pd_period_start_ts]. rewrite Hge. by rewrite lookup_insert_eq.
Qed.

(** The period delta is the consumption since the period began: whatever was
    recorded in earlier periods, after the first reading [v0] of a period every
    reading [v] of a counter that has not gone below [v0] gives [v - v0]. *)
Theorem period_delta_since_period_start d h tv0 later tv :
  d !! delta_key = None -> f64_is_finite tv0.2 = true ->
  Forall (fun x => start_of x < start_of tv0 /\ f64_is_finite x.2 = true) h ->
  Forall (fun x => start_of x = start_of tv0 /\ f64_ltb x.2 tv0.2 = false) (later ++ [tv]) ->
  snd (delta_call (delta_calls d (h ++ tv0 :: later)) tv) = Ok (f64_sub tv.2 tv0.2).
Proof using serde_period.
  intros Hd Hf Hh Hl. apply Forall_app in Hl as [Hl [[Hst Hge] _]%Forall_cons].
  assert (Hkey : delta_calls d (h ++ tv0 :: later) !! delta_key = Some (to_vec (mkPeriod tv0.2 (start_of tv0)))).
  { unfold delta_calls. rewrite foldl_app. cbn [foldl]. fold (delta_calls d h).
    pose proof (delta_call_rotates (delta_calls d h) tv0 (delta_calls_ok _ _ _ (or_introl Hd) Hh) Hf) as Hk.
    revert Hk. generalize (delta_call (delta_calls d h) tv0).1. clear -Hl Hf serde_period.
    induction Hl as [|x later [Hs Hx] Hl IH]; intros d Hk; [done |]. cbn [foldl]. apply IH.
    rewrite <- Hs in Hk |- *. pose proof (delta_call_same_period d x tv0.2 Hk Hf Hx) as Hr.
    destruct (delta_call d x). apply Hr. }
  rewrite <- Hst in Hkey. pose proof (delta_call_same_period _ _ _ Hkey Hf Hge) as Hr.
  destruct (delta_call _ tv). by destruct Hr as [_ ->].
Qed.
End PeriodDelta.

(** * A concrete calendar and JSON form *)

(** The proleptic Gregorian calendar at UTC. *)
Definition leap (y : Z) : bool := (y mod 4 =? 0) && (negb (y mod 100 =? 0) || (y mod 400 =? 0)).
Definition days_in_month (y m : Z) : Z :=
  if m =? 2 then (if leap y then 29 else 28)
  else if (m =? 4) || (m =? 6) || (m =? 9) || (m =? 11) then 30 else 31.
Definition days_from_civil (y m d : Z) : Z :=
  let y' := if m <=? 2 then y - 1 else y in
  let era := y' / 400 in
  let yoe := y' - era * 400 in
  let doy := (153 * (m + (if 2 <? m then -3 else 9)) + 2) / 5 + d - 1 in
  era * 146097 + (yoe * 365 + yoe / 4 - yoe / 100 + doy) - 719468.
Definition civil_from_days (n : Z) : Z * Z * Z :=
  let z := n + 719468 in
  let era := z / 146097 in
  let doe := z - era * 146097 in
  let yoe := (doe - doe / 1460 + doe / 36524 - doe / 146096) / 365 in
  let doy := doe - (365 * yoe + yoe / 4 - yoe / 100) in
  let mp := (5 * doy + 2) / 153 in
  let d := doy - (153 * mp + 2) / 5 + 1 in
  let m := if mp <? 10 then mp + 3 else mp - 9 in
  (yoe + era * 400 + (if m <=? 2 then 1 else 0), m, d).
Definition utc_replace (t y m d : Z) : option Z :=
  if (1 <=? d) && (d <=? days_in_month y m) then Some (days_from_civil y m d * 86400 + t mod 86400) else None.
Definition utc : LocalCalendar := {|
  cal_date t := civil_from_days (t / 86400);
  cal_days_from_monday t := (t / 86400 + 3) mod 7;
  cal_with_day t d := let '(y, m, _) := civil_from_days (t / 86400) in utc_replace t y m d;
  cal_with_month t m := let '(y, _, d) := civil_from_days (t / 86400) in utc_replace t y m d;
  cal_midnight '(y, m, d) := Some (days_from_civil y m d * 86400);
|}.

Example utc_dates : civil_from_days (1748692800 / 86400) = (2025, 5, 31) /\ days_from_civil 2025 4 1 * 86400 = 1743465600.
Proof. vm_compute. split; reflexivity. Qed.

(** Numbers as they are, null for a state with a non-finite one. *)
Definition finites (vs : list Z) : bool := forallb f64_is_finite vs.
#[export] Instance moving_json : Serde MovingAvgState := {
  to_vec s := if finites (ma_values s) then Z.of_nat (ma_position s) :: Z.of_nat (ma_count s) :: ma_values s else [];
  from_slice bs := match bs with p :: c :: vs => Some (mkMoving vs (Z.to_nat p) (Z.to_nat c)) | _ => None end;
}.
#[export] Instance period_json : Serde PeriodDeltaState := {
  to_vec s := if f64_is_finite (pd_snapshot s) then [pd_snapshot s; pd_period_start_ts s] else [];
  from_slice bs := match bs with [v; t] => Some (mkPeriod v t) | _ => None end;
}.

Lemma finites_spec vs : finites vs = true <-> all_finite vs.
Proof. unfold finites, all_finite. rewrite Forall_forall, forallb_forall. setoid_rewrite list_elem_of_In. done. Qed.
Lemma moving_json_finite s : all_finite (ma_values s) -> from_slice (to_vec s) = Some s.
Proof. destruct s. cbn -[finites]. intros ->%finites_spec. by rewrite !Nat2Z.id. Qed.
Lemma moving_json_null s : ~ all_finite (ma_values s) -> from_slice (to_vec s) = None.
Proof. destruct s as [vs p c]. cbn -[finites]. destruct (finites vs) eqn:E; [| done]. by apply finites_spec in E. Qed.
Lemma period_json_finite s : f64_is_finite (pd_snapshot s) = true -> from_slice (to_vec s) = Some s.
Proof. destruct s. cbn -[f64_is_finite]. by intros ->. Qed.

Definition empty_world : MemoryWorld := mkMemoryWorld ∅ [].

Lemma moving_avg_of_last_samples_witness :
  (exists buf, Permutation buf [f64_of_Z 2; f64_of_Z 6] /\
    snd (BuiltinFunctions_moving_avg "rule_1" (avg_calls "rule_1" "P" 2 empty_world [f64_of_Z 1; f64_of_Z 2]) "P" (f64_of_Z 6) 2) =
    Ok (f64_div (f64_sum buf) (f64_of_Z (Z.of_nat (length buf))))) /\
  snd (BuiltinFunctions_moving_avg "rule_1" (avg_calls "rule_1" "P" 2 empty_world [f64_of_Z 1; f64_of_Z 2]) "P" (f64_of_Z 6) 2) =
    Ok (f64_of_Z 4).
Proof.
  split; [| vm_compute; reflexivity].
  exact (moving_avg_of_last_samples "rule_1" "P" 2 moving_json_finite empty_world [f64_of_Z 1; f64_of_Z 2] (f64_of_Z 6)
    ltac:(lia) ltac:(reflexivity) ltac:(repeat constructor)).
Defined.

(** May 3rd and 4th 2025: the daily delta restarts at midnight. *)
Lemma period_delta_since_period_start_witness :
  snd (delta_call (CAL:=utc) "rule_1" "E" "daily"
    (delta_calls (CAL:=utc) "rule_1" "E" "daily" ∅
      ([(1746270000, f64_of_Z 90)] ++ (1746316800, f64_of_Z 100) :: [(1746320000, f64_of_Z 130)]))
    (1746330000, f64_of_Z 150)) = Ok (f64_of_Z 50).
Proof.
  rewrite (period_delta_since_period_start (CAL:=utc) "rule_1" "E" "daily" period_json_finite ∅ [(1746270000, f64_of_Z 90)]
    (1746316800, f64_of_Z 100) [(1746320000, f64_of_Z 130)] (1746330000, f64_of_Z 150)).
  - vm_compute. reflexivity.
  - reflexivity.
  - reflexivity.
  - repeat constructor.
  - repeat constructor.
Defined.

(** A quarter's consumption is lost on its 31st of May: April has no 31st, so
    [with_month] gives nothing and the period is taken to start now.  The baseline
    100 of April 1st 2025 is replaced on May 31st at 12:00 and the delta is 0
    instead of 400; from June 1st on the delta counts from there. *)
Theorem quarterly_delta_lost :
  let deltas h tv := snd (delta_call (CAL:=utc) "rule_1" "E" "quarterly" (delta_calls (CAL:=utc) "rule_1" "E" "quarterly" ∅ h) tv) in
  let april := (1743465600, f64_of_Z 100) in
  let may30 := (1748606400, f64_of_Z 490) in
  let may31 := (1748692800, f64_of_Z 500) in
  let june1 := (1748779200, f64_of_Z 510) in
  deltas [april] may30 = Ok (f64_of_Z 390) /\
  deltas [april; may30] may31 = Ok f64_zero /\
  deltas [april; may30; may31] june1 = Ok (f64_of_Z 10).
Proof. vm_compute. repeat split; reflexivity. Qed.
