(* ===== verification/RuleExec.v ===== *)
(** Rule executor: [libs/voltage-rules/src/types.rs], [executor.rs], [formula.rs],
    the action commit of [libs/voltage-routing/src/lib.rs], the key names of
    [libs/voltage-model/src/keyspace.rs] and [get_instance] of
    [libs/voltage-rtdb-shm/src/unified_shm.rs].

    A rule is a graph of nodes.  [execute] walks it from the start node with a work
    queue: switch nodes choose output wires by conditions on variables, action nodes
    write points.  The outside is the class [RuleWorld] (shared memory, Redis,
    dispatch to comsrv, clock); every operation passes it on, so two reads may
    differ.  Writes are also recorded in a trace of effects.  Error texts are
    constructors.  A hash map iterates in an unspecified order: [iter] is the order
    in which the pending Redis reads are taken. *)
From stdpp Require Import base numbers list gmap strings.
From Stdlib Require Import ZArith Lia.
From S2P Require Import Prelude PointTypes Routing Rtdb Validation Calc.
Local Open Scope Z_scope.
Set Warnings "-clear-no-such-hyp".
Set Warnings "-register-all".

(** * Rules *)

(** [serde_json::Value]: a number is an integer or an f64, an object a finite map. *)
Inductive Json :=
| JNull
| JBool (b : bool)
| JInt (z : Z)
| JFloat (f : Z)
| JStr (s : string)
| JArr (l : list Json)
| JObj (m : gmap string Json).
Definition Json_as_f64 (v : Json) : option Z :=
  match v with JInt z => Some (f64_of_Z z) | JFloat f => Some f | _ => None end.
Definition Json_as_i64 (v : Json) : option Z :=
  match v with JInt z => if (- 2 ^ 63 <=? z) && (z <? 2 ^ 63) then Some z else None | _ => None end.
Definition Json_as_str (v : Json) : option string := match v with JStr s => Some s | _ => None end.

Record RuleVariable := mkRuleVariable {
  rv_name : string;
  rv_instance : option Z;
  rv_point_type : option string;
  rv_point : option Z;
  rv_formula : list Json
}.
Record FlowCondition := mkFlowCondition {
  fc_cond_type : string;
  fc_variables : option string;
  fc_operator : option string;
  fc_value : option Json
}.
Record RuleSwitchBranch := mkSwitchBranch { sb_name : string; sb_rule_type : string; sb_rule : list FlowCondition }.
Record RuleValueAssignment := mkAssignment { va_variables : string; va_value : Json }.
Record CalculationRule := mkCalculationRule { ca_output : string; ca_formula : string }.

Inductive RuleNode :=
| NodeStart (wires : list string)
| NodeEnd
| NodeSwitch (variables : list RuleVariable) (rule : list RuleSwitchBranch) (wires : gmap string (list string))
| NodeChangeValue (variables : list RuleVariable) (rule : list RuleValueAssignment) (wires : list string)
| NodeCalculation (variables : list RuleVariable) (rule : list CalculationRule) (wires : list string)
| NodePeriodDelta (input output : RuleVariable) (period : string) (wires : list string).

Record RuleFlow := mkRuleFlow { rf_start_node : string; rf_nodes : gmap string RuleNode }.
Record Rule := mkRule {
  ru_id : Z;
  ru_name : string;
  ru_enabled : bool;
  ru_cooldown_ms : Z;
  ru_flow : RuleFlow
}.

(** * Results *)

Record ActionResult := mkActionResult {
  ar_target_id : Z;
  ar_point_type : string;
  ar_point_id : Z;
  ar_value : Z;
  ar_success : bool
}.

Inductive NodeStatus := Executed | Skipped | Failed.
Record GraphNode := mkGraphNode {
  gn_id : string;
  gn_type : string;
  gn_status : NodeStatus;
  gn_terminal_kind : option string
}.
Record GraphEdge := mkGraphEdge { ge_source : string; ge_target : string; ge_port : option string }.
Record ExecutionGraph := mkExecutionGraph { eg_nodes : list GraphNode; eg_edges : list GraphEdge }.

Definition ExecutionGraph_push_node (g : ExecutionGraph) (id ty : string) : ExecutionGraph :=
  mkExecutionGraph (eg_nodes g ++ [mkGraphNode id ty Executed None]) (eg_edges g).
(** The last node with the id: [iter_mut().rev().find(..)]. *)
Fixpoint finish_first (ns : list GraphNode) (id : string) (st : NodeStatus) (kind : option string) : list GraphNode :=
  match ns with
  | [] => []
  | n :: ns => if String.eqb (gn_id n) id then mkGraphNode id (gn_type n) st kind :: ns else n :: finish_first ns id st kind
  end.
Definition ExecutionGraph_finish_node (g : ExecutionGraph) (id : string) (st : NodeStatus) (kind : option string)
    : ExecutionGraph :=
  mkExecutionGraph (reverse (finish_first (reverse (eg_nodes g)) id st kind)) (eg_edges g).
Definition ExecutionGraph_activate_edges (g : ExecutionGraph) (source : string) (port : option string)
    (targets : list string) : ExecutionGraph :=
  mkExecutionGraph (eg_nodes g) (eg_edges g ++ map (fun t => mkGraphEdge source t port) targets).

Record ConditionResult := mkConditionResult { cr_conditions : list FlowCondition; cr_result : bool; cr_port : string }.
Record NodeExecutionDetail := mkNodeDetail {
  nd_node_type : string;
  nd_input_values : gmap string Z;
  nd_condition_results : option (list ConditionResult);
  nd_matched_port : option string;
  nd_actions : option (list ActionResult);
  nd_terminal : bool
}.

Inductive BranchError :=
| NodeNotFound (id : string)
| StartWithoutWire
| TooManyVisits
| MissingInstance (var : string)
| MissingPoint (var : string)
| VariablesUnavailable (vars : list string)
| CalculationFailed (e : CalcError)
| NonFiniteInput (var : string).

Record RuleReadOutcome := mkReadOutcome {
  ro_values_changed : bool;
  ro_missing : list string;
  ro_point_values : gmap string Z
}.

(** * The outside *)

Record RouteContext := mkRouteContext {
  cx_channel_id : Z;
  cx_point_type : PointType;
  cx_point_id : Z;
  cx_timestamp_ms : Z
}.
Definition route_context_from_target (target : M2CTarget) (timestamp_ms : Z) : RouteContext :=
  mkRouteContext (m2c_channel_id target) (m2c_point_type target) (m2c_point_id target) timestamp_ms.

Inductive DispatchOutcome := Delivered | ShmOnly | NoWriter | MirrorMiss | Noop.
Definition DispatchOutcome_is_delivered (o : DispatchOutcome) : bool :=
  match o with Delivered | Noop => true | _ => false end.

(** [rw_get_channel] is [None] for a missing slot and when no reader is configured;
    [rw_hash_mget] is [None] on an error of Redis, [rw_hash_set] and
    [rw_pipeline_hash_mset] return whether the write succeeded; [rw_dispatch] is [None]
    when no dispatch is configured. *)
Class RuleWorld (W : Type) := {
  rw_get_channel : W -> Z -> Z -> Z -> W * option (Z * Z);
  rw_hash_mget : W -> string -> list string -> W * option (list (option string));
  rw_hash_set : W -> string -> string -> string -> W * bool;
  rw_pipeline_hash_mset : W -> list (string * list (string * string)) -> W * bool;
  rw_dispatch : W -> RouteContext -> Z -> option (W * DispatchOutcome);
  rw_now_millis : W -> W * Z;
}.

(** What a rule does to the outside. *)
Inductive Effect :=
| EfWrite (key field : string) (value : Z)
| EfStamp (key field : string) (timestamp_ms : Z)
| EfDispatch (ctx : RouteContext) (value : Z).

(** * Names and keys *)

(** The cache key of a point, as the executor and the scheduler write it. *)
Definition cache_key (is_action : bool) (instance point : Z) : string :=
  ((if is_action then "A" else "M") +:+ ":" +:+ print_u32 instance +:+ ":" +:+ print_u32 point)%string.

Definition point_type_to_static (pt : option string) (dflt : string) : string :=
  match pt with
  | Some s =>
      if one_of s ["M"; "measurement"] then "M"
      else if one_of s ["A"; "action"] then "A"
      else if one_of s ["T"; "telemetry"] then "T"
      else if one_of s ["S"; "status"] then "S"
      else if one_of s ["C"; "control"] then "C"
      else dflt
  | None => dflt
  end.

(** * Conditions *)

Definition f64_epsilon : Z := 0x3CB0000000000000.

Section Executor.
Context {W : Type} {RW : RuleWorld W} {CW : CalcWorld W}.
Context {SI : Serde IntegrateState} {SM : Serde MovingAvgState} {SR : Serde RateOfChangeState} {SP : Serde PeriodDeltaState}.
Context {CAL : LocalCalendar}.
Variable rc : RoutingCache.
(** [str::parse::<f64>], [f64::to_string], ryu's format, the text of a JSON value
    that is not a string, and evalexpr's [eval_number_with_context]. *)
Variable parse_f64 : string -> option Z.
Variable f64_display : Z -> string.
Variable f64_ryu : Z -> string.
Variable json_text : Json -> string.
Variable eval_number : gmap string Z -> string -> option Z.
(** The crates regex and evalexpr behind the calculation engine, see Calc.v. *)
Variable captures_iter : string -> string -> list Capture.
Variable eval_with_context : (string -> EvalValue -> option EvalValue) -> gmap string Z -> string -> option EvalValue.
Variable calc_round : Z -> Z -> Z.
Variable iter : list ((string * bool) * list (string * string * Z * Z)) -> list ((string * bool) * list (string * string * Z * Z)).

Definition rhs_of_condition (values : gmap string Z) (v : option Json) : option Z :=
  match v with
  | None => Some f64_zero
  | Some v =>
      match Json_as_f64 v, Json_as_i64 v, Json_as_str v with
      | Some n, _, _ => Some n
      | None, Some n, _ => Some (f64_of_Z n)
      | None, None, Some s => match values !! s with Some v => Some v | None => parse_f64 s end
      | None, None, None => Some f64_zero
      end
  end.

Definition compare_op (op : string) (lhs rhs : Z) : bool :=
  if one_of op ["=="; "eq"] then f64_ltb (f64_abs (f64_sub lhs rhs)) f64_epsilon
  else if one_of op ["!="; "ne"] then f64_leb f64_epsilon (f64_abs (f64_sub lhs rhs))
  else if one_of op [">"; "gt"] then f64_ltb rhs lhs
  else if one_of op ["<"; "lt"] then f64_ltb lhs rhs
  else if one_of op [">="; "gte"] then f64_leb rhs lhs
  else if one_of op ["<="; "lte"] then f64_leb lhs rhs
  else false.

Definition evaluate_flow_condition (cond : FlowCondition) (values : gmap string Z) : bool :=
  match fc_variables cond with
  | None => false
  | Some var_name =>
      match values !! var_name, rhs_of_condition values (fc_value cond) with
      | Some lhs, Some rhs => compare_op (default "==" (fc_operator cond)) lhs rhs
      | _, _ => false
      end
  end.

Definition is_or (rel : option string) : bool :=
  match rel with Some s => one_of s ["||"; "or"; "OR"] | None => false end.

(** The loop of [evaluate_flow_conditions] with its pending relation. *)
Fixpoint conditions_loop (conds : list FlowCondition) (values : gmap string Z) (acc : bool) (pending : option string) : bool :=
  match conds with
  | [] => acc
  | cond :: conds =>
      if String.eqb (fc_cond_type cond) "relation"
      then conditions_loop conds values acc (fc_value cond ≫= Json_as_str)
      else
        let r := evaluate_flow_condition cond values in
        conditions_loop conds values (if is_or pending then acc || r else acc && r) None
  end.
Definition evaluate_flow_conditions (conds : list FlowCondition) (values : gmap string Z) : bool :=
  conditions_loop conds values true None.

Fixpoint evaluate_rule_switch_with_details (rules : list RuleSwitchBranch) (wires : gmap string (list string))
    (values : gmap string Z) : list string * option string * option (list FlowCondition) :=
  match rules with
  | [] => ([], None, None)
  | r :: rules =>
      if evaluate_flow_conditions (sb_rule r) values
      then (default [] (wires !! sb_name r), Some (sb_name r), Some (sb_rule r))
      else evaluate_rule_switch_with_details rules wires values
  end.

Definition evaluate_all_conditions (rules : list RuleSwitchBranch) (values : gmap string Z) : list ConditionResult :=
  map (fun r => mkConditionResult (sb_rule r) (evaluate_flow_conditions (sb_rule r) values) (sb_name r)) rules.

(** * Reading variables *)

(** The world and the effects on it so far. *)
Record Env := mkEnv { ev_world : W; ev_trace : list Effect }.
Definition with_world (e : Env) (w : W) : Env := mkEnv w (ev_trace e).
Definition log (e : Env) (w : W) (f : Effect) : Env := mkEnv w (ev_trace e ++ [f]).

Definition UnifiedReader_get_instance (w : W) (instance_id instance_type point_id : Z) : W * option (Z * Z) :=
  let target :=
    if instance_type =? 0 then
      (fun '(ch, pt, p) => (ch, PointType_to_u8 pt, p)) <$> RoutingCache_lookup_c2m_reverse rc instance_id point_id
    else
      (fun t => (m2c_channel_id t, PointType_to_u8 (m2c_point_type t), m2c_point_id t)) <$>
        match RoutingCache_lookup_m2c_by_parts rc instance_id Control point_id with
        | Some t => Some t
        | None => RoutingCache_lookup_m2c_by_parts rc instance_id Adjustment point_id
        end in
  match target with
  | Some (ch, pt, p) => rw_get_channel w ch pt p
  | None => (w, None)
  end.

(** What a read pass accumulates: the values and the outcome. *)
Record ReadState := mkReadState { rs_world : W; rs_values : gmap string Z; rs_outcome : RuleReadOutcome }.

Definition add_missing (s : ReadState) (name : string) : ReadState :=
  let o := rs_outcome s in
  mkReadState (rs_world s) (rs_values s) (mkReadOutcome (ro_values_changed o) (ro_missing o ++ [name]) (ro_point_values o)).
(** Insert a value read for a point; [total_cmp] distinguishes all bit patterns. *)
Definition add_value (s : ReadState) (name key : string) (v : Z) : ReadState :=
  let o := rs_outcome s in
  let changed := match rs_values s !! name with Some prev => negb (prev =? v) | None => true end in
  mkReadState (rs_world s) (<[name := v]> (rs_values s))
    (mkReadOutcome (ro_values_changed o || changed) (ro_missing o) (<[key := v]> (ro_point_values o))).
(** A formula variable is no point; [!=] on [Option<f64>] is IEEE inequality. *)
Definition add_formula (s : ReadState) (name : string) (v : Z) : ReadState :=
  let o := rs_outcome s in
  let changed := match rs_values s !! name with Some prev => negb (f64_eqb prev v) | None => true end in
  mkReadState (rs_world s) (<[name := v]> (rs_values s))
    (mkReadOutcome (ro_values_changed o || changed) (ro_missing o) (ro_point_values o)).

(** [redis_requests.entry((key, is_action)).or_default().push(..)] *)
Fixpoint push_request (k : string * bool) (p : string * string * Z * Z)
    (rs : list ((string * bool) * list (string * string * Z * Z))) : list ((string * bool) * list (string * string * Z * Z)) :=
  match rs with
  | [] => [(k, [p])]
  | (k', ps) :: rs => if decide (k = k') then (k', ps ++ [p]) :: rs else (k', ps) :: push_request k p rs
  end.

Definition var_is_action (var : RuleVariable) : bool :=
  String.eqb (default "measurement" (rv_point_type var)) "action".

(** Phase 1a: shared memory first, the misses are queued. *)
Fixpoint read_shared (s : ReadState) (reqs : list ((string * bool) * list (string * string * Z * Z))) (vars : list RuleVariable)
    : ReadState * result (list ((string * bool) * list (string * string * Z * Z))) BranchError :=
  match vars with
  | [] => (s, Ok reqs)
  | var :: vars =>
      match rv_formula var, rv_instance var, rv_point var with
      | _ :: _, _, _ => read_shared s reqs vars
      | [], None, _ => (s, Err (MissingInstance (rv_name var)))
      | [], Some _, None => (s, Err (MissingPoint (rv_name var)))
      | [], Some instance_id, Some point =>
          let is_action := var_is_action var in
          let '(w, got) := UnifiedReader_get_instance (rs_world s) instance_id (if is_action then 1 else 0) point in
          let s := mkReadState w (rs_values s) (rs_outcome s) in
          match got with
          | Some (val, _) =>
              if f64_is_finite val then read_shared (add_value s (rv_name var) (cache_key is_action instance_id point) val) reqs vars
              else read_shared (if is_action then s else add_missing s (rv_name var)) reqs vars
          | None =>
              let key := if is_action then instance_action_key instance_id else instance_measurement_key instance_id in
              read_shared s (push_request (key, is_action) (rv_name var, print_u32 point, instance_id, point) reqs) vars
          end
      end
  end.

(** Phase 1b: the fields of one HMGET reply. *)
Fixpoint take_fields (s : ReadState) (is_action : bool) (results : list (option string)) (ps : list (string * string * Z * Z)) : ReadState :=
  match ps with
  | [] => s
  | (name, _, instance_id, point) :: ps =>
      let s :=
        match hd None results ≫= parse_f64 with
        | Some v =>
            if f64_is_finite v then add_value s name (cache_key is_action instance_id point) v
            else if is_action then s else add_missing s name
        | None => if is_action then s else add_missing s name
        end in
      take_fields s is_action (tail results) ps
  end.
Definition read_request (s : ReadState) (req : (string * bool) * list (string * string * Z * Z)) : ReadState :=
  let '((key, is_action), ps) := req in
  let '(w, reply) := rw_hash_mget (rs_world s) key (map (fun p => p.1.1.2) ps) in
  let s := mkReadState w (rs_values s) (rs_outcome s) in
  match reply with
  | Some results => take_fields s is_action results ps
  | None => if is_action then s else foldl (fun s p => add_missing s p.1.1.1) s ps
  end.

Definition evaluate_token_formula (tokens : list Json) (values : gmap string Z) : option Z :=
  eval_number values (String.concat " " (map (fun t => match t with JStr s => s | t => json_text t end) tokens)).

(** Phase 2: formula variables, in order. *)
Definition read_formula (s : ReadState) (var : RuleVariable) : ReadState :=
  match rv_formula var with
  | [] => s
  | tokens =>
      match evaluate_token_formula tokens (rs_values s) with
      | Some v => add_formula s (rv_name var) v
      | None => add_missing s (rv_name var)
      end
  end.

Definition read_rule_variables (w : W) (variables : list RuleVariable) (values : gmap string Z)
    : ReadState * option BranchError :=
  let '(s, reqs) := read_shared (mkReadState w values (mkReadOutcome false [] ∅)) [] variables in
  match reqs with
  | Err e => (s, Some e)
  | Ok reqs => (foldl read_formula (foldl read_request s (iter reqs)) variables, None)
  end.

(** * Writing points *)

Definition now_millis (e : Env) : Env * Z := let '(w, t) := rw_now_millis (ev_world e) in (with_world e w, t).
Definition hash_set_value (e : Env) (key field : string) (value : Z) (text : string) : Env * bool :=
  let '(w, ok) := rw_hash_set (ev_world e) key field text in (log e w (EfWrite key field value), ok).
Definition hash_set_stamp (e : Env) (key field : string) (timestamp_ms : Z) : Env * bool :=
  let '(w, ok) := rw_hash_set (ev_world e) key field (print_i64 timestamp_ms) in (log e w (EfStamp key field timestamp_ms), ok).

Definition write_measurement_point (e : Env) (instance_id point value : Z) : Env * bool :=
  let '(e, now_ms) := now_millis e in
  let '(e, ok) := hash_set_value e (instance_measurement_key instance_id) (print_u32 point) value (f64_ryu value) in
  if ok then hash_set_stamp e (instance_measurement_ts_key instance_id) (print_u32 point) now_ms else (e, false).

(** [write_channel_points] of one point: value, timestamp and raw value. *)
Definition write_channel_hash_only (e : Env) (channel_id : Z) (pt : PointType) (point_id value timestamp_ms : Z) : Env * bool :=
  let key := channel_key channel_id pt in
  let field := print_u32 point_id in
  let '(w, ok) := rw_pipeline_hash_mset (ev_world e)
    [(key, [(field, f64_ryu value)]); ((key +:+ ":ts")%string, [(field, print_i64 timestamp_ms)]);
     ((key +:+ ":raw")%string, [(field, f64_ryu value)])] in
  (mkEnv w (ev_trace e ++ [EfWrite key field value; EfStamp (key +:+ ":ts")%string field timestamp_ms;
                           EfWrite (key +:+ ":raw")%string field value]), ok).

Definition validate_action_value (value : Z) : option Z :=
  match validate_value value ValidationConfig_default with Ok v => Some v | Err _ => None end.

(** [Some routed] on success, [None] on an error. *)
Definition set_action_point_with_target_at (e : Env) (instance_id : Z) (point_id : string) (value : Z)
    (target : option M2CTarget) (timestamp_ms : Z) : Env * option bool :=
  match validate_action_value value with
  | None => (e, None)
  | Some value =>
      let '(e, ok) := hash_set_value e (instance_action_key instance_id) point_id value (f64_display value) in
      if ok then
        let '(e, ok) := hash_set_stamp e (instance_action_ts_key instance_id) point_id timestamp_ms in
        if ok then
          match target with
          | Some t =>
              let '(e, ok) := write_channel_hash_only e (m2c_channel_id t) (m2c_point_type t) (m2c_point_id t) value timestamp_ms in
              (e, if ok then Some true else None)
          | None => (e, Some false)
          end
        else (e, None)
      else (e, None)
  end.

Definition set_action_point_with_target (e : Env) (instance_id : Z) (point_id : string) (value : Z)
    (target : option M2CTarget) : Env * option bool :=
  let '(e, t) := now_millis e in set_action_point_with_target_at e instance_id point_id value target t.

Definition dispatch_action_to_comsrv (e : Env) (ctx : RouteContext) (value : Z) : Env * bool :=
  match rw_dispatch (ev_world e) ctx value with
  | None => (e, false)
  | Some (w, o) => (log e w (EfDispatch ctx value), DispatchOutcome_is_delivered o)
  end.

Definition write_action_point (e : Env) (instance_id point : Z) (point_str : string) (value : Z) : Env * bool :=
  match RoutingCache_lookup_m2c_by_parts rc instance_id Adjustment point with
  | None =>
      let '(e, r) := set_action_point_with_target e instance_id point_str value None in (e, default false r)
  | Some target =>
      match validate_action_value value with
      | None => (e, false)
      | Some value =>
          let '(e, timestamp_ms) := now_millis e in
          let '(e, sent) := dispatch_action_to_comsrv e (route_context_from_target target timestamp_ms) value in
          if sent then
            let '(e, r) := set_action_point_with_target_at e instance_id point_str value (Some target) timestamp_ms in
            (e, default false r)
          else (e, false)
      end
  end.

Definition write_to_point (e : Env) (instance_id point value : Z) (pt : string) : Env * ActionResult :=
  let '(e, success) :=
    if String.eqb pt "M" then write_measurement_point e instance_id point value
    else if String.eqb pt "A" then write_action_point e instance_id point (print_u32 point) value
    else (e, false) in
  (e, mkActionResult instance_id pt point value success).

(** [Err] is the failed action result the caller reports. *)
Definition validate_write_target (variable : RuleVariable) (raw_value : Z) (dflt : string)
    : result (Z * Z * Z * string) ActionResult :=
  let pt := point_type_to_static (rv_point_type variable) dflt in
  match validate_value raw_value ValidationConfig_default with
  | Err _ => Err (mkActionResult (default 0 (rv_instance variable)) pt (default 0 (rv_point variable)) f64_nan false)
  | Ok value =>
      match rv_instance variable, rv_point variable with
      | None, _ => Err (mkActionResult 0 pt 0 value false)
      | Some i, None => Err (mkActionResult i pt 0 value false)
      | Some i, Some p => Ok (i, p, value, pt)
      end
  end.

Definition action_skipped (variable : RuleVariable) : ActionResult :=
  mkActionResult (default 0 (rv_instance variable)) (point_type_to_static (rv_point_type variable) "A")
    (default 0 (rv_point variable)) f64_nan false.

Definition assignment_value (v : Json) (values : gmap string Z) : option Z :=
  match Json_as_f64 v, Json_as_i64 v, Json_as_str v with
  | Some n, _, _ => Some n
  | None, Some n, _ => Some (f64_of_Z n)
  | None, None, Some s => match parse_f64 s with Some n => Some n | None => values !! s end
  | None, None, None => None
  end.

(** Validate a raw value for a variable and write it. *)
Definition write_validated (e : Env) (variable : RuleVariable) (raw_value : Z) (dflt : string) (pt_of : string -> string)
    : Env * ActionResult :=
  match validate_write_target variable raw_value dflt with
  | Err action => (e, action)
  | Ok (i, p, value, pt) => write_to_point e i p value (pt_of pt)
  end.

Definition execute_rule_change (e : Env) (variable : RuleVariable) (assignment : RuleValueAssignment) (values : gmap string Z)
    : Env * ActionResult :=
  match assignment_value (va_value assignment) values with
  | None => (e, action_skipped variable)
  | Some raw => write_validated e variable raw "A" id
  end.
Definition write_calculation_result (e : Env) (variable : RuleVariable) (raw_value : Z) : Env * ActionResult :=
  write_validated e variable raw_value "M" id.
Definition write_period_delta_result (e : Env) (variable : RuleVariable) (raw_value : Z) : Env * ActionResult :=
  write_validated e variable raw_value "M" (fun _ => "M").

(** * Executing a flow *)

Record ExecState := mkExec {
  xs_env : Env;
  xs_values : gmap string Z;
  xs_point_values : gmap string Z;
  xs_cache : option (gmap string Z);
  xs_errors : list BranchError;
  xs_actions : list ActionResult;
  xs_path : list string;
  xs_graph : ExecutionGraph;
  xs_matched : option (list FlowCondition);
  xs_details : gmap string NodeExecutionDetail
}.

Definition set_graph (s : ExecState) (g : ExecutionGraph) : ExecState :=
  mkExec (xs_env s) (xs_values s) (xs_point_values s) (xs_cache s) (xs_errors s) (xs_actions s) (xs_path s) g (xs_matched s) (xs_details s).
Definition set_read (s : ExecState) (e : Env) (values points : gmap string Z) : ExecState :=
  mkExec e values points (xs_cache s) (xs_errors s) (xs_actions s) (xs_path s) (xs_graph s) (xs_matched s) (xs_details s).
Definition set_cache (s : ExecState) (c : option (gmap string Z)) : ExecState :=
  mkExec (xs_env s) (xs_values s) (xs_point_values s) c (xs_errors s) (xs_actions s) (xs_path s) (xs_graph s) (xs_matched s) (xs_details s).
Definition push_error (s : ExecState) (err : BranchError) : ExecState :=
  mkExec (xs_env s) (xs_values s) (xs_point_values s) (xs_cache s) (xs_errors s ++ [err]) (xs_actions s) (xs_path s) (xs_graph s)
    (xs_matched s) (xs_details s).
Definition push_action (s : ExecState) (e : Env) (a : ActionResult) : ExecState :=
  mkExec e (xs_values s) (xs_point_values s) (xs_cache s) (xs_errors s) (xs_actions s ++ [a]) (xs_path s) (xs_graph s)
    (xs_matched s) (xs_details s).
Definition push_path (s : ExecState) (id : string) : ExecState :=
  mkExec (xs_env s) (xs_values s) (xs_point_values s) (xs_cache s) (xs_errors s) (xs_actions s) (xs_path s ++ [id]) (xs_graph s)
    (xs_matched s) (xs_details s).
Definition set_matched (s : ExecState) (m : option (list FlowCondition)) : ExecState :=
  mkExec (xs_env s) (xs_values s) (xs_point_values s) (xs_cache s) (xs_errors s) (xs_actions s) (xs_path s) (xs_graph s) m (xs_details s).
Definition add_detail (s : ExecState) (id : string) (d : NodeExecutionDetail) : ExecState :=
  mkExec (xs_env s) (xs_values s) (xs_point_values s) (xs_cache s) (xs_errors s) (xs_actions s) (xs_path s) (xs_graph s) (xs_matched s)
    (<[id := d]> (xs_details s)).

Definition finish_node (s : ExecState) (id : string) (st : NodeStatus) (kind : option string) : ExecState :=
  set_graph s (ExecutionGraph_finish_node (xs_graph s) id st kind).
(** Finish a node with an error of its branch. *)
Definition fail_node (s : ExecState) (id : string) (st : NodeStatus) (kind : string) (err : BranchError) : ExecState :=
  push_error (finish_node s id st (Some kind)) err.
(** Hand over to the targets, or end the branch. *)
Definition follow (s : ExecState) (id : string) (port : option string) (targets : list string) (kind : string)
    : ExecState * list string :=
  match targets with
  | [] => (finish_node s id Executed (Some kind), [])
  | _ => (set_graph s (ExecutionGraph_activate_edges (xs_graph s) id port targets), targets)
  end.

Definition snapshot_or_reuse (s : ExecState) (values_changed : bool) : ExecState * gmap string Z :=
  match values_changed, xs_cache s with
  | false, Some snapshot => (s, snapshot)
  | _, _ => (set_cache s (Some (xs_values s)), xs_values s)
  end.

(** Read a node's variables; [None] when the branch ends here. *)
Definition read_node (s : ExecState) (id : string) (vars : list RuleVariable) : ExecState * option bool :=
  let '(r, err) := read_rule_variables (ev_world (xs_env s)) vars (xs_values s) in
  let e := with_world (xs_env s) (rs_world r) in
  match err with
  | Some err => (fail_node (set_read s e (rs_values r) (xs_point_values s)) id Failed "execution_error" err, None)
  | None =>
      let o := rs_outcome r in
      let s := set_read s e (rs_values r) (ro_point_values o ∪ xs_point_values s) in
      match ro_missing o with
      | [] => (s, Some (ro_values_changed o))
      | missing => (fail_node s id Skipped "variables_unavailable" (VariablesUnavailable missing), None)
      end
  end.

Definition find_variable (vars : list RuleVariable) (name : string) : option RuleVariable :=
  find (fun v => String.eqb (rv_name v) name) vars.

(** The assignments of a change node; an assignment to an unknown variable is ignored. *)
Fixpoint change_loop (s : ExecState) (vars : list RuleVariable) (assignments : list RuleValueAssignment) (done : list ActionResult)
    : ExecState * list ActionResult :=
  match assignments with
  | [] => (s, done)
  | a :: assignments =>
      match find_variable vars (va_variables a) with
      | Some var =>
          let '(e, r) := execute_rule_change (xs_env s) var a (xs_values s) in
          change_loop (push_action s e r) vars assignments (done ++ [r])
      | None => change_loop s vars assignments done
      end
  end.

Definition calc_context (rule_id : Z) : string := ("rule_" +:+ print_i64 rule_id)%string.

(** The calculations of a node, in order; a failing formula ends the branch. *)
Fixpoint calc_loop (rule_id : Z) (s : ExecState) (id : string) (vars : list RuleVariable) (calcs : list CalculationRule)
    (done : list ActionResult) : ExecState * option (list ActionResult) :=
  match calcs with
  | [] => (s, Some done)
  | calc :: calcs =>
      let '(w, r) := CalcEngine_evaluate (calc_context rule_id) captures_iter eval_with_context parse_f64 f64_display calc_round
                       (ev_world (xs_env s)) (ca_formula calc) (xs_values s) in
      let s := set_read s (with_world (xs_env s) w) (xs_values s) (xs_point_values s) in
      match r with
      | Err e => (fail_node s id Failed "execution_error" (CalculationFailed e), None)
      | Ok v =>
          let '(s, done) :=
            match find_variable vars (ca_output calc) with
            | Some var =>
                let '(e, a) := write_calculation_result (xs_env s) var v in (push_action s e a, done ++ [a])
            | None => (s, done)
            end in
          calc_loop rule_id (set_read s (xs_env s) (<[ca_output calc := v]> (xs_values s)) (xs_point_values s)) id vars calcs done
      end
  end.

Definition handle_calculation_node (rule_id : Z) (s : ExecState) (id : string) (vars : list RuleVariable)
    (calcs : list CalculationRule) (wires : list string) : ExecState * list string :=
  let '(s, changed) := read_node s id vars in
  match changed with
  | None => (s, [])
  | Some changed =>
      let '(s, input) := snapshot_or_reuse s changed in
      let '(s, actions) := calc_loop rule_id s id vars calcs [] in
      match actions with
      | None => (s, [])
      | Some actions =>
          let s := add_detail (set_cache s None) id
            (mkNodeDetail "calculation" input None None (Some actions) (bool_decide (wires = []))) in
          follow s id None wires "no_downstream"
      end
  end.

Definition handle_period_delta_node (rule_id : Z) (s : ExecState) (id : string) (input output : RuleVariable)
    (period : string) (wires : list string) : ExecState * list string :=
  let '(s, changed) := read_node s id [input] in
  match changed with
  | None => (s, [])
  | Some changed =>
      let '(s, snapshot) := snapshot_or_reuse s changed in
      match xs_values s !! rv_name input with
      | None => (fail_node s id Skipped "variables_unavailable" (VariablesUnavailable [rv_name input]), [])
      | Some v =>
          if f64_is_finite v then
            let state_key := (print_i64 rule_id +:+ ":" +:+ print_u32 (default 0 (rv_instance input)) +:+ ":" +:+
                              print_u32 (default 0 (rv_point input)))%string in
            let '(w, r) := BuiltinFunctions_period_delta (calc_context rule_id) (ev_world (xs_env s)) state_key v period in
            let s := set_read s (with_world (xs_env s) w) (xs_values s) (xs_point_values s) in
            match r with
            | Err e => (fail_node s id Failed "execution_error" (CalculationFailed e), [])
            | Ok delta =>
                let '(e, a) := write_period_delta_result (xs_env s) output delta in
                let s := push_action s e a in
                let s := set_cache (set_read s (xs_env s) (<[rv_name output := delta]> (xs_values s)) (xs_point_values s)) None in
                let s := add_detail s id (mkNodeDetail "periodDelta" snapshot None None (Some [a]) (bool_decide (wires = []))) in
                follow s id None wires "no_downstream"
            end
          else (fail_node s id Skipped "invalid_input" (NonFiniteInput (rv_name input)), [])
      end
  end.

Definition node_type (n : RuleNode) : string :=
  match n with
  | NodeStart _ => "start" | NodeEnd => "end" | NodeSwitch _ _ _ => "switch" | NodeChangeValue _ _ _ => "change"
  | NodeCalculation _ _ _ => "calculation" | NodePeriodDelta _ _ _ _ => "periodDelta"
  end.

(** One node: what it does and where the flow continues. *)
Definition exec_node (rule_id : Z) (s : ExecState) (id : string) (n : RuleNode) : ExecState * list string :=
  let s := set_graph s (ExecutionGraph_push_node (xs_graph s) id (node_type n)) in
  match n with
  | NodeEnd => (finish_node s id Executed (Some "end"), [])
  | NodeStart wires =>
      match wires with
      | [] => (fail_node s id Failed "no_downstream" StartWithoutWire, [])
      | _ => follow s id None wires "no_downstream"
      end
  | NodeSwitch variables rules wires =>
      let '(s, changed) := read_node s id variables in
      match changed with
      | None => (s, [])
      | Some changed =>
          let '(s, snapshot) := snapshot_or_reuse s changed in
          let conditions := evaluate_all_conditions rules (xs_values s) in
          let '(targets, port, cond) := evaluate_rule_switch_with_details rules wires (xs_values s) in
          let s := match cond with Some _ => set_matched s cond | None => s end in
          let s := add_detail s id (mkNodeDetail "switch" snapshot (Some conditions) port None (bool_decide (targets = []))) in
          follow s id port targets "no_matching_branch"
      end
  | NodeChangeValue variables assignments wires =>
      let '(s, changed) := read_node s id variables in
      match changed with
      | None => (s, [])
      | Some changed =>
          let '(s, input) := snapshot_or_reuse s changed in
          let '(s, actions) := change_loop s variables assignments [] in
          let s := add_detail s id (mkNodeDetail "change" input None None (Some actions) (bool_decide (wires = []))) in
          follow s id None wires "no_downstream"
      end
  | NodeCalculation variables calcs wires => handle_calculation_node rule_id s id variables calcs wires
  | NodePeriodDelta input output period wires => handle_period_delta_node rule_id s id input output period wires
  end.

Definition MAX_VISITS : nat := 1000.

(** The work queue.  [None] is a walk that did not end within the fuel. *)
Fixpoint exec_loop (fuel : nat) (rule : Rule) (s : ExecState) (queue : list string) (visited : gset string) : option ExecState :=
  match fuel, queue with
  | _, [] => Some s
  | O, _ :: _ => None
  | S fuel, id :: queue =>
      if decide (id ∈ visited) then exec_loop fuel rule s queue visited
      else
        let visited := {[ id ]} ∪ visited in
        if (MAX_VISITS <? size visited)%nat then Some (push_error s TooManyVisits)
        else
          let s := push_path s id in
          match rf_nodes (ru_flow rule) !! id with
          | None =>
              let s := set_graph s (ExecutionGraph_push_node (xs_graph s) id "unknown") in
              exec_loop fuel rule (fail_node s id Failed "node_not_found" (NodeNotFound id)) queue visited
          | Some n =>
              let '(s, targets) := exec_node (ru_id rule) s id n in
              exec_loop fuel rule s (queue ++ targets) visited
          end
  end.

Definition node_degree (n : RuleNode) : nat :=
  match n with
  | NodeEnd => 0
  | NodeStart wires | NodeChangeValue _ _ wires | NodeCalculation _ _ wires | NodePeriodDelta _ _ _ wires => length wires
  | NodeSwitch _ _ wires => map_fold (fun _ l d => length l + d)%nat 0%nat wires
  end.
(** One start plus one queue entry per wire of the flow. *)
Definition flow_fuel (flow : RuleFlow) : nat :=
  S (map_fold (fun _ n d => node_degree n + d)%nat 0%nat (rf_nodes flow)).

Record RuleExecutionResult := mkRuleResult {
  re_rule_id : Z;
  re_success : bool;
  re_actions_executed : list ActionResult;
  re_error : option (list BranchError);
  re_execution_path : list string;
  re_execution_graph : ExecutionGraph;
  re_matched_condition : option (list FlowCondition);
  re_variable_values : gmap string Z;
  re_point_values : gmap string Z;
  re_node_details : gmap string NodeExecutionDetail
}.

Definition exec_init (e : Env) : ExecState := mkExec e ∅ ∅ None [] [] [] (mkExecutionGraph [] []) None ∅.
Definition exec_result (rule : Rule) (s : ExecState) : RuleExecutionResult :=
  mkRuleResult (ru_id rule) (bool_decide (xs_errors s = [])) (xs_actions s)
    (match xs_errors s with [] => None | errs => Some errs end)
    (xs_path s) (xs_graph s) (xs_matched s) (xs_values s) (xs_point_values s) (xs_details s).

Definition RuleExecutor_execute (e : Env) (rule : Rule) : option (Env * RuleExecutionResult) :=
  s ← exec_loop (flow_fuel (ru_flow rule)) rule (exec_init e) [rf_start_node (ru_flow rule)] ∅;
  Some (xs_env s, exec_result rule s).

(** * The walk *)

Definition edges (s : ExecState) : list GraphEdge := eg_edges (xs_graph s).

(** Steps inside a node leave the walk as it is. *)
Record same_walk (s s' : ExecState) : Prop := {
  sw_path : xs_path s' = xs_path s;
  sw_edges : edges s' = edges s;
  sw_cap : TooManyVisits ∈ xs_errors s' -> TooManyVisits ∈ xs_errors s
}.

#[local] Instance same_walk_preorder : PreOrder same_walk.
Proof.
  split; [by intros s; split |]. intros s1 s2 s3 [P1 E1 C1] [P2 E2 C2].
  split; [congruence | congruence | auto].
Qed.

Lemma same_walk_set s s' :
  xs_path s' = xs_path s -> edges s' = edges s -> xs_errors s' = xs_errors s -> same_walk s s'.
Proof. intros Hp He Hx. split; [done | done | by rewrite Hx]. Qed.

Lemma fail_node_walk s id st kind err : err <> TooManyVisits -> same_walk s (fail_node s id st kind err).
Proof.
  intros Hne. split; [done | done |]. cbn. rewrite elem_of_app, list_elem_of_singleton. intros [H | <-]; done.
Qed.

Lemma read_shared_error vars : forall s reqs s' err,
  read_shared s reqs vars = (s', Err err) -> err <> TooManyVisits.
Proof.
  induction vars as [|var vars IH]; intros s reqs s' err; cbn [read_shared]; [done |].
  repeat case_match; intros Hr; try (injection Hr as _ <-; done); by eapply IH.
Qed.

Lemma read_node_walk s id vars : same_walk s (read_node s id vars).1.
Proof.
  unfold read_node, read_rule_variables.
  destruct (read_shared _ _ _) as [r [reqs|err]] eqn:E; cbn [fst].
  - case_match; [by apply same_walk_set |]. etransitivity; [| by apply fail_node_walk]. by apply same_walk_set.
  - etransitivity; [| eapply fail_node_walk, read_shared_error, E]. by apply same_walk_set.
Qed.

Lemma snapshot_walk s b : same_walk s (snapshot_or_reuse s b).1.
Proof. unfold snapshot_or_reuse. repeat case_match; by apply same_walk_set. Qed.

Lemma change_loop_walk vars assignments : forall s done, same_walk s (change_loop s vars assignments done).1.
Proof.
  induction assignments as [|a assignments IH]; intros s acts; cbn [change_loop]; [done |].
  case_match; [| apply IH]. case_match. etransitivity; [| apply IH]. by apply same_walk_set.
Qed.

Lemma calc_loop_walk rule_id id vars calcs : forall s acts, same_walk s (calc_loop rule_id s id vars calcs acts).1.
Proof.
  induction calcs as [|c calcs IH]; intros s acts; cbn [calc_loop]; [done |].
  destruct (CalcEngine_evaluate _ _ _ _ _ _ _ _ _) as [w [v|err]].
  - destruct (find_variable vars _) as [var|]; [destruct (write_calculation_result _ _ _) as [e a] |];
      (etransitivity; [| apply IH]; by apply same_walk_set).
  - etransitivity; [| by apply fail_node_walk]. by apply same_walk_set.
Qed.

(** What a node hands over is recorded as edges from it. *)
Definition walk_step (id : string) (s : ExecState) (r : ExecState * list string) : Prop :=
  xs_path r.1 = xs_path s /\ (TooManyVisits ∈ xs_errors r.1 -> TooManyVisits ∈ xs_errors s) /\
  exists port, edges r.1 = edges s ++ map (fun t => mkGraphEdge id t port) r.2.

Lemma walk_stop id s s' : same_walk s s' -> walk_step id s (s', []).
Proof. intros [Hp He Hc]. split; [done | split; [done |]]. exists None. cbn. by rewrite app_nil_r. Qed.

Lemma walk_follow id s s' port targets kind :
  same_walk s s' -> walk_step id s (follow s' id port targets kind) /\ (follow s' id port targets kind).2 = targets.
Proof.
  intros [Hp He Hc]. unfold follow. destruct targets as [|t ts]; cbn.
  - split; [| done]. by apply walk_stop.
  - split; [| done]. split; [done | split; [done |]]. exists port. cbn. unfold edges in *. by rewrite He.
Qed.

Lemma switch_degree rules (wires : gmap string (list string)) values :
  (length (evaluate_rule_switch_with_details rules wires values).1.1 <= map_fold (fun _ l d => length l + d)%nat 0%nat wires)%nat.
Proof.
  induction rules as [|r rules IH]; cbn; [lia |]. case_match; [| done]. cbn.
  destruct (wires !! sb_name r) as [l|] eqn:E; cbn; [| lia].
  rewrite (map_fold_delete_L (fun _ (l : list string) d => length l + d)%nat 0%nat (sb_name r) l wires);
    [lia | intros; lia | done].
Qed.

(** Fold a chain of walk-preserving steps whose results were named. *)
Ltac walk_chain :=
  repeat match goal with
  | H : read_node ?s ?id ?vars = _ |- _ => let W := fresh "W" in pose proof (read_node_walk s id vars) as W; rewrite H in W; clear H
  | H : snapshot_or_reuse ?s ?b = _ |- _ => let W := fresh "W" in pose proof (snapshot_walk s b) as W; rewrite H in W; clear H
  | H : change_loop ?s ?v ?a ?d = _ |- _ => let W := fresh "W" in pose proof (change_loop_walk v a s d) as W; rewrite H in W; clear H
  | H : calc_loop ?r ?s ?i ?v ?c ?d = _ |- _ => let W := fresh "W" in pose proof (calc_loop_walk r i v c s d) as W; rewrite H in W; clear H
  end; cbn [fst] in *.

(** Chain two preserved stretches. *)
Ltac walk_trans :=
  repeat match goal with
  | H1 : same_walk ?a ?b, H2 : same_walk ?b ?c |- _ =>
      let H := fresh "W" in pose proof (transitivity H1 H2 : same_walk a c) as H; clear H1 H2
  end.

(** A branch that ends, and one that hands over after a preserved stretch. *)
Ltac walk_ends := walk_trans; split; [apply walk_stop | cbn; lia].
Ltac walk_follows :=
  walk_trans;
  match goal with |- walk_step ?i ?s (follow ?x ?i ?p ?t ?k) /\ _ =>
    let Hw := fresh in let Ht := fresh in
    destruct (walk_follow i s x p t k) as [Hw Ht]; [| by rewrite Ht] end;
  etransitivity; [eassumption |]; by apply same_walk_set.

Lemma handle_calculation_walk rule_id s0 s id vars calcs wires :
  same_walk s s0 ->
  walk_step id s (handle_calculation_node rule_id s0 id vars calcs wires) /\
  (length (handle_calculation_node rule_id s0 id vars calcs wires).2 <= length wires)%nat.
Proof.
  intros H0. unfold handle_calculation_node.
  destruct (read_node s0 id vars) as [s1 [changed|]] eqn:E1; walk_chain; [| by walk_ends].
  destruct (snapshot_or_reuse s1 changed) as [s2 snap] eqn:E2; walk_chain.
  destruct (calc_loop rule_id s2 id vars calcs []) as [s3 [acts|]] eqn:E3; walk_chain; [| by walk_ends].
  walk_follows.
Qed.

Lemma handle_period_delta_walk rule_id s0 s id input output period wires :
  same_walk s s0 ->
  walk_step id s (handle_period_delta_node rule_id s0 id input output period wires) /\
  (length (handle_period_delta_node rule_id s0 id input output period wires).2 <= length wires)%nat.
Proof.
  intros H0. unfold handle_period_delta_node.
  destruct (read_node s0 id [input]) as [s1 [changed|]] eqn:E1; walk_chain; [| by walk_ends].
  destruct (snapshot_or_reuse s1 changed) as [s2 snap] eqn:E2; walk_chain.
  destruct (xs_values s2 !! rv_name input) as [v|]; [| walk_ends; etransitivity; [eassumption | by apply fail_node_walk]].
  destruct (f64_is_finite v); [| walk_ends; etransitivity; [eassumption | by apply fail_node_walk]].
  destruct (BuiltinFunctions_period_delta _ _ _ _ _) as [w [delta|err]].
  - destruct (write_period_delta_result _ _ _) as [e a]. walk_follows.
  - walk_ends. etransitivity; [| by apply fail_node_walk]. etransitivity; [eassumption |]. by apply same_walk_set.
Qed.

Lemma exec_node_walk rule_id s id n :
  walk_step id s (exec_node rule_id s id n) /\ (length (exec_node rule_id s id n).2 <= node_degree n)%nat.
Proof.
  set (s0 := set_graph s (ExecutionGraph_push_node (xs_graph s) id (node_type n))).
  assert (H0 : same_walk s s0) by by apply same_walk_set.
  unfold exec_node. fold s0. destruct n as [wires| |vars rules wires|vars assigns wires|vars calcs wires|input output period wires];
    cbn [node_degree].
  - destruct wires as [|t ts]; [walk_ends; etransitivity; [eassumption | by apply fail_node_walk] |]. walk_follows.
  - walk_ends. etransitivity; [eassumption | by apply same_walk_set].
  - destruct (read_node s0 id vars) as [s1 [changed|]] eqn:E1; walk_chain; [| by walk_ends].
    destruct (snapshot_or_reuse s1 changed) as [s2 snap] eqn:E2; walk_chain.
    pose proof (switch_degree rules wires (xs_values s2)) as Hdeg.
    destruct (evaluate_rule_switch_with_details rules wires (xs_values s2)) as [[targets port] cond]. cbn [fst] in Hdeg.
    destruct cond; walk_follows.
  - destruct (read_node s0 id vars) as [s1 [changed|]] eqn:E1; walk_chain; [| by walk_ends].
    destruct (snapshot_or_reuse s1 changed) as [s2 snap] eqn:E2; walk_chain.
    destruct (change_loop s2 vars assigns []) as [s3 acts] eqn:E3; walk_chain. walk_follows.
  - by apply handle_calculation_walk.
  - by apply handle_period_delta_walk.
Qed.

(** The queue entries still to come from nodes not visited yet. *)
Definition degree_left (nodes : gmap string RuleNode) (visited : gset string) : nat :=
  map_fold (fun _ n d => node_degree n + d)%nat 0%nat (filter (fun kv => kv.1 ∉ visited) nodes).

Lemma degree_visit nodes visited id n :
  id ∉ visited -> nodes !! id = Some n ->
  degree_left nodes visited = (node_degree n + degree_left nodes ({[ id ]} ∪ visited))%nat.
Proof.
  intros Hv Hn. unfold degree_left.
  rewrite (map_fold_delete_L (fun _ n d => node_degree n + d)%nat 0%nat id n (filter _ nodes)).
  - f_equal. f_equal. apply map_eq. intros k. destruct (decide (k = id)) as [-> | Hne].
    + rewrite lookup_delete_eq. symmetry. apply map_lookup_filter_None. right. cbn. set_solver.
    + rewrite lookup_delete_ne by done. rewrite !map_lookup_filter. destruct (nodes !! k); cbn; [| done].
      repeat case_guard; cbn in *; [done | set_solver | set_solver | done].
  - intros; lia.
  - by apply map_lookup_filter_Some.
Qed.

Lemma degree_visit_le nodes visited id :
  (degree_left nodes ({[ id ]} ∪ visited) <= degree_left nodes visited)%nat.
Proof.
  destruct (decide (id ∈ visited)) as [Hin | Hv]; [by replace ({[ id ]} ∪ visited) with visited by set_solver |].
  destruct (nodes !! id) as [n|] eqn:En; [rewrite (degree_visit nodes visited id n); done || lia |].
  unfold degree_left. apply reflexive_eq. f_equal. apply map_eq. intros k. rewrite !map_lookup_filter.
  destruct (decide (k = id)) as [-> | Hne]; [by rewrite En |]. destruct (nodes !! k); cbn; [| done].
  repeat case_guard; cbn in *; [done | set_solver | set_solver | done].
Qed.

Record walk_inv (start : string) (s : ExecState) (queue : list string) (visited : gset string) : Prop := {
  wk_visited : visited = list_to_set (xs_path s);
  wk_nodup : NoDup (xs_path s);
  wk_cap : (length (xs_path s) <= MAX_VISITS)%nat;
  wk_edges : forall e, e ∈ edges s -> ge_source e ∈ xs_path s /\ (ge_target e ∈ xs_path s \/ ge_target e ∈ queue);
  wk_reach : forall id, id ∈ xs_path s \/ id ∈ queue -> id = start \/ exists e, e ∈ edges s /\ ge_target e = id;
  wk_start : start ∈ xs_path s \/ start ∈ queue
}.

Lemma walk_inv_skip start s id queue visited :
  walk_inv start s (id :: queue) visited -> id ∈ visited -> walk_inv start s queue visited.
Proof.
  intros [Hv Hn Hc He Hr Hs] Hid. assert (id ∈ xs_path s) by (rewrite Hv in Hid; by apply elem_of_list_to_set in Hid).
  split; [done | done | done | | |]; [| set_solver | set_solver].
  intros e Hin. destruct (He e Hin) as [? Ht]. split; [done |]. set_solver.
Qed.

(** Visiting a new node: its id joins the path, its targets the edges and the queue. *)
Lemma walk_inv_visit start s s1 id queue visited targets :
  walk_inv start s (id :: queue) visited -> id ∉ visited -> (size ({[ id ]} ∪ visited) <= MAX_VISITS)%nat ->
  walk_step id (push_path s id) (s1, targets) ->
  walk_inv start s1 (queue ++ targets) ({[ id ]} ∪ visited).
Proof.
  intros [Hv Hn Hc He Hr Hs] Hid Hsz (Hp & _ & port & Hed). cbn [fst snd] in Hp, Hed. cbn in Hp.
  change (edges (push_path s id)) with (edges s) in Hed.
  assert (Hnot : id ∉ xs_path s) by (rewrite Hv in Hid; by rewrite elem_of_list_to_set in Hid).
  split.
  - rewrite Hp, Hv. set_solver.
  - rewrite Hp. apply NoDup_app. split; [done |]. split; [set_solver | apply NoDup_singleton].
  - rewrite Hp, length_app. cbn. rewrite size_union in Hsz by set_solver.
    rewrite size_singleton, Hv, size_list_to_set in Hsz by done. lia.
  - intros e. rewrite Hed, Hp, elem_of_app, list_elem_of_fmap. intros [Hin | (t & -> & Ht)].
    + destruct (He e Hin). set_solver.
    + cbn. set_solver.
  - intros x. rewrite Hp, Hed. intros Hx.
    assert (Hcase : x ∈ targets \/ x ∈ xs_path s \/ x ∈ id :: queue) by set_solver.
    destruct Hcase as [Ht | Hold].
    + right. exists (mkGraphEdge id x port). split; [| done]. apply elem_of_app. right. apply list_elem_of_fmap. by exists x.
    + destruct (Hr x Hold) as [-> | (e & Hin & <-)]; [by left |]. right. exists e. split; [| done]. set_solver.
  - rewrite Hp. set_solver.
Qed.

Definition walk_done (start : string) (s : ExecState) : Prop :=
  NoDup (xs_path s) /\ (length (xs_path s) <= MAX_VISITS)%nat /\
  (forall id, id ∈ xs_path s -> id = start \/ exists e, e ∈ edges s /\ ge_target e = id /\ ge_source e ∈ xs_path s) /\
  (TooManyVisits ∉ xs_errors s -> start ∈ xs_path s /\ forall e, e ∈ edges s -> ge_target e ∈ xs_path s).

Lemma walk_inv_reach start s queue visited :
  walk_inv start s queue visited ->
  forall id, id ∈ xs_path s -> id = start \/ exists e, e ∈ edges s /\ ge_target e = id /\ ge_source e ∈ xs_path s.
Proof.
  intros Hi id Hin. destruct (wk_reach _ _ _ _ Hi id (or_introl Hin)) as [-> | (e & He & <-)]; [by left |].
  right. exists e. destruct (wk_edges _ _ _ _ Hi e He). done.
Qed.

Lemma exec_loop_walk rule start fuel : forall s queue visited,
  walk_inv start s queue visited ->
  (length queue + degree_left (rf_nodes (ru_flow rule)) visited <= fuel)%nat ->
  exists s', exec_loop fuel rule s queue visited = Some s' /\ walk_done start s'.
Proof.
  induction fuel as [|fuel IH]; intros s [|id queue] visited Hi Hf; cbn [exec_loop length] in *; try lia.
  1, 2: exists s; split; [done |]; pose proof (walk_inv_reach _ _ _ _ Hi); destruct Hi as [_ Hn Hc He _ Hs];
    split; [done | split; [done | split; [done |]]]; intros _; split; [set_solver |];
    intros e Hin; destruct (He e Hin) as [_ [? | ?]]; [done | set_solver].
  case_decide as Hid; [apply IH; [by apply (walk_inv_skip _ _ id) | lia] |].
  destruct (Nat.ltb_spec MAX_VISITS (size ({[ id ]} ∪ visited))) as [Hcap | Hcap].
  { exists (push_error s TooManyVisits). split; [done |]. pose proof (walk_inv_reach _ _ _ _ Hi).
    destruct Hi as [_ Hn Hc _ _ _]. split; [done | split; [done | split; [done |]]].
    intros Hno. exfalso. apply Hno. cbn. set_solver. }
  pose proof (degree_visit_le (rf_nodes (ru_flow rule)) visited id) as Hle.
  destruct (rf_nodes (ru_flow rule) !! id) as [n|] eqn:En.
  - destruct (exec_node_walk (ru_id rule) (push_path s id) id n) as [Hw Hd].
    destruct (exec_node (ru_id rule) (push_path s id) id n) as [s1 targets]. apply IH.
    + by apply (walk_inv_visit _ s).
    + rewrite length_app. rewrite (degree_visit _ visited id n) in Hf by done. cbn [snd] in Hd. lia.
  - apply IH; [| lia]. rewrite <- (app_nil_r queue). apply (walk_inv_visit _ s); [done.. |].
    apply walk_stop. etransitivity; [| by apply fail_node_walk]. by apply same_walk_set.
Qed.

(** C34: a rule execution always returns and walks the flow completely: each node
    runs at most once and at most 1000 do, every node that runs is the start node
    or was handed over to by a node that ran, and unless the visit limit was hit
    every target of an activated edge runs, however the wires fan out or cycle. *)
Theorem rule_walk_complete e rule :
  exists e' r, RuleExecutor_execute e rule = Some (e', r) /\
    NoDup (re_execution_path r) /\ (length (re_execution_path r) <= MAX_VISITS)%nat /\
    (forall id, id ∈ re_execution_path r -> id = rf_start_node (ru_flow rule) \/
       exists g, g ∈ eg_edges (re_execution_graph r) /\ ge_target g = id /\ ge_source g ∈ re_execution_path r) /\
    (TooManyVisits ∉ default [] (re_error r) ->
       rf_start_node (ru_flow rule) ∈ re_execution_path r /\
       forall g, g ∈ eg_edges (re_execution_graph r) -> ge_target g ∈ re_execution_path r).
Proof.
  destruct (exec_loop_walk rule (rf_start_node (ru_flow rule)) (flow_fuel (ru_flow rule)) (exec_init e)
    [rf_start_node (ru_flow rule)] ∅) as (s & Hrun & Hn & Hc & Hr & Hall).
  - split; cbn; [done | constructor | lia | set_solver | set_solver | set_solver].
  - unfold flow_fuel, degree_left. cbn [length]. apply le_n_S. apply reflexive_eq. f_equal. apply map_filter_id. set_solver.
  - exists (xs_env s), (exec_result rule s). unfold RuleExecutor_execute. rewrite Hrun. split; [done |].
    split; [done | split; [done | split; [done |]]]. intros Hno. apply Hall. cbn in Hno. by destruct (xs_errors s).
Qed.

(** * Data a rule acts on *)

Definition measured (var : RuleVariable) : bool := bool_decide (rv_formula var = []) && negb (var_is_action var).
Definition finite_points (m : gmap string Z) : Prop := map_Forall (fun _ v => f64_is_finite v = true) m.

(** A read pass only adds missing names and finite point values. *)
Record read_ext (o o' : RuleReadOutcome) : Prop := {
  rx_missing : ro_missing o' = [] -> ro_missing o = [];
  rx_points : dom (ro_point_values o) ⊆ dom (ro_point_values o');
  rx_finite : finite_points (ro_point_values o) -> finite_points (ro_point_values o')
}.
#[local] Instance read_ext_preorder : PreOrder read_ext.
Proof.
  split; [by intros o; split |]. intros o1 o2 o3 [M1 P1 F1] [M2 P2 F2]. split; [auto | set_solver | auto].
Qed.

Lemma add_missing_ext s name : read_ext (rs_outcome s) (rs_outcome (add_missing s name)).
Proof. split; cbn; [| done | done]. by destruct (ro_missing (rs_outcome s)). Qed.
Lemma add_value_ext s name key v : f64_is_finite v = true -> read_ext (rs_outcome s) (rs_outcome (add_value s name key v)).
Proof. intros Hv. split; cbn; [done | set_solver |]. intros Hf. by apply map_Forall_insert_2. Qed.
Lemma read_formula_ext s var : read_ext (rs_outcome s) (rs_outcome (read_formula s var)).
Proof. unfold read_formula. repeat case_match; [done | by split | apply add_missing_ext]. Qed.

(** A point is settled when its variable is missing or its value was read. *)
Definition settled (i p : Z) (o : RuleReadOutcome) : Prop :=
  ro_missing o <> [] \/ cache_key false i p ∈ dom (ro_point_values o).
Lemma settled_ext i p o o' : read_ext o o' -> settled i p o -> settled i p o'.
Proof. intros [M P _] [H | H]; [left; auto | right; set_solver]. Qed.

Definition pending (i p : Z) (reqs : list ((string * bool) * list (string * string * Z * Z))) : Prop :=
  exists k ps name field, ((k, false), ps) ∈ reqs /\ (name, field, i, p) ∈ ps.

Lemma push_request_spec k q reqs k' ps' :
  (k', ps') ∈ reqs -> exists ps, (k', ps) ∈ push_request k q reqs /\ ps' ⊆ ps.
Proof.
  induction reqs as [|[k0 ps0] reqs IH]; cbn; [set_solver |]. intros [Heq | Hin]%elem_of_cons.
  - injection Heq as -> ->. case_decide; eexists; (split; [apply elem_of_cons; by left | set_solver]).
  - case_decide; [exists ps'; set_solver |]. destruct (IH Hin) as (ps & ? & ?). exists ps. set_solver.
Qed.
Lemma push_request_new k q reqs : exists ps, (k, ps) ∈ push_request k q reqs /\ q ∈ ps.
Proof.
  induction reqs as [|[k0 ps0] reqs (ps & Hin & Hq)]; cbn; [exists [q]; set_solver |].
  case_decide as Heq; [subst k0; exists (ps0 ++ [q]); set_solver |]. exists ps. set_solver.
Qed.
Lemma pending_push i p k q reqs : pending i p reqs -> pending i p (push_request k q reqs).
Proof.
  intros (k' & ps & name & field & Hin & Hq). destruct (push_request_spec k q reqs _ _ Hin) as (ps' & Hin' & Hsub).
  exists k', ps', name, field. set_solver.
Qed.

Lemma read_shared_spec vars : forall s reqs s' reqs',
  read_shared s reqs vars = (s', Ok reqs') ->
  read_ext (rs_outcome s) (rs_outcome s') /\ (forall i p, pending i p reqs -> pending i p reqs') /\
  (forall var, var ∈ vars -> measured var = true -> exists i p, rv_instance var = Some i /\ rv_point var = Some p /\
     (settled i p (rs_outcome s') \/ pending i p reqs')).
Proof.
  induction vars as [|var vars IH]; intros s reqs s' reqs' Hr; cbn [read_shared] in Hr;
    [injection Hr as <- <-; split; [done | split; [done | set_solver]] |].
  destruct (rv_formula var) as [|tok toks] eqn:Ef.
  2: { destruct (IH _ _ _ _ Hr) as (Hx & Hp & Hv). split; [done | split; [done |]].
    intros v [-> | Hin]%elem_of_cons Hm; [| auto]. unfold measured in Hm. by rewrite Ef in Hm. }
  destruct (rv_instance var) as [i|] eqn:Ei; [| done]. destruct (rv_point var) as [pt|] eqn:Ep; [| done].
  destruct (UnifiedReader_get_instance (rs_world s) i _ pt) as [w [[v ts]|]] eqn:Eg.
  - destruct (f64_is_finite v) eqn:Efin; destruct (IH _ _ _ _ Hr) as (Hx & Hp & Hv).
    + assert (Hadd := add_value_ext (mkReadState w (rs_values s) (rs_outcome s)) (rv_name var) (cache_key (var_is_action var) i pt) v Efin).
      split; [by etransitivity | split; [done |]].
      intros v' [-> | Hin]%elem_of_cons Hm; [| auto]. exists i, pt. split; [done | split; [done |]]. left. eapply settled_ext; [exact Hx |].
      right. unfold measured in Hm. destruct (var_is_action var); [bool_hyps; done |]. cbn. set_solver.
    + unfold measured. destruct (var_is_action var) eqn:Ea.
      * split; [done | split; [done |]]. intros v' [-> | Hin]%elem_of_cons Hm; [| auto]. by rewrite Ea, andb_false_r in Hm.
      * assert (Hadd := add_missing_ext (mkReadState w (rs_values s) (rs_outcome s)) (rv_name var)).
        split; [by etransitivity | split; [done |]].
        intros v' [-> | Hin]%elem_of_cons Hm; [| auto]. exists i, pt. split; [done | split; [done |]]. left. eapply settled_ext; [exact Hx |].
        left. cbn. by destruct (ro_missing (rs_outcome s)).
  - destruct (IH _ _ _ _ Hr) as (Hx & Hp & Hv). split; [done | split; [intros i' p' H; by apply Hp, pending_push |]].
    intros v' [-> | Hin]%elem_of_cons Hm; [| auto]. exists i, pt. split; [done | split; [done |]]. right. apply Hp.
    unfold measured in Hm. destruct (var_is_action var); [bool_hyps; done |].
    destruct (push_request_new (instance_measurement_key i, false) (rv_name var, print_u32 pt, i, pt) reqs) as (ps & Hin & Hq).
    by exists (instance_measurement_key i), ps, (rv_name var), (print_u32 pt).
Qed.

Lemma take_fields_spec ps : forall s is_action results,
  read_ext (rs_outcome s) (rs_outcome (take_fields s is_action results ps)) /\
  (is_action = false -> forall name field i p, (name, field, i, p) ∈ ps ->
     settled i p (rs_outcome (take_fields s is_action results ps))).
Proof.
  induction ps as [|[[[name field] i] p] ps IH]; intros s is_action results; cbn [take_fields]; [split; [done | set_solver] |].
  match goal with |- read_ext _ (rs_outcome (take_fields ?x _ _ _)) /\ _ => set (s1 := x) end.
  assert (H1 : read_ext (rs_outcome s) (rs_outcome s1) /\ (is_action = false -> settled i p (rs_outcome s1))).
  { subst s1. destruct (hd None results ≫= parse_f64) as [v|]; [destruct (f64_is_finite v) eqn:Efin |].
    - split; [by apply add_value_ext |]. intros ->. right. cbn. set_solver.
    - destruct is_action; [by split |]. split; [apply add_missing_ext |]. intros _. left. cbn. by destruct (ro_missing _).
    - destruct is_action; [by split |]. split; [apply add_missing_ext |]. intros _. left. cbn. by destruct (ro_missing _). }
  destruct H1 as [Hx1 Hs1]. destruct (IH s1 is_action (tail results)) as [Hx Hs]. split; [by etransitivity |].
  intros Ha n f i' p' [Heq | Hin]%elem_of_cons; [| by eapply Hs].
  injection Heq as _ _ -> ->. eapply settled_ext; [exact Hx | by apply Hs1].
Qed.

Lemma all_missing_spec (ps : list (string * string * Z * Z)) : forall s,
  read_ext (rs_outcome s) (rs_outcome (foldl (fun s p => add_missing s p.1.1.1) s ps)) /\
  (ps <> [] -> ro_missing (rs_outcome (foldl (fun s p => add_missing s p.1.1.1) s ps)) <> []).
Proof.
  induction ps as [|q ps IH]; intros s; [done |]. cbn [foldl].
  destruct (IH (add_missing s q.1.1.1)) as [Hx _]. pose proof (add_missing_ext s q.1.1.1).
  split; [by etransitivity |]. intros _ Hm. apply (rx_missing _ _ Hx) in Hm. cbn in Hm. by destruct (ro_missing (rs_outcome s)).
Qed.

Lemma read_request_spec s k is_action ps :
  read_ext (rs_outcome s) (rs_outcome (read_request s ((k, is_action), ps))) /\
  (is_action = false -> forall name field i p, (name, field, i, p) ∈ ps ->
     settled i p (rs_outcome (read_request s ((k, is_action), ps)))).
Proof.
  unfold read_request. destruct (rw_hash_mget (rs_world s) k _) as [w [results|]].
  - apply (take_fields_spec ps (mkReadState w (rs_values s) (rs_outcome s))).
  - destruct is_action; [by split |].
    destruct (all_missing_spec ps (mkReadState w (rs_values s) (rs_outcome s))) as [Hx Hm].
    split; [done |]. intros _ name field i p Hin. left. apply Hm. intros ->. set_solver.
Qed.

Lemma read_requests_spec reqs : forall s,
  read_ext (rs_outcome s) (rs_outcome (foldl read_request s reqs)) /\
  (forall i p, pending i p reqs -> settled i p (rs_outcome (foldl read_request s reqs))).
Proof.
  induction reqs as [|[[k a] ps] reqs IH]; intros s; cbn [foldl]; [split; [done | intros i p (? & ? & ? & ? & ? & ?); set_solver] |].
  destruct (read_request_spec s k a ps) as [Hx1 Hs1]. destruct (IH (read_request s ((k, a), ps))) as [Hx Hs].
  split; [by etransitivity |]. intros i p (k' & ps' & name & field & [Heq | Hin]%elem_of_cons & Hq).
  - injection Heq as -> <- ->. eapply settled_ext; [exact Hx |]. by eapply Hs1.
  - apply Hs. by exists k', ps', name, field.
Qed.

Lemma read_formulas_ext vars : forall s, read_ext (rs_outcome s) (rs_outcome (foldl read_formula s vars)).
Proof.
  induction vars as [|v vars IH]; intros s; [done |]. cbn [foldl]. etransitivity; [apply read_formula_ext | apply IH].
Qed.

(** The measured variables of a node have values. *)
Definition available (points : gmap string Z) (vars : list RuleVariable) : Prop :=
  forall var, var ∈ vars -> measured var = true ->
  exists i p, rv_instance var = Some i /\ rv_point var = Some p /\ cache_key false i p ∈ dom points.

Hypothesis iter_perm : forall reqs, iter reqs ≡ₚ reqs.

Lemma read_rule_variables_spec w vars values r :
  read_rule_variables w vars values = (r, None) ->
  finite_points (ro_point_values (rs_outcome r)) /\
  (ro_missing (rs_outcome r) = [] -> available (ro_point_values (rs_outcome r)) vars).
Proof using All.
  unfold read_rule_variables. destruct (read_shared _ _ _) as [s [reqs|]] eqn:E; [| done]. intros Hr. injection Hr as <-.
  destruct (read_shared_spec _ _ _ _ _ E) as (Hx1 & _ & Hv).
  destruct (read_requests_spec (iter reqs) s) as [Hx2 Hp]. pose proof (read_formulas_ext vars (foldl read_request s (iter reqs))) as Hx3.
  split; [apply (rx_finite _ _ Hx3), (rx_finite _ _ Hx2), (rx_finite _ _ Hx1); apply map_Forall_empty |].
  intros Hm var Hin Hmeas. destruct (Hv var Hin Hmeas) as (i & p & Hi & Hpt & Hs). exists i, p. split; [done | split; [done |]].
  assert (settled i p (rs_outcome (foldl read_formula (foldl read_request s (iter reqs)) vars))) as [? | ?]; [| done | done].
  destruct Hs as [Hs | (k & ps & name & field & Hk & Hq)].
  - eapply settled_ext; [exact Hx3 |]. by eapply settled_ext; [exact Hx2 |].
  - eapply settled_ext; [exact Hx3 |]. apply Hp. exists k, ps, name, field. by rewrite iter_perm.
Qed.

(** * Effects *)

Definition effect_ok (f : Effect) : Prop :=
  match f with
  | EfWrite _ _ v => f64_is_finite v = true
  | EfStamp _ _ _ => True
  | EfDispatch ctx v => f64_is_finite v = true /\
      exists i p t ts, RoutingCache_lookup_m2c_by_parts rc i Adjustment p = Some t /\ ctx = route_context_from_target t ts
  end.

(** What a successful action has done: a measurement is written; a command is
    delivered to the routed channel point and mirrored. *)
Definition committed (effs : list Effect) (a : ActionResult) : Prop :=
  f64_is_finite (ar_value a) = true /\
  ((ar_point_type a = "M" /\ EfWrite (instance_measurement_key (ar_target_id a)) (print_u32 (ar_point_id a)) (ar_value a) ∈ effs) \/
   (ar_point_type a = "A" /\ EfWrite (instance_action_key (ar_target_id a)) (print_u32 (ar_point_id a)) (ar_value a) ∈ effs /\
    exists t ts, RoutingCache_lookup_m2c_by_parts rc (ar_target_id a) Adjustment (ar_point_id a) = Some t /\
      EfDispatch (route_context_from_target t ts) (ar_value a) ∈ effs)).

Definition honest (acts : list ActionResult) (effs : list Effect) : Prop :=
  Forall effect_ok effs /\ forall a, a ∈ acts -> ar_success a = true -> committed effs a.

Lemma committed_mono effs effs' a : effs ⊆ effs' -> committed effs a -> committed effs' a.
Proof.
  intros Hs [Hf [[Hm Hw] | (Ha & Hw & t & ts & Ht & Hd)]]; split; [done | left; set_solver | done | right].
  split; [done | split; [set_solver |]]. exists t, ts. split; [done | set_solver].
Qed.
Lemma honest_nil : honest [] [].
Proof. split; [constructor | set_solver]. Qed.
Lemma honest_app a1 a2 e1 e2 : honest a1 e1 -> honest a2 e2 -> honest (a1 ++ a2) (e1 ++ e2).
Proof.
  intros [F1 C1] [F2 C2]. split; [by apply Forall_app |]. intros a [Hin | Hin]%elem_of_app Hs.
  - apply (committed_mono e1); [set_solver | auto].
  - apply (committed_mono e2); [set_solver | auto].
Qed.

Lemma validate_value_finite v v' : validate_value v ValidationConfig_default = Ok v' -> v' = v /\ f64_is_finite v = true.
Proof.
  unfold validate_value, ValidationConfig_default, f64_is_nan, f64_is_infinite, f64_is_finite. cbn.
  destruct (f64_exponent v =? 2047); cbn; [destruct (f64_fraction v =? 0); cbn; done |]. intros H. by injection H as <-.
Qed.

Lemma write_measurement_effects e i p v e' ok :
  f64_is_finite v = true -> write_measurement_point e i p v = (e', ok) ->
  exists effs, ev_trace e' = ev_trace e ++ effs /\ Forall effect_ok effs /\
    EfWrite (instance_measurement_key i) (print_u32 p) v ∈ effs.
Proof.
  intros Hv. unfold write_measurement_point, now_millis, hash_set_value, hash_set_stamp.
  destruct (rw_now_millis _) as [w now]. destruct (rw_hash_set _ _ _ _) as [w' ok'].
  destruct ok'; [destruct (rw_hash_set _ _ _ _) as [w'' ok''] |]; intros Hr; injection Hr as <- _; cbn; rewrite <- ?app_assoc;
    eexists; (split; [done |]); (split; [by repeat constructor | set_solver]).
Qed.

Lemma set_action_effects e i p v t ts e' r :
  set_action_point_with_target_at e i p v t ts = (e', r) ->
  exists effs, ev_trace e' = ev_trace e ++ effs /\ Forall effect_ok effs /\
    (r = Some true -> f64_is_finite v = true /\ is_Some t /\ EfWrite (instance_action_key i) p v ∈ effs).
Proof.
  unfold set_action_point_with_target_at, validate_action_value.
  destruct (validate_value v ValidationConfig_default) as [v'|] eqn:Ev;
    [| intros Hr; injection Hr as <- <-; exists []; by rewrite app_nil_r].
  destruct (validate_value_finite _ _ Ev) as [-> Hf].
  unfold hash_set_value, hash_set_stamp, write_channel_hash_only. destruct (rw_hash_set _ _ _ _) as [w1 [|]].
  2: { intros Hr. injection Hr as <- <-. cbn. eexists. split; [done |]. split; [by repeat constructor | done]. }
  destruct (rw_hash_set _ _ _ _) as [w2 [|]].
  2: { intros Hr. injection Hr as <- <-. cbn. rewrite <- app_assoc. eexists. split; [done |]. split; [by repeat constructor | done]. }
  destruct t as [t|]; [destruct (rw_pipeline_hash_mset _ _) as [w3 ok3] |]; intros Hr; injection Hr as <- <-; cbn;
    rewrite <- ?app_assoc; eexists; (split; [done |]); (split; [by repeat constructor |]); [| done].
  intros _. split; [done | split; [done | set_solver]].
Qed.

Lemma write_action_effects e i p v e' ok :
  write_action_point e i p (print_u32 p) v = (e', ok) ->
  exists effs, ev_trace e' = ev_trace e ++ effs /\ Forall effect_ok effs /\
    (ok = true -> EfWrite (instance_action_key i) (print_u32 p) v ∈ effs /\
      exists t ts, RoutingCache_lookup_m2c_by_parts rc i Adjustment p = Some t /\ EfDispatch (route_context_from_target t ts) v ∈ effs).
Proof.
  unfold write_action_point. destruct (RoutingCache_lookup_m2c_by_parts rc i Adjustment p) as [t|] eqn:Et.
  2: { unfold set_action_point_with_target, now_millis. destruct (rw_now_millis _) as [w now].
    destruct (set_action_point_with_target_at _ _ _ _ _ _) as [e1 r] eqn:E1. intros Hr. injection Hr as <- <-.
    destruct (set_action_effects _ _ _ _ _ _ _ _ E1) as (effs & Ht & Hok & Hr). exists effs. split; [done | split; [done |]].
    intros Hd. destruct r as [[|]|]; try done. destruct (Hr eq_refl) as (_ & [? ?] & _). done. }
  unfold validate_action_value. destruct (validate_value v ValidationConfig_default) as [v'|] eqn:Ev;
    [| intros Hr; injection Hr as <- <-; exists []; by rewrite app_nil_r].
  destruct (validate_value_finite _ _ Ev) as [-> Hf].
  unfold now_millis, dispatch_action_to_comsrv. destruct (rw_now_millis _) as [w now]. cbn [ev_world with_world].
  destruct (rw_dispatch w _ v) as [[w' o]|]; [| intros Hr; injection Hr as <- <-; exists []; by rewrite app_nil_r].
  assert (Hd : effect_ok (EfDispatch (route_context_from_target t now) v)) by (split; [done |]; by exists i, p, t, now).
  destruct (DispatchOutcome_is_delivered o).
  - destruct (set_action_point_with_target_at _ _ _ _ _ _) as [e1 r] eqn:E1. intros Hr. injection Hr as <- <-.
    destruct (set_action_effects _ _ _ _ _ _ _ _ E1) as (effs & Ht & Hok & Hr). cbn in Ht. rewrite <- app_assoc in Ht.
    eexists. split; [exact Ht |]. split; [by constructor |]. intros Hs. destruct r as [[|]|]; try done.
    destruct (Hr eq_refl) as (_ & _ & Hw). split; [set_solver |]. exists t, now. split; [done | set_solver].
  - intros Hr. injection Hr as <- <-. eexists. split; [done |]. split; [| done]. constructor; [exact Hd | constructor].
Qed.

Lemma write_validated_honest e var raw dflt pt_of e' a :
  write_validated e var raw dflt pt_of = (e', a) ->
  exists effs, ev_trace e' = ev_trace e ++ effs /\ honest [a] effs.
Proof.
  unfold write_validated, validate_write_target. destruct (validate_value raw _) as [v|] eqn:Ev.
  2: { intros Hr. injection Hr as <- <-. exists []. rewrite app_nil_r. split; [done |]. split; [constructor |].
    intros x ->%list_elem_of_singleton. done. }
  destruct (validate_value_finite _ _ Ev) as [-> Hf].
  destruct (rv_instance var) as [i|], (rv_point var) as [p|].
  2, 3, 4: intros Hr; injection Hr as <- <-; exists []; rewrite app_nil_r; split; [done |]; split; [constructor |];
    intros x ->%list_elem_of_singleton; done.
  unfold write_to_point. destruct (String.eqb_spec (pt_of (point_type_to_static (rv_point_type var) dflt)) "M") as [-> | _];
    [| destruct (String.eqb_spec (pt_of (point_type_to_static (rv_point_type var) dflt)) "A") as [-> | _]].
  - destruct (write_measurement_point _ _ _ _) as [e1 ok] eqn:E1. intros Hr. injection Hr as <- <-.
    destruct (write_measurement_effects _ _ _ _ _ _ Hf E1) as (effs & Ht & Hok & Hw). exists effs. split; [done |]. split; [done |].
    intros x ->%list_elem_of_singleton _. split; [done |]. by left.
  - destruct (write_action_point _ _ _ _ _) as [e1 ok] eqn:E1. intros Hr. injection Hr as <- <-.
    destruct (write_action_effects _ _ _ _ _ _ E1) as (effs & Ht & Hok & Hw). exists effs. split; [done |]. split; [done |].
    intros x ->%list_elem_of_singleton Hs. cbn in Hs. destruct (Hw Hs) as (Hx & Hdisp). split; [done |]. by right.
  - intros Hr. injection Hr as <- <-. exists []. rewrite app_nil_r. split; [done |]. split; [constructor |].
    intros x ->%list_elem_of_singleton. done.
Qed.

(** The action is one for the point of a variable of the list; an action on a variable
    without a point is reported as failed. *)
Definition action_for (vars : list RuleVariable) (a : ActionResult) : Prop :=
  exists var, var ∈ vars /\ ((rv_instance var = Some (ar_target_id a) /\ rv_point var = Some (ar_point_id a)) \/ ar_success a = false).

Lemma write_validated_target e var raw dflt pt_of vars :
  var ∈ vars -> action_for vars (write_validated e var raw dflt pt_of).2.
Proof.
  intros Hin. exists var. split; [done |]. unfold write_validated, validate_write_target.
  destruct (validate_value raw _); [| by right]. destruct (rv_instance var), (rv_point var); [| by right..].
  unfold write_to_point. left. by repeat case_match.
Qed.

(** A stretch that reads no points and acts honestly, on the points of [vars] only. *)
Record acted (vars : list RuleVariable) (s s' : ExecState) : Prop := {
  ac_path : xs_path s' = xs_path s;
  ac_points : xs_point_values s' = xs_point_values s;
  ac_actions : exists acts effs, xs_actions s' = xs_actions s ++ acts /\
    ev_trace (xs_env s') = ev_trace (xs_env s) ++ effs /\ (acts = [] -> effs = []) /\ honest acts effs /\ Forall (action_for vars) acts
}.
#[local] Instance acted_preorder vars : PreOrder (acted vars).
Proof.
  split.
  - intros s. split; [done | done |]. exists [], []. rewrite !app_nil_r. split_and!; [done | done | done | apply honest_nil | done].
  - intros s1 s2 s3 [Q1 P1 (a1 & e1 & A1 & T1 & N1 & H1 & F1)] [Q2 P2 (a2 & e2 & A2 & T2 & N2 & H2 & F2)].
    split; [congruence | congruence |]. exists (a1 ++ a2), (e1 ++ e2). rewrite A2, A1, T2, T1, !app_assoc.
    split_and!; [done | done | | by apply honest_app | by apply Forall_app]. intros [-> ->]%app_eq_nil. by rewrite N1, N2.
Qed.
Lemma acted_quiet vars s s' :
  xs_path s' = xs_path s -> xs_point_values s' = xs_point_values s -> xs_actions s' = xs_actions s ->
  ev_trace (xs_env s') = ev_trace (xs_env s) -> acted vars s s'.
Proof.
  intros Hq Hp Ha Ht. split; [done | done |]. exists [], []. rewrite !app_nil_r. split_and!; [done | done | done | apply honest_nil | done].
Qed.
Lemma acted_one vars s s' e var raw dflt pt_of e' a :
  var ∈ vars -> write_validated e var raw dflt pt_of = (e', a) -> ev_trace e = ev_trace (xs_env s) -> ev_trace (xs_env s') = ev_trace e' ->
  xs_path s' = xs_path s -> xs_point_values s' = xs_point_values s -> xs_actions s' = xs_actions s ++ [a] -> acted vars s s'.
Proof.
  intros Hin Hw Ht Ht' Hq Hp Ha. destruct (write_validated_honest _ _ _ _ _ _ _ Hw) as (effs & He & Hh).
  pose proof (write_validated_target e var raw dflt pt_of vars Hin) as Hv. rewrite Hw in Hv.
  split; [done | done |]. exists [a], effs. split_and!; [done | congruence | done | done |]. by constructor.
Qed.
Lemma acted_skip vars s s' var :
  var ∈ vars -> ev_trace (xs_env s') = ev_trace (xs_env s) -> xs_path s' = xs_path s -> xs_point_values s' = xs_point_values s ->
  xs_actions s' = xs_actions s ++ [action_skipped var] -> acted vars s s'.
Proof.
  intros Hin Ht Hq Hp Ha. split; [done | done |]. exists [action_skipped var], []. rewrite app_nil_r. split_and!; [done | done | done | |].
  - split; [constructor |]. intros x ->%list_elem_of_singleton. done.
  - constructor; [| constructor]. exists var. split; [done | by right].
Qed.

Lemma snapshot_acted vars s b : acted vars s (snapshot_or_reuse s b).1.
Proof. unfold snapshot_or_reuse. repeat case_match; by apply acted_quiet. Qed.
Lemma follow_acted vars s id port targets kind : acted vars s (follow s id port targets kind).1.
Proof. unfold follow. case_match; by apply acted_quiet. Qed.

(** The variables of a list that are named. *)
Definition named (vars : list RuleVariable) (names : list string) : list RuleVariable :=
  omap (find_variable vars) names.
Lemma named_intro vars names name var : name ∈ names -> find_variable vars name = Some var -> var ∈ named vars names.
Proof. intros Hin Hf. apply list_elem_of_omap. by exists name. Qed.

Lemma change_loop_acted names vars assignments : forall s acts, va_variables <$> assignments ⊆ names ->
  acted (named vars names) s (change_loop s vars assignments acts).1.
Proof.
  induction assignments as [|a assignments IH]; intros s acts Hn; cbn [change_loop]; [done |].
  destruct (find_variable vars _) as [var|] eqn:Hf; [| apply IH; set_solver]. unfold execute_rule_change.
  assert (Hin : var ∈ named vars names) by (eapply named_intro; [| exact Hf]; set_solver).
  destruct (assignment_value _ _) as [raw|]; [destruct (write_validated _ _ _ _ _) as [e r] eqn:E |];
    (etransitivity; [| apply IH; set_solver]); [by eapply acted_one | by eapply acted_skip].
Qed.
Lemma calc_loop_acted rule_id id names vars calcs : forall s acts, ca_output <$> calcs ⊆ names ->
  acted (named vars names) s (calc_loop rule_id s id vars calcs acts).1.
Proof.
  induction calcs as [|c calcs IH]; intros s acts Hn; cbn [calc_loop]; [done |].
  destruct (CalcEngine_evaluate _ _ _ _ _ _ _ _ _) as [w [v|err]]; [| by apply acted_quiet].
  destruct (find_variable vars _) as [var|] eqn:Hf; [destruct (write_calculation_result _ _ _) as [e a] eqn:Ew |];
    (etransitivity; [| apply IH; set_solver]); [| by apply acted_quiet].
  eapply acted_one; [| exact Ew | done..]. eapply named_intro; [| exact Hf]. set_solver.
Qed.

Definition node_variables (n : RuleNode) : list RuleVariable :=
  match n with
  | NodeStart _ | NodeEnd => []
  | NodeSwitch vars _ _ | NodeChangeValue vars _ _ | NodeCalculation vars _ _ => vars
  | NodePeriodDelta input _ _ _ => [input]
  end.

(** The variables a node may write. *)
Definition node_targets (n : RuleNode) : list RuleVariable :=
  match n with
  | NodeStart _ | NodeEnd | NodeSwitch _ _ _ => []
  | NodeChangeValue vars assignments _ => named vars (va_variables <$> assignments)
  | NodeCalculation vars calcs _ => named vars (ca_output <$> calcs)
  | NodePeriodDelta _ output _ _ => [output]
  end.

(** Reading a node's variables: more finite points, no action; and the branch goes
    on only when every measured variable is available. *)
Record read_part (s s' : ExecState) : Prop := {
  rp_path : xs_path s' = xs_path s;
  rp_dom : dom (xs_point_values s) ⊆ dom (xs_point_values s');
  rp_finite : finite_points (xs_point_values s) -> finite_points (xs_point_values s');
  rp_actions : xs_actions s' = xs_actions s;
  rp_trace : ev_trace (xs_env s') = ev_trace (xs_env s)
}.

(** The node's own read, from the state in which it starts: every variable is there, and the
    measured ones have finite values of their configured points. *)
Definition data_at_hand (s : ExecState) (vars : list RuleVariable) : Prop :=
  let '(r, err) := read_rule_variables (ev_world (xs_env s)) vars (xs_values s) in
  err = None /\ ro_missing (rs_outcome r) = [] /\
  finite_points (ro_point_values (rs_outcome r)) /\ available (ro_point_values (rs_outcome r)) vars.

Lemma read_node_part s id vars s' changed :
  read_node s id vars = (s', changed) -> read_part s s' /\ (is_Some changed -> data_at_hand s vars).
Proof using All.
  unfold read_node, data_at_hand. destruct (read_rule_variables _ _ _) as [r [err|]] eqn:E; intros Hr.
  { injection Hr as <- <-. split; [by split | by intros [? ?]]. }
  destruct (read_rule_variables_spec _ _ _ _ E) as [Hf Hav].
  assert (Hpart : forall s', xs_path s' = xs_path s -> xs_actions s' = xs_actions s -> ev_trace (xs_env s') = ev_trace (xs_env s) ->
    xs_point_values s' = ro_point_values (rs_outcome r) ∪ xs_point_values s -> read_part s s').
  { intros x Hq Ha Ht Hp. split; [done | rewrite Hp; set_solver | | done | done].
    rewrite Hp. intros Hs. by apply map_Forall_union_2. }
  destruct (ro_missing (rs_outcome r)) as [|m ms] eqn:Em; injection Hr as <- <-.
  - split; [by apply Hpart |]. intros _. split_and!; auto.
  - split; [by apply Hpart | by intros [? ?]].
Qed.

(** A node reads, and acts only on its own targets and only with its data at hand. *)
Definition node_data (s : ExecState) (vars targets : list RuleVariable) (s' : ExecState) : Prop :=
  exists sm, read_part s sm /\ acted targets sm s' /\ (xs_actions s' <> xs_actions sm -> data_at_hand s vars).

Lemma node_data_idle vars s s' : acted [] s s' -> node_data s vars [] s'.
Proof.
  intros Ha. exists s. split; [by split |]. split; [done |]. destruct Ha as [_ _ ([|a acts] & effs & -> & _ & _ & _ & Hf)]; [by rewrite app_nil_r |].
  inversion Hf as [|? ? (var & Hin & _)]. set_solver.
Qed.

(** After the read either the branch ended or the rest only acts. *)
Lemma node_data_read s g id vars targets s1 changed s' :
  read_node (set_graph s g) id vars = (s1, changed) ->
  (changed = None -> s' = s1) -> (is_Some changed -> acted targets s1 s') -> node_data s vars targets s'.
Proof using All.
  intros E Hno Hyes. destruct (read_node_part _ _ _ _ _ E) as [[R1 R2 R3 R4 R5] Hav].
  exists s1. split; [by split |]. destruct changed as [b|]; [split; [by apply Hyes | intros _; by apply Hav] |]. rewrite (Hno eq_refl). done.
Qed.

(** The end of a node: details and hand-over. *)
Lemma follow_after vars s s1 s' id port targets kind ts :
  acted vars s s1 -> follow s1 id port targets kind = (s', ts) -> acted vars s s'.
Proof. intros Ha Hr. apply (f_equal fst) in Hr. cbn in Hr. subst s'. etransitivity; [exact Ha | apply follow_acted]. Qed.

Lemma handle_calculation_data rule_id s g id vars calcs wires s' ts :
  handle_calculation_node rule_id (set_graph s g) id vars calcs wires = (s', ts) -> node_data s vars (named vars (ca_output <$> calcs)) s'.
Proof using All.
  unfold handle_calculation_node. destruct (read_node (set_graph s g) id vars) as [s1 changed] eqn:E1. intros Hr.
  eapply node_data_read; [exact E1 | |]; [by intros ->; injection Hr as <- _ |].
  intros [b ->]. pose proof (snapshot_acted (named vars (ca_output <$> calcs)) s1 b) as H2. destruct (snapshot_or_reuse s1 b) as [s2 snap].
  pose proof (calc_loop_acted rule_id id (ca_output <$> calcs) vars calcs s2 [] ltac:(done)) as H3. destruct (calc_loop rule_id s2 id vars calcs []) as [s3 [acts|]];
    cbn [fst] in *; [| injection Hr as <- _; by etransitivity].
  eapply follow_after; [| exact Hr]. etransitivity; [exact H2 |]. etransitivity; [exact H3 |]. by apply acted_quiet.
Qed.

Lemma handle_period_delta_data rule_id s g id input output period wires s' ts :
  handle_period_delta_node rule_id (set_graph s g) id input output period wires = (s', ts) -> node_data s [input] [output] s'.
Proof using All.
  unfold handle_period_delta_node. destruct (read_node (set_graph s g) id [input]) as [s1 changed] eqn:E1. intros Hr.
  eapply node_data_read; [exact E1 | |]; [by intros ->; injection Hr as <- _ |].
  intros [b ->]. pose proof (snapshot_acted [output] s1 b) as H2. destruct (snapshot_or_reuse s1 b) as [s2 snap]. cbn [fst] in H2.
  etransitivity; [exact H2 |].
  destruct (xs_values s2 !! rv_name input) as [v|]; [| injection Hr as <- _; by apply acted_quiet].
  destruct (f64_is_finite v); [| injection Hr as <- _; by apply acted_quiet].
  destruct (BuiltinFunctions_period_delta _ _ _ _ _) as [w [delta|err]]; [| injection Hr as <- _; by apply acted_quiet].
  destruct (write_period_delta_result _ _ _) as [e a] eqn:Ew. eapply follow_after; [| exact Hr]. eapply acted_one; [| exact Ew | done..]. set_solver.
Qed.

Lemma exec_node_data rule_id s id n s' ts : exec_node rule_id s id n = (s', ts) -> node_data s (node_variables n) (node_targets n) s'.
Proof using All.
  unfold exec_node. set (g := ExecutionGraph_push_node (xs_graph s) id (node_type n)). intros Hr.
  destruct n as [wires| |vars rules wires|vars assigns wires|vars calcs wires|input output period wires]; cbn [node_variables node_targets] in *.
  - apply node_data_idle. destruct wires as [|t ts']; [injection Hr as <- <-; by apply acted_quiet |]. eapply follow_after; [| exact Hr]. by apply acted_quiet.
  - apply node_data_idle. injection Hr as <- <-. by apply acted_quiet.
  - destruct (read_node (set_graph s g) id vars) as [s1 changed] eqn:E1.
    eapply node_data_read; [exact E1 | |]; [by intros ->; injection Hr as <- _ |].
    intros [b ->]. pose proof (snapshot_acted [] s1 b) as H2. destruct (snapshot_or_reuse s1 b) as [s2 snap]. cbn [fst] in H2.
    destruct (evaluate_rule_switch_with_details rules wires (xs_values s2)) as [[targets port] cond].
    eapply follow_after; [| exact Hr]. etransitivity; [exact H2 |]. destruct cond; by apply acted_quiet.
  - destruct (read_node (set_graph s g) id vars) as [s1 changed] eqn:E1.
    eapply node_data_read; [exact E1 | |]; [by intros ->; injection Hr as <- _ |].
    intros [b ->]. pose proof (snapshot_acted (named vars (va_variables <$> assigns)) s1 b) as H2. destruct (snapshot_or_reuse s1 b) as [s2 snap]. cbn [fst] in H2.
    pose proof (change_loop_acted (va_variables <$> assigns) vars assigns s2 [] ltac:(done)) as H3. destruct (change_loop s2 vars assigns []) as [s3 acts]. cbn [fst] in H3.
    eapply follow_after; [| exact Hr]. etransitivity; [exact H2 |]. etransitivity; [exact H3 |]. by apply acted_quiet.
  - by eapply handle_calculation_data.
  - by eapply handle_period_delta_data.
Qed.

(** * The runs of the nodes *)

(** What a node leaves behind, and the state in which each node of a walk starts. *)
Definition node_end (rule : Rule) (id : string) (s : ExecState) : ExecState :=
  match rf_nodes (ru_flow rule) !! id with
  | None => fail_node (set_graph s (ExecutionGraph_push_node (xs_graph s) id "unknown")) id Failed "node_not_found" (NodeNotFound id)
  | Some n => (exec_node (ru_id rule) s id n).1
  end.
Fixpoint loop_runs (fuel : nat) (rule : Rule) (s : ExecState) (queue : list string) (visited : gset string) : list (string * ExecState) :=
  match fuel, queue with
  | S fuel, id :: queue =>
      if decide (id ∈ visited) then loop_runs fuel rule s queue visited
      else
        let visited := {[ id ]} ∪ visited in
        if (MAX_VISITS <? size visited)%nat then []
        else
          let s := push_path s id in
          let targets := match rf_nodes (ru_flow rule) !! id with Some n => (exec_node (ru_id rule) s id n).2 | None => [] end in
          (id, s) :: loop_runs fuel rule (node_end rule id s) (queue ++ targets) visited
  | _, _ => []
  end.
Definition node_runs (e : Env) (rule : Rule) : list (string * ExecState) :=
  loop_runs (flow_fuel (ru_flow rule)) rule (exec_init e) [rf_start_node (ru_flow rule)] ∅.

(** What one run adds to the actions of the execution and to the effects on the outside. *)
Definition run_actions (rule : Rule) (run : string * ExecState) : list ActionResult :=
  drop (length (xs_actions run.2)) (xs_actions (node_end rule run.1 run.2)).
Definition run_effects (rule : Rule) (run : string * ExecState) : list Effect :=
  drop (length (ev_trace (xs_env run.2))) (ev_trace (xs_env (node_end rule run.1 run.2))).

(** A run that acts is that of a node of the flow, which found its data at hand when it
    started, and its actions are on the points that this node writes. *)
Definition acts_on_data (rule : Rule) (run : string * ExecState) : Prop :=
  (run_actions rule run = [] -> run_effects rule run = []) /\
  (run_actions rule run <> [] -> exists n, rf_nodes (ru_flow rule) !! run.1 = Some n /\
     data_at_hand run.2 (node_variables n) /\ Forall (action_for (node_targets n)) (run_actions rule run)).

Lemma node_end_data rule id s : let s' := node_end rule id s in
  xs_path s' = xs_path s /\ xs_actions s' = xs_actions s ++ run_actions rule (id, s) /\
  ev_trace (xs_env s') = ev_trace (xs_env s) ++ run_effects rule (id, s) /\ honest (run_actions rule (id, s)) (run_effects rule (id, s)) /\
  (finite_points (xs_point_values s) -> finite_points (xs_point_values s')) /\ acts_on_data rule (id, s).
Proof using All.
  unfold acts_on_data, run_actions, run_effects. cbn [fst snd]. unfold node_end. destruct (rf_nodes (ru_flow rule) !! id) as [n|].
  2: { cbn. rewrite !drop_all, !app_nil_r. split_and!; [done | done | done | apply honest_nil | done | done | done]. }
  destruct (exec_node (ru_id rule) s id n) as [s' ts] eqn:Hr. cbn [fst].
  destruct (exec_node_data _ _ _ _ _ _ Hr) as (sm & [R1 R2 R3 R4 R5] & [C1 C2 (acts & effs & C3 & C4 & C5 & C6 & C7)] & Hav).
  rewrite C3, R4, C4, R5, !drop_app_length. split_and!; [congruence | done | done | done | rewrite C2; exact R3 | exact C5 |].
  intros Hne. exists n. split_and!; [done | | done]. apply Hav. rewrite C3. intros Heq. apply Hne. apply (f_equal length) in Heq.
  rewrite length_app in Heq. destruct acts; [done |]. cbn in Heq. lia.
Qed.

(** The result of a walk is put together from its runs. *)
Record walk_of (rule : Rule) (runs : list (string * ExecState)) (s s' : ExecState) : Prop := {
  wo_path : xs_path s' = xs_path s ++ runs.*1;
  wo_actions : xs_actions s' = xs_actions s ++ (runs ≫= run_actions rule);
  wo_effects : ev_trace (xs_env s') = ev_trace (xs_env s) ++ (runs ≫= run_effects rule);
  wo_honest : honest (runs ≫= run_actions rule) (runs ≫= run_effects rule);
  wo_finite : finite_points (xs_point_values s) -> finite_points (xs_point_values s');
  wo_data : Forall (acts_on_data rule) runs
}.

Lemma walk_of_cons rule id s runs s' :
  walk_of rule runs (node_end rule id (push_path s id)) s' -> walk_of rule ((id, push_path s id) :: runs) s s'.
Proof using All.
  intros [H1 H2 H3 H4 H5 H6]. destruct (node_end_data rule id (push_path s id)) as (N1 & N2 & N3 & N4 & N5 & N6). split.
  - rewrite H1, N1. cbn. by rewrite <- app_assoc.
  - rewrite H2, N2. cbn [mbind list_bind]. by rewrite <- app_assoc.
  - rewrite H3, N3. cbn [mbind list_bind]. by rewrite <- app_assoc.
  - cbn [mbind list_bind]. by apply honest_app.
  - auto.
  - by constructor.
Qed.

Lemma exec_loop_runs rule fuel : forall s queue visited s',
  exec_loop fuel rule s queue visited = Some s' -> walk_of rule (loop_runs fuel rule s queue visited) s s'.
Proof using All.
  assert (Hnil : forall s s', xs_path s' = xs_path s -> xs_actions s' = xs_actions s -> xs_env s' = xs_env s -> xs_point_values s' = xs_point_values s -> walk_of rule [] s s').
  { intros s s' Hp Ha He Hv. split; cbn; rewrite ?app_nil_r, ?He, ?Hv; [done | done | done | apply honest_nil | done | constructor]. }
  induction fuel as [|fuel IH]; intros s [|id queue] visited s' Hr; cbn [exec_loop loop_runs] in *; try (injection Hr as <-; by apply Hnil); [done |].
  case_decide; [by apply IH |]. case_match; [injection Hr as <-; by apply Hnil |]. apply walk_of_cons. apply IH. unfold node_end.
  destruct (rf_nodes (ru_flow rule) !! id) as [n|]; [| by rewrite app_nil_r].
  by destruct (exec_node (ru_id rule) (push_path s id) id n) as [s1 targets].
Qed.



(** A switch follows its first branch whose conditions hold, as the reported condition
    results show. *)
Lemma switch_first_match rules wires values :
  let '(targets, port, _) := evaluate_rule_switch_with_details rules wires values in
  port = cr_port <$> find cr_result (evaluate_all_conditions rules values) /\
  targets = default [] (port ≫= fun p => wires !! p).
Proof.
  induction rules as [|r rules IH]; cbn; [done |]. destruct (evaluate_flow_conditions (sb_rule r) values); [done | exact IH].
Qed.
End Executor.

(** * The in-memory RTDB and a simulated site *)

(** Every operation of a site succeeds; [site_outcome] is what dispatching gives. *)
Record Site := mkSite {
  site_db : MemoryRtdb;
  site_slots : gmap (Z * Z * Z) (Z * Z);
  site_outcome : option DispatchOutcome;
  site_state : gmap string (list Z);
  site_clock : Z
}.
#[export] Instance site_rule_world : RuleWorld Site := {
  rw_get_channel w ch pt p := (w, site_slots w !! (ch, pt, p));
  rw_hash_mget w key fields := (w, Some (MemoryRtdb_hash_mget (site_db w) key fields));
  rw_hash_set w key field v :=
    (mkSite (MemoryRtdb_hash_set (site_db w) key field v) (site_slots w) (site_outcome w) (site_state w) (site_clock w), true);
  rw_pipeline_hash_mset w ops :=
    (mkSite (MemoryRtdb_pipeline_hash_mset (site_db w) ops) (site_slots w) (site_outcome w) (site_state w) (site_clock w), true);
  rw_dispatch w _ _ := (fun o => (w, o)) <$> site_outcome w;
  rw_now_millis w := (w, site_clock w);
}.
#[export] Instance site_calc_world : CalcWorld Site := {
  cw_get w key := (w, Some (site_state w !! key));
  cw_set w key v := (mkSite (site_db w) (site_slots w) (site_outcome w) (<[key := v]> (site_state w)) (site_clock w), true);
  cw_now w := (w, site_clock w / 1000);
}.
#[export] Instance integrate_json : Serde IntegrateState := {
  to_vec s := [in_last_ts s; in_accumulated s];
  from_slice bs := match bs with [t; a] => Some (mkIntegrate t a) | _ => None end;
}.
#[export] Instance rate_json : Serde RateOfChangeState := {
  to_vec s := [ra_last_ts s; ra_last_value s];
  from_slice bs := match bs with [t; a] => Some (mkRate t a) | _ => None end;
}.

(** Texts of integral values, no formulas. *)
Definition int_parse (s : string) : option Z := f64_of_Z <$> parse_u32 s.
Definition int_print (v : Z) : string := print_i64 (f64_to_i64 v).
Definition site_execute (rc : RoutingCache) : Env (W:=Site) -> Rule -> option (Env * RuleExecutionResult) :=
  RuleExecutor_execute (CAL:=utc) rc int_parse int_print int_print (fun _ => "") (fun _ _ => None) (fun _ _ => []) (fun _ _ _ => None)
    (fun v _ => v) (fun l => l).

(** Telemetry 1 of channel 1001 feeds measurement 4 of instance 23; action 4 of the
    instance commands adjustment 1 of channel 2. *)
Definition site_routes : RoutingCache :=
  mkRoutingCache {[ (1001, Telemetry, 1) := mkC2MTarget 23 4 ]} ∅ {[ (23, Adjustment, 4) := mkM2CTarget 2 Adjustment 1 ]}
    {[ (23, 4) := (1001, Telemetry, 1) ]}.
Definition site_with (o : option DispatchOutcome) (reading : Z) : Env :=
  mkEnv (mkSite MemoryRtdb_new {[ (1001, 0, 1) := (reading, 7) ]} o ∅ 1700000000000) [].

Definition var_soc : RuleVariable := mkRuleVariable "X1" (Some 23) (Some "measurement") (Some 4) [].
Definition var_cmd : RuleVariable := mkRuleVariable "Y1" (Some 23) (Some "action") (Some 4) [].
(** If X1 > 50 then Y1 := 1. *)
Definition limit_rule : Rule :=
  mkRule 1 "limit" true 5000
    (mkRuleFlow "start" {[
      "start" := NodeStart ["switch"];
      "switch" := NodeSwitch [var_soc] [mkSwitchBranch "out1" "default" [mkFlowCondition "variable" (Some "X1") (Some ">") (Some (JInt 50))]]
                    {[ "out1" := ["change"; "end"] ]};
      "change" := NodeChangeValue [var_cmd] [mkAssignment "Y1" (JInt 1)] ["end"];
      "end" := NodeEnd ]}).

Definition run_summary (o : option (Env (W:=Site) * RuleExecutionResult)) : option (list string * bool * list bool * list Effect) :=
  (fun '(e, r) => (re_execution_path r, re_success r, map ar_success (re_actions_executed r), ev_trace e)) <$> o.

Example limit_fires :
  run_summary (site_execute site_routes (site_with (Some Delivered) (f64_of_Z 80)) limit_rule) =
  Some (["start"; "switch"; "change"; "end"], true, [true],
    [EfDispatch (mkRouteContext 2 Adjustment 1 1700000000000) (f64_of_Z 1);
     EfWrite "inst:23:A" "4" (f64_of_Z 1); EfStamp "inst:23:A:ts" "4" 1700000000000;
     EfWrite "comsrv:2:A" "1" (f64_of_Z 1); EfStamp "comsrv:2:A:ts" "1" 1700000000000; EfWrite "comsrv:2:A:raw" "1" (f64_of_Z 1)]).
Proof. vm_compute. reflexivity. Qed.
(** An unwritten slot reads as NaN: the branch is skipped. *)
Example limit_skips_missing :
  run_summary (site_execute site_routes (site_with (Some Delivered) f64_nan) limit_rule) = Some (["start"; "switch"], false, [], []).
Proof. vm_compute. reflexivity. Qed.

Definition run_of (o : option (Env (W:=Site) * RuleExecutionResult)) : Env * RuleExecutionResult :=
  default (site_with None 0, mkRuleResult 0 false [] None [] (mkExecutionGraph [] []) None ∅ ∅ ∅) o.
Definition fired : Env * RuleExecutionResult := run_of (site_execute site_routes (site_with (Some Delivered) (f64_of_Z 80)) limit_rule).

Lemma fired_run : site_execute site_routes (site_with (Some Delivered) (f64_of_Z 80)) limit_rule = Some (fired.1, fired.2).
Proof. vm_compute. reflexivity. Qed.

(** The same limit, with a change node that reads the measurement itself: Y1 := X1. *)
Definition copy_node : RuleNode := NodeChangeValue [var_soc; var_cmd] [mkAssignment "Y1" (JStr "X1")] ["end"].
Definition copy_rule : Rule :=
  mkRule 2 "copy" true 5000 (mkRuleFlow "start" (<["change" := copy_node]> (rf_nodes (ru_flow limit_rule)))).
Definition copy_env : Env := site_with (Some Delivered) (f64_of_Z 80).
Definition copied : Env * RuleExecutionResult := run_of (site_execute site_routes copy_env copy_rule).
Lemma copied_run : site_execute site_routes copy_env copy_rule = Some (copied.1, copied.2).
Proof. vm_compute. reflexivity. Qed.


