(* ===== verification/RuleSched.v ===== *)
(** Rule scheduler and PointWatch dispatcher: [libs/voltage-rules/src/scheduler.rs]
    and [point_watch_dispatcher.rs].

    Rules run on a 100 ms tick (fixed intervals, or a change of a subscribed point
    beyond a deadband) and, for changes, also directly on a PointWatch event.
    Instants are nanoseconds.  Due rules execute concurrently without the lock: the
    results, one per due rule in order of completion, are inputs of the update
    phase, and so is the later instant at which the history age is taken.  Loading
    rules, writing results to Redis and the history database are not modelled; the
    records to write are outputs. *)
From stdpp Require Import base numbers list gmap strings sorting.
From Stdlib Require Import ZArith Lia Ascii.
From S2P Require Import Prelude Ieee PointTypes Wire SlotIndex PointWatch Routing Validation Reconnect Calc RuleExec.
Local Open Scope Z_scope.
Set Warnings "-clear-no-such-hyp".

(** * Triggers *)

Inductive PointKind := Measurement | Action.
Record PointRef := mkPointRef { pr_instance : Z; pr_point_type : PointKind; pr_point : Z }.
Definition PointRef_cache_key (p : PointRef) : string :=
  cache_key (match pr_point_type p with Measurement => false | Action => true end) (pr_instance p) (pr_point p).

Inductive ValueDeadband := Absolute (threshold : Z) | Percent (threshold : Z).
Definition f64_hundred : Z := f64_of_Z 100.
Definition ValueDeadband_exceeds (d : ValueDeadband) (last new : Z) : bool :=
  let delta := f64_abs (f64_sub new last) in
  match d with
  | Absolute threshold => f64_ltb threshold delta
  | Percent threshold =>
      let basis := f64_abs last in
      if f64_eqb basis f64_zero then negb (f64_eqb new f64_zero)
      else f64_ltb threshold (f64_mul (f64_div delta basis) f64_hundred)
  end.

Inductive TriggerConfig :=
| TriggerInterval (interval_ms : Z)
| TriggerOnChange (point_refs : list PointRef) (time_deadband_ms : option Z) (value_deadband : option ValueDeadband).
Definition TriggerConfig_default : TriggerConfig := TriggerInterval 1000.

Record OnChangeState := mkOnChangeState { oc_last_value : gmap string Z; oc_last_trigger : option Z }.
Definition OnChangeState_default : OnChangeState := mkOnChangeState ∅ None.

(** [now.duration_since(t).as_millis() as u64] *)
Definition elapsed_ms (now t : Z) : Z := wrap 64 (elapsed now t / 1000000).

(** Whether a point's value changed beyond the deadband since the last trigger. *)
Definition point_changed (state : OnChangeState) (value_deadband : option ValueDeadband) (snapshot : gmap string (option Z))
    (pref : PointRef) : bool :=
  let key := PointRef_cache_key pref in
  match snapshot !! key with
  | Some (Some v) =>
      if f64_is_finite v then
        match oc_last_value state !! key with
        | None => true
        | Some last =>
            match value_deadband with
            | Some vd => ValueDeadband_exceeds vd last v
            | None => negb (last =? v)
            end
        end
      else false
  | _ => false
  end.

Definition should_trigger_onchange (state : OnChangeState) (point_refs : list PointRef) (time_deadband_ms : option Z)
    (value_deadband : option ValueDeadband) (snapshot : gmap string (option Z)) (now : Z) : bool :=
  let early :=
    match time_deadband_ms, oc_last_trigger state with
    | Some td, Some last => elapsed_ms now last <? td
    | _, _ => false
    end in
  if early then false else existsb (point_changed state value_deadband snapshot) point_refs.

(** * Scheduled rules *)

#[export] Instance CalcError_eq_dec : EqDecision CalcError.
Proof. solve_decision. Defined.
#[export] Instance BranchError_eq_dec : EqDecision BranchError.
Proof. solve_decision. Defined.

(** Success, errors and the sorted, joined action texts. *)
Definition Fingerprint : Type := bool * list BranchError * string.

Record ScheduledRule := mkScheduled {
  sr_rule : Rule;
  sr_trigger : TriggerConfig;
  sr_last_execution : option Z;
  sr_last_cooldown_start : option Z;
  sr_onchange : OnChangeState;
  sr_last_history_fingerprint : option Fingerprint;
  sr_last_history_written : option Z
}.

(** [load_rules]: without a parsable trigger the cooldown is the interval. *)
Definition schedule_rule (rule : Rule) (trigger_config : option TriggerConfig) : ScheduledRule :=
  let trigger := default (TriggerInterval (if 0 <? ru_cooldown_ms rule then ru_cooldown_ms rule else 1000)) trigger_config in
  mkScheduled rule trigger None None OnChangeState_default None None.

Definition HISTORY_REPEAT_INTERVAL : Z := 3600 * 1000000000.

Definition bool_text (b : bool) : string := if b then "true" else "false".
Definition action_text (a : ActionResult) : string :=
  (print_u32 (ar_target_id a) +:+ "-" +:+ print_u32 (ar_point_id a) +:+ "-" +:+ bool_text (ar_success a))%string.
Definition string_le (a b : string) : Prop := String.leb a b = true.
#[export] Instance string_le_dec : RelDecision string_le.
Proof. intros a b. unfold string_le. apply _. Defined.
Definition execution_fingerprint (r : RuleExecutionResult) : Fingerprint :=
  (re_success r, default [] (re_error r), String.concat "," (merge_sort string_le (map action_text (re_actions_executed r)))).

Definition should_persist_history (r : RuleExecutionResult) : bool :=
  negb (bool_decide (re_actions_executed r = [])) || bool_decide (is_Some (re_error r)).

(** * The tick *)

Definition is_onchange (s : ScheduledRule) : bool := match sr_trigger s with TriggerOnChange _ _ _ => true | _ => false end.

(** Phase 0: the subscribed points of enabled rules, and their values: a point that
    is missing or not finite is [None]. *)
Definition tick_subscriptions (rules : list ScheduledRule) : list PointRef :=
  concat (map (fun s => match sr_trigger s with TriggerOnChange refs _ _ => refs | _ => [] end)
    (filter (fun s => ru_enabled (sr_rule s) = true) rules)).
Definition fetch_point_snapshot (read : PointRef -> option Z) (prefs : list PointRef) : gmap string (option Z) :=
  foldl (fun m p => <[PointRef_cache_key p := (read p ≫= fun v => if f64_is_finite v then Some v else None)]> m) ∅ prefs.

(** Phase 1: is a rule due now? *)
Definition should_execute (s : ScheduledRule) (snapshot : gmap string (option Z)) (now : Z) : bool :=
  match sr_trigger s with
  | TriggerInterval interval_ms =>
      match sr_last_execution s with None => true | Some last => interval_ms <=? elapsed_ms now last end
  | TriggerOnChange refs td vd => should_trigger_onchange (sr_onchange s) refs td vd snapshot now
  end.
Definition cooldown_ok (s : ScheduledRule) (now : Z) : bool :=
  if 0 <? ru_cooldown_ms (sr_rule s) then
    match sr_last_cooldown_start s with None => true | Some start => ru_cooldown_ms (sr_rule s) <=? elapsed_ms now start end
  else true.
Definition rule_due (snapshot : gmap string (option Z)) (now : Z) (s : ScheduledRule) : bool :=
  ru_enabled (sr_rule s) && should_execute s snapshot now && cooldown_ok s now.

Record TimestampUpdate := mkTimestampUpdate {
  tu_idx : nat;
  tu_rule_id : Z;
  tu_start_cooldown : bool;
  tu_is_onchange : bool;
  tu_point_values : gmap string Z;
  tu_result : option RuleExecutionResult
}.

(** The update of an execution; [None] is an error of the executor. *)
Definition update_of (idx : nat) (s : ScheduledRule) (result : option RuleExecutionResult) : TimestampUpdate :=
  match result with
  | Some r => mkTimestampUpdate idx (ru_id (sr_rule s)) (re_success r && negb (bool_decide (re_actions_executed r = [])))
                (is_onchange s) (re_point_values r) (Some r)
  | None => mkTimestampUpdate idx (ru_id (sr_rule s)) false (is_onchange s) ∅ None
  end.

(** Advance the last values of the subscribed points. *)
Definition advance_values (value : string -> option Z) (refs : list PointRef) (m : gmap string Z) : gmap string Z :=
  foldl (fun m p =>
    match value (PointRef_cache_key p) with
    | Some v => if f64_is_finite v then <[PointRef_cache_key p := v]> m else m
    | None => m
    end) m refs.

(** History: a new record when the outcome changed or the last one is old. *)
Definition history_step (s : ScheduledRule) (now later : Z) (r : RuleExecutionResult) : ScheduledRule * list (Z * RuleExecutionResult) :=
  if should_persist_history r then
    let fp := execution_fingerprint r in
    let old := match sr_last_history_written s with Some t => HISTORY_REPEAT_INTERVAL <=? elapsed later t | None => true end in
    if negb (bool_decide (sr_last_history_fingerprint s = Some fp)) || old
    then (mkScheduled (sr_rule s) (sr_trigger s) (sr_last_execution s) (sr_last_cooldown_start s) (sr_onchange s) (Some fp) (Some now),
          [(ru_id (sr_rule s), r)])
    else (s, [])
  else (s, []).

(** Phase 3 for one update whose rule is still in place. *)
Definition apply_update (snapshot : gmap string (option Z)) (now later : Z) (s : ScheduledRule) (u : TimestampUpdate)
    : ScheduledRule * list (Z * RuleExecutionResult) :=
  let cooldown := if tu_start_cooldown u then Some now else sr_last_cooldown_start s in
  let onchange :=
    match sr_trigger s with
    | TriggerOnChange refs _ _ =>
        if tu_is_onchange u then
          mkOnChangeState
            (advance_values (fun k => match tu_point_values u !! k with Some v => Some v | None => snapshot !! k ≫= id end)
               refs (oc_last_value (sr_onchange s)))
            (Some now)
        else sr_onchange s
    | _ => sr_onchange s
    end in
  let s := mkScheduled (sr_rule s) (sr_trigger s) (Some now) cooldown onchange (sr_last_history_fingerprint s) (sr_last_history_written s) in
  match tu_result u with Some r => history_step s now later r | None => (s, []) end.

Fixpoint apply_updates (snapshot : gmap string (option Z)) (now later : Z) (rules : list ScheduledRule) (us : list TimestampUpdate)
    : list ScheduledRule * list (Z * RuleExecutionResult) :=
  match us with
  | [] => (rules, [])
  | u :: us =>
      match rules !! tu_idx u with
      | Some s =>
          if ru_id (sr_rule s) =? tu_rule_id u then
            let '(s, hist) := apply_update snapshot now later s u in
            let '(rules, hist') := apply_updates snapshot now later (<[tu_idx u := s]> rules) us in
            (rules, hist ++ hist')
          else apply_updates snapshot now later rules us
      | None => apply_updates snapshot now later rules us
      end
  end.

(** The rules due, with their indices. *)
Definition due_rules (snapshot : gmap string (option Z)) (now : Z) (rules : list ScheduledRule) : list (nat * ScheduledRule) :=
  filter (fun x => rule_due snapshot now x.2 = true) (imap pair rules).

(** A tick: [read] is what the points read as, [run] the result each due rule's
    execution gives, [completed] the order in which executions complete. *)
Record TickIn := mkTickIn {
  tk_now : Z;
  tk_later : Z;
  tk_read : PointRef -> option Z;
  tk_run : nat -> option RuleExecutionResult;
  tk_completed : list (nat * ScheduledRule) -> list (nat * ScheduledRule)
}.
Definition tick_snapshot (rules : list ScheduledRule) (t : TickIn) : gmap string (option Z) :=
  fetch_point_snapshot (tk_read t) (tick_subscriptions rules).
Definition RuleScheduler_tick (rules : list ScheduledRule) (t : TickIn) : list ScheduledRule * list (Z * RuleExecutionResult) :=
  let snapshot := tick_snapshot rules t in
  apply_updates snapshot (tk_now t) (tk_later t) rules
    (map (fun '(idx, s) => update_of idx s (tk_run t idx)) (tk_completed t (due_rules snapshot (tk_now t) rules))).

(** * The PointWatch fast path *)

Record WatchEvent := mkWatchEvent {
  we_rule_ids : list Z;
  we_channel_id : Z;
  we_point_id : Z;
  we_value : Z;
  we_raw : Z;
  we_timestamp_ms : Z
}.

(** The snapshot gives the event's value to every subscribed point. *)
Definition watch_snapshot (value : Z) (refs : list PointRef) : gmap string (option Z) :=
  foldl (fun m p => <[PointRef_cache_key p := Some value]> m) ∅ refs.

Definition watch_due (ev : WatchEvent) (now : Z) (s : ScheduledRule) : bool :=
  existsb (Z.eqb (ru_id (sr_rule s))) (we_rule_ids ev) && ru_enabled (sr_rule s) &&
  match sr_trigger s with
  | TriggerOnChange refs td vd => should_trigger_onchange (sr_onchange s) refs td vd (watch_snapshot (we_value ev) refs) now
  | _ => false
  end.

Definition watch_update (ev : WatchEvent) (now later : Z) (s : ScheduledRule) (result : option RuleExecutionResult)
    : ScheduledRule * list (Z * RuleExecutionResult) :=
  let onchange :=
    match result, sr_trigger s with
    | Some _, TriggerOnChange refs _ _ =>
        mkOnChangeState (advance_values (fun _ => Some (we_value ev)) refs (oc_last_value (sr_onchange s))) (Some now)
    | _, _ => sr_onchange s
    end in
  let s := mkScheduled (sr_rule s) (sr_trigger s) (Some now) (sr_last_cooldown_start s) onchange
             (sr_last_history_fingerprint s) (sr_last_history_written s) in
  match result with Some r => history_step s now later r | None => (s, []) end.

Fixpoint watch_updates (ev : WatchEvent) (now later : Z) (rules : list ScheduledRule) (rs : list (nat * Z * option RuleExecutionResult))
    : list ScheduledRule * list (Z * RuleExecutionResult) :=
  match rs with
  | [] => (rules, [])
  | (idx, rule_id, r) :: rs =>
      match rules !! idx with
      | Some s =>
          if ru_id (sr_rule s) =? rule_id then
            let '(s, hist) := watch_update ev now later s r in
            let '(rules, hist') := watch_updates ev now later (<[idx := s]> rules) rs in
            (rules, hist ++ hist')
          else watch_updates ev now later rules rs
      | None => watch_updates ev now later rules rs
      end
  end.

Definition watch_rules (ev : WatchEvent) (now : Z) (rules : list ScheduledRule) : list (nat * ScheduledRule) :=
  filter (fun x => watch_due ev now x.2 = true) (imap pair rules).
Definition RuleScheduler_execute_watch_triggered (rules : list ScheduledRule) (ev : WatchEvent) (now later : Z)
    (run : nat -> option RuleExecutionResult) (completed : list (nat * ScheduledRule) -> list (nat * ScheduledRule))
    : list ScheduledRule * list (Z * RuleExecutionResult) :=
  watch_updates ev now later rules (map (fun '(idx, s) => (idx, ru_id (sr_rule s), run idx)) (completed (watch_rules ev now rules))).

(** * The dispatcher *)

Record PointWatchDispatcher (C : Type) := mkDispatcher {
  pwd_sub_index : gmap (Z * Z) (list Z);
  pwd_event_tx : C;
  pwd_dropped_count : Z
}.
Arguments mkDispatcher {C}.
Arguments pwd_sub_index {C}.
Arguments pwd_event_tx {C}.
Arguments pwd_dropped_count {C}.

(** The channel points that feed an instance point, in the order of the routes. *)
Definition instance_channels (routes : list (route_key * C2MTarget)) (instance point : Z) : list (Z * PointType * Z) :=
  map fst (filter (fun r => c2m_instance_id r.2 = instance /\ c2m_point_id r.2 = point) routes).

Definition subscribe_entry (csi : ChannelToSlotIndex) (rule_id : Z) (acc : gmap (Z * Z) (list Z) * outcome SubscriptionBitmap)
    (k : Z * PointType * Z) : gmap (Z * Z) (list Z) * outcome SubscriptionBitmap :=
  let '(ch, pt, p) := k in
  if PointType_is_measurement pt then
    (<[(ch, p) := default [] (acc.1 !! (ch, p)) ++ [rule_id]]> acc.1,
     match ChannelToSlotIndex_lookup csi ch pt p with
     | Some slot => let! b := acc.2 in SubscriptionBitmap_set_watched b slot
     | None => acc.2
     end)
  else acc.

Definition rule_entries (routes : list (route_key * C2MTarget)) (s : ScheduledRule) : list (Z * PointType * Z) :=
  if ru_enabled (sr_rule s) then
    match sr_trigger s with
    | TriggerOnChange refs _ _ => concat (map (fun p => instance_channels routes (pr_instance p) (pr_point p)) refs)
    | _ => []
    end
  else [].

(** [routes] are the pairs of [c2m_iter()], in whatever order it yields them. *)
Definition PointWatchDispatcher_rebuild_from_rules {C} (d : PointWatchDispatcher C) (rules : list ScheduledRule)
    (routes : list (route_key * C2MTarget)) (csi : ChannelToSlotIndex) (bitmap : SubscriptionBitmap)
    : PointWatchDispatcher C * outcome SubscriptionBitmap :=
  let '(index, b) :=
    foldl (fun acc s => foldl (subscribe_entry csi (ru_id (sr_rule s))) acc (rule_entries routes s))
      (∅, Ret (SubscriptionBitmap_clear_all bitmap)) rules in
  (mkDispatcher index (pwd_event_tx d) (pwd_dropped_count d), b).

Section Dispatch.
Context {C : Type} `{MS : !MpscSender C WatchEvent}.
Definition PointWatchDispatcher_dispatch (d : PointWatchDispatcher C) (ev : PointWatchEvent) : PointWatchDispatcher C :=
  match pwd_sub_index d !! (pw_channel_id ev, pw_point_id ev) with
  | None => d
  | Some rule_ids =>
      let we := mkWatchEvent rule_ids (pw_channel_id ev) (pw_point_id ev) (pw_value_bits ev) (pw_raw_bits ev) (pw_timestamp_ms ev) in
      match try_send (pwd_event_tx d) we with
      | Some tx => mkDispatcher (pwd_sub_index d) tx (pwd_dropped_count d)
      | None => mkDispatcher (pwd_sub_index d) (pwd_event_tx d) (wrapping_add 64 (pwd_dropped_count d) 1)
      end
  end.
End Dispatch.

(** * Ticks by rule *)

Section TickLemmas.
Variable snapshot : gmap string (option Z).
Variable now later : Z.

Lemma history_step_frame s r :
  let s' := (history_step s now later r).1 in
  sr_rule s' = sr_rule s /\ sr_trigger s' = sr_trigger s /\ sr_last_execution s' = sr_last_execution s /\
  sr_last_cooldown_start s' = sr_last_cooldown_start s /\ sr_onchange s' = sr_onchange s.
Proof. unfold history_step. repeat case_match; done. Qed.

(** Each update reaches its own rule only. *)
Lemma apply_updates_lookup us : forall rules idx,
  NoDup (map tu_idx us) ->
  (apply_updates snapshot now later rules us).1 !! idx =
  (fun s => match find (fun u => (tu_idx u =? idx)%nat) us with
            | Some u => if ru_id (sr_rule s) =? tu_rule_id u then (apply_update snapshot now later s u).1 else s
            | None => s
            end) <$> rules !! idx.
Proof.
  induction us as [|u us IH]; intros rules idx Hnd; cbn [apply_updates find fst];
    [by destruct (rules !! idx) |].
  apply NoDup_cons in Hnd as [Hnin Hnd].
  assert (Hnone : find (fun u' => (tu_idx u' =? tu_idx u)%nat) us = None).
  { destruct (find _ us) as [x|] eqn:Ef; [| done]. apply find_some in Ef as [Hx Heq%Nat.eqb_eq]. exfalso. apply Hnin.
    rewrite <- Heq. apply list_elem_of_fmap. exists x. split; [done | by apply list_elem_of_In]. }
  destruct (Nat.eqb_spec (tu_idx u) idx) as [<- | Hne].
  - destruct (rules !! tu_idx u) as [s|] eqn:Es; cbn [fmap option_fmap option_map].
    + destruct (ru_id (sr_rule s) =? tu_rule_id u).
      * destruct (apply_update snapshot now later s u) as [s1 h1]. specialize (IH (<[tu_idx u := s1]> rules) (tu_idx u) Hnd).
        destruct (apply_updates snapshot now later _ us) as [rules2 h2]. cbn [fst] in *. rewrite IH, Hnone.
        by rewrite list_lookup_insert_eq by (by eapply lookup_lt_Some).
      * rewrite IH, Es, Hnone by done. done.
    + rewrite IH, Es by done. done.
  - destruct (rules !! tu_idx u) as [s|] eqn:Es; [| by apply IH].
    destruct (ru_id (sr_rule s) =? tu_rule_id u); [| by apply IH].
    destruct (apply_update snapshot now later s u) as [s1 h1]. specialize (IH (<[tu_idx u := s1]> rules) idx Hnd).
    destruct (apply_updates snapshot now later _ us) as [rules2 h2]. cbn [fst] in *. by rewrite IH, list_lookup_insert_ne.
Qed.
End TickLemmas.

Definition tick_ok (t : TickIn) : Prop := forall l, tk_completed t l ≡ₚ l.

(** A tick updates exactly the rules that were due. *)
Lemma tick_lookup rules t idx :
  tick_ok t ->
  (RuleScheduler_tick rules t).1 !! idx =
  (fun s => if rule_due (tick_snapshot rules t) (tk_now t) s
            then (apply_update (tick_snapshot rules t) (tk_now t) (tk_later t) s (update_of idx s (tk_run t idx))).1
            else s) <$> rules !! idx.
Proof.
  intros Hok. unfold RuleScheduler_tick. set (snap := tick_snapshot rules t).
  set (due := tk_completed t (due_rules snap (tk_now t) rules)).
  assert (Hmem : forall i s, (i, s) ∈ due <-> rules !! i = Some s /\ rule_due snap (tk_now t) s = true).
  { intros i s. unfold due. rewrite (Hok _). unfold due_rules. rewrite list_elem_of_filter. cbn.
    rewrite elem_of_lookup_imap. split.
    - intros [Hd (j & x & Heq & Hl)]. by injection Heq as -> ->.
    - intros [Hl Hd]. split; [done |]. by exists i, s. }
  assert (Hnd : NoDup (map fst due)).
  { unfold due. rewrite (fmap_Permutation fst _ _ (Hok _)). unfold due_rules.
    assert (Hs : sublist (map fst (filter (fun x => rule_due snap (tk_now t) x.2 = true) (imap pair rules))) (seq 0 (length rules))).
    { replace (seq 0 (length rules)) with (map fst (imap pair rules)).
      - apply fmap_sublist, sublist_filter.
      - apply list_eq. intros j. rewrite list_lookup_fmap, list_lookup_imap. destruct (rules !! j) eqn:E; cbn.
        + symmetry. apply lookup_seq. apply lookup_lt_Some in E. lia.
        + symmetry. apply lookup_seq_ge. by apply lookup_ge_None in E. }
    eapply sublist_NoDup; [apply NoDup_seq | exact Hs]. }
  assert (Hidx : forall i s r, tu_idx (update_of i s r) = i) by (intros; unfold update_of; by case_match).
  rewrite apply_updates_lookup.
  - destruct (rules !! idx) as [s|] eqn:Es; cbn [fmap option_fmap option_map]; [| done]. f_equal.
    destruct (find _ _) as [u|] eqn:Ef.
    + apply find_some in Ef as [Hin Hu]. apply list_elem_of_In, list_elem_of_fmap in Hin as ([i s'] & -> & Hin).
      apply Nat.eqb_eq in Hu. rewrite Hidx in Hu. subst i. apply Hmem in Hin as [Hl Hd]. rewrite Es in Hl. injection Hl as <-.
      rewrite Hd. replace (tu_rule_id (update_of idx s (tk_run t idx))) with (ru_id (sr_rule s)) by (unfold update_of; by case_match).
      by rewrite Z.eqb_refl.
    + destruct (rule_due snap (tk_now t) s) eqn:Hd; [| done]. exfalso.
      assert (Hin : (idx, s) ∈ due) by by apply Hmem. eapply find_none in Ef.
      2: { apply list_elem_of_In, list_elem_of_fmap. by exists (idx, s). }
      cbn in Ef. by rewrite Hidx, Nat.eqb_refl in Ef.
  - rewrite map_map. erewrite map_ext; [exact Hnd |]. intros [i s]. apply Hidx.
Qed.

Lemma apply_update_frame snapshot now later s u :
  let s' := (apply_update snapshot now later s u).1 in
  sr_rule s' = sr_rule s /\ sr_trigger s' = sr_trigger s /\
  sr_last_cooldown_start s' = (if tu_start_cooldown u then Some now else sr_last_cooldown_start s).
Proof.
  unfold apply_update. destruct (tu_result u) as [r|]; [| done].
  match goal with |- context [history_step ?x now later r] => destruct (history_step_frame now later x r) as (-> & -> & _ & -> & _) end.
  done.
Qed.

Definition tick_run (rules : list ScheduledRule) (ts : list TickIn) : list ScheduledRule :=
  foldl (fun rules t => (RuleScheduler_tick rules t).1) rules ts.

(** The rule is cooling down since some instant at or after [t]. *)
Definition cooling (s0 : ScheduledRule) (t : Z) (rules : list ScheduledRule) (idx : nat) : Prop :=
  exists s c, rules !! idx = Some s /\ sr_rule s = sr_rule s0 /\ sr_last_cooldown_start s = Some c /\ t <= c.

Lemma cooling_tick s0 t rules idx tk :
  tick_ok tk -> t <= tk_now tk -> cooling s0 t rules idx -> cooling s0 t (RuleScheduler_tick rules tk).1 idx.
Proof.
  intros Hok Ht (s & c & Hs & Hr & Hc & Hle). unfold cooling. rewrite tick_lookup, Hs by done. cbn.
  destruct (rule_due _ _ s); [| by exists s, c].
  match goal with |- context [apply_update ?a ?b ?d s ?u] => destruct (apply_update_frame a b d s u) as (Hr' & _ & Hc'); set (s' := (apply_update a b d s u).1) in * end.
  destruct (tu_start_cooldown _).
  - exists s', (tk_now tk). by rewrite Hr'.
  - exists s', c. rewrite Hr', Hc'. done.
Qed.

(** C35: the cooldown separates the acting executions of a rule on the tick path: when
    an execution succeeded with actions, whatever ticks follow and whatever their
    executions return, the rule is not due again before its cooldown has passed. *)
Theorem cooldown_separates_executions rules idx s t1 r ts t2 s2 :
  rules !! idx = Some s -> rule_due (tick_snapshot rules t1) (tk_now t1) s = true ->
  tk_run t1 idx = Some r -> re_success r = true -> re_actions_executed r <> [] ->
  Forall tick_ok (t1 :: ts) -> Forall (fun t => tk_now t1 <= tk_now t) (ts ++ [t2]) -> tk_now t2 - tk_now t1 < 2 ^ 64 ->
  tick_run rules (t1 :: ts) !! idx = Some s2 -> rule_due (tick_snapshot (tick_run rules (t1 :: ts)) t2) (tk_now t2) s2 = true ->
  ru_cooldown_ms (sr_rule s) <= (tk_now t2 - tk_now t1) / 1000000.
Proof.
  intros Hs Hdue Hrun Hsucc Hacts Hok Htimes Hspan Hs2 Hdue2.
  apply Forall_cons in Hok as [Hok1 Hok]. apply Forall_app in Htimes as [Htimes [Ht2 _]%Forall_cons].
  assert (Hcool : cooling s (tk_now t1) (tick_run rules (t1 :: ts)) idx).
  { cbn [tick_run foldl]. assert (H1 : cooling s (tk_now t1) (RuleScheduler_tick rules t1).1 idx).
    { unfold cooling. rewrite tick_lookup, Hs by done. cbn. rewrite Hdue, Hrun.
      match goal with |- context [apply_update ?a ?b ?d s ?u] => destruct (apply_update_frame a b d s u) as (Hr' & _ & Hc') end.
      eexists _, (tk_now t1). split; [done |]. split; [exact Hr' |]. split; [| done]. rewrite Hc'. cbn.
      rewrite Hsucc, bool_decide_eq_false_2 by done. done. }
    revert H1. generalize (RuleScheduler_tick rules t1).1. clear -Hok Htimes.
    induction ts as [|t ts IH]; intros rules Hc; [done |]. apply Forall_cons in Hok as [? ?], Htimes as [? ?].
    cbn [foldl]. apply IH; [done | done |]. by apply cooling_tick. }
  destruct Hcool as (s' & c & Hs' & Hr & Hc & Hle). rewrite Hs2 in Hs'. injection Hs' as <-.
  unfold rule_due in Hdue2. apply andb_prop in Hdue2 as [_ Hcd]. unfold cooldown_ok in Hcd. rewrite Hr, Hc in Hcd.
  assert (H0 : 0 <= (tk_now t2 - tk_now t1) / 1000000) by (apply Z.div_pos; lia).
  destruct (Z.ltb_spec 0 (ru_cooldown_ms (sr_rule s))); [| lia]. apply Z.leb_le in Hcd.
  etransitivity; [exact Hcd |]. unfold elapsed_ms, elapsed, saturating_sub.
  destruct (Z.le_gt_cases c (tk_now t2)).
  - rewrite Z.max_r by lia. rewrite wrap_small; [apply Z.div_le_mono; lia |]. split; [apply Z.div_pos; lia |].
    apply Z.div_lt_upper_bound; lia.
  - rewrite Z.max_l by lia. done.
Qed.

(** A scheduler holding the limit rule, subscribed to the measurement it reads and
    to a second one. *)
Definition ref_soc : PointRef := mkPointRef 23 Measurement 4.
Definition ref_temp : PointRef := mkPointRef 23 Measurement 5.
Definition limit_scheduled : ScheduledRule := schedule_rule limit_rule (Some (TriggerOnChange [ref_soc; ref_temp] None None)).
Definition reading (soc temp : Z) (p : PointRef) : option Z := Some (f64_of_Z (if pr_point p =? 4 then soc else temp)).
Definition tick_at (now soc temp : Z) (result : option RuleExecutionResult) : TickIn :=
  mkTickIn now now (reading soc temp) (fun _ => result) (fun l => l).
Definition second : Z := 1000000000.

Lemma tick_at_ok now soc temp r : tick_ok (tick_at now soc temp r).
Proof. intros l. done. Qed.
Definition acting_tick : TickIn := tick_at 0 80 10 (Some fired.2).
Definition after_acting : list ScheduledRule := tick_run [limit_scheduled] [acting_tick; tick_at second 70 10 None].
Lemma cooldown_separates_executions_witness :
  rule_due (tick_snapshot [limit_scheduled] acting_tick) 0 limit_scheduled = true /\
  ru_cooldown_ms (sr_rule limit_scheduled) <= (tk_now (tick_at (6 * second) 90 10 None) - tk_now acting_tick) / 1000000.
Proof.
  split; [vm_compute; reflexivity |].
  refine (cooldown_separates_executions [limit_scheduled] 0%nat limit_scheduled acting_tick fired.2
    [tick_at second 70 10 None] (tick_at (6 * second) 90 10 None) (default limit_scheduled (after_acting !! 0%nat))
    _ _ _ _ _ _ _ _ _ _).
  - reflexivity.
  - vm_compute. reflexivity.
  - reflexivity.
  - vm_compute. reflexivity.
  - vm_compute. discriminate.
  - repeat (apply Forall_cons_2; [apply tick_at_ok |]). constructor.
  - repeat (apply Forall_cons_2; [vm_compute; discriminate |]). constructor.
  - vm_compute. reflexivity.
  - vm_compute. reflexivity.
  - vm_compute. reflexivity.
Defined.

(** * Change triggers *)

Definition ref_ok (p : PointRef) : Prop := is_uint 32 (pr_instance p) /\ is_uint 32 (pr_point p).

Lemma PointRef_cache_key_split p : ref_ok p ->
  split_on ":"%char (PointRef_cache_key p) =
  [match pr_point_type p with Measurement => "M" | Action => "A" end; print_u32 (pr_instance p); print_u32 (pr_point p)]%string.
Proof.
  intros [[Hi _] [Hp _]]. unfold PointRef_cache_key, cache_key.
  assert (Hsplit : forall x, free_of ":" x ->
    split_on ":" (x +:+ ":" +:+ print_u32 (pr_instance p) +:+ ":" +:+ print_u32 (pr_point p))%string =
    [x; print_u32 (pr_instance p); print_u32 (pr_point p)]).
  { intros x Hx. change (x +:+ ":" +:+ print_u32 (pr_instance p) +:+ ":" +:+ print_u32 (pr_point p))%string with
      (x +:+ String ":" (print_u32 (pr_instance p) +:+ String ":" (print_u32 (pr_point p))))%string.
    rewrite split_on_app by done. rewrite split_on_app by (by apply print_free). by rewrite split_on_free by (by apply print_free). }
  destruct (pr_point_type p); by apply Hsplit.
Qed.

Lemma PointRef_cache_key_inj p q : ref_ok p -> ref_ok q -> PointRef_cache_key p = PointRef_cache_key q -> p = q.
Proof.
  intros Hp Hq H. apply (f_equal (split_on ":"%char)) in H. rewrite !PointRef_cache_key_split in H by done.
  injection H as Hk Hi Hpt. destruct Hp, Hq. apply print_u32_inj in Hi; [| done..]. apply print_u32_inj in Hpt; [| done..].
  destruct p as [? [] ?], q as [? [] ?]; cbn in *; congruence.
Qed.

(** The value of a point in a snapshot. *)
Definition usable (o : option Z) : option Z := o ≫= fun v => if f64_is_finite v then Some v else None.

Lemma snapshot_lookup read prefs p : Forall ref_ok prefs -> p ∈ prefs ->
  fetch_point_snapshot read prefs !! PointRef_cache_key p = Some (usable (read p)).
Proof.
  intros Hok Hin. unfold fetch_point_snapshot. generalize (∅ : gmap string (option Z)).
  induction prefs as [|q prefs IH] using rev_ind; [by apply not_elem_of_nil in Hin |]. intros m.
  apply Forall_app in Hok as [Hok [Hq _]%Forall_cons]. rewrite foldl_app. cbn [foldl].
  destruct (decide (PointRef_cache_key q = PointRef_cache_key p)) as [He | Hne].
  - rewrite He, lookup_insert_eq. repeat f_equal. apply PointRef_cache_key_inj; [done | | done].
    apply elem_of_app in Hin as [Hin | Hin%list_elem_of_singleton]; [by eapply Forall_forall in Hok | by subst].
  - rewrite lookup_insert_ne by done. apply IH; [done |].
    apply elem_of_app in Hin as [Hin | Hin%list_elem_of_singleton]; [done | by subst].
Qed.

Lemma advance_values_lookup value refs p v : p ∈ refs -> value (PointRef_cache_key p) = Some v -> f64_is_finite v = true ->
  forall m, advance_values value refs m !! PointRef_cache_key p = Some v.
Proof.
  intros Hin Hv Hf. unfold advance_values. induction refs as [|q refs IH] using rev_ind; [by apply not_elem_of_nil in Hin |].
  intros m. rewrite foldl_app. cbn [foldl].
  destruct (decide (PointRef_cache_key q = PointRef_cache_key p)) as [He | Hne].
  - rewrite He, Hv, Hf. by rewrite lookup_insert_eq.
  - apply elem_of_app in Hin as [Hin | Hin%list_elem_of_singleton]; [| by subst].
    repeat case_match; rewrite ?lookup_insert_ne by done; by apply IH.
Qed.

Definition deadband_ok (d : option ValueDeadband) : Prop :=
  match d with Some (Absolute t) | Some (Percent t) => f64_ltb t f64_zero = false | None => True end.

Lemma zero_percent b : f64_is_finite b = true -> f64_eqb (f64_abs b) f64_zero = false ->
  f64_mul (f64_div f64_zero (f64_abs b)) f64_hundred = f64_zero.
Proof.
  intros Hf Hne. assert (Ha := sf_of_abs_bits b).
  destruct (f64_finite_sf b Hf) as [[s Hs] | (s & m & e & Hs)]; rewrite Hs in Ha.
  - unfold f64_eqb in Hne. rewrite Ha in Hne. vm_compute in Hne. discriminate.
  - unfold f64_div. rewrite Ha. vm_compute. reflexivity.
Qed.

(** A value never exceeds a deadband around itself. *)
Lemma deadband_self d v : deadband_ok (Some d) -> f64_is_finite v = true -> ValueDeadband_exceeds d v v = false.
Proof.
  intros Hd Hf. unfold ValueDeadband_exceeds. rewrite f64_sub_self by done. change (f64_abs f64_zero) with f64_zero.
  destruct d as [t | t]; [done |]. cbv zeta. destruct (f64_eqb (f64_abs v) f64_zero) eqn:E.
  - unfold f64_eqb in *. rewrite sf_of_abs_bits in E. destruct (f64_finite_sf v Hf) as [[s Hs] | (s & m & e & Hs)]; rewrite Hs in *.
    + by destruct s.
    + vm_compute in E. discriminate.
  - by rewrite zero_percent.
Qed.

Lemma apply_update_onchange snapshot now later s u refs td vd :
  sr_trigger s = TriggerOnChange refs td vd -> tu_is_onchange u = true ->
  sr_onchange (apply_update snapshot now later s u).1 =
  mkOnChangeState
    (advance_values (fun k => match tu_point_values u !! k with Some v => Some v | None => snapshot !! k ≫= id end)
       refs (oc_last_value (sr_onchange s))) (Some now).
Proof.
  intros Ht Hu. unfold apply_update. rewrite Ht, Hu. destruct (tu_result u) as [r|]; [| done].
  match goal with |- context [history_step ?x now later r] => destruct (history_step_frame now later x r) as (_ & _ & _ & _ & ->) end.
  done.
Qed.

(** A tick changes neither the rules nor their triggers, so it changes no subscription. *)
Lemma tick_subscriptions_stable rules t : tick_ok t ->
  tick_subscriptions (RuleScheduler_tick rules t).1 = tick_subscriptions rules.
Proof.
  intros Hok. set (rules' := (RuleScheduler_tick rules t).1).
  assert (Hf : Forall2 (fun s' s => sr_rule s' = sr_rule s /\ sr_trigger s' = sr_trigger s) rules' rules).
  { apply Forall2_same_length_lookup_2.
    - assert (Hl : forall i, is_Some (rules' !! i) <-> is_Some (rules !! i)).
      { intros i. unfold rules'. rewrite tick_lookup by done. apply fmap_is_Some. }
      setoid_rewrite lookup_lt_is_Some in Hl. pose proof (Hl (length rules)). pose proof (Hl (length rules')). lia.
    - intros i s' s Hs' Hs. unfold rules' in Hs'. rewrite tick_lookup, Hs in Hs' by done. injection Hs' as <-.
      case_match; [| done]. split; apply apply_update_frame. }
  unfold tick_subscriptions. induction Hf as [|s' s l' l [Hr Ht] _ IH]; [done |].
  rewrite !filter_cons, Hr. case_decide; [| exact IH]. cbn [map concat]. by rewrite Ht, IH.
Qed.

Lemma subscribed rules idx s refs td vd p : rules !! idx = Some s -> ru_enabled (sr_rule s) = true ->
  sr_trigger s = TriggerOnChange refs td vd -> p ∈ refs -> p ∈ tick_subscriptions rules.
Proof.
  intros Hs He Ht Hp. unfold tick_subscriptions. apply list_elem_of_In, in_concat. exists refs. split; [| by apply list_elem_of_In].
  apply in_map_iff. exists s. rewrite Ht. split; [done |]. apply list_elem_of_In, list_elem_of_filter.
  split; [done | by eapply list_elem_of_lookup_2].
Qed.

(** A change trigger does not chatter: after a tick that executed an OnChange rule,
    whether the execution succeeded or failed, a next tick at which the subscribed
    points read the same does not find the rule triggered, for any non-negative
    deadband and at any later instant. *)
Theorem onchange_no_chatter rules idx s s' refs td vd t1 t2 :
  Forall ref_ok (tick_subscriptions rules) -> tick_ok t1 ->
  rules !! idx = Some s -> sr_trigger s = TriggerOnChange refs td vd -> deadband_ok vd ->
  rule_due (tick_snapshot rules t1) (tk_now t1) s = true ->
  (forall r p v, tk_run t1 idx = Some r -> p ∈ refs -> re_point_values r !! PointRef_cache_key p = Some v -> tk_read t1 p = Some v) ->
  (RuleScheduler_tick rules t1).1 !! idx = Some s' ->
  (forall p, p ∈ refs -> tk_read t2 p = tk_read t1 p) ->
  should_execute s' (tick_snapshot (RuleScheduler_tick rules t1).1 t2) (tk_now t2) = false.
Proof.
  intros Hok Htk Hs Ht Hd Hdue Hrun Hs' Hread. rewrite tick_lookup, Hs in Hs' by done. cbn in Hs'. rewrite Hdue in Hs'.
  injection Hs' as <-. set (u := update_of idx s (tk_run t1 idx)). set (snap := tick_snapshot rules t1).
  assert (He : ru_enabled (sr_rule s) = true) by (unfold rule_due in Hdue; destruct (ru_enabled (sr_rule s)); done).
  assert (Hu : tu_is_onchange u = true) by (unfold u, update_of, is_onchange; rewrite Ht; by case_match).
  destruct (apply_update_frame snap (tk_now t1) (tk_later t1) s u) as (_ & Htr & _).
  unfold should_execute. rewrite Htr, Ht. unfold should_trigger_onchange. rewrite (apply_update_onchange _ _ _ _ _ _ _ _ Ht Hu).
  case_match; [done |]. apply not_true_is_false. intros Hex. apply existsb_exists in Hex as (p & Hp%list_elem_of_In & Hch).
  pose proof (subscribed _ _ _ _ _ _ _ Hs He Ht Hp) as Hsub. unfold point_changed in Hch. cbn [oc_last_value] in Hch.
  unfold tick_snapshot in Hch. rewrite tick_subscriptions_stable, snapshot_lookup, Hread in Hch by done.
  destruct (tk_read t1 p) as [v|] eqn:Ev; cbn in Hch; [| done].
  destruct (f64_is_finite v) eqn:Ef; cbn in Hch; [| done]. rewrite Ef in Hch.
  rewrite (advance_values_lookup _ _ p v Hp) in Hch; [| | done].
  - destruct vd as [d|]; [by rewrite deadband_self in Hch | by rewrite Z.eqb_refl in Hch].
  - unfold u, update_of. destruct (tk_run t1 idx) as [r|] eqn:Er; cbn [tu_point_values].
    + destruct (re_point_values r !! PointRef_cache_key p) as [v'|] eqn:Ev'; [by rewrite <- (Hrun r p v' eq_refl Hp Ev') |].
      unfold snap, tick_snapshot. rewrite snapshot_lookup, Ev by done. cbn. by rewrite Ef.
    + rewrite lookup_empty. unfold snap, tick_snapshot. rewrite snapshot_lookup, Ev by done. cbn. by rewrite Ef.
Qed.

Definition after_tick : list ScheduledRule := (RuleScheduler_tick [limit_scheduled] acting_tick).1.
Lemma onchange_no_chatter_witness :
  should_execute (default limit_scheduled (after_tick !! 0%nat)) (tick_snapshot after_tick (tick_at (9 * second) 80 10 None)) (9 * second) = false.
Proof.
  refine (onchange_no_chatter [limit_scheduled] 0%nat limit_scheduled _ [ref_soc; ref_temp] None None acting_tick
    (tick_at (9 * second) 80 10 None) _ (tick_at_ok _ _ _ _) eq_refl eq_refl I _ _ _ (fun p _ => eq_refl)).
  - repeat (apply Forall_cons_2; [by split; split; vm_compute |]). constructor.
  - vm_compute. reflexivity.
  - intros r p v Hr Hp Hv. change (Some fired.2 = Some r) in Hr. apply Some_inj in Hr. rewrite <- Hr in Hv.
    apply list_elem_of_In in Hp. destruct Hp as [<- | [<- | []]]; vm_compute in Hv; [by injection Hv as <- | discriminate].
  - vm_compute. reflexivity.
Defined.

(** * Subscriptions of the dispatcher *)

(** Channel point [k] feeds a point that the enabled change rule [s] subscribes to. *)
Definition feeds (routes : list (route_key * C2MTarget)) (s : ScheduledRule) (k : route_key) : Prop :=
  ru_enabled (sr_rule s) = true /\
  exists refs td vd p t, sr_trigger s = TriggerOnChange refs td vd /\ p ∈ refs /\ (k, t) ∈ routes /\
    c2m_instance_id t = pr_instance p /\ c2m_point_id t = pr_point p.

Lemma rule_entries_feeds routes s k : k ∈ rule_entries routes s <-> feeds routes s k.
Proof.
  unfold rule_entries, feeds. destruct (ru_enabled (sr_rule s)); [| rewrite elem_of_nil; naive_solver].
  destruct (sr_trigger s) as [|refs td vd]; [rewrite elem_of_nil; naive_solver |].
  rewrite list_elem_of_In, in_concat. setoid_rewrite in_map_iff. split.
  - intros (l & (p & <- & Hp%list_elem_of_In) & Hk%list_elem_of_In). unfold instance_channels in Hk.
    apply list_elem_of_fmap in Hk as ([k' t] & -> & [[Hi Hpt] Hin]%list_elem_of_filter). split; [done |].
    by exists refs, td, vd, p, t.
  - intros [_ (refs' & ? & ? & p & t & [= <- <- <-] & Hp & Hin & Hi & Hpt)].
    exists (instance_channels routes (pr_instance p) (pr_point p)). split; [exists p; split; [done | by apply list_elem_of_In] |].
    apply list_elem_of_In. unfold instance_channels. apply list_elem_of_fmap. exists (k, t). split; [done |].
    by apply list_elem_of_filter.
Qed.

(** The entries of all rules, with the rule each belongs to. *)
Definition all_entries (routes : list (route_key * C2MTarget)) (rules : list ScheduledRule) : list (Z * route_key) :=
  concat (map (fun s => map (pair (ru_id (sr_rule s))) (rule_entries routes s)) rules).

Lemma all_entries_feeds routes rules id k :
  (id, k) ∈ all_entries routes rules <-> exists s, s ∈ rules /\ ru_id (sr_rule s) = id /\ feeds routes s k.
Proof.
  unfold all_entries. rewrite list_elem_of_In, in_concat. setoid_rewrite in_map_iff. split.
  - intros (l & (s & <- & Hs%list_elem_of_In) & Hk%in_map_iff). destruct Hk as (k' & [= <- ->] & Hk%list_elem_of_In).
    exists s. by rewrite <- rule_entries_feeds.
  - intros (s & Hs & <- & Hk%rule_entries_feeds). eexists. split; [by exists s; split; [| by apply list_elem_of_In] |].
    apply in_map_iff. exists k. by split; [| apply list_elem_of_In].
Qed.

Lemma rebuild_flat routes csi rules acc :
  foldl (fun acc s => foldl (subscribe_entry csi (ru_id (sr_rule s))) acc (rule_entries routes s)) acc rules =
  foldl (fun acc e => subscribe_entry csi e.1 acc e.2) acc (all_entries routes rules).
Proof.
  revert acc. induction rules as [|s rules IH]; intros acc; [done |]. cbn [foldl]. rewrite IH.
  unfold all_entries. cbn [map concat]. rewrite foldl_app. f_equal.
  generalize (rule_entries routes s) acc. induction l as [|k l IHl]; intros a; [done |]. cbn [foldl map]. apply IHl.
Qed.

(** The slot a channel point makes watched, and whether it does. *)
Definition entry_slot (csi : ChannelToSlotIndex) (k : route_key) (slot : nat) : Prop :=
  let '(ch, pt, p) := k in
  PointType_is_measurement pt = true /\ ChannelToSlotIndex_lookup csi ch pt p = Some slot /\ (slot < watch_capacity)%nat.

Lemma subscribe_slot csi ch pt p b X : PointType_is_measurement pt = true -> watches b X ->
  exists b1 X1, (match ChannelToSlotIndex_lookup csi ch pt p with
      Some slot => let! b0 := Ret b in SubscriptionBitmap_set_watched b0 slot | None => Ret b end) = Ret b1 /\ watches b1 X1 /\
    forall slot, slot ∈ X1 <-> slot ∈ X \/ entry_slot csi (ch, pt, p) slot.
Proof.
  intros Em Hb. unfold entry_slot. rewrite Em. destruct (ChannelToSlotIndex_lookup csi ch pt p) as [slot|].
  - cbn [outcome_bind]. destruct (decide (slot < watch_capacity)%nat) as [Hlt | Hge].
    + destruct (set_watched_spec b X slot Hb Hlt) as (b1 & Hb1 & Hw). exists b1, ({[slot]} ∪ X). split; [exact Hb1 |]. split; [done |].
      intros j. rewrite elem_of_union, elem_of_singleton. clear -Hlt. split.
      * intros [-> | ?]; [right; auto | by left].
      * intros [? | (_ & [= ->] & _)]; [by right | by left].
    + exists b, X. split; [apply set_watched_out; lia |]. split; [done |]. intros j. clear -Hge. split; [by left |].
      intros [? | (_ & [= ->] & ?)]; [done | lia].
  - exists b, X. split; [done |]. split; [done |]. intros j. split; [by left |]. intros [? | (_ & ? & _)]; done.
Qed.

Lemma subscribe_entries csi es : forall index b X, watches b X ->
  exists b' X', (foldl (fun acc e => subscribe_entry csi e.1 acc e.2) (index, Ret b) es).2 = Ret b' /\ watches b' X' /\
    (forall slot, slot ∈ X' <-> slot ∈ X \/ exists e, e ∈ es /\ entry_slot csi e.2 slot) /\
    (forall ch p id, id ∈ default [] ((foldl (fun acc e => subscribe_entry csi e.1 acc e.2) (index, Ret b) es).1 !! (ch, p)) <->
       id ∈ default [] (index !! (ch, p)) \/ exists pt, PointType_is_measurement pt = true /\ (id, (ch, pt, p)) ∈ es).
Proof.
  induction es as [|[id [[ch pt] p]] es IH]; intros index b X Hb.
  { exists b, X. cbn. split; [done |]. split; [done |]. split; intros; setoid_rewrite elem_of_nil; naive_solver. }
  cbn [foldl fst snd]. unfold subscribe_entry at 2 4. cbn [fst snd].
  destruct (PointType_is_measurement pt) eqn:Em.
  - set (index' := <[(ch, p) := default [] (index !! (ch, p)) ++ [id]]> index).
    pose proof (subscribe_slot csi ch pt p b X Em Hb) as Hb1.
    destruct Hb1 as (b1 & X1 & -> & Hw1 & HX1). destruct (IH index' b1 X1 Hw1) as (b' & X' & He & Hw & HX & Hi).
    exists b', X'. split; [done |]. split; [done |]. split.
    + intros slot. rewrite HX, HX1. setoid_rewrite elem_of_cons. clear. split.
      * intros [[? | ?] | (e & ? & ?)]; [by left | right; by eauto | right; by eauto].
      * intros [? | (e & [-> | ?] & ?)]; [by do 2 left | left; by right | right; by eauto].
    + intros ch' p' id'. rewrite Hi. setoid_rewrite elem_of_cons. unfold index'.
      destruct (decide ((ch, p) = (ch', p'))) as [[= <- <-] | Hne].
      * rewrite lookup_insert_eq. cbn. rewrite elem_of_app, list_elem_of_singleton. clear -Em. split.
        { intros [[? | ->] | (pt' & ? & ?)]; [by left | right; exists pt; by auto | right; by eauto]. }
        { intros [? | (pt' & ? & [[= -> _] | ?])]; [by do 2 left | left; by right | right; by eauto]. }
      * rewrite lookup_insert_ne by done. clear -Hne. split.
        { intros [? | (pt' & ? & ?)]; [by left | right; by eauto]. }
        { intros [? | (pt' & ? & [[= -> -> _ ->] | ?])]; [by left | done | right; by eauto]. }
  - destruct (IH index b X Hb) as (b' & X' & He & Hw & HX & Hi). exists b', X'. split; [done |]. split; [done |]. split.
    + intros slot. rewrite HX. setoid_rewrite elem_of_cons. split.
      * intros [? | (e & ? & ?)]; [by left | right; by eauto].
      * intros [? | (e & [-> | ?] & Hes)]; [by left | destruct Hes as [Hm _]; by rewrite Em in Hm | right; by eauto].
    + intros ch' p' id'. rewrite Hi. setoid_rewrite elem_of_cons. split.
      * intros [? | (pt' & ? & ?)]; [by left | right; by eauto].
      * intros [? | (pt' & Hm & [[= -> -> -> ->] | ?])]; [by left | by rewrite Em in Hm | right; by eauto].
Qed.

(** Rebuilding the dispatcher from the rules gives exactly their subscriptions: the
    rules listed for a channel point are those of which an enabled change trigger names
    an instance point that a telemetry or signal point of that number feeds, and a slot
    is watched exactly when it belongs to such a point and the bitmap has room for it;
    what was subscribed before the rebuild is forgotten. *)
Theorem rebuild_covers_subscriptions {C} (d : PointWatchDispatcher C) rules routes csi bitmap X0 :
  watches bitmap X0 ->
  exists b X, (PointWatchDispatcher_rebuild_from_rules d rules routes csi bitmap).2 = Ret b /\ watches b X /\
    (forall slot, slot ∈ X <-> exists s k, s ∈ rules /\ feeds routes s k /\ entry_slot csi k slot) /\
    (forall ch p id, id ∈ default [] (pwd_sub_index (PointWatchDispatcher_rebuild_from_rules d rules routes csi bitmap).1 !! (ch, p)) <->
       exists s pt, s ∈ rules /\ ru_id (sr_rule s) = id /\ PointType_is_measurement pt = true /\ feeds routes s (ch, pt, p)).
Proof.
  intros Hw0. unfold PointWatchDispatcher_rebuild_from_rules. rewrite rebuild_flat.
  destruct (subscribe_entries csi (all_entries routes rules) ∅ _ ∅ (clear_all_watches _ _ Hw0)) as (b & X & Hb & Hw & HX & Hi).
  destruct (foldl _ _ (all_entries routes rules)) as [index ob]. cbn [fst snd pwd_sub_index] in *.
  exists b, X. split; [done |]. split; [done |]. split.
  - intros slot. rewrite HX, elem_of_empty. split.
    + intros [[] | ([id k] & (s & Hs & _ & Hf)%all_entries_feeds & He)]. by exists s, k.
    + intros (s & k & Hs & Hf & He). right. exists (ru_id (sr_rule s), k). split; [| done]. apply all_entries_feeds. by exists s.
  - intros ch p id. rewrite Hi, lookup_empty. cbn. rewrite elem_of_nil. setoid_rewrite all_entries_feeds. naive_solver.
Qed.

Lemma rebuild_covers_subscriptions_witness :
  exists b X, (PointWatchDispatcher_rebuild_from_rules (mkDispatcher ∅ tt 0) [limit_scheduled]
      [((1001, Telemetry, 1), mkC2MTarget 23 4)] (mkChannelToSlotIndex ∅ 0%nat) SubscriptionBitmap_create).2 = Ret b /\ watches b X /\
    1 ∈ default [] (pwd_sub_index (PointWatchDispatcher_rebuild_from_rules (mkDispatcher ∅ tt 0) [limit_scheduled]
      [((1001, Telemetry, 1), mkC2MTarget 23 4)] (mkChannelToSlotIndex ∅ 0%nat) SubscriptionBitmap_create).1 !! (1001, 1)).
Proof.
  destruct (rebuild_covers_subscriptions (mkDispatcher ∅ tt 0) [limit_scheduled] [((1001, Telemetry, 1), mkC2MTarget 23 4)]
    (mkChannelToSlotIndex ∅ 0%nat) SubscriptionBitmap_create ∅ create_watches) as (b & X & Hb & Hw & _ & Hi).
  exists b, X. split; [exact Hb |]. split; [exact Hw |]. apply Hi. exists limit_scheduled, Telemetry.
  split; [by apply list_elem_of_singleton |]. split; [reflexivity |]. split; [reflexivity |]. split; [reflexivity |].
  exists [ref_soc; ref_temp], None, None, ref_soc, (mkC2MTarget 23 4).
  split; [reflexivity |]. split; [by left |]. split; [by left |]. split; reflexivity.
Defined.

(** * The fast path *)

(** An event of the second subscribed point, with the value [v]. *)
Definition event_temp (v : Z) : WatchEvent := mkWatchEvent [1] 1001 2 (f64_of_Z v) 0 0.
Definition is_due (rules : list ScheduledRule) (t : TickIn) : bool :=
  existsb (rule_due (tick_snapshot rules t) (tk_now t)) rules.
Definition watch_fires (rules : list ScheduledRule) (ev : WatchEvent) (now : Z) : bool :=
  existsb (watch_due ev now) rules.
Definition after_event : list ScheduledRule :=
  (RuleScheduler_execute_watch_triggered after_tick (event_temp 10) (6 * second) (6 * second) (fun _ => Some fired.2) (fun l => l)).1.

(** The PointWatch fast path gives the value of the event to every point the rule
    subscribes to, not to the point the event is about.  With a rule subscribed to two
    points that last read 80 and 10, an event that repeats the second point's 10 triggers
    the rule although nothing changed, and is recorded as the first point's value, so
    that its later change from 80 to 10 is not seen by any tick (it would have been
    without the event). *)
Theorem watch_event_attributed_to_all_points :
  watch_fires after_tick (event_temp 10) (6 * second) = true /\
  is_due after_tick (tick_at (6 * second) 80 10 None) = false /\
  is_due after_tick (tick_at (12 * second) 10 10 None) = true /\
  forall now, is_due after_event (tick_at now 10 10 None) = false.
Proof.
  repeat (split; [vm_compute; reflexivity |]). intros now.
  assert (He : after_event = [default limit_scheduled (after_event !! 0%nat)]) by (vm_compute; reflexivity).
  unfold is_due. rewrite He. cbn [existsb]. rewrite orb_false_r. unfold rule_due.
  replace (should_execute _ _ _) with false; [by rewrite andb_false_r |]. vm_compute. reflexivity.
Qed.

(** The cooldown is not consulted on the fast path: a second after an execution that
    acted, within the 5 s cooldown, a tick refuses a real change and the event executes. *)
Theorem watch_path_ignores_cooldown :
  is_due after_tick (tick_at second 70 10 None) = false /\ is_due after_tick (tick_at (5 * second) 70 10 None) = true /\
  watch_fires after_tick (event_temp 20) second = true.
Proof. repeat split; vm_compute; reflexivity. Qed.

Definition undelivered : Env * RuleExecutionResult :=
  run_of (site_execute site_routes (site_with (Some ShmOnly) (f64_of_Z 80)) limit_rule).
Definition after_undelivered : list ScheduledRule := (RuleScheduler_tick [limit_scheduled] (tick_at 0 80 10 (Some undelivered.2))).1.
(** A command that did not reach the device still starts the cooldown: when the
    dispatch only reached shared memory, the action is reported as failed, yet the
    execution counts as successful, and the tick holds the rule back for its cooldown
    even when the reading changes. *)
Theorem undelivered_command_starts_cooldown :
  map ar_success (re_actions_executed undelivered.2) = [false] /\ re_success undelivered.2 = true /\
  map sr_last_cooldown_start after_undelivered = [Some 0] /\
  is_due after_undelivered (tick_at (4 * second) 90 10 None) = false /\
  is_due after_undelivered (tick_at (5 * second) 90 10 None) = true.
Proof. repeat split; vm_compute; reflexivity. Qed.
