(* ===== verification/RuleParser.v ===== *)
(** The parser of rule flows: [libs/voltage-rules/src/parser.rs], the serde forms of
    [types.rs] and [hydrate_rule] of [repository.rs].

    The editor saves a rule as a Vue Flow document.  [extract_rule_flow] turns it into
    the compact flow that RuleExec executes, [flow_column_values] stores the texts of the
    document and of the compact flow, and [hydrate_rule] reads the latter back for
    execution.  The derived serialisers and deserialisers of [types.rs] go through the JSON
    tree ([serde_json::Value], [Json] of RuleExec); the crate's text writer and reader are
    the parameters [to_string] and [from_str], and what is assumed of them is
    [text_faithful]: a tree within the recursion limit, whose integers are 64-bit and whose
    floats the reader reproduces, is read back as it was written.  serde's derived readers
    also accept a struct written as an array of its fields, which no writer here produces;
    they are modelled on objects. *)
From stdpp Require Import base numbers list gmap strings.
From Stdlib Require Import ZArith Lia.
From S2P Require Import Prelude PointTypes Routing Rtdb Validation Calc RuleExec.
Local Open Scope string_scope.
Local Open Scope list_scope.
Local Open Scope Z_scope.
Set Warnings "-clear-no-such-hyp".
Set Warnings "-register-all".

(** * JSON trees *)

Definition tree_get (key : string) (v : Json) : option Json := match v with JObj m => m !! key | _ => None end.
Definition tree_str (v : Json) : option string := match v with JStr s => Some s | _ => None end.
Definition tree_array (v : Json) : option (list Json) := match v with JArr l => Some l | _ => None end.
Definition tree_object (v : Json) : option (gmap string Json) := match v with JObj m => Some m | _ => None end.
Definition tree_u64 (v : Json) : option Z := match v with JInt z => if (0 <=? z) && (z <? 2 ^ 64) then Some z else None | _ => None end.
Definition u32_try_from (n : Z) : option Z := if n <? 2 ^ 32 then Some n else None.
Definition str_at (key : string) (v : Json) : option string := tree_get key v ≫= tree_str.
Definition array_at (key : string) (v : Json) : option (list Json) := tree_get key v ≫= tree_array.

Fixpoint traverse {A B E} (f : A -> result B E) (l : list A) : result (list B) E :=
  match l with
  | [] => Ok []
  | a :: l => let? b := f a in let? bs := traverse f l in Ok (b :: bs)
  end.

Inductive ParseError :=
| MissingNodes
| NodeMissingId
| NoStartNode
| SwitchMissingConfig
| PeriodDeltaMissingConfig
| PeriodDeltaMissing (field : string)
| FieldVariableMissingName (field : string)
| PeriodDeltaMissingPeriod
| InvalidPeriod (period : string)
| VariableMissingName
| RuleMissingName
| AssignmentMissingVariables
| AssignmentMissingValue
| CalculationMissingOutput
| CalculationMissingFormula.

Section Parser.
(** [serde_json::to_string] and [serde_json::from_str] into a [Value]. *)
Variable to_string : Json -> string.
Variable from_str : string -> option Json.

(** * Extraction from the document *)

Definition string_items (l : list Json) : list string := omap tree_str l.

Definition extract_rule_wires_default (data : option Json) : list string :=
  let base := match data ≫= tree_get "config" with Some c => Some c | None => data end in
  default [] (string_items <$> ((base ≫= tree_get "wires") ≫= array_at "default")).

Definition number_at (key other : string) (v : Json) : option Z :=
  ((match tree_get key v with Some n => Some n | None => tree_get other v end) ≫= tree_u64) ≫= u32_try_from.
Definition variable_of (name : string) (var : Json) : RuleVariable :=
  mkRuleVariable name (number_at "instance" "instance_id" var) (str_at "pointType" var) (number_at "point_id" "point" var)
    (default [] (array_at "formula" var)).

Definition extract_single_rule_variable (value : option Json) (field_name : string) : result RuleVariable ParseError :=
  let? var := ok_or value (PeriodDeltaMissing field_name) in
  let? name := ok_or (str_at "name" var) (FieldVariableMissingName field_name) in
  Ok (variable_of name var).
Definition extract_rule_variables (config : Json) : result (list RuleVariable) ParseError :=
  match array_at "variables" config with
  | None => Ok []
  | Some vars => traverse (fun var => let? name := ok_or (str_at "name" var) VariableMissingName in Ok (variable_of name var)) vars
  end.

Definition condition_of (item : Json) : FlowCondition :=
  mkFlowCondition (default "variable" (str_at "type" item)) (str_at "variables" item) (str_at "operator" item)
    (tree_get "value" item).
Definition extract_flow_conditions (rule : Json) : list FlowCondition := map condition_of (default [] (array_at "rule" rule)).
Definition extract_rule_switch_branches (config : Json) : result (list RuleSwitchBranch) ParseError :=
  match array_at "rule" config with
  | None => Ok []
  | Some rules =>
      traverse (fun rule =>
        let? name := ok_or (str_at "name" rule) RuleMissingName in
        Ok (mkSwitchBranch name (default "default" (str_at "type" rule)) (extract_flow_conditions rule))) rules
  end.
Definition extract_rule_value_assignments (config : Json) : result (list RuleValueAssignment) ParseError :=
  match array_at "rule" config with
  | None => Ok []
  | Some rules =>
      traverse (fun rule =>
        let? variables := ok_or (str_at "Variables" rule) AssignmentMissingVariables in
        let? value := ok_or (tree_get "value" rule) AssignmentMissingValue in
        Ok (mkAssignment variables value)) rules
  end.
Definition extract_calculation_rules (config : Json) : result (list CalculationRule) ParseError :=
  match array_at "rule" config with
  | None => Ok []
  | Some rules =>
      traverse (fun rule =>
        let? output := ok_or (str_at "output" rule) CalculationMissingOutput in
        let? formula := ok_or (str_at "formula" rule) CalculationMissingFormula in
        Ok (mkCalculationRule output formula)) rules
  end.
Definition extract_rule_wires_map (config : Json) : gmap string (list string) :=
  (fun v => default [] (string_items <$> tree_array v)) <$> default ∅ (tree_get "wires" config ≫= tree_object).

Definition extract_switch_rule_node (data : option Json) : result RuleNode ParseError :=
  let? config := ok_or (data ≫= tree_get "config") SwitchMissingConfig in
  let? variables := extract_rule_variables config in
  let? rule := extract_rule_switch_branches config in
  Ok (NodeSwitch variables rule (extract_rule_wires_map config)).

(** [config.map(f).transpose()?.unwrap_or_default()] *)
Definition from_config {A} (f : Json -> result (list A) ParseError) (config : option Json) : result (list A) ParseError :=
  match config with Some c => f c | None => Ok [] end.
Definition extract_change_value_rule_node (data : option Json) : result RuleNode ParseError :=
  let config := data ≫= tree_get "config" in
  let? variables := from_config extract_rule_variables config in
  let? rule := from_config extract_rule_value_assignments config in
  Ok (NodeChangeValue variables rule (extract_rule_wires_default config)).
Definition extract_calculation_rule_node (data : option Json) : result RuleNode ParseError :=
  let config := data ≫= tree_get "config" in
  let? variables := from_config extract_rule_variables config in
  let? rule := from_config extract_calculation_rules config in
  Ok (NodeCalculation variables rule (extract_rule_wires_default config)).
Definition valid_period (period : string) : bool := one_of period ["daily"; "weekly"; "monthly"; "quarterly"].
Definition extract_period_delta_rule_node (data : option Json) : result RuleNode ParseError :=
  let? config := ok_or (data ≫= tree_get "config") PeriodDeltaMissingConfig in
  let? input := extract_single_rule_variable (tree_get "input" config) "input" in
  let? output := extract_single_rule_variable (tree_get "output" config) "output" in
  let? period := ok_or (str_at "period" config) PeriodDeltaMissingPeriod in
  if valid_period period then Ok (NodePeriodDelta input output period (extract_rule_wires_default (Some config)))
  else Err (InvalidPeriod period).

(** [None]: the node is of an unknown type and is skipped with a warning. *)
Definition extract_node (node : Json) : result (option RuleNode) ParseError :=
  let node_type := default "custom" (str_at "type" node) in
  let data := tree_get "data" node in
  let known r := let? n := r in Ok (Some n) in
  if String.eqb node_type "start" then Ok (Some (NodeStart (extract_rule_wires_default data)))
  else if String.eqb node_type "end" then Ok (Some NodeEnd)
  else if String.eqb node_type "custom" then
    let inner_type := default EmptyString (data ≫= str_at "type") in
    if String.eqb inner_type "function-switch" then known (extract_switch_rule_node data)
    else if String.eqb inner_type "action-changeValue" then known (extract_change_value_rule_node data)
    else if String.eqb inner_type "action-calculation" then known (extract_calculation_rule_node data)
    else if String.eqb inner_type "action-periodDelta" then known (extract_period_delta_rule_node data)
    else Ok None
  else Ok None.

Fixpoint extract_nodes (l : list Json) (nodes : gmap string RuleNode) (start_node : string)
    : result (gmap string RuleNode * string) ParseError :=
  match l with
  | [] => Ok (nodes, start_node)
  | node :: l =>
      let? node_id := ok_or (str_at "id" node) NodeMissingId in
      let? found := extract_node node in
      match found with
      | None => extract_nodes l nodes start_node
      | Some n => extract_nodes l (<[node_id := n]> nodes) (match n with NodeStart _ => node_id | _ => start_node end)
      end
  end.
Definition extract_rule_flow (full_json : Json) : result RuleFlow ParseError :=
  let? nodes_array := ok_or (array_at "nodes" full_json) MissingNodes in
  let? found := extract_nodes nodes_array ∅ EmptyString in
  if String.eqb found.2 EmptyString then Err NoStartNode else Ok (mkRuleFlow found.2 found.1).

(** * The stored form: the derived serialisers of [types.rs] *)

Definition obj (l : list (string * Json)) : Json := JObj (list_to_map l).
(** [skip_serializing_if = "Option::is_none"] *)
Definition opt_field (key : string) (v : option Json) : list (string * Json) := match v with Some v => [(key, v)] | None => [] end.

Definition ser_variable (v : RuleVariable) : Json :=
  obj ([("name", JStr (rv_name v))] ++ opt_field "instance" (JInt <$> rv_instance v) ++ opt_field "pointType" (JStr <$> rv_point_type v) ++
       opt_field "point_id" (JInt <$> rv_point v) ++ match rv_formula v with [] => [] | f => [("formula", JArr f)] end).
Definition ser_condition (c : FlowCondition) : Json :=
  obj ([("type", JStr (fc_cond_type c))] ++ opt_field "variables" (JStr <$> fc_variables c) ++ opt_field "operator" (JStr <$> fc_operator c) ++
       opt_field "value" (fc_value c)).
Definition ser_branch (b : RuleSwitchBranch) : Json :=
  obj [("name", JStr (sb_name b)); ("type", JStr (sb_rule_type b)); ("rule", JArr (map ser_condition (sb_rule b)))].
Definition ser_assignment (a : RuleValueAssignment) : Json :=
  obj [("Variables", JStr (va_variables a)); ("value", va_value a)].
Definition ser_calculation (c : CalculationRule) : Json :=
  obj [("output", JStr (ca_output c)); ("formula", JStr (ca_formula c))].
Definition ser_wires (ws : list string) : Json := obj [("default", JArr (map JStr ws))].
Definition ser_wires_map (ws : gmap string (list string)) : Json := JObj ((fun l => JArr (map JStr l)) <$> ws).

Definition node_tag (n : RuleNode) : string :=
  match n with
  | NodeStart _ => "start" | NodeEnd => "end" | NodeSwitch _ _ _ => "function-switch" | NodeChangeValue _ _ _ => "action-changeValue"
  | NodeCalculation _ _ _ => "action-calculation" | NodePeriodDelta _ _ _ _ => "action-periodDelta"
  end.
Definition node_fields (n : RuleNode) : list (string * Json) :=
  match n with
  | NodeStart ws => [("wires", ser_wires ws)]
  | NodeEnd => []
  | NodeSwitch vs rs ws => [("variables", JArr (map ser_variable vs)); ("rule", JArr (map ser_branch rs)); ("wires", ser_wires_map ws)]
  | NodeChangeValue vs rs ws => [("variables", JArr (map ser_variable vs)); ("rule", JArr (map ser_assignment rs)); ("wires", ser_wires ws)]
  | NodeCalculation vs rs ws => [("variables", JArr (map ser_variable vs)); ("rule", JArr (map ser_calculation rs)); ("wires", ser_wires ws)]
  | NodePeriodDelta i o p ws => [("input", ser_variable i); ("output", ser_variable o); ("period", JStr p); ("wires", ser_wires ws)]
  end.
(** [#[serde(tag = "type")]] *)
Definition ser_node (n : RuleNode) : Json := obj (("type", JStr (node_tag n)) :: node_fields n).
Definition ser_flow (f : RuleFlow) : Json := obj [("start_node", JStr (rf_start_node f)); ("nodes", JObj (ser_node <$> rf_nodes f))].

(** * Reading it back: the derived deserialisers *)

Definition de_u32 (v : Json) : option Z := tree_u64 v ≫= u32_try_from.
(** An [Option] field: absent and null are [None]. *)
Definition de_option {A} (de : Json -> option A) (v : option Json) : option (option A) :=
  match v with None | Some JNull => Some None | Some v => Some <$> de v end.
Definition de_list {A} (de : Json -> option A) (v : Json) : option (list A) := tree_array v ≫= mapM de.
Definition de_strings : Json -> option (list string) := de_list tree_str.
(** [#[serde(default)]] *)
Definition de_default {A} (de : Json -> option (list A)) (v : option Json) : option (list A) :=
  match v with None => Some [] | Some v => de v end.
(** A map reads when all its values do. *)
Definition de_map {A} (de : Json -> option A) (v : Json) : option (gmap string A) :=
  match v with
  | JObj m => if bool_decide (map_Forall (fun (_ : string) x => is_Some (de x)) m) then Some (omap de m) else None
  | _ => None
  end.

(** A field and its alias must not both be there. *)
Definition aliased (key other : string) (v : Json) : option (option Json) :=
  match tree_get key v, tree_get other v with Some _, Some _ => None | Some a, None | None, Some a => Some (Some a) | None, None => Some None end.
Definition de_variable (v : Json) : option RuleVariable :=
  name ← str_at "name" v; instance ← aliased "instance" "instance_id" v ≫= de_option de_u32;
  point_type ← de_option tree_str (tree_get "pointType" v); point ← de_option de_u32 (tree_get "point_id" v);
  formula ← de_default (de_list Some) (tree_get "formula" v);
  Some (mkRuleVariable name instance point_type point formula).
Definition de_condition (v : Json) : option FlowCondition :=
  ty ← str_at "type" v; variables ← de_option tree_str (tree_get "variables" v); operator ← de_option tree_str (tree_get "operator" v);
  value ← de_option Some (tree_get "value" v); Some (mkFlowCondition ty variables operator value).
Definition de_branch (v : Json) : option RuleSwitchBranch :=
  name ← str_at "name" v; ty ← str_at "type" v; rule ← tree_get "rule" v ≫= de_list de_condition; Some (mkSwitchBranch name ty rule).
Definition de_assignment (v : Json) : option RuleValueAssignment :=
  variables ← str_at "Variables" v; value ← tree_get "value" v; Some (mkAssignment variables value).
Definition de_calculation (v : Json) : option CalculationRule :=
  output ← str_at "output" v; formula ← str_at "formula" v; Some (mkCalculationRule output formula).
Definition de_wires (v : Json) : option (list string) := m ← tree_object v; de_default de_strings (m !! "default").
Definition de_node (v : Json) : option RuleNode :=
  tag ← str_at "type" v;
  if String.eqb tag "start" then NodeStart <$> (tree_get "wires" v ≫= de_wires)
  else if String.eqb tag "end" then Some NodeEnd
  else if String.eqb tag "function-switch" then
    vs ← tree_get "variables" v ≫= de_list de_variable; rs ← tree_get "rule" v ≫= de_list de_branch;
    ws ← tree_get "wires" v ≫= de_map de_strings; Some (NodeSwitch vs rs ws)
  else if String.eqb tag "action-changeValue" then
    vs ← tree_get "variables" v ≫= de_list de_variable; rs ← tree_get "rule" v ≫= de_list de_assignment;
    ws ← tree_get "wires" v ≫= de_wires; Some (NodeChangeValue vs rs ws)
  else if String.eqb tag "action-calculation" then
    vs ← tree_get "variables" v ≫= de_list de_variable; rs ← tree_get "rule" v ≫= de_list de_calculation;
    ws ← tree_get "wires" v ≫= de_wires; Some (NodeCalculation vs rs ws)
  else if String.eqb tag "action-periodDelta" then
    i ← tree_get "input" v ≫= de_variable; o ← tree_get "output" v ≫= de_variable; p ← str_at "period" v;
    ws ← tree_get "wires" v ≫= de_wires; Some (NodePeriodDelta i o p ws)
  else None.
Definition de_flow (v : Json) : option RuleFlow :=
  start ← str_at "start_node" v; nodes ← tree_get "nodes" v ≫= de_map de_node; Some (mkRuleFlow start nodes).

(** The columns [flow_json] and [nodes_json] of a rule. *)
Definition flow_column_values (flow : Json) : result (string * string) ParseError :=
  let? compact := extract_rule_flow flow in Ok (to_string flow, to_string (ser_flow compact)).
(** [serde_json::from_str::<RuleFlow>(&nodes_json)], as [hydrate_rule] calls it: the text is
    read through the derived deserialiser. *)
Definition hydrate_flow (nodes_json : string) : option RuleFlow := from_str nodes_json ≫= de_flow.

(** * What both directions keep *)

Fixpoint field (key : string) (l : list (string * Json)) : option Json :=
  match l with [] => None | (k, v) :: l => if String.eqb k key then Some v else field key l end.
Lemma get_obj key l : tree_get key (obj l) = field key l.
Proof.
  unfold obj. cbn. induction l as [| [k v] l IH]; [done |]. cbn. destruct (String.eqb k key) eqn:E.
  - apply String.eqb_eq in E as ->. by rewrite lookup_insert_eq.
  - apply String.eqb_neq in E. by rewrite lookup_insert_ne.
Qed.
#[local] Arguments obj : simpl never.
#[local] Arguments str_at : simpl never.
#[local] Arguments array_at : simpl never.
#[local] Arguments extract_rule_wires_default : simpl never.
#[local] Arguments extract_single_rule_variable : simpl never.
#[local] Arguments valid_period : simpl never.
#[local] Arguments de_list : simpl never.
#[local] Arguments de_wires : simpl never.
#[local] Arguments de_map : simpl never.
#[local] Arguments de_variable : simpl never.
Lemma str_obj key l : str_at key (obj l) = field key l ≫= tree_str.
Proof. unfold str_at. by rewrite get_obj. Qed.
Lemma array_obj key l : array_at key (obj l) = field key l ≫= tree_array.
Proof. unfold array_at. by rewrite get_obj. Qed.

Definition u32_ok (n : option Z) : Prop := match n with Some n => 0 <= n < 2 ^ 32 | None => True end.
Definition variable_typed (v : RuleVariable) : Prop := u32_ok (rv_instance v) /\ u32_ok (rv_point v).
(** A variable as a node of the flow names it, for reading or for writing. *)
Definition flow_variables (n : RuleNode) : list RuleVariable :=
  match n with
  | NodeStart _ | NodeEnd => []
  | NodeSwitch vs _ _ | NodeChangeValue vs _ _ | NodeCalculation vs _ _ => vs
  | NodePeriodDelta i o _ _ => [i; o]
  end.
Definition node_typed (n : RuleNode) : Prop :=
  Forall variable_typed (flow_variables n) /\ match n with NodePeriodDelta _ _ p _ => valid_period p = true | _ => True end.

(** A comparison with null is read back as one without a value. *)
Definition unnull (v : option Json) : option Json := match v with Some JNull => None | v => v end.
Definition condition_read (c : FlowCondition) : FlowCondition := mkFlowCondition (fc_cond_type c) (fc_variables c) (fc_operator c) (unnull (fc_value c)).
Definition branch_read (b : RuleSwitchBranch) : RuleSwitchBranch := mkSwitchBranch (sb_name b) (sb_rule_type b) (map condition_read (sb_rule b)).
Definition node_read (n : RuleNode) : RuleNode := match n with NodeSwitch vs rs ws => NodeSwitch vs (map branch_read rs) ws | n => n end.
Definition flow_read (f : RuleFlow) : RuleFlow := mkRuleFlow (rf_start_node f) (node_read <$> rf_nodes f).

Lemma mapM_map {A B C} (f : B -> option C) (g : A -> B) (h : A -> C) l : Forall (fun a => f (g a) = Some (h a)) l -> mapM f (map g l) = Some (map h l).
Proof. induction 1 as [| a l Ha _ IH]; [done |]. cbn. by rewrite Ha, IH. Qed.
Lemma mapM_keep {A B} (f : B -> option A) (g : A -> B) l : Forall (fun a => f (g a) = Some a) l -> mapM f (map g l) = Some l.
Proof. intros H. rewrite (mapM_map f g id l H). by rewrite map_id. Qed.
Lemma de_strings_map ws : de_strings (JArr (map JStr ws)) = Some ws.
Proof. unfold de_strings, de_list. cbn. apply mapM_keep. apply Forall_true. done. Qed.

Lemma u32_read n : 0 <= n < 2 ^ 32 -> de_u32 (JInt n) = Some n.
Proof.
  intros H. unfold de_u32. cbn.
  assert (((0 <=? n) && (n <? 2 ^ 64))%bool = true) as -> by (apply andb_true_iff; rewrite Z.leb_le, Z.ltb_lt; lia).
  cbn. unfold u32_try_from. assert ((n <? 2 ^ 32) = true) as -> by (apply Z.ltb_lt; lia). done.
Qed.

(** The fields of a stored variable. *)
Lemma variable_fields v : exists l, ser_variable v = obj l /\ field "name" l = Some (JStr (rv_name v)) /\
  field "instance" l = JInt <$> rv_instance v /\ field "instance_id" l = None /\ field "pointType" l = JStr <$> rv_point_type v /\
  field "point_id" l = JInt <$> rv_point v /\ field "formula" l = (match rv_formula v with [] => None | f => Some (JArr f) end).
Proof.
  eexists. split; [reflexivity |]. destruct v as [name [inst |] [pt |] [point |] [| x formula]]; cbn; split_and!; reflexivity.
Qed.

Lemma opt_u32 o : u32_ok o -> de_option de_u32 (JInt <$> o) = Some o.
Proof. intros H. destruct o as [n |]; [| done]. cbn [fmap option_fmap option_map de_option]. by rewrite (u32_read n H). Qed.
Lemma opt_str o : de_option tree_str (JStr <$> o) = Some o.
Proof. by destruct o. Qed.
Lemma aliased_obj key other l x : field key l = x -> field other l = None -> aliased key other (obj l) = Some x.
Proof. intros <- H. unfold aliased. rewrite !get_obj, H. by destruct (field key l). Qed.

Lemma de_variable_ser v : variable_typed v -> de_variable (ser_variable v) = Some v.
Proof.
  intros (Hi & Hp). destruct (variable_fields v) as (l & -> & Hn & H1 & H2 & H3 & H4 & H6).
  unfold de_variable. rewrite str_obj, (aliased_obj _ _ _ _ H1 H2), !get_obj, Hn, H3, H4, H6.
  cbn [mbind option_bind tree_str]. rewrite (opt_u32 _ Hi), opt_str, (opt_u32 _ Hp). cbn [mbind option_bind].
  assert (E : de_default (de_list Some) (match rv_formula v with [] => None | f => Some (JArr f) end) = Some (rv_formula v)).
  { destruct (rv_formula v) as [| x f]; [done |]. unfold de_default, de_list. cbn [tree_array mbind option_bind].
    generalize (x :: f). intros l0. induction l0 as [| y l0 IH]; [done |]. cbn. by rewrite IH. }
  rewrite E. by destruct v.
Qed.

Lemma condition_fields c : exists l, ser_condition c = obj l /\ field "type" l = Some (JStr (fc_cond_type c)) /\
  field "variables" l = JStr <$> fc_variables c /\ field "operator" l = JStr <$> fc_operator c /\ field "value" l = fc_value c.
Proof. eexists. split; [reflexivity |]. destruct c as [ty [vs |] [op |] [v |]]; cbn; split_and!; reflexivity. Qed.
Lemma de_condition_ser c : de_condition (ser_condition c) = Some (condition_read c).
Proof.
  destruct (condition_fields c) as (l & -> & H1 & H2 & H3 & H4). unfold de_condition. rewrite str_obj, !get_obj, H1, H2, H3, H4.
  cbn [mbind option_bind tree_str]. rewrite !opt_str. cbn [mbind option_bind]. unfold condition_read. by destruct (fc_value c) as [[]|].
Qed.

Ltac read_fields := repeat (rewrite ?get_obj, ?str_obj; cbn).

(** * The stored form reads back *)

Lemma de_wires_ser ws : de_wires (ser_wires ws) = Some ws.
Proof. unfold de_wires, ser_wires, obj. cbn. rewrite lookup_insert_eq. cbn. apply de_strings_map. Qed.
Lemma de_map_ser {A} (de : Json -> option A) (ser : A -> Json) (h : A -> A) (m : gmap string A) :
  map_Forall (fun _ a => de (ser a) = Some (h a)) m -> de_map de (JObj (ser <$> m)) = Some (h <$> m).
Proof.
  intros H. unfold de_map. rewrite bool_decide_true.
  - f_equal. apply map_eq. intros k. rewrite lookup_omap, !lookup_fmap. destruct (m !! k) as [a |] eqn:E; [| done]. cbn. by apply (H k).
  - intros k t Hk. apply lookup_fmap_Some in Hk as (a & <- & Ha). exists (h a). by apply (H k).
Qed.
Lemma de_variables_ser vs : Forall variable_typed vs -> de_list de_variable (JArr (map ser_variable vs)) = Some vs.
Proof. intros H. apply mapM_keep. eapply Forall_impl; [exact H |]. apply de_variable_ser. Qed.
Lemma de_branch_ser b : de_branch (ser_branch b) = Some (branch_read b).
Proof.
  destruct b as [name ty cs]. unfold de_branch, ser_branch. read_fields. unfold de_list. cbn [tree_array mbind option_bind].
  rewrite (mapM_map _ _ condition_read); [done |]. apply Forall_true. apply de_condition_ser.
Qed.

Lemma de_node_ser n : node_typed n -> de_node (ser_node n) = Some (node_read n).
Proof.
  intros [Hn _]. destruct n as [ws | | vs rs ws | vs rs ws | vs rs ws | i o p ws]; unfold de_node, ser_node; cbn in Hn; read_fields;
    rewrite ?de_wires_ser; try done.
  - rewrite de_variables_ser by done. cbn. unfold de_list. cbn [tree_array mbind option_bind].
    rewrite (mapM_map _ _ branch_read) by (apply Forall_true; apply de_branch_ser). cbn.
    unfold ser_wires_map. rewrite (de_map_ser _ _ id); [cbn; by rewrite map_fmap_id |]. intros k l _. apply de_strings_map.
  - rewrite de_variables_ser by done. cbn. unfold de_list. cbn [tree_array mbind option_bind]. rewrite mapM_keep; [done |].
    apply Forall_true. intros [vars v]. unfold de_assignment, ser_assignment. by read_fields.
  - rewrite de_variables_ser by done. cbn. unfold de_list. cbn [tree_array mbind option_bind]. rewrite mapM_keep; [done |].
    apply Forall_true. intros [out f]. unfold de_calculation, ser_calculation. by read_fields.
  - apply Forall_cons in Hn as [H1 Hn]. apply Forall_cons in Hn as [H2 _]. by rewrite !de_variable_ser.
Qed.

Lemma de_flow_ser f : map_Forall (fun _ n => node_typed n) (rf_nodes f) -> de_flow (ser_flow f) = Some (flow_read f).
Proof.
  intros H. unfold de_flow, ser_flow. read_fields. rewrite (de_map_ser _ _ node_read); [done |].
  intros k n Hk. apply de_node_ser. by eapply H.
Qed.

(** A comparison with null and one without a value have the same outcome. *)
Lemma conditions_read_same parse_f64 cs values : forall acc pending,
  conditions_loop parse_f64 (map condition_read cs) values acc pending = conditions_loop parse_f64 cs values acc pending.
Proof.
  induction cs as [| c cs IH]; intros acc pending; [done |]. cbn [map conditions_loop].
  change (fc_cond_type (condition_read c)) with (fc_cond_type c).
  assert ((fc_value (condition_read c) ≫= Json_as_str) = (fc_value c ≫= Json_as_str)) as -> by by destruct c as [? ? ? [[]|]].
  assert (evaluate_flow_condition parse_f64 (condition_read c) values = evaluate_flow_condition parse_f64 c values) as -> by by destruct c as [? ? ? [[]|]].
  by rewrite !IH.
Qed.

(** * Texts *)

(** The floats that are read back from the text they are written as.  The reader is built
    without the feature [float_roundtrip]: it may miss a float by its last place. *)
Definition float_exact (f : Z) : Prop := from_str (to_string (JFloat f)) = Some (JFloat f).
(** A tree of at most [d] nested arrays and objects, of 64-bit integers and such floats. *)
Inductive plain : nat -> Json -> Prop :=
| plain_null d : plain d JNull
| plain_bool d b : plain d (JBool b)
| plain_int d z : - 2 ^ 63 <= z < 2 ^ 64 -> plain d (JInt z)
| plain_float d f : float_exact f -> plain d (JFloat f)
| plain_str d s : plain d (JStr s)
| plain_arr d l : Forall (plain d) l -> plain (S d) (JArr l)
| plain_obj d m : map_Forall (fun _ v => plain d v) m -> plain (S d) (JObj m).

(** serde_json reads back what it writes, down to its recursion limit of 128 and up to the
    rounding of floats. *)
Hypothesis text_faithful : forall v, plain 127 v -> from_str (to_string v) = Some v.

Lemma plain_mono d : forall d' v, plain d v -> (d <= d')%nat -> plain d' v.
Proof.
  induction d as [| d IH]; intros d' v Hv Hd; inversion Hv; subst; try by constructor.
  - destruct d' as [| d']; [lia |]. constructor. eapply Forall_impl; [eassumption |]. intros x Hx. apply IH; [done | lia].
  - destruct d' as [| d']; [lia |]. constructor. intros k x Hx. apply IH; [| lia]. eauto.
Qed.
Lemma plain_get d key v x : plain d v -> tree_get key v = Some x -> plain (pred d) x.
Proof. intros Hv Hx. destruct v; try done. inversion Hv as [| | | | | | d0 m0 Hm]; subst. by apply (Hm key). Qed.
Lemma plain_items d v l : plain d v -> tree_array v = Some l -> Forall (plain (pred d)) l.
Proof. intros Hv Hl. destruct v; try done. injection Hl as <-. by inversion Hv. Qed.
Lemma plain_fields d l : Forall (fun kv => plain d kv.2) l -> plain (S d) (obj l).
Proof.
  intros H. constructor. intros k v Hk. apply elem_of_list_to_map_2 in Hk. by apply (proj1 (Forall_forall _ _) H) in Hk.
Qed.
Lemma plain_map {A} d (ser : A -> Json) l : Forall (fun a => plain d (ser a)) l -> plain (S d) (JArr (map ser l)).
Proof. intros H. constructor. by apply Forall_map. Qed.

(** The JSON values a node carries. *)
Definition node_values (n : RuleNode) : list Json :=
  (flow_variables n ≫= rv_formula) ++
  match n with
  | NodeSwitch _ rs _ => rs ≫= fun b => omap fc_value (sb_rule b)
  | NodeChangeValue _ rs _ => map va_value rs
  | _ => []
  end.

Lemma Forall_bind {A B} (P : B -> Prop) (f : A -> list B) l : Forall P (l ≫= f) <-> Forall (fun a => Forall P (f a)) l.
Proof. induction l as [| a l IH]; cbn; [done |]. rewrite Forall_app, Forall_cons, IH. done. Qed.

Lemma plain_option d key (v : option Json) : (forall x, v = Some x -> plain d x) -> Forall (fun kv => plain d kv.2) (opt_field key v).
Proof. intros H. destruct v; repeat constructor. by apply H. Qed.
Lemma plain_variable d v : variable_typed v -> Forall (plain d) (rv_formula v) -> plain (S (S d)) (ser_variable v).
Proof.
  intros [Hi Hp] Hf. apply plain_fields. repeat (apply Forall_app; split).
  - repeat constructor.
  - apply plain_option. destruct (rv_instance v) as [i |]; intros x [= <-]. constructor. cbn in Hi. lia.
  - apply plain_option. destruct (rv_point_type v); intros x [= <-]. constructor.
  - apply plain_option. destruct (rv_point v) as [i |]; intros x [= <-]. constructor. cbn in Hp. lia.
  - destruct (rv_formula v); repeat constructor; cbn; by inversion Hf.
Qed.
Lemma plain_condition d c : (forall x, fc_value c = Some x -> plain d x) -> plain (S d) (ser_condition c).
Proof.
  intros H. apply plain_fields. repeat (apply Forall_app; split); [repeat constructor | apply plain_option.. | by apply plain_option].
  - destruct (fc_variables c); intros x [= <-]. constructor.
  - destruct (fc_operator c); intros x [= <-]. constructor.
Qed.
Lemma plain_strings d ws : plain (S d) (JArr (map JStr ws)).
Proof. apply plain_map. apply Forall_true. constructor. Qed.
Lemma plain_wires d ws : plain (S (S d)) (ser_wires ws).
Proof. apply plain_fields. repeat constructor. apply Forall_map. apply Forall_true. constructor. Qed.
Lemma plain_variables d vs : Forall variable_typed vs -> Forall (plain d) (vs ≫= rv_formula) -> plain (S (S (S d))) (JArr (map ser_variable vs)).
Proof.
  intros Ht Hf. apply plain_map. apply Forall_bind in Hf. apply Forall_forall. intros v Hv.
  apply plain_variable; [by apply (proj1 (Forall_forall _ _) Ht) | by apply (proj1 (Forall_forall _ _) Hf)].
Qed.

(** The stored flow is nested no deeper than the document it comes from. *)
Lemma plain_node d n : node_typed n -> Forall (plain d) (node_values n) -> plain (5 + d) (ser_node n).
Proof.
  intros [Ht _] Hv. apply Forall_app in Hv as [Hf Hv].
  destruct n as [ws | | vs rs ws | vs rs ws | vs rs ws | i o p ws]; unfold ser_node; cbn [node_fields flow_variables] in *; apply plain_fields;
    (apply Forall_cons; split; [constructor |]); repeat (apply Forall_cons; split); cbn [snd]; try apply plain_wires; try done.
  - apply (plain_mono (3 + d)); [by apply plain_variables | lia].
  - apply Forall_bind in Hv. apply plain_map. eapply Forall_impl; [exact Hv |]. intros b Hb. apply plain_fields.
    repeat constructor. cbn. apply Forall_map, Forall_forall. intros c Hc. apply plain_condition. intros x Hx.
    apply (proj1 (Forall_forall _ _) Hb). apply list_elem_of_omap. by exists c.
  - constructor. intros k v Hk. apply lookup_fmap_Some in Hk as (l & <- & _). apply plain_strings.
  - apply (plain_mono (3 + d)); [by apply plain_variables | lia].
  - change (map va_value rs) with (va_value <$> rs) in Hv. rewrite Forall_fmap in Hv. apply plain_map. eapply Forall_impl; [exact Hv |]. intros a Ha. apply plain_fields. repeat constructor. cbn. apply (plain_mono d); [done | lia].
  - apply (plain_mono (3 + d)); [by apply plain_variables | lia].
  - apply plain_map. apply Forall_true. intros c. apply plain_fields. repeat constructor.
  - apply Forall_bind in Hf. inversion_clear Ht as [| ? ? H1 H2]. inversion_clear Hf. apply (plain_mono (2 + d)); [by apply plain_variable | lia].
  - apply Forall_bind in Hf. inversion_clear Ht as [| ? ? H1 H2]. inversion_clear H2. inversion_clear Hf as [| ? ? _ Hf2]. inversion_clear Hf2.
    apply (plain_mono (2 + d)); [by apply plain_variable | lia].
  - constructor.
Qed.
Lemma plain_flow d f : map_Forall (fun _ n => node_typed n /\ Forall (plain d) (node_values n)) (rf_nodes f) -> plain (7 + d) (ser_flow f).
Proof.
  intros H. apply plain_fields. repeat constructor. cbn. intros k v Hk. apply lookup_fmap_Some in Hk as (n & <- & Hn).
  destruct (H k n Hn). by apply plain_node.
Qed.

(** * What every accepted document gives *)

Lemma traverse_all {A B E} (f : A -> result B E) (Q : A -> Prop) (P : B -> Prop) l : forall bs, Forall Q l ->
  (forall a b, Q a -> f a = Ok b -> P b) -> traverse f l = Ok bs -> Forall P bs.
Proof.
  induction l as [| a l IH]; intros bs Hq Hf H; cbn in H; [by injection H as <- |]. apply Forall_cons in Hq as [Ha Hq].
  destruct (f a) as [b |] eqn:Ea; [| done]. cbn in H. destruct (traverse f l) as [bs' |]; [| done]. injection H as <-.
  apply Forall_cons. split; [by eapply Hf | by apply IH].
Qed.

Lemma number_at_typed key other v : u32_ok (number_at key other v).
Proof.
  unfold number_at. destruct (match tree_get key v with Some n => Some n | None => tree_get other v end) as [[| | z | | | |] |]; try done.
  cbn. destruct ((0 <=? z) && (z <? 2 ^ 64))%bool eqn:E; [| done]. apply andb_true_iff in E as [E _]. apply Z.leb_le in E.
  cbn. unfold u32_try_from. destruct (z <? 2 ^ 32) eqn:E2; [| done]. apply Z.ltb_lt in E2. done.
Qed.
Lemma variable_of_typed name v : variable_typed (variable_of name v).
Proof. split; apply number_at_typed. Qed.
(** Properties of values that go down with the nesting. *)
Section Given.
Variable Q : nat -> Json -> Prop.
Hypothesis Q_mono : forall d d' v, Q d v -> (d <= d')%nat -> Q d' v.
Hypothesis Q_get : forall d key v x, Q d v -> tree_get key v = Some x -> Q (pred d) x.
Hypothesis Q_items : forall d v l, Q d v -> tree_array v = Some l -> Forall (Q (pred d)) l.

Lemma closed_array_at d key v l : Q d v -> array_at key v = Some l -> Forall (Q (pred (pred d))) l.
Proof using All.
  intros Hv. unfold array_at. destruct (tree_get key v) as [x |] eqn:Hx; [| done]. apply Q_items. by eapply Q_get.
Qed.
(** A variable with values of the document. *)
Definition variable_given (d : nat) (v : RuleVariable) : Prop := variable_typed v /\ Forall (Q d) (rv_formula v).
Lemma variables_given_mono d d' vs : Forall (variable_given d) vs -> (d <= d')%nat -> Forall (variable_given d') vs.
Proof using All.
  intros H Hd. eapply Forall_impl; [exact H |]. intros v [Ht Hv]. split; [done |]. eapply Forall_impl; [exact Hv |]. intros x Hx. by apply (Q_mono d).
Qed.
Lemma values_mono d d' l : Forall (Q d) l -> (d <= d')%nat -> Forall (Q d') l.
Proof. intros H Hd. eapply Forall_impl; [exact H |]. intros x Hx. by apply (Q_mono d). Qed.
Lemma variable_of_given d name v : Q (S (S d)) v -> variable_given d (variable_of name v).
Proof using All.
  intros Hv. split; [apply variable_of_typed |]. cbn. destruct (array_at "formula" v) as [l |] eqn:E; [| constructor]. exact (closed_array_at _ _ _ _ Hv E).
Qed.
Lemma extract_variables_given d config vs : Q (4 + d) config -> extract_rule_variables config = Ok vs -> Forall (variable_given d) vs.
Proof using All.
  intros Hc. unfold extract_rule_variables. destruct (array_at "variables" config) as [l |] eqn:E; [| by intros [= <-]].
  apply traverse_all with (Q := Q (2 + d)); [exact (closed_array_at _ _ _ _ Hc E) |]. intros a b Ha. destruct (str_at "name" a); [| done]. cbn.
  intros [= <-]. by apply variable_of_given.
Qed.
Lemma extract_single_given d v name x : (forall j, v = Some j -> Q (2 + d) j) -> extract_single_rule_variable v name = Ok x -> variable_given d x.
Proof using All.
  intros Hv. unfold extract_single_rule_variable. destruct v as [v |]; [| done]. cbn. destruct (str_at "name" v); [| done]. cbn.
  intros [= <-]. apply variable_of_given. by apply Hv.
Qed.
Lemma extract_branches_given d config rs : Q (5 + d) config -> extract_rule_switch_branches config = Ok rs ->
  Forall (Q d) (rs ≫= fun b => omap fc_value (sb_rule b)).
Proof using All.
  intros Hc H. apply Forall_bind. revert H. unfold extract_rule_switch_branches. destruct (array_at "rule" config) as [l |] eqn:E; [| by intros [= <-]].
  apply traverse_all with (Q := Q (3 + d)); [exact (closed_array_at _ _ _ _ Hc E) |]. intros a b Ha. destruct (str_at "name" a); [| done]. cbn.
  intros [= <-]. cbn. unfold extract_flow_conditions. destruct (array_at "rule" a) as [cs |] eqn:Ec; [| constructor]. cbn.
  pose proof (closed_array_at _ _ _ _ Ha Ec) as Hcs. clear Ec. induction Hcs as [| c cs Hc' _ IH]; [constructor |]. cbn.
  destruct (tree_get "value" c) as [x |] eqn:Ex; [| exact IH]. constructor; [exact (Q_get _ _ _ _ Hc' Ex) | exact IH].
Qed.
Lemma extract_assignments_given d config rs : Q (3 + d) config -> extract_rule_value_assignments config = Ok rs -> Forall (Q d) (map va_value rs).
Proof using All.
  intros Hc H. change (map va_value rs) with (va_value <$> rs). apply Forall_fmap. revert H. unfold extract_rule_value_assignments.
  destruct (array_at "rule" config) as [l |] eqn:E; [| by intros [= <-]].
  apply traverse_all with (Q := Q (1 + d)); [exact (closed_array_at _ _ _ _ Hc E) |]. intros a b Ha. destruct (str_at "Variables" a); [| done]. cbn.
  destruct (tree_get "value" a) as [x |] eqn:Ex; [| done]. cbn. intros [= <-]. exact (Q_get _ _ _ _ Ha Ex).
Qed.

Ltac run_result H :=
  repeat match type of H with
  | context [result_bind ?m _] => destruct m eqn:?; cbn [result_bind] in H; [| discriminate H]
  end.

Lemma node_given d n : Forall (variable_given d) (flow_variables n) ->
  Forall (Q d) match n with NodeSwitch _ rs _ => rs ≫= fun b => omap fc_value (sb_rule b) | NodeChangeValue _ rs _ => map va_value rs | _ => [] end ->
  match n with NodePeriodDelta _ _ p _ => valid_period p = true | _ => True end -> node_typed n /\ Forall (Q d) (node_values n).
Proof using All.
  intros Hv Hj Hp. split; [split; [| exact Hp]; eapply Forall_impl; [exact Hv |]; by intros v [? _] |].
  apply Forall_app. split; [| exact Hj]. apply Forall_bind. eapply Forall_impl; [exact Hv |]. by intros v [_ ?].
Qed.

(** A node of the document gives a well-typed node, whose values are values of the document. *)
Lemma extract_node_given d node n : Q (7 + d) node -> extract_node node = Ok (Some n) -> node_typed n /\ Forall (Q (2 + d)) (node_values n).
Proof using All.
  intros Hn. unfold extract_node. cbv zeta. destruct (String.eqb _ "start"); [by intros [= <-] |]. destruct (String.eqb _ "end"); [by intros [= <-] |].
  destruct (String.eqb _ "custom"); [| done].
  assert (Hc : forall c, (tree_get "data" node ≫= tree_get "config") = Some c -> Q (5 + d) c).
  { intros c. destruct (tree_get "data" node) as [data |] eqn:Ed; [| done]. apply (Q_get (6 + d)). exact (Q_get _ _ _ _ Hn Ed). }
  assert (Hvs : forall c vs, Q (5 + d) c -> extract_rule_variables c = Ok vs -> Forall (variable_given (2 + d)) vs).
  { intros c vs Hp Hv. apply (variables_given_mono (1 + d)); [by eapply (extract_variables_given (1 + d)) | lia]. }
  assert (Hcs : forall vs, from_config extract_rule_variables (tree_get "data" node ≫= tree_get "config") = Ok vs -> Forall (variable_given (2 + d)) vs).
  { intros vs. destruct (tree_get "data" node ≫= tree_get "config") as [c |]; [apply Hvs; by apply Hc | by intros [= <-]]. }
  destruct (String.eqb _ "function-switch").
  { intros H. run_result H. injection H as <-. unfold extract_switch_rule_node in Heqr. run_result Heqr. injection Heqr as <-.
    destruct (tree_get "data" node ≫= tree_get "config") as [c |]; [| done]. injection Heqr0 as ->. specialize (Hc _ eq_refl).
    apply node_given; [by eapply Hvs | apply (values_mono d); [by eapply extract_branches_given | lia] | done]. }
  destruct (String.eqb _ "action-changeValue").
  { intros H. run_result H. injection H as <-. unfold extract_change_value_rule_node in Heqr. cbv zeta in Heqr. run_result Heqr.
    injection Heqr as <-. apply node_given; [by eapply Hcs | | done].
    destruct (tree_get "data" node ≫= tree_get "config") as [c |]; [by eapply extract_assignments_given; [apply Hc |] | by injection Heqr1 as <-]. }
  destruct (String.eqb _ "action-calculation").
  { intros H. run_result H. injection H as <-. unfold extract_calculation_rule_node in Heqr. cbv zeta in Heqr. run_result Heqr.
    injection Heqr as <-. apply node_given; [by eapply Hcs | constructor | done]. }
  destruct (String.eqb _ "action-periodDelta"); [| done].
  intros H. run_result H. injection H as <-. unfold extract_period_delta_rule_node in Heqr. run_result Heqr.
  match type of Heqr with context [valid_period ?p] => destruct (valid_period p) eqn:Hp end; [| done]. injection Heqr as <-.
  destruct (tree_get "data" node ≫= tree_get "config") as [c |]; [| done]. injection Heqr0 as ->. specialize (Hc _ eq_refl).
  apply node_given; [| constructor | done]. repeat (apply Forall_cons; split); [eapply extract_single_given; [| eassumption].. | done];
    intros j Hj; exact (Q_get _ _ _ _ Hc Hj).
Qed.
End Given.

Lemma extract_nodes_inv (P : gmap string RuleNode -> string -> list Json -> Prop) :
  (forall m s node l, P m s (node :: l) -> forall id, str_at "id" node = Some id ->
     match extract_node node with
     | Ok (Some n) => P (<[id := n]> m) (match n with NodeStart _ => id | _ => s end) l
     | Ok None => P m s l
     | Err _ => True
     end) ->
  forall l m s m' s', P m s l -> extract_nodes l m s = Ok (m', s') -> P m' s' [].
Proof.
  intros Hstep. induction l as [| node l IH]; intros m s m' s' H; cbn [extract_nodes]; [by intros [= <- <-] |].
  destruct (str_at "id" node) as [id |] eqn:Hid; [| done]. cbn [ok_or result_bind]. specialize (Hstep _ _ _ _ H _ Hid).
  destruct (extract_node node) as [[n |] |]; cbn [result_bind]; [by apply IH | by apply IH | done].
Qed.

(** The nodes of the document that are kept: of the known types, under their ids. *)
Definition doc_node (l : list Json) (id : string) (n : RuleNode) : Prop :=
  exists node, node ∈ l /\ str_at "id" node = Some id /\ extract_node node = Ok (Some n).

Lemma extract_nodes_from l m' s' : extract_nodes l ∅ EmptyString = Ok (m', s') -> map_Forall (fun id n => doc_node l id n) m'.
Proof.
  intros H. pose (P := fun (m : gmap string RuleNode) (_ : string) (r : list Json) => r ⊆ l /\ map_Forall (fun id n => doc_node l id n) m).
  enough (HP : P m' s' []) by apply HP. revert H. apply extract_nodes_inv; [| by split; [| apply map_Forall_empty]].
  intros m s node r [Hsub Hm] id Hid. destruct (extract_node node) as [[n |] |] eqn:E; [| split; [set_solver | done] | done].
  split; [set_solver |]. apply map_Forall_insert_2; [| done]. exists node. split; [set_solver | done].
Qed.
Lemma extract_nodes_all l : forall m s m' s', NoDup (omap (str_at "id") l) -> extract_nodes l m s = Ok (m', s') ->
  (forall id n, doc_node l id n -> m' !! id = Some n) /\ (forall id, id ∉ omap (str_at "id") l -> m' !! id = m !! id).
Proof.
  induction l as [| node l IH]; intros m s m' s' Hnd; cbn [extract_nodes]; [intros [= <- <-]; split; [intros id n (x & Hx & _); set_solver | done] |].
  cbn in Hnd. destruct (str_at "id" node) as [id0 |] eqn:Hid; [| done]. cbn [ok_or result_bind]. apply NoDup_cons in Hnd as [Hnot Hnd].
  destruct (extract_node node) as [found |] eqn:En; [| done]. cbn [result_bind]. intros H.
  assert (Hm : exists m0 s0, extract_nodes l m0 s0 = Ok (m', s') /\ (forall n, found = Some n -> m0 !! id0 = Some n) /\ forall id, id <> id0 -> m0 !! id = m !! id).
  { destruct found as [n |]; eexists _, _; (split; [exact H |]); [| done]. split; [intros ? [= <-]; apply lookup_insert_eq | intros id Hne; by apply lookup_insert_ne]. }
  destruct Hm as (m0 & s0 & Hrun & Hnew & Hold). destruct (IH _ _ _ _ Hnd Hrun) as [H1 H2]. split.
  - intros id n (x & [-> | Hx]%elem_of_cons & Hxi & Hxn); [| apply H1; by exists x]. rewrite Hid in Hxi. injection Hxi as ->.
    rewrite En in Hxn. injection Hxn as ->. rewrite H2 by done. by apply Hnew.
  - intros id. cbn. rewrite Hid. intros [Hne Hin]%not_elem_of_cons. rewrite H2, Hold by done. done.
Qed.

Definition doc_ids (l : list Json) : list string := omap (str_at "id") l.

(** The start node is a node of the document; with distinct ids it is the start node itself. *)
Lemma extract_nodes_start l m' s' : NoDup (doc_ids l) -> extract_nodes l ∅ EmptyString = Ok (m', s') ->
  s' = EmptyString \/ exists ws, m' !! s' = Some (NodeStart ws).
Proof.
  intros Hnd H.
  pose (P := fun (m : gmap string RuleNode) (s : string) (l : list Json) =>
    NoDup (doc_ids l) /\ (s = EmptyString \/ exists ws, m !! s = Some (NodeStart ws)) /\ forall id, id ∈ doc_ids l -> m !! id = None).
  enough (HP : P m' s' []) by apply HP. revert H. apply extract_nodes_inv; [| by split_and!; [| left |]].
  intros m s node l0 (Hn & Hs & Hd) id Hid. unfold doc_ids in Hn, Hd. cbn in Hn, Hd. rewrite Hid in Hn, Hd.
  apply NoDup_cons in Hn as [Hnot Hn].
  destruct (extract_node node) as [[n |] |]; [| split_and!; [done.. |]; intros x Hx; apply Hd; by right | done].
  split_and!; [done | |].
  - destruct n as [ws | | | | |]; try (destruct Hs as [-> | [ws Hws]]; [by left | right; exists ws]);
      [right; exists ws; by rewrite lookup_insert_eq | ..];
      (rewrite lookup_insert_ne; [done |]; intros ->; rewrite Hd in Hws by left; done).
  - intros x Hx. rewrite lookup_insert_ne; [apply Hd; by right |]. by intros ->.
Qed.

(** C31: what is stored for a rule is what its document describes.  A document that is
    accepted is stored as its own text next to the text of a compact flow.  The flow is
    well typed: its nodes come from nodes of the document under their ids, instance and
    point numbers are 32-bit, periods are among the four known ones and the start node is
    named; when the ids of the document are distinct, every node of a known type is in the
    flow and the start node is a start node.  When the document is nested at most 127 deep
    and its floats are among those that serde_json reads back as written, the stored texts
    are read back: the document as it was, and for execution the same flow, except that a
    comparison with null has become one without a value, which has the same outcome. *)
Theorem accepted_flow_typed doc flow_json nodes_json : flow_column_values doc = Ok (flow_json, nodes_json) ->
  exists f nodes, array_at "nodes" doc = Some nodes /\ flow_json = to_string doc /\ nodes_json = to_string (ser_flow f) /\
    map_Forall (fun id n => node_typed n /\ doc_node nodes id n) (rf_nodes f) /\ rf_start_node f <> EmptyString /\
    (NoDup (doc_ids nodes) -> (forall id n, rf_nodes f !! id = Some n <-> doc_node nodes id n) /\
       exists ws, rf_nodes f !! rf_start_node f = Some (NodeStart ws)) /\
    (plain 127 doc -> from_str flow_json = Some doc /\ hydrate_flow nodes_json = Some (flow_read f)) /\
    (forall parse_f64 conds values,
       evaluate_flow_conditions parse_f64 (map condition_read conds) values = evaluate_flow_conditions parse_f64 conds values).
Proof using All.
  unfold flow_column_values, extract_rule_flow. destruct (array_at "nodes" doc) as [l |] eqn:El; [| done]. cbn [ok_or result_bind].
  destruct (extract_nodes l ∅ EmptyString) as [[m s] |] eqn:E; [| done]. cbn [result_bind fst snd].
  destruct (String.eqb_spec s EmptyString) as [| Hs]; [done |]. cbn [result_bind]. intros [= <- <-].
  pose proof (extract_nodes_from l m s E) as Hfrom.
  assert (Ht : map_Forall (fun id n => node_typed n /\ doc_node l id n) m).
  { intros id n Hn. pose proof (Hfrom id n Hn) as Hd. split; [| done]. destruct Hd as (node & _ & _ & Hx).
    eapply (extract_node_given (fun _ _ => True)) with (d := 0%nat); [done | done | intros; by apply Forall_true | done | exact Hx]. }
  exists (mkRuleFlow s m), l. split_and!; [done.. | | |]; cbn [rf_nodes rf_start_node].
  - intros Hnd. split; [| by destruct (extract_nodes_start l m s Hnd E)]. intros id n. split; [apply Hfrom |]. apply (extract_nodes_all l ∅ EmptyString m s Hnd E).
  - intros Hp. split; [by apply text_faithful |]. unfold hydrate_flow. rewrite text_faithful; [apply de_flow_ser; intros id n Hn; by apply (Ht id n) |].
    apply (plain_flow 120). intros id n Hn. destruct (Hfrom id n Hn) as (node & Hin & _ & Hx).
    apply (extract_node_given plain plain_mono plain_get plain_items 118 node n); [| exact Hx].
    unfold array_at in El. destruct (tree_get "nodes" doc) as [x |] eqn:Eg; [| done].
    exact (proj1 (Forall_forall _ _) (plain_items _ _ _ (plain_get _ _ _ _ Hp Eg) El) node Hin).
  - intros parse_f64 conds values. apply conditions_read_same.
Qed.
End Parser.

(** * A text form *)

(** A writer and a reader of texts that satisfy what is assumed of them: trees of at most 127
    levels as binary digits. *)
Abbreviation Leaf := (bool + Z + Z + string)%type.
Fixpoint shape (d : nat) (v : Json) : gen_tree Leaf :=
  match v, d with
  | JNull, _ => GenNode 0 []
  | JBool b, _ => GenLeaf (inl (inl (inl b)))
  | JInt z, _ => GenLeaf (inl (inl (inr z)))
  | JFloat f, _ => GenLeaf (inl (inr f))
  | JStr s, _ => GenLeaf (inr s)
  | JArr l, S d => GenNode 1 (map (shape d) l)
  | JObj m, S d => GenNode 2 (map (fun kv => GenNode 3 [GenLeaf (inr kv.1); shape d kv.2]) (map_to_list m))
  | _, O => GenNode 4 []
  end.
Fixpoint unshape (d : nat) (t : gen_tree Leaf) : option Json :=
  match t, d with
  | GenNode 0 _, _ => Some JNull
  | GenLeaf (inl (inl (inl b))), _ => Some (JBool b)
  | GenLeaf (inl (inl (inr z))), _ => Some (JInt z)
  | GenLeaf (inl (inr f)), _ => Some (JFloat f)
  | GenLeaf (inr s), _ => Some (JStr s)
  | GenNode 1 l, S d => JArr <$> mapM (unshape d) l
  | GenNode 2 l, S d => JObj ∘ list_to_map <$> mapM (fun t => match t with GenNode 3 [GenLeaf (inr k); t] => pair k <$> unshape d t | _ => None end) l
  | _, _ => None
  end.
Fixpoint digits (p : positive) : string :=
  match p with xH => EmptyString | xO p => String (Ascii.ascii_of_nat 48) (digits p) | xI p => String (Ascii.ascii_of_nat 49) (digits p) end.
Fixpoint undigits (s : string) : positive :=
  match s with EmptyString => xH | String c s => if Ascii.eqb c (Ascii.ascii_of_nat 48) then xO (undigits s) else xI (undigits s) end.
Definition binary_text (v : Json) : string := digits (encode (shape 127 v)).
Definition binary_read (s : string) : option Json := decode (undigits s) ≫= unshape 127.

Lemma undigits_digits p : undigits (digits p) = p.
Proof. induction p as [p IH | p IH |]; cbn; by rewrite ?IH. Qed.
Lemma unshape_shape to_s from_s d : forall v, plain to_s from_s d v -> unshape d (shape d v) = Some v.
Proof.
  induction d as [| d IH]; intros v Hv; inversion Hv as [| | | | | d0 l Hl | d0 m Hm]; subst; try done; cbn [shape unshape].
  - rewrite mapM_keep; [done |]. eapply Forall_impl; [exact Hl |]. apply IH.
  - rewrite mapM_keep; [cbn; by rewrite list_to_map_to_list |]. apply Forall_forall. intros [k x] Hk. cbn.
    apply elem_of_map_to_list in Hk. by rewrite (IH x (Hm k x Hk)).
Qed.
Lemma binary_faithful v : plain binary_text binary_read 127 v -> binary_read (binary_text v) = Some v.
Proof. intros Hv. unfold binary_read, binary_text. rewrite undigits_digits, decode_encode. cbn [mbind option_bind]. by eapply unshape_shape. Qed.

(** * Samples *)

(** The document of the rule "if X1 > 50 then Y1 := 1", with a comparison with null. *)
Definition limit_doc : Json :=
  obj [("nodes", JArr
    [obj [("id", JStr "start"); ("type", JStr "start"); ("position", obj [("x", JInt 0)]); ("data", obj [("config", obj [("wires", obj [("default", JArr [JStr "switch"])])])])];
     obj [("id", JStr "switch"); ("type", JStr "custom"); ("data", obj [("type", JStr "function-switch"); ("config", obj
       [("variables", JArr [obj [("name", JStr "X1"); ("instance", JInt 23); ("pointType", JStr "measurement"); ("point_id", JInt 4)]]);
        ("rule", JArr [obj [("name", JStr "out1"); ("type", JStr "default"); ("rule", JArr
          [obj [("type", JStr "variable"); ("variables", JStr "X1"); ("operator", JStr ">"); ("value", JInt 50)];
           obj [("type", JStr "variable"); ("variables", JStr "X1"); ("operator", JStr ">"); ("value", JNull)]])]]);
        ("wires", obj [("out1", JArr [JStr "change"])])])])];
     obj [("id", JStr "change"); ("type", JStr "custom"); ("data", obj [("type", JStr "action-changeValue"); ("config", obj
       [("variables", JArr [obj [("name", JStr "Y1"); ("instance", JInt 23); ("pointType", JStr "action"); ("point_id", JInt 4)]]);
        ("rule", JArr [obj [("Variables", JStr "Y1"); ("value", JInt 1)]]); ("wires", obj [("default", JArr [JStr "end"])])])])];
     obj [("id", JStr "end"); ("type", JStr "end")]])].
Definition limit_columns : string * string := match flow_column_values binary_text limit_doc with Ok c => c | Err _ => (EmptyString, EmptyString) end.

Lemma limit_doc_plain : plain binary_text binary_read 127 limit_doc.
Proof.
  unfold limit_doc. repeat match goal with
  | |- plain _ _ _ (obj _) => apply plain_fields
  | |- Forall _ [] => apply Forall_nil
  | |- Forall _ (_ :: _) => apply Forall_cons; split; cbn [snd]
  | |- plain _ _ _ _ => constructor
  end; lia.
Qed.

Lemma accepted_flow_typed_witness : exists f,
  rf_start_node f <> EmptyString /\ (exists ws, rf_nodes f !! rf_start_node f = Some (NodeStart ws)) /\
  binary_read limit_columns.1 = Some limit_doc /\ hydrate_flow binary_read limit_columns.2 = Some (flow_read f).
Proof.
  assert (H : flow_column_values binary_text limit_doc = Ok (limit_columns.1, limit_columns.2)) by (vm_compute; reflexivity).
  destruct (accepted_flow_typed binary_text binary_read binary_faithful limit_doc _ _ H) as (f & nodes & Hn & _ & _ & _ & Hs & Hd & Hr & _).
  exists f. split; [exact Hs |]. split; [| exact (Hr limit_doc_plain)]. apply Hd. vm_compute in Hn. injection Hn as <-.
  apply (bool_decide_unpack _). vm_compute. exact I.
Defined.

(** A node of an unknown type is dropped and the wire to it stays: the document is accepted,
    and every execution of the rule fails at the missing node. *)
Definition delay_doc : Json :=
  obj [("nodes", JArr [obj [("id", JStr "start"); ("type", JStr "start"); ("data", obj [("config", obj [("wires", ser_wires ["delay"])])])];
                       obj [("id", JStr "delay"); ("type", JStr "custom"); ("data", obj [("type", JStr "function-delay")])]])].
Example unknown_node_dropped :
  extract_rule_flow delay_doc = Ok (mkRuleFlow "start" {[ "start" := NodeStart ["delay"] ]}) /\
  run_summary (site_execute site_routes (site_with (Some Delivered) 0) (mkRule 1 "delay" true 0 (mkRuleFlow "start" {[ "start" := NodeStart ["delay"] ]}))) =
    Some (["start"; "delay"], false, [], []).
Proof. vm_compute. split; reflexivity. Qed.

(** A later node with the id of the start node replaces it: the flow starts at its end. *)
Example start_replaced :
  extract_rule_flow
    (obj [("nodes", JArr [obj [("id", JStr "a"); ("type", JStr "start")]; obj [("id", JStr "a"); ("type", JStr "end")]])]) =
  Ok (mkRuleFlow "a" {[ "a" := NodeEnd ]}).
Proof. vm_compute. reflexivity. Qed.
