(* ===== verification/Dispatch.v ===== *)
(** Downlink dispatch: [libs/voltage-rtdb-shm/src/dispatch.rs] (ShmDispatch) and
    [notifier.rs] (ShmNotifier).

    A command is written to its action slot in shared memory and announced to comsrv
    by a notification frame over a Unix socket.  The socket is a list of byte streams,
    one per connection; [NotifyIn] and [DispatchIn] hold what the environment decides:
    instants, whether a connection attempt succeeds, how far each write gets, whether
    the notifier's lock is free, and what comsrv does to the segment between the write
    and the second generation check.  The theorems compose the dispatch with the
    concurrent connection tasks of comsrv's listener (Listener.v): the tasks run over
    the streams the whole run leaves, in every interleaving, which includes those in
    which a task reads an event while the run is still going on. *)
From stdpp Require Import base numbers list gmap strings sorting.
From Stdlib Require Import ZArith Lia.
From S2P Require Import Prelude PointTypes Layout Wire SlotIndex PointWatch ShmStore Routing Listener Reconnect RuleExec.
Local Open Scope Z_scope.
Set Warnings "-clear-no-such-hyp".

#[export] Instance DispatchOutcome_eq_dec : EqDecision DispatchOutcome.
Proof. solve_decision. Defined.

(** * The notifier *)

Record NotifyResult := mkNotifyResult { nr_uds_sent : bool; nr_fallback_used : bool; nr_disabled : bool }.
Definition NotifyResult_sent : NotifyResult := mkNotifyResult true false false.
Definition NotifyResult_degraded : NotifyResult := mkNotifyResult false true false.
Definition NotifyResult_off : NotifyResult := mkNotifyResult false false true.
Definition NotifyResult_is_success (r : NotifyResult) : bool := nr_uds_sent r.
Definition NotifyResult_is_degraded (r : NotifyResult) : bool := nr_fallback_used r.

Record ShmNotifier := mkShmNotifier {
  nf_connected : bool;
  nf_path : string;
  nf_producer_id : Z;
  nf_next_seq : Z;
  nf_last_connect_attempt : option Z;
  nf_backoff_ms : Z;
  nf_reconnect_attempts : Z
}.
Definition NF_MIN_BACKOFF_MS : Z := 1000.
Definition NF_MAX_BACKOFF_MS : Z := 5000.
Definition NF_MAX_RETRIES : nat := 3.

(** [producer_id] is derived from the clock and the process id. *)
Definition new_producer_id (now_nanos process_id : Z) : Z := Z.lxor (wrap 64 now_nanos) (wrap 64 (Z.shiftl process_id 32)).
Definition ShmNotifier_connect (path : string) (producer_id : Z) (connected : bool) (now : Z) : ShmNotifier :=
  mkShmNotifier connected path producer_id 1 (if connected then None else Some now) NF_MIN_BACKOFF_MS 0.
Definition ShmNotifier_disabled (producer_id : Z) : ShmNotifier := mkShmNotifier false "" producer_id 1 None NF_MIN_BACKOFF_MS 0.
Definition ShmNotifier_is_connected (n : ShmNotifier) : bool := nf_connected n.

(** The bytes each connection has carried, the current one last. *)
Definition Connections : Type := list (list Z).
Definition carry (bytes : list Z) (cs : Connections) : Connections :=
  match last cs with Some c => removelast cs ++ [c ++ bytes] | None => cs end.

(** [write_all] delivers everything, or some bytes and an error. *)
Inductive WriteOutcome := Wrote | Failed (delivered : nat).
Record NotifyIn := mkNotifyIn { ni_now : Z; ni_connect : bool; ni_writes : list WriteOutcome; ni_later : Z }.

Definition within_backoff (n : ShmNotifier) (now : Z) : bool :=
  match nf_last_connect_attempt n with Some t => elapsed now t / 1000000 <? nf_backoff_ms n | None => false end.
Definition ShmNotifier_try_reconnect (n : ShmNotifier) (cs : Connections) (i : NotifyIn) : ShmNotifier * Connections :=
  if nf_connected n || String.eqb (nf_path n) "" then (n, cs)
  else if within_backoff n (ni_now i) then (n, cs)
  else if ni_connect i then
    (mkShmNotifier true (nf_path n) (nf_producer_id n) (nf_next_seq n) None NF_MIN_BACKOFF_MS 0, cs ++ [[]])
  else
    (mkShmNotifier false (nf_path n) (nf_producer_id n) (nf_next_seq n) (Some (ni_now i))
       (Z.min (wrap 64 (nf_backoff_ms n * 2)) NF_MAX_BACKOFF_MS) (wrap 32 (nf_reconnect_attempts n + 1)), cs).

(** The retries of one frame; the environment gives each attempt's outcome. *)
Fixpoint send_attempts (retries : nat) (bytes : list Z) (outs : list WriteOutcome) (cs : Connections) : Connections * bool :=
  match retries with
  | O => (cs, false)
  | S retries =>
      match outs with
      | Wrote :: _ => (carry bytes cs, true)
      | Failed n :: outs => send_attempts retries bytes outs (carry (take n bytes) cs)
      | [] => send_attempts retries bytes [] cs
      end
  end.

Definition ShmNotifier_notify (n : ShmNotifier) (cs : Connections) (i : NotifyIn) (channel_id : Z) (pt : PointType)
    (point_id value timestamp_ms : Z) : ShmNotifier * Connections * NotifyResult :=
  if String.eqb (nf_path n) "" then (n, cs, NotifyResult_off)
  else
    let '(n, cs) := ShmNotifier_try_reconnect n cs i in
    if nf_connected n then
      let seq := nf_next_seq n in
      let next_seq := Z.max (wrapping_add 64 seq 1) 1 in
      let bytes := ShmNotification_to_bytes
        (ShmNotification_new channel_id pt point_id value timestamp_ms (nf_producer_id n) seq) in
      let '(cs, ok) := send_attempts NF_MAX_RETRIES bytes (ni_writes i) cs in
      if ok then
        (mkShmNotifier true (nf_path n) (nf_producer_id n) next_seq (nf_last_connect_attempt n) (nf_backoff_ms n) (nf_reconnect_attempts n),
         cs, NotifyResult_sent)
      else
        (mkShmNotifier false (nf_path n) (nf_producer_id n) next_seq (Some (ni_later i)) (nf_backoff_ms n) (nf_reconnect_attempts n),
         cs, NotifyResult_degraded)
    else (n, cs, NotifyResult_degraded).

(** * The dispatch *)

Record ShmDispatch (C K : Type) := mkShmDispatch {
  sd_writer : option (ActionWriter C);
  sd_config : option K;
  sd_notifier : option ShmNotifier;
  sd_expected_generation : Z;
  sd_rebuild : bool
}.
Arguments mkShmDispatch {C K}.
Arguments sd_writer {C K}.
Arguments sd_config {C K}.
Arguments sd_notifier {C K}.
Arguments sd_expected_generation {C K}.
Arguments sd_rebuild {C K}.

Record DispatchIn := mkDispatchIn { di_bump : Segment -> Segment; di_locked : bool; di_notify : NotifyIn }.

Section Dispatch.
Context {C K : Type} `{MS : !MpscSender C PointWatchEvent}.

Definition ShmDispatch_new : ShmDispatch C K := mkShmDispatch None None None 0 false.
Definition ShmDispatch_set_writer (d : ShmDispatch C K) (g : Segment) (w : ActionWriter C) (config : K) : ShmDispatch C K :=
  mkShmDispatch (Some w) (Some (default config (sd_config d))) (sd_notifier d) (SlotWriter_generation g) (sd_rebuild d).
Definition ShmDispatch_set_notifier (d : ShmDispatch C K) (n : ShmNotifier) : ShmDispatch C K * bool :=
  match sd_notifier d with
  | Some _ => (d, false)
  | None => (mkShmDispatch (sd_writer d) (sd_config d) (Some n) (sd_expected_generation d) (sd_rebuild d), true)
  end.
Definition ShmDispatch_is_writer_available (d : ShmDispatch C K) : bool := bool_decide (is_Some (sd_writer d)).
Definition ShmDispatch_is_notifier_configured (d : ShmDispatch C K) : bool := bool_decide (is_Some (sd_notifier d)).

Definition drop_writer (d : ShmDispatch C K) : ShmDispatch C K :=
  mkShmDispatch None (sd_config d) (sd_notifier d) (sd_expected_generation d) true.
Definition put_writer (d : ShmDispatch C K) (w : ActionWriter C) : ShmDispatch C K :=
  mkShmDispatch (Some w) (sd_config d) (sd_notifier d) (sd_expected_generation d) (sd_rebuild d).
Definition put_notifier (d : ShmDispatch C K) (n : ShmNotifier) : ShmDispatch C K :=
  mkShmDispatch (sd_writer d) (sd_config d) (Some n) (sd_expected_generation d) (sd_rebuild d).
Definition generation_changed (d : ShmDispatch C K) (g : Segment) : bool :=
  negb (sd_expected_generation d =? 0) && negb (SlotWriter_generation g =? sd_expected_generation d).

(** The context's point type is a [PointType], so its byte always decodes. *)
Definition notify_step (d : ShmDispatch C K) (cs : Connections) (i : DispatchIn) (ctx : RouteContext) (value : Z)
    : ShmDispatch C K * Connections * DispatchOutcome :=
  match sd_notifier d with
  | None => (d, cs, ShmOnly)
  | Some n =>
      if di_locked i then (d, cs, ShmOnly)
      else
        let '(n, cs, r) := ShmNotifier_notify n cs (di_notify i) (cx_channel_id ctx) (cx_point_type ctx) (cx_point_id ctx) value
                             (wrap 64 (cx_timestamp_ms ctx)) in
        (put_notifier d n, cs, if nr_uds_sent r then Delivered else ShmOnly)
  end.

Definition ShmDispatch_dispatch (d : ShmDispatch C K) (g : Segment) (cs : Connections) (i : DispatchIn) (ctx : RouteContext) (value : Z)
    : outcome (ShmDispatch C K * Segment * Connections * DispatchOutcome) :=
  match sd_writer d with
  | None => Ret (d, g, cs, NoWriter)
  | Some w =>
      if generation_changed d g then Ret (drop_writer d, g, cs, NoWriter)
      else
        let! (mirrored, g, w) := ActionWriter_set_action g w (cx_channel_id ctx) (PointType_to_u8 (cx_point_type ctx)) (cx_point_id ctx) value
                                   (wrap 64 (cx_timestamp_ms ctx)) in
        let d := put_writer d w in
        if negb mirrored then Ret (d, g, cs, MirrorMiss)
        else
          let g := di_bump i g in
          if generation_changed d g then Ret (drop_writer d, g, cs, MirrorMiss)
          else
            let '(d, cs, o) := notify_step d cs i ctx value in
            Ret (d, g, cs, o)
  end.
End Dispatch.

(** * Frames on the wire *)

Definition frames (nss : list (list ShmNotification)) : Connections :=
  map (fun ns => concat (map ShmNotification_to_bytes ns)) nss.
Definition push_frame (n : ShmNotification) (nss : list (list ShmNotification)) : list (list ShmNotification) :=
  match last nss with Some ns => removelast nss ++ [ns ++ [n]] | None => nss end.

Lemma removelast_map {A B} (f : A -> B) l : removelast (map f l) = map f (removelast l).
Proof. induction l as [|a [|b l] IH]; [done | done |]. cbn [map removelast] in *. by rewrite <- IH. Qed.

Lemma last_snoc_split {A} (l : list A) x : last l = Some x -> l = removelast l ++ [x].
Proof.
  intros H. apply last_Some in H as [l' ->]. by rewrite removelast_last.
Qed.

Lemma carry_frames n nss : carry (ShmNotification_to_bytes n) (frames nss) = frames (push_frame n nss).
Proof.
  unfold carry, push_frame, frames. rewrite fmap_last. destruct (last nss) as [ns|] eqn:E; cbn; [| done].
  rewrite removelast_map, map_app. cbn [map]. do 2 f_equal. rewrite map_app, concat_app. cbn. by rewrite app_nil_r.
Qed.

Lemma push_frame_concat n nss : nss <> [] -> concat (push_frame n nss) = concat nss ++ [n] /\ push_frame n nss <> [].
Proof.
  intros Hne. unfold push_frame. destruct (last nss) as [ns|] eqn:E; [| by apply last_None in E].
  rewrite (last_snoc_split _ _ E) at 2. rewrite !concat_app. cbn. rewrite !app_nil_r, (assoc_L (++)).
  split; [done |]. by destruct (removelast nss).
Qed.

Lemma carry_nothing cs : carry [] cs = cs.
Proof. unfold carry. destruct (last cs) as [c|] eqn:E; [| done]. rewrite app_nil_r. by rewrite <- (last_snoc_split _ _ E). Qed.

(** A failed write delivers nothing of its frame. *)
Definition clean (o : WriteOutcome) : Prop := match o with Wrote => True | Failed n => n = 0%nat end.

Lemma send_attempts_clean retries bytes : forall outs cs, Forall clean outs ->
  send_attempts retries bytes outs cs = (carry bytes cs, true) \/ send_attempts retries bytes outs cs = (cs, false).
Proof.
  induction retries as [|retries IH]; intros outs cs Hc; cbn [send_attempts]; [by right |].
  destruct outs as [|[|k] outs]; [by apply IH | by left |]. apply Forall_cons in Hc as [-> Hc].
  rewrite take_0, carry_nothing. by apply IH.
Qed.

(** ** One notification *)

(** Counters are placed from a base [b]: the next one is at [lo] or later. *)
Definition notifier_ok (P b lo : Z) (n : ShmNotifier) (nss : list (list ShmNotification)) : Prop :=
  nf_producer_id n = P /\ (is_uint 64 (nf_next_seq n) /\ lo <= place b (nf_next_seq n)) /\ (nf_connected n = true -> nss <> []).

(** The counter wraps at [2^64] and skips 0. *)
Lemma next_seq_place b q : is_uint 64 q -> place b q + 2 < 2 ^ 64 ->
  let q' := Z.max (wrapping_add 64 q 1) 1 in is_uint 64 q' /\ place b q + 1 <= place b q' <= place b q + 2.
Proof.
  intros Hq Hb. cbv zeta. pose proof (place_nonneg b q) as H0.
  assert (Hd : forall d, 0 <= d <= 2 -> wrap 64 (q + d - b) = place b q + d).
  { intros d Hd. unfold place, wrapping_sub, wrap in *. rewrite <- (Z.mod_small ((q - b) mod 2 ^ 64 + d) (2 ^ 64)) by lia.
    rewrite Zplus_mod_idemp_l. f_equal. lia. }
  unfold wrapping_add, is_uint in *. destruct (Z.eq_dec q (2 ^ 64 - 1)) as [-> | Hne].
  - change (Z.max (wrap 64 (2 ^ 64 - 1 + 1)) 1) with 1. split; [lia |].
    assert (E : place b 1 = wrap 64 (2 ^ 64 - 1 + 2 - b)).
    { unfold place, wrapping_sub, wrap. replace (2 ^ 64 - 1 + 2 - b) with (1 - b + 1 * 2 ^ 64) by lia. by rewrite Z.mod_add. }
    rewrite E, Hd by lia. lia.
  - rewrite wrap_small by (unfold is_uint; lia). rewrite Z.max_l by lia. split; [lia |].
    change (place b (q + 1)) with (wrap 64 (q + 1 - b)). rewrite Hd by lia. lia.
Qed.

Lemma try_reconnect_spec P b lo n nss i n' cs : notifier_ok P b lo n nss ->
  ShmNotifier_try_reconnect n (frames nss) i = (n', cs) ->
  exists nss', cs = frames nss' /\ concat nss' = concat nss /\ notifier_ok P b lo n' nss' /\ nf_next_seq n' = nf_next_seq n.
Proof.
  intros (HP & Hlo & Hc) H. unfold ShmNotifier_try_reconnect in H.
  destruct (nf_connected n || String.eqb (nf_path n) ""); [simplify_eq; by exists nss |].
  destruct (within_backoff n (ni_now i)); [simplify_eq; by exists nss |].
  destruct (ni_connect i); simplify_eq; [| by exists nss].
  exists (nss ++ [[]]). split; [unfold frames; by rewrite map_app |]. rewrite concat_app, app_nil_r. split; [done |].
  split; [| done]. split; [done |]. split; [done |]. intros _ Hn. by apply app_nil in Hn as [_ ?].
Qed.

Lemma notify_spec P b lo n nss i ch pt p v ts n' cs r : notifier_ok P b lo n nss -> place b (nf_next_seq n) + 2 < 2 ^ 64 -> Forall clean (ni_writes i) ->
  ShmNotifier_notify n (frames nss) i ch pt p v ts = (n', cs, r) ->
  exists nss', cs = frames nss' /\ place b (nf_next_seq n') <= place b (nf_next_seq n) + 2 /\
    if nr_uds_sent r
    then concat nss' = concat nss ++ [ShmNotification_new ch pt p v ts P (nf_next_seq n)] /\ notifier_ok P b (place b (nf_next_seq n) + 1) n' nss'
    else concat nss' = concat nss /\ notifier_ok P b lo n' nss'.
Proof.
  intros Hn Hb Hcl H. unfold ShmNotifier_notify in H. destruct (String.eqb (nf_path n) ""); [simplify_eq; exists nss; split; [done |]; split; [lia | done] |].
  destruct (ShmNotifier_try_reconnect n (frames nss) i) as [n1 cs1] eqn:Er.
  destruct (try_reconnect_spec _ _ _ _ _ _ _ _ Hn Er) as (nss1 & -> & Hcat & Hn1 & Hseq). pose proof Hn1 as (HP & [Hu Hl1] & Hc1).
  destruct (nf_connected n1) eqn:Ec; [| simplify_eq; exists nss1; split; [done |]; split; [rewrite Hseq; lia | done]].
  rewrite HP, Hseq in H. rewrite Hseq in Hu, Hl1. destruct (next_seq_place b (nf_next_seq n) Hu Hb) as [Hnu Hnp].
  set (next := Z.max (wrapping_add 64 (nf_next_seq n) 1) 1) in *. set (m := ShmNotification_new ch pt p v ts P (nf_next_seq n)) in *.
  destruct (send_attempts_clean NF_MAX_RETRIES (ShmNotification_to_bytes m) (ni_writes i) (frames nss1) Hcl) as [Hs | Hs];
    rewrite Hs in H; injection H as <- <- <-; cbn [nf_next_seq nr_uds_sent NotifyResult_sent NotifyResult_degraded].
  - destruct (push_frame_concat m nss1 (Hc1 eq_refl)) as [Hpush Hne]. exists (push_frame m nss1).
    rewrite carry_frames, Hpush, Hcat. split; [done |]. split; [lia |]. split; [done |]. split; [done |]. split; [split; [done | cbn; lia] |]. intros _. exact Hne.
  - exists nss1. split; [done |]. split; [lia |]. split; [done |]. split; [done |]. split; [split; [done | cbn; lia] | done].
Qed.

(** * A run of dispatches *)

Section Run.
Context {C K : Type} `{MS : !MpscSender C PointWatchEvent}.
Variable cps : ChannelPointCounts.
Hypothesis Hcps : counts_wf cps.

Abbreviation request := (DispatchIn * RouteContext * Z)%type.
Fixpoint dispatch_run (d : ShmDispatch C K) (g : Segment) (cs : Connections) (xs : list request)
    : outcome (ShmDispatch C K * Segment * Connections * list DispatchOutcome) :=
  match xs with
  | [] => Ret (d, g, cs, [])
  | (i, ctx, v) :: xs =>
      let! (d, g, cs, o) := ShmDispatch_dispatch d g cs i ctx v in
      let! (d, g, cs, os) := dispatch_run d g cs xs in
      Ret (d, g, cs, o :: os)
  end.

(** The requests delivered, with the notification of each under its counter. *)
Fixpoint delivered_values (xs : list request) (os : list DispatchOutcome) : list (RouteContext * Z) :=
  match xs, os with
  | (_, ctx, v) :: xs, Delivered :: os => (ctx, v) :: delivered_values xs os
  | _ :: xs, _ :: os => delivered_values xs os
  | _, _ => []
  end.
Definition notification_of (P : Z) (cv : RouteContext * Z) (seq : Z) : ShmNotification :=
  ShmNotification_new (cx_channel_id cv.1) (cx_point_type cv.1) (cx_point_id cv.1) cv.2 (wrap 64 (cx_timestamp_ms cv.1)) P seq.

Definition ctx_ok (ctx : RouteContext) : Prop := is_uint 32 (cx_channel_id ctx) /\ is_uint 32 (cx_point_id ctx).
(** What the environment may do: failed writes deliver nothing, and comsrv leaves the
    segment a segment of the configuration. *)
Definition request_ok (x : request) : Prop :=
  let '(i, ctx, v) := x in
  ctx_ok ctx /\ is_uint 64 v /\ Forall clean (ni_writes (di_notify i)) /\
  forall g (w : UnifiedWriter C), unified_wf cps g w -> unified_wf cps (di_bump i g) w.

Definition writer_ok (g : Segment) (o : option (ActionWriter C)) : Prop :=
  match o with Some a => unified_wf cps g (aw_writer a) /\ signaler_ok (uw_point_watch (aw_writer a)) | None => True end.
Definition dispatch_inv (P b lo hi : Z) (d : ShmDispatch C K) (g : Segment) (nss : list (list ShmNotification)) : Prop :=
  writer_ok g (sd_writer d) /\ exists n, sd_notifier d = Some n /\ notifier_ok P b lo n nss /\ place b (nf_next_seq n) <= hi.

Lemma set_action_ok g (a : ActionWriter C) ch t p v ts :
  unified_wf cps g (aw_writer a) -> signaler_ok (uw_point_watch (aw_writer a)) -> is_uint 32 ch -> is_uint 8 t -> is_uint 32 p ->
  exists ok g' a', ActionWriter_set_action g a ch t p v ts = Ret (ok, g', a') /\ writer_ok g' (Some a') /\ (ok = true -> t = 2 \/ t = 3).
Proof using Hcps.
  intros Hwf Hsig Hch Ht Hp. unfold ActionWriter_set_action, UnifiedWriter_set_action.
  destruct (negb (t =? 2) && negb (t =? 3)) eqn:Et.
  { eexists _, _, _. split; [reflexivity |]. by destruct a. }
  rewrite unified_set_unfold. destruct (layouts_lookup (uw_channel_layouts (aw_writer a)) ch t p) as [slot|] eqn:El.
  - pose proof (uwf_layout _ _ _ Hwf) as Hal.
    assert (Hlt : (slot < sw_slot_count (uw_inner (aw_writer a)))%nat)
      by (eapply (layout_aliases_none cps _ _ Hcps Hal ch t p ch t p slot); done).
    destruct (unified_set_direct_spec cps g (aw_writer a) slot v v ts Hwf Hsig Hlt) as (g' & w' & -> & Hwf' & Hsig' & _).
    eexists _, _, _. split; [reflexivity |]. split; [done |]. intros _. apply andb_false_iff in Et as [E | E]; bool_hyps; lia.
  - eexists _, _, _. split; [reflexivity |]. split; [by destruct a | done].
Qed.

Lemma dispatch_step P b lo hi d g nss i ctx v : dispatch_inv P b lo hi d g nss -> hi + 2 < 2 ^ 63 -> request_ok (i, ctx, v) ->
  exists d' g' nss' o, ShmDispatch_dispatch d g (frames nss) i ctx v = Ret (d', g', frames nss', o) /\
    match o with
    | Delivered => (cx_point_type ctx = Control \/ cx_point_type ctx = Adjustment) /\ exists seq, is_uint 64 seq /\ lo <= place b seq <= hi /\
        concat nss' = concat nss ++ [notification_of P (ctx, v) seq] /\ dispatch_inv P b (place b seq + 1) (hi + 2) d' g' nss'
    | _ => concat nss' = concat nss /\ dispatch_inv P b lo (hi + 2) d' g' nss'
    end.
Proof using Hcps.
  intros (Hw & n & Hn & Hnok & Hhi) Hb ([Hch Hp] & Hv & Hcl & Hbump). unfold ShmDispatch_dispatch.
  assert (Hkeep : forall (d' : ShmDispatch C K) g', writer_ok g' (sd_writer d') -> sd_notifier d' = Some n -> dispatch_inv P b lo (hi + 2) d' g' nss).
  { intros d' g' H1 H2. split; [done |]. exists n. split; [done |]. split; [done | lia]. }
  destruct (sd_writer d) as [w|] eqn:Ew; [| exists d, g, nss, NoWriter; split; [done |]; split; [done |]; apply Hkeep; [by rewrite Ew | done]].
  destruct (generation_changed d g); [exists (drop_writer d), g, nss, NoWriter; split; [done |]; split; [done |]; by apply Hkeep |]. destruct Hw as [Hwf Hsig].
  assert (Ht8 : is_uint 8 (PointType_to_u8 (cx_point_type ctx))) by (destruct (cx_point_type ctx); split; cbn; lia).
  destruct (set_action_ok g w (cx_channel_id ctx) _ (cx_point_id ctx) v (wrap 64 (cx_timestamp_ms ctx)) Hwf Hsig Hch Ht8 Hp)
    as (ok & g1 & w1 & -> & [Hw1 Hs1] & Hok). cbn [outcome_bind].
  destruct ok; cbn [negb]; [| eexists _, g1, nss, MirrorMiss; split; [reflexivity |]; split; [done |]; by apply Hkeep].
  assert (Hw2 : writer_ok (di_bump i g1) (Some w1)) by (split; [by apply Hbump | done]).
  destruct (generation_changed (put_writer d w1) (di_bump i g1)); [eexists _, _, nss, MirrorMiss; split; [reflexivity |]; split; [done |]; by apply Hkeep |].
  unfold notify_step. cbn [sd_notifier put_writer]. rewrite Hn.
  destruct (di_locked i); [eexists _, _, nss, ShmOnly; split; [reflexivity |]; split; [done |]; by apply Hkeep |].
  destruct (ShmNotifier_notify n (frames nss) (di_notify i) (cx_channel_id ctx) (cx_point_type ctx) (cx_point_id ctx) v _) as [[n' cs'] r] eqn:E.
  assert (Hnb : place b (nf_next_seq n) + 2 < 2 ^ 64) by (change (2 ^ 64) with (2 * 2 ^ 63); lia).
  destruct (notify_spec P b lo n nss _ _ _ _ _ _ _ _ _ Hnok Hnb Hcl E) as (nss' & -> & Hle & Hr).
  exists (put_notifier (put_writer d w1) n'), (di_bump i g1), nss', (if nr_uds_sent r then Delivered else ShmOnly). split; [done |].
  destruct (nr_uds_sent r).
  - split; [specialize (Hok eq_refl); destruct (cx_point_type ctx); cbn in Hok; auto; lia |]. exists (nf_next_seq n).
    destruct Hnok as (_ & [Hu Hl] & _). split; [done |]. split; [lia |]. split; [apply Hr |]. split; [done |]. exists n'. split; [done |]. split; [apply Hr | lia].
  - split; [apply Hr |]. split; [done |]. exists n'. split; [done |]. split; [apply Hr | lia].
Qed.

Definition place_lt (b x y : Z) : Prop := place b x < place b y.

(** The delivered requests are on the wire in order, under advancing counters. *)
Lemma dispatch_run_frames P b xs : forall lo hi d g nss, dispatch_inv P b lo hi d g nss -> hi + 2 * Z.of_nat (length xs) < 2 ^ 63 ->
  Forall request_ok xs ->
  exists d' g' nss' os seqs, dispatch_run d g (frames nss) xs = Ret (d', g', frames nss', os) /\ length os = length xs /\
    length seqs = length (delivered_values xs os) /\ concat nss' = concat nss ++ zip_with (notification_of P) (delivered_values xs os) seqs /\
    StronglySorted (place_lt b) seqs /\ Forall (fun q => is_uint 64 q /\ lo <= place b q < 2 ^ 63) seqs /\
    Forall (fun cv => (cx_point_type cv.1 = Control \/ cx_point_type cv.1 = Adjustment) /\ ctx_ok cv.1 /\ is_uint 64 cv.2) (delivered_values xs os).
Proof using Hcps.
  induction xs as [|[[i ctx] v] xs IH]; intros lo hi d g nss Hinv Hhi Hxs.
  { exists d, g, nss, [], []. cbn. rewrite app_nil_r. repeat split; constructor. }
  apply Forall_cons in Hxs as [Hx Hxs]. cbn [length] in Hhi.
  destruct (dispatch_step P b lo hi d g nss i ctx v Hinv ltac:(lia) Hx) as (d1 & g1 & nss1 & o & Hd & Ho). cbn [dispatch_run].
  rewrite Hd. cbn [outcome_bind].
  assert (Hskip : o <> Delivered -> concat nss1 = concat nss /\ dispatch_inv P b lo (hi + 2) d1 g1 nss1) by (by destruct o).
  destruct (decide (o = Delivered)) as [-> | Hne].
  - destruct Ho as (Hpt & seq & Hu & Hseq & Hcat & Hinv1).
    destruct (IH (place b seq + 1) (hi + 2) d1 g1 nss1 Hinv1 ltac:(lia) Hxs) as (d2 & g2 & nss2 & os & seqs & -> & Hl & Hls & Hc & Hs & Hq & Hok).
    exists d2, g2, nss2, (Delivered :: os), (seq :: seqs). cbn [outcome_bind delivered_values zip_with length]. split; [done |]. split; [lia |]. split; [lia |].
    split; [rewrite Hc, Hcat, <- (assoc_L (++)); done |]. split; [constructor; [done |]; eapply Forall_impl; [exact Hq | unfold place_lt; cbn; lia] |].
    split; [constructor; [split; [done | lia] |]; eapply Forall_impl; [exact Hq | cbn; intros ? []; split; [done | lia]] |]. destruct Hx as (Hctx & Hv & _). constructor; [done | exact Hok].
  - destruct (Hskip Hne) as [Hcat Hinv1].
    destruct (IH lo (hi + 2) d1 g1 nss1 Hinv1 ltac:(lia) Hxs) as (d2 & g2 & nss2 & os & seqs & -> & Hl & Hls & Hc & Hs & Hq & Hok).
    assert (Hdel : delivered_values ((i, ctx, v) :: xs) (o :: os) = delivered_values xs os) by (by destruct o).
    exists d2, g2, nss2, (o :: os), seqs. cbn [outcome_bind]. rewrite Hdel. split; [done |]. split; [cbn; lia |]. rewrite <- Hcat. done.
Qed.
End Run.

(** * From modsrv to the channel *)

Definition advances (b : Z) (x y : ShmNotification) : Prop := place b (sn_seq x) < place b (sn_seq y).

Lemma sorted_concat {A} (R : A -> A -> Prop) (nss : list (list A)) i a : StronglySorted R (concat nss) -> nss !! i = Some a ->
  StronglySorted R a /\ forall j c x y, (i < j)%nat -> nss !! j = Some c -> x ∈ a -> y ∈ c -> R x y.
Proof.
  intros Hs Hi. rewrite <- (take_drop_middle nss i a Hi), concat_app in Hs. cbn [concat] in Hs.
  apply StronglySorted_app in Hs as (_ & _ & Hs). apply StronglySorted_app in Hs as (Hr & Ha & _). split; [done |].
  intros j c x y Hj Hc Hx Hy. apply Hr; [done |]. apply list_elem_of_In, in_concat. exists c. split; [| by apply list_elem_of_In].
  apply list_elem_of_In. apply (list_elem_of_lookup_2 _ (j - S i)). rewrite lookup_drop. replace (S i + (j - S i))%nat with j by lia. done.
Qed.

(** ** The events of the tasks are those of the connections *)
Lemma logged_event nss y i n f : log_ok nss y -> (i, (n, f)) ∈ sy_log y -> exists ns, nss !! i = Some ns /\ n ∈ ns.
Proof.
  intros Hl Hin. pose proof (lo_logged _ _ Hl _ _ Hin) as Hlt. destruct (lookup_lt_is_Some_2 _ _ Hlt) as [t Ht].
  rewrite (lo_tasks _ _ Hl) in Hlt. destruct (lookup_lt_is_Some_2 _ _ Hlt) as [ns Hns]. exists ns. split; [done |].
  rewrite <- (lo_events _ _ Hl i t ns Ht Hns). apply elem_of_app. left. apply list_elem_of_fmap. exists (n, f). split; [done |]. by apply elem_of_on_conn.
Qed.
Lemma accepted_event nss y i n : log_ok nss y -> (i, n) ∈ sy_accepted y -> exists ns, nss !! i = Some ns /\ n ∈ ns.
Proof.
  intros Hl Hin. pose proof (lo_known _ _ Hl _ _ Hin) as Hlt. destruct (lookup_lt_is_Some_2 _ _ Hlt) as [t Ht].
  rewrite (lo_tasks _ _ Hl) in Hlt. destruct (lookup_lt_is_Some_2 _ _ Hlt) as [ns Hns]. exists ns. split; [done |].
  rewrite <- (lo_events _ _ Hl i t ns Ht Hns). apply elem_of_on_conn in Hin. rewrite (lo_accepted _ _ Hl i t Ht) in Hin.
  apply elem_of_app in Hin as [Hin | Hin]; apply elem_of_app.
  - left. apply list_elem_of_omap in Hin as ([m f] & Hin & He). cbn in He. destruct (passed_filter f); simplify_eq. apply list_elem_of_fmap. by exists (n, f).
  - right. unfold being_sent, in_hand in *. destruct (ct_sending t) as [[m c]|]; [| by apply not_elem_of_nil in Hin].
    apply list_elem_of_singleton in Hin as ->. by left.
Qed.

(** On streams whose counters advance, only a later connection makes an event stale. *)
Lemma stale_behind_reconnect P b nss y i n : listener_inv P b nss y -> StronglySorted (advances b) (concat nss) -> (i, (n, FStale)) ∈ sy_log y ->
  exists j m ns, (i < j)%nat /\ nss !! j = Some ns /\ m ∈ ns /\ (j, m) ∈ sy_accepted y /\ key_of m = key_of n.
Proof.
  intros (Hl & _ & Ha) Hs Hin. destruct (fa_reasons _ _ Ha _ _ _ Hin) as (j & m & Hm & Hk & Hle & Hsame).
  destruct (accepted_event _ _ _ _ Hl Hm) as (ns & Hns & Hmn). destruct (logged_event _ _ _ _ _ Hl Hin) as (ni & Hni & Hnn).
  exists j, m, ns. split; [| done]. destruct (Nat.lt_trichotomy i j) as [| [E | Hlt]]; [done | exfalso..].
  - symmetry in E. destruct (Hsame E) as (l1 & l2 & Hhist & Hm1). subst j.
    assert (Hlt : (i < length (sy_tasks y))%nat) by (by eapply lo_logged). destruct (lookup_lt_is_Some_2 _ _ Hlt) as [t Ht].
    pose proof (lo_events _ _ Hl i t ni Ht Hni) as He. rewrite Hhist, map_app in He. cbn [map fst] in He. rewrite <- (assoc_L (++)) in He. cbn in He.
    destruct (sorted_concat _ _ _ _ Hs Hni) as [Hsi _]. rewrite <- He in Hsi. apply StronglySorted_app in Hsi as (Hr & _).
    specialize (Hr m n Hm1 (list_elem_of_here _ _)). unfold advances in Hr. lia.
  - destruct (sorted_concat _ _ _ _ Hs Hns) as [_ Hr]. specialize (Hr i ni m n Hlt Hni Hmn Hnn). unfold advances in Hr. lia.
Qed.

(** ** The account of the delivered commands *)

(** Why an event of connection [i] ended as it did: handed over, or dropped because its
    value is not finite, because a later command of its point on a later connection was
    accepted first, or by a step of the schedule (no sender registered, channel closed,
    channel full for 50 ms, listener stopped). *)
Definition fate_justified (nss : list (list ShmNotification)) (schedule : list TaskEvent) (y : ListenerSystem)
    (i : nat) (n : ShmNotification) (f : Fate) : Prop :=
  match f with
  | FIgnored => False
  | FInvalid => f64_is_finite (sn_value_bits n) = false
  | FStale => exists j m ns, (i < j)%nat /\ nss !! j = Some ns /\ m ∈ ns /\ (j, m) ∈ sy_accepted y /\ key_of m = key_of n
  | _ => caused_by schedule i f
  end.

Record accounted (nss : list (list ShmNotification)) (schedule : list TaskEvent) (y : ListenerSystem) : Prop := {
  ac_events : forall i ns, nss !! i = Some ns ->
    exists t, sy_tasks y !! i = Some t /\ map fst (on_conn i (sy_log y)) ++ in_hand t = ns;
  ac_only : forall i e, (i, e) ∈ sy_log y -> is_Some (nss !! i);
  ac_fates : forall i n f, (i, (n, f)) ∈ sy_log y -> fate_justified nss schedule y i n f;
  ac_commands : map Some (ls_sent (sy_shared y)) = map (fun h => pair (sn_channel_id h.2) <$> command_for h.2) (handed_events y);
  ac_once : NoDup (map snd (handed_events y));
  ac_progress : exists more, all_done (run_tasks y more)
}.

Lemma run_accounted P b nss schedule : Forall (Forall (from_window P b)) nss -> StronglySorted (advances b) (concat nss) ->
  Forall (fun n => is_Some (ShmNotification_get_point_type n)) (concat nss) ->
  accounted nss schedule (run_tasks (tasks_of nss) schedule).
Proof.
  intros Hw Hs Hpt. pose proof (run_tasks_inv P b nss schedule Hw) as Hinv. pose proof Hinv as (Hl & _ & Ha).
  pose proof (run_orderly P b nss _ Hinv) as Ho. set (y := run_tasks (tasks_of nss) schedule) in *.
  split; [| | | apply Ho | apply Ho | apply tasks_can_finish].
  - intros i ns Hns. destruct (lookup_lt_is_Some_2 (sy_tasks y) i) as [t Ht]; [rewrite (lo_tasks _ _ Hl); by eapply lookup_lt_Some |].
    exists t. split; [done |]. by apply (lo_events _ _ Hl).
  - intros i [n f] Hin. destruct (logged_event _ _ _ _ _ Hl Hin) as (ns & ? & _). by exists ns.
  - intros i n f Hin. assert (Hc : caused_by schedule i f) by (destruct (run_tasks_causes schedule _ _ _ _ Hin) as [[]%not_elem_of_nil | ?]; done).
    pose proof (fa_reasons _ _ Ha i n f Hin) as Hr. destruct f; try done.
    + destruct (logged_event _ _ _ _ _ Hl Hin) as (ns & Hns & Hn). rewrite Forall_forall in Hpt. destruct (Hpt n) as [pt E].
      * apply list_elem_of_In, in_concat. exists ns. split; apply list_elem_of_In; [by eapply list_elem_of_lookup_2 | done].
      * cbn in Hr. by rewrite E in Hr.
    + by eapply stale_behind_reconnect.
Qed.

(** ** The events of a run *)
Lemma delivered_events P b cvs : forall seqs, is_uint 64 P -> length seqs = length cvs -> StronglySorted (place_lt b) seqs ->
  Forall (fun q => is_uint 64 q /\ 0 <= place b q < 2 ^ 63) seqs ->
  Forall (fun cv => (cx_point_type cv.1 = Control \/ cx_point_type cv.1 = Adjustment) /\ ctx_ok cv.1 /\ is_uint 64 cv.2) cvs ->
  let ns := zip_with (notification_of P) cvs seqs in
  map sn_seq ns = seqs /\ Forall notification_wf ns /\ Forall (from_window P b) ns /\
  Forall (fun n => is_Some (ShmNotification_get_point_type n)) ns /\ StronglySorted (advances b) ns.
Proof.
  intros seqs HP Hl Hs Hq Hok. cbv zeta. revert seqs Hl Hs Hq. induction Hok as [|cv cvs (Hpt & [Hch Hp] & Hv) Hok IH]; intros [|q seqs] Hl Hs Hq; try done.
  { split_and!; constructor. }
  apply StronglySorted_cons in Hs as [Hlt Hs]. apply Forall_cons in Hq as [[Hu Hq0] Hq].
  destruct (IH seqs ltac:(cbn in Hl; lia) Hs Hq) as (H1 & H2 & H3 & H4 & H5). cbn [zip_with map]. split; [by rewrite H1 |].
  split; [constructor; [| done] |].
  { unfold notification_of, ShmNotification_new. split; cbn [sn_channel_id sn_point_id sn_point_type sn_padding sn_value_bits sn_timestamp_ms sn_producer_id sn_seq];
      first [done | apply wrap_uint; lia | by destruct (cx_point_type cv.1); split | split; [done | repeat constructor; done]]. }
  split; [constructor; [split; [done |]; split; [done | cbn; lia] | done] |].
  split; [constructor; [| done]; unfold notification_of, ShmNotification_new, ShmNotification_get_point_type; cbn [sn_point_type]; destruct Hpt as [-> | ->]; by eexists |].
  constructor; [done |]. apply Forall_forall. intros n Hn. unfold advances. cbn. rewrite Forall_forall in Hlt. apply Hlt. rewrite <- H1. by apply list_elem_of_fmap_2.
Qed.

Lemma spawn_frames nss : Forall (Forall notification_wf) nss -> spawn_tasks (frames nss) = tasks_of nss.
Proof.
  intros Hwf. unfold spawn_tasks, tasks_of, frames. f_equal. rewrite map_map. induction Hwf as [|ns nss Hns _ IH]; [done |]. cbn [map]. rewrite IH. do 2 f_equal.
  pose proof (read_frames_spec (FR:=notification_frame) ltac:(unfold ShmNotification_SIZE; lia) ns [] Hns) as Hr.
  rewrite app_nil_r in Hr. apply Hr. unfold ShmNotification_SIZE. cbn. lia.
Qed.

(** C13: every command reported as delivered is accounted for at the listener.  For
    every run of fewer than 2^62 dispatches by an action writer of the configuration and
    a notifier not connected yet, at any counter (it may wrap), whatever becomes of connections, locks and
    comsrv's segment (as long as a failed socket write delivers nothing of its frame),
    the run returns, and the connections carry exactly the notifications of the
    dispatches reported as delivered, in order, under distinct counters of the one
    producer.  Then, for every interleaving of the listener's connection tasks and every
    answer of the channels: of each connection, the events with a recorded fate, the one
    being sent and the unread ones are its notifications in order, so each delivered
    command has at most one fate, exactly one when the tasks are done (which they can
    always reach), and nothing else has any; the channels received the commands of the
    events handed over, each at most once; and an event was dropped only because its
    value is not finite, because a later command of its point on a later connection was
    accepted before it, because no sender was registered, the channel was closed or full
    for 50 ms, or because the listener stopped. *)
Theorem delivered_commands_arrive {C K} `{MS : !MpscSender C PointWatchEvent} cps (d : ShmDispatch C K) g a n xs :
  counts_wf cps -> sd_writer d = Some a -> unified_wf cps g (aw_writer a) -> signaler_ok (uw_point_watch (aw_writer a)) ->
  sd_notifier d = Some n -> nf_connected n = false -> is_uint 64 (nf_producer_id n) ->
  is_uint 64 (nf_next_seq n) -> Z.of_nat (length xs) < 2 ^ 62 -> Forall (request_ok (C:=C) cps) xs ->
  exists d' g' nss os seqs, dispatch_run d g [] xs = Ret (d', g', frames nss, os) /\ length os = length xs /\
    length seqs = length (delivered_values xs os) /\ NoDup seqs /\
    concat nss = zip_with (notification_of (nf_producer_id n)) (delivered_values xs os) seqs /\
    forall schedule, accounted nss schedule (run_tasks (spawn_tasks (frames nss)) schedule).
Proof.
  intros Hcps Ha Hwf Hsig Hn Hc HP Hu Hlen Hxs. set (P := nf_producer_id n) in *. set (b := nf_next_seq n) in *.
  assert (Hb : place b b = 0) by (unfold place, wrapping_sub; by rewrite Z.sub_diag).
  assert (Hinv : dispatch_inv cps P b 0 0 d g []).
  { split; [by rewrite Ha |]. exists n. split; [done |]. fold b. split; [split; [done |]; split; [split; [done | fold b; lia] | by rewrite Hc] | lia]. }
  destruct (dispatch_run_frames cps Hcps P b xs 0 0 d g [] Hinv ltac:(change (2 ^ 63) with (2 * 2 ^ 62); lia) Hxs) as (d' & g' & nss & os & seqs & Hrun & Hl & Hls & Hcat & Hs & Hq & Hok).
  destruct (delivered_events P b (delivered_values xs os) seqs HP Hls Hs Hq Hok) as (H1 & H2 & H3 & H4 & H5). cbn [concat app] in Hcat. rewrite <- Hcat in *.
  exists d', g', nss, os, seqs. do 3 (split; [done |]). split.
  - clear -Hs. induction Hs as [|q seqs _ IH Hq]; constructor; [| done]. intros Hin. rewrite Forall_forall in Hq. specialize (Hq q Hin). unfold place_lt in Hq. lia.
  - split; [done |]. intros schedule. rewrite spawn_frames by (by apply Forall_concat). apply (run_accounted P b); [by apply Forall_concat | done | done].
Qed.
(** A failed write that delivered part of its frame, followed by a retry that succeeds:
    the dispatch reports delivery, and the listener, reading misaligned frames, hands
    the channel a command with another value. *)
Definition half_notifier : ShmNotifier := mkShmNotifier true "/tmp/voltage-m2c.sock" 7 1 None NF_MIN_BACKOFF_MS 0.
Definition half_then_whole : NotifyIn := mkNotifyIn 0 true [Failed 20; Wrote] 0.
(** The tasks run one after the other, every send succeeding. *)
Definition in_turn (y : ListenerSystem) : list TaskEvent :=
  concat (imap (fun i t => concat (repeat [TaskReads i; TaskSends i true SendOk] (length (ct_stream t)))) (sy_tasks y)).
Definition sent_values (cs : Connections) : list Z :=
  map (fun c => match c.2 with CmdControl _ _ v _ | CmdAdjustment _ _ v _ => v | _ => 0 end)
    (ls_sent (sy_shared (run_tasks (spawn_tasks cs) (in_turn (spawn_tasks cs))))).
Lemma partial_write_garbles_command :
  let '(_, cs, r) := ShmNotifier_notify half_notifier [[]] half_then_whole 2 Control 1 f64_one 1700000000000 in
  nr_uds_sent r = true /\ sent_values cs = [0x200000000].
Proof. vm_compute. done. Qed.
Lemma clean_retry_arrives :
  let '(_, cs, r) := ShmNotifier_notify half_notifier [[]] (mkNotifyIn 0 true [Failed 0; Wrote] 0) 2 Control 1 f64_one 1700000000000 in
  nr_uds_sent r = true /\ sent_values cs = [f64_one].
Proof. vm_compute. done. Qed.

(** Two commands to control 0 of channel 1, the first lost to a connection failure. *)
Definition sample_notifier : ShmNotifier := ShmNotifier_connect "/tmp/voltage-m2c.sock" 7 false 0.
Definition sample_dispatch : ShmDispatch bounded_queue unit :=
  mkShmDispatch (Some (mkActionWriter sample_writer)) None (Some sample_notifier) 0 false.
Definition sample_ctx : RouteContext := mkRouteContext 1 Control 0 1700000000000.
Definition sample_requests : list (DispatchIn * RouteContext * Z) :=
  [(mkDispatchIn id false (mkNotifyIn 5000000000 true [Failed 0; Failed 0; Failed 0] 5000000000), sample_ctx, f64_zero);
   (mkDispatchIn id false (mkNotifyIn 9000000000 true [Wrote] 9000000000), sample_ctx, f64_one)].

Lemma delivered_commands_arrive_witness :
  exists d' g' nss os seqs, dispatch_run sample_dispatch sample_segment [] sample_requests = Ret (d', g', frames nss, os) /\ length os = 2%nat /\
    length seqs = length (delivered_values sample_requests os) /\ NoDup seqs /\
    concat nss = zip_with (notification_of 7) (delivered_values sample_requests os) seqs /\
    forall schedule, accounted nss schedule (run_tasks (spawn_tasks (frames nss)) schedule).
Proof.
  apply (delivered_commands_arrive sample_counts sample_dispatch sample_segment (mkActionWriter sample_writer) sample_notifier sample_requests).
  - apply sample_counts_wf.
  - reflexivity.
  - apply sample_unified_wf.
  - exact I.
  - reflexivity.
  - reflexivity.
  - split; cbn; lia.
  - split; cbn; lia.
  - cbn. lia.
  - repeat (apply Forall_cons_2; [split; [split; split; cbn; lia |]; split; [split; vm_compute; done |]; split; [repeat constructor | done] |]). constructor.
Defined.
Example sample_second_arrives :
  match dispatch_run sample_dispatch sample_segment [] sample_requests with
  | Ret (_, _, cs, os) => os = [ShmOnly; Delivered] /\ sent_values cs = [f64_one]
  | Panic => False
  end.
Proof. vm_compute. done. Qed.
