(* ===== verification/ChannelTask.v ===== *)
(** The channel task: [services/comsrv/src/core/channels/channel_task.rs], with the
    commands and connection states of [core/channels/types.rs] and
    [protocols/core/traits.rs].

    One task owns the protocol client of a channel and serves protocol commands,
    business commands and poll ticks.  The client is the trait [ChannelRuntime]: a
    class whose operations are the model's parameters.  The task's state is a
    record; what it does to the outside (connecting, publishing, storing, replying)
    is a trace of events.  [tokio::select!] is the order of the inputs; within a
    reconnect backoff the input says whether a command arrives before the delay
    has passed. *)
From stdpp Require Import base numbers list strings.
From Stdlib Require Import ZArith Lia.
From S2P Require Import Prelude Listener Reconnect.
Local Open Scope Z_scope.
Set Warnings "-clear-no-such-hyp".

(** * Data *)

(** [protocols::core::traits::ConnectionState]. *)
Inductive ConnState := CsDisconnected | CsConnecting | CsConnected | CsReconnecting | CsError.

(** [core::channels::types::ConnectionState]. *)
Inductive ChannelConnState :=
| ChUninitialized | ChInitializing | ChConnecting | ChConnected | ChDisconnected | ChRetrying | ChClosed | ChFailed.

Definition ConnState_is_connected (c : ConnState) : bool := match c with CsConnected => true | _ => false end.

Definition ChannelConnState_from (c : ConnState) : ChannelConnState :=
  match c with
  | CsConnected => ChConnected
  | CsConnecting => ChConnecting
  | CsReconnecting => ChRetrying
  | CsDisconnected => ChDisconnected
  | CsError => ChFailed
  end.

Definition ChannelConnState_as_u8 (c : ChannelConnState) : Z :=
  match c with
  | ChUninitialized => 0 | ChInitializing => 1 | ChConnecting => 2 | ChConnected => 3
  | ChDisconnected => 4 | ChRetrying => 5 | ChClosed => 6 | ChFailed => 7
  end.

Inductive LogConfig := LogAll | LogDefault | LogErrorsOnly.

(** The reply channels of the source are the [EvReply] events below. *)
Inductive ProtocolCommand :=
| PcWriteControl (internal_id value : Z)
| PcWriteAdjustment (internal_id value : Z)
| PcConnect
| PcDisconnect
| PcGetDiagnostics
| PcGetConnectionState
| PcSetLogLevel (level : string)
| PcShutdown.

Inductive TickAction := TickContinue | TickBreak | TickProceed.

Inductive Reply :=
| ReplyWrite (r : option Z)
| ReplyNotConnected
| ReplyConnect (ok : bool)
| ReplyDisconnect
| ReplyDiagnostics (error_count : option Z)
| ReplyState (s : ChannelConnState)
| ReplyLog (ok : bool).

(** What the task needs of a protocol client.  [rt_connect_hangs p] is the client
    after a connect that did not finish within the 30 s timeout was dropped. *)
Class ChannelRuntime (P D : Type) := {
  rt_connection_state : P -> ConnState;
  rt_connect : P -> P * bool;
  rt_connect_hangs : P -> option P;
  rt_disconnect : P -> P;
  rt_poll_once : P -> P * list D * nat;
  rt_write_control : P -> list (Z * Z) -> P * option Z;
  rt_write_adjustment : P -> list (Z * Z) -> P * option Z;
  rt_diagnostics : P -> option Z;
  rt_set_log_config : P -> LogConfig -> P;
}.

Inductive TaskEvent (D : Type) :=
| EvConnect (ok : bool)
| EvDisconnect
| EvOnline (online : bool)
| EvBatch (data : list D)
| EvWrite (points : list (Z * Z))
| EvLogLevel (level : string)
| EvReply (r : Reply).
Arguments EvConnect {D} ok.
Arguments EvDisconnect {D}.
Arguments EvOnline {D} online.
Arguments EvBatch {D} data.
Arguments EvWrite {D} points.
Arguments EvLogLevel {D} level.
Arguments EvReply {D} r.

(** The shared cells a tick writes. *)
Record TaskCells := mkTaskCells {
  tc_cached_state : Z;
  tc_cached_errors : option Z;
  tc_heartbeat_ms : Z;
  tc_total_attempts : Z;
  tc_reconnect_failed : bool;
  tc_last_read_ms : Z;
}.

Record TaskState (P D : Type) := mkTaskState {
  ts_proto : P;
  ts_helper : ReconnectHelper;
  ts_prev_online : option bool;
  ts_prev_errors : Z;
  ts_zero_data : Z;
  ts_failed_ticks : Z;
  ts_cells : TaskCells;
  ts_trace : list (TaskEvent D);
}.
Arguments mkTaskState {P D}.
Arguments ts_proto {P D}.
Arguments ts_helper {P D}.
Arguments ts_prev_online {P D}.
Arguments ts_prev_errors {P D}.
Arguments ts_zero_data {P D}.
Arguments ts_failed_ticks {P D}.
Arguments ts_cells {P D}.
Arguments ts_trace {P D}.

(** Times of a tick: at its start, after the backoff and the connect, and the wall
    clock in milliseconds; and the command that interrupts the backoff, if any. *)
Record TickInput := mkTickInput {
  ti_now : Z;
  ti_later : Z;
  ti_wall_ms : Z;
  ti_cmd : option ProtocolCommand;
}.

Inductive TaskInput :=
| InProtocol (cmd : ProtocolCommand)
| InBusiness (cmd : ChannelCommand)
| InTick (i : TickInput).

(** * Operations *)

Section Task.
Context {P D : Type} {RT : ChannelRuntime P D}.
(** [ctx.zero_data_threshold]. *)
Variable zero_data_threshold : Z.
Abbreviation state := (TaskState P D).

Definition set_proto (s : state) (p : P) : state :=
  mkTaskState p (ts_helper s) (ts_prev_online s) (ts_prev_errors s) (ts_zero_data s) (ts_failed_ticks s) (ts_cells s) (ts_trace s).
Definition set_helper (s : state) (h : ReconnectHelper) : state :=
  mkTaskState (ts_proto s) h (ts_prev_online s) (ts_prev_errors s) (ts_zero_data s) (ts_failed_ticks s) (ts_cells s) (ts_trace s).
Definition set_prev_online (s : state) (o : option bool) : state :=
  mkTaskState (ts_proto s) (ts_helper s) o (ts_prev_errors s) (ts_zero_data s) (ts_failed_ticks s) (ts_cells s) (ts_trace s).
Definition set_prev_errors (s : state) (n : Z) : state :=
  mkTaskState (ts_proto s) (ts_helper s) (ts_prev_online s) n (ts_zero_data s) (ts_failed_ticks s) (ts_cells s) (ts_trace s).
Definition set_zero_data (s : state) (n : Z) : state :=
  mkTaskState (ts_proto s) (ts_helper s) (ts_prev_online s) (ts_prev_errors s) n (ts_failed_ticks s) (ts_cells s) (ts_trace s).
Definition set_failed_ticks (s : state) (n : Z) : state :=
  mkTaskState (ts_proto s) (ts_helper s) (ts_prev_online s) (ts_prev_errors s) (ts_zero_data s) n (ts_cells s) (ts_trace s).
Definition set_cells (s : state) (f : TaskCells -> TaskCells) : state :=
  mkTaskState (ts_proto s) (ts_helper s) (ts_prev_online s) (ts_prev_errors s) (ts_zero_data s) (ts_failed_ticks s) (f (ts_cells s)) (ts_trace s).
Definition emit_event (s : state) (e : TaskEvent D) : state :=
  mkTaskState (ts_proto s) (ts_helper s) (ts_prev_online s) (ts_prev_errors s) (ts_zero_data s) (ts_failed_ticks s) (ts_cells s) (ts_trace s ++ [e]).

Definition cell_state (v : Z) (c : TaskCells) : TaskCells :=
  mkTaskCells v (tc_cached_errors c) (tc_heartbeat_ms c) (tc_total_attempts c) (tc_reconnect_failed c) (tc_last_read_ms c).
Definition cell_errors (v : option Z) (c : TaskCells) : TaskCells :=
  mkTaskCells (tc_cached_state c) v (tc_heartbeat_ms c) (tc_total_attempts c) (tc_reconnect_failed c) (tc_last_read_ms c).
Definition cell_heartbeat (v : Z) (c : TaskCells) : TaskCells :=
  mkTaskCells (tc_cached_state c) (tc_cached_errors c) v (tc_total_attempts c) (tc_reconnect_failed c) (tc_last_read_ms c).
Definition cell_total (v : Z) (c : TaskCells) : TaskCells :=
  mkTaskCells (tc_cached_state c) (tc_cached_errors c) (tc_heartbeat_ms c) v (tc_reconnect_failed c) (tc_last_read_ms c).
Definition cell_failed (v : bool) (c : TaskCells) : TaskCells :=
  mkTaskCells (tc_cached_state c) (tc_cached_errors c) (tc_heartbeat_ms c) (tc_total_attempts c) v (tc_last_read_ms c).
Definition cell_last_read (v : Z) (c : TaskCells) : TaskCells :=
  mkTaskCells (tc_cached_state c) (tc_cached_errors c) (tc_heartbeat_ms c) (tc_total_attempts c) (tc_reconnect_failed c) v.

Definition is_online (p : P) : bool := ConnState_is_connected (rt_connection_state p).

Definition update_cached_state (s : state) : state :=
  set_cells s (cell_state (ChannelConnState_as_u8 (ChannelConnState_from (rt_connection_state (ts_proto s))))).

Definition check_online_change (s : state) : state :=
  let current_online := is_online (ts_proto s) in
  if decide (ts_prev_online s = Some current_online) then s
  else emit_event (set_prev_online s (Some current_online)) (EvOnline current_online).

(** The pair of calls that ends every branch of a tick. *)
Definition refresh (s : state) : state := check_online_change (update_cached_state s).

Definition apply_log_level (s : state) (level : string) : state * bool :=
  let l := map_string ascii_lower level in
  if one_of l ["debug"; "verbose"]%string then
    (emit_event (set_proto s (rt_set_log_config (ts_proto s) LogAll)) (EvLogLevel "debug"), true)
  else if one_of l ["info"; "standard"]%string then
    (emit_event (set_proto s (rt_set_log_config (ts_proto s) LogDefault)) (EvLogLevel "info"), true)
  else if one_of l ["error"; "minimal"]%string then
    (emit_event (set_proto s (rt_set_log_config (ts_proto s) LogErrorsOnly)) (EvLogLevel "info"), true)
  else (s, false).

(** [protocol.connect().await] without a timeout. *)
Definition do_connect (s : state) : state * bool :=
  let '(p, ok) := rt_connect (ts_proto s) in (emit_event (set_proto s p) (EvConnect ok), ok).

Definition do_disconnect (s : state) : state := emit_event (set_proto s (rt_disconnect (ts_proto s))) EvDisconnect.

(** [tokio::time::timeout(30 s, protocol.connect())]: a timeout is a failure. *)
Definition connect_with_timeout (s : state) : state * bool :=
  match rt_connect_hangs (ts_proto s) with
  | Some p => (emit_event (set_proto s p) (EvConnect false), false)
  | None => do_connect s
  end.

Definition reply (s : state) (r : Reply) : state := emit_event s (EvReply r).

(** Commands answered the same way by both handlers. *)
Definition answer_query (s : state) (cmd : ProtocolCommand) : state :=
  match cmd with
  | PcGetConnectionState => reply s (ReplyState (ChannelConnState_from (rt_connection_state (ts_proto s))))
  | PcGetDiagnostics => reply s (ReplyDiagnostics (rt_diagnostics (ts_proto s)))
  | PcSetLogLevel level => let '(s, ok) := apply_log_level s level in reply s (ReplyLog ok)
  | PcDisconnect => reply (do_disconnect s) ReplyDisconnect
  | _ => s
  end.

Definition handle_backoff_command (s : state) (cmd : ProtocolCommand) (now : Z) : state * option TickAction :=
  match cmd with
  | PcShutdown => (s, Some TickBreak)
  | PcConnect =>
      let '(s, ok) := do_connect s in
      let s := if ok then set_failed_ticks (set_helper s (ReconnectHelper_mark_connected (ts_helper s) now)) 0 else s in
      (reply s (ReplyConnect ok), None)
  | PcWriteControl _ _ | PcWriteAdjustment _ _ => (reply s ReplyNotConnected, None)
  | _ => (answer_query s cmd, None)
  end.

(** Returns [true] when the task must exit. *)
Definition handle_protocol_command (s : state) (cmd : ProtocolCommand) : state * bool :=
  match cmd with
  | PcWriteControl id value =>
      let '(p, r) := rt_write_control (ts_proto s) [(id, value)] in
      (reply (emit_event (set_proto s p) (EvWrite [(id, value)])) (ReplyWrite r), false)
  | PcWriteAdjustment id value =>
      let '(p, r) := rt_write_adjustment (ts_proto s) [(id, value)] in
      (reply (emit_event (set_proto s p) (EvWrite [(id, value)])) (ReplyWrite r), false)
  | PcConnect => let '(s, ok) := do_connect s in (reply s (ReplyConnect ok), false)
  | PcShutdown => (do_disconnect s, true)
  | _ => (answer_query s cmd, false)
  end.

Definition handle_business_command (s : state) (cmd : ChannelCommand) : state :=
  let control points := emit_event (set_proto s (rt_write_control (ts_proto s) points).1) (EvWrite points) in
  let adjust points := emit_event (set_proto s (rt_write_adjustment (ts_proto s) points).1) (EvWrite points) in
  match cmd with
  | CmdControl _ point_id value _ => control [(point_id, value)]
  | CmdAdjustment _ point_id value _ => adjust [(point_id, value)]
  | CmdBatchControl _ points _ => control points
  | CmdBatchAdjustment _ points _ => adjust points
  end.

(** The reconnection itself, after the backoff. *)
Definition attempt_reconnect (s : state) (now : Z) : state :=
  let '(s, ok) := connect_with_timeout s in
  if ok then
    set_failed_ticks
      (set_cells (set_helper s (ReconnectHelper_mark_connected (ts_helper s) now)) (cell_failed false)) 0
  else set_helper s (ReconnectHelper_record_failure (ts_helper s) now).

(** The arm for [Connected | Disconnected]. *)
Definition start_attempt (s : state) (i : TickInput) : state * TickAction :=
  let s := if decide (ReconnectHelper_connection_state (ts_helper s) = RConnected)
           then set_helper s (ReconnectHelper_mark_disconnected (ts_helper s)) else s in
  let '(h, allowed) := ReconnectHelper_record_attempt (ts_helper s) (ti_now i) in
  let s := set_helper s h in
  if negb allowed then (refresh s, TickContinue)
  else
    let backoff := 1 <? rs_total_attempts (rh_stats h) in
    match (if backoff then ti_cmd i else None) with
    | Some cmd =>
        let '(s, action) := handle_backoff_command s cmd (ti_later i) in
        (refresh s, default TickContinue action)
    | None => (refresh (attempt_reconnect s (ti_later i)), TickContinue)
    end.

Definition handle_disconnected (s : state) (i : TickInput) : state * TickAction :=
  let s := set_cells s (cell_total (rs_total_attempts (rh_stats (ts_helper s)))) in
  match ReconnectHelper_connection_state (ts_helper s) with
  | RFailed =>
      let s := set_cells s (cell_failed true) in
      let '(h, recovered) := ReconnectHelper_check_auto_recovery (ts_helper s) (ti_now i) in
      let s := set_helper s h in
      if recovered then (refresh (set_failed_ticks (set_cells s (cell_failed false)) 0), TickContinue)
      else (refresh (set_failed_ticks s (wrap 32 (ts_failed_ticks s + 1))), TickContinue)
  | RReconnecting => (s, TickContinue)
  | RConnected | RDisconnected => start_attempt s i
  end.

(** Step 3 and the diagnostics of a connected tick. *)
Definition poll_data (s : state) (i : TickInput) : state * TickAction :=
  let '(p, data, _) := rt_poll_once (ts_proto s) in
  let s := set_proto s p in
  let finish s :=
    let s := match rt_diagnostics (ts_proto s) with
             | Some error_count =>
                 let s := if ts_prev_errors s <? error_count then set_prev_errors s error_count else s in
                 set_cells s (cell_errors (Some error_count))
             | None => s
             end in
    (refresh s, TickProceed) in
  match data with
  | _ :: _ => finish (emit_event (set_cells (set_zero_data s 0) (cell_last_read (ti_wall_ms i))) (EvBatch data))
  | [] =>
      if 0 <? zero_data_threshold then
        let s := set_zero_data s (wrap 32 (ts_zero_data s + 1)) in
        if zero_data_threshold <=? ts_zero_data s
        then (refresh (set_zero_data (do_disconnect s) 0), TickProceed)
        else finish s
      else finish s
  end.

Definition handle_poll_tick (s : state) (i : TickInput) : state * TickAction :=
  let s := set_cells s (cell_heartbeat (ti_wall_ms i)) in
  if negb (is_online (ts_proto s)) then handle_disconnected s i
  else
    let s := if decide (ReconnectHelper_connection_state (ts_helper s) = RConnected) then s
             else set_cells (set_failed_ticks (set_helper s (ReconnectHelper_mark_connected (ts_helper s) (ti_now i))) 0)
                    (cell_failed false) in
    poll_data s i.

(** One iteration of the loop; [true] leaves it. *)
Definition task_step (s : state) (input : TaskInput) : state * bool :=
  match input with
  | InProtocol PcShutdown => (s, true)
  | InProtocol cmd => handle_protocol_command s cmd
  | InBusiness cmd => (handle_business_command s cmd, false)
  | InTick i =>
      let '(s, action) := handle_poll_tick s i in
      (s, match action with TickBreak => true | _ => false end)
  end.

Fixpoint task_loop (s : state) (inputs : list TaskInput) : state * bool :=
  match inputs with
  | [] => (s, false)
  | input :: inputs =>
      let '(s, stop) := task_step s input in
      if stop then (s, true) else task_loop s inputs
  end.

(** After the loop. *)
Definition task_exit (s : state) : state :=
  emit_event (set_cells (do_disconnect s) (cell_state (ChannelConnState_as_u8 ChDisconnected))) (EvOnline false).

(** The cells are created by the channel entry. *)
Definition task_init (p : P) (cells : TaskCells) (policy : ReconnectPolicy) (recovery : option AutoRecoveryPolicy)
    : state :=
  let helper := ReconnectHelper_new policy in
  let helper := match recovery with
                | Some ar => ReconnectHelper_with_auto_recovery helper ar
                | None => helper
                end in
  refresh (mkTaskState p helper None 0 0 0 cells []).

Definition run_unified_channel_task (p : P) (cells : TaskCells) (policy : ReconnectPolicy) (recovery : option AutoRecoveryPolicy)
    (inputs : list TaskInput) : state :=
  let '(s, stopped) := task_loop (task_init p cells policy recovery) inputs in
  if stopped then task_exit s else s.

(** * Published connection state *)

Definition onlines (tr : list (TaskEvent D)) : list bool :=
  omap (fun e => match e with EvOnline b => Some b | _ => None end) tr.
Definition connects (tr : list (TaskEvent D)) : list bool :=
  omap (fun e => match e with EvConnect b => Some b | _ => None end) tr.

(** No two consecutive values are equal. *)
Definition alternates (l : list bool) : Prop := forall i b, l !! i = Some b -> l !! S i <> Some b.

(** The task remembers the last value it published. *)
Definition online_inv (s : state) : Prop :=
  last (onlines (ts_trace s)) = ts_prev_online s /\ alternates (onlines (ts_trace s)).

Lemma alternates_snoc l b : alternates l -> last l <> Some b -> alternates (l ++ [b]).
Proof.
  intros Hl Hlast i c Hi Hs. apply lookup_app_Some in Hi as [Hi | [Hge Hi]].
  - apply lookup_app_Some in Hs as [Hs | [Hge Hs]]; [by apply (Hl i c) |].
    apply lookup_lt_Some in Hi as Hlt. assert (S i = length l) as Hend by lia.
    rewrite Hend, Nat.sub_diag in Hs. injection Hs as ->. apply Hlast.
    rewrite last_lookup, <- Hend. exact Hi.
  - apply lookup_lt_Some in Hs. rewrite length_app in Hs. cbn in Hs. lia.
Qed.

Lemma onlines_snoc tr e : onlines (tr ++ [e]) = onlines tr ++ (match e with EvOnline b => [b] | _ => [] end).
Proof. unfold onlines. rewrite omap_app. by destruct e. Qed.

Lemma connects_snoc tr e : connects (tr ++ [e]) = connects tr ++ (match e with EvConnect b => [b] | _ => [] end).
Proof. unfold connects. rewrite omap_app. by destruct e. Qed.

Lemma inv_emit s e : (forall b, e <> EvOnline b) -> online_inv s -> online_inv (emit_event s e).
Proof.
  intros He [Hl Ha]. unfold online_inv. cbn [ts_trace ts_prev_online emit_event]. rewrite onlines_snoc.
  destruct e; try (by rewrite app_nil_r). by destruct (He online).
Qed.

Lemma inv_refresh s : online_inv s -> online_inv (refresh s).
Proof.
  unfold refresh, check_online_change. intros [Hl Ha]. cbn [ts_prev_online ts_proto update_cached_state set_cells].
  case_decide as Heq; [done |]. unfold online_inv. cbn [ts_trace ts_prev_online emit_event set_prev_online].
  rewrite onlines_snoc, last_snoc. split; [done |]. apply alternates_snoc; [done |].
  cbn [ts_trace update_cached_state set_cells]. by rewrite Hl.
Qed.

Lemma inv_connect s : online_inv s -> online_inv (do_connect s).1.
Proof. intros H. unfold do_connect. destruct (rt_connect (ts_proto s)) as [p ok]. apply inv_emit; [discriminate | exact H]. Qed.

Lemma inv_connect_timeout s : online_inv s -> online_inv (connect_with_timeout s).1.
Proof.
  intros H. unfold connect_with_timeout. destruct (rt_connect_hangs (ts_proto s)) as [p|]; [| by apply inv_connect].
  apply inv_emit; [discriminate | exact H].
Qed.

Lemma inv_attempt s now : online_inv s -> online_inv (attempt_reconnect s now).
Proof.
  intros H. unfold attempt_reconnect. pose proof (inv_connect_timeout s H) as Hc.
  destruct (connect_with_timeout s) as [s' ok]. by destruct ok.
Qed.

Lemma inv_query s cmd : online_inv s -> online_inv (answer_query s cmd).
Proof.
  intros H. destruct cmd; cbn [answer_query]; try exact H.
  - apply inv_emit; [discriminate |]. by apply inv_emit.
  - by apply inv_emit.
  - by apply inv_emit.
  - unfold apply_log_level. repeat case_match; simplify_eq; apply inv_emit; try discriminate; try exact H;
      (apply inv_emit; [discriminate | exact H]).
Qed.

Lemma inv_backoff s cmd now : online_inv s -> online_inv (handle_backoff_command s cmd now).1.
Proof.
  intros H. destruct cmd; cbn [handle_backoff_command fst];
    first [exact H | apply inv_emit; [discriminate | exact H] | by apply inv_query | idtac].
  pose proof (inv_connect s H) as Hc. destruct (do_connect s) as [s' ok].
  cbn [fst]. apply inv_emit; [discriminate |]. by destruct ok.
Qed.

Lemma inv_protocol s cmd : online_inv s -> online_inv (handle_protocol_command s cmd).1.
Proof.
  intros H. destruct cmd; cbn [handle_protocol_command]; try (by apply inv_query).
  - destruct (rt_write_control _ _) as [p r]. cbn [fst]. do 2 (apply inv_emit; [discriminate |]). exact H.
  - destruct (rt_write_adjustment _ _) as [p r]. cbn [fst]. do 2 (apply inv_emit; [discriminate |]). exact H.
  - pose proof (inv_connect s H) as Hc. destruct (do_connect s) as [s' ok]. by apply inv_emit.
  - by apply inv_emit.
Qed.

Lemma inv_start s i : online_inv s -> online_inv (start_attempt s i).1.
Proof.
  intros H. unfold start_attempt. set (s1 := if decide _ then _ else s).
  assert (H1 : online_inv s1) by (unfold s1; case_decide; exact H).
  destruct (ReconnectHelper_record_attempt (ts_helper s1) (ti_now i)) as [h allowed].
  assert (H2 : online_inv (set_helper s1 h)) by exact H1.
  destruct allowed; cbn [negb fst]; [| by apply inv_refresh].
  destruct (if 1 <? _ then ti_cmd i else None) as [cmd|]; cbn [fst].
  - pose proof (inv_backoff _ cmd (ti_later i) H2) as H3.
    destruct (handle_backoff_command _ _ _) as [s3 action]. by apply inv_refresh.
  - by apply inv_refresh, inv_attempt.
Qed.

Lemma inv_disconnected s i : online_inv s -> online_inv (handle_disconnected s i).1.
Proof.
  intros H. unfold handle_disconnected. set (s1 := set_cells s _). assert (H1 : online_inv s1) by exact H.
  destruct (ReconnectHelper_connection_state (ts_helper s1)); [by apply inv_start | by apply inv_start | done |].
  destruct (ReconnectHelper_check_auto_recovery _ _) as [h r]. destruct r; by apply inv_refresh.
Qed.

Lemma inv_poll s i : online_inv s -> online_inv (poll_data s i).1.
Proof.
  intros H. unfold poll_data. destruct (rt_poll_once (ts_proto s)) as [[p data] f].
  assert (Hfin : forall s0 : state, online_inv s0 ->
    online_inv (refresh match rt_diagnostics (ts_proto s0) with
      | Some n => set_cells (if ts_prev_errors s0 <? n then set_prev_errors s0 n else s0) (cell_errors (Some n))
      | None => s0 end)).
  { intros s0 H0. apply inv_refresh. destruct (rt_diagnostics (ts_proto s0)) as [n|]; [| done].
    by destruct (ts_prev_errors s0 <? n). }
  destruct data as [|d data].
  - destruct (0 <? zero_data_threshold); [| by apply Hfin].
    destruct (zero_data_threshold <=? _); [| by apply Hfin].
    apply inv_refresh. apply (inv_emit _ EvDisconnect); [discriminate | exact H].
  - apply Hfin. apply inv_emit; [discriminate | exact H].
Qed.

Lemma inv_step s input : online_inv s -> online_inv (task_step s input).1.
Proof.
  intros H. destruct input as [cmd | cmd | i]; cbn [task_step].
  - destruct cmd; try by apply inv_protocol. exact H.
  - destruct cmd; apply inv_emit; try discriminate; exact H.
  - unfold handle_poll_tick. destruct (negb _).
    + pose proof (inv_disconnected (set_cells s (cell_heartbeat (ti_wall_ms i))) i H) as Hd.
      destruct (handle_disconnected _ _) as [s' a]. exact Hd.
    + set (s1 := if decide _ then _ else _). assert (H1 : online_inv s1) by (unfold s1; case_decide; exact H).
      pose proof (inv_poll s1 i H1) as Hp. destruct (poll_data s1 i) as [s' a]. exact Hp.
Qed.

Lemma inv_loop inputs : forall s, online_inv s -> online_inv (task_loop s inputs).1.
Proof.
  induction inputs as [|input inputs IH]; intros s H; [done |]. cbn [task_loop].
  pose proof (inv_step s input H) as Hs. destruct (task_step s input) as [s' stop]. destruct stop; [done | by apply IH].
Qed.

Lemma inv_init p cells policy recovery : online_inv (task_init p cells policy recovery).
Proof.
  apply inv_refresh. split; [done |]. intros i b Hi. cbn in Hi. discriminate.
Qed.

(** ** The reconnection arm *)

(** A tick of an offline channel whose helper is stuck in [Reconnecting] does
    nothing but refresh its heartbeat and attempt counter. *)
Definition stuck (s : state) : Prop :=
  is_online (ts_proto s) = false /\ ReconnectHelper_connection_state (ts_helper s) = RReconnecting.

Lemma stuck_tick s i : stuck s ->
  let '(s', stop) := task_step s (InTick i) in
  stop = false /\ stuck s' /\ ts_proto s' = ts_proto s /\ ts_trace s' = ts_trace s.
Proof.
  intros [Hoff Hst]. cbn [task_step]. unfold handle_poll_tick. cbn [ts_proto set_cells]. rewrite Hoff. cbn [negb].
  unfold handle_disconnected. cbn [ts_helper set_cells]. rewrite Hst. done.
Qed.

Lemma stuck_ticks ticks : forall s, stuck s ->
  let '(s', stop) := task_loop s (map InTick ticks) in
  stop = false /\ stuck s' /\ ts_proto s' = ts_proto s /\ ts_trace s' = ts_trace s.
Proof.
  induction ticks as [|i ticks IH]; intros s Hs; [done |]. cbn [map task_loop].
  pose proof (stuck_tick s i Hs) as Ht. destruct (task_step s (InTick i)) as [s' stop].
  destruct Ht as (-> & Hs' & Hp & Htr). specialize (IH s' Hs').
  destruct (task_loop s' (map InTick ticks)) as [s'' stop']. destruct IH as (-> & Hs'' & Hp' & Htr').
  rewrite Hp', Htr'. done.
Qed.

(** Commands that neither connect nor stop the task and leave the client alone. *)
Definition read_only (cmd : ProtocolCommand) : bool :=
  match cmd with
  | PcGetDiagnostics | PcGetConnectionState | PcWriteControl _ _ | PcWriteAdjustment _ _ => true
  | _ => false
  end.

Lemma refresh_frame s : ts_proto (refresh s) = ts_proto s /\ ts_helper (refresh s) = ts_helper s /\
  connects (ts_trace (refresh s)) = connects (ts_trace s).
Proof.
  unfold refresh, check_online_change. case_decide; [done |]. cbn [ts_proto ts_helper ts_trace emit_event].
  rewrite connects_snoc, app_nil_r. done.
Qed.

Lemma backoff_read_only s cmd now : read_only cmd = true ->
  let '(s', a) := handle_backoff_command s cmd now in
  a = None /\ ts_proto s' = ts_proto s /\ ts_helper s' = ts_helper s /\
  connects (ts_trace s') = connects (ts_trace s).
Proof.
  intros Hc. destruct cmd; try discriminate; cbn [handle_backoff_command answer_query];
    cbn [ts_proto ts_helper ts_trace reply emit_event]; rewrite connects_snoc, app_nil_r; done.
Qed.

(** The helper as the arm uses it: a lost connection counts as disconnected. *)
Definition ready (h : ReconnectHelper) : Prop :=
  ReconnectHelper_connection_state h = RConnected \/ ReconnectHelper_connection_state h = RDisconnected.

(** Recording an allowed attempt from a ready helper. *)
Lemma attempt_allowed h now : attempts_exhausted h = false ->
  exists h', ReconnectHelper_record_attempt h now = (h', true) /\
    ReconnectHelper_connection_state h' = RReconnecting /\ rh_policy h' = rh_policy h /\
    rs_total_attempts (rh_stats h') = wrap 64 (rs_total_attempts (rh_stats h) + 1).
Proof. intros He. unfold ReconnectHelper_record_attempt. rewrite He. by eexists. Qed.

Lemma start_attempt_spec s i : ready (ts_helper s) -> attempts_exhausted (ts_helper s) = false ->
  exists s1, ts_proto s1 = ts_proto s /\ ts_trace s1 = ts_trace s /\
    ReconnectHelper_connection_state (ts_helper s1) = RReconnecting /\
    rh_policy (ts_helper s1) = rh_policy (ts_helper s) /\
    rs_total_attempts (rh_stats (ts_helper s1)) = wrap 64 (rs_total_attempts (rh_stats (ts_helper s)) + 1) /\
    start_attempt s i =
      match (if 1 <? rs_total_attempts (rh_stats (ts_helper s1)) then ti_cmd i else None) with
      | Some cmd =>
          let '(s2, action) := handle_backoff_command s1 cmd (ti_later i) in (refresh s2, default TickContinue action)
      | None => (refresh (attempt_reconnect s1 (ti_later i)), TickContinue)
      end.
Proof.
  intros Hr He. unfold start_attempt. set (s0 := if decide _ then _ else s).
  assert (H0 : attempts_exhausted (ts_helper s0) = false /\ ts_proto s0 = ts_proto s /\ ts_trace s0 = ts_trace s /\
    rh_policy (ts_helper s0) = rh_policy (ts_helper s) /\
    rs_total_attempts (rh_stats (ts_helper s0)) = rs_total_attempts (rh_stats (ts_helper s)))
    by (unfold s0; case_decide; done).
  destruct H0 as (He0 & Hp & Ht & Hpol & Htot).
  destruct (attempt_allowed (ts_helper s0) (ti_now i) He0) as (h & -> & Hst & Hpol' & Htot').
  exists (set_helper s0 h). cbn [ts_proto ts_trace ts_helper set_helper]. rewrite Htot', Hpol', Htot. done.
Qed.

Lemma offline_tick s i : is_online (ts_proto s) = false -> ready (ts_helper s) ->
  exists s0, ts_proto s0 = ts_proto s /\ ts_trace s0 = ts_trace s /\ ts_helper s0 = ts_helper s /\
    handle_poll_tick s i = start_attempt s0 i.
Proof.
  intros Hoff Hr. unfold handle_poll_tick. cbn [ts_proto set_cells]. rewrite Hoff. cbn [negb].
  unfold handle_disconnected. cbn [ts_helper set_cells]. eexists. split; [| split; [| split]];
    [| | | destruct Hr as [-> | ->]; reflexivity]; done.
Qed.

(** C40: a command during the reconnect backoff stops the reconnection for good.
    When a query or a write reaches an offline channel between two attempts, the
    attempt is abandoned with the helper left in [Reconnecting], and no later poll
    tick tries to connect again, however many follow and whatever arrives in them. *)
Theorem interrupted_backoff_stops_reconnecting s i cmd ticks :
  is_online (ts_proto s) = false -> ready (ts_helper s) -> attempts_exhausted (ts_helper s) = false ->
  1 <= rs_total_attempts (rh_stats (ts_helper s)) < 2 ^ 64 - 1 ->
  ti_cmd i = Some cmd -> read_only cmd = true ->
  let '(s', stop) := task_loop s (map InTick (i :: ticks)) in
  stop = false /\ stuck s' /\ connects (ts_trace s') = connects (ts_trace s).
Proof.
  intros Hoff Hr He Htot Hcmd Hro. cbn [map task_loop task_step].
  destruct (offline_tick s i Hoff Hr) as (s0 & Hp0 & Ht0 & Hh0 & ->). rewrite <- Hh0 in Hr, He, Htot.
  destruct (start_attempt_spec s0 i Hr He) as (s1 & Hp1 & Ht1 & Hst & _ & Htot1 & ->).
  rewrite Htot1, wrap_small, (proj2 (Z.ltb_lt _ _)), Hcmd by (unfold is_uint; lia).
  pose proof (backoff_read_only s1 cmd (ti_later i) Hro) as Hb.
  destruct (handle_backoff_command s1 cmd (ti_later i)) as [s2 a]. destruct Hb as (-> & Hp2 & Hh2 & Hc2).
  cbn [default]. destruct (refresh_frame s2) as (Hp3 & Hh3 & Hc3).
  pose proof (stuck_ticks ticks (refresh s2)) as Hs. destruct (task_loop (refresh s2) (map InTick ticks)) as [s' stop].
  destruct Hs as (-> & Hs' & Hp' & Ht').
  { split; [by rewrite Hp3, Hp2, Hp1, Hp0 | by rewrite Hh3, Hh2]. }
  split; [done | split; [done |]]. by rewrite Ht', Hc3, Hc2, Ht1, Ht0.
Qed.

(** The online status of a channel is published exactly on change: over any
    sequence of commands and ticks up to the shutdown, no two consecutive published
    values are equal and the last one is the state the task remembers. *)
Theorem online_published_on_change p cells policy recovery inputs :
  let '(s, _) := task_loop (task_init p cells policy recovery) inputs in
  alternates (onlines (ts_trace s)) /\ last (onlines (ts_trace s)) = ts_prev_online s.
Proof.
  pose proof (inv_loop inputs _ (inv_init p cells policy recovery)) as [Hl Ha].
  destruct (task_loop _ inputs) as [s b]. done.
Qed.
End Task.

(** * Undisturbed reconnection and the silent-device watchdog *)

Section Liveness.
Context {P D : Type} {RT : ChannelRuntime P D}.
Variable zero_data_threshold : Z.

(** A connect that fails or times out leaves the client offline. *)
Definition failed_connect_offline : Prop :=
  (forall p p', rt_connect p = (p', false) -> is_online p' = false) /\
  (forall p p', rt_connect_hangs p = Some p' -> is_online p' = false).

Lemma connect_spec s s' ok : failed_connect_offline -> connect_with_timeout s = (s', ok) ->
  ts_helper s' = ts_helper s /\ connects (ts_trace s') = connects (ts_trace s) ++ [ok] /\
  (ok = false -> is_online (ts_proto s') = false) /\
  (rt_connect_hangs (ts_proto s) = None -> rt_connect (ts_proto s) = (ts_proto s', ok)).
Proof.
  intros [Hf Hh]. unfold connect_with_timeout, do_connect.
  destruct (rt_connect_hangs (ts_proto s)) as [p|] eqn:Eh; [| destruct (rt_connect (ts_proto s)) as [p ok'] eqn:Ec];
    intros [= <- <-]; cbn [ts_helper ts_trace ts_proto emit_event set_proto]; rewrite connects_snoc;
    (split; [done | split; [done |]]).
  - split; [| done]. intros _. by eapply Hh.
  - split; [| done]. intros ->. by eapply Hf.
Qed.

Lemma undisturbed_tick s i : failed_connect_offline ->
  is_online (ts_proto s) = false -> ready (ts_helper s) -> rp_max_attempts (rh_policy (ts_helper s)) = 0 ->
  ti_cmd i = None ->
  exists s' ok, task_step zero_data_threshold s (InTick i) = (s', false) /\
    connects (ts_trace s') = connects (ts_trace s) ++ [ok] /\
    rp_max_attempts (rh_policy (ts_helper s')) = 0 /\
    ReconnectHelper_connection_state (ts_helper s') = (if ok then RConnected else RDisconnected) /\
    (ok = false -> is_online (ts_proto s') = false) /\
    (rt_connect_hangs (ts_proto s) = None -> rt_connect (ts_proto s) = (ts_proto s', ok)).
Proof.
  intros Hlaw Hoff Hr Hmax Hcmd. cbn [task_step].
  destruct (offline_tick zero_data_threshold s i Hoff Hr) as (s0 & Hp0 & Ht0 & Hh0 & ->).
  assert (He : attempts_exhausted (ts_helper s0) = false) by (unfold attempts_exhausted; by rewrite Hh0, Hmax).
  rewrite <- Hh0 in Hr, Hmax. destruct (start_attempt_spec s0 i Hr He) as (s1 & Hp1 & Ht1 & _ & Hpol & _ & ->).
  rewrite <- Hp0, <- Hp1, Hcmd. destruct (1 <? _); (
    unfold attempt_reconnect; destruct (connect_with_timeout s1) as [s2 ok] eqn:Ec;
    destruct (connect_spec s1 s2 ok Hlaw Ec) as (Hh2 & Hc2 & Hoff2 & Hcon2);
    eexists _, ok; split; [reflexivity |];
    match goal with |- context [refresh ?x] => destruct (refresh_frame x) as (-> & -> & ->) end;
    destruct ok; cbn [ts_trace ts_helper ts_proto set_failed_ticks set_cells set_helper];
    rewrite ?Hh2, Hc2, Ht1, Ht0;
    [ split; [done | split; [by rewrite <- Hmax, <- Hpol | done]]
    | unfold ReconnectHelper_record_failure, attempts_exhausted; cbn; rewrite Hpol, Hmax; cbn;
      split; [done | split; [by rewrite Hpol | split; [done | done]]] ]).
Qed.

(** Left undisturbed, an offline channel with unlimited attempts tries to
    connect in every tick until one attempt succeeds: after [n] ticks without
    commands either the first success came at some tick [k] and the helper is
    [Connected], or there were exactly [n] failed attempts and the channel is ready
    for the next. *)
Theorem offline_channel_keeps_trying ticks : forall s,
  failed_connect_offline -> is_online (ts_proto s) = false -> ready (ts_helper s) ->
  rp_max_attempts (rh_policy (ts_helper s)) = 0 -> Forall (fun i => ti_cmd i = None) ticks ->
  (exists k s1, (k < length ticks)%nat /\
     task_loop zero_data_threshold s (map InTick (take (S k) ticks)) = (s1, false) /\
     connects (ts_trace s1) = connects (ts_trace s) ++ replicate k false ++ [true] /\
     ReconnectHelper_connection_state (ts_helper s1) = RConnected) \/
  (exists s1, task_loop zero_data_threshold s (map InTick ticks) = (s1, false) /\
     connects (ts_trace s1) = connects (ts_trace s) ++ replicate (length ticks) false /\
     is_online (ts_proto s1) = false /\ ready (ts_helper s1)).
Proof.
  induction ticks as [|i ticks IH]; intros s Hlaw Hoff Hr Hmax Hc.
  - right. exists s. cbn. by rewrite app_nil_r.
  - apply Forall_cons in Hc as [Hci Hc].
    destruct (undisturbed_tick s i Hlaw Hoff Hr Hmax Hci) as (s' & ok & Hstep & Hcon & Hmax' & Hst & Hoff' & _).
    cbn [map take task_loop length]. rewrite Hstep. destruct ok.
    + left. exists 0%nat, s'. split; [lia |]. cbn [take map task_loop]. done.
    + destruct (IH s' Hlaw (Hoff' eq_refl) (or_intror Hst) Hmax' Hc) as [(k & s1 & Hk & Hl & Hcs & Hs1) | (s1 & Hl & Hcs & Hrest)].
      * left. exists (S k), s1. split; [lia |]. rewrite Hcs, Hcon, <- !app_assoc. done.
      * right. exists s1. split; [done |]. rewrite Hcs, Hcon, <- app_assoc. done.
Qed.

(** A client that stays connected and never returns data. *)
Variable silent : P -> Prop.
Hypothesis silent_online : forall p, silent p -> is_online p = true.
Hypothesis silent_polls : forall p, silent p -> exists p' f, rt_poll_once p = (p', [], f) /\ silent p'.

Definition disconnects (tr : list (TaskEvent D)) : nat :=
  length (omap (fun e => match e with EvDisconnect => Some tt | _ => None end) tr).

Lemma disconnects_snoc tr e :
  disconnects (tr ++ [e]) = (disconnects tr + match e with EvDisconnect => 1 | _ => 0 end)%nat.
Proof. unfold disconnects. rewrite omap_app, length_app. by destruct e. Qed.

Lemma refresh_silent s : disconnects (ts_trace (refresh s)) = disconnects (ts_trace s) /\
  ts_zero_data (refresh s) = ts_zero_data s /\ ts_proto (refresh s) = ts_proto s /\ ts_helper (refresh s) = ts_helper s.
Proof.
  unfold refresh, check_online_change. case_decide; [done |]. cbn [ts_trace ts_zero_data ts_proto ts_helper emit_event].
  rewrite disconnects_snoc, Nat.add_0_r. done.
Qed.

(** A tick of a connected client leaves the helper connected, under the same policy. *)
Definition connected_helper (s s' : TaskState P D) : Prop :=
  ReconnectHelper_connection_state (ts_helper s') = RConnected /\ rh_policy (ts_helper s') = rh_policy (ts_helper s).

Lemma silent_tick s i : silent (ts_proto s) -> 0 <= ts_zero_data s < zero_data_threshold -> zero_data_threshold < 2 ^ 32 ->
  exists s', task_step zero_data_threshold s (InTick i) = (s', false) /\
    if decide (ts_zero_data s + 1 = zero_data_threshold)
    then disconnects (ts_trace s') = S (disconnects (ts_trace s)) /\ ts_zero_data s' = 0 /\
         (exists p, silent p /\ ts_proto s' = rt_disconnect p) /\ connected_helper s s'
    else disconnects (ts_trace s') = disconnects (ts_trace s) /\ ts_zero_data s' = ts_zero_data s + 1 /\
         silent (ts_proto s') /\ connected_helper s s'.
Proof using silent_online silent_polls.
  intros Hs Hz Ht. cbn [task_step]. unfold handle_poll_tick. cbn [ts_proto set_cells].
  rewrite (silent_online _ Hs). cbn [negb]. set (s1 := if decide _ then _ else _).
  assert (H1 : ts_proto s1 = ts_proto s /\ ts_zero_data s1 = ts_zero_data s /\ ts_trace s1 = ts_trace s /\ connected_helper s s1)
    by (unfold s1; case_decide; done).
  destruct H1 as (Hp1 & Hz1 & Ht1 & Hh1). unfold connected_helper in *. unfold poll_data. rewrite Hp1.
  destruct (silent_polls _ Hs) as (p' & f & -> & Hs'). rewrite (proj2 (Z.ltb_lt 0 _)) by lia.
  cbn [ts_zero_data set_proto set_zero_data]. rewrite Hz1, wrap_small by (unfold is_uint; lia).
  case_decide as Hend.
  - rewrite (proj2 (Z.leb_le _ _)) by lia. eexists. split; [reflexivity |].
    match goal with |- context [refresh ?x] => destruct (refresh_silent x) as (-> & -> & -> & ->) end.
    cbn [ts_trace ts_zero_data ts_proto ts_helper set_zero_data do_disconnect emit_event set_proto].
    rewrite disconnects_snoc, Ht1, Nat.add_1_r. split; [done |]. split; [done |]. split; [by exists p' | exact Hh1].
  - rewrite (proj2 (Z.leb_gt _ _)) by lia. eexists. split; [reflexivity |].
    match goal with |- context [refresh ?x] => destruct (refresh_silent x) as (-> & -> & -> & ->) end.
    cbn [ts_proto set_zero_data set_proto]. destruct (rt_diagnostics p') as [n|];
      [destruct (ts_prev_errors _ <? n) |]; cbn; by rewrite Ht1.
Qed.

(** The silent-device watchdog disconnects exactly on time: a client that stays
    connected without delivering data is disconnected by the [t]-th empty poll, [t]
    the configured threshold, and not by an earlier one. *)
Theorem silent_device_disconnected_on_time ticks : forall s,
  silent (ts_proto s) -> 0 <= ts_zero_data s < zero_data_threshold -> zero_data_threshold < 2 ^ 32 ->
  ts_zero_data s + Z.of_nat (length ticks) <= zero_data_threshold ->
  exists s', task_loop zero_data_threshold s (map InTick ticks) = (s', false) /\
    disconnects (ts_trace s') =
      (disconnects (ts_trace s) +
       (if decide (ts_zero_data s + Z.of_nat (length ticks) = zero_data_threshold)%Z then 1 else 0))%nat.
Proof using silent_online silent_polls.
  induction ticks as [|i ticks IH]; intros s Hs Hz Ht Hl.
  - exists s. split; [done |]. rewrite decide_False by (cbn; lia). lia.
  - destruct (silent_tick s i Hs Hz Ht) as (s1 & Hstep & Hres). cbn [map task_loop length] in *. rewrite Hstep.
    case_decide as Hend.
    + destruct ticks as [|j ticks]; [| cbn [length] in Hl; lia]. exists s1. split; [done |].
      rewrite decide_True by (cbn; lia). destruct Hres as [-> _]. lia.
    + destruct Hres as (Hd & Hz1 & Hs1 & _). destruct (IH s1 Hs1) as (s' & Hloop & Hd'); [lia | lia | lia |].
      exists s'. split; [done |]. rewrite Hd', Hd, Hz1. f_equal.
      repeat case_decide; try done; exfalso; lia.
Qed.

(** The watchdog and the reconnection together: after the empty polls up to the threshold
    the client is disconnected, and the next undisturbed tick connects it again. *)
Lemma silent_channel_reconnects ticks i : forall s, failed_connect_offline -> (forall p, is_online (rt_disconnect p) = false) ->
  silent (ts_proto s) -> 0 <= ts_zero_data s < zero_data_threshold -> zero_data_threshold < 2 ^ 32 ->
  ts_zero_data s + Z.of_nat (length ticks) = zero_data_threshold -> rp_max_attempts (rh_policy (ts_helper s)) = 0 -> ti_cmd i = None ->
  exists s' p ok, task_loop zero_data_threshold s (map InTick (ticks ++ [i])) = (s', false) /\ silent p /\
    (rt_connect_hangs (rt_disconnect p) = None -> rt_connect (rt_disconnect p) = (ts_proto s', ok)).
Proof using silent_online silent_polls.
  induction ticks as [|j ticks IH]; intros s Hlaw Hoff Hs Hz Ht Hl Hmax Hi; [cbn in Hl; lia |].
  destruct (silent_tick s j Hs Hz Ht) as (s1 & Hstep & Hres). cbn [app map task_loop length] in *. rewrite Hstep. case_decide as Hend.
  - destruct ticks as [|j' ticks]; [| cbn [length] in Hl; lia]. destruct Hres as (_ & _ & (p & Hsp & Hp) & Hst & Hpol). cbn [app map task_loop].
    destruct (undisturbed_tick s1 i Hlaw) as (s' & ok & -> & _ & _ & _ & _ & Hcon);
      [by rewrite Hp | by left | by rewrite Hpol | done |].
    exists s', p, ok. by rewrite Hp in Hcon.
  - destruct Hres as (_ & Hz1 & Hs1 & _ & Hpol). apply IH; try done; [lia | lia | by rewrite Hpol].
Qed.
End Liveness.

(** * Witnesses *)

(** A simulated client: [Some n] is offline and connects at the [n]-th attempt,
    [None] is connected and silent. *)
#[export] Instance sim_runtime : ChannelRuntime (option nat) Z := {|
  rt_connection_state p := match p with None => CsConnected | Some _ => CsDisconnected end;
  rt_connect p := match p with None => (None, true) | Some O => (None, true) | Some (S n) => (Some n, false) end;
  rt_connect_hangs _ := None;
  rt_disconnect _ := Some O;
  rt_poll_once p := (p, [], O);
  rt_write_control p points := (p, Some (Z.of_nat (length points)));
  rt_write_adjustment p points := (p, Some (Z.of_nat (length points)));
  rt_diagnostics _ := Some 0;
  rt_set_log_config p _ := p;
|}.

Definition sim_policy : ReconnectPolicy := ReconnectPolicy_from_config 0 1000 60000 f64_two.
Definition sim_cells : TaskCells := mkTaskCells 0 None 0 0 false 0.
Definition sim_tick (t : Z) (cmd : option ProtocolCommand) : TickInput := mkTickInput t (t + 1) t cmd.
Definition sim_init (n : option nat) : TaskState (option nat) Z := task_init n sim_cells sim_policy None.
(** After one failed attempt. *)
Definition sim_retrying : TaskState (option nat) Z := (task_step 3 (sim_init (Some 5%nat)) (InTick (sim_tick 1 None))).1.

Example sim_reconnects :
  connects (ts_trace (task_loop 3 (sim_init (Some 2%nat)) (map (fun t => InTick (sim_tick t None)) [1; 2; 3])).1)
  = [false; false; true].
Proof. vm_compute. reflexivity. Qed.

Lemma interrupted_backoff_stops_reconnecting_witness :
  let '(s', stop) := task_loop 3 sim_retrying (map InTick (sim_tick 5 (Some PcGetDiagnostics) :: [sim_tick 9 None])) in
  stop = false /\ stuck s' /\ connects (ts_trace s') = connects (ts_trace sim_retrying).
Proof.
  apply (interrupted_backoff_stops_reconnecting 3 sim_retrying _ PcGetDiagnostics);
    [reflexivity | right; reflexivity | reflexivity | vm_compute; split; congruence | reflexivity | reflexivity].
Defined.

Lemma sim_failed_connect_offline : failed_connect_offline (RT := sim_runtime).
Proof. split; intros [[|n]|] p'; cbn; intros [=]; by subst. Qed.

Lemma offline_channel_keeps_trying_witness :
  let ticks := [sim_tick 1 None; sim_tick 2 None] in
  (exists k s1, (k < length ticks)%nat /\
     task_loop 3 (sim_init (Some 5%nat)) (map InTick (take (S k) ticks)) = (s1, false) /\
     connects (ts_trace s1) = connects (ts_trace (sim_init (Some 5%nat))) ++ replicate k false ++ [true] /\
     ReconnectHelper_connection_state (ts_helper s1) = RConnected) \/
  (exists s1, task_loop 3 (sim_init (Some 5%nat)) (map InTick ticks) = (s1, false) /\
     connects (ts_trace s1) = connects (ts_trace (sim_init (Some 5%nat))) ++ replicate (length ticks) false /\
     is_online (ts_proto s1) = false /\ ready (ts_helper s1)).
Proof.
  apply (offline_channel_keeps_trying 3 [sim_tick 1 None; sim_tick 2 None] (sim_init (Some 5%nat)));
    [apply sim_failed_connect_offline | reflexivity | right; reflexivity | reflexivity | repeat constructor].
Defined.

Lemma silent_device_disconnected_on_time_witness :
  exists s', task_loop 2 (sim_init None) (map InTick [sim_tick 1 None; sim_tick 2 None]) = (s', false) /\
    disconnects (ts_trace s') =
      (disconnects (ts_trace (sim_init None)) +
       (if decide (ts_zero_data (sim_init None) + Z.of_nat (length [sim_tick 1 None; sim_tick 2 None]) = 2)%Z then 1 else 0))%nat.
Proof.
  apply (silent_device_disconnected_on_time 2 (fun p => p = None));
    [by intros p -> | intros p ->; exists None, O; done | done | vm_compute; split; congruence | lia | vm_compute; congruence].
Defined.

(** * A client that stays offline *)

(** A property of a client that keeps it offline and that no call but a disconnect changes. *)
Section Offline.
Context {P D : Type} {RT : ChannelRuntime P D}.
Variable zero_data_threshold : Z.
Variable Q : P -> Prop.
Hypothesis Q_offline : forall p, Q p -> is_online p = false.
Hypothesis Q_connect : forall p, Q p -> Q (rt_connect p).1.
Hypothesis Q_hangs : forall p p', Q p -> rt_connect_hangs p = Some p' -> Q p'.
Hypothesis Q_control : forall p cmds, Q p -> Q (rt_write_control p cmds).1.
Hypothesis Q_adjustment : forall p cmds, Q p -> Q (rt_write_adjustment p cmds).1.
Hypothesis Q_log : forall p l, Q p -> Q (rt_set_log_config p l).

Lemma stays_offline_refresh (s : TaskState P D) : ts_proto (refresh s) = ts_proto s.
Proof. unfold refresh, check_online_change. by case_decide. Qed.

Lemma stays_offline_connect (s : TaskState P D) : Q (ts_proto s) -> Q (ts_proto (do_connect s).1).
Proof using Q_connect. intros H. apply Q_connect in H. unfold do_connect. by destruct (rt_connect (ts_proto s)). Qed.

Lemma stays_offline_log (s : TaskState P D) level : Q (ts_proto s) -> Q (ts_proto (apply_log_level s level).1).
Proof using Q_log. intros H. unfold apply_log_level. repeat case_match; cbn; by try apply Q_log. Qed.

Lemma stays_offline_query (s : TaskState P D) cmd : cmd <> PcDisconnect -> Q (ts_proto s) -> Q (ts_proto (answer_query s cmd)).
Proof using Q_log.
  intros Hc H. destruct cmd; try done. cbn [answer_query]. pose proof (stays_offline_log s level H) as Hl. by destruct (apply_log_level s level).
Qed.

Lemma stays_offline_backoff (s : TaskState P D) cmd now : cmd <> PcDisconnect -> Q (ts_proto s) -> Q (ts_proto (handle_backoff_command s cmd now).1).
Proof using Q_connect Q_log.
  intros Hc H. destruct cmd; cbn [handle_backoff_command]; try done; try by apply stays_offline_query.
  pose proof (stays_offline_connect s H) as Hx. destruct (do_connect s) as [s' ok]. by destruct ok.
Qed.

Lemma stays_offline_reconnect (s : TaskState P D) now : Q (ts_proto s) -> Q (ts_proto (attempt_reconnect s now)).
Proof using Q_connect Q_hangs.
  intros H. unfold attempt_reconnect. assert (Hx : Q (ts_proto (connect_with_timeout s).1)).
  { unfold connect_with_timeout. destruct (rt_connect_hangs (ts_proto s)) as [p|] eqn:Hh; [by eapply Q_hangs | by apply stays_offline_connect]. }
  destruct (connect_with_timeout s) as [s' ok]. by destruct ok.
Qed.

Lemma stays_offline_attempt (s : TaskState P D) i : ti_cmd i <> Some PcDisconnect -> Q (ts_proto s) -> Q (ts_proto (start_attempt s i).1).
Proof using Q_connect Q_hangs Q_log.
  intros Hc H. unfold start_attempt. set (s1 := if decide _ then _ else s). assert (H1 : Q (ts_proto s1)) by (unfold s1; by case_decide). clearbody s1.
  destruct (ReconnectHelper_record_attempt (ts_helper s1) (ti_now i)) as [h allowed]. destruct allowed; cbn [negb]; [| cbn; by rewrite stays_offline_refresh].
  destruct (if 1 <? rs_total_attempts (rh_stats h) then ti_cmd i else None) as [cmd|] eqn:Hcmd.
  - assert (Hne : cmd <> PcDisconnect) by (intros ->; apply Hc; by destruct (1 <? rs_total_attempts (rh_stats h))).
    pose proof (stays_offline_backoff (set_helper s1 h) cmd (ti_later i) Hne H1) as Hb. destruct (handle_backoff_command _ _ _) as [s2 action]. cbn. by rewrite stays_offline_refresh.
  - cbn [fst]. rewrite stays_offline_refresh. by apply stays_offline_reconnect.
Qed.

Lemma stays_offline_tick (s : TaskState P D) i : ti_cmd i <> Some PcDisconnect -> Q (ts_proto s) -> Q (ts_proto (handle_poll_tick zero_data_threshold s i).1).
Proof using Q_offline Q_connect Q_hangs Q_log.
  intros Hc H. unfold handle_poll_tick. change (ts_proto (set_cells s _)) with (ts_proto s). rewrite (Q_offline _ H). cbn [negb].
  unfold handle_disconnected. destruct (ReconnectHelper_connection_state _); try by apply stays_offline_attempt; try done.
  all: try done. destruct (ReconnectHelper_check_auto_recovery _ _) as [h []]; cbn [fst]; by rewrite stays_offline_refresh.
Qed.

Definition no_disconnect (i : TaskInput) : Prop :=
  match i with InProtocol cmd => cmd <> PcDisconnect | InBusiness _ => True | InTick t => ti_cmd t <> Some PcDisconnect end.

Lemma stays_offline_step (s : TaskState P D) i : no_disconnect i -> Q (ts_proto s) -> Q (ts_proto (task_step zero_data_threshold s i).1).
Proof using Q_offline Q_connect Q_hangs Q_log Q_control Q_adjustment.
  intros Hi H. destruct i as [cmd|cmd|t]; cbn [no_disconnect] in Hi.
  - destruct cmd; cbn [task_step handle_protocol_command]; try done; try by apply stays_offline_query.
    + pose proof (Q_control _ [(internal_id, value)] H) as Hw. by destruct (rt_write_control _ _).
    + pose proof (Q_adjustment _ [(internal_id, value)] H) as Hw. by destruct (rt_write_adjustment _ _).
    + pose proof (stays_offline_connect s H) as Hx. by destruct (do_connect s).
  - destruct cmd; cbn; by (apply Q_control || apply Q_adjustment).
  - cbn [task_step]. pose proof (stays_offline_tick s t Hi H) as Ht. by destruct (handle_poll_tick _ s t) as [s' []].
Qed.

(** Until a disconnect is asked for, the channel task leaves such a client as it is. *)
Lemma offline_forever inputs : forall s : TaskState P D, Forall no_disconnect inputs -> Q (ts_proto s) -> Q (ts_proto (task_loop zero_data_threshold s inputs).1).
Proof using Q_offline Q_connect Q_hangs Q_log Q_control Q_adjustment.
  induction inputs as [|i inputs IH]; intros s Hi H; [done |]. apply Forall_cons in Hi as [Hi Hrest]. cbn [task_loop].
  pose proof (stays_offline_step s i Hi H) as Hs. destruct (task_step zero_data_threshold s i) as [s' []]; [done |]. by apply IH.
Qed.
End Offline.
