(* ===== verification/Registers.v ===== *)
(** Modbus register codec: [services/comsrv/src/protocols/codec/byte_order.rs],
    the protocol value of [protocols/core/data.rs], the formats and byte orders
    of [protocols/core/point.rs] and their parsers of
    [core/channels/converters.rs].

    A register is a 16-bit [Z]; an [i64] is a [Z] in its range; an [f64] and an
    [f32] are their bit patterns; a Rust [String] is the list of its code points.
    Indexing after a length guard is written as a match on the register list. *)
From stdpp Require Import base numbers list strings.
From Stdlib Require Import ZArith Lia SpecFloat.
From S2P Require Import Prelude Ieee.
Local Open Scope Z_scope.
Set Warnings "-clear-no-such-hyp".

(** * Data *)

Inductive ProtoValue :=
| PFloat (v : Z)
| PInteger (v : Z)
| PBool (v : bool)
| PString (s : list Z)
| PBytes (bs : list Z)
| PNull.

Inductive DataFormat :=
| FBool | FUInt16 | FInt16 | FUInt32 | FInt32 | FUInt64 | FInt64 | FFloat32 | FFloat64 | FString.

Inductive ByteOrder := Abcd | Dcba | Badc | Cdab.

#[export] Instance DataFormat_eq_dec : EqDecision DataFormat.
Proof. solve_decision. Defined.

#[export] Instance ByteOrder_eq_dec : EqDecision ByteOrder.
Proof. solve_decision. Defined.

(** [GatewayError]: [InvalidData] with a fixed message, or with the value that is outside
    the range of the target format ([OutOfRange]); [DataConversion]. *)
Inductive GatewayError :=
| InvalidData (msg : string)
| OutOfRange (v : Z)
| DataConversion (msg : string).

Definition ProtoValue_as_f64 (v : ProtoValue) : option Z :=
  match v with
  | PFloat v => Some v
  | PInteger v => Some (f64_of_Z v)
  | PBool v => Some (if v then f64_one else f64_zero)
  | _ => None
  end.

Definition ProtoValue_as_i64 (v : ProtoValue) : option Z :=
  match v with
  | PInteger v => Some v
  | PFloat v => Some (f64_to_i64 v)
  | PBool v => Some (if v then 1 else 0)
  | _ => None
  end.

Definition ProtoValue_as_bool (v : ProtoValue) : option bool :=
  match v with
  | PBool v => Some v
  | PInteger v => Some (negb (v =? 0))
  | PFloat v => Some (negb (f64_eqb v f64_zero))
  | _ => None
  end.

Definition ProtoValue_as_string (v : ProtoValue) : option (list Z) :=
  match v with
  | PString s => Some s
  | _ => None
  end.

Definition DataFormat_register_count (f : DataFormat) : nat :=
  match f with
  | FBool | FUInt16 | FInt16 => 1
  | FUInt32 | FInt32 | FFloat32 => 2
  | FUInt64 | FInt64 | FFloat64 => 4
  | FString => 8
  end.

(** ** Parsers of the configuration strings ([to_lowercase] and [to_uppercase]
    on the ASCII names they are compared with). *)
Definition parse_data_format (s : string) : DataFormat :=
  let s := map_string ascii_lower s in
  if one_of s ["bool"; "boolean"]%string then FBool
  else if one_of s ["uint16"; "u16"]%string then FUInt16
  else if one_of s ["int16"; "i16"]%string then FInt16
  else if one_of s ["uint32"; "u32"]%string then FUInt32
  else if one_of s ["int32"; "i32"]%string then FInt32
  else if one_of s ["float32"; "f32"; "float"]%string then FFloat32
  else if one_of s ["float64"; "f64"; "double"]%string then FFloat64
  else if one_of s ["uint64"; "u64"]%string then FUInt64
  else if one_of s ["int64"; "i64"]%string then FInt64
  else FUInt16.

Definition parse_byte_order (s : string) : ByteOrder :=
  let s := map_string ascii_upper s in
  if one_of s ["ABCD"; "BIG_ENDIAN"; "BE"]%string then Abcd
  else if one_of s ["DCBA"; "LITTLE_ENDIAN"; "LE"]%string then Dcba
  else if one_of s ["BADC"; "WORD_SWAP"]%string then Badc
  else if one_of s ["CDAB"; "BYTE_SWAP"]%string then Cdab
  else Abcd.

(** * Byte reordering *)

Definition reg_hi (r : Z) : Z := wrap 8 (Z.shiftr r 8).
Definition reg_lo (r : Z) : Z := Z.land r 0xFF.
Definition reg_of (hi lo : Z) : Z := Z.lor (Z.shiftl hi 8) lo.

Definition reorder_bytes_32 (r0 r1 : Z) (order : ByteOrder) : list Z :=
  let a := reg_hi r0 in let b := reg_lo r0 in
  let c := reg_hi r1 in let d := reg_lo r1 in
  match order with
  | Abcd => [a; b; c; d]
  | Dcba => [d; c; b; a]
  | Badc => [b; a; d; c]
  | Cdab => [c; d; a; b]
  end.

(** The permutation of an 8-byte array that both 64-bit functions apply. *)
Definition reorder_array_64 (bytes : list Z) (order : ByteOrder) : list Z :=
  let at_ i := nth i bytes 0 in
  match order with
  | Abcd => bytes
  | Dcba => reverse bytes
  | Badc => map at_ [1; 0; 3; 2; 5; 4; 7; 6]%nat
  | Cdab => map at_ [2; 3; 0; 1; 6; 7; 4; 5]%nat
  end.

Definition reorder_bytes_64 (regs : list Z) (order : ByteOrder) : list Z :=
  let filled := concat (map (fun r => [reg_hi r; reg_lo r]) (take 4 regs)) in
  reorder_array_64 (filled ++ replicate (8 - length filled) 0) order.

Definition reorder_to_registers_32 (bytes : list Z) (order : ByteOrder) : Z * Z :=
  let at_ i := nth i bytes 0 in
  let a := at_ 0%nat in let b := at_ 1%nat in let c := at_ 2%nat in let d := at_ 3%nat in
  let '(b0, b1, b2, b3) :=
    match order with
    | Abcd => (a, b, c, d)
    | Dcba => (d, c, b, a)
    | Badc => (b, a, d, c)
    | Cdab => (c, d, a, b)
    end in
  (reg_of b0 b1, reg_of b2 b3).

Definition reorder_to_registers_64 (bytes : list Z) (order : ByteOrder) : list Z :=
  let ordered := reorder_array_64 bytes order in
  let at_ i := nth i ordered 0 in
  [reg_of (at_ 0%nat) (at_ 1%nat); reg_of (at_ 2%nat) (at_ 3%nat);
   reg_of (at_ 4%nat) (at_ 5%nat); reg_of (at_ 6%nat) (at_ 7%nat)].

(** * Strings *)

(** [hi as char] for each non-zero byte, then trailing NULs popped. *)
Definition push_byte (s : list Z) (b : Z) : list Z := if b =? 0 then s else s ++ [b].
Fixpoint drop_leading_nul (s : list Z) : list Z :=
  match s with
  | c :: s' => if c =? 0 then drop_leading_nul s' else s
  | [] => []
  end.
Definition pop_trailing_nul (s : list Z) : list Z := reverse (drop_leading_nul (reverse s)).
Definition decode_string (registers : list Z) : list Z :=
  pop_trailing_nul (foldl (fun s r => push_byte (push_byte s (reg_hi r)) (reg_lo r)) [] registers).

(** UTF-8 bytes of a code point ([str::as_bytes]). *)
Definition utf8_bytes (c : Z) : list Z :=
  if c <? 0x80 then [c]
  else if c <? 0x800 then [Z.lor 0xC0 (Z.shiftr c 6); Z.lor 0x80 (Z.land c 0x3F)]
  else if c <? 0x10000 then
    [Z.lor 0xE0 (Z.shiftr c 12); Z.lor 0x80 (Z.land (Z.shiftr c 6) 0x3F); Z.lor 0x80 (Z.land c 0x3F)]
  else
    [Z.lor 0xF0 (Z.shiftr c 18); Z.lor 0x80 (Z.land (Z.shiftr c 12) 0x3F);
     Z.lor 0x80 (Z.land (Z.shiftr c 6) 0x3F); Z.lor 0x80 (Z.land c 0x3F)].
Definition as_bytes (s : list Z) : list Z := concat (map utf8_bytes s).

(** The loop over [bytes.chunks(2)]. *)
Fixpoint chunk_registers (bytes : list Z) : list Z :=
  match bytes with
  | [] => []
  | [hi] => [reg_of hi 0]
  | hi :: lo :: rest => reg_of hi lo :: chunk_registers rest
  end.

(** * The codec *)

Definition f32_is_finite (b : Z) : bool := negb (Z.land (Z.shiftr b 23) 0xFF =? 0xFF).

Definition decode_registers (registers : list Z) (format : DataFormat) (byte_order : ByteOrder)
    (bit_position : option Z) : result ProtoValue GatewayError :=
  match format with
  | FBool =>
      match registers with
      | [] => Err (InvalidData "No registers for bool")
      | r0 :: _ =>
          let bit := default 0 bit_position in
          if 15 <? bit then Err (InvalidData "Bit position must be 0-15")
          else Ok (PBool (Z.land (Z.shiftr r0 bit) 1 =? 1))
      end
  | FUInt16 =>
      match registers with
      | [] => Err (InvalidData "No registers for uint16")
      | r0 :: _ => Ok (PInteger r0)
      end
  | FInt16 =>
      match registers with
      | [] => Err (InvalidData "No registers for int16")
      | r0 :: _ => Ok (PInteger (to_signed 16 r0))
      end
  | FUInt32 | FInt32 =>
      match registers with
      | r0 :: r1 :: _ =>
          let bytes := reorder_bytes_32 r0 r1 byte_order in
          Ok (PInteger (if decide (format = FUInt32) then from_be_bytes bytes
                        else to_signed 32 (from_be_bytes bytes)))
      | _ => Err (InvalidData "Need 2 registers for 32-bit value")
      end
  | FFloat32 =>
      match registers with
      | r0 :: r1 :: _ =>
          let value := from_be_bytes (reorder_bytes_32 r0 r1 byte_order) in
          if negb (f32_is_finite value) then Err (InvalidData "Invalid float32 value")
          else Ok (PFloat (f64_of_f32 value))
      | _ => Err (InvalidData "Need 2 registers for float32")
      end
  | FUInt64 | FInt64 =>
      if (length registers <? 4)%nat then Err (InvalidData "Need 4 registers for 64-bit value")
      else Ok (PInteger (to_signed 64 (from_be_bytes (reorder_bytes_64 (take 4 registers) byte_order))))
  | FFloat64 =>
      if (length registers <? 4)%nat then Err (InvalidData "Need 4 registers for float64")
      else
        let value := from_be_bytes (reorder_bytes_64 (take 4 registers) byte_order) in
        if negb (f64_is_finite value) then Err (InvalidData "Invalid float64 value")
        else Ok (PFloat value)
  | FString => Ok (PString (decode_string registers))
  end.

Definition registers_of_32 (v : Z) (byte_order : ByteOrder) : list Z :=
  let '(r0, r1) := reorder_to_registers_32 (to_be_bytes 4 v) byte_order in [r0; r1].

Definition encode_registers (value : ProtoValue) (format : DataFormat) (byte_order : ByteOrder)
    : result (list Z) GatewayError :=
  match format with
  | FBool =>
      let? b := ok_or (ProtoValue_as_bool value) (InvalidData "Cannot convert to bool") in
      Ok [if b : bool then 1 else 0]
  | FUInt16 =>
      let? v := ok_or (ProtoValue_as_i64 value) (InvalidData "Cannot convert to integer") in
      if (v <? 0) || (2 ^ 16 - 1 <? v) then Err (OutOfRange v) else Ok [wrap 16 v]
  | FInt16 =>
      let? v := ok_or (ProtoValue_as_i64 value) (InvalidData "Cannot convert to integer") in
      if (v <? - 2 ^ 15) || (2 ^ 15 - 1 <? v) then Err (OutOfRange v) else Ok [wrap 16 v]
  | FUInt32 =>
      let? v := ok_or (ProtoValue_as_i64 value) (InvalidData "Cannot convert to integer") in
      if (v <? 0) || (2 ^ 32 - 1 <? v) then Err (OutOfRange v)
      else Ok (registers_of_32 (wrap 32 v) byte_order)
  | FInt32 =>
      let? v := ok_or (ProtoValue_as_i64 value) (InvalidData "Cannot convert to integer") in
      if (v <? - 2 ^ 31) || (2 ^ 31 - 1 <? v) then Err (OutOfRange v)
      else Ok (registers_of_32 (wrap 32 v) byte_order)
  | FFloat32 =>
      let? v := ok_or (ProtoValue_as_f64 value) (InvalidData "Cannot convert to float") in
      if negb (f64_is_finite v) then Err (InvalidData "Cannot encode NaN/Infinity as float32")
      else Ok (registers_of_32 (f32_of_f64 v) byte_order)
  | FUInt64 | FInt64 =>
      let? v := ok_or (ProtoValue_as_i64 value) (InvalidData "Cannot convert to integer") in
      Ok (reorder_to_registers_64 (to_be_bytes 8 v) byte_order)
  | FFloat64 =>
      let? v := ok_or (ProtoValue_as_f64 value) (InvalidData "Cannot convert to float") in
      if negb (f64_is_finite v) then Err (InvalidData "Cannot encode NaN/Infinity as float64")
      else Ok (reorder_to_registers_64 (to_be_bytes 8 v) byte_order)
  | FString =>
      let? s := ok_or (ProtoValue_as_string value) (InvalidData "Cannot convert to string") in
      Ok (chunk_registers (as_bytes s))
  end.

Example abcd_42 : decode_registers [0x4228; 0x0000] FFloat32 Abcd None = Ok (PFloat (f64_of_Z 42)).
Proof. vm_compute. reflexivity. Qed.
Example cdab_42 : decode_registers [0x0000; 0x4228] FFloat32 Cdab None = Ok (PFloat (f64_of_Z 42)).
Proof. vm_compute. reflexivity. Qed.
Example badc_64 : encode_registers (PInteger (-2)) FInt64 Badc = Ok [0xFFFF; 0xFFFF; 0xFFFF; 0xFEFF].
Proof. vm_compute. reflexivity. Qed.
Example string_hi : decode_registers [0x4869; 0x2100] FString Abcd None = Ok (PString [0x48; 0x69; 0x21]).
Proof. vm_compute. reflexivity. Qed.
Example huge_float32 :
  encode_registers (PFloat (f64_of_Z (10 ^ 39))) FFloat32 Abcd = Ok [0x7F80; 0x0000].
Proof. vm_compute. reflexivity. Qed.

(** * Registers and bytes *)

Lemma reg_of_add hi lo : is_uint 8 lo -> reg_of hi lo = hi * 256 + lo.
Proof. intros Hl. unfold reg_of. by rewrite lor_shiftl_add by (done || lia). Qed.

Lemma reg_bytes r : is_uint 16 r ->
  is_uint 8 (reg_hi r) /\ is_uint 8 (reg_lo r) /\ reg_of (reg_hi r) (reg_lo r) = r.
Proof.
  intros Hr. assert (Hlo : reg_lo r = r mod 256) by (apply (Z.land_ones r 8); lia).
  assert (Hhi : reg_hi r = r / 256).
  { unfold reg_hi. rewrite Z.shiftr_div_pow2 by lia. apply wrap_small. unfold is_uint in *.
    change (2 ^ 8) with 256 in *. split; [apply Z.div_pos; lia | apply Z.div_lt_upper_bound; lia]. }
  assert (Hl : is_uint 8 (reg_lo r)) by (rewrite Hlo; apply (Z.mod_pos_bound r 256); lia).
  split; [apply wrap_uint; lia | split; [done |]]. rewrite reg_of_add by done. rewrite Hhi, Hlo.
  pose proof (Z.div_mod r 256 ltac:(lia)). lia.
Qed.

Lemma reg_of_bytes hi lo : is_uint 8 hi -> is_uint 8 lo ->
  is_uint 16 (reg_of hi lo) /\ reg_hi (reg_of hi lo) = hi /\ reg_lo (reg_of hi lo) = lo.
Proof.
  intros Hh Hl. rewrite reg_of_add by done. unfold is_uint in *. change (2 ^ 8) with 256 in *.
  split; [lia |]. unfold reg_hi, reg_lo. change 0xFF with (Z.ones 8).
  rewrite Z.shiftr_div_pow2, Z.land_ones by lia. change (2 ^ 8) with 256.
  rewrite (Z.add_comm (hi * 256)), Z.div_add, Z.div_small, Z.mod_add, Z.add_0_l by lia.
  split; [by apply wrap_small | by apply Z.mod_small].
Qed.

(** A literal list of bytes or registers, element by element. *)
Ltac solve_bytes := repeat first [apply Forall_nil_2 | apply Forall_cons_2].

(** Every byte order is undone by the inverse direction. *)
Lemma reorder_32_regs r0 r1 o : is_uint 16 r0 -> is_uint 16 r1 ->
  is_bytes (reorder_bytes_32 r0 r1 o) /\ length (reorder_bytes_32 r0 r1 o) = 4%nat /\
  reorder_to_registers_32 (reorder_bytes_32 r0 r1 o) o = (r0, r1).
Proof.
  intros H0 H1. destruct (reg_bytes r0 H0) as (? & ? & E0), (reg_bytes r1 H1) as (? & ? & E1).
  destruct o; (split; [by solve_bytes | split; [done |]]); cbn; by rewrite E0, E1.
Qed.

Lemma reorder_32_bytes bs o : is_bytes bs -> length bs = 4%nat ->
  let '(r0, r1) := reorder_to_registers_32 bs o in
  is_uint 16 r0 /\ is_uint 16 r1 /\ reorder_bytes_32 r0 r1 o = bs.
Proof.
  intros Hb Hl. destruct bs as [|a [|b [|c [|d [|]]]]]; try discriminate.
  apply Forall_cons in Hb as [Ha Hb]. apply Forall_cons in Hb as [Hb Hc].
  apply Forall_cons in Hc as [Hc Hd]. apply Forall_cons in Hd as [Hd _].
  unfold reorder_to_registers_32, reorder_bytes_32.
  destruct o; cbn [nth];
    match goal with
    | |- is_uint 16 (reg_of ?h ?l) /\ is_uint 16 (reg_of ?h' ?l') /\ _ =>
        destruct (reg_of_bytes h l) as (? & E1 & E2); [done | done |];
        destruct (reg_of_bytes h' l') as (? & E3 & E4); [done | done |]
    end; rewrite E1, E2, E3, E4; done.
Qed.

Lemma reorder_array_involutive bs o : length bs = 8%nat -> reorder_array_64 (reorder_array_64 bs o) o = bs.
Proof. intros Hl. do 8 (destruct bs as [|? bs]; [done |]). destruct bs; [| done]. by destruct o. Qed.

Lemma length_reorder_array bs o : length bs = 8%nat -> length (reorder_array_64 bs o) = 8%nat.
Proof. intros Hl. destruct o; cbn; rewrite ?length_reverse; done. Qed.

Lemma reorder_array_bytes bs o : length bs = 8%nat -> is_bytes bs -> is_bytes (reorder_array_64 bs o).
Proof.
  intros Hl Hb. do 8 (destruct bs as [|? bs]; [done |]). destruct bs; [| done]. unfold is_bytes in *.
  destruct o; [done | by apply Forall_reverse | |]; cbn [reorder_array_64 map nth];
    rewrite !Forall_cons in *; naive_solver.
Qed.

(** The four registers of an 8-byte array, before any reordering. *)
Lemma pack_64 bs : length bs = 8%nat -> is_bytes bs ->
  exists r0 r1 r2 r3, reorder_to_registers_64 bs Abcd = [r0; r1; r2; r3] /\
    Forall (is_uint 16) [r0; r1; r2; r3] /\ reorder_bytes_64 [r0; r1; r2; r3] Abcd = bs.
Proof.
  intros Hl Hb. do 8 (destruct bs as [|? bs]; [done |]). destruct bs; [| done].
  unfold is_bytes in Hb. rewrite !Forall_cons in Hb. destruct_and!.
  eexists _, _, _, _. split; [reflexivity |]. cbn [nth reorder_array_64].
  split; [solve_bytes; by apply reg_of_bytes |]. unfold reorder_bytes_64. cbn [take map concat app].
  repeat match goal with
  | |- context [reg_hi (reg_of ?h ?l)] =>
      destruct (reg_of_bytes h l) as (_ & E1 & E2); [done | done |]; rewrite E1, E2; clear E1 E2
  end. done.
Qed.

Lemma unpack_64 r0 r1 r2 r3 : Forall (is_uint 16) [r0; r1; r2; r3] ->
  is_bytes (reorder_bytes_64 [r0; r1; r2; r3] Abcd) /\ length (reorder_bytes_64 [r0; r1; r2; r3] Abcd) = 8%nat /\
  reorder_to_registers_64 (reorder_bytes_64 [r0; r1; r2; r3] Abcd) Abcd = [r0; r1; r2; r3].
Proof.
  rewrite !Forall_cons. intros (H0 & H1 & H2 & H3 & _).
  destruct (reg_bytes r0 H0) as (? & ? & E0), (reg_bytes r1 H1) as (? & ? & E1),
    (reg_bytes r2 H2) as (? & ? & E2), (reg_bytes r3 H3) as (? & ? & E3).
  split; [by solve_bytes | split; [done |]].
  change ([reg_of (reg_hi r0) (reg_lo r0); reg_of (reg_hi r1) (reg_lo r1);
    reg_of (reg_hi r2) (reg_lo r2); reg_of (reg_hi r3) (reg_lo r3)] = [r0; r1; r2; r3]).
  by rewrite E0, E1, E2, E3.
Qed.

(** The reordered forms follow from the big-endian one and the involution. *)
Lemma reorder_64_regs regs o : Forall (is_uint 16) regs -> length regs = 4%nat ->
  is_bytes (reorder_bytes_64 regs o) /\ length (reorder_bytes_64 regs o) = 8%nat /\
  reorder_to_registers_64 (reorder_bytes_64 regs o) o = regs.
Proof.
  intros Hr Hl. destruct regs as [|r0 [|r1 [|r2 [|r3 [|]]]]]; try discriminate.
  destruct (unpack_64 r0 r1 r2 r3 Hr) as (Hb & Hlen & Hpack).
  change (reorder_bytes_64 [r0; r1; r2; r3] o) with
    (reorder_array_64 (reorder_bytes_64 [r0; r1; r2; r3] Abcd) o).
  split; [by apply reorder_array_bytes | split; [by apply length_reorder_array |]].
  unfold reorder_to_registers_64 in *. rewrite reorder_array_involutive by done. exact Hpack.
Qed.

Lemma reorder_64_bytes bs o : is_bytes bs -> length bs = 8%nat ->
  Forall (is_uint 16) (reorder_to_registers_64 bs o) /\ length (reorder_to_registers_64 bs o) = 4%nat /\
  reorder_bytes_64 (reorder_to_registers_64 bs o) o = bs.
Proof.
  intros Hb Hl. destruct (pack_64 (reorder_array_64 bs o)) as (r0 & r1 & r2 & r3 & Hp & Hr & Hu).
  { by apply length_reorder_array. } { by apply reorder_array_bytes. }
  change (reorder_to_registers_64 bs o) with (reorder_to_registers_64 (reorder_array_64 bs o) Abcd).
  rewrite Hp. split; [done | split; [done |]].
  change (reorder_bytes_64 [r0; r1; r2; r3] o) with
    (reorder_array_64 (reorder_bytes_64 [r0; r1; r2; r3] Abcd) o).
  rewrite Hu. by apply reorder_array_involutive.
Qed.

(** ** Integers through the registers *)

Lemma registers_of_32_spec v o :
  exists r0 r1, registers_of_32 v o = [r0; r1] /\ is_uint 16 r0 /\ is_uint 16 r1 /\
    from_be_bytes (reorder_bytes_32 r0 r1 o) = wrap 32 v.
Proof.
  unfold registers_of_32. pose proof (reorder_32_bytes (to_be_bytes 4 v) o) as H.
  destruct (reorder_to_registers_32 (to_be_bytes 4 v) o) as [r0 r1].
  destruct H as (H0 & H1 & Hb); [apply to_be_bytes_is_bytes | apply length_to_be_bytes |].
  exists r0, r1. split; [done |]. split; [done |]. split; [done |]. rewrite Hb. apply (from_to_be_bytes 4).
Qed.

Lemma registers_of_32_regs r0 r1 o v : is_uint 16 r0 -> is_uint 16 r1 ->
  wrap 32 v = from_be_bytes (reorder_bytes_32 r0 r1 o) -> registers_of_32 v o = [r0; r1].
Proof.
  intros H0 H1 Hv. destruct (reorder_32_regs r0 r1 o H0 H1) as (Hb & Hl & Hr).
  unfold registers_of_32. rewrite (to_be_bytes_of 4 v (reorder_bytes_32 r0 r1 o)) by done. by rewrite Hr.
Qed.

Lemma registers_of_64_spec v o :
  from_be_bytes (reorder_bytes_64 (take 4 (reorder_to_registers_64 (to_be_bytes 8 v) o)) o) = wrap 64 v.
Proof.
  destruct (reorder_64_bytes (to_be_bytes 8 v) o) as (_ & Hl & Hb);
    [apply to_be_bytes_is_bytes | apply length_to_be_bytes |].
  rewrite take_ge by lia. rewrite Hb. apply (from_to_be_bytes 8).
Qed.

Lemma registers_of_64_regs regs o v : Forall (is_uint 16) regs -> length regs = 4%nat ->
  wrap 64 v = from_be_bytes (reorder_bytes_64 (take 4 regs) o) ->
  reorder_to_registers_64 (to_be_bytes 8 v) o = regs.
Proof.
  intros Hr Hl Hv. rewrite take_ge in Hv by lia. destruct (reorder_64_regs regs o Hr Hl) as (Hb & Hlen & Hregs).
  rewrite (to_be_bytes_of 8 v (reorder_bytes_64 regs o)) by done. done.
Qed.

(** ** Strings *)

Lemma decode_chunks s : Forall (fun c => 0 < c < 128) s -> forall acc,
  foldl (fun s r => push_byte (push_byte s (reg_hi r)) (reg_lo r)) acc (chunk_registers s) = acc ++ s.
Proof.
  assert (Hpush : forall acc b, 0 < b -> push_byte acc b = acc ++ [b]).
  { intros acc b Hb. unfold push_byte. by rewrite (proj2 (Z.eqb_neq b 0)) by lia. }
  induction s as [s IH] using (induction_ltof1 _ (@length Z)). unfold ltof in IH.
  intros Hs acc. destruct s as [|hi [|lo s]]; cbn [chunk_registers foldl]; [by rewrite app_nil_r | |].
  - apply Forall_cons in Hs as [Hh _]. destruct (reg_of_bytes hi 0) as (_ & -> & ->); [unfold is_uint; lia.. |].
    rewrite (Hpush acc hi) by lia. done.
  - apply Forall_cons in Hs as [Hh Hs]. apply Forall_cons in Hs as [Hl Hs].
    destruct (reg_of_bytes hi lo) as (_ & -> & ->); [unfold is_uint; lia.. |].
    rewrite !Hpush, IH by (done || lia || (cbn; lia)). by rewrite <- !app_assoc.
Qed.

Lemma chunk_registers_u16 s : Forall (fun c => 0 < c < 128) s -> Forall (is_uint 16) (chunk_registers s).
Proof.
  induction s as [s IH] using (induction_ltof1 _ (@length Z)). unfold ltof in IH. intros Hs.
  destruct s as [|hi [|lo s]]; cbn [chunk_registers]; [done | |].
  - apply Forall_cons in Hs as [Hh _]. solve_bytes. apply reg_of_bytes; unfold is_uint; lia.
  - apply Forall_cons in Hs as [Hh Hs]. apply Forall_cons in Hs as [Hl Hs]. apply Forall_cons_2.
    + apply reg_of_bytes; unfold is_uint; lia.
    + apply IH; [cbn; lia | done].
Qed.

Lemma pop_trailing_nul_id s : Forall (fun c => 0 < c < 128) s -> pop_trailing_nul s = s.
Proof.
  intros Hs. unfold pop_trailing_nul. assert (Hd : drop_leading_nul (reverse s) = reverse s).
  { apply Forall_reverse in Hs. destruct (reverse s) as [|c l]; [done |]. apply Forall_cons in Hs as [Hc _].
    cbn [drop_leading_nul]. by rewrite (proj2 (Z.eqb_neq c 0)) by lia. }
  rewrite Hd. apply reverse_involutive.
Qed.

Lemma as_bytes_ascii s : Forall (fun c => 0 < c < 128) s -> as_bytes s = s.
Proof.
  unfold as_bytes. induction 1 as [|c s Hc _ IH]; [done |]. cbn [map concat]. rewrite IH.
  unfold utf8_bytes. by rewrite (proj2 (Z.ltb_lt c 0x80)) by lia.
Qed.

(** * Round trips *)

(** The values a format represents exactly. *)
Definition fits (f : DataFormat) (v : ProtoValue) : Prop :=
  match f, v with
  | FBool, PBool _ => True
  | FUInt16, PInteger z => 0 <= z < 2 ^ 16
  | FInt16, PInteger z => - 2 ^ 15 <= z < 2 ^ 15
  | FUInt32, PInteger z => 0 <= z < 2 ^ 32
  | FInt32, PInteger z => - 2 ^ 31 <= z < 2 ^ 31
  | FUInt64, PInteger z | FInt64, PInteger z => - 2 ^ 63 <= z < 2 ^ 63
  | FFloat32, PFloat b => exists x, is_uint 32 x /\ f32_is_finite x = true /\ b = f64_of_f32 x
  | FFloat64, PFloat b => is_uint 64 b /\ f64_is_finite b = true
  | FString, PString s => Forall (fun c => 0 < c < 128) s
  | _, _ => False
  end.

Lemma f32_finite_exact x : is_uint 32 x -> f32_is_finite x = true ->
  f32_of_f64 (f64_of_f32 x) = x /\ f64_is_finite (f64_of_f32 x) = true.
Proof.
  intros Hx Hf. apply f32_of_f64_of_f32; [done |]. unfold f32_is_finite in Hf. by bool_hyps.
Qed.

Ltac range_checks :=
  repeat match goal with
  | |- context [(?a <? ?b) || (?c <? ?d)] =>
      rewrite (proj2 (Z.ltb_ge a b)), (proj2 (Z.ltb_ge c d)) by lia; cbn [orb]
  end.

(** Two registers written for [v] are decoded from the 32-bit pattern of [v]. *)
Lemma regs_32_read v o f : is_uint 32 v -> DataFormat_register_count f = 2%nat ->
  exists r0 r1, registers_of_32 v o = [r0; r1] /\ Forall (is_uint 16) [r0; r1] /\
    from_be_bytes (reorder_bytes_32 r0 r1 o) = v /\
    (f <> FString -> length [r0; r1] = DataFormat_register_count f).
Proof.
  intros Hv Hc. destruct (registers_of_32_spec v o) as (r0 & r1 & Hr & H0 & H1 & Hb).
  exists r0, r1. rewrite Hb, wrap_small by done. split; [done |]. split; [by solve_bytes |]. done.
Qed.

Lemma regs_64_read v o : Forall (is_uint 16) (reorder_to_registers_64 (to_be_bytes 8 v) o) /\
  (length (reorder_to_registers_64 (to_be_bytes 8 v) o) <? 4)%nat = false /\
  length (reorder_to_registers_64 (to_be_bytes 8 v) o) = 4%nat.
Proof.
  destruct (reorder_64_bytes (to_be_bytes 8 v) o) as (Hr & Hl & _);
    [apply to_be_bytes_is_bytes | apply length_to_be_bytes |]. rewrite Hl. done.
Qed.

(** Writing a value and reading the registers back gives the value: for every
    data format and byte order, a value the format represents exactly is encoded
    into the format's number of 16-bit registers, and decoding them returns it. *)
Theorem encode_decode_registers f v o : fits f v ->
  exists regs, encode_registers v f o = Ok regs /\ Forall (is_uint 16) regs /\
    (f <> FString -> length regs = DataFormat_register_count f) /\
    decode_registers regs f o None = Ok v.
Proof.
  intros Hf. destruct f, v; try done; cbn [fits] in Hf; unfold encode_registers;
    cbn [ProtoValue_as_bool ProtoValue_as_i64 ProtoValue_as_f64 ProtoValue_as_string ok_or result_bind];
    range_checks.
  - exists [if v then 1 else 0]. destruct v; repeat split; solve_bytes; done.
  - exists [wrap 16 v]. rewrite wrap_small by done. split; [done |]. split; [by solve_bytes |]. done.
  - exists [wrap 16 v]. split; [done |]. split; [solve_bytes; apply wrap_uint; lia |]. split; [done |].
    cbn [decode_registers]. rewrite to_signed_wrap by lia. done.
  - rewrite wrap_small by done.
    destruct (regs_32_read v o FUInt32) as (r0 & r1 & -> & Hr & Hb & Hl); [done | done |].
    exists [r0; r1]. split; [done |]. split; [done |]. split; [done |]. cbn [decode_registers].
    by rewrite decide_True, Hb.
  - destruct (regs_32_read (wrap 32 v) o FInt32) as (r0 & r1 & -> & Hr & Hb & Hl); [apply wrap_uint; lia | done |].
    exists [r0; r1]. split; [done |]. split; [done |]. split; [done |]. cbn [decode_registers].
    rewrite decide_False, Hb, to_signed_wrap by (done || lia). done.
  - destruct (regs_64_read v o) as (Hr & Hlt & Hl). eexists. split; [done |]. split; [done |]. split; [done |].
    cbn [decode_registers]. rewrite Hlt, registers_of_64_spec, to_signed_wrap by lia. done.
  - destruct (regs_64_read v o) as (Hr & Hlt & Hl). eexists. split; [done |]. split; [done |]. split; [done |].
    cbn [decode_registers]. rewrite Hlt, registers_of_64_spec, to_signed_wrap by lia. done.
  - destruct Hf as (x & Hx & Hfin & ->). destruct (f32_finite_exact x Hx Hfin) as [Hback Hf64].
    rewrite Hf64, Hback. cbn [negb].
    destruct (regs_32_read x o FFloat32) as (r0 & r1 & -> & Hr & Hb & Hl); [done | done |].
    exists [r0; r1]. split; [done |]. split; [done |]. split; [done |]. cbn [decode_registers].
    by rewrite Hb, Hfin.
  - destruct Hf as [Hv Hfin]. rewrite Hfin. cbn [negb]. destruct (regs_64_read v o) as (Hr & Hlt & Hl).
    eexists. split; [done |]. split; [done |]. split; [done |].
    cbn [decode_registers]. rewrite Hlt, registers_of_64_spec, wrap_small, Hfin by done. done.
  - eexists. split; [done |]. rewrite as_bytes_ascii by done. split; [by apply chunk_registers_u16 |].
    split; [done |]. cbn [decode_registers]. unfold decode_string.
    rewrite decode_chunks by done. cbn [app]. by rewrite pop_trailing_nul_id.
Qed.

Lemma encode_u16 r o : is_uint 16 r -> encode_registers (PInteger r) FUInt16 o = Ok [r].
Proof.
  intros Hr. unfold encode_registers. cbn [ProtoValue_as_i64 ok_or result_bind]. unfold is_uint in Hr.
  range_checks. by rewrite wrap_small.
Qed.

Lemma encode_i16 r o : is_uint 16 r -> encode_registers (PInteger (to_signed 16 r)) FInt16 o = Ok [r].
Proof.
  intros Hr. unfold encode_registers. cbn [ProtoValue_as_i64 ok_or result_bind].
  pose proof (to_signed_range 16 r ltac:(lia)) as Hs. change (16 - 1) with 15 in Hs.
  range_checks. by rewrite wrap_to_signed, wrap_small.
Qed.

Lemma regs_64_range regs o : Forall (is_uint 16) regs -> length regs = 4%nat ->
  is_uint 64 (from_be_bytes (reorder_bytes_64 (take 4 regs) o)).
Proof.
  intros Hr Hl. rewrite take_ge by lia. destruct (reorder_64_regs regs o Hr Hl) as (Hby & Hlen & _).
  pose proof (from_be_bytes_range _ Hby) as H. by rewrite Hlen in H.
Qed.

Lemma encode_64 regs o : Forall (is_uint 16) regs -> length regs = 4%nat ->
  Ok (reorder_to_registers_64
        (to_be_bytes 8 (to_signed 64 (from_be_bytes (reorder_bytes_64 (take 4 regs) o)))) o) =
  (Ok regs : result (list Z) GatewayError).
Proof.
  intros Hr Hl. f_equal. apply registers_of_64_regs; [done | done |].
  rewrite wrap_to_signed by lia. by apply wrap_small, regs_64_range.
Qed.

Lemma regs_32_decoded r0 r1 o : Forall (is_uint 16) [r0; r1] ->
  is_uint 32 (from_be_bytes (reorder_bytes_32 r0 r1 o)) /\
  forall v, wrap 32 v = wrap 32 (from_be_bytes (reorder_bytes_32 r0 r1 o)) -> registers_of_32 v o = [r0; r1].
Proof.
  rewrite !Forall_cons. intros (H0 & H1 & _). destruct (reorder_32_regs r0 r1 o H0 H1) as (Hby & Hlen & _).
  pose proof (from_be_bytes_range _ Hby) as Hrange. rewrite Hlen in Hrange. split; [exact Hrange |].
  intros v Hv. apply registers_of_32_regs; [done | done |]. rewrite Hv. by apply wrap_small.
Qed.

(** Reading registers and writing the value back restores them: for every
    numeric format and byte order, whatever 16-bit registers a device holds, if
    they decode to a value then encoding that value gives the same registers. *)
Theorem decode_encode_registers f o bit regs v :
  f <> FBool -> f <> FString -> Forall (is_uint 16) regs -> length regs = DataFormat_register_count f ->
  decode_registers regs f o bit = Ok v -> encode_registers v f o = Ok regs.
Proof.
  intros Hb Hs Hr Hl Hd. destruct f; try done; cbn [DataFormat_register_count] in Hl.
  - destruct regs as [|r [|]]; try done. apply Forall_cons in Hr as [Hr _]. injection Hd as <-.
    by apply encode_u16.
  - destruct regs as [|r [|]]; try done. apply Forall_cons in Hr as [Hr _]. injection Hd as <-.
    by apply encode_i16.
  - destruct regs as [|r0 [|r1 [|]]]; try done. destruct (regs_32_decoded r0 r1 o Hr) as (Hrange & Henc).
    cbn [decode_registers] in Hd. rewrite decide_True in Hd by done. injection Hd as <-.
    unfold encode_registers. cbn. unfold is_uint in Hrange. range_checks. rewrite Henc; [done |].
    unfold wrap. by rewrite Z.mod_mod.
  - destruct regs as [|r0 [|r1 [|]]]; try done. destruct (regs_32_decoded r0 r1 o Hr) as (Hrange & Henc).
    cbn [decode_registers] in Hd. rewrite decide_False in Hd by done. injection Hd as <-.
    unfold encode_registers. cbn [ProtoValue_as_i64 ok_or result_bind].
    pose proof (to_signed_range 32 (from_be_bytes (reorder_bytes_32 r0 r1 o)) ltac:(lia)) as Hsr.
    change (32 - 1) with 31 in Hsr. range_checks. rewrite Henc; [done |].
    rewrite wrap_to_signed by lia. unfold wrap. by rewrite Z.mod_mod.
  - cbn [decode_registers] in Hd. rewrite Hl in Hd. injection Hd as <-. by apply encode_64.
  - cbn [decode_registers] in Hd. rewrite Hl in Hd. injection Hd as <-. by apply encode_64.
  - destruct regs as [|r0 [|r1 [|]]]; try done. destruct (regs_32_decoded r0 r1 o Hr) as (Hrange & Henc).
    cbn [decode_registers] in Hd. destruct (f32_is_finite _) eqn:Hfin; [| done]. injection Hd as <-.
    destruct (f32_finite_exact _ Hrange Hfin) as [Hback Hf64].
    unfold encode_registers. cbn [ProtoValue_as_f64 ok_or result_bind]. rewrite Hf64, Hback. cbn [negb].
    rewrite Henc; done.
  - cbn [decode_registers] in Hd. rewrite Hl in Hd. cbn [Nat.ltb Nat.leb] in Hd.
    destruct (f64_is_finite _) eqn:Hfin; [| done]. injection Hd as <-.
    unfold encode_registers. cbn [ProtoValue_as_f64 ok_or result_bind]. rewrite Hfin. cbn [negb].
    rewrite (registers_of_64_regs regs) by (done || by apply wrap_small, regs_64_range). done.
Qed.

(** * Failures *)

(** No integer is silently truncated: a value outside the range of a 16- or
    32-bit format is refused with the value, and is never written. *)
Theorem encode_range_errors f z o :
  (f = FUInt16 \/ f = FInt16 \/ f = FUInt32 \/ f = FInt32) -> ~ fits f (PInteger z) ->
  encode_registers (PInteger z) f o = Err (OutOfRange z).
Proof.
  intros Hf Hn. destruct Hf as [-> | [-> | [-> | ->]]]; cbn [fits] in Hn;
    unfold encode_registers; cbn [ProtoValue_as_i64 ok_or result_bind];
    match goal with |- context [(?a <? ?b) || (?c <? ?d)] => destruct (Z.ltb_spec a b), (Z.ltb_spec c d) end;
    cbn [orb]; done || lia.
Qed.

(** The finiteness check of the [Float32] encoder precedes the narrowing: a finite
    [f64] above the [f32] range is written as infinity, which the decoder of the
    same format rejects. *)
Theorem float32_overflow_written_as_infinity :
  let v := f64_of_Z (10 ^ 39) in
  f64_is_finite v = true /\
  encode_registers (PFloat v) FFloat32 Abcd = Ok [0x7F80; 0x0000] /\
  decode_registers [0x7F80; 0x0000] FFloat32 Abcd None = Err (InvalidData "Invalid float32 value").
Proof. vm_compute. repeat split; reflexivity. Qed.

(** The names [BYTE_SWAP] and [WORD_SWAP] are exchanged: the first selects the order
    that exchanges the two registers, the second the one that exchanges the bytes
    within each register; and the order [BA] the mapping API accepts is read as
    big-endian. *)
Theorem byte_order_names_exchanged :
  reorder_bytes_32 0xAABB 0xCCDD (parse_byte_order "BYTE_SWAP") = [0xCC; 0xDD; 0xAA; 0xBB] /\
  reorder_bytes_32 0xAABB 0xCCDD (parse_byte_order "WORD_SWAP") = [0xBB; 0xAA; 0xDD; 0xCC] /\
  parse_byte_order "BA" = Abcd.
Proof. vm_compute. repeat split; reflexivity. Qed.

(** * Witnesses *)

Lemma encode_decode_registers_witness :
  exists regs, encode_registers (PInteger (-5)) FInt32 Cdab = Ok regs /\ Forall (is_uint 16) regs /\
    (FInt32 <> FString -> length regs = DataFormat_register_count FInt32) /\
    decode_registers regs FInt32 Cdab None = Ok (PInteger (-5)).
Proof. apply encode_decode_registers. cbn. lia. Defined.

Lemma decode_encode_registers_witness :
  encode_registers (PFloat (f64_of_Z 42)) FFloat32 Dcba = Ok [0x0000; 0x2842].
Proof.
  apply (decode_encode_registers FFloat32 Dcba None); [done | done | | done | vm_compute; reflexivity].
  solve_bytes; unfold is_uint; lia.
Defined.

Lemma encode_range_errors_witness :
  encode_registers (PInteger 70000) FUInt16 Abcd = Err (OutOfRange 70000).
Proof. apply encode_range_errors; [by left | cbn; lia]. Defined.
