(* ===== verification/Modbus.v ===== *)
(** The Modbus adapter of comsrv: [protocols/adapters/modbus_poll.rs] (segments and
    batched reading), [protocols/adapters/command_batcher.rs] (write batching) and
    [protocols/adapters/modbus.rs] (the channel), with the point configuration of
    [protocols/core/point.rs] and the counters of [protocols/core/diagnostics.rs].

    The client of the [voltage_modbus] crate is the class [ModbusClient]: its calls
    are parameters that pass the client's state on, and [ModbusDevice] states what the
    Modbus protocol promises of them.  A register is a 16-bit [Z], an [f64] its bit
    pattern.  Messages of failed writes are constructors; the clock of a data point,
    log lines and packet callbacks are left out.  The map of point groups is a [gmap]
    and the order it iterates in a parameter. *)
From stdpp Require Import base numbers list gmap strings sorting.
From Stdlib Require Import ZArith Lia.
From S2P Require Import Prelude PointTypes Registers Listener Reconnect ChannelTask.
Local Open Scope Z_scope.
Set Warnings "-clear-no-such-hyp".

(** * Point configuration *)

Record TransformConfig := mkTransformConfig {
  tf_scale : Z;
  tf_offset : Z;
  tf_reverse : bool;
  tf_deadband : option Z;
  tf_min_value : option Z;
  tf_max_value : option Z;
}.
(** The derived [Default]: every number is zero, the scale too. *)
Definition TransformConfig_default : TransformConfig := mkTransformConfig f64_zero f64_zero false None None None.
Definition default_scale : Z := f64_one.
Definition TransformConfig_linear (scale offset : Z) : TransformConfig := mkTransformConfig scale offset false None None None.
Definition TransformConfig_apply (t : TransformConfig) (raw : Z) : Z := f64_add (f64_mul raw (tf_scale t)) (tf_offset t).
Definition TransformConfig_reverse_apply (t : TransformConfig) (value : Z) : result Z GatewayError :=
  if f64_eqb (tf_scale t) f64_zero then Err (DataConversion "Cannot reverse transform: scale is zero")
  else Ok (f64_div (f64_sub value (tf_offset t)) (tf_scale t)).
Definition TransformConfig_apply_bool (t : TransformConfig) (raw : bool) : bool := if tf_reverse t then negb raw else raw.

Record ModbusAddress := mkModbusAddress {
  ad_slave_id : Z;
  ad_function_code : Z;
  ad_register : Z;
  ad_format : DataFormat;
  ad_byte_order : ByteOrder;
  ad_bit_position : option Z;
}.
Definition ModbusAddress_holding_register (slave_id register : Z) (format : DataFormat) : ModbusAddress :=
  mkModbusAddress slave_id 3 register format Abcd None.
Definition ModbusAddress_coil (slave_id register : Z) : ModbusAddress := mkModbusAddress slave_id 1 register FBool Abcd None.
Definition ModbusAddress_register_count (a : ModbusAddress) : Z := Z.of_nat (DataFormat_register_count (ad_format a)).

Record Iec61850Address := mkIec61850Address { ia_domain : string; ia_item : string; ia_ctrl_model : Z }.
Record ZigbeeAddress := mkZigbeeAddress { za_ieee_address : Z; za_endpoint : Z; za_cluster_id : Z; za_attribute_id : Z }.
(** The addresses of the other protocols carry nothing the modelled adapters look at. *)
Inductive ProtocolAddress := AddrModbus (a : ModbusAddress) | AddrIec61850 (a : Iec61850Address) | AddrZigbee (a : ZigbeeAddress) | AddrOther (protocol : string).

Record PointConfig := mkPointConfig {
  pc_id : Z;
  pc_point_type : PointType;
  pc_name : option string;
  pc_address : ProtocolAddress;
  pc_transform : TransformConfig;
  pc_poll_group : option string;
  pc_enabled : bool;
}.
Definition PointConfig_new (id : Z) (pt : PointType) (address : ProtocolAddress) : PointConfig :=
  mkPointConfig id pt None address TransformConfig_default None true.
Definition PointConfig_with_transform (p : PointConfig) (t : TransformConfig) : PointConfig :=
  mkPointConfig (pc_id p) (pc_point_type p) (pc_name p) (pc_address p) t (pc_poll_group p) (pc_enabled p).

(** [protocols::core::quality::Quality]. *)
Inductive ProtoQuality :=
| QGood | QBad | QUncertain | QInvalid | QNotConnected | QDeviceFailure | QSensorFailure | QCommFailure | QOutOfService | QSubstituted
| QOverflow | QUnderflow | QConfigError | QLastKnown.
Record DataPoint := mkDataPoint { dp_id : Z; dp_point_type : PointType; dp_value : ProtoValue; dp_quality : ProtoQuality }.
Definition DataPoint_new (id : Z) (pt : PointType) (value : ProtoValue) : DataPoint := mkDataPoint id pt value QGood.

(** * The client *)

Class ModbusClient (C E : Type) := {
  mc_read_01 : C -> Z -> Z -> Z -> C * result (list bool) E;
  mc_read_02 : C -> Z -> Z -> Z -> C * result (list bool) E;
  mc_read_03_batch : C -> Z -> Z -> Z -> Z -> C * result (list Z) E;
  mc_read_04_batch : C -> Z -> Z -> Z -> Z -> C * result (list Z) E;
  mc_write_05 : C -> Z -> Z -> bool -> C * result unit E;
  mc_write_06 : C -> Z -> Z -> Z -> C * result unit E;
  mc_write_10 : C -> Z -> Z -> list Z -> C * result unit E;
}.

(** * Polling: [modbus_poll.rs] *)

Record RegisterSegment := mkRegisterSegment {
  rs_start_address : Z;
  rs_end_address : Z;
  rs_points : list (Z * Z * PointConfig);
}.

Definition apply_transform (value : ProtoValue) (t : TransformConfig) : ProtoValue :=
  match value with
  | PFloat v => PFloat (TransformConfig_apply t v)
  | PInteger v => PFloat (TransformConfig_apply t (f64_of_Z v))
  | PBool v => PBool (TransformConfig_apply_bool t v)
  | other => other
  end.

Definition new_segment (x : Z * Z * PointConfig) : RegisterSegment :=
  let '(addr, count, _) := x in mkRegisterSegment addr (wrap 16 (addr + count)) [x].

(** One turn of the loop: the closed segments and the one being built. *)
Definition segment_step (max_gap max_batch_size : Z) (s : list RegisterSegment * option RegisterSegment)
    (x : Z * Z * PointConfig) : list RegisterSegment * option RegisterSegment :=
  let '(segments, current) := s in
  let '(addr, count, _) := x in
  match current with
  | None => (segments, Some (new_segment x))
  | Some seg =>
      let gap := saturating_sub addr (rs_end_address seg) in
      let new_total := saturating_sub (wrap 16 (addr + count)) (rs_start_address seg) in
      if (gap <=? max_gap) && (new_total <=? max_batch_size)
      then (segments, Some (mkRegisterSegment (rs_start_address seg) (wrap 16 (addr + count)) (rs_points seg ++ [x])))
      else (segments ++ [seg], Some (new_segment x))
  end.

Definition build_register_segments (sorted_points : list (Z * Z * PointConfig)) (max_gap max_batch_size : Z)
    : list RegisterSegment :=
  let '(segments, current) := foldl (segment_step max_gap max_batch_size) ([], None) sorted_points in
  match current with Some seg => segments ++ [seg] | None => segments end.

Definition point_of (p : PointConfig) (v : ProtoValue) : Z * DataPoint :=
  (pc_id p, DataPoint_new (pc_id p) (pc_point_type p) (apply_transform v (pc_transform p))).

(** One turn of the loop over the points of a segment. *)
Definition decode_point (seg_start : Z) (registers : list Z) (x : Z * Z * PointConfig) : option (Z * DataPoint) :=
  let '(addr, count, p) := x in
  let offset := Z.to_nat (wrap 16 (addr - seg_start)) in
  let fin := (offset + Z.to_nat count)%nat in
  if (fin <=? length registers)%nat then
    match pc_address p with
    | AddrModbus a =>
        match decode_registers (take (fin - offset) (drop offset registers)) (ad_format a) (ad_byte_order a) (ad_bit_position a) with
        | Ok value => Some (point_of p value)
        | Err _ => None
        end
    | _ => None
    end
  else None.

Definition modbus_point (p : PointConfig) : option (Z * Z * PointConfig) :=
  match pc_address p with
  | AddrModbus a => Some (ad_register a, ModbusAddress_register_count a, p)
  | _ => None
  end.

Section Poll.
Context {C E : Type} `{ModbusClient C E}.

Definition read_register_segment (c : C) (slave_id function_code : Z) (seg : RegisterSegment) (max_batch_size : Z)
    : C * result (list (Z * DataPoint)) E :=
  let total_registers := wrap 16 (rs_end_address seg - rs_start_address seg) in
  let decode r := match r with
                  | Ok registers => Ok (omap (decode_point (rs_start_address seg) registers) (rs_points seg))
                  | Err e => Err e
                  end in
  if function_code =? 3 then
    let '(c, r) := mc_read_03_batch c slave_id (rs_start_address seg) total_registers max_batch_size in (c, decode r)
  else if function_code =? 4 then
    let '(c, r) := mc_read_04_batch c slave_id (rs_start_address seg) total_registers max_batch_size in (c, decode r)
  else (c, Ok []).

(** A segment that fails is logged and its points are left out. *)
Fixpoint read_segments (c : C) (slave_id function_code max_batch_size : Z) (segs : list RegisterSegment)
    : C * list (Z * DataPoint) :=
  match segs with
  | [] => (c, [])
  | seg :: segs =>
      let '(c, r) := read_register_segment c slave_id function_code seg max_batch_size in
      let '(c, rest) := read_segments c slave_id function_code max_batch_size segs in
      (c, match r with Ok batch => batch ++ rest | Err _ => rest end)
  end.

Definition read_registers_batched (c : C) (points : list PointConfig) (slave_id function_code max_batch_size max_gap : Z)
    : C * list (Z * DataPoint) :=
  match omap modbus_point points with
  | [] => (c, [])
  | sorted_points => read_segments c slave_id function_code max_batch_size (build_register_segments sorted_points max_gap max_batch_size)
  end.

Definition first_bit (bits : list bool) : ProtoValue := PBool (default false (head bits)).

Fixpoint read_coils_individually (c : C) (points : list PointConfig) (slave_id function_code : Z) : C * list (Z * DataPoint) :=
  match points with
  | [] => (c, [])
  | p :: points =>
      match pc_address p with
      | AddrIec61850 _ | AddrZigbee _ | AddrOther _ => read_coils_individually c points slave_id function_code
      | AddrModbus a =>
          let finish (cr : C * result (list bool) E) :=
            let '(c, r) := cr in
            let '(c, rest) := read_coils_individually c points slave_id function_code in
            (c, match r with Ok bits => point_of p (first_bit bits) :: rest | Err _ => rest end) in
          if function_code =? 1 then finish (mc_read_01 c slave_id (ad_register a) 1)
          else if function_code =? 2 then finish (mc_read_02 c slave_id (ad_register a) 1)
          else read_coils_individually c points slave_id function_code
      end
  end.

Definition read_point_group (c : C) (points : list PointConfig) (max_batch_size max_gap : Z) : C * list (Z * DataPoint) :=
  match points with
  | [] => (c, [])
  | p :: _ =>
      match pc_address p with
      | AddrIec61850 _ | AddrZigbee _ | AddrOther _ => (c, [])
      | AddrModbus a =>
          if (ad_function_code a =? 1) || (ad_function_code a =? 2)
          then read_coils_individually c points (ad_slave_id a) (ad_function_code a)
          else read_registers_batched c points (ad_slave_id a) (ad_function_code a) max_batch_size max_gap
      end
  end.
End Poll.

(** * Write batching: [command_batcher.rs] *)

Definition BATCH_WINDOW_MS : Z := 20.
Definition MAX_BATCH_SIZE : nat := 100.

Record BatchCommand := mkBatchCommand {
  bc_point_id : Z;
  bc_value : ProtoValue;
  bc_slave_id : Z;
  bc_function_code : Z;
  bc_register_address : Z;
  bc_data_format : DataFormat;
  bc_byte_order : ByteOrder;
}.
Definition BatchCommand_count (c : BatchCommand) : Z := Z.of_nat (DataFormat_register_count (bc_data_format c)).

(** Times are milliseconds of the monotonic clock. *)
Record CommandBatcher := mkCommandBatcher {
  cb_pending_commands : gmap (Z * Z) (list BatchCommand);
  cb_last_batch_time : Z;
  cb_total_pending : nat;
}.
Definition CommandBatcher_new (now : Z) : CommandBatcher := mkCommandBatcher ∅ now 0.
Definition CommandBatcher_pending_count (b : CommandBatcher) : nat := cb_total_pending b.
Definition CommandBatcher_should_execute (b : CommandBatcher) (now : Z) : bool :=
  (BATCH_WINDOW_MS <=? now - cb_last_batch_time b) || (MAX_BATCH_SIZE <=? cb_total_pending b)%nat.
Definition CommandBatcher_take_commands (b : CommandBatcher) (now : Z) : CommandBatcher * gmap (Z * Z) (list BatchCommand) :=
  (mkCommandBatcher ∅ now 0, cb_pending_commands b).
Definition CommandBatcher_add_command (b : CommandBatcher) (c : BatchCommand) : CommandBatcher :=
  let key := (bc_slave_id c, bc_function_code c) in
  mkCommandBatcher (<[key := default [] (cb_pending_commands b !! key) ++ [c]]> (cb_pending_commands b))
    (cb_last_batch_time b) (S (cb_total_pending b)).

(** [slice::sort_by_key], a stable sort. *)
Section SortByKey.
Context {A : Type} (key : A -> Z).
Fixpoint insert_by_key (x : A) (l : list A) : list A :=
  match l with
  | [] => [x]
  | y :: l' => if key x <=? key y then x :: l else y :: insert_by_key x l'
  end.
Definition sort_by_key (l : list A) : list A := foldr insert_by_key [] l.
End SortByKey.

Fixpoint consecutive_from (expected_addr : Z) (cmds : list BatchCommand) : bool :=
  match cmds with
  | [] => true
  | c :: cmds =>
      if negb (bc_register_address c =? expected_addr) then false
      else consecutive_from (wrap 16 (expected_addr + BatchCommand_count c)) cmds
  end.
Definition are_strictly_consecutive (commands : list BatchCommand) : bool :=
  if (length commands <? 2)%nat then false
  else
    let sorted := sort_by_key bc_register_address commands in
    match sorted with
    | [] => false
    | c :: _ => consecutive_from (bc_register_address c) sorted
    end.

(** * The channel: [modbus.rs] *)

Record AtomicDiagnostics := mkAtomicDiagnostics { dg_read_count : Z; dg_write_count : Z; dg_error_count : Z; dg_last_error : option GatewayError }.
Definition AtomicDiagnostics_new : AtomicDiagnostics := mkAtomicDiagnostics 0 0 0 None.
Definition AtomicDiagnostics_add_read (d : AtomicDiagnostics) (n : nat) : AtomicDiagnostics :=
  mkAtomicDiagnostics (wrapping_add 64 (dg_read_count d) (Z.of_nat n)) (dg_write_count d) (dg_error_count d) (dg_last_error d).
Definition AtomicDiagnostics_add_write (d : AtomicDiagnostics) (n : nat) : AtomicDiagnostics :=
  mkAtomicDiagnostics (dg_read_count d) (wrapping_add 64 (dg_write_count d) (Z.of_nat n)) (dg_error_count d) (dg_last_error d).
Definition AtomicDiagnostics_add_error (d : AtomicDiagnostics) (n : nat) : AtomicDiagnostics :=
  mkAtomicDiagnostics (dg_read_count d) (dg_write_count d) (wrapping_add 64 (dg_error_count d) (Z.of_nat n)) (dg_last_error d).
Definition AtomicDiagnostics_record_error (d : AtomicDiagnostics) (e : GatewayError) : AtomicDiagnostics :=
  mkAtomicDiagnostics (dg_read_count d) (dg_write_count d) (wrapping_add 64 (dg_error_count d) 1) (Some e).

Definition DEFAULT_MAX_BATCH_SIZE : Z := 64.
Definition DEFAULT_MAX_GAP : Z := 10.

(** The fields of [ModbusChannelConfig] that polling and writing use; address,
    timeouts and serial format belong to [create_client]. *)
Record ModbusChannelConfig := mkModbusChannelConfig {
  mcf_points : list PointConfig;
  mcf_max_batch_size : Z;
  mcf_max_gap : Z;
}.

Inductive PointError := NotConnectedFailure | NoResponse.
Record PointFailure := mkPointFailure { pf_point_id : Z; pf_error : PointError }.
Record PollResult := mkPollResult { pr_data : list DataPoint; pr_failures : list PointFailure }.

(** The message of a failed write, with what it mentions. *)
Inductive WriteError (E : Type) :=
| PointNotFound
| InvalidAddressType
| UnsupportedFunctionCode (fc : Z)
| ControlWriteFailed (slave reg : Z) (e : E)
| ReverseTransformFailed (e : GatewayError)
| EncodeFailed (slave reg : Z) (e : GatewayError)
| WriteFailed (slave reg : Z) (e : E)
| NonNumericValue (v : ProtoValue) (slave reg : Z)
| MergeNonNumeric (v : ProtoValue) (reg : Z)
| MergeEncodeFailed (reg : Z) (e : GatewayError)
| MergeWriteFailed (slave first last : Z) (e : E).
Arguments PointNotFound {E}.
Arguments InvalidAddressType {E}.
Arguments UnsupportedFunctionCode {E} fc.
Arguments ControlWriteFailed {E} slave reg e.
Arguments ReverseTransformFailed {E} e.
Arguments EncodeFailed {E} slave reg e.
Arguments WriteFailed {E} slave reg e.
Arguments NonNumericValue {E} v slave reg.
Arguments MergeNonNumeric {E} v reg.
Arguments MergeEncodeFailed {E} reg e.
Arguments MergeWriteFailed {E} slave first last e.

Record WriteResult (E : Type) := mkWriteResult { wr_success_count : nat; wr_failures : list (Z * WriteError E) }.
Arguments mkWriteResult {E} wr_success_count wr_failures.
Arguments wr_success_count {E} w.
Arguments wr_failures {E} w.

Record ControlCommand := mkControlCommand { cc_id : Z; cc_value : bool; cc_pulse_duration_ms : option Z }.
Definition ControlCommand_latching (id : Z) (value : bool) : ControlCommand := mkControlCommand id value None.
Record AdjustmentCommand := mkAdjustmentCommand { ac_id : Z; ac_value : Z }.

Abbreviation GroupedPoints := (gmap (Z * Z) (list PointConfig)).

Record ModbusChannel (C : Type) := mkModbusChannel {
  mb_config : ModbusChannelConfig;
  mb_client : option C;
  mb_state : ConnState;
  mb_diagnostics : AtomicDiagnostics;
  mb_grouped_points : option GroupedPoints;
  mb_command_batcher : CommandBatcher;
  mb_current_group_id : Z;
  mb_log_config : LogConfig;
}.
Arguments mkModbusChannel {C}.
Arguments mb_config {C} m.
Arguments mb_client {C} m.
Arguments mb_state {C} m.
Arguments mb_diagnostics {C} m.
Arguments mb_grouped_points {C} m.
Arguments mb_command_batcher {C} m.
Arguments mb_current_group_id {C} m.
Arguments mb_log_config {C} m.

Definition group_point (groups : GroupedPoints) (p : PointConfig) : GroupedPoints :=
  match pc_address p with
  | AddrModbus a => let key := (ad_slave_id a, ad_function_code a) in <[key := default [] (groups !! key) ++ [p]]> groups
  | _ => groups
  end.
Definition register_key (p : PointConfig) : Z :=
  match pc_address p with AddrModbus a => ad_register a | _ => 2 ^ 16 - 1 end.
Definition group_points (points : list PointConfig) : GroupedPoints :=
  sort_by_key register_key <$> foldl group_point ∅ points.

Section Channel.
Context {C E : Type} `{ModbusClient C E}.

Definition ModbusChannel_new (config : ModbusChannelConfig) (now : Z) : ModbusChannel C :=
  mkModbusChannel config None CsDisconnected AtomicDiagnostics_new None (CommandBatcher_new now) 0 LogDefault.

Definition put_client (ch : ModbusChannel C) (c : option C) : ModbusChannel C :=
  mkModbusChannel (mb_config ch) c (mb_state ch) (mb_diagnostics ch) (mb_grouped_points ch) (mb_command_batcher ch)
    (mb_current_group_id ch) (mb_log_config ch).
Definition mb_set_state (ch : ModbusChannel C) (s : ConnState) : ModbusChannel C :=
  mkModbusChannel (mb_config ch) (mb_client ch) s (mb_diagnostics ch) (mb_grouped_points ch) (mb_command_batcher ch)
    (mb_current_group_id ch) (mb_log_config ch).
Definition put_diagnostics (ch : ModbusChannel C) (d : AtomicDiagnostics) : ModbusChannel C :=
  mkModbusChannel (mb_config ch) (mb_client ch) (mb_state ch) d (mb_grouped_points ch) (mb_command_batcher ch)
    (mb_current_group_id ch) (mb_log_config ch).
Definition put_batcher (ch : ModbusChannel C) (b : CommandBatcher) : ModbusChannel C :=
  mkModbusChannel (mb_config ch) (mb_client ch) (mb_state ch) (mb_diagnostics ch) (mb_grouped_points ch) b
    (mb_current_group_id ch) (mb_log_config ch).
Definition put_group_id (ch : ModbusChannel C) (n : Z) : ModbusChannel C :=
  mkModbusChannel (mb_config ch) (mb_client ch) (mb_state ch) (mb_diagnostics ch) (mb_grouped_points ch) (mb_command_batcher ch)
    n (mb_log_config ch).
Definition set_log_config (ch : ModbusChannel C) (l : LogConfig) : ModbusChannel C :=
  mkModbusChannel (mb_config ch) (mb_client ch) (mb_state ch) (mb_diagnostics ch) (mb_grouped_points ch) (mb_command_batcher ch)
    (mb_current_group_id ch) l.

(** The groups are computed on the first poll and kept. *)
Definition get_or_init_grouped_points (ch : ModbusChannel C) : ModbusChannel C * GroupedPoints :=
  match mb_grouped_points ch with
  | Some g => (ch, g)
  | None =>
      let g := group_points (mcf_points (mb_config ch)) in
      (mkModbusChannel (mb_config ch) (mb_client ch) (mb_state ch) (mb_diagnostics ch) (Some g) (mb_command_batcher ch)
         (mb_current_group_id ch) (mb_log_config ch), g)
  end.

(** [connect] with the outcome of [create_client]; a connect that is dropped by the
    caller's timeout leaves the state at Connecting. *)
Definition ModbusChannel_connect (ch : ModbusChannel C) (created : result C GatewayError) : ModbusChannel C * result unit GatewayError :=
  let ch := mb_set_state ch CsConnecting in
  match created with
  | Ok wrapper => (mb_set_state (put_client ch (Some wrapper)) CsConnected, Ok tt)
  | Err e => (put_diagnostics (mb_set_state ch CsError) (AtomicDiagnostics_record_error (mb_diagnostics ch) e), Err e)
  end.

(** Whatever closing the client returns, it is dropped. *)
Definition ModbusChannel_disconnect (ch : ModbusChannel C) : ModbusChannel C := mb_set_state (put_client ch None) CsDisconnected.

(** The loop of [poll_once] over the groups: client, read points, failures, groups
    without a response. *)
Fixpoint poll_groups (c : C) (config : ModbusChannelConfig) (groups : list (Z * Z * list PointConfig))
    : C * list DataPoint * list PointFailure * nat :=
  match groups with
  | [] => (c, [], [], O)
  | (_, points) :: groups =>
      let '(c, results) := read_point_group c points (mcf_max_batch_size config) (mcf_max_gap config) in
      let silent := bool_decide (results = [] /\ points <> []) in
      let '(c, data, failures, errors) := poll_groups c config groups in
      (c, map snd results ++ data,
       (if silent then map (fun p => mkPointFailure (pc_id p) NoResponse) points else []) ++ failures,
       ((if silent then 1 else 0) + errors)%nat)
  end.

Definition ModbusChannel_poll_once (order : GroupedPoints -> list (Z * Z * list PointConfig)) (ch : ModbusChannel C)
    : ModbusChannel C * PollResult :=
  match mb_client ch with
  | None => (ch, mkPollResult [] (map (fun p => mkPointFailure (pc_id p) NotConnectedFailure) (mcf_points (mb_config ch))))
  | Some c =>
      let '(ch, g) := get_or_init_grouped_points ch in
      let groups := order g in
      let '(c, data, failures, errors) := poll_groups c (mb_config ch) groups in
      let d := AtomicDiagnostics_add_error (AtomicDiagnostics_add_read (mb_diagnostics ch) (length data)) errors in
      (put_diagnostics (put_group_id (put_client ch (Some c)) (wrapping_add 32 (mb_current_group_id ch) (Z.of_nat (length groups)))) d,
       mkPollResult data failures)
  end.
(** ** Writing *)

Definition encode_value (value : Z) (format : DataFormat) (byte_order : ByteOrder) : result (list Z) GatewayError :=
  encode_registers (PFloat value) format byte_order.

Definition write_registers (c : C) (slave_id address : Z) (regs : list Z) : C * result unit E :=
  match regs with
  | [r] => mc_write_06 c slave_id address r
  | _ => mc_write_10 c slave_id address regs
  end.

Definition map_write_error (slave reg : Z) (cr : C * result unit E) : C * result unit (WriteError E) :=
  let '(c, r) := cr in (c, match r with Ok u => Ok u | Err e => Err (WriteFailed slave reg e) end).

Definition write_single_value (c : C) (addr : ModbusAddress) (raw_value : Z) : C * result unit (WriteError E) :=
  match encode_value raw_value (ad_format addr) (ad_byte_order addr) with
  | Err e => (c, Err (EncodeFailed (ad_slave_id addr) (ad_register addr) e))
  | Ok regs => map_write_error (ad_slave_id addr) (ad_register addr) (write_registers c (ad_slave_id addr) (ad_register addr) regs)
  end.

Definition write_single_command (c : C) (cmd : BatchCommand) : C * result unit (WriteError E) :=
  match ProtoValue_as_f64 (bc_value cmd) with
  | None => (c, Err (NonNumericValue (bc_value cmd) (bc_slave_id cmd) (bc_register_address cmd)))
  | Some raw_value =>
      match encode_value raw_value (bc_data_format cmd) (bc_byte_order cmd) with
      | Err e => (c, Err (EncodeFailed (bc_slave_id cmd) (bc_register_address cmd) e))
      | Ok regs =>
          map_write_error (bc_slave_id cmd) (bc_register_address cmd) (write_registers c (bc_slave_id cmd) (bc_register_address cmd) regs)
      end
  end.

(** The registers of the merged request, or the error of the first command that
    cannot be encoded. *)
Fixpoint merge_registers (cmds : list BatchCommand) : result (list Z) (WriteError E) :=
  match cmds with
  | [] => Ok []
  | cmd :: cmds =>
      match ProtoValue_as_f64 (bc_value cmd) with
      | None => Err (MergeNonNumeric (bc_value cmd) (bc_register_address cmd))
      | Some raw_value =>
          match encode_value raw_value (bc_data_format cmd) (bc_byte_order cmd) with
          | Err e => Err (MergeEncodeFailed (bc_register_address cmd) e)
          | Ok regs => match merge_registers cmds with Ok rest => Ok (regs ++ rest) | Err e => Err e end
          end
      end
  end.

(** [Ok count] with the failures pushed, or the client's error. *)
Definition execute_merged_fc16 (c : C) (slave_id : Z) (commands : list BatchCommand)
    : C * result nat E * list (Z * WriteError E) :=
  let sorted := sort_by_key bc_register_address commands in
  let start_addr := match sorted with c0 :: _ => bc_register_address c0 | [] => 0 end in
  match merge_registers sorted with
  | Err e => (c, Ok O, map (fun cmd => (bc_point_id cmd, e)) sorted)
  | Ok [] => (c, Ok O, [])
  | Ok registers =>
      let '(c, r) := mc_write_10 c slave_id start_addr registers in
      (c, match r with Ok _ => Ok (length commands) | Err e => Err e end, [])
  end.

(** The common loop of [write_control], [write_adjustment] and the individual branch of
    [execute_batched_commands]. *)
Fixpoint write_each {A} (one : C -> A -> C * result unit (WriteError E)) (id : A -> Z) (c : C) (cmds : list A) : C * WriteResult E :=
  match cmds with
  | [] => (c, mkWriteResult 0 [])
  | cmd :: cmds =>
      let '(c, r) := one c cmd in
      let '(c, w) := write_each one id c cmds in
      (c, match r with
          | Ok _ => mkWriteResult (S (wr_success_count w)) (wr_failures w)
          | Err e => mkWriteResult (wr_success_count w) ((id cmd, e) :: wr_failures w)
          end)
  end.

Definition write_commands (c : C) (cmds : list BatchCommand) : C * WriteResult E := write_each write_single_command bc_point_id c cmds.

Definition execute_group (c : C) (slave_id fc : Z) (commands : list BatchCommand) : C * WriteResult E :=
  if (fc =? 16) && (1 <? length commands)%nat && are_strictly_consecutive commands then
    let '(c, r, failures) := execute_merged_fc16 c slave_id commands in
    (c, match r with
        | Ok count => mkWriteResult count failures
        | Err e =>
            let first := match commands with c0 :: _ => bc_register_address c0 | [] => 0 end in
            let last := match last commands with Some c1 => bc_register_address c1 | None => 0 end in
            mkWriteResult 0 (failures ++ map (fun cmd => (bc_point_id cmd, MergeWriteFailed slave_id first last e)) commands)
        end)
  else write_commands c commands.

Fixpoint execute_groups (c : C) (batches : list (Z * Z * list BatchCommand)) : C * WriteResult E :=
  match batches with
  | [] => (c, mkWriteResult 0 [])
  | (slave_id, fc, commands) :: batches =>
      let '(c, w) := execute_group c slave_id fc commands in
      let '(c, rest) := execute_groups c batches in
      (c, mkWriteResult (wr_success_count w + wr_success_count rest) (wr_failures w ++ wr_failures rest))
  end.

Definition record_writes (d : AtomicDiagnostics) (w : WriteResult E) : AtomicDiagnostics :=
  let d := AtomicDiagnostics_add_write d (wr_success_count w) in
  match wr_failures w with [] => d | l => AtomicDiagnostics_add_error d (length l) end.

(** [None] is the error NotConnected. *)
Definition execute_batched_commands (order : gmap (Z * Z) (list BatchCommand) -> list (Z * Z * list BatchCommand))
    (ch : ModbusChannel C) (now : Z) : ModbusChannel C * option (WriteResult E) :=
  let '(b, batches) := CommandBatcher_take_commands (mb_command_batcher ch) now in
  let ch := put_batcher ch b in
  if bool_decide (batches = ∅) then (ch, Some (mkWriteResult 0 []))
  else
    match mb_client ch with
    | None => (ch, None)
    | Some c =>
        let '(c, w) := execute_groups c (order batches) in
        (put_diagnostics (put_client ch (Some c)) (record_writes (mb_diagnostics ch) w), Some w)
    end.

Definition find_point (points : list PointConfig) (id : Z) (pt : PointType) : option PointConfig :=
  snd <$> list_find (fun p => pc_id p = id /\ pc_point_type p = pt) points.

Definition bool_register (b : bool) : Z := if b then 1 else 0.

Definition control_one (points : list PointConfig) (c : C) (cmd : ControlCommand) : C * result unit (WriteError E) :=
  match find_point points (cc_id cmd) Control with
  | None => (c, Err PointNotFound)
  | Some p =>
      match pc_address p with
      | AddrIec61850 _ | AddrZigbee _ | AddrOther _ => (c, Err InvalidAddressType)
      | AddrModbus a =>
          let value := TransformConfig_apply_bool (pc_transform p) (cc_value cmd) in
          let finish (cr : C * result unit E) :=
            let '(c, r) := cr in
            (c, match r with Ok u => Ok u | Err e => Err (ControlWriteFailed (ad_slave_id a) (ad_register a) e) end) in
          if ad_function_code a =? 5 then finish (mc_write_05 c (ad_slave_id a) (ad_register a) value)
          else if ad_function_code a =? 6 then finish (mc_write_06 c (ad_slave_id a) (ad_register a) (bool_register value))
          else if ad_function_code a =? 16 then finish (mc_write_10 c (ad_slave_id a) (ad_register a) [bool_register value])
          else (c, Err (UnsupportedFunctionCode (ad_function_code a)))
      end
  end.

Definition adjust_one (points : list PointConfig) (c : C) (adj : AdjustmentCommand) : C * result unit (WriteError E) :=
  match find_point points (ac_id adj) Adjustment with
  | None => (c, Err PointNotFound)
  | Some p =>
      match pc_address p with
      | AddrIec61850 _ | AddrZigbee _ | AddrOther _ => (c, Err InvalidAddressType)
      | AddrModbus a =>
          match TransformConfig_reverse_apply (pc_transform p) (ac_value adj) with
          | Err e => (c, Err (ReverseTransformFailed e))
          | Ok raw_value => write_single_value c a raw_value
          end
      end
  end.

Definition with_client (ch : ModbusChannel C) (f : C -> C * WriteResult E) : ModbusChannel C * option (WriteResult E) :=
  match mb_client ch with
  | None => (ch, None)
  | Some c => let '(c, w) := f c in (put_diagnostics (put_client ch (Some c)) (record_writes (mb_diagnostics ch) w), Some w)
  end.
Definition ModbusChannel_write_control (ch : ModbusChannel C) (commands : list ControlCommand) : ModbusChannel C * option (WriteResult E) :=
  with_client ch (fun c => write_each (control_one (mcf_points (mb_config ch))) cc_id c commands).
Definition ModbusChannel_write_adjustment (ch : ModbusChannel C) (adjustments : list AdjustmentCommand)
    : ModbusChannel C * option (WriteResult E) :=
  with_client ch (fun c => write_each (adjust_one (mcf_points (mb_config ch))) ac_id c adjustments).
End Channel.

(** * What a Modbus device promises

    A device has 16-bit registers and bits, each in two tables: holding registers and
    coils, which can be written ([false]), and input registers and discrete inputs
    ([true]).  A read that returns a value returns what the table holds, a write that
    is confirmed has been carried out and changes nothing else, and a device that is
    up answers; registers are taken to hold still during one poll. *)

Definition store_regs (f : Z -> Z) (addr : Z) (vals : list Z) (a : Z) : Z :=
  if (addr <=? a) && (a <? addr + Z.of_nat (length vals)) then vals !!! Z.to_nat (a - addr) else f a.

Class ModbusDevice (C E : Type) `{ModbusClient C E} := {
  dev_reg : C -> bool -> Z -> Z -> Z;
  dev_bit : C -> bool -> Z -> Z -> bool;
  dev_up : C -> Prop;
}.

Definition same_memory {C E} `{ModbusDevice C E} (c c' : C) : Prop :=
  (forall t s a, dev_reg c' t s a = dev_reg c t s a) /\ (forall t s a, dev_bit c' t s a = dev_bit c t s a).

Definition answers {C E} `{ModbusDevice C E} {V} (c : C) (cr : C * result V E) : Prop :=
  dev_up c -> dev_up cr.1 /\ exists v, cr.2 = Ok v.

(** A write request, answered or not, touches nothing but the addressed registers, and
    gives those it touches their new values; a confirmed one touches them all. *)
Definition may_write {C E} `{ModbusDevice C E} (c c' : C) (slave addr : Z) (vals : list Z) : Prop :=
  (forall t s a, dev_reg c' t s a = dev_reg c t s a \/
    (t = false /\ s = slave /\ dev_reg c' t s a = store_regs (dev_reg c t s) addr vals a)) /\
  (forall t s a, dev_bit c' t s a = dev_bit c t s a).
Definition has_written {C E} `{ModbusDevice C E} (c c' : C) (slave addr : Z) (vals : list Z) : Prop :=
  (forall t s a, dev_reg c' t s a = if negb t && (s =? slave) then store_regs (dev_reg c t s) addr vals a else dev_reg c t s a) /\
  (forall t s a, dev_bit c' t s a = dev_bit c t s a).

Class ModbusDeviceSpec (C E : Type) `{ModbusDevice C E} : Prop := {
  read_01_spec c s a : same_memory c (mc_read_01 c s a 1).1 /\ answers c (mc_read_01 c s a 1) /\
    forall bits, (mc_read_01 c s a 1).2 = Ok bits -> bits = [dev_bit c false s a];
  read_02_spec c s a : same_memory c (mc_read_02 c s a 1).1 /\ answers c (mc_read_02 c s a 1) /\
    forall bits, (mc_read_02 c s a 1).2 = Ok bits -> bits = [dev_bit c true s a];
  read_03_spec c s a n lim : 0 <= a -> 0 < n -> a + n < 2 ^ 16 ->
    same_memory c (mc_read_03_batch c s a n lim).1 /\ answers c (mc_read_03_batch c s a n lim) /\
    forall regs, (mc_read_03_batch c s a n lim).2 = Ok regs -> regs = map (dev_reg c false s) (seqZ a n);
  read_04_spec c s a n lim : 0 <= a -> 0 < n -> a + n < 2 ^ 16 ->
    same_memory c (mc_read_04_batch c s a n lim).1 /\ answers c (mc_read_04_batch c s a n lim) /\
    forall regs, (mc_read_04_batch c s a n lim).2 = Ok regs -> regs = map (dev_reg c true s) (seqZ a n);
  write_06_spec c s a v : may_write c (mc_write_06 c s a v).1 s a [v] /\
    ((mc_write_06 c s a v).2 = Ok tt -> has_written c (mc_write_06 c s a v).1 s a [v]);
  write_10_spec c s a vals : may_write c (mc_write_10 c s a vals).1 s a vals /\
    ((mc_write_10 c s a vals).2 = Ok tt -> has_written c (mc_write_10 c s a vals).1 s a vals);
}.

(** * Sorting *)

Section SortLemmas.
Context {A : Type} (key : A -> Z).
Definition by_key (x y : A) : Prop := key x <= key y.

Lemma insert_by_key_perm x l : insert_by_key key x l ≡ₚ x :: l.
Proof.
  induction l as [|y l IH]; [done |]. cbn [insert_by_key]. case_match; [done |].
  rewrite IH. apply Permutation_swap.
Qed.
Lemma sort_by_key_perm l : sort_by_key key l ≡ₚ l.
Proof. induction l as [|x l IH]; [done |]. unfold sort_by_key. cbn [foldr]. by rewrite insert_by_key_perm, IH. Qed.

Lemma insert_by_key_sorted x l : StronglySorted by_key l -> StronglySorted by_key (insert_by_key key x l).
Proof.
  induction 1 as [|y l Hl IH Hy]; cbn [insert_by_key]; [by repeat constructor |].
  destruct (key x <=? key y) eqn:E.
  - apply Z.leb_le in E. constructor; [by constructor |]. constructor; [done |].
    eapply Forall_impl; [exact Hy |]. unfold by_key. intros; lia.
  - apply Z.leb_gt in E. constructor; [done |]. rewrite insert_by_key_perm. constructor; [unfold by_key; lia | done].
Qed.
Lemma sort_by_key_sorted l : StronglySorted by_key (sort_by_key key l).
Proof. induction l as [|x l IH]; [constructor |]. by apply insert_by_key_sorted. Qed.
End SortLemmas.

(** * Segments *)

Definition x_addr (x : Z * Z * PointConfig) : Z := x.1.1.
Definition x_end (x : Z * Z * PointConfig) : Z := x.1.1 + x.1.2.
Definition x_fits (x : Z * Z * PointConfig) : Prop := 0 <= x_addr x /\ 0 < x.1.2 /\ x_end x < 2 ^ 16.

Record segment_wf (seg : RegisterSegment) : Prop := {
  sw_start : 0 <= rs_start_address seg;
  sw_points : Forall (fun x => rs_start_address seg <= x_addr x /\ x_fits x) (rs_points seg);
  sw_end : exists x, x ∈ rs_points seg /\ rs_end_address seg = x_end x;
}.
Definition segment_covers (seg : RegisterSegment) : Prop := Forall (fun x => x_end x <= rs_end_address seg) (rs_points seg).

Lemma wrap16_id z : 0 <= z < 2 ^ 16 -> wrap 16 z = z.
Proof. intros. by apply Z.mod_small. Qed.

Lemma new_segment_wf x : x_fits x -> segment_wf (new_segment x) /\ segment_covers (new_segment x) /\ rs_points (new_segment x) = [x].
Proof.
  destruct x as [[a n] p]. unfold x_fits, x_addr, x_end. cbn. intros (? & ? & ?).
  assert (Hw : wrap 16 (a + n) = a + n) by (apply wrap16_id; lia).
  split; [| split; [| done]].
  - constructor; cbn; [done | repeat constructor; unfold x_fits, x_addr, x_end; cbn; lia |].
    exists (a, n, p). rewrite Hw. split; [by apply list_elem_of_singleton | done].
  - unfold segment_covers. cbn. rewrite Hw. repeat constructor. unfold x_end. cbn. lia.
Qed.

Lemma segment_wf_start seg x : segment_wf seg -> x ∈ rs_points seg -> rs_start_address seg <= x_addr x.
Proof. intros [_ Hp _] Hx. rewrite Forall_forall in Hp. by apply Hp. Qed.

(** Appending a point at or after the last ones keeps a segment well-formed, and if it
    also ends at or after them the segment still covers its points. *)
Lemma extend_segment_wf seg x : segment_wf seg -> x_fits x -> Forall (fun y => x_addr y <= x_addr x) (rs_points seg) ->
  let seg' := mkRegisterSegment (rs_start_address seg) (wrap 16 (x_end x)) (rs_points seg ++ [x]) in
  segment_wf seg' /\ (segment_covers seg -> Forall (fun y => x_end y <= x_end x) (rs_points seg) -> segment_covers seg').
Proof.
  intros Hseg Hx Hle seg'. pose proof Hx as (Ha & Hn & He).
  assert (Hw : wrap 16 (x_end x) = x_end x) by (apply wrap16_id; unfold x_end, x_addr in *; lia).
  assert (Hst : rs_start_address seg <= x_addr x).
  { destruct (sw_end _ Hseg) as (y & Hy & _). pose proof (segment_wf_start _ _ Hseg Hy). rewrite Forall_forall in Hle.
    specialize (Hle y Hy). cbn in Hle. lia. }
  split.
  - constructor; cbn; [by apply Hseg | | exists x; split; [set_solver | done]].
    apply Forall_app; split; [by apply Hseg | by repeat constructor].
  - intros _ Hends. unfold segment_covers. cbn. rewrite Hw. apply Forall_app; split; [done | repeat constructor; lia].
Qed.

Lemma strongly_sorted_snoc {A} (R : A -> A -> Prop) l x : StronglySorted R (l ++ [x]) -> StronglySorted R l /\ Forall (fun y => R y x) l.
Proof.
  induction l as [|y l IH]; cbn; [repeat constructor |]. intros Hs. inversion Hs as [|? ? Hl Hy]; subst.
  destruct (IH Hl) as [Hl' Hx]. apply Forall_app in Hy as [Hyl Hyx].
  split; constructor; try done. by inversion Hyx.
Qed.

Definition segments_of (s : list RegisterSegment * option RegisterSegment) : list RegisterSegment :=
  match s.2 with Some seg => s.1 ++ [seg] | None => s.1 end.

Lemma segment_step_spec g m xs x s : Forall (fun y => x_addr y <= x_addr x) xs -> x_fits x ->
  concat (map rs_points (segments_of s)) = xs -> Forall segment_wf (segments_of s) ->
  let s' := segment_step g m s x in
  concat (map rs_points (segments_of s')) = xs ++ [x] /\ Forall segment_wf (segments_of s') /\
  (Forall (fun y => x_end y <= x_end x) xs -> Forall segment_covers (segments_of s) -> Forall segment_covers (segments_of s')).
Proof.
  intros Hle Hx Hc Hwf s'. destruct (new_segment_wf x Hx) as (Hn1 & Hn2 & Hn3).
  destruct s as [segs [seg|]]; unfold segments_of in *; cbn [fst snd] in *.
  2: { subst s'. destruct x as [[a n] p]. cbn [segment_step fst snd]. rewrite map_app, concat_app, Hc, Forall_app.
       cbn [map concat]. rewrite Hn3, app_nil_r. split; [done |]. split; [split; [done | by apply Forall_singleton] |].
       intros _ ?. apply Forall_app. split; [done | by apply Forall_singleton]. }
  assert (Hstep : s' = (segs, Some (mkRegisterSegment (rs_start_address seg) (wrap 16 (x_end x)) (rs_points seg ++ [x])))
    \/ s' = (segs ++ [seg], Some (new_segment x))).
  { subst s'. destruct x as [[a n] p]. cbn [segment_step]. case_match; auto. }
  rewrite map_app, concat_app in Hc. cbn [map concat] in Hc. rewrite app_nil_r in Hc. clearbody s'.
  rewrite Forall_app, Forall_singleton in Hwf. destruct Hwf as [Hw1 Hw2]. subst xs. rewrite !Forall_app in *. destruct Hstep as [-> | ->]; cbn [fst snd].
  - destruct (extend_segment_wf seg x Hw2 Hx (proj2 Hle)) as [Hwf' Hcov].
    rewrite map_app, concat_app. cbn [map concat rs_points]. rewrite app_nil_r, app_assoc, !Forall_app, !Forall_singleton.
    split; [done |]. split; [done |]. intros [_ He] [? ?]. split; [done |]. by apply Hcov.
  - rewrite !map_app, !concat_app. cbn [map concat]. rewrite !app_nil_r, Hn3, !Forall_app, !Forall_singleton.
    split; [done |]. split; [done |]. intros _ [? ?]. done.
Qed.

(** The segments hold the points in their order, each read to the end of a point of
    its own, and when no point ends before an earlier one each segment covers all of
    its points. *)
Lemma build_segments_spec g m xs : StronglySorted (fun x y => x_addr x <= x_addr y) xs -> Forall x_fits xs ->
  let segs := build_register_segments xs g m in
  concat (map rs_points segs) = xs /\ Forall segment_wf segs /\
  (StronglySorted (fun x y => x_end x <= x_end y) xs -> Forall segment_covers segs).
Proof.
  intros Hs Hf segs. replace segs with (segments_of (foldl (segment_step g m) ([], None) xs))
    by (subst segs; unfold build_register_segments, segments_of; by destruct (foldl _ _ _)). clear segs.
  induction xs as [|x xs IH] using rev_ind; [by cbn |].
  apply strongly_sorted_snoc in Hs as [Hs Hx]. rewrite Forall_app, Forall_singleton in Hf. destruct Hf as [Hf Hfx].
  destruct (IH Hs Hf) as (Hc & Hw & Hcov). rewrite foldl_app. cbn [foldl].
  destruct (segment_step_spec g m xs x _ Hx Hfx Hc Hw) as (Hc' & Hw' & Hcov').
  split; [done |]. split; [done |]. intros [Hse He]%strongly_sorted_snoc. apply Hcov'; [done |]. by apply Hcov.
Qed.

(** * Reading every point by itself: the reference *)

Definition registers_reading (f : Z -> Z) (p : PointConfig) : option (Z * DataPoint) :=
  match pc_address p with
  | AddrModbus a =>
      match decode_registers (map f (seqZ (ad_register a) (ModbusAddress_register_count a))) (ad_format a) (ad_byte_order a) (ad_bit_position a) with
      | Ok value => Some (point_of p value)
      | Err _ => None
      end
  | _ => None
  end.

Lemma slice_registers (f : Z -> Z) start total addr n : start <= addr -> 0 <= n -> addr + n <= start + total ->
  take (Z.to_nat n) (drop (Z.to_nat (addr - start)) (map f (seqZ start total))) = map f (seqZ addr n).
Proof.
  intros H1 H2 H3. replace total with (addr - start + (n + (start + total - addr - n))) by lia.
  rewrite seqZ_app, seqZ_app by lia. rewrite !map_app.
  rewrite drop_app_length' by (rewrite length_map, length_seqZ; lia).
  replace (start + (addr - start)) with addr by lia.
  apply take_app_length'. rewrite length_map, length_seqZ. lia.
Qed.

Lemma decode_point_reading f start total x p : modbus_point p = Some x -> x_fits x -> 0 <= start <= x_addr x -> 0 <= total ->
  decode_point start (map f (seqZ start total)) x = if x_end x <=? start + total then registers_reading f p else None.
Proof.
  unfold modbus_point, registers_reading, x_fits, x_end, x_addr. intros Hp Hx Hs Ht. destruct (pc_address p) as [a| | |] eqn:Ha; [| done..].
  injection Hp as <-. cbn [fst snd] in *. unfold decode_point. rewrite wrap16_id by lia. rewrite length_map, length_seqZ, Ha.
  set (n := ModbusAddress_register_count a) in *. set (r := ad_register a) in *.
  replace (Z.to_nat (r - start) + Z.to_nat n - Z.to_nat (r - start))%nat with (Z.to_nat n) by lia.
  destruct (r + n <=? start + total) eqn:E.
  - apply Z.leb_le in E. rewrite (proj2 (Nat.leb_le _ _)) by lia. by rewrite slice_registers by lia.
  - apply Z.leb_gt in E. by rewrite (proj2 (Nat.leb_gt _ _)) by lia.
Qed.

Lemma omap_sublist {A B} (f g : A -> option B) (l : list A) : (forall x, x ∈ l -> f x = None \/ f x = g x) -> omap f l `sublist_of` omap g l.
Proof.
  induction l as [|x l IH]; intros Hl; [done |]. cbn [omap list_omap].
  assert (IH' : omap f l `sublist_of` omap g l) by (apply IH; set_solver).
  assert (Hx : f x = None \/ f x = g x) by (apply Hl; set_solver).
  destruct Hx as [-> | ->]; destruct (g x); by try constructor.
Qed.
Lemma omap_ext_in {A B} (f g : A -> option B) (l : list A) : (forall x, x ∈ l -> f x = g x) -> omap f l = omap g l.
Proof. induction l as [|x l IH]; intros Hl; [done |]. cbn [omap list_omap]. rewrite Hl, IH by set_solver. done. Qed.
Lemma omap_map {A B C} (f : B -> option C) (g : A -> B) (l : list A) : omap f (map g l) = omap (fun x => f (g x)) l.
Proof. induction l as [|x l IH]; [done |]. cbn [map omap list_omap]. by rewrite <- IH. Qed.

Section Reading.
Context {C E : Type} `{Client : ModbusClient C E, Device : !ModbusDevice C E, Spec : !ModbusDeviceSpec C E}.

Definition modbus_reading (c : C) (p : PointConfig) : option (Z * DataPoint) :=
  match pc_address p with
  | AddrIec61850 _ | AddrZigbee _ | AddrOther _ => None
  | AddrModbus a =>
      let fc := ad_function_code a in
      if fc =? 1 then Some (point_of p (PBool (dev_bit c false (ad_slave_id a) (ad_register a))))
      else if fc =? 2 then Some (point_of p (PBool (dev_bit c true (ad_slave_id a) (ad_register a))))
      else if fc =? 3 then registers_reading (dev_reg c false (ad_slave_id a)) p
      else if fc =? 4 then registers_reading (dev_reg c true (ad_slave_id a)) p
      else None
  end.

Lemma registers_reading_ext f g p : (forall a, f a = g a) -> registers_reading f p = registers_reading g p.
Proof.
  intros Hfg. unfold registers_reading. destruct (pc_address p); [| done..].
  by rewrite (map_ext f g).
Qed.

Lemma point_reading_same c c' p : same_memory c c' -> modbus_reading c' p = modbus_reading c p.
Proof.
  intros [Hr Hb]. unfold modbus_reading. destruct (pc_address p); [| done..].
  repeat case_match; rewrite ?Hb; try done; by apply registers_reading_ext.
Qed.

Lemma same_memory_trans c1 c2 c3 : same_memory c1 c2 -> same_memory c2 c3 -> same_memory c1 c3.
Proof. intros [H1 H2] [H3 H4]. split; intros t s a; by rewrite ?H3, ?H4. Qed.

Lemma same_memory_refl c : same_memory c c.
Proof. by split. Qed.

(** Points of one group, as the segments carry them. *)
Definition in_group (slave fc : Z) (x : Z * Z * PointConfig) : Prop :=
  modbus_point x.2 = Some x /\ exists a, pc_address x.2 = AddrModbus a /\ ad_slave_id a = slave /\ ad_function_code a = fc.

Lemma decode_group c slave fc f seg x : in_group slave fc x -> x ∈ rs_points seg -> segment_wf seg ->
  (fc = 3 /\ f = dev_reg c false slave) \/ (fc = 4 /\ f = dev_reg c true slave) ->
  let regs := map f (seqZ (rs_start_address seg) (rs_end_address seg - rs_start_address seg)) in
  decode_point (rs_start_address seg) regs x = (if x_end x <=? rs_end_address seg then modbus_reading c x.2 else None).
Proof.
  intros [Hm (a & Ha & <- & <-)] Hx Hwf Hf regs. pose proof (sw_points _ Hwf) as Hp. rewrite Forall_forall in Hp.
  destruct (Hp x Hx) as [Hst Hfit]. destruct (sw_end _ Hwf) as (y & Hy & Hend). destruct (Hp y Hy) as [Hyst (? & ? & ?)].
  pose proof (sw_start _ Hwf). subst regs. unfold x_end, x_addr in *.
  rewrite (decode_point_reading f _ _ x x.2) by (unfold x_addr; done || lia).
  replace (rs_start_address seg + (rs_end_address seg - rs_start_address seg)) with (rs_end_address seg) by lia.
  unfold x_end. case_match; [| done]. unfold modbus_reading. rewrite Ha.
  by destruct Hf as [[-> ->] | [-> ->]].
Qed.

Lemma decode_segment c slave fc f seg : Forall (in_group slave fc) (rs_points seg) -> segment_wf seg ->
  (fc = 3 /\ f = dev_reg c false slave) \/ (fc = 4 /\ f = dev_reg c true slave) ->
  let regs := map f (seqZ (rs_start_address seg) (rs_end_address seg - rs_start_address seg)) in
  let out := omap (decode_point (rs_start_address seg) regs) (rs_points seg) in
  let all := omap (fun x => modbus_reading c x.2) (rs_points seg) in
  out `sublist_of` all /\ (segment_covers seg -> out = all).
Proof.
  intros Hg Hwf Hf regs out all. rewrite Forall_forall in Hg. split.
  - apply omap_sublist. intros x Hx. subst regs. rewrite (decode_group c slave fc) by auto. case_match; auto.
  - intros Hc. unfold segment_covers in Hc. rewrite Forall_forall in Hc. apply omap_ext_in. intros x Hx. subst regs.
    rewrite (decode_group c slave fc) by auto. by rewrite (proj2 (Z.leb_le _ _)) by auto.
Qed.

(** What a read returns for [points]: nothing but their readings, in order; all of
    them when [good] holds and the device is up; and the device is left as it was. *)
Record reads_as (c : C) (points : list PointConfig) (good : Prop) (cr : C * list (Z * DataPoint)) : Prop := {
  ra_memory : same_memory c cr.1;
  ra_sound : cr.2 `sublist_of` omap (modbus_reading c) points;
  ra_up : dev_up c -> dev_up cr.1;
  ra_complete : good -> dev_up c -> cr.2 = omap (modbus_reading c) points;
}.

Lemma reads_as_nil c good points : (forall p, p ∈ points -> modbus_reading c p = None) -> reads_as c points good (c, []).
Proof.
  intros Hn. constructor; cbn; [apply same_memory_refl | apply sublist_nil_l | done |].
  intros _ _. induction points as [|p points IH]; [done |]. cbn. rewrite Hn by set_solver. apply IH. set_solver.
Qed.

Lemma reads_as_app c points1 points2 good1 good2 cr1 cr2 : reads_as c points1 good1 cr1 -> reads_as cr1.1 points2 good2 cr2 ->
  reads_as c (points1 ++ points2) (good1 /\ good2) (cr2.1, cr1.2 ++ cr2.2).
Proof.
  intros H1 H2. assert (Hsame : omap (modbus_reading cr1.1) points2 = omap (modbus_reading c) points2).
  { apply omap_ext_in. intros p _. by apply point_reading_same, H1. }
  constructor; cbn.
  - eapply same_memory_trans; [apply H1 | apply H2].
  - rewrite omap_app. apply sublist_app; [apply H1 |]. rewrite <- Hsame. apply H2.
  - intros ?. by apply H2, H1.
  - intros [? ?] ?. rewrite omap_app, <- Hsame. f_equal; [by apply H1 |]. apply H2; [done |]. by apply H1.
Qed.

(** An answered request contributes its points, a failed one none. *)
Lemma reads_as_result c points good c' (r : result (list (Z * DataPoint)) E) :
  same_memory c c' -> (dev_up c -> dev_up c' /\ exists v, r = Ok v) ->
  (forall v, r = Ok v -> v `sublist_of` omap (modbus_reading c) points /\ (good -> v = omap (modbus_reading c) points)) ->
  reads_as c points good (c', match r with Ok v => v | Err _ => [] end).
Proof.
  intros Hm Hup Hv. constructor; cbn; [done | | intros ?; by apply Hup |].
  - destruct r; [by apply Hv | apply sublist_nil_l].
  - intros Hg Hu. destruct (Hup Hu) as [_ [v ->]]. by apply (Hv v).
Qed.

Lemma other_code_unread slave fc xs c : Forall (in_group slave fc) xs -> fc <> 1 -> fc <> 2 -> fc <> 3 -> fc <> 4 ->
  forall p, p ∈ map snd xs -> modbus_reading c p = None.
Proof.
  intros Hg ? ? ? ? p Hp. rewrite Forall_forall in Hg. apply list_elem_of_fmap in Hp as (x & -> & Hx).
  destruct (Hg x Hx) as [_ (a & Ha & _ & Hfc)]. unfold modbus_reading. rewrite Ha, Hfc.
  by rewrite !(proj2 (Z.eqb_neq _ _)) by done.
Qed.

Lemma read_segment_spec c slave fc seg lim : Forall (in_group slave fc) (rs_points seg) -> segment_wf seg -> fc <> 1 -> fc <> 2 ->
  let cr := read_register_segment c slave fc seg lim in
  reads_as c (map snd (rs_points seg)) (segment_covers seg) (cr.1, match cr.2 with Ok v => v | Err _ => [] end).
Proof.
  intros Hg Hwf H1 H2. unfold read_register_segment.
  destruct (sw_end _ Hwf) as (y & Hy & Hend). pose proof (sw_points _ Hwf) as Hp. rewrite Forall_forall in Hp.
  destruct (Hp y Hy) as [Hys (Hy0 & Hyn & Hye)]. pose proof (sw_start _ Hwf) as Hs.
  rewrite wrap16_id by (unfold x_end, x_addr in *; lia). set (n := rs_end_address seg - rs_start_address seg).
  assert (Hn : 0 < n /\ rs_start_address seg + n < 2 ^ 16) by (unfold n, x_end, x_addr in *; lia). destruct Hn as [Hn1 Hn2].
  destruct (Z.eqb_spec fc 3) as [-> | H3]; [| destruct (Z.eqb_spec fc 4) as [-> | H4]].
  - destruct (read_03_spec c slave _ n lim Hs Hn1 Hn2) as (Hm & Hup & Hv). destruct (mc_read_03_batch _ _ _ _ _) as [c' r].
    unfold answers in Hup. cbn in *. apply reads_as_result; [done | |].
    + intros [? [v ->]]%Hup. split; [done |]. by eexists.
    + intros v Hr. destruct r as [regs|]; [injection Hr as <- | done]. rewrite omap_map, (Hv regs) by done.
      apply (decode_segment c slave 3); auto.
  - destruct (read_04_spec c slave _ n lim Hs Hn1 Hn2) as (Hm & Hup & Hv). destruct (mc_read_04_batch _ _ _ _ _) as [c' r].
    unfold answers in Hup. cbn in *. apply reads_as_result; [done | |].
    + intros [? [v ->]]%Hup. split; [done |]. by eexists.
    + intros v Hr. destruct r as [regs|]; [injection Hr as <- | done]. rewrite omap_map, (Hv regs) by done.
      apply (decode_segment c slave 4); auto.
  - apply reads_as_nil. by apply (other_code_unread slave fc).
Qed.

Lemma reads_as_weaken c points (good good' : Prop) cr : (good' -> good) -> reads_as c points good cr -> reads_as c points good' cr.
Proof. intros Hg []. constructor; auto. Qed.

Lemma read_segments_spec segs c slave fc lim : Forall (in_group slave fc) (concat (map rs_points segs)) -> Forall segment_wf segs ->
  fc <> 1 -> fc <> 2 ->
  reads_as c (map snd (concat (map rs_points segs))) (Forall segment_covers segs) (read_segments c slave fc lim segs).
Proof.
  revert c. induction segs as [|seg segs IH]; intros c Hg Hw H1 H2; cbn [read_segments].
  { apply reads_as_nil. set_solver. }
  cbn [map concat] in *. apply Forall_app in Hg as [Hg Hgs]. inversion Hw as [|? ? Hseg Hsegs]; subst.
  pose proof (read_segment_spec c slave fc seg lim Hg Hseg H1 H2) as Hr. destruct (read_register_segment _ _ _ _ _) as [c1 r]. cbn in Hr.
  specialize (IH c1 Hgs Hsegs H1 H2). destruct (read_segments _ _ _ _ _) as [c2 rest].
  pose proof (reads_as_app _ _ _ _ _ _ _ Hr IH) as Happ. cbn in Happ. rewrite map_app.
  eapply reads_as_weaken; [| destruct r; exact Happ]. by intros [??]%Forall_cons.
Qed.

(** ** A group of points *)

Definition has_key (key : Z * Z) (p : PointConfig) : Prop :=
  exists a, pc_address p = AddrModbus a /\ (ad_slave_id a, ad_function_code a) = key.
Definition register_end (p : PointConfig) : Z :=
  match pc_address p with AddrModbus a => ad_register a + ModbusAddress_register_count a | _ => 0 end.
(** The registers of a point lie below the last address of the device. *)
Definition point_fits (p : PointConfig) : Prop := 0 <= register_key p /\ register_end p < 2 ^ 16.

Lemma count_pos a : 0 < ModbusAddress_register_count a.
Proof. unfold ModbusAddress_register_count. destruct (ad_format a); cbn; lia. Qed.

Lemma group_triples slave fc points : Forall (has_key (slave, fc)) points ->
  exists xs, omap modbus_point points = xs /\ map snd xs = points /\ Forall (in_group slave fc) xs /\
    map x_addr xs = map register_key points /\ map x_end xs = map register_end points /\
    (Forall point_fits points -> Forall x_fits xs).
Proof.
  induction 1 as [|p points (a & Ha & Hk) Hpoints (xs & Hxs & Hsnd & Hg & Hadr & Hend & Hfit)]; [by exists [] |].
  exists ((ad_register a, ModbusAddress_register_count a, p) :: xs). injection Hk as <- <-.
  assert (Hrk : register_key p = ad_register a) by (unfold register_key; by rewrite Ha).
  assert (Hre : register_end p = ad_register a + ModbusAddress_register_count a) by (unfold register_end; by rewrite Ha).
  assert (Hmp : modbus_point p = Some (ad_register a, ModbusAddress_register_count a, p)) by (unfold modbus_point; by rewrite Ha).
  cbn [omap list_omap map snd]. rewrite Hmp, Hsnd, Hadr, Hend, Hrk, Hre. split; [by rewrite <- Hxs |]. split; [done |].
  split; [constructor; [split; [done | by exists a] | done] |]. split; [done |]. split; [done |].
  intros [Hp ?]%Forall_cons. constructor; [| auto]. unfold point_fits in Hp. rewrite Hrk, Hre in Hp. pose proof (count_pos a).
  unfold x_fits, x_addr, x_end. cbn. lia.
Qed.

Lemma strongly_sorted_map {A B} (f : A -> B) (R : B -> B -> Prop) l :
  StronglySorted (fun x y => R (f x) (f y)) l <-> StronglySorted R (map f l).
Proof.
  induction l as [|x l IH]; [split; constructor |]. cbn. split; intros Hs; inversion Hs as [|? ? Hl Hx]; subst; constructor.
  - by apply IH.
  - apply (Forall_fmap f). exact Hx.
  - by apply IH.
  - apply (Forall_fmap f) in Hx. exact Hx.
Qed.

Lemma registers_batched_spec c points slave fc lim gap : Forall (has_key (slave, fc)) points -> Forall point_fits points ->
  StronglySorted (by_key register_key) points -> fc <> 1 -> fc <> 2 ->
  reads_as c points (StronglySorted (by_key register_end) points) (read_registers_batched c points slave fc lim gap).
Proof.
  intros Hk Hf Hs H1 H2. destruct (group_triples slave fc points Hk) as (xs & Hxs & Hsnd & Hg & Hadr & Hend & Hfit).
  unfold by_key in *. rewrite (strongly_sorted_map register_key Z.le), <- Hadr, <- strongly_sorted_map in Hs.
  unfold read_registers_batched. rewrite Hxs.
  destruct (build_segments_spec gap lim xs Hs (Hfit Hf)) as (Hc & Hw & Hcov).
  assert (Hr : reads_as c points (StronglySorted (fun x y => register_end x <= register_end y) points)
    (read_segments c slave fc lim (build_register_segments xs gap lim))).
  { rewrite <- Hsnd at 1. rewrite <- Hc at 1. eapply reads_as_weaken; [| apply read_segments_spec; by rewrite ?Hc].
    intros Hends. apply Hcov. by rewrite (strongly_sorted_map x_end Z.le), Hend, <- strongly_sorted_map. }
  destruct xs; [| done]. cbn in Hsnd. subst points. by apply reads_as_nil; set_solver.
Qed.

Lemma coils_spec points c slave fc : Forall (has_key (slave, fc)) points -> fc = 1 \/ fc = 2 ->
  reads_as c points True (read_coils_individually c points slave fc).
Proof.
  intros Hk Hfc. revert c. induction Hk as [|p points (a & Ha & Hk) _ IH]; intros c; cbn [read_coils_individually].
  { apply reads_as_nil. set_solver. }
  rewrite Ha. injection Hk as <- <-. change (p :: points) with ([p] ++ points).
  assert (Hone : forall t (cr : C * result (list bool) E), ad_function_code a = (if t : bool then 2 else 1) ->
    same_memory c cr.1 -> answers c cr -> (forall bits, cr.2 = Ok bits -> bits = [dev_bit c t (ad_slave_id a) (ad_register a)]) ->
    reads_as c [p] True (cr.1, match (match cr.2 with Ok bits => Ok [point_of p (first_bit bits)] | Err e => Err e end) with Ok v => v | Err _ => [] end)).
  { intros t [c' r] Hcode Hm Hup Hv. unfold answers in Hup. cbn in *. apply reads_as_result; [done | |].
    - intros [? [v ->]]%Hup. split; [done | by eexists].
    - intros v Hr. destruct r as [bits|]; [injection Hr as <- | done]. rewrite (Hv bits) by done. cbn.
      unfold modbus_reading. rewrite Ha, Hcode. by destruct t. }
  assert (Hcons : forall cr, reads_as c [p] True (cr.1, match (match cr.2 with Ok bits => Ok [point_of p (first_bit bits)] | Err e => Err e end : result (list (Z * DataPoint)) E) with Ok v => v | Err _ => [] end) ->
    reads_as c ([p] ++ points) True (let '(c, r) := cr in let '(c, rest) := read_coils_individually c points (ad_slave_id a) (ad_function_code a) in
      (c, match r with Ok bits => point_of p (first_bit bits) :: rest | Err _ => rest end))).
  { intros [c' r] Hr. pose proof (reads_as_app _ _ _ _ _ _ _ Hr (IH c')) as Happ. cbn in Happ.
    destruct (read_coils_individually _ _ _ _) as [c2 rest]. eapply reads_as_weaken; [| destruct r; exact Happ]. done. }
  destruct Hfc as [Hfc | Hfc]; rewrite Hfc in *; cbn [Z.eqb Pos.eqb].
  - apply Hcons. destruct (read_01_spec c (ad_slave_id a) (ad_register a)) as (? & ? & ?). by apply (Hone false).
  - apply Hcons. destruct (read_02_spec c (ad_slave_id a) (ad_register a)) as (? & ? & ?). by apply (Hone true).
Qed.

Lemma point_group_spec c points key lim gap : Forall (has_key key) points -> Forall point_fits points ->
  StronglySorted (by_key register_key) points ->
  reads_as c points (StronglySorted (by_key register_end) points) (read_point_group c points lim gap).
Proof.
  destruct key as [slave fc]. intros Hk Hf Hs. unfold read_point_group. destruct points as [|p points].
  { apply reads_as_nil. set_solver. }
  inversion Hk as [|? ? (a & Ha & Hkey) _]; subst. rewrite Ha. injection Hkey as -> ->.
  destruct (Z.eqb_spec fc 1) as [-> |]; [| destruct (Z.eqb_spec fc 2) as [-> |]]; cbn [orb].
  - eapply reads_as_weaken; [| apply coils_spec; auto]. done.
  - eapply reads_as_weaken; [| apply coils_spec; auto]. done.
  - by apply registers_batched_spec.
Qed.

(** ** All groups *)

Definition groups_points (groups : list (Z * Z * list PointConfig)) : list PointConfig := groups ≫= snd.
Definition group_wf (g : Z * Z * list PointConfig) : Prop :=
  Forall (has_key g.1) g.2 /\ Forall point_fits g.2 /\ StronglySorted (by_key register_key) g.2.
Definition group_good (g : Z * Z * list PointConfig) : Prop := StronglySorted (by_key register_end) g.2.

Lemma poll_groups_spec config groups : Forall group_wf groups -> forall c,
  let '(c', data, failures, _) := poll_groups c config groups in
  exists results, data = map snd results /\ reads_as c (groups_points groups) (Forall group_good groups) (c', results) /\
    (Forall group_good groups -> dev_up c -> Forall (fun f => exists g p, g ∈ groups /\ p ∈ g.2 /\
       f = mkPointFailure (pc_id p) NoResponse /\ omap (modbus_reading c) g.2 = []) failures).
Proof.
  induction 1 as [|[key points] groups (Hk & Hf & Hs) _ IH]; intros c.
  { exists []. split; [done |]. split; [apply reads_as_nil; set_solver | constructor]. }
  cbn [poll_groups fst snd] in *. pose proof (point_group_spec c points key (mcf_max_batch_size config) (mcf_max_gap config) Hk Hf Hs) as Hg.
  destruct (read_point_group _ _ _ _) as [c1 results]. specialize (IH c1).
  destruct (poll_groups c1 config groups) as [[[c2 data] failures] errors]. destruct IH as (results2 & -> & Hr & Hfail).
  exists (results ++ results2). split; [by rewrite map_app |].
  assert (Hgood : Forall group_good ((key, points) :: groups) -> StronglySorted (by_key register_end) points /\ Forall group_good groups).
  { by intros [? ?]%Forall_cons. }
  split; [eapply reads_as_weaken; [exact Hgood | exact (reads_as_app _ _ _ _ _ _ _ Hg Hr)] |].
  intros [Hend Hgs]%Hgood Hup. apply Forall_app. split.
  - case_bool_decide as Hsil; [| constructor]. destruct Hsil as [-> _]. apply Forall_forall. intros f (p & -> & Hp)%list_elem_of_fmap.
    exists (key, points), p. split; [set_solver |]. split; [done |]. split; [done |].
    exact (eq_sym (ra_complete _ _ _ _ Hg Hend Hup)).
  - eapply Forall_impl; [apply Hfail; [done | by apply Hg] |]. intros f (g & p & Hgin & Hp & -> & Hnone).
    exists g, p. split; [set_solver |]. split; [done |]. split; [done |]. rewrite <- Hnone. apply omap_ext_in. intros q _.
    symmetry. apply point_reading_same, Hg.
Qed.
End Reading.

(** * Grouping *)

Lemma insert_group_perm (m : gmap (Z * Z) (list PointConfig)) k p :
  groups_points (map_to_list (<[k := default [] (m !! k) ++ [p]]> m)) ≡ₚ p :: groups_points (map_to_list m).
Proof.
  unfold groups_points. destruct (m !! k) as [l|] eqn:Hk; cbn [default].
  - rewrite <- insert_delete_eq, map_to_list_insert by apply lookup_delete_eq. rewrite <- (map_to_list_delete m k l Hk). cbn.
    rewrite <- app_assoc. symmetry. apply Permutation_middle.
  - rewrite map_to_list_insert by done. done.
Qed.

(** Every group holds points of its key, all from the configuration, and together they
    hold every Modbus point once. *)
Lemma group_fold_spec pts :
  let m := foldl group_point ∅ pts in
  groups_points (map_to_list m) ≡ₚ filter (fun p => is_Some (modbus_point p)) pts /\
  (forall k l, m !! k = Some l -> Forall (has_key k) l).
Proof.
  induction pts as [|p pts [IH1 IH2]] using rev_ind; [split; [done |]; intros k l; cbn; by rewrite lookup_empty |].
  rewrite foldl_app, filter_app, filter_cons, filter_nil. cbn [foldl]. set (m := foldl group_point ∅ pts) in *.
  unfold group_point. destruct (pc_address p) as [a| | |] eqn:Ha.
  - rewrite decide_True by (unfold modbus_point; rewrite Ha; by eexists). split; [rewrite insert_group_perm, IH1; apply Permutation_cons_append |].
    intros k l. rewrite lookup_insert_Some. intros [[<- <-] | [_ Hl]]; [| by apply IH2].
    apply Forall_app. split; [| constructor; [by exists a | done]].
    destruct (m !! _) as [l|] eqn:Hl; [by apply IH2 | constructor].
  - rewrite decide_False by (unfold modbus_point; rewrite Ha; by intros [? ?]). by rewrite app_nil_r.
  - rewrite decide_False by (unfold modbus_point; rewrite Ha; by intros [? ?]). by rewrite app_nil_r.
  - rewrite decide_False by (unfold modbus_point; rewrite Ha; by intros [? ?]). by rewrite app_nil_r.
Qed.

Lemma sort_groups_perm (l : list (Z * Z * list PointConfig)) :
  groups_points (map (prod_map id (sort_by_key register_key)) l) ≡ₚ groups_points l.
Proof. induction l as [|[k g] l IH]; [done |]. cbn. apply Permutation_app; [apply sort_by_key_perm | exact IH]. Qed.

Definition group_order_ok (order : GroupedPoints -> list (Z * Z * list PointConfig)) : Prop := forall g, order g ≡ₚ map_to_list g.

(** No point ends before a point of its group that starts at or before it. *)
Definition no_nesting (pts : list PointConfig) : Prop :=
  forall p q k, p ∈ pts -> q ∈ pts -> has_key k p -> has_key k q -> register_key p <= register_key q -> register_end p <= register_end q.

Lemma strongly_sorted_impl {A} (R S : A -> A -> Prop) (l : list A) : (forall x y, x ∈ l -> y ∈ l -> R x y -> S x y) ->
  StronglySorted R l -> StronglySorted S l.
Proof.
  intros HRS. induction 1 as [|x l Hl IH Hx]; constructor; [apply IH; set_solver |].
  rewrite Forall_forall in *. intros y Hy. apply HRS; [set_solver | set_solver | by apply Hx].
Qed.

Lemma group_points_spec order pts : group_order_ok order ->
  let groups := order (group_points pts) in
  groups_points groups ≡ₚ filter (fun p => is_Some (modbus_point p)) pts /\
  (Forall point_fits pts -> Forall group_wf groups) /\ (no_nesting pts -> Forall group_good groups).
Proof.
  intros Ho groups. destruct (group_fold_spec pts) as [Hperm Hkey]. unfold groups, group_points in *. set (m := foldl group_point ∅ pts) in *.
  assert (Hp : groups_points (order (sort_by_key register_key <$> m)) ≡ₚ filter (fun p => is_Some (modbus_point p)) pts).
  { rewrite <- Hperm, <- (sort_groups_perm (map_to_list m)). etrans; [apply bind_Permutation, Ho |]. rewrite map_to_list_fmap. reflexivity. }
  assert (Hin : forall g p, g ∈ order (sort_by_key register_key <$> m) -> p ∈ g.2 -> p ∈ pts).
  { intros g p Hg Hp'. assert (Hf : p ∈ filter (fun p => is_Some (modbus_point p)) pts).
    { rewrite <- Hp. apply list_elem_of_bind. by exists g. } by apply list_elem_of_filter in Hf as [_ ?]. }
  assert (Hg : forall g, g ∈ order (sort_by_key register_key <$> m) -> Forall (has_key g.1) g.2 /\ StronglySorted (by_key register_key) g.2).
  { intros [k l] Hg. rewrite (Ho _), elem_of_map_to_list, lookup_fmap in Hg. destruct (m !! k) as [l0|] eqn:Hm; [| done].
    injection Hg as <-. cbn. split; [rewrite sort_by_key_perm; by apply Hkey | apply sort_by_key_sorted]. }
  split; [exact Hp |]. split.
  - intros Hfits. rewrite Forall_forall in Hfits. apply Forall_forall. intros g Hgin. destruct (Hg g Hgin) as [? ?]. split; [done |]. split; [| done].
    apply Forall_forall. intros p Hpin. apply Hfits. by apply (Hin g).
  - intros Hn. rewrite Forall_forall. intros g Hgin. destruct (Hg g Hgin) as [Hk Hs]. rewrite Forall_forall in Hk.
    unfold group_good. eapply strongly_sorted_impl; [| exact Hs]. unfold by_key. intros p q Hpin Hqin.
    apply (Hn p q g.1); eauto.
Qed.

Lemma group_keys order pts key points : group_order_ok order -> (key, points) ∈ order (group_points pts) -> Forall (has_key key) points.
Proof.
  intros Ho Hg. destruct (group_fold_spec pts) as [_ Hkey]. unfold group_points in Hg.
  rewrite (Ho _), elem_of_map_to_list, lookup_fmap in Hg. destruct (_ !! key) as [l0|] eqn:Hm; [| done].
  injection Hg as <-. rewrite sort_by_key_perm. by apply Hkey.
Qed.

Section PollTheorem.
Context {C E : Type} `{Client : ModbusClient C E, Device : !ModbusDevice C E, Spec : !ModbusDeviceSpec C E}.

(** The channel's groups are those of its configuration. *)
Definition groups_current (ch : ModbusChannel C) : Prop :=
  mb_grouped_points ch = None \/ mb_grouped_points ch = Some (group_points (mcf_points (mb_config ch))).

Lemma get_groups ch : groups_current ch -> exists ch', get_or_init_grouped_points ch = (ch', group_points (mcf_points (mb_config ch))) /\
  mb_config ch' = mb_config ch /\ mb_state ch' = mb_state ch /\ groups_current ch'.
Proof.
  unfold get_or_init_grouped_points, groups_current. intros [Hg | Hg]; rewrite Hg; eexists; (split; [done |]); (split; [done |]); (split; [done |]); by right.
Qed.

Lemma omap_nil_none {A B} (f : A -> option B) (l : list A) x : omap f l = [] -> x ∈ l -> f x = None.
Proof.
  intros Hn Hx. destruct (f x) as [y|] eqn:Hf; [| done].
  assert (Hy : y ∈ omap f l) by (apply list_elem_of_omap; eauto). rewrite Hn in Hy. by apply not_elem_of_nil in Hy.
Qed.

Definition readings (c : C) (pts : list PointConfig) : list DataPoint := map snd (omap (modbus_reading c) pts).

Lemma readings_filter c (pts : list PointConfig) : omap (modbus_reading c) (filter (fun p => is_Some (modbus_point p)) pts) = omap (modbus_reading c) pts.
Proof.
  induction pts as [|p pts IH]; [done |]. rewrite filter_cons. case_decide as Hp; cbn [omap list_omap]; [by rewrite <- IH |].
  assert (modbus_reading c p = None) as ->; [| exact IH]. unfold modbus_point in Hp. unfold modbus_reading.
  destruct (pc_address p); [exfalso; apply Hp; eauto | done..].
Qed.

(** What one poll of a connected channel does, in one place. *)
Lemma poll_once_spec order (ch : ModbusChannel C) c : group_order_ok order -> mb_client ch = Some c -> groups_current ch ->
  Forall point_fits (mcf_points (mb_config ch)) ->
  let '(ch', r) := ModbusChannel_poll_once order ch in
  let pts := mcf_points (mb_config ch) in
  pr_data r ⊆+ readings c pts /\
  (no_nesting pts -> dev_up c -> pr_data r ≡ₚ readings c pts /\
    Forall (fun f => exists p, p ∈ pts /\ f = mkPointFailure (pc_id p) NoResponse /\ modbus_reading c p = None) (pr_failures r)) /\
  (groups_current ch' /\ mb_state ch' = mb_state ch) /\ exists c', mb_client ch' = Some c' /\ same_memory c c'.
Proof.
  intros Ho Hc Hgc Hfits. unfold ModbusChannel_poll_once. rewrite Hc. destruct (get_groups ch Hgc) as (ch1 & -> & Hcfg & Hst1 & Hgc1).
  rewrite Hcfg. set (pts := mcf_points (mb_config ch)) in *. destruct (group_points_spec order pts Ho) as (Hperm & Hwf & Hgood).
  set (groups := order (group_points pts)) in *. pose proof (poll_groups_spec (mb_config ch) groups (Hwf Hfits) c) as Hp.
  destruct (poll_groups c (mb_config ch) groups) as [[[c' data] failures] errors]. destruct Hp as (results & -> & Hr & Hf).
  cbn zeta. cbn [pr_data pr_failures]. unfold readings. rewrite <- readings_filter.
  split; [| split; [| split; [exact (conj Hgc1 Hst1) |]]].
  - rewrite <- Hperm. apply fmap_submseteq, sublist_submseteq. exact (ra_sound _ _ _ _ Hr).
  - intros Hn Hup. split; [rewrite <- Hperm; apply Permutation_map; by rewrite <- (ra_complete _ _ _ _ Hr (Hgood Hn) Hup) |].
    eapply Forall_impl; [exact (Hf (Hgood Hn) Hup) |]. intros f (g & p & Hg & Hp & -> & Hnone). exists p.
    split; [| split; [done | by apply (omap_nil_none _ _ _ Hnone)]].
    assert (Hin : p ∈ filter (fun p => is_Some (modbus_point p)) pts) by (rewrite <- Hperm; apply list_elem_of_bind; eauto).
    by apply list_elem_of_filter in Hin as [_ ?].
  - exists c'. split; [done | apply Hr].
Qed.

Lemma modbus_poll_complete order (ch : ModbusChannel C) c : group_order_ok order -> mb_client ch = Some c -> groups_current ch ->
  Forall point_fits (mcf_points (mb_config ch)) -> no_nesting (mcf_points (mb_config ch)) -> dev_up c ->
  let '(ch', r) := ModbusChannel_poll_once order ch in
  pr_data r ≡ₚ readings c (mcf_points (mb_config ch)) /\ mb_state ch' = mb_state ch.
Proof.
  intros Ho Hc Hg Hf Hn Hup. pose proof (poll_once_spec order ch c Ho Hc Hg Hf) as Hp.
  destruct (ModbusChannel_poll_once order ch) as [ch' r]. destruct Hp as (_ & Hp & [_ Hst] & _). split; [by apply Hp | done].
Qed.

(** C16: Polling returns only readings of the configured points, whichever requests
    fail, and leaves the device as it was.  When no point's registers end before those
    of a point of its group that starts at or before it, and the device answers, the
    batched requests return exactly what reading every point by itself returns, and
    the reported failures are points that have no reading. *)
Theorem poll_reads_every_point order (ch : ModbusChannel C) c : group_order_ok order -> mb_client ch = Some c -> groups_current ch ->
  Forall point_fits (mcf_points (mb_config ch)) ->
  let '(ch', r) := ModbusChannel_poll_once order ch in
  let pts := mcf_points (mb_config ch) in
  pr_data r ⊆+ readings c pts /\
  (no_nesting pts -> dev_up c -> pr_data r ≡ₚ readings c pts /\
    Forall (fun f => exists p, p ∈ pts /\ f = mkPointFailure (pc_id p) NoResponse /\ modbus_reading c p = None) (pr_failures r)) /\
  groups_current ch' /\ exists c', mb_client ch' = Some c' /\ same_memory c c'.
Proof.
  intros Ho Hc Hg Hf. pose proof (poll_once_spec order ch c Ho Hc Hg Hf) as Hp. destruct (ModbusChannel_poll_once order ch) as [ch' r].
  cbv zeta in *. naive_solver.
Qed.
End PollTheorem.

(** * A simulated device

    A memory that answers requests, or fails them as [sim_replies] says. *)

Record SimDevice := mkSimDevice { sim_regs : bool -> Z -> Z -> Z; sim_bits : bool -> Z -> Z -> bool; sim_replies : list bool }.
Definition sim_next {V} (d : SimDevice) (ok_state : SimDevice) (v : V) : SimDevice * result V unit :=
  match sim_replies d with
  | false :: rest => (mkSimDevice (sim_regs d) (sim_bits d) rest, Err tt)
  | _ :: rest => (mkSimDevice (sim_regs ok_state) (sim_bits ok_state) rest, Ok v)
  | [] => (mkSimDevice (sim_regs ok_state) (sim_bits ok_state) [], Ok v)
  end.
Definition sim_store (d : SimDevice) (slave addr : Z) (vals : list Z) : SimDevice :=
  mkSimDevice (fun t s a => if negb t && (s =? slave) then store_regs (sim_regs d t s) addr vals a else sim_regs d t s a) (sim_bits d) (sim_replies d).
Definition sim_store_bit (d : SimDevice) (slave addr : Z) (v : bool) : SimDevice :=
  mkSimDevice (sim_regs d) (fun t s a => if negb t && (s =? slave) && (a =? addr) then v else sim_bits d t s a) (sim_replies d).

#[export] Instance SimDevice_client : ModbusClient SimDevice unit := {
  mc_read_01 d s a n := sim_next d d (map (sim_bits d false s) (seqZ a n));
  mc_read_02 d s a n := sim_next d d (map (sim_bits d true s) (seqZ a n));
  mc_read_03_batch d s a n _ := sim_next d d (map (sim_regs d false s) (seqZ a n));
  mc_read_04_batch d s a n _ := sim_next d d (map (sim_regs d true s) (seqZ a n));
  mc_write_05 d s a v := sim_next d (sim_store_bit d s a v) tt;
  mc_write_06 d s a v := sim_next d (sim_store d s a [v]) tt;
  mc_write_10 d s a vals := sim_next d (sim_store d s a vals) tt;
}.
#[export] Instance SimDevice_device : ModbusDevice SimDevice unit := {
  dev_reg := sim_regs;
  dev_bit := sim_bits;
  dev_up d := Forall (fun ok => ok = true) (sim_replies d);
}.

Lemma sim_next_spec {V} (d : SimDevice) (v : V) :
  same_memory d (sim_next d d v).1 /\ answers d (sim_next d d v) /\ forall x, (sim_next d d v).2 = Ok x -> x = v.
Proof.
  destruct d as [regs bits [|[] rest]]; unfold sim_next, answers; cbn; (split; [done |]); (split; [| by intros x [= <-]]).
  - eauto.
  - intros [? ?]%Forall_cons. eauto.
  - intros [? ?]%Forall_cons. done.
Qed.
Lemma sim_next_write (d : SimDevice) s a vals : let cr := sim_next d (sim_store d s a vals) tt in
  may_write d cr.1 s a vals /\ (cr.2 = Ok tt -> has_written d cr.1 s a vals).
Proof.
  unfold sim_next, may_write, has_written. destruct d as [regs bits [|[] rest]]; cbn; (split; [split; [| done] | done]); intros [] s' a'; cbn; auto;
    destruct (Z.eqb_spec s' s); auto.
Qed.

#[export] Instance SimDevice_spec : ModbusDeviceSpec SimDevice unit.
Proof. constructor; intros; first [apply sim_next_spec | apply sim_next_write]. Qed.

Definition linear_one : TransformConfig := TransformConfig_linear f64_one f64_zero.
Definition sample_point (id reg : Z) (format : DataFormat) : PointConfig :=
  PointConfig_with_transform (PointConfig_new id Telemetry (AddrModbus (ModbusAddress_holding_register 1 reg format))) linear_one.
Definition sample_channel (pts : list PointConfig) (d : SimDevice) : ModbusChannel SimDevice :=
  (ModbusChannel_connect (ModbusChannel_new (mkModbusChannelConfig pts DEFAULT_MAX_BATCH_SIZE DEFAULT_MAX_GAP) 0) (Ok d)).1.
(** Each register of the sample holds its own address. *)
Definition sample_device : SimDevice := mkSimDevice (fun _ _ a => a) (fun _ _ _ => false) [].
Definition sample_points : list PointConfig := [sample_point 2 104 FUInt16; sample_point 1 100 FUInt32; sample_point 3 300 FInt16].

Lemma points_nested (pts : list PointConfig) :
  Forall (fun p => Forall (fun q => register_key p <= register_key q -> register_end p <= register_end q) pts) pts -> no_nesting pts.
Proof.
  intros Hall p q k Hp Hq _ _. rewrite Forall_forall in Hall. specialize (Hall p Hp). rewrite Forall_forall in Hall. by apply Hall.
Qed.

Lemma poll_reads_every_point_witness :
  pr_data (ModbusChannel_poll_once map_to_list (sample_channel sample_points sample_device)).2 ≡ₚ readings sample_device sample_points.
Proof.
  pose proof (poll_reads_every_point (C := SimDevice) (E := unit) map_to_list (sample_channel sample_points sample_device) sample_device) as Ht.
  destruct (ModbusChannel_poll_once map_to_list (sample_channel sample_points sample_device)) as [ch' r].
  apply Ht; [by intros g | done | by left | | | by constructor].
  - repeat constructor; vm_compute; done.
  - apply points_nested. repeat constructor; vm_compute; done.
Defined.

(** * Nested points

    The end of a segment is the end of the point added last, not the furthest end: a
    point whose registers reach beyond a later one's is cut off. *)
Section Nested.
Context {C E : Type} `{Client : ModbusClient C E, Device : !ModbusDevice C E, Spec : !ModbusDeviceSpec C E}.

(** What a segment yields exactly, from a device that answers. *)
Lemma read_segment_exact c slave fc seg lim : Forall (in_group slave fc) (rs_points seg) -> segment_wf seg -> fc = 3 \/ fc = 4 -> dev_up c ->
  exists c', read_register_segment c slave fc seg lim =
    (c', Ok (omap (fun x => if x_end x <=? rs_end_address seg then modbus_reading c x.2 else None) (rs_points seg))).
Proof.
  intros Hg Hwf Hfc Hup. unfold read_register_segment.
  destruct (sw_end _ Hwf) as (y & Hy & Hend). pose proof (sw_points _ Hwf) as Hp. rewrite Forall_forall in Hp, Hg.
  destruct (Hp y Hy) as [Hys (Hy0 & Hyn & Hye)]. pose proof (sw_start _ Hwf) as Hs.
  rewrite wrap16_id by (unfold x_end, x_addr in *; lia). set (n := rs_end_address seg - rs_start_address seg).
  assert (Hn : 0 < n /\ rs_start_address seg + n < 2 ^ 16) by (unfold n, x_end, x_addr in *; lia). destruct Hn as [Hn1 Hn2].
  assert (Hdec : forall f, (fc = 3 /\ f = dev_reg c false slave) \/ (fc = 4 /\ f = dev_reg c true slave) ->
    omap (decode_point (rs_start_address seg) (map f (seqZ (rs_start_address seg) n))) (rs_points seg) =
    omap (fun x => if x_end x <=? rs_end_address seg then modbus_reading c x.2 else None) (rs_points seg)).
  { intros f Hf. apply omap_ext_in. intros x Hx. by apply (decode_group c slave fc); [apply Hg | | |]. }
  destruct Hfc as [-> | ->]; cbn [Z.eqb Pos.eqb].
  - destruct (read_03_spec c slave _ n lim Hs Hn1 Hn2) as (_ & Hans & Hv). destruct (Hans Hup) as [_ [regs Hr]].
    destruct (mc_read_03_batch _ _ _ _ _) as [c' r]. cbn in Hr. subst r. rewrite (Hv regs eq_refl). eexists. rewrite Hdec by auto. done.
  - destruct (read_04_spec c slave _ n lim Hs Hn1 Hn2) as (_ & Hans & Hv). destruct (Hans Hup) as [_ [regs Hr]].
    destruct (mc_read_04_batch _ _ _ _ _) as [c' r]. cbn in Hr. subst r. rewrite (Hv regs eq_refl). eexists. rewrite Hdec by auto. done.
Qed.

Lemma Forall_pair {A} (P : A -> Prop) x y : P x -> P y -> Forall P [x; y].
Proof. intros. constructor; [done |]. by apply Forall_singleton. Qed.

(** [q] starts inside [p] and ends before it does. *)
Definition nested_in (q p : PointConfig) : Prop := register_key p <= register_key q /\ register_end q < register_end p.

Lemma nested_group c slave fc p q lim gap : has_key (slave, fc) p -> has_key (slave, fc) q -> point_fits p -> point_fits q ->
  nested_in q p -> fc = 3 \/ fc = 4 -> 0 <= gap -> register_end q - register_key p <= lim -> dev_up c ->
  (read_point_group c [p; q] lim gap).2 = omap (modbus_reading c) [q].
Proof.
  intros Hp Hq Hfp Hfq [Hn1 Hn2] Hfc Hgap Hlim Hup.
  destruct (group_triples slave fc [p; q]) as (xs & Hxs & Hsnd & Hg & Hadr & Hend & Hfit); [by apply Forall_pair |].
  destruct xs as [|xp [|xq [|]]]; try discriminate Hsnd. injection Hsnd as <- <-. injection Hadr as Ha1 Ha2. injection Hend as He1 He2.
  assert (Hfits : Forall x_fits [xp; xq]) by (apply Hfit; by apply Forall_pair).
  apply Forall_cons in Hfits as [Hfx Hfits]. rewrite Forall_singleton in Hfits.
  destruct (new_segment_wf xp Hfx) as (Hw & _ & Hpts). rewrite <- Ha1, <- Ha2, <- ?He1, <- ?He2 in *. clear Hfit.
  destruct (extend_segment_wf (new_segment xp) xq Hw Hfits) as [Hw' _]; [rewrite Hpts; apply Forall_singleton; lia |].
  set (seg := mkRegisterSegment (rs_start_address (new_segment xp)) (wrap 16 (x_end xq)) (rs_points (new_segment xp) ++ [xq])) in *.
  assert (Hb : build_register_segments [xp; xq] gap lim = [seg]).
  { unfold build_register_segments, seg. destruct xp as [[a1 n1] p1], xq as [[a2 n2] q1]. unfold x_fits, x_addr, x_end in *. cbn in *.
    rewrite !wrap16_id by lia. unfold saturating_sub. rewrite !(proj2 (Z.leb_le _ _)) by lia. done. }
  unfold read_point_group. destruct Hp as (a & Ha & Hk). rewrite Ha. injection Hk as -> ->.
  replace ((fc =? 1) || (fc =? 2)) with false by (by destruct Hfc as [-> | ->]).
  unfold read_registers_batched. rewrite Hxs, Hb. cbn [read_segments].
  destruct (read_segment_exact c slave fc seg lim) as [c' ->]; [unfold seg; cbn [rs_points]; by rewrite Hpts | done | done | done |].
  unfold seg. cbn [rs_points rs_end_address snd]. rewrite Hpts. cbn [app omap list_omap snd].
  rewrite (wrap16_id (x_end xq)) by (unfold x_fits, x_addr, x_end in *; lia).
  rewrite (proj2 (Z.leb_gt (x_end xp) _)), Z.leb_refl by lia. destruct (modbus_reading c xq.2); done.
Qed.

Lemma group_points_pair slave fc p q : has_key (slave, fc) p -> has_key (slave, fc) q -> register_key p <= register_key q ->
  group_points [p; q] = {[(slave, fc) := [p; q]]}.
Proof.
  intros (a & Ha & Hka) (b & Hb & Hkb) Hle. unfold group_points. cbn [foldl]. unfold group_point at 2. rewrite Ha, Hka, lookup_empty. cbn [default app].
  unfold group_point. rewrite Hb, Hkb, lookup_insert_eq. cbn [default app]. rewrite insert_insert_eq, insert_empty, map_fmap_singleton.
  unfold sort_by_key. cbn. by rewrite (proj2 (Z.leb_le _ _)).
Qed.

(** A point that reaches beyond a later point of its segment is lost without a
    trace: with a register of a double-word point also configured as a point of its
    own, every poll of a device that answers returns the single register and neither
    a value nor a failure for the double word. *)
Theorem nested_point_silently_lost order (ch : ModbusChannel C) c slave fc p q dq : group_order_ok order -> mb_client ch = Some c ->
  groups_current ch -> mcf_points (mb_config ch) = [p; q] -> has_key (slave, fc) p -> has_key (slave, fc) q -> fc = 3 \/ fc = 4 ->
  point_fits p -> point_fits q -> nested_in q p ->
  0 <= mcf_max_gap (mb_config ch) -> register_end q - register_key p <= mcf_max_batch_size (mb_config ch) ->
  dev_up c -> modbus_reading c q = Some dq ->
  (ModbusChannel_poll_once order ch).2 = mkPollResult [dq.2] [].
Proof.
  intros Ho Hc Hgc Hpts Hp Hq Hfc Hfp Hfq Hn Hgap Hlim Hup Hdq. unfold ModbusChannel_poll_once. rewrite Hc.
  destruct (get_groups ch Hgc) as (ch1 & -> & Hcfg & _). rewrite Hcfg, Hpts.
  assert (Hord : order (group_points [p; q]) = [((slave, fc), [p; q])]).
  { apply Permutation_singleton_r. rewrite (Ho _), (group_points_pair slave fc) by (done || apply Hn). by rewrite map_to_list_singleton. }
  rewrite Hord. cbn [poll_groups]. pose proof (nested_group c slave fc p q _ _ Hp Hq Hfp Hfq Hn Hfc Hgap Hlim Hup) as Hr.
  cbn [omap list_omap] in Hr. rewrite Hdq in Hr. destruct (read_point_group _ _ _ _) as [c' results]. cbn [snd] in Hr. subst results.
  cbn [snd map]. rewrite bool_decide_false by (by intros [? _]). done.
Qed.
End Nested.

Definition nested_points : list PointConfig := [sample_point 1 100 FUInt32; sample_point 2 100 FUInt16].

Lemma nested_point_silently_lost_witness :
  pr_data (ModbusChannel_poll_once map_to_list (sample_channel nested_points sample_device)).2 =
    [DataPoint_new 2 Telemetry (PFloat (f64_of_Z 100))] /\
  modbus_reading sample_device (sample_point 1 100 FUInt32) <> None.
Proof.
  split; [| vm_compute; discriminate].
  rewrite (nested_point_silently_lost (C := SimDevice) (E := unit) map_to_list (sample_channel nested_points sample_device) sample_device 1 3
    (sample_point 1 100 FUInt32) (sample_point 2 100 FUInt16) (2, DataPoint_new 2 Telemetry (PFloat (f64_of_Z 100)))); try done.
  - by intros g.
  - by left.
  - by eexists.
  - by eexists.
  - by left.
  - by constructor.
Defined.
