(* ===== verification/DataStore.v ===== *)
(** The data store of comsrv: [services/comsrv/src/store/redis_store.rs].

    The channel task hands each poll result to [RedisDataStore::write_batch].  The store
    drops readings that are not finite numbers, writes the others to shared memory
    through the current layout of the [ShmHandle] (or, without one, to the write buffer of the database),
    counts the points without a slot and tells its subscribers.  The theorems join the
    batch write with [ShmRedisSync]: what a device returned is what
    readers of the segment get at once and readers of the database after the next pass. *)
From stdpp Require Import base numbers list gmap strings.
From Stdlib Require Import ZArith Lia.
From S2P Require Import Prelude BitWords PointSlot PointTypes Layout Wire SlotIndex PointWatch ShmStore Routing BatchDirect Rtdb BatchRedis ShmSync Registers Modbus.
Local Open Scope Z_scope.
Set Warnings "-clear-no-such-hyp".

(** * State *)

(** [DataBatch]: the points of one poll, in order. *)
Definition DataBatch : Type := list DataPoint.
Inductive DataEvent := DataUpdate (batch : DataBatch).

(** The background flush task: the [JoinHandle] and whether it has finished. *)
Inductive FlushTask := NoTask | Task (finished : bool).

Record RedisDataStore (C : Type) := mkRedisDataStore {
  rs_write_buffer : WriteBuffer;
  rs_shm_handle : option (ShmHandle C);
  rs_point_configs : gmap Z (list PointConfig);
  rs_flush_handle : FlushTask;
  rs_slot_miss_count : Z;
}.
Arguments mkRedisDataStore {C}.
Arguments rs_write_buffer {C}.
Arguments rs_shm_handle {C}.
Arguments rs_point_configs {C}.
Arguments rs_flush_handle {C}.
Arguments rs_slot_miss_count {C}.

(** The store with the shared segment, the clock reads of the shared-memory path, and
    the events its subscribers were sent. *)
Record StoreWorld (C : Type) := mkStoreWorld {
  sw_store : RedisDataStore C;
  sw_segment : Segment;
  sw_calls : nat;
  sw_events : list DataEvent;
}.
Arguments mkStoreWorld {C}.
Arguments sw_store {C}.
Arguments sw_segment {C}.
Arguments sw_calls {C}.
Arguments sw_events {C}.

Definition batch_update (channel_id : Z) (point : DataPoint) : option ChannelPointUpdate :=
  match ProtoValue_as_f64 (dp_value point) with
  | Some v =>
      if f64_is_finite v then Some (mkUpdate channel_id (dp_point_type point) (dp_id point) v None 0) else None
  | None => None
  end.
(** [batch_to_updates]: readings that are not finite numbers are skipped. *)
Definition batch_to_updates (channel_id : Z) (batch : DataBatch) : list ChannelPointUpdate := omap (batch_update channel_id) batch.

Definition channel_online_key : string := "comsrv:online".

Section Store.
Context {C : Type} `{MS : !MpscSender C PointWatchEvent}.
Variable rc : RoutingCache.
Variable iter : list group -> list group.
Variable iter_inst : list (Z * list (string * string)) -> list (Z * list (string * string)).
Variable f64_to_bytes : Z -> string.
Variable now : nat -> Z.

Definition RedisDataStore_new : RedisDataStore C := mkRedisDataStore (WriteBuffer_new WriteBufferConfig_default) None ∅ NoTask 0.
Definition RedisDataStore_slot_miss_count (s : RedisDataStore C) : Z := rs_slot_miss_count s.
Definition RedisDataStore_with_shm_handle (s : RedisDataStore C) (h : ShmHandle C) : RedisDataStore C :=
  mkRedisDataStore (rs_write_buffer s) (Some h) (rs_point_configs s) (rs_flush_handle s) (rs_slot_miss_count s).
Definition RedisDataStore_set_point_configs (s : RedisDataStore C) (channel_id : Z) (configs : list PointConfig) : RedisDataStore C :=
  mkRedisDataStore (rs_write_buffer s) (rs_shm_handle s) (<[channel_id := configs]> (rs_point_configs s)) (rs_flush_handle s) (rs_slot_miss_count s).

Definition set_buffer (s : RedisDataStore C) (b : WriteBuffer) : RedisDataStore C :=
  mkRedisDataStore b (rs_shm_handle s) (rs_point_configs s) (rs_flush_handle s) (rs_slot_miss_count s).
Definition set_flush_handle (s : RedisDataStore C) (t : FlushTask) : RedisDataStore C :=
  mkRedisDataStore (rs_write_buffer s) (rs_shm_handle s) (rs_point_configs s) t (rs_slot_miss_count s).
(** The layout is shared: a write through it changes the writer the handle holds. *)
Definition set_layout_writer (s : RedisDataStore C) (h : ShmHandle C) (ptr : Z) (l : ShmLayout C) (w : UnifiedWriter C) : RedisDataStore C :=
  mkRedisDataStore (rs_write_buffer s) (Some (mkShmHandle (Some (ptr, with_writer l w)) (sh_config h) (sh_point_watcher h)))
    (rs_point_configs s) (rs_flush_handle s) (rs_slot_miss_count s).
(** [slot_miss_count.fetch_add], when there are misses. *)
Definition count_misses (s : RedisDataStore C) (stats : BatchRoutingResult) : RedisDataStore C :=
  if (0 <? br_slot_misses stats)%nat
  then mkRedisDataStore (rs_write_buffer s) (rs_shm_handle s) (rs_point_configs s) (rs_flush_handle s)
         (wrapping_add 64 (rs_slot_miss_count s) (Z.of_nat (br_slot_misses stats)))
  else s.

(** The path to shared memory, when the handle holds a layout. *)
Definition write_direct (x : StoreWorld C) (h : ShmHandle C) (ptr : Z) (l : ShmLayout C) (updates : list ChannelPointUpdate)
    : outcome (StoreWorld C * BatchRoutingResult) :=
  let! (env, stats) := write_channel_batch_direct (sl_index l) rc iter now (mkBatchEnv (sw_segment x) (sl_writer l) (sw_calls x)) updates in
  Ret (mkStoreWorld (set_layout_writer (sw_store x) h ptr l (be_writer env)) (be_segment env) (be_calls env) (sw_events x), stats).

(** The path to the write buffer; running out of fuel would be a [Panic]. *)
Definition write_buffered (x : StoreWorld C) (updates : list ChannelPointUpdate) : outcome (StoreWorld C * BatchRoutingResult) :=
  match write_channel_batch_buffered rc iter iter_inst f64_to_bytes (fun n => Some (now n)) (rs_write_buffer (sw_store x)) updates with
  | Some (b, _, Some stats) => Ret (mkStoreWorld (set_buffer (sw_store x) b) (sw_segment x) (sw_calls x) (sw_events x), stats)
  | _ => Panic
  end.

Definition RedisDataStore_write_batch (x : StoreWorld C) (channel_id : Z) (batch : DataBatch) : outcome (StoreWorld C) :=
  match batch with
  | [] => Ret x
  | _ =>
      let updates := batch_to_updates channel_id batch in
      let! (x, stats) :=
        match rs_shm_handle (sw_store x) with
        | Some h =>
            match sh_layout h with
            | Some (ptr, l) => write_direct x h ptr l updates
            | None => write_buffered x updates
            end
        | None => write_buffered x updates
        end in
      Ret (mkStoreWorld (count_misses (sw_store x) stats) (sw_segment x) (sw_calls x) (sw_events x ++ [DataUpdate batch]))
  end.

(** [publish_channel_online]; a failure is only logged. *)
Definition RedisDataStore_publish_channel_online {W} (hash_set : W -> string -> string -> string -> W * bool) (w : W)
    (channel_id : Z) (online : bool) : W :=
  (hash_set w channel_online_key (print_u32 channel_id) (if online then "1" else "0")%string).1.

(** [start_flush_task]: a running task is left alone. *)
Definition RedisDataStore_start_flush_task (s : RedisDataStore C) : RedisDataStore C :=
  match rs_flush_handle s with
  | Task false => s
  | _ => set_flush_handle s (Task false)
  end.

(** [shutdown]: the task ends by itself within five seconds, or panicked, or is
    aborted after a last flush. *)
Inductive JoinOutcome := Joined | TaskPanicked | JoinTimedOut.
Definition RedisDataStore_shutdown {W} `{!HashRtdb W} (o : DrainOrder) (s : RedisDataStore C) (w : W) (t : Z) (joined : JoinOutcome)
    : RedisDataStore C * W :=
  match rs_flush_handle s with
  | NoTask => (s, w)
  | Task _ =>
      let s := set_flush_handle s NoTask in
      match joined with
      | JoinTimedOut => let '(b, w, _, _) := WriteBuffer_flush o (rs_write_buffer s) w t in (set_buffer s b, w)
      | _ => (s, w)
      end
  end.
End Store.

(** * What is stored *)

Lemma batch_update_elem channel_id batch u : u ∈ batch_to_updates channel_id batch <->
  exists p v, p ∈ batch /\ ProtoValue_as_f64 (dp_value p) = Some v /\ f64_is_finite v = true /\
    u = mkUpdate channel_id (dp_point_type p) (dp_id p) v None 0.
Proof.
  unfold batch_to_updates, batch_update. rewrite list_elem_of_omap. split.
  - intros (p & Hp & Hu). destruct (ProtoValue_as_f64 (dp_value p)) as [v|] eqn:Ev; [| done].
    destruct (f64_is_finite v) eqn:Ef; [| done]. injection Hu as <-. eauto 10.
  - intros (p & v & Hp & Hv & Hf & ->). exists p. split; [done |]. by rewrite Hv, Hf.
Qed.

Lemma length_updates channel_id batch : (length (batch_to_updates channel_id batch) <= length batch)%nat.
Proof.
  unfold batch_to_updates. induction batch as [|p batch IH]; cbn [omap list_omap length]; [done |].
  destruct (batch_update channel_id p); cbn [length]; lia.
Qed.

Definition point_id (p : DataPoint) : PointType * Z := (dp_point_type p, dp_id p).

Lemma batch_updates_distinct channel_id batch : NoDup (point_id <$> batch) -> NoDup (update_key <$> batch_to_updates channel_id batch).
Proof.
  induction batch as [|p batch IH]; intros Hnd; [by apply NoDup_nil |]. rewrite fmap_cons in Hnd. apply NoDup_cons in Hnd as [Hni Hnd].
  unfold batch_to_updates. cbn [omap list_omap]. destruct (batch_update channel_id p) as [u|] eqn:Eu; [| by apply IH].
  rewrite fmap_cons. apply NoDup_cons. split; [| by apply IH]. intros Hin. apply Hni.
  apply list_elem_of_fmap in Hin as (u' & Hk & Hin). apply (batch_update_elem channel_id) in Hin as (p' & v & Hp' & _ & _ & ->).
  unfold batch_update in Eu. destruct (ProtoValue_as_f64 (dp_value p)) as [v0|]; [| done]. destruct (f64_is_finite v0); [| done].
  injection Eu as <-. injection Hk as E1 E2. apply list_elem_of_fmap. exists p'. split; [unfold point_id; congruence | done].
Qed.

(** * The batch write as single writes *)

Section Runs.
Context {C : Type} `{MS : !MpscSender C PointWatchEvent}.

Inductive set_step : Segment * UnifiedWriter C -> Segment * UnifiedWriter C -> Prop :=
| Set_step g w i v r t g' w' : UnifiedWriter_set_direct g w i v r t = Ret (g', w') -> set_step (g, w) (g', w').

Lemma set_step_dirty g w g' w' : store_wf g (uw_inner w) -> set_step (g, w) (g', w') ->
  store_wf g' (uw_inner w') /\ sw_slot_count (uw_inner w') = sw_slot_count (uw_inner w) /\ dirty_set (uw_inner w) ⊆ dirty_set (uw_inner w').
Proof.
  intros Hwf Hs. inversion Hs as [? ? i v r t ? ? Hset]; subst.
  destruct (unified_set_direct_inv _ _ _ _ _ _ _ _ Hset) as (s & Hi & Hsl & -> & ->).
  destruct (store_write_spec g (uw_inner w) i v r t s Hwf Hi Hsl) as (H1 & H2 & _ & _ & H5). rewrite H5. split_and!; [done | done | set_solver].
Qed.

Lemma set_steps_dirty m : forall g w g' w', store_wf g (uw_inner w) -> nsteps set_step m (g, w) (g', w') ->
  store_wf g' (uw_inner w') /\ sw_slot_count (uw_inner w') = sw_slot_count (uw_inner w) /\ dirty_set (uw_inner w) ⊆ dirty_set (uw_inner w').
Proof.
  induction m as [|m IH]; intros g w g' w' Hwf Hs; inversion Hs as [| ? ? [g1 w1] ? H1 H2]; subst; [done |].
  destruct (set_step_dirty _ _ _ _ Hwf H1) as (W1 & C1 & D1). destruct (IH _ _ _ _ W1 H2) as (W2 & C2 & D2).
  split; [done |]. split; [congruence | set_solver].
Qed.

(** Writes leave the generation alone. *)
Lemma steps_generation m : forall g w g' w', nsteps set_step m (g, w) (g', w') -> SlotWriter_generation g' = SlotWriter_generation g.
Proof.
  induction m as [|m IH]; intros g w g' w' Hs; inversion Hs as [| ? ? [g1 w1] ? H1 H2]; subst; [done |]. rewrite (IH _ _ _ _ H2).
  inversion H1 as [? ? i v r t ? ? Hset]; subst. by destruct (unified_set_direct_inv _ _ _ _ _ _ _ _ Hset) as (s & _ & _ & -> & _).
Qed.

Variable idx : ChannelToSlotIndex.
Variable rc : RoutingCache.
Hypothesis Hnoc2c : rc_c2c rc = ∅.

Definition env_pair (env : BatchEnv C) : Segment * UnifiedWriter C := (be_segment env, be_writer env).
(** The updates were written one after the other, and their slots are dirty. *)
Definition written_run (us : list ChannelPointUpdate) (env env' : BatchEnv C) : Prop :=
  (exists m, (m <= length us)%nat /\ nsteps set_step m (env_pair env) (env_pair env')) /\
  forall u slot, u ∈ us -> ChannelToSlotIndex_lookup idx (cu_channel_id u) (cu_point_type u) (cu_point_id u) = Some slot ->
    slot ∈ dirty_set (uw_inner (be_writer env')).

Lemma written_run_app us1 us2 env env1 env2 : store_wf (be_segment env) (uw_inner (be_writer env)) ->
  written_run us1 env env1 -> written_run us2 env1 env2 -> written_run (us1 ++ us2) env env2.
Proof.
  intros Hwf [(m1 & L1 & S1) D1] [(m2 & L2 & S2) D2]. split.
  - exists (m1 + m2)%nat. rewrite length_app. split; [lia |]. by eapply nsteps_trans.
  - intros u slot Hu Hl. apply elem_of_app in Hu as [Hu | Hu]; [| by eapply D2].
    destruct (set_steps_dirty _ _ _ _ _ Hwf S1) as (W1 & _). destruct (set_steps_dirty _ _ _ _ _ W1 S2) as (_ & _ & Hd). by eapply Hd, D1.
Qed.

Lemma run_wf us env env' : store_wf (be_segment env) (uw_inner (be_writer env)) -> written_run us env env' ->
  store_wf (be_segment env') (uw_inner (be_writer env')).
Proof. intros Hwf [(m & _ & S) _]. by destruct (set_steps_dirty _ _ _ _ _ Hwf S). Qed.

Lemma set_direct_dirty g w i v r t g' w' : store_wf g (uw_inner w) -> UnifiedWriter_set_direct (C:=C) g w i v r t = Ret (g', w') ->
  i ∈ dirty_set (uw_inner w').
Proof.
  intros Hwf Hset. destruct (unified_set_direct_inv _ _ _ _ _ _ _ _ Hset) as (s & Hi & Hsl & -> & ->).
  destruct (store_write_spec g (uw_inner w) i v r t s Hwf Hi Hsl) as (_ & _ & _ & _ & H5). rewrite H5. set_solver.
Qed.

Lemma direct_update_run ts ch pt s u s' : store_wf (be_segment (gs_env s)) (uw_inner (be_writer (gs_env s))) ->
  (cu_channel_id u, cu_point_type u) = (ch, pt) -> direct_update idx rc ts ch pt s u = Ret s' ->
  written_run [u] (gs_env s) (gs_env s') /\ gs_forwards s' = gs_forwards s.
Proof using Hnoc2c.
  intros Hwf [= <- <-]. unfold direct_update, route_c2c, RoutingCache_lookup_c2c_by_parts. rewrite Hnoc2c.
  destruct (ChannelToSlotIndex_lookup idx _ _ (cu_point_id u)) as [slot|] eqn:El.
  - unfold write_point. destruct (UnifiedWriter_set_direct _ _ slot _ _ ts) as [[g' w']|] eqn:Es; [| done]. cbn [outcome_bind].
    rewrite lookup_empty. destruct (_ <? _); intros [= <-]; cbn [gs_env gs_forwards]; (split; [split |]; [| | done]).
    all: try (exists 1%nat; split; [cbn; lia |]; apply nsteps_once; by econstructor).
    all: intros u' slot' ->%list_elem_of_singleton Hl; rewrite El in Hl; injection Hl as <-; cbn [be_writer]; by eapply set_direct_dirty.
  - cbn [outcome_bind]. rewrite lookup_empty. destruct (_ <? _); intros [= <-]; cbn [gs_env gs_forwards]; (split; [split |]; [| | done]).
    all: try (exists 0%nat; split; [lia | constructor]).
    all: intros u' slot' ->%list_elem_of_singleton Hl; congruence.
Qed.

Lemma written_run_nil env : written_run [] env env.
Proof. split; [exists 0%nat; split; [done | constructor] |]. intros u slot Hu. by apply elem_of_nil in Hu. Qed.

Lemma direct_updates_run ts ch pt us : forall s s', store_wf (be_segment (gs_env s)) (uw_inner (be_writer (gs_env s))) ->
  Forall (fun u => (cu_channel_id u, cu_point_type u) = (ch, pt)) us -> direct_updates idx rc ts ch pt s us = Ret s' ->
  written_run us (gs_env s) (gs_env s') /\ gs_forwards s' = gs_forwards s.
Proof using Hnoc2c.
  induction us as [|u us IH]; intros s s' Hwf Hk; cbn [direct_updates]; [intros [= <-]; split; [apply written_run_nil | done] |].
  apply Forall_cons in Hk as [Hu Hk]. destruct (direct_update idx rc ts ch pt s u) as [s1|] eqn:E1; [| done]. cbn [outcome_bind]. intros E2.
  destruct (direct_update_run _ _ _ _ _ _ Hwf Hu E1) as [R1 F1]. destruct (IH s1 s' (run_wf _ _ _ Hwf R1) Hk E2) as [R2 F2].
  split; [| congruence]. apply (written_run_app [u] us _ _ _ Hwf R1 R2).
Qed.

Lemma direct_groups_run recurse ts visited gs : forall env r env' r', store_wf (be_segment env) (uw_inner (be_writer env)) -> keyed gs ->
  direct_groups idx rc recurse ts visited (env, r) gs = Ret (env', r') -> written_run (concat (map snd gs)) env env'.
Proof using Hnoc2c.
  induction gs as [|[[ch pt] us] gs IH]; intros env r env' r' Hwf Hk; cbn [direct_groups map concat snd]; [intros [= <- _]; apply written_run_nil |].
  apply Forall_cons in Hk as [Hu Hk]. cbn [fst snd] in Hu. unfold direct_group at 1.
  destruct (direct_updates idx rc ts ch pt (mkGroupState env visited [] r) us) as [s|] eqn:E1; [| done]. cbn [outcome_bind].
  destruct (direct_updates_run ts ch pt us (mkGroupState env visited [] r) s Hwf Hu E1) as [R1 F1]. cbn [gs_env gs_forwards] in *. rewrite F1. cbn [outcome_bind].
  intros E2. eapply written_run_app; [done | exact R1 |]. eapply IH; [by eapply run_wf | done | exact E2].
Qed.

Lemma batch_run iter now env us env' r : (forall gs, iter gs ≡ₚ gs) -> store_wf (be_segment env) (uw_inner (be_writer env)) ->
  write_channel_batch_direct idx rc iter now env us = Ret (env', r) ->
  written_run (filter (fun u => measured_update u = true) us) env env'.
Proof using Hnoc2c.
  intros Hiter Hwf. unfold write_channel_batch_direct. destruct us as [|u us]; [intros [= <- _]; apply written_run_nil |].
  cbn [write_channel_batch_direct_impl]. intros Hrun. destruct (group_updates_keyed (u :: us)) as [Hk Hp].
  assert (Hperm : concat (map snd (iter (group_updates (u :: us)))) ≡ₚ filter (fun u => measured_update u = true) (u :: us)).
  { rewrite <- Hp. apply group_concat_perm, Hiter. }
  apply direct_groups_run in Hrun; [| exact Hwf | unfold keyed; by rewrite Hiter]. destruct Hrun as [(m & Hm & Hs) Hd].
  rewrite Hperm in Hm. split; [by exists m |]. intros u' slot Hu'. apply Hd. by rewrite Hperm.
Qed.
End Runs.

(** * With the synchronisation task *)

Section Sync.
Context {C : Type} `{MS : !MpscSender C PointWatchEvent}.
Variable f64_to_bytes : Z -> string.
Variable content_hash : RoutingCache -> Z.
Variable ops_order : list (string * list (string * string)) -> list (string * list (string * string)).

(** No sequence number wraps within [m] more writes. *)
Definition rooms (m : nat) (g : Segment) : Prop := forall i, slot_seq g i + 2 * Z.of_nat m < 2 ^ 32.

Lemma set_steps_sync m : forall g (w : UnifiedWriter C) g' w' ptr l rc st ph db,
  store_wf g (uw_inner w) -> rooms m g -> nsteps set_step m (g, w) (g', w') ->
  rtc (usual_step f64_to_bytes content_hash ops_order)
    (mkSyncSystem g ptr (with_writer l w) rc st ∅ ph db) (mkSyncSystem g' ptr (with_writer l w') rc st ∅ ph db).
Proof.
  induction m as [|m IH]; intros g w g' w' ptr l rc st ph db Hwf Hroom Hs; inversion Hs as [| ? ? [g1 w1] ? H1 H2]; subst; [done |].
  destruct (set_step_dirty _ _ _ _ Hwf H1) as (W1 & _). inversion H1 as [? ? i v r t ? ? Hset]; subst.
  assert (Hseq : seq_room g i) by (unfold seq_room; specialize (Hroom i); lia).
  etransitivity; [exact (set_direct_run f64_to_bytes content_hash ops_order g ptr (with_writer l w) rc st ∅ ph db i v r t g1 w1 Hset (not_elem_of_empty i) Hseq) |].
  apply (IH g1 w1 g' w' ptr l rc st ph db W1); [| done]. intros j. destruct (unified_set_direct_inv _ _ _ _ _ _ _ _ Hset) as (s & Hi & Hsl & -> & _).
  destruct (set_written g (uw_inner w) i s v r t Hwf Hseq Hi Hsl) as (Hw & _). specialize (Hroom j).
  destruct (decide (j = i)) as [-> | Hne]; [rewrite (sw_seq _ _ _ Hw); lia |].
  destruct (written_frame f64_to_bytes g _ i (sl_reverse_index l) rc j Hw Hne) as (-> & _). lia.
Qed.
End Sync.

(** * Theorems *)

Section Claims.
Context {C : Type} `{MS : !MpscSender C PointWatchEvent}.
Variable rc : RoutingCache.
Variable iter : list group -> list group.
Hypothesis Hiter : forall gs, iter gs ≡ₚ gs.
Variable iter_inst : list (Z * list (string * string)) -> list (Z * list (string * string)).
Variable f64_to_bytes : Z -> string.
Variable now : nat -> Z.

(** The layout of [x], laid out for [cps]. *)
Record store_layout (cps : ChannelPointCounts) (x : StoreWorld C) (h : ShmHandle C) (ptr : Z) (l : ShmLayout C) : Prop := {
  sx_handle : rs_shm_handle (sw_store x) = Some h;
  sx_layout : sh_layout h = Some (ptr, l);
  sx_wf : unified_wf cps (sw_segment x) (sl_writer l);
  sx_signaler : signaler_ok (uw_point_watch (sl_writer l));
  sx_index : sl_index l = ChannelToSlotIndex_from_layouts (uw_channel_layouts (sl_writer l));
}.

Lemma updates_deep channel_id batch : deep 0 (batch_to_updates channel_id batch).
Proof. apply Forall_forall. intros u (p & v & _ & _ & _ & ->)%batch_update_elem. cbn. lia. Qed.

Lemma buffered_ok b us : deep 0 us -> exists b' calls r,
  write_channel_batch_buffered rc iter iter_inst f64_to_bytes (fun n => Some (now n)) b us = Some (b', calls, Some r).
Proof using Hiter.
  intros Hd. unfold write_channel_batch_buffered, write_channel_batch_buffered_impl. set (clock := fun n => Some (default 0 (Some (now n)))).
  pose proof (batch_walk_total rc iter Hiter f64_to_bytes (emit_buffered iter_inst f64_to_bytes) clock batch_fuel 0 b 0 us ∅) as Ht.
  destruct (batch_walk rc iter f64_to_bytes (emit_buffered iter_inst f64_to_bytes) clock batch_fuel b 0 us ∅) as [[[b' calls] [r|]]|] eqn:E.
  - by exists b', calls, r.
  - exfalso. revert E. apply batch_walk_no_error; [| done]. intros s ts key p r. unfold emit_buffered. by repeat case_match.
  - exfalso. apply Ht; [vm_compute; reflexivity | vm_compute; lia | done | done].
Qed.

(** Storing a poll result always returns: whatever the readings, the routes and the path,
    [write_batch] neither panics nor loses the batch for its subscribers, and an empty
    batch changes nothing. *)
Theorem write_batch_total x channel_id batch :
  (forall h ptr l, rs_shm_handle (sw_store x) = Some h -> sh_layout h = Some (ptr, l) ->
     exists cps, config_ok cps /\ store_layout cps x h ptr l) ->
  exists x', RedisDataStore_write_batch rc iter iter_inst f64_to_bytes now x channel_id batch = Ret x' /\
    sw_events x' = sw_events x ++ (match batch with [] => [] | _ => [DataUpdate batch] end) /\ (batch = [] -> x' = x).
Proof using Hiter.
  intros Hl. destruct batch as [|p batch]; [exists x; rewrite app_nil_r; done |]. cbn [RedisDataStore_write_batch].
  set (us := batch_to_updates channel_id (p :: batch)).
  assert (Hbuf : exists x1 stats, write_buffered rc iter iter_inst f64_to_bytes now x us = Ret (x1, stats) /\ sw_events x1 = sw_events x).
  { unfold write_buffered. destruct (buffered_ok (rs_write_buffer (sw_store x)) us) as (b' & calls & r & ->); [apply updates_deep |].
    eexists _, _. split; [reflexivity | done]. }
  assert (Hdir : forall h ptr l, rs_shm_handle (sw_store x) = Some h -> sh_layout h = Some (ptr, l) ->
    exists x1 stats, write_direct rc iter now x h ptr l us = Ret (x1, stats) /\ sw_events x1 = sw_events x).
  { intros h ptr l Hh Hlay. destruct (Hl h ptr l Hh Hlay) as (cps & Hcfg & [_ _ Hwf Hsig Hidx]). unfold write_direct. rewrite Hidx.
    pose proof (uwf_layout _ _ _ Hwf) as Hal. unfold write_channel_batch_direct.
    destruct (batch_impl_ok cps Hcfg _ _ Hal rc iter Hiter now 3 (mkBatchEnv (sw_segment x) (sl_writer l) (sw_calls x)) us ∅)
      as (env' & r & Heq & _); [done | | lia |].
    - eapply Forall_impl; [apply updates_deep |]. intros u Hu. unfold depth_ok. cbn in *. lia.
    - rewrite Heq. cbn [outcome_bind]. eexists _, _. split; [reflexivity | done]. }
  destruct (rs_shm_handle (sw_store x)) as [h|] eqn:Eh; [destruct (sh_layout h) as [[ptr l]|] eqn:El |].
  - destruct (Hdir h ptr l eq_refl El) as (x1 & stats & -> & He). cbn [outcome_bind]. eexists. split; [reflexivity |]. cbn. by rewrite He.
  - destruct Hbuf as (x1 & stats & -> & He). cbn [outcome_bind]. eexists. split; [reflexivity |]. cbn. by rewrite He.
  - destruct Hbuf as (x1 & stats & -> & He). cbn [outcome_bind]. eexists. split; [reflexivity |]. cbn. by rewrite He.
Qed.

(** A telemetry or signal reading of the batch that is a finite number and has a slot. *)
Record storable (idx : ChannelToSlotIndex) (channel_id : Z) (batch : DataBatch) (p : DataPoint) (v : Z) (slot : nat) : Prop := {
  st_in : p ∈ batch;
  st_measured : PointType_is_measurement (dp_point_type p) = true;
  st_value : ProtoValue_as_f64 (dp_value p) = Some v;
  st_finite : f64_is_finite v = true;
  st_slot : ChannelToSlotIndex_lookup idx channel_id (dp_point_type p) (dp_id p) = Some slot;
}.

Lemma direct_delivers cps x h ptr l channel_id batch : config_ok cps -> store_layout cps x h ptr l -> rc_c2c rc = ∅ ->
  NoDup (point_id <$> batch) ->
  exists env' r m, write_channel_batch_direct (sl_index l) rc iter now (mkBatchEnv (sw_segment x) (sl_writer l) (sw_calls x))
      (batch_to_updates channel_id batch) = Ret (env', r) /\
    unified_wf cps (be_segment env') (be_writer env') /\ signaler_ok (uw_point_watch (be_writer env')) /\
    (m <= length batch)%nat /\ nsteps set_step m (sw_segment x, sl_writer l) (be_segment env', be_writer env') /\
    (forall p v slot, storable (sl_index l) channel_id batch p v slot ->
       read_slot (be_segment env') (sw_slot_count (uw_inner (sl_writer l))) slot = Ret (Some (mkSlotRead v v (now (sw_calls x)))) /\
       slot ∈ dirty_set (uw_inner (be_writer env'))) /\
    (forall j, (forall p v, ~ storable (sl_index l) channel_id batch p v j) -> sg_slots (be_segment env') !! j = sg_slots (sw_segment x) !! j).
Proof using Hiter.
  intros Hcfg [_ _ Hwf Hsig Hidx] Hc Hnd. rewrite Hidx. pose proof (uwf_layout _ _ _ Hwf) as Hal. set (idx := ChannelToSlotIndex_from_layouts _).
  set (us := batch_to_updates channel_id batch). set (env := mkBatchEnv (sw_segment x) (sl_writer l) (sw_calls x)).
  assert (Hlen : (length (filter (fun u => measured_update u = true) us) <= length batch)%nat).
  { pose proof (length_filter (fun u => measured_update u = true) us). pose proof (length_updates channel_id batch). unfold us in *. lia. }
  assert (Hst : forall p v slot, storable idx channel_id batch p v slot <-> exists u, u ∈ filter (fun u => measured_update u = true) us /\
      update_slot (uw_channel_layouts (sl_writer l)) u = Some slot /\ u = mkUpdate channel_id (dp_point_type p) (dp_id p) v None 0 /\
      p ∈ batch /\ ProtoValue_as_f64 (dp_value p) = Some v /\ f64_is_finite v = true).
  { intros p v slot. split.
    - intros [H1 H2 H3 H4 H5]. exists (mkUpdate channel_id (dp_point_type p) (dp_id p) v None 0). split_and!; try done.
      apply list_elem_of_filter. split; [done |]. apply batch_update_elem. eauto 10.
    - intros (u & Hin & Hs & -> & H1 & H2 & H3). apply list_elem_of_filter in Hin as [Hm _]. by split. }
  destruct (decide (us = [])) as [E | Hne].
  - exists env, BatchRoutingResult_default, 0%nat. rewrite E. split; [done |]. cbn [env be_segment be_writer]. split_and!; try done; [lia | constructor |].
    intros p v slot Hp. exfalso. apply Hst in Hp as (u & Hin & _). rewrite E in Hin. by apply elem_of_nil in Hin.
  - destruct (batch_delivered cps Hcfg _ _ Hal rc iter Hiter now env us Hc (conj Hwf Hsig) (batch_updates_distinct _ _ Hnd) Hne) as (env' & r & Heq & [Hwf' Hsig'] & Hd1 & Hd2).
    destruct (batch_run idx rc Hc iter now env us env' r Hiter (uwf_store _ _ _ Hwf) Heq) as [(m & Hm & Hsteps) Hdirty].
    exists env', r, m. split; [done |]. split_and!; try done; [lia | |].
    + intros p v slot Hp. apply Hst in Hp as (u & Hin & Hs & -> & _). split; [exact (Hd1 _ _ Hin Hs) | exact (Hdirty _ _ Hin Hs)].
    + intros j Hj. apply Hd2. intros u Hin Hs. pose proof Hin as Hin0. apply list_elem_of_filter in Hin0 as [_ Hin0].
      apply batch_update_elem in Hin0 as (p & v & H1 & H2 & H3 & ->). apply (Hj p v), Hst. eauto 10.
Qed.

(** The store writes through the layout it holds. *)
Lemma write_batch_direct cps x h ptr l channel_id batch env' r : store_layout cps x h ptr l -> batch <> [] ->
  write_channel_batch_direct (sl_index l) rc iter now (mkBatchEnv (sw_segment x) (sl_writer l) (sw_calls x))
    (batch_to_updates channel_id batch) = Ret (env', r) ->
  exists x', RedisDataStore_write_batch rc iter iter_inst f64_to_bytes now x channel_id batch = Ret x' /\
    sw_segment x' = be_segment env' /\ sw_events x' = sw_events x ++ [DataUpdate batch] /\
    rs_shm_handle (sw_store x') = Some (mkShmHandle (Some (ptr, with_writer l (be_writer env'))) (sh_config h) (sh_point_watcher h)).
Proof.
  intros [Hh Hl _ _ _] Hne Heq. destruct batch as [|p batch]; [done |]. cbn [RedisDataStore_write_batch]. rewrite Hh, Hl.
  unfold write_direct. rewrite Heq. cbn [outcome_bind]. eexists. split; [reflexivity |]. cbn. split_and!; try done.
  unfold count_misses. by destruct (_ <? _)%nat.
Qed.

Variable content_hash : RoutingCache -> Z.
Variable ops_order : list (string * list (string * string)) -> list (string * list (string * string)).
Hypothesis Horder : forall l, ops_order l ≡ₚ l.

(** What a finite reading [v] of point [p] looks like in the database. *)
Definition in_database (db : gmap string Hash) (channel_id : Z) (p : DataPoint) (v ts : Z) : Prop :=
  hget db (channel_key channel_id (dp_point_type p)) (print_u32 (dp_id p)) = Some (f64_to_bytes v) /\
  hget db (channel_ts_key channel_id (dp_point_type p)) (print_u32 (dp_id p)) = Some (i64_to_bytes (to_signed 64 ts)) /\
  hget db (channel_raw_key channel_id (dp_point_type p)) (print_u32 (dp_id p)) = Some (f64_to_bytes v) /\
  forall t, RoutingCache_lookup_c2m_by_parts rc channel_id (dp_point_type p) (dp_id p) = Some t -> c2m_ok t ->
    hget db (instance_measurement_key (c2m_instance_id t)) (print_u32 (c2m_point_id t)) = Some (f64_to_bytes v).

Lemma published_in_database (y : SyncSystem (C:=C)) channel_id p v ts slot s : is_uint 32 (dp_id p) -> y_rc y = rc ->
  publishable (y_seg y) (sl_reverse_index (y_layout y)) slot = Some (mkSlotOrigin channel_id (dp_point_type p) (dp_id p), s) ->
  (ps_value_bits s, ps_raw_bits s, ps_timestamp s) = (v, v, ts) ->
  published f64_to_bytes y slot -> in_database (y_db y) channel_id p v ts.
Proof.
  intros Hid Hrc Hp [= Ev Er Et] Hpub. unfold published, fields_of in Hpub. rewrite Hp, Hrc, Ev, Er, Et in Hpub.
  unfold slot_fields in Hpub. cbn [so_channel_id so_point_type so_point_id] in Hpub.
  rewrite (get_point_id_str_print (dp_id p) Hid) in Hpub. split_and!.
  - apply Hpub. left.
  - apply Hpub. right. left.
  - apply Hpub. right. right. left.
  - intros t Ht [_ Hip]. rewrite Ht in Hpub. rewrite <- (get_point_id_str_print (c2m_point_id t) Hip). apply Hpub.
    apply elem_of_app. right. left.
Qed.

(** C9: a poll result reaches the readers of shared memory and of the database.  From any
    state between passes and writes that a run of usual events reaches (as in ShmSync.v:
    sequence numbers do not wrap, also not in this batch; a rebuilt layout is not at the
    address the last pass saw; a new routing cache differs in its hash from the last one
    seen, which was not zero; no two channel points feed one instance point), with 1 to
    1024 slots, no channel-to-channel routes, no reconfiguration flagged and a batch that
    is not empty and names no point twice: [write_batch] returns, and after it and one
    pass of the synchronisation task whose database call succeeds, every telemetry or
    signal reading of the batch that is a finite number and has a slot is what readers of
    the segment get, with the time of the batch, and is in the hashes of its channel and
    in that of the instance it feeds; every other slot is as it was, so a reading that is
    not a finite number is never stored. *)
Theorem poll_reaches_database {W} `{HR : !HashRtdb W} `{HS : !HashRtdbSpec W} (w : W) (y0 y : SyncSystem (C:=C)) cps x h channel_id batch :
  (forall (w : W) ops, (rt_pipeline_hash_mset w ops).2 = true) ->
  sync_init y0 -> rtc (usual_step f64_to_bytes content_hash ops_order) y0 y -> y_phase y = PIdle -> y_open y = ∅ -> rt_view w = y_db y -> y_rc y = rc ->
  config_ok cps -> store_layout cps x h (y_ptr y) (y_layout y) -> sw_segment x = y_seg y ->
  (forall ch pt p slot, ChannelToSlotIndex_lookup (sl_index (y_layout y)) ch pt p = Some slot ->
     is_uint 32 p /\ ReverseSlotIndex_get (sl_reverse_index (y_layout y)) slot = Some (mkSlotOrigin ch pt p)) ->
  rc_c2c rc = ∅ -> (0 < y_count y <= MAX_PIPELINE_SLOTS)%nat -> Z.land (SlotWriter_generation (y_seg y)) 1 <> 1 ->
  rooms (length batch) (y_seg y) -> NoDup (point_id <$> batch) -> batch <> [] ->
  exists x' l' w' l'' st', RedisDataStore_write_batch rc iter iter_inst f64_to_bytes now x channel_id batch = Ret x' /\
    sw_events x' = sw_events x ++ [DataUpdate batch] /\
    rs_shm_handle (sw_store x') = Some (mkShmHandle (Some (y_ptr y, l')) (sh_config h) (sh_point_watcher h)) /\
    flush_tick f64_to_bytes content_hash ops_order (sw_segment x') (y_ptr y) rc (w, l', y_sync y) = Ret (w', l'', st') /\
    (forall p v slot, storable (sl_index (y_layout y)) channel_id batch p v slot ->
       read_slot (sw_segment x') (y_count y) slot = Ret (Some (mkSlotRead v v (now (sw_calls x)))) /\
       in_database (rt_view w') channel_id p v (now (sw_calls x))) /\
    (forall j, (forall p v, ~ storable (sl_index (y_layout y)) channel_id batch p v j) -> sg_slots (sw_segment x') !! j = sg_slots (y_seg y) !! j).
Proof using Hiter Horder.
  intros Hup H0 Hr Hfl Hop Hdb Hrc Hcfg Hx Hseg Hidx Hc [Hn0 Hn] Hev Hroom Hnd Hne.
  destruct (direct_delivers cps x h _ _ channel_id batch Hcfg Hx Hc Hnd) as (env' & r & m & Heq & Hwf' & _ & Hm & Hsteps & Hread & Hframe).
  destruct (write_batch_direct cps x h _ _ channel_id batch env' r Hx Hne Heq) as (x' & Hw & Es & Ev & Eh). rewrite Hseg in Hsteps, Hframe.
  pose proof (uwf_store _ _ _ (sx_wf _ _ _ _ _ Hx)) as Hst0. rewrite Hseg in Hst0. destruct y as [g ptr l rc' st op ph db]. cbn [y_seg y_layout y_rc y_ptr y_sync y_open y_phase y_db] in *. subst op ph db rc'.
  assert (Hgen : SlotWriter_generation (be_segment env') = SlotWriter_generation g) by (eapply steps_generation; exact Hsteps).
  assert (Hinv : tick_inv f64_to_bytes content_hash (be_segment env') ptr rc (y_count (mkSyncSystem g ptr l rc st ∅ PIdle (rt_view w)))
    (w, with_writer l (be_writer env'), st)).
  { split; [| by destruct (set_steps_dirty _ _ _ _ _ Hst0 Hsteps) as (_ & Hcnt & _)]. eapply (inv_reachable f64_to_bytes content_hash ops_order Horder); [exact H0 |].
    etransitivity; [exact Hr |]. unfold tick_system. cbn [fst snd].
    assert (El : l = with_writer l (sl_writer l)) by (by destruct l). rewrite El at 1. apply (set_steps_sync _ _ _ m); [done | | done].
    intros i. specialize (Hroom i). lia. }
  destruct (dirty_published f64_to_bytes content_hash ops_order Horder Hup (be_segment env') ptr rc
    (y_count (mkSyncSystem g ptr l rc st ∅ PIdle (rt_view w))) ltac:(lia) ltac:(by rewrite Hgen) _ Hinv Hn)
    as ([[w' l''] st'] & Ht & Hrev & Hpub). cbn [fst snd] in Hrev, Hpub.
  exists x', (with_writer l (be_writer env')), w', l'', st'. rewrite Es. split_and!; try done; cycle 1.
  intros p v slot Hp. destruct (Hread p v slot Hp) as [Hrd Hdirty]. split; [exact Hrd |].
  destruct (Hidx _ _ _ _ (st_slot _ _ _ _ _ _ Hp)) as [Hid Ho].
  apply elem_of_dirty_set in Hdirty as Hlt. destruct Hlt as [Hlt _].
  destruct (read_slot_quiet (be_segment env') (uw_inner (be_writer env')) slot (uwf_store _ _ _ Hwf') Hlt) as (s & Hs & Hq & _).
  destruct (set_steps_dirty _ _ _ _ _ Hst0 Hsteps) as (_ & Hcnt & _). rewrite Hcnt, Hrd in Hq. injection Hq as E1 E2 E3.
  eapply (published_in_database (tick_system (be_segment env') ptr rc (w', l'', st')) channel_id p v _ slot s Hid eq_refl); [| congruence | by apply Hpub].
  unfold publishable, tick_system. cbn [y_seg y_layout fst snd]. rewrite Hs, <- E1, <- E2, (st_finite _ _ _ _ _ _ Hp), Hrev. cbn [andb with_writer sl_reverse_index].
  by rewrite Ho.
Qed.
End Claims.

(** * Forwarded readings are not filtered

    Only the readings of the device are checked.  A channel-to-channel route scales the
    reading afterwards, so a finite reading can be stored as infinity at the target, which
    the synchronisation task then skips: the database keeps the value before it. *)
Definition scaling_route : RoutingCache :=
  mkRoutingCache ∅ {[ (1, Telemetry, 0) := mkC2CTarget 4 Telemetry 0 (f64_of_Z 10) f64_zero ]} ∅ ∅.
Definition near_max : Z := 0x7FE0000000000000.
Definition store_of (l : ShmLayout bounded_queue) (g : Segment) : StoreWorld bounded_queue :=
  mkStoreWorld (RedisDataStore_with_shm_handle RedisDataStore_new (mkShmHandle (Some (4096, l)) sample_cfg None)) g 0 [].
Definition layout_of (x : StoreWorld bounded_queue) : ShmLayout bounded_queue :=
  match rs_shm_handle (sw_store x) with Some (mkShmHandle (Some (_, l)) _ _) => l | _ => sync_layout end.

(** Two polls of telemetry 0 of channel 1, each followed by a pass: what channel 4 reads in shared memory and in the database. *)
Definition forwarded_twice (v1 v2 : Z) : outcome (outcome (option SlotRead) * option string) :=
  let store v x := RedisDataStore_write_batch scaling_route id id print_i64 (fun _ => 1700) x 1 [DataPoint_new 0 Telemetry (PFloat v)] in
  let tick x db st := flush_tick print_i64 sync_hash id (sw_segment x) 4096 scaling_route (db, layout_of x, st) in
  let! x := store v1 (store_of sync_layout sample_segment) in
  let! (db, l, st) := tick x MemoryRtdb_new (ShmRedisSync_new 9) in
  let! x := store v2 (store_of l (sw_segment x)) in
  let! (db, l, st) := tick x db st in
  Ret (match ChannelToSlotIndex_lookup (sl_index l) 4 Telemetry 0 with Some i => read_slot (sw_segment x) 9 i | None => Panic end,
       MemoryRtdb_hash_get db (channel_key 4 Telemetry) "0").

Theorem forwarded_overflow_stored :
  f64_is_finite near_max = true /\
  forwarded_twice f64_one near_max = Ret (Ret (Some (mkSlotRead 0x7FF0000000000000 0x7FF0000000000000 1700)), Some (print_i64 (f64_of_Z 10))).
Proof. split; vm_compute; reflexivity. Qed.

(** * Witness *)

Definition store_batch : DataBatch :=
  [DataPoint_new 0 Telemetry (PFloat reading_7); DataPoint_new 1 Telemetry (PFloat SLOT_UNWRITTEN_BITS); DataPoint_new 2 Telemetry PNull].

Lemma sync_layout_inverse ch pt p slot : ChannelToSlotIndex_lookup (sl_index sync_layout) ch pt p = Some slot ->
  is_uint 32 p /\ ReverseSlotIndex_get (sl_reverse_index sync_layout) slot = Some (mkSlotOrigin ch pt p).
Proof.
  intros Hl. assert (Hal : allocate_layouts sample_counts = Ret (sample_layouts, 9%nat)) by (vm_compute; reflexivity).
  destruct (allocated_layouts_ok _ _ _ sync_config_ok Hal) as [Hok Hlen].
  destruct (forward_keys_nonneg sample_layouts ch pt p slot Hok Hlen Hl) as [Hch Hp]. split; [done |].
  apply (fresh_layout_sound map_to_list (fun m => reflexivity _) sample_counts sample_layouts 9 sample_segment sample_writer); try done.
  - apply sync_config_ok.
  - apply sample_unified_wf.
  - intros i Hi. do 9 (destruct i as [|i]; [reflexivity |]). lia.
Qed.

Lemma poll_reaches_database_witness : exists x' (l' l'' : ShmLayout bounded_queue) w' st',
  RedisDataStore_write_batch sync_routes id id print_i64 (fun _ => 1700) (store_of sync_layout sample_segment) 1 store_batch = Ret x' /\
  flush_tick print_i64 sync_hash id (sw_segment x') 4096 sync_routes (MemoryRtdb_new, l', ShmRedisSync_new 9) = Ret (w', l'', st') /\
  hget (rt_view w') (channel_key 1 Telemetry) "0" = Some (print_i64 reading_7) /\
  hget (rt_view w') (instance_measurement_key 23) "4" = Some (print_i64 reading_7).
Proof.
  destruct (poll_reaches_database sync_routes id (fun l => reflexivity l) id print_i64 (fun _ => 1700) sync_hash id (fun l => reflexivity l)
    MemoryRtdb_new sync_y0 sync_y0 sample_counts (store_of sync_layout sample_segment) (mkShmHandle (Some (4096, sync_layout)) sample_cfg None) 1 store_batch)
    as (x' & l' & w' & l'' & st' & H1 & _ & _ & H2 & H3 & _).
  - done.
  - apply sync_y0_init.
  - done.
  - done.
  - done.
  - done.
  - done.
  - apply sync_config_ok.
  - split; [done | done | apply sample_unified_wf | done | done].
  - done.
  - apply sync_layout_inverse.
  - done.
  - split; [vm_compute; lia | apply Nat.leb_le; vm_compute; reflexivity].
  - done.
  - intros i. unfold slot_seq. assert (Hz : Forall (fun s => ps_seq s = 0) (sg_slots (y_seg sync_y0))) by (repeat constructor).
    destruct (sg_slots (y_seg sync_y0) !! i) as [s|] eqn:E; [rewrite (proj1 (Forall_lookup _ _) Hz i s E) |]; cbn; lia.
  - apply (bool_decide_unpack _). vm_compute. exact I.
  - done.
  - exists x', l', l'', w', st'. split; [exact H1 |]. split; [exact H2 |].
    destruct (H3 (DataPoint_new 0 Telemetry (PFloat reading_7)) reading_7 0%nat) as [_ (D1 & _ & _ & D4)].
    { split; [left | done | done | done | vm_compute; reflexivity]. }
    split; [exact D1 |]. apply (D4 (mkC2MTarget 23 4)); [vm_compute; reflexivity |]. split; cbn; unfold is_uint; lia.
Defined.
