(* ===== verification/ModbusPoints.v ===== *)
(** From the channel configuration to the task: the point converters of
    [services/comsrv/src/core/channels/converters.rs] with the configured points of
    [libs/voltage-config/src/comsrv.rs], and the Modbus channel as the protocol client
    of the channel task ([ChannelRuntime] for [ModbusChannel] in
    [protocols/adapters/modbus.rs]).

    [serde_json] is a parameter: a mapping is [None] when its text is not JSON, and a
    finite map of fields when it is an object. *)
From stdpp Require Import base numbers list gmap strings sorting.
From Stdlib Require Import ZArith Lia SpecFloat Ascii.
From S2P Require Import Prelude Ieee PointTypes Routing Rtdb Registers Listener Reconnect ChannelTask Modbus.
Local Open Scope Z_scope.
Set Warnings "-clear-no-such-hyp".

(** * Configured points *)

Record Point := mkPoint {
  pt_point_id : Z;
  pt_signal_name : string;
  pt_description : option string;
  pt_unit : option string;
  pt_protocol_mappings : option string;
}.
Record TelemetryPoint := mkTelemetryPoint { tp_base : Point; tp_scale : Z; tp_offset : Z; tp_data_type : string; tp_reverse : bool }.
Record SignalPoint := mkSignalPoint { sp_base : Point; sp_reverse : bool }.
Record ControlPoint := mkControlPoint {
  cp_base : Point; cp_reverse : bool; cp_control_type : string; cp_on_value : Z; cp_off_value : Z; cp_pulse_duration_ms : option Z }.
Record AdjustmentPoint := mkAdjustmentPoint {
  ap_base : Point; ap_min_value : option Z; ap_max_value : option Z; ap_step : Z; ap_data_type : string; ap_scale : Z; ap_offset : Z }.

(** The points of [RuntimeChannelConfig]; its base configuration is not read here. *)
Record RuntimeChannelConfig := mkRuntimeChannelConfig {
  rc_telemetry_points : list TelemetryPoint;
  rc_signal_points : list SignalPoint;
  rc_control_points : list ControlPoint;
  rc_adjustment_points : list AdjustmentPoint;
}.

(** The trait [PointConvertible] and its four implementations; the struct updates take
    what they do not name from [TransformConfig::default()]. *)
Class PointConvertible (P : Type) := {
  pv_base : P -> Point;
  pv_point_type : PointType;
  pv_transform : P -> TransformConfig;
}.
Arguments pv_point_type P {_}.

Definition with_scale (scale offset : Z) (reverse : bool) : TransformConfig :=
  let d := TransformConfig_default in mkTransformConfig scale offset reverse (tf_deadband d) (tf_min_value d) (tf_max_value d).
Definition with_reverse (reverse : bool) : TransformConfig :=
  let d := TransformConfig_default in mkTransformConfig (tf_scale d) (tf_offset d) reverse (tf_deadband d) (tf_min_value d) (tf_max_value d).

#[export] Instance TelemetryPoint_convertible : PointConvertible TelemetryPoint :=
  {| pv_base := tp_base; pv_point_type := Telemetry; pv_transform p := with_scale (tp_scale p) (tp_offset p) (tp_reverse p) |}.
#[export] Instance SignalPoint_convertible : PointConvertible SignalPoint :=
  {| pv_base := sp_base; pv_point_type := Signal; pv_transform p := with_reverse (sp_reverse p) |}.
#[export] Instance ControlPoint_convertible : PointConvertible ControlPoint :=
  {| pv_base := cp_base; pv_point_type := Control; pv_transform p := with_reverse (cp_reverse p) |}.
#[export] Instance AdjustmentPoint_convertible : PointConvertible AdjustmentPoint :=
  {| pv_base := ap_base; pv_point_type := Adjustment;
     pv_transform p := with_scale (ap_scale p) (ap_offset p) (tf_reverse TransformConfig_default) |}.

Definition PointConfig_with_name (p : PointConfig) (name : string) : PointConfig :=
  mkPointConfig (pc_id p) (pc_point_type p) (Some name) (pc_address p) (pc_transform p) (pc_poll_group p) (pc_enabled p).

Definition convert_point {P} `{PointConvertible P} (addr_fn : Point -> option ProtocolAddress) (p : P) : option PointConfig :=
  addr ← addr_fn (pv_base p);
  Some (PointConfig_with_transform
          (PointConfig_with_name (PointConfig_new (pt_point_id (pv_base p)) (pv_point_type P) addr) (pt_signal_name (pv_base p)))
          (pv_transform p)).
Definition convert_points {P} `{PointConvertible P} (points : list P) (addr_fn : Point -> option ProtocolAddress) : list PointConfig :=
  omap (convert_point addr_fn) points.
Definition convert_all_points (rc : RuntimeChannelConfig) (addr_fn : Point -> option ProtocolAddress) : list PointConfig :=
  convert_points (rc_telemetry_points rc) addr_fn ++ convert_points (rc_signal_points rc) addr_fn ++
  convert_points (rc_control_points rc) addr_fn ++ convert_points (rc_adjustment_points rc) addr_fn.

Definition convert_to_point_configs (rc : RuntimeChannelConfig) : list PointConfig :=
  convert_all_points rc (fun base => Some (AddrOther "Virtual")).

(** ** Modbus mappings *)

Inductive JsonField := JInt (n : Z) | JString (s : string) | JOther.
Inductive MappingJson := JObject (fields : gmap string JsonField) | JNotObject.

(** [str::parse::<u64>]. *)
Definition parse_u64 (s : string) : option Z :=
  match s with
  | EmptyString => None
  | String a s' =>
      if Ascii.eqb a "+"%char then match s' with EmptyString => None | _ => parse_digits_within 0 (2 ^ 64 - 1) 1 s' 0 end
      else parse_digits_within 0 (2 ^ 64 - 1) 1 s 0
  end.
Definition parse_u64_field (v : gmap string JsonField) (key : string) : option Z :=
  match v !! key with
  | Some (JInt n) => if (0 <=? n) && (n <? 2 ^ 64) then Some n else None
  | Some (JString s) => parse_u64 s
  | _ => None
  end.
Definition try_from_uint (w : Z) (o : option Z) : option Z := n ← o; if (0 <=? n) && (n <? 2 ^ w) then Some n else None.
Definition str_field (v : gmap string JsonField) (key default_value : string) : string :=
  match v !! key with Some (JString s) => s | _ => default_value end.

Section Mapping.
Variable parse_json : string -> option MappingJson.

Definition parse_modbus_mapping (json_str : string) : option ModbusAddress :=
  match parse_json json_str with
  | Some (JObject v) =>
      slave_id ← try_from_uint 8 (parse_u64_field v "slave_id");
      function_code ← try_from_uint 8 (parse_u64_field v "function_code");
      register ← try_from_uint 16 (parse_u64_field v "register_address");
      Some (mkModbusAddress slave_id function_code register (parse_data_format (str_field v "data_type" "uint16"))
              (parse_byte_order (str_field v "byte_order" "ABCD")) (try_from_uint 8 (parse_u64_field v "bit_position")))
  | _ => None
  end.

Definition modbus_address_of (base : Point) : option ProtocolAddress :=
  json ← pt_protocol_mappings base; addr ← parse_modbus_mapping json; Some (AddrModbus addr).
Definition convert_to_modbus_point_configs (rc : RuntimeChannelConfig) : list PointConfig := convert_all_points rc modbus_address_of.
End Mapping.

(** * What the conversion yields *)

Definition address_typed (a : ModbusAddress) : Prop :=
  is_uint 8 (ad_slave_id a) /\ is_uint 8 (ad_function_code a) /\ is_uint 16 (ad_register a) /\
  (forall b, ad_bit_position a = Some b -> is_uint 8 b) /\ 1 <= ModbusAddress_register_count a <= 4.

Lemma try_from_uint_Some w o n : try_from_uint w o = Some n -> o = Some n /\ is_uint w n.
Proof.
  unfold try_from_uint. destruct o as [m|]; [| done]. cbn. destruct ((0 <=? m) && (m <? 2 ^ w)) eqn:Hm; [| done].
  apply andb_true_iff in Hm as [?%Z.leb_le ?%Z.ltb_lt]. intros [= <-]. done.
Qed.

Lemma parse_data_format_small s : DataFormat_register_count (parse_data_format s) ∈ [1; 2; 4]%nat.
Proof. unfold parse_data_format. repeat case_match; set_solver. Qed.

Lemma parse_modbus_mapping_typed parse_json json a : parse_modbus_mapping parse_json json = Some a -> address_typed a.
Proof.
  unfold parse_modbus_mapping. intros H. destruct (parse_json json) as [[v|]|]; try done.
  apply bind_Some in H as (slave & [_ Hs]%try_from_uint_Some & H). apply bind_Some in H as (fc & [_ Hf]%try_from_uint_Some & H).
  apply bind_Some in H as (reg & [_ Hr]%try_from_uint_Some & H). injection H as <-.
  split; [done |]. split; [done |]. split; [done |]. cbn. split; [by intros b [_ Hb]%try_from_uint_Some |].
  unfold ModbusAddress_register_count. cbn. pose proof (parse_data_format_small (str_field v "data_type" "uint16")) as Hn.
  rewrite !elem_of_cons, elem_of_nil in Hn. lia.
Qed.

Lemma convert_points_in {P} `{PointConvertible P} (points : list P) addr_fn p : p ∈ convert_points points addr_fn ->
  exists x addr, x ∈ points /\ addr_fn (pv_base x) = Some addr /\ pc_id p = pt_point_id (pv_base x) /\
    pc_point_type p = pv_point_type P /\ pc_address p = addr /\ pc_transform p = pv_transform x.
Proof.
  unfold convert_points. intros (x & Hx & Hc)%list_elem_of_omap. unfold convert_point in Hc.
  apply bind_Some in Hc as (addr & Ha & [= <-]). by exists x, addr.
Qed.

(** The configured points behind a converted one, whatever its type. *)
Definition configured_base (rc : RuntimeChannelConfig) (pt : PointType) (b : Point) : Prop :=
  match pt with
  | Telemetry => b ∈ map tp_base (rc_telemetry_points rc)
  | Signal => b ∈ map sp_base (rc_signal_points rc)
  | Control => b ∈ map cp_base (rc_control_points rc)
  | Adjustment => b ∈ map ap_base (rc_adjustment_points rc)
  end.

Lemma convert_all_in rc addr_fn p : p ∈ convert_all_points rc addr_fn ->
  exists b, configured_base rc (pc_point_type p) b /\ addr_fn b = Some (pc_address p) /\ pc_id p = pt_point_id b.
Proof.
  unfold convert_all_points. rewrite !elem_of_app. intros [Hp | [Hp | [Hp | Hp]]];
    apply convert_points_in in Hp as (x & addr & Hx & Ha & Hid & Ht & <- & _); exists (pv_base x);
    (split; [rewrite Ht; cbn; apply list_elem_of_fmap; by exists x | done]).
Qed.

(** Every point the converter hands to the Modbus channel comes from a configured
    point of the same type and id, and its address is well-typed at the widths of the
    protocol (slave and function code in a byte, register in 16 bits) with a format
    of at most four registers, whatever the mapping texts contain. *)
Theorem converted_points_typed parse_json rc :
  Forall (fun p => exists a b, pc_address p = AddrModbus a /\ address_typed a /\ configured_base rc (pc_point_type p) b /\
    pc_id p = pt_point_id b /\ modbus_address_of parse_json b = Some (AddrModbus a))
    (convert_to_modbus_point_configs parse_json rc).
Proof.
  apply Forall_forall. intros p (b & Hb & Ha & Hid)%convert_all_in. pose proof Ha as Haddr. unfold modbus_address_of in Ha.
  apply bind_Some in Ha as (json & _ & Ha). apply bind_Some in Ha as (a & Hm & Ha). injection Ha as Ha.
  exists a, b. rewrite <- Ha in *. split; [done |]. split; [by eapply parse_modbus_mapping_typed | done].
Qed.

(** * Signals on registers

    [..Default::default()] takes the scale 0.0 of the derived [Default], and
    [apply_transform] scales every number. *)

Definition zero_or_finite (x : Z) : Prop := (exists s, f64_to_sf x = S754_zero s) \/ (exists s m e, f64_to_sf x = S754_finite s m e).

Lemma zero_or_finite_of_Z z : Z.abs z < 2 ^ 53 -> zero_or_finite (f64_of_Z z).
Proof. intros [Hz | (m & e & Hz)]%f64_of_Z_sf; [left | right]; eauto. Qed.

Lemma reading_decoded {C E} `{ModbusDevice C E} (c : C) p a d : pc_address p = AddrModbus a -> ad_function_code a = 3 \/ ad_function_code a = 4 ->
  modbus_reading c p = Some d -> exists f v, decode_registers (map f (seqZ (ad_register a) (ModbusAddress_register_count a))) (ad_format a) (ad_byte_order a) (ad_bit_position a) = Ok v /\
    (exists t, f = dev_reg c t (ad_slave_id a)) /\ d = point_of p v.
Proof.
  intros Ha Hfc. unfold modbus_reading. rewrite Ha. destruct Hfc as [-> | ->]; cbn [Z.eqb Pos.eqb]; unfold registers_reading; rewrite Ha;
    intros Hd; repeat case_match; try done; injection Hd as <-; eauto 10.
Qed.

(** The formats whose numbers an [f64] holds without a loss. *)
Definition plain_number (f : DataFormat) : bool :=
  match f with FUInt16 | FInt16 | FUInt32 | FInt32 | FFloat32 | FFloat64 => true | _ => false end.

Lemma decoded_number regs f o b v : Forall (is_uint 16) regs -> plain_number f = true -> decode_registers regs f o b = Ok v ->
  (exists z, v = PInteger z /\ Z.abs z < 2 ^ 53) \/ (exists x, v = PFloat x /\ zero_or_finite x).
Proof.
  intros Hr Hf Hd. destruct f; try done; cbn [decode_registers] in Hd; repeat (case_match; try done); injection Hd as <-.
  1, 2: apply Forall_cons in Hr as [Hz _]; left; eexists; (split; [done |]).
  3, 4, 5: assert (Hw : is_uint 32 (from_be_bytes (reorder_bytes_32 z z0 o))) by (apply regs_32_decoded; apply Forall_cons in Hr as [? Hr];
    apply Forall_cons in Hr as [? _]; by apply Forall_pair).
  3, 4: left; eexists; (split; [done |]).
  1: unfold is_uint in Hz; lia.
  1: pose proof (to_signed_range 16 z ltac:(lia)); lia.
  1: unfold is_uint in Hw; lia.
  1: pose proof (to_signed_range 32 (from_be_bytes (reorder_bytes_32 z z0 o)) ltac:(lia)); lia.
  - right. eexists. split; [done |]. refine (f64_finite_sf _ (proj2 (f32_finite_exact _ Hw _))). by apply negb_false_iff.
  - right. eexists. split; [done |]. refine (f64_finite_sf _ _). by apply negb_false_iff.
Qed.

(** A signal that is mapped to a number reads 0.0 for ever: whatever the device's
    registers hold, with every numeric format of up to 32 bits or a float (the mapping's
    default is a 16-bit number), a reading of the converted point is zero. *)
Theorem signal_on_register_reads_zero {C E} `{ModbusDevice C E} (c : C) parse_json rc p a d :
  p ∈ convert_points (rc_signal_points rc) (modbus_address_of parse_json) -> pc_address p = AddrModbus a ->
  ad_function_code a = 3 \/ ad_function_code a = 4 -> plain_number (ad_format a) = true ->
  (forall t s r, is_uint 16 (dev_reg c t s r)) -> modbus_reading c p = Some d -> dp_value d.2 = PFloat f64_zero.
Proof.
  intros Hp Ha Hfc Hf Hregs Hd. apply convert_points_in in Hp as (x & addr & _ & _ & _ & _ & _ & Ht).
  destruct (reading_decoded c p a d Ha Hfc Hd) as (f & v & Hv & (t & ->) & ->).
  assert (Hnum : (exists z, v = PInteger z /\ Z.abs z < 2 ^ 53) \/ (exists y, v = PFloat y /\ zero_or_finite y)).
  { eapply decoded_number; [| exact Hf | exact Hv]. apply Forall_fmap, Forall_true. intros r. apply Hregs. }
  unfold point_of, DataPoint_new. cbn [snd dp_value]. rewrite Ht.
  destruct Hnum as [(z & -> & Hz) | (y & -> & Hy)]; cbn [apply_transform]; f_equal; apply f64_zero_scale; [by apply zero_or_finite_of_Z | done].
Qed.

Definition sample_json (s : string) : option MappingJson :=
  if String.eqb s "{slave 1, code 3, register 40}"
  then Some (JObject (<["slave_id" := JInt 1]> (<["function_code" := JInt 3]> (<["register_address" := JInt 40]> ∅)))) else None.
Definition sample_signal : SignalPoint := mkSignalPoint (mkPoint 7 "breaker closed" None None (Some "{slave 1, code 3, register 40}"%string)) false.
Definition sample_runtime : RuntimeChannelConfig := mkRuntimeChannelConfig [] [sample_signal] [] [].

Lemma signal_on_register_reads_zero_witness :
  match convert_to_modbus_point_configs sample_json sample_runtime with
  | [p] => match modbus_reading sample_device p with Some d => dp_value d.2 = PFloat f64_zero | None => False end
  | _ => False
  end.
Proof.
  set (dev := mkSimDevice (fun _ _ a => wrap 16 a) (fun _ _ _ => false) []).
  set (a := mkModbusAddress 1 3 40 FUInt16 Abcd None).
  set (p := mkPointConfig 7 Signal (Some "breaker closed"%string) (AddrModbus a) (with_reverse false) None true).
  change (dp_value (point_of p (PInteger 40)).2 = PFloat f64_zero).
  apply (signal_on_register_reads_zero dev sample_json sample_runtime p a (point_of p (PInteger 40))).
  - apply list_elem_of_singleton. vm_compute. reflexivity.
  - reflexivity.
  - by left.
  - reflexivity.
  - intros t s r. cbn. unfold is_uint, wrap. apply Z.mod_pos_bound. lia.
  - vm_compute. reflexivity.
Defined.

(** * The Modbus channel under the channel task *)

(** What the next call of [create_client] does. *)
Inductive ConnectOutcome (C : Type) := ConnectedTo (c : C) | ConnectRefused (e : GatewayError) | ConnectHangs.
Arguments ConnectedTo {C} c.
Arguments ConnectRefused {C} e.
Arguments ConnectHangs {C}.

Section Runtime.
Context {C E : Type} `{Client : ModbusClient C E}.
Variable order : GroupedPoints -> list (Z * Z * list PointConfig).

Definition modbus_runtime : Type := ModbusChannel C * list (ConnectOutcome C).

Definition runtime_connect (p : modbus_runtime) : modbus_runtime * bool :=
  let '(ch, outcomes) := p in
  match outcomes with
  | ConnectedTo c :: rest => let '(ch, _) := ModbusChannel_connect ch (Ok c) in ((ch, rest), true)
  | ConnectRefused e :: rest => let '(ch, _) := ModbusChannel_connect ch (Err e) in ((ch, rest), false)
  | _ => ((mb_set_state ch CsConnecting, outcomes), false)
  end.
Definition success_of (r : option (WriteResult E)) : option Z := (fun w => Z.of_nat (wr_success_count w)) <$> r.

(** [ChannelRuntime for ModbusChannel]: the task hands numbers over, a control is on
    when its number is not zero. *)
#[local] Instance modbus_channel_runtime : ChannelRuntime modbus_runtime DataPoint := {|
  rt_connection_state p := mb_state p.1;
  rt_connect := runtime_connect;
  rt_connect_hangs p := match p.2 with ConnectHangs :: rest => Some (mb_set_state p.1 CsConnecting, rest) | _ => None end;
  rt_disconnect p := (ModbusChannel_disconnect p.1, p.2);
  rt_poll_once p := let '(ch, r) := ModbusChannel_poll_once order p.1 in ((ch, p.2), pr_data r, length (pr_failures r));
  rt_write_control p commands :=
    let '(ch, r) := ModbusChannel_write_control p.1 (map (fun '(id, v) => ControlCommand_latching id (negb (f64_eqb v f64_zero))) commands) in
    ((ch, p.2), success_of r);
  rt_write_adjustment p adjustments :=
    let '(ch, r) := ModbusChannel_write_adjustment p.1 (map (fun '(id, v) => mkAdjustmentCommand id v) adjustments) in
    ((ch, p.2), success_of r);
  rt_diagnostics p := Some (dg_error_count (mb_diagnostics p.1));
  rt_set_log_config p l := (set_log_config p.1 l, p.2);
|}.

Context `{Device : !ModbusDevice C E, Spec : !ModbusDeviceSpec C E}.

Lemma refresh_trace {P D} `{RT : ChannelRuntime P D} (s : TaskState P D) : exists rest,
  ts_trace (refresh s) = ts_trace s ++ rest /\ Forall (fun e => e = EvOnline (is_online (ts_proto s))) rest /\
  ts_proto (refresh s) = ts_proto s /\ ts_zero_data (refresh s) = ts_zero_data s /\
  tc_last_read_ms (ts_cells (refresh s)) = tc_last_read_ms (ts_cells s).
Proof.
  unfold refresh, check_online_change, update_cached_state. case_decide; cbn.
  - exists []. by rewrite app_nil_r.
  - eexists. split; [done |]. by rewrite Forall_singleton.
Qed.

(** Data that arrives is stored at once, and clears the watchdog. *)
Lemma poll_data_stores (s : TaskState modbus_runtime DataPoint) threshold i p' d data n :
  rt_poll_once (ts_proto s) = (p', d :: data, n) ->
  let s' := (poll_data threshold s i).1 in
  (exists rest, ts_trace s' = ts_trace s ++ EvBatch (d :: data) :: rest /\ Forall (fun e => e = EvOnline (is_online p')) rest) /\
  ts_proto s' = p' /\ ts_zero_data s' = 0 /\ tc_last_read_ms (ts_cells s') = ti_wall_ms i.
Proof.
  intros Hp. unfold poll_data. rewrite Hp. cbv beta zeta iota. cbn [rt_diagnostics modbus_channel_runtime fst].
  match goal with |- context [refresh ?x] => destruct (refresh_trace x) as (rest & Ht & Hr & Hpr & Hz & Hl); set (st := x) in * end.
  rewrite Ht, Hpr, Hz, Hl. subst st. destruct (ts_prev_errors _ <? _); cbn in *; (split; [| done]); exists rest;
    (split; [by rewrite <- app_assoc | done]).
Qed.

(** Without data nothing is stored; the watchdog counts the tick and disconnects at its
    threshold. *)
Definition watchdog_fires (threshold count : Z) : bool := (0 <? threshold) && (threshold <=? wrap 32 (count + 1)).
Definition zero_data_after (threshold count : Z) : Z :=
  if 0 <? threshold then (if threshold <=? wrap 32 (count + 1) then 0 else wrap 32 (count + 1)) else count.

Lemma poll_data_empty (s : TaskState modbus_runtime DataPoint) threshold i p' n :
  rt_poll_once (ts_proto s) = (p', [], n) ->
  let s' := (poll_data threshold s i).1 in
  (exists rest, ts_trace s' = ts_trace s ++ (if watchdog_fires threshold (ts_zero_data s) then [EvDisconnect] else []) ++ rest /\
     Forall (fun e => exists b, e = EvOnline b) rest) /\
  ts_zero_data s' = zero_data_after threshold (ts_zero_data s) /\ tc_last_read_ms (ts_cells s') = tc_last_read_ms (ts_cells s).
Proof.
  intros Hp. unfold poll_data, zero_data_after, watchdog_fires. rewrite Hp. cbv beta zeta iota. cbn [rt_diagnostics modbus_channel_runtime fst].
  assert (Hfin : forall es (st : TaskState modbus_runtime DataPoint), ts_trace st = ts_trace s ++ es -> tc_last_read_ms (ts_cells st) = tc_last_read_ms (ts_cells s) ->
    (exists rest, ts_trace (refresh st) = ts_trace s ++ es ++ rest /\ Forall (fun e => exists b, e = EvOnline b) rest) /\
    ts_zero_data (refresh st) = ts_zero_data st /\ tc_last_read_ms (ts_cells (refresh st)) = tc_last_read_ms (ts_cells s)).
  { intros es st Htr Hlr. destruct (refresh_trace st) as (rest & Ht & Hr & _ & Hz & Hl). rewrite Ht, Hz, Hl, Htr. split; [| done].
    exists rest. split; [by rewrite <- app_assoc |]. eapply Forall_impl; [exact Hr |]. intros e ->. by eexists. }
  destruct (0 <? threshold); [cbn [ts_zero_data set_zero_data set_proto andb]; destruct (threshold <=? wrap 32 (ts_zero_data s + 1)) |]; cbn [fst andb].
  all: match goal with |- context [refresh ?x] => match goal with |- context [_ ++ ?es ++ _] => destruct (Hfin es x) as (H1 & H2 & H3) end end.
  all: try (rewrite ?app_nil_r; try destruct (ts_prev_errors _ <? _); done).
  all: rewrite H2, H3; (split; [exact H1 |]); (split; [| done]); try destruct (ts_prev_errors _ <? _); done.
Qed.

Lemma online_tick (s : TaskState modbus_runtime DataPoint) threshold i : is_online (ts_proto s) = true ->
  exists s0, handle_poll_tick threshold s i = poll_data threshold s0 i /\ ts_proto s0 = ts_proto s /\ ts_trace s0 = ts_trace s /\
    ts_zero_data s0 = ts_zero_data s /\ tc_last_read_ms (ts_cells s0) = tc_last_read_ms (ts_cells s).
Proof.
  intros Hon. unfold handle_poll_tick. cbn [ts_proto set_cells]. rewrite Hon. cbn [negb]. eexists. split; [done |]. by case_decide.
Qed.

(** C17: A poll tick of a connected Modbus channel whose device answers every request,
    when its point groups are those of its configuration, every point lies within the
    65536 registers and none is nested in another of its group (a nested point can be
    lost): when the configured points yield readings, the tick stores exactly these
    readings in one batch, resets the zero-data watchdog and stamps the time of the last
    read, and the only other event it can cause is the channel going online; when they
    yield none, it stores nothing, leaves that time as it was, and the watchdog counts the
    tick or, at its threshold, disconnects and starts again. *)
Theorem modbus_tick_stores_readings threshold (s : TaskState modbus_runtime DataPoint) i ch outcomes c :
  group_order_ok order -> ts_proto s = (ch, outcomes) -> mb_state ch = CsConnected -> mb_client ch = Some c -> groups_current ch ->
  let pts := mcf_points (mb_config ch) in
  Forall point_fits pts -> no_nesting pts -> dev_up c ->
  let s' := (handle_poll_tick threshold s i).1 in
  match readings c pts with
  | [] => (exists rest, ts_trace s' = ts_trace s ++ (if watchdog_fires threshold (ts_zero_data s) then [EvDisconnect] else []) ++ rest /\
        Forall (fun e => exists b, e = EvOnline b) rest) /\
      ts_zero_data s' = zero_data_after threshold (ts_zero_data s) /\ tc_last_read_ms (ts_cells s') = tc_last_read_ms (ts_cells s)
  | _ => exists data rest, data ≡ₚ readings c pts /\ ts_trace s' = ts_trace s ++ EvBatch data :: rest /\ Forall (fun e => e = EvOnline true) rest /\
      ts_zero_data s' = 0 /\ tc_last_read_ms (ts_cells s') = ti_wall_ms i
  end.
Proof.
  intros Ho Hs Hst Hc Hg pts Hf Hn Hup s'. subst s'. assert (Hon : is_online (ts_proto s) = true) by (unfold is_online; cbn; rewrite Hs; cbn; by rewrite Hst).
  destruct (online_tick s threshold i Hon) as (s0 & -> & Hp0 & Ht0 & Hz0 & Hl0).
  destruct (ModbusChannel_poll_once order ch) as [ch' r] eqn:Hpoll.
  assert (Hr : pr_data r ≡ₚ readings c pts /\ mb_state ch' = CsConnected).
  { pose proof (modbus_poll_complete order ch c Ho Hc Hg Hf Hn Hup) as Hpc. rewrite Hpoll in Hpc. rewrite <- Hst. exact Hpc. }
  destruct Hr as [Hdata Hst']. destruct (pr_data r) as [|d data] eqn:Hd.
  - apply Permutation_nil in Hdata. rewrite Hdata, <- Ht0, <- Hz0, <- Hl0.
    apply (poll_data_empty s0 threshold i (ch', outcomes) (length (pr_failures r))). rewrite Hp0, Hs. cbn. by rewrite Hpoll, Hd.
  - destruct (readings c pts) eqn:Er; [by apply Permutation_sym, Permutation_nil in Hdata |]. rewrite <- Er in *.
    destruct (poll_data_stores s0 threshold i (ch', outcomes) d data (length (pr_failures r))) as ((rest & Ht & Hrest) & _ & Hz & Hl).
    { rewrite Hp0, Hs. cbn. by rewrite Hpoll, Hd. }
    exists (d :: data), rest. split; [done |]. split; [by rewrite Ht, Ht0 |]. split; [| done].
    unfold is_online in Hrest. cbn in Hrest. rewrite Hst' in Hrest. exact Hrest.
Qed.
End Runtime.

Definition sample_task : TaskState (ModbusChannel SimDevice * list (ConnectOutcome SimDevice)) DataPoint :=
  task_init (RT := modbus_channel_runtime map_to_list) (sample_channel sample_points sample_device, []) sim_cells sim_policy None.

Lemma modbus_tick_stores_readings_witness :
  exists data rest, data ≡ₚ readings sample_device sample_points /\
    ts_trace (handle_poll_tick (RT := modbus_channel_runtime map_to_list) 5 sample_task (sim_tick 1 None)).1 = ts_trace sample_task ++ EvBatch data :: rest.
Proof.
  pose proof (modbus_tick_stores_readings map_to_list 5 sample_task (sim_tick 1 None) (sample_channel sample_points sample_device) [] sample_device) as H.
  destruct H as (data & rest & Hd & Ht & _); try done.
  - by intros g.
  - by left.
  - repeat constructor; vm_compute; done.
  - apply points_nested. repeat constructor; vm_compute; done.
  - by constructor.
  - by exists data, rest.
Defined.

(** * Points that are only written

    The points of the configuration include the controls and adjustments, and every
    group is polled: a group with a write function code yields nothing and counts as a
    read failure. *)
Section WriteOnly.
Context {C E : Type} `{Client : ModbusClient C E}.

Lemma write_group_unread (c : C) points slave fc lim gap : Forall (has_key (slave, fc)) points -> 4 < fc ->
  read_point_group c points lim gap = (c, []).
Proof.
  intros Hk Hfc. destruct points as [|p points]; [done |]. inversion Hk as [|? ? (a & Ha & Hkey) _]; subst. unfold read_point_group.
  rewrite Ha. injection Hkey as -> ->. rewrite !(proj2 (Z.eqb_neq _ _)) by lia. cbn [orb]. unfold read_registers_batched.
  destruct (omap modbus_point (p :: points)) as [|x xs]; [done |]. generalize (build_register_segments (x :: xs) gap lim).
  intros segs. induction segs as [|seg segs IH]; [done |]. cbn [read_segments]. unfold read_register_segment.
  rewrite !(proj2 (Z.eqb_neq _ _)) by lia. by rewrite IH.
Qed.

Lemma write_group_fails config groups slave fc points p : ((slave, fc), points) ∈ groups -> Forall (has_key (slave, fc)) points -> 4 < fc ->
  p ∈ points -> forall c : C, mkPointFailure (pc_id p) NoResponse ∈ (poll_groups c config groups).1.2 /\ (0 < (poll_groups c config groups).2)%nat.
Proof.
  intros Hin Hk Hfc Hp. induction groups as [|[k pts] groups IH]; [by apply not_elem_of_nil in Hin |]. intros c.
  cbn [poll_groups]. apply elem_of_cons in Hin as [[= <- <-] | Hin].
  - rewrite (write_group_unread c points slave fc) by done. destruct (poll_groups c config groups) as [[[c1 data] failures] errors].
    rewrite bool_decide_true by (split; [done |]; intros ->; by apply not_elem_of_nil in Hp). cbn [fst snd]. split; [| lia].
    apply elem_of_app. left. apply list_elem_of_fmap. by exists p.
  - destruct (read_point_group _ _ _ _) as [c1 results]. specialize (IH Hin c1).
    destruct (poll_groups c1 config groups) as [[[c2 data] failures] errors]. cbn [fst snd] in *. destruct IH as [IH1 IH2].
    split; [apply elem_of_app; by right | lia].
Qed.

(** A control or adjustment of a Modbus channel, which the converter puts among the
    polled points with its write function code, is reported as a failed read by every
    poll, and adds to the channel's error counter, however well the device answers. *)
Theorem written_points_fail_every_poll order (ch : ModbusChannel C) c p a : group_order_ok order -> mb_client ch = Some c -> groups_current ch ->
  p ∈ mcf_points (mb_config ch) -> pc_address p = AddrModbus a -> 4 < ad_function_code a ->
  mkPointFailure (pc_id p) NoResponse ∈ pr_failures (ModbusChannel_poll_once order ch).2 /\
  exists n, 0 < n /\ dg_error_count (mb_diagnostics (ModbusChannel_poll_once order ch).1) = wrapping_add 64 (dg_error_count (mb_diagnostics ch)) n.
Proof.
  intros Ho Hc Hg Hp Ha Hfc. unfold ModbusChannel_poll_once. rewrite Hc.
  destruct (get_groups ch Hg) as (ch1 & Hget & Hcfg & _ & _). rewrite Hget, Hcfg.
  assert (Hdiag : mb_diagnostics ch1 = mb_diagnostics ch).
  { unfold get_or_init_grouped_points in Hget. case_match; by simplify_eq/=. }
  set (pts := mcf_points (mb_config ch)) in *. destruct (group_points_spec order pts Ho) as (Hperm & _).
  assert (Hin : p ∈ groups_points (order (group_points pts))).
  { rewrite Hperm. apply list_elem_of_filter. split; [unfold modbus_point; rewrite Ha; by eexists | done]. }
  apply list_elem_of_bind in Hin as ([key points] & Hpin & Hgin). cbn in Hpin.
  assert (Hkeys : Forall (has_key key) points) by (by apply (group_keys order pts key points Ho)).
  assert (Hkey : key = (ad_slave_id a, ad_function_code a)).
  { rewrite Forall_forall in Hkeys. destruct (Hkeys p Hpin) as (a' & Ha' & <-). rewrite Ha in Ha'. by injection Ha' as <-. }
  subst key. destruct (write_group_fails (mb_config ch) _ _ _ _ p Hgin Hkeys Hfc Hpin c) as [H1 H2].
  destruct (poll_groups c (mb_config ch) (order (group_points pts))) as [[[c' data] failures] errors]. cbn in *.
  split; [done |]. exists (Z.of_nat errors). rewrite Hdiag. split; [lia | done].
Qed.
End WriteOnly.

Definition setpoint : PointConfig := PointConfig_with_transform (PointConfig_new 9 Adjustment (AddrModbus (mkModbusAddress 1 6 200 FUInt16 Abcd None))) linear_one.

Lemma written_points_fail_every_poll_witness :
  mkPointFailure 9 NoResponse ∈ pr_failures (ModbusChannel_poll_once map_to_list (sample_channel (setpoint :: sample_points) sample_device)).2.
Proof.
  destruct (written_points_fail_every_poll map_to_list (sample_channel (setpoint :: sample_points) sample_device) sample_device setpoint
    (mkModbusAddress 1 6 200 FUInt16 Abcd None)) as [Hf _]; [by intros g | done | by left | by apply elem_of_cons; left | done | done | exact Hf].
Defined.
