(* ===== verification/ModbusWrite.v ===== *)
(** Writing to Modbus devices: what [write_adjustment] and the batched commands of
    [protocols/adapters/modbus.rs] and [command_batcher.rs] do to a device's
    registers, and that every command is accounted for. *)
From stdpp Require Import base numbers list gmap strings sorting.
From Stdlib Require Import ZArith Lia.
From S2P Require Import Prelude PointTypes Registers ChannelTask Modbus.
Local Open Scope Z_scope.
Set Warnings "-clear-no-such-hyp".

(** * Encoded values *)

Lemma encode_value_length v f o regs : encode_value v f o = Ok regs -> length regs = DataFormat_register_count f.
Proof.
  unfold encode_value, encode_registers. destruct f; cbn [ProtoValue_as_f64 ProtoValue_as_i64 ProtoValue_as_bool ProtoValue_as_string ok_or result_bind];
    try case_match; try done; intros [= <-]; try done; unfold registers_of_32; try (by destruct (reorder_to_registers_32 _ _)).
Qed.

(** * Register images *)

Lemma store_regs_outside f addr vals a : ~ (addr <= a < addr + Z.of_nat (length vals)) -> store_regs f addr vals a = f a.
Proof.
  intros Ha. unfold store_regs. destruct (Z.leb_spec addr a), (Z.ltb_spec a (addr + Z.of_nat (length vals))); try done. lia.
Qed.
Lemma store_regs_inside f g addr vals a : addr <= a < addr + Z.of_nat (length vals) -> store_regs f addr vals a = store_regs g addr vals a.
Proof. intros Ha. unfold store_regs. by rewrite (proj2 (Z.leb_le _ _)), (proj2 (Z.ltb_lt _ _)) by lia. Qed.

Lemma store_regs_app f addr l1 l2 a :
  store_regs f addr (l1 ++ l2) a = store_regs (store_regs f addr l1) (addr + Z.of_nat (length l1)) l2 a.
Proof.
  unfold store_regs. rewrite length_app, Nat2Z.inj_add.
  destruct (Z.leb_spec addr a) as [H1|H1], (Z.leb_spec (addr + Z.of_nat (length l1)) a) as [H2|H2];
    destruct (Z.ltb_spec a (addr + (Z.of_nat (length l1) + Z.of_nat (length l2)))) as [H3|H3];
    destruct (Z.ltb_spec a (addr + Z.of_nat (length l1) + Z.of_nat (length l2))) as [H4|H4];
    destruct (Z.ltb_spec a (addr + Z.of_nat (length l1))) as [H5|H5]; cbn [andb]; try lia; try done.
  - rewrite lookup_total_app_r by lia. f_equal. lia.
  - by rewrite lookup_total_app_l by lia.
Qed.

Lemma store_regs_ext f g addr vals a : (forall x, f x = g x) -> store_regs f addr vals a = store_regs g addr vals a.
Proof. intros Hfg. unfold store_regs. case_match; [done | apply Hfg]. Qed.

(** ** A sequence of writes to the holding registers of one device *)

Definition reg_request : Type := Z * Z * list Z.
Definition apply_request (f : Z -> Z -> Z) (r : reg_request) : Z -> Z -> Z :=
  let '(slave, addr, vals) := r in fun s a => if s =? slave then store_regs (f s) addr vals a else f s a.
Definition apply_requests (f : Z -> Z -> Z) (rs : list reg_request) : Z -> Z -> Z := foldl apply_request f rs.
Definition touches (r : reg_request) (s a : Z) : Prop :=
  let '(slave, addr, vals) := r in s = slave /\ addr <= a < addr + Z.of_nat (length vals).
Definition apart (r1 r2 : reg_request) : Prop := forall s a, touches r1 s a -> touches r2 s a -> False.

Definition same_image (f g : Z -> Z -> Z) : Prop := forall s a, f s a = g s a.
#[export] Instance same_image_equiv : Equivalence same_image.
Proof. split; [by intros f s a | by intros f g H s a | intros f g h H1 H2 s a; by rewrite H1, H2]. Qed.
#[export] Instance apply_request_proper r : Proper (same_image ==> same_image) (fun f => apply_request f r).
Proof. intros f g H s a. destruct r as [[slave addr] vals]. cbn. case_match; [apply store_regs_ext |]; intros; apply H. Qed.

Lemma apply_request_untouched f r s a : ~ touches r s a -> apply_request f r s a = f s a.
Proof.
  destruct r as [[slave addr] vals]. cbn. intros Ht. destruct (Z.eqb_spec s slave) as [-> |]; [| done].
  apply store_regs_outside. tauto.
Qed.
Lemma apply_request_touched f g r s a : touches r s a -> apply_request f r s a = apply_request g r s a.
Proof. destruct r as [[slave addr] vals]. cbn. intros [-> Ha]. rewrite Z.eqb_refl. by apply store_regs_inside. Qed.

#[export] Instance touches_dec r s a : Decision (touches r s a).
Proof. destruct r as [[slave addr] vals]. apply _. Defined.

Lemma apply_request_swap f r1 r2 : apart r1 r2 -> same_image (apply_request (apply_request f r1) r2) (apply_request (apply_request f r2) r1).
Proof.
  intros Hap s a. destruct (decide (touches r1 s a)) as [H1|H1], (decide (touches r2 s a)) as [H2|H2]; [by destruct (Hap s a) | | |].
  - rewrite (apply_request_untouched _ r2) by done. by apply apply_request_touched.
  - rewrite (apply_request_untouched _ r1 s a) by done. by apply apply_request_touched.
  - by rewrite !apply_request_untouched.
Qed.

Lemma apply_requests_foldr rs : forall f, apply_requests f rs = foldr (fun r f => apply_request f r) f (reverse rs).
Proof. induction rs as [|r rs IH]; intros f; [done |]. rewrite reverse_cons, foldr_app. apply IH. Qed.

(** Requests that do not overlap can be sent in any order. *)
Lemma apply_requests_perm rs rs' : (forall i j r1 r2, i <> j -> rs !! i = Some r1 -> rs !! j = Some r2 -> apart r1 r2) -> rs ≡ₚ rs' ->
  forall f, same_image (apply_requests f rs) (apply_requests f rs').
Proof.
  intros Hap Hp f. rewrite !apply_requests_foldr.
  assert (Hrev : reverse rs ≡ₚ reverse rs') by (etrans; [apply reverse_Permutation | etrans; [exact Hp | symmetry; apply reverse_Permutation]]).
  refine (foldr_permutation same_image (fun r f => apply_request f r) f _ _ _ Hrev).
  intros j1 a1 j2 a2 b Hj H1 H2. assert (Hlen : (j1 < length rs)%nat /\ (j2 < length rs)%nat).
  { split; [apply lookup_lt_Some in H1 | apply lookup_lt_Some in H2]; by rewrite length_reverse in *. }
  apply reverse_lookup_Some in H1 as [H1 _], H2 as [H2 _]. apply apply_request_swap.
  apply (Hap (length rs - S j2) (length rs - S j1))%nat; [lia | done | done].
Qed.

(** * Requests and the device *)

Section Writes.
Context {C E : Type} `{Client : ModbusClient C E, Device : !ModbusDevice C E, Spec : !ModbusDeviceSpec C E}.

Definition image (c : C) : Z -> Z -> Z := dev_reg c false.
(** Input registers and bits are as they were. *)
Definition others_same (c c' : C) : Prop :=
  (forall s a, dev_reg c' true s a = dev_reg c true s a) /\ (forall t s a, dev_bit c' t s a = dev_bit c t s a).

(** The effect of sending at most the request [r]: it touches only its registers, and
    all of them as asked when it is confirmed. *)
Record sends (c : C) (r : option reg_request) (cr : C * result unit (WriteError E)) : Prop := {
  sd_others : others_same c cr.1;
  sd_confined : forall s a, image cr.1 s a = image c s a \/ exists q, r = Some q /\ touches q s a;
  sd_done : cr.2 = Ok tt -> exists q, r = Some q /\ same_image (image cr.1) (apply_request (image c) q);
  sd_refused : r = None -> cr.1 = c;
}.

Lemma sends_nothing c e : sends c None (c, Err e).
Proof. constructor; [done | by left | done | done]. Qed.

Lemma write_effect c slave addr vals (cr : C * result unit E) : may_write c cr.1 slave addr vals ->
  (cr.2 = Ok tt -> has_written c cr.1 slave addr vals) ->
  sends c (Some (slave, addr, vals)) (map_write_error slave addr cr).
Proof.
  intros [Hm Hb] Hw. destruct cr as [c' r]. cbn in *. constructor; cbn; [| | | done].
  - split; [| done]. intros s a. destruct (Hm true s a) as [? | (? & _)]; done.
  - intros s a. destruct (Hm false s a) as [? | (_ & -> & Hr)]; [by left |]. unfold image.
    destruct (decide (addr <= a < addr + Z.of_nat (length vals))); [right; by eexists | left; rewrite Hr; by apply store_regs_outside].
  - intros Hr. destruct r as [u |]; [| done]. destruct u. eexists. split; [done |]. intros s a. destruct (Hw eq_refl) as [Hreg _].
    unfold image. by rewrite Hreg.
Qed.

Lemma write_registers_sends c slave addr regs : sends c (Some (slave, addr, regs)) (map_write_error slave addr (write_registers c slave addr regs)).
Proof.
  unfold write_registers. destruct regs as [|r [|r2 regs]].
  - destruct (write_10_spec c slave addr []). by apply write_effect.
  - destruct (write_06_spec c slave addr r). by apply write_effect.
  - destruct (write_10_spec c slave addr (r :: r2 :: regs)). by apply write_effect.
Qed.

(** ** A loop of writes *)
Section Each.
Context {A : Type} (one : C -> A -> C * result unit (WriteError E)) (id : A -> Z) (req : A -> option reg_request).
Hypothesis one_sends : forall c x, sends c (req x) (one c x).

Lemma others_same_trans c1 c2 c3 : others_same c1 c2 -> others_same c2 c3 -> others_same c1 c3.
Proof. intros [H1 H2] [H3 H4]. split; intros; by rewrite ?H3, ?H4. Qed.

Lemma apply_requests_proper rs f g : same_image f g -> same_image (apply_requests f rs) (apply_requests g rs).
Proof. revert f g. induction rs as [|r rs IH]; intros f g Hfg; [done |]. apply IH. by apply apply_request_proper. Qed.

Lemma write_each_spec cmds c : let '(c', w) := write_each one id c cmds in
  (wr_success_count w + length (wr_failures w) = length cmds)%nat /\ map fst (wr_failures w) `sublist_of` map id cmds /\
  others_same c c' /\
  (forall s a, image c' s a = image c s a \/ exists x q, x ∈ cmds /\ req x = Some q /\ touches q s a) /\
  (wr_failures w = [] -> exists qs, Forall2 (fun x q => req x = Some q) cmds qs /\ same_image (image c') (apply_requests (image c) qs)).
Proof.
  revert c. induction cmds as [|x cmds IH]; intros c; cbn [write_each].
  { split; [done |]. split; [done |]. split; [done |]. split; [by left |]. intros _. exists []. by split. }
  pose proof (one_sends c x) as Hx. destruct (one c x) as [c1 r]. specialize (IH c1). destruct (write_each one id c1 cmds) as [c2 w].
  destruct IH as (Hn & Hids & Ho & Hc & Hd). pose proof (sd_others _ _ _ Hx) as Ho1. cbn in Ho1.
  assert (Hconf : forall s a, image c2 s a = image c s a \/ exists y q, y ∈ x :: cmds /\ req y = Some q /\ touches q s a).
  { intros s a. destruct (Hc s a) as [-> | (y & q & Hy & Hq)]; [| right; exists y, q; set_solver].
    destruct (sd_confined _ _ _ Hx s a) as [Heq | (q & Hq & Ht)]; [by left | right; exists x, q; set_solver]. }
  destruct r as [u | e]; cbn [wr_success_count wr_failures length map fst]; (split; [lia |]); (split; [by constructor |]);
    (split; [by apply (others_same_trans c c1) |]); (split; [exact Hconf |]); [| done].
  intros Hf. destruct u. destruct (Hd Hf) as (qs & Hqs & Him). destruct (sd_done _ _ _ Hx eq_refl) as (q & Hq & Hone).
  exists (q :: qs). split; [by constructor |]. intros s a. rewrite Him.
  apply (apply_requests_proper qs (image c1) (apply_request (image c) q) Hone).
Qed.
End Each.

(** ** Adjustments *)

(** The registers a setpoint is to be written to, and what with. *)
Definition setpoint_request (points : list PointConfig) (adj : AdjustmentCommand) : option reg_request :=
  match find_point points (ac_id adj) Adjustment with
  | Some p =>
      match pc_address p, TransformConfig_reverse_apply (pc_transform p) (ac_value adj) with
      | AddrModbus a, Ok raw =>
          match encode_value raw (ad_format a) (ad_byte_order a) with
          | Ok regs => Some (ad_slave_id a, ad_register a, regs)
          | Err _ => None
          end
      | _, _ => None
      end
  | None => None
  end.

Lemma adjust_one_sends points c adj : sends c (setpoint_request points adj) (adjust_one points c adj).
Proof.
  unfold setpoint_request, adjust_one. destruct (find_point _ _ _) as [p|]; [| apply sends_nothing].
  destruct (pc_address p) as [a| | |]; [| apply sends_nothing..].
  destruct (TransformConfig_reverse_apply _ _) as [raw|]; [| apply sends_nothing]. unfold write_single_value.
  destruct (encode_value _ _ _); [apply write_registers_sends | apply sends_nothing].
Qed.

(** The addressed registers belong to a configured adjustment point. *)
Lemma setpoint_request_point points adj q s a : setpoint_request points adj = Some q -> touches q s a ->
  exists p addr, p ∈ points /\ pc_id p = ac_id adj /\ pc_point_type p = Adjustment /\ pc_address p = AddrModbus addr /\
    s = ad_slave_id addr /\ ad_register addr <= a < ad_register addr + ModbusAddress_register_count addr.
Proof.
  unfold setpoint_request, find_point. intros Hq Ht. destruct (list_find _ points) as [[i p]|] eqn:Hp; [| done].
  apply list_find_Some in Hp as (Hp & [Hid Hpt] & _). cbn in Hq. destruct (pc_address p) as [addr| | |] eqn:Ha; [| done..].
  destruct (TransformConfig_reverse_apply _ _) as [raw|]; [| done]. destruct (encode_value _ _ _) as [regs|] eqn:He; [| done].
  injection Hq as <-. destruct Ht as [-> Ht]. apply encode_value_length in He. exists p, addr.
  split; [by eapply list_elem_of_lookup_2 |]. unfold ModbusAddress_register_count. rewrite <- He. done.
Qed.

(** C18: Adjustments reach exactly their registers: of a list of adjustments every one is
    counted as a success or reported with its id; whichever requests fail, no register
    outside those of the addressed adjustment points of the configuration changes; and
    when none fails, the holding registers are the old ones with each setpoint's encoded
    raw value written in turn. *)
Theorem adjustments_reach_their_registers (ch : ModbusChannel C) c adjustments : mb_client ch = Some c ->
  let points := mcf_points (mb_config ch) in
  exists c' w, ModbusChannel_write_adjustment ch adjustments =
      (put_diagnostics (put_client ch (Some c')) (record_writes (mb_diagnostics ch) w), Some w) /\
    (wr_success_count w + length (wr_failures w) = length adjustments)%nat /\ map fst (wr_failures w) `sublist_of` map ac_id adjustments /\
    others_same c c' /\
    (forall s a, image c' s a <> image c s a -> exists adj p addr, adj ∈ adjustments /\ p ∈ points /\ pc_id p = ac_id adj /\
      pc_point_type p = Adjustment /\ pc_address p = AddrModbus addr /\ s = ad_slave_id addr /\
      ad_register addr <= a < ad_register addr + ModbusAddress_register_count addr) /\
    (wr_failures w = [] -> exists qs, Forall2 (fun adj q => setpoint_request points adj = Some q) adjustments qs /\
      same_image (image c') (apply_requests (image c) qs)).
Proof.
  intros Hc points. unfold ModbusChannel_write_adjustment, with_client. rewrite Hc.
  pose proof (write_each_spec (adjust_one points) ac_id (setpoint_request points) (adjust_one_sends points) adjustments c) as Hw.
  destruct (write_each _ _ _ _) as [c' w]. exists c', w. split; [done |]. destruct Hw as (Hn & Hids & Ho & Hconf & Hd).
  split; [done |]. split; [done |]. split; [done |]. split; [| done]. intros s a Hne.
  destruct (Hconf s a) as [? | (adj & q & Hin & Hq & Ht)]; [done |].
  destruct (setpoint_request_point points adj q s a Hq Ht) as (p & addr & Hp). exists adj, p, addr. done.
Qed.

(** ** Merged commands *)

Definition command_request (cmd : BatchCommand) : option reg_request :=
  match ProtoValue_as_f64 (bc_value cmd) with
  | Some raw =>
      match encode_value raw (bc_data_format cmd) (bc_byte_order cmd) with
      | Ok regs => Some (bc_slave_id cmd, bc_register_address cmd, regs)
      | Err _ => None
      end
  | None => None
  end.

Lemma write_single_command_sends c cmd : sends c (command_request cmd) (write_single_command c cmd).
Proof.
  unfold command_request, write_single_command. destruct (ProtoValue_as_f64 _); [| apply sends_nothing].
  destruct (encode_value _ _ _); [apply write_registers_sends | apply sends_nothing].
Qed.

Lemma merge_registers_spec cmds :
  (exists qs, Forall2 (fun cmd q => command_request cmd = Some q) cmds qs /\ merge_registers (E := E) cmds = Ok (concat (map snd qs))) \/
  (exists e cmd, merge_registers (E := E) cmds = Err e /\ cmd ∈ cmds /\ command_request cmd = None).
Proof.
  induction cmds as [|cmd cmds IH]; [left; by exists [] |]. cbn [merge_registers].
  assert (Hreq : command_request cmd = command_request cmd) by done. unfold command_request in Hreq at 2.
  destruct (ProtoValue_as_f64 _) as [raw|]; [| right; eexists _, cmd; split; [done |]; split; [set_solver | done]].
  destruct (encode_value _ _ _) as [regs|]; [| right; eexists _, cmd; split; [done |]; split; [set_solver | done]].
  destruct IH as [(qs & Hqs & ->) | (e & cmd' & -> & Hin & Hn)]; [left | right; exists e, cmd'; set_solver].
  eexists. split; [by constructor |]. done.
Qed.

(** Requests of one slave, each starting where the one before ends. *)
Fixpoint chained (slave start : Z) (qs : list reg_request) : Prop :=
  match qs with
  | [] => True
  | (s, a, vals) :: qs => s = slave /\ a = start /\ chained slave (start + Z.of_nat (length vals)) qs
  end.

Lemma chained_lower slave qs : forall start q, chained slave start qs -> q ∈ qs -> start <= q.1.2.
Proof.
  induction qs as [|[[s a] vals] qs IH]; intros start q Hch Hq; [by apply not_elem_of_nil in Hq |].
  destruct Hch as (-> & -> & Hch). apply elem_of_cons in Hq as [-> | Hq]; [done |]. specialize (IH _ _ Hch Hq). lia.
Qed.

Lemma chained_apart slave qs : forall start, chained slave start qs ->
  forall i j q1 q2, i <> j -> qs !! i = Some q1 -> qs !! j = Some q2 -> apart q1 q2.
Proof.
  assert (Hsym : forall q1 q2, apart q1 q2 -> apart q2 q1) by (intros q1 q2 Hq s a; naive_solver).
  induction qs as [|[[s a] vals] qs IH]; intros start Hch i j q1 q2 Hij H1 H2; [done |]. destruct Hch as (-> & -> & Hch).
  assert (Hhead : forall q, q ∈ qs -> apart (slave, start, vals) q).
  { intros [[s' a'] vals'] Hq s a [-> Ha] [_ Ha']. pose proof (chained_lower _ _ _ _ Hch Hq) as Hl. cbn in Hl. lia. }
  destruct i as [|i], j as [|j]; cbn in H1, H2; [done | | |].
  - injection H1 as <-. apply Hhead. by eapply list_elem_of_lookup_2.
  - injection H2 as <-. apply Hsym, Hhead. by eapply list_elem_of_lookup_2.
  - eapply (IH _ Hch i j); [lia | done | done].
Qed.

(** Chained requests amount to one request with all their registers. *)
Lemma chained_apply slave qs : forall start f, chained slave start qs ->
  same_image (apply_requests f qs) (apply_request f (slave, start, concat (map snd qs))).
Proof.
  induction qs as [|[[s a] vals] qs IH]; intros start f Hch.
  - intros s a. cbn. destruct (s =? slave); [| done]. symmetry. apply store_regs_outside. cbn. lia.
  - destruct Hch as (-> & -> & Hch). cbn [apply_requests foldl map concat snd]. etrans; [by apply IH |]. intros s a. cbn.
    destruct (s =? slave) eqn:Hs; [| done]. rewrite store_regs_app. apply store_regs_ext. intros x. by rewrite ?Hs.
Qed.

Lemma count_bounds cmd : 1 <= BatchCommand_count cmd <= 8.
Proof. unfold BatchCommand_count. destruct (bc_data_format cmd); cbn; lia. Qed.

(** Sorted commands that pass the test for consecutive registers do not wrap around
    the end of the address space. *)
Lemma consecutive_chained slave cmds qs : forall start, Forall2 (fun cmd q => command_request cmd = Some q) cmds qs ->
  Forall (fun cmd => bc_slave_id cmd = slave /\ is_uint 16 (bc_register_address cmd)) cmds ->
  StronglySorted (by_key bc_register_address) cmds -> consecutive_from start cmds = true -> chained slave start qs.
Proof.
  intros start Hqs. revert start. induction Hqs as [|cmd q cmds qs Hq Hqs IH]; intros start Hok Hs Hc; [done |].
  apply Forall_cons in Hok as [[Hsl Hu] Hok]. inversion Hs as [|? ? Hs' Hle]; subst. cbn [consecutive_from] in Hc.
  destruct (Z.eqb_spec (bc_register_address cmd) start) as [<- |]; cbn [negb] in Hc; [| done].
  unfold command_request in Hq. destruct (ProtoValue_as_f64 _) as [raw|]; [| done]. destruct (encode_value _ _ _) as [regs|] eqn:He; [| done].
  injection Hq as <-. apply encode_value_length in He. cbn [chained]. split; [done |]. split; [done |]. pose proof (count_bounds cmd) as Hn.
  unfold BatchCommand_count in *. rewrite <- He in *. apply IH; [done | done |]. destruct cmds as [|cmd2 cmds]; [done |].
  rewrite <- Hc. f_equal. cbn [consecutive_from] in Hc. destruct (Z.eqb_spec (bc_register_address cmd2) (wrap 16 (bc_register_address cmd + Z.of_nat (length regs)))) as [Heq |]; [| done].
  apply Forall_cons in Hle as [Hle _]. unfold by_key in Hle. rewrite Heq in Hle. symmetry. unfold is_uint in Hu. unfold wrap in *.
  destruct (decide (bc_register_address cmd + Z.of_nat (length regs) < 2 ^ 16)) as [Hlt | Hge]; [apply Z.mod_small; lia |].
  replace (bc_register_address cmd + Z.of_nat (length regs)) with (bc_register_address cmd + Z.of_nat (length regs) - 2 ^ 16 + 1 * 2 ^ 16) in Hle by lia.
  rewrite Z.mod_add, Z.mod_small in Hle by lia. lia.
Qed.

Lemma forall2_function (cmds : list BatchCommand) qs : Forall2 (fun cmd q => command_request cmd = Some q) cmds qs ->
  qs = map (fun cmd => default (0, 0, []) (command_request cmd)) cmds.
Proof. induction 1 as [|cmd q cmds qs Hq _ IH]; [done |]. cbn. by rewrite Hq, <- IH. Qed.

(** The merged request of consecutive commands is the chain of their requests. *)
Lemma merged_chain slave commands qs : Forall (fun cmd => bc_slave_id cmd = slave /\ is_uint 16 (bc_register_address cmd)) commands ->
  are_strictly_consecutive commands = true ->
  Forall2 (fun cmd q => command_request cmd = Some q) (sort_by_key bc_register_address commands) qs ->
  exists c0 cmds, sort_by_key bc_register_address commands = c0 :: cmds /\ chained slave (bc_register_address c0) qs.
Proof.
  intros Hok Hcon Hqs. unfold are_strictly_consecutive in Hcon. case_match; [done |].
  destruct (sort_by_key bc_register_address commands) as [|c0 cmds] eqn:Hs; [done |]. exists c0, cmds. split; [done |].
  eapply consecutive_chained; [exact Hqs | | | exact Hcon].
  - rewrite <- Hs, sort_by_key_perm. done.
  - rewrite <- Hs. apply sort_by_key_sorted.
Qed.

(** Merging consecutive writes into one FC16 request changes nothing: for commands of
    one slave that pass the test for consecutive registers, in whatever order they were
    queued, a confirmed merged request leaves every register as the individual writes
    of the same commands do; and if one of them cannot be encoded, nothing is sent and
    every command is reported. *)
Theorem merged_write_equals_individual (c : C) slave commands :
  Forall (fun cmd => bc_slave_id cmd = slave /\ is_uint 16 (bc_register_address cmd)) commands -> are_strictly_consecutive commands = true ->
  let '(c1, r, failures) := execute_merged_fc16 c slave commands in
  let '(c2, w) := write_commands c commands in
  (r = Ok (length commands) -> wr_failures w = [] -> failures = [] /\ same_image (image c1) (image c2) /\ others_same c c1 /\ others_same c c2) /\
  (Exists (fun cmd => command_request cmd = None) commands ->
     c1 = c /\ r = Ok O /\ map fst failures ≡ₚ map bc_point_id commands).
Proof.
  intros Hok Hcon. unfold execute_merged_fc16, write_commands.
  assert (Hlen : (0 < length commands)%nat) by (unfold are_strictly_consecutive in Hcon; destruct commands; [done | cbn; lia]).
  pose proof (write_each_spec write_single_command bc_point_id command_request write_single_command_sends commands c) as Hw.
  destruct (write_each _ _ _ _) as [c2 w]. destruct Hw as (_ & _ & Ho2 & _ & Hd).
  pose proof (sort_by_key_perm bc_register_address commands) as Hperm.
  destruct (merge_registers_spec (sort_by_key bc_register_address commands)) as [(qs & Hqs & ->) | (e & cmd & -> & Hin & Hn)].
  - destruct (merged_chain slave commands qs Hok Hcon Hqs) as (c0 & cmds & Hsort & Hch). rewrite Hsort.
    assert (Hno : Exists (fun cmd => command_request cmd = None) commands -> False).
    { rewrite Exists_exists. intros (cmd & Hin & Hnone). rewrite <- Hperm in Hin. apply list_elem_of_lookup in Hin as [k Hk].
      destruct (Forall2_lookup_l _ _ _ _ _ Hqs Hk) as (q & _ & Hq). congruence. }
    destruct (concat (map snd qs)) as [|r0 regs] eqn:Hregs; [split; [intros [= Hz]; lia | by intros ?%Hno] |].
    rewrite <- Hregs. destruct (write_10_spec c slave (bc_register_address c0) (concat (map snd qs))) as [Hmay Hdone].
    pose proof (write_effect c slave (bc_register_address c0) _ _ Hmay Hdone) as Hs.
    destruct (mc_write_10 _ _ _ _) as [c1 r]. split; [| by intros ?%Hno]. intros Hr Hfail. split; [done |].
    destruct r as [u |]; [| done]. destruct u. destruct (sd_done _ _ _ Hs eq_refl) as (q & [= <-] & Him). cbn in Him.
    split; [| split; [exact (sd_others _ _ _ Hs) | done]]. destruct (Hd Hfail) as (qs2 & Hqs2 & Him2).
    etrans; [exact Him |]. etrans; [| symmetry; exact Him2]. etrans; [symmetry; by apply chained_apply |].
    apply apply_requests_perm; [by apply (chained_apart slave qs _ Hch) |].
    rewrite (forall2_function _ _ Hqs), (forall2_function _ _ Hqs2). by apply Permutation_map.
  - split; [intros [= Hz]; lia |]. intros _. split; [done |]. split; [done |]. rewrite map_map. cbn. by rewrite Hperm.
Qed.
End Writes.

(** * Accounting for queued commands *)

Definition total_commands (m : gmap (Z * Z) (list BatchCommand)) : nat := list_sum (map (fun g => length g.2) (map_to_list m)).
(** The counter of the batcher is the number of queued commands. *)
Definition batcher_counts (b : CommandBatcher) : Prop := cb_total_pending b = total_commands (cb_pending_commands b).

Lemma list_sum_perm l l' : l ≡ₚ l' -> list_sum l = list_sum l'.
Proof. induction 1; unfold list_sum in *; cbn; lia. Qed.

Lemma add_command_counts b cmd : batcher_counts b -> batcher_counts (CommandBatcher_add_command b cmd).
Proof.
  unfold batcher_counts, CommandBatcher_add_command, total_commands. cbn [cb_total_pending cb_pending_commands]. intros ->.
  set (m := cb_pending_commands b). set (k := (bc_slave_id cmd, bc_function_code cmd)). destruct (m !! k) as [l|] eqn:Hk; cbn [default].
  - rewrite <- insert_delete_eq. rewrite (list_sum_perm _ _ (Permutation_map _ (map_to_list_insert _ _ _ (lookup_delete_eq m k)))).
    rewrite <- (list_sum_perm _ _ (Permutation_map _ (map_to_list_delete m k l Hk))). cbn. unfold id. rewrite length_app. cbn. lia.
  - rewrite (list_sum_perm _ _ (Permutation_map _ (map_to_list_insert _ _ _ Hk))). done.
Qed.

Section Accounting.
Context {C E : Type} `{Client : ModbusClient C E}.

Lemma write_each_counts {A} (one : C -> A -> C * result unit (WriteError E)) id cmds : forall c,
  (wr_success_count (write_each one id c cmds).2 + length (wr_failures (write_each one id c cmds).2) = length cmds)%nat.
Proof.
  induction cmds as [|x cmds IH]; intros c; [done |]. cbn [write_each]. destruct (one c x) as [c1 r]. specialize (IH c1).
  destruct (write_each one id c1 cmds) as [c2 w]. destruct r; cbn in *; lia.
Qed.

Lemma merge_nonempty cmds : cmds <> [] -> merge_registers (E := E) cmds <> Ok [].
Proof.
  destruct cmds as [|cmd cmds]; [done |]. intros _. cbn [merge_registers]. destruct (ProtoValue_as_f64 _); [| done].
  destruct (encode_value _ _ _) as [regs|] eqn:He; [| done]. apply encode_value_length in He.
  destruct regs; [destruct (bc_data_format cmd); discriminate He |]. by destruct (merge_registers cmds).
Qed.

Lemma execute_group_counts c slave fc commands :
  (wr_success_count (execute_group c slave fc commands).2 + length (wr_failures (execute_group c slave fc commands).2) = length commands)%nat.
Proof.
  unfold execute_group. case_match eqn:Hm; [| apply write_each_counts]. unfold execute_merged_fc16.
  pose proof (sort_by_key_perm bc_register_address commands) as Hp. apply andb_true_iff in Hm as [[_ Hlen%Nat.ltb_lt]%andb_true_iff _].
  assert (Hne : merge_registers (E := E) (sort_by_key bc_register_address commands) <> Ok []).
  { apply merge_nonempty. intros Heq. rewrite Heq in Hp. apply Permutation_nil in Hp. subst commands. cbn in Hlen. lia. }
  destruct (merge_registers _) as [[|r regs]|e]; [done | |].
  - destruct (mc_write_10 _ _ _ _) as [c1 [u | e]]; cbn; [lia |]. by rewrite length_map.
  - cbn. by rewrite length_map, Hp.
Qed.

Lemma execute_groups_counts batches : forall c,
  (wr_success_count (execute_groups c batches).2 + length (wr_failures (execute_groups c batches).2) = list_sum (map (fun g => length g.2) batches))%nat.
Proof.
  induction batches as [|[[slave fc] commands] batches IH]; intros c; [done |]. cbn [execute_groups].
  pose proof (execute_group_counts c slave fc commands) as Hg. destruct (execute_group c slave fc commands) as [c1 w]. specialize (IH c1).
  destruct (execute_groups c1 batches) as [c2 rest]. unfold list_sum in *. cbn in *. rewrite length_app. lia.
Qed.

(** Executing the queue empties it: on a connected channel every queued command is
    counted as a success or as a failure; on a disconnected one the commands are gone,
    neither executed nor reported nor kept. *)
Theorem batch_accounts_for_commands order (ch : ModbusChannel C) now : (forall m, order m ≡ₚ map_to_list m) -> batcher_counts (mb_command_batcher ch) ->
  let '(ch', r) := execute_batched_commands (E := E) order ch now in
  cb_total_pending (mb_command_batcher ch') = O /\ cb_pending_commands (mb_command_batcher ch') = ∅ /\
  match mb_client ch, r with
  | Some _, Some w => (wr_success_count w + length (wr_failures w) = cb_total_pending (mb_command_batcher ch))%nat
  | Some _, None => False
  | None, Some w => cb_pending_commands (mb_command_batcher ch) = ∅
  | None, None => cb_pending_commands (mb_command_batcher ch) <> ∅
  end.
Proof.
  intros Ho Hc. unfold execute_batched_commands. cbn [CommandBatcher_take_commands]. unfold batcher_counts in Hc. rewrite Hc.
  set (m := cb_pending_commands (mb_command_batcher ch)) in *. case_bool_decide as Hm.
  - cbn. split; [done |]. split; [done |]. destruct (mb_client ch); [| done]. rewrite Hm. done.
  - cbn [mb_client put_batcher]. destruct (mb_client ch) as [c|]; [| done]. pose proof (execute_groups_counts (order m) c) as Hg.
    destruct (execute_groups c (order m)) as [c' w]. cbn in *. split; [done |]. split; [done |]. rewrite Hg.
    apply list_sum_perm. by rewrite (Ho m).
Qed.
End Accounting.

(** * Examples on the simulated device *)

Definition sample_setpoint : PointConfig :=
  PointConfig_with_transform (PointConfig_new 9 Adjustment (AddrModbus (mkModbusAddress 1 6 200 FUInt16 Abcd None))) linear_one.
Definition sample_adjustment : AdjustmentCommand := mkAdjustmentCommand 9 (f64_of_Z 42).

Lemma adjustments_reach_their_registers_witness : exists c' w,
  ModbusChannel_write_adjustment (sample_channel [sample_setpoint] sample_device) [sample_adjustment] =
    (put_diagnostics (put_client (sample_channel [sample_setpoint] sample_device) (Some c')) (record_writes AtomicDiagnostics_new w), Some w) /\
  others_same sample_device c'.
Proof.
  destruct (adjustments_reach_their_registers (sample_channel [sample_setpoint] sample_device) sample_device [sample_adjustment] eq_refl)
    as (c' & w & Heq & _ & _ & Ho & _). exists c', w. split; [exact Heq | exact Ho].
Defined.
Example sample_adjustment_written :
  (fun c => image c 1 200) <$> mb_client (ModbusChannel_write_adjustment (sample_channel [sample_setpoint] sample_device) [sample_adjustment]).1 = Some 42.
Proof. vm_compute. reflexivity. Qed.

Definition sample_commands : list BatchCommand :=
  [mkBatchCommand 2 (PInteger 7) 1 16 102 FUInt16 Abcd; mkBatchCommand 1 (PFloat (f64_of_Z 65541)) 1 16 100 FUInt32 Abcd].
Example sample_merged : let c := (execute_merged_fc16 (E := unit) sample_device 1 sample_commands).1.1 in
  map (image c 1) [99; 100; 101; 102; 103] = [99; 1; 5; 7; 103].
Proof. vm_compute. reflexivity. Qed.

Lemma merged_write_equals_individual_witness :
  same_image (image (execute_merged_fc16 (E := unit) sample_device 1 sample_commands).1.1) (image (write_commands sample_device sample_commands).1).
Proof.
  pose proof (merged_write_equals_individual (E := unit) sample_device 1 sample_commands) as Hm.
  destruct (execute_merged_fc16 sample_device 1 sample_commands) as [[c1 r] failures] eqn:H1.
  destruct (write_commands sample_device sample_commands) as [c2 w] eqn:H2.
  apply Hm; [by repeat constructor | reflexivity | | ].
  - change r with (c1, r, failures).1.2. rewrite <- H1. vm_compute. reflexivity.
  - change w with (c2, w).2. rewrite <- H2. vm_compute. reflexivity.
Defined.
