(* ===== verification/SlotStores.v ===== *)
(** The slot stores of the protocol adapters: [services/comsrv/src/protocols/core/slot.rs].

    A store is a vector with an index built once from the configured point ids.  The vector
    cells are atomics or have locks of their own; the operations here act on one cell at a
    time, and what their interleavings do is the business of the clients.  Poisoned locks
    are recovered by the source and do not appear. *)
From stdpp Require Import base numbers list gmap.
From Stdlib Require Import ZArith Lia.
From S2P Require Import Prelude PointTypes Registers Modbus.
Local Open Scope Z_scope.
Set Warnings "-clear-no-such-hyp".

(** * Boolean states *)

(** The index after the loop over the ids: a repeated id points to its last position. *)
Definition build_index (ids : list Z) : gmap Z nat := foldl (fun m '(i, id) => <[id := i]> m) ∅ (imap pair ids).

Record AtomicBoolStore := mkAtomicBoolStore { abs_states : list bool; abs_index : gmap Z nat }.
Definition AtomicBoolStore_from_pins (pin_ids : list Z) : AtomicBoolStore :=
  mkAtomicBoolStore (map (fun _ => false) pin_ids) (build_index pin_ids).
Definition AtomicBoolStore_get (s : AtomicBoolStore) (pin_id : Z) : option bool := idx ← abs_index s !! pin_id; abs_states s !! idx.
Definition AtomicBoolStore_set (s : AtomicBoolStore) (pin_id : Z) (value : bool) : AtomicBoolStore :=
  match abs_index s !! pin_id with
  | Some idx => mkAtomicBoolStore (<[idx := value]> (abs_states s)) (abs_index s)
  | None => s
  end.
Definition AtomicBoolStore_len (s : AtomicBoolStore) : nat := length (abs_states s).
Definition AtomicBoolStore_is_empty (s : AtomicBoolStore) : bool := (length (abs_states s) =? 0)%nat.
Definition AtomicBoolStore_contains (s : AtomicBoolStore) (pin_id : Z) : bool := bool_decide (is_Some (abs_index s !! pin_id)).

(** * Data slots *)

Definition Quality_code (q : ProtoQuality) : Z :=
  match q with
  | QGood => 0 | QBad => 1 | QUncertain => 2 | QInvalid => 3 | QNotConnected => 4 | QDeviceFailure => 5 | QSensorFailure => 6
  | QCommFailure => 7 | QOutOfService => 8 | QSubstituted => 9 | QOverflow => 10 | QUnderflow => 11 | QConfigError => 12 | QLastKnown => 13
  end.
Definition quality_from_u8 (v : Z) : ProtoQuality :=
  match v with
  | 0 => QGood | 1 => QBad | 2 => QUncertain | 3 => QInvalid | 4 => QNotConnected | 5 => QDeviceFailure | 6 => QSensorFailure
  | 7 => QCommFailure | 8 => QOutOfService | 9 => QSubstituted | 10 => QOverflow | 11 => QUnderflow | 12 => QConfigError | 13 => QLastKnown
  | _ => QBad
  end.

Record DataSlot := mkDataSlot { ds_value : option ProtoValue; ds_quality : Z; ds_timestamp_ms : Z; ds_version : Z }.
Definition DataSlot_new : DataSlot := mkDataSlot None (Quality_code QGood) 0 0.
Definition DataSlot_update (now_ms : Z) (value : ProtoValue) (quality : ProtoQuality) (s : DataSlot) : DataSlot :=
  mkDataSlot (Some value) (Quality_code quality) now_ms (wrapping_add 64 (ds_version s) 1).
Definition DataSlot_read (s : DataSlot) : option (ProtoValue * ProtoQuality * Z * Z) :=
  v ← ds_value s; Some (v, quality_from_u8 (ds_quality s), ds_timestamp_ms s, ds_version s).
(** [slot_to_point]; the clock of a data point is left out. *)
Definition slot_to_point (s : DataSlot) (point_id : Z) (pt : PointType) : option DataPoint :=
  '(v, q, _, _) ← DataSlot_read s; Some (mkDataPoint point_id pt v q).

(** * The single-writer store *)

Record SlotStore := mkSlotStore { ss_slots : list DataSlot; ss_index : gmap Z nat; ss_point_ids : list Z; ss_point_type : PointType }.
Definition SlotStore_empty : SlotStore := mkSlotStore [] ∅ [] Telemetry.
Definition SlotStore_from_points (point_ids : list Z) (pt : PointType) : SlotStore :=
  mkSlotStore (map (fun _ => DataSlot_new) point_ids) (build_index point_ids) point_ids pt.
Definition SlotStore_telemetry (point_ids : list Z) : SlotStore := SlotStore_from_points point_ids Telemetry.
Definition SlotStore_get (s : SlotStore) (point_id : Z) : option DataSlot := idx ← ss_index s !! point_id; ss_slots s !! idx.
Definition SlotStore_update (s : SlotStore) (now_ms point_id : Z) (value : ProtoValue) (quality : ProtoQuality) : SlotStore :=
  match ss_index s !! point_id with
  | Some idx => mkSlotStore (alter (DataSlot_update now_ms value quality) idx (ss_slots s)) (ss_index s) (ss_point_ids s) (ss_point_type s)
  | None => s
  end.
(** One turn of the export loop. *)
Definition export_slot (s : SlotStore) (idx : nat) : option DataPoint :=
  slot ← ss_slots s !! idx; id ← ss_point_ids s !! idx; slot_to_point slot id (ss_point_type s).
Definition SlotStore_export_all (s : SlotStore) : list DataPoint := omap (export_slot s) (seq 0 (length (ss_slots s))).
Definition SlotStore_len (s : SlotStore) : nat := length (ss_slots s).
Definition SlotStore_contains (s : SlotStore) (point_id : Z) : bool := bool_decide (is_Some (ss_index s !! point_id)).

(** * The sharded store *)

Record ShardedSlotStore := mkShardedSlotStore {
  sh_shards : list (list DataSlot); sh_index : gmap Z (nat * nat); sh_point_ids : list (list Z); sh_count : nat; sh_point_type : PointType }.

(** The ids a shard gets, in the order of the list. *)
Definition shard_of (count : nat) (point_id : Z) : nat := Z.to_nat (point_id mod Z.of_nat count).
Definition shard_points (ids : list Z) (count shard : nat) : list Z := filter (fun id => shard_of count id = shard) ids.
Definition index_shard (m : gmap Z (nat * nat)) (shard : nat) (points : list Z) : gmap Z (nat * nat) :=
  foldl (fun m '(i, id) => <[id := (shard, i)]> m) m (imap pair points).
Definition ShardedSlotStore_new (ids : list Z) (shard_count : nat) (pt : PointType) : ShardedSlotStore :=
  let count := Nat.max shard_count 1 in
  let points := map (shard_points ids count) (seq 0 count) in
  mkShardedSlotStore (map (map (fun _ => DataSlot_new)) points)
    (foldl (fun m shard => index_shard m shard (shard_points ids count shard)) ∅ (seq 0 count)) points count pt.
Definition ShardedSlotStore_update (s : ShardedSlotStore) (now_ms point_id : Z) (value : ProtoValue) (quality : ProtoQuality) : ShardedSlotStore :=
  match sh_index s !! point_id with
  | Some (shard, idx) =>
      mkShardedSlotStore (alter (alter (DataSlot_update now_ms value quality) idx) shard (sh_shards s)) (sh_index s) (sh_point_ids s) (sh_count s) (sh_point_type s)
  | None => s
  end.
Definition sharded_slot (s : ShardedSlotStore) (point_id : Z) : option DataSlot :=
  '(shard, idx) ← sh_index s !! point_id; slots ← sh_shards s !! shard; slots !! idx.
Definition ShardedSlotStore_read (s : ShardedSlotStore) (point_id : Z) : option (ProtoValue * ProtoQuality * Z * Z) :=
  slot ← sharded_slot s point_id; DataSlot_read slot.
Definition export_shard (s : ShardedSlotStore) (shard : nat) : list DataPoint :=
  match sh_shards s !! shard, sh_point_ids s !! shard with
  | Some slots, Some ids => omap (fun '(slot, id) => slot_to_point slot id (sh_point_type s)) (zip slots ids)
  | _, _ => []
  end.
Definition ShardedSlotStore_export_all (s : ShardedSlotStore) : list DataPoint := concat (map (export_shard s) (seq 0 (length (sh_shards s)))).
Definition ShardedSlotStore_len (s : ShardedSlotStore) : nat := size (sh_index s).

(** * What the stores hold *)

Lemma quality_roundtrip q : quality_from_u8 (Quality_code q) = q.
Proof. by destruct q. Qed.

(** ** The index *)

Lemma build_index_snoc ids x : build_index (ids ++ [x]) = <[x := length ids]> (build_index ids).
Proof. unfold build_index. rewrite imap_app, foldl_app. cbn. by rewrite Nat.add_0_r. Qed.

Lemma build_index_Some ids id i : build_index ids !! id = Some i -> ids !! i = Some id.
Proof.
  induction ids as [|x ids IH] using rev_ind; [done |]. rewrite build_index_snoc, lookup_insert_Some.
  intros [[-> <-] | [_ H]]; [by rewrite list_lookup_middle |]. apply lookup_app_l_Some. by apply IH.
Qed.

Lemma build_index_elem ids id : id ∈ ids -> exists i, build_index ids !! id = Some i.
Proof.
  induction ids as [|x ids IH] using rev_ind; [by intros ?%not_elem_of_nil |]. rewrite build_index_snoc, elem_of_app, list_elem_of_singleton.
  intros H. destruct (decide (x = id)) as [-> | Hx]; [eexists; apply lookup_insert_eq |]. rewrite lookup_insert_ne by done.
  apply IH. destruct H; congruence.
Qed.

Lemma build_index_None ids id : id ∉ ids -> build_index ids !! id = None.
Proof.
  intros H. destruct (build_index ids !! id) eqn:E; [| done]. apply build_index_Some in E. by apply list_elem_of_lookup_2 in E.
Qed.

(** Changing the cell of one of several distinct ids. *)
Lemma alter_map_nodup {A} (f : Z -> A) (g : A -> A) ids i x : NoDup ids -> ids !! i = Some x ->
  alter g i (map f ids) = map (fun y => if decide (y = x) then g (f y) else f y) ids.
Proof.
  intros Hn. revert i. induction Hn as [|y ids Hy Hn IH]; intros [|i] Hx; [done | done | |]; cbn in Hx; cbn [map].
  - injection Hx as ->. cbn. rewrite decide_True by done. f_equal. apply map_ext_in. intros z Hz%list_elem_of_In. rewrite decide_False; [done | by intros ->].
  - cbn. rewrite decide_False by (intros ->; by apply list_elem_of_lookup_2 in Hx). f_equal. by apply IH.
Qed.

(** ** The boolean store is a map *)

Record bool_store_ok (ids : list Z) (f : Z -> bool) (s : AtomicBoolStore) : Prop := {
  bs_index : abs_index s = build_index ids;
  bs_states : abs_states s = map f ids;
}.

Lemma from_pins_ok ids : bool_store_ok ids (fun _ => false) (AtomicBoolStore_from_pins ids).
Proof. done. Qed.

Lemma bool_store_get ids f s id : bool_store_ok ids f s -> AtomicBoolStore_get s id = if decide (id ∈ ids) then Some (f id) else None.
Proof.
  intros [Hi Hs]. unfold AtomicBoolStore_get. rewrite Hi. case_decide as Hin; [| by rewrite build_index_None].
  destruct (build_index_elem ids id Hin) as [i Hx]. rewrite Hx. cbn. rewrite Hs. apply build_index_Some in Hx.
  change (map f ids) with (f <$> ids). by rewrite list_lookup_fmap, Hx.
Qed.

Lemma bool_store_set ids f s id v : NoDup ids -> bool_store_ok ids f s ->
  bool_store_ok ids (fun x => if decide (x = id) then v else f x) (AtomicBoolStore_set s id v).
Proof.
  intros Hn [Hi Hs]. unfold AtomicBoolStore_set. rewrite Hi. destruct (build_index ids !! id) as [i|] eqn:Hx; (split; [done |]); cbn [abs_states]; rewrite Hs.
  - apply build_index_Some in Hx. rewrite list_insert_alter, (alter_map_nodup _ (const v) _ _ id) by done. done.
  - apply map_ext_in. intros y Hy%list_elem_of_In. rewrite decide_False; [done |]. intros ->.
    destruct (build_index_elem ids id Hy) as [? ?]. congruence.
Qed.

(** ** Both point stores keep the latest update of every point *)

Record Update := mkUpdate { up_now : Z; up_id : Z; up_value : ProtoValue; up_quality : ProtoQuality }.
Definition apply_update (u : Update) : DataSlot -> DataSlot := DataSlot_update (up_now u) (up_value u) (up_quality u).
(** The slot of a point after a sequence of updates of all points. *)
Definition spec_slot (us : list Update) (id : Z) : DataSlot :=
  foldl (fun s u => if decide (id = up_id u) then apply_update u s else s) DataSlot_new us.
Definition spec_point (pt : PointType) (us : list Update) (id : Z) : option DataPoint := slot_to_point (spec_slot us id) id pt.

Lemma spec_slot_snoc us u id : spec_slot (us ++ [u]) id = if decide (id = up_id u) then apply_update u (spec_slot us id) else spec_slot us id.
Proof. unfold spec_slot. by rewrite foldl_app. Qed.

(** What a store promises to the adapter that owns it. *)
Class PointStore (S : Type) := {
  ps_new : list Z -> PointType -> S;
  ps_update : S -> Update -> S;
  ps_read : S -> Z -> option DataSlot;
  ps_export : S -> list DataPoint;
}.
Definition ps_run {S} `{PointStore S} (s : S) (us : list Update) : S := foldl ps_update s us.
Class PointStoreSpec (S : Type) `{PointStore S} := {
  ps_read_spec : forall ids pt us id, NoDup ids -> ps_read (ps_run (ps_new ids pt) us) id = if decide (id ∈ ids) then Some (spec_slot us id) else None;
  ps_export_spec : forall ids pt us, NoDup ids -> ps_export (ps_run (ps_new ids pt) us) ≡ₚ omap (spec_point pt us) ids;
}.

#[export] Instance SlotStore_store : PointStore SlotStore := {|
  ps_new := SlotStore_from_points;
  ps_update s u := SlotStore_update s (up_now u) (up_id u) (up_value u) (up_quality u);
  ps_read := SlotStore_get;
  ps_export := SlotStore_export_all;
|}.

Record slot_store_ok (ids : list Z) (pt : PointType) (us : list Update) (s : SlotStore) : Prop := {
  so_index : ss_index s = build_index ids;
  so_ids : ss_point_ids s = ids;
  so_type : ss_point_type s = pt;
  so_slots : ss_slots s = map (spec_slot us) ids;
}.

Lemma from_points_ok ids pt : slot_store_ok ids pt [] (SlotStore_from_points ids pt).
Proof. done. Qed.

Lemma update_ok ids pt us s u : NoDup ids -> slot_store_ok ids pt us s -> slot_store_ok ids pt (us ++ [u]) (ps_update s u).
Proof.
  intros Hn [Hi Hids Ht Hs]. cbn. unfold SlotStore_update. rewrite Hi. destruct (build_index ids !! up_id u) as [i|] eqn:Hx; split; try done; cbn [ss_slots]; rewrite Hs.
  - apply build_index_Some in Hx. rewrite (alter_map_nodup _ _ _ _ (up_id u)) by done. apply map_ext. intros y. by rewrite spec_slot_snoc.
  - apply map_ext_in. intros y Hy%list_elem_of_In. rewrite spec_slot_snoc, decide_False; [done |]. intros ->.
    destruct (build_index_elem ids (up_id u) Hy) as [? ?]. congruence.
Qed.

Lemma store_run_ok ids pt us : NoDup ids -> slot_store_ok ids pt us (ps_run (SlotStore_from_points ids pt) us).
Proof.
  intros Hn. unfold ps_run. induction us as [|u us IH] using rev_ind; [done |]. rewrite foldl_snoc. by apply update_ok.
Qed.

Lemma slot_store_get ids pt us s id : slot_store_ok ids pt us s -> SlotStore_get s id = if decide (id ∈ ids) then Some (spec_slot us id) else None.
Proof.
  intros [Hi _ _ Hs]. unfold SlotStore_get. rewrite Hi. case_decide as Hin; [| by rewrite build_index_None].
  destruct (build_index_elem ids id Hin) as [i Hx]. rewrite Hx. cbn. rewrite Hs. apply build_index_Some in Hx.
  change (map (spec_slot us) ids) with (spec_slot us <$> ids). by rewrite list_lookup_fmap, Hx.
Qed.

Lemma export_slot_ok ids pt us s i id : slot_store_ok ids pt us s -> ids !! i = Some id -> export_slot s i = spec_point pt us id.
Proof.
  intros [_ Hids Ht Hs] Hx. unfold export_slot. rewrite Hs, Hids, Ht. change (map (spec_slot us) ids) with (spec_slot us <$> ids).
  rewrite list_lookup_fmap, Hx. done.
Qed.

Lemma omap_seq_lookup {A B} (f : A -> option B) (g : nat -> option B) (l : list A) :
  (forall i x, l !! i = Some x -> g i = f x) -> omap g (seq 0 (length l)) = omap f l.
Proof.
  revert g. induction l as [|x l IH]; intros g Hg; [done |]. cbn [length seq]. rewrite <- fmap_S_seq. cbn [omap list_omap].
  rewrite (Hg 0%nat x) by done. rewrite (omap_map g S), (IH (fun i => g (S i))); [done |]. intros i y Hy. by apply Hg.
Qed.

Lemma export_all_ok ids pt us s : slot_store_ok ids pt us s -> SlotStore_export_all s = omap (spec_point pt us) ids.
Proof.
  intros H. unfold SlotStore_export_all. rewrite (so_slots _ _ _ _ H), length_map. apply omap_seq_lookup. intros i x Hx. by apply (export_slot_ok ids).
Qed.

#[export] Instance SlotStore_spec : PointStoreSpec SlotStore.
Proof.
  split; intros ids pt us.
  - intros id Hn. apply (slot_store_get ids pt). by apply store_run_ok.
  - intros Hn. change (SlotStore_export_all (ps_run (SlotStore_from_points ids pt) us) ≡ₚ omap (spec_point pt us) ids).
    by rewrite (export_all_ok ids pt us _ (store_run_ok ids pt us Hn)).
Qed.

(** ** The sharded store *)

#[export] Instance ShardedSlotStore_store (shard_count : nat) : PointStore ShardedSlotStore := {|
  ps_new ids pt := ShardedSlotStore_new ids shard_count pt;
  ps_update s u := ShardedSlotStore_update s (up_now u) (up_id u) (up_value u) (up_quality u);
  ps_read := sharded_slot;
  ps_export := ShardedSlotStore_export_all;
|}.

Lemma index_shard_lookup m shard points id :
  match index_shard m shard points !! id with
  | Some x => (exists i, x = (shard, i) /\ points !! i = Some id) \/ ((id ∉ points) /\ m !! id = Some x)
  | None => (id ∉ points) /\ m !! id = None
  end.
Proof.
  unfold index_shard. induction points as [|p points IH] using rev_ind; [cbn; destruct (m !! id); [right |]; (split; [apply not_elem_of_nil | done]) |].
  rewrite imap_app, foldl_app. cbn [imap foldl fmap list_fmap]. cbn. rewrite Nat.add_0_r. destruct (decide (p = id)) as [-> | Hp].
  - rewrite lookup_insert_eq. left. exists (length points). by rewrite list_lookup_middle.
  - rewrite lookup_insert_ne by done. set (m' := foldl _ m _) in *. destruct (m' !! id) as [x|].
    + destruct IH as [(i & -> & Hi) | [Hn Hm]]; [left; exists i; split; [done | by apply lookup_app_l_Some] | right].
      split; [| done]. rewrite elem_of_app, list_elem_of_singleton. naive_solver.
    + destruct IH as [Hn Hm]. split; [| done]. rewrite elem_of_app, list_elem_of_singleton. naive_solver.
Qed.

Lemma elem_shard_points ids count shard id : id ∈ shard_points ids count shard <-> shard_of count id = shard /\ id ∈ ids.
Proof. unfold shard_points. by rewrite list_elem_of_filter. Qed.

Lemma sharded_index_lookup ids count n id :
  let index := foldl (fun m shard => index_shard m shard (shard_points ids count shard)) ∅ (seq 0 n) in
  if decide (id ∈ ids /\ (shard_of count id < n)%nat)
  then exists i, index !! id = Some (shard_of count id, i) /\ shard_points ids count (shard_of count id) !! i = Some id
  else index !! id = None.
Proof.
  induction n as [|n IH]; [rewrite decide_False by lia; apply lookup_empty |]. rewrite seq_S, foldl_snoc. cbn in IH |- *.
  set (m := foldl _ ∅ (seq 0 n)) in *. pose proof (index_shard_lookup m n (shard_points ids count n) id) as H.
  destruct (index_shard m n (shard_points ids count n) !! id) as [x|].
  - destruct H as [(i & -> & Hi) | [Hn Hm]].
    + pose proof (list_elem_of_lookup_2 _ _ _ Hi) as [He Hin]%elem_shard_points. rewrite decide_True by (split; [done | lia]). rewrite He. by exists i.
    + assert (Hne : id ∈ ids -> shard_of count id <> n) by (intros Hin He; apply Hn; by apply elem_shard_points).
      destruct (decide (id ∈ ids /\ (shard_of count id < S n)%nat)) as [[Hin Hlt]|Hd].
      * rewrite decide_True in IH by (split; [done | specialize (Hne Hin); lia]). destruct IH as (i & Hmi & Hi). rewrite Hm in Hmi.
        injection Hmi as ->. by exists i.
      * rewrite decide_False in IH by (intros [? ?]; apply Hd; split; [done | lia]). congruence.
  - destruct H as [Hn Hm]. rewrite decide_False; [done |]. intros [Hin Hlt].
    rewrite decide_True in IH; [destruct IH as (i & Hmi & _); congruence |]. split; [done |].
    destruct (decide (shard_of count id = n)) as [He|]; [| lia]. exfalso. apply Hn. by apply elem_shard_points.
Qed.

Record sharded_ok (ids : list Z) (pt : PointType) (count : nat) (us : list Update) (s : ShardedSlotStore) : Prop := {
  sho_index : sh_index s = foldl (fun m shard => index_shard m shard (shard_points ids count shard)) ∅ (seq 0 count);
  sho_ids : sh_point_ids s = map (shard_points ids count) (seq 0 count);
  sho_type : sh_point_type s = pt;
  sho_shards : sh_shards s = map (fun shard => map (spec_slot us) (shard_points ids count shard)) (seq 0 count);
}.

Lemma shard_of_lt count id : (0 < count)%nat -> (shard_of count id < count)%nat.
Proof. intros Hc. unfold shard_of. pose proof (Z.mod_pos_bound id (Z.of_nat count) ltac:(lia)). lia. Qed.

(** Where the index points, the cell of that id is. *)
Lemma sharded_index_ok ids pt count us s id : (0 < count)%nat -> sharded_ok ids pt count us s ->
  if decide (id ∈ ids) then exists i, sh_index s !! id = Some (shard_of count id, i) /\ shard_points ids count (shard_of count id) !! i = Some id
  else sh_index s !! id = None.
Proof.
  intros Hc H. rewrite (sho_index _ _ _ _ _ H). pose proof (sharded_index_lookup ids count count id) as Hl. pose proof (shard_of_lt count id Hc).
  cbn in Hl. destruct (decide (id ∈ ids)) as [Hin|Hin]; [rewrite decide_True in Hl by done | rewrite decide_False in Hl by naive_solver]; done.
Qed.

Lemma sharded_shard_at {A} (g : nat -> A) count shard : (shard < count)%nat -> map g (seq 0 count) !! shard = Some (g shard).
Proof. intros H. change (map g (seq 0 count)) with (g <$> seq 0 count). by rewrite list_lookup_fmap, lookup_seq_lt. Qed.

Lemma sharded_update_ok ids pt count us s u : NoDup ids -> (0 < count)%nat -> sharded_ok ids pt count us s ->
  sharded_ok ids pt count (us ++ [u]) (ShardedSlotStore_update s (up_now u) (up_id u) (up_value u) (up_quality u)).
Proof.
  intros Hn Hc H. pose proof (sharded_index_ok ids pt count us s (up_id u) Hc H) as Hi. destruct H as [Hidx Hids Ht Hs].
  unfold ShardedSlotStore_update. set (id := up_id u) in *. pose proof (shard_of_lt count id Hc) as Hlt. case_decide as Hin.
  - destruct Hi as (i & -> & Hl). split; [done .. |]. cbn [sh_shards]. rewrite Hs. apply list_eq. intros k. destruct (decide (k = shard_of count id)) as [-> | Hk].
    + rewrite list_lookup_alter_eq, !sharded_shard_at by done. cbn [fmap option_fmap option_map]. f_equal.
      rewrite (alter_map_nodup _ _ _ _ id) by (done || by apply NoDup_filter). apply map_ext. intros y. by rewrite spec_slot_snoc.
    + rewrite list_lookup_alter_ne by done. destruct (decide (k < count)%nat) as [Hkc|Hkc].
      * rewrite !sharded_shard_at by done. f_equal. apply map_ext_in. intros y Hy%list_elem_of_In%elem_shard_points.
        rewrite spec_slot_snoc, decide_False; [done |]. intros ->. by destruct Hy.
      * rewrite !lookup_ge_None_2 by (rewrite length_map, length_seq; lia). done.
  - rewrite Hi. split; [done .. |]. rewrite Hs. apply map_ext. intros k. apply map_ext_in. intros y Hy%list_elem_of_In%elem_shard_points.
    rewrite spec_slot_snoc, decide_False; [done |]. intros ->. by destruct Hy.
Qed.

Lemma sharded_run_ok ids pt n us : NoDup ids ->
  sharded_ok ids pt (Nat.max n 1) us (ps_run (H := ShardedSlotStore_store n) (ShardedSlotStore_new ids n pt) us).
Proof.
  intros Hn. unfold ps_run. induction us as [|u us IH] using rev_ind.
  - split; try done. cbn [foldl ShardedSlotStore_new sh_shards]. rewrite map_map. done.
  - rewrite foldl_snoc. apply sharded_update_ok; [done | lia | done].
Qed.

Lemma sharded_points_perm ids count : (0 < count)%nat -> concat (map (shard_points ids count) (seq 0 count)) ≡ₚ ids.
Proof.
  intros Hc. assert (Hcons : forall x l n, concat (map (shard_points (x :: l) count) (seq 0 n)) ≡ₚ
    (if decide (shard_of count x < n)%nat then [x] else []) ++ concat (map (shard_points l count) (seq 0 n))).
  { intros x l n. induction n as [|n IH]; [done |]. rewrite seq_S, !map_app, !concat_app. cbn [map concat]. rewrite !app_nil_r, IH.
    unfold shard_points at 2. rewrite filter_cons. fold (shard_points l count n). cbn [Nat.add].
    destruct (decide (shard_of count x = n)) as [He|He], (decide (shard_of count x < n)%nat), (decide (shard_of count x < S n)%nat); try lia; cbn [app]; try done.
    by rewrite Permutation_middle. }
  induction ids as [|x ids IH]; [induction (seq 0 count); done |]. rewrite Hcons, IH, decide_True by by apply shard_of_lt. done.
Qed.

Lemma omap_concat_map {A B} (f : A -> option B) (ls : list (list A)) : omap f (concat ls) = concat (map (omap f) ls).
Proof. induction ls as [|l ls IH]; [done |]. cbn [concat map]. by rewrite omap_app, IH. Qed.

#[export] Instance ShardedSlotStore_spec n : @PointStoreSpec ShardedSlotStore (ShardedSlotStore_store n).
Proof.
  split; intros ids pt us.
  - intros id Hn. pose proof (sharded_run_ok ids pt n us Hn) as H. pose proof (sharded_index_ok ids pt (Nat.max n 1) us _ id ltac:(lia) H) as Hi.
    cbn [ps_read ps_new ShardedSlotStore_store]. set (s := ps_run _ us) in *. clearbody s. unfold sharded_slot. case_decide as Hin; [| by rewrite Hi]. destruct Hi as (i & -> & Hl). cbn [mbind option_bind].
    rewrite (sho_shards _ _ _ _ _ H), sharded_shard_at by (apply shard_of_lt; lia). cbn [mbind option_bind].
    change (map (spec_slot us) ?l) with (spec_slot us <$> l). by rewrite list_lookup_fmap, Hl.
  - intros Hn. pose proof (sharded_run_ok ids pt n us Hn) as H. cbn [ps_export ShardedSlotStore_store ps_new]. set (s := ps_run _ us) in *. clearbody s.
    unfold ShardedSlotStore_export_all. rewrite (sho_shards _ _ _ _ _ H), length_map, length_seq. set (count := Nat.max n 1) in *.
    transitivity (omap (spec_point pt us) (concat (map (shard_points ids count) (seq 0 count)))); [| by rewrite sharded_points_perm by lia].
    rewrite omap_concat_map, map_map. match goal with |- ?a ≡ₚ ?b => assert (a = b) as ->; [| done] end. f_equal. apply map_ext_in.
    intros k Hk%in_seq. unfold export_shard. rewrite (sho_shards _ _ _ _ _ H), (sho_ids _ _ _ _ _ H), (sho_type _ _ _ _ _ H), !sharded_shard_at by lia.
    generalize (shard_points ids count k). intros l. induction l as [|x l IH]; [done |]. cbn. unfold spec_point at 1. by destruct (slot_to_point _ _ _); rewrite IH.
Qed.

(** The two stores are interchangeable: fed the same updates of the same points, the sharded
    store answers every read like the plain one, and exports the same points, whatever the
    number of shards. *)
Theorem sharded_store_equivalent n ids pt us : NoDup ids ->
  let plain := ps_run (SlotStore_from_points ids pt) us in
  let sharded := ps_run (H := ShardedSlotStore_store n) (ShardedSlotStore_new ids n pt) us in
  (forall id, ShardedSlotStore_read sharded id = (slot ← SlotStore_get plain id; DataSlot_read slot)) /\
  ShardedSlotStore_export_all sharded ≡ₚ SlotStore_export_all plain.
Proof.
  intros Hn. split.
  - intros id. unfold ShardedSlotStore_read. f_equal.
    transitivity (if decide (id ∈ ids) then Some (spec_slot us id) else None); [exact (ps_read_spec (PointStoreSpec := ShardedSlotStore_spec n) ids pt us id Hn) | symmetry; exact (ps_read_spec (S := SlotStore) ids pt us id Hn)].
  - transitivity (omap (spec_point pt us) ids); [exact (ps_export_spec (PointStoreSpec := ShardedSlotStore_spec n) ids pt us Hn) | symmetry; exact (ps_export_spec (S := SlotStore) ids pt us Hn)].
Qed.
