(* ===== verification/Can.v ===== *)
(** CAN field codec: [libs/voltage-core/src/codec/can.rs].

    A frame is a list of bytes; a field is extracted by byte offset, bit position
    and length, then decoded by data type. *)
From stdpp Require Import base numbers list.
From Stdlib Require Import ZArith Lia.
From S2P Require Import Prelude.
Local Open Scope Z_scope.

(** * Data *)

Inductive CanDataType := CanUInt8 | CanUInt16 | CanInt16 | CanUInt32 | CanInt32 | CanFloat32 | CanAscii.

Inductive CanDecodeError := OffsetOutOfRange | InvalidBitPosition | InsufficientData | UnsupportedBitLength.

(** [data] is the [[u8; 8]] buffer, [len] the bytes in use. *)
Record ExtractedField := mkExtractedField { ef_data : list Z; ef_len : nat }.

Inductive CanValue :=
| CanInteger (i : Z)
| CanFloat (f : Z)
| CanString (buf : list Z) (len : Z).

Definition CanDataType_bit_length (t : CanDataType) : Z :=
  match t with
  | CanUInt8 => 8
  | CanUInt16 | CanInt16 => 16
  | CanUInt32 | CanInt32 | CanFloat32 => 32
  | CanAscii => 64
  end.

(** * Operations *)

Definition ExtractedField_new (bytes : list Z) : ExtractedField :=
  let len := Nat.min (length bytes) 8 in
  mkExtractedField (take len bytes ++ replicate (8 - len) 0) len.

Definition ExtractedField_single (byte : Z) : ExtractedField :=
  mkExtractedField [byte; 0; 0; 0; 0; 0; 0; 0] 1.

Definition ExtractedField_as_slice (f : ExtractedField) : list Z := take (ef_len f) (ef_data f).
Definition ExtractedField_is_empty (f : ExtractedField) : bool := (ef_len f =? 0)%nat.

(** The three multi-byte branches. *)
Definition extract_bytes (n : nat) (data : list Z) (byte_offset : nat) (bit_position : Z)
    : result ExtractedField CanDecodeError :=
  if negb (bit_position =? 0) then Err InvalidBitPosition
  else if (length data <? byte_offset + n)%nat then Err InsufficientData
  else Ok (ExtractedField_new (take n (drop byte_offset data))).

Definition extract_field (data : list Z) (byte_offset : nat) (bit_position bit_length : Z)
    : result ExtractedField CanDecodeError :=
  match data !! byte_offset with
  | None => Err OffsetOutOfRange
  | Some byte =>
      if bit_length =? 2 then
        if 6 <? bit_position then Err InvalidBitPosition
        else Ok (ExtractedField_single (Z.land (Z.shiftr byte bit_position) 0x03))
      else if bit_length =? 8 then
        if negb (bit_position =? 0) then Err InvalidBitPosition
        else Ok (ExtractedField_single byte)
      else if bit_length =? 16 then extract_bytes 2 data byte_offset bit_position
      else if bit_length =? 32 then extract_bytes 4 data byte_offset bit_position
      else if bit_length =? 64 then extract_bytes 8 data byte_offset bit_position
      else Err UnsupportedBitLength
  end.

Definition CanValue_apply_transform (v : CanValue) (scale offset : Z) : CanValue :=
  match v with
  | CanInteger i =>
      if negb (f64_eqb scale f64_one) || negb (f64_eqb offset f64_zero)
      then CanFloat (f64_add (f64_mul (f64_of_Z i) scale) offset)
      else v
  | _ => v
  end.

Definition CanValue_as_f64 (v : CanValue) : option Z :=
  match v with
  | CanInteger i => Some (f64_of_Z i)
  | CanFloat f => Some f
  | CanString _ _ => None
  end.

(** The loop of the [Ascii] branch: stop at NUL, keep at most eight bytes. *)
Fixpoint ascii_loop (bytes buf : list Z) (len : nat) : list Z * nat :=
  match bytes with
  | [] => (buf, len)
  | b :: bytes =>
      if b =? 0 then (buf, len)
      else if (len <? 8)%nat then ascii_loop bytes (<[len := b]> buf) (S len)
      else ascii_loop bytes buf len
  end.

Definition decode_value (field : ExtractedField) (data_type : CanDataType) : result CanValue CanDecodeError :=
  let bytes := ExtractedField_as_slice field in
  match data_type with
  | CanUInt8 =>
      match bytes with
      | b0 :: _ => Ok (CanInteger b0)
      | _ => Err InsufficientData
      end
  | CanUInt16 =>
      match bytes with
      | b0 :: b1 :: _ => Ok (CanInteger (from_le_bytes [b0; b1]))
      | _ => Err InsufficientData
      end
  | CanInt16 =>
      match bytes with
      | b0 :: b1 :: _ => Ok (CanInteger (to_signed 16 (from_le_bytes [b0; b1])))
      | _ => Err InsufficientData
      end
  | CanUInt32 =>
      match bytes with
      | b0 :: b1 :: b2 :: b3 :: _ => Ok (CanInteger (from_le_bytes [b0; b1; b2; b3]))
      | _ => Err InsufficientData
      end
  | CanInt32 =>
      match bytes with
      | b0 :: b1 :: b2 :: b3 :: _ => Ok (CanInteger (to_signed 32 (from_le_bytes [b0; b1; b2; b3])))
      | _ => Err InsufficientData
      end
  | CanFloat32 =>
      match bytes with
      | b0 :: b1 :: b2 :: b3 :: _ => Ok (CanFloat (f64_of_f32 (from_le_bytes [b0; b1; b2; b3])))
      | _ => Err InsufficientData
      end
  | CanAscii =>
      let '(buf, len) := ascii_loop bytes (replicate 8 0) 0 in
      Ok (CanString buf (Z.of_nat len))
  end.

Definition decode_at (data : list Z) (byte_offset : nat) (t : CanDataType) : result CanValue CanDecodeError :=
  let? field := extract_field data byte_offset 0 (CanDataType_bit_length t) in decode_value field t.

Example can_u16 : decode_at [0x00; 0x34; 0x12] 1 CanUInt16 = Ok (CanInteger 0x1234).
Proof. reflexivity. Qed.
Example can_alarm : extract_field [0xE4] 0 2 2 = Ok (ExtractedField_single 1).
Proof. reflexivity. Qed.
Example can_text : decode_at [0x41; 0x42; 0; 0x43; 0; 0; 0; 0] 0 CanAscii = Ok (CanString [0x41; 0x42; 0; 0; 0; 0; 0; 0] 2).
Proof. reflexivity. Qed.

(** * Specification *)

(** The bytes a device puts in the frame for a value, and the value decoded. *)
Inductive CanSignal :=
| SigU8 (z : Z) | SigU16 (z : Z) | SigI16 (z : Z) | SigU32 (z : Z) | SigI32 (z : Z)
| SigF32 (bits : Z) | SigAscii (text : list Z).

Definition signal_type (s : CanSignal) : CanDataType :=
  match s with
  | SigU8 _ => CanUInt8 | SigU16 _ => CanUInt16 | SigI16 _ => CanInt16 | SigU32 _ => CanUInt32
  | SigI32 _ => CanInt32 | SigF32 _ => CanFloat32 | SigAscii _ => CanAscii
  end.

Definition signal_bytes (s : CanSignal) : list Z :=
  match s with
  | SigU8 z => to_le_bytes 1 z
  | SigU16 z | SigI16 z => to_le_bytes 2 z
  | SigU32 z | SigI32 z | SigF32 z => to_le_bytes 4 z
  | SigAscii text => text ++ replicate (8 - length text) 0
  end.

Definition signal_value (s : CanSignal) : CanValue :=
  match s with
  | SigU8 z | SigU16 z | SigI16 z | SigU32 z | SigI32 z => CanInteger z
  | SigF32 bits => CanFloat (f64_of_f32 bits)
  | SigAscii text => CanString (text ++ replicate (8 - length text) 0) (Z.of_nat (length text))
  end.

Definition signal_ok (s : CanSignal) : Prop :=
  match s with
  | SigU8 z => is_uint 8 z
  | SigU16 z => is_uint 16 z
  | SigI16 z => - 2 ^ 15 <= z < 2 ^ 15
  | SigU32 z | SigF32 z => is_uint 32 z
  | SigI32 z => - 2 ^ 31 <= z < 2 ^ 31
  | SigAscii text => (length text <= 8)%nat /\ Forall (fun b => 0 < b < 128) text
  end.

(** * Lemmas *)

Lemma length_signal_bytes s : signal_ok s ->
  Z.of_nat (length (signal_bytes s)) * 8 = CanDataType_bit_length (signal_type s).
Proof.
  destruct s as [z|z|z|z|z|z|text]; try reflexivity. intros [Hl _]. cbn [signal_bytes signal_type CanDataType_bit_length].
  rewrite length_app, length_replicate. lia.
Qed.

(** A whole-byte field is the bytes at its offset. *)
Lemma extract_whole_bytes pre bs post n :
  (n = 1 \/ n = 2 \/ n = 4 \/ n = 8)%nat -> length bs = n ->
  exists f, extract_field (pre ++ bs ++ post) (length pre) 0 (Z.of_nat n * 8) = Ok f /\
    ExtractedField_as_slice f = bs.
Proof.
  intros Hn Hl. unfold extract_field.
  destruct bs as [|b bs]; [cbn in Hl; lia |]. assert (Hat : (pre ++ (b :: bs) ++ post) !! length pre = Some b) by (by apply list_lookup_middle). rewrite Hat.
  assert (Hnew : extract_bytes n (pre ++ (b :: bs) ++ post) (length pre) 0 = Ok (ExtractedField_new (b :: bs))).
  { unfold extract_bytes. cbn [negb Z.eqb]. rewrite (proj2 (Nat.ltb_ge _ _)) by (rewrite !length_app; lia).
    rewrite drop_app_length, take_app_length' by done. done. }
  assert (Hslice : ExtractedField_as_slice (ExtractedField_new (b :: bs)) = b :: bs).
  { unfold ExtractedField_as_slice, ExtractedField_new. cbn [ef_len ef_data].
    rewrite Nat.min_l, firstn_all by lia. apply take_app_length. }
  destruct Hn as [-> | [-> | [-> | ->]]]; cbn [Z.of_nat Pos.of_succ_nat Pos.succ Z.mul Pos.mul Z.eqb Pos.eqb].
  1: destruct bs; [| discriminate]; by eexists.
  all: eexists; split; [exact Hnew | exact Hslice].
Qed.

Lemma ascii_loop_text text k : forall buf len,
  Forall (fun b => 0 < b < 128) text -> (len + length text <= 8)%nat ->
  ascii_loop (text ++ replicate k 0) buf len =
  (foldl (fun b '(i, c) => <[i := c]> b) buf (zip (seq len (length text)) text), (len + length text)%nat).
Proof.
  induction text as [|c text IH]; intros buf len Ht Hl.
  - destruct k; cbn; by rewrite Nat.add_0_r.
  - apply Forall_cons in Ht as [Hc Ht]. cbn [length] in Hl. cbn [app ascii_loop].
    rewrite (proj2 (Z.eqb_neq c 0)), (proj2 (Nat.ltb_lt len 8)), IH by (done || lia).
    cbn [length seq zip zip_with foldl]. f_equal. lia.
Qed.

Lemma fill_prefix text : forall pre k, (length text <= k)%nat ->
  foldl (fun b '(i, c) => <[i := c]> b) (pre ++ replicate k 0) (zip (seq (length pre) (length text)) text) =
  pre ++ text ++ replicate (k - length text) 0.
Proof.
  induction text as [|c text IH]; intros pre k Hk; cbn [length] in *.
  - cbn. by rewrite Nat.sub_0_r.
  - destruct k as [|k]; [lia |]. cbn [seq zip zip_with foldl replicate].
    rewrite insert_app_r_alt, Nat.sub_diag by lia. cbn [insert list_insert].
    specialize (IH (pre ++ [c]) k ltac:(lia)). rewrite length_app in IH. cbn [length] in IH.
    rewrite Nat.add_1_r, <- !app_assoc in IH. cbn [app] in IH. rewrite IH. done.
Qed.

Lemma decode_signal s f : signal_ok s -> ExtractedField_as_slice f = signal_bytes s ->
  decode_value f (signal_type s) = Ok (signal_value s).
Proof.
  intros Hs Hf. unfold decode_value. rewrite Hf.
  assert (Hle : forall n z, from_le_bytes (to_le_bytes n z) = wrap (8 * Z.of_nat n) z) by apply from_to_le_bytes.
  destruct s as [z|z|z|z|z|z|text]; cbn [signal_type signal_bytes signal_ok signal_value] in *.
  - cbn [to_le_bytes]. rewrite wrap_small by done. done.
  - specialize (Hle 2%nat z). cbn [to_le_bytes] in *. rewrite Hle. change (8 * Z.of_nat 2) with 16.
    by rewrite wrap_small.
  - specialize (Hle 2%nat z). cbn [to_le_bytes] in *. rewrite Hle. change (8 * Z.of_nat 2) with 16.
    rewrite to_signed_wrap by lia. done.
  - specialize (Hle 4%nat z). cbn [to_le_bytes] in *. rewrite Hle. change (8 * Z.of_nat 4) with 32.
    by rewrite wrap_small.
  - specialize (Hle 4%nat z). cbn [to_le_bytes] in *. rewrite Hle. change (8 * Z.of_nat 4) with 32.
    rewrite to_signed_wrap by lia. done.
  - specialize (Hle 4%nat z). cbn [to_le_bytes] in *. rewrite Hle. change (8 * Z.of_nat 4) with 32.
    by rewrite wrap_small.
  - destruct Hs as [Hl Ht]. rewrite ascii_loop_text by (done || lia).
    pose proof (fill_prefix text [] 8 Hl) as Hp. cbn [app length] in Hp. rewrite Hp. done.
Qed.

(** * Theorems *)

(** A CAN signal of any type, placed at any byte offset of a frame with other
    signals around it, is decoded to its value: extraction finds exactly its bytes
    and decoding inverts the device's little-endian encoding, sign included. *)
Theorem can_signal_roundtrip pre s post :
  signal_ok s ->
  decode_at (pre ++ signal_bytes s ++ post) (length pre) (signal_type s) = Ok (signal_value s).
Proof.
  intros Hs. unfold decode_at. rewrite <- (length_signal_bytes s Hs).
  destruct (extract_whole_bytes pre (signal_bytes s) post (length (signal_bytes s))) as (f & -> & Hf); [| done |].
  - pose proof (length_signal_bytes s Hs). destruct s; cbn [signal_type CanDataType_bit_length] in *; lia.
  - by apply decode_signal.
Qed.

(** Extraction never reads outside the frame: it succeeds exactly when the
    length is supported, the bit position fits the length and the whole field lies
    inside the data. *)
Theorem extract_field_bounds data off pos len :
  0 <= pos ->
  (exists f, extract_field data off pos len = Ok f) <->
  (len = 2 /\ pos <= 6 /\ (off < length data)%nat) \/
  (exists n, (n = 1 \/ n = 2 \/ n = 4 \/ n = 8)%nat /\ len = Z.of_nat n * 8 /\ pos = 0 /\ (off + n <= length data)%nat).
Proof.
  intros Hpos. unfold extract_field, extract_bytes. destruct (data !! off) as [byte|] eqn:Hb.
  - apply lookup_lt_Some in Hb. split.
    + intros [f Hf]. repeat (case_match; bool_hyps; try discriminate); subst.
      * left. lia.
      * right. exists 1%nat. lia.
      * right. exists 2%nat. lia.
      * right. exists 4%nat. lia.
      * right. exists 8%nat. lia.
    + intros [(-> & Hp & _) | (n & Hn & -> & -> & Hle)].
      * cbn [Z.eqb Pos.eqb]. rewrite (proj2 (Z.ltb_ge 6 pos)) by lia. by eexists.
      * destruct Hn as [-> | [-> | [-> | ->]]];
          cbn [Z.of_nat Pos.of_succ_nat Pos.succ Z.mul Pos.mul Z.eqb Pos.eqb negb];
          rewrite ?(proj2 (Nat.ltb_ge _ _)) by lia; by eexists.
  - apply lookup_ge_None in Hb. split; [by intros [f Hf] | intros [? | (n & ? & ? & ? & ?)]; lia].
Qed.

(** * Witnesses *)

Lemma can_signal_roundtrip_witness :
  decode_at ([0xAA] ++ signal_bytes (SigI16 (-300)) ++ [0xBB]) 1 CanInt16 = Ok (CanInteger (-300)).
Proof. apply (can_signal_roundtrip [0xAA] (SigI16 (-300)) [0xBB]). cbn. lia. Defined.

Lemma extract_field_bounds_witness :
  (exists f, extract_field [1; 2; 3] 1 0 16 = Ok f) <->
  (16 = 2 /\ 0 <= 6 /\ (1 < 3)%nat) \/
  (exists n, (n = 1 \/ n = 2 \/ n = 4 \/ n = 8)%nat /\ 16 = Z.of_nat n * 8 /\ 0 = 0 /\ (1 + n <= 3)%nat).
Proof. apply (extract_field_bounds [1; 2; 3] 1 0 16). lia. Defined.
