(* ===== verification/Dl645.v ===== *)
(** The DL/T 645-2007 meter codec: [libs/voltage-core/src/codec/dl645.rs].

    Frames are lists of bytes.  [response_frame] is the frame a meter sends for an
    address, a data identifier and payload bytes, written from the format comment
    at the top of the source; the theorems relate the decoder to it. *)
From stdpp Require Import base numbers list.
From Stdlib Require Import ZArith Lia.
From S2P Require Import Prelude.
Set Warnings "-clear-no-such-hyp".
Local Open Scope Z_scope.

(** * Constants and data *)
Definition FRAME_START : Z := 0x68.
Definition FRAME_END : Z := 0x16.
Definition CTRL_READ_DATA : Z := 0x11.
Definition CTRL_READ_DATA_RESP : Z := 0x91.
Definition CTRL_READ_DATA_ERR : Z := 0xD1.
Definition DATA_OFFSET : Z := 0x33.
Definition MAX_FRAME_SIZE : nat := Z.to_nat 256.
Definition BROADCAST_ADDR : list Z := replicate 6 0x99.

Inductive Dl645Error :=
| NoData | DateError | NoPermission | FrameError | ChecksumError
| InvalidLength | InvalidMarkers | AddressError | OtherError.

(** Six bytes in display order. *)
Record MeterAddress := mkMeterAddress { ma_bytes : list Z }.
(** Four bytes in display order. *)
Record DataIdentifier := mkDataIdentifier { di_bytes : list Z }.

Record Dl645Frame := mkDl645Frame {
  fr_meter_addr : MeterAddress;
  fr_data_id : DataIdentifier;
  fr_data : list Z;
  fr_data_len : nat
}.

(** * Helpers *)

Definition hex_char_to_nibble (c : Z) : option Z :=
  if (48 <=? c) && (c <=? 57) then Some (c - 48)
  else if (65 <=? c) && (c <=? 70) then Some (c - 65 + 10)
  else if (97 <=? c) && (c <=? 102) then Some (c - 97 + 10)
  else None.

Definition nibble_to_hex_char (n : Z) : Z := if Z.land n 0x0F <=? 9 then 48 + n else 65 + (n - 10).

(** [for i in 0..n { (high << 4) | low }] over the pairs of a digit string. *)
Fixpoint parse_hex_pairs (e : Dl645Error) (bs : list Z) : result (list Z) Dl645Error :=
  match bs with
  | h :: l :: bs =>
      let? high := ok_or (hex_char_to_nibble h) e in
      let? low := ok_or (hex_char_to_nibble l) e in
      let? rest := parse_hex_pairs e bs in
      Ok (Z.lor (wrap 8 (Z.shiftl high 4)) low :: rest)
  | _ => Ok []
  end.

Definition MeterAddress_broadcast : MeterAddress := mkMeterAddress BROADCAST_ADDR.

Definition MeterAddress_parse (s : list Z) : result MeterAddress Dl645Error :=
  if negb (length s =? 12)%nat then Err AddressError
  else let? addr := parse_hex_pairs AddressError s in Ok (mkMeterAddress addr).

Definition MeterAddress_from_wire_bytes (wire : list Z) : result MeterAddress Dl645Error :=
  if (length wire <? 6)%nat then Err AddressError else Ok (mkMeterAddress (reverse (take 6 wire))).

Definition MeterAddress_to_wire_bytes (a : MeterAddress) : list Z := reverse (ma_bytes a).

(** [write!(f, "{b:02X}")] per byte. *)
Definition hex_pair (b : Z) : list Z := [nibble_to_hex_char (Z.shiftr b 4); nibble_to_hex_char (Z.land b 0x0F)].
Definition MeterAddress_display (a : MeterAddress) : list Z := concat (map hex_pair (ma_bytes a)).

Definition DataIdentifier_from_hex_str (s : list Z) : result DataIdentifier Dl645Error :=
  if negb (length s =? 8)%nat then Err FrameError
  else let? di := parse_hex_pairs FrameError s in Ok (mkDataIdentifier di).
Definition DataIdentifier_from_bytes (bs : list Z) : DataIdentifier := mkDataIdentifier bs.
Definition DataIdentifier_from_u32 (value : Z) : DataIdentifier := mkDataIdentifier (to_be_bytes 4 value).
Definition DataIdentifier_to_wire_bytes (d : DataIdentifier) : list Z := reverse (di_bytes d).
Definition DataIdentifier_to_hex_string (d : DataIdentifier) : list Z := concat (map hex_pair (di_bytes d)).

(** A 64-byte array filled from the front; longer input is cut. *)
Definition fill64 (bs : list Z) : list Z := take 64 bs ++ replicate (64 - length bs) 0.

Definition encode_data (data : list Z) : list Z := fill64 (map (fun b => wrapping_add 8 b DATA_OFFSET) data).
Definition decode_data (data : list Z) : list Z := fill64 (map (fun b => wrapping_sub 8 b DATA_OFFSET) data).

(** A [u16] sum, then its low byte. *)
Definition calculate_checksum (frame : list Z) : Z := Z.land (foldl (wrapping_add 16) 0 frame) 0xFF.

(** The request and the number of valid bytes of its 256-byte buffer. *)
Definition encode_read_request (a : MeterAddress) (d : DataIdentifier) : list Z * nat :=
  let body := [FRAME_START] ++ MeterAddress_to_wire_bytes a ++ [FRAME_START; CTRL_READ_DATA; 4] ++
              map (fun b => wrapping_add 8 b DATA_OFFSET) (DataIdentifier_to_wire_bytes d) in
  let frame := body ++ [calculate_checksum body; FRAME_END] in
  (frame ++ replicate (MAX_FRAME_SIZE - length frame) 0, length frame).

Definition decode_error_code (code : Z) : Dl645Error :=
  match code with
  | 0x01 => NoData
  | 0x02 => DateError
  | 0x04 => NoPermission
  | 0x08 => FrameError
  | _ => OtherError
  end.

Definition byte_at (frame : list Z) (i : nat) : Z := nth i frame 0.

(** [data[..n].copy_from_slice(&decoded[4..4 + n])] on 64-byte arrays. *)
Definition copy_payload (decoded : list Z) (n : nat) : outcome (list Z) :=
  if (64 <? n)%nat || (64 <? 4 + n)%nat then Panic
  else Ret (take n (drop 4 decoded) ++ replicate (64 - n) 0).

Definition decode_response (frame : list Z) : outcome (result Dl645Frame Dl645Error) :=
  let len := length frame in
  if (len <? 14)%nat then Ret (Err InvalidLength)
  else if negb (byte_at frame 0 =? FRAME_START) || negb (byte_at frame 7 =? FRAME_START) then Ret (Err InvalidMarkers)
  else if negb (byte_at frame (len - 1) =? FRAME_END) then Ret (Err InvalidMarkers)
  else if negb (byte_at frame (len - 2) =? calculate_checksum (take (len - 2) frame)) then Ret (Err ChecksumError)
  else
    match MeterAddress_from_wire_bytes (take 6 (drop 1 frame)) with
    | Err e => Ret (Err e)
    | Ok meter_addr =>
        let ctrl := byte_at frame 8 in
        let data_len := Z.to_nat (byte_at frame 9) in
        if negb (len =? 10 + data_len + 2)%nat then Ret (Err InvalidLength)
        else if ctrl =? CTRL_READ_DATA_ERR then
          if (0 <? data_len)%nat
          then Ret (Err (decode_error_code (wrapping_sub 8 (byte_at frame 10) DATA_OFFSET)))
          else Ret (Err OtherError)
        else if negb (ctrl =? CTRL_READ_DATA_RESP) then Ret (Err FrameError)
        else
          let decoded := decode_data (take data_len (drop 10 frame)) in
          if (data_len <? 4)%nat then Ret (Err InvalidLength)
          else
            let data_id := DataIdentifier_from_bytes (reverse (take 4 decoded)) in
            let actual_data_len := (data_len - 4)%nat in
            let! data := copy_payload decoded actual_data_len in
            Ret (Ok (mkDl645Frame meter_addr data_id data actual_data_len))
    end.

(** * BCD values *)

(** [u32] accumulation, low nibble first. *)
Fixpoint bcd_loop (data : list Z) (value multiplier : Z) : Z :=
  match data with
  | [] => value
  | byte :: data =>
      let low := Z.land byte 0x0F in
      let high := Z.land (Z.shiftr byte 4) 0x0F in
      let value := wrapping_add 32 value (wrap 32 (low * multiplier)) in
      let multiplier := wrap 32 (multiplier * 10) in
      let value := wrapping_add 32 value (wrap 32 (high * multiplier)) in
      let multiplier := wrap 32 (multiplier * 10) in
      bcd_loop data value multiplier
  end.
Definition bcd_to_u32 (data : list Z) : Z := bcd_loop data 0 1.

(** The decimal scale factors as [f64] bits. *)
Definition f64_0_1 : Z := 0x3FB999999999999A.
Definition f64_0_01 : Z := 0x3F847AE147AE147B.
Definition f64_0_001 : Z := 0x3F50624DD2F1A9FC.
Definition f64_0_0001 : Z := 0x3F1A36E2EB1C432D.

Definition parse_scaled (n : nat) (factor : Z) (data : list Z) : Z :=
  if (length data <? n)%nat then f64_zero else f64_mul (f64_of_Z (bcd_to_u32 (take n data))) factor.
Definition parse_energy : list Z -> Z := parse_scaled 4 f64_0_01.
Definition parse_voltage : list Z -> Z := parse_scaled 2 f64_0_1.
Definition parse_current : list Z -> Z := parse_scaled 3 f64_0_001.
Definition parse_power : list Z -> Z := parse_scaled 3 f64_0_0001.
Definition parse_power_factor : list Z -> Z := parse_scaled 2 f64_0_001.

Example scale_factors :
  f64_0_1 = f64_div (f64_of_Z 1) (f64_of_Z 10) /\ f64_0_01 = f64_div (f64_of_Z 1) (f64_of_Z 100) /\
  f64_0_001 = f64_div (f64_of_Z 1) (f64_of_Z 1000) /\ f64_0_0001 = f64_div (f64_of_Z 1) (f64_of_Z 10000).
Proof. vm_compute. repeat split; reflexivity. Qed.

(** * Specification *)

Definition address_wf (a : MeterAddress) : Prop := length (ma_bytes a) = 6%nat /\ is_bytes (ma_bytes a).
Definition identifier_wf (d : DataIdentifier) : Prop := length (di_bytes d) = 4%nat /\ is_bytes (di_bytes d).

(** A frame with the given control code and (already encoded) data field. *)
Definition frame_of (a : MeterAddress) (ctrl : Z) (field : list Z) : list Z :=
  let body := [FRAME_START] ++ MeterAddress_to_wire_bytes a ++ [FRAME_START; ctrl; Z.of_nat (length field)] ++ field in
  body ++ [calculate_checksum body; FRAME_END].

Definition offset_bytes (bs : list Z) : list Z := map (fun b => wrapping_add 8 b DATA_OFFSET) bs.

(** What a meter answers for an identifier with payload [data]. *)
Definition response_frame (a : MeterAddress) (d : DataIdentifier) (data : list Z) : list Z :=
  frame_of a CTRL_READ_DATA_RESP (offset_bytes (DataIdentifier_to_wire_bytes d ++ data)).

Definition decoded_frame (a : MeterAddress) (d : DataIdentifier) (data : list Z) : Dl645Frame :=
  mkDl645Frame a d (data ++ replicate (64 - length data) 0) (length data).

(** * Lemmas: frames *)

(** A frame of at least twelve bytes, field by field. *)
Definition raw_frame (x0 : Z) (w : list Z) (x7 ctrl len : Z) (field : list Z) (cs e : Z) : list Z :=
  ([x0] ++ w ++ [x7; ctrl; len] ++ field) ++ [cs; e].

Lemma list_of_6 (w : list Z) : length w = 6%nat -> exists a b c d e f, w = [a; b; c; d; e; f].
Proof. destruct w as [|a [|b [|c [|d [|e [|f []]]]]]]; simpl; try lia. intros _. by exists a, b, c, d, e, f. Qed.

Lemma split_frame frame k : length frame = (12 + k)%nat ->
  exists x0 w x7 ctrl len field cs e, length w = 6%nat /\ length field = k /\
    frame = raw_frame x0 w x7 ctrl len field cs e.
Proof.
  intros Hlen.
  destruct frame as [|x0 [|a [|b [|c [|d [|e' [|f [|x7 [|ctrl [|len rest]]]]]]]]]]; simpl in Hlen; try lia.
  assert (Hr : length (drop k rest) = 2%nat) by (rewrite length_drop; lia).
  destruct (drop k rest) as [|cs [|e []]] eqn:Edrop; simpl in Hr; try lia.
  exists x0, [a; b; c; d; e'; f], x7, ctrl, len, (take k rest), cs, e.
  split_and!; [done | rewrite length_take; lia |]. unfold raw_frame. simpl.
  rewrite <- Edrop. by rewrite take_drop.
Qed.

Lemma raw_frame_length x0 w x7 ctrl len field cs e : length w = 6%nat ->
  length (raw_frame x0 w x7 ctrl len field cs e) = (12 + length field)%nat.
Proof. intros Hw. unfold raw_frame. rewrite !length_app. simpl. lia. Qed.

(** The decoder on a frame given field by field: the checks in order. *)
Lemma decode_raw x0 w x7 ctrl len field cs e :
  length w = 6%nat ->
  decode_response (raw_frame x0 w x7 ctrl len field cs e) =
  if (length field <? 2)%nat then Ret (Err InvalidLength)
  else if negb (x0 =? FRAME_START) || negb (x7 =? FRAME_START) then Ret (Err InvalidMarkers)
  else if negb (e =? FRAME_END) then Ret (Err InvalidMarkers)
  else if negb (cs =? calculate_checksum ([x0] ++ w ++ [x7; ctrl; len] ++ field)) then Ret (Err ChecksumError)
  else if negb (length field =? Z.to_nat len)%nat then Ret (Err InvalidLength)
  else if ctrl =? CTRL_READ_DATA_ERR then
    Ret (Err (decode_error_code (wrapping_sub 8 (nth 0 field 0) DATA_OFFSET)))
  else if negb (ctrl =? CTRL_READ_DATA_RESP) then Ret (Err FrameError)
  else if (length field <? 4)%nat then Ret (Err InvalidLength)
  else
    let! data := copy_payload (decode_data field) (length field - 4) in
    Ret (Ok (mkDl645Frame (mkMeterAddress (reverse w))
               (mkDataIdentifier (reverse (take 4 (decode_data field)))) data (length field - 4))).
Proof.
  intros Hw. unfold decode_response. rewrite raw_frame_length by done.
  set (k := length field). set (body := [x0] ++ w ++ [x7; ctrl; len] ++ field).
  assert (Hbl : length body = (10 + k)%nat) by (subst body k; rewrite !length_app; simpl; lia).
  assert (Htake : take (12 + k - 2) (raw_frame x0 w x7 ctrl len field cs e) = body).
  { unfold raw_frame. fold body. apply take_app_length'. lia. }
  assert (Hlast : byte_at (raw_frame x0 w x7 ctrl len field cs e) (12 + k - 1) = e).
  { unfold byte_at, raw_frame. fold body. rewrite app_nth2 by lia.
    replace (12 + k - 1 - length body)%nat with 1%nat by lia. done. }
  assert (Hcs : byte_at (raw_frame x0 w x7 ctrl len field cs e) (12 + k - 2) = cs).
  { unfold byte_at, raw_frame. fold body. rewrite app_nth2 by lia.
    replace (12 + k - 2 - length body)%nat with 0%nat by lia. done. }
  rewrite Htake, Hlast, Hcs. destruct (list_of_6 w Hw) as (a & b & c & d & e' & f & ->).
  change (byte_at (raw_frame x0 [a; b; c; d; e'; f] x7 ctrl len field cs e) 0) with x0.
  change (byte_at (raw_frame x0 [a; b; c; d; e'; f] x7 ctrl len field cs e) 7) with x7.
  change (byte_at (raw_frame x0 [a; b; c; d; e'; f] x7 ctrl len field cs e) 8) with ctrl.
  change (byte_at (raw_frame x0 [a; b; c; d; e'; f] x7 ctrl len field cs e) 9) with len.
  change (take 6 (drop 1 (raw_frame x0 [a; b; c; d; e'; f] x7 ctrl len field cs e))) with [a; b; c; d; e'; f].
  change (drop 10 (raw_frame x0 [a; b; c; d; e'; f] x7 ctrl len field cs e)) with (field ++ [cs; e]).
  change (byte_at (raw_frame x0 [a; b; c; d; e'; f] x7 ctrl len field cs e) 10) with (nth 0 (field ++ [cs; e]) 0).
  replace (12 + k <? 14)%nat with (k <? 2)%nat by (bool_cases; done || lia).
  destruct (Nat.ltb_spec k 2) as [| Hk2]; [done |].
  destruct (_ || _); [done |]. destruct (negb (e =? FRAME_END)); [done |]. destruct (negb (cs =? _)); [done |].
  change (MeterAddress_from_wire_bytes [a; b; c; d; e'; f]) with
    (@Ok MeterAddress Dl645Error (mkMeterAddress (reverse [a; b; c; d; e'; f]))). cbv iota beta.
  replace (12 + k =? 10 + Z.to_nat len + 2)%nat with (k =? Z.to_nat len)%nat by (bool_cases; done || lia).
  destruct (Nat.eqb_spec k (Z.to_nat len)) as [Hk |]; [|done]. cbn [negb].
  rewrite <- Hk, (proj2 (Nat.ltb_lt 0 k)) by lia. rewrite app_nth1 by (subst k; lia).
  rewrite take_app_length' by done. done.
Qed.

Lemma frame_of_raw a ctrl field : address_wf a ->
  frame_of a ctrl field =
  raw_frame FRAME_START (MeterAddress_to_wire_bytes a) FRAME_START ctrl (Z.of_nat (length field)) field
    (calculate_checksum ([FRAME_START] ++ MeterAddress_to_wire_bytes a ++
       [FRAME_START; ctrl; Z.of_nat (length field)] ++ field)) FRAME_END.
Proof. done. Qed.

(** ** The +0x33 offset *)
Lemma offset_roundtrip b : is_uint 8 b -> wrapping_sub 8 (wrapping_add 8 b DATA_OFFSET) DATA_OFFSET = b.
Proof.
  intros Hb. unfold wrapping_sub, wrapping_add, wrap, DATA_OFFSET, is_uint in *.
  rewrite Zminus_mod_idemp_l. rewrite Z.add_simpl_r. by apply Z.mod_small.
Qed.

Lemma offset_roundtrip' b : is_uint 8 b -> wrapping_add 8 (wrapping_sub 8 b DATA_OFFSET) DATA_OFFSET = b.
Proof.
  intros Hb. unfold wrapping_sub, wrapping_add, wrap, DATA_OFFSET, is_uint in *.
  rewrite Zplus_mod_idemp_l. rewrite Z.sub_add. by apply Z.mod_small.
Qed.

Lemma map_id_on (f : Z -> Z) bs : Forall (fun b => f b = b) bs -> map f bs = bs.
Proof. induction 1; simpl; congruence. Qed.

Lemma decode_offset_bytes bs : is_bytes bs ->
  map (fun b => wrapping_sub 8 b DATA_OFFSET) (offset_bytes bs) = bs.
Proof.
  intros Hb. unfold offset_bytes. rewrite map_map. apply map_id_on.
  eapply Forall_impl; [exact Hb |]. apply offset_roundtrip.
Qed.

Lemma offset_decode_bytes bs : is_bytes bs ->
  offset_bytes (map (fun b => wrapping_sub 8 b DATA_OFFSET) bs) = bs.
Proof.
  intros Hb. unfold offset_bytes. rewrite map_map. apply map_id_on.
  eapply Forall_impl; [exact Hb |]. apply offset_roundtrip'.
Qed.

Lemma fill64_short bs : (length bs <= 64)%nat -> fill64 bs = bs ++ replicate (64 - length bs) 0.
Proof. intros H. unfold fill64. by rewrite take_ge. Qed.

Lemma wrapping_sub_bytes bs : is_bytes (map (fun b => wrapping_sub 8 b DATA_OFFSET) bs).
Proof.
  apply Forall_forall. intros x (b & -> & _)%list_elem_of_fmap. apply wrap_uint. lia.
Qed.

Lemma reverse_length_6 a : address_wf a -> length (MeterAddress_to_wire_bytes a) = 6%nat.
Proof. intros [H _]. unfold MeterAddress_to_wire_bytes. by rewrite length_reverse. Qed.

(** What the decoder returns for a response with a payload of [n] bytes. *)
Lemma decode_response_frame a d data :
  address_wf a -> identifier_wf d -> is_bytes data -> (length data <= 251)%nat ->
  decode_response (response_frame a d data) =
  if (60 <? length data)%nat then Panic else Ret (Ok (decoded_frame a d data)).
Proof.
  intros Ha [Hd Hdb] Hdata Hlen. unfold response_frame. rewrite frame_of_raw, decode_raw by (done || by apply reverse_length_6).
  set (wire := DataIdentifier_to_wire_bytes d).
  assert (Hwl : length wire = 4%nat) by (unfold wire, DataIdentifier_to_wire_bytes; by rewrite length_reverse).
  assert (Hfl : length (offset_bytes (wire ++ data)) = (4 + length data)%nat)
    by (unfold offset_bytes; rewrite length_map, length_app; lia).
  rewrite Hfl, !Z.eqb_refl, Nat2Z.id, Nat.eqb_refl. cbn [negb orb].
  rewrite !(proj2 (Nat.ltb_ge _ _)) by lia.
  change (CTRL_READ_DATA_RESP =? CTRL_READ_DATA_ERR) with false. cbv iota.
  replace (4 + length data - 4)%nat with (length data) by lia.
  unfold copy_payload. destruct (Nat.ltb_spec 60 (length data)) as [Hbig | Hsmall].
  - rewrite (proj2 (Nat.ltb_lt 64 (4 + length data))) by lia. by rewrite orb_true_r.
  - rewrite !(proj2 (Nat.ltb_ge _ _)) by lia. cbn [orb outcome_bind].
    assert (Hbytes : is_bytes (wire ++ data)).
    { apply is_bytes_app. split; [|done]. unfold wire, DataIdentifier_to_wire_bytes. by apply Forall_reverse. }
    unfold decode_data. rewrite decode_offset_bytes by done.
    rewrite fill64_short by (rewrite length_app; lia). rewrite <- !app_assoc.
    rewrite take_app_length', drop_app_length', take_app_length' by done.
    unfold decoded_frame. do 3 f_equal.
    + unfold MeterAddress_to_wire_bytes. rewrite reverse_involutive. by destruct a.
    + unfold wire, DataIdentifier_to_wire_bytes. rewrite reverse_involutive. by destruct d.
Qed.

(** * Theorems *)

(** Every response of up to 60 payload bytes that a meter sends is decoded to
    exactly its address, data identifier and payload. *)
Theorem decode_response_roundtrip a d data :
  address_wf a -> identifier_wf d -> is_bytes data -> (length data <= 60)%nat ->
  decode_response (response_frame a d data) = Ret (Ok (decoded_frame a d data)).
Proof.
  intros Ha Hd Hb Hl. rewrite decode_response_frame by (done || lia).
  by rewrite (proj2 (Nat.ltb_ge _ _)) by lia.
Qed.

(** A longer payload, which the one-byte length field allows, makes the decoder
    index its 64-byte buffers out of range: any frame with 61 to 251 payload bytes
    and a valid checksum panics. *)
Theorem decode_response_panics a d data :
  address_wf a -> identifier_wf d -> is_bytes data -> (60 < length data <= 251)%nat ->
  decode_response (response_frame a d data) = Panic.
Proof.
  intros Ha Hd Hb Hl. rewrite decode_response_frame by (done || lia).
  by rewrite (proj2 (Nat.ltb_lt _ _)) by lia.
Qed.

(** The decoder accepts nothing else: a byte string decoded without error is
    the response frame of the decoded address, identifier and payload, checksum and
    length included. *)
Theorem decode_response_sound frame f :
  is_bytes frame -> decode_response frame = Ret (Ok f) ->
  exists a d data, address_wf a /\ identifier_wf d /\ is_bytes data /\ (length data <= 60)%nat /\
    frame = response_frame a d data /\ f = decoded_frame a d data.
Proof.
  intros Hb Hdec. destruct (decide (length frame < 12)%nat) as [Hs | Hl].
  { unfold decode_response in Hdec. by rewrite (proj2 (Nat.ltb_lt _ _)) in Hdec by lia. }
  destruct (split_frame frame (length frame - 12)) as (x0 & w & x7 & ctrl & len & field & cs & en & Hw & Hf & ->); [lia |].
  unfold raw_frame in Hb. rewrite !is_bytes_app in Hb. destruct Hb as ((_ & Hwb & Hhb & Hfb) & _).
  rewrite decode_raw in Hdec by done. clear Hf Hl.
  destruct (Nat.ltb_spec (length field) 2); [done |].
  destruct (Z.eqb_spec x0 FRAME_START) as [-> |]; [|done]. destruct (Z.eqb_spec x7 FRAME_START) as [-> |]; [|done].
  cbn [negb orb] in Hdec. destruct (Z.eqb_spec en FRAME_END) as [Hen |]; [|done]. cbn [negb] in Hdec.
  destruct (Z.eqb_spec cs (calculate_checksum ([FRAME_START] ++ w ++ [FRAME_START; ctrl; len] ++ field))) as [-> |]; [|done].
  cbn [negb] in Hdec. destruct (Nat.eqb_spec (length field) (Z.to_nat len)) as [Hlen |]; [|done]. cbn [negb] in Hdec.
  destruct (ctrl =? CTRL_READ_DATA_ERR); [done |].
  destruct (Z.eqb_spec ctrl CTRL_READ_DATA_RESP) as [-> |]; [|done]. cbn [negb] in Hdec.
  destruct (Nat.ltb_spec (length field) 4); [done |]. unfold copy_payload in Hdec.
  destruct (Nat.ltb_spec 64 (length field - 4)); [done |]. cbn [orb] in Hdec.
  destruct (Nat.ltb_spec 64 (4 + (length field - 4))); [done |]. cbn [outcome_bind] in Hdec.
  set (dec := map (fun b => wrapping_sub 8 b DATA_OFFSET) field).
  assert (Hdl : length dec = length field) by (subst dec; apply length_map).
  assert (Hdb : is_bytes dec) by apply wrapping_sub_bytes.
  assert (Hfill : decode_data field = dec ++ replicate (64 - length dec) 0) by (apply fill64_short; lia).
  assert (Hsplit : take 4 dec ++ drop 4 dec = dec) by apply take_drop.
  exists (mkMeterAddress (reverse w)), (mkDataIdentifier (reverse (take 4 dec))), (drop 4 dec).
  split_and!.
  - split; cbn; [by rewrite length_reverse | by apply Forall_reverse].
  - split; cbn; [rewrite length_reverse, length_take; lia | by apply Forall_reverse, Forall_take].
  - by apply Forall_drop.
  - rewrite length_drop. lia.
  - unfold response_frame, DataIdentifier_to_wire_bytes. cbn [di_bytes]. rewrite reverse_involutive, Hsplit.
    subst dec. rewrite offset_decode_bytes by done. unfold raw_frame, frame_of, MeterAddress_to_wire_bytes.
    cbn [ma_bytes]. rewrite reverse_involutive, Hen. replace (Z.of_nat (length field)) with len; [done |].
    apply Forall_inv_tail, Forall_inv_tail, Forall_inv in Hhb. solve_uint.
  - injection Hdec as <-. rewrite Hfill. unfold decoded_frame.
    rewrite take_app_le, drop_app_le, take_app_length' by (rewrite ?length_drop; lia).
    rewrite length_drop, Hdl. done.
Qed.

(** The error branch never sees a standard error response: DL/T 645 error
    replies carry one error byte, 13 bytes in all, and every frame shorter than 14
    bytes is refused as [InvalidLength] before the control code is read. *)
Theorem error_response_not_decoded a code :
  address_wf a ->
  decode_response (frame_of a CTRL_READ_DATA_ERR (offset_bytes [code])) = Ret (Err InvalidLength).
Proof.
  intros Ha. rewrite frame_of_raw, decode_raw by (done || by apply reverse_length_6). reflexivity.
Qed.

(** The read request is a well-formed 16-byte frame: markers, reversed address,
    control code, length, offset identifier, checksum and end marker, in a 256-byte
    buffer. *)
Theorem read_request_well_formed a d :
  address_wf a -> identifier_wf d ->
  let '(buf, n) := encode_read_request a d in
  n = 16%nat /\ length buf = 256%nat /\
  take n buf = frame_of a CTRL_READ_DATA (offset_bytes (DataIdentifier_to_wire_bytes d)).
Proof.
  intros Ha [Hd _]. unfold encode_read_request. pose proof (reverse_length_6 a Ha) as Hal.
  assert (Hdl : length (DataIdentifier_to_wire_bytes d) = 4%nat)
    by (unfold DataIdentifier_to_wire_bytes; by rewrite length_reverse).
  unfold frame_of. fold (offset_bytes (DataIdentifier_to_wire_bytes d)).
  assert (Hol : length (offset_bytes (DataIdentifier_to_wire_bytes d)) = 4%nat) by (unfold offset_bytes; by rewrite length_map).
  rewrite Hol. change (Z.of_nat 4) with 4.
  split_and!.
  - rewrite !length_app, Hal, Hol. reflexivity.
  - rewrite length_app, length_replicate. rewrite !length_app, Hal, Hol. reflexivity.
  - by apply take_app_length'.
Qed.

(** ** Addresses as text *)
Lemma nibble_roundtrip n : 0 <= n < 16 -> hex_char_to_nibble (nibble_to_hex_char n) = Some n.
Proof.
  intros Hn. unfold hex_char_to_nibble, nibble_to_hex_char.
  replace (Z.land n 15) with n by (symmetry; change 15 with (Z.ones 4); rewrite Z.land_ones by lia; apply Z.mod_small; lia).
  destruct (Z.leb_spec n 9); bool_cases; cbn [andb]; f_equal; lia.
Qed.

Lemma byte_nibbles b : is_uint 8 b ->
  0 <= Z.shiftr b 4 < 16 /\ 0 <= Z.land b 15 < 16 /\
  Z.lor (wrap 8 (Z.shiftl (Z.shiftr b 4) 4)) (Z.land b 15) = b.
Proof.
  intros Hb. unfold is_uint in Hb. change 15 with (Z.ones 4). rewrite Z.land_ones, Z.shiftr_div_pow2 by lia.
  pose proof (Z.div_mod b (2 ^ 4)). pose proof (Z.mod_pos_bound b (2 ^ 4)).
  assert (Hd : 0 <= b / 2 ^ 4 < 16) by (split; [apply Z.div_pos; lia | apply Z.div_lt_upper_bound; lia]).
  split; [done |]. split; [lia |]. rewrite Z.shiftl_mul_pow2 by lia. unfold wrap. rewrite Z.mod_small by lia.
  assert (Hland : Z.land (b / 2 ^ 4 * 2 ^ 4) (b mod 2 ^ 4) = 0).
  { apply Z.bits_inj'. intros n Hn. rewrite Z.land_spec, Z.bits_0.
    destruct (Z.lt_ge_cases n 4); [by rewrite Z.mul_pow2_bits_low by lia |].
    rewrite Z.mod_pow2_bits_high by lia. apply andb_false_r. }
  rewrite <- Z.lxor_lor, <- Z.add_nocarry_lxor by done. lia.
Qed.

Lemma parse_hex_display e bs : is_bytes bs -> parse_hex_pairs e (concat (map hex_pair bs)) = Ok bs.
Proof.
  induction 1 as [|b bs Hb _ IH]; [done |]. cbn [map concat hex_pair app parse_hex_pairs].
  destruct (byte_nibbles b Hb) as (H1 & H2 & H3).
  rewrite !nibble_roundtrip by done. cbn [ok_or result_bind]. rewrite IH. cbn [result_bind]. by rewrite H3.
Qed.

Lemma length_hex_display bs : length (concat (map hex_pair bs)) = (2 * length bs)%nat.
Proof. induction bs; cbn; lia. Qed.

(** Meter addresses and data identifiers survive the text and the wire: parsing
    the displayed form gives the value back, and so does reading the reversed wire
    bytes. *)
Theorem address_roundtrip :
  (forall a, address_wf a -> MeterAddress_parse (MeterAddress_display a) = Ok a /\
     MeterAddress_from_wire_bytes (MeterAddress_to_wire_bytes a) = Ok a) /\
  (forall d, identifier_wf d -> DataIdentifier_from_hex_str (DataIdentifier_to_hex_string d) = Ok d) /\
  (forall v, is_uint 32 v -> from_be_bytes (di_bytes (DataIdentifier_from_u32 v)) = v).
Proof.
  split; [|split].
  - intros a Ha. pose proof Ha as [Hl Hb]. split.
    + unfold MeterAddress_parse, MeterAddress_display. rewrite length_hex_display, Hl. cbn [Nat.eqb Nat.mul Nat.add negb].
      rewrite parse_hex_display by done. by destruct a.
    + unfold MeterAddress_from_wire_bytes. rewrite reverse_length_6 by done. cbn [Nat.ltb Nat.leb].
      rewrite take_ge by (rewrite reverse_length_6 by done; lia).
      unfold MeterAddress_to_wire_bytes. rewrite reverse_involutive. by destruct a.
  - intros d [Hl Hb]. unfold DataIdentifier_from_hex_str, DataIdentifier_to_hex_string.
    rewrite length_hex_display, Hl. cbn [Nat.eqb Nat.mul Nat.add negb]. rewrite parse_hex_display by done. by destruct d.
  - intros v Hv. unfold DataIdentifier_from_u32. cbn [di_bytes]. rewrite from_to_be_bytes. by apply wrap_small.
Qed.

(** ** BCD *)

(** The decimal number a digit string denotes, two digits per byte, low byte first. *)
Fixpoint bcd_value (data : list Z) : Z :=
  match data with
  | [] => 0
  | b :: data => Z.land b 15 + 10 * Z.land (Z.shiftr b 4) 15 + 100 * bcd_value data
  end.

Fixpoint to_bcd (k : nat) (n : Z) : list Z :=
  match k with
  | O => []
  | S k => (n mod 10 + 16 * (n / 10 mod 10)) :: to_bcd k (n / 100)
  end.

Lemma nibble_range z : 0 <= Z.land z 15 < 16.
Proof. change 15 with (Z.ones 4). rewrite Z.land_ones by lia. apply Z.mod_pos_bound. lia. Qed.

Lemma bcd_value_range data : 0 <= bcd_value data <= 165 * foldr (fun _ acc => 1 + 100 * acc) 0 data.
Proof.
  induction data as [|b data IH]; cbn [bcd_value foldr]; [lia |].
  pose proof (nibble_range b). pose proof (nibble_range (Z.shiftr b 4)). lia.
Qed.

(** The loop computes the exact number as long as the digits still fit [u32]. *)
Lemma bcd_loop_exact data : forall value mult,
  0 <= value -> 0 < mult ->
  value + mult * bcd_value data < 2 ^ 32 -> mult * 100 ^ Z.of_nat (length data) < 2 ^ 32 ->
  bcd_loop data value mult = value + mult * bcd_value data.
Proof.
  induction data as [|b data IH]; intros value mult Hv Hm Hb Hp; cbn [bcd_loop bcd_value] in *; [lia |].
  pose proof (nibble_range b). pose proof (nibble_range (Z.shiftr b 4)). pose proof (bcd_value_range data).
  cbn [length] in Hp. rewrite Nat2Z.inj_succ, Z.pow_succ_r in Hp by lia.
  assert (H100 : 0 < 100 ^ Z.of_nat (length data)) by (apply Z.pow_pos_nonneg; lia).
  set (lo := Z.land b 15) in *. set (hi := Z.land (Z.shiftr b 4) 15) in *.
  assert (Hhi : 0 <= hi * mult /\ 0 <= lo * mult /\ 0 <= mult * bcd_value data) by nia.
  unfold wrapping_add. assert (Hm10 : wrap 32 (mult * 10) = mult * 10) by (apply wrap_small; unfold is_uint; nia).
  rewrite Hm10. assert (Hm100 : wrap 32 (mult * 10 * 10) = mult * 100) by (rewrite <- Z.mul_assoc; apply wrap_small; unfold is_uint; nia).
  rewrite Hm100. assert (Hlo : wrap 32 (lo * mult) = lo * mult) by (apply wrap_small; unfold is_uint; nia).
  assert (Hh : wrap 32 (hi * (mult * 10)) = hi * mult * 10) by (rewrite Z.mul_assoc; apply wrap_small; unfold is_uint; nia).
  rewrite Hlo, Hh.
  assert (Hv1 : wrap 32 (value + lo * mult) = value + lo * mult) by (apply wrap_small; unfold is_uint; nia).
  rewrite Hv1.
  assert (Hv2 : wrap 32 (value + lo * mult + hi * mult * 10) = value + lo * mult + hi * mult * 10)
    by (apply wrap_small; unfold is_uint; nia).
  rewrite Hv2. rewrite IH; [lia | nia | lia | nia | nia].
Qed.

Lemma bcd_exact data : (length data <= 4)%nat -> bcd_to_u32 data = bcd_value data.
Proof.
  intros Hl. unfold bcd_to_u32. rewrite bcd_loop_exact; try lia.
  - assert (Hr : foldr (fun _ acc => 1 + 100 * acc) 0 data <= 1010101)
      by (destruct data as [|? [|? [|? [|? [|]]]]]; cbn in *; lia).
    pose proof (bcd_value_range data). change (2 ^ 32) with 4294967296. lia.
  - destruct data as [|? [|? [|? [|? [|]]]]]; cbn [length] in *; lia || (cbn; lia).
Qed.

Lemma to_bcd_value k : forall n, 0 <= n < 100 ^ Z.of_nat k -> bcd_value (to_bcd k n) = n.
Proof.
  induction k as [|k IH]; intros n Hn; cbn [to_bcd bcd_value]; [cbn in Hn; lia |].
  rewrite Nat2Z.inj_succ, Z.pow_succ_r in Hn by lia.
  assert (Hq : 0 <= n / 100 < 100 ^ Z.of_nat k) by (split; [apply Z.div_pos; lia | apply Z.div_lt_upper_bound; lia]).
  rewrite IH by done. pose proof (Z.mod_pos_bound n 10). pose proof (Z.mod_pos_bound (n / 10) 10).
  change 15 with (Z.ones 4). rewrite !Z.land_ones, Z.shiftr_div_pow2 by lia. change (2 ^ 4) with 16.
  rewrite (Z.mul_comm 16), Z.mod_add, Z.div_add, (Z.div_small (n mod 10)), Z.add_0_l by lia.
  rewrite (Z.mod_small (n mod 10) 16), (Z.mod_small ((n / 10) mod 10) 16) by lia.
  pose proof (Z.div_mod n 10). pose proof (Z.div_mod (n / 10) 10).
  replace (n / 100) with (n / 10 / 10) by (rewrite Z.div_div by lia; done). lia.
Qed.

(** BCD decoding is exact on the widths the meter uses: for up to four bytes
    the result is the decimal number the digits denote, without overflow, so every
    number below 100^k written in k BCD bytes is read back. *)
Theorem bcd_roundtrip k n : (k <= 4)%nat -> 0 <= n < 100 ^ Z.of_nat k -> bcd_to_u32 (to_bcd k n) = n.
Proof.
  intros Hk Hn. rewrite bcd_exact; [by apply to_bcd_value |].
  assert (Hl : forall j m, length (to_bcd j m) = j) by (induction j; intros; cbn; auto). rewrite Hl. done.
Qed.

(** * Witnesses *)
Definition sample_address : MeterAddress := mkMeterAddress [0x12; 0x34; 0x56; 0x78; 0x90; 0x12].
Definition sample_identifier : DataIdentifier := mkDataIdentifier [0x00; 0x01; 0x00; 0x00].

Lemma sample_address_wf : address_wf sample_address.
Proof. split; [reflexivity | repeat constructor; unfold is_uint; lia]. Qed.
Lemma sample_identifier_wf : identifier_wf sample_identifier.
Proof. split; [reflexivity | repeat constructor; unfold is_uint; lia]. Qed.

Lemma decode_response_roundtrip_witness :
  decode_response (response_frame sample_address sample_identifier [0x78; 0x56; 0x34; 0x12]) =
  Ret (Ok (decoded_frame sample_address sample_identifier [0x78; 0x56; 0x34; 0x12])).
Proof.
  apply decode_response_roundtrip; [apply sample_address_wf | apply sample_identifier_wf | | cbn; lia].
  repeat constructor; unfold is_uint; lia.
Defined.

Lemma decode_response_panics_witness :
  decode_response (response_frame sample_address sample_identifier (replicate 61 0)) = Panic.
Proof.
  apply decode_response_panics; [apply sample_address_wf | apply sample_identifier_wf | |].
  - apply Forall_replicate. unfold is_uint; lia.
  - rewrite length_replicate. lia.
Defined.

Lemma decode_response_sound_witness : exists a d data,
  response_frame sample_address sample_identifier [1; 2] = response_frame a d data /\ (length data <= 60)%nat.
Proof.
  destruct (decode_response_sound (response_frame sample_address sample_identifier [1; 2])
    (decoded_frame sample_address sample_identifier [1; 2])) as (a & d & data & _ & _ & _ & Hl & Heq & _).
  - vm_compute. repeat constructor; discriminate.
  - vm_compute. reflexivity.
  - exists a, d, data. split; assumption.
Defined.

Lemma error_response_not_decoded_witness :
  decode_response (frame_of sample_address CTRL_READ_DATA_ERR (offset_bytes [2])) = Ret (Err InvalidLength).
Proof. apply error_response_not_decoded, sample_address_wf. Defined.

Lemma read_request_well_formed_witness :
  let '(buf, n) := encode_read_request sample_address sample_identifier in n = 16%nat.
Proof.
  pose proof (read_request_well_formed sample_address sample_identifier sample_address_wf sample_identifier_wf) as H.
  destruct (encode_read_request sample_address sample_identifier) as [buf n]. apply H.
Defined.

Lemma address_roundtrip_witness :
  MeterAddress_parse (MeterAddress_display sample_address) = Ok sample_address.
Proof. apply (proj1 address_roundtrip), sample_address_wf. Defined.

Lemma bcd_roundtrip_witness : bcd_to_u32 (to_bcd 4 12345678) = 12345678.
Proof. apply bcd_roundtrip; [lia | cbn; lia]. Defined.
