(* ===== verification/MmsTransport.v ===== *)
(** The ISO framing of IEC 61850: [services/comsrv/src/protocols/adapters/iec61850/transport.rs],
    and [String::from_utf8_lossy].

    TPKT, COTP, session and presentation headers around an MMS PDU, BER lengths and
    tagged values, and the [Framer], which cuts the TCP byte stream into PDUs and sets
    reports aside.  The socket is a script: the chunks its reads deliver, with [RIdle]
    where nothing more arrives (a deadline passes, a non-blocking read would block), and
    the outcome of each write; the frames handed to it are recorded. *)
From stdpp Require Import base numbers list strings.
From Stdlib Require Import ZArith Lia.
From S2P Require Import Prelude.
Local Open Scope Z_scope.
Set Warnings "-clear-no-such-hyp".

(** * Text *)

Definition str_bytes (s : string) : list Z := map (fun c => Z.of_nat (Ascii.nat_of_ascii c)) (String.list_ascii_of_string s).
Definition bytes_str (bs : list Z) : string := String.string_of_list_ascii (map (fun b => Ascii.ascii_of_nat (Z.to_nat b)) bs).

(** UTF-8 with the maximal invalid parts replaced by U+FFFD. *)
Definition REPLACEMENT : list Z := [0xEF; 0xBF; 0xBD].
Definition between (lo hi b : Z) : bool := (lo <=? b) && (b <=? hi).
Definition continuation (b : Z) : bool := Z.land b 192 =? 128.
Definition second_of_three (b1 b2 : Z) : bool :=
  (b1 =? 0xE0) && between 0xA0 0xBF b2 || between 0xE1 0xEC b1 && between 0x80 0xBF b2 ||
  (b1 =? 0xED) && between 0x80 0x9F b2 || between 0xEE 0xEF b1 && between 0x80 0xBF b2.
Definition second_of_four (b1 b2 : Z) : bool :=
  (b1 =? 0xF0) && between 0x90 0xBF b2 || between 0xF1 0xF3 b1 && between 0x80 0xBF b2 || (b1 =? 0xF4) && between 0x80 0x8F b2.

(** The length of the character or of the invalid part at the front, and whether it is valid. *)
Definition utf8_front (b : Z) (bs : list Z) : nat * bool :=
  let next i := default 0 (bs !! i) in
  if b <? 0x80 then (1%nat, true)
  else if between 0xC2 0xDF b then (if continuation (next 0%nat) then (2%nat, true) else (1%nat, false))
  else if between 0xE0 0xEF b then
    if second_of_three b (next 0%nat) then (if continuation (next 1%nat) then (3%nat, true) else (2%nat, false)) else (1%nat, false)
  else if between 0xF0 0xF4 b then
    if second_of_four b (next 0%nat) then
      if continuation (next 1%nat) then (if continuation (next 2%nat) then (4%nat, true) else (3%nat, false)) else (2%nat, false)
    else (1%nat, false)
  else (1%nat, false).
Fixpoint lossy_loop (fuel : nat) (bs : list Z) : list Z :=
  match fuel, bs with
  | S fuel, b :: rest =>
      let '(n, valid) := utf8_front b rest in
      (if valid then take n bs else REPLACEMENT) ++ lossy_loop fuel (drop n bs)
  | _, _ => []
  end.
Definition from_utf8_lossy (bs : list Z) : string := bytes_str (lossy_loop (length bs) bs).

(** * BER *)

Definition ber_len_size (len : nat) : nat := if (len <? 0x80)%nat then 1 else if (len <? 0x100)%nat then 2 else 3.
Definition push_ber_len (len : nat) : list Z :=
  let z := Z.of_nat len in
  if z <? 0x80 then [z] else if z <? 0x100 then [0x81; z] else [0x82; wrap 8 (Z.shiftr z 8); wrap 8 z].
Definition parse_ber_len (buf : list Z) : option (nat * nat) :=
  match buf with
  | [] => None
  | first :: rest =>
      if first <? 0x80 then Some (Z.to_nat first, 1%nat)
      else if first =? 0x81 then match rest with b :: _ => Some (Z.to_nat b, 2%nat) | [] => None end
      else if first =? 0x82 then
        match rest with b1 :: b2 :: _ => Some (Z.to_nat (Z.lor (Z.shiftl b1 8) b2), 3%nat) | _ => None end
      else None
  end.
(** The rest of the buffer and the content. *)
Definition parse_tlv (buf : list Z) (tag : Z) : option (list Z * list Z) :=
  match buf with
  | [] => None
  | t :: tail =>
      if t =? tag then
        '(len, hdr_size) ← parse_ber_len tail;
        let start := (1 + hdr_size)%nat in
        let stop := (start + len)%nat in
        if (length buf <? stop)%nat then None else Some (drop stop buf, take len (drop start buf))
      else None
  end.

(** * Data frames *)

Definition COTP_CR : Z := 0xE0.
Definition COTP_CC : Z := 0xD0.
Definition TPKT_VER : Z := 0x03.
Definition MAX_PDU_SIZE : Z := 65536.
Definition COTP_DT : list Z := [0x02; 0xF0; 0x80].
Definition SESSION_DT : list Z := [0x01; 0x00; 0x01; 0x00].
Definition MMS_CONTEXT : list Z := [0x02; 0x01; 0x03].

Definition pres_data_header (payload_len : nat) : list Z :=
  let pdv_content := (3 + ber_len_size payload_len + 1)%nat in
  let seq_len := (pdv_content + payload_len)%nat in
  let fed_len := (1 + ber_len_size seq_len + seq_len)%nat in
  [0x61] ++ push_ber_len fed_len ++ [0x30] ++ push_ber_len seq_len ++ MMS_CONTEXT ++ [0xA0] ++ push_ber_len payload_len.

Definition tpkt_header (total : nat) : list Z := let z := Z.of_nat total in [TPKT_VER; 0x00; wrap 8 (Z.shiftr z 8); wrap 8 z].
Definition wrap_data_pdu (mms_pdu : list Z) : list Z :=
  let pres_hdr := pres_data_header (length mms_pdu) in
  let total := (3 + 4 + length pres_hdr + length mms_pdu)%nat in
  tpkt_header (4 + total) ++ COTP_DT ++ SESSION_DT ++ pres_hdr ++ mms_pdu.

Fixpoint strip_prefix (prefix buf : list Z) : option (list Z) :=
  match prefix, buf with
  | [], _ => Some buf
  | p :: prefix, b :: buf => if p =? b then strip_prefix prefix buf else None
  | _ :: _, [] => None
  end.
Definition unwrap_data_pdu (cotp_payload : list Z) : option (list Z) :=
  p ← strip_prefix COTP_DT cotp_payload;
  p ← strip_prefix SESSION_DT p;
  '(_, fed_content) ← parse_tlv p 0x61;
  '(_, pdv_content) ← parse_tlv fed_content 0x30;
  p ← strip_prefix MMS_CONTEXT pdv_content;
  '(_, mms) ← parse_tlv p 0xA0;
  Some mms.

(** * Errors *)

(** [GatewayError]; the messages of protocol errors are constructors. *)
Inductive IecFault :=
| InvalidTpktVersion (b : Z)
| TpktLengthOutOfRange (n : Z)
| UnwrapFailed
| UnexpectedConfirmed
| NotConnectedError
| ExpectedCotpConfirm
| InvalidInitiateResponse
| ExpectedConfirmedResponse
| MissingInvokeId
| ExpectedReadResponse
| ExpectedAccessResults
| EmptyAccessResult
| MalformedSuccess
| UnknownAccessTag (tag : Z)
| EmptyData
| BerLengthError
| ZeroLengthInteger
| UnexpectedFloatLength (n : nat)
| UtcTimeLength (n : nat)
| UnknownDataTag (tag : Z)
| SboAccessError (code : Z)
| SboUnexpectedValue
| ExpectedWriteResponse
| WriteAccessError (code : Z)
| UnexpectedWriteTag (tag : Z)
| EmptyWriteResponse
| BooleanOnly (point_id : Z)
| UnsupportedControlModel (point_id model : Z).
Inductive IecError := GwIo | GwReadTimeout | GwWriteTimeout | GwConnectionTimeout | GwProtocol (e : IecFault).

(** * The framer *)

Definition take_buffered_tpkt (buffer : list Z) : result (list Z * option (list Z)) IecError :=
  match buffer with
  | b0 :: _ :: b2 :: b3 :: _ =>
      if negb (b0 =? TPKT_VER) then Err (GwProtocol (InvalidTpktVersion b0))
      else
        let total_len := from_be_bytes [b2; b3] in
        if negb ((4 <=? total_len) && (total_len <=? MAX_PDU_SIZE)) then Err (GwProtocol (TpktLengthOutOfRange total_len))
        else if Z.of_nat (length buffer) <? total_len then Ok (buffer, None)
        else let n := Z.to_nat total_len in Ok (drop n buffer, Some (drop 4 (take n buffer)))
  | _ => Ok (buffer, None)
  end.

(** An empty [RData] is the end of the stream. *)
Inductive ReadEvent := RData (chunk : list Z) | RIdle | RError.
Inductive SendEvent := SDone | SFailed | SStalled.

Record Framer := mkFramer {
  fr_input : list ReadEvent;
  fr_sends : list SendEvent;
  fr_written : list (list Z);
  fr_pending_reports : list (list Z);
  fr_rx_buffer : list Z;
}.
Definition Framer_new (input : list ReadEvent) (sends : list SendEvent) : Framer := mkFramer input sends [] [] [].
Definition with_rx (f : Framer) (input : list ReadEvent) (rx : list Z) : Framer :=
  mkFramer input (fr_sends f) (fr_written f) (fr_pending_reports f) rx.
Definition with_pending (f : Framer) (pending : list (list Z)) : Framer :=
  mkFramer (fr_input f) (fr_sends f) (fr_written f) pending (fr_rx_buffer f).

(** A write of a whole frame under the deadline of the request; without an entry it succeeds.
    The frame is recorded whatever becomes of it, since a part of it may have been sent. *)
Definition write_all (f : Framer) (frame : list Z) : Framer * result unit IecError :=
  (mkFramer (fr_input f) (tail (fr_sends f)) (fr_written f ++ [frame]) (fr_pending_reports f) (fr_rx_buffer f),
   match head (fr_sends f) with
   | Some SFailed => Err GwIo
   | Some SStalled => Err GwWriteTimeout
   | Some SDone | None => Ok ()
   end).
Definition Framer_send_mms (f : Framer) (mms_pdu : list Z) : Framer * result unit IecError := write_all f (wrap_data_pdu mms_pdu).
Definition Framer_send_tpkt (f : Framer) (payload : list Z) : Framer * result unit IecError :=
  write_all f (tpkt_header (4 + length payload) ++ payload).

(** * Receiving

    [recv_tpkt] under the deadline of the request: [RIdle] is the deadline. *)
Fixpoint recv_loop (input : list ReadEvent) (rx : list Z) : list ReadEvent * list Z * result (list Z) IecError :=
  match take_buffered_tpkt rx with
  | Err e => (input, rx, Err e)
  | Ok (rx', Some payload) => (input, rx', Ok payload)
  | Ok (_, None) =>
      match input with
      | [] => ([], rx, Err GwReadTimeout)
      | RIdle :: input => (input, rx, Err GwReadTimeout)
      | RError :: input | RData [] :: input => (input, rx, Err GwIo)
      | RData chunk :: input => recv_loop input (rx ++ chunk)
      end
  end.
Definition Framer_recv_tpkt (f : Framer) : Framer * result (list Z) IecError :=
  let '(input, rx, r) := recv_loop (fr_input f) (fr_rx_buffer f) in (with_rx f input rx, r).
Definition Framer_recv_mms_raw (f : Framer) : Framer * result (list Z) IecError :=
  let '(f, r) := Framer_recv_tpkt f in
  (f, let? payload := r in ok_or (unwrap_data_pdu payload) (GwProtocol UnwrapFailed)).

Definition is_report (pdu : list Z) : bool := match pdu with b :: _ => b =? 0xA3 | [] => false end.
Fixpoint recv_mms_loop (fuel : nat) (f : Framer) : Framer * option (result (list Z) IecError) :=
  match fuel with
  | O => (f, None)
  | S fuel =>
      match Framer_recv_mms_raw f with
      | (f, Err e) => (f, Some (Err e))
      | (f, Ok pdu) => if is_report pdu then recv_mms_loop fuel (with_pending f (fr_pending_reports f ++ [pdu])) else (f, Some (Ok pdu))
      end
  end.
(** Bytes that are buffered or can still be read: every frame uses up four of them. *)
Definition unread (f : Framer) : nat :=
  (length (fr_rx_buffer f) + sum_list_with (fun e => match e with RData c => length c | _ => 0 end) (fr_input f))%nat.
Definition Framer_recv_mms (f : Framer) : Framer * option (result (list Z) IecError) := recv_mms_loop (S (unread f)) f.

Definition Framer_take_pending_reports (f : Framer) : Framer * list (list Z) := (with_pending f [], fr_pending_reports f).

(** The chunks a non-blocking drain reads. *)
Fixpoint try_read_all (input : list ReadEvent) (rx : list Z) : list ReadEvent * list Z * result unit IecError :=
  match input with
  | [] => ([], rx, Ok ())
  | RIdle :: input => (input, rx, Ok ())
  | RError :: input | RData [] :: input => (input, rx, Err GwIo)
  | RData chunk :: input => try_read_all input (rx ++ chunk)
  end.
Fixpoint drain_frames (fuel : nat) (rx : list Z) (out : list (list Z)) : list Z * option (result (list (list Z)) IecError) :=
  match fuel with
  | O => (rx, None)
  | S fuel =>
      match take_buffered_tpkt rx with
      | Err e => (rx, Some (Err e))
      | Ok (rx, None) => (rx, Some (Ok out))
      | Ok (rx, Some payload) =>
          match unwrap_data_pdu payload with
          | None => (rx, Some (Err (GwProtocol UnwrapFailed)))
          | Some pdu => if is_report pdu then drain_frames fuel rx (out ++ [pdu]) else (rx, Some (Err (GwProtocol UnexpectedConfirmed)))
          end
      end
  end.
Definition Framer_drain_socket (f : Framer) : Framer * option (result (list (list Z)) IecError) :=
  let out := fr_pending_reports f in
  let f := with_pending f [] in
  match try_read_all (fr_input f) (fr_rx_buffer f) with
  | (input, rx, Err e) => (with_rx f input rx, Some (Err e))
  | (input, rx, Ok _) => let '(rx, r) := drain_frames (S (length rx)) rx out in (with_rx f input rx, r)
  end.

(** * Association *)

Definition MMS_CONNECT_PAYLOAD : list Z :=
  [0x0D; 0x95; 0x05; 0x06; 0x13; 0x01; 0x00; 0x16; 0x01; 0x02; 0x14; 0x02; 0x00; 0x02; 0x33; 0x02; 0x00; 0x01;
   0x34; 0x02; 0x00; 0x01; 0xC1; 0x7F;
   0x31; 0x7D; 0xA0; 0x03; 0x80; 0x01; 0x01; 0xA2; 0x76; 0x81; 0x04; 0x00; 0x00; 0x00; 0x01; 0x82; 0x04; 0x00; 0x00; 0x00; 0x01;
   0xA4; 0x23; 0x30; 0x0F; 0x02; 0x01; 0x01; 0x06; 0x04; 0x52; 0x01; 0x00; 0x01; 0x30; 0x04; 0x06; 0x02; 0x51; 0x01;
   0x30; 0x10; 0x02; 0x01; 0x03; 0x06; 0x05; 0x28; 0xCA; 0x22; 0x02; 0x01; 0x30; 0x04; 0x06; 0x02; 0x51; 0x01;
   0x61; 0x43; 0x30; 0x41; 0x02; 0x01; 0x03; 0xA0; 0x3C;
   0x60; 0x3A; 0xA1; 0x07; 0x06; 0x05; 0x28; 0xCA; 0x22; 0x02; 0x03; 0xBE; 0x2F; 0x28; 0x2D; 0x02; 0x01; 0x03; 0xA0; 0x28;
   0xA8; 0x26; 0x80; 0x03; 0x00; 0xFD; 0xE8; 0x81; 0x01; 0x05; 0x82; 0x01; 0x05; 0x83; 0x01; 0x0A;
   0xA4; 0x16; 0x80; 0x01; 0x01; 0x81; 0x03; 0x05; 0xF1; 0x00;
   0x82; 0x0C; 0x03; 0xEE; 0x1C; 0x00; 0x00; 0x04; 0x08; 0x00; 0x00; 0x79; 0xEF; 0x18].
Definition COTP_CR_PAYLOAD : list Z :=
  [0x11; COTP_CR; 0x00; 0x00; 0x00; 0x01; 0x00; 0xC0; 0x01; 0x0A; 0xC1; 0x02; 0x00; 0x01; 0xC2; 0x02; 0x00; 0x01].

Definition Framer_handshake_cotp (f : Framer) : Framer * result unit IecError :=
  match Framer_send_tpkt f COTP_CR_PAYLOAD with
  | (f, Err e) => (f, Err e)
  | (f, Ok _) =>
      let '(f, r) := Framer_recv_tpkt f in
      (f, let? cc_buf := r in
          match cc_buf with
          | _ :: b :: _ => if b =? COTP_CC then Ok () else Err (GwProtocol ExpectedCotpConfirm)
          | _ => Err (GwProtocol ExpectedCotpConfirm)
          end)
  end.
Definition Framer_handshake_mms (f : Framer) : Framer * result unit IecError :=
  match Framer_send_tpkt f (COTP_DT ++ MMS_CONNECT_PAYLOAD) with
  | (f, Err e) => (f, Err e)
  | (f, Ok _) =>
      let '(f, r) := Framer_recv_tpkt f in
      (f, let? resp := r in
          match resp with
          | b0 :: b1 :: _ :: _ => if (b0 =? 0x02) && (b1 =? 0xF0) then Ok () else Err (GwProtocol InvalidInitiateResponse)
          | _ => Err (GwProtocol InvalidInitiateResponse)
          end)
  end.

(** * Lengths and tagged values *)

Lemma length_push_ber_len n : length (push_ber_len n) = ber_len_size n.
Proof. unfold push_ber_len, ber_len_size. repeat case_match; bool_hyps; try done; lia. Qed.

Lemma parse_push_ber_len n rest :
  Z.of_nat n < 65536 -> parse_ber_len (push_ber_len n ++ rest) = Some (n, ber_len_size n).
Proof.
  intros Hn. unfold push_ber_len, ber_len_size, parse_ber_len.
  repeat (case_match; bool_hyps); simplify_eq/=; bool_hyps; try lia; rewrite ?Nat2Z.id; try done.
  rewrite lor_shiftl_add, Z.shiftr_div_pow2 by (try apply wrap_uint; lia).
  unfold wrap. do 2 f_equal. change (2 ^ 8) with 256. Z.to_euclidean_division_equations; lia.
Qed.

(** A BER tagged value with its minimal length. *)
Definition tlv (tag : Z) (content : list Z) : list Z := tag :: push_ber_len (length content) ++ content.
Definition tlv_size (n : nat) : nat := (1 + ber_len_size n + n)%nat.

Lemma length_tlv tag c : length (tlv tag c) = tlv_size (length c).
Proof. unfold tlv, tlv_size. simpl. rewrite length_app, length_push_ber_len. lia. Qed.

Lemma parse_tlv_tlv tag c rest :
  Z.of_nat (length c) < 65536 -> parse_tlv (tlv tag c ++ rest) tag = Some (rest, c).
Proof.
  intros Hc. unfold tlv, parse_tlv. cbn [app]. rewrite Z.eqb_refl, <- app_assoc, parse_push_ber_len by done. cbn [mbind option_bind].
  rewrite (proj2 (Nat.ltb_ge _ _)) by (simpl; rewrite !length_app, length_push_ber_len; lia).
  replace (1 + ber_len_size (length c) + length c)%nat with (S (length (push_ber_len (length c)) + length c))
    by (rewrite length_push_ber_len; lia).
  cbn [drop Nat.add]. rewrite <- length_push_ber_len, drop_app_length, take_app_length.
  by rewrite <- drop_drop, drop_app_length, drop_app_length.
Qed.
Lemma parse_tlv_alone tag c : Z.of_nat (length c) < 65536 -> parse_tlv (tlv tag c) tag = Some ([], c).
Proof. intros Hc. rewrite <- (app_nil_r (tlv tag c)). by apply parse_tlv_tlv. Qed.

Lemma strip_prefix_app p rest : strip_prefix p (p ++ rest) = Some rest.
Proof. induction p as [|x p IH]; [done|]. cbn. by rewrite Z.eqb_refl. Qed.

#[export] Hint Rewrite length_push_ber_len length_tlv : ems.

(** * Frames *)

Definition tpkt_frame (payload : list Z) : list Z := tpkt_header (4 + length payload) ++ payload.
Definition data_payload (m : list Z) : list Z := COTP_DT ++ SESSION_DT ++ tlv 0x61 (tlv 0x30 (MMS_CONTEXT ++ tlv 0xA0 m)).
(** The largest PDU whose frame length fits the 16-bit field of TPKT. *)
Definition MAX_MMS_PDU : Z := 65509.
Definition fits_frame (m : list Z) : Prop := Z.of_nat (length m) <= MAX_MMS_PDU.

Lemma ber_len_size_max n : (1 <= ber_len_size n <= 3)%nat.
Proof. unfold ber_len_size. repeat case_match; lia. Qed.

Lemma length_data_payload m : (length m <= length (data_payload m) <= 22 + length m)%nat.
Proof.
  unfold data_payload. rewrite !length_app, !length_tlv. unfold tlv_size. cbn [length COTP_DT SESSION_DT].
  rewrite !length_app, !length_tlv. unfold tlv_size. cbn [length MMS_CONTEXT].
  pose proof (ber_len_size_max (length m)). pose proof (ber_len_size_max (3 + (1 + ber_len_size (length m) + length m))).
  match goal with |- context [ber_len_size (1 + ?x + ?y)] => pose proof (ber_len_size_max (1 + x + y)) end. lia.
Qed.

Lemma wrap_data_pdu_frame m : wrap_data_pdu m = tpkt_frame (data_payload m).
Proof.
  unfold wrap_data_pdu, tpkt_frame, data_payload, pres_data_header.
  set (c := MMS_CONTEXT ++ tlv 0xA0 m). set (s := tlv 0x30 c).
  assert (Hc : length c = (3 + ber_len_size (length m) + 1 + length m)%nat)
    by (unfold c; rewrite length_app, length_tlv; unfold tlv_size; simpl; lia).
  assert (Hs : length s = (1 + ber_len_size (length c) + length c)%nat) by apply length_tlv.
  rewrite <- Hc, <- Hs. f_equal.
  - f_equal. rewrite !length_app, (length_tlv 0x61 s). unfold tlv_size. rewrite Hs, Hc, !length_push_ber_len. simpl. lia.
  - change (tlv 0x61 s) with (0x61 :: push_ber_len (length s) ++ 0x30 :: push_ber_len (length c) ++ MMS_CONTEXT ++ tlv 0xA0 m).
    unfold tlv. cbn [app COTP_DT SESSION_DT MMS_CONTEXT]. rewrite <- !app_assoc. cbn [app]. by rewrite <- !app_assoc.
Qed.

(** Unwrapping inverts wrapping, for every PDU that fits a frame. *)
Lemma unwrap_data_payload m : fits_frame m -> unwrap_data_pdu (data_payload m) = Some m.
Proof.
  intros Hm. unfold fits_frame, MAX_MMS_PDU in Hm. unfold unwrap_data_pdu, data_payload.
  pose proof (length_data_payload m) as [_ Hp]. unfold data_payload in Hp. rewrite !length_app, length_tlv in Hp. unfold tlv_size in Hp.
  pose proof (length_tlv 0x30 (MMS_CONTEXT ++ tlv 0xA0 m)) as H30. unfold tlv_size in H30.
  rewrite strip_prefix_app. cbn [mbind option_bind]. rewrite strip_prefix_app. cbn [mbind option_bind].
  rewrite parse_tlv_alone by lia. cbn [mbind option_bind]. rewrite parse_tlv_alone by lia. cbn [mbind option_bind].
  rewrite strip_prefix_app. cbn [mbind option_bind]. rewrite parse_tlv_alone by lia. done.
Qed.

Lemma tpkt_header_be n : Z.of_nat n < 65536 -> exists b2 b3, tpkt_header n = [TPKT_VER; 0; b2; b3] /\ from_be_bytes [b2; b3] = Z.of_nat n.
Proof.
  intros Hn. do 2 eexists. split; [reflexivity|]. rewrite Z.shiftr_div_pow2 by lia. unfold from_be_bytes, wrap. cbn -[Z.mul Z.add Z.pow].
  change (2 ^ 8) with 256. Z.to_euclidean_division_equations; lia.
Qed.

Definition fits_tpkt (p : list Z) : Prop := Z.of_nat (4 + length p) < 65536.
Lemma take_tpkt_complete p rest :
  fits_tpkt p -> take_buffered_tpkt (tpkt_frame p ++ rest) = Ok (rest, Some p).
Proof.
  intros Hp. unfold tpkt_frame. destruct (tpkt_header_be _ Hp) as (b2 & b3 & -> & Hlen).
  unfold take_buffered_tpkt. cbn [app]. rewrite Z.eqb_refl, Hlen. unfold fits_tpkt, MAX_PDU_SIZE in *. cbn [negb].
  rewrite (proj2 (Z.leb_le 4 _)), (proj2 (Z.leb_le _ 65536)) by lia. cbn [negb andb].
  rewrite (proj2 (Z.ltb_ge _ _)) by (cbn [length]; rewrite length_app; lia).
  rewrite Nat2Z.id. cbn [Nat.add take drop]. by rewrite drop_app_length, take_app_length.
Qed.
Lemma take_tpkt_partial p buf rest :
  fits_tpkt p -> tpkt_frame p = buf ++ rest -> rest <> [] -> take_buffered_tpkt buf = Ok (buf, None).
Proof.
  intros Hp Heq Hrest. assert (Hlen : (length buf < 4 + length p)%nat).
  { apply (f_equal length) in Heq. rewrite length_app in Heq. unfold tpkt_frame in Heq. rewrite length_app in Heq.
    destruct rest; [done|]. simpl in *. lia. }
  revert Heq. unfold tpkt_frame. destruct (tpkt_header_be _ Hp) as (b2 & b3 & -> & Hbe). intros Heq.
  destruct buf as [|c0 [|c1 [|c2 [|c3 buf]]]]; try done. simplify_eq/=.
  rewrite Hbe. unfold fits_tpkt, MAX_PDU_SIZE in *. rewrite (proj2 (Z.leb_le 4 _)), (proj2 (Z.leb_le _ 65536)) by lia. cbn [negb andb].
  rewrite (proj2 (Z.ltb_lt _ _)) by lia. done.
Qed.

(** * The framer over a chunked stream *)

(** The buffer and the chunks that arrive before [rest] hold [stream]. *)
Definition carries (input : list ReadEvent) (rx stream : list Z) (rest : list ReadEvent) : Prop :=
  exists chunks, input = map RData chunks ++ rest /\ Forall (fun c => c <> []) chunks /\ rx ++ concat chunks = stream.
Definition frames (ms : list (list Z)) : list Z := concat (map wrap_data_pdu ms).
Definition carries_pdus (f : Framer) (ms : list (list Z)) (tl : list Z) (rest : list ReadEvent) : Prop :=
  carries (fr_input f) (fr_rx_buffer f) (frames ms ++ tl) rest.
Definition partial_frame (tl : list Z) : Prop := exists p r, fits_tpkt p /\ r <> [] /\ tpkt_frame p = tl ++ r.

Lemma recv_loop_eq input rx :
  recv_loop input rx =
  match take_buffered_tpkt rx with
  | Err e => (input, rx, Err e)
  | Ok (rx', Some payload) => (input, rx', Ok payload)
  | Ok (_, None) =>
      match input with
      | [] => ([], rx, Err GwReadTimeout)
      | RIdle :: input => (input, rx, Err GwReadTimeout)
      | RError :: input | RData [] :: input => (input, rx, Err GwIo)
      | RData chunk :: input => recv_loop input (rx ++ chunk)
      end
  end.
Proof. by destruct input. Qed.

Lemma recv_loop_frame p input rx tl rest :
  fits_tpkt p -> carries input rx (tpkt_frame p ++ tl) rest ->
  exists input' rx', recv_loop input rx = (input', rx', Ok p) /\ carries input' rx' tl rest.
Proof.
  intros Hp (chunks & -> & Hne & Heq). revert rx Heq. induction Hne as [|c chunks Hc Hne IH]; intros rx Heq; rewrite recv_loop_eq.
  - cbn [concat] in Heq. rewrite app_nil_r in Heq. subst rx. rewrite take_tpkt_complete by done.
    eexists _, _. split; [done|]. exists []. by rewrite app_nil_r.
  - destruct (app_eq_inv _ _ _ _ Heq) as [(k & -> & ->)|(k & Hk & Hcat)].
    + rewrite take_tpkt_complete by done. eexists _, _. split; [done|]. exists (c :: chunks). by repeat constructor.
    + destruct k as [|z k].
      * rewrite app_nil_r in Hk. subst rx. rewrite <- (app_nil_r (tpkt_frame p)), take_tpkt_complete by done.
        eexists _, _. split; [done|]. exists (c :: chunks). by repeat constructor.
      * rewrite (take_tpkt_partial p rx (z :: k)) by done. destruct c; [done|]. apply IH. by rewrite <- app_assoc.
Qed.

Lemma fits_frame_tpkt m : fits_frame m -> fits_tpkt (data_payload m).
Proof. unfold fits_frame, fits_tpkt, MAX_MMS_PDU. pose proof (length_data_payload m). lia. Qed.

Definition same_sends (f f' : Framer) : Prop := fr_sends f' = fr_sends f /\ fr_written f' = fr_written f.
Lemma recv_mms_raw_pdu f m ms tl rest :
  fits_frame m -> carries_pdus f (m :: ms) tl rest ->
  exists f', Framer_recv_mms_raw f = (f', Ok m) /\ carries_pdus f' ms tl rest /\ same_sends f f' /\
    fr_pending_reports f' = fr_pending_reports f.
Proof.
  intros Hm Hf. unfold carries_pdus, frames in Hf. cbn [map concat] in Hf. rewrite wrap_data_pdu_frame, <- app_assoc in Hf.
  destruct (recv_loop_frame _ _ _ _ _ (fits_frame_tpkt _ Hm) Hf) as (input & rx & Hr & Hc).
  exists (with_rx f input rx). unfold Framer_recv_mms_raw, Framer_recv_tpkt. rewrite Hr. cbn [result_bind].
  by rewrite unwrap_data_payload.
Qed.

Lemma recv_mms_loop_pdus fuel f reports m ms tl rest :
  (length reports < fuel)%nat -> Forall fits_frame (reports ++ [m]) -> Forall (fun r => is_report r = true) reports -> is_report m = false ->
  carries_pdus f (reports ++ m :: ms) tl rest ->
  exists f', recv_mms_loop fuel f = (f', Some (Ok m)) /\ carries_pdus f' ms tl rest /\ same_sends f f' /\
    fr_pending_reports f' = fr_pending_reports f ++ reports.
Proof.
  revert fuel f. induction reports as [|r reports IH]; intros [|fuel] f Hfuel Hfit Hrep Hm Hf; try (simpl in Hfuel; lia);
    cbn [app] in *; apply Forall_cons in Hfit as [Hr Hfit]; destruct (recv_mms_raw_pdu _ _ _ _ _ Hr Hf) as (f1 & E1 & Hc1 & Hs1 & Hp1);
    cbn [recv_mms_loop]; rewrite E1.
  - rewrite Hm, app_nil_r. by exists f1.
  - apply Forall_cons in Hrep as [-> Hrep]. cbn [length] in Hfuel.
    destruct (IH fuel (with_pending f1 (fr_pending_reports f1 ++ [r]))) as (f2 & E2 & Hc2 & [Hs2 Hs2'] & Hp2); try done; [lia|].
    exists f2. rewrite Hp2. cbn [fr_pending_reports with_pending]. rewrite Hp1, <- app_assoc.
    destruct Hs1. cbn in Hs2, Hs2'. repeat split; try done; congruence.
Qed.

Lemma length_wrap_pos m : (4 <= length (wrap_data_pdu m))%nat.
Proof. rewrite wrap_data_pdu_frame. unfold tpkt_frame. rewrite length_app. simpl. lia. Qed.
Lemma length_frames ms : (4 * length ms <= length (frames ms))%nat.
Proof. induction ms as [|m ms IH]; [done|]. unfold frames in *. cbn [map concat]. rewrite length_app. pose proof (length_wrap_pos m). simpl. lia. Qed.

Definition chunk_bytes (e : ReadEvent) : nat := match e with RData c => length c | _ => 0 end.
Lemma unread_carries f ms tl rest : carries_pdus f ms tl rest -> (4 * length ms <= unread f)%nat.
Proof.
  intros (chunks & Hi & _ & Heq). apply (f_equal length) in Heq. rewrite !length_app in Heq. pose proof (length_frames ms).
  unfold unread. rewrite Hi. change (fun e => match e with RData c => length c | _ => 0%nat end) with chunk_bytes.
  rewrite sum_list_with_app. assert (Hc : sum_list_with chunk_bytes (map RData chunks) = length (concat chunks))
    by (clear; induction chunks; [done|]; simpl; rewrite length_app; lia). lia.
Qed.

Lemma try_read_all_chunks chunks rx rest :
  Forall (fun c => c <> []) chunks -> try_read_all (map RData chunks ++ RIdle :: rest) rx = (rest, rx ++ concat chunks, Ok ()).
Proof.
  intros Hne. revert rx. induction Hne as [|c chunks Hc _ IH]; intros rx; cbn; [by rewrite app_nil_r|].
  destruct c; [done|]. rewrite IH. by rewrite <- app_assoc.
Qed.
Lemma drain_frames_reports fuel reports tail out :
  Forall fits_frame reports -> Forall (fun r => is_report r = true) reports ->
  drain_frames (length reports + fuel) (frames reports ++ tail) out = drain_frames fuel tail (out ++ reports).
Proof.
  intros Hfit Hrep. revert out. induction reports as [|r reports IH]; intros out; [by rewrite app_nil_r|].
  apply Forall_cons in Hfit as [Hr Hfit]. apply Forall_cons in Hrep as [Hrr Hrep].
  cbn [length Nat.add drain_frames]. unfold frames. cbn [map concat]. rewrite wrap_data_pdu_frame, <- app_assoc, take_tpkt_complete by by apply fits_frame_tpkt.
  rewrite unwrap_data_payload, Hrr by done. fold (frames reports). rewrite IH by done. by rewrite <- app_assoc.
Qed.
Lemma drain_frames_partial fuel tl out : partial_frame tl -> drain_frames (S fuel) tl out = (tl, Some (Ok out)).
Proof. intros (p & r & Hp & Hr & Heq). cbn [drain_frames]. by rewrite (take_tpkt_partial p tl r). Qed.
Lemma drain_frames_confirmed fuel m tail out :
  fits_frame m -> is_report m = false -> drain_frames (S fuel) (wrap_data_pdu m ++ tail) out = (tail, Some (Err (GwProtocol UnexpectedConfirmed))).
Proof.
  intros Hm Hr. cbn [drain_frames]. rewrite wrap_data_pdu_frame, take_tpkt_complete by by apply fits_frame_tpkt. by rewrite unwrap_data_payload, Hr.
Qed.

(** C30: The framer is a queue of PDUs, however TCP cuts the stream into reads.  While a
    request waits, [recv_mms] returns the first PDU that is not a report, keeps the reports
    before it in order and leaves the rest of the stream; between requests [drain_socket]
    returns every complete report in order and keeps an incomplete frame buffered, and a
    confirmed PDU among them is an error. *)
Theorem framer_refines_pdu_queue f reports m ms tl rest :
  Forall fits_frame (reports ++ m :: ms) -> Forall (fun r => is_report r = true) reports ->
  (is_report m = false -> carries_pdus f (reports ++ m :: ms) tl rest ->
   exists f', Framer_recv_mms f = (f', Some (Ok m)) /\ carries_pdus f' ms tl rest /\ same_sends f f' /\
     fr_pending_reports f' = fr_pending_reports f ++ reports) /\
  (partial_frame tl -> carries_pdus f reports tl (RIdle :: rest) ->
   Framer_drain_socket f = (mkFramer rest (fr_sends f) (fr_written f) [] tl, Some (Ok (fr_pending_reports f ++ reports)))) /\
  (is_report m = false -> carries_pdus f (reports ++ m :: ms) tl (RIdle :: rest) ->
   (Framer_drain_socket f).2 = Some (Err (GwProtocol UnexpectedConfirmed))).
Proof.
  intros Hfit Hrep. rewrite Forall_app, Forall_cons in Hfit. destruct Hfit as (Hr & Hm & _). split_and!.
  - intros Hnot Hf. apply recv_mms_loop_pdus; try done.
    + pose proof (unread_carries _ _ _ _ Hf) as Hu. rewrite length_app in Hu. lia.
    + apply Forall_app_2; [done|]. by constructor.
  - intros Htl (chunks & Hi & Hne & Heq). unfold Framer_drain_socket. cbn [fr_input fr_rx_buffer with_pending].
    rewrite Hi, try_read_all_chunks, Heq by done. pose proof (length_frames reports).
    replace (S (length (frames reports ++ tl))) with (length reports + S (length (frames reports ++ tl) - length reports))%nat
      by (rewrite length_app; lia).
    by rewrite drain_frames_reports, drain_frames_partial.
  - intros Hnot (chunks & Hi & Hne & Heq). unfold Framer_drain_socket. cbn [fr_input fr_rx_buffer with_pending].
    rewrite Hi, try_read_all_chunks, Heq by done. pose proof (length_frames reports).
    unfold frames. rewrite map_app, concat_app. cbn [map concat]. fold (frames reports). rewrite <- !app_assoc.
    rewrite length_app. replace (S (length (frames reports) + length (wrap_data_pdu m ++ concat (map wrap_data_pdu ms) ++ tl)))
      with (length reports + S (length (frames reports) - length reports + length (wrap_data_pdu m ++ concat (map wrap_data_pdu ms) ++ tl)))%nat by lia.
    by rewrite drain_frames_reports, drain_frames_confirmed.
Qed.
Definition sample_framer : Framer :=
  let stream := frames [[0xA3; 0]; [0xA1; 0]] ++ [3; 0; 0] in
  mkFramer [RData (take 5 stream); RData (drop 5 stream); RIdle] [] [] [] [].
Lemma framer_refines_pdu_queue_witness : exists f',
  Framer_recv_mms sample_framer = (f', Some (Ok [0xA1; 0])) /\ carries_pdus f' [] [3; 0; 0] [RIdle] /\ same_sends sample_framer f' /\
  fr_pending_reports f' = [[0xA3; 0]].
Proof.
  apply (framer_refines_pdu_queue sample_framer [[0xA3; 0]] [0xA1; 0] [] [3; 0; 0] [RIdle]).
  - repeat constructor; vm_compute; discriminate.
  - by repeat constructor.
  - reflexivity.
  - exists [take 5 (frames [[0xA3; 0]; [0xA1; 0]] ++ [3; 0; 0]); drop 5 (frames [[0xA3; 0]; [0xA1; 0]] ++ [3; 0; 0])].
    split; [reflexivity|]. split; [repeat constructor; discriminate | reflexivity].
Defined.

Lemma take_tpkt_shrinks rx rx' p : take_buffered_tpkt rx = Ok (rx', Some p) -> (length rx' < length rx)%nat.
Proof.
  unfold take_buffered_tpkt. destruct rx as [|b0 [|b1 [|b2 [|b3 rx]]]]; try done. repeat case_match; try done. intros. simplify_eq.
  rewrite length_drop. bool_hyps. simpl length in *. lia.
Qed.
Lemma recv_loop_shrinks input rx input' rx' p :
  recv_loop input rx = (input', rx', Ok p) ->
  (length rx' + sum_list_with chunk_bytes input' < length rx + sum_list_with chunk_bytes input)%nat.
Proof.
  revert rx. induction input as [|e input IH]; intros rx; rewrite recv_loop_eq;
    destruct (take_buffered_tpkt rx) as [[rx1 [q|]]|] eqn:Ht; try done; intros H; simplify_eq; try (apply take_tpkt_shrinks in Ht; lia).
  destruct e as [[|z c]| |]; try done. apply IH in H. rewrite length_app in H. simpl in *. lia.
Qed.
Lemma recv_raw_shrinks f f' m : Framer_recv_mms_raw f = (f', Ok m) -> (unread f' < unread f)%nat.
Proof.
  unfold Framer_recv_mms_raw, Framer_recv_tpkt. destruct (recv_loop _ _) as [[input rx] [p|]] eqn:Hr; [|done].
  cbn [result_bind]. intros H. simplify_eq. by apply recv_loop_shrinks in Hr.
Qed.
Lemma recv_mms_loop_total fuel f : (unread f < fuel)%nat -> is_Some (recv_mms_loop fuel f).2.
Proof.
  revert f. induction fuel as [|fuel IH]; intros f Hf; [lia|]. cbn [recv_mms_loop].
  destruct (Framer_recv_mms_raw f) as [f1 [m|]] eqn:Hr; [|by eexists]. apply recv_raw_shrinks in Hr.
  case_match; [|by eexists]. apply IH. unfold unread in *. simpl in *. lia.
Qed.
Lemma drain_frames_total fuel rx out : (length rx < fuel)%nat -> is_Some (drain_frames fuel rx out).2.
Proof.
  revert rx out. induction fuel as [|fuel IH]; intros rx out Hf; [lia|]. cbn [drain_frames].
  destruct (take_buffered_tpkt rx) as [[rx1 [q|]]|] eqn:Ht; try by eexists. apply take_tpkt_shrinks in Ht.
  repeat case_match; try by eexists. apply IH. lia.
Qed.

(** Receiving and draining always return, whatever the peer sends: every frame taken off
    the buffer uses up bytes, so the loops over frames end within the bytes that arrived. *)
Theorem framer_loops_end f : is_Some (Framer_recv_mms f).2 /\ is_Some (Framer_drain_socket f).2.
Proof.
  split; [apply recv_mms_loop_total; lia|]. unfold Framer_drain_socket.
  destruct (try_read_all _ _) as [[input rx] [|]]; [|by eexists].
  pose proof (drain_frames_total (S (length rx)) rx (fr_pending_reports f) ltac:(lia)) as H. by destruct (drain_frames _ _ _).
Qed.
