(* ===== verification/CanClient.v ===== *)
(** The LYNK CAN adapter of comsrv: [services/comsrv/src/protocols/adapters/can/config.rs],
    [decoder.rs] and [client.rs].

    The client runs two tasks beside the calls of its owner: one takes frames from the
    socket into a cache, the other decodes the cache, writes the slot store and publishes a
    batch.  A behaviour is a sequence of events; between two awaits a task is cut where
    another thread can look: at every slot it writes, and a poll at every slot it reads.  A
    task that is aborted finishes the section it is in.  The bus and the outcome of opening
    a socket are events; the order in which hash maps iterate is a parameter.  Log lines and
    the event handler are left out. *)
From stdpp Require Import base numbers list gmap strings.
From Stdlib Require Import ZArith Lia.
From S2P Require Import Prelude PointTypes Registers ChannelTask Modbus SlotStores Can MmsTransport.
Local Open Scope Z_scope.
Set Warnings "-clear-no-such-hyp".

(** * Configuration and frame cache *)

Record CanPoint := mkCanPoint {
  cn_point_id : Z; cn_point_type : PointType; cn_can_id : Z; cn_byte_offset : Z; cn_bit_position : Z; cn_bit_length : Z;
  cn_data_type : CanDataType; cn_scale : Z; cn_offset : Z }.

(** [CanFrameData::from_slice] and [as_slice]: the first eight bytes. *)
Definition CanFrameData_from_slice (bytes : list Z) : list Z := take 8 bytes.
Abbreviation CanFrameCache := (gmap Z (list Z)).
Definition CanFrameCache_update (c : CanFrameCache) (can_id : Z) (data : list Z) : CanFrameCache := <[can_id := CanFrameData_from_slice data]> c.
Definition CanFrameCache_get (c : CanFrameCache) (can_id : Z) : option (list Z) := c !! can_id.

Inductive LynkCanId :=
| BatteryLimits | BatteryCapacity | BatteryStatus | BatteryMeasurements | BatteryAlarms
| ManufacturerName | ModelNameUpper | ModelNameLower | FirmwareVersion | ProtocolVersion.
Definition LynkCanId_from_u32 (id : Z) : option LynkCanId :=
  if id =? 0x351 then Some BatteryLimits else if id =? 0x354 then Some BatteryCapacity else if id =? 0x355 then Some BatteryStatus
  else if id =? 0x356 then Some BatteryMeasurements else if id =? 0x35A then Some BatteryAlarms else if id =? 0x35E then Some ManufacturerName
  else if id =? 0x370 then Some ModelNameUpper else if id =? 0x371 then Some ModelNameLower else if id =? 0x372 then Some FirmwareVersion
  else if id =? 0x373 then Some ProtocolVersion else None.
Definition LynkCanId_is_lynk_id (id : Z) : bool := bool_decide (is_Some (LynkCanId_from_u32 id)).

(** * Decoding *)

Inductive CanFault :=
| CfOffset (byte_offset len : nat)
| CfTwoBitPosition (bit_position : Z)
| CfBitPosition (bits bit_position : Z)
| CfTooShort (bits : Z) (byte_offset : nat)
| CfBitLength (bit_length : Z)
| CfNotEnough (t : CanDataType) (got : nat).

(** The field type is the one of the library codec, field by field. *)
Definition adapter_extract_bytes (n : nat) (data : list Z) (byte_offset : nat) (bit_position : Z) : result ExtractedField CanFault :=
  let bits := 8 * Z.of_nat n in
  if negb (bit_position =? 0) then Err (CfBitPosition bits bit_position)
  else if (length data <? byte_offset + n)%nat then Err (CfTooShort bits byte_offset)
  else Ok (ExtractedField_new (take n (drop byte_offset data))).
Definition adapter_extract_field (data : list Z) (byte_offset bit_position bit_length : Z) : result ExtractedField CanFault :=
  let byte_offset := Z.to_nat byte_offset in
  match data !! byte_offset with
  | None => Err (CfOffset byte_offset (length data))
  | Some byte =>
      if bit_length =? 2 then
        if 6 <? bit_position then Err (CfTwoBitPosition bit_position)
        else Ok (ExtractedField_single (Z.land (Z.shiftr byte bit_position) 0x03))
      else if bit_length =? 8 then
        if negb (bit_position =? 0) then Err (CfBitPosition 8 bit_position) else Ok (ExtractedField_single byte)
      else if bit_length =? 16 then adapter_extract_bytes 2 data byte_offset bit_position
      else if bit_length =? 32 then adapter_extract_bytes 4 data byte_offset bit_position
      else if bit_length =? 64 then adapter_extract_bytes 8 data byte_offset bit_position
      else Err (CfBitLength bit_length)
  end.

(** The loop that pops NUL characters off the end. *)
Fixpoint drop_nul (bs : list Z) : list Z := match bs with 0 :: bs => drop_nul bs | _ => bs end.
Definition pop_nul (bs : list Z) : list Z := reverse (drop_nul (reverse bs)).

Definition adapter_raw_value (t : CanDataType) (raw_bytes : list Z) : result ProtoValue CanFault :=
  let short := Err (CfNotEnough t (length raw_bytes)) in
  match t with
  | CanUInt8 => match raw_bytes with b0 :: _ => Ok (PInteger b0) | _ => short end
  | CanUInt16 => match raw_bytes with b0 :: b1 :: _ => Ok (PInteger (from_le_bytes [b0; b1])) | _ => short end
  | CanInt16 => match raw_bytes with b0 :: b1 :: _ => Ok (PInteger (to_signed 16 (from_le_bytes [b0; b1]))) | _ => short end
  | CanUInt32 => match raw_bytes with b0 :: b1 :: b2 :: b3 :: _ => Ok (PInteger (from_le_bytes [b0; b1; b2; b3])) | _ => short end
  | CanInt32 => match raw_bytes with b0 :: b1 :: b2 :: b3 :: _ => Ok (PInteger (to_signed 32 (from_le_bytes [b0; b1; b2; b3]))) | _ => short end
  | CanFloat32 => match raw_bytes with b0 :: b1 :: b2 :: b3 :: _ => Ok (PFloat (f64_of_f32 (from_le_bytes [b0; b1; b2; b3]))) | _ => short end
  | CanAscii => Ok (PString (pop_nul (lossy_loop (length raw_bytes) raw_bytes)))
  end.
Definition adapter_decode_point (p : CanPoint) (frame_data : list Z) : result ProtoValue CanFault :=
  let? field := adapter_extract_field frame_data (cn_byte_offset p) (cn_bit_position p) (cn_bit_length p) in
  let? raw_value := adapter_raw_value (cn_data_type p) (ExtractedField_as_slice field) in
  Ok match raw_value with
     | PInteger i =>
         if negb (f64_eqb (cn_scale p) f64_one) || negb (f64_eqb (cn_offset p) f64_zero)
         then PFloat (f64_add (f64_mul (f64_of_Z i) (cn_scale p)) (cn_offset p)) else raw_value
     | other => other
     end.

(** [PointManager]: points by id; a later point replaces an earlier one of its id. *)
Abbreviation PointManager := (gmap Z CanPoint).
Definition PointManager_add_point (m : PointManager) (p : CanPoint) : PointManager := <[cn_point_id p := p]> m.
(** A point whose frame is missing or does not decode is left out. *)
Definition mapped_value (c : CanFrameCache) (p : CanPoint) : option ProtoValue :=
  frame_data ← CanFrameCache_get c (cn_can_id p);
  match adapter_decode_point p frame_data with Ok v => Some v | Err _ => None end.
Definition PointManager_apply_mappings (m : PointManager) (c : CanFrameCache) : gmap Z ProtoValue := omap (mapped_value c) m.

(** * The client *)

Inductive CanError := SocketOpenFailed | SocketReadFailed.
Record Frame := mkFrame { fr_raw_id : Z; fr_data : list Z }.

(** A receive task, with what its socket holds. *)
Inductive RxPhase := RxOpening | RxRunning | RxDone.
Record Receiver := mkReceiver { rv_phase : RxPhase; rv_socket : list Frame }.
(** A section of the reading task after it has decoded the cache: the points it has still
    to write, and the batch it will publish. *)
Record ReadSection := mkReadSection { sc_pending : list (Z * ProtoValue); sc_batch : list DataPoint }.
(** A reading task: whether it was neither aborted nor has ended, whether the store it
    writes is still the client's, and the section it is in. *)
Record Reader := mkReader { rd_alive : bool; rd_own : bool; rd_section : option ReadSection }.

(** Tasks are numbered in the order of their start; the handles are those of the last. *)
Record CanClient := mkCanClient {
  cl_state : ConnState;
  cl_is_connected : bool;
  cl_read_count : Z;
  cl_error_count : Z;
  cl_last_error : option CanError;
  cl_receivers : list Receiver;
  cl_receive_handle : option nat;
  cl_readers : list Reader;
  cl_read_handle : option nat;
  cl_cache : CanFrameCache;
  cl_points : PointManager;
  cl_store : SlotStore;
  (** Frames that aborted receive sections have read and not yet cached. *)
  cl_late : list Frame;
  (** The poll in progress: the next slot and the points so far. *)
  cl_poll : option (nat * list DataPoint);
  (** What was published and what the polls returned. *)
  cl_events : list (list DataPoint);
  cl_polls : list (list DataPoint);
}.
Definition cl_set_state (ch : CanClient) (v : ConnState) : CanClient :=
  mkCanClient v (cl_is_connected ch) (cl_read_count ch) (cl_error_count ch) (cl_last_error ch) (cl_receivers ch) (cl_receive_handle ch) (cl_readers ch) (cl_read_handle ch) (cl_cache ch) (cl_points ch) (cl_store ch) (cl_late ch) (cl_poll ch) (cl_events ch) (cl_polls ch).
Definition cl_set_is_connected (ch : CanClient) (v : bool) : CanClient :=
  mkCanClient (cl_state ch) v (cl_read_count ch) (cl_error_count ch) (cl_last_error ch) (cl_receivers ch) (cl_receive_handle ch) (cl_readers ch) (cl_read_handle ch) (cl_cache ch) (cl_points ch) (cl_store ch) (cl_late ch) (cl_poll ch) (cl_events ch) (cl_polls ch).
Definition cl_set_read_count (ch : CanClient) (v : Z) : CanClient :=
  mkCanClient (cl_state ch) (cl_is_connected ch) v (cl_error_count ch) (cl_last_error ch) (cl_receivers ch) (cl_receive_handle ch) (cl_readers ch) (cl_read_handle ch) (cl_cache ch) (cl_points ch) (cl_store ch) (cl_late ch) (cl_poll ch) (cl_events ch) (cl_polls ch).
Definition cl_set_error_count (ch : CanClient) (v : Z) : CanClient :=
  mkCanClient (cl_state ch) (cl_is_connected ch) (cl_read_count ch) v (cl_last_error ch) (cl_receivers ch) (cl_receive_handle ch) (cl_readers ch) (cl_read_handle ch) (cl_cache ch) (cl_points ch) (cl_store ch) (cl_late ch) (cl_poll ch) (cl_events ch) (cl_polls ch).
Definition cl_set_last_error (ch : CanClient) (v : option CanError) : CanClient :=
  mkCanClient (cl_state ch) (cl_is_connected ch) (cl_read_count ch) (cl_error_count ch) v (cl_receivers ch) (cl_receive_handle ch) (cl_readers ch) (cl_read_handle ch) (cl_cache ch) (cl_points ch) (cl_store ch) (cl_late ch) (cl_poll ch) (cl_events ch) (cl_polls ch).
Definition cl_set_receivers (ch : CanClient) (v : list Receiver) : CanClient :=
  mkCanClient (cl_state ch) (cl_is_connected ch) (cl_read_count ch) (cl_error_count ch) (cl_last_error ch) v (cl_receive_handle ch) (cl_readers ch) (cl_read_handle ch) (cl_cache ch) (cl_points ch) (cl_store ch) (cl_late ch) (cl_poll ch) (cl_events ch) (cl_polls ch).
Definition cl_set_receive_handle (ch : CanClient) (v : option nat) : CanClient :=
  mkCanClient (cl_state ch) (cl_is_connected ch) (cl_read_count ch) (cl_error_count ch) (cl_last_error ch) (cl_receivers ch) v (cl_readers ch) (cl_read_handle ch) (cl_cache ch) (cl_points ch) (cl_store ch) (cl_late ch) (cl_poll ch) (cl_events ch) (cl_polls ch).
Definition cl_set_readers (ch : CanClient) (v : list Reader) : CanClient :=
  mkCanClient (cl_state ch) (cl_is_connected ch) (cl_read_count ch) (cl_error_count ch) (cl_last_error ch) (cl_receivers ch) (cl_receive_handle ch) v (cl_read_handle ch) (cl_cache ch) (cl_points ch) (cl_store ch) (cl_late ch) (cl_poll ch) (cl_events ch) (cl_polls ch).
Definition cl_set_read_handle (ch : CanClient) (v : option nat) : CanClient :=
  mkCanClient (cl_state ch) (cl_is_connected ch) (cl_read_count ch) (cl_error_count ch) (cl_last_error ch) (cl_receivers ch) (cl_receive_handle ch) (cl_readers ch) v (cl_cache ch) (cl_points ch) (cl_store ch) (cl_late ch) (cl_poll ch) (cl_events ch) (cl_polls ch).
Definition cl_set_cache (ch : CanClient) (v : CanFrameCache) : CanClient :=
  mkCanClient (cl_state ch) (cl_is_connected ch) (cl_read_count ch) (cl_error_count ch) (cl_last_error ch) (cl_receivers ch) (cl_receive_handle ch) (cl_readers ch) (cl_read_handle ch) v (cl_points ch) (cl_store ch) (cl_late ch) (cl_poll ch) (cl_events ch) (cl_polls ch).
Definition cl_set_points (ch : CanClient) (v : PointManager) : CanClient :=
  mkCanClient (cl_state ch) (cl_is_connected ch) (cl_read_count ch) (cl_error_count ch) (cl_last_error ch) (cl_receivers ch) (cl_receive_handle ch) (cl_readers ch) (cl_read_handle ch) (cl_cache ch) v (cl_store ch) (cl_late ch) (cl_poll ch) (cl_events ch) (cl_polls ch).
Definition cl_set_store (ch : CanClient) (v : SlotStore) : CanClient :=
  mkCanClient (cl_state ch) (cl_is_connected ch) (cl_read_count ch) (cl_error_count ch) (cl_last_error ch) (cl_receivers ch) (cl_receive_handle ch) (cl_readers ch) (cl_read_handle ch) (cl_cache ch) (cl_points ch) v (cl_late ch) (cl_poll ch) (cl_events ch) (cl_polls ch).
Definition cl_set_late (ch : CanClient) (v : list Frame) : CanClient :=
  mkCanClient (cl_state ch) (cl_is_connected ch) (cl_read_count ch) (cl_error_count ch) (cl_last_error ch) (cl_receivers ch) (cl_receive_handle ch) (cl_readers ch) (cl_read_handle ch) (cl_cache ch) (cl_points ch) (cl_store ch) v (cl_poll ch) (cl_events ch) (cl_polls ch).
Definition cl_set_poll (ch : CanClient) (v : option (nat * list DataPoint)) : CanClient :=
  mkCanClient (cl_state ch) (cl_is_connected ch) (cl_read_count ch) (cl_error_count ch) (cl_last_error ch) (cl_receivers ch) (cl_receive_handle ch) (cl_readers ch) (cl_read_handle ch) (cl_cache ch) (cl_points ch) (cl_store ch) (cl_late ch) v (cl_events ch) (cl_polls ch).
Definition cl_set_events (ch : CanClient) (v : list (list DataPoint)) : CanClient :=
  mkCanClient (cl_state ch) (cl_is_connected ch) (cl_read_count ch) (cl_error_count ch) (cl_last_error ch) (cl_receivers ch) (cl_receive_handle ch) (cl_readers ch) (cl_read_handle ch) (cl_cache ch) (cl_points ch) (cl_store ch) (cl_late ch) (cl_poll ch) v (cl_polls ch).
Definition cl_set_polls (ch : CanClient) (v : list (list DataPoint)) : CanClient :=
  mkCanClient (cl_state ch) (cl_is_connected ch) (cl_read_count ch) (cl_error_count ch) (cl_last_error ch) (cl_receivers ch) (cl_receive_handle ch) (cl_readers ch) (cl_read_handle ch) (cl_cache ch) (cl_points ch) (cl_store ch) (cl_late ch) (cl_poll ch) (cl_events ch) v.

Definition CanClient_new : CanClient :=
  mkCanClient CsDisconnected false 0 0 None [] None [] None ∅ ∅ SlotStore_empty [] None [] [].
(** Called before the first connect, while no task shares the point manager. *)
Definition CanClient_add_points (ch : CanClient) (points : list CanPoint) : CanClient :=
  cl_set_points ch (foldl PointManager_add_point (cl_points ch) points).

Definition record_failure (ch : CanClient) (e : CanError) : CanClient :=
  cl_set_error_count (cl_set_last_error ch (Some e)) (wrapping_add 64 (cl_error_count ch) 1).

(** The frame an aborted receive task holds when it has just read one. *)
Definition hold_late (ch : CanClient) (k : nat) (late : bool) : CanClient :=
  match cl_receivers ch !! k with
  | Some (mkReceiver RxRunning (f :: _)) => if late then cl_set_late ch (cl_late ch ++ [f]) else ch
  | _ => ch
  end.
(** [receive_handle.take()] and [abort]. *)
Definition abort_receiver (ch : CanClient) (late : bool) : CanClient :=
  match cl_receive_handle ch with
  | None => ch
  | Some k =>
      let ch := hold_late ch k late in
      cl_set_receive_handle (cl_set_receivers ch (<[k := mkReceiver RxDone []]> (cl_receivers ch))) None
  end.
(** [read_handle.take()] and [abort]: a task in a section finishes it. *)
Definition abort_reader (ch : CanClient) : CanClient :=
  match cl_read_handle ch with
  | None => ch
  | Some k => cl_set_read_handle (cl_set_readers ch (alter (fun r => mkReader false (rd_own r) (rd_section r)) k (cl_readers ch))) None
  end.

Section Client.
Variable order : forall V : Type, gmap Z V -> list (Z * V).

Definition PointManager_point_ids (m : PointManager) : list Z := (order _ m).*1.

(** [start_receive_task]: the task opens the socket; the handle of an earlier task is
    overwritten, which leaves that task running. *)
Definition start_receive_task (ch : CanClient) : CanClient :=
  cl_set_receive_handle (cl_set_receivers ch (cl_receivers ch ++ [mkReceiver RxOpening []])) (Some (length (cl_receivers ch))).
(** [start_read_task]: a new store replaces the client's; earlier tasks keep theirs. *)
Definition start_read_task (ch : CanClient) : CanClient :=
  let ch := cl_set_store ch (SlotStore_from_points (PointManager_point_ids (cl_points ch)) Telemetry) in
  let disowned := map (fun r => mkReader (rd_alive r) false (rd_section r)) (cl_readers ch) in
  cl_set_read_handle (cl_set_readers ch (disowned ++ [mkReader true true None])) (Some (length (cl_readers ch))).

Definition CanClient_connect (ch : CanClient) (opened : bool) : CanClient * bool :=
  let ch := cl_set_state ch CsConnecting in
  if opened then (start_read_task (start_receive_task (cl_set_state (cl_set_is_connected ch true) CsConnected)), true) else (ch, false).
Definition CanClient_disconnect (ch : CanClient) (late : bool) : CanClient :=
  cl_set_state (abort_reader (abort_receiver (cl_set_is_connected ch false) late)) CsDisconnected.
Definition CanClient_stop (ch : CanClient) (late : bool) : CanClient := abort_reader (abort_receiver ch late).

(** The receive task: opening the socket, and one turn of its loop. *)
Definition rx_open (ch : CanClient) (k : nat) (ok : bool) : CanClient :=
  if ok then cl_set_receivers ch (<[k := mkReceiver RxRunning []]> (cl_receivers ch))
  else cl_set_receivers (record_failure ch SocketOpenFailed) (<[k := mkReceiver RxDone []]> (cl_receivers ch)).
Definition cache_frame (ch : CanClient) (f : Frame) : CanClient :=
  if LynkCanId_is_lynk_id (fr_raw_id f) then cl_set_cache ch (CanFrameCache_update (cl_cache ch) (fr_raw_id f) (fr_data f)) else ch.
Definition rx_tick (ch : CanClient) (k : nat) (socket : list Frame) (read_error : bool) : CanClient :=
  if negb (cl_is_connected ch) then cl_set_receivers ch (<[k := mkReceiver RxDone []]> (cl_receivers ch))
  else if read_error then record_failure ch SocketReadFailed
  else
    match socket with
    | [] => ch
    | f :: rest => cache_frame (cl_set_receivers ch (<[k := mkReceiver RxRunning rest]> (cl_receivers ch))) f
    end.

(** The reading task: a tick, one slot, and the end of a section. *)
Definition can_point (x : Z * ProtoValue) : DataPoint := DataPoint_new x.1 Telemetry x.2.
Definition set_reader (ch : CanClient) (k : nat) (r : Reader) : CanClient := cl_set_readers ch (<[k := r]> (cl_readers ch)).
Definition read_tick (ch : CanClient) (k : nat) (own : bool) : CanClient :=
  if negb (cl_is_connected ch) then set_reader ch k (mkReader false own None)
  else
    match order _ (PointManager_apply_mappings (cl_points ch) (cl_cache ch)) with
    | [] => ch
    | decoded => set_reader ch k (mkReader true own (Some (mkReadSection decoded (map can_point decoded))))
    end.
Definition publish (ch : CanClient) (batch : list DataPoint) : CanClient :=
  match batch with
  | [] => ch
  | _ => cl_set_events (cl_set_read_count ch (wrapping_add 64 (cl_read_count ch) 1)) (cl_events ch ++ [batch])
  end.
Definition section_step (ch : CanClient) (k : nat) (now : Z) (r : Reader) (sec : ReadSection) : CanClient :=
  match sc_pending sec with
  | (id, v) :: pending =>
      set_reader (if rd_own r then cl_set_store ch (SlotStore_update (cl_store ch) now id v QGood) else ch) k
        (mkReader (rd_alive r) (rd_own r) (Some (mkReadSection pending (sc_batch sec))))
  | [] => set_reader (publish ch (sc_batch sec)) k (mkReader (rd_alive r) (rd_own r) None)
  end.

(** One turn of the export loop of [poll_once]; the loop ends behind the last slot. *)
Definition poll_slot (ch : CanClient) (i : nat) (acc : list DataPoint) : CanClient :=
  if (i <? length (ss_slots (cl_store ch)))%nat
  then cl_set_poll ch (Some (S i, acc ++ option_list (export_slot (cl_store ch) i)))
  else cl_set_polls (cl_set_poll ch None) (cl_polls ch ++ [acc]).

(** * Behaviours *)

Inductive CanEvent :=
| BusFrame (f : Frame)
| OwnerConnect (opened : bool) | OwnerDisconnect (late : bool) | OwnerStop (late : bool)
| RxOpen (k : nat) (ok : bool) | RxTick (k : nat) (read_error : bool) | RxLate
| ReadTick (k : nat) | ReadStep (k : nat) (now : Z)
| PollStart | PollStep.

(** A running socket gets every frame on the bus. *)
Definition hear (f : Frame) (r : Receiver) : Receiver :=
  match rv_phase r with RxRunning => mkReceiver RxRunning (rv_socket r ++ [f]) | _ => r end.
(** The calls of the owner exclude one another. *)
Definition owner_call (ch ch' : CanClient) : option CanClient := match cl_poll ch with None => Some ch' | Some _ => None end.

Definition can_step (e : CanEvent) (ch : CanClient) : option CanClient :=
  match e with
  | BusFrame f => Some (cl_set_receivers ch (map (hear f) (cl_receivers ch)))
  | OwnerConnect opened => owner_call ch (CanClient_connect ch opened).1
  | OwnerDisconnect late => owner_call ch (CanClient_disconnect ch late)
  | OwnerStop late => owner_call ch (CanClient_stop ch late)
  | RxOpen k ok => match cl_receivers ch !! k with Some (mkReceiver RxOpening _) => Some (rx_open ch k ok) | _ => None end
  | RxTick k read_error =>
      match cl_receivers ch !! k with Some (mkReceiver RxRunning socket) => Some (rx_tick ch k socket read_error) | _ => None end
  | RxLate => match cl_late ch with f :: rest => Some (cache_frame (cl_set_late ch rest) f) | [] => None end
  | ReadTick k => match cl_readers ch !! k with Some (mkReader true own None) => Some (read_tick ch k own) | _ => None end
  | ReadStep k now =>
      match cl_readers ch !! k with
      | Some r => match rd_section r with Some sec => Some (section_step ch k now r sec) | None => None end
      | None => None
      end
  | PollStart => owner_call ch (cl_set_poll ch (Some (0%nat, [])))
  | PollStep => match cl_poll ch with Some (i, acc) => Some (poll_slot ch i acc) | None => None end
  end.
Fixpoint can_run (es : list CanEvent) (ch : CanClient) : option CanClient :=
  match es with
  | [] => Some ch
  | e :: es => ch ← can_step e ch; can_run es ch
  end.

(** * Every reading comes from a frame *)

Hypothesis order_perm : forall V (m : gmap Z V), order V m ≡ₚ map_to_list m.

Definition frames_of (es : list CanEvent) : list Frame := omap (fun e => match e with BusFrame f => Some f | _ => None end) es.

(** A data point whose value is what a configured point decodes to in a frame of the bus. *)
Definition genuine (points : PointManager) (fs : list Frame) (d : DataPoint) : Prop :=
  exists p f v, points !! dp_id d = Some p /\ f ∈ fs /\ fr_raw_id f = cn_can_id p /\ LynkCanId_is_lynk_id (fr_raw_id f) = true /\
    adapter_decode_point p (CanFrameData_from_slice (fr_data f)) = Ok v /\ d = DataPoint_new (dp_id d) Telemetry v.

Definition genuine_update (points : PointManager) (fs : list Frame) (u : Update) : Prop :=
  up_quality u = QGood /\ genuine points fs (DataPoint_new (up_id u) Telemetry (up_value u)).
Definition genuine_store (points : PointManager) (fs : list Frame) (s : SlotStore) : Prop :=
  exists ids us, NoDup ids /\ slot_store_ok ids Telemetry us s /\ Forall (genuine_update points fs) us.
Definition genuine_section (points : PointManager) (fs : list Frame) (sec : ReadSection) : Prop :=
  Forall (fun x => genuine points fs (can_point x)) (sc_pending sec) /\ Forall (genuine points fs) (sc_batch sec).

Record can_inv (points : PointManager) (fs : list Frame) (ch : CanClient) : Prop := {
  ci_points : cl_points ch = points;
  ci_sockets : Forall (fun r => Forall (fun f => f ∈ fs) (rv_socket r)) (cl_receivers ch);
  ci_late : Forall (fun f => f ∈ fs) (cl_late ch);
  ci_cache : map_Forall (fun id data => exists f, f ∈ fs /\ fr_raw_id f = id /\ LynkCanId_is_lynk_id id = true /\ data = CanFrameData_from_slice (fr_data f)) (cl_cache ch);
  ci_readers : Forall (fun r => forall sec, rd_section r = Some sec -> genuine_section points fs sec) (cl_readers ch);
  ci_store : genuine_store points fs (cl_store ch);
  ci_poll : forall i acc, cl_poll ch = Some (i, acc) -> Forall (genuine points fs) acc;
  ci_events : Forall (Forall (genuine points fs)) (cl_events ch);
  ci_polls : Forall (Forall (genuine points fs)) (cl_polls ch);
}.

Lemma genuine_mono points fs f d : genuine points fs d -> genuine points (fs ++ [f]) d.
Proof. intros (p & g & v & ? & ? & ?). exists p, g, v. rewrite elem_of_app. naive_solver. Qed.

Lemma genuine_section_mono points fs f sec : genuine_section points fs sec -> genuine_section points (fs ++ [f]) sec.
Proof. intros [Hp Hb]. split; (eapply Forall_impl; [eassumption |]); intros; by apply genuine_mono. Qed.

Lemma genuine_store_mono points fs f s : genuine_store points fs s -> genuine_store points (fs ++ [f]) s.
Proof.
  intros (ids & us & Hn & Hs & Hu). exists ids, us. split; [done |]. split; [done |]. eapply Forall_impl; [eassumption |].
  intros u [Hq Hg]. split; [done | by apply genuine_mono].
Qed.

(** An exported point is the last update of its slot. *)
Lemma spec_point_update pt us id d : spec_point pt us id = Some d -> exists u, u ∈ us /\ up_id u = id /\ d = mkDataPoint id pt (up_value u) (up_quality u).
Proof.
  unfold spec_point. induction us as [|u us IH] using rev_ind; [done |]. rewrite spec_slot_snoc. case_decide as Hid.
  - intros [= <-]. exists u. rewrite quality_roundtrip, elem_of_app, list_elem_of_singleton. split; [by right | done].
  - intros (u' & Hu & Hrest)%IH. exists u'. rewrite elem_of_app. split; [by left | done].
Qed.

Lemma export_slot_genuine points fs s i d : genuine_store points fs s -> export_slot s i = Some d -> genuine points fs d.
Proof.
  intros (ids & us & Hn & Hs & Hu) He. destruct (ids !! i) as [id|] eqn:Hi.
  - rewrite (export_slot_ok ids Telemetry us s i id Hs Hi) in He. apply spec_point_update in He as (u & Hin & <- & ->).
    rewrite Forall_forall in Hu. destruct (Hu u Hin) as [Hq Hg]. by rewrite Hq.
  - unfold export_slot in He. destruct Hs as [_ Hids _ Hsl]. rewrite Hsl, Hids, Hi in He. change (map (spec_slot us) ids) with (spec_slot us <$> ids) in He.
    rewrite list_lookup_fmap, Hi in He. done.
Qed.

Lemma genuine_store_update points fs s now id v : genuine_store points fs s -> genuine points fs (DataPoint_new id Telemetry v) ->
  genuine_store points fs (SlotStore_update s now id v QGood).
Proof.
  intros (ids & us & Hn & Hs & Hu) Hg. exists ids, (us ++ [mkUpdate now id v QGood]). split; [done |]. split.
  - exact (update_ok ids Telemetry us s (mkUpdate now id v QGood) Hn Hs).
  - apply Forall_app. split; [done |]. by constructor.
Qed.

Lemma NoDup_order_keys {V} (m : gmap Z V) : NoDup (order V m).*1.
Proof using order_perm. rewrite order_perm. apply NoDup_fst_map_to_list. Qed.

Lemma decoded_genuine points fs cache x :
  map_Forall (fun id data => exists f, f ∈ fs /\ fr_raw_id f = id /\ LynkCanId_is_lynk_id id = true /\ data = CanFrameData_from_slice (fr_data f)) cache ->
  x ∈ order _ (PointManager_apply_mappings points cache) -> genuine points fs (can_point x).
Proof using order_perm.
  intros Hc Hx. rewrite order_perm in Hx. destruct x as [id v]. apply elem_of_map_to_list in Hx. unfold PointManager_apply_mappings in Hx.
  rewrite lookup_omap in Hx. destruct (points !! id) as [p|] eqn:Hp; [| done]. cbn in Hx. unfold mapped_value, CanFrameCache_get in Hx.
  destruct (cache !! cn_can_id p) as [data|] eqn:Hd; [| done]. cbn in Hx. destruct (adapter_decode_point p data) as [v'|] eqn:Hv; [| done].
  injection Hx as ->. destruct (Hc _ _ Hd) as (f & Hin & Hid & Hl & ->). exists p, f, v. rewrite Hid. done.
Qed.

Lemma inv_cache_frame points fs ch f : can_inv points fs ch -> f ∈ fs -> can_inv points fs (cache_frame ch f).
Proof.
  intros [] Hf. unfold cache_frame. destruct (LynkCanId_is_lynk_id (fr_raw_id f)) eqn:Hl; [| by constructor]. constructor; try done. cbn [cl_cache cl_set_cache].
  apply map_Forall_insert_2; [| done]. by exists f.
Qed.

Lemma inv_set_receiver points fs ch k phase socket : can_inv points fs ch -> Forall (fun f => f ∈ fs) socket ->
  can_inv points fs (cl_set_receivers ch (<[k := mkReceiver phase socket]> (cl_receivers ch))).
Proof. intros [] Hr. constructor; try done. cbn. by apply Forall_insert. Qed.

Lemma inv_set_reader points fs ch k r : can_inv points fs ch -> (forall sec, rd_section r = Some sec -> genuine_section points fs sec) ->
  can_inv points fs (set_reader ch k r).
Proof. intros [] Hr. constructor; try done. cbn. by apply Forall_insert. Qed.

Lemma inv_failure points fs ch e : can_inv points fs ch -> can_inv points fs (record_failure ch e).
Proof. intros []. by constructor. Qed.

Lemma inv_abort points fs ch late : can_inv points fs ch -> can_inv points fs (CanClient_stop ch late).
Proof.
  intros H. unfold CanClient_stop. assert (H1 : can_inv points fs (abort_receiver ch late)).
  { unfold abort_receiver. destruct (cl_receive_handle ch) as [k|]; [| done]. set (ch1 := hold_late ch k late).
    assert (H1 : can_inv points fs ch1).
    { unfold ch1, hold_late. destruct (cl_receivers ch !! k) as [[[| |] [|f rest]]|] eqn:Hk; try done. destruct late; [| done]. destruct H. constructor; try done. cbn.
      apply Forall_app. split; [done |]. constructor; [| done]. pose proof (Forall_lookup_1 _ _ _ _ ci_sockets0 Hk) as Hs. by inversion Hs. }
    clearbody ch1. destruct H1. constructor; try done. cbn. by apply Forall_insert. }
  revert H1. generalize (abort_receiver ch late). clear. intros ch H. unfold abort_reader. destruct (cl_read_handle ch) as [k|]; [| done].
  destruct H. constructor; try done. cbn. apply Forall_alter; [done |]. intros r Hr _. cbn. by apply (Forall_lookup_1 _ _ _ _ ci_readers0 Hr).
Qed.

Lemma can_inv_connect points fs ch opened : can_inv points fs ch -> can_inv points fs (CanClient_connect ch opened).1.
Proof using order_perm.
  intros []. unfold CanClient_connect. destruct opened; constructor; try done; cbn.
  - apply Forall_app. split; [done |]. by repeat constructor.
  - apply Forall_app. split; [| by repeat constructor]. apply Forall_map. eapply Forall_impl; [exact ci_readers0 |]. done.
  - exists (PointManager_point_ids (cl_points ch)), []. split; [apply NoDup_order_keys |]. split; [apply from_points_ok | constructor].
Qed.

Lemma inv_publish points fs ch batch : can_inv points fs ch -> Forall (genuine points fs) batch -> can_inv points fs (publish ch batch).
Proof.
  intros [] Hb. unfold publish. destruct batch as [|d batch]; [done |]. constructor; try done. cbn. apply Forall_app. split; [done | by constructor].
Qed.

Lemma inv_section points fs ch k now r sec : can_inv points fs ch -> genuine_section points fs sec -> can_inv points fs (section_step ch k now r sec).
Proof.
  intros H [Hp Hb]. unfold section_step. destruct (sc_pending sec) as [|[id v] pending]; [by apply inv_set_reader; [apply inv_publish |] |].
  apply Forall_cons in Hp as [Hg Hp]. apply inv_set_reader; [| by intros sec' [= <-]]. destruct (rd_own r); [| done].
  destruct H. constructor; try done. by apply genuine_store_update.
Qed.

Lemma inv_poll_slot points fs ch i acc : can_inv points fs ch -> cl_poll ch = Some (i, acc) -> can_inv points fs (poll_slot ch i acc).
Proof.
  intros H Hp. pose proof (ci_poll _ _ _ H i acc Hp) as Ha. unfold poll_slot. destruct H. case_match; constructor; try done; cbn.
  - intros j acc' [= <- <-]. apply Forall_app. split; [done |]. destruct (export_slot (cl_store ch) i) as [d|] eqn:He; [| constructor].
    constructor; [by eapply export_slot_genuine | constructor].
  - apply Forall_app. split; [done | by constructor].
Qed.

Lemma inv_hear points fs ch f : can_inv points fs ch -> can_inv points (fs ++ [f]) (cl_set_receivers ch (map (hear f) (cl_receivers ch))).
Proof.
  assert (Hin : forall g, g ∈ fs -> g ∈ fs ++ [f]) by (intros g; rewrite elem_of_app; by left). assert (Hf : f ∈ fs ++ [f]) by (rewrite elem_of_app; right; by constructor).
  intros []. constructor; try done; cbn.
  - apply Forall_map. eapply Forall_impl; [exact ci_sockets0 |]. intros r Hr. cbn in Hr. assert (Hr' : Forall (fun g => g ∈ fs ++ [f]) (rv_socket r)) by (eapply Forall_impl; eauto).
    unfold hear. destruct (rv_phase r); cbn; [done | apply Forall_app; by repeat constructor | done].
  - eapply Forall_impl; eauto.
  - intros id data Hd. destruct (ci_cache0 id data Hd) as (g & ? & ?). exists g. split; [by apply Hin | done].
  - eapply Forall_impl; [exact ci_readers0 |]. intros r Hr sec Hsec. apply genuine_section_mono, Hr, Hsec.
  - by apply genuine_store_mono.
  - intros i acc Ha. eapply Forall_impl; [by eapply ci_poll0 |]. intros. by apply genuine_mono.
  - eapply Forall_impl; [exact ci_events0 |]. intros b Hb. eapply Forall_impl; [exact Hb |]. intros. by apply genuine_mono.
  - eapply Forall_impl; [exact ci_polls0 |]. intros b Hb. eapply Forall_impl; [exact Hb |]. intros. by apply genuine_mono.
Qed.

Lemma can_inv_step points fs ch e ch' : can_inv points fs ch -> can_step e ch = Some ch' ->
  can_inv points (fs ++ frames_of [e]) ch'.
Proof using order_perm.
  intros H Hs. destruct e as [f | opened | late | late | k ok | k err | | k | k now | |]; cbn [can_step frames_of omap list_omap] in *; rewrite ?app_nil_r.
  - injection Hs as <-. by apply inv_hear.
  - unfold owner_call in Hs. destruct (cl_poll ch); [done |]. injection Hs as <-. by apply can_inv_connect.
  - unfold owner_call in Hs. destruct (cl_poll ch); [done |]. injection Hs as <-.
    assert (H1 : can_inv points fs (cl_set_is_connected ch false)) by (destruct H; by constructor).
    apply (inv_abort _ _ _ late) in H1. unfold CanClient_stop in H1. unfold CanClient_disconnect. destruct H1. by constructor.
  - unfold owner_call in Hs. destruct (cl_poll ch); [done |]. injection Hs as <-. by apply inv_abort.
  - destruct (cl_receivers ch !! k) as [[[| |] so]|] eqn:Hk; try done. injection Hs as <-. unfold rx_open.
    destruct ok; [by apply inv_set_receiver |]. by apply (inv_set_receiver _ _ (record_failure ch SocketOpenFailed)); [apply inv_failure |].
  - destruct (cl_receivers ch !! k) as [[[| |] socket]|] eqn:Hk; try done. injection Hs as <-. unfold rx_tick.
    pose proof (Forall_lookup_1 _ _ _ _ (ci_sockets _ _ _ H) Hk) as Hso. cbn in Hso.
    destruct (cl_is_connected ch); cbn [negb]; [destruct err; [by apply inv_failure |] | by apply inv_set_receiver].
    destruct socket as [|f rest]; [done |]. apply Forall_cons in Hso as [Hf Hrest]. apply inv_cache_frame; [by apply inv_set_receiver | done].
  - destruct (cl_late ch) as [|f rest] eqn:Hl; [done |]. injection Hs as <-. pose proof (ci_late _ _ _ H) as Hla. rewrite Hl in Hla.
    apply Forall_cons in Hla as [Hf Hrest]. apply inv_cache_frame; [| done]. destruct H. by constructor.
  - destruct (cl_readers ch !! k) as [[[|] own [sec|]]|] eqn:Hk; try done. injection Hs as <-. unfold read_tick.
    destruct (cl_is_connected ch); cbn [negb]; [| by apply inv_set_reader].
    assert (Hdec : Forall (fun x => genuine points fs (can_point x)) (order _ (PointManager_apply_mappings (cl_points ch) (cl_cache ch)))).
    { apply Forall_forall. intros x Hx. rewrite (ci_points _ _ _ H) in Hx. eapply decoded_genuine; [by destruct H | exact Hx]. }
    destruct (order _ _) as [|x decoded]; [done |]. apply inv_set_reader; [done |]. intros sec [= <-]. split; [done |]. exact (proj2 (Forall_map can_point _ (x :: decoded)) Hdec).
  - destruct (cl_readers ch !! k) as [r|] eqn:Hk; [| done]. destruct (rd_section r) as [sec|] eqn:Hsec; [| done]. injection Hs as <-.
    apply inv_section; [done |]. exact (Forall_lookup_1 _ _ _ _ (ci_readers _ _ _ H) Hk sec Hsec).
  - unfold owner_call in Hs. destruct (cl_poll ch); [done |]. injection Hs as <-. destruct H. constructor; try done. cbn. by intros i acc [= <- <-].
  - destruct (cl_poll ch) as [[i acc]|] eqn:Hp; [| done]. injection Hs as <-. by apply inv_poll_slot.
Qed.

Lemma frames_of_app es es' : frames_of (es ++ es') = frames_of es ++ frames_of es'.
Proof. apply omap_app. Qed.

Lemma inv_run es : forall points fs ch ch', can_inv points fs ch -> can_run es ch = Some ch' -> can_inv points (fs ++ frames_of es) ch'.
Proof using order_perm.
  induction es as [|e es IH]; intros points fs ch ch' H Hr; [injection Hr as <-; by rewrite app_nil_r |]. cbn [can_run] in Hr.
  destruct (can_step e ch) as [ch1|] eqn:Hs; [| done]. cbn in Hr. apply (IH points (fs ++ frames_of [e]) ch1) in Hr; [| by eapply can_inv_step].
  by rewrite <- app_assoc, <- frames_of_app in Hr.
Qed.

Lemma inv_new points : can_inv (cl_points (CanClient_add_points CanClient_new points)) [] (CanClient_add_points CanClient_new points).
Proof.
  constructor; try done; try constructor; cbn; try done. exists [], []. split; [constructor |]. split; [split; done | constructor].
Qed.

(** C23: Whatever the interleaving of the bus, the receive and read tasks and the calls of
    the owner - repeated connects, aborted tasks that finish what they were doing, polls that
    overlap the writing of slots - every point a CAN channel publishes or a poll returns is a
    telemetry reading of good quality whose value is what a configured point decodes to in a
    frame received with that point's identifier. *)
Theorem can_readings_from_frames points es ch d : can_run es (CanClient_add_points CanClient_new points) = Some ch ->
  d ∈ concat (cl_events ch) ++ concat (cl_polls ch) -> genuine (foldl PointManager_add_point ∅ points) (frames_of es) d.
Proof using order_perm.
  intros Hr Hd. pose proof (inv_run es _ _ _ _ (inv_new points) Hr) as H. cbn [app] in H.
  assert (Hall : Forall (Forall (genuine (foldl PointManager_add_point ∅ points) (frames_of es))) (cl_events ch ++ cl_polls ch)) by (apply Forall_app; by destruct H).
  rewrite <- concat_app in Hd. apply list_elem_of_In, in_concat in Hd as (b & Hb%list_elem_of_In & Hin%list_elem_of_In).
  rewrite Forall_forall in Hall. specialize (Hall b Hb). rewrite Forall_forall in Hall. by apply Hall.
Qed.

(** * What one cycle publishes *)

Lemma can_run_app es es' ch : can_run (es ++ es') ch = (ch' ← can_run es ch; can_run es' ch').
Proof. revert ch. induction es as [|e es IH]; intros ch; [done |]. cbn [app can_run]. destruct (can_step e ch); [apply IH | done]. Qed.

Lemma can_run_cons e es ch : can_run (e :: es) ch = (ch' ← can_step e ch; can_run es ch').
Proof. done. Qed.

(** The events of one complete turn of the reading task over [n] decoded points. *)
Definition read_cycle (k n : nat) (now : Z) : list CanEvent := ReadTick k :: replicate (S n) (ReadStep k now).
Definition decoded (ch : CanClient) : list (Z * ProtoValue) := order _ (PointManager_apply_mappings (cl_points ch) (cl_cache ch)).
Definition good_updates (now : Z) (xs : list (Z * ProtoValue)) : list Update := map (fun x => mkUpdate now x.1 x.2 QGood) xs.

(** An idle reading task of a connected client. *)
Definition idle_reader (ch : CanClient) (k : nat) (own : bool) : Prop :=
  cl_is_connected ch = true /\ cl_readers ch !! k = Some (mkReader true own None).

(** What a cycle changes: the store, when it is the task's, and the events. *)
Record after_cycle (own : bool) (us : list Update) (batch : list DataPoint) (ch ch' : CanClient) : Prop := {
  ac_connected : cl_is_connected ch' = cl_is_connected ch;
  ac_receivers : cl_receivers ch' = cl_receivers ch;
  ac_readers : cl_readers ch' = cl_readers ch;
  ac_cache : cl_cache ch' = cl_cache ch;
  ac_points : cl_points ch' = cl_points ch;
  ac_poll : cl_poll ch' = cl_poll ch;
  ac_polls : cl_polls ch' = cl_polls ch;
  ac_state : cl_state ch' = cl_state ch;
  ac_events : cl_events ch' = cl_events ch ++ [batch];
  ac_store : cl_store ch' = if own then ps_run (cl_store ch) us else cl_store ch;
}.

Lemma section_run k now own batch pending : batch <> [] -> forall ch, cl_readers ch !! k = Some (mkReader true own (Some (mkReadSection pending batch))) ->
  exists ch', can_run (replicate (S (length pending)) (ReadStep k now)) ch = Some ch' /\
    after_cycle own (good_updates now pending) batch (set_reader ch k (mkReader true own None)) ch'.
Proof.
  intros Hb. induction pending as [|[id v] pending IH]; intros ch Hk.
  - cbn [length replicate can_run can_step]. rewrite Hk. cbn [rd_section section_step sc_pending sc_batch rd_alive rd_own mbind option_bind]. eexists. split; [reflexivity |].
    unfold publish. destruct batch as [|d batch]; [done |]. split; try done. by destruct own.
  - cbn [length]. rewrite replicate_S. cbn [can_run can_step]. rewrite Hk. cbn [rd_section section_step sc_pending sc_batch rd_alive rd_own mbind option_bind].
    set (ch1 := if own then cl_set_store ch (SlotStore_update (cl_store ch) now id v QGood) else ch).
    assert (Hr1 : cl_readers ch1 = cl_readers ch) by (unfold ch1; by destruct own).
    destruct (IH (set_reader ch1 k (mkReader true own (Some (mkReadSection pending batch))))) as (ch' & Hrun & H).
    { cbn. rewrite Hr1. apply list_lookup_insert_eq. by apply lookup_lt_Some in Hk. }
    exists ch'. split; [exact Hrun |]. destruct H. unfold set_reader, ch1 in *. destruct own; cbn in *; split; try done; congruence || (rewrite ac_readers0, list_insert_insert_eq; done).
Qed.

Lemma read_cycle_run ch k own now : idle_reader ch k own -> decoded ch <> [] ->
  exists ch', can_run (read_cycle k (length (decoded ch)) now) ch = Some ch' /\
    after_cycle own (good_updates now (decoded ch)) (map can_point (decoded ch)) ch ch'.
Proof.
  intros [Hc Hk] Hd. unfold read_cycle. cbn [can_run can_step]. rewrite Hk. unfold read_tick. rewrite Hc. cbn [negb]. fold (decoded ch).
  destruct (decoded ch) as [|x xs] eqn:Hdec; [done |]. cbn [mbind option_bind]. rewrite <- Hdec.
  set (sec := mkReadSection (decoded ch) (map can_point (decoded ch))). pose proof (lookup_lt_Some _ _ _ Hk) as Hlt.
  destruct (section_run k now own (map can_point (decoded ch)) (decoded ch)) with (ch := set_reader ch k (mkReader true own (Some sec))) as (ch' & Hrun & H).
  - rewrite Hdec. done.
  - cbn. by apply list_lookup_insert_eq.
  - exists ch'. split; [exact Hrun |]. destruct H. unfold set_reader in *. cbn in *. split; try done.
    rewrite ac_readers0, list_insert_insert_eq. by apply list_insert_id.
Qed.

(** * A silent bus *)

Lemma after_cycle_idle own us batch ch ch' k o : after_cycle own us batch ch ch' -> idle_reader ch k o -> idle_reader ch' k o /\ decoded ch' = decoded ch.
Proof. intros [] [Hc Hk]. unfold idle_reader, decoded. by rewrite ac_connected0, ac_readers0, ac_points0, ac_cache0. Qed.

(** A dead bus looks alive.  The cache never forgets a frame: once a frame that decodes
    has been received, every following cycle of the reading task publishes its values again,
    with good quality and the current time, however many cycles pass without a frame from
    the bus; and a poll then never comes back empty. *)
Theorem dead_bus_looks_alive ch k own now n : idle_reader ch k own -> decoded ch <> [] ->
  exists ch', can_run (concat (replicate n (read_cycle k (length (decoded ch)) now))) ch = Some ch' /\
    cl_events ch' = cl_events ch ++ replicate n (map can_point (decoded ch)) /\ cl_state ch' = cl_state ch /\ idle_reader ch' k own.
Proof.
  intros Hi Hd. revert ch Hi Hd. induction n as [|n IH]; intros ch Hi Hd; [exists ch; by rewrite app_nil_r |].
  cbn [replicate concat]. rewrite can_run_app. destruct (read_cycle_run ch k own now Hi Hd) as (ch1 & -> & H1). cbn [mbind option_bind].
  destruct (after_cycle_idle _ _ _ _ _ _ _ H1 Hi) as [Hi1 Hd1]. rewrite <- Hd1 in Hd |- *. destruct (IH ch1 Hi1 Hd) as (ch' & Hrun & He & Hs & Hi').
  exists ch'. split; [exact Hrun |]. rewrite He, Hs, Hd1. destruct H1. rewrite ac_events0, ac_state0, <- app_assoc. done.
Qed.

(** * From the bus to the poll *)

Definition cache_all (c : CanFrameCache) (fs : list Frame) : CanFrameCache :=
  foldl (fun c f => if LynkCanId_is_lynk_id (fr_raw_id f) then CanFrameCache_update c (fr_raw_id f) (fr_data f) else c) c fs.

Lemma set_cache_same ch : cl_set_cache ch (cl_cache ch) = ch.
Proof. by destruct ch. Qed.

Lemma rx_drain k socket : forall ch, cl_is_connected ch = true -> cl_receivers ch !! k = Some (mkReceiver RxRunning socket) ->
  can_run (replicate (length socket) (RxTick k false)) ch =
    Some (cl_set_cache (cl_set_receivers ch (<[k := mkReceiver RxRunning []]> (cl_receivers ch))) (cache_all (cl_cache ch) socket)).
Proof.
  induction socket as [|f socket IH]; intros ch Hc Hk; cbn [length replicate can_run cache_all foldl].
  - rewrite list_insert_id by done. by destruct ch.
  - cbn [can_step]. rewrite Hk. unfold rx_tick. rewrite Hc. cbn [negb mbind option_bind]. pose proof (lookup_lt_Some _ _ _ Hk) as Hlt.
    rewrite IH; unfold cache_frame; [| by case_match | case_match; by apply list_lookup_insert_eq].
    case_match; cbn; by rewrite list_insert_insert_eq.
Qed.

(** The cache holds the last frame of every identifier. *)
Lemma cache_all_last c fs id : LynkCanId_is_lynk_id id = true ->
  cache_all c fs !! id = match last (filter (fun f => fr_raw_id f = id) fs) with Some f => Some (CanFrameData_from_slice (fr_data f)) | None => c !! id end.
Proof.
  intros Hl. unfold cache_all. induction fs as [|f fs IH] using rev_ind; [done |]. rewrite foldl_snoc, filter_app, filter_cons, filter_nil.
  destruct (decide (fr_raw_id f = id)) as [He|He].
  - rewrite last_snoc, He, Hl. apply lookup_insert_eq.
  - rewrite app_nil_r, <- IH. destruct (LynkCanId_is_lynk_id (fr_raw_id f)); [by apply lookup_insert_ne | done].
Qed.

Lemma poll_steps n : forall ch i acc, cl_poll ch = Some (i, acc) -> (i + n = length (ss_slots (cl_store ch)))%nat ->
  can_run (replicate (S n) PollStep) ch = Some (cl_set_polls (cl_set_poll ch None) (cl_polls ch ++ [acc ++ omap (export_slot (cl_store ch)) (seq i n)])).
Proof.
  induction n as [|n IH]; intros ch i acc Hp Hn; rewrite replicate_S, can_run_cons; cbn [can_step]; rewrite Hp; cbn [mbind option_bind]; unfold poll_slot.
  - assert ((i <? length (ss_slots (cl_store ch)))%nat = false) as -> by (apply Nat.ltb_ge; lia). cbn. by rewrite app_nil_r.
  - assert ((i <? length (ss_slots (cl_store ch)))%nat = true) as -> by (apply Nat.ltb_lt; lia).
    rewrite (IH _ (S i) (acc ++ option_list (export_slot (cl_store ch) i))) by (done || (cbn; lia)).
    unfold cl_set_polls, cl_set_poll. cbn [seq omap list_omap cl_polls cl_store cl_state cl_is_connected cl_read_count cl_error_count cl_last_error cl_receivers cl_receive_handle cl_readers cl_read_handle cl_cache cl_points cl_late cl_events].
    rewrite <- app_assoc. by destruct (export_slot (cl_store ch) i).
Qed.

(** The events of one undisturbed poll of [n] slots. *)
Definition poll_cycle (n : nat) : list CanEvent := PollStart :: replicate (S n) PollStep.
Lemma poll_cycle_run ch : cl_poll ch = None ->
  can_run (poll_cycle (length (ss_slots (cl_store ch)))) ch = Some (cl_set_polls ch (cl_polls ch ++ [SlotStore_export_all (cl_store ch)])).
Proof.
  intros Hp. unfold poll_cycle. cbn [can_run can_step]. unfold owner_call. rewrite Hp. cbn [mbind option_bind].
  rewrite (poll_steps (length (ss_slots (cl_store ch))) _ 0%nat []) by done. destruct ch; cbn in *. by subst.
Qed.

(** A point keeps the value of its only update among the last ones. *)
Lemma spec_point_good pt us now xs id v : NoDup xs.*1 -> (id, v) ∈ xs ->
  spec_point pt (us ++ good_updates now xs) id = Some (mkDataPoint id pt v QGood).
Proof.
  unfold spec_point, good_updates. induction xs as [|[j w] xs IH] using rev_ind; intros Hn Hin; [by apply not_elem_of_nil in Hin |].
  rewrite fmap_app, NoDup_app in Hn. destruct Hn as (Hn & Hj & _). rewrite map_app, app_assoc. cbn [map]. rewrite spec_slot_snoc. cbn [up_id fst].
  apply elem_of_app in Hin as [Hin | Hin].
  - rewrite decide_False; [by apply IH |]. intros <-. apply (Hj id); [by apply (list_elem_of_fmap_2 fst) in Hin | by constructor].
  - apply list_elem_of_singleton in Hin. injection Hin as <- <-. by rewrite decide_True.
Qed.

(** The events from the connection to a poll: the frames arrive, the receive task takes
    them one per tick, the reading task makes a cycle. *)
Definition capture (fs : list Frame) : list CanEvent :=
  [OwnerConnect true; RxOpen 0 true] ++ map BusFrame fs ++ replicate (length fs) (RxTick 0 false).
Definition after_capture (points : list CanPoint) (fs : list Frame) : CanClient :=
  let ch := (CanClient_connect (CanClient_add_points CanClient_new points) true).1 in
  cl_set_cache (cl_set_receivers ch [mkReceiver RxRunning []]) (cache_all ∅ fs).

Lemma bus_frames_run fs : forall ch socket, cl_receivers ch = [mkReceiver RxRunning socket] ->
  can_run (map BusFrame fs) ch = Some (cl_set_receivers ch [mkReceiver RxRunning (socket ++ fs)]).
Proof.
  induction fs as [|f fs IH]; intros ch socket Hr; cbn [map can_run can_step mbind option_bind]; [rewrite app_nil_r; destruct ch; cbn in *; by subst |].
  rewrite (IH _ (socket ++ [f])) by by cbn; rewrite Hr. rewrite <- app_assoc. done.
Qed.

Lemma capture_run points fs : can_run (capture fs) (CanClient_add_points CanClient_new points) = Some (after_capture points fs).
Proof.
  unfold capture, after_capture. set (ch0 := CanClient_add_points _ _). set (ch := (CanClient_connect ch0 true).1).
  assert (H1 : can_step (OwnerConnect true) ch0 = Some ch) by reflexivity.
  assert (H2 : can_step (RxOpen 0 true) ch = Some (cl_set_receivers ch [mkReceiver RxRunning []])) by reflexivity.
  assert (H3 : cl_is_connected ch = true) by reflexivity. assert (H4 : cl_cache ch = ∅) by reflexivity. clearbody ch0 ch.
  cbn [app]. rewrite can_run_cons, H1. cbn [mbind option_bind]. rewrite can_run_cons, H2. cbn [mbind option_bind].
  rewrite can_run_app, (bus_frames_run fs _ []) by done. cbn [mbind option_bind app]. rewrite (rx_drain 0%nat fs) by done.
  cbn. by rewrite H4.
Qed.

(** Data gets through.  A client that connects to a bus, receives some frames and lets
    its two tasks run - one tick of the receive task per frame, then a cycle of the reading
    task - publishes a batch and answers a poll with the value of every point whose frame
    was among them, decoded from the last frame of its identifier. *)
Theorem latest_frames_reach_poll points fs id p f v now :
  foldl PointManager_add_point ∅ points !! id = Some p -> LynkCanId_is_lynk_id (cn_can_id p) = true ->
  last (filter (fun g => fr_raw_id g = cn_can_id p) fs) = Some f -> adapter_decode_point p (CanFrameData_from_slice (fr_data f)) = Ok v ->
  exists n ch' batch polled,
    can_run (capture fs ++ read_cycle 0 n now ++ poll_cycle (size (foldl PointManager_add_point ∅ points))) (CanClient_add_points CanClient_new points) = Some ch' /\
    cl_events ch' = [batch] /\ cl_polls ch' = [polled] /\ DataPoint_new id Telemetry v ∈ batch /\ DataPoint_new id Telemetry v ∈ polled.
Proof using order_perm.
  intros Hp Hl Hf Hv. set (m := foldl PointManager_add_point ∅ points) in *. set (ch := after_capture points fs).
  assert (Hin : (id, v) ∈ decoded ch).
  { unfold decoded. rewrite order_perm, elem_of_map_to_list. unfold PointManager_apply_mappings. rewrite lookup_omap. change (cl_points ch) with m. rewrite Hp.
    cbn [mbind option_bind]. unfold mapped_value, CanFrameCache_get. change (cl_cache ch) with (cache_all ∅ fs). by rewrite cache_all_last, Hf; cbn; rewrite ?Hv. }
  destruct (read_cycle_run ch 0 true now) as (ch1 & Hrun & H1); [by split | intros Hd; rewrite Hd in Hin; by apply not_elem_of_nil in Hin |].
  assert (Hn : NoDup (PointManager_point_ids m)) by apply NoDup_order_keys.
  pose proof (store_run_ok (PointManager_point_ids m) Telemetry (good_updates now (decoded ch)) Hn) as Hs.
  change (SlotStore_from_points _ _) with (cl_store ch) in Hs. rewrite <- (ac_store _ _ _ _ _ H1 : cl_store ch1 = ps_run _ _) in Hs.
  exists (length (decoded ch)). eexists _, (map can_point (decoded ch)), (SlotStore_export_all (cl_store ch1)).
  rewrite can_run_app, capture_run. fold ch. cbn [mbind option_bind]. rewrite can_run_app, Hrun. cbn [mbind option_bind].
  assert (size m = length (ss_slots (cl_store ch1))) as ->.
  { rewrite (so_slots _ _ _ _ Hs), length_map. unfold PointManager_point_ids. by rewrite length_fmap, order_perm, length_map_to_list. }
  rewrite poll_cycle_run by by rewrite (ac_poll _ _ _ _ _ H1). split; [reflexivity |]. cbn. rewrite (ac_events _ _ _ _ _ H1), (ac_polls _ _ _ _ _ H1). cbn.
  split; [done |]. split; [done |]. split; [by apply (list_elem_of_fmap_2 can_point) in Hin |].
  rewrite (export_all_ok _ _ _ _ Hs). apply list_elem_of_omap. exists id. split.
  - unfold PointManager_point_ids. rewrite order_perm. apply list_elem_of_fmap. exists (id, p). by rewrite elem_of_map_to_list.
  - apply (spec_point_good Telemetry [] now); [apply NoDup_order_keys | done].
Qed.

Lemma abort_receiver_frame ch late : let c := abort_receiver ch late in
  cl_is_connected c = cl_is_connected ch /\ cl_readers c = cl_readers ch /\ cl_read_handle c = cl_read_handle ch.
Proof.
  unfold abort_receiver, hold_late. destruct (cl_receive_handle ch) as [k|]; [| done].
  destruct (cl_receivers ch !! k) as [[[| |] [|f rest]]|]; try done. by destruct late.
Qed.

(** A connect of a client that is running starts another pair of tasks, and only their
    handles are kept: a stop then leaves the earlier reading task running, and publishing. *)
Theorem second_connect_keeps_reader ch k own late : idle_reader ch k own ->
  let ch' := CanClient_stop (CanClient_connect ch true).1 late in idle_reader ch' k false /\ cl_read_handle ch' = None.
Proof.
  intros [Hc Hk]. cbn zeta. unfold CanClient_stop. set (ch1 := (CanClient_connect ch true).1).
  assert (Hh : cl_read_handle ch1 = Some (length (cl_readers ch))) by reflexivity. assert (Hc1 : cl_is_connected ch1 = true) by reflexivity.
  assert (Hr : cl_readers ch1 = map (fun r => mkReader (rd_alive r) false (rd_section r)) (cl_readers ch) ++ [mkReader true true None]) by reflexivity. clearbody ch1.
  destruct (abort_receiver_frame ch1 late) as (H1 & H2 & H3). unfold abort_reader. rewrite H3, Hh. cbn. split; [| done]. split; [cbn in *; by rewrite H1 |]. cbn.
  pose proof (lookup_lt_Some _ _ _ Hk) as Hlt. rewrite H2, Hr, list_lookup_alter_ne by lia.
  rewrite lookup_app_l by by rewrite length_map. change (map ?g ?l) with (g <$> l). rewrite list_lookup_fmap, Hk. done.
Qed.

(** A connect that finds no bus leaves the client in the connecting state. *)
Theorem failed_connect_stays_connecting ch : cl_state (CanClient_connect ch false).1 = CsConnecting /\ (CanClient_connect ch false).2 = false.
Proof. done. Qed.

(** A receive task that cannot open its socket counts an error and ends; the client stays
    connected, and no later tick of it can take a frame. *)
Theorem lost_receiver_unnoticed ch k : cl_receivers ch !! k = Some (mkReceiver RxOpening []) ->
  let ch' := rx_open ch k false in
  cl_state ch' = cl_state ch /\ cl_is_connected ch' = cl_is_connected ch /\ cl_last_error ch' = Some SocketOpenFailed /\
  forall err, can_step (RxTick k err) ch' = None.
Proof.
  intros Hk. split; [done |]. split; [done |]. split; [done |]. intros err. cbn [can_step rx_open cl_receivers cl_set_receivers record_failure cl_set_error_count cl_set_last_error].
  rewrite list_lookup_insert_eq; [done |]. by apply lookup_lt_Some in Hk.
Qed.

End Client.

(** * A bus with one battery *)

Definition demo_points : list CanPoint :=
  [mkCanPoint 1 Telemetry 0x356 0 0 16 CanInt16 f64_one f64_zero; mkCanPoint 2 Telemetry 0x356 2 0 16 CanInt16 f64_one f64_zero;
   mkCanPoint 3 Telemetry 0x35A 0 2 2 CanUInt8 f64_one f64_zero].
Definition demo_frames : list Frame := [mkFrame 0x356 [0xEC; 0x14; 0xF0; 0xFF]; mkFrame 0x123 [1; 2]; mkFrame 0x356 [0xED; 0x14; 0xF1; 0xFF]].
Definition demo_order (V : Type) (m : gmap Z V) : list (Z * V) := map_to_list m.
Definition demo_client : CanClient := after_capture demo_order demo_points demo_frames.

Lemma demo_order_perm V (m : gmap Z V) : demo_order V m ≡ₚ map_to_list m.
Proof. done. Qed.

Lemma latest_frames_reach_poll_witness : exists n ch' batch polled,
    can_run demo_order (capture demo_frames ++ read_cycle 0 n 5 ++ poll_cycle 3) (CanClient_add_points CanClient_new demo_points) = Some ch' /\
    cl_events ch' = [batch] /\ cl_polls ch' = [polled] /\ DataPoint_new 2 Telemetry (PInteger (-15)) ∈ batch /\ DataPoint_new 2 Telemetry (PInteger (-15)) ∈ polled.
Proof.
  exact (latest_frames_reach_poll demo_order demo_order_perm demo_points demo_frames 2 (mkCanPoint 2 Telemetry 0x356 2 0 16 CanInt16 f64_one f64_zero)
    (mkFrame 0x356 [0xED; 0x14; 0xF1; 0xFF]) (PInteger (-15)) 5 ltac:(vm_compute; reflexivity) ltac:(vm_compute; reflexivity) ltac:(vm_compute; reflexivity) ltac:(vm_compute; reflexivity)).
Defined.

Lemma dead_bus_looks_alive_witness : exists ch', can_run demo_order (concat (replicate 100 (read_cycle 0 2 7))) demo_client = Some ch' /\
    cl_events ch' = replicate 100 (map can_point [(2, PInteger (-15)); (1, PInteger 5357)]) /\ cl_state ch' = CsConnected /\ idle_reader ch' 0 true.
Proof.
  assert (Hd : decoded demo_order demo_client = [(2, PInteger (-15)); (1, PInteger 5357)]) by (vm_compute; reflexivity).
  destruct (dead_bus_looks_alive demo_order demo_client 0 true 7 100) as (ch' & Hr & He & Hs & Hi); [split; vm_compute; reflexivity | rewrite Hd; discriminate |].
  assert (He0 : cl_events demo_client = []) by (vm_compute; reflexivity). assert (Hs0 : cl_state demo_client = CsConnected) by (vm_compute; reflexivity).
  exists ch'. rewrite Hd in Hr, He. rewrite He0 in He. rewrite Hs0 in Hs. exact (conj Hr (conj He (conj Hs Hi))).
Defined.

(** The run of the witness, with the poll it ends in. *)
Definition demo_run : list CanEvent := capture demo_frames ++ read_cycle 0 2 5 ++ poll_cycle 3.
Lemma can_readings_from_frames_witness : exists ch, can_run demo_order demo_run (CanClient_add_points CanClient_new demo_points) = Some ch /\
  genuine (foldl PointManager_add_point ∅ demo_points) demo_frames (DataPoint_new 1 Telemetry (PInteger 5357)).
Proof.
  destruct (can_run demo_order demo_run (CanClient_add_points CanClient_new demo_points)) as [ch|] eqn:Hr; [| exfalso; vm_compute in Hr; discriminate].
  exists ch. split; [reflexivity |]. refine (can_readings_from_frames demo_order demo_order_perm demo_points demo_run ch _ Hr _).
  assert (Hc : cl_events ch = [map can_point [(2, PInteger (-15)); (1, PInteger 5357)]]) by (vm_compute in Hr; injection Hr as <-; reflexivity).
  rewrite Hc. apply elem_of_app. left. right. by constructor.
Defined.
