(* ===== verification/Zigbee.v ===== *)
(** The Zigbee adapter of comsrv: [services/comsrv/src/protocols/adapters/zigbee_codec.rs]
    and [zigbee.rs].

    The codec works on a receive buffer; the channel runs an event loop over the TCP stream
    beside the calls of its owner.  What the stream delivers and whether a connection can be
    opened are inputs.  The error texts are replaced by constructors, the log lines, the
    logging handler and the driver metadata are left out. *)
From stdpp Require Import base numbers list gmap strings.
From Stdlib Require Import ZArith Lia.
From S2P Require Import Prelude PointTypes Registers Listener Reconnect ChannelTask Modbus MmsTransport.
Local Open Scope Z_scope.
Set Warnings "-clear-no-such-hyp".

(** * Frames *)

(** Characters are the bytes of their encoding; floats are their bits. *)
Inductive ZclValue :=
| ZclBool (v : bool)
| ZclUInt8 (v : Z) | ZclUInt16 (v : Z) | ZclUInt32 (v : Z)
| ZclInt8 (v : Z) | ZclInt16 (v : Z) | ZclInt32 (v : Z)
| ZclFloat (bits : Z) | ZclDouble (bits : Z)
| ZclString (s : list Z) | ZclBytes (b : list Z).

Definition ZclValue_to_f64 (v : ZclValue) : Z :=
  match v with
  | ZclBool b => if b then f64_one else f64_zero
  | ZclUInt8 v | ZclUInt16 v | ZclUInt32 v | ZclInt8 v | ZclInt16 v | ZclInt32 v => f64_of_Z v
  | ZclFloat b => f64_of_f32 b
  | ZclDouble b => b
  | ZclString _ | ZclBytes _ => f64_zero
  end.
Definition ZclValue_type_id (v : ZclValue) : Z :=
  match v with
  | ZclBool _ => 0x10 | ZclUInt8 _ => 0x20 | ZclUInt16 _ => 0x21 | ZclUInt32 _ => 0x23 | ZclInt8 _ => 0x28 | ZclInt16 _ => 0x29
  | ZclInt32 _ => 0x2B | ZclFloat _ => 0x39 | ZclDouble _ => 0x3A | ZclString _ => 0x42 | ZclBytes _ => 0x41
  end.

Record AttributeReport := mkAttributeReport { ar_ieee_addr : Z; ar_endpoint : Z; ar_cluster_id : Z; ar_attribute_id : Z; ar_value : ZclValue }.
Inductive ZigbeeFrame :=
| ZfReport (r : AttributeReport)
| ZfDeviceAnnounce (ieee_addr short_addr : Z)
| ZfCommandResponse (seq status : Z)
| ZfUnknown (data : list Z).

Inductive ZigbeeFault := ZeroLength | ChecksumMismatch | PayloadTooShort | EmptyValue | TruncatedValue | UnsupportedType (t : Z).

Definition ATTR_REPORT_MIN_PAYLOAD : nat := 13.
Definition DEVICE_ANNOUNCE_PAYLOAD : nat := 10.
Definition CMD_RESPONSE_PAYLOAD : nat := 2.

Definition zigbee_checksum (data : list Z) : Z := foldl Z.lxor 0 data.

(** The getters of a buffer: the next [n] bytes as a little-endian number, and the rest. *)
Definition get_le (n : nat) (buf : list Z) : Z := from_le_bytes (take n buf).
Definition need {A} (n : nat) (buf : list Z) (v : A) : result A ZigbeeFault := if (length buf <? n)%nat then Err TruncatedValue else Ok v.
(** A string behind its length byte. *)
Definition counted (buf : list Z) : result (list Z) ZigbeeFault :=
  match buf with
  | [] => Err TruncatedValue
  | len :: rest => if (length rest <? Z.to_nat len)%nat then Err TruncatedValue else Ok (take (Z.to_nat len) rest)
  end.
(** Both ways of the source to make a string are the lossy conversion. *)
Definition parse_zcl_value (buf : list Z) : result ZclValue ZigbeeFault :=
  match buf with
  | [] => Err EmptyValue
  | type_id :: buf =>
      if type_id =? 0x10 then need 1 buf (ZclBool (negb (get_le 1 buf =? 0)))
      else if type_id =? 0x20 then need 1 buf (ZclUInt8 (get_le 1 buf))
      else if type_id =? 0x21 then need 2 buf (ZclUInt16 (get_le 2 buf))
      else if type_id =? 0x23 then need 4 buf (ZclUInt32 (get_le 4 buf))
      else if type_id =? 0x28 then need 1 buf (ZclInt8 (to_signed 8 (get_le 1 buf)))
      else if type_id =? 0x29 then need 2 buf (ZclInt16 (to_signed 16 (get_le 2 buf)))
      else if type_id =? 0x2B then need 4 buf (ZclInt32 (to_signed 32 (get_le 4 buf)))
      else if type_id =? 0x39 then need 4 buf (ZclFloat (get_le 4 buf))
      else if type_id =? 0x3A then need 8 buf (ZclDouble (get_le 8 buf))
      else if type_id =? 0x41 then let? data := counted buf in Ok (ZclBytes data)
      else if type_id =? 0x42 then let? data := counted buf in Ok (ZclString (lossy_loop (length data) data))
      else Err (UnsupportedType type_id)
  end.
Definition encode_zcl_value (v : ZclValue) : list Z :=
  ZclValue_type_id v ::
  match v with
  | ZclBool b => [Z.b2z b]
  | ZclUInt8 v | ZclInt8 v => to_le_bytes 1 v
  | ZclUInt16 v | ZclInt16 v => to_le_bytes 2 v
  | ZclUInt32 v | ZclInt32 v | ZclFloat v => to_le_bytes 4 v
  | ZclDouble v => to_le_bytes 8 v
  | ZclString b | ZclBytes b => wrap 8 (Z.of_nat (length b)) :: b
  end.

Definition parse_payload (frame_type : Z) (payload : list Z) : result ZigbeeFrame ZigbeeFault :=
  if frame_type =? 0x01 then
    if (length payload <? ATTR_REPORT_MIN_PAYLOAD)%nat then Err PayloadTooShort
    else
      let? value := parse_zcl_value (drop 13 payload) in
      Ok (ZfReport (mkAttributeReport (get_le 8 payload) (get_le 1 (drop 8 payload)) (get_le 2 (drop 9 payload)) (get_le 2 (drop 11 payload)) value))
  else if frame_type =? 0x02 then
    if (length payload <? DEVICE_ANNOUNCE_PAYLOAD)%nat then Err PayloadTooShort
    else Ok (ZfDeviceAnnounce (get_le 8 payload) (get_le 2 (drop 8 payload)))
  else if frame_type =? 0x03 then
    if (length payload <? CMD_RESPONSE_PAYLOAD)%nat then Err PayloadTooShort
    else Ok (ZfCommandResponse (get_le 1 payload) (get_le 1 (drop 1 payload)))
  else Ok (ZfUnknown payload).

(** [decode]: what is left in the buffer, and the frame, the need for more data, or the error. *)
Definition zigbee_decode (buf : list Z) : list Z * result (option ZigbeeFrame) ZigbeeFault :=
  match buf with
  | b0 :: b1 :: _ :: _ :: _ =>
      let len := Z.to_nat (from_be_bytes [b0; b1]) in
      if (len =? 0)%nat then (drop 2 buf, Err ZeroLength)
      else
        let total := (2 + len + 1)%nat in
        if (length buf <? total)%nat then (buf, Ok None)
        else
          let region := take len (drop 2 buf) in
          (drop total buf,
           if negb (zigbee_checksum region =? default 0 (buf !! (2 + len)%nat)) then Err ChecksumMismatch
           else let? frame := parse_payload (default 0 (region !! 0%nat)) (drop 1 region) in Ok (Some frame))
  | _ => (buf, Ok None)
  end.

(** A frame around a type byte and a payload, as [encode_command] builds it. *)
Definition raw_frame (inner : list Z) : list Z := to_be_bytes 2 (Z.of_nat (length inner)) ++ inner ++ [zigbee_checksum inner].
Definition encode_command (ieee_addr endpoint cluster_id command_id : Z) (payload : list Z) : list Z :=
  raw_frame (0x10 :: to_le_bytes 8 ieee_addr ++ [endpoint] ++ to_le_bytes 2 cluster_id ++ [command_id] ++ payload).

(** * The channel *)

(** What a read of the stream returns: bytes, the end of the stream, or an error. *)
Inductive StreamRead := ReadBytes (chunk : list Z) | ReadClosed | ReadFailed.
(** What the channel broadcasts. *)
Inductive ZigbeeEvent := ZeState (s : ConnState) | ZeData (p : DataPoint) | ZeError.

(** An event loop task: running, aborted inside a section it will still finish, or ended. *)
Inductive LoopPhase := LoopRunning | LoopAborted | LoopEnded.
Record EventLoop := mkEventLoop { el_phase : LoopPhase; el_buf : list Z }.

Definition PointLookupKey : Type := Z * Z * Z * Z.
Definition address_key (a : ZigbeeAddress) : PointLookupKey := (za_ieee_address a, za_endpoint a, za_cluster_id a, za_attribute_id a).

Record ZigbeeChannel := mkZigbeeChannel {
  zc_points : list PointConfig;
  zc_state : ConnState;
  zc_loops : list EventLoop;
  zc_event_loop_handle : option nat;
  zc_write_half : bool;
  zc_events : list ZigbeeEvent;
  zc_sent : list (list Z);
  zc_read_count : Z;
  zc_write_count : Z;
  zc_error_count : Z;
}.
Definition ZigbeeChannel_new (points : list PointConfig) : ZigbeeChannel := mkZigbeeChannel points CsDisconnected [] None false [] [] 0 0 0.

Definition zc_set_loops (ch : ZigbeeChannel) (v : list EventLoop) : ZigbeeChannel :=
  mkZigbeeChannel (zc_points ch) (zc_state ch) v (zc_event_loop_handle ch) (zc_write_half ch) (zc_events ch) (zc_sent ch) (zc_read_count ch) (zc_write_count ch) (zc_error_count ch).
Definition zc_set_handle (ch : ZigbeeChannel) (v : option nat) : ZigbeeChannel :=
  mkZigbeeChannel (zc_points ch) (zc_state ch) (zc_loops ch) v (zc_write_half ch) (zc_events ch) (zc_sent ch) (zc_read_count ch) (zc_write_count ch) (zc_error_count ch).
Definition zc_set_write_half (ch : ZigbeeChannel) (v : bool) : ZigbeeChannel :=
  mkZigbeeChannel (zc_points ch) (zc_state ch) (zc_loops ch) (zc_event_loop_handle ch) v (zc_events ch) (zc_sent ch) (zc_read_count ch) (zc_write_count ch) (zc_error_count ch).
Definition zc_emit (ch : ZigbeeChannel) (e : ZigbeeEvent) : ZigbeeChannel :=
  mkZigbeeChannel (zc_points ch) (zc_state ch) (zc_loops ch) (zc_event_loop_handle ch) (zc_write_half ch) (zc_events ch ++ [e]) (zc_sent ch) (zc_read_count ch) (zc_write_count ch) (zc_error_count ch).
Definition zc_inc_read (ch : ZigbeeChannel) : ZigbeeChannel :=
  mkZigbeeChannel (zc_points ch) (zc_state ch) (zc_loops ch) (zc_event_loop_handle ch) (zc_write_half ch) (zc_events ch) (zc_sent ch) (wrapping_add 64 (zc_read_count ch) 1) (zc_write_count ch) (zc_error_count ch).
Definition zc_record_error (ch : ZigbeeChannel) : ZigbeeChannel :=
  mkZigbeeChannel (zc_points ch) (zc_state ch) (zc_loops ch) (zc_event_loop_handle ch) (zc_write_half ch) (zc_events ch) (zc_sent ch) (zc_read_count ch) (zc_write_count ch) (wrapping_add 64 (zc_error_count ch) 1).
(** A frame written to the stream, with its count. *)
Definition zc_sent_frame (ch : ZigbeeChannel) (frame : list Z) : ZigbeeChannel :=
  mkZigbeeChannel (zc_points ch) (zc_state ch) (zc_loops ch) (zc_event_loop_handle ch) (zc_write_half ch) (zc_events ch) (zc_sent ch ++ [frame]) (zc_read_count ch) (wrapping_add 64 (zc_write_count ch) 1) (zc_error_count ch).
Definition ZigbeeChannel_set_state (ch : ZigbeeChannel) (s : ConnState) : ZigbeeChannel :=
  zc_emit (mkZigbeeChannel (zc_points ch) s (zc_loops ch) (zc_event_loop_handle ch) (zc_write_half ch) (zc_events ch) (zc_sent ch) (zc_read_count ch) (zc_write_count ch) (zc_error_count ch)) (ZeState s).

Definition build_point_lookup (points : list PointConfig) : gmap PointLookupKey PointConfig :=
  foldl (fun m p => match pc_address p with AddrZigbee a => <[address_key a := p]> m | _ => m end) ∅ points.
Definition report_key (r : AttributeReport) : PointLookupKey := (ar_ieee_addr r, ar_endpoint r, ar_cluster_id r, ar_attribute_id r).
Definition process_attribute_report (r : AttributeReport) (lookup : gmap PointLookupKey PointConfig) : option DataPoint :=
  p ← lookup !! report_key r;
  Some (DataPoint_new (pc_id p) (pc_point_type p) (PFloat (TransformConfig_apply (pc_transform p) (ZclValue_to_f64 (ar_value r))))).
Definition handle_frame (lookup : gmap PointLookupKey PointConfig) (ch : ZigbeeChannel) (frame : ZigbeeFrame) : ZigbeeChannel :=
  match frame with
  | ZfReport r => match process_attribute_report r lookup with Some d => zc_emit (zc_inc_read ch) (ZeData d) | None => ch end
  | _ => ch
  end.

(** The inner loop over one buffer: the rest, the frames in order, and the error that ended
    it.  Every turn shortens the buffer, so its length bounds the turns. *)
Fixpoint decode_loop (fuel : nat) (buf : list Z) : list Z * list ZigbeeFrame * option ZigbeeFault :=
  match fuel with
  | O => (buf, [], None)
  | S fuel =>
      match zigbee_decode buf with
      | (buf, Ok (Some f)) => let '(buf, fs, e) := decode_loop fuel buf in (buf, f :: fs, e)
      | (buf, Ok None) => (buf, [], None)
      | (buf, Err e) => (buf, [], Some e)
      end
  end.
Definition decode_available (buf : list Z) : list Z * list ZigbeeFrame * option ZigbeeFault := decode_loop (S (length buf)) buf.

(** One turn of the event loop, from a read to the next. *)
Definition set_loop (ch : ZigbeeChannel) (k : nat) (l : EventLoop) : ZigbeeChannel := zc_set_loops ch (<[k := l]> (zc_loops ch)).
Definition loop_turn (ch : ZigbeeChannel) (k : nat) (l : EventLoop) (r : StreamRead) : ZigbeeChannel :=
  match r with
  | ReadClosed => set_loop (ZigbeeChannel_set_state ch CsDisconnected) k (mkEventLoop LoopEnded [])
  | ReadFailed => set_loop (zc_record_error (zc_emit (ZigbeeChannel_set_state ch CsReconnecting) ZeError)) k (mkEventLoop LoopEnded [])
  | ReadBytes chunk =>
      let '(buf, frames, err) := decode_available (el_buf l ++ chunk) in
      let ch := foldl (handle_frame (build_point_lookup (zc_points ch))) ch frames in
      let ch := match err with Some _ => zc_record_error ch | None => ch end in
      set_loop ch k (match el_phase l with LoopRunning => mkEventLoop LoopRunning buf | _ => mkEventLoop LoopEnded [] end)
  end.
(** A task takes turns while it runs; an aborted one finishes the turn it is in. *)
Definition loop_read (ch : ZigbeeChannel) (k : nat) (r : StreamRead) : option ZigbeeChannel :=
  match zc_loops ch !! k with
  | Some l => match el_phase l with LoopEnded => None | _ => Some (loop_turn ch k l r) end
  | None => None
  end.
(** A task that has ended reads no more. *)
Fixpoint loop_reads (ch : ZigbeeChannel) (k : nat) (rs : list StreamRead) : ZigbeeChannel :=
  match rs with
  | [] => ch
  | r :: rs => match loop_read ch k r with Some ch => loop_reads ch k rs | None => ch end
  end.

(** Opening the stream: it works, and the new task reads something before the call stores
    the connected state; it fails; or it does not end. *)
Inductive OpenOutcome := Opened (early : list StreamRead) | OpenFailed | OpenHangs.
Definition ZigbeeChannel_connect (ch : ZigbeeChannel) (outcome : OpenOutcome) : ZigbeeChannel * bool :=
  match zc_event_loop_handle ch with
  | Some _ => (ch, true)
  | None =>
      let ch := ZigbeeChannel_set_state ch CsConnecting in
      match outcome with
      | Opened early =>
          let k := length (zc_loops ch) in
          let ch := zc_set_loops (zc_set_write_half ch true) (zc_loops ch ++ [mkEventLoop LoopRunning []]) in
          (ZigbeeChannel_set_state (zc_set_handle (loop_reads ch k early) (Some k)) CsConnected, true)
      | OpenFailed | OpenHangs => (ch, false)
      end
  end.
Definition abort_loop (l : EventLoop) : EventLoop := match el_phase l with LoopRunning => mkEventLoop LoopAborted (el_buf l) | _ => l end.
Definition ZigbeeChannel_disconnect (ch : ZigbeeChannel) : ZigbeeChannel :=
  let ch := match zc_event_loop_handle ch with
            | Some k => zc_set_handle (zc_set_loops ch (alter abort_loop k (zc_loops ch))) None
            | None => ch
            end in
  ZigbeeChannel_set_state (zc_set_write_half ch false) CsDisconnected.

(** [write_control]: the outcomes of the writes are an input, a missing one is a success; the first failure
    ends the call with an error. *)
Definition f64_half : Z := 0x3FE0000000000000.
Definition addr_lookup (points : list PointConfig) : gmap Z ZigbeeAddress :=
  foldl (fun m p => match pc_address p with AddrZigbee a => <[pc_id p := a]> m | _ => m end) ∅ points.
Definition command_frame (a : ZigbeeAddress) (value : Z) : list Z :=
  encode_command (za_ieee_address a) (za_endpoint a) (za_cluster_id a) (if f64_ltb f64_half value then 1 else 0) [].
Fixpoint write_commands (ch : ZigbeeChannel) (addrs : gmap Z ZigbeeAddress) (cmds : list (Z * Z)) (writes : list bool) (written : Z) : ZigbeeChannel * option Z :=
  match cmds with
  | [] => (ch, Some written)
  | (point_id, value) :: cmds =>
      match addrs !! point_id with
      | None => write_commands ch addrs cmds writes written
      | Some a =>
          match writes with
          | false :: _ => (ch, None)
          | _ => write_commands (zc_sent_frame ch (command_frame a value)) addrs cmds (drop 1 writes) (written + 1)
          end
      end
  end.
Definition ZigbeeChannel_write_control (ch : ZigbeeChannel) (cmds : list (Z * Z)) (writes : list bool) : ZigbeeChannel * option Z :=
  if zc_write_half ch then write_commands ch (addr_lookup (zc_points ch)) cmds writes 0 else (ch, None).

(** The channel under the channel task: the outcomes of the next connects, and of
    the writes of the next control calls. *)
Record ZigbeeWorld := mkZigbeeWorld { zw_channel : ZigbeeChannel; zw_opens : list OpenOutcome; zw_writes : list (list bool) }.
Definition next_open (w : ZigbeeWorld) : OpenOutcome := default OpenFailed (head (zw_opens w)).
#[export] Instance zigbee_runtime : ChannelRuntime ZigbeeWorld DataPoint := {|
  rt_connection_state w := zc_state (zw_channel w);
  rt_connect w := let '(ch, ok) := ZigbeeChannel_connect (zw_channel w) (next_open w) in (mkZigbeeWorld ch (tail (zw_opens w)) (zw_writes w), ok);
  rt_connect_hangs w :=
    match zc_event_loop_handle (zw_channel w), next_open w with
    | None, OpenHangs => Some (mkZigbeeWorld (ZigbeeChannel_set_state (zw_channel w) CsConnecting) (tail (zw_opens w)) (zw_writes w))
    | _, _ => None
    end;
  rt_disconnect w := mkZigbeeWorld (ZigbeeChannel_disconnect (zw_channel w)) (zw_opens w) (zw_writes w);
  rt_poll_once w := (w, [], 0%nat);
  rt_write_control w cmds := let '(ch, r) := ZigbeeChannel_write_control (zw_channel w) cmds (default [] (head (zw_writes w))) in (mkZigbeeWorld ch (zw_opens w) (tail (zw_writes w)), r);
  rt_write_adjustment w _ := (w, None);
  rt_diagnostics w := Some (zc_error_count (zw_channel w));
  rt_set_log_config w _ := w;
|}.

(** * The codec *)

(** A packet: the region from the type byte on, and the checksum byte it came with. *)
Record Packet := mkPacket { pk_region : list Z; pk_check : Z }.
Definition packet_bytes (p : Packet) : list Z := to_be_bytes 2 (Z.of_nat (length (pk_region p))) ++ pk_region p ++ [pk_check p].
Definition packet_ok (p : Packet) : Prop := (0 < length (pk_region p))%nat /\ Z.of_nat (length (pk_region p)) < 65536.
Definition packet_result (p : Packet) : result ZigbeeFrame ZigbeeFault :=
  if negb (zigbee_checksum (pk_region p) =? pk_check p) then Err ChecksumMismatch
  else parse_payload (default 0 (pk_region p !! 0%nat)) (drop 1 (pk_region p)).

(** Bytes from which nothing can be decoded yet. *)
Definition incomplete (buf : list Z) : Prop := zigbee_decode buf = (buf, Ok None).

Lemma be2_length n : Z.of_nat n < 65536 -> exists b0 b1, to_be_bytes 2 (Z.of_nat n) = [b0; b1] /\ Z.to_nat (from_be_bytes [b0; b1]) = n.
Proof.
  intros Hn. pose proof (length_to_be_bytes 2 (Z.of_nat n)) as Hl. pose proof (from_to_be_bytes 2 (Z.of_nat n)) as Hv.
  destruct (to_be_bytes 2 (Z.of_nat n)) as [|b0 [|b1 [|? ?]]]; try done. exists b0, b1. split; [done |]. rewrite Hv, wrap_small; [lia |].
  unfold is_uint. change (2 ^ (8 * Z.of_nat 2)) with 65536. lia.
Qed.

Lemma decode_packet p rest : packet_ok p ->
  zigbee_decode (packet_bytes p ++ rest) = (rest, match packet_result p with Ok f => Ok (Some f) | Err e => Err e end).
Proof.
  intros [H0 H1]. destruct p as [region check]. unfold packet_bytes, packet_result. cbn [pk_region pk_check] in *.
  destruct (be2_length _ H1) as (b0 & b1 & -> & Hlen). destruct region as [|t inner]; [cbn in H0; lia |]. set (n := length (t :: inner)) in *.
  rewrite <- !app_assoc. cbn [app]. set (buf := b0 :: b1 :: t :: inner ++ check :: rest).
  assert (Hd : drop 2 buf = (t :: inner) ++ check :: rest) by done.
  assert (Hshape : zigbee_decode buf =
    (let len := Z.to_nat (from_be_bytes [b0; b1]) in
     if (len =? 0)%nat then (drop 2 buf, Err ZeroLength)
     else if (length buf <? 2 + len + 1)%nat then (buf, Ok None)
     else (drop (2 + len + 1) buf,
           if negb (zigbee_checksum (take len (drop 2 buf)) =? default 0 (buf !! (2 + len)%nat)) then Err ChecksumMismatch
           else let? frame := parse_payload (default 0 (take len (drop 2 buf) !! 0%nat)) (drop 1 (take len (drop 2 buf))) in Ok (Some frame)))).
  { unfold buf. destruct (inner ++ check :: rest) as [|x xs] eqn:E; [by destruct inner |]. reflexivity. }
  rewrite Hshape, Hlen. cbn zeta. assert ((n =? 0)%nat = false) as -> by (apply Nat.eqb_neq; lia).
  assert (Hb : length buf = (2 + n + 1 + length rest)%nat) by (unfold buf, n; cbn; rewrite length_app; cbn; lia).
  assert ((length buf <? 2 + n + 1)%nat = false) as -> by (apply Nat.ltb_ge; lia).
  assert (Htk : take n (drop 2 buf) = t :: inner) by (rewrite Hd; unfold n; apply take_app_length). rewrite Htk.
  assert (Hck : buf !! (2 + n)%nat = Some check) by (rewrite <- lookup_drop, Hd; unfold n; by rewrite list_lookup_middle).
  assert (Hdr : drop (2 + n + 1) buf = rest).
  { rewrite <- Nat.add_assoc, <- drop_drop, Hd, <- drop_drop. unfold n. rewrite drop_app_length. done. }
  rewrite Hck, Hdr. cbn [from_option id]. destruct (zigbee_checksum (t :: inner) =? check); cbn [negb]; [| reflexivity].
  by destruct (parse_payload _ _).
Qed.

Lemma incomplete_prefix x y : incomplete (x ++ y) -> incomplete x.
Proof.
  unfold incomplete. destruct x as [|b0 [|b1 [|b2 [|b3 x]]]]; try done. cbn [app]. unfold zigbee_decode.
  set (len := Z.to_nat (from_be_bytes [b0; b1])). destruct (len =? 0)%nat; [intros [= _]; done |].
  destruct (length (b0 :: b1 :: b2 :: b3 :: x ++ y) <? 2 + len + 1)%nat eqn:Hl; [| by destruct (negb _); [| destruct (parse_payload _ _)]].
  intros _. apply Nat.ltb_lt in Hl. cbn [length] in Hl. rewrite length_app in Hl.
  assert ((length (b0 :: b1 :: b2 :: b3 :: x) <? 2 + len + 1)%nat = true) as -> by (apply Nat.ltb_lt; cbn [length]; lia). done.
Qed.

Lemma packet_prefix_incomplete p x y : packet_ok p -> packet_bytes p = x ++ y -> y <> [] -> incomplete x.
Proof.
  intros [H0 H1] Hp Hy. assert (Hy' : (0 < length y)%nat) by (destruct y; [done | cbn; lia]). unfold packet_bytes in Hp. destruct (be2_length _ H1) as (b0 & b1 & Hb & Hlen). rewrite Hb in Hp.
  pose proof (f_equal length Hp) as Hl. rewrite !length_app in Hl. cbn in Hl. unfold incomplete.
  destruct x as [|c0 [|c1 [|c2 [|c3 x]]]]; try done. cbn [app] in Hp. injection Hp as <- <- Hp. unfold zigbee_decode. rewrite Hlen.
  assert ((length (pk_region p) =? 0)%nat = false) as -> by (apply Nat.eqb_neq; lia). cbn [length] in *.
  assert ((S (S (S (S (length x)))) <? 2 + length (pk_region p) + 1)%nat = true) as -> by (apply Nat.ltb_lt; lia). done.
Qed.

(** ** The inner loop *)

Lemma decode_loop_good ps : Forall packet_ok ps -> forall tail fs fuel, Forall2 (fun p f => packet_result p = Ok f) ps fs -> (length ps <= fuel)%nat ->
  decode_loop fuel (concat (map packet_bytes ps) ++ tail) = (let '(b, gs, e) := decode_loop (fuel - length ps) tail in (b, fs ++ gs, e)).
Proof.
  induction 1 as [|p ps Hp Hps IH]; intros tail fs fuel Hf Hfuel; inversion Hf as [|? f ? fs' Hpf Hfs']; subst.
  - cbn. rewrite Nat.sub_0_r. by destruct (decode_loop fuel tail) as [[b gs] e].
  - cbn [length] in Hfuel. destruct fuel as [|fuel]; [lia |]. cbn [map concat decode_loop]. rewrite <- app_assoc, decode_packet, Hpf by done.
    rewrite (IH tail fs' fuel) by (done || lia). cbn [length Nat.sub]. by destruct (decode_loop (fuel - length ps) tail) as [[b gs] e].
Qed.

Lemma packets_length ps : Forall packet_ok ps -> (length ps <= length (concat (map packet_bytes ps)))%nat.
Proof.
  induction 1 as [|p ps [Hp _] Hps IH]; [done |]. cbn [map concat length]. rewrite length_app. unfold packet_bytes at 1. rewrite !length_app. cbn [length]. lia.
Qed.

(** All complete packets of a buffer are decoded, and the rest stays in it. *)
Lemma available_good ps tail fs : Forall packet_ok ps -> Forall2 (fun p f => packet_result p = Ok f) ps fs -> incomplete tail ->
  decode_available (concat (map packet_bytes ps) ++ tail) = (tail, fs, None).
Proof.
  intros Hps Hfs Ht. unfold decode_available. pose proof (packets_length ps Hps). rewrite length_app, (decode_loop_good ps) with (fs := fs) by (done || lia).
  destruct (S (length (concat (map packet_bytes ps)) + length tail) - length ps)%nat as [|fuel] eqn:E; [lia |]. cbn [decode_loop]. unfold incomplete in Ht. rewrite Ht. by rewrite app_nil_r.
Qed.

(** A packet that is refused ends the loop: what is behind it stays in the buffer. *)
Lemma available_refused ps p rest fs e : Forall packet_ok ps -> Forall2 (fun p f => packet_result p = Ok f) ps fs -> packet_ok p -> packet_result p = Err e ->
  decode_available (concat (map packet_bytes ps) ++ packet_bytes p ++ rest) = (rest, fs, Some e).
Proof.
  intros Hps Hfs Hp He. unfold decode_available. pose proof (packets_length ps Hps). rewrite length_app, (decode_loop_good ps) with (fs := fs) by (done || lia).
  destruct (S (length (concat (map packet_bytes ps)) + length (packet_bytes p ++ rest)) - length ps)%nat as [|fuel] eqn:E; [lia |].
  cbn [decode_loop]. by rewrite decode_packet, He, app_nil_r.
Qed.

(** Cutting a stream of packets anywhere leaves packets and the beginning of one. *)
Lemma split_stream ps : Forall packet_ok ps -> forall x y tail, incomplete tail -> concat (map packet_bytes ps) ++ tail = x ++ y ->
  exists ps1 ps2 t, ps = ps1 ++ ps2 /\ x = concat (map packet_bytes ps1) ++ t /\ incomplete t /\ t ++ y = concat (map packet_bytes ps2) ++ tail.
Proof.
  induction 1 as [|p ps Hp Hps IH]; intros x y tail Ht Heq; cbn [map concat app] in Heq.
  - exists [], [], x. subst tail. split; [done |]. split; [done |]. split; [by eapply incomplete_prefix | done].
  - rewrite <- app_assoc in Heq. destruct (decide (length (packet_bytes p) <= length x)%nat) as [Hlen|Hlen].
    + assert (Hx : x = packet_bytes p ++ drop (length (packet_bytes p)) x).
      { pose proof (f_equal (take (length (packet_bytes p))) Heq) as Hk. rewrite take_app_length, take_app_le in Hk by done. rewrite Hk at 1. symmetry. apply take_drop. }
      set (x' := drop _ x) in *. rewrite Hx, <- app_assoc in Heq. apply app_inv_head in Heq. destruct (IH x' y tail Ht Heq) as (ps1 & ps2 & t & -> & Hx' & Hi & Hr).
      exists (p :: ps1), ps2, t. split; [done |]. split; [| done]. rewrite Hx, Hx'. cbn [map concat]. by rewrite <- app_assoc.
    + exists [], (p :: ps), x. split; [done |]. split; [done |]. split; [| by rewrite <- Heq; cbn [map concat]; rewrite <- app_assoc].
      apply (packet_prefix_incomplete p x (drop (length x) (packet_bytes p))); [done | |].
      * pose proof (f_equal (take (length x)) Heq) as Hk. rewrite take_app_length, take_app_le in Hk by lia. rewrite <- Hk at 1. symmetry. apply take_drop.
      * intros He. pose proof (f_equal length He) as Hl. rewrite length_drop in Hl. cbn [length] in Hl. lia.
Qed.

(** ** Frames and their bytes *)

Definition value_ok (v : ZclValue) : Prop :=
  match v with
  | ZclBool _ => True
  | ZclUInt8 v => is_uint 8 v | ZclUInt16 v => is_uint 16 v | ZclUInt32 v | ZclFloat v => is_uint 32 v
  | ZclInt8 v => -128 <= v < 128 | ZclInt16 v => -32768 <= v < 32768 | ZclInt32 v => - 2 ^ 31 <= v < 2 ^ 31
  | ZclDouble v => is_uint 64 v
  | ZclString s => Z.of_nat (length s) < 256 /\ lossy_loop (length s) s = s
  | ZclBytes b => Z.of_nat (length b) < 256
  end.

Lemma get_le_app n v rest : get_le n (to_le_bytes n v ++ rest) = wrap (8 * Z.of_nat n) v.
Proof. unfold get_le. rewrite take_app_le, take_ge by (rewrite length_to_le_bytes; lia). apply from_to_le_bytes. Qed.
Lemma get_le_exact n v : get_le n (to_le_bytes n v) = wrap (8 * Z.of_nat n) v.
Proof. rewrite <- (app_nil_r (to_le_bytes n v)). apply get_le_app. Qed.
Lemma need_exact {A} n v (x : A) : need n (to_le_bytes n v) x = Ok x.
Proof. unfold need. by rewrite length_to_le_bytes, Nat.ltb_irrefl. Qed.
Lemma counted_exact b : Z.of_nat (length b) < 256 -> counted (wrap 8 (Z.of_nat (length b)) :: b) = Ok b.
Proof.
  intros Hb. unfold counted. rewrite wrap_small by (unfold is_uint; lia). rewrite Nat2Z.id, Nat.ltb_irrefl. by rewrite firstn_all.
Qed.

Lemma parse_encode_value v : value_ok v -> parse_zcl_value (encode_zcl_value v) = Ok v.
Proof.
  intros Hv. destruct v as [b|v|v|v|v|v|v|v|v|s|b]; cbn [encode_zcl_value ZclValue_type_id parse_zcl_value Z.eqb Pos.eqb].
  all: try (rewrite need_exact, get_le_exact; f_equal; f_equal; cbn [value_ok] in Hv).
  all: try (by rewrite wrap_small by exact Hv).
  - by destruct b.
  - apply to_signed_wrap; [lia |]. exact Hv.
  - apply to_signed_wrap; [lia |]. exact Hv.
  - apply to_signed_wrap; [lia |]. exact Hv.
  - destruct Hv as [Hl Hs]. rewrite counted_exact by done. cbn. by rewrite Hs.
  - by rewrite counted_exact.
Qed.

Definition frame_region (f : ZigbeeFrame) : list Z :=
  match f with
  | ZfReport r => 0x01 :: to_le_bytes 8 (ar_ieee_addr r) ++ to_le_bytes 1 (ar_endpoint r) ++ to_le_bytes 2 (ar_cluster_id r) ++ to_le_bytes 2 (ar_attribute_id r) ++ encode_zcl_value (ar_value r)
  | ZfDeviceAnnounce ieee short => 0x02 :: to_le_bytes 8 ieee ++ to_le_bytes 2 short
  | ZfCommandResponse seq status => 0x03 :: to_le_bytes 1 seq ++ to_le_bytes 1 status
  | ZfUnknown data => 0xFF :: data
  end.
Definition frame_ok (f : ZigbeeFrame) : Prop :=
  match f with
  | ZfReport r => is_uint 64 (ar_ieee_addr r) /\ is_uint 8 (ar_endpoint r) /\ is_uint 16 (ar_cluster_id r) /\ is_uint 16 (ar_attribute_id r) /\ value_ok (ar_value r)
  | ZfDeviceAnnounce ieee short => is_uint 64 ieee /\ is_uint 16 short
  | ZfCommandResponse seq status => is_uint 8 seq /\ is_uint 8 status
  | ZfUnknown data => Z.of_nat (length data) < 65535
  end.
Definition frame_packet (f : ZigbeeFrame) : Packet := mkPacket (frame_region f) (zigbee_checksum (frame_region f)).
Definition frame_bytes (f : ZigbeeFrame) : list Z := packet_bytes (frame_packet f).

Lemma value_length v : value_ok v -> (0 < length (encode_zcl_value v))%nat /\ Z.of_nat (length (encode_zcl_value v)) < 300.
Proof. destruct v; cbn; rewrite ?length_to_le_bytes; lia. Qed.

Lemma frame_packet_ok f : frame_ok f -> packet_ok (frame_packet f).
Proof.
  unfold packet_ok, frame_packet. cbn [pk_region]. destruct f; cbn [frame_ok frame_region length]; rewrite ?length_app, ?length_to_le_bytes; try lia.
  intros (_ & _ & _ & _ & Hv). pose proof (value_length _ Hv). lia.
Qed.

Lemma frame_packet_result f : frame_ok f -> packet_result (frame_packet f) = Ok f.
Proof.
  intros Hf. unfold packet_result, frame_packet. cbn [pk_region pk_check]. rewrite Z.eqb_refl. cbn [negb].
  destruct f as [[i e c a v]|i s|q s|data]; cbn [frame_region frame_ok ar_ieee_addr ar_endpoint ar_cluster_id ar_attribute_id ar_value] in *; cbn [lookup list_lookup from_option id drop]; rewrite ?drop_0.
  - destruct Hf as (Hi & He & Hc & Ha & Hv). unfold parse_payload. cbn [Z.eqb Pos.eqb].
    set (payload := to_le_bytes 8 i ++ _). assert (Hlen : (13 <= length payload)%nat) by (unfold payload; rewrite !length_app, !length_to_le_bytes; lia).
    assert ((length payload <? ATTR_REPORT_MIN_PAYLOAD)%nat = false) as -> by (apply Nat.ltb_ge; exact Hlen).
    assert (H8 : drop 8 payload = to_le_bytes 1 e ++ to_le_bytes 2 c ++ to_le_bytes 2 a ++ encode_zcl_value v) by reflexivity.
    assert (H9 : drop 9 payload = to_le_bytes 2 c ++ to_le_bytes 2 a ++ encode_zcl_value v) by reflexivity.
    assert (H11 : drop 11 payload = to_le_bytes 2 a ++ encode_zcl_value v) by reflexivity.
    assert (H13 : drop 13 payload = encode_zcl_value v) by reflexivity.
    rewrite H8, H9, H11, H13, (parse_encode_value v) by done. unfold payload. rewrite !get_le_app. cbn [Z.mul Z.of_nat Pos.of_succ_nat Pos.mul].
    by rewrite !wrap_small.
  - destruct Hf as [Hi Hs]. unfold parse_payload. cbn [Z.eqb Pos.eqb]. rewrite length_app, !length_to_le_bytes. cbn [Nat.ltb Nat.leb Nat.add DEVICE_ANNOUNCE_PAYLOAD].
    rewrite get_le_app, (drop_app_le _ _ 8), drop_ge by (rewrite length_to_le_bytes; lia). cbn [app]. rewrite get_le_exact. by rewrite !wrap_small.
  - destruct Hf as [Hq Hs]. unfold parse_payload. cbn [Z.eqb Pos.eqb]. rewrite length_app, !length_to_le_bytes. cbn [Nat.ltb Nat.leb Nat.add CMD_RESPONSE_PAYLOAD].
    rewrite get_le_app, (drop_app_le _ _ 1), drop_ge by (rewrite length_to_le_bytes; lia). cbn [app]. rewrite get_le_exact. by rewrite !wrap_small.
  - done.
Qed.

(** * What the event loop delivers *)

Definition report_point (lookup : gmap PointLookupKey PointConfig) (f : ZigbeeFrame) : option DataPoint :=
  match f with ZfReport r => process_attribute_report r lookup | _ => None end.
Definition deliveries (points : list PointConfig) (fs : list ZigbeeFrame) : list ZigbeeEvent :=
  map ZeData (omap (report_point (build_point_lookup points)) fs).

(** What a turn that only delivers leaves as it was. *)
Record delivers (es : list ZigbeeEvent) (ch ch' : ZigbeeChannel) : Prop := {
  dl_points : zc_points ch' = zc_points ch;
  dl_state : zc_state ch' = zc_state ch;
  dl_loops : zc_loops ch' = zc_loops ch;
  dl_handle : zc_event_loop_handle ch' = zc_event_loop_handle ch;
  dl_errors : zc_error_count ch' = zc_error_count ch;
  dl_events : zc_events ch' = zc_events ch ++ es;
}.

Lemma handle_frames_deliver points fs ch : delivers (deliveries points fs) ch (foldl (handle_frame (build_point_lookup points)) ch fs).
Proof.
  unfold deliveries. revert ch. induction fs as [|f fs IH]; intros ch; cbn [foldl omap list_omap]; [split; try done; by rewrite app_nil_r |].
  destruct (IH (handle_frame (build_point_lookup points) ch f)) as [H1 H2 H3 H4 H5 H6]. split; [rewrite H1 | rewrite H2 | rewrite H3 | rewrite H4 | rewrite H5 | rewrite H6].
  all: destruct f as [r| | |]; cbn [handle_frame report_point]; try done; destruct (process_attribute_report r _); try done.
  cbn. by rewrite <- app_assoc.
Qed.

(** The channel after the turns of one event loop over whole packets. *)
Record loop_delivers (k : nat) (buf : list Z) (es : list ZigbeeEvent) (ch ch' : ZigbeeChannel) : Prop := {
  ld_points : zc_points ch' = zc_points ch;
  ld_state : zc_state ch' = zc_state ch;
  ld_loops : zc_loops ch' = <[k := mkEventLoop LoopRunning buf]> (zc_loops ch);
  ld_handle : zc_event_loop_handle ch' = zc_event_loop_handle ch;
  ld_events : zc_events ch' = zc_events ch ++ es;
}.

Lemma bytes_turn ch k buf chunk rest fs err : zc_loops ch !! k = Some (mkEventLoop LoopRunning buf) -> decode_available (buf ++ chunk) = (rest, fs, err) ->
  exists ch', loop_read ch k (ReadBytes chunk) = Some ch' /\ loop_delivers k rest (deliveries (zc_points ch) fs) ch ch' /\
    zc_error_count ch' = match err with Some _ => wrapping_add 64 (zc_error_count ch) 1 | None => zc_error_count ch end.
Proof.
  intros Hk Hd. unfold loop_read. rewrite Hk. cbn [el_phase]. eexists. split; [reflexivity |]. unfold loop_turn. cbn [el_buf el_phase]. rewrite Hd.
  destruct (handle_frames_deliver (zc_points ch) fs ch) as [H1 H2 H3 H4 H5 H6]. split; [split |]; destruct err; cbn; congruence.
Qed.

Lemma loop_delivers_trans k b1 b2 es1 es2 ch1 ch2 ch3 : loop_delivers k b1 es1 ch1 ch2 -> loop_delivers k b2 es2 ch2 ch3 -> loop_delivers k b2 (es1 ++ es2) ch1 ch3.
Proof. intros [] []. split; try congruence; [rewrite ld_loops1, ld_loops0; apply list_insert_insert_eq | by rewrite ld_events1, ld_events0, <- app_assoc]. Qed.

Lemma deliveries_app points fs gs : deliveries points (fs ++ gs) = deliveries points fs ++ deliveries points gs.
Proof. unfold deliveries. by rewrite omap_app, map_app. Qed.

(** However the stream is cut into reads, the frames come out whole and in order. *)
Lemma reads_deliver k cs : forall ch buf ps fs tail, zc_loops ch !! k = Some (mkEventLoop LoopRunning buf) -> incomplete buf -> incomplete tail ->
  Forall packet_ok ps -> Forall2 (fun p f => packet_result p = Ok f) ps fs -> buf ++ concat cs = concat (map packet_bytes ps) ++ tail ->
  let ch' := loop_reads ch k (map ReadBytes cs) in
  loop_delivers k tail (deliveries (zc_points ch) fs) ch ch' /\ zc_error_count ch' = zc_error_count ch.
Proof.
  induction cs as [|c cs IH]; intros ch buf ps fs tail Hk Hb Ht Hps Hfs Heq; cbn [map loop_reads].
  - cbn in Heq. rewrite app_nil_r in Heq. destruct Hfs as [|p f ps fs Hpf _].
    + cbn in Heq. subst buf. split; [| done]. split; try done; [by rewrite list_insert_id | by rewrite app_nil_r].
    + exfalso. apply Forall_cons in Hps as [Hp _]. cbn [map concat] in Heq. rewrite <- app_assoc in Heq. unfold incomplete in Hb. rewrite Heq, decode_packet, Hpf in Hb by done. done.
  - cbn [concat] in Heq. rewrite app_assoc in Heq. symmetry in Heq. destruct (split_stream ps Hps _ _ tail Ht Heq) as (ps1 & ps2 & t & -> & Hx & Hti & Hr).
    apply Forall_app in Hps as [Hps1 Hps2]. apply Forall2_app_inv_l in Hfs as (fs1 & fs2 & Hfs1 & Hfs2 & ->).
    destruct (bytes_turn ch k buf c t fs1 None Hk) as (ch1 & -> & H1 & He1); [rewrite Hx; by apply available_good |].
    assert (Hk1 : zc_loops ch1 !! k = Some (mkEventLoop LoopRunning t)) by (rewrite (ld_loops _ _ _ _ _ H1); apply list_lookup_insert_eq; by apply lookup_lt_Some in Hk).
    destruct (IH ch1 t ps2 fs2 tail Hk1 Hti Ht Hps2 Hfs2 Hr) as [H2 He2]. rewrite deliveries_app, (ld_points _ _ _ _ _ H1) in *.
    split; [by eapply loop_delivers_trans | congruence].
Qed.

Lemma frames_packets fs : Forall frame_ok fs -> Forall packet_ok (map frame_packet fs) /\ Forall2 (fun p f => packet_result p = Ok f) (map frame_packet fs) fs /\
  concat (map packet_bytes (map frame_packet fs)) = concat (map frame_bytes fs).
Proof.
  intros H. split; [apply Forall_map; eapply Forall_impl; [exact H | apply frame_packet_ok] |]. split; [| by rewrite map_map].
  induction H as [|f fs Hf Hfs IH]; cbn [map]; constructor; [by apply frame_packet_result | exact IH].
Qed.

(** The lookup finds a configured point by its address, unless a later one has the same. *)
Lemma build_point_lookup_spec points p a : p ∈ points -> pc_address p = AddrZigbee a ->
  (forall q b, q ∈ points -> pc_address q = AddrZigbee b -> address_key b = address_key a -> q = p) ->
  build_point_lookup points !! address_key a = Some p.
Proof.
  intros Hin Ha. induction points as [|q points IH] using rev_ind; [by apply not_elem_of_nil in Hin |]. intros Hu.
  unfold build_point_lookup. rewrite foldl_snoc. fold (build_point_lookup points). assert (Hrest : p ∈ points -> build_point_lookup points !! address_key a = Some p).
  { intros Hp. apply IH; [done |]. intros q' b Hq'. apply Hu. rewrite elem_of_app. by left. }
  apply elem_of_app in Hin. destruct (pc_address q) as [| |b|] eqn:Hq.
  3: { destruct (decide (address_key b = address_key a)) as [He|He].
       - rewrite He, lookup_insert_eq. f_equal. eapply Hu; [rewrite elem_of_app; right; by constructor | exact Hq | exact He].
       - rewrite lookup_insert_ne by done. apply Hrest. destruct Hin as [Hin | Hin]; [done |]. apply list_elem_of_singleton in Hin as ->. congruence. }
  all: apply Hrest; destruct Hin as [Hin | Hin]; [done |]; apply list_elem_of_singleton in Hin as ->; congruence.
Qed.

(** The value a point shows for a report. *)
Definition point_reading (p : PointConfig) (v : ZclValue) : DataPoint :=
  DataPoint_new (pc_id p) (pc_point_type p) (PFloat (TransformConfig_apply (pc_transform p) (ZclValue_to_f64 v))).

(** C24: The event loop reassembles the stream.  However the TCP stream cuts the frames of
    the gateway into reads, the channel broadcasts exactly the readings of the attribute
    reports in them, in order, with no error and nothing left in the buffer; and every
    report of an address that one point is configured with arrives as the transformed value
    of that point. *)
Theorem zigbee_reports_delivered ch k cs fs : zc_loops ch !! k = Some (mkEventLoop LoopRunning []) -> Forall frame_ok fs -> concat cs = concat (map frame_bytes fs) ->
  let ch' := loop_reads ch k (map ReadBytes cs) in
  zc_events ch' = zc_events ch ++ deliveries (zc_points ch) fs /\ zc_error_count ch' = zc_error_count ch /\ zc_loops ch' = zc_loops ch /\
  forall p a r, p ∈ zc_points ch -> pc_address p = AddrZigbee a ->
    (forall q b, q ∈ zc_points ch -> pc_address q = AddrZigbee b -> address_key b = address_key a -> q = p) ->
    ZfReport r ∈ fs -> report_key r = address_key a -> ZeData (point_reading p (ar_value r)) ∈ zc_events ch'.
Proof.
  intros Hk Hfs Hcs. destruct (frames_packets fs Hfs) as (Hp & Hr & Hb).
  destruct (reads_deliver k cs ch [] (map frame_packet fs) fs [] Hk) as [[H1 H2 H3 H4 H5] He]; [done | done | done | done | by rewrite app_nil_r, Hb |].
  rewrite list_insert_id in H3 by done. cbn zeta. split; [done |]. split; [done |]. split; [done |]. intros p a r Hin Ha Hu Hf Hkey. rewrite H5, elem_of_app. right.
  unfold deliveries. apply (list_elem_of_fmap_2 ZeData), list_elem_of_omap. exists (ZfReport r). split; [done |].
  cbn. unfold process_attribute_report. by rewrite Hkey, (build_point_lookup_spec _ p a).
Qed.

(** ** Damage *)

Lemma checksum_acc l : forall acc, foldl Z.lxor acc l = Z.lxor acc (zigbee_checksum l).
Proof.
  unfold zigbee_checksum. induction l as [|x l IH]; intros acc; cbn [foldl]; [by rewrite Z.lxor_0_r |]. rewrite IH, (IH (Z.lxor 0 x)), Z.lxor_0_l. by rewrite Z.lxor_assoc.
Qed.
Lemma checksum_cons x l : zigbee_checksum (x :: l) = Z.lxor x (zigbee_checksum l).
Proof. unfold zigbee_checksum at 1. cbn [foldl]. by rewrite checksum_acc, Z.lxor_0_l. Qed.

(** Changing one byte of a region changes its checksum. *)
Lemma checksum_insert l : forall i x y, l !! i = Some x -> x <> y -> zigbee_checksum (<[i := y]> l) <> zigbee_checksum l.
Proof.
  induction l as [|z l IH]; intros [|i] x y Hi Hxy; [done | done | |]; cbn in Hi; cbn [insert list_insert]; rewrite !checksum_cons; intros He.
  - injection Hi as ->. apply Hxy. apply (f_equal (fun c => Z.lxor c (zigbee_checksum l))) in He. rewrite !Z.lxor_assoc, !Z.lxor_nilpotent, !Z.lxor_0_r in He. done.
  - apply (IH i x y Hi Hxy). apply (f_equal (Z.lxor z)) in He. by rewrite <- !Z.lxor_assoc, !Z.lxor_nilpotent, !Z.lxor_0_l in He.
Qed.

(** A packet that differs from a frame's in one byte behind the length. *)
Definition damaged (f : ZigbeeFrame) (p : Packet) : Prop :=
  (exists i x y, frame_region f !! i = Some x /\ x <> y /\ p = mkPacket (<[i := y]> (frame_region f)) (zigbee_checksum (frame_region f))) \/
  (exists c, c <> zigbee_checksum (frame_region f) /\ p = mkPacket (frame_region f) c).

Lemma damaged_refused f p : frame_ok f -> damaged f p -> packet_ok p /\ packet_result p = Err ChecksumMismatch.
Proof.
  intros Hf Hd. pose proof (frame_packet_ok f Hf) as Hp. unfold packet_ok, packet_result in *. cbn [pk_region frame_packet] in Hp.
  destruct Hd as [(i & x & y & Hi & Hxy & ->) | (c & Hc & ->)]; cbn [pk_region pk_check].
  - split; [by rewrite length_insert |]. pose proof (checksum_insert _ i x y Hi Hxy) as Hne. apply Z.eqb_neq in Hne. by rewrite Hne.
  - split; [done |]. assert ((zigbee_checksum (frame_region f) =? c) = false) as -> by (apply Z.eqb_neq; congruence). done.
Qed.

(** A damaged frame costs only itself, but it delays what is behind it.  When one byte of
    a frame, length apart, is changed on the way, the read that brings it delivers the
    frames before it, counts one error and stops; the frames behind it wait in the buffer
    although they are complete, and the next read, whatever it brings, delivers them. *)
Theorem damaged_frame_delays_others ch k fs1 f p fs2 fs3 : zc_loops ch !! k = Some (mkEventLoop LoopRunning []) ->
  Forall frame_ok (fs1 ++ fs2 ++ fs3) -> frame_ok f -> damaged f p ->
  let stream := concat (map frame_bytes fs1) ++ packet_bytes p ++ concat (map frame_bytes fs2) in
  let ch1 := loop_reads ch k [ReadBytes stream] in
  let ch2 := loop_reads ch k [ReadBytes stream; ReadBytes (concat (map frame_bytes fs3))] in
  zc_events ch1 = zc_events ch ++ deliveries (zc_points ch) fs1 /\
  zc_events ch2 = zc_events ch ++ deliveries (zc_points ch) (fs1 ++ fs2 ++ fs3) /\
  zc_error_count ch2 = wrapping_add 64 (zc_error_count ch) 1 /\ zc_loops ch2 !! k = Some (mkEventLoop LoopRunning []).
Proof.
  intros Hk Hok Hf Hd. rewrite !Forall_app in Hok. destruct Hok as (Hok1 & Hok2 & Hok3). destruct (damaged_refused f p Hf Hd) as [Hp He].
  destruct (frames_packets fs1 Hok1) as (Hp1 & Hr1 & Hb1). cbn zeta.
  set (rest := concat (map frame_bytes fs2)). set (stream := _ ++ packet_bytes p ++ rest).
  destruct (bytes_turn ch k [] stream rest fs1 (Some ChecksumMismatch) Hk) as (ch1 & Ht1 & H1 & Herr1).
  { cbn [app]. unfold stream. rewrite <- Hb1. by apply available_refused. }
  cbn [loop_reads]. rewrite Ht1. cbn [loop_reads].
  assert (Hk1 : zc_loops ch1 !! k = Some (mkEventLoop LoopRunning rest)) by (rewrite (ld_loops _ _ _ _ _ H1); apply list_lookup_insert_eq; by apply lookup_lt_Some in Hk).
  destruct (frames_packets (fs2 ++ fs3)) as (Hp23 & Hr23 & Hb23); [by apply Forall_app |].
  destruct (bytes_turn ch1 k rest (concat (map frame_bytes fs3)) [] (fs2 ++ fs3) None Hk1) as (ch2 & Ht2 & H2 & Herr2).
  { rewrite <- (available_good (map frame_packet (fs2 ++ fs3)) [] (fs2 ++ fs3)) by done. rewrite Hb23, app_nil_r, map_app, concat_app. done. }
  rewrite Ht2, (ld_events _ _ _ _ _ H1). split; [done |]. pose proof (loop_delivers_trans _ _ _ _ _ _ _ _ H1 H2) as H12.
  rewrite (ld_events _ _ _ _ _ H12), (ld_points _ _ _ _ _ H1), <- deliveries_app. split; [done |]. split; [congruence |].
  rewrite (ld_loops _ _ _ _ _ H12). apply list_lookup_insert_eq. by apply lookup_lt_Some in Hk.
Qed.

(** * Connections *)

(** A channel whose event loop task is known by its handle and is not connected. *)
Definition stranded (k : nat) (loops : list EventLoop) (w : ZigbeeWorld) : Prop :=
  zc_event_loop_handle (zw_channel w) = Some k /\ zc_loops (zw_channel w) = loops /\ ConnState_is_connected (zc_state (zw_channel w)) = false.

Lemma write_commands_frame addrs cmds : forall ch writes n ch' r, write_commands ch addrs cmds writes n = (ch', r) ->
  zc_event_loop_handle ch' = zc_event_loop_handle ch /\ zc_loops ch' = zc_loops ch /\ zc_state ch' = zc_state ch.
Proof.
  induction cmds as [|[id v] cmds IH]; intros ch writes n ch' r H; cbn [write_commands] in H; [by injection H as <- _ |].
  destruct (addrs !! id); [| by eapply IH]. destruct writes as [|[] writes]; [apply IH in H; exact H | apply IH in H; exact H | by injection H as <- _].
Qed.

Lemma stranded_control k loops w cmds : stranded k loops w -> stranded k loops (rt_write_control w cmds).1.
Proof.
  intros (H1 & H2 & H3). cbn. unfold ZigbeeChannel_write_control. destruct (zc_write_half (zw_channel w)); [| done].
  destruct (write_commands _ _ _ _ _) as [ch' r] eqn:Hw. apply write_commands_frame in Hw as (E1 & E2 & E3). split; [cbn; congruence |]. split; [cbn; congruence |]. cbn. by rewrite E3.
Qed.

(** C25: A gateway that hangs up is never called again.  When the event loop ends because the
    stream was closed or failed, the channel keeps the handle of the ended task, and a
    connect of a channel that has a handle answers at once that it is connected.  So
    whatever the channel task does - ticks, reconnects, writes, queries, connect commands,
    for any number of rounds and whatever opening the stream would bring - the channel stays
    offline with no event loop, until a disconnect is asked for. *)
Theorem closed_gateway_never_reopened threshold (s : TaskState ZigbeeWorld DataPoint) k l r inputs :
  zc_event_loop_handle (zw_channel (ts_proto s)) = Some k -> zc_loops (zw_channel (ts_proto s)) !! k = Some l -> el_phase l = LoopRunning ->
  r = ReadClosed \/ r = ReadFailed -> Forall no_disconnect inputs ->
  let closed := loop_reads (zw_channel (ts_proto s)) k [r] in
  let w := mkZigbeeWorld closed (zw_opens (ts_proto s)) (zw_writes (ts_proto s)) in
  let s' := (task_loop threshold (set_proto s w) inputs).1 in
  is_online (ts_proto s') = false /\ zc_loops (zw_channel (ts_proto s')) !! k = Some (mkEventLoop LoopEnded []) /\
  zc_loops (zw_channel (ts_proto s')) = zc_loops closed.
Proof.
  intros Hh Hl Hp Hr Hi. cbn zeta. set (ch := zw_channel (ts_proto s)) in *. cbn [loop_reads]. unfold loop_read. rewrite Hl, Hp.
  assert (Hc : let c := loop_turn ch k l r in zc_event_loop_handle c = Some k /\ zc_loops c = <[k := mkEventLoop LoopEnded []]> (zc_loops ch) /\ ConnState_is_connected (zc_state c) = false)
    by (destruct Hr as [-> | ->]; done).
  destruct Hc as (Hc1 & Hc2 & Hc3). set (c := loop_turn ch k l r) in *. clearbody c. set (w := mkZigbeeWorld c _ _).
  assert (Hq : stranded k (zc_loops c) (ts_proto (task_loop threshold (set_proto s w) inputs).1)).
  { apply (offline_forever threshold (stranded k (zc_loops c))); [by intros p (_ & _ & ?) | | | apply stranded_control | done | done | done | done].
    - intros p (H1 & H2 & H3). cbn. unfold ZigbeeChannel_connect. rewrite H1. done.
    - intros p p' (H1 & H2 & H3). cbn. by rewrite H1. }
  destruct Hq as (H1 & H2 & H3). split; [done |]. split; [| done]. rewrite H2, Hc2. apply list_lookup_insert_eq. by apply lookup_lt_Some in Hl.
Qed.

(** A stream that closes while connect is finishing is reported as a connected channel. *)
Theorem early_close_reported_connected ch : zc_event_loop_handle ch = None ->
  let ch' := (ZigbeeChannel_connect ch (Opened [ReadClosed])).1 in
  zc_state ch' = CsConnected /\ zc_loops ch' !! length (zc_loops ch) = Some (mkEventLoop LoopEnded []).
Proof.
  intros Hh. unfold ZigbeeChannel_connect. rewrite Hh. cbn [loop_reads]. unfold loop_read. cbn [zc_loops zc_set_loops ZigbeeChannel_set_state zc_emit zc_set_write_half].
  rewrite list_lookup_middle by done. cbn [el_phase fst]. split; [done |]. cbn. apply list_lookup_insert_eq. rewrite length_app. cbn. lia.
Qed.

(** ** Controls *)

(** The frame of a command is one the codec itself accepts: its payload carries the address
    and the command. *)
Lemma command_frame_decodes a value rest : zigbee_decode (command_frame a value ++ rest) =
  (rest, Ok (Some (ZfUnknown (to_le_bytes 8 (za_ieee_address a) ++ [za_endpoint a] ++ to_le_bytes 2 (za_cluster_id a) ++ [if f64_ltb f64_half value then 1 else 0] ++ [])))).
Proof.
  unfold command_frame, encode_command. set (inner := 0x10 :: _). change (raw_frame inner) with (packet_bytes (mkPacket inner (zigbee_checksum inner))).
  rewrite decode_packet by (split; cbn; lia). unfold packet_result. cbn [pk_region pk_check]. by rewrite Z.eqb_refl.
Qed.

(** Controls are sent to the configured devices: a write call of a connected channel
    whose writes succeed sends one frame per command of a configured point, in order, with
    the address of that point and On or Off by its value, skips the others, and returns the
    number of frames sent. *)
Theorem zigbee_controls_sent ch cmds writes : zc_write_half ch = true -> Forall (fun ok => ok = true) writes ->
  let frames := omap (fun '(id, value) => (fun a => command_frame a value) <$> addr_lookup (zc_points ch) !! id) cmds in
  let '(ch', r) := ZigbeeChannel_write_control ch cmds writes in
  r = Some (Z.of_nat (length frames)) /\ zc_sent ch' = zc_sent ch ++ frames /\ zc_state ch' = zc_state ch.
Proof.
  intros Hw Hok. cbn zeta. unfold ZigbeeChannel_write_control. rewrite Hw. set (addrs := addr_lookup (zc_points ch)). clearbody addrs. clear Hw.
  enough (H : forall n, let '(ch', r) := write_commands ch addrs cmds writes n in
    r = Some (n + Z.of_nat (length (omap (fun '(id, value) => (fun a => command_frame a value) <$> addrs !! id) cmds))) /\
    zc_sent ch' = zc_sent ch ++ omap (fun '(id, value) => (fun a => command_frame a value) <$> addrs !! id) cmds /\ zc_state ch' = zc_state ch) by apply (H 0).
  revert ch writes Hok. induction cmds as [|[id v] cmds IH]; intros ch writes Hok n; cbn [write_commands omap list_omap].
  - split; [f_equal; cbn; lia |]. by rewrite app_nil_r.
  - destruct (addrs !! id) as [a|]; cbn [fmap option_fmap option_map]; [| by apply IH].
    pose proof (IH (zc_sent_frame ch (command_frame a v)) (drop 1 writes) (Forall_drop _ _ _ Hok) (n + 1)) as Hx.
    assert (Hgo : forall x : ZigbeeChannel * option Z, match writes with false :: _ => (ch, None) | _ => x end = x) by (intros x; destruct Hok as [|? ? -> _]; done).
    rewrite Hgo. destruct (write_commands _ addrs cmds _ _) as [ch' r]. destruct Hx as (-> & Hs & Hst).
    split; [f_equal; cbn [length]; lia |]. split; [rewrite Hs; cbn; by rewrite <- app_assoc | exact Hst].
Qed.

(** * A gateway with one sensor *)

Definition demo_sensor : PointConfig := PointConfig_with_transform (PointConfig_new 7 Telemetry (AddrZigbee (mkZigbeeAddress 0x00124B0018ED1234 1 0x0402 0))) (TransformConfig_linear f64_one f64_zero).
Definition demo_report (v : Z) : ZigbeeFrame := ZfReport (mkAttributeReport 0x00124B0018ED1234 1 0x0402 0 (ZclInt16 v)).
Definition demo_gateway : list ZigbeeFrame := [ZfDeviceAnnounce 0x00124B0018ED1234 0x1A2B; demo_report (-500); ZfCommandResponse 1 0; demo_report 2150].
Definition demo_open : ZigbeeChannel := (ZigbeeChannel_connect (ZigbeeChannel_new [demo_sensor]) (Opened [])).1.
(** The stream in reads of seven bytes. *)
Fixpoint cut_every (n fuel : nat) (bs : list Z) : list (list Z) :=
  match fuel, bs with S fuel, _ :: _ => take n bs :: cut_every n fuel (drop n bs) | _, _ => [] end.
Definition demo_reads : list (list Z) := cut_every 7 100 (concat (map frame_bytes demo_gateway)).

Lemma demo_gateway_ok : Forall frame_ok demo_gateway.
Proof. repeat (constructor; [cbn; unfold is_uint; lia |]). constructor. Qed.

Lemma zigbee_reports_delivered_witness :
  let ch' := loop_reads demo_open 0 (map ReadBytes demo_reads) in
  zc_events ch' = zc_events demo_open ++ [ZeData (point_reading demo_sensor (ZclInt16 (-500))); ZeData (point_reading demo_sensor (ZclInt16 2150))] /\ length demo_reads = 9%nat.
Proof.
  destruct (zigbee_reports_delivered demo_open 0 demo_reads demo_gateway) as (He & _); [vm_compute; reflexivity | exact demo_gateway_ok | vm_compute; reflexivity |].
  cbn zeta. rewrite He. split; vm_compute; reflexivity.
Defined.

Lemma damaged_frame_delays_others_witness :
  let bad := mkPacket (<[3%nat := 0]> (frame_region (demo_report 1))) (zigbee_checksum (frame_region (demo_report 1))) in
  let stream := frame_bytes (demo_report 2) ++ packet_bytes bad ++ frame_bytes (demo_report 3) in
  zc_events (loop_reads demo_open 0 [ReadBytes stream; ReadBytes []]) =
    zc_events demo_open ++ [ZeData (point_reading demo_sensor (ZclInt16 2)); ZeData (point_reading demo_sensor (ZclInt16 3))].
Proof.
  cbn zeta. set (bad := mkPacket _ _).
  destruct (damaged_frame_delays_others demo_open 0 [demo_report 2] (demo_report 1) bad [demo_report 3] []) as (_ & He & _).
  - vm_compute; reflexivity.
  - repeat (constructor; [cbn; unfold is_uint; lia |]). constructor.
  - cbn. unfold is_uint. lia.
  - left. exists 3%nat, 0xED, 0. split; [vm_compute; reflexivity |]. split; [lia | reflexivity].
  - cbn [map concat] in He. rewrite !app_nil_r in He. rewrite He. vm_compute. reflexivity.
Defined.

Definition demo_task : TaskState ZigbeeWorld DataPoint :=
  task_init (mkZigbeeWorld demo_open [Opened []; Opened []; Opened []] []) (mkTaskCells 0 None 0 0 false 0) sim_policy None.
Definition demo_ticks : list TaskInput := [InTick (mkTickInput 1 2 1 None); InProtocol PcConnect; InTick (mkTickInput 9 10 9 None); InBusiness (CmdControl "c1" 7 f64_one 0)].

Lemma closed_gateway_never_reopened_witness :
  let closed := loop_reads demo_open 0 [ReadClosed] in
  let w := mkZigbeeWorld closed [Opened []; Opened []; Opened []] [] in
  is_online (ts_proto (task_loop 3 (set_proto demo_task w) demo_ticks).1) = false.
Proof.
  destruct (closed_gateway_never_reopened 3 demo_task 0 (mkEventLoop LoopRunning []) ReadClosed demo_ticks) as (H & _).
  - vm_compute; reflexivity.
  - vm_compute; reflexivity.
  - reflexivity.
  - by left.
  - repeat (constructor; [done |]). constructor.
  - exact H.
Defined.

Lemma zigbee_controls_sent_witness : let '(ch', r) := ZigbeeChannel_write_control demo_open [(7, f64_one); (8, f64_one)] [true] in
  r = Some 1 /\ length (zc_sent ch') = 1%nat.
Proof.
  pose proof (zigbee_controls_sent demo_open [(7, f64_one); (8, f64_one)] [true] ltac:(vm_compute; reflexivity) ltac:(repeat constructor)) as H. cbn zeta in H.
  destruct (ZigbeeChannel_write_control demo_open [(7, f64_one); (8, f64_one)] [true]) as [ch' r]. destruct H as (-> & -> & _). split; vm_compute; reflexivity.
Defined.
