(* ===== verification/Mms.v ===== *)
(** The MMS PDUs of IEC 61850: [services/comsrv/src/protocols/adapters/iec61850/mms.rs].

    Requests are byte lists built from names and values, responses and reports are parsed
    from byte lists.  The time stamped on a command is an argument.  [Panic] is a slice out
    of range; in [parse_report] it also stands for a dataset size that wraps to nearly
    [2^64] elements, which are then enumerated one by one. *)
From stdpp Require Import base numbers list strings.
From Stdlib Require Import ZArith Lia.
From S2P Require Import Prelude PointTypes MmsTransport.
Local Open Scope Z_scope.
Set Warnings "-clear-no-such-hyp".

(** * Tags *)

Definition TAG_CONFIRMED_REQ : Z := 0xA0.
Definition TAG_CONFIRMED_RESP : Z := 0xA1.
Definition TAG_REJECT_PDU : Z := 0xA4.
Definition TAG_INTEGER : Z := 0x02.
Definition TAG_VISIBLE_STR : Z := 0x1A.
Definition TAG_SEQUENCE : Z := 0x30.
Definition DATA_BOOLEAN : Z := 0x83.
Definition DATA_BIT_STRING : Z := 0x84.
Definition DATA_INTEGER : Z := 0x85.
Definition DATA_UNSIGNED : Z := 0x86.
Definition DATA_FLOAT : Z := 0x87.
Definition DATA_OCTET_STRING : Z := 0x89.
Definition DATA_VISIBLE_STRING : Z := 0x8A.
Definition DATA_UTC_TIME : Z := 0x91.
Definition DATA_MMS_STRING : Z := 0x90.
Definition DATA_STRUCTURE : Z := 0xA2.
Definition DATA_BINARY_TIME : Z := 0x8C.

(** * Values *)

Inductive MmsValue :=
| MFloat32 (bits : Z)
| MFloat64 (bits : Z)
| MBoolean (b : bool)
| MInteger (i : Z)
| MUnsigned (u : Z)
| MVisibleString (s : string)
| MBitString (bytes : list Z) (unused_bits : Z)
| MUtcTime (bytes : list Z)
| MOctetString (bytes : list Z)
| MFailure (code : Z).

Definition MmsValue_to_f64 (v : MmsValue) : option Z :=
  match v with
  | MFloat32 f => Some (f64_of_f32 f)
  | MFloat64 f => Some f
  | MInteger i => Some (f64_of_Z i)
  | MUnsigned u => Some (f64_of_Z u)
  | MBoolean b => Some (if b then f64_one else f64_zero)
  | _ => None
  end.
Definition MmsValue_to_bool (v : MmsValue) : option bool :=
  match v with
  | MBoolean b => Some b
  | MInteger i => Some (negb (i =? 0))
  | MUnsigned u => Some (negb (u =? 0))
  | _ => None
  end.
Definition MmsValue_to_string_val (v : MmsValue) : option string := match v with MVisibleString s => Some s | _ => None end.
Definition MmsValue_is_ok (v : MmsValue) : bool := match v with MFailure _ => false | _ => true end.

(** * Read request *)

Definition visible_string (bs : list Z) : list Z := [TAG_VISIBLE_STR; wrap 8 (Z.of_nat (length bs))] ++ bs.
Definition build_read_request (invoke_id : Z) (domain item : string) : list Z :=
  let d := str_bytes domain in
  let i := str_bytes item in
  let a1_domain_content := (2 + length d + 2 + length i)%nat in
  let a0_outer_content := (2 + a1_domain_content)%nat in
  let seq_content := (2 + a0_outer_content)%nat in
  let a0_varspec_content := (2 + seq_content)%nat in
  let a1_list_content := (2 + a0_varspec_content)%nat in
  let a4_read_content := (2 + a1_list_content)%nat in
  let req_inner := (3 + 2 + a4_read_content)%nat in
  [TAG_CONFIRMED_REQ] ++ push_ber_len req_inner ++
  [TAG_INTEGER; 0x01; invoke_id] ++
  [TAG_REJECT_PDU] ++ push_ber_len a4_read_content ++
  [0xA1] ++ push_ber_len a1_list_content ++
  [0xA0] ++ push_ber_len a0_varspec_content ++
  [TAG_SEQUENCE] ++ push_ber_len seq_content ++
  [0xA0] ++ push_ber_len a0_outer_content ++
  [0xA1] ++ push_ber_len a1_domain_content ++
  visible_string d ++ visible_string i.

(** * Read response *)

Definition proto {A} (e : IecFault) : result A IecError := Err (GwProtocol e).
Definition first_or_0 (bs : list Z) : Z := default 0 (head bs).

(** The loops over the bytes of an integer: [i64] and [u64] shifts drop the bits above. *)
Definition decode_i64 (val : list Z) : Z :=
  foldl (fun n b => to_signed 64 (wrap 64 (Z.lor (Z.shiftl n 8) b))) (if negb (Z.land (first_or_0 val) 0x80 =? 0) then -1 else 0) val.
Definition decode_u64 (val : list Z) : Z := foldl (fun n b => wrap 64 (Z.lor (Z.shiftl n 8) b)) 0 val.

(** The value of a data element by its tag. *)
Definition decode_mms_data (tag : Z) (val : list Z) : outcome (result MmsValue IecError) :=
  if tag =? DATA_BOOLEAN then Ret (Ok (MBoolean (negb (first_or_0 val =? 0))))
  else if tag =? DATA_INTEGER then
    Ret (match val with [] => proto ZeroLengthInteger | _ => Ok (MInteger (decode_i64 val)) end)
  else if tag =? DATA_UNSIGNED then Ret (Ok (MUnsigned (decode_u64 val)))
  else if tag =? DATA_FLOAT then
    Ret (if (length val =? 5)%nat then Ok (MFloat32 (from_be_bytes (drop 1 val)))
         else if (length val =? 9)%nat then Ok (MFloat64 (from_be_bytes (drop 1 val)))
         else proto (UnexpectedFloatLength (length val)))
  else if tag =? DATA_BIT_STRING then
    match val with [] => Panic | unused :: bytes => Ret (Ok (MBitString bytes unused)) end
  else if tag =? DATA_OCTET_STRING then Ret (Ok (MOctetString val))
  else if (tag =? DATA_VISIBLE_STRING) || (tag =? DATA_MMS_STRING) then Ret (Ok (MVisibleString (from_utf8_lossy val)))
  else if tag =? DATA_UTC_TIME then
    Ret (if (length val =? 8)%nat then Ok (MUtcTime val) else proto (UtcTimeLength (length val)))
  else Ret (proto (UnknownDataTag tag)).
Definition parse_data (buf : list Z) : outcome (result MmsValue IecError) :=
  match buf with
  | [] => Ret (proto EmptyData)
  | tag :: tail =>
      match parse_ber_len tail with
      | None => Ret (proto BerLengthError)
      | Some (len, hdr) => if (length buf <? 1 + hdr + len)%nat then Panic else decode_mms_data tag (take len (drop (1 + hdr) buf))
      end
  end.

Definition direct_data_tag (tag : Z) : bool :=
  existsb (Z.eqb tag) [DATA_BOOLEAN; DATA_BIT_STRING; DATA_INTEGER; DATA_UNSIGNED; DATA_FLOAT; DATA_OCTET_STRING; DATA_VISIBLE_STRING;
    DATA_UTC_TIME; DATA_MMS_STRING].
Definition parse_access_result (buf : list Z) : outcome (result MmsValue IecError) :=
  match buf with
  | [] => Ret (proto EmptyAccessResult)
  | tag :: _ =>
      if tag =? 0x80 then Ret (Ok (MFailure (default 0 (buf !! 2%nat))))
      else if tag =? 0xA1 then match parse_tlv buf 0xA1 with None => Ret (proto MalformedSuccess) | Some (_, data_buf) => parse_data data_buf end
      else if direct_data_tag tag then parse_data buf
      else Ret (proto (UnknownAccessTag tag))
  end.

(** The invoke id and the content that follows it. *)
Definition confirmed_response (pdu : list Z) : result (Z * list Z) IecError :=
  let? (_, pdu_content) := ok_or (parse_tlv pdu TAG_CONFIRMED_RESP) (GwProtocol ExpectedConfirmedResponse) in
  let? (rest, id_bytes) := ok_or (parse_tlv pdu_content TAG_INTEGER) (GwProtocol MissingInvokeId) in
  Ok (first_or_0 id_bytes, rest).
Definition parse_read_response (pdu : list Z) : outcome (result (Z * MmsValue) IecError) :=
  let content :=
    let? (invoke_id, rest) := confirmed_response pdu in
    let? (_, read_resp) := ok_or (parse_tlv rest TAG_REJECT_PDU) (GwProtocol ExpectedReadResponse) in
    let? (_, access_results) := ok_or (parse_tlv read_resp 0xA1) (GwProtocol ExpectedAccessResults) in
    Ok (invoke_id, access_results) in
  match content with
  | Err e => Ret (Err e)
  | Ok (invoke_id, access_results) =>
      let! value := parse_access_result access_results in
      Ret (let? v := value in Ok (invoke_id, v))
  end.

(** * Select before operate *)

(** [str::strip_suffix]. *)
Definition strip_suffix (suffix s : string) : option string :=
  let n := (String.length s - String.length suffix)%nat in
  if (String.length suffix <=? String.length s)%nat && String.eqb (String.substring n (String.length suffix) s) suffix
  then Some (String.substring 0 n s) else None.
(** The path of the control object, of which [$SBO], [$SBOw] and [$Oper] are attributes. *)
Definition control_base (item : string) : string :=
  default item (strip_suffix "$Oper" (default item (strip_suffix "$ctlVal" item))).

Definition build_sbo_select_request (invoke_id : Z) (domain item : string) : list Z :=
  build_read_request invoke_id domain (control_base item ++ "$SBO").
Definition parse_sbo_select_response (pdu : list Z) : outcome (result bool IecError) :=
  let! r := parse_read_response pdu in
  Ret (let? (_, value) := r in
       match value with
       | MVisibleString s => Ok (negb (String.eqb s EmptyString))
       | MFailure code => proto (SboAccessError code)
       | _ => proto SboUnexpectedValue
       end).

(** * Write request *)

Definition utc_time_now (secs nanos : Z) : list Z :=
  let secs := wrap 32 secs in
  let frac := wrap 32 (nanos * Z.shiftl 1 24 / 1000000000) in
  [wrap 8 (Z.shiftr secs 24); wrap 8 (Z.shiftr secs 16); wrap 8 (Z.shiftr secs 8); wrap 8 secs;
   wrap 8 (Z.shiftr frac 16); wrap 8 (Z.shiftr frac 8); wrap 8 frac; 0x00].

Definition encode_oper (now : Z * Z) (ctrl_bytes : list Z) (ctl_num : Z) : list Z :=
  let origin_inner := [DATA_INTEGER; 0x01; 0x03; DATA_OCTET_STRING; 0x00] in
  let ctlnum_bytes := [DATA_UNSIGNED; 0x01; ctl_num] in
  let t_bytes := utc_time_now now.1 now.2 in
  let test_bytes := [DATA_BOOLEAN; 0x01; 0x00] in
  let check_bytes := [DATA_BIT_STRING; 0x02; 0x06; 0x00] in
  let oper_content_len :=
    (length ctrl_bytes + (2 + length origin_inner) + length ctlnum_bytes + (2 + 8) + length test_bytes + length check_bytes)%nat in
  [DATA_STRUCTURE] ++ push_ber_len oper_content_len ++ ctrl_bytes ++
  [DATA_STRUCTURE] ++ push_ber_len (length origin_inner) ++ origin_inner ++
  ctlnum_bytes ++ [DATA_UTC_TIME; 0x08] ++ t_bytes ++ test_bytes ++ check_bytes.

Definition build_write_request (invoke_id : Z) (domain item : string) (data_bytes : list Z) : list Z :=
  let d := str_bytes domain in
  let i := str_bytes item in
  let a1_domain_content := (2 + length d + 2 + length i)%nat in
  let a0_name_content := (2 + a1_domain_content)%nat in
  let seq_content := (2 + a0_name_content)%nat in
  let a0_list_content := (2 + seq_content)%nat in
  let a0_data_content := length data_bytes in
  let write_inner := ((2 + a0_list_content) + (2 + a0_data_content))%nat in
  let req_inner := (3 + 2 + write_inner)%nat in
  [TAG_CONFIRMED_REQ] ++ push_ber_len req_inner ++
  [TAG_INTEGER; 0x01; invoke_id] ++
  [0xA5] ++ push_ber_len write_inner ++
  [0xA0] ++ push_ber_len a0_list_content ++
  [TAG_SEQUENCE] ++ push_ber_len seq_content ++
  [0xA0] ++ push_ber_len a0_name_content ++
  [0xA1] ++ push_ber_len a1_domain_content ++
  visible_string d ++ visible_string i ++
  [0xA0] ++ push_ber_len a0_data_content ++ data_bytes.

Definition bool_u8 (b : bool) : Z := if b then 1 else 0.
Definition build_sbow_select_bool_request (now : Z * Z) (invoke_id : Z) (domain item : string) (value : bool) : list Z :=
  build_write_request invoke_id domain (control_base item ++ "$SBOw") (encode_oper now [DATA_BOOLEAN; 0x01; bool_u8 value] invoke_id).
Definition build_write_bool_request (now : Z * Z) (invoke_id : Z) (domain item : string) (value : bool) : list Z :=
  build_write_request invoke_id domain (default item (strip_suffix "$ctlVal" item)) (encode_oper now [DATA_BOOLEAN; 0x01; bool_u8 value] invoke_id).
Definition build_write_f32_request (now : Z * Z) (invoke_id : Z) (domain item : string) (value : Z) : list Z :=
  let oper_item :=
    match strip_suffix "$setMag$f" item with Some base => base | None => default item (strip_suffix "$setMag" item) end in
  let setmag_inner := [DATA_FLOAT; 0x05; 0x08] ++ to_be_bytes 4 value in
  let setmag := [DATA_STRUCTURE] ++ push_ber_len (length setmag_inner) ++ setmag_inner in
  build_write_request invoke_id domain oper_item (encode_oper now setmag invoke_id).
Definition build_write_simple_bool (invoke_id : Z) (domain item : string) (value : bool) : list Z :=
  build_write_request invoke_id domain item [DATA_BOOLEAN; 0x01; bool_u8 value].

Definition parse_write_response (pdu : list Z) : result Z IecError :=
  let? (invoke_id, rest) := confirmed_response pdu in
  let? (_, write_resp) := ok_or (parse_tlv rest 0xA5) (GwProtocol ExpectedWriteResponse) in
  match write_resp with
  | [] => proto EmptyWriteResponse
  | tag :: _ =>
      if tag =? 0x81 then Ok invoke_id
      else if tag =? 0x80 then proto (WriteAccessError (default 0 (write_resp !! 2%nat)))
      else proto (UnexpectedWriteTag tag)
  end.

(** * Reports *)

Record ParsedReport := mkParsedReport {
  rp_rpt_id : string;
  rp_timestamp_ms : option Z;
  rp_dataset_size : nat;
  rp_element_indices : list nat;
  rp_values : list MmsValue;
}.

(** The value of an item by its tag, absent for constructed and unknown types. *)
Definition decode_item (tag : Z) (val : list Z) : option (option MmsValue) :=
  if tag =? DATA_BOOLEAN then Some (Some (MBoolean (negb (first_or_0 val =? 0))))
  else if tag =? DATA_BIT_STRING then Some (Some (MBitString (drop 1 val) (first_or_0 val)))
  else if tag =? DATA_INTEGER then match val with [] => None | _ => Some (Some (MInteger (decode_i64 val))) end
  else if tag =? DATA_UNSIGNED then Some (Some (MUnsigned (decode_u64 val)))
  else if tag =? DATA_FLOAT then
    Some (if (length val =? 5)%nat then Some (MFloat32 (from_be_bytes (drop 1 val)))
          else if (length val =? 9)%nat then Some (MFloat64 (from_be_bytes (drop 1 val))) else None)
  else if (tag =? DATA_OCTET_STRING) || (tag =? DATA_BINARY_TIME) then Some (Some (MOctetString val))
  else if (tag =? DATA_VISIBLE_STRING) || (tag =? DATA_MMS_STRING) then Some (Some (MVisibleString (from_utf8_lossy val)))
  else if tag =? DATA_UTC_TIME then Some (if (length val =? 8)%nat then Some (MUtcTime val) else None)
  else Some None.
(** The bytes of the item at the front and its value. *)
Definition parse_data_item (buf : list Z) : option (nat * option MmsValue) :=
  match buf with
  | [] => None
  | tag :: tail =>
      '(len, hdr) ← parse_ber_len tail;
      let total := (1 + hdr + len)%nat in
      if (length buf <? total)%nat then None
      else v ← decode_item tag (take len (drop (1 + hdr) buf)); Some (total, v)
  end.
(** The value of the item at the front of the cursor, and the items after it. *)
Definition next_item (items : list Z) : option (option MmsValue * list Z) :=
  '(n, v) ← parse_data_item items; Some (v, drop n items).
Fixpoint skip_items (k : nat) (items : list Z) : option (list Z) :=
  match k with
  | O => Some items
  | S k => '(_, items) ← next_item items; skip_items k items
  end.
Definition skip_if (b : bool) (k : nat) (items : list Z) : option (list Z) := if b then skip_items k items else Some items.
Fixpoint read_items (k : nat) (items : list Z) : option (list MmsValue) :=
  match k with
  | O => Some []
  | S k => '(v, items) ← next_item items; vs ← read_items k items; Some (default (MFailure 0) v :: vs)
  end.

(** Bit [n] of a bit string: bit 0 is the most significant bit of the first byte. *)
Definition bit_at (bytes : list Z) (n : nat) : bool :=
  match bytes !! (n / 8)%nat with
  | Some b => Z.land (Z.shiftr b (7 - Z.of_nat (n mod 8))) 1 =? 1
  | None => false
  end.
Definition binary_time (ts : list Z) : option Z :=
  match ts with
  | [b0; b1; b2; b3; b4; b5] =>
      let ms_today := Z.lor (Z.lor (Z.lor (Z.shiftl b0 24) (Z.shiftl b1 16)) (Z.shiftl b2 8)) b3 in
      let days := Z.lor (Z.shiftl b4 8) b5 in
      Some (days * 86400000 + ms_today)
  | _ => None
  end.
Definition included (bytes : list Z) (dataset_size : nat) : list nat := List.filter (bit_at bytes) (seq 0 dataset_size).

(** The items before the inclusion bitmap: report id, option bits, time stamp. *)
Definition report_head (items : list Z) : option (string * list Z * option Z * list Z) :=
  '(rpt_id_val, items) ← next_item items;
  rpt_id ← match rpt_id_val with Some (MVisibleString s) => Some s | _ => None end;
  '(opt_val, items) ← next_item items;
  opt_bytes ← match opt_val with Some (MBitString bytes _) => Some bytes | _ => None end;
  items ← skip_if (bit_at opt_bytes 1) 1 items;
  '(timestamp_ms, items) ←
    (if bit_at opt_bytes 2 then
       '(ts_val, items) ← next_item items;
       Some (match ts_val with Some (MOctetString ts) => binary_time ts | _ => None end, items)
     else Some (None, items));
  items ← skip_if (bit_at opt_bytes 4) 1 items;
  items ← skip_if (bit_at opt_bytes 6) 1 items;
  items ← skip_if (bit_at opt_bytes 7) 1 items;
  items ← skip_if (bit_at opt_bytes 8) 1 items;
  items ← skip_if (bit_at opt_bytes 9) 2 items;
  Some (rpt_id, opt_bytes, timestamp_ms, items).
Definition report_inclusion (items : list Z) : option (list Z * Z * list Z) :=
  '(incl_val, items) ← next_item items;
  match incl_val with Some (MBitString bytes unused) => Some (bytes, unused, items) | _ => None end.
Definition report_body (opt_bytes : list Z) (k : nat) (items : list Z) : option (list MmsValue) :=
  items ← skip_if (bit_at opt_bytes 5) k items; read_items k items.
Definition report_items (pdu : list Z) : option (list Z) :=
  '(_, a0_content) ← parse_tlv pdu 0xA3;
  '(_, info) ← parse_tlv a0_content 0xA0;
  '(rest, _) ← parse_tlv info 0xA1;
  '(_, items) ← parse_tlv rest 0xA0;
  Some items.
Definition parse_report (pdu : list Z) : outcome (option ParsedReport) :=
  match ('(rpt_id, opt_bytes, ts, items) ← report_items pdu ≫= report_head;
         '(incl_bytes, incl_unused, items) ← report_inclusion items;
         Some (rpt_id, opt_bytes, ts, incl_bytes, incl_unused, items)) with
  | None => Ret None
  | Some (rpt_id, opt_bytes, ts, incl_bytes, incl_unused, items) =>
      let bits := Z.of_nat (length incl_bytes) * 8 in
      if bits <? incl_unused then Panic
      else
        let dataset_size := Z.to_nat (bits - incl_unused) in
        let element_indices := included incl_bytes dataset_size in
        Ret (values ← report_body opt_bytes (length element_indices) items;
             Some (mkParsedReport rpt_id ts dataset_size element_indices values))
  end.

(** * The server's view of a request

    Reference decoders of the wire formats documented for the two requests. *)
Definition server_request (service : Z) (pdu : list Z) : option (Z * list Z) :=
  '(_, c) ← parse_tlv pdu TAG_CONFIRMED_REQ;
  '(rest, id_bytes) ← parse_tlv c TAG_INTEGER;
  '(_, body) ← parse_tlv rest service;
  id ← head id_bytes;
  Some (id, body).
Definition server_name (c : list Z) : option (list Z * list Z) :=
  '(_, ds) ← parse_tlv c 0xA1;
  '(rest, d) ← parse_tlv ds TAG_VISIBLE_STR;
  '(_, i) ← parse_tlv rest TAG_VISIBLE_STR;
  Some (d, i).
Definition server_read (pdu : list Z) : option (Z * list Z * list Z) :=
  '(id, body) ← server_request TAG_REJECT_PDU pdu;
  '(_, l) ← parse_tlv body 0xA1;
  '(_, v) ← parse_tlv l 0xA0;
  '(_, s) ← parse_tlv v TAG_SEQUENCE;
  '(_, n) ← parse_tlv s 0xA0;
  '(d, i) ← server_name n;
  Some (id, d, i).
Definition server_write (pdu : list Z) : option (Z * list Z * list Z * list Z) :=
  '(id, body) ← server_request 0xA5 pdu;
  '(rest, l) ← parse_tlv body 0xA0;
  '(_, s) ← parse_tlv l TAG_SEQUENCE;
  '(_, n) ← parse_tlv s 0xA0;
  '(d, i) ← server_name n;
  '(_, data) ← parse_tlv rest 0xA0;
  Some (id, d, i, data).

Lemma push_ber_len_short n : (n < 128)%nat -> push_ber_len n = [Z.of_nat n].
Proof. intros Hn. unfold push_ber_len. by rewrite (proj2 (Z.ltb_lt _ _)) by lia. Qed.
Lemma tlv_short tag c : (length c < 128)%nat -> tlv tag c = [tag; Z.of_nat (length c)] ++ c.
Proof. intros Hc. unfold tlv. by rewrite push_ber_len_short. Qed.
Lemma length_tlv_short tag c : (length c < 128)%nat -> length (tlv tag c) = (2 + length c)%nat.
Proof. intros Hc. by rewrite tlv_short. Qed.
Lemma visible_string_tlv bs : (length bs < 128)%nat -> visible_string bs = tlv TAG_VISIBLE_STR bs.
Proof. intros Hb. unfold visible_string. by rewrite tlv_short, wrap_small by (unfold is_uint; lia). Qed.
Lemma length_visible_string bs : length (visible_string bs) = (2 + length bs)%nat.
Proof. done. Qed.

(** A length shorter or longer than what follows it. *)
Lemma parse_tlv_prefix tag n body :
  Z.of_nat n < 65536 -> (n <= length body)%nat -> parse_tlv (tag :: push_ber_len n ++ body) tag = Some (drop n body, take n body).
Proof.
  intros Hn Hl. rewrite <- (take_drop n body) at 1. rewrite app_assoc.
  assert (Hlen : length (take n body) = n) by (rewrite length_take; lia).
  rewrite <- Hlen at 1. change (tag :: (push_ber_len (length (take n body)) ++ take n body) ++ drop n body)
    with (tlv tag (take n body) ++ drop n body). apply parse_tlv_tlv. by rewrite Hlen.
Qed.
Lemma parse_tlv_truncated tag n body :
  Z.of_nat n < 65536 -> (length body < n)%nat -> parse_tlv (tag :: push_ber_len n ++ body) tag = None.
Proof.
  intros Hn Hl. unfold parse_tlv. rewrite Z.eqb_refl, parse_push_ber_len by done. cbn [mbind option_bind].
  rewrite (proj2 (Nat.ltb_lt _ _)); [done|]. simpl. rewrite length_app, length_push_ber_len. lia.
Qed.

(** A request counts a header of two bytes for every inner length. *)
Lemma server_request_shape service id k body :
  (k <= length body)%nat -> Z.of_nat k < 65000 ->
  server_request service ([TAG_CONFIRMED_REQ] ++ push_ber_len (3 + 2 + k) ++ [TAG_INTEGER; 0x01; id] ++ [service] ++ push_ber_len k ++ body) =
  if (k <? 128)%nat then Some (id, take k body) else None.
Proof.
  intros Hk Hk'. unfold server_request. cbn [app].
  rewrite parse_tlv_prefix; [| lia | simpl; rewrite length_app, length_push_ber_len; pose proof (ber_len_size_max k); lia].
  cbn [mbind option_bind take Nat.add].
  match goal with |- context [parse_tlv (TAG_INTEGER :: 1 :: id :: ?r) _] =>
    change (TAG_INTEGER :: 1 :: id :: r) with (tlv TAG_INTEGER [id] ++ r) end.
  rewrite parse_tlv_tlv by (simpl; lia). cbn [mbind option_bind head].
  replace (S k) with (length (push_ber_len k) + (S k - ber_len_size k))%nat
    by (rewrite length_push_ber_len; unfold ber_len_size; repeat case_match; bool_hyps; lia).
  rewrite take_app_add. destruct (Nat.ltb_spec k 128) as [Hs|Hs].
  - rewrite parse_tlv_prefix by (rewrite ?length_take; unfold ber_len_size; repeat case_match; bool_hyps; lia).
    cbn [mbind option_bind]. rewrite take_take. do 3 f_equal. unfold ber_len_size. repeat case_match; bool_hyps; lia.
  - rewrite parse_tlv_truncated; [done | lia |]. rewrite length_take. unfold ber_len_size. repeat case_match; bool_hyps; lia.
Qed.

Definition name_body (d i : list Z) : list Z := tlv 0xA1 (tlv TAG_VISIBLE_STR d ++ tlv TAG_VISIBLE_STR i).
Lemma length_name_content d i :
  (length d + length i < 124)%nat -> length (tlv TAG_VISIBLE_STR d ++ tlv TAG_VISIBLE_STR i) = (2 + length d + 2 + length i)%nat.
Proof. intros H. rewrite length_app, !length_tlv_short by lia. lia. Qed.
Lemma length_name_body d i : (length d + length i < 124)%nat -> length (name_body d i) = (2 + (2 + length d + 2 + length i))%nat.
Proof. intros H. unfold name_body. rewrite length_tlv_short; rewrite length_name_content; lia. Qed.

(** The bytes of a name under [n] further tags, as the builders emit them. *)
Lemma emitted_name d i :
  (length d + length i < 124)%nat ->
  [0xA1] ++ push_ber_len (2 + length d + 2 + length i) ++ visible_string d ++ visible_string i = name_body d i.
Proof.
  intros H. unfold name_body. rewrite !visible_string_tlv by lia. unfold tlv at 3. by rewrite length_name_content.
Qed.
Lemma emitted_tlv tag n body : length body = n -> [tag] ++ push_ber_len n ++ body = tlv tag body.
Proof. by intros <-. Qed.

Lemma server_name_body d i :
  (length d + length i < 124)%nat -> server_name (name_body d i) = Some (d, i).
Proof.
  intros H. unfold server_name, name_body. rewrite parse_tlv_alone by (rewrite length_name_content; lia). cbn [mbind option_bind].
  rewrite parse_tlv_tlv by lia. cbn [mbind option_bind]. by rewrite parse_tlv_alone by lia.
Qed.

Definition names_size (domain item : string) : nat := (length (str_bytes domain) + length (str_bytes item))%nat.

Lemma server_read_built id domain item :
  Z.of_nat (names_size domain item) < 64000 ->
  server_read (build_read_request id domain item) =
  if (names_size domain item <=? 113)%nat then Some (id, str_bytes domain, str_bytes item) else None.
Proof.
  intros Hn. unfold names_size in *. unfold server_read, build_read_request. set (d := str_bytes domain) in *. set (i := str_bytes item) in *.
  rewrite server_request_shape; [| rewrite !length_app, !length_push_ber_len, !length_visible_string; simpl; unfold ber_len_size; repeat case_match; lia | lia].
  destruct (Nat.leb_spec (length d + length i) 113) as [Hs|Hs]; [rewrite (proj2 (Nat.ltb_lt _ _)) by lia |by rewrite (proj2 (Nat.ltb_ge _ _)) by lia].
  cbn [mbind option_bind]. rewrite emitted_name by lia.
  set (b := name_body d i). assert (Hb : length b = (6 + length d + length i)%nat) by (unfold b; rewrite length_name_body; lia).
  assert (H1 : length (tlv 0xA0 b) = (2 + length b)%nat) by (apply length_tlv_short; lia).
  assert (H2 : length (tlv TAG_SEQUENCE (tlv 0xA0 b)) = (4 + length b)%nat) by (rewrite length_tlv_short; lia).
  assert (H3 : length (tlv 0xA0 (tlv TAG_SEQUENCE (tlv 0xA0 b))) = (6 + length b)%nat) by (rewrite length_tlv_short; lia).
  assert (H4 : length (tlv 0xA1 (tlv 0xA0 (tlv TAG_SEQUENCE (tlv 0xA0 b)))) = (8 + length b)%nat) by (rewrite length_tlv_short; lia).
  rewrite (emitted_tlv 0xA0 _ b), (emitted_tlv TAG_SEQUENCE _ (tlv 0xA0 b)), (emitted_tlv 0xA0), (emitted_tlv 0xA1) by lia.
  rewrite take_ge by lia.
  do 4 (rewrite parse_tlv_alone by lia; cbn [mbind option_bind]). unfold b. by rewrite server_name_body by lia.
Qed.

Lemma server_write_built id domain item data :
  Z.of_nat (names_size domain item + length data) < 64000 ->
  server_write (build_write_request id domain item data) =
  if (names_size domain item + length data <=? 113)%nat then Some (id, str_bytes domain, str_bytes item, data) else None.
Proof.
  intros Hn. unfold names_size in *. unfold server_write, build_write_request. set (d := str_bytes domain) in *. set (i := str_bytes item) in *.
  rewrite server_request_shape; [| rewrite !length_app, !length_push_ber_len, !length_visible_string; simpl; unfold ber_len_size; repeat case_match; lia | lia].
  destruct (Nat.leb_spec (length d + length i + length data) 113) as [Hs|Hs];
    [rewrite (proj2 (Nat.ltb_lt _ _)) by lia |by rewrite (proj2 (Nat.ltb_ge _ _)) by lia].
  cbn [mbind option_bind]. rewrite (emitted_tlv 0xA0 (length data)) by done.
  rewrite (app_assoc (visible_string d)), 2!(app_assoc _ _ (tlv 0xA0 data)), emitted_name by lia.
  set (b := name_body d i). assert (Hb : length b = (6 + length d + length i)%nat) by (unfold b; rewrite length_name_body; lia).
  assert (H1 : length (tlv 0xA0 b) = (2 + length b)%nat) by (apply length_tlv_short; lia).
  assert (H2 : length (tlv TAG_SEQUENCE (tlv 0xA0 b)) = (4 + length b)%nat) by (rewrite length_tlv_short; lia).
  assert (H3 : length (tlv 0xA0 (tlv TAG_SEQUENCE (tlv 0xA0 b))) = (6 + length b)%nat) by (rewrite length_tlv_short; lia).
  rewrite 2!(app_assoc _ _ (tlv 0xA0 data)), (emitted_tlv 0xA0 _ b), 2!(app_assoc _ _ (tlv 0xA0 data)), (emitted_tlv TAG_SEQUENCE),
    2!(app_assoc _ _ (tlv 0xA0 data)), (emitted_tlv 0xA0) by lia.
  rewrite take_ge by (rewrite length_app, H3, (length_tlv_short 0xA0 data); lia).
  rewrite parse_tlv_tlv by lia. cbn [mbind option_bind]. rewrite (parse_tlv_alone TAG_SEQUENCE) by lia. cbn [mbind option_bind].
  rewrite (parse_tlv_alone 0xA0 b) by lia. cbn [mbind option_bind].
  unfold b. rewrite server_name_body by lia. cbn [mbind option_bind]. by rewrite parse_tlv_alone by lia.
Qed.

(** The data of an operate request. *)
Lemma length_encode_oper now ctrl num : (length ctrl < 100)%nat -> length (encode_oper now ctrl num) = (length ctrl + 29)%nat.
Proof. intros Hc. unfold encode_oper. rewrite !push_ber_len_short by (simpl; lia). rewrite !length_app. simpl. lia. Qed.

(** What a server finds in the structure of an operate request. *)
Definition server_oper (data : list Z) : option (list MmsValue) := '(_, c) ← parse_tlv data DATA_STRUCTURE; read_items 6 c.
Lemma decode_u64_byte b : is_uint 8 b -> decode_u64 [b] = b.
Proof. intros Hb. unfold decode_u64. cbn [foldl]. rewrite Z.shiftl_0_l, Z.lor_0_l, wrap_small; unfold is_uint in *; lia. Qed.
Lemma take_tlv_content tag c rest : take (length c) (drop (1 + ber_len_size (length c)) (tlv tag c ++ rest)) = c.
Proof. unfold tlv. cbn [app drop Nat.add]. by rewrite <- app_assoc, <- length_push_ber_len, drop_app_length, take_app_length. Qed.
Lemma next_item_tlv tag c rest :
  Z.of_nat (length c) < 65536 -> next_item (tlv tag c ++ rest) = (v ← decode_item tag c; Some (v, rest)).
Proof.
  intros Hc. unfold next_item, parse_data_item. assert (He : exists t, tlv tag c ++ rest = tag :: t) by by eexists.
  assert (Hp : parse_ber_len (push_ber_len (length c) ++ c ++ rest) = Some (length c, ber_len_size (length c))) by by apply parse_push_ber_len.
  rewrite (app_assoc (push_ber_len (length c))) in Hp. cbn [app tlv] in *. rewrite Hp. cbn [mbind option_bind].
  change (tag :: (push_ber_len (length c) ++ c) ++ rest) with (tlv tag c ++ rest).
  rewrite (proj2 (Nat.ltb_ge _ _)) by (rewrite length_app, length_tlv; unfold tlv_size; lia). rewrite take_tlv_content.
  destruct (decode_item tag c); [|done]. cbn [mbind option_bind]. by rewrite drop_app_length' by by rewrite length_tlv.
Qed.
Lemma parse_data_tlv tag c rest : Z.of_nat (length c) < 65536 -> parse_data (tlv tag c ++ rest) = decode_mms_data tag c.
Proof.
  intros Hc. unfold parse_data.
  assert (Hp : parse_ber_len (push_ber_len (length c) ++ c ++ rest) = Some (length c, ber_len_size (length c))) by by apply parse_push_ber_len.
  rewrite (app_assoc (push_ber_len (length c))) in Hp. cbn [app tlv] in *. rewrite Hp. cbn [mbind option_bind].
  change (tag :: (push_ber_len (length c) ++ c) ++ rest) with (tlv tag c ++ rest).
  rewrite (proj2 (Nat.ltb_ge _ _)) by (rewrite length_app, length_tlv; unfold tlv_size; lia). by rewrite take_tlv_content.
Qed.
Lemma server_oper_built now ctrl num v :
  is_uint 8 num -> (length ctrl < 100)%nat -> (forall rest, next_item (ctrl ++ rest) = Some (v, rest)) ->
  server_oper (encode_oper now ctrl num) =
  Some [default (MFailure 0) v; MFailure 0; MUnsigned num; MUtcTime (utc_time_now now.1 now.2); MBoolean false; MBitString [0] 6].
Proof.
  intros Hnum Hc Hv. unfold server_oper, encode_oper. rewrite emitted_tlv by (rewrite !length_app, push_ber_len_short; simpl; lia).
  rewrite parse_tlv_alone by (rewrite !length_app, push_ber_len_short; simpl; lia). cbn [mbind option_bind read_items]. rewrite Hv. cbn [mbind option_bind].
  match goal with |- context [next_item ([DATA_STRUCTURE] ++ ?x)] => replace ([DATA_STRUCTURE] ++ x) with
    (tlv DATA_STRUCTURE [DATA_INTEGER; 0x01; 0x03; DATA_OCTET_STRING; 0x00] ++ tlv DATA_UNSIGNED [num] ++
     tlv DATA_UTC_TIME (utc_time_now now.1 now.2) ++ tlv DATA_BOOLEAN [0] ++ tlv DATA_BIT_STRING [6; 0] ++ []) by reflexivity end.
  do 5 (cbn [mbind option_bind]; rewrite next_item_tlv by (simpl; lia); cbn -[decode_u64 next_item tlv utc_time_now]).
  by rewrite decode_u64_byte.
Qed.

(** * Decoding of values *)

Lemma from_be_bytes_snoc bs b : from_be_bytes (bs ++ [b]) = from_be_bytes bs * 256 + b.
Proof. unfold from_be_bytes. rewrite reverse_snoc. cbn [from_le_bytes]. lia. Qed.
Lemma shift_in_byte n b : is_uint 8 b -> Z.lor (Z.shiftl n 8) b = n * 256 + b.
Proof. intros Hb. by rewrite lor_shiftl_add. Qed.
Lemma wrap_shift_in n b : wrap 64 (wrap 64 n * 256 + b) = wrap 64 (n * 256 + b).
Proof. unfold wrap. rewrite Zplus_mod, Zmult_mod_idemp_l, <- Zplus_mod. done. Qed.

Lemma decode_u64_spec val : is_bytes val -> decode_u64 val = wrap 64 (from_be_bytes val).
Proof.
  unfold decode_u64. induction val as [|b val IH] using rev_ind; intros Hval; [done|].
  apply is_bytes_app in Hval as [Hval Hb]. inversion Hb; subst.
  by rewrite foldl_snoc, IH, shift_in_byte, wrap_shift_in, from_be_bytes_snoc.
Qed.
Lemma foldl_i64_spec init val :
  is_bytes val -> wrap 64 (foldl (fun n b => to_signed 64 (wrap 64 (Z.lor (Z.shiftl n 8) b))) init val) =
  wrap 64 (init * 2 ^ (8 * Z.of_nat (length val)) + from_be_bytes val).
Proof.
  induction val as [|b val IH] using rev_ind; intros Hval; [cbn; f_equal; unfold from_be_bytes; cbn; lia|].
  apply is_bytes_app in Hval as [Hval Hb]. inversion Hb; subst. rewrite foldl_snoc, shift_in_byte, wrap_to_signed by done.
  rewrite (wrap_small 64 (wrap 64 _)) by (by apply wrap_uint). rewrite <- wrap_shift_in, IH, wrap_shift_in, from_be_bytes_snoc by done.
  f_equal. rewrite length_app. cbn [length]. replace (8 * Z.of_nat (length val + 1)) with (8 * Z.of_nat (length val) + 8) by lia.
  rewrite Z.pow_add_r by lia. change (2 ^ 8) with 256. ring.
Qed.
Lemma foldl_i64_signed init val :
  val <> [] -> exists z, foldl (fun n b => to_signed 64 (wrap 64 (Z.lor (Z.shiftl n 8) b))) init val = to_signed 64 (wrap 64 z).
Proof. destruct val as [|b val _] using rev_ind; [done|]. intros _. rewrite foldl_snoc. by eexists. Qed.
Lemma sign_byte b : is_uint 8 b -> negb (Z.land b 0x80 =? 0) = (128 <=? b).
Proof.
  intros Hb. assert (H : forallb (fun k => Bool.eqb (negb (Z.land k 0x80 =? 0)) (128 <=? k)) (map Z.of_nat (seq 0 256)) = true) by reflexivity.
  rewrite forallb_forall in H. apply eqb_prop, H. apply in_map_iff. exists (Z.to_nat b). unfold is_uint in Hb.
  split; [lia|]. apply in_seq. lia.
Qed.
Lemma from_be_bytes_cons b bs : from_be_bytes (b :: bs) = b * 2 ^ (8 * Z.of_nat (length bs)) + from_be_bytes bs.
Proof.
  induction bs as [|c bs IH] using rev_ind; [unfold from_be_bytes; cbn; lia|].
  rewrite app_comm_cons, !from_be_bytes_snoc, IH, length_app. cbn [length].
  replace (8 * Z.of_nat (length bs + 1)) with (8 * Z.of_nat (length bs) + 8) by lia. rewrite Z.pow_add_r by lia.
  change (2 ^ 8) with 256. ring.
Qed.
(** The sign of the first byte is the sign of the number. *)
Lemma decode_i64_spec val :
  is_bytes val -> val <> [] -> (length val <= 8)%nat ->
  decode_i64 val = to_signed (8 * Z.of_nat (length val)) (from_be_bytes val).
Proof.
  intros Hval Hne Hlen. unfold decode_i64. destruct (foldl_i64_signed (if negb (Z.land (first_or_0 val) 0x80 =? 0) then -1 else 0) val Hne) as [z Hz].
  pose proof (foldl_i64_spec (if negb (Z.land (first_or_0 val) 0x80 =? 0) then -1 else 0) val Hval) as Hw.
  rewrite Hz in *. rewrite wrap_to_signed, (wrap_small 64 (wrap 64 z)) in Hw by (try apply wrap_uint; lia). rewrite Hw. clear Hz Hw z.
  destruct val as [|b val]; [done|]. inversion Hval as [|? ? Hb Hval']; subst. cbn [first_or_0 head default from_option].
  unfold first_or_0. cbn [head default from_option]. rewrite sign_byte by done.
  pose proof (from_be_bytes_range _ Hval') as Hr. unfold is_uint in Hr, Hb. rewrite from_be_bytes_cons.
  set (P := 2 ^ (8 * Z.of_nat (length val))) in *.
  replace (8 * Z.of_nat (length (b :: val))) with (8 * Z.of_nat (length val) + 8) by (cbn [length]; lia).
  assert (HP : 0 < P) by (apply Z.pow_pos_nonneg; lia). assert (HP' : P <= 2 ^ 56) by (cbn [length] in Hlen; unfold P; apply Z.pow_le_mono_r; lia).
  assert (Hw : 2 ^ (8 * Z.of_nat (length val) + 8) = P * 256) by (rewrite Z.pow_add_r by lia; done).
  assert (Hw' : 2 ^ (8 * Z.of_nat (length val) + 8 - 1) = P * 128)
    by (replace (8 * Z.of_nat (length val) + 8 - 1) with (8 * Z.of_nat (length val) + 7) by lia; rewrite Z.pow_add_r by lia; done).
  change (id b) with b. clearbody P. change (2 ^ 8) with 256 in Hb.
  rewrite to_signed_wrap; [|lia|rewrite Hw; change (2 ^ (64 - 1)) with (2 ^ 56 * 128); destruct (Z.leb_spec 128 b); nia].
  unfold to_signed. rewrite wrap_small by (unfold is_uint; rewrite Hw; nia). rewrite Hw, Hw'. destruct (Z.leb_spec 128 b).
  - rewrite (proj2 (Z.ltb_ge _ _)); nia.
  - rewrite (proj2 (Z.ltb_lt _ _)); nia.
Qed.

Definition is_ascii (s : string) : Prop := Forall (fun b => b < 128) (str_bytes s).
Lemma str_bytes_range s : is_bytes (str_bytes s).
Proof. unfold is_bytes, str_bytes. apply Forall_fmap, Forall_true. intros c. pose proof (Ascii.nat_ascii_bounded c). unfold is_uint. simpl. lia. Qed.
Lemma bytes_str_bytes s : bytes_str (str_bytes s) = s.
Proof.
  unfold bytes_str, str_bytes. rewrite map_map. rewrite <- (String.string_of_list_ascii_of_string s) at 2. f_equal.
  rewrite <- map_id. apply map_ext. intros c. by rewrite Nat2Z.id, Ascii.ascii_nat_embedding.
Qed.
Lemma lossy_loop_ascii fuel bs : (length bs <= fuel)%nat -> Forall (fun b => b < 128) bs -> lossy_loop fuel bs = bs.
Proof.
  revert bs. induction fuel as [|fuel IH]; intros [|b bs] Hf Hbs; try done; [simpl in Hf; lia|].
  inversion Hbs; subst. cbn [lossy_loop]. unfold utf8_front. rewrite (proj2 (Z.ltb_lt b 128)) by done. cbn [take drop app].
  f_equal. apply IH; [simpl in Hf; lia | done].
Qed.
Lemma from_utf8_lossy_ascii s : is_ascii s -> from_utf8_lossy (str_bytes s) = s.
Proof. intros Hs. unfold from_utf8_lossy. by rewrite lossy_loop_ascii, bytes_str_bytes. Qed.

(** How a server encodes a value: the tag and the content of the data element. *)
Inductive encoded : MmsValue -> Z -> list Z -> Prop :=
| EncBoolean b x : (x =? 0) = negb b -> encoded (MBoolean b) DATA_BOOLEAN [x]
| EncInteger n i : (1 <= n <= 8)%nat -> - 2 ^ (8 * Z.of_nat n - 1) <= i < 2 ^ (8 * Z.of_nat n - 1) ->
    encoded (MInteger i) DATA_INTEGER (to_be_bytes n i)
| EncUnsigned n u : is_uint 64 u -> is_uint (8 * Z.of_nat n) u -> (n <= 9)%nat -> encoded (MUnsigned u) DATA_UNSIGNED (to_be_bytes n u)
| EncFloat32 bits : is_uint 32 bits -> encoded (MFloat32 bits) DATA_FLOAT (8 :: to_be_bytes 4 bits)
| EncFloat64 bits : is_uint 64 bits -> encoded (MFloat64 bits) DATA_FLOAT (11 :: to_be_bytes 8 bits)
| EncBitString bytes unused : encoded (MBitString bytes unused) DATA_BIT_STRING (unused :: bytes)
| EncOctetString bytes : encoded (MOctetString bytes) DATA_OCTET_STRING bytes
| EncVisibleString s : is_ascii s -> encoded (MVisibleString s) DATA_VISIBLE_STRING (str_bytes s)
| EncMmsString s : is_ascii s -> encoded (MVisibleString s) DATA_MMS_STRING (str_bytes s)
| EncUtcTime bytes : length bytes = 8%nat -> encoded (MUtcTime bytes) DATA_UTC_TIME bytes.

Lemma to_be_bytes_nonempty n z : (1 <= n)%nat -> to_be_bytes n z <> [].
Proof. intros Hn H. apply (f_equal length) in H. rewrite length_to_be_bytes in H. simpl in H. lia. Qed.
Lemma decode_i64_encoded n i :
  (1 <= n <= 8)%nat -> - 2 ^ (8 * Z.of_nat n - 1) <= i < 2 ^ (8 * Z.of_nat n - 1) -> decode_i64 (to_be_bytes n i) = i.
Proof.
  intros Hn Hi. rewrite decode_i64_spec; [ |apply to_be_bytes_is_bytes|apply to_be_bytes_nonempty; lia|rewrite length_to_be_bytes; lia].
  rewrite length_to_be_bytes, from_to_be_bytes. apply to_signed_wrap; lia.
Qed.
Lemma decode_u64_encoded n u : is_uint 64 u -> is_uint (8 * Z.of_nat n) u -> decode_u64 (to_be_bytes n u) = u.
Proof. intros Hu Hn. rewrite decode_u64_spec by apply to_be_bytes_is_bytes. by rewrite from_to_be_bytes, (wrap_small (8 * Z.of_nat n)), wrap_small. Qed.

Lemma to_be_bytes_match {A} n i (x y : A) :
  (1 <= n)%nat -> match to_be_bytes n i with [] => x | _ => y end = y.
Proof. intros Hn. destruct (to_be_bytes n i) eqn:E; [|done]. by destruct (to_be_bytes_nonempty n i Hn). Qed.

Ltac solve_encoded :=
  intros [ b x Hx | n i Hn Hi | n u Hu Hn Hn' | bits Hb | bits Hb | | | s Hs | s Hs | bytes Hl ];
  cbn -[to_be_bytes decode_i64 decode_u64 from_be_bytes length drop];
  [ rewrite Hx, negb_involutive | rewrite to_be_bytes_match, decode_i64_encoded by (done || lia) | rewrite decode_u64_encoded by done
  | change (length (8 :: to_be_bytes 4 bits)) with 5%nat; cbn [Nat.eqb drop]; rewrite drop_0, from_to_be_bytes, wrap_small by done
  | change (length (11 :: to_be_bytes 8 bits)) with 9%nat; cbn [Nat.eqb drop]; rewrite drop_0, from_to_be_bytes, wrap_small by done
  | | | rewrite from_utf8_lossy_ascii by done | rewrite from_utf8_lossy_ascii by done | rewrite Hl ]; done.
Lemma decode_mms_data_encoded v tag c : encoded v tag c -> decode_mms_data tag c = Ret (Ok v).
Proof. solve_encoded. Qed.
Lemma decode_item_encoded v tag c : encoded v tag c -> decode_item tag c = Some (Some v).
Proof. solve_encoded. Qed.

(** * Requests *)

Lemma substring_all s : String.substring 0 (String.length s) s = s.
Proof. induction s as [|c s IH]; [done|]. cbn. f_equal. exact IH. Qed.
Lemma substring_app_l s t : String.substring 0 (String.length s) (s ++ t) = s.
Proof. induction s as [|c s IH]; [by destruct t|]. exact (f_equal (String c) IH). Qed.
Lemma substring_app_r s t : String.substring (String.length s) (String.length t) (s ++ t) = t.
Proof. induction s as [|c s IH]; [apply substring_all|]. exact IH. Qed.
Lemma length_string_app s t : String.length (s ++ t) = (String.length s + String.length t)%nat.
Proof. induction s as [|c s IH]; [done|]. exact (f_equal S IH). Qed.
Lemma strip_suffix_app suffix s : strip_suffix suffix (s ++ suffix) = Some s.
Proof.
  unfold strip_suffix. rewrite length_string_app, Nat.add_sub, substring_app_r, substring_app_l, String.eqb_refl.
  by rewrite (proj2 (Nat.leb_le _ _)) by lia.
Qed.

(** The command in an operate request, as a server reads it. *)
Definition server_operate (pdu : list Z) : option (Z * list Z * list Z * list MmsValue) :=
  '(id, d, i, data) ← server_write pdu; vs ← server_oper data; Some (id, d, i, vs).
Definition server_setmag (pdu : list Z) : option (Z * list Z * list Z * MmsValue) :=
  '(id, d, i, data) ← server_write pdu;
  '(_, c) ← parse_tlv data DATA_STRUCTURE;
  '(_, m) ← parse_tlv c DATA_STRUCTURE;
  '(v, _) ← next_item m;
  v ← v;
  Some (id, d, i, v).
Definition oper_items (now : Z * Z) (num : Z) (v : MmsValue) : list MmsValue :=
  [v; MFailure 0; MUnsigned num; MUtcTime (utc_time_now now.1 now.2); MBoolean false; MBitString [0] 6].

Lemma server_operate_built now id domain item b :
  is_uint 8 id -> Z.of_nat (names_size domain item) < 60000 ->
  server_operate (build_write_request id domain item (encode_oper now [DATA_BOOLEAN; 0x01; bool_u8 b] id)) =
  if (names_size domain item <=? 81)%nat then Some (id, str_bytes domain, str_bytes item, oper_items now id (MBoolean b)) else None.
Proof.
  intros Hid Hn. unfold server_operate. rewrite server_write_built, length_encode_oper by (rewrite ?length_encode_oper; simpl; lia).
  cbn [length]. destruct (Nat.leb_spec (names_size domain item) 81); [rewrite (proj2 (Nat.leb_le _ _)) by lia | by rewrite (proj2 (Nat.leb_gt _ _)) by lia].
  cbn [mbind option_bind]. rewrite (server_oper_built now _ id (Some (MBoolean b))); [done | done | simpl; lia |].
  intros rest. change ([DATA_BOOLEAN; 1; bool_u8 b] ++ rest) with (tlv DATA_BOOLEAN [bool_u8 b] ++ rest).
  rewrite next_item_tlv by (simpl; lia). by rewrite (decode_item_encoded (MBoolean b)) by (constructor; by destruct b).
Qed.

Definition setmag_bytes (value : Z) : list Z := tlv DATA_STRUCTURE (tlv DATA_FLOAT (8 :: to_be_bytes 4 value)).
Lemma server_setmag_built now id domain item value :
  is_uint 32 value -> Z.of_nat (names_size domain item) < 60000 ->
  server_setmag (build_write_request id domain item (encode_oper now (setmag_bytes value) id)) =
  if (names_size domain item <=? 75)%nat then Some (id, str_bytes domain, str_bytes item, MFloat32 value) else None.
Proof.
  intros Hv Hn. assert (Hl : length (setmag_bytes value) = 9%nat) by done.
  unfold server_setmag. rewrite server_write_built, length_encode_oper, Hl by (rewrite ?length_encode_oper, ?Hl; lia).
  destruct (Nat.leb_spec (names_size domain item) 75); [rewrite (proj2 (Nat.leb_le _ _)) by lia | by rewrite (proj2 (Nat.leb_gt _ _)) by lia].
  cbn [mbind option_bind]. unfold encode_oper.
  rewrite emitted_tlv, parse_tlv_alone by (rewrite !length_app, push_ber_len_short, Hl; simpl; lia). cbn [mbind option_bind].
  unfold setmag_bytes. rewrite parse_tlv_tlv by (simpl; lia). cbn [mbind option_bind].
  rewrite <- (app_nil_r (tlv DATA_FLOAT _)), next_item_tlv by (simpl; lia). by rewrite (decode_item_encoded (MFloat32 value)) by by constructor.
Qed.

(** A server that decodes the documented wire formats gets from every request what the
    adapter put in: the invoke id, the names and the value, exactly when the names are short
    enough - domain and item together at most 113 bytes to read, 110 to write an attribute,
    81 for a boolean operate, 75 for an analogue one.  Longer names, which the standard allows
    (64 bytes each), are emitted with inner lengths that miss the longer BER headers, and no
    part of the request decodes. *)
Theorem mms_requests_decodable now id domain item :
  is_uint 8 id -> Z.of_nat (names_size domain item) < 60000 ->
  let d := str_bytes domain in let i := str_bytes item in let n := names_size domain item in
  server_read (build_read_request id domain item) = (if (n <=? 113)%nat then Some (id, d, i) else None) /\
  (forall v, server_write (build_write_simple_bool id domain item v) =
     if (n <=? 110)%nat then Some (id, d, i, tlv DATA_BOOLEAN [bool_u8 v]) else None) /\
  (forall v, server_operate (build_write_bool_request now id domain (item ++ "$ctlVal") v) =
     if (n <=? 81)%nat then Some (id, d, i, oper_items now id (MBoolean v)) else None) /\
  (forall value, is_uint 32 value -> server_setmag (build_write_f32_request now id domain (item ++ "$setMag$f") value) =
     if (n <=? 75)%nat then Some (id, d, i, MFloat32 value) else None).
Proof.
  intros Hid Hn d i n. split_and!.
  - apply server_read_built. lia.
  - intros v. unfold build_write_simple_bool. rewrite server_write_built by (simpl; lia). cbn [length]. fold n.
    destruct (Nat.leb_spec n 110); [by rewrite (proj2 (Nat.leb_le _ _)) by lia | by rewrite (proj2 (Nat.leb_gt _ _)) by lia].
  - intros v. unfold build_write_bool_request. rewrite strip_suffix_app. by apply server_operate_built.
  - intros value Hv. unfold build_write_f32_request. rewrite strip_suffix_app. by apply (server_setmag_built now id domain item value).
Qed.
Lemma mms_requests_decodable_witness :
  server_read (build_read_request 1 "simpleIOGenericIO" "GGIO1$MX$AnIn1$mag$f") =
    Some (1, str_bytes "simpleIOGenericIO", str_bytes "GGIO1$MX$AnIn1$mag$f") /\
  server_operate (build_write_bool_request (1700000000, 500000000) 7 "LD0" "GGIO1$CO$SPCSO2$Oper$ctlVal" true) =
    Some (7, str_bytes "LD0", str_bytes "GGIO1$CO$SPCSO2$Oper", oper_items (1700000000, 500000000) 7 (MBoolean true)).
Proof.
  split.
  - apply (mms_requests_decodable (0, 0) 1 "simpleIOGenericIO" "GGIO1$MX$AnIn1$mag$f"); [split; lia | vm_compute; reflexivity].
  - apply (mms_requests_decodable (1700000000, 500000000) 7 "LD0" "GGIO1$CO$SPCSO2$Oper"); [split; lia | vm_compute; reflexivity].
Defined.

(** * Read responses *)

Definition read_response (id : Z) (access_results : list Z) : list Z :=
  tlv TAG_CONFIRMED_RESP (tlv TAG_INTEGER [id] ++ tlv TAG_REJECT_PDU (tlv 0xA1 access_results)).
Definition response_fits (access_results : list Z) : Prop := Z.of_nat (length access_results) < 65000.

Lemma length_tlv_max tag c : (length (tlv tag c) <= 4 + length c)%nat.
Proof. rewrite length_tlv. unfold tlv_size. pose proof (ber_len_size_max (length c)). lia. Qed.
Lemma confirmed_response_built id body :
  Z.of_nat (length body) < 65500 -> confirmed_response (tlv TAG_CONFIRMED_RESP (tlv TAG_INTEGER [id] ++ body)) = Ok (id, body).
Proof.
  intros Hb. unfold confirmed_response. rewrite parse_tlv_alone by (rewrite length_app; simpl; lia). cbn [ok_or result_bind].
  by rewrite parse_tlv_tlv by (simpl; lia).
Qed.
Lemma parse_read_response_built id ar :
  response_fits ar -> parse_read_response (read_response id ar) = let! value := parse_access_result ar in Ret (let? v := value in Ok (id, v)).
Proof.
  unfold response_fits. intros Har. unfold parse_read_response, read_response. pose proof (length_tlv_max 0xA1 ar).
  pose proof (length_tlv_max TAG_REJECT_PDU (tlv 0xA1 ar)). rewrite confirmed_response_built by lia. cbn [result_bind].
  rewrite parse_tlv_alone by lia. cbn [ok_or result_bind]. by rewrite parse_tlv_alone by lia.
Qed.
Lemma encoded_direct v tag c : encoded v tag c -> direct_data_tag tag = true /\ tag <> 0x80 /\ tag <> 0xA1.
Proof. by intros []. Qed.
Lemma parse_access_success data : Z.of_nat (length data) < 65536 -> parse_access_result (tlv 0xA1 data) = parse_data data.
Proof. intros Hd. unfold parse_access_result. cbn -[parse_tlv]. by rewrite parse_tlv_alone. Qed.
Lemma parse_access_direct tag c :
  direct_data_tag tag = true -> tag <> 0x80 -> tag <> 0xA1 -> parse_access_result (tlv tag c) = parse_data (tlv tag c).
Proof. intros Hd H80 HA1. unfold parse_access_result. cbn [tlv]. rewrite (proj2 (Z.eqb_neq tag 0x80)), (proj2 (Z.eqb_neq tag 0xA1)), Hd by done. done. Qed.

(** Decoding inverts encoding.  For every value a server can encode - booleans, integers of
    up to eight bytes in two's complement, unsigned numbers, both float widths, strings, bit
    strings, times - the response to a read, with or without the success wrapper, is parsed
    to the invoke id and that value; an access error is parsed to its code. *)
Theorem read_response_roundtrip id v tag c code :
  encoded v tag c -> Z.of_nat (length c) < 64000 ->
  parse_read_response (read_response id (tlv 0xA1 (tlv tag c))) = Ret (Ok (id, v)) /\
  parse_read_response (read_response id (tlv tag c)) = Ret (Ok (id, v)) /\
  parse_read_response (read_response id (tlv 0x80 [code])) = Ret (Ok (id, MFailure code)).
Proof.
  intros Hv Hc. destruct (encoded_direct _ _ _ Hv) as (Hd & H80 & HA1). pose proof (length_tlv_max tag c). pose proof (length_tlv_max 0xA1 (tlv tag c)).
  assert (Hp : parse_data (tlv tag c) = Ret (Ok v)) by (rewrite <- (app_nil_r (tlv tag c)), parse_data_tlv by lia; by apply decode_mms_data_encoded).
  split_and!.
  - rewrite parse_read_response_built by (unfold response_fits; lia). rewrite parse_access_success, Hp by lia. done.
  - rewrite parse_read_response_built by (unfold response_fits; lia). rewrite parse_access_direct, Hp by done. done.
  - rewrite parse_read_response_built by (unfold response_fits; simpl; lia). done.
Qed.
Lemma read_response_roundtrip_witness :
  parse_read_response (read_response 1 (tlv 0xA1 (tlv DATA_INTEGER (to_be_bytes 2 (-300))))) = Ret (Ok (1, MInteger (-300))).
Proof.
  apply (read_response_roundtrip 1 (MInteger (-300)) DATA_INTEGER (to_be_bytes 2 (-300)) 0).
  - apply EncInteger; [lia | vm_compute; split; [discriminate | reflexivity]].
  - vm_compute. reflexivity.
Defined.

(** A response whose data element announces more bytes than follow, or a bit string
    without its first byte, panics instead of being reported as a malformed response - the
    release profile turns a panic into the end of the whole process. *)
Theorem malformed_response_panics id tag n short :
  (length short < n)%nat -> Z.of_nat n < 64000 ->
  parse_read_response (read_response id (tlv 0xA1 (tag :: push_ber_len n ++ short))) = Panic /\
  parse_read_response (read_response id (tlv 0xA1 (tlv DATA_BIT_STRING []))) = Panic.
Proof.
  intros Hs Hn. pose proof (ber_len_size_max n).
  assert (Hl : length (tag :: push_ber_len n ++ short) = (1 + ber_len_size n + length short)%nat) by (simpl; rewrite length_app, length_push_ber_len; lia).
  pose proof (length_tlv_max 0xA1 (tag :: push_ber_len n ++ short)) as Hm. rewrite Hl in Hm. split.
  - rewrite parse_read_response_built by (unfold response_fits; lia). rewrite parse_access_success by lia.
    unfold parse_data. rewrite parse_push_ber_len by lia. by rewrite Hl, (proj2 (Nat.ltb_lt _ _)) by lia.
  - rewrite parse_read_response_built by (unfold response_fits; simpl; lia). done.
Qed.
Lemma malformed_response_panics_witness : parse_read_response (read_response 1 (tlv 0xA1 [DATA_INTEGER; 4; 0])) = Panic.
Proof. apply (malformed_response_panics 1 DATA_INTEGER 4 [0]); simpl; lia. Defined.

(** * Reports as a server sends them *)

Definition Item : Type := Z * list Z.
Definition enc_item (it : Item) : list Z := tlv it.1 it.2.
Definition enc_items (its : list Item) : list Z := concat (map enc_item its).
Definition item_ok (it : Item) : Prop := Z.of_nat (length it.2) < 65536 /\ is_Some (decode_item it.1 it.2).

(** The option bits select the optional items; the inclusion bits the values that follow. *)
Record ServerReport := mkServerReport {
  sr_rpt_id : string;
  sr_opt_unused : Z;
  sr_opt_flds : list Z;
  sr_seq_num : Item;
  sr_time : list Z;
  sr_data_set : Item;
  sr_buf_ovfl : Item;
  sr_entry_id : Item;
  sr_conf_rev : Item;
  sr_segmentation : Item * Item;
  sr_incl_unused : Z;
  sr_inclusion : list Z;
  sr_references : list Item;
  sr_values : list (MmsValue * Item);
  sr_reasons : list Z;
}.
Definition when (b : bool) (its : list Item) : list Z := if b then enc_items its else [].
Definition report_list (r : ServerReport) : list Z :=
  let opt := bit_at (sr_opt_flds r) in
  enc_item (DATA_VISIBLE_STRING, str_bytes (sr_rpt_id r)) ++ enc_item (DATA_BIT_STRING, sr_opt_unused r :: sr_opt_flds r) ++
  when (opt 1%nat) [sr_seq_num r] ++ when (opt 2%nat) [(DATA_BINARY_TIME, sr_time r)] ++ when (opt 4%nat) [sr_data_set r] ++
  when (opt 6%nat) [sr_buf_ovfl r] ++ when (opt 7%nat) [sr_entry_id r] ++ when (opt 8%nat) [sr_conf_rev r] ++
  when (opt 9%nat) [(sr_segmentation r).1; (sr_segmentation r).2] ++
  enc_item (DATA_BIT_STRING, sr_incl_unused r :: sr_inclusion r) ++
  when (opt 5%nat) (sr_references r) ++ enc_items (map snd (sr_values r)) ++ sr_reasons r.
Definition report_pdu (name : list Z) (r : ServerReport) : list Z := tlv 0xA3 (tlv 0xA0 (tlv 0xA1 name ++ tlv 0xA0 (report_list r))).
Definition sr_size (r : ServerReport) : nat := Z.to_nat (Z.of_nat (length (sr_inclusion r)) * 8 - sr_incl_unused r).
Record report_ok (r : ServerReport) : Prop := {
  rok_id : is_ascii (sr_rpt_id r);
  rok_items : Forall item_ok [sr_seq_num r; sr_data_set r; sr_buf_ovfl r; sr_entry_id r; sr_conf_rev r; (sr_segmentation r).1; (sr_segmentation r).2];
  rok_refs : Forall item_ok (sr_references r);
  rok_values : Forall (fun vi => encoded vi.1 vi.2.1 vi.2.2 /\ Z.of_nat (length vi.2.2) < 65536) (sr_values r);
  rok_unused : 0 <= sr_incl_unused r <= Z.of_nat (length (sr_inclusion r)) * 8;
  rok_count : length (sr_values r) = length (included (sr_inclusion r) (sr_size r));
  rok_ref_count : length (sr_references r) = length (sr_values r);
  rok_size : Z.of_nat (length (report_list r)) < 65000;
}.

Lemma next_item_ok it rest : item_ok it -> exists v, next_item (enc_item it ++ rest) = Some (v, rest).
Proof. intros [Hl [v Hv]]. exists v. unfold enc_item. by rewrite next_item_tlv, Hv. Qed.
Lemma skip_items_ok its rest : Forall item_ok its -> skip_items (length its) (enc_items its ++ rest) = Some rest.
Proof.
  induction 1 as [|it its Hit _ IH]; [done|]. cbn [length skip_items]. unfold enc_items. cbn [map concat].
  rewrite <- app_assoc. destruct (next_item_ok it (concat (map enc_item its) ++ rest) Hit) as [v ->]. exact IH.
Qed.
Lemma skip_if_ok b its rest : Forall item_ok its -> skip_if b (length its) (when b its ++ rest) = Some rest.
Proof. intros H. destruct b; [by apply skip_items_ok | done]. Qed.
Lemma skip_one b it rest : item_ok it -> skip_if b 1 (when b [it] ++ rest) = Some rest.
Proof. intros H. apply (skip_if_ok b [it]). auto using Forall_cons_2, Forall_nil_2. Qed.
Lemma skip_two b it1 it2 rest : item_ok it1 -> item_ok it2 -> skip_if b 2 (when b [it1; it2] ++ rest) = Some rest.
Proof. intros H1 H2. apply (skip_if_ok b [it1; it2]). auto using Forall_cons_2, Forall_nil_2. Qed.
Lemma read_items_ok vs rest :
  Forall (fun vi => encoded vi.1 vi.2.1 vi.2.2 /\ Z.of_nat (length vi.2.2) < 65536) vs ->
  read_items (length vs) (enc_items (map snd vs) ++ rest) = Some (map fst vs).
Proof.
  induction 1 as [|[v it] vs [Hv Hl] _ IH]; [done|]. cbn [length read_items map]. unfold enc_items. cbn [map concat].
  rewrite <- app_assoc. unfold enc_item at 1. rewrite next_item_tlv, (decode_item_encoded v) by done. cbn [mbind option_bind].
  unfold enc_items in IH. by rewrite IH.
Qed.

Definition report_time (r : ServerReport) : option Z := if bit_at (sr_opt_flds r) 2 then binary_time (sr_time r) else None.
Definition report_tail (r : ServerReport) : list Z :=
  enc_item (DATA_BIT_STRING, sr_incl_unused r :: sr_inclusion r) ++
  when (bit_at (sr_opt_flds r) 5) (sr_references r) ++ enc_items (map snd (sr_values r)) ++ sr_reasons r.
Lemma when_length b its : (length (when b its) <= length (enc_items its))%nat.
Proof. destruct b; simpl; lia. Qed.
Lemma report_parts_short r :
  Z.of_nat (length (report_list r)) < 65000 ->
  Z.of_nat (length (str_bytes (sr_rpt_id r))) < 65536 /\ Z.of_nat (length (sr_opt_flds r)) < 65000 /\
  (bit_at (sr_opt_flds r) 2 = true -> Z.of_nat (length (sr_time r)) < 65536) /\ Z.of_nat (length (sr_inclusion r)) < 65000.
Proof.
  unfold report_list. rewrite !length_app. unfold enc_item. rewrite !length_tlv. unfold tlv_size. cbn [fst snd length].
  intros H. repeat split; try lia. intros Ht. rewrite Ht in H. unfold when at 2 in H. unfold enc_items, enc_item in H. cbn [map concat] in H.
  rewrite app_nil_r, length_tlv in H. unfold tlv_size in H. cbn [fst snd] in H. lia.
Qed.
Lemma report_head_ok r : report_ok r -> report_head (report_list r) = Some (sr_rpt_id r, sr_opt_flds r, report_time r, report_tail r).
Proof.
  intros [Hid Hits _ _ _ _ _ Hsz]. destruct (report_parts_short r Hsz) as (H1 & H2 & H3 & _).
  rewrite !Forall_cons in Hits. destruct Hits as (Hi1 & Hi2 & Hi3 & Hi4 & Hi5 & Hi6 & Hi7 & _). unfold report_head, report_list.
  change (enc_item (?t, ?c)) with (tlv t c).
  rewrite next_item_tlv, (decode_item_encoded (MVisibleString (sr_rpt_id r))) by (done || by constructor). cbn [mbind option_bind].
  rewrite next_item_tlv, (decode_item_encoded (MBitString (sr_opt_flds r) (sr_opt_unused r))) by (cbn [length]; lia || constructor). cbn [mbind option_bind].
  rewrite skip_one by done. cbn [mbind option_bind].
  assert (Hts : forall rest, (if bit_at (sr_opt_flds r) 2 then
       '(ts_val, items) ← next_item (when (bit_at (sr_opt_flds r) 2) [(DATA_BINARY_TIME, sr_time r)] ++ rest);
       Some (match ts_val with Some (MOctetString ts) => binary_time ts | _ => None end, items)
     else Some (None, when (bit_at (sr_opt_flds r) 2) [(DATA_BINARY_TIME, sr_time r)] ++ rest)) = Some (report_time r, rest)).
  { intros rest. unfold report_time. destruct (bit_at (sr_opt_flds r) 2); [|done]. unfold when, enc_items. cbn [map concat].
    rewrite app_nil_r. change (enc_item (?t, ?c)) with (tlv t c). rewrite next_item_tlv by auto. done. }
  rewrite Hts. cbn [mbind option_bind].
  rewrite skip_one by done. cbn [mbind option_bind].
  rewrite skip_one by done. cbn [mbind option_bind].
  rewrite skip_one by done. cbn [mbind option_bind].
  rewrite skip_one by done. cbn [mbind option_bind].
  by rewrite skip_two by done.
Qed.

(** Reports round-trip.  For every report a server can send - whichever optional fields are
    present, whichever members of the dataset are included, with or without references and
    reasons - the parsed report has its id, its time stamp and exactly the included members
    with their values, in dataset order. *)
Theorem report_roundtrip name r :
  report_ok r -> Z.of_nat (length name) < 300 ->
  parse_report (report_pdu name r) =
  Ret (Some (mkParsedReport (sr_rpt_id r) (report_time r) (sr_size r) (included (sr_inclusion r) (sr_size r)) (map fst (sr_values r)))).
Proof.
  intros Hr Hname. pose proof (report_head_ok r Hr) as Hhead. destruct Hr as [_ _ Hrefs Hvals Hunused Hcount Hrefc Hsz].
  destruct (report_parts_short r Hsz) as (_ & _ & _ & Hincl).
  assert (Hitems : report_items (report_pdu name r) = Some (report_list r)).
  { unfold report_items, report_pdu. pose proof (length_tlv_max 0xA1 name). pose proof (length_tlv_max 0xA0 (report_list r)).
    pose proof (length_tlv_max 0xA0 (tlv 0xA1 name ++ tlv 0xA0 (report_list r))) as Hi. rewrite length_app in Hi.
    rewrite parse_tlv_alone by lia. cbn [mbind option_bind]. rewrite parse_tlv_alone by (rewrite length_app; lia). cbn [mbind option_bind].
    rewrite parse_tlv_tlv by lia. cbn [mbind option_bind]. by rewrite parse_tlv_alone by lia. }
  unfold parse_report. rewrite Hitems. cbn [mbind option_bind]. rewrite Hhead. cbn [mbind option_bind]. unfold report_inclusion, report_tail.
  change (enc_item (?t, ?c)) with (tlv t c).
  rewrite next_item_tlv, (decode_item_encoded (MBitString (sr_inclusion r) (sr_incl_unused r))) by (cbn [length]; lia || constructor).
  cbn [mbind option_bind]. rewrite (proj2 (Z.ltb_ge _ _)) by lia. fold (sr_size r). rewrite <- Hcount.
  unfold report_body. rewrite <- Hrefc at 1. rewrite skip_if_ok by done. cbn [mbind option_bind]. by rewrite read_items_ok.
Qed.
Definition sample_report : ServerReport :=
  mkServerReport "Events" 6 [0x78; 0x80] (DATA_UNSIGNED, [1]) [0; 0; 0; 5; 0; 2] (DATA_VISIBLE_STRING, []) (DATA_BOOLEAN, [0])
    (DATA_OCTET_STRING, []) (DATA_UNSIGNED, [1]) ((DATA_UNSIGNED, [0]), (DATA_BOOLEAN, [0])) 5 [0xA0]
    [(DATA_VISIBLE_STRING, []); (DATA_VISIBLE_STRING, [])] [(MBoolean true, (DATA_BOOLEAN, [1])); (MInteger 7, (DATA_INTEGER, [7]))] [].
Lemma report_roundtrip_witness :
  parse_report (report_pdu [] sample_report) = Ret (Some (mkParsedReport "Events" (Some 172800005) 3 [0%nat; 2%nat] [MBoolean true; MInteger 7])).
Proof.
  apply (report_roundtrip [] sample_report); [|reflexivity]. constructor.
  - repeat constructor.
  - repeat (apply Forall_cons; split); try apply Forall_nil; try exact I; (split; [reflexivity | vm_compute; by eexists]).
  - repeat (apply Forall_cons; split); try apply Forall_nil; try exact I; (split; [reflexivity | vm_compute; by eexists]).
  - apply Forall_cons; split; [split; [by constructor | reflexivity]|]. apply Forall_cons; split; [|by apply Forall_nil].
    split; [|reflexivity]. apply (EncInteger 1 7); [lia | cbn; lia].
  - cbn. lia.
  - reflexivity.
  - reflexivity.
  - reflexivity.
Defined.
