(* ===== verification/Iec61850.v ===== *)
(** The IEC 61850 channel of comsrv: [services/comsrv/src/protocols/adapters/iec61850.rs],
    with the addresses of [protocols/core/point.rs] and the point conversion of
    [core/channels/channel_creation.rs].

    A channel drives the framer of MmsTransport.v with the requests of Mms.v.  Timeouts are
    the [RIdle] and [SStalled] events of the socket.  The time stamped on commands and the
    order in which hash maps iterate are parameters; log lines, the channel's name and
    address and the clock of a data point are left out.  Messages of errors are constructors. *)
From stdpp Require Import base numbers list gmap strings.
From Stdlib Require Import ZArith Lia Ascii.
From S2P Require Import Prelude PointTypes Registers ChannelTask Modbus ModbusPoints MmsTransport Mms.
Local Open Scope Z_scope.
Set Warnings "-clear-no-such-hyp".

(** * Text *)

(** [str::split_once]. *)
Definition split_once (sep s : string) : option (string * string) :=
  n ← String.index 0 sep s;
  let m := (n + String.length sep)%nat in
  Some (String.substring 0 n s, String.substring m (String.length s - m) s).
(** The bytes of the white-space character at the front, 0 when there is none. *)
Definition white_space_3 (b1 b2 b3 : Z) : bool :=
  (b1 =? 0xE1) && (b2 =? 0x9A) && (b3 =? 0x80) ||
  (b1 =? 0xE2) && (b2 =? 0x80) && (between 0x80 0x8A b3 || (b3 =? 0xA8) || (b3 =? 0xA9) || (b3 =? 0xAF)) ||
  (b1 =? 0xE2) && (b2 =? 0x81) && (b3 =? 0x9F) || (b1 =? 0xE3) && (b2 =? 0x80) && (b3 =? 0x80).
Definition white_space_1 (b : Z) : bool := between 0x09 0x0D b || (b =? 0x20).
Definition white_space_2 (b1 b2 : Z) : bool := (b1 =? 0xC2) && ((b2 =? 0x85) || (b2 =? 0xA0)).
Definition white_space (flip : bool) (bs : list Z) : nat :=
  match bs with
  | b1 :: rest =>
      if white_space_1 b1 then 1%nat
      else
        match rest with
        | b2 :: rest =>
            if (if flip then white_space_2 b2 b1 else white_space_2 b1 b2) then 2%nat
            else match rest with b3 :: _ => if (if flip then white_space_3 b3 b2 b1 else white_space_3 b1 b2 b3) then 3%nat else 0%nat | [] => 0%nat end
        | [] => 0%nat
        end
  | [] => 0%nat
  end.
Fixpoint trim_front (flip : bool) (fuel : nat) (bs : list Z) : list Z :=
  match fuel, white_space flip bs with
  | S fuel, S n => trim_front flip fuel (drop (S n) bs)
  | _, _ => bs
  end.
(** [str::trim]: from both ends of the bytes of a UTF-8 string. *)
Definition trim (s : string) : string :=
  let bs := trim_front false (String.length s) (str_bytes s) in
  bytes_str (reverse (trim_front true (length bs) (reverse bs))).

(** * Addresses and points *)

Definition Iec61850Address_new (domain item : string) : Iec61850Address := mkIec61850Address domain item 1.
Definition dots_to_dollars (s : string) : string := map_string (fun c => if Ascii.eqb c "."%char then "$"%char else c) s.
Definition Iec61850Address_parse (s : string) : option Iec61850Address :=
  match split_once ":" s with
  | Some (domain, item) => Some (Iec61850Address_new (trim domain) (trim item))
  | None =>
      match split_once "/" s with
      | Some (domain, rest) => Some (Iec61850Address_new (trim domain) (dots_to_dollars rest))
      | None => None
      end
  end.

Section Mapping.
Variable parse_json : string -> option MappingJson.
Definition parse_iec61850_point (base : Point) : option ProtocolAddress :=
  json ← pt_protocol_mappings base;
  match parse_json json with
  | Some (JObject v) =>
      match v !! "address" with
      | Some (JString addr_str) =>
          let ctrl_model := match v !! "ctrl_model" with Some (JInt n) => if (0 <=? n) && (n <? 2 ^ 64) then wrap 8 n else 1 | _ => 1 end in
          addr ← Iec61850Address_parse addr_str;
          Some (AddrIec61850 (mkIec61850Address (ia_domain addr) (ia_item addr) ctrl_model))
      | _ => None
      end
  | _ => None
  end.
Definition iec61850_point_configs (rc : RuntimeChannelConfig) : list PointConfig := convert_all_points rc parse_iec61850_point.
End Mapping.

(** * The channel *)

Record ReportConfig := mkReportConfig { rpc_rcb_ref : string; rpc_rpt_id : option string; rpc_dataset_members : list string }.
Record PointEntry := mkPointEntry { pe_domain : string; pe_item : string; pe_id : Z; pe_point_type : PointType; pe_transform : TransformConfig }.
Record WriteEntry := mkWriteEntry { we_domain : string; we_item : string; we_ctrl_model : Z }.

Record Iec61850Channel := mkIec61850Channel {
  ic_framer : option Framer;
  ic_state : ConnState;
  ic_invoke_id : Z;
  ic_points : list PointEntry;
  ic_ctrl_points : gmap Z WriteEntry;
  ic_adj_points : gmap Z WriteEntry;
  ic_report_configs : list ReportConfig;
  ic_subscribed_report_indices : list nat;
  ic_active_report_indices : list nat;
  ic_path_to_point : gmap string (Z * PointType * TransformConfig);
  ic_report_skip_set : gset Z;
  (** The connections given up so far, with the frames sent on them; nothing reads it. *)
  ic_closed : list Framer;
}.
Definition set_framer (ch : Iec61850Channel) (f : option Framer) : Iec61850Channel :=
  mkIec61850Channel f (ic_state ch) (ic_invoke_id ch) (ic_points ch) (ic_ctrl_points ch) (ic_adj_points ch) (ic_report_configs ch)
    (ic_subscribed_report_indices ch) (ic_active_report_indices ch) (ic_path_to_point ch) (ic_report_skip_set ch) (ic_closed ch).
Definition set_conn (ch : Iec61850Channel) (s : ConnState) : Iec61850Channel :=
  mkIec61850Channel (ic_framer ch) s (ic_invoke_id ch) (ic_points ch) (ic_ctrl_points ch) (ic_adj_points ch) (ic_report_configs ch)
    (ic_subscribed_report_indices ch) (ic_active_report_indices ch) (ic_path_to_point ch) (ic_report_skip_set ch) (ic_closed ch).
Definition set_invoke_id (ch : Iec61850Channel) (n : Z) : Iec61850Channel :=
  mkIec61850Channel (ic_framer ch) (ic_state ch) n (ic_points ch) (ic_ctrl_points ch) (ic_adj_points ch) (ic_report_configs ch)
    (ic_subscribed_report_indices ch) (ic_active_report_indices ch) (ic_path_to_point ch) (ic_report_skip_set ch) (ic_closed ch).
Definition set_write_points (ch : Iec61850Channel) (ctrl adj : gmap Z WriteEntry) : Iec61850Channel :=
  mkIec61850Channel (ic_framer ch) (ic_state ch) (ic_invoke_id ch) (ic_points ch) ctrl adj (ic_report_configs ch)
    (ic_subscribed_report_indices ch) (ic_active_report_indices ch) (ic_path_to_point ch) (ic_report_skip_set ch) (ic_closed ch).
Definition set_reports (ch : Iec61850Channel) (subscribed active : list nat) (skip : gset Z) : Iec61850Channel :=
  mkIec61850Channel (ic_framer ch) (ic_state ch) (ic_invoke_id ch) (ic_points ch) (ic_ctrl_points ch) (ic_adj_points ch) (ic_report_configs ch)
    subscribed active (ic_path_to_point ch) skip (ic_closed ch).

Definition drop_framer (ch : Iec61850Channel) (f : option Framer) : Iec61850Channel :=
  mkIec61850Channel f (ic_state ch) (ic_invoke_id ch) (ic_points ch) (ic_ctrl_points ch) (ic_adj_points ch) (ic_report_configs ch)
    (ic_subscribed_report_indices ch) (ic_active_report_indices ch) (ic_path_to_point ch) (ic_report_skip_set ch)
    (ic_closed ch ++ option_list (ic_framer ch)).

(** One turn of the loop over the configured points. *)
Definition place_point (acc : list PointEntry * gmap Z WriteEntry * gmap Z WriteEntry) (p : PointConfig) :=
  let '(poll, ctrl, adj) := acc in
  if negb (pc_enabled p) then acc
  else
    match pc_address p with
    | AddrIec61850 addr =>
        let entry := mkWriteEntry (ia_domain addr) (ia_item addr) (ia_ctrl_model addr) in
        match pc_point_type p with
        | Control => (poll, <[pc_id p := entry]> ctrl, adj)
        | Adjustment => (poll, ctrl, <[pc_id p := entry]> adj)
        | _ => (poll ++ [mkPointEntry (ia_domain addr) (ia_item addr) (pc_id p) (pc_point_type p) (pc_transform p)], ctrl, adj)
        end
    | _ => acc
    end.
Definition point_path (pe : PointEntry) : string := (pe_domain pe ++ "/" ++ pe_item pe)%string.
Definition Iec61850Channel_new (reports : list ReportConfig) (points : list PointConfig) : Iec61850Channel :=
  let '(poll, ctrl, adj) := foldl place_point ([], ∅, ∅) points in
  let path_to_point := foldl (fun m pe => <[point_path pe := (pe_id pe, pe_point_type pe, pe_transform pe)]> m) ∅ poll in
  mkIec61850Channel None CsDisconnected 1 poll ctrl adj reports [] [] path_to_point ∅ [].

Definition next_invoke_id (ch : Iec61850Channel) : Iec61850Channel * Z :=
  let id := ic_invoke_id ch in (set_invoke_id ch (if id =? 255 then 1 else wrap 8 (id + 1)), id).

(** * Requests *)

Definition do_request_raw (ch : Iec61850Channel) (req : list Z) : outcome (Iec61850Channel * result (list Z) IecError) :=
  match ic_framer ch with
  | None => Ret (ch, Err (GwProtocol NotConnectedError))
  | Some f =>
      match Framer_send_mms f req with
      | (f, Err e) => Ret (set_framer ch (Some f), Err e)
      | (f, Ok _) =>
          (* [None] is fuel that ran out: it never does. *)
          match Framer_recv_mms f with
          | (f, Some r) => Ret (set_framer ch (Some f), r)
          | (_, None) => Panic
          end
      end
  end.
Definition read_variable (ch : Iec61850Channel) (invoke_id : Z) (domain item : string)
    : outcome (Iec61850Channel * result MmsValue IecError) :=
  let! (ch, r) := do_request_raw ch (build_read_request invoke_id domain item) in
  match r with
  | Err e => Ret (ch, Err e)
  | Ok resp => let! v := parse_read_response resp in Ret (ch, let? (_, value) := v in Ok value)
  end.
Definition do_write (ch : Iec61850Channel) (req : list Z) : outcome (Iec61850Channel * result unit IecError) :=
  let! (ch, r) := do_request_raw ch req in
  Ret (ch, let? resp := r in let? _ := parse_write_response resp in Ok ()).

Definition go_disconnected (ch : Iec61850Channel) : Iec61850Channel :=
  set_reports (set_conn (drop_framer ch None) CsDisconnected) [] [] ∅.

(** * Connecting *)

Definition before_dollar (s : string) : string := match split_once "$" s with Some (d, _) => d | None => s end.
Definition derive_ctlmodel_item (item : string) : option string :=
  '(ln, rest) ← split_once "$CO$" item;
  Some (ln ++ "$CF$" ++ before_dollar rest ++ "$ctlModel")%string.

Section Connect.
(** The order in which a hash map of write entries iterates. *)
Variable iter : gmap Z WriteEntry -> list (Z * WriteEntry).

Definition detect_work (is_ctrl : bool) (m : gmap Z WriteEntry) : list (bool * Z * string * string) :=
  omap (fun '(id, e) => ci ← derive_ctlmodel_item (we_item e); Some (is_ctrl, id, we_domain e, ci)) (iter m).
Definition set_model (cm : Z) (e : WriteEntry) : WriteEntry := mkWriteEntry (we_domain e) (we_item e) cm.
Definition cache_model (ch : Iec61850Channel) (is_ctrl : bool) (id cm : Z) : Iec61850Channel :=
  if is_ctrl then set_write_points ch (alter (set_model cm) id (ic_ctrl_points ch)) (ic_adj_points ch)
  else set_write_points ch (ic_ctrl_points ch) (alter (set_model cm) id (ic_adj_points ch)).
Fixpoint detect_loop (ch : Iec61850Channel) (work : list (bool * Z * string * string)) : outcome Iec61850Channel :=
  match work with
  | [] => Ret ch
  | (is_ctrl, id, domain, item) :: work =>
      let '(ch, invoke_id) := next_invoke_id ch in
      let! (ch, r) := read_variable ch invoke_id domain item in
      match r with
      | Ok (MInteger n) | Ok (MUnsigned n) => detect_loop (cache_model ch is_ctrl id (wrap 8 n)) work
      | Ok _ => detect_loop ch work
      | Err _ => Ret ch
      end
  end.
Definition detect_ctrl_models (ch : Iec61850Channel) : outcome Iec61850Channel :=
  detect_loop ch (detect_work true (ic_ctrl_points ch) ++ detect_work false (ic_adj_points ch)).
End Connect.

(** The outcome of [TcpStream::connect] under its timeout. *)
Inductive TcpConnect := TcpOk (input : list ReadEvent) (sends : list SendEvent) | TcpFailed | TcpTimeout.
(** A handshake under the connect timeout. *)
Definition connect_step (fr : Framer * result unit IecError) : Framer * result unit IecError :=
  let '(f, r) := fr in
  (f, match r with Err GwReadTimeout | Err GwWriteTimeout => Err GwConnectionTimeout | _ => r end).
Definition try_connect (ch : Iec61850Channel) (tcp : TcpConnect) : Iec61850Channel * result unit IecError :=
  let ch := set_conn ch CsConnecting in
  match tcp with
  | TcpFailed => (ch, Err GwIo)
  | TcpTimeout => (ch, Err GwConnectionTimeout)
  | TcpOk input sends =>
      match connect_step (Framer_handshake_cotp (Framer_new input sends)) with
      | (_, Err e) => (ch, Err e)
      | (f, Ok _) =>
          match connect_step (Framer_handshake_mms f) with
          | (_, Err e) => (ch, Err e)
          | (f, Ok _) => (set_conn (drop_framer ch (Some f)) CsConnected, Ok ())
          end
      end
  end.

(** * Report subscription *)

Definition split_rcb_ref (rcb_ref : string) : option (string * string) := split_once "/" rcb_ref.
Definition activate_report (ch : Iec61850Channel) (config_index : nat) : Iec61850Channel :=
  if bool_decide (config_index ∈ ic_active_report_indices ch) then ch
  else
    let members := from_option rpc_dataset_members [] (ic_report_configs ch !! config_index) in
    let covered := omap (fun path => '(id, _, _) ← ic_path_to_point ch !! path; Some id) members in
    set_reports ch (ic_subscribed_report_indices ch) (ic_active_report_indices ch ++ [config_index])
      (ic_report_skip_set ch ∪ list_to_set covered).

Inductive RcbWriteResult := RcbOk | RcbNotFound | RcbErr (e : IecError).
(** The message of the error contains the text for code 10. *)
Definition mentions_code_10 (e : IecError) : bool :=
  match e with GwProtocol (WriteAccessError code) => (code =? 10) || between 100 109 code | _ => false end.
Definition try_rcb_write_bool (ch : Iec61850Channel) (domain base_item attr : string) (value : bool)
    : outcome (Iec61850Channel * RcbWriteResult) :=
  let '(ch, invoke_id) := next_invoke_id ch in
  let! (ch, r) := do_write ch (build_write_simple_bool invoke_id domain (base_item ++ "$" ++ attr)%string value) in
  Ret (ch, match r with Ok _ => RcbOk | Err e => if mentions_code_10 e then RcbNotFound else RcbErr e end).

Definition rpt_id_of (config : ReportConfig) : option string :=
  id ← trim <$> rpc_rpt_id config; if String.eqb id EmptyString then None else Some id.
(** Whether the configuration can be routed among several, and the ids seen so far. *)
Definition admit_config (several : bool) (config : ReportConfig) (seen : gset string) : option (gset string) :=
  if several then
    rpt_id ← rpt_id_of config;
    if bool_decide (rpt_id ∈ seen) then None else Some ({[rpt_id]} ∪ seen)
  else Some seen.
(** The item name whose RptEna was written: the configured one, or the one with index 01. *)
Definition enable_rcb (ch : Iec61850Channel) (domain base_item : string) : outcome (Iec61850Channel * option string) :=
  let! (ch, r) := try_rcb_write_bool ch domain base_item "RptEna" true in
  match r with
  | RcbOk => Ret (ch, Some base_item)
  | RcbErr _ => Ret (ch, None)
  | RcbNotFound =>
      let indexed := (base_item ++ "01")%string in
      let! (ch, r) := try_rcb_write_bool ch domain indexed "RptEna" true in
      Ret (ch, match r with RcbOk => Some indexed | _ => None end)
  end.
Definition subscribe_one (ch : Iec61850Channel) (index : nat) (config : ReportConfig) (domain base_item : string) : outcome Iec61850Channel :=
  let! (ch, resolved) := enable_rcb ch domain base_item in
  match resolved with
  | None => Ret ch
  | Some resolved_base =>
      let ch := set_reports ch (ic_subscribed_report_indices ch ++ [index]) (ic_active_report_indices ch) (ic_report_skip_set ch) in
      let routable := bool_decide (is_Some (rpt_id_of config)) || (length (ic_report_configs ch) =? 1)%nat in
      let ch := if routable then activate_report ch index else ch in
      let '(ch, invoke_id) := next_invoke_id ch in
      let! (ch, _) := do_write ch (build_write_simple_bool invoke_id domain (resolved_base ++ "$GI")%string true) in
      Ret ch
  end.
Fixpoint subscribe_loop (several : bool) (ch : Iec61850Channel) (work : list (nat * ReportConfig * string * string)) (seen : gset string)
    : outcome Iec61850Channel :=
  match work with
  | [] => Ret ch
  | (index, config, domain, base_item) :: work =>
      match admit_config several config seen with
      | None => subscribe_loop several ch work seen
      | Some seen => let! ch := subscribe_one ch index config domain base_item in subscribe_loop several ch work seen
      end
  end.
Definition subscribe_work (configs : list ReportConfig) : list (nat * ReportConfig * string * string) :=
  omap (fun '(index, rc) => '(domain, base_item) ← split_rcb_ref (rpc_rcb_ref rc); Some (index, rc, domain, base_item))
    (imap pair configs).
Definition subscribe_reports (ch : Iec61850Channel) : outcome Iec61850Channel :=
  let ch := set_reports ch [] [] ∅ in
  subscribe_loop (1 <? length (ic_report_configs ch))%nat ch (subscribe_work (ic_report_configs ch)) ∅.

Definition Iec61850Channel_connect (iter : gmap Z WriteEntry -> list (Z * WriteEntry)) (ch : Iec61850Channel) (tcp : TcpConnect)
    : outcome (Iec61850Channel * result unit IecError) :=
  match try_connect ch tcp with
  | (ch, Err e) => Ret (set_conn ch CsError, Err e)
  | (ch, Ok _) =>
      let! ch := detect_ctrl_models iter ch in
      let! ch := subscribe_reports ch in
      Ret (ch, Ok ())
  end.
Definition Iec61850Channel_disconnect (ch : Iec61850Channel) : Iec61850Channel := go_disconnected ch.

(** * Values and reports *)

Definition mms_to_value (v : MmsValue) : ProtoValue :=
  match v with
  | MFloat32 f => PFloat (f64_of_f32 f)
  | MFloat64 f => PFloat f
  | MInteger i => PInteger i
  | MUnsigned u => PInteger (to_signed 64 u)
  | MBoolean b => PBool b
  | MVisibleString s => PString (str_bytes s)
  | _ => PNull
  end.
(** [apply_transform] of [iec61850.rs]. *)
Definition iec_apply_transform (value : ProtoValue) (t : TransformConfig) : ProtoValue :=
  match value with
  | PFloat f => PFloat (TransformConfig_apply t f)
  | PInteger i => PFloat (TransformConfig_apply t (f64_of_Z i))
  | PBool b => PBool (TransformConfig_apply_bool t b)
  | other => other
  end.

(** A data point with its source time stamp. *)
Definition Reading : Type := DataPoint * option Z.
Definition report_config_for_rpt_id (ch : Iec61850Channel) (rpt_id : string) : option ReportConfig :=
  let exact := head (omap (fun index =>
    config ← ic_report_configs ch !! index;
    if bool_decide (trim <$> rpc_rpt_id config = Some rpt_id) then Some config else None) (ic_active_report_indices ch)) in
  match exact, ic_active_report_indices ch with
  | Some config, _ => Some config
  | None, [index] => config ← ic_report_configs ch !! index; match rpt_id_of config with None => Some config | Some _ => None end
  | None, _ => None
  end.
Definition report_element (ch : Iec61850Channel) (rc : ReportConfig) (report : ParsedReport) (i_elem : nat * nat) : option Reading :=
  let '(i, elem_idx) := i_elem in
  member_path ← rpc_dataset_members rc !! elem_idx;
  '(pt_id, pt_type, transform) ← ic_path_to_point ch !! member_path;
  mms_val ← rp_values report !! i;
  if MmsValue_is_ok mms_val
  then Some (mkDataPoint pt_id pt_type (iec_apply_transform (mms_to_value mms_val) transform) QGood, rp_timestamp_ms report)
  else None.
Definition report_readings (ch : Iec61850Channel) (report : ParsedReport) : list Reading :=
  match report_config_for_rpt_id ch (rp_rpt_id report) with
  | None => []
  | Some rc => omap (report_element ch rc report) (imap pair (rp_element_indices report))
  end.
Fixpoint process_report_pdus (ch : Iec61850Channel) (pdus : list (list Z)) : outcome (list Reading) :=
  match pdus with
  | [] => Ret []
  | pdu :: pdus =>
      let! r := parse_report pdu in
      let! rest := process_report_pdus ch pdus in
      Ret (from_option (report_readings ch) [] r ++ rest)
  end.

(** * Polling *)

Inductive IecPointError := AccessError (code : Z) | ReadTimedOut | ReadFailed (e : IecError).
Record IecPollResult := mkIecPollResult { ipr_data : list Reading; ipr_failures : list (Z * IecPointError) }.
Definition IecPollResult_default : IecPollResult := mkIecPollResult [] [].

Definition iec_point_reading (p : PointEntry) (v : MmsValue) : Reading :=
  (mkDataPoint (pe_id p) (pe_point_type p) (iec_apply_transform (mms_to_value v) (pe_transform p)) QGood, None).
Fixpoint poll_points (ch : Iec61850Channel) (points : list PointEntry) : outcome (Iec61850Channel * IecPollResult) :=
  match points with
  | [] => Ret (ch, IecPollResult_default)
  | p :: points =>
      if bool_decide (pe_id p ∈ ic_report_skip_set ch) then poll_points ch points
      else
        let '(ch, invoke_id) := next_invoke_id ch in
        let! (ch, r) := read_variable ch invoke_id (pe_domain p) (pe_item p) in
        match r with
        | Ok (MFailure code) =>
            let! (ch, rest) := poll_points ch points in
            Ret (ch, mkIecPollResult (ipr_data rest) ((pe_id p, AccessError code) :: ipr_failures rest))
        | Ok v =>
            let! (ch, rest) := poll_points ch points in
            Ret (ch, mkIecPollResult (iec_point_reading p v :: ipr_data rest) (ipr_failures rest))
        | Err GwReadTimeout | Err GwWriteTimeout => Ret (go_disconnected ch, mkIecPollResult [] [(pe_id p, ReadTimedOut)])
        | Err e => Ret (go_disconnected ch, mkIecPollResult [] [(pe_id p, ReadFailed e)])
        end
  end.
(** The reports that arrived since the last cycle; an error ends the connection. *)
Definition drain_reports (ch : Iec61850Channel) : outcome (Iec61850Channel * option (list (list Z))) :=
  match ic_subscribed_report_indices ch, ic_framer ch with
  | _ :: _, Some f =>
      match Framer_drain_socket f with
      | (f, Some (Ok pdus)) => Ret (set_framer ch (Some f), Some pdus)
      | (_, Some (Err _)) => Ret (go_disconnected ch, None)
      | (_, None) => Panic
      end
  | _, _ => Ret (ch, Some [])
  end.
Definition mid_reports (ch : Iec61850Channel) : Iec61850Channel * list (list Z) :=
  match ic_subscribed_report_indices ch, ic_framer ch with
  | _ :: _, Some f => let '(f, pdus) := Framer_take_pending_reports f in (set_framer ch (Some f), pdus)
  | _, _ => (ch, [])
  end.
Definition Iec61850Channel_poll_once (ch : Iec61850Channel) : outcome (Iec61850Channel * IecPollResult) :=
  if negb (ConnState_is_connected (ic_state ch)) then Ret (ch, IecPollResult_default)
  else
    let! (ch, drained) := drain_reports ch in
    match drained with
    | None => Ret (ch, IecPollResult_default)
    | Some report_pdus =>
        let! (ch, polled) := poll_points ch (ic_points ch) in
        let '(ch, mid_pdus) := mid_reports ch in
        let! report_points := process_report_pdus ch (report_pdus ++ mid_pdus) in
        Ret (ch, mkIecPollResult (ipr_data polled ++ report_points) (ipr_failures polled))
    end.

(** * Commands *)

Section Write.
(** The time at which the [n]-th command of a call is sent. *)
Variable clock : nat -> Z * Z.

(** The select step: [None] when the connection was lost, else whether to operate. *)
Definition select_step (ch : Iec61850Channel) (ctrl_model : Z) (domain item : string) : outcome (Iec61850Channel * option bool) :=
  if ctrl_model =? 2 then
    let '(ch, invoke_id) := next_invoke_id ch in
    let! (ch, r) := do_request_raw ch (build_sbo_select_request invoke_id domain item) in
    match r with
    | Err _ => Ret (go_disconnected ch, None)
    | Ok resp => let! s := parse_sbo_select_response resp in Ret (ch, Some (match s with Ok b => b | Err _ => false end))
    end
  else Ret (ch, Some true).
Fixpoint write_control_loop (ch : Iec61850Channel) (n ok : nat) (commands : list (Z * Z)) : outcome (Iec61850Channel * result nat IecError) :=
  match commands with
  | [] => Ret (ch, Ok ok)
  | (point_id, value) :: commands =>
      match ic_ctrl_points ch !! point_id with
      | None => write_control_loop ch (S n) ok commands
      | Some (mkWriteEntry domain item ctrl_model) =>
          if negb (f64_eqb value f64_zero) && negb (f64_eqb value f64_one) then Ret (ch, Err (GwProtocol (BooleanOnly point_id)))
          else if negb ((ctrl_model =? 1) || (ctrl_model =? 2)) then Ret (ch, Err (GwProtocol (UnsupportedControlModel point_id ctrl_model)))
          else
            let bool_val := negb (f64_eqb value f64_zero) in
            let! (ch, selected) := select_step ch ctrl_model domain item in
            match selected with
            | None => Ret (ch, Ok ok)
            | Some false => write_control_loop ch (S n) ok commands
            | Some true =>
                let '(ch, invoke_id) := next_invoke_id ch in
                let! (ch, r) := do_write ch (build_write_bool_request (clock n) invoke_id domain item bool_val) in
                match r with
                | Ok _ => write_control_loop ch (S n) (S ok) commands
                | Err _ => Ret (go_disconnected ch, Ok ok)
                end
            end
      end
  end.
Definition Iec61850Channel_write_control (ch : Iec61850Channel) (commands : list (Z * Z)) : outcome (Iec61850Channel * result nat IecError) :=
  if negb (ConnState_is_connected (ic_state ch)) then Ret (ch, Ok 0%nat) else write_control_loop ch 0 0 commands.

Fixpoint write_adjustment_loop (ch : Iec61850Channel) (n ok : nat) (adjustments : list (Z * Z)) : outcome (Iec61850Channel * result nat IecError) :=
  match adjustments with
  | [] => Ret (ch, Ok ok)
  | (point_id, value) :: adjustments =>
      match ic_adj_points ch !! point_id with
      | None => write_adjustment_loop ch (S n) ok adjustments
      | Some (mkWriteEntry domain item ctrl_model) =>
          if negb (ctrl_model =? 1) then Ret (ch, Err (GwProtocol (UnsupportedControlModel point_id ctrl_model)))
          else
            let '(ch, invoke_id) := next_invoke_id ch in
            let! (ch, r) := do_write ch (build_write_f32_request (clock n) invoke_id domain item (f32_of_f64 value)) in
            match r with
            | Ok _ => write_adjustment_loop ch (S n) (S ok) adjustments
            | Err _ => Ret (go_disconnected ch, Ok ok)
            end
      end
  end.
Definition Iec61850Channel_write_adjustment (ch : Iec61850Channel) (adjustments : list (Z * Z)) : outcome (Iec61850Channel * result nat IecError) :=
  if negb (ConnState_is_connected (ic_state ch)) then Ret (ch, Ok 0%nat) else write_adjustment_loop ch 0 0 adjustments.
End Write.

(** * A request with its answer *)

(** The connection of the channel: every write succeeds and the stream carries [ms]. *)
Definition online (ch : Iec61850Channel) (f : Framer) (ms : list (list Z)) (tl : list Z) (rest : list ReadEvent) : Prop :=
  ic_framer ch = Some f /\ fr_sends f = [] /\ carries_pdus f ms tl rest.
Definition all_reports (rs : list (list Z)) : Prop := Forall (fun r => is_report r = true) rs.

Lemma set_framer_framer ch f : ic_framer (set_framer ch f) = f.
Proof. done. Qed.
Lemma set_framer_twice ch f g : set_framer (set_framer ch f) g = set_framer ch g.
Proof. done. Qed.

Lemma do_request_answered ch f req reports pdu ms tl rest :
  online ch f (reports ++ pdu :: ms) tl rest -> Forall fits_frame (reports ++ [pdu]) -> all_reports reports -> is_report pdu = false ->
  exists f', do_request_raw ch req = Ret (set_framer ch (Some f'), Ok pdu) /\ online (set_framer ch (Some f')) f' ms tl rest /\
    fr_written f' = fr_written f ++ [wrap_data_pdu req] /\ fr_pending_reports f' = fr_pending_reports f ++ reports.
Proof.
  intros (Hf & Hs & Hc) Hfit Hrep Hpdu. unfold do_request_raw. rewrite Hf. unfold Framer_send_mms, write_all. rewrite Hs. cbn [head tail].
  set (f1 := mkFramer _ _ _ _ _).
  destruct (recv_mms_loop_pdus (S (unread f1)) f1 reports pdu ms tl rest) as (f2 & Hr & Hc2 & [Hs2 Hw2] & Hp2); try done.
  { pose proof (unread_carries f1 _ _ _ Hc) as Hu. rewrite length_app in Hu. lia. }
  exists f2. unfold Framer_recv_mms. rewrite Hr. done.
Qed.

(** A PDU that parses as the response to a read is not a report. *)
Lemma read_response_not_report pdu x : parse_read_response pdu = Ret (Ok x) -> is_report pdu = false.
Proof.
  destruct pdu as [|b pdu]; [done|]. unfold parse_read_response, confirmed_response, parse_tlv, is_report, TAG_CONFIRMED_RESP.
  destruct (Z.eqb_spec b 0xA1) as [->|]; [done|]. done.
Qed.

(** What the server sends while a read waits: some reports and then the response. *)
Record Answer := mkAnswer { an_reports : list (list Z); an_pdu : list Z; an_value : MmsValue }.
Definition an_stream (a : Answer) : list (list Z) := an_reports a ++ [an_pdu a].
Record answer_ok (a : Answer) : Prop := {
  aok_value : exists id, parse_read_response (an_pdu a) = Ret (Ok (id, an_value a));
  aok_reports : all_reports (an_reports a);
  aok_fits : Forall fits_frame (an_stream a);
}.
Lemma read_variable_answered ch f id domain item a ms tl rest :
  answer_ok a -> online ch f (an_stream a ++ ms) tl rest ->
  exists f', read_variable ch id domain item = Ret (set_framer ch (Some f'), Ok (an_value a)) /\ online (set_framer ch (Some f')) f' ms tl rest /\
    fr_written f' = fr_written f ++ [wrap_data_pdu (build_read_request id domain item)] /\
    fr_pending_reports f' = fr_pending_reports f ++ an_reports a.
Proof.
  intros [[id' Hv] Hr Hfit] Hon. unfold an_stream in *. rewrite <- app_assoc in Hon.
  destruct (do_request_answered ch f (build_read_request id domain item) _ _ _ _ _ Hon Hfit Hr (read_response_not_report _ _ Hv))
    as (f' & Hq & Hon' & Hw & Hp).
  exists f'. unfold read_variable. rewrite Hq. cbn [outcome_bind]. rewrite Hv. done.
Qed.

(** * Polling a server that answers *)

(** The invoke ids of [n] requests from [id] on, and the one after them. *)
Definition succ_id (id : Z) : Z := if id =? 255 then 1 else wrap 8 (id + 1).
Fixpoint invoke_ids (id : Z) (n : nat) : list Z := match n with O => [] | S n => id :: invoke_ids (succ_id id) n end.
Fixpoint id_after (id : Z) (n : nat) : Z := match n with O => id | S n => id_after (succ_id id) n end.
Definition after_ids (ch : Iec61850Channel) (n : nat) (f : Framer) : Iec61850Channel :=
  set_framer (set_invoke_id ch (id_after (ic_invoke_id ch) n)) (Some f).
Definition read_requests (id : Z) (ps : list PointEntry) : list (list Z) :=
  zip_with (fun id p => wrap_data_pdu (build_read_request id (pe_domain p) (pe_item p))) (invoke_ids id (length ps)) ps.
Definition ok_reading (pa : PointEntry * Answer) : option Reading :=
  if MmsValue_is_ok (an_value pa.2) then Some (iec_point_reading pa.1 (an_value pa.2)) else None.
Definition access_failure (pa : PointEntry * Answer) : option (Z * IecPointError) :=
  match an_value pa.2 with MFailure code => Some (pe_id pa.1, AccessError code) | _ => None end.
Definition polled (ch : Iec61850Channel) (ps : list PointEntry) : list PointEntry := filter (fun p => pe_id p ∉ ic_report_skip_set ch) ps.

Lemma poll_points_answered ps : forall ch f answers tl rest,
  length answers = length (polled ch ps) -> Forall answer_ok answers -> online ch f (answers ≫= an_stream) tl rest ->
  let pairs := zip (polled ch ps) answers in
  exists f', poll_points ch ps = Ret (after_ids ch (length answers) f', mkIecPollResult (omap ok_reading pairs) (omap access_failure pairs)) /\
    online (after_ids ch (length answers) f') f' [] tl rest /\
    fr_written f' = fr_written f ++ read_requests (ic_invoke_id ch) (polled ch ps) /\
    fr_pending_reports f' = fr_pending_reports f ++ (answers ≫= an_reports).
Proof.
  induction ps as [|p ps IH]; intros ch f answers tl rest Hlen Hok Hon.
  { destruct answers; [|done]. destruct Hon as (Hf & Hs & Hc). exists f. cbn. rewrite !app_nil_r. split_and!; try done.
    unfold after_ids. cbn. by destruct ch; cbn in *; subst. }
  unfold polled in *. cbn [poll_points]. rewrite filter_cons in *.
  case_bool_decide as Hskip; [rewrite decide_False in * by tauto; by apply IH|]. rewrite decide_True in * by done.
  destruct answers as [|a answers]; [done|]. inversion Hok as [|? ? Ha Hok']; subst. cbn [mbind list_bind] in Hon. injection Hlen as Hlen.
  unfold next_invoke_id. cbn [fst snd]. fold (succ_id (ic_invoke_id ch)). set (next := succ_id (ic_invoke_id ch)).
  destruct (read_variable_answered (set_invoke_id ch next) f (ic_invoke_id ch) (pe_domain p) (pe_item p) a (answers ≫= an_stream) tl rest Ha Hon)
    as (f1 & Hr & Hon1 & Hw1 & Hp1). rewrite Hr. cbn [outcome_bind].
  destruct (IH (set_framer (set_invoke_id ch next) (Some f1)) f1 answers tl rest Hlen Hok' Hon1) as (f2 & Hpoll & Hon2 & Hw2 & Hp2).
  assert (Hch : after_ids (set_framer (set_invoke_id ch next) (Some f1)) (length answers) f2 = after_ids ch (S (length answers)) f2)
    by done.
  exists f2. cbn [length] in *. rewrite <- Hch. cbn [zip zip_with omap list_omap]. unfold ok_reading at 1, access_failure at 1. cbn [fst snd].
  rewrite Hpoll. cbn [outcome_bind ipr_data ipr_failures]. split_and!; try done.
  - by destruct (an_value a).
  - rewrite Hw2, Hw1. unfold read_requests. cbn. by rewrite <- app_assoc.
  - rewrite Hp2, Hp1. cbn [mbind list_bind]. by rewrite <- app_assoc.
Qed.

Lemma process_report_pdus_frame ch n f pdus : process_report_pdus (after_ids ch n f) pdus = process_report_pdus ch pdus.
Proof. induction pdus as [|r pdus IH]; [done|]. cbn [process_report_pdus]. by rewrite IH. Qed.
Lemma process_report_pdus_ret ch pdus : Forall (fun r => parse_report r <> Panic) pdus -> exists rs, process_report_pdus ch pdus = Ret rs.
Proof.
  induction 1 as [|r pdus Hr _ [rs IH]]; [by eexists|]. cbn [process_report_pdus]. rewrite IH. destruct (parse_report r); [|done]. by eexists.
Qed.

(** The stream at the start of a poll: with subscriptions, the reports [pre] arrived since the
    last cycle, perhaps with a part of the next frame; then the answers follow. *)
Definition ready_to_poll (ch : Iec61850Channel) (f : Framer) (pre : list (list Z)) (answers : list Answer) (tl : list Z) (rest : list ReadEvent) : Prop :=
  match ic_subscribed_report_indices ch with
  | [] => pre = [] /\ carries_pdus f (answers ≫= an_stream) tl rest
  | _ :: _ => exists tl0 input, partial_frame tl0 /\ carries_pdus f pre tl0 (RIdle :: input) /\
      carries input tl0 (frames (answers ≫= an_stream) ++ tl) rest
  end.
Lemma drain_ready ch f pre answers tl rest :
  ic_framer ch = Some f -> fr_sends f = [] -> Forall fits_frame pre -> all_reports pre -> ready_to_poll ch f pre answers tl rest ->
  exists f' pdus, drain_reports ch = Ret (set_framer ch (Some f'), Some pdus) /\ online (set_framer ch (Some f')) f' (answers ≫= an_stream) tl rest /\
    fr_written f' = fr_written f /\
    match ic_subscribed_report_indices ch with
    | [] => pdus = [] /\ fr_pending_reports f' = fr_pending_reports f
    | _ :: _ => pdus = fr_pending_reports f ++ pre /\ fr_pending_reports f' = []
    end.
Proof.
  intros Hf Hs Hfit Hrep. unfold ready_to_poll, drain_reports. rewrite Hf. destruct (ic_subscribed_report_indices ch) as [|i others].
  - intros [-> Hc]. exists f, []. split_and!; try done. by destruct ch; cbn in *; subst.
  - intros (tl0 & input & Htl & Hpre & Hc).
    assert (Hd : Framer_drain_socket f = (mkFramer input (fr_sends f) (fr_written f) [] tl0, Some (Ok (fr_pending_reports f ++ pre)))).
    { destruct Hpre as (chunks & Hi & Hne & Heq). unfold Framer_drain_socket. cbn [fr_input fr_rx_buffer with_pending].
      rewrite Hi, try_read_all_chunks, Heq by done. pose proof (length_frames pre).
      replace (S (length (frames pre ++ tl0))) with (length pre + S (length (frames pre ++ tl0) - length pre))%nat by (rewrite length_app; lia).
      by rewrite drain_frames_reports, drain_frames_partial. }
    rewrite Hd. by eexists _, _.
Qed.

(** C19: A poll cycle of a connected channel against a server that answers every request,
    when its frames fit and the reports that arrive can be parsed without a panic.  Every point
    not covered by an active report is read by its own request, in order and with fresh
    invoke ids, whatever reports arrive in between and however TCP cuts the stream; the
    readings are the transformed values of the answers, and points with access errors are
    failures.  When at least one report subscription is recorded, the reports - those
    pending, those that arrived since the last cycle and those in between - are each
    converted exactly once and none stays pending; with no recorded subscription no
    report is taken. *)
Theorem iec_poll_reads_points ch f pre answers tl rest :
  ic_state ch = CsConnected -> ic_framer ch = Some f -> fr_sends f = [] ->
  Forall fits_frame pre -> all_reports pre -> ready_to_poll ch f pre answers tl rest ->
  length answers = length (polled ch (ic_points ch)) -> Forall answer_ok answers ->
  Forall (fun r => parse_report r <> Panic) (fr_pending_reports f ++ pre ++ (answers ≫= an_reports)) ->
  let pairs := zip (polled ch (ic_points ch)) answers in
  exists f' readings,
    Iec61850Channel_poll_once ch =
      Ret (after_ids ch (length answers) f', mkIecPollResult (omap ok_reading pairs ++ readings) (omap access_failure pairs)) /\
    fr_written f' = fr_written f ++ read_requests (ic_invoke_id ch) (polled ch (ic_points ch)) /\
    online (after_ids ch (length answers) f') f' [] tl rest /\
    (if decide (ic_subscribed_report_indices ch = []) then readings = []
     else process_report_pdus ch (fr_pending_reports f ++ pre ++ (answers ≫= an_reports)) = Ret readings /\ fr_pending_reports f' = []).
Proof.
  intros Hst Hf Hs Hfit Hrep Hready Hlen Hok Hparse pairs.
  destruct (drain_ready ch f pre answers tl rest Hf Hs Hfit Hrep Hready) as (f1 & pdus & Hd & Hon1 & Hw1 & Hp1).
  destruct (poll_points_answered (ic_points ch) (set_framer ch (Some f1)) f1 answers tl rest Hlen Hok Hon1) as (f2 & Hpoll & Hon2 & Hw2 & Hp2).
  change (after_ids (set_framer ch (Some f1)) (length answers) f2) with (after_ids ch (length answers) f2) in *.
  change (polled (set_framer ch (Some f1)) (ic_points ch)) with (polled ch (ic_points ch)) in *.
  unfold Iec61850Channel_poll_once. rewrite Hst. cbn [ConnState_is_connected negb]. rewrite Hd. cbn [outcome_bind].
  change (ic_points (set_framer ch (Some f1))) with (ic_points ch). rewrite Hpoll. cbn [outcome_bind]. unfold mid_reports.
  change (ic_subscribed_report_indices (after_ids ch (length answers) f2)) with (ic_subscribed_report_indices ch).
  destruct (ic_subscribed_report_indices ch) as [|i others] eqn:Hsub.
  - destruct Hp1 as [-> _]. cbn [app process_report_pdus outcome_bind ipr_data ipr_failures]. exists f2, []. rewrite decide_True by done.
    split_and!; try done. by rewrite Hw2, Hw1.
  - destruct Hp1 as [-> Hp1]. rewrite Hp1 in Hp2. cbn [app] in Hp2. change (ic_framer (after_ids ch (length answers) f2)) with (Some f2).
    unfold Framer_take_pending_reports. rewrite Hp2. destruct (process_report_pdus_ret ch _ Hparse) as [readings Hr].
    change (set_framer (after_ids ch (length answers) f2) (Some (with_pending f2 []))) with (after_ids ch (length answers) (with_pending f2 [])).
    rewrite process_report_pdus_frame, <- app_assoc, Hr. cbn [outcome_bind ipr_data ipr_failures].
    exists (with_pending f2 []), readings. rewrite decide_False by done.
    split_and!; try done; [by rewrite <- Hw1 | by destruct Hon2 as (_ & Hs2 & Hc2)].
Qed.

(** A server with one reading and one access error, answering after a report. *)
Definition iec_sample_points : list PointConfig :=
  [mkPointConfig 101 Telemetry None (AddrIec61850 (Iec61850Address_new "LD0" "GGIO1$MX$AnIn1$mag$f")) linear_one None true;
   mkPointConfig 102 Signal None (AddrIec61850 (Iec61850Address_new "LD0" "GGIO1$ST$Ind1$stVal")) linear_one None true].
Definition sample_answers : list Answer :=
  [mkAnswer [[0xA3; 0]] (read_response 1 (tlv 0xA1 (tlv DATA_INTEGER [42]))) (MInteger 42);
   mkAnswer [] (read_response 2 (tlv 0x80 [3])) (MFailure 3)].
Definition sample_iec_channel : Iec61850Channel :=
  set_conn (set_framer (Iec61850Channel_new [] iec_sample_points)
    (Some (Framer_new [RData (frames (sample_answers ≫= an_stream))] []))) CsConnected.
Lemma sample_answers_ok : Forall answer_ok sample_answers.
Proof.
  repeat (apply Forall_cons; split); try apply Forall_nil; try exact I; (split; [eexists; vm_compute; reflexivity | |]).
  all: unfold all_reports; repeat (apply Forall_cons; split); try apply Forall_nil; try exact I; vm_compute; (reflexivity || discriminate).
Qed.
Lemma iec_poll_reads_points_witness : exists f',
  Iec61850Channel_poll_once sample_iec_channel =
    Ret (after_ids sample_iec_channel 2 f',
         mkIecPollResult [(mkDataPoint 101 Telemetry (PFloat (f64_of_Z 42)) QGood, None)] [(102, AccessError 3)]).
Proof.
  destruct (iec_poll_reads_points sample_iec_channel (Framer_new [RData (frames (sample_answers ≫= an_stream))] []) [] sample_answers [] [])
    as (f' & readings & Hp & _ & _ & Hr).
  - reflexivity.
  - reflexivity.
  - reflexivity.
  - constructor.
  - constructor.
  - split; [reflexivity|]. exists [frames (sample_answers ≫= an_stream)]. split; [reflexivity|]. split; [|vm_compute; reflexivity].
    apply Forall_cons. split; [vm_compute; discriminate | by apply Forall_nil].
  - reflexivity.
  - exact sample_answers_ok.
  - apply Forall_cons. split; [vm_compute; discriminate | by apply Forall_nil].
  - exists f'. simpl in Hr. subst readings. rewrite Hp. vm_compute. reflexivity.
Defined.

(** * A late answer *)

Lemma do_request_timeout ch f req input :
  ic_framer ch = Some f -> fr_sends f = [] -> fr_rx_buffer f = [] -> fr_input f = RIdle :: input ->
  do_request_raw ch req =
    Ret (set_framer ch (Some (mkFramer input [] (fr_written f ++ [wrap_data_pdu req]) (fr_pending_reports f) [])), Err GwReadTimeout).
Proof.
  intros Hf Hs Hrx Hi. unfold do_request_raw. rewrite Hf. unfold Framer_send_mms, write_all. rewrite Hs, Hrx, Hi. cbn [head tail].
  unfold Framer_recv_mms. cbn [recv_mms_loop]. unfold Framer_recv_mms_raw, Framer_recv_tpkt. cbn. done.
Qed.
Lemma polled_all ch ps : ic_report_skip_set ch = ∅ -> polled ch ps = ps.
Proof. intros H. unfold polled. induction ps as [|p ps IH]; [done|]. rewrite filter_cons, decide_True by set_solver. by rewrite IH. Qed.
Lemma frames_app ms ms' : frames (ms ++ ms') = frames ms ++ frames ms'.
Proof. unfold frames. by rewrite map_app, concat_app. Qed.

(** Responses are matched to requests by order alone.  When the server answers the first
    request of the control-model detection only after its deadline, connecting goes on with the
    same connection, and from then on every poll gives each point the value of the point before
    it - the first one the control model - with good quality; the answer to the last point
    waits for the next poll. *)
Theorem late_response_shifts_readings iter ch f work1 work late init last tl input rest :
  ic_state ch = CsConnected -> ic_framer ch = Some f -> fr_sends f = [] -> fr_rx_buffer f = [] -> fr_input f = RIdle :: input ->
  ic_report_configs ch = [] -> detect_work iter true (ic_ctrl_points ch) ++ detect_work iter false (ic_adj_points ch) = work1 :: work ->
  answer_ok late -> Forall answer_ok (init ++ [last]) -> length (init ++ [last]) = length (ic_points ch) ->
  carries input [] (frames ((late :: init ++ [last]) ≫= an_stream) ++ tl) rest ->
  let pairs := zip (ic_points ch) (late :: init) in
  exists ch1 ch2 ch3 f3,
    detect_ctrl_models iter ch = Ret ch1 /\ subscribe_reports ch1 = Ret ch2 /\ ic_state ch2 = CsConnected /\
    Iec61850Channel_poll_once ch2 = Ret (ch3, mkIecPollResult (omap ok_reading pairs) (omap access_failure pairs)) /\
    online ch3 f3 [] (frames (an_stream last) ++ tl) rest.
Proof.
  intros Hst Hf Hs Hrx Hi Hrc Hwork Hlate Hok Hlen Hc pairs. destruct work1 as [[[is_ctrl id] domain] item].
  unfold detect_ctrl_models. rewrite Hwork. cbn [detect_loop next_invoke_id].
  set (ch0 := set_invoke_id ch _). unfold read_variable.
  rewrite (do_request_timeout ch0 f _ input) by done. cbn [outcome_bind].
  set (f1 := mkFramer input [] _ _ []). set (ch1 := set_framer ch0 (Some f1)).
  exists ch1, (set_reports ch1 [] [] ∅). unfold subscribe_reports. cbn [ic_report_configs set_reports].
  replace (ic_report_configs ch1) with (ic_report_configs ch) by done. rewrite Hrc.
  apply Forall_app in Hok as [Hinit Hlast]. rewrite length_app in Hlen. cbn [length] in Hlen.
  set (ch2 := set_reports ch1 [] [] ∅).
  assert (Hpol : polled ch2 (ic_points ch) = ic_points ch) by by apply polled_all.
  assert (Hon : online ch2 f1 ((late :: init) ≫= an_stream) (frames (an_stream last) ++ tl) rest).
  { split; [done|]. split; [done|]. unfold carries_pdus. cbn [fr_input fr_rx_buffer f1]. rewrite app_assoc, <- frames_app.
    cbn [mbind list_bind] in *. rewrite bind_app in Hc. cbn [mbind list_bind] in Hc. by rewrite app_nil_r, app_assoc in Hc. }
  destruct (poll_points_answered (ic_points ch) ch2 f1 (late :: init) (frames (an_stream last) ++ tl) rest) as (f3 & Hp & Hon3 & _ & _); try done.
  { rewrite Hpol. cbn [length]. lia. } { by constructor. }
  exists (after_ids ch2 (length (late :: init)) f3), f3. split_and!; try done.
  unfold Iec61850Channel_poll_once. change (ic_state ch2) with (ic_state ch). rewrite Hst. cbn [ConnState_is_connected negb].
  change (drain_reports ch2) with (Ret (A := Iec61850Channel * option (list (list Z))) (ch2, Some [])). cbn [outcome_bind].
  change (ic_points ch2) with (ic_points ch). rewrite Hp, Hpol. cbn [outcome_bind]. unfold mid_reports. cbn. by rewrite app_nil_r.
Qed.
Definition integer_answer (id n : Z) : Answer := mkAnswer [] (read_response id (tlv 0xA1 (tlv DATA_INTEGER [n]))) (MInteger n).
Definition late_stream : list Z := frames ([integer_answer 1 1; integer_answer 2 20; integer_answer 3 30] ≫= an_stream).
Definition late_framer : Framer := Framer_new [RIdle; RData late_stream] [].
Definition late_channel : Iec61850Channel :=
  let point id item := mkPointConfig id Telemetry None (AddrIec61850 (Iec61850Address_new "LD0" item)) linear_one None true in
  set_conn (set_framer (Iec61850Channel_new []
    [point 1 "GGIO1$MX$AnIn1$mag$f"; point 2 "GGIO1$MX$AnIn2$mag$f";
     mkPointConfig 1 Control None (AddrIec61850 (Iec61850Address_new "LD0" "GGIO1$CO$SPCSO1$Oper$ctlVal")) linear_one None true])
    (Some late_framer)) CsConnected.
Lemma late_response_shifts_readings_witness :
  exists ch1 ch2 ch3, detect_ctrl_models map_to_list late_channel = Ret ch1 /\ subscribe_reports ch1 = Ret ch2 /\
    Iec61850Channel_poll_once ch2 =
      Ret (ch3, mkIecPollResult [(mkDataPoint 1 Telemetry (PFloat (f64_of_Z 1)) QGood, None); (mkDataPoint 2 Telemetry (PFloat (f64_of_Z 20)) QGood, None)] []).
Proof.
  assert (Hint : forall id n, (id, n) ∈ [(1, 1); (2, 20); (3, 30)] -> answer_ok (integer_answer id n)).
  { intros id n Hin. rewrite !elem_of_cons, elem_of_nil in Hin.
    destruct Hin as [[= -> ->] | [[= -> ->] | [[= -> ->] | []]]];
      (split; [eexists; vm_compute; reflexivity | by constructor | apply Forall_cons; split; [vm_compute; discriminate | by apply Forall_nil]]). }
  destruct (late_response_shifts_readings map_to_list late_channel late_framer
    (true, 1, "LD0", "GGIO1$CF$SPCSO1$ctlModel") [] (integer_answer 1 1) [integer_answer 2 20] (integer_answer 3 30) [] [RData late_stream] [])
    as (ch1 & ch2 & ch3 & f3 & H1 & H2 & _ & H3 & _).
  - reflexivity.
  - reflexivity.
  - reflexivity.
  - reflexivity.
  - reflexivity.
  - reflexivity.
  - vm_compute. reflexivity.
  - apply Hint. set_solver.
  - repeat (apply Forall_cons; split); try (apply Hint; set_solver). by apply Forall_nil.
  - reflexivity.
  - exists [late_stream]. split; [reflexivity|]. split; [|reflexivity]. apply Forall_cons. split; [vm_compute; discriminate | by apply Forall_nil].
  - exists ch1, ch2, ch3. split; [exact H1|]. split; [exact H2|]. rewrite H3. vm_compute. reflexivity.
Defined.

(** * Commands *)

(** One request on a connection, and a sequence of them. *)
Definition exchange (f : Framer) (req : list Z) : Framer * option (result (list Z) IecError) :=
  match Framer_send_mms f req with (f, Err e) => (f, Some (Err e)) | (f, Ok _) => Framer_recv_mms f end.
Fixpoint replay (f : Framer) (reqs : list (list Z)) : Framer * list (option (result (list Z) IecError)) :=
  match reqs with
  | [] => (f, [])
  | req :: reqs => let '(f, r) := exchange f req in let '(f, rs) := replay f reqs in (f, r :: rs)
  end.
Definition Exchange : Type := list Z * result (list Z) IecError.
Definition happened (f : Framer) (exs : list Exchange) (f' : Framer) : Prop := replay f (map fst exs) = (f', map (Some ∘ snd) exs).
Lemma happened_app f g h xs ys : happened f xs g -> happened g ys h -> happened f (xs ++ ys) h.
Proof.
  unfold happened. revert f. induction xs as [|[q r] xs IH]; intros f; cbn [map replay app fst]; [by intros [= ->]|].
  destruct (exchange f q) as [f1 r1]. destruct (replay f1 (map fst xs)) as [f2 rs] eqn:E. intros [= <- -> ->] Hy.
  by rewrite (IH f1 E Hy).
Qed.
Lemma happened_one f q f' r : exchange f q = (f', Some r) -> happened f [(q, r)] f'.
Proof. unfold happened. cbn. by intros ->. Qed.

Lemma do_request_exchange ch f req :
  ic_framer ch = Some f ->
  do_request_raw ch req = match exchange f req with (f', Some r) => Ret (set_framer ch (Some f'), r) | (_, None) => Panic end.
Proof. intros Hf. unfold do_request_raw, exchange. rewrite Hf. by destruct (Framer_send_mms f req) as [f1 [|]]. Qed.
Lemma do_request_happened ch f req ch' r :
  ic_framer ch = Some f -> do_request_raw ch req = Ret (ch', r) -> exists f', ch' = set_framer ch (Some f') /\ happened f [(req, r)] f'.
Proof.
  intros Hf. rewrite (do_request_exchange ch f) by done. destruct (exchange f req) as [f' [r'|]] eqn:E; [|done]. intros [= <- <-].
  exists f'. split; [done|]. by apply happened_one.
Qed.

(** The connection in use, or the last one given up. *)
Definition last_framer (ch : Iec61850Channel) : option Framer := match ic_framer ch with Some f => Some f | None => last (ic_closed ch) end.
Lemma last_framer_disconnected ch f : ic_framer ch = Some f -> last_framer (go_disconnected ch) = Some f.
Proof. intros Hf. unfold last_framer, go_disconnected, drop_framer. cbn. rewrite Hf. cbn. apply last_snoc. Qed.

Definition is_switch (value : Z) : Prop := f64_eqb value f64_zero = true \/ f64_eqb value f64_one = true.
Definition confirmed (r : result (list Z) IecError) : nat :=
  match r with Ok pdu => match parse_write_response pdu with Ok _ => 1 | Err _ => 0 end | Err _ => 0 end.
Definition operate_pdu (now : Z * Z) (id : Z) (e : WriteEntry) (value : Z) : list Z :=
  build_write_bool_request now id (we_domain e) (we_item e) (negb (f64_eqb value f64_zero)).
Definition select_pdu (id : Z) (e : WriteEntry) : list Z := build_sbo_select_request id (we_domain e) (we_item e).

(** The requests one command may cause, with their results, the number of operates
    confirmed, and whether the loop goes on to the next command: not after a failed
    request or an operate that is not confirmed. *)
Inductive control_group (entries : gmap Z WriteEntry) : Z * Z -> list Exchange -> nat -> bool -> Prop :=
| CgDirect pid value e now id r :
    entries !! pid = Some e -> is_switch value -> we_ctrl_model e = 1 ->
    control_group entries (pid, value) [(operate_pdu now id e value, r)] (confirmed r) (confirmed r =? 1)%nat
| CgSelectOnly pid value e id r :
    entries !! pid = Some e -> is_switch value -> we_ctrl_model e = 2 ->
    (forall resp, r = Ok resp -> parse_sbo_select_response resp <> Ret (Ok true)) ->
    control_group entries (pid, value) [(select_pdu id e, r)] 0 (match r with Ok _ => true | Err _ => false end)
| CgSelectOperate pid value e now id id' resp r :
    entries !! pid = Some e -> is_switch value -> we_ctrl_model e = 2 ->
    parse_sbo_select_response resp = Ret (Ok true) ->
    control_group entries (pid, value) [(select_pdu id e, Ok resp); (operate_pdu now id' e value, r)] (confirmed r) (confirmed r =? 1)%nat.

(** The groups of the commands in their order, one for each command at most: commands of
    unknown points cause none; a command with another value or control model, and one
    whose group failed, is the last.  [refused] says whether the run ends in an error. *)
Inductive control_groups (entries : gmap Z WriteEntry) : list (Z * Z) -> list Exchange -> nat -> bool -> Prop :=
| CgsEnd : control_groups entries [] [] 0 false
| CgsSkip pid value commands exs k refused : entries !! pid = None ->
    control_groups entries commands exs k refused -> control_groups entries ((pid, value) :: commands) exs k refused
| CgsRefuse pid value e commands : entries !! pid = Some e -> ~ (is_switch value /\ (we_ctrl_model e = 1 \/ we_ctrl_model e = 2)) ->
    control_groups entries ((pid, value) :: commands) [] 0 true
| CgsGroup x commands exs k exs' k' refused : control_group entries x exs k true -> control_groups entries commands exs' k' refused ->
    control_groups entries (x :: commands) (exs ++ exs') (k + k') refused
| CgsBroken x commands exs k : control_group entries x exs k false -> control_groups entries (x :: commands) exs k false.

(** The select step as exchanges. *)
Lemma select_step_happened ch f pid value e ch' sel :
  ic_framer ch = Some f -> ic_ctrl_points ch !! pid = Some e -> is_switch value ->
  we_ctrl_model e = 1 \/ we_ctrl_model e = 2 ->
  select_step ch (we_ctrl_model e) (we_domain e) (we_item e) = Ret (ch', sel) ->
  match sel with
  | None => exists f' exs, last_framer ch' = Some f' /\ happened f exs f' /\ control_group (ic_ctrl_points ch) (pid, value) exs 0 false
  | Some false => exists f' exs, ch' = set_framer (set_invoke_id ch (succ_id (ic_invoke_id ch))) (Some f') /\ happened f exs f' /\
      control_group (ic_ctrl_points ch) (pid, value) exs 0 true
  | Some true => exists f' exs, ic_framer ch' = Some f' /\ ic_ctrl_points ch' = ic_ctrl_points ch /\ happened f exs f' /\
      (forall now id r, control_group (ic_ctrl_points ch) (pid, value) (exs ++ [(operate_pdu now id e value, r)]) (confirmed r) (confirmed r =? 1)%nat)
  end.
Proof.
  intros Hf He Hsw Hm. unfold select_step. destruct (Z.eqb_spec (we_ctrl_model e) 2) as [H2|H2].
  - unfold next_invoke_id. cbn [fst snd]. fold (succ_id (ic_invoke_id ch)). set (ch1 := set_invoke_id ch _).
    destruct (do_request_raw ch1 _) as [[ch2 r]|] eqn:Hr; [|done]. cbn [outcome_bind].
    destruct (do_request_happened ch1 f _ _ _ Hf Hr) as (f' & -> & Hh). destruct r as [resp|er].
    + destruct (parse_sbo_select_response resp) as [s|] eqn:Hs; [|done]. cbn [outcome_bind].
      destruct s as [b|es]; [destruct b|]; intros [= <- <-]; exists f', [(select_pdu (ic_invoke_id ch) e, Ok resp)].
      * split_and!; try done. intros now id r. by eapply CgSelectOperate.
      * split_and!; try done. apply (CgSelectOnly _ pid value e (ic_invoke_id ch) (Ok resp)); try eassumption. intros ? [= <-]. by rewrite Hs.
      * split_and!; try done. apply (CgSelectOnly _ pid value e (ic_invoke_id ch) (Ok resp)); try eassumption. intros ? [= <-]. by rewrite Hs.
    + intros [= <- <-]. exists f', [(select_pdu (ic_invoke_id ch) e, Err er)]. split_and!; [by apply last_framer_disconnected | done |].
      by apply (CgSelectOnly _ pid value e (ic_invoke_id ch) (Err er)).
  - intros [= <- <-]. exists f, []. split_and!; try done. intros now id r. eapply CgDirect; try eassumption. tauto.
Qed.
Lemma do_write_happened ch f req ch' r :
  ic_framer ch = Some f -> do_write ch req = Ret (ch', r) ->
  exists f' resp, ch' = set_framer ch (Some f') /\ happened f [(req, resp)] f' /\ confirmed resp = (match r with Ok _ => 1 | Err _ => 0 end)%nat.
Proof.
  intros Hf. unfold do_write. destruct (do_request_raw ch req) as [[ch2 r2]|] eqn:Hr; [|done]. cbn [outcome_bind]. intros [= <- <-].
  destruct (do_request_happened ch f _ _ _ Hf Hr) as (f' & -> & Hh). exists f', r2. split_and!; try done.
  destruct r2 as [pdu|]; [|done]. cbn. by destruct (parse_write_response pdu).
Qed.

Definition control_outcome (ch : Iec61850Channel) (f : Framer) (ok : nat) (commands : list (Z * Z)) (ch' : Iec61850Channel) (r : result nat IecError) : Prop :=
  exists exs k refused f', happened f exs f' /\ last_framer ch' = Some f' /\ control_groups (ic_ctrl_points ch) commands exs k refused /\
    if refused then exists e, r = Err e else r = Ok (ok + k)%nat.
(** A group in front of the rest of the loop. *)
Lemma control_then ch ch1 f f1 ok x commands exs k ch' r :
  happened f exs f1 -> control_group (ic_ctrl_points ch) x exs k true -> ic_ctrl_points ch1 = ic_ctrl_points ch ->
  control_outcome ch1 f1 (ok + k) commands ch' r -> control_outcome ch f ok (x :: commands) ch' r.
Proof.
  intros Hh Hg Hp (exs' & k' & refused & f' & Hh' & Hl & Hg' & Hk). exists (exs ++ exs'), (k + k')%nat, refused, f'.
  split_and!; [by eapply happened_app | done | constructor; [done | by rewrite <- Hp] |].
  destruct refused; [done |]. rewrite Hk. f_equal. lia.
Qed.
Lemma control_skips ch pid value commands f ok ch' r : ic_ctrl_points ch !! pid = None -> control_outcome ch f ok commands ch' r ->
  control_outcome ch f ok ((pid, value) :: commands) ch' r.
Proof. intros He (exs & k & refused & f' & Hh & Hl & Hg & Hk). exists exs, k, refused, f'. split_and!; try done. by constructor. Qed.
Lemma control_refused ch f ok pid value e commands err : ic_framer ch = Some f -> ic_ctrl_points ch !! pid = Some e ->
  ~ (is_switch value /\ (we_ctrl_model e = 1 \/ we_ctrl_model e = 2)) -> control_outcome ch f ok ((pid, value) :: commands) ch (Err err).
Proof.
  intros Hf He Hn. exists [], 0%nat, true, f. split_and!; [done | by unfold last_framer; rewrite Hf | by eapply CgsRefuse | by eexists].
Qed.
Lemma control_ends ch f f1 ok x commands exs ch' :
  happened f exs f1 -> control_group (ic_ctrl_points ch) x exs 0 false -> last_framer ch' = Some f1 ->
  control_outcome ch f ok (x :: commands) ch' (Ok ok).
Proof.
  intros Hh Hg Hl. exists exs, 0%nat, false, f1. split_and!; [done | done | by constructor | by rewrite Nat.add_0_r].
Qed.
Lemma write_control_loop_groups clock commands : forall ch f n ok ch' r,
  ic_framer ch = Some f -> write_control_loop clock ch n ok commands = Ret (ch', r) -> control_outcome ch f ok commands ch' r.
Proof.
  induction commands as [|[pid value] commands IH]; intros ch f n ok ch' r Hf; cbn [write_control_loop].
  { intros [= <- <-]. exists [], 0%nat, false, f. split_and!; [done | by unfold last_framer; rewrite Hf | constructor | by rewrite Nat.add_0_r]. }
  destruct (ic_ctrl_points ch !! pid) as [[domain item model]|] eqn:He; [|intros Hr; apply control_skips; [done | by eapply IH]].
  destruct (negb (f64_eqb value f64_zero) && negb (f64_eqb value f64_one)) eqn:Hv.
  { intros [= <- <-]. eapply control_refused; [done | exact He |]. unfold is_switch. intros [Hs _]. by destruct (f64_eqb value f64_zero), (f64_eqb value f64_one), Hs. }
  destruct (negb ((model =? 1) || (model =? 2))) eqn:Hm.
  { intros [= <- <-]. eapply control_refused; [done | exact He |]. cbn [we_ctrl_model]. intros [_ Hs]. destruct (Z.eqb_spec model 1), (Z.eqb_spec model 2); destruct Hs; done. }
  destruct (select_step ch model domain item) as [[ch1 sel]|] eqn:Hsel; [|done]. cbn [outcome_bind].
  pose proof (select_step_happened ch f pid value _ ch1 sel Hf He) as Hst. cbn [we_ctrl_model we_domain we_item] in Hst.
  specialize (Hst ltac:(unfold is_switch; destruct (f64_eqb value f64_zero), (f64_eqb value f64_one); try discriminate Hv; auto)
    ltac:(destruct (Z.eqb_spec model 1), (Z.eqb_spec model 2); try discriminate Hm; auto) Hsel).
  destruct sel as [[|]|].
  - destruct Hst as (f1 & exs & Hf1 & Hp1 & Hh & Hg). unfold next_invoke_id. cbn [fst snd]. set (ch2 := set_invoke_id ch1 _).
    destruct (do_write ch2 _) as [[ch3 r3]|] eqn:Hw; [|done]. cbn [outcome_bind].
    destruct (do_write_happened ch2 f1 _ _ _ Hf1 Hw) as (f3 & resp & -> & Hh3 & Hc). specialize (Hg (clock n) (ic_invoke_id ch1) resp).
    pose proof (happened_app _ _ _ _ _ Hh Hh3) as Hh'. destruct r3; rewrite Hc in Hg; cbn [Nat.eqb] in Hg.
    + intros Hr. eapply (control_then ch (set_framer ch2 (Some f3))); [exact Hh' | exact Hg | exact Hp1 |]. rewrite Nat.add_1_r. by eapply IH.
    + intros [= <- <-]. eapply control_ends; [exact Hh' | exact Hg | by apply last_framer_disconnected].
  - destruct Hst as (f1 & exs & -> & Hh & Hg). intros Hr. eapply control_then; [exact Hh | exact Hg | |]; [|rewrite Nat.add_0_r; eapply IH; [|exact Hr]]; done.
  - destruct Hst as (f1 & exs & Hl & Hh & Hg). intros [= <- <-]. by eapply control_ends.
Qed.

(** C20: Control commands are safe.  Whatever the server answers (as long as the parser
    does not panic on it), the requests of [write_control] on a connected channel are
    groups in the order of the commands, at most one group per command: an operate for a
    point of the direct model; a select the server did not grant; or a select that it
    granted, followed by its operate, for a point of the select-before-operate model.
    Commands of points that are not configured cause no request; a command whose value
    is not 0 or 1, or of another control model, ends the call with an error before any
    request of its own; a request that fails or an operate that is not confirmed ends it
    too.  Otherwise the count returned is the number of operates the server confirmed. *)
Theorem control_commands_safe clock ch f commands ch' r :
  ic_state ch = CsConnected -> ic_framer ch = Some f -> Iec61850Channel_write_control clock ch commands = Ret (ch', r) ->
  exists exs k refused f', happened f exs f' /\ last_framer ch' = Some f' /\ control_groups (ic_ctrl_points ch) commands exs k refused /\
    if refused then exists e, r = Err e else r = Ok k.
Proof.
  intros Hst Hf. unfold Iec61850Channel_write_control. rewrite Hst. cbn [ConnState_is_connected negb]. intros Hr.
  by apply (write_control_loop_groups clock commands ch f 0 0 ch' r).
Qed.
Definition sbo_channel : Iec61850Channel :=
  set_conn (set_framer (Iec61850Channel_new []
    [mkPointConfig 9 Control None (AddrIec61850 (mkIec61850Address "LD0" "GGIO1$CO$SPCSO2$Oper$ctlVal" 2)) linear_one None true])
    (Some (Framer_new [RData (wrap_data_pdu (read_response 1 (tlv 0xA1 (tlv DATA_VISIBLE_STRING [76]))));
                       RData (wrap_data_pdu (tlv 0xA1 (tlv 2 [2] ++ tlv 0xA5 [0x81; 0])))] []))) CsConnected.
Definition sbo_result := Iec61850Channel_write_control (fun _ => (0, 0)) sbo_channel [(9, f64_one)].
Lemma control_commands_safe_witness : exists ch' f0 exs f', sbo_result = Ret (ch', Ok 1%nat) /\ ic_framer sbo_channel = Some f0 /\
  happened f0 exs f' /\ control_groups (ic_ctrl_points sbo_channel) [(9, f64_one)] exs 1 false.
Proof.
  destruct sbo_result as [[ch' r]|] eqn:E; [|vm_compute in E; discriminate].
  assert (Hr : r = Ok 1%nat) by (vm_compute in E; congruence). subst r. unfold sbo_result in E.
  destruct (control_commands_safe (fun _ => (0, 0)) sbo_channel _ _ ch' (Ok 1%nat) eq_refl eq_refl E) as (exs & k & refused & f' & Hh & _ & Hg & Hk).
  destruct refused; [by destruct Hk as [e Hk] |]. injection Hk as <-. exists ch'. do 3 eexists. split; [reflexivity|]. split; [reflexivity|]. split; [exact Hh|]. exact Hg.
Defined.

(** * Report routing *)

(** Requests change nothing but the connection and the invoke id. *)
Definition io_only (ch ch' : Iec61850Channel) : Prop := exists n f, ch' = set_framer (set_invoke_id ch n) f.
#[export] Instance io_only_preorder : PreOrder io_only.
Proof.
  split.
  - intros ch. exists (ic_invoke_id ch), (ic_framer ch). by destruct ch.
  - intros a b c (n & f & ->) (m & g & ->). by exists m, g.
Qed.
Lemma io_only_next ch : io_only ch (next_invoke_id ch).1.
Proof. exists (succ_id (ic_invoke_id ch)), (ic_framer ch). by destruct ch. Qed.
Lemma io_only_request ch req ch' r : do_request_raw ch req = Ret (ch', r) -> io_only ch ch'.
Proof.
  destruct (ic_framer ch) as [f|] eqn:Hf.
  - intros H. destruct (do_request_happened ch f req ch' r Hf H) as (f' & -> & _). exists (ic_invoke_id ch), (Some f'). by destruct ch.
  - unfold do_request_raw. rewrite Hf. by intros [= <- <-].
Qed.
Lemma io_only_write ch req ch' r : do_write ch req = Ret (ch', r) -> io_only ch ch'.
Proof. unfold do_write. destruct (do_request_raw ch req) as [[ch2 r2]|] eqn:Hr; [|done]. intros [= <- <-]. by eapply io_only_request. Qed.
Lemma io_only_rcb ch domain base attr v ch' r : try_rcb_write_bool ch domain base attr v = Ret (ch', r) -> io_only ch ch'.
Proof.
  unfold try_rcb_write_bool. pose proof (io_only_next ch) as Hn. destruct (next_invoke_id ch) as [ch1 id]. cbn [fst] in Hn.
  destruct (do_write ch1 _) as [[ch2 r2]|] eqn:Hr; [|done]. intros [= <- <-]. etrans; [exact Hn | by eapply io_only_write].
Qed.
Lemma io_only_enable ch domain base ch' r : enable_rcb ch domain base = Ret (ch', r) -> io_only ch ch'.
Proof.
  unfold enable_rcb. destruct (try_rcb_write_bool ch _ _ _ _) as [[ch1 r1]|] eqn:H1; [|done]. apply io_only_rcb in H1. cbn [outcome_bind].
  destruct r1; [by intros [= <- <-] | | by intros [= <- <-]].
  destruct (try_rcb_write_bool ch1 _ _ _ _) as [[ch2 r2]|] eqn:H2; [|done]. apply io_only_rcb in H2. intros [= <- <-]. by etrans.
Qed.

(** The points a configuration covers. *)
Definition covers (ch : Iec61850Channel) (i : nat) (id : Z) : Prop :=
  exists c path x, ic_report_configs ch !! i = Some c /\ path ∈ rpc_dataset_members c /\ ic_path_to_point ch !! path = Some x /\ x.1.1 = id.
Definition skip_exact (ch : Iec61850Channel) : Prop :=
  forall id, id ∈ ic_report_skip_set ch <-> exists i, i ∈ ic_active_report_indices ch /\ covers ch i id.
Lemma skip_exact_io ch ch' : io_only ch ch' -> skip_exact ch -> skip_exact ch'.
Proof. by intros (n & f & ->). Qed.
Lemma activate_skip_exact ch i : skip_exact ch -> skip_exact (activate_report ch i).
Proof.
  intros Hs. unfold activate_report. case_bool_decide; [done|]. intros id. cbn. rewrite elem_of_union, (Hs id), elem_of_list_to_set, list_elem_of_omap.
  assert (Hc : (exists path, path ∈ from_option rpc_dataset_members [] (ic_report_configs ch !! i) /\
    ('(id, _, _) ← ic_path_to_point ch !! path; Some id) = Some id) <-> covers ch i id).
  { split.
    - intros (path & Hp & Hx). destruct (ic_report_configs ch !! i) as [c|] eqn:Hci; [|by apply elem_of_nil in Hp].
      destruct (ic_path_to_point ch !! path) as [[[id' ?] ?]|] eqn:Hpp; [|done]. injection Hx as <-. by exists c, path, (id', p, t).
    - intros (c & path & [[id' ?] ?] & Hci & Hp & Hpp & [= <-]). exists path. by rewrite Hci, Hpp. }
  rewrite Hc. setoid_rewrite elem_of_app. setoid_rewrite list_elem_of_singleton. split.
  - intros [(j & Hj & Hcov)|Hcov]; [exists j; split; [by left | exact Hcov] | exists i; split; [by right | exact Hcov]].
  - intros (j & [Hj| ->] & Hcov); [left; by exists j | by right].
Qed.

(** Active configurations have ids that were seen, all different. *)
Definition ids_distinct (ch : Iec61850Channel) (seen : gset string) : Prop :=
  (forall i c, i ∈ ic_active_report_indices ch -> ic_report_configs ch !! i = Some c -> exists id, rpt_id_of c = Some id /\ id ∈ seen) /\
  (forall i j c d id, i ∈ ic_active_report_indices ch -> j ∈ ic_active_report_indices ch -> ic_report_configs ch !! i = Some c ->
     ic_report_configs ch !! j = Some d -> rpt_id_of c = Some id -> rpt_id_of d = Some id -> i = j).
Lemma ids_distinct_io ch ch' seen : io_only ch ch' -> ids_distinct ch seen -> ids_distinct ch' seen.
Proof. by intros (n & f & ->). Qed.
Lemma ids_distinct_seen ch seen x : ids_distinct ch seen -> ids_distinct ch ({[x]} ∪ seen).
Proof. intros [H1 H2]. split; [|done]. intros i c Hi Hc. destruct (H1 i c Hi Hc) as (id & Hid & Hs). exists id. set_solver. Qed.
Lemma activate_ids_distinct ch i c id seen :
  ids_distinct ch seen -> ic_report_configs ch !! i = Some c -> rpt_id_of c = Some id -> id ∉ seen ->
  ids_distinct (activate_report ch i) ({[id]} ∪ seen).
Proof.
  intros [H1 H2] Hc Hid Hnew. unfold activate_report. case_bool_decide; [by apply ids_distinct_seen|]. split; cbn.
  - intros j d. rewrite elem_of_app, list_elem_of_singleton. intros [Hj| ->] Hd; [|exists id; set_solver].
    destruct (H1 j d Hj Hd) as (id' & Hid' & Hs). exists id'. set_solver.
  - intros j k d e id'. rewrite !elem_of_app, !list_elem_of_singleton. intros [Hj| ->] [Hk| ->] Hd He Hd' He'; try done.
    + by eapply H2.
    + destruct (H1 j d Hj Hd) as (? & ? & ?). simplify_eq; congruence.
    + destruct (H1 k e Hk He) as (? & ? & ?). simplify_eq; congruence.
Qed.

(** One subscription. *)
Lemma subscribe_one_inv ch i c domain base ch' :
  subscribe_one ch i c domain base = Ret ch' -> skip_exact ch ->
  skip_exact ch' /\ ic_report_configs ch' = ic_report_configs ch /\ ic_path_to_point ch' = ic_path_to_point ch /\
  (forall seen, length (ic_report_configs ch) <> 1%nat -> ids_distinct ch seen -> ic_report_configs ch !! i = Some c ->
     match rpt_id_of c with
     | Some id => id ∉ seen -> ids_distinct ch' ({[id]} ∪ seen)
     | None => ids_distinct ch' seen
     end) /\
  (forall j, j ∈ ic_active_report_indices ch' -> j ∈ ic_active_report_indices ch \/ j = i).
Proof.
  unfold subscribe_one. destruct (enable_rcb ch domain base) as [[ch1 r]|] eqn:He; [|done]. cbn [outcome_bind].
  pose proof (io_only_enable _ _ _ _ _ He) as Hio. intros Hr Hskip. pose proof (skip_exact_io _ _ Hio Hskip) as Hskip1.
  assert (Hf : ic_report_configs ch1 = ic_report_configs ch /\ ic_path_to_point ch1 = ic_path_to_point ch /\
    ic_active_report_indices ch1 = ic_active_report_indices ch) by (destruct Hio as (n & f & ->); done).
  destruct Hf as (Hrc & Hpp & Hact).
  destruct r as [resolved|]; [|injection Hr as <-; split_and!; try done].
  2: { intros seen _ Hd Hc. apply (ids_distinct_io _ _ seen Hio) in Hd. destruct (rpt_id_of c); [intros _; by apply ids_distinct_seen | done]. }
  2: { intros j Hj. left. by rewrite <- Hact. }
  set (ch2 := set_reports ch1 _ _ _) in Hr. assert (Hskip2 : skip_exact ch2) by exact Hskip1.
  match type of Hr with context [if ?b then activate_report ch2 i else ch2] => set (ch3 := if b then activate_report ch2 i else ch2) in Hr end.
  assert (Hskip3 : skip_exact ch3) by (unfold ch3; destruct (_ || _); [by apply activate_skip_exact | done]).
  assert (Hf3 : ic_report_configs ch3 = ic_report_configs ch /\ ic_path_to_point ch3 = ic_path_to_point ch)
    by (unfold ch3, activate_report; repeat case_match; done).
  pose proof (io_only_next ch3) as Hn. destruct (next_invoke_id ch3) as [ch4 id4]. cbn [fst] in Hn.
  destruct (do_write ch4 _) as [[ch5 r5]|] eqn:Hw; [|done]. injection Hr as <-. apply io_only_write in Hw.
  assert (Hio3 : io_only ch3 ch5) by by etrans. destruct Hf3 as [Hrc3 Hpp3]. split_and!.
  - by eapply skip_exact_io.
  - destruct Hio3 as (n & f & ->). exact Hrc3.
  - destruct Hio3 as (n & f & ->). exact Hpp3.
  - intros seen Hlen Hd Hc. apply (ids_distinct_io _ _ seen Hio) in Hd.
    assert (Hd2 : ids_distinct ch2 seen) by exact Hd. assert (Hc2 : ic_report_configs ch2 !! i = Some c) by (cbn; by rewrite Hrc).
    destruct (rpt_id_of c) as [id|] eqn:Hid.
    + intros Hnew. eapply ids_distinct_io; [exact Hio3|]. unfold ch3. cbn. by eapply activate_ids_distinct.
    + eapply ids_distinct_io; [exact Hio3|]. unfold ch3. cbn. rewrite Hrc, (proj2 (Nat.eqb_neq _ _)) by done. done.
  - intros j Hj. destruct Hio3 as (n & f & ->). cbn in Hj. revert Hj. unfold ch3, activate_report. rewrite <- Hact.
    repeat case_match; cbn; rewrite ?elem_of_app, ?list_elem_of_singleton; tauto.
Qed.
Lemma activate_nodup ch i : NoDup (ic_active_report_indices ch) -> NoDup (ic_active_report_indices (activate_report ch i)).
Proof.
  intros H. unfold activate_report. case_bool_decide; [done|]. cbn. apply NoDup_app. split; [done|]. split; [|apply NoDup_singleton].
  intros j Hj. rewrite list_elem_of_singleton. by intros ->.
Qed.
Lemma subscribe_one_nodup ch i c domain base ch' :
  subscribe_one ch i c domain base = Ret ch' -> NoDup (ic_active_report_indices ch) -> NoDup (ic_active_report_indices ch').
Proof.
  unfold subscribe_one. destruct (enable_rcb ch domain base) as [[ch1 r]|] eqn:He; [|done]. cbn [outcome_bind].
  apply io_only_enable in He as (n1 & f1 & ->). destruct r as [resolved|]; [|by intros [= <-]].
  match goal with |- context [if ?b then activate_report ?ch2 i else ?ch2] => set (ch3 := if b then activate_report ch2 i else ch2) end.
  pose proof (io_only_next ch3) as Hn. destruct (next_invoke_id ch3) as [ch4 id4]. cbn [fst] in Hn. destruct Hn as (n4 & f4 & ->).
  destruct (do_write _ _) as [[ch5 r5]|] eqn:Hw; [|done]. intros [= <-] Hd. apply io_only_write in Hw as (n5 & f5 & ->). cbn.
  unfold ch3. destruct (_ || _); [by apply activate_nodup | done].
Qed.

(** The whole loop. *)
Record loop_inv (several : bool) (ch : Iec61850Channel) (seen : gset string) : Prop := {
  li_skip : skip_exact ch;
  li_nodup : NoDup (ic_active_report_indices ch);
  li_ids : several = true -> ids_distinct ch seen;
}.
Lemma subscribe_loop_inv several work : forall ch seen ch',
  (several = true -> length (ic_report_configs ch) <> 1%nat) ->
  Forall (fun w => ic_report_configs ch !! w.1.1.1 = Some w.1.1.2) work -> subscribe_loop several ch work seen = Ret ch' -> loop_inv several ch seen ->
  ic_report_configs ch' = ic_report_configs ch /\ (exists seen', loop_inv several ch' seen') /\
  (forall j, j ∈ ic_active_report_indices ch' -> j ∈ ic_active_report_indices ch \/ j ∈ map (fun w => w.1.1.1) work).
Proof.
  induction work as [|[[[i c] domain] base] work IH]; intros ch seen ch' Hlen Hw; cbn [subscribe_loop].
  { intros [= <-] Hinv. split; [done|]. split; [by exists seen|]. by left. }
  apply Forall_cons in Hw as [Hc Hw]. cbn in Hc. destruct (admit_config several c seen) as [seen1|] eqn:Hadm.
  2: { intros Hr Hinv. destruct (IH _ _ _ Hlen Hw Hr Hinv) as (H1 & H2 & H3). split_and!; try done.
       intros j Hj. apply H3 in Hj. cbn [map]. rewrite elem_of_cons. tauto. }
  destruct (subscribe_one ch i c domain base) as [ch1|] eqn:Hone; [|done]. cbn [outcome_bind]. intros Hr [Hskip Hnd Hids].
  pose proof (subscribe_one_nodup _ _ _ _ _ _ Hone Hnd) as Hnd1.
  destruct (subscribe_one_inv _ _ _ _ _ _ Hone Hskip) as (Hskip1 & Hrc1 & _ & Hids1 & Hact1).
  destruct (IH ch1 seen1 ch') as (H1 & H2 & H3); try done; [by rewrite Hrc1 | by rewrite Hrc1 | |].
  { split; try done. intros ->. specialize (Hids1 seen (Hlen eq_refl) (Hids eq_refl) Hc). cbn in Hadm.
    destruct (rpt_id_of c) as [id|]; [|done]. cbn in Hadm. case_bool_decide; [done|]. injection Hadm as <-. by apply Hids1. }
  split_and!; [congruence | done |]. intros j Hj. cbn [map]. rewrite elem_of_cons. apply H3 in Hj as [Hj|]; [|tauto]. apply Hact1 in Hj. cbn. tauto.
Qed.
Lemma subscribe_work_configs configs : Forall (fun w => configs !! w.1.1.1 = Some w.1.1.2) (subscribe_work configs).
Proof.
  apply Forall_forall. intros [[[i c] d] b] Hw. unfold subscribe_work in Hw. apply list_elem_of_omap in Hw as ([j rc] & Hin & Hx).
  apply elem_of_lookup_imap in Hin as (k & y & [= -> ->] & Hk). cbn in Hx. destruct (split_rcb_ref (rpc_rcb_ref y)) as [[d' b']|]; [|done].
  by injection Hx as <- <- <- <-.
Qed.

Lemma rpt_id_of_trim c id : rpt_id_of c = Some id -> trim <$> rpc_rpt_id c = Some id.
Proof. unfold rpt_id_of. destruct (rpc_rpt_id c) as [s|]; [|done]. cbn. by destruct (String.eqb (trim s) EmptyString). Qed.
(** The configurations an exact match can find. *)
Lemma exact_match ch id :
  match head (omap (fun index => config ← ic_report_configs ch !! index;
    if bool_decide (trim <$> rpc_rpt_id config = Some id) then Some config else None) (ic_active_report_indices ch)) with
  | Some d => exists j, j ∈ ic_active_report_indices ch /\ ic_report_configs ch !! j = Some d /\ trim <$> rpc_rpt_id d = Some id
  | None => forall j d, j ∈ ic_active_report_indices ch -> ic_report_configs ch !! j = Some d -> trim <$> rpc_rpt_id d <> Some id
  end.
Proof.
  induction (ic_active_report_indices ch) as [|i is_ IH]; [intros j d Hj; by apply elem_of_nil in Hj|]. cbn [omap list_omap].
  destruct (ic_report_configs ch !! i) as [c|] eqn:Hc; cbn [mbind option_bind]; [case_bool_decide as Hid|].
  - cbn [head]. exists i. split; [by left | done].
  - destruct (head _); [destruct IH as (j & Hj & Hd); exists j; split; [by right | done]|].
    intros j d. rewrite elem_of_cons. intros [->|Hj] Hd; [by simplify_eq | by eapply IH].
  - destruct (head _); [destruct IH as (j & Hj & Hd); exists j; split; [by right | done]|].
    intros j d. rewrite elem_of_cons. intros [->|Hj] Hd; [by simplify_eq | by eapply IH].
Qed.

Lemma nodup_zero (l : list nat) : NoDup l -> 0%nat ∈ l -> (forall j, j ∈ l -> j = 0%nat) -> l = [0%nat].
Proof.
  intros Hnd H0 Hall. destruct l as [|a l]; [by apply elem_of_nil in H0|]. rewrite (Hall a ltac:(left)) in *. f_equal.
  destruct l as [|b l]; [done|]. exfalso. apply NoDup_cons in Hnd as [Hn _]. apply Hn. rewrite (Hall b) by (right; left). left.
Qed.
Lemma lookup_single {A} (l : list A) i x : l !! i = Some x -> ~ (1 < length l)%nat -> i = 0%nat /\ length l = 1%nat.
Proof. intros H Hl. apply lookup_lt_Some in H. lia. Qed.

(** Reports reach their dataset.  After subscribing, whatever the server answered, the
    points left out of polling are exactly those of the active configurations; the report of
    an active configuration is converted with that configuration's members and no other's: by
    its id, or, when it is the only configuration and has no id, whatever id the report has. *)
Theorem reports_reach_their_dataset ch ch' :
  subscribe_reports ch = Ret ch' ->
  skip_exact ch' /\
  forall i c, i ∈ ic_active_report_indices ch' -> ic_report_configs ch' !! i = Some c ->
    (forall id, rpt_id_of c = Some id -> report_config_for_rpt_id ch' id = Some c) /\
    (rpt_id_of c = None -> length (ic_report_configs ch') = 1%nat /\ forall id, report_config_for_rpt_id ch' id = Some c).
Proof.
  unfold subscribe_reports. set (ch0 := set_reports ch [] [] ∅). intros Hr.
  assert (Hinv0 : loop_inv (1 <? length (ic_report_configs ch0))%nat ch0 ∅).
  { split; [|constructor|].
    - intros id. split; [intros H; cbn in H; set_solver|]. intros (i & Hi & _). by apply elem_of_nil in Hi.
    - intros _. split; [intros i c Hi; by apply elem_of_nil in Hi | intros i j c d id Hi; by apply elem_of_nil in Hi]. }
  assert (Hl : (1 <? length (ic_report_configs ch0))%nat = true -> length (ic_report_configs ch0) <> 1%nat) by (intros H; apply Nat.ltb_lt in H; lia).
  destruct (subscribe_loop_inv _ _ _ _ _ Hl (subscribe_work_configs _) Hr Hinv0) as (Hrc & (seen & [Hskip Hnd Hids]) & Hact).
  split; [done|]. intros i c Hi Hc. unfold report_config_for_rpt_id. rewrite <- Hrc in Hids.
  destruct (Nat.ltb_spec 1 (length (ic_report_configs ch'))) as [Hlt|Hle].
  - specialize (Hids eq_refl). destruct Hids as [Hid1 Hid2]. destruct (Hid1 i c Hi Hc) as (id0 & Hid0 & _). split; [|congruence].
    intros id Hid. pose proof (exact_match ch' id) as Hx. destruct (head _) as [d|].
    + destruct Hx as (j & Hj & Hd & Htr). destruct (Hid1 j d Hj Hd) as (id' & Hid' & _). pose proof (rpt_id_of_trim _ _ Hid') as Htr'.
      assert (id' = id) by congruence. subst id'. assert (j = i) by by eapply Hid2. subst j. congruence.
    + exfalso. by apply (Hx i c Hi Hc), rpt_id_of_trim.
  - assert (Hz : forall j, j ∈ ic_active_report_indices ch' -> j = 0%nat).
    { intros j Hj. apply Hact in Hj as [Hj|Hj]; [by apply elem_of_nil in Hj|]. apply list_elem_of_fmap in Hj as (w & -> & Hw).
      pose proof (subscribe_work_configs (ic_report_configs ch0)) as Hall. rewrite Forall_forall in Hall. apply Hall in Hw.
      rewrite <- Hrc in Hw. apply (lookup_single _ _ _ Hw). lia. }
    pose proof (Hz i Hi) as ->. destruct (lookup_single _ _ _ Hc) as [_ Hlen]; [lia|].
    pose proof (nodup_zero _ Hnd Hi Hz) as Hact0.
    assert (Hany : forall id, (rpt_id_of c = None \/ rpt_id_of c = Some id) -> report_config_for_rpt_id ch' id = Some c).
    { intros id Hid. unfold report_config_for_rpt_id. pose proof (exact_match ch' id) as Hx. destruct (head _) as [d|].
      - destruct Hx as (j & Hj & Hd & _). rewrite (Hz j Hj) in Hd. congruence.
      - rewrite Hact0, Hc. cbn. destruct Hid as [-> |Hid]; [done|]. exfalso. by apply (Hx 0%nat c Hi Hc), rpt_id_of_trim. }
    split; [intros id Hid; apply Hany; by right | intros Hnone; split; [done|]; intros id; apply Hany; by left].
Qed.
Definition report_channel : Iec61850Channel :=
  let point id pt item := mkPointConfig id pt None (AddrIec61850 (Iec61850Address_new "LD0" item)) linear_one None true in
  set_conn (set_framer (Iec61850Channel_new
    [mkReportConfig "LD0/LLN0$BR$Events" (Some " Events ") ["LD0/GGIO1$MX$AnIn1$mag$f"]]
    [point 1 Telemetry "GGIO1$MX$AnIn1$mag$f"; point 1 Signal "GGIO1$ST$Ind1$stVal"])
    (Some (Framer_new [RData (wrap_data_pdu (tlv 0xA1 (tlv 2 [1] ++ tlv 0xA5 [0x81; 0])));
                       RData (wrap_data_pdu (tlv 0xA1 (tlv 2 [2] ++ tlv 0xA5 [0x81; 0])))] []))) CsConnected.
Lemma reports_reach_their_dataset_witness : exists ch', subscribe_reports report_channel = Ret ch' /\
  skip_exact ch' /\ ic_active_report_indices ch' = [0%nat] /\
  (rpc_rcb_ref <$> report_config_for_rpt_id ch' "Events") = Some "LD0/LLN0$BR$Events".
Proof.
  destruct (subscribe_reports report_channel) as [ch'|] eqn:E; [|vm_compute in E; discriminate]. exists ch'.
  destruct (reports_reach_their_dataset report_channel ch' E) as [Hs Hr]. vm_compute in E. injection E as E.
  split; [reflexivity|]. split; [exact Hs|]. split; [by rewrite <- E|].
  destruct (Hr 0%nat (mkReportConfig "LD0/LLN0$BR$Events" (Some " Events ") ["LD0/GGIO1$MX$AnIn1$mag$f"])) as [Hid _].
  - rewrite <- E. left.
  - by rewrite <- E.
  - rewrite (Hid "Events"); [reflexivity | vm_compute; reflexivity].
Defined.

Lemma io_only_read ch id domain item ch' r : read_variable ch id domain item = Ret (ch', r) -> io_only ch ch'.
Proof.
  unfold read_variable. destruct (do_request_raw ch _) as [[ch2 r2]|] eqn:Hr; [|done]. cbn [outcome_bind]. apply io_only_request in Hr.
  destruct r2 as [resp|]; [|by intros [= <- <-]]. destruct (parse_read_response resp); [|done]. by intros [= <- <-].
Qed.
Lemma poll_skips_id p ps1 ps2 : forall ch,
  pe_id p ∈ ic_report_skip_set ch -> poll_points ch (ps1 ++ p :: ps2) = poll_points ch (ps1 ++ ps2).
Proof.
  induction ps1 as [|q ps1 IH]; intros ch Hp; cbn [app poll_points].
  - by rewrite bool_decide_eq_true_2.
  - case_bool_decide; [by apply IH|]. pose proof (io_only_next ch) as Hn. destruct (next_invoke_id ch) as [ch1 id]. cbn [fst] in Hn.
    destruct (read_variable ch1 id (pe_domain q) (pe_item q)) as [[ch2 r]|] eqn:Hr; [|done]. cbn [outcome_bind]. apply io_only_read in Hr.
    assert (Hio : io_only ch ch2) by by etrans. assert (Hp2 : pe_id p ∈ ic_report_skip_set ch2) by by destruct Hio as (n & f & ->).
    by rewrite (IH ch2 Hp2).
Qed.

(** Coverage is by point id alone.  Once a report covers one point of an id, a poll does the
    same with and without any other point of that id - a signal beside a covered telemetry
    point of the same number, which no report delivers, is never read again. *)
Theorem covered_id_hides_other_points ch i c path x p ps1 ps2 :
  ic_report_configs ch !! i = Some c -> path ∈ rpc_dataset_members c -> ic_path_to_point ch !! path = Some x ->
  i ∉ ic_active_report_indices ch -> pe_id p = x.1.1 ->
  poll_points (activate_report ch i) (ps1 ++ p :: ps2) = poll_points (activate_report ch i) (ps1 ++ ps2).
Proof.
  intros Hc Hpath Hx Hi Hid. apply poll_skips_id. unfold activate_report. rewrite bool_decide_eq_false_2 by done. cbn.
  rewrite elem_of_union, elem_of_list_to_set, list_elem_of_omap. right. exists path. rewrite Hc, Hx, Hid. by destruct x as [[? ?] ?].
Qed.
Lemma covered_id_hides_other_points_witness :
  exists p, pe_point_type p = Signal /\ p ∈ ic_points report_channel /\ ~ (point_path p ∈ ["LD0/GGIO1$MX$AnIn1$mag$f"]) /\
    poll_points (activate_report report_channel 0) [p] = poll_points (activate_report report_channel 0) [].
Proof.
  exists (mkPointEntry "LD0" "GGIO1$ST$Ind1$stVal" 1 Signal linear_one). split; [reflexivity|]. split; [right; left|].
  split; [apply (bool_decide_unpack _); vm_compute; exact I|].
  apply (covered_id_hides_other_points report_channel 0 (mkReportConfig "LD0/LLN0$BR$Events" (Some " Events ") ["LD0/GGIO1$MX$AnIn1$mag$f"])
    "LD0/GGIO1$MX$AnIn1$mag$f" (1, Telemetry, linear_one) _ [] []).
  - reflexivity.
  - left.
  - vm_compute. reflexivity.
  - apply (bool_decide_unpack _). vm_compute. exact I.
  - reflexivity.
Defined.

(** The configured transform of a command point has no effect: the channel is the same
    whatever scale, offset or inversion a control or adjustment point has, so an inverted
    switch is operated the wrong way round and a scaled set point is written unscaled, while
    the readings of the same quantities are transformed. *)
Theorem command_transform_ignored reports pts1 p t pts2 :
  pc_point_type p = Control \/ pc_point_type p = Adjustment ->
  Iec61850Channel_new reports (pts1 ++ PointConfig_with_transform p t :: pts2) = Iec61850Channel_new reports (pts1 ++ p :: pts2).
Proof.
  intros Hp. unfold Iec61850Channel_new. rewrite !foldl_app. cbn [foldl].
  assert (Heq : forall acc, place_point acc (PointConfig_with_transform p t) = place_point acc p).
  { intros [[poll ctrl] adj]. unfold place_point. cbn. destruct Hp as [-> | ->]; done. }
  by rewrite Heq.
Qed.
Lemma command_transform_ignored_witness :
  let p := mkPointConfig 9 Control None (AddrIec61850 (mkIec61850Address "LD0" "GGIO1$CO$SPCSO2$Oper$ctlVal" 1)) (with_reverse true) None true in
  Iec61850Channel_new [] [PointConfig_with_transform p (with_reverse false)] = Iec61850Channel_new [] [p].
Proof. intros p. apply (command_transform_ignored [] [] p (with_reverse false) []). left. reflexivity. Defined.
