(* ===== verification/Crc16.v ===== *)
(** CRC-16/MODBUS: [crc16_modbus] of [services/comsrv/src/protocols/adapters/voltage_485.rs],
    and what a receiver that compares it can rely on.

    The register is shifted one bit per step.  A step is linear for exclusive or and
    undoes a doubling, so a whole message is one number, its little-endian value: the CRC
    is that number, added to the initial register, after as many steps as it has bits.
    Error detection follows from what the steps do to the difference of two messages. *)
From stdpp Require Import base numbers list.
From Stdlib Require Import ZArith Lia.
From S2P Require Import Prelude.
Local Open Scope Z_scope.

(** * The function *)

(** One turn of the inner loop. *)
Definition crc_shift (crc : Z) : Z :=
  if negb (Z.land crc 1 =? 0) then Z.lxor (Z.shiftr crc 1) 0xA001 else Z.shiftr crc 1.
Definition crc_steps (n : nat) (crc : Z) : Z := Nat.iter n crc_shift crc.
Definition crc_byte (crc b : Z) : Z := crc_steps 8 (Z.lxor crc b).
Definition crc16_modbus (data : list Z) : Z := fold_left crc_byte data 0xFFFF.

(** * Steps *)

Lemma crc_shift_odd x : crc_shift x = Z.lxor (Z.shiftr x 1) (if Z.odd x then 0xA001 else 0).
Proof.
  unfold crc_shift. change 1 with (Z.ones 1) at 1. rewrite Z.land_ones, <- Z.bit0_mod, Z.bit0_odd by lia.
  destruct (Z.odd x); cbn [Z.b2z Z.eqb negb]; [done | by rewrite Z.lxor_0_r].
Qed.

Lemma odd_lxor x y : Z.odd (Z.lxor x y) = xorb (Z.odd x) (Z.odd y).
Proof. by rewrite <- !Z.bit0_odd, Z.lxor_spec. Qed.

(** Exclusive or, four terms rearranged. *)
Lemma lxor_swap a b c d : Z.lxor (Z.lxor a b) (Z.lxor c d) = Z.lxor (Z.lxor a c) (Z.lxor b d).
Proof. rewrite !Z.lxor_assoc. f_equal. by rewrite <- !Z.lxor_assoc, (Z.lxor_comm b c). Qed.

Lemma crc_shift_lxor x y : crc_shift (Z.lxor x y) = Z.lxor (crc_shift x) (crc_shift y).
Proof.
  rewrite !crc_shift_odd, Z.shiftr_lxor, odd_lxor, lxor_swap. f_equal. by destruct (Z.odd x), (Z.odd y).
Qed.

Lemma crc_shift_double y : crc_shift (2 * y) = y.
Proof.
  rewrite crc_shift_odd, Z.odd_mul. cbn [Z.odd andb]. rewrite Z.lxor_0_r, Z.shiftr_div_pow2 by lia.
  by rewrite Z.mul_comm, Z.div_mul.
Qed.

Lemma lxor_uint w x y : 0 <= w -> is_uint w x -> is_uint w y -> is_uint w (Z.lxor x y).
Proof.
  intros Hw Hx Hy. unfold is_uint in *. assert (Hn : 0 <= Z.lxor x y) by (apply Z.lxor_nonneg; lia). split; [done |].
  destruct (Z.eq_dec (Z.lxor x y) 0) as [-> | Hz]; [by apply Z.pow_pos_nonneg |]. apply Z.log2_lt_pow2; [lia |].
  assert (Hlog : forall z, 0 <= z < 2 ^ w -> z = 0 \/ Z.log2 z < w).
  { intros z Hr. destruct (Z.eq_dec z 0); [by left | right; apply Z.log2_lt_pow2; lia]. }
  pose proof (Z.log2_lxor x y ltac:(lia) ltac:(lia)) as Hlx. destruct (Hlog x Hx) as [-> |], (Hlog y Hy) as [-> |];
    rewrite ?Z.lxor_0_l, ?Z.lxor_0_r in *; [done | lia ..].
Qed.

Lemma crc_shift_u16 x : is_uint 16 x -> is_uint 16 (crc_shift x).
Proof.
  intros Hx. rewrite crc_shift_odd. apply lxor_uint; [done | | destruct (Z.odd x); unfold is_uint; lia].
  unfold is_uint in *. rewrite Z.shiftr_div_pow2 by lia. split; [apply Z.div_pos; lia | apply Z.div_lt_upper_bound; lia].
Qed.

Lemma crc_shift_zero x : is_uint 16 x -> crc_shift x = 0 -> x = 0.
Proof.
  intros Hx. rewrite crc_shift_odd. intros He%Z.lxor_eq. rewrite Z.shiftr_div_pow2 in He by lia.
  change (2 ^ 1) with 2 in He. unfold is_uint in Hx. pose proof (Z.div_mod x 2 ltac:(lia)) as Hd. rewrite He in Hd.
  pose proof (Zmod_odd x) as Ho. destruct (Z.odd x); lia.
Qed.

Lemma crc_steps_S n x : crc_steps (S n) x = crc_steps n (crc_shift x).
Proof. apply Nat.iter_succ_r. Qed.

Lemma crc_steps_add n m x : crc_steps (n + m) x = crc_steps n (crc_steps m x).
Proof. apply Nat.iter_add. Qed.

Lemma crc_steps_lxor n x y : crc_steps n (Z.lxor x y) = Z.lxor (crc_steps n x) (crc_steps n y).
Proof. revert x y. induction n as [|n IH]; intros x y; [done |]. by rewrite !crc_steps_S, crc_shift_lxor, IH. Qed.

Lemma crc_steps_pow n y : crc_steps n (2 ^ Z.of_nat n * y) = y.
Proof.
  induction n as [|n IH]; [by rewrite Z.mul_1_l |]. rewrite crc_steps_S, Nat2Z.inj_succ, Z.pow_succ_r, <- Z.mul_assoc by lia.
  by rewrite crc_shift_double.
Qed.

Lemma crc_steps_u16 n x : is_uint 16 x -> is_uint 16 (crc_steps n x).
Proof. revert x. induction n as [|n IH]; intros x Hx; [done |]. rewrite crc_steps_S. by apply IH, crc_shift_u16. Qed.

Lemma crc_steps_zero n x : is_uint 16 x -> crc_steps n x = 0 -> x = 0.
Proof.
  revert x. induction n as [|n IH]; intros x Hx; [done |]. rewrite crc_steps_S. intros H.
  by apply crc_shift_zero, IH; [| apply crc_shift_u16 |].
Qed.

(** * The closed form *)

Lemma from_le_bytes_lxor b bs : is_uint 8 b -> from_le_bytes (b :: bs) = Z.lxor b (2 ^ 8 * from_le_bytes bs).
Proof.
  intros Hb. replace (2 ^ 8 * from_le_bytes bs) with (Z.shiftl (from_le_bytes bs) 8) by (rewrite Z.shiftl_mul_pow2; lia).
  rewrite Z.lxor_comm, Z.lxor_lor; [rewrite lor_shiftl_add by done; cbn [from_le_bytes]; lia |].
  apply Z.bits_inj'. intros i Hi. rewrite Z.land_spec, Z.bits_0, Z.shiftl_spec by done.
  destruct (Z.lt_ge_cases i 8); [by rewrite Z.testbit_neg_r by lia |]. rewrite <- (Z.mod_small b (2 ^ 8)) by done.
  by rewrite Z.mod_pow2_bits_high, andb_false_r by lia.
Qed.

Lemma crc_fold data s : is_bytes data ->
  fold_left crc_byte data s = crc_steps (8 * length data) (Z.lxor s (from_le_bytes data)).
Proof.
  intros Hd. revert s. induction Hd as [|b data Hb _ IH]; intros s; [by rewrite Z.lxor_0_r |].
  cbn [fold_left]. rewrite IH, from_le_bytes_lxor by done. unfold crc_byte at 1.
  rewrite <- (crc_steps_pow 8 (from_le_bytes data)) at 1. change (2 ^ Z.of_nat 8) with (2 ^ 8).
  rewrite <- crc_steps_lxor, <- crc_steps_add, Z.lxor_assoc. f_equal. cbn [length]. lia.
Qed.

Lemma crc16_closed data : is_bytes data ->
  crc16_modbus data = crc_steps (8 * length data) (Z.lxor 0xFFFF (from_le_bytes data)).
Proof. apply crc_fold. Qed.

Lemma crc16_u16 data : is_bytes data -> is_uint 16 (crc16_modbus data).
Proof.
  unfold crc16_modbus. assert (H : is_uint 16 0xFFFF) by done. revert H. generalize 0xFFFF. intros s Hs Hd. revert s Hs.
  induction Hd as [|b data Hb _ IH]; intros s Hs; [done |]. cbn [fold_left]. apply IH, crc_steps_u16, lxor_uint; [done | done |].
  unfold is_uint in *. lia.
Qed.

Lemma from_le_bytes_app xs ys : is_bytes xs -> is_bytes ys ->
  from_le_bytes (xs ++ ys) = Z.lxor (from_le_bytes xs) (2 ^ Z.of_nat (8 * length xs) * from_le_bytes ys).
Proof.
  intros Hx Hy. induction Hx as [|b xs Hb Hx IH]; [by rewrite Z.lxor_0_l, Z.mul_1_l |].
  rewrite <- app_comm_cons, !from_le_bytes_lxor, IH, Z.lxor_assoc by done. f_equal.
  replace (Z.of_nat (8 * length (b :: xs))) with (8 + Z.of_nat (8 * length xs)) by (cbn [length]; lia).
  rewrite Z.pow_add_r, <- Z.mul_assoc, !(Z.mul_comm (2 ^ 8)), <- !Z.shiftl_mul_pow2, Z.shiftl_lxor by lia. done.
Qed.

(** The register after a message and the CRC sent with it. *)
Definition syndrome (body sent : list Z) : Z := crc_steps (8 * length body) (Z.lxor 0xFFFF (from_le_bytes (body ++ sent))).

Lemma crc_check body sent : is_bytes body -> is_bytes sent -> crc16_modbus body = from_le_bytes sent <-> syndrome body sent = 0.
Proof.
  intros Hb Hs. unfold syndrome. rewrite crc16_closed, from_le_bytes_app, <- Z.lxor_assoc, (crc_steps_lxor _ (Z.lxor _ _)), crc_steps_pow by done.
  symmetry. apply Z.lxor_eq_0_iff.
Qed.

(** Two messages with their CRCs pass the check only when their difference vanishes. *)
Lemma undetected body sent body' sent' : length body = length body' -> syndrome body sent = 0 -> syndrome body' sent' = 0 ->
  crc_steps (8 * length body) (Z.lxor (from_le_bytes (body ++ sent)) (from_le_bytes (body' ++ sent'))) = 0.
Proof.
  unfold syndrome. intros Hl H H'. rewrite <- Hl in H'. rewrite crc_steps_lxor in H, H' |- *. apply Z.lxor_eq in H, H'.
  rewrite <- H, <- H'. apply Z.lxor_nilpotent.
Qed.

(** * Errors that are always detected *)

Lemma crc_steps_shifted n k e : crc_steps n (2 ^ Z.of_nat k * e) = 0 -> e = 0 \/ exists m, crc_steps m e = 0 /\ (m + k = n)%nat.
Proof.
  intros H. destruct (Nat.le_gt_cases n k) as [Hk | Hk].
  - replace (Z.of_nat k) with (Z.of_nat n + Z.of_nat (k - n)) in H by lia. rewrite Z.pow_add_r, <- Z.mul_assoc, crc_steps_pow in H by lia.
    left. assert (0 < 2 ^ Z.of_nat (k - n)) by (apply Z.pow_pos_nonneg; lia). nia.
  - right. exists (n - k)%nat. split; [| lia]. replace n with ((n - k) + k)%nat in H by lia. by rewrite crc_steps_add, crc_steps_pow in H.
Qed.

(** Bursts of at most 16 bits. *)
Lemma burst_visible n k e : 0 < e < 2 ^ 16 -> crc_steps n (2 ^ Z.of_nat k * e) <> 0.
Proof.
  intros He H. apply crc_steps_shifted in H as [-> | (m & H & _)]; [lia |]. apply crc_steps_zero in H; [lia |]. unfold is_uint. lia.
Qed.

(** Pairs of bits: the register started at 1 does not return to 1 within 32766 steps. *)
Fixpoint avoids_one (n : nat) (x : Z) : bool :=
  match n with
  | O => true
  | S n => let x := crc_shift x in negb (x =? 1) && avoids_one n x
  end.

Lemma avoids_one_steps n : forall x d, avoids_one n x = true -> (0 < d <= n)%nat -> crc_steps d x <> 1.
Proof.
  induction n as [|n IH]; intros x d Ha Hd; [lia |]. cbn [avoids_one] in Ha. apply andb_prop in Ha as [Hx%negb_true_iff%Z.eqb_neq Ha].
  destruct d as [|d]; [lia |]. rewrite crc_steps_S. destruct d as [|d]; [done |]. apply IH; [done | lia].
Qed.

Lemma order_of_one : avoids_one (Z.to_nat 32766) 1 = true.
Proof. vm_compute. reflexivity. Qed.

Lemma pair_visible n k d : (0 < d)%nat -> Z.of_nat d < 32767 -> crc_steps n (2 ^ Z.of_nat k * Z.lxor 1 (2 ^ Z.of_nat d)) <> 0.
Proof.
  intros Hd Hmax H. assert (Hone : crc_steps d 1 <> 1) by (apply (avoids_one_steps _ _ _ order_of_one); lia).
  assert (Hdiff : crc_steps d (Z.lxor 1 (2 ^ Z.of_nat d)) <> 0).
  { rewrite crc_steps_lxor, <- (Z.mul_1_r (2 ^ _)), crc_steps_pow. by intros ?%Z.lxor_eq. }
  assert (H0 : forall j, crc_steps j 0 = 0) by (intros j; by rewrite <- (Z.mul_0_r (2 ^ Z.of_nat j)) at 1; rewrite crc_steps_pow).
  apply crc_steps_shifted in H as [He | (m & H & _)]; [by rewrite He, H0 in Hdiff |]. destruct (Nat.le_gt_cases m d) as [Hm | Hm].
  - apply Hdiff. replace d with ((d - m) + m)%nat at 1 by lia. by rewrite crc_steps_add, H.
  - replace m with ((m - d) + d)%nat in H by lia. rewrite crc_steps_add in H. apply Hdiff, (crc_steps_zero (m - d)); [| done].
    rewrite crc_steps_lxor, <- (Z.mul_1_r (2 ^ _)), crc_steps_pow. apply lxor_uint; [done | by apply crc_steps_u16 | done].
Qed.

(** An odd number of bits: a step keeps the parity of the set bits, since the polynomial
    word has three of them and takes the place of one. *)
Fixpoint pos_parity (p : positive) : bool :=
  match p with xH => true | xO p => pos_parity p | xI p => negb (pos_parity p) end.
Definition parity (x : Z) : bool := match x with Zpos p => pos_parity p | _ => false end.

Lemma parity_double x : 0 <= x -> parity (2 * x) = parity x.
Proof. by destruct x. Qed.

Lemma parity_Ndouble n : parity (Z.of_N (Pos.Ndouble n)) = parity (Z.of_N n).
Proof. by destruct n. Qed.

Lemma parity_Nsucc_double n : parity (Z.of_N (Pos.Nsucc_double n)) = negb (parity (Z.of_N n)).
Proof. by destruct n. Qed.

Lemma parity_lxor x y : 0 <= x -> 0 <= y -> parity (Z.lxor x y) = xorb (parity x) (parity y).
Proof.
  intros Hx Hy. destruct x as [|p|p], y as [|q|q]; try lia; try done; [by rewrite Z.lxor_0_r, xorb_false_r |]. cbn [parity].
  assert (H : parity (Z.of_N (Pos.lxor p q)) = xorb (pos_parity p) (pos_parity q)); [| exact H].
  clear Hx Hy. revert q. induction p as [p IH|p IH|]; intros [q|q|]; cbn [pos_parity]; unfold Pos.lxor; fold Pos.lxor;
    rewrite ?parity_Ndouble, ?parity_Nsucc_double, ?IH; cbn [Z.of_N parity pos_parity]; try done.
  all: repeat match goal with |- context [pos_parity ?r] => destruct (pos_parity r) end; done.
Qed.

Lemma parity_half x : 0 <= x -> parity x = xorb (parity (Z.shiftr x 1)) (Z.odd x).
Proof. rewrite <- Z.div2_spec. destruct x as [|[p|p|]|p]; cbn; try lia; try done; intros _; by destruct (pos_parity p). Qed.

Lemma parity_steps n x : 0 <= x -> parity (crc_steps n x) = parity x.
Proof.
  revert x. induction n as [|n IH]; intros x Hx; [done |]. rewrite crc_steps_S, crc_shift_odd.
  assert (Hs : 0 <= Z.shiftr x 1) by by apply Z.shiftr_nonneg. assert (Ho : 0 <= (if Z.odd x then 0xA001 else 0)) by by destruct (Z.odd x).
  rewrite IH, parity_lxor, (parity_half x) by (done || by apply Z.lxor_nonneg). f_equal. by destruct (Z.odd x).
Qed.

(** The message bits at these positions are inverted. *)
Definition flips (ps : list nat) : Z := foldr (fun i => Z.lxor (2 ^ Z.of_nat i)) 0 ps.

Lemma flips_nonneg ps : 0 <= flips ps.
Proof. induction ps as [|i ps IH]; [done |]. apply Z.lxor_nonneg. fold (flips ps). assert (0 <= 2 ^ Z.of_nat i) by (apply Z.pow_nonneg; lia). tauto. Qed.

Lemma parity_flips ps : parity (flips ps) = Nat.odd (length ps).
Proof.
  induction ps as [|i ps IH]; [done |]. cbn [flips foldr length]. rewrite parity_lxor; [| apply Z.pow_nonneg; lia | apply flips_nonneg].
  fold (flips ps). rewrite IH, Nat.odd_succ, <- Nat.negb_odd.
  assert (Hp : parity (2 ^ Z.of_nat i) = true).
  { clear. induction i as [|i IH]; [done |]. rewrite Nat2Z.inj_succ, Z.pow_succ_r, parity_double by lia. exact IH. }
  rewrite Hp. by destruct (Nat.odd _).
Qed.

Lemma odd_visible n ps : Nat.odd (length ps) = true -> crc_steps n (flips ps) <> 0.
Proof. rewrite <- parity_flips, <- (parity_steps n (flips ps)) by apply flips_nonneg. by intros H Hz; rewrite Hz in H. Qed.

(** The errors the check is guaranteed to see: a burst of at most 16 bits, two bits fewer
    than 32767 apart, any odd number of bits. *)
Inductive line_error : Z -> Prop :=
| err_burst k e : 0 < e < 2 ^ 16 -> line_error (2 ^ Z.of_nat k * e)
| err_pair i j : (i < j)%nat -> Z.of_nat j - Z.of_nat i < 32767 -> line_error (flips [i; j])
| err_odd ps : Nat.odd (length ps) = true -> line_error (flips ps).

Lemma line_error_visible n e : line_error e -> crc_steps n e <> 0.
Proof.
  destruct 1 as [k e He | i j Hij Hd | ps Ho]; [by apply burst_visible | | by apply odd_visible].
  cbn [flips foldr]. rewrite Z.lxor_0_r. replace (Z.of_nat j) with (Z.of_nat i + Z.of_nat (j - i)) by lia.
  rewrite Z.pow_add_r, <- (Z.mul_1_r (2 ^ Z.of_nat i)) at 1 by lia.
  replace (Z.lxor _ _) with (2 ^ Z.of_nat i * Z.lxor 1 (2 ^ Z.of_nat (j - i))); [apply pair_visible; lia |].
  rewrite !(Z.mul_comm (2 ^ Z.of_nat i)), <- !Z.shiftl_mul_pow2, Z.shiftl_lxor by lia. done.
Qed.

(** The error may start anywhere in the message or in the CRC sent with it. *)
Lemma line_error_detected body sent body' sent' k e : length body = length body' -> is_bytes body -> is_bytes sent -> is_bytes body' -> is_bytes sent' ->
  crc16_modbus body = from_le_bytes sent ->
  Z.lxor (from_le_bytes (body ++ sent)) (from_le_bytes (body' ++ sent')) = 2 ^ Z.of_nat k * e -> line_error e ->
  crc16_modbus body' <> from_le_bytes sent'.
Proof.
  intros Hl Hb Hs Hb' Hs' Hok Hd He Hok'. apply crc_check in Hok; [| done ..]. apply crc_check in Hok'; [| done ..].
  pose proof (undetected _ _ _ _ Hl Hok Hok') as Hu. rewrite Hd in Hu. apply crc_steps_shifted in Hu as [-> | (m & Hm & _)].
  - by apply (line_error_visible 0 0).
  - by apply (line_error_visible m e).
Qed.
