(* ===== verification/Voltage485.v ===== *)
(** The Voltage-485 channel of comsrv: [services/comsrv/src/protocols/adapters/voltage_485.rs],
    and the factory [create_voltage_485_channel] of [core/channels/factory.rs].

    The serial port is what it will do: the bytes already on the line, and for every write
    that follows how the write ends and what arrives before the next one.  A timeout is an
    [RIdle] event, or the end of what arrives; the end of the stream is an empty chunk.
    [serde_json] is a parameter, as far as it says which JSON a text is.  Log lines and the
    pauses between frames are left out; messages of errors are constructors. *)
From stdpp Require Import base numbers list gmap strings.
From Stdlib Require Import ZArith Lia.
From S2P Require Import Prelude PointTypes Routing Registers Listener Reconnect ChannelTask Modbus ModbusPoints MmsTransport Crc16.
Local Open Scope Z_scope.
Set Warnings "-clear-no-such-hyp".

(** * Frames *)

Definition FRAME_HEADER : list Z := [0x5A; 0xA5].
Definition CMD_QUERY_DEVICE : Z := 0x01.
Definition MAX_FRAME_SIZE : Z := 264.

Inductive V485Fault :=
| FrameTooShort (n : nat)
| BadHeader (b0 b1 : Z)
| FrameLengthMismatch (need got : nat)
| CrcMismatch (calc recv : Z)
| UnexpectedDataLength (n : nat)
| BadResponseHeader (b0 b1 : Z)
| InvalidResponseLen (n : Z)
| UnknownError.
Inductive V485Error := V485Io | V485ReadTimeout | V485WriteTimeout | V485NotConnected | V485Connection | V485Protocol (f : V485Fault).

Definition build_request (device_id cmd : Z) : list Z :=
  let crc_input := [2; device_id; cmd] in
  let crc := crc16_modbus crc_input in
  FRAME_HEADER ++ crc_input ++ [wrap 8 (Z.land crc 0xFF); wrap 8 (Z.shiftr crc 8)].

Record DeviceResponse := mkDeviceResponse { dr_device_id : Z; dr_cmd : option Z; dr_power_mw : Z }.

(** The indices below are within the slice wherever the guards let them be read. *)
Definition byte_at (bs : list Z) (i : nat) : Z := nth i bs 0.
Definition bad_header (frame : list Z) : bool :=
  negb (byte_at frame 0 =? byte_at FRAME_HEADER 0) || negb (byte_at frame 1 =? byte_at FRAME_HEADER 1).
Definition power_of (h l : Z) : Z := Z.lor (wrap 16 (Z.shiftl h 8)) l.

Definition parse_response (frame : list Z) : result DeviceResponse V485Error :=
  if (length frame <? 8)%nat then Err (V485Protocol (FrameTooShort (length frame)))
  else if bad_header frame then Err (V485Protocol (BadHeader (byte_at frame 0) (byte_at frame 1)))
  else
    let len := Z.to_nat (byte_at frame 2) in
    let expected_total := (2 + 1 + len + 2)%nat in
    if (length frame <? expected_total)%nat then Err (V485Protocol (FrameLengthMismatch expected_total (length frame)))
    else
      let crc_data := take (1 + len) (drop 2 frame) in
      let crc_calc := crc16_modbus crc_data in
      let crc_rx := from_le_bytes [byte_at frame (3 + len); byte_at frame (3 + len + 1)] in
      if negb (crc_calc =? crc_rx) then Err (V485Protocol (CrcMismatch crc_calc crc_rx))
      else
        let data := take len (drop 3 frame) in
        if (len =? 3)%nat then Ok (mkDeviceResponse (byte_at data 0) None (power_of (byte_at data 1) (byte_at data 2)))
        else if (4 <=? len)%nat then
          Ok (mkDeviceResponse (byte_at data 0) (Some (byte_at data 1)) (power_of (byte_at data 2) (byte_at data 3)))
        else Err (V485Protocol (UnexpectedDataLength len)).

(** * The serial port *)

Record SerialStream := mkSerialStream {
  ser_input : list ReadEvent;
  ser_script : list (SendEvent * list ReadEvent);
  ser_sent : list (list Z);
}.
Definition set_input (s : SerialStream) (input : list ReadEvent) : SerialStream := mkSerialStream input (ser_script s) (ser_sent s).

(** [timeout(_, serial.read_exact(&mut buf))] for a buffer of [n] bytes: a read that is
    given up drops what it had taken. *)
Fixpoint read_exact (n : nat) (input : list ReadEvent) (got : list Z) : list ReadEvent * result (list Z) V485Error :=
  match input with
  | [] => ([], Err V485ReadTimeout)
  | RIdle :: rest => (rest, Err V485ReadTimeout)
  | RError :: rest | RData [] :: rest => (rest, Err V485Io)
  | RData chunk :: rest =>
      if (length chunk <? n)%nat then read_exact (n - length chunk) rest (got ++ chunk)
      else ((if (n =? length chunk)%nat then rest else RData (drop n chunk) :: rest), Ok (got ++ take n chunk))
  end.

(** The loop that drains stale bytes. *)
Fixpoint drain (input : list ReadEvent) : list ReadEvent :=
  match input with
  | RData (_ :: _) :: rest => drain rest
  | _ :: rest => rest
  | [] => []
  end.

(** [timeout(_, serial.write_all(frame))]; a port that has nothing more scripted takes
    the bytes and stays silent. *)
Definition serial_write_all (s : SerialStream) (frame : list Z) : SerialStream * result unit V485Error :=
  let '(ev, arrives, script) := match ser_script s with [] => (SDone, [], []) | (ev, arrives) :: script => (ev, arrives, script) end in
  let s := mkSerialStream (ser_input s ++ arrives) script (ser_sent s ++ [frame]) in
  (s, match ev with SDone => Ok tt | SFailed => Err V485Io | SStalled => Err V485WriteTimeout end).

Definition read_one_frame (input : list ReadEvent) : list ReadEvent * result (list Z) V485Error :=
  match read_exact 3 input [] with
  | (input, Err e) => (input, Err e)
  | (input, Ok hdr) =>
      if bad_header hdr then (input, Err (V485Protocol (BadResponseHeader (byte_at hdr 0) (byte_at hdr 1))))
      else
        let data_len := byte_at hdr 2 in
        if (data_len =? 0) || (MAX_FRAME_SIZE - 5 <? data_len) then (input, Err (V485Protocol (InvalidResponseLen data_len)))
        else
          match read_exact (Z.to_nat data_len + 2) input [] with
          | (input, Err e) => (input, Err e)
          | (input, Ok rest) => (input, Ok (hdr ++ rest))
          end
  end.

(** * The channel *)

Record PollTarget := mkPollTarget { tg_point_id : Z; tg_point_type : PointType; tg_device_id : Z; tg_cmd : Z }.
Record Voltage485ChannelConfig := mkVoltage485ChannelConfig {
  vcf_device : string; vcf_baud_rate : Z; vcf_io_timeout_ms : Z; vcf_retry_count : Z; vcf_frame_delay_ms : Z }.
Record Voltage485Channel := mkVoltage485Channel {
  vc_config : Voltage485ChannelConfig;
  vc_channel_id : Z;
  vc_name : string;
  vc_serial : option SerialStream;
  vc_state : ConnState;
  vc_diagnostics : AtomicDiagnostics;
  vc_log_config : LogConfig;
  vc_poll_targets : list PollTarget;
}.
Definition Voltage485Channel_new (config : Voltage485ChannelConfig) (channel_id : Z) (name : string) (poll_targets : list PollTarget) : Voltage485Channel :=
  mkVoltage485Channel config channel_id name None CsDisconnected AtomicDiagnostics_new LogDefault poll_targets.
Definition vc_set_serial (ch : Voltage485Channel) (s : option SerialStream) : Voltage485Channel :=
  mkVoltage485Channel (vc_config ch) (vc_channel_id ch) (vc_name ch) s (vc_state ch) (vc_diagnostics ch) (vc_log_config ch) (vc_poll_targets ch).
Definition vc_set_state (ch : Voltage485Channel) (st : ConnState) : Voltage485Channel :=
  mkVoltage485Channel (vc_config ch) (vc_channel_id ch) (vc_name ch) (vc_serial ch) st (vc_diagnostics ch) (vc_log_config ch) (vc_poll_targets ch).
Definition vc_set_diagnostics (ch : Voltage485Channel) (d : AtomicDiagnostics) : Voltage485Channel :=
  mkVoltage485Channel (vc_config ch) (vc_channel_id ch) (vc_name ch) (vc_serial ch) (vc_state ch) d (vc_log_config ch) (vc_poll_targets ch).
Definition Voltage485Channel_set_log_config (ch : Voltage485Channel) (l : LogConfig) : Voltage485Channel :=
  mkVoltage485Channel (vc_config ch) (vc_channel_id ch) (vc_name ch) (vc_serial ch) (vc_state ch) (vc_diagnostics ch) l (vc_poll_targets ch).

Definition transact (serial : option SerialStream) (frame : list Z) : option SerialStream * result (list Z) V485Error :=
  match serial with
  | None => (None, Err V485NotConnected)
  | Some s =>
      let s := set_input s (drain (ser_input s)) in
      match serial_write_all s frame with
      | (s, Err e) => (Some s, Err e)
      | (s, Ok _) =>
          match read_one_frame (ser_input s) with
          | (input, Err e) => (Some (set_input s input), Err e)
          | (input, Ok first) =>
              if bool_decide (first = frame) then let '(input, r) := read_one_frame input in (Some (set_input s input), r)
              else (Some (set_input s input), Ok first)
          end
      end
  end.

(** The attempts left, and the error of the last one made. *)
Fixpoint query_attempts (attempts : nat) (serial : option SerialStream) (frame : list Z) (last_err : option V485Error)
  : option SerialStream * result DeviceResponse V485Error :=
  match attempts with
  | O => (serial, Err (default (V485Protocol UnknownError) last_err))
  | S attempts =>
      match transact serial frame with
      | (serial, Ok raw) =>
          match parse_response raw with
          | Ok resp => (serial, Ok resp)
          | Err e => query_attempts attempts serial frame (Some e)
          end
      | (serial, Err e) => query_attempts attempts serial frame (Some e)
      end
  end.
Definition query_device (retry_count : Z) (serial : option SerialStream) (device_id cmd : Z) : option SerialStream * result DeviceResponse V485Error :=
  query_attempts (S (Z.to_nat retry_count)) serial (build_request device_id cmd) None.

Inductive V485PointError := V485NotConnectedFailure | V485ReadFailure (e : V485Error).
Record V485PollResult := mkV485PollResult { vpr_data : list DataPoint; vpr_failures : list (Z * V485PointError) }.

Fixpoint poll_all_targets (retry_count : Z) (serial : option SerialStream) (targets : list PollTarget)
  : option SerialStream * list DataPoint * list (Z * V485PointError) * nat * nat :=
  match targets with
  | [] => (serial, [], [], 0%nat, 0%nat)
  | target :: targets =>
      let '(serial, r) := query_device retry_count serial (tg_device_id target) (tg_cmd target) in
      let '(serial, batch, failures, ok_count, err_count) := poll_all_targets retry_count serial targets in
      match r with
      | Ok resp =>
          (serial, DataPoint_new (tg_point_id target) (tg_point_type target) (PFloat (f64_of_Z (dr_power_mw resp))) :: batch, failures, S ok_count, err_count)
      | Err e => (serial, batch, (tg_point_id target, V485ReadFailure e) :: failures, ok_count, S err_count)
      end
  end.

(** [open_serial] is the parameter [opened]. *)
Definition Voltage485Channel_connect (ch : Voltage485Channel) (opened : result SerialStream V485Error) : Voltage485Channel * result unit V485Error :=
  let ch := vc_set_state ch CsConnecting in
  match opened with
  | Ok port => (vc_set_state (vc_set_serial ch (Some port)) CsConnected, Ok tt)
  | Err e => (vc_set_state ch CsError, Err e)
  end.
Definition Voltage485Channel_disconnect (ch : Voltage485Channel) : Voltage485Channel := vc_set_state (vc_set_serial ch None) CsDisconnected.

Definition Voltage485Channel_poll_once (ch : Voltage485Channel) : Voltage485Channel * V485PollResult :=
  match vc_serial ch with
  | None => (ch, mkV485PollResult [] (map (fun t => (tg_point_id t, V485NotConnectedFailure)) (vc_poll_targets ch)))
  | Some _ =>
      let '(serial, batch, failures, ok, err) := poll_all_targets (vcf_retry_count (vc_config ch)) (vc_serial ch) (vc_poll_targets ch) in
      let d := AtomicDiagnostics_add_error (AtomicDiagnostics_add_read (vc_diagnostics ch) ok) err in
      (vc_set_diagnostics (vc_set_serial ch serial) d, mkV485PollResult batch failures)
  end.

(** Controls and adjustments are refused whole, under the point id 0. *)
Inductive V485WriteError := ControlUnsupported | AdjustmentUnsupported.
Record V485WriteResult := mkV485WriteResult { vwr_success_count : nat; vwr_failures : list (Z * V485WriteError) }.
Definition Voltage485Channel_write_control (ch : Voltage485Channel) (commands : list ControlCommand) : Voltage485Channel * V485WriteResult :=
  (ch, mkV485WriteResult 0 [(0, ControlUnsupported)]).
Definition Voltage485Channel_write_adjustment (ch : Voltage485Channel) (adjustments : list AdjustmentCommand) : Voltage485Channel * V485WriteResult :=
  (ch, mkV485WriteResult 0 [(0, AdjustmentUnsupported)]).

(** [ChannelRuntime for Voltage485Channel], with what the following calls of
    [open_serial] return; opening does not wait. *)
Definition v485_runtime : Type := Voltage485Channel * list (result SerialStream V485Error).
Definition v485_connect (p : v485_runtime) : v485_runtime * bool :=
  match p.2 with
  | opened :: rest => let '(ch, r) := Voltage485Channel_connect p.1 opened in ((ch, rest), match r with Ok _ => true | Err _ => false end)
  | [] => let '(ch, _) := Voltage485Channel_connect p.1 (Err V485Connection) in ((ch, []), false)
  end.
#[export] Instance voltage485_channel_runtime : ChannelRuntime v485_runtime DataPoint := {|
  rt_connection_state p := vc_state p.1;
  rt_connect := v485_connect;
  rt_connect_hangs _ := None;
  rt_disconnect p := (Voltage485Channel_disconnect p.1, p.2);
  rt_poll_once p := let '(ch, r) := Voltage485Channel_poll_once p.1 in ((ch, p.2), vpr_data r, length (vpr_failures r));
  rt_write_control p commands :=
    let '(ch, r) := Voltage485Channel_write_control p.1 (map (fun '(id, v) => ControlCommand_latching id (negb (f64_eqb v f64_zero))) commands) in
    ((ch, p.2), Some (Z.of_nat (vwr_success_count r)));
  rt_write_adjustment p adjustments :=
    let '(ch, r) := Voltage485Channel_write_adjustment p.1 (map (fun '(id, v) => mkAdjustmentCommand id v) adjustments) in
    ((ch, p.2), Some (Z.of_nat (vwr_success_count r)));
  rt_diagnostics p := Some (dg_error_count (vc_diagnostics p.1));
  rt_set_log_config p l := (Voltage485Channel_set_log_config p.1 l, p.2);
|}.

(** * The factory *)

(** What [serde_json] makes of a mapping: an object with its fields in order, an array, or
    something else; [None] when the text is not JSON. *)
Inductive V485Json := VjObject (fields : list (string * JsonField)) | VjArray (items : list JsonField) | VjOther.
Record Voltage485PointMapping := mkVoltage485PointMapping { vm_device_id : Z; vm_cmd : Z }.
Definition default_cmd : Z := CMD_QUERY_DEVICE.

(** A [u8] field: a JSON integer in range. *)
Definition json_u8 (f : JsonField) : option Z :=
  match f with JInt n => if (0 <=? n) && (n <? 2 ^ 8) then Some n else None | _ => None end.
(** The derived deserialiser over the fields of an object: a repeated field is an error,
    and a field the struct does not have is skipped. *)
Fixpoint mapping_fields (fields : list (string * JsonField)) (device_id cmd : option Z) : option Voltage485PointMapping :=
  match fields with
  | [] => id ← device_id; Some (mkVoltage485PointMapping id (default default_cmd cmd))
  | (k, f) :: fields =>
      if String.eqb k "device_id" then
        match device_id with Some _ => None | None => id ← json_u8 f; mapping_fields fields (Some id) cmd end
      else if String.eqb k "cmd" then
        match cmd with Some _ => None | None => c ← json_u8 f; mapping_fields fields device_id (Some c) end
      else mapping_fields fields device_id cmd
  end.
(** Over an array the fields are taken by position. *)
Definition mapping_of_json (j : V485Json) : option Voltage485PointMapping :=
  match j with
  | VjObject fields => mapping_fields fields None None
  | VjArray [id] => id ← json_u8 id; Some (mkVoltage485PointMapping id default_cmd)
  | VjArray [id; c] => id ← json_u8 id; c ← json_u8 c; Some (mkVoltage485PointMapping id c)
  | _ => None
  end.

Definition as_str (f : option JsonField) : option string := match f with Some (JString s) => Some s | _ => None end.
Definition as_u64 (f : option JsonField) : option Z :=
  match f with Some (JInt n) => if (0 <=? n) && (n <? 2 ^ 64) then Some n else None | _ => None end.

Section Factory.
Variable parse_json : string -> option V485Json.

(** One turn of the loops over the points; an invalid mapping is only logged. *)
Definition target_of (pt : PointType) (base : Point) : option PollTarget :=
  json_str ← pt_protocol_mappings base;
  json ← parse_json json_str;
  mapping ← mapping_of_json json;
  Some (mkPollTarget (pt_point_id base) pt (vm_device_id mapping) (vm_cmd mapping)).

Definition create_voltage_485_channel (channel_id : Z) (channel_name : string) (params : gmap string JsonField) (rc : RuntimeChannelConfig) : Voltage485Channel :=
  let device := default "/dev/ttyAP0"%string (as_str (params !! "device"%string)) in
  let baud_rate := default 115200 (wrap 32 <$> as_u64 (params !! "baud_rate"%string)) in
  let timeout_ms := default 1000 (as_u64 (params !! "timeout_ms"%string)) in
  let retry_count := default 2 (wrap 32 <$> as_u64 (params !! "retry_count"%string)) in
  let frame_delay_ms := default 50 (as_u64 (params !! "frame_delay_ms"%string)) in
  let config := mkVoltage485ChannelConfig device baud_rate timeout_ms retry_count frame_delay_ms in
  let targets := omap (fun p => target_of Telemetry (tp_base p)) (rc_telemetry_points rc) ++
                 omap (fun p => target_of Signal (sp_base p)) (rc_signal_points rc) in
  let name := if String.eqb channel_name "" then ("v485_" ++ print_u32 channel_id)%string else channel_name in
  Voltage485Channel_new config channel_id name targets.
End Factory.

(** * Frames: what the parser accepts *)

(** The CRC as the protocol sends it. *)
Definition crc_bytes (body : list Z) : list Z := to_le_bytes 2 (crc16_modbus body).
(** A frame around the bytes that its length counts. *)
Definition framed (data : list Z) : list Z :=
  let body := Z.of_nat (length data) :: data in FRAME_HEADER ++ body ++ crc_bytes body.

Lemma crc_bytes_spec body : is_bytes body -> from_le_bytes (crc_bytes body) = crc16_modbus body.
Proof. intros Hb. unfold crc_bytes. rewrite from_to_le_bytes. apply wrap_small. by apply crc16_u16. Qed.

Lemma build_request_framed device_id cmd : build_request device_id cmd = framed [device_id; cmd].
Proof.
  unfold build_request, framed, crc_bytes. cbn [length]. change (Z.of_nat 2) with 2. generalize (crc16_modbus [2; device_id; cmd]).
  intros crc. do 2 f_equal. cbn [to_le_bytes]. change 0xFF with (Z.ones 8). rewrite Z.land_ones by lia. fold (wrap 8 crc).
  rewrite (wrap_small 8 (wrap 8 crc)) by (apply wrap_uint; lia). done.
Qed.

Lemma length_framed data : length (framed data) = (5 + length data)%nat.
Proof. unfold framed. rewrite !length_app. cbn [length]. unfold crc_bytes. rewrite length_to_le_bytes. cbn. lia. Qed.

(** What a device answers: the reading after its id and, from firmware that echoes it, the
    command; later firmware may append more. *)
Definition response_data (r : DeviceResponse) (extra : list Z) : list Z :=
  match dr_cmd r with
  | Some c => [dr_device_id r; c; Z.shiftr (dr_power_mw r) 8; Z.land (dr_power_mw r) 0xFF] ++ extra
  | None => [dr_device_id r; Z.shiftr (dr_power_mw r) 8; Z.land (dr_power_mw r) 0xFF]
  end.
Definition response_frame (r : DeviceResponse) (extra : list Z) : list Z := framed (response_data r extra).
Record response_ok (r : DeviceResponse) (extra : list Z) : Prop := {
  ro_id : is_uint 8 (dr_device_id r);
  ro_cmd : forall c, dr_cmd r = Some c -> is_uint 8 c;
  ro_power : is_uint 16 (dr_power_mw r);
  ro_extra : is_bytes extra;
  ro_length : (length extra <= 251)%nat;
}.

(** The parser of a complete frame, without its guards. *)
Definition parse_data (data : list Z) : result DeviceResponse V485Error :=
  match data with
  | [id; h; l] => Ok (mkDeviceResponse id None (power_of h l))
  | id :: c :: h :: l :: _ => Ok (mkDeviceResponse id (Some c) (power_of h l))
  | _ => Err (V485Protocol (UnexpectedDataLength (length data)))
  end.

(** A complete frame is judged by its CRC alone, and then read. *)
Lemma parse_frame data sent : (3 <= length data < 256)%nat -> length sent = 2%nat ->
  let body := Z.of_nat (length data) :: data in
  parse_response (FRAME_HEADER ++ body ++ sent) =
    if crc16_modbus body =? from_le_bytes sent then parse_data data
    else Err (V485Protocol (CrcMismatch (crc16_modbus body) (from_le_bytes sent))).
Proof.
  intros Hd Hs body. unfold parse_response.
  rewrite (proj2 (Nat.ltb_ge _ _)) by (unfold body; rewrite !length_app; cbn; lia).
  change (bad_header _) with false. cbn [FRAME_HEADER app byte_at nth body]. rewrite Nat2Z.id. set (n := length data) in *.
  rewrite (proj2 (Nat.ltb_ge _ _)) by (cbn [length]; rewrite length_app; lia). cbn [drop].
  change (1 + n)%nat with (S n). cbn [take]. rewrite take_app_length' by done.
  replace (from_le_bytes [_; _]) with (from_le_bytes sent).
  2: { destruct sent as [|lo [|hi [|? ?]]]; try done. unfold byte_at. change (3 + n)%nat with (S (S (S n))).
       change (S (S (S n)) + 1)%nat with (S (S (S (n + 1)))). cbn [nth]. rewrite !app_nth2 by lia. fold n.
       rewrite Nat.sub_diag. replace (n + 1 - n)%nat with 1%nat by lia. done. }
  destruct (crc16_modbus _ =? from_le_bytes sent); [| done]. cbn [negb]. subst n.
  destruct data as [|a [|b [|c [|d data]]]]; cbn in Hd; try lia; done.
Qed.

Lemma parse_Ok_shape f r : parse_response f = Ok r -> is_bytes f -> length f = (5 + Z.to_nat (byte_at f 2))%nat ->
  exists data sent, f = FRAME_HEADER ++ (Z.of_nat (length data) :: data) ++ sent /\ (3 <= length data < 256)%nat /\ length sent = 2%nat.
Proof.
  intros Hp Hb Hl. unfold parse_response in Hp. destruct (length f <? 8)%nat eqn:H8; [done |]. apply Nat.ltb_ge in H8.
  destruct (bad_header f) eqn:Hh; [done |]. apply orb_false_iff in Hh as [H0%negb_false_iff%Z.eqb_eq H1%negb_false_iff%Z.eqb_eq].
  destruct f as [|b0 [|b1 [|n rest]]]; try (cbn in H8; lia). cbn [byte_at nth FRAME_HEADER] in H0, H1, Hl. subst b0 b1.
  assert (Hn : 0 <= n < 256) by (apply Forall_cons in Hb as [_ Hb]; apply Forall_cons in Hb as [_ Hb]; by apply Forall_cons in Hb as [Hn _]).
  exists (take (Z.to_nat n) rest), (drop (Z.to_nat n) rest). cbn [length] in Hl, H8.
  assert (Hd : length (take (Z.to_nat n) rest) = Z.to_nat n) by (rewrite length_take; lia).
  rewrite length_drop, Hd, Z2Nat.id by lia. cbn [FRAME_HEADER app]. rewrite take_drop. repeat split; lia.
Qed.

(** A damaged frame keeps its bounds and fails the check. *)
Lemma damaged_mismatch f r f' e : parse_response f = Ok r -> is_bytes f -> length f = (5 + Z.to_nat (byte_at f 2))%nat ->
  is_bytes f' -> length f' = length f -> take 3 f' = take 3 f -> Z.lxor (from_le_bytes (drop 3 f)) (from_le_bytes (drop 3 f')) = e -> line_error e ->
  (8 <= length f')%nat /\ bad_header f' = false /\ byte_at f' 2 = byte_at f 2 /\
  exists calc recv, calc <> recv /\ parse_response f' = Err (V485Protocol (CrcMismatch calc recv)).
Proof.
  intros Hp Hb Hl Hb' Hl' H3 He Herr. destruct (parse_Ok_shape f r Hp Hb Hl) as (data & sent & -> & Hd & Hs).
  assert (Hf' : exists data' sent', f' = FRAME_HEADER ++ (Z.of_nat (length data') :: data') ++ sent' /\ length data' = length data /\ length sent' = 2%nat).
  { rewrite <- (take_drop 3 f'), H3. exists (take (length data) (drop 3 f')), (drop (length data) (drop 3 f')).
    cbn [FRAME_HEADER app length] in Hl'. rewrite length_app in Hl'. assert (Ht : length (take (length data) (drop 3 f')) = length data) by (rewrite length_take, length_drop; lia).
    rewrite Ht, !length_drop. cbn [FRAME_HEADER app take]. rewrite take_drop. split; [done | lia]. }
  destruct Hf' as (data' & sent' & -> & Hd' & Hs'). cbn [FRAME_HEADER app drop] in He.
  pose proof Hp as Hcrc. rewrite parse_frame in Hcrc by done. rewrite parse_frame by lia.
  destruct (crc16_modbus _ =? _) eqn:Hc in Hcrc; [| done]. apply Z.eqb_eq in Hc.
  assert (Hne : crc16_modbus (Z.of_nat (length data') :: data') <> from_le_bytes sent').
  { apply is_bytes_app in Hb as [_ Hb], Hb' as [_ Hb']. pose proof Hb as [Hbody Hsent]%is_bytes_app. pose proof Hb' as [Hbody' Hsent']%is_bytes_app.
    apply (line_error_detected (Z.of_nat (length data) :: data) sent _ _ 8 e); try done; [cbn [length]; lia |].
    rewrite <- !app_comm_cons in *. apply Forall_cons in Hb as [Hn Hb], Hb' as [Hn' Hb']. rewrite !from_le_bytes_lxor by done.
    rewrite lxor_swap, Hd', Z.lxor_nilpotent, Z.lxor_0_l, <- He. change (2 ^ Z.of_nat 8) with (2 ^ 8).
    rewrite !(Z.mul_comm (2 ^ 8)), <- !Z.shiftl_mul_pow2, Z.shiftl_lxor by lia. done. }
  rewrite (proj2 (Z.eqb_neq _ _)) by done. split; [cbn; rewrite length_app; lia |]. split; [done |]. split; [cbn; by rewrite Hd' | eauto].
Qed.

Definition sample_response : DeviceResponse := mkDeviceResponse 1 (Some 1) 1500.
(** The reading of [sample_response] with two bits of it inverted. *)
Definition sample_damaged : list Z := <[5%nat := 4]> (<[6%nat := 0xDD]> (response_frame sample_response [])).

(** The parser reads back what a device sends: a response of either firmware, with or
    without an appended extension, yields the device, the command and the reading in it. *)
Theorem response_roundtrip r extra : response_ok r extra -> parse_response (response_frame r extra) = Ok r.
Proof.
  intros [Hid Hcmd Hp Hx Hl]. destruct r as [id c p]. cbn [dr_device_id dr_cmd dr_power_mw] in *.
  assert (Hlo : is_uint 8 (Z.land p 0xFF)) by (change 0xFF with (Z.ones 8); rewrite Z.land_ones by lia; apply wrap_uint; lia).
  assert (Hhi : is_uint 8 (Z.shiftr p 8)).
  { unfold is_uint in *. rewrite Z.shiftr_div_pow2 by lia. split; [apply Z.div_pos; lia | apply Z.div_lt_upper_bound; lia]. }
  assert (Hpow : power_of (Z.shiftr p 8) (Z.land p 0xFF) = p).
  { unfold power_of. rewrite wrap_small by (unfold is_uint in *; rewrite Z.shiftl_mul_pow2 by lia; lia). rewrite lor_shiftl_add by done.
    change 0xFF with (Z.ones 8). rewrite Z.land_ones, Z.shiftr_div_pow2 by lia. pose proof (Z.div_mod p (2 ^ 8) ltac:(lia)). lia. }
  unfold response_frame, response_data, framed. cbn [dr_device_id dr_cmd dr_power_mw].
  destruct c as [c|]; (rewrite parse_frame; [| cbn [length app]; lia | done]);
    (rewrite crc_bytes_spec, Z.eqb_refl; [cbn; by rewrite Hpow |]).
  - specialize (Hcmd c eq_refl). repeat (constructor; [unfold is_uint in *; cbn [length app]; lia |]). exact Hx.
  - repeat (constructor; [unfold is_uint in *; cbn [length]; lia |]). constructor.
Qed.

Lemma response_roundtrip_witness :
  parse_response (response_frame (mkDeviceResponse 7 None 0xFFFF) []) = Ok (mkDeviceResponse 7 None 0xFFFF) /\
  parse_response (response_frame sample_response [0x10; 0x20]) = Ok sample_response.
Proof. split; apply response_roundtrip; constructor; cbn; try lia; try (by intros c [= <-]); repeat constructor; unfold is_uint; lia. Defined.

(** * The line *)

Definition data_event (e : ReadEvent) : Prop := exists b chunk, e = RData (b :: chunk).
(** Bytes in any number of chunks, and then silence. *)
Definition data_only (input : list ReadEvent) : Prop := Forall data_event input.
Definition flat (input : list ReadEvent) : list Z := concat (map (fun e => match e with RData chunk => chunk | _ => [] end) input).

Lemma drain_data input : data_only input -> drain input = [].
Proof. induction 1 as [|e input (b & chunk & ->) _ IH]; done. Qed.

Lemma data_event_cons input chunk : chunk <> [] -> data_only input -> data_only (RData chunk :: input).
Proof. destruct chunk as [|b chunk]; [done |]. intros _ H. constructor; [by exists b, chunk | done]. Qed.

(** A read gets the bytes of its buffer whatever the chunks, or times out with nothing left. *)
Lemma read_exact_data input : data_only input -> forall n got, (0 < n)%nat ->
  if decide (n <= length (flat input))%nat then
    exists input', read_exact n input got = (input', Ok (got ++ take n (flat input))) /\ data_only input' /\ flat input' = drop n (flat input)
  else read_exact n input got = ([], Err V485ReadTimeout).
Proof.
  induction 1 as [|e input (b & chunk & ->) Hin IH]; intros n got Hn; [rewrite decide_False by (cbn; lia); done |].
  change (flat (RData (b :: chunk) :: input)) with ((b :: chunk) ++ flat input). cbn [read_exact].
  generalize (b :: chunk) as bs. clear b chunk. intros bs.
  rewrite length_app. destruct (length bs <? n)%nat eqn:Hlt.
  - apply Nat.ltb_lt in Hlt. specialize (IH (n - length bs)%nat (got ++ bs) ltac:(lia)). destruct (decide (n <= length bs + length (flat input))%nat) as [Hd|Hd].
    + rewrite decide_True in IH by lia. destruct IH as (input' & -> & Hd' & Hf). exists input'.
      rewrite take_app_ge, drop_app_ge, app_assoc by lia. done.
    + by rewrite decide_False in IH by lia.
  - apply Nat.ltb_ge in Hlt. rewrite decide_True by lia. destruct (n =? length bs)%nat eqn:Heq.
    + apply Nat.eqb_eq in Heq as ->. exists input. rewrite take_app_length, drop_app_length, take_ge by lia. done.
    + apply Nat.eqb_neq in Heq. exists (RData (drop n bs) :: input). rewrite take_app_le, drop_app_le by lia.
      split; [done |]. split; [| done]. apply data_event_cons; [| done]. intros H. apply (f_equal length) in H. rewrite length_drop in H. cbn in H. lia.
Qed.

(** The first frame of a byte stream, and the bytes after it. *)
Definition split_frame (bs : list Z) : option (list Z * list Z) :=
  let n := byte_at bs 2 in
  let total := (5 + Z.to_nat n)%nat in
  if (length bs <? 3)%nat || bad_header bs || (n =? 0) || (MAX_FRAME_SIZE - 5 <? n) || (length bs <? total)%nat then None
  else Some (take total bs, drop total bs).

Lemma byte_at_take n i bs : (i < n)%nat -> byte_at (take n bs) i = byte_at bs i.
Proof. unfold byte_at. intros H. revert n H bs. induction i as [|i IH]; intros [|n] H [|b bs]; try lia; try done. cbn. apply IH. lia. Qed.

Lemma read_one_frame_data input : data_only input ->
  match split_frame (flat input) with
  | Some (frame, rest) => exists input', read_one_frame input = (input', Ok frame) /\ data_only input' /\ flat input' = rest
  | None => exists input' e, read_one_frame input = (input', Err e) /\ data_only input'
  end.
Proof.
  intros Hin. unfold split_frame, read_one_frame. pose proof (read_exact_data input Hin 3 [] ltac:(lia)) as H3. set (bs := flat input) in *.
  case_decide as Hlen; [| rewrite (proj2 (Nat.ltb_lt _ _)) by lia; rewrite H3; cbn [orb]; eexists _, _; by repeat constructor].
  destruct H3 as (input1 & -> & Hin1 & Hf1). cbn [app]. rewrite (proj2 (Nat.ltb_ge _ _)) by lia.
  unfold bad_header. rewrite !byte_at_take by lia. fold (bad_header bs). destruct (bad_header bs); [by eexists _, _ |]. cbn [orb].
  destruct ((byte_at bs 2 =? 0) || (MAX_FRAME_SIZE - 5 <? byte_at bs 2)); [by eexists _, _ |]. cbn [orb]. set (n := Z.to_nat (byte_at bs 2)).
  pose proof (read_exact_data input1 Hin1 (n + 2) [] ltac:(lia)) as Hr. rewrite Hf1, length_drop in Hr. case_decide as Hn.
  - destruct Hr as (input2 & -> & Hin2 & Hf2). rewrite (proj2 (Nat.ltb_ge _ _)) by lia. exists input2. split; [| split; [done |]].
    + cbn [app]. rewrite take_take_drop. do 3 f_equal. lia.
    + rewrite Hf2, drop_drop. f_equal. lia.
  - rewrite (proj2 (Nat.ltb_lt _ _)) by lia. rewrite Hr. eexists _, _. by repeat constructor.
Qed.

(** ** One attempt *)

Definition parsed (frame : list Z) : option DeviceResponse := match parse_response frame with Ok r => Some r | Err _ => None end.
(** The answer to a request among the bytes that follow it: the first frame, or the second
    when the first is the request itself. *)
Definition first_answer (request bs : list Z) : option DeviceResponse :=
  '(first, rest) ← split_frame bs;
  if bool_decide (first = request) then '(second, _) ← split_frame rest; parsed second else parsed first.
Definition attempt_answer (request : list Z) (a : SendEvent * list ReadEvent) : option DeviceResponse :=
  match a.1 with SDone => first_answer request (flat a.2) | _ => None end.

(** A line whose bytes arrive without errors, with what is left of its script. *)
Record quiet (s : SerialStream) (script : list (SendEvent * list ReadEvent)) : Prop := {
  qu_input : data_only (ser_input s);
  qu_script : ser_script s = script;
}.

Lemma transact_quiet s request a script : quiet s (a :: script) -> data_only a.2 -> exists s', quiet s' script /\
  match attempt_answer request a with
  | Some r => exists raw, transact (Some s) request = (Some s', Ok raw) /\ parse_response raw = Ok r
  | None => exists res, transact (Some s) request = (Some s', res) /\ forall raw, res = Ok raw -> parsed raw = None
  end.
Proof.
  intros [Hin Hs] Ha. destruct a as [ev arrives]. cbn [snd] in Ha. unfold transact, serial_write_all, attempt_answer. cbn [set_input ser_script ser_input fst snd].
  rewrite Hs, drain_data by done. cbn [app]. destruct ev; [| by exists (mkSerialStream arrives script (ser_sent s ++ [request])); split; [| eexists] ..].
  cbn [ser_input]. unfold first_answer. pose proof (read_one_frame_data arrives Ha) as H1. unfold parsed. destruct (split_frame (flat arrives)) as [[first rest]|].
  - destruct H1 as (input1 & -> & Hd1 & <-). cbn [mbind option_bind]. case_bool_decide.
    + pose proof (read_one_frame_data input1 Hd1) as H2. destruct (split_frame (flat input1)) as [[second rest]|].
      * destruct H2 as (input2 & -> & Hd2 & _). exists (mkSerialStream input2 script (ser_sent s ++ [request])). split; [done |]. cbn [mbind option_bind].
        destruct (parse_response second) eqn:Hp; eexists; (split; [reflexivity |]); [done | by intros raw [= <-]; rewrite Hp].
      * destruct H2 as (input2 & e & -> & Hd2). exists (mkSerialStream input2 script (ser_sent s ++ [request])). split; [done |]. by eexists.
    + exists (mkSerialStream input1 script (ser_sent s ++ [request])). split; [done |].
      destruct (parse_response first) eqn:Hp; eexists; (split; [reflexivity |]); [done | by intros raw [= <-]; rewrite Hp].
  - destruct H1 as (input1 & e & -> & Hd1). exists (mkSerialStream input1 script (ser_sent s ++ [request])). split; [done |]. by eexists.
Qed.

(** An attempt that brings no answer, and one that does: possibly after the echo of the
    request, in any chunks and with anything behind it. *)
Definition lost (request : list Z) (a : SendEvent * list ReadEvent) : Prop := data_only a.2 /\ attempt_answer request a = None.
Definition answered (request : list Z) (r : DeviceResponse) (a : SendEvent * list ReadEvent) : Prop :=
  a.1 = SDone /\ data_only a.2 /\
  exists echo extra trailing, (echo = [] \/ echo = request) /\ response_ok r extra /\ flat a.2 = echo ++ response_frame r extra ++ trailing.

Lemma split_complete f rest : length f = (5 + Z.to_nat (byte_at f 2))%nat -> bad_header f = false -> 0 < byte_at f 2 -> byte_at f 2 < 256 ->
  split_frame (f ++ rest) = Some (f, rest).
Proof.
  intros Hl Hh Hp Hm. destruct f as [|b0 [|b1 [|n f]]]; try (cbn in Hl; lia). unfold split_frame.
  change (bad_header ((b0 :: b1 :: n :: f) ++ rest)) with (bad_header (b0 :: b1 :: n :: f)). rewrite Hh.
  change (byte_at ((b0 :: b1 :: n :: f) ++ rest) 2) with n. change (byte_at (b0 :: b1 :: n :: f) 2) with n in *. rewrite length_app, Hl.
  rewrite !(proj2 (Nat.ltb_ge _ _)) by lia. rewrite (proj2 (Z.eqb_neq _ _)) by lia.
  rewrite (proj2 (Z.ltb_ge _ _)) by (unfold MAX_FRAME_SIZE; lia). cbn [orb]. by rewrite take_app_length', drop_app_length' by done.
Qed.

Lemma split_framed data rest : (1 <= length data <= 255)%nat -> split_frame (framed data ++ rest) = Some (framed data, rest).
Proof.
  intros Hd. apply split_complete; [rewrite length_framed | done | |]; change (byte_at (framed data) 2) with (Z.of_nat (length data)); lia.
Qed.

Lemma length_response_data r extra : response_ok r extra -> (3 <= length (response_data r extra) <= 255)%nat.
Proof. intros [_ _ _ _ Hl]. unfold response_data. destruct (dr_cmd r); cbn [length app]; lia. Qed.

Lemma answered_first device_id cmd r a : answered (build_request device_id cmd) r a -> attempt_answer (build_request device_id cmd) a = Some r.
Proof.
  intros (Hs & _ & echo & extra & trailing & He & Hr & Hf). unfold attempt_answer, first_answer. rewrite Hs, Hf, build_request_framed in *.
  assert (Hd := length_response_data r extra Hr).
  assert (Hres : forall tl, split_frame (response_frame r extra ++ tl) = Some (response_frame r extra, tl)) by (intros tl; apply split_framed; lia).
  assert (Hpr : parsed (response_frame r extra) = Some r) by (unfold parsed; by rewrite response_roundtrip).
  destruct He as [-> | ->].
  - cbn [app]. rewrite Hres. cbn [mbind option_bind]. rewrite bool_decide_false; [done |].
    intros H. apply (f_equal length) in H. unfold response_frame in H. rewrite !length_framed in H. cbn [length] in H. lia.
  - rewrite split_framed by (cbn; lia). cbn [mbind option_bind]. rewrite bool_decide_true by done. rewrite Hres. done.
Qed.

(** C22: The CRC protects what the channel stores.  A response frame the parser accepts,
    damaged after its length byte by a burst of at most 16 bits, by two inverted bits, or by
    any odd number of them - in the data, in the CRC or across both - is refused with a CRC
    mismatch; and an attempt that receives it, after the echo of its request or without, in
    any chunks and with anything behind it, brings no reading. *)
Theorem corrupted_response_rejected f r f' e : parse_response f = Ok r -> is_bytes f -> length f = (5 + Z.to_nat (byte_at f 2))%nat ->
  is_bytes f' -> length f' = length f -> take 3 f' = take 3 f -> Z.lxor (from_le_bytes (drop 3 f)) (from_le_bytes (drop 3 f')) = e -> line_error e ->
  (exists calc recv, calc <> recv /\ parse_response f' = Err (V485Protocol (CrcMismatch calc recv))) /\
  forall device_id cmd echo trailing a, echo = [] \/ echo = build_request device_id cmd -> data_only a.2 -> flat a.2 = echo ++ f' ++ trailing ->
    lost (build_request device_id cmd) a.
Proof.
  intros Hp Hb Hl Hb' Hl' H3 He Herr. destruct (damaged_mismatch f r f' e Hp Hb Hl Hb' Hl' H3 He Herr) as (H8 & Hh & Hn & Hm).
  split; [done |]. intros device_id cmd echo trailing a Hecho Hda Hf. split; [done |]. destruct Hm as (calc & recv & _ & Hm).
  assert (Hlen : 0 < byte_at f 2 < 256).
  { destruct (parse_Ok_shape f r Hp Hb Hl) as (data & sent & -> & Hd & _). cbn. lia. }
  assert (Hsplit : split_frame (f' ++ trailing) = Some (f', trailing)) by (apply split_complete; [lia | done | lia | lia]).
  assert (Hpr : parsed f' = None) by (unfold parsed; by rewrite Hm).
  unfold attempt_answer. destruct a.1; [| done ..]. rewrite Hf, build_request_framed in *. unfold first_answer. destruct Hecho as [-> | ->].
  - cbn [app]. rewrite Hsplit. cbn [mbind option_bind]. case_bool_decide as Heq; [| done]. apply (f_equal length) in Heq.
    rewrite length_framed in Heq. cbn in Heq. lia.
  - rewrite split_framed by (cbn; lia). cbn [mbind option_bind]. rewrite bool_decide_true by done. rewrite Hsplit. done.
Qed.

Lemma corrupted_response_rejected_witness :
  (exists calc recv, calc <> recv /\ parse_response sample_damaged = Err (V485Protocol (CrcMismatch calc recv))) /\
  lost (build_request 1 1) (SDone, [RData (build_request 1 1); RData (take 4 sample_damaged); RData (drop 4 sample_damaged)]).
Proof.
  assert (Hchunks : data_only [RData (build_request 1 1); RData (take 4 sample_damaged); RData (drop 4 sample_damaged)])
    by (repeat constructor; eexists _, _; reflexivity).
  destruct (corrupted_response_rejected (response_frame sample_response []) sample_response sample_damaged (flips [16; 24]%nat)) as [Hm Hl].
  - vm_compute. reflexivity.
  - repeat constructor; vm_compute; intuition congruence.
  - vm_compute. reflexivity.
  - repeat constructor; vm_compute; intuition congruence.
  - vm_compute. reflexivity.
  - vm_compute. reflexivity.
  - vm_compute. reflexivity.
  - apply err_pair; lia.
  - split; [exact Hm |]. apply (Hl 1 1 (build_request 1 1) []); [by right | exact Hchunks | vm_compute; reflexivity].
Defined.

(** ** One target *)

(** What the line does for one target: attempts that are lost, as many as there are
    retries at most, and an answer. *)
Definition exchange (retry_count : Z) (t : PollTarget) (script : list (SendEvent * list ReadEvent)) (r : DeviceResponse) : Prop :=
  let request := build_request (tg_device_id t) (tg_cmd t) in
  exists losses a, script = losses ++ [a] /\ Z.of_nat (length losses) <= retry_count /\ Forall (lost request) losses /\ answered request r a.

Lemma query_exchange device_id cmd losses a r script :
  Forall (lost (build_request device_id cmd)) losses -> answered (build_request device_id cmd) r a ->
  forall n last_err s, (length losses < n)%nat -> quiet s (losses ++ a :: script) ->
  exists s', query_attempts n (Some s) (build_request device_id cmd) last_err = (Some s', Ok r) /\ quiet s' script.
Proof.
  intros Hlost Ha. induction Hlost as [|l losses [Hl1 Hl2] _ IH]; intros [|n] last_err s Hn Hq; cbn [length] in Hn; try lia.
  - destruct (transact_quiet s (build_request device_id cmd) a script Hq (proj1 (proj2 Ha))) as (s' & Hq' & H).
    rewrite answered_first with (r := r) in H by done. destruct H as (raw & Ht & Hp). exists s'. cbn [query_attempts]. by rewrite Ht, Hp.
  - destruct (transact_quiet s (build_request device_id cmd) l _ Hq Hl1) as (s' & Hq' & H). rewrite Hl2 in H. destruct H as (res & Ht & Hp).
    cbn [query_attempts]. rewrite Ht. destruct res as [raw|e]; [| apply IH; [lia | done]].
    specialize (Hp raw eq_refl). unfold parsed in Hp. destruct (parse_response raw); [done |]. apply IH; [lia | done].
Qed.

(** ** A poll *)

Definition reading (t : PollTarget) (r : DeviceResponse) : DataPoint :=
  DataPoint_new (tg_point_id t) (tg_point_type t) (PFloat (f64_of_Z (dr_power_mw r))).
Definition exchanges (retry_count : Z) (targets : list PollTarget) (xs : list (list (SendEvent * list ReadEvent) * DeviceResponse)) : Prop :=
  Forall2 (fun t x => exchange retry_count t x.1 x.2) targets xs.

Lemma poll_exchanges retry_count targets xs script : 0 <= retry_count -> exchanges retry_count targets xs ->
  forall s, quiet s (concat (map fst xs) ++ script) ->
  exists s', poll_all_targets retry_count (Some s) targets = (Some s', zip_with reading targets (map snd xs), [], length targets, 0%nat) /\ quiet s' script.
Proof.
  intros Hr Hx. induction Hx as [|t [sc r] targets xs (losses & a & Hsc & Hn & Hl & Ha) _ IH]; intros s Hq; [by exists s |].
  cbn [map concat fst snd] in *. subst sc. rewrite <- !app_assoc in Hq. cbn [poll_all_targets]. unfold query_device.
  destruct (query_exchange _ _ losses a r _ Hl Ha (S (Z.to_nat retry_count)) None s ltac:(lia) Hq) as (s1 & -> & Hq1).
  destruct (IH s1 Hq1) as (s2 & -> & Hq2). by exists s2.
Qed.

(** C21: A poll reads every device.  For each target the line may lose up to the configured
    number of retries - requests that fail, silence, truncated or damaged frames - and then
    brings an answer, with or without the echo of the request, in chunks of any size and
    with anything after it: the poll then reports no failure and, in the order of the
    targets, the power each answer carries; the channel stays connected and counts the
    reads.  Bytes left from earlier exchanges play no part. *)
Theorem poll_reads_every_device ch s xs : vc_serial ch = Some s -> 0 <= vcf_retry_count (vc_config ch) ->
  exchanges (vcf_retry_count (vc_config ch)) (vc_poll_targets ch) xs -> data_only (ser_input s) -> ser_script s = concat (map fst xs) ->
  exists ch' s', Voltage485Channel_poll_once ch = (ch', mkV485PollResult (zip_with reading (vc_poll_targets ch) (map snd xs)) []) /\
    vc_serial ch' = Some s' /\ data_only (ser_input s') /\ ser_script s' = [] /\ vc_state ch' = vc_state ch /\
    vc_diagnostics ch' = AtomicDiagnostics_add_error (AtomicDiagnostics_add_read (vc_diagnostics ch) (length (vc_poll_targets ch))) 0.
Proof.
  intros Hs Hr Hx Hin Hsc. unfold Voltage485Channel_poll_once. rewrite Hs.
  destruct (poll_exchanges _ _ xs [] Hr Hx s) as (s' & -> & [Hin' Hsc']); [by rewrite app_nil_r |]. by eexists _, s'.
Qed.

(** Whatever the line does, every target is accounted for once, as a reading or as a
    failure, and the counters say how many of each. *)
Lemma poll_all_accounts retry_count targets : forall serial,
  let '(_, batch, failures, ok, err) := poll_all_targets retry_count serial targets in
  map dp_id batch ++ map fst failures ≡ₚ map tg_point_id targets /\ ok = length batch /\ err = length failures.
Proof.
  induction targets as [|t targets IH]; intros serial; [done |]. cbn [poll_all_targets]. destruct (query_device _ _ _ _) as [serial1 r].
  specialize (IH serial1). destruct (poll_all_targets retry_count serial1 targets) as [[[[serial2 batch] failures] ok] err].
  destruct IH as (Hp & -> & ->). destruct r; cbn [map length dp_id DataPoint_new fst app]; (split; [| done]); [by rewrite Hp |].
  rewrite <- Hp. symmetry. apply Permutation_middle.
Qed.

(** However the line behaves - write failures, timeouts, read errors, the end of the
    stream, arbitrary bytes - a poll of a connected or disconnected channel returns, accounts
    for every configured point exactly once as a reading or as a failure, and changes neither
    the connection state nor the targets. *)
Theorem poll_accounts_for_every_point ch :
  let '(ch', res) := Voltage485Channel_poll_once ch in
  map dp_id (vpr_data res) ++ map fst (vpr_failures res) ≡ₚ map tg_point_id (vc_poll_targets ch) /\
  vc_state ch' = vc_state ch /\ vc_poll_targets ch' = vc_poll_targets ch /\
  (vc_serial ch = None -> ch' = ch /\ vpr_data res = []) /\
  (vc_serial ch <> None -> vc_diagnostics ch' =
     AtomicDiagnostics_add_error (AtomicDiagnostics_add_read (vc_diagnostics ch) (length (vpr_data res))) (length (vpr_failures res))).
Proof.
  unfold Voltage485Channel_poll_once. destruct (vc_serial ch) as [s|] eqn:Hs.
  - pose proof (poll_all_accounts (vcf_retry_count (vc_config ch)) (vc_poll_targets ch) (Some s)) as H.
    destruct (poll_all_targets _ _ _) as [[[[serial batch] failures] ok] err]. destruct H as (Hp & -> & ->). done.
  - cbn [vpr_data vpr_failures map app]. rewrite map_map. done.
Qed.

Definition sample_targets : list PollTarget := [mkPollTarget 10 Telemetry 1 1; mkPollTarget 20 Telemetry 2 1].
Definition sample_v485 (retry_count : Z) (s : SerialStream) : Voltage485Channel :=
  (Voltage485Channel_connect (Voltage485Channel_new (mkVoltage485ChannelConfig "/dev/ttyAP0" 115200 1000 retry_count 50) 3 "meter" sample_targets) (Ok s)).1.
(** Device 1 answers a retry, after a damaged frame, in two chunks and behind the echo;
    device 2, of the older firmware, answers at once with a stray byte after it. *)
Definition sample_exchanges : list (list (SendEvent * list ReadEvent) * DeviceResponse) :=
  let answer := response_frame sample_response [] in
  [([(SDone, [RData sample_damaged]); (SDone, [RData (build_request 1 1 ++ take 2 answer); RData (drop 2 answer)])], sample_response);
   ([(SDone, [RData (response_frame (mkDeviceResponse 2 None 730) [] ++ [0])])], mkDeviceResponse 2 None 730)].

Ltac solve_data_only := repeat constructor; eexists _, _; reflexivity.

Lemma poll_reads_every_device_witness :
  let s := mkSerialStream [RData [1; 2; 3]] (concat (map fst sample_exchanges)) [] in
  exists ch', Voltage485Channel_poll_once (sample_v485 1 s) =
    (ch', mkV485PollResult [DataPoint_new 10 Telemetry (PFloat (f64_of_Z 1500)); DataPoint_new 20 Telemetry (PFloat (f64_of_Z 730))] []).
Proof.
  intros s. destruct (poll_reads_every_device (sample_v485 1 s) s sample_exchanges) as (ch' & _ & H & _); [done | done | | solve_data_only | done | by exists ch'].
  constructor; [| constructor; [| constructor]].
  - exists [(SDone, [RData sample_damaged])], (SDone, [RData (build_request 1 1 ++ take 2 (response_frame sample_response [])); RData (drop 2 (response_frame sample_response []))]).
    split; [done |]. split; [done |]. split; [constructor; [split; [solve_data_only | vm_compute; reflexivity] | constructor] |].
    split; [done |]. split; [solve_data_only |]. exists (build_request 1 1), [], []. split; [by right |]. split; [| vm_compute; reflexivity].
    constructor; cbn; try done; [by intros c [= <-] | constructor | lia].
  - exists [], (SDone, [RData (response_frame (mkDeviceResponse 2 None 730) [] ++ [0])]).
    split; [done |]. split; [done |]. split; [constructor |].
    split; [done |]. split; [solve_data_only |]. exists [], [], [0]. split; [by left |]. split; [| vm_compute; reflexivity].
    constructor; cbn; try done; [constructor | lia].
Defined.

(** ** Answers that come late *)

(** A response is not tied to its request.  With no retries configured, when the answer
    of the first device arrives only after the second device was asked, the poll reports the
    first point as failed and stores the first device's reading under the second point,
    whatever the second device then sends. *)
Theorem late_answer_misattributed ch s t1 t2 r1 extra a trailing : vc_serial ch = Some s -> vcf_retry_count (vc_config ch) = 0 ->
  vc_poll_targets ch = [t1; t2] -> data_only (ser_input s) -> ser_script s = [(SDone, []); (SDone, a)] ->
  data_only a -> response_ok r1 extra -> flat a = response_frame r1 extra ++ trailing ->
  exists ch', Voltage485Channel_poll_once ch =
    (ch', mkV485PollResult [reading t2 r1] [(tg_point_id t1, V485ReadFailure V485ReadTimeout)]).
Proof.
  intros Hs Hr Ht Hin Hsc Hda Hro Hf. unfold Voltage485Channel_poll_once. rewrite Hs, Hr, Ht. cbn [poll_all_targets].
  unfold query_device at 1. cbn [Z.to_nat query_attempts transact]. unfold serial_write_all. cbn [set_input ser_script ser_input].
  rewrite Hsc, drain_data by done. cbn [app read_one_frame read_exact ser_input]. cbn [default set_input]. unfold query_device.
  set (s1 := set_input _ _). assert (Hq : quiet s1 [(SDone, a)]) by (split; [constructor | done]).
  assert (Ha : answered (build_request (tg_device_id t2) (tg_cmd t2)) r1 (SDone, a))
    by (split; [done |]; split; [done |]; exists [], extra, trailing; split; [by left | done]).
  destruct (query_exchange _ _ [] _ _ [] (Forall_nil_2 _) Ha 1 None s1 ltac:(cbn; lia) Hq) as (s2 & Hq2 & _).
  change (Z.to_nat 0) with 0%nat.
  change (query_attempts 0 (Some s1) _ (Some V485ReadTimeout)) with (Some s1, Err V485ReadTimeout : result DeviceResponse V485Error).
  cbv beta iota. rewrite Hq2. by eexists.
Qed.

Lemma late_answer_misattributed_witness :
  let late := response_frame sample_response [] ++ response_frame (mkDeviceResponse 2 (Some 1) 730) [] in
  exists ch', Voltage485Channel_poll_once (sample_v485 0 (mkSerialStream [] [(SDone, []); (SDone, [RData late])] [])) =
    (ch', mkV485PollResult [DataPoint_new 20 Telemetry (PFloat (f64_of_Z 1500))] [(10, V485ReadFailure V485ReadTimeout)]).
Proof.
  intros late. set (s := mkSerialStream _ _ _).
  destruct (late_answer_misattributed (sample_v485 0 s) s (mkPollTarget 10 Telemetry 1 1) (mkPollTarget 20 Telemetry 2 1) sample_response []
              [RData late] (response_frame (mkDeviceResponse 2 (Some 1) 730) [])) as (ch' & H).
  1-3, 5: reflexivity.
  - constructor.
  - solve_data_only.
  - constructor; cbn; [done | by intros c [= <-] | done | constructor | lia].
  - cbn [flat map concat]. by rewrite app_nil_r.
  - exists ch'. exact H.
Defined.

(** ** The factory *)

(** The scale, the offset and the inversion of the configured points never reach the
    channel: a reading is the raw power whatever they say. *)
Theorem transforms_ignored parse_json channel_id name params rc rc' :
  map tp_base (rc_telemetry_points rc) = map tp_base (rc_telemetry_points rc') -> map sp_base (rc_signal_points rc) = map sp_base (rc_signal_points rc') ->
  create_voltage_485_channel parse_json channel_id name params rc = create_voltage_485_channel parse_json channel_id name params rc'.
Proof.
  intros Ht Hs. unfold create_voltage_485_channel. do 2 f_equal.
  - by rewrite <- !(omap_map (target_of parse_json Telemetry) tp_base), Ht.
  - by rewrite <- !(omap_map (target_of parse_json Signal) sp_base), Hs.
Qed.

(** * Under the channel task *)

(** Connected to a port on which nothing answers any more, with what opening the port will
    return. *)
Definition silent_v485 (opens : list (result SerialStream V485Error)) (p : v485_runtime) : Prop :=
  vc_state p.1 = CsConnected /\ p.2 = opens /\ exists s, vc_serial p.1 = Some s /\ quiet s [].

Lemma transact_silent s request : quiet s [] -> exists s', transact (Some s) request = (Some s', Err V485ReadTimeout) /\ quiet s' [].
Proof.
  intros [Hin Hsc]. unfold transact, serial_write_all. cbn [set_input ser_script ser_input]. rewrite Hsc, drain_data by done.
  cbn [app read_one_frame read_exact ser_input set_input]. eexists. split; [reflexivity |]. split; [constructor | done].
Qed.

Lemma query_silent request n : forall s last_err, quiet s [] ->
  exists s' e, query_attempts n (Some s) request last_err = (Some s', Err e) /\ quiet s' [].
Proof.
  induction n as [|n IH]; intros s last_err Hq; [by eexists s, _ |]. cbn [query_attempts].
  destruct (transact_silent s request Hq) as (s' & -> & Hq'). apply IH, Hq'.
Qed.

Lemma poll_silent retry_count targets : forall s, quiet s [] ->
  exists s' failures err, poll_all_targets retry_count (Some s) targets = (Some s', [], failures, 0%nat, err) /\ quiet s' [].
Proof.
  induction targets as [|t targets IH]; intros s Hq; [by eexists s, _, _ |]. cbn [poll_all_targets]. unfold query_device.
  destruct (query_silent (build_request (tg_device_id t) (tg_cmd t)) (S (Z.to_nat retry_count)) s None Hq) as (s1 & e & -> & Hq1).
  destruct (IH s1 Hq1) as (s2 & failures & err & -> & Hq2). by eexists s2, _, _.
Qed.

Lemma silent_v485_polls opens p : silent_v485 opens p -> exists p' f, rt_poll_once p = (p', [], f) /\ silent_v485 opens p'.
Proof.
  intros (Hst & Ho & s & Hs & Hq). cbn. unfold Voltage485Channel_poll_once. rewrite Hs.
  destruct (poll_silent (vcf_retry_count (vc_config p.1)) (vc_poll_targets p.1) s Hq) as (s' & failures & err & -> & Hq').
  eexists _, _. split; [reflexivity |]. split; [done |]. split; [done |]. by exists s'.
Qed.

Lemma v485_failed_connect_offline : failed_connect_offline (P := v485_runtime).
Proof.
  split; [| done]. intros [ch opens] p'. cbn. unfold v485_connect. cbn [snd]. destruct opens as [|[port|e] opens]; by intros [= <-].
Qed.

(** A line that has gone silent is opened again.  A connected Voltage-485 channel on
    which no device answers delivers no data, so at the configured number of empty polls the
    task drops the port; the next undisturbed tick opens it anew, and when that succeeds the
    channel is connected to the new port with its targets unchanged. *)
Theorem silent_line_reopened threshold ticks i s opens port : silent_v485 (Ok port :: opens) (ts_proto s) ->
  0 <= ts_zero_data s < threshold -> threshold < 2 ^ 32 -> ts_zero_data s + Z.of_nat (length ticks) = threshold ->
  rp_max_attempts (rh_policy (ts_helper s)) = 0 -> ti_cmd i = None ->
  exists s', task_loop threshold s (map InTick (ticks ++ [i])) = (s', false) /\
    vc_serial (ts_proto s').1 = Some port /\ vc_state (ts_proto s').1 = CsConnected /\ (ts_proto s').2 = opens.
Proof.
  intros Hs Hz Ht Hl Hmax Hi.
  destruct (silent_channel_reconnects threshold (silent_v485 (Ok port :: opens))) with (ticks := ticks) (i := i) (s := s)
    as (s' & p & ok & Hloop & (Hst & Ho & _) & Hcon); try done.
  - intros p (Hst & _). unfold is_online. cbn. by rewrite Hst.
  - apply silent_v485_polls.
  - apply v485_failed_connect_offline.
  - exists s'. split; [done |]. specialize (Hcon eq_refl). cbn in Hcon. unfold v485_connect in Hcon. cbn [snd] in Hcon. rewrite Ho in Hcon.
    cbn in Hcon. injection Hcon as <- _. done.
Qed.

Definition sample_v485_task : TaskState v485_runtime DataPoint :=
  task_init (sample_v485 2 (mkSerialStream [RData [0x5A]] [] []), [Ok (mkSerialStream [] [] [])]) sim_cells sim_policy None.

Lemma silent_line_reopened_witness :
  let ticks := [sim_tick 1 None; sim_tick 2 None; sim_tick 3 None] in
  exists s', task_loop 3 sample_v485_task (map InTick (ticks ++ [sim_tick 4 None])) = (s', false) /\
    vc_serial (ts_proto s').1 = Some (mkSerialStream [] [] []) /\ vc_state (ts_proto s').1 = CsConnected /\ (ts_proto s').2 = [].
Proof.
  intros ticks. apply (silent_line_reopened 3 ticks (sim_tick 4 None) sample_v485_task [] (mkSerialStream [] [] [])).
  - split; [reflexivity |]. split; [reflexivity |]. eexists. split; [reflexivity |]. split; [solve_data_only | reflexivity].
  - split; vm_compute; congruence.
  - lia.
  - reflexivity.
  - reflexivity.
  - reflexivity.
Defined.
