(* ===== verification/Gpio.v ===== *)
(** The GPIO adapter of comsrv: [services/comsrv/src/protocols/adapters/gpio.rs] and the
    factory [create_gpio_channel] of [core/channels/factory.rs].

    The hardware is reached through a driver, the trait [GpioDriver]: here a class, with the
    sysfs driver as an instance over any file system that offers the GPIO files, and what a
    driver promises to the channel in a class of its own.  The character-device driver calls
    a third-party library; of it the resolution of global GPIO numbers is modelled.  The
    pauses after an export, log lines and metadata are left out. *)
From stdpp Require Import base numbers list gmap strings pretty.
From Stdlib Require Import ZArith Lia.
From S2P Require Import Prelude PointTypes Routing Registers Listener Reconnect ChannelTask Modbus ModbusPoints SlotStores MmsTransport Iec61850 Voltage485.
Local Open Scope Z_scope.
Set Warnings "-clear-no-such-hyp".

(** * Pins *)

Inductive GpioDirection := GpioInput | GpioOutput.
#[export] Instance GpioDirection_eq : EqDecision GpioDirection.
Proof. solve_decision. Defined.

Record GpioPinConfig := mkGpioPinConfig {
  gp_chip : string; gp_pin : Z; gp_gpio_number : option Z; gp_direction : GpioDirection;
  gp_point_id : Z; gp_point_type : PointType; gp_active_low : bool; gp_debounce_us : option Z }.
Definition GpioPinConfig_digital_input (chip : string) (pin point_id : Z) : GpioPinConfig := mkGpioPinConfig chip pin None GpioInput point_id Signal false (Some 1000).
Definition GpioPinConfig_digital_output (chip : string) (pin point_id : Z) : GpioPinConfig := mkGpioPinConfig chip pin None GpioOutput point_id Control false None.
Definition GpioPinConfig_digital_input_sysfs (gpio_number point_id : Z) : GpioPinConfig := mkGpioPinConfig "" 0 (Some gpio_number) GpioInput point_id Signal false (Some 1000).
Definition GpioPinConfig_digital_output_sysfs (gpio_number point_id : Z) : GpioPinConfig := mkGpioPinConfig "" 0 (Some gpio_number) GpioOutput point_id Control false None.
Definition GpioPinConfig_with_active_low (p : GpioPinConfig) (active_low : bool) : GpioPinConfig :=
  mkGpioPinConfig (gp_chip p) (gp_pin p) (gp_gpio_number p) (gp_direction p) (gp_point_id p) (gp_point_type p) active_low (gp_debounce_us p).

Inductive GpioDriverType := Gpiod | Sysfs (base_path : string).
Record GpioChannelConfig := mkGpioChannelConfig { gc_driver : GpioDriverType; gc_pins : list GpioPinConfig; gc_poll_interval_ms : Z }.
Definition GpioChannelConfig_default : GpioChannelConfig := mkGpioChannelConfig Gpiod [] 100.
Definition GpioChannelConfig_new_sysfs (base_path : string) : GpioChannelConfig := mkGpioChannelConfig (Sysfs base_path) [] 100.
Definition GpioChannelConfig_with_poll_interval (c : GpioChannelConfig) (ms : Z) : GpioChannelConfig := mkGpioChannelConfig (gc_driver c) (gc_pins c) ms.
Definition GpioChannelConfig_add_pin (c : GpioChannelConfig) (pin : GpioPinConfig) : GpioChannelConfig :=
  mkGpioChannelConfig (gc_driver c) (gc_pins c ++ [pin]) (gc_poll_interval_ms c).
Definition input_pins (c : GpioChannelConfig) : list GpioPinConfig := filter (fun p => gp_direction p = GpioInput) (gc_pins c).
Definition output_pins (c : GpioChannelConfig) : list GpioPinConfig := filter (fun p => gp_direction p = GpioOutput) (gc_pins c).

(** The parameters of a channel, as the unused configuration struct reads them. *)
Record GpioChannelParamsConfig := mkGpioChannelParamsConfig { gpc_driver : string; gpc_sysfs_base_path : string; gpc_poll_interval_ms : Z }.
Definition GpioChannelParamsConfig_driver_type (c : GpioChannelParamsConfig) : GpioDriverType :=
  if String.eqb (map_string ascii_lower (gpc_driver c)) "sysfs" then Sysfs (gpc_sysfs_base_path c) else Gpiod.
Definition GpioChannelParamsConfig_to_config (c : GpioChannelParamsConfig) : GpioChannelConfig :=
  mkGpioChannelConfig (GpioChannelParamsConfig_driver_type c) [] (gpc_poll_interval_ms c).

Inductive GpioError :=
| GpioNumberNotSet (point_id : Z) | GpioExportFailed (n : Z) | GpioDirectionFailed (n : Z) | GpioReadFailed (n : Z) | GpioWriteFailed (n : Z)
| GpioSysfsMissing | GpioNotFound (n : Z).

(** * Global GPIO numbers *)

Record GpioChipInfo := mkGpioChipInfo { ci_name : string; ci_base : Z; ci_ngpio : Z }.
(** [None] when the directory does not exist; the chips come in the order of the directory. *)
Definition resolve_gpio_to_chip_line (chips : option (list GpioChipInfo)) (gpio_number : Z) : result (string * Z) GpioError :=
  match chips with
  | None => Err GpioSysfsMissing
  | Some chips =>
      match list_find (fun c => ci_base c <= gpio_number /\ gpio_number < wrapping_add 32 (ci_base c) (ci_ngpio c)) chips with
      | Some (_, c) => Ok (ci_name c, gpio_number - ci_base c)
      | None => Err (GpioNotFound gpio_number)
      end
  end.
Definition resolve_chip_line (chips : option (list GpioChipInfo)) (pin : GpioPinConfig) : result (string * Z) GpioError :=
  match gp_gpio_number pin with
  | Some n =>
      if String.eqb (gp_chip pin) "" || String.eqb (gp_chip pin) "gpiochip0" then
        if n <? 32 then Ok (gp_chip pin, gp_pin pin) else resolve_gpio_to_chip_line chips n
      else Ok (gp_chip pin, gp_pin pin)
  | None => Ok (gp_chip pin, gp_pin pin)
  end.

(** * Drivers *)

Class GpioDriver (H : Type) := {
  gd_read_pin : H -> GpioPinConfig -> H * result bool GpioError;
  gd_write_pin : H -> GpioPinConfig -> bool -> H * result unit GpioError;
  gd_init_output_pin : H -> GpioPinConfig -> H * result unit GpioError;
}.

(** The files under the base path of sysfs. *)
Inductive SysfsPath := ExportFile | GpioDir (n : Z) | ValueFile (n : Z) | DirectionFile (n : Z).
Class SysfsFiles (F : Type) := {
  fs_exists : F -> SysfsPath -> bool;
  fs_read : F -> SysfsPath -> option string;
  fs_write : F -> SysfsPath -> string -> F * bool;
}.

Definition require_gpio_number (pin : GpioPinConfig) : result Z GpioError :=
  match gp_gpio_number pin with Some n => Ok n | None => Err (GpioNumberNotSet (gp_point_id pin)) end.

Section SysfsDriver.
Context {F : Type} {FS : SysfsFiles F}.

Definition set_direction_out (fs : F) (n : Z) : F * result unit GpioError :=
  if String.eqb (trim (default EmptyString (fs_read fs (DirectionFile n)))) "out" then (fs, Ok tt)
  else let '(fs, ok) := fs_write fs (DirectionFile n) "out" in (fs, if ok then Ok tt else Err (GpioDirectionFailed n)).
Definition ensure_output (fs : F) (n : Z) : F * result unit GpioError :=
  if fs_exists fs (GpioDir n) then set_direction_out fs n
  else
    let '(fs, ok) := fs_write fs ExportFile (pretty n) in
    if ok then set_direction_out fs n else (fs, Err (GpioExportFailed n)).
Definition sysfs_read_pin (fs : F) (pin : GpioPinConfig) : F * result bool GpioError :=
  match require_gpio_number pin with
  | Err e => (fs, Err e)
  | Ok n => match fs_read fs (ValueFile n) with Some s => (fs, Ok (String.eqb (trim s) "1")) | None => (fs, Err (GpioReadFailed n)) end
  end.
Definition sysfs_write_pin (fs : F) (pin : GpioPinConfig) (value : bool) : F * result unit GpioError :=
  match require_gpio_number pin with
  | Err e => (fs, Err e)
  | Ok n =>
      match ensure_output fs n with
      | (fs, Err e) => (fs, Err e)
      | (fs, Ok _) => let '(fs, ok) := fs_write fs (ValueFile n) (if value then "1" else "0") in (fs, if ok then Ok tt else Err (GpioWriteFailed n))
      end
  end.
Definition sysfs_init_output_pin (fs : F) (pin : GpioPinConfig) : F * result unit GpioError :=
  match require_gpio_number pin with Err e => (fs, Err e) | Ok n => ensure_output fs n end.

#[export] Instance SysfsDriver : GpioDriver F :=
  {| gd_read_pin := sysfs_read_pin; gd_write_pin := sysfs_write_pin; gd_init_output_pin := sysfs_init_output_pin |}.
End SysfsDriver.

(** * The channel *)

Inductive GpioWriteFailure := OutputPinNotFound | DriverFailure (e : GpioError).
Record GpioWriteResult := mkGpioWriteResult { gw_success_count : nat; gw_failures : list (Z * GpioWriteFailure) }.
Inductive GpioRefusal := GpioNotConnected | GpioUnsupported.

Record GpioChannel (H : Type) := mkGpioChannel {
  gch_config : GpioChannelConfig;
  gch_hw : H;
  gch_state : ConnState;
  gch_read_count : Z;
  gch_write_count : Z;
  gch_error_count : Z;
  gch_output_states : AtomicBoolStore;
}.
Arguments mkGpioChannel {H}.
Arguments gch_config {H}.
Arguments gch_hw {H}.
Arguments gch_state {H}.
Arguments gch_read_count {H}.
Arguments gch_write_count {H}.
Arguments gch_error_count {H}.
Arguments gch_output_states {H}.

Section Channel.
Context {H : Type} {DR : GpioDriver H}.
Abbreviation channel := (GpioChannel H).

(** [with_driver]: a channel is connected from the start. *)
Definition GpioChannel_with_driver (config : GpioChannelConfig) (hw : H) : channel :=
  mkGpioChannel config hw CsConnected 0 0 0 (AtomicBoolStore_from_pins (map gp_point_id (output_pins config))).
Definition put_hw (ch : channel) (hw : H) : channel :=
  mkGpioChannel (gch_config ch) hw (gch_state ch) (gch_read_count ch) (gch_write_count ch) (gch_error_count ch) (gch_output_states ch).
Definition GpioChannel_set_state (ch : channel) (s : ConnState) : channel :=
  mkGpioChannel (gch_config ch) (gch_hw ch) s (gch_read_count ch) (gch_write_count ch) (gch_error_count ch) (gch_output_states ch).
Definition put_output_states (ch : channel) (s : AtomicBoolStore) : channel :=
  mkGpioChannel (gch_config ch) (gch_hw ch) (gch_state ch) (gch_read_count ch) (gch_write_count ch) (gch_error_count ch) s.
Definition inc_read (ch : channel) : channel :=
  mkGpioChannel (gch_config ch) (gch_hw ch) (gch_state ch) (wrapping_add 64 (gch_read_count ch) 1) (gch_write_count ch) (gch_error_count ch) (gch_output_states ch).
Definition add_write (ch : channel) (n : nat) : channel :=
  mkGpioChannel (gch_config ch) (gch_hw ch) (gch_state ch) (gch_read_count ch) (wrapping_add 64 (gch_write_count ch) (Z.of_nat n)) (gch_error_count ch) (gch_output_states ch).
Definition gpio_record_error (ch : channel) : channel :=
  mkGpioChannel (gch_config ch) (gch_hw ch) (gch_state ch) (gch_read_count ch) (gch_write_count ch) (wrapping_add 64 (gch_error_count ch) 1) (gch_output_states ch).

Definition adjust (pin : GpioPinConfig) (value : bool) : bool := if gp_active_low pin then negb value else value.
Definition GpioChannel_read_pin (ch : channel) (pin : GpioPinConfig) : channel * result DataPoint GpioError :=
  let '(hw, r) := gd_read_pin (gch_hw ch) pin in
  (put_hw ch hw, let? raw := r in Ok (DataPoint_new (gp_point_id pin) (gp_point_type pin) (PBool (adjust pin raw)))).
Definition GpioChannel_write_pin (ch : channel) (pin : GpioPinConfig) (value : bool) : channel * result unit GpioError :=
  let adjusted := adjust pin value in
  let '(hw, r) := gd_write_pin (gch_hw ch) pin adjusted in
  let ch := put_hw ch hw in
  (match r with Ok _ => put_output_states ch (AtomicBoolStore_set (gch_output_states ch) (gp_point_id pin) adjusted) | Err _ => ch end, r).
Definition read_output_state (ch : channel) (point_id : Z) : option bool := AtomicBoolStore_get (gch_output_states ch) point_id.

Fixpoint read_inputs (ch : channel) (pins : list GpioPinConfig) : channel * list DataPoint * list (Z * GpioError) :=
  match pins with
  | [] => (ch, [], [])
  | pin :: pins =>
      match GpioChannel_read_pin ch pin with
      | (ch, Ok point) => let '(ch, batch, failures) := read_inputs ch pins in (ch, point :: batch, failures)
      | (ch, Err e) => let '(ch, batch, failures) := read_inputs (gpio_record_error ch) pins in (ch, batch, (gp_point_id pin, e) :: failures)
      end
  end.
Definition output_point (ch : channel) (pin : GpioPinConfig) : option DataPoint :=
  s ← read_output_state ch (gp_point_id pin); Some (DataPoint_new (gp_point_id pin) (gp_point_type pin) (PBool s)).
Definition GpioChannel_read_all (ch : channel) : channel * list DataPoint * list (Z * GpioError) :=
  let '(ch, batch, failures) := read_inputs ch (input_pins (gch_config ch)) in
  (inc_read ch, batch ++ omap (output_point ch) (output_pins (gch_config ch)), failures).

Definition GpioChannel_connect (ch : channel) : channel :=
  GpioChannel_set_state (put_hw ch (foldl (fun hw pin => (gd_init_output_pin hw pin).1) (gch_hw ch) (output_pins (gch_config ch)))) CsConnected.
Definition GpioChannel_disconnect (ch : channel) : channel := GpioChannel_set_state ch CsDisconnected.
Definition GpioChannel_poll_once (ch : channel) : channel * list DataPoint * list (Z * GpioError) := GpioChannel_read_all ch.

Definition find_output (ch : channel) (id : Z) : option GpioPinConfig :=
  snd <$> list_find (fun p => gp_point_id p = id /\ gp_direction p = GpioOutput) (gc_pins (gch_config ch)).
Definition control_one (ch : channel) (cmd : ControlCommand) : channel * option GpioWriteFailure :=
  match find_output ch (cc_id cmd) with
  | None => (ch, Some OutputPinNotFound)
  | Some pin => let '(ch, r) := GpioChannel_write_pin ch pin (cc_value cmd) in (ch, match r with Ok _ => None | Err e => Some (DriverFailure e) end)
  end.
Fixpoint control_all (ch : channel) (cmds : list ControlCommand) : channel * GpioWriteResult :=
  match cmds with
  | [] => (ch, mkGpioWriteResult 0 [])
  | cmd :: cmds =>
      let '(ch, failure) := control_one ch cmd in
      let '(ch, w) := control_all ch cmds in
      (ch, match failure with
           | None => mkGpioWriteResult (S (gw_success_count w)) (gw_failures w)
           | Some e => mkGpioWriteResult (gw_success_count w) ((cc_id cmd, e) :: gw_failures w)
           end)
  end.
Definition GpioChannel_write_control (ch : channel) (cmds : list ControlCommand) : channel * result GpioWriteResult GpioRefusal :=
  if negb (ConnState_is_connected (gch_state ch)) then (ch, Err GpioNotConnected)
  else let '(ch, w) := control_all ch cmds in (add_write ch (gw_success_count w), Ok w).
Definition GpioChannel_write_adjustment (ch : channel) (adjustments : list AdjustmentCommand) : channel * result GpioWriteResult GpioRefusal := (ch, Err GpioUnsupported).

(** The runtime: any value but zero switches on. *)
Definition latching (cmd : Z * Z) : ControlCommand := ControlCommand_latching cmd.1 (negb (f64_eqb cmd.2 f64_zero)).
Definition counted_result (r : result GpioWriteResult GpioRefusal) : option Z := match r with Ok w => Some (Z.of_nat (gw_success_count w)) | Err _ => None end.
#[export] Instance gpio_runtime : ChannelRuntime channel DataPoint := {|
  rt_connection_state ch := gch_state ch;
  rt_connect ch := (GpioChannel_connect ch, true);
  rt_connect_hangs _ := None;
  rt_disconnect := GpioChannel_disconnect;
  rt_poll_once ch := let '(ch, batch, failures) := GpioChannel_poll_once ch in (ch, batch, length failures);
  rt_write_control ch cmds := let '(ch, r) := GpioChannel_write_control ch (map latching cmds) in (ch, counted_result r);
  rt_write_adjustment ch adjustments := let '(ch, r) := GpioChannel_write_adjustment ch (map (fun '(id, v) => mkAdjustmentCommand id v) adjustments) in (ch, counted_result r);
  rt_diagnostics ch := Some (gch_error_count ch);
  rt_set_log_config ch _ := ch;
|}.
End Channel.

(** * The factory *)

Section Factory.
Variable parse_json : string -> option MappingJson.

Definition parse_gpio_number (protocol_mappings : option string) : option Z :=
  json_str ← protocol_mappings;
  json ← parse_json json_str;
  match json with JObject fields => wrap 32 <$> as_u64 (fields !! "gpio_number"%string) | JNotObject => None end.
Definition input_pin_of (pt : SignalPoint) : option GpioPinConfig :=
  n ← parse_gpio_number (pt_protocol_mappings (sp_base pt));
  Some (GpioPinConfig_with_active_low (GpioPinConfig_digital_input_sysfs n (pt_point_id (sp_base pt))) (sp_reverse pt)).
Definition output_pin_of (pt : ControlPoint) : option GpioPinConfig :=
  n ← parse_gpio_number (pt_protocol_mappings (cp_base pt));
  Some (GpioPinConfig_with_active_low (GpioPinConfig_digital_output_sysfs n (pt_point_id (cp_base pt))) (cp_reverse pt)).
Definition gpio_channel_config (params : gmap string JsonField) (rc : RuntimeChannelConfig) : GpioChannelConfig :=
  let config := GpioChannelConfig_new_sysfs "/sys/class/gpio" in
  let config := match as_u64 (params !! "poll_interval_ms"%string) with Some ms => GpioChannelConfig_with_poll_interval config ms | None => config end in
  foldl GpioChannelConfig_add_pin config (omap input_pin_of (rc_signal_points rc) ++ omap output_pin_of (rc_control_points rc)).
Definition create_gpio_channel {F} `{SysfsFiles F} (fs : F) (params : gmap string JsonField) (rc : RuntimeChannelConfig) : GpioChannel F :=
  GpioChannel_with_driver (gpio_channel_config params rc) fs.
End Factory.

(** * What a driver promises *)

(** The lines behind the pins, and their levels. *)
Class GpioDriverSpec (H : Type) `{GpioDriver H} (K : Type) := {
  gs_line : GpioPinConfig -> option K;
  gs_level : H -> K -> bool;
  gs_written : forall h pin v h', gd_write_pin h pin v = (h', Ok tt) -> exists k, gs_line pin = Some k /\ gs_level h' k = v;
  gs_write_keeps : forall h pin v k, gs_line pin <> Some k -> gs_level (gd_write_pin h pin v).1 k = gs_level h k;
  gs_read : forall h pin b, (gd_read_pin h pin).2 = Ok b -> exists k, gs_line pin = Some k /\ gs_level h k = b;
  gs_read_keeps : forall h pin k, gs_level (gd_read_pin h pin).1 k = gs_level h k;
}.

(** What the kernel documents of the sysfs files: a value that was written is on the line, a
    value read is the level of the line, and a write to the files of a line, its export
    included, does not touch the others. *)
Class SysfsFilesSpec (F : Type) `{SysfsFiles F} := {
  fs_level : F -> Z -> bool;
  fs_written : forall fs n (v : bool) fs', fs_write fs (ValueFile n) (if v then "1" else "0") = (fs', true) -> fs_level fs' n = v;
  fs_write_keeps : forall fs path s n, path <> ValueFile n -> path <> DirectionFile n -> (path = ExportFile -> s <> pretty n) -> fs_level (fs_write fs path s).1 n = fs_level fs n;
  fs_value : forall fs n s, fs_read fs (ValueFile n) = Some s -> String.eqb (trim s) "1" = fs_level fs n;
}.

Section SysfsSpec.
Context {F : Type} {FS : SysfsFiles F} {FP : SysfsFilesSpec F}.

Lemma set_direction_keeps fs n k : n <> k -> fs_level (set_direction_out fs n).1 k = fs_level fs k.
Proof.
  intros Hn. unfold set_direction_out. case_match; [done |]. pose proof (fs_write_keeps fs (DirectionFile n) "out" k ltac:(done) ltac:(congruence) ltac:(done)) as Hk.
  by destruct (fs_write fs (DirectionFile n) "out").
Qed.

Lemma ensure_output_keeps fs n k : n <> k -> fs_level (ensure_output fs n).1 k = fs_level fs k.
Proof.
  intros Hn. unfold ensure_output. destruct (fs_exists fs (GpioDir n)); [by apply set_direction_keeps |].
  pose proof (fs_write_keeps fs ExportFile (pretty n) k ltac:(done) ltac:(done)) as Hk. destruct (fs_write fs ExportFile (pretty n)) as [fs1 [|]].
  - rewrite set_direction_keeps by done. apply Hk. intros _ He. apply Hn. by apply (inj pretty).
  - apply Hk. intros _ He. apply Hn. by apply (inj pretty).
Qed.

#[export] Instance SysfsDriver_spec : GpioDriverSpec F Z.
Proof.
  refine {| gs_line := gp_gpio_number; gs_level := fs_level |}.
  - intros fs pin v fs'. cbn. unfold sysfs_write_pin, require_gpio_number. destruct (gp_gpio_number pin) as [n|]; [| done].
    destruct (ensure_output fs n) as [fs1 [[]|]]; [| done]. destruct (fs_write fs1 (ValueFile n) _) as [fs2 [|]] eqn:Hw; [| done].
    intros [= <-]. exists n. split; [done |]. by eapply fs_written.
  - intros fs pin v k Hk. cbn. unfold sysfs_write_pin, require_gpio_number. destruct (gp_gpio_number pin) as [n|]; [| done].
    assert (Hn : n <> k) by congruence. pose proof (ensure_output_keeps fs n k Hn) as He. destruct (ensure_output fs n) as [fs1 [[]|]]; [| done].
    pose proof (fs_write_keeps fs1 (ValueFile n) (if v then "1" else "0") k ltac:(congruence) ltac:(done) ltac:(done)) as Hw.
    destruct (fs_write fs1 (ValueFile n) _) as [fs2 ok]. cbn in *. congruence.
  - intros fs pin b. cbn. unfold sysfs_read_pin, require_gpio_number. destruct (gp_gpio_number pin) as [n|]; [| done].
    destruct (fs_read fs (ValueFile n)) as [s|] eqn:Hr; [| done]. intros [= <-]. exists n. split; [done |]. symmetry. by apply fs_value.
  - intros fs pin k. cbn. unfold sysfs_read_pin. destruct (require_gpio_number pin); [| done]. by case_match.
Defined.
End SysfsSpec.

(** * Controls and polls *)

Section Correct.
Context {H K : Type} {DR : GpioDriver H} {DS : GpioDriverSpec H K}.
Abbreviation channel := (GpioChannel H).

(** Distinct output points on distinct lines. *)
Record pins_ok (config : GpioChannelConfig) : Prop := {
  po_ids : NoDup (map gp_point_id (output_pins config));
  po_lines : forall p q k, p ∈ output_pins config -> q ∈ output_pins config -> gs_line p = Some k -> gs_line q = Some k -> p = q;
}.

(** The outputs of a channel: levels and cached states by point. *)
Definition cache_ok (ch : channel) (f : Z -> bool) : Prop := bool_store_ok (map gp_point_id (output_pins (gch_config ch))) f (gch_output_states ch).
(** What the last command of a point asks of its line. *)
Definition commanded (pin : GpioPinConfig) (cmds : list ControlCommand) (otherwise : bool) : bool :=
  match last (filter (fun c => cc_id c = gp_point_id pin) cmds) with Some c => adjust pin (cc_value c) | None => otherwise end.

Lemma find_output_pin (ch : channel) pin : NoDup (map gp_point_id (output_pins (gch_config ch))) -> pin ∈ output_pins (gch_config ch) -> find_output ch (gp_point_id pin) = Some pin.
Proof.
  unfold find_output, output_pins. generalize (gc_pins (gch_config ch)). clear. intros pins Hn Hin.
  destruct (list_find (fun p => gp_point_id p = gp_point_id pin /\ gp_direction p = GpioOutput) pins) as [[i q]|] eqn:Hf.
  - apply list_find_Some in Hf as (Hi & [Hid Hd] & _). cbn. f_equal. apply list_elem_of_lookup_2 in Hi.
    assert (Hq : q ∈ filter (fun p => gp_direction p = GpioOutput) pins) by by apply list_elem_of_filter.
    apply list_elem_of_lookup in Hq as [a Ha]. apply list_elem_of_lookup in Hin as [b Hb].
    assert (a = b) as <-; [| congruence]. apply (NoDup_lookup _ a b (gp_point_id pin) Hn).
    + change (map gp_point_id ?l) with (gp_point_id <$> l). rewrite list_lookup_fmap, Ha. cbn. congruence.
    + change (map gp_point_id ?l) with (gp_point_id <$> l). by rewrite list_lookup_fmap, Hb.
  - exfalso. apply list_find_None in Hf. apply list_elem_of_filter in Hin as [Hd Hin]. rewrite Forall_forall in Hf. by apply (Hf pin Hin).
Qed.

Lemma find_output_in (ch : channel) id pin : find_output ch id = Some pin -> pin ∈ output_pins (gch_config ch) /\ gp_point_id pin = id.
Proof.
  unfold find_output. destruct (list_find _ _) as [[i q]|] eqn:Hf; [| done]. intros [= <-]. apply list_find_Some in Hf as (Hi & [Hid Hd] & _).
  split; [| done]. apply list_elem_of_filter. split; [done |]. by eapply list_elem_of_lookup_2.
Qed.

(** One command changes the line and the cached state of its pin only. *)
Lemma control_one_spec (ch : channel) cmd f : pins_ok (gch_config ch) -> cache_ok ch f ->
  let '(ch', failure) := control_one ch cmd in
  gch_config ch' = gch_config ch /\ gch_state ch' = gch_state ch /\
  (forall q k, q ∈ output_pins (gch_config ch) -> gp_point_id q <> cc_id cmd -> gs_line q = Some k -> gs_level (gch_hw ch') k = gs_level (gch_hw ch) k) /\
  exists f', cache_ok ch' f' /\ (forall id, id <> cc_id cmd -> f' id = f id) /\
    (failure = None -> exists pin k, pin ∈ output_pins (gch_config ch) /\ gp_point_id pin = cc_id cmd /\ gs_line pin = Some k /\
       gs_level (gch_hw ch') k = adjust pin (cc_value cmd) /\ f' (cc_id cmd) = adjust pin (cc_value cmd)).
Proof.
  intros Hpins Hc. unfold control_one. destruct (find_output ch (cc_id cmd)) as [pin|] eqn:Hf; [| split; [done |]; split; [done |]; split; [done |]; by exists f].
  apply find_output_in in Hf as [Hin Hid]. unfold GpioChannel_write_pin. pose proof (gs_write_keeps (gch_hw ch) pin (adjust pin (cc_value cmd))) as Hkeep.
  destruct (gd_write_pin (gch_hw ch) pin (adjust pin (cc_value cmd))) as [hw r] eqn:Hw. cbn [fst] in Hkeep.
  assert (Hother : forall q k, q ∈ output_pins (gch_config ch) -> gp_point_id q <> cc_id cmd -> gs_line q = Some k -> gs_level hw k = gs_level (gch_hw ch) k).
  { intros q k Hq Hne Hk. apply Hkeep. intros Hpk. apply Hne. rewrite <- Hid. f_equal. by apply (po_lines _ Hpins q pin k). }
  destruct r as [[]|e]; cbn [gch_config gch_state gch_hw gch_output_states put_hw put_output_states]; (split; [done |]; split; [done |]; split; [exact Hother |]).
  - apply gs_written in Hw as (k & Hk & Hl).
    exists (fun x => if decide (x = gp_point_id pin) then adjust pin (cc_value cmd) else f x). split; [by apply bool_store_set; [apply Hpins |] |].
    split; [intros id Hne; rewrite decide_False by congruence; done |]. intros _. exists pin, k. rewrite decide_True by done. done.
  - exists f. done.
Qed.

Lemma control_all_spec cmds : forall (ch : channel) f, pins_ok (gch_config ch) -> cache_ok ch f ->
  let '(ch', w) := control_all ch cmds in
  gch_config ch' = gch_config ch /\ gch_state ch' = gch_state ch /\ (gw_success_count w + length (gw_failures w) = length cmds)%nat /\
  exists f', cache_ok ch' f' /\
    forall pin k, pin ∈ output_pins (gch_config ch) -> gs_line pin = Some k -> gp_point_id pin ∉ (gw_failures w).*1 ->
      gs_level (gch_hw ch') k = commanded pin cmds (gs_level (gch_hw ch) k) /\ f' (gp_point_id pin) = commanded pin cmds (f (gp_point_id pin)).
Proof.
  induction cmds as [|cmd cmds IH]; intros ch f Hpins Hc; cbn [control_all]; [split; [done |]; split; [done |]; split; [done |]; by exists f |].
  pose proof (control_one_spec ch cmd f Hpins Hc) as H1. destruct (control_one ch cmd) as [ch1 failure]. destruct H1 as (Hcfg1 & Hst1 & Hother & f1 & Hc1 & Hf1 & Hok).
  specialize (IH ch1 f1). rewrite Hcfg1 in IH. specialize (IH Hpins Hc1). destruct (control_all ch1 cmds) as [ch2 w]. destruct IH as (Hcfg2 & Hst2 & Hn & f2 & Hc2 & Hlines).
  split; [done |]. split; [congruence |]. split; [destruct failure; cbn; lia |]. exists f2. split; [done |].
  intros pin k Hin Hk Hnf. assert (Hnf2 : (gp_point_id pin ∉ (gw_failures w).*1) /\ ((gp_point_id pin = cc_id cmd) -> failure = None)).
  { destruct failure; cbn in Hnf; [| done]. apply not_elem_of_cons in Hnf as [Hne Hnf]. split; [done | congruence]. }
  destruct Hnf2 as [Hnf2 Hfail]. destruct (Hlines pin k Hin Hk Hnf2) as [-> ->]. unfold commanded. cbn [filter list_filter].
  destruct (decide (cc_id cmd = gp_point_id pin)) as [He|He].
  - rewrite last_cons. destruct (last (filter _ cmds)) as [c|]; [done |]. destruct (Hok (Hfail (eq_sym He))) as (pin' & k' & Hin' & Hid' & Hk' & Hl' & Hf').
    assert (pin' = pin) as ->.
    { pose proof (find_output_pin ch pin' (po_ids _ Hpins) Hin') as E1. pose proof (find_output_pin ch pin (po_ids _ Hpins) Hin) as E2. congruence. }
    rewrite Hk in Hk'. injection Hk' as <-. split; [done |]. by rewrite <- He.
  - destruct (last (filter _ cmds)) as [c|]; [done |]. rewrite (Hother pin k Hin ltac:(congruence) Hk), (Hf1 (gp_point_id pin) ltac:(congruence)). done.
Qed.

Lemma control_all_failures cmds : forall ch : channel, (gw_failures (control_all ch cmds).2).*1 ⊆ cc_id <$> cmds.
Proof.
  induction cmds as [|cmd cmds IH]; intros ch; [done |]. cbn [control_all]. unfold control_one. specialize (IH (control_one ch cmd).1). revert IH. unfold control_one.
  destruct (find_output ch (cc_id cmd)) as [pin|]; [destruct (GpioChannel_write_pin ch pin _) as [ch1 [[]|e]] |]; cbn [fst]; destruct (control_all _ cmds) as [ch2 w]; cbn; set_solver.
Qed.

Lemma commanded_none pin cmds b : gp_point_id pin ∉ cc_id <$> cmds -> commanded pin cmds b = b.
Proof.
  intros Hn. unfold commanded. assert (filter (fun c => cc_id c = gp_point_id pin) cmds = []) as ->; [| done].
  induction cmds as [|c cmds IH]; [done |]. cbn in Hn. rewrite filter_cons_False by set_solver. apply IH. set_solver.
Qed.

(** C26: Controls drive the pins.  A control call on a connected channel whose output points
    have distinct identifiers and distinct lines returns, and counts every command as a
    success or a failure.  An output that is commanded, none of whose commands failed, has
    its line at what its last command asks for, inverted when the pin is active low, and the
    state kept for feedback is that level.  An output that no command names keeps the level
    of its line and its feedback state, whatever these were and whatever happened to the
    other pins. *)
Theorem gpio_controls_drive_pins (ch : channel) cmds f : gch_state ch = CsConnected -> pins_ok (gch_config ch) -> cache_ok ch f ->
  exists ch' w, GpioChannel_write_control ch cmds = (ch', Ok w) /\ (gw_success_count w + length (gw_failures w) = length cmds)%nat /\
    (forall pin k c, pin ∈ output_pins (gch_config ch) -> gs_line pin = Some k -> gp_point_id pin ∉ (gw_failures w).*1 ->
      last (filter (fun c => cc_id c = gp_point_id pin) cmds) = Some c ->
      gs_level (gch_hw ch') k = adjust pin (cc_value c) /\ read_output_state ch' (gp_point_id pin) = Some (gs_level (gch_hw ch') k)) /\
    (forall pin k, pin ∈ output_pins (gch_config ch) -> gs_line pin = Some k -> gp_point_id pin ∉ cc_id <$> cmds ->
      gs_level (gch_hw ch') k = gs_level (gch_hw ch) k /\ read_output_state ch' (gp_point_id pin) = read_output_state ch (gp_point_id pin)).
Proof.
  intros Hst Hpins Hc. unfold GpioChannel_write_control. rewrite Hst. cbn [ConnState_is_connected negb].
  pose proof (control_all_spec cmds ch f Hpins Hc) as Ha. pose proof (control_all_failures cmds ch) as Hfs.
  destruct (control_all ch cmds) as [ch1 w]. destruct Ha as (Hcfg & Hs & Hn & f' & Hc' & Hlines). eexists _, w. split; [reflexivity |]. split; [done |].
  assert (Hread : forall pin, pin ∈ output_pins (gch_config ch) -> read_output_state (add_write ch1 (gw_success_count w)) (gp_point_id pin) = Some (f' (gp_point_id pin))).
  { intros pin Hin. change (read_output_state (add_write ch1 (gw_success_count w)) (gp_point_id pin)) with (AtomicBoolStore_get (gch_output_states ch1) (gp_point_id pin)).
    rewrite (bool_store_get _ _ _ _ Hc'), decide_True; [done |]. rewrite Hcfg. by apply (list_elem_of_fmap_2 gp_point_id). }
  split.
  - intros pin k c Hin Hk Hnf Hlast. destruct (Hlines pin k Hin Hk Hnf) as [Hl Hf]. unfold commanded in Hl, Hf. rewrite Hlast in Hl, Hf.
    split; [exact Hl |]. rewrite (Hread pin Hin), Hf. f_equal. symmetry. exact Hl.
  - intros pin k Hin Hk Hnone. destruct (Hlines pin k Hin Hk) as [Hl Hf]; [intros Hx; apply Hnone; by apply Hfs |].
    rewrite commanded_none in Hl, Hf by done. split; [exact Hl |]. rewrite (Hread pin Hin), Hf. unfold read_output_state.
    rewrite (bool_store_get _ _ _ _ Hc), decide_True; [done |]. by apply (list_elem_of_fmap_2 gp_point_id).
Qed.

Definition input_reading (hw : H) (pin : GpioPinConfig) (d : DataPoint) : Prop :=
  exists k, gs_line pin = Some k /\ d = DataPoint_new (gp_point_id pin) (gp_point_type pin) (PBool (adjust pin (gs_level hw k))).

Lemma read_inputs_spec pins : forall ch : channel, let '(ch', batch, failures) := read_inputs ch pins in
  gch_config ch' = gch_config ch /\ gch_output_states ch' = gch_output_states ch /\ (forall k, gs_level (gch_hw ch') k = gs_level (gch_hw ch) k) /\
  (length batch + length failures = length pins)%nat /\
  (forall d, d ∈ batch -> exists pin, pin ∈ pins /\ input_reading (gch_hw ch) pin d) /\
  (forall pin, pin ∈ pins -> (exists d, d ∈ batch /\ input_reading (gch_hw ch) pin d) \/ gp_point_id pin ∈ failures.*1).
Proof.
  induction pins as [|pin pins IH]; intros ch; cbn [read_inputs].
  { do 3 (split; [done |]). split; [done |]. split; [by intros d ?%not_elem_of_nil | by intros p ?%not_elem_of_nil]. }
  unfold GpioChannel_read_pin. pose proof (gs_read_keeps (gch_hw ch) pin) as Hkeep. pose proof (gs_read (gch_hw ch) pin) as Hread.
  destruct (gd_read_pin (gch_hw ch) pin) as [hw r]. cbn [fst snd] in Hkeep, Hread.
  assert (Hlift : forall q d, input_reading hw q d -> input_reading (gch_hw ch) q d) by (intros q d (k & Hk & ->); exists k; by rewrite Hkeep).
  destruct r as [b|e]; cbn [put_hw].
  - specialize (IH (put_hw ch hw)). destruct (read_inputs (put_hw ch hw) pins) as [[ch1 batch] failures]. cbn [gch_hw put_hw] in IH. destruct IH as (H1 & H2 & H3 & H4 & H5 & H6).
    destruct (Hread b eq_refl) as (k & Hk & Hl). assert (Hd : input_reading (gch_hw ch) pin (DataPoint_new (gp_point_id pin) (gp_point_type pin) (PBool (adjust pin b)))) by (exists k; by rewrite Hl).
    split; [exact H1 |]. split; [exact H2 |]. split; [intros j; by rewrite H3 |]. split; [cbn [length]; lia |]. split.
    + intros d [-> | Hin]%elem_of_cons; [by exists pin; split; [constructor |] |]. destruct (H5 d Hin) as (q & Hq & Hr). exists q. split; [by constructor | by apply Hlift].
    + intros q [-> | Hq]%elem_of_cons; [left; eexists; split; [by constructor | exact Hd] |]. destruct (H6 q Hq) as [(d & Hin & Hr) | Hf]; [| by right].
      left. exists d. split; [by constructor | by apply Hlift].
  - specialize (IH (gpio_record_error (put_hw ch hw))). destruct (read_inputs (gpio_record_error (put_hw ch hw)) pins) as [[ch1 batch] failures]. cbn [gch_hw put_hw gpio_record_error] in IH.
    destruct IH as (H1 & H2 & H3 & H4 & H5 & H6). split; [exact H1 |]. split; [exact H2 |]. split; [intros j; by rewrite H3 |]. split; [cbn [length]; lia |]. split.
    + intros d Hin. destruct (H5 d Hin) as (q & Hq & Hr). exists q. split; [by constructor | by apply Hlift].
    + intros q [-> | Hq]%elem_of_cons; [right; by constructor |]. destruct (H6 q Hq) as [(d & Hin & Hr) | Hf]; [| right; by constructor].
      left. exists d. split; [done | by apply Hlift].
Qed.

(** A poll reads every input, or reports its failure, and shows the cached state of every
    output; nothing else is in the batch, and no level changes. *)
Theorem gpio_poll_reads_pins (ch : channel) f : cache_ok ch f ->
  let '(ch', batch, failures) := GpioChannel_poll_once ch in
  (forall k, gs_level (gch_hw ch') k = gs_level (gch_hw ch) k) /\
  (length batch + length failures = length (input_pins (gch_config ch)) + length (output_pins (gch_config ch)))%nat /\
  (forall pin, pin ∈ input_pins (gch_config ch) -> (exists d, d ∈ batch /\ input_reading (gch_hw ch) pin d) \/ gp_point_id pin ∈ failures.*1) /\
  (forall pin, pin ∈ output_pins (gch_config ch) -> DataPoint_new (gp_point_id pin) (gp_point_type pin) (PBool (f (gp_point_id pin))) ∈ batch).
Proof.
  intros Hc. unfold GpioChannel_poll_once, GpioChannel_read_all. pose proof (read_inputs_spec (input_pins (gch_config ch)) ch) as Hr.
  destruct (read_inputs ch (input_pins (gch_config ch))) as [[ch1 batch] failures]. destruct Hr as (H1 & H2 & H3 & H4 & H5 & H6).
  assert (Hout : forall pin, pin ∈ output_pins (gch_config ch) -> output_point ch1 pin = Some (DataPoint_new (gp_point_id pin) (gp_point_type pin) (PBool (f (gp_point_id pin))))).
  { intros pin Hin. unfold output_point, read_output_state. rewrite H2, (bool_store_get _ _ _ _ Hc), decide_True by by apply (list_elem_of_fmap_2 gp_point_id). done. }
  split; [exact H3 |]. split; [| split].
  - rewrite length_app, H1. assert (Hl : forall l, (forall pin, pin ∈ l -> pin ∈ output_pins (gch_config ch)) -> length (omap (output_point ch1) l) = length l).
    { induction l as [|p l IHl]; intros Hsub; [done |]. cbn. rewrite Hout by (apply Hsub; by constructor). cbn. f_equal. apply IHl. intros q Hq. apply Hsub. by constructor. }
    rewrite Hl by done. lia.
  - intros pin Hin. destruct (H6 pin Hin) as [(d & Hd & Hr) | Hf]; [| by right]. left. exists d. split; [apply elem_of_app; by left | done].
  - intros pin Hin. apply elem_of_app. right. rewrite H1. apply list_elem_of_omap. exists pin. split; [done | by apply Hout].
Qed.

(** The feedback of an active-low output is inverted.  After a control call in which no
    command of the pin failed, a poll reports for the pin the level of its line and not the
    value that was commanded: an active-low output that was switched on is shown off. *)
Theorem active_low_feedback_inverted (ch : channel) pin k value f : gch_state ch = CsConnected -> pins_ok (gch_config ch) -> cache_ok ch f ->
  pin ∈ output_pins (gch_config ch) -> gs_line pin = Some k -> gp_active_low pin = true ->
  forall ch' w, GpioChannel_write_control ch [ControlCommand_latching (gp_point_id pin) value] = (ch', Ok w) -> gw_failures w = [] ->
  DataPoint_new (gp_point_id pin) (gp_point_type pin) (PBool (negb value)) ∈ (GpioChannel_poll_once ch').1.2.
Proof.
  intros Hst Hpins Hc Hin Hk Hlow ch' w. set (cmds := [ControlCommand_latching (gp_point_id pin) value]). unfold GpioChannel_write_control. rewrite Hst. cbn [ConnState_is_connected negb].
  pose proof (control_all_spec cmds ch f Hpins Hc) as Ha. destruct (control_all ch cmds) as [ch1 w1]. destruct Ha as (Hcfg & Hs & Hn & f' & Hc' & Hlines). intros [= <- <-] Hw.
  destruct (Hlines pin k Hin Hk) as [_ Hf]; [rewrite Hw; apply not_elem_of_nil |]. unfold commanded, cmds in Hf. rewrite filter_cons, decide_True in Hf by done. cbn in Hf. unfold adjust in Hf. rewrite Hlow in Hf.
  assert (Hc2 : cache_ok (add_write ch1 (gw_success_count w1)) f') by exact Hc'. pose proof (gpio_poll_reads_pins _ f' Hc2) as Hp.
  destruct (GpioChannel_poll_once (add_write ch1 (gw_success_count w1))) as [[ch2 batch] failures]. destruct Hp as (_ & _ & _ & Ho). cbn. rewrite <- Hf. apply Ho.
  change (gch_config (add_write ch1 (gw_success_count w1))) with (gch_config ch1). by rewrite Hcfg.
Qed.

Lemma with_driver_cache config (hw : H) : cache_ok (GpioChannel_with_driver config hw) (fun _ => false).
Proof. apply from_pins_ok. Qed.
End Correct.

(** ** Resolution and configuration *)

(** A resolved number names a line of a chip that has it. *)
Lemma resolve_sound chips n name line : Forall (fun c => 0 <= ci_base c /\ 0 <= ci_ngpio c /\ ci_base c + ci_ngpio c < 2 ^ 32) chips ->
  resolve_gpio_to_chip_line (Some chips) n = Ok (name, line) ->
  exists c, c ∈ chips /\ ci_name c = name /\ ci_base c + line = n /\ 0 <= line < ci_ngpio c.
Proof.
  intros Hc. unfold resolve_gpio_to_chip_line. destruct (list_find _ chips) as [[i c]|] eqn:Hf; [| done]. intros [= <- <-].
  apply list_find_Some in Hf as (Hi & [Hlo Hhi] & _). rewrite Forall_forall in Hc. apply list_elem_of_lookup_2 in Hi. destruct (Hc c Hi) as (H1 & H2 & H3).
  unfold wrapping_add in Hhi. rewrite wrap_small in Hhi by (unfold is_uint; lia). exists c. repeat (split; [done |]). lia.
Qed.

(** A pin that is only known by a global number below 32 is not resolved: whatever the
    number, the driver takes line 0 of a chip without a name. *)
Theorem low_numbers_not_resolved chips n id active_low : n < 32 ->
  resolve_chip_line chips (GpioPinConfig_with_active_low (GpioPinConfig_digital_output_sysfs n id) active_low) = Ok (EmptyString, 0).
Proof. intros Hn. unfold resolve_chip_line. cbn. by rewrite (proj2 (Z.ltb_lt n 32) Hn). Qed.

Lemma add_pins_config pins : forall c, foldl GpioChannelConfig_add_pin c pins = mkGpioChannelConfig (gc_driver c) (gc_pins c ++ pins) (gc_poll_interval_ms c).
Proof. induction pins as [|p pins IH]; intros c; cbn [foldl]; [rewrite app_nil_r; by destruct c |]. rewrite IH. cbn. by rewrite <- app_assoc. Qed.

Lemma filter_keeps {A} (P : A -> Prop) `{forall x, Decision (P x)} l : Forall P l -> filter P l = l.
Proof. induction 1 as [|x l Hx _ IH]; [done |]. by rewrite filter_cons, decide_True, IH. Qed.
Lemma filter_drops {A} (P : A -> Prop) `{forall x, Decision (P x)} l : Forall (fun x => ~ P x) l -> filter P l = [].
Proof. induction 1 as [|x l Hx _ IH]; [done |]. by rewrite filter_cons, decide_False. Qed.

(** The inputs of a configured channel are its signal points with a GPIO number, the outputs
    its control points, inverted as the points say. *)
Lemma factory_pins parse_json params rc : let config := gpio_channel_config parse_json params rc in
  input_pins config = omap (input_pin_of parse_json) (rc_signal_points rc) /\ output_pins config = omap (output_pin_of parse_json) (rc_control_points rc).
Proof.
  cbn zeta. unfold gpio_channel_config. rewrite add_pins_config. set (ins := omap (input_pin_of parse_json) _). set (outs := omap (output_pin_of parse_json) _).
  assert (Hi : Forall (fun p => gp_direction p = GpioInput) ins).
  { apply Forall_forall. intros p (pt & _ & Hp)%list_elem_of_omap. unfold input_pin_of in Hp. destruct (parse_gpio_number _ _); [by injection Hp as <- | done]. }
  assert (Ho : Forall (fun p => gp_direction p = GpioOutput) outs).
  { apply Forall_forall. intros p (pt & _ & Hp)%list_elem_of_omap. unfold output_pin_of in Hp. destruct (parse_gpio_number _ _); [by injection Hp as <- | done]. }
  assert (Hnone : forall c, gc_pins (match as_u64 (params !! "poll_interval_ms"%string) with Some ms => GpioChannelConfig_with_poll_interval c ms | None => c end) = gc_pins c) by (intros c; by destruct (as_u64 _)).
  unfold input_pins, output_pins. cbn [gc_pins]. rewrite Hnone. cbn [gc_pins GpioChannelConfig_new_sysfs app]. rewrite !filter_app.
  rewrite (filter_keeps (fun p => gp_direction p = GpioInput) ins), (filter_keeps (fun p => gp_direction p = GpioOutput) outs) by done.
  rewrite (filter_drops (fun p => gp_direction p = GpioInput) outs), (filter_drops (fun p => gp_direction p = GpioOutput) ins) by (eapply Forall_impl; [eassumption | cbn; congruence]).
  by rewrite app_nil_r.
Qed.

(** * A board with a few lines *)

(** Exported lines, with whether they are outputs and their level. *)
Abbreviation DemoFs := (gmap Z (bool * bool)).
Definition demo_lines : list Z := [490; 491; 492].
Definition demo_exists (fs : DemoFs) (path : SysfsPath) : bool := match path with GpioDir n => bool_decide (is_Some (fs !! n)) | _ => true end.
Definition newline : string := String (Ascii.ascii_of_nat 10) EmptyString.
Definition demo_read (fs : DemoFs) (path : SysfsPath) : option string :=
  match path with
  | ValueFile n => (fun x : bool * bool => String.append (if x.2 then "1" else "0") newline) <$> fs !! n
  | DirectionFile n => (fun x : bool * bool => String.append (if x.1 then "out" else "in") newline) <$> fs !! n
  | _ => None
  end.
Definition demo_write (fs : DemoFs) (path : SysfsPath) (s : string) : DemoFs * bool :=
  match path with
  | ExportFile => match list_find (fun n => pretty n = s) demo_lines with Some (_, n) => (<[n := default (false, false) (fs !! n)]> fs, true) | None => (fs, false) end
  | DirectionFile n => match fs !! n with Some _ => (<[n := (true, false)]> fs, true) | None => (fs, false) end
  | ValueFile n => match fs !! n with Some (true, _) => (<[n := (true, String.eqb s "1")]> fs, true) | _ => (fs, false) end
  | GpioDir _ => (fs, false)
  end.
#[export] Instance demo_files : SysfsFiles DemoFs := {| fs_exists := demo_exists; fs_read := demo_read; fs_write := demo_write |}.
Definition demo_level (fs : DemoFs) (n : Z) : bool := match fs !! n with Some (_, level) => level | None => false end.
#[export] Instance demo_files_spec : SysfsFilesSpec DemoFs.
Proof.
  refine {| fs_level := demo_level |}; unfold demo_level; cbn [fs_write fs_read demo_files].
  - intros fs n v fs'. cbn [demo_write]. destruct (fs !! n) as [[[] l]|]; [| done..]. intros [= <-]. rewrite lookup_insert_eq. by destruct v.
  - intros fs path s n Hv Hd He. destruct path as [|m|m|m]; cbn [demo_write].
    + destruct (list_find _ demo_lines) as [[i m]|] eqn:Hf; [| done]. apply list_find_Some in Hf as (_ & Hp & _). cbn. destruct (decide (m = n)) as [-> | Hm]; [by destruct (He eq_refl) |].
      by rewrite lookup_insert_ne.
    + done.
    + destruct (fs !! m) as [[[] l]|]; cbn; [rewrite lookup_insert_ne by congruence; done | done..].
    + destruct (fs !! m); cbn; [by rewrite lookup_insert_ne by congruence | done].
  - intros fs n s. cbn [demo_read]. destruct (fs !! n) as [[out [|]]|]; intros Hs; cbn in Hs; [injection Hs as <-; vm_compute; reflexivity.. | done].
Defined.

Definition demo_pins : GpioChannelConfig :=
  foldl GpioChannelConfig_add_pin (GpioChannelConfig_new_sysfs "/sys/class/gpio")
    [GpioPinConfig_digital_input_sysfs 490 1; GpioPinConfig_digital_output_sysfs 491 101;
     GpioPinConfig_with_active_low (GpioPinConfig_digital_output_sysfs 492 102) true].
Definition demo_board : GpioChannel DemoFs := GpioChannel_connect (GpioChannel_with_driver demo_pins {[490 := (false, true)]}).
Definition demo_low_pin : GpioPinConfig := GpioPinConfig_with_active_low (GpioPinConfig_digital_output_sysfs 492 102) true.

Lemma demo_pins_ok : pins_ok (H := DemoFs) (K := Z) (gch_config demo_board).
Proof.
  split; [vm_compute; repeat (constructor; [rewrite ?elem_of_cons, ?elem_of_nil; lia |]); constructor |].
  intros p q k Hp Hq. change (output_pins _) with [GpioPinConfig_digital_output_sysfs 491 101; demo_low_pin] in *.
  rewrite !elem_of_cons, elem_of_nil in Hp, Hq. destruct Hp as [-> | [-> | []]], Hq as [-> | [-> | []]]; cbn; congruence.
Qed.
Lemma demo_cache_ok : cache_ok demo_board (fun _ => false).
Proof. apply from_pins_ok. Qed.

Lemma gpio_controls_drive_pins_witness : exists ch' w,
  GpioChannel_write_control demo_board [ControlCommand_latching 102 true; ControlCommand_latching 7 true] = (ch', Ok w) /\ length (gw_failures w) = 1%nat /\
  demo_level (gch_hw ch') 492 = false /\ read_output_state ch' 102 = Some false /\
  demo_level (gch_hw ch') 491 = demo_level (gch_hw demo_board) 491 /\ read_output_state ch' 101 = read_output_state demo_board 101.
Proof.
  set (cmds := [ControlCommand_latching 102 true; ControlCommand_latching 7 true]).
  destruct (gpio_controls_drive_pins (K := Z) demo_board cmds (fun _ => false)) as (ch' & w & Hw & Hn & Hl & Hk); [reflexivity | exact demo_pins_ok | exact demo_cache_ok |].
  exists ch', w. split; [exact Hw |]. vm_compute in Hw. injection Hw as <- <-. split; [reflexivity |].
  destruct (Hl demo_low_pin 492 (ControlCommand_latching 102 true)) as [H1 H2]; [right; left | reflexivity | apply (bool_decide_unpack _); vm_compute; exact I | reflexivity |].
  destruct (Hk (GpioPinConfig_digital_output_sysfs 491 101) 491) as [H3 H4]; [left | reflexivity | apply (bool_decide_unpack _); vm_compute; exact I |].
  split; [exact H1 |]. split; [exact H2 |]. split; [exact H3 | exact H4].
Defined.

Lemma active_low_feedback_inverted_witness : exists ch' w,
  GpioChannel_write_control demo_board [ControlCommand_latching 102 true] = (ch', Ok w) /\ DataPoint_new 102 Control (PBool false) ∈ (GpioChannel_poll_once ch').1.2.
Proof.
  destruct (GpioChannel_write_control demo_board [ControlCommand_latching 102 true]) as [ch' [w|]] eqn:Hw; [| exfalso; vm_compute in Hw; discriminate].
  exists ch', w. split; [reflexivity |].
  refine (active_low_feedback_inverted (K := Z) demo_board demo_low_pin 492 true (fun _ => false) _ demo_pins_ok demo_cache_ok _ _ _ ch' w Hw _); try reflexivity.
  - right; left.
  - vm_compute in Hw. injection Hw as _ <-. reflexivity.
Defined.
