(* ===== verification/Instances.v ===== *)
(** * Instances: the instance registry of modsrv

    services/modsrv/src/instance_manager.rs ([InstanceManager]: create, rename,
    delete with cascade, single properties, the name cache, listing and search),
    instance_routing.rs (measurement and action routes of an instance),
    runtime/dynamic_slot_runtime.rs (the optional slot pool behind it) and the
    update handler of api/instance_management_handlers.rs.

    The SQLite tables are finite maps with the constraints of their DDL
    (libs/common/src/test_utils/schema.rs, which product_loader.rs calls the
    single source of truth): unique keys and names, foreign keys with their ON
    DELETE actions.  Every statement, BEGIN and COMMIT may fail: the manager
    carries the list of the failures to come.  A transaction that does not
    commit leaves the tables as they were. *)

From stdpp Require Import base numbers list gmap strings sorting.
From Stdlib Require Import ZArith Lia.
From S2P Require Import Prelude Bitmap PointTypes Layout PoolIndex Validation.
Open Scope Z_scope.
Open Scope ems_scope.
Set Default Goal Selector "!".
Set Warnings "-clear-no-such-hyp".

(** * Data *)

(** A name is its list of code points, as [validate_instance_name] reads it. *)
Abbreviation name := (list Z).

Record Product := mkProduct {
  pr_product_name : string;
  pr_product_type : string;
  pr_measurements : list Z;
  pr_actions : list Z;
  pr_properties : list (Z * string)
}.

Record InstanceRow := mkInstanceRow {
  ir_instance_name : name;
  ir_product_name : string;
  ir_parent_id : option Z
}.

(** One row of [measurement_routing] or [action_routing]. *)
Record RoutingRow := mkRoutingRow {
  rr_instance_name : name;
  rr_channel_id : option Z;
  rr_channel_type : option PointType;
  rr_channel_point_id : option Z;
  rr_enabled : bool
}.

Record Db := mkDb {
  db_instances : gmap Z InstanceRow;
  db_measurement_routing : gmap (Z * Z) RoutingRow;
  db_action_routing : gmap (Z * Z) RoutingRow;
  db_instance_properties : gmap (Z * Z) string;
  db_channels : gset Z
}.

Definition set_instances (t : gmap Z InstanceRow) (d : Db) : Db :=
  mkDb t (db_measurement_routing d) (db_action_routing d) (db_instance_properties d) (db_channels d).
Definition set_measurement_routing (t : gmap (Z * Z) RoutingRow) (d : Db) : Db :=
  mkDb (db_instances d) t (db_action_routing d) (db_instance_properties d) (db_channels d).
Definition set_action_routing (t : gmap (Z * Z) RoutingRow) (d : Db) : Db :=
  mkDb (db_instances d) (db_measurement_routing d) t (db_instance_properties d) (db_channels d).
Definition set_instance_properties (t : gmap (Z * Z) string) (d : Db) : Db :=
  mkDb (db_instances d) (db_measurement_routing d) (db_action_routing d) t (db_channels d).

Inductive SqlError := StatementFailed | UniqueViolation | ForeignKeyViolation | RowNotFound | ColumnDecode.

(** [ModSrvError] and the anyhow errors of the manager, without their texts. *)
Inductive ManagerError :=
| InvalidData
| InstanceNotFound
| InstanceExists
| DatabaseError (e : SqlError)
| InternalError
| InvalidChannelType (fr : PointType).

Record CreateInstanceRequest := mkCreateInstanceRequest {
  ci_instance_id : option Z;
  ci_instance_name : name;
  ci_product_name : string;
  ci_parent_id : option Z;
  ci_properties : list (string * string)
}.

Record UpdateInstanceDto := mkUpdateInstanceDto {
  ui_instance_name : option name;
  ui_properties : option (list (string * string))
}.

Record SinglePointRoutingRequest := mkSinglePointRoutingRequest {
  sr_channel_id : option Z;
  sr_four_remote : option PointType;
  sr_channel_point_id : option Z;
  sr_enabled : bool
}.

(** The calls into redis_state.rs, in the order in which they are made; their
    results are only logged. *)
Inductive RedisCall :=
| RegisterInstance (instance_id : Z) (instance_name : name)
| UnregisterInstance (instance_id : Z) (instance_name : name)
| RenameInstance (instance_id : Z) (old_name new_name : name).

Record InstanceManager (A : Type) := mkInstanceManager {
  im_db : Db;
  im_name_cache : gmap name Z;
  im_slot_runtime : option (InstanceIndex * A);
  im_redis_calls : list RedisCall;
  im_failures : list bool
}.
Arguments mkInstanceManager {A}.
Arguments im_db {A}.
Arguments im_name_cache {A}.
Arguments im_slot_runtime {A}.
Arguments im_redis_calls {A}.
Arguments im_failures {A}.

(** * The tables *)

Definition some_row (p : Z -> InstanceRow -> bool) (d : Db) : bool :=
  existsb (fun '(i, r) => p i r) (map_to_list (db_instances d)).

(** [INTEGER PRIMARY KEY] without a value: one above the largest rowid. *)
Definition next_rowid (d : Db) : Z := 1 + foldr Z.max 0 (map_to_list (db_instances d)).*1.

(** [INSERT INTO instances]. *)
Definition insert_instance (id : option Z) (row : InstanceRow) (d : Db) : result (Db * Z) SqlError :=
  let i := default (next_rowid d) id in
  if bool_decide (is_Some (db_instances d !! i)) ||
     some_row (fun _ r => bool_decide (ir_instance_name r = ir_instance_name row)) d then Err UniqueViolation
  else
    let parent_ok :=
      match ir_parent_id row with
      | Some p => bool_decide (p = i \/ is_Some (db_instances d !! p))
      | None => true
      end in
    if parent_ok then Ok (set_instances (<[i := row]> (db_instances d)) d, i) else Err ForeignKeyViolation.

Definition rename_row (new_name : name) (r : InstanceRow) : InstanceRow :=
  mkInstanceRow new_name (ir_product_name r) (ir_parent_id r).

(** [UPDATE instances SET instance_name = ? WHERE instance_id = ?]. *)
Definition update_instance_name (new_name : name) (i : Z) (d : Db) : result (Db * unit) SqlError :=
  match db_instances d !! i with
  | None => Ok (d, tt)
  | Some r =>
      if some_row (fun j r' => negb (j =? i) && bool_decide (ir_instance_name r' = new_name)) d then Err UniqueViolation
      else Ok (set_instances (<[i := rename_row new_name r]> (db_instances d)) d, tt)
  end.

Definition rename_route (new_name : name) (i : Z) (k : Z * Z) (r : RoutingRow) : RoutingRow :=
  if k.1 =? i then
    mkRoutingRow new_name (rr_channel_id r) (rr_channel_type r) (rr_channel_point_id r) (rr_enabled r)
  else r.
Definition rename_routes (new_name : name) (i : Z) (t : gmap (Z * Z) RoutingRow) : gmap (Z * Z) RoutingRow :=
  map_imap (fun k r => Some (rename_route new_name i k r)) t.

Definition orphan (i : Z) (r : InstanceRow) : InstanceRow :=
  if bool_decide (ir_parent_id r = Some i) then mkInstanceRow (ir_instance_name r) (ir_product_name r) None else r.

Definition rows_of {V} (i : Z) (t : gmap (Z * Z) V) : gmap (Z * Z) V := filter (fun kv => kv.1.1 = i) t.
Definition rows_not_of {V} (i : Z) (t : gmap (Z * Z) V) : gmap (Z * Z) V := filter (fun kv => kv.1.1 <> i) t.

(** [DELETE FROM instances WHERE instance_id = ?]: routes and properties cascade,
    children lose their parent.  Returns the number of rows. *)
Definition delete_instance_row (i : Z) (d : Db) : Db * nat :=
  if bool_decide (is_Some (db_instances d !! i)) then
    (mkDb (orphan i <$> delete i (db_instances d)) (rows_not_of i (db_measurement_routing d))
       (rows_not_of i (db_action_routing d)) (rows_not_of i (db_instance_properties d)) (db_channels d), 1%nat)
  else (d, 0%nat).

(** [INSERT INTO instance_properties .. ON CONFLICT DO UPDATE]. *)
Definition upsert_property_row (i pid : Z) (value_json : string) (d : Db) : result (Db * unit) SqlError :=
  if bool_decide (is_Some (db_instances d !! i)) then
    Ok (set_instance_properties (<[(i, pid) := value_json]> (db_instance_properties d)) d, tt)
  else Err ForeignKeyViolation.

(** The columns an upsert of a route writes; the stored name survives a conflict. *)
Definition routed (instance_name : name) (q : SinglePointRoutingRequest) (old : option RoutingRow) : RoutingRow :=
  mkRoutingRow (match old with Some r => rr_instance_name r | None => instance_name end)
    (sr_channel_id q) (sr_four_remote q) (sr_channel_point_id q) (sr_enabled q).
Definition channel_ok (d : Db) (c : option Z) : bool :=
  match c with Some c => bool_decide (c ∈ db_channels d) | None => true end.

Definition enable_route (enabled : bool) (r : RoutingRow) : RoutingRow :=
  mkRoutingRow (rr_instance_name r) (rr_channel_id r) (rr_channel_type r) (rr_channel_point_id r) enabled.
Definition toggle_row (k : Z * Z) (enabled : bool) (t : gmap (Z * Z) RoutingRow) : gmap (Z * Z) RoutingRow * nat :=
  match t !! k with
  | Some r => (<[k := enable_route enabled r]> t, 1%nat)
  | None => (t, 0%nat)
  end.
Definition delete_row {V} (k : Z * Z) (t : gmap (Z * Z) V) : gmap (Z * Z) V * nat :=
  match t !! k with Some _ => (delete k t, 1%nat) | None => (t, 0%nat) end.

(** comsrv shares the database: a channel it removes is unbound from the routes. *)
Definition unbind (c : Z) (r : RoutingRow) : RoutingRow :=
  if bool_decide (rr_channel_id r = Some c) then
    mkRoutingRow (rr_instance_name r) None (rr_channel_type r) (rr_channel_point_id r) (rr_enabled r)
  else r.
Definition delete_channel_row (c : Z) (d : Db) : Db :=
  mkDb (db_instances d) (unbind c <$> db_measurement_routing d) (unbind c <$> db_action_routing d)
    (db_instance_properties d) (db_channels d ∖ {[c]}).
Definition insert_channel_row (c : Z) (d : Db) : Db :=
  mkDb (db_instances d) (db_measurement_routing d) (db_action_routing d) (db_instance_properties d)
    ({[c]} ∪ db_channels d).

(** * The manager *)

Section Monad.
Context {A : Type}.

(** A call of the manager: it may panic in the slot allocator, and returns the
    manager it leaves behind with the result of the call. *)
Definition call (E T : Type) : Type := InstanceManager A -> outcome (InstanceManager A * result T E).

Definition call_ret {E T} (x : T) : call E T := fun s => Ret (s, Ok x).
Definition call_err {E T} (e : E) : call E T := fun s => Ret (s, Err e).
Definition call_bind {E T U} (m : call E T) (k : T -> call E U) : call E U := fun s =>
  let! (s, r) := m s in
  match r with Ok x => k x s | Err e => Ret (s, Err e) end.
(** [map_err]. *)
Definition call_map_err {E F T} (f : E -> F) (m : call E T) : call F T := fun s =>
  let! (s, r) := m s in
  Ret (s, match r with Ok x => Ok x | Err e => Err (f e) end).
(** [if let Err(e) = .. { warn!(..) }]. *)
Definition call_ignore {E F T} (m : call E T) : call F unit := fun s => let! (s, _) := m s in Ret (s, Ok tt).

Definition set_db (d : Db) (s : InstanceManager A) : InstanceManager A :=
  mkInstanceManager d (im_name_cache s) (im_slot_runtime s) (im_redis_calls s) (im_failures s).
Definition set_name_cache (c : gmap name Z) (s : InstanceManager A) : InstanceManager A :=
  mkInstanceManager (im_db s) c (im_slot_runtime s) (im_redis_calls s) (im_failures s).
Definition set_slot_runtime (r : option (InstanceIndex * A)) (s : InstanceManager A) : InstanceManager A :=
  mkInstanceManager (im_db s) (im_name_cache s) r (im_redis_calls s) (im_failures s).
Definition set_failures (f : list bool) (s : InstanceManager A) : InstanceManager A :=
  mkInstanceManager (im_db s) (im_name_cache s) (im_slot_runtime s) (im_redis_calls s) f.

(** One round trip to SQLite; it fails when the next failure says so. *)
Definition round_trip : call SqlError unit := fun s =>
  Ret (set_failures (tail (im_failures s)) s,
       if default false (head (im_failures s)) then Err StatementFailed else Ok tt).

Definition query {T} (q : Db -> T) : call SqlError T :=
  call_bind round_trip (fun _ s => Ret (s, Ok (q (im_db s)))).
Definition execute {T} (f : Db -> result (Db * T) SqlError) : call SqlError T :=
  call_bind round_trip (fun _ s =>
    match f (im_db s) with
    | Ok (d, x) => Ret (set_db d s, Ok x)
    | Err e => Ret (s, Err e)
    end).
Definition statement {T} (f : Db -> Db * T) : call SqlError T := execute (fun d => Ok (f d)).

(** BEGIN, the body, COMMIT; without a COMMIT the tables are as before. *)
Definition transaction {T} (body : call ManagerError T) : call ManagerError T :=
  call_bind (call_map_err DatabaseError round_trip) (fun _ s =>
    let! (s', r) := call_bind body (fun x => call_bind (call_map_err DatabaseError round_trip) (fun _ => call_ret x)) s in
    match r with
    | Ok x => Ret (s', Ok x)
    | Err e => Ret (set_db (im_db s) s', Err e)
    end).

Definition redis_call {E} (c : RedisCall) : call E unit := fun s =>
  Ret (mkInstanceManager (im_db s) (im_name_cache s) (im_slot_runtime s) (im_redis_calls s ++ [c]) (im_failures s), Ok tt).
End Monad.
Arguments call : clear implicits.

Notation "'let*' x := m 'in' k" := (call_bind m (fun x => k))
  (at level 10, x pattern, m at level 100, k at level 200) : ems_scope.

Definition exists_instance (i : Z) (d : Db) : bool := bool_decide (is_Some (db_instances d !! i)).

Section Manager.
Context {A : Type} `{AL : !SlotAllocator A}.
Context (products : list Product).
(** The order in which SELECT without ORDER BY returns the rows of a table. *)
Context (select : gmap Z InstanceRow -> list (Z * InstanceRow)).

Definition get_product (product_name : string) : option Product :=
  find (fun p => String.eqb (pr_product_name p) product_name) products.

(** ** DynamicSlotRuntime *)

Definition add_instance {E} (instance_id : Z) (own_counts : list Z) : call A E unit := fun s =>
  if sum_u32 own_counts =? 0 then Ret (s, Ok tt)
  else match im_slot_runtime s with
       | Some (index, bitmap) =>
           let! (index', bitmap', _) := InstanceIndex_add_instance index instance_id own_counts (Some bitmap) in
           Ret (set_slot_runtime (Some (index', default bitmap bitmap')) s, Ok tt)
       | None => Ret (s, Ok tt)
       end.

Definition remove_instance {E} (instance_id : Z) : call A E unit := fun s =>
  match im_slot_runtime s with
  | Some (index, bitmap) =>
      let! (index', bitmap', _) := InstanceIndex_remove_instance index instance_id (Some bitmap) in
      Ret (set_slot_runtime (Some (index', default bitmap bitmap')) s, Ok tt)
  | None => Ret (s, Ok tt)
  end.

(** A change of the InstanceIndex alone, when there is one. *)
Definition with_index {E} (f : InstanceIndex -> InstanceIndex) : call A E unit := fun s =>
  Ret (match im_slot_runtime s with
       | Some (index, bitmap) => set_slot_runtime (Some (f index, bitmap)) s
       | None => s
       end, Ok tt).

(** ** The name cache *)

Definition id_by_name (instance_name : name) (d : Db) : option Z :=
  fst <$> find (fun '(_, r) => bool_decide (ir_instance_name r = instance_name)) (map_to_list (db_instances d)).

Definition update_name_cache {E} (instance_name : name) (instance_id : Z) : call A E unit := fun s =>
  Ret (set_name_cache (<[instance_name := instance_id]> (im_name_cache s)) s, Ok tt).
Definition remove_from_name_cache {E} (instance_name : name) : call A E unit := fun s =>
  Ret (set_name_cache (delete instance_name (im_name_cache s)) s, Ok tt).

(** A rowid decoded as [u16]. *)
Definition decode_u16 (i : Z) : result Z SqlError := if i <? 2 ^ 16 then Ok i else Err ColumnDecode.

Definition get_instance_id (instance_name : name) : call A ManagerError Z := fun s =>
  match im_name_cache s !! instance_name with
  | Some id => Ret (s, Ok id)
  | None =>
      (let* found := call_map_err DatabaseError (query (id_by_name instance_name)) in
       match found with
       | None => call_err InstanceNotFound
       | Some i =>
           match decode_u16 i with
           | Err e => call_err (DatabaseError e)
           | Ok id => let* _ := update_name_cache instance_name id in call_ret id
           end
       end) s
  end.

(** ** Create *)

Fixpoint write_properties_tx (instance_id : Z) (product_name : string) (properties : list (string * string))
    : call A ManagerError unit :=
  match properties with
  | [] => call_ret tt
  | (key, value) :: rest =>
      match get_product product_name with
      | None => call_err InvalidData
      | Some product =>
          match find (fun p => String.eqb p.2 key) (pr_properties product) with
          | None => call_err InvalidData
          | Some tpl =>
              let* _ := call_map_err (fun _ => InvalidData) (execute (upsert_property_row instance_id tpl.1 value)) in
              write_properties_tx instance_id product_name rest
          end
      end
  end.

Definition is_station (product : Product) : bool := String.eqb (pr_product_type product) "Station".
Definition station_products : list string := pr_product_name <$> filter (fun p => is_station p = true) products.

(** [INSERT .. SELECT .. WHERE NOT EXISTS]: no row for a second Station. *)
Definition insert_station (id : option Z) (row : InstanceRow) (d : Db) : result (Db * option Z) SqlError :=
  if some_row (fun _ r => bool_decide (ir_product_name r ∈ station_products)) d then Ok (d, None)
  else let? (d', i) := insert_instance id row d in Ok (d', Some i).
Definition insert_plain (id : option Z) (row : InstanceRow) (d : Db) : result (Db * option Z) SqlError :=
  let? (d', i) := insert_instance id row d in Ok (d', Some i).

Definition insert_error (e : SqlError) : ManagerError :=
  match e with UniqueViolation => InstanceExists | _ => DatabaseError e end.

Definition check_parent (parent_id : option Z) : call A ManagerError unit :=
  match parent_id with
  | None => call_ret tt
  | Some p =>
      let* found := call_map_err DatabaseError (query (exists_instance p)) in
      if found : bool then call_ret tt else call_err InstanceNotFound
  end.

(** The rows of a new instance; returns [last_insert_rowid() as u32]. *)
Definition insert_rows (req : CreateInstanceRequest) (product : Product) : call A ManagerError Z :=
  let row := mkInstanceRow (ci_instance_name req) (ci_product_name req) (ci_parent_id req) in
  let insert := if is_station product then insert_station else insert_plain in
  let* inserted := call_map_err insert_error (execute (insert (ci_instance_id req) row)) in
  match inserted with
  | None => call_err InstanceExists
  | Some rowid =>
      let instance_id := wrap 32 rowid in
      let* _ := write_properties_tx instance_id (ci_product_name req) (ci_properties req) in
      call_ret instance_id
  end.

Definition point_counts (product : Product) : list Z :=
  [wrap 32 (Z.of_nat (length (pr_measurements product))); wrap 32 (Z.of_nat (length (pr_actions product)))].

Definition create_instance (req : CreateInstanceRequest) : call A ManagerError Z :=
  match validate_instance_name (ci_instance_name req) with
  | Err _ => call_err InvalidData
  | Ok _ =>
      match get_product (ci_product_name req) with
      | None => call_err InvalidData
      | Some product =>
          let* _ := check_parent (ci_parent_id req) in
          let* instance_id := transaction (insert_rows req product) in
          let* _ := redis_call (RegisterInstance instance_id (ci_instance_name req)) in
          let* _ := add_instance instance_id (point_counts product) in
          call_ret instance_id
      end
  end.

(** ** Rename and update *)

Definition name_count (new_name : name) (i : Z) (d : Db) : bool :=
  some_row (fun j r => bool_decide (ir_instance_name r = new_name) && negb (j =? i)) d.

Definition rename_rows (instance_id : Z) (new_name : name) : call A ManagerError unit :=
  call_map_err DatabaseError (
    let* _ := execute (update_instance_name new_name instance_id) in
    let* _ := statement (fun d =>
      (set_measurement_routing (rename_routes new_name instance_id (db_measurement_routing d)) d, tt)) in
    statement (fun d => (set_action_routing (rename_routes new_name instance_id (db_action_routing d)) d, tt))).

Definition rename_instance (instance_id : Z) (new_name : name) : call A ManagerError unit :=
  match validate_instance_name new_name with
  | Err _ => call_err InvalidData
  | Ok _ =>
      let* taken := call_map_err DatabaseError (query (name_count new_name instance_id)) in
      if taken : bool then call_err InstanceExists
      else transaction (rename_rows instance_id new_name)
  end.

Definition replace_properties (instance_id : Z) (product_name : string) (properties : list (string * string))
    : call A ManagerError unit :=
  let* _ := call_map_err DatabaseError
    (statement (fun d => (set_instance_properties (rows_not_of instance_id (db_instance_properties d)) d, tt))) in
  let* _ := write_properties_tx instance_id product_name properties in
  call_map_err DatabaseError (statement (fun d => (d, tt))).

(** [load_and_sync_instance]: the connection, the instance, its two routing
    tables, then the registration. *)
Definition sync_instance_to_redis (instance_name : name) : call A ManagerError unit :=
  let* _ := call_map_err DatabaseError round_trip in
  let* found := call_map_err DatabaseError (query (fun d =>
    i ← id_by_name instance_name d; r ← db_instances d !! i; Some (i, ir_product_name r))) in
  match found with
  | None => call_err (DatabaseError RowNotFound)
  | Some (i, product_name) =>
      let* _ := call_map_err DatabaseError (query (fun d => rows_of i (db_measurement_routing d))) in
      let* _ := call_map_err DatabaseError (query (fun d => rows_of i (db_action_routing d))) in
      match get_product product_name with
      | None => call_err InternalError
      | Some _ => redis_call (RegisterInstance i instance_name)
      end
  end.

Definition fetch_row (instance_id : Z) : call A ManagerError InstanceRow :=
  let* row := call_map_err (fun _ => InstanceNotFound) (query (fun d => db_instances d !! instance_id)) in
  match row with Some r => call_ret r | None => call_err InstanceNotFound end.

Definition update_properties (instance_id : Z) (instance_name : name) (properties : list (string * string))
    : call A ManagerError unit :=
  let* row := fetch_row instance_id in
  let* _ := transaction (replace_properties instance_id (ir_product_name row) properties) in
  call_ignore (sync_instance_to_redis instance_name).

Definition update_instance (instance_id : Z) (dto : UpdateInstanceDto) : call A ManagerError unit :=
  match ui_instance_name dto, ui_properties dto with
  | None, None => call_err InvalidData
  | _, _ =>
      let* old := fetch_row instance_id in
      let new_name := default (ir_instance_name old) (ui_instance_name dto) in
      let* _ :=
        (if bool_decide (new_name = ir_instance_name old) then call_ret tt
         else let* _ := rename_instance instance_id new_name in
              redis_call (RenameInstance instance_id (ir_instance_name old) new_name)) in
      match ui_properties dto with
      | None => call_ret tt
      | Some properties => update_properties instance_id new_name properties
      end
  end.

(** ** Single properties *)

Definition product_of (instance_id : Z) : call A ManagerError Product :=
  let* row := call_map_err DatabaseError (query (fun d => db_instances d !! instance_id)) in
  match row with
  | None => call_err InstanceNotFound
  | Some r =>
      match get_product (ir_product_name r) with
      | None => call_err InternalError
      | Some product => call_ret product
      end
  end.

Definition upsert_single_property (instance_id property_id : Z) (value : string) : call A ManagerError (Z * string) :=
  let* product := product_of instance_id in
  match find (fun p => p.1 =? property_id) (pr_properties product) with
  | None => call_err InvalidData
  | Some tpl =>
      let* _ := call_map_err DatabaseError (execute (upsert_property_row instance_id property_id value)) in
      call_ret tpl
  end.

Definition delete_single_property (instance_id property_id : Z) : call A ManagerError (Z * string) :=
  let* product := product_of instance_id in
  match find (fun p => p.1 =? property_id) (pr_properties product) with
  | None => call_err InvalidData
  | Some tpl =>
      let* _ := call_map_err DatabaseError (statement (fun d =>
        (set_instance_properties (delete (instance_id, property_id) (db_instance_properties d)) d, tt))) in
      call_ret tpl
  end.

(** ** Delete *)

Definition children_of (parent : Z) (d : Db) : list Z :=
  (filter (fun ir => ir_parent_id ir.2 = Some parent) (select (db_instances d))).*1.

(** The stack is kept with its top first; [None] when the fuel runs out. *)
Fixpoint collect_loop (fuel : nat) (queue all : list Z) : call A SqlError (option (list Z)) :=
  match queue with
  | [] => call_ret (Some (reverse all))
  | parent :: queue =>
      match fuel with
      | O => call_ret None
      | S fuel =>
          let* children := query (children_of parent) in
          collect_loop fuel (reverse children ++ queue) (all ++ children)
      end
  end.

(** Enough fuel for every forest: one turn per instance and one for the root. *)
Definition collect_descendants (instance_id : Z) : call A SqlError (option (list Z)) := fun s =>
  collect_loop (S (size (db_instances (im_db s)))) [instance_id] [] s.

Definition delete_rows (instance_id : Z) : call A ManagerError unit :=
  let* rows := call_map_err DatabaseError (statement (delete_instance_row instance_id)) in
  if Nat.eqb rows 0 then call_err InstanceNotFound else call_ret tt.

Definition delete_single_instance (instance_id : Z) : call A ManagerError unit :=
  let* row := fetch_row instance_id in
  let* _ := transaction (delete_rows instance_id) in
  let* _ := redis_call (UnregisterInstance instance_id (ir_instance_name row)) in
  let* _ := remove_instance instance_id in
  remove_from_name_cache (ir_instance_name row).

Fixpoint delete_all (ids : list Z) : call A ManagerError unit :=
  match ids with
  | [] => call_ret tt
  | i :: ids => let* _ := call_ignore (delete_single_instance i) in delete_all ids
  end.

(** [None] stands for the loop of [collect_descendants] that does not end. *)
Definition delete_instance (instance_id : Z) : call A ManagerError (option unit) :=
  let* descendants := call_map_err DatabaseError (collect_descendants instance_id) in
  match descendants with
  | None => call_ret None
  | Some ids =>
      let* _ := delete_all ids in
      let* _ := delete_single_instance instance_id in
      call_ret (Some tt)
  end.

(** ** Routes of an instance *)

Definition check_direction (ok : PointType -> bool) (fr : option PointType) : call A ManagerError unit :=
  match fr with
  | Some fr => if ok fr then call_ret tt else call_err (InvalidChannelType fr)
  | None => call_ret tt
  end.

Definition upsert_measurement_row (i p : Z) (instance_name : name) (q : SinglePointRoutingRequest) (d : Db)
    : result (Db * unit) SqlError :=
  if channel_ok d (sr_channel_id q) && exists_instance i d then
    let t := db_measurement_routing d in
    Ok (set_measurement_routing (<[(i, p) := routed instance_name q (t !! (i, p))]> t) d, tt)
  else Err ForeignKeyViolation.
Definition upsert_action_row (i p : Z) (instance_name : name) (q : SinglePointRoutingRequest) (d : Db)
    : result (Db * unit) SqlError :=
  if channel_ok d (sr_channel_id q) && exists_instance i d then
    let t := db_action_routing d in
    Ok (set_action_routing (<[(i, p) := routed instance_name q (t !! (i, p))]> t) d, tt)
  else Err ForeignKeyViolation.

(** The reference an enabled and bound route adds: its slot is left at 0. *)
Definition slot_ref (point_id : Z) (q : SinglePointRoutingRequest) : option SharedSlotRef :=
  match sr_enabled q, sr_channel_id q, sr_four_remote q, sr_channel_point_id q with
  | true, Some channel_id, Some channel_type, Some channel_point_id =>
      Some (mkSharedSlotRef 0 channel_type point_id (wrap 32 channel_id) channel_type channel_point_id)
  | _, _, _, _ => None
  end.

Definition upsert_measurement_routing (instance_id point_id : Z) (q : SinglePointRoutingRequest)
    : call A ManagerError unit :=
  let* _ := check_direction PointType_is_measurement (sr_four_remote q) in
  let* row := fetch_row instance_id in
  let* _ := call_map_err DatabaseError
    (execute (upsert_measurement_row instance_id point_id (ir_instance_name row) q)) in
  match slot_ref point_id q with
  | Some r => with_index (fun index => (InstanceIndex_add_shared_slot index instance_id r).1)
  | None => call_ret tt
  end.

Definition upsert_action_routing (instance_id point_id : Z) (q : SinglePointRoutingRequest)
    : call A ManagerError unit :=
  let* _ := check_direction PointType_is_action (sr_four_remote q) in
  let* row := fetch_row instance_id in
  call_map_err DatabaseError (execute (upsert_action_row instance_id point_id (ir_instance_name row) q)).

(** Telemetry first, Signal when that removed nothing. *)
Definition drop_shared (instance_id point_id : Z) (index : InstanceIndex) : InstanceIndex :=
  match InstanceIndex_remove_shared_slot index instance_id Telemetry point_id with
  | (index', Ok (Some _)) => index'
  | (index', _) => (InstanceIndex_remove_shared_slot index' instance_id Signal point_id).1
  end.

Definition delete_measurement_routing (instance_id point_id : Z) : call A ManagerError nat :=
  let* rows := call_map_err DatabaseError (statement (fun d =>
    let '(t, n) := delete_row (instance_id, point_id) (db_measurement_routing d) in
    (set_measurement_routing t d, n))) in
  let* _ := (if (0 <? rows)%nat then with_index (drop_shared instance_id point_id) else call_ret tt) in
  call_ret rows.

Definition delete_action_routing (instance_id point_id : Z) : call A ManagerError nat :=
  call_map_err DatabaseError (statement (fun d =>
    let '(t, n) := delete_row (instance_id, point_id) (db_action_routing d) in (set_action_routing t d, n))).

Definition toggle_measurement_routing (instance_id point_id : Z) (enabled : bool) : call A ManagerError nat :=
  call_map_err DatabaseError (statement (fun d =>
    let '(t, n) := toggle_row (instance_id, point_id) enabled (db_measurement_routing d) in
    (set_measurement_routing t d, n))).

Definition toggle_action_routing (instance_id point_id : Z) (enabled : bool) : call A ManagerError nat :=
  call_map_err DatabaseError (statement (fun d =>
    let '(t, n) := toggle_row (instance_id, point_id) enabled (db_action_routing d) in
    (set_action_routing t d, n))).

Definition delete_all_routing (instance_id : Z) : call A ManagerError (nat * nat) :=
  let* ms := call_map_err DatabaseError (statement (fun d =>
    (set_measurement_routing (rows_not_of instance_id (db_measurement_routing d)) d,
     size (rows_of instance_id (db_measurement_routing d))))) in
  let* acts := call_map_err DatabaseError (statement (fun d =>
    (set_action_routing (rows_not_of instance_id (db_action_routing d)) d,
     size (rows_of instance_id (db_action_routing d))))) in
  let* _ := (if (0 <? ms)%nat then with_index (fun index => (InstanceIndex_clear_shared_slots index instance_id).1)
             else call_ret tt) in
  call_ret (ms, acts).

(** ** Sequences of requests *)

Inductive request :=
| Create (req : CreateInstanceRequest)
| Update (instance_id : Z) (dto : UpdateInstanceDto)
| Delete (instance_id : Z)
| PutProperty (instance_id property_id : Z) (value : string)
| DropProperty (instance_id property_id : Z)
| PutMeasurement (instance_id point_id : Z) (q : SinglePointRoutingRequest)
| PutAction (instance_id point_id : Z) (q : SinglePointRoutingRequest)
| DropMeasurement (instance_id point_id : Z)
| DropAction (instance_id point_id : Z)
| ToggleMeasurement (instance_id point_id : Z) (enabled : bool)
| ToggleAction (instance_id point_id : Z) (enabled : bool)
| DropRouting (instance_id : Z)
| LookupName (instance_name : name)
| ChannelCreated (channel_id : Z)
| ChannelDeleted (channel_id : Z)
| NextFailures (failures : list bool).

(** The manager after a request, whatever it answers; the last three are the
    environment's: comsrv's changes of the channel table and the failures ahead. *)
Definition handle (r : request) (s : InstanceManager A) : outcome (InstanceManager A) :=
  let after {T} (c : call A ManagerError T) := outcome_map fst (c s) in
  match r with
  | Create req => after (create_instance req)
  | Update i dto => after (update_instance i dto)
  | Delete i => after (delete_instance i)
  | PutProperty i p v => after (upsert_single_property i p v)
  | DropProperty i p => after (delete_single_property i p)
  | PutMeasurement i p q => after (upsert_measurement_routing i p q)
  | PutAction i p q => after (upsert_action_routing i p q)
  | DropMeasurement i p => after (delete_measurement_routing i p)
  | DropAction i p => after (delete_action_routing i p)
  | ToggleMeasurement i p b => after (toggle_measurement_routing i p b)
  | ToggleAction i p b => after (toggle_action_routing i p b)
  | DropRouting i => after (delete_all_routing i)
  | LookupName n => after (get_instance_id n)
  | ChannelCreated c => Ret (set_db (insert_channel_row c (im_db s)) s)
  | ChannelDeleted c => Ret (set_db (delete_channel_row c (im_db s)) s)
  | NextFailures f => Ret (set_failures f s)
  end.

Fixpoint handle_all (rs : list request) (s : InstanceManager A) : outcome (InstanceManager A) :=
  match rs with
  | [] => Ret s
  | r :: rs => let! s' := handle r s in handle_all rs s'
  end.
End Manager.

(** * What the tables promise *)

Section Spec.
Context (products : list Product).

Definition station_row (r : InstanceRow) : Prop :=
  exists p, get_product products (ir_product_name r) = Some p /\ is_station p = true.

(** Instance names are valid and unique, products known, parents present and
    without a cycle, and at most one instance is a Station. *)
Record instances_ok (t : gmap Z InstanceRow) : Prop := {
  io_names : forall i j r r', t !! i = Some r -> t !! j = Some r' -> ir_instance_name r = ir_instance_name r' -> i = j;
  io_valid : map_Forall (fun _ r => validate_instance_name (ir_instance_name r) = Ok tt) t;
  io_products : map_Forall (fun _ r => is_Some (get_product products (ir_product_name r))) t;
  io_parents : exists rank : Z -> nat, forall i r p, t !! i = Some r -> ir_parent_id r = Some p ->
    is_Some (t !! p) /\ (rank p < rank i)%nat;
  io_station : forall i j r r', t !! i = Some r -> t !! j = Some r' -> station_row r -> station_row r' -> i = j
}.

(** A route belongs to an instance, carries its current name, has a direction
    the table allows and a channel that exists. *)
Record route_ok (direction : PointType -> bool) (d : Db) (i : Z) (r : RoutingRow) : Prop := {
  ro_instance : exists row, db_instances d !! i = Some row /\ rr_instance_name r = ir_instance_name row;
  ro_type : forall fr, rr_channel_type r = Some fr -> direction fr = true;
  ro_channel : forall c, rr_channel_id r = Some c -> c ∈ db_channels d
}.

Record db_ok (d : Db) : Prop := {
  do_instances : instances_ok (db_instances d);
  do_measurements : forall i p r, db_measurement_routing d !! (i, p) = Some r -> route_ok PointType_is_measurement d i r;
  do_actions : forall i p r, db_action_routing d !! (i, p) = Some r -> route_ok PointType_is_action d i r;
  do_properties : forall i p v, db_instance_properties d !! (i, p) = Some v -> is_Some (db_instances d !! i)
}.
End Spec.

(** ** The statements keep the promise *)

Lemma some_row_spec p d :
  some_row p d = true <-> exists i r, db_instances d !! i = Some r /\ p i r = true.
Proof.
  unfold some_row. rewrite existsb_exists. split.
  - intros [[i r] [Hin Hp]]. exists i, r. split; [|done]. by apply elem_of_map_to_list, list_elem_of_In.
  - intros (i & r & Hl & Hp). exists (i, r). split; [|done]. by apply list_elem_of_In, elem_of_map_to_list.
Qed.

Lemma foldr_max_elem l x : x ∈ l -> x <= foldr Z.max 0 l.
Proof. induction l as [|y l IH]; [by intros ?%not_elem_of_nil |]. intros [-> | H]%elem_of_cons; cbn; [lia |]. specialize (IH H). lia. Qed.

Lemma next_rowid_fresh d : db_instances d !! next_rowid d = None.
Proof.
  destruct (db_instances d !! next_rowid d) as [r |] eqn:E; [|done]. exfalso.
  assert (H : next_rowid d ∈ (map_to_list (db_instances d)).*1).
  { apply list_elem_of_fmap. exists (next_rowid d, r). split; [done |]. by apply elem_of_map_to_list. }
  apply foldr_max_elem in H. unfold next_rowid in H at 1. lia.
Qed.

Section Statements.
Context (products : list Product).
Implicit Types (d : Db) (dir : PointType -> bool) (i j p pid : Z) (k : Z * Z) (row : InstanceRow)
  (q : SinglePointRoutingRequest) (new_name : name).

(** Rows survive with their names: routes and properties stay in place. *)
Definition names_kept (t t' : gmap Z InstanceRow) : Prop :=
  forall i r, t !! i = Some r -> exists r', t' !! i = Some r' /\ ir_instance_name r' = ir_instance_name r.

Lemma route_ok_kept dir d d' i r : names_kept (db_instances d) (db_instances d') -> db_channels d' = db_channels d ->
  route_ok dir d i r -> route_ok dir d' i r.
Proof.
  intros Hk Hc [(row & Hrow & Hname) Hty Hch]. destruct (Hk _ _ Hrow) as (row' & Hrow' & Hn').
  split; [exists row'; by rewrite Hn' | done |]. intros c E. rewrite Hc. by apply Hch.
Qed.

Lemma db_ok_instances d t : db_ok products d -> instances_ok products t -> names_kept (db_instances d) t ->
  db_ok products (set_instances t d).
Proof.
  intros [_ Hm Ha Hp] Ht Hk. split; cbn; [done | | |].
  - intros i p r E. by apply (route_ok_kept _ d), (Hm _ p).
  - intros i p r E. by apply (route_ok_kept _ d), (Ha _ p).
  - intros i p v E. destruct (Hp _ _ _ E) as [r Hr]. destruct (Hk _ _ Hr) as (r' & Hr' & _). by exists r'.
Qed.

Lemma instances_ok_insert t i row : instances_ok products t -> t !! i = None ->
  validate_instance_name (ir_instance_name row) = Ok tt -> is_Some (get_product products (ir_product_name row)) ->
  (forall j r, t !! j = Some r -> ir_instance_name r <> ir_instance_name row) ->
  (forall p, ir_parent_id row = Some p -> is_Some (t !! p)) ->
  (station_row products row -> forall j r, t !! j = Some r -> ~ station_row products r) ->
  instances_ok products (<[i := row]> t).
Proof.
  intros [Hn Hv Hp (rank & Hr) Hs] Hi Hvalid Hprod Hfree Hparent Hstation.
  assert (Hrow : forall j (r : InstanceRow), <[i := row]> t !! j = Some r -> (j = i /\ r = row) \/ (j <> i /\ t !! j = Some r)).
  { intros j r [[-> ->] | [? ?]]%lookup_insert_Some; [by left | right]. done. }
  split.
  - intros a b ra rb [[-> ->] | [? Ha]]%Hrow [[-> ->] | [? Hb]]%Hrow E; [done | | | by eapply Hn].
    + exfalso. by apply (Hfree b rb).
    + exfalso. by apply (Hfree a ra).
  - by apply map_Forall_insert.
  - by apply map_Forall_insert.
  - exists (fun j => if decide (j = i) then S (match ir_parent_id row with Some p => rank p | None => 0%nat end) else rank j).
    intros a r p [[-> ->] | [? Ha]]%Hrow E.
    + specialize (Hparent p E) as [rp Hrp]. assert (p <> i) by (intros ->; congruence).
      rewrite lookup_insert_ne, Hrp by done. split; [by eexists |]. rewrite E. repeat case_decide; [done | done | lia | done].
    + destruct (Hr _ _ _ Ha E) as [[rp Hrp] Hlt]. assert (p <> i) by (intros ->; congruence).
      rewrite lookup_insert_ne, Hrp by done. split; [by eexists |]. by repeat case_decide.
  - intros a b ra rb [[-> ->] | [? Ha]]%Hrow [[-> ->] | [? Hb]]%Hrow Sa Sb; [done | | | by eapply Hs].
    + exfalso. by apply (Hstation Sa b rb).
    + exfalso. by apply (Hstation Sb a ra).
Qed.

(** Changing rows in place, without touching products and parents. *)
Lemma instances_ok_rename t i r new_name : instances_ok products t -> t !! i = Some r ->
  validate_instance_name new_name = Ok tt ->
  (forall j r', t !! j = Some r' -> j <> i -> ir_instance_name r' <> new_name) ->
  instances_ok products (<[i := rename_row new_name r]> t).
Proof.
  intros [Hn Hv Hp (rank & Hr) Hs] Hi Hvalid Hfree.
  assert (Hrow : forall j (x : InstanceRow), <[i := rename_row new_name r]> t !! j = Some x ->
    exists y, t !! j = Some y /\ ir_product_name x = ir_product_name y /\ ir_parent_id x = ir_parent_id y).
  { intros j x [[<- <-] | [? ?]]%lookup_insert_Some; [by exists r | by exists x]. }
  split.
  - intros a b ra rb Ha Hb E. apply lookup_insert_Some in Ha as [[<- <-] | [? Ha]];
      apply lookup_insert_Some in Hb as [[<- <-] | [? Hb]]; cbn in *; [done | | | by eapply Hn].
    + exfalso. by eapply (Hfree b).
    + exfalso. by eapply (Hfree a).
  - by apply map_Forall_insert_2.
  - apply map_Forall_insert_2; [|done]. cbn. by eapply Hp.
  - exists rank. intros a x p Ha E. destruct (Hrow _ _ Ha) as (y & Hy & _ & Ey). rewrite Ey in E.
    destruct (Hr _ _ _ Hy E) as [[rp Hrp] Hlt]. split; [|done].
    destruct (decide (p = i)) as [-> | ?]; [by rewrite lookup_insert_eq | by rewrite lookup_insert_ne].
  - intros a b ra rb Ha Hb Sa Sb. destruct (Hrow _ _ Ha) as (ya & Hya & Ea & _), (Hrow _ _ Hb) as (yb & Hyb & Eb & _).
    eapply (Hs a b ya yb); [done | done | |]; unfold station_row in *; [by rewrite <- Ea | by rewrite <- Eb].
Qed.

Lemma lookup_orphaned (t : gmap Z InstanceRow) i j x : (orphan i <$> delete i t) !! j = Some x ->
  exists y, t !! j = Some y /\ j <> i /\ x = orphan i y.
Proof.
  rewrite lookup_fmap. intros (y & Hy & ->)%fmap_Some. apply lookup_delete_Some in Hy as [? ?].
  exists y. split_and!; [done | by apply not_eq_sym | done].
Qed.

Lemma orphan_name i r : ir_instance_name (orphan i r) = ir_instance_name r.
Proof. unfold orphan. by case_bool_decide. Qed.
Lemma orphan_product i r : ir_product_name (orphan i r) = ir_product_name r.
Proof. unfold orphan. by case_bool_decide. Qed.
Lemma orphan_parent i r p : ir_parent_id (orphan i r) = Some p -> ir_parent_id r = Some p /\ p <> i.
Proof. unfold orphan. case_bool_decide as H; [done |]. intros E. split; [done |]. intros ->. done. Qed.

Lemma instances_ok_delete t i : instances_ok products t -> instances_ok products (orphan i <$> delete i t).
Proof.
  intros [Hn Hv Hp (rank & Hr) Hs]. split.
  - intros a b ra rb (ya & Ha & _ & ->)%lookup_orphaned (yb & Hb & _ & ->)%lookup_orphaned. rewrite !orphan_name. by eapply Hn.
  - intros a x (y & Ha & _ & ->)%lookup_orphaned. rewrite orphan_name. by eapply Hv.
  - intros a x (y & Ha & _ & ->)%lookup_orphaned. rewrite orphan_product. by eapply Hp.
  - exists rank. intros a x p (y & Ha & _ & ->)%lookup_orphaned (E & Hne)%orphan_parent.
    destruct (Hr _ _ _ Ha E) as [[rp Hrp] Hlt]. split; [|done].
    rewrite lookup_fmap, lookup_delete_ne, Hrp by done. by eexists.
  - intros a b ra rb (ya & Ha & _ & ->)%lookup_orphaned (yb & Hb & _ & ->)%lookup_orphaned.
    unfold station_row. rewrite !orphan_product. by eapply Hs.
Qed.

Lemma delete_instance_row_ok i d : db_ok products d -> db_ok products (delete_instance_row i d).1.
Proof.
  intros [Hi Hm Ha Hp]. unfold delete_instance_row. case_bool_decide; [|done]. cbn.
  assert (Hkeep : forall dir j r, j <> i -> route_ok dir d j r ->
    route_ok dir (mkDb (orphan i <$> delete i (db_instances d)) (rows_not_of i (db_measurement_routing d))
      (rows_not_of i (db_action_routing d)) (rows_not_of i (db_instance_properties d)) (db_channels d)) j r).
  { intros dir j r Hne [(row & Hrow & Hname) Hty Hch]. split; cbn; [| done | done]. exists (orphan i row).
    rewrite lookup_fmap, lookup_delete_ne, Hrow by done. by rewrite orphan_name. }
  split; cbn; [by apply instances_ok_delete | | |].
  - intros j p r [E Hne]%map_lookup_filter_Some. by apply Hkeep, (Hm _ p).
  - intros j p r [E Hne]%map_lookup_filter_Some. by apply Hkeep, (Ha _ p).
  - intros j p v [E Hne]%map_lookup_filter_Some. destruct (Hp _ _ _ E) as [row Hrow]. cbn in Hne.
    rewrite lookup_fmap, lookup_delete_ne, Hrow by done. by eexists.
Qed.

Lemma names_kept_refl t : names_kept t t.
Proof. intros i r E. by exists r. Qed.

Lemma db_ok_measurements d t : db_ok products d ->
  (forall i p r, t !! (i, p) = Some r -> route_ok PointType_is_measurement d i r) ->
  db_ok products (set_measurement_routing t d).
Proof.
  intros [Hi Hm Ha Hp] Ht. split; cbn; [done | | | done].
  - intros i p r E. by apply (route_ok_kept _ d); [apply names_kept_refl | | apply (Ht _ p)].
  - intros i p r E. by apply (route_ok_kept _ d); [apply names_kept_refl | | apply (Ha _ p)].
Qed.

Lemma db_ok_actions d t : db_ok products d ->
  (forall i p r, t !! (i, p) = Some r -> route_ok PointType_is_action d i r) ->
  db_ok products (set_action_routing t d).
Proof.
  intros [Hi Hm Ha Hp] Ht. split; cbn; [done | | | done].
  - intros i p r E. by apply (route_ok_kept _ d); [apply names_kept_refl | | apply (Hm _ p)].
  - intros i p r E. by apply (route_ok_kept _ d); [apply names_kept_refl | | apply (Ht _ p)].
Qed.

Lemma db_ok_properties d t : db_ok products d ->
  (forall i p v, t !! (i, p) = Some v -> is_Some (db_instances d !! i)) ->
  db_ok products (set_instance_properties t d).
Proof.
  intros [Hi Hm Ha Hp] Ht. split; cbn; [done | | | done].
  - intros i p r E. by apply (route_ok_kept _ d); [apply names_kept_refl | | apply (Hm _ p)].
  - intros i p r E. by apply (route_ok_kept _ d); [apply names_kept_refl | | apply (Ha _ p)].
Qed.

(** The four ways in which a statement changes one of these tables. *)
Definition rows_from {V} (ok : Z -> V -> Prop) (t t' : gmap (Z * Z) V) : Prop :=
  (forall i p v, t !! (i, p) = Some v -> ok i v) -> forall i p v, t' !! (i, p) = Some v -> ok i v.

Lemma rows_from_insert {V} (ok : Z -> V -> Prop) (t : gmap (Z * Z) V) k v : ok k.1 v -> rows_from ok t (<[k := v]> t).
Proof. intros Hk Ht i p w [[-> ->] | [_ E]]%lookup_insert_Some; [done | by eapply Ht]. Qed.
Lemma rows_from_delete {V} (ok : Z -> V -> Prop) (t : gmap (Z * Z) V) k : rows_from ok t (delete k t).
Proof. intros Ht i p w [_ E]%lookup_delete_Some. by eapply Ht. Qed.
Lemma rows_from_not_of {V} (ok : Z -> V -> Prop) (t : gmap (Z * Z) V) i : rows_from ok t (rows_not_of i t).
Proof. intros Ht j p w [E _]%map_lookup_filter_Some. by eapply Ht. Qed.
Lemma rows_from_delete_row {V} (ok : Z -> V -> Prop) (t : gmap (Z * Z) V) k : rows_from ok t (delete_row k t).1.
Proof. unfold delete_row. destruct (t !! k); [apply rows_from_delete | by intros Ht]. Qed.
Lemma rows_from_toggle d dir t k b : rows_from (route_ok dir d) t (toggle_row k b t).1.
Proof.
  unfold toggle_row. destruct (t !! k) as [r |] eqn:E; [|by intros Ht]. intros Ht.
  apply rows_from_insert; [|done]. destruct k as [i p]. destruct (Ht _ _ _ E). by split.
Qed.

Lemma upsert_property_row_ok i pid v d d' x : db_ok products d -> upsert_property_row i pid v d = Ok (d', x) -> db_ok products d'.
Proof.
  unfold upsert_property_row. intros Hd. case_bool_decide as Hi; [|done]. intros [= <- <-].
  apply db_ok_properties; [done |]. apply (rows_from_insert (fun i _ => is_Some (db_instances d !! i))); [done | apply Hd].
Qed.

(** The new content of a route, given the name its instance has. *)
Lemma routed_ok dir d (i p : Z) (t : gmap (Z * Z) RoutingRow) row q : (forall i p r, t !! (i, p) = Some r -> route_ok dir d i r) ->
  db_instances d !! i = Some row -> (forall fr, sr_four_remote q = Some fr -> dir fr = true) ->
  channel_ok d (sr_channel_id q) = true ->
  route_ok dir d i (routed (ir_instance_name row) q (t !! (i, p))).
Proof.
  intros Ht Hrow Hdir Hch. split; cbn; [| done |].
  - exists row. split; [done |]. destruct (t !! (i, p)) as [r |] eqn:E; [|done].
    destruct (ro_instance _ _ _ _ (Ht _ _ _ E)) as (row' & Hrow' & ->). congruence.
  - intros c E. rewrite E in Hch. cbn in Hch. by apply bool_decide_eq_true in Hch.
Qed.

Lemma rename_routes_lookup new_name i t k r : rename_routes new_name i t !! k = Some r ->
  exists r', t !! k = Some r' /\ r = rename_route new_name i k r'.
Proof. unfold rename_routes. rewrite map_lookup_imap. intros (r' & E & [= <-])%bind_Some. by exists r'. Qed.

Lemma rename_route_ok dir d d' new_name i r0 k r : db_instances d !! i = Some r0 ->
  db_instances d' = <[i := rename_row new_name r0]> (db_instances d) -> db_channels d' = db_channels d ->
  route_ok dir d k.1 r -> route_ok dir d' k.1 (rename_route new_name i k r).
Proof.
  intros Hr0 Hd' Hch [(row & Hrow & Hname) Hty Hc]. unfold rename_route.
  destruct (Z.eqb_spec k.1 i) as [-> | Hne]; split; cbn; try done; rewrite ?Hd', ?Hch; try done.
  - exists (rename_row new_name r0). by rewrite lookup_insert_eq.
  - exists row. by rewrite lookup_insert_ne.
Qed.

(** The three updates of a rename, together. *)
Definition renamed (new_name : name) (i : Z) (r0 : InstanceRow) (d : Db) : Db :=
  mkDb (<[i := rename_row new_name r0]> (db_instances d)) (rename_routes new_name i (db_measurement_routing d))
    (rename_routes new_name i (db_action_routing d)) (db_instance_properties d) (db_channels d).

Lemma renamed_ok new_name i r0 d : db_ok products d -> db_instances d !! i = Some r0 ->
  instances_ok products (<[i := rename_row new_name r0]> (db_instances d)) -> db_ok products (renamed new_name i r0 d).
Proof.
  intros [Hi Hm Ha Hp] Hr0 Hok. split; cbn; [done | | |].
  - intros j p r (r' & E & ->)%rename_routes_lookup. by apply (rename_route_ok _ d _ _ _ r0 (j, p)), (Hm _ p).
  - intros j p r (r' & E & ->)%rename_routes_lookup. by apply (rename_route_ok _ d _ _ _ r0 (j, p)), (Ha _ p).
  - intros j p v E. destruct (decide (j = i)) as [-> | ?]; [by rewrite lookup_insert_eq |].
    rewrite lookup_insert_ne by done. by apply (Hp _ p v).
Qed.

Lemma rename_routes_absent new_name i (t : gmap (Z * Z) RoutingRow) : (forall p, t !! (i, p) = None) -> rename_routes new_name i t = t.
Proof.
  intros Hnone. apply map_eq. intros [j p]. unfold rename_routes. rewrite map_lookup_imap.
  destruct (t !! (j, p)) as [r |] eqn:E; [|done]. cbn. unfold rename_route. cbn.
  destruct (Z.eqb_spec j i) as [-> | ?]; [|done]. by rewrite Hnone in E.
Qed.

Lemma delete_channel_row_ok c d : db_ok products d -> db_ok products (delete_channel_row c d).
Proof.
  intros [Hi Hm Ha Hp].
  assert (Hun : forall dir j r, route_ok dir d j r -> route_ok dir (delete_channel_row c d) j (unbind c r)).
  { intros dir j r [Hrow Hty Hch]. unfold unbind. case_bool_decide as Hc; split; cbn; try done.
    intros c' E. specialize (Hch _ E). set_solver. }
  split; cbn; [done | | | done].
  - intros i p r. rewrite lookup_fmap. intros (r' & E & ->)%fmap_Some. by apply Hun, (Hm _ p).
  - intros i p r. rewrite lookup_fmap. intros (r' & E & ->)%fmap_Some. by apply Hun, (Ha _ p).
Qed.

Lemma insert_channel_row_ok c d : db_ok products d -> db_ok products (insert_channel_row c d).
Proof.
  intros [Hi Hm Ha Hp].
  assert (Hun : forall dir j r, route_ok dir d j r -> route_ok dir (insert_channel_row c d) j r).
  { intros dir j r [Hrow Hty Hch]. split; cbn; try done. intros c' E. specialize (Hch _ E). set_solver. }
  split; cbn; [done | | | done]; intros i p r E; [by apply Hun, (Hm _ p) | by apply Hun, (Ha _ p)].
Qed.

Lemma station_products_row r : station_row products r -> ir_product_name r ∈ station_products products.
Proof.
  intros (p & Hp & Hs). unfold get_product in Hp. apply find_some in Hp as [Hin Hname].
  apply list_elem_of_fmap. exists p. apply String.eqb_eq in Hname. split; [done |].
  apply list_elem_of_filter. split; [done |]. by apply list_elem_of_In.
Qed.

(** What a row must satisfy to be inserted, apart from what the table checks. *)
Definition row_valid (row : InstanceRow) (d : Db) : Prop :=
  validate_instance_name (ir_instance_name row) = Ok tt /\ is_Some (get_product products (ir_product_name row)) /\
  forall p, ir_parent_id row = Some p -> is_Some (db_instances d !! p).

Lemma insert_instance_ok id row d d' i : db_ok products d -> row_valid row d ->
  (station_row products row -> forall j r, db_instances d !! j = Some r -> ~ station_row products r) ->
  insert_instance id row d = Ok (d', i) ->
  db_ok products d' /\ db_instances d !! i = None /\ d' = set_instances (<[i := row]> (db_instances d)) d.
Proof.
  intros Hd (Hv & Hprod & Hpar) Hst. unfold insert_instance. set (k := default (next_rowid d) id).
  destruct (bool_decide _ || _) eqn:Eb; [done |]. apply orb_false_iff in Eb as [Ek En].
  apply bool_decide_eq_false, eq_None_not_Some in Ek.
  destruct (match ir_parent_id row with Some _ => _ | None => _ end); [|done]. intros [= <- <-].
  split_and!; [| done | done]. apply db_ok_instances; [done | |].
  - apply instances_ok_insert; try done; [apply Hd |]. intros j r Hj Heq.
    assert (Ht : some_row (fun _ r => bool_decide (ir_instance_name r = ir_instance_name row)) d = true).
    { apply some_row_spec. exists j, r. split; [done |]. by apply bool_decide_eq_true. }
    congruence.
  - intros j r Hj. exists r. split; [|done]. rewrite lookup_insert_ne; [done |]. intros <-. congruence.
Qed.

Lemma insert_plain_ok id row d d' x : db_ok products d -> row_valid row d -> ~ station_row products row ->
  insert_plain id row d = Ok (d', x) -> db_ok products d'.
Proof.
  intros Hd Hr Hs. unfold insert_plain. destruct (insert_instance id row d) as [[d1 i] |] eqn:E; [|done].
  cbn. intros [= <- <-]. by eapply insert_instance_ok.
Qed.

Lemma insert_station_ok id row d d' x : db_ok products d -> row_valid row d ->
  insert_station products id row d = Ok (d', x) -> db_ok products d'.
Proof.
  intros Hd Hr. unfold insert_station. destruct (some_row _ d) eqn:Es; [by intros [= <- <-] |].
  destruct (insert_instance id row d) as [[d1 i] |] eqn:E; [|done].
  cbn. intros [= <- <-]. eapply insert_instance_ok; [done | done | | done].
  intros _ j r Hj Hs%station_products_row.
  assert (Ht : some_row (fun _ r => bool_decide (ir_product_name r ∈ station_products products)) d = true).
  { apply some_row_spec. exists j, r. split; [done |]. by apply bool_decide_eq_true. }
  congruence.
Qed.
End Statements.

(** * Calls of the manager

    [hoare P m Q]: from a manager that satisfies [P] the call [m] does not panic
    and its manager and result satisfy [Q]. *)
Create HintDb calls.

Section Calls.
Context {A : Type} `{AL : !SlotAllocator A}.
Context (products : list Product) (select : gmap Z InstanceRow -> list (Z * InstanceRow)).
Implicit Types s : InstanceManager A.

Definition hoare {E T} (P : InstanceManager A -> Prop) (m : call A E T) (Q : InstanceManager A -> result T E -> Prop) : Prop :=
  forall s, P s -> exists s' r, m s = Ret (s', r) /\ Q s' r.

Lemma hoare_bind {E T U} P (m : call A E T) Q (k : T -> call A E U) R :
  hoare P m Q -> (forall x, hoare (fun s => Q s (Ok x)) (k x) R) -> (forall s e, Q s (Err e) -> R s (Err e)) ->
  hoare P (call_bind m k) R.
Proof.
  intros Hm Hk He s Hs. destruct (Hm s Hs) as (s1 & [x | e] & E1 & H1); unfold call_bind; rewrite E1; cbn.
  - by apply Hk.
  - eexists _, _. split; [done |]. by apply He.
Qed.

Lemma hoare_map_err {E F T} P I (f : E -> F) (m : call A E T) :
  hoare P m (fun s _ => I s) -> hoare P (call_map_err f m) (fun s _ => I s).
Proof. intros Hm s Hs. destruct (Hm s Hs) as (s' & r & E1 & H1). unfold call_map_err. rewrite E1. by eexists _, _. Qed.

(** The pool behind the manager is sound: no block is lost or shared. *)
Definition slots_ok s : Prop :=
  match im_slot_runtime s with
  | Some (index, bitmap) => pool_state_ok (mkPoolState ∅ index bitmap)
  | None => True
  end.
Definition manager_ok s : Prop := db_ok products (im_db s) /\ slots_ok s.

Definition keeps {E T} (m : call A E T) : Prop := hoare manager_ok m (fun s _ => manager_ok s).
(** The body of a transaction: what it leaves counts only when it succeeds. *)
Definition keeps_on_success {E T} (m : call A E T) : Prop :=
  hoare manager_ok m (fun s r => slots_ok s /\ match r with Ok _ => db_ok products (im_db s) | Err _ => True end).

Lemma keeps_body {E T} (m : call A E T) : keeps m -> keeps_on_success m.
Proof. intros Hm s Hs. destruct (Hm s Hs) as (s' & r & E1 & H1 & H2). exists s', r. split; [done |]. by destruct r. Qed.

Lemma keeps_bind {E T U} (m : call A E T) (k : T -> call A E U) : keeps m -> (forall x, keeps (k x)) -> keeps (call_bind m k).
Proof. intros Hm Hk. by eapply hoare_bind. Qed.
Lemma keeps_ret {E T} (x : T) : keeps (E := E) (call_ret x).
Proof. intros s Hs. by eexists _, _. Qed.
Lemma keeps_err {E T} (e : E) : keeps (T := T) (call_err e).
Proof. intros s Hs. by eexists _, _. Qed.
Lemma keeps_map_err {E F T} (f : E -> F) (m : call A E T) : keeps m -> keeps (call_map_err f m).
Proof. apply hoare_map_err. Qed.
Lemma keeps_ignore {E F T} (m : call A E T) : keeps m -> keeps (E := F) (call_ignore m).
Proof. intros Hm s Hs. destruct (Hm s Hs) as (s' & r & E1 & H1). unfold call_ignore. rewrite E1. by eexists _, _. Qed.
Lemma keeps_round_trip : keeps round_trip.
Proof. intros s Hs. by eexists _, _. Qed.
Lemma keeps_query {T} (q : Db -> T) : keeps (query q).
Proof. apply keeps_bind; [apply keeps_round_trip |]. intros x s Hs. by eexists _, _. Qed.
Lemma keeps_redis {E} c : keeps (E := E) (redis_call c).
Proof. intros s Hs. by eexists _, _. Qed.
Lemma keeps_execute {T} (f : Db -> result (Db * T) SqlError) :
  (forall d d' x, db_ok products d -> f d = Ok (d', x) -> db_ok products d') -> keeps (execute f).
Proof.
  intros Hf. apply keeps_bind; [apply keeps_round_trip |]. intros _ s Hs.
  destruct (f (im_db s)) as [[d x] | e] eqn:Ef; [|by eexists _, _]. eexists _, _. split; [done |].
  destruct Hs as [Hd Hp]. split; [by eapply Hf | done].
Qed.
Lemma keeps_statement {T} (f : Db -> Db * T) :
  (forall d, db_ok products d -> db_ok products (f d).1) -> keeps (statement f).
Proof. intros Hf. apply keeps_execute. intros d d' x Hd [= E]. specialize (Hf d Hd). by rewrite E in Hf. Qed.

Lemma hoare_transaction {T} P (body : call A ManagerError T) :
  (forall s l, P s -> manager_ok s /\ P (set_failures l s)) ->
  hoare P body (fun s r => slots_ok s /\ match r with Ok _ => db_ok products (im_db s) | Err _ => True end) ->
  hoare P (transaction body) (fun s _ => manager_ok s).
Proof.
  intros HP Hb s Hs. destruct (HP s (tail (im_failures s)) Hs) as [[Hd Hsl] Hs1].
  unfold transaction, call_bind, call_map_err, round_trip. cbn.
  destruct (default false (head (im_failures s))); [by eexists _, _ |]. cbn.
  destruct (Hb _ Hs1) as (s' & r & -> & Hsl' & Hd'). cbn.
  destruct r as [x | e]; cbn; [|eexists _, _; split; [done |]; by split].
  destruct (default false (head (im_failures s'))); eexists _, _; (split; [done |]); by split.
Qed.

Lemma keeps_transaction {T} (body : call A ManagerError T) : keeps_on_success body -> keeps (transaction body).
Proof. apply hoare_transaction. done. Qed.

Lemma keeps_with_index {E} (f : InstanceIndex -> InstanceIndex) :
  (forall ii bm, pool_state_ok (A := A) (mkPoolState ∅ ii bm) -> pool_state_ok (A := A) (mkPoolState ∅ (f ii) bm)) ->
  keeps (E := E) (with_index f).
Proof.
  intros Hf s [Hd Hp]. eexists _, _. split; [done |]. unfold slots_ok in Hp.
  destruct (im_slot_runtime s) as [[ii bm] |] eqn:E1; [|split; [done |]; unfold slots_ok; by rewrite E1].
  split; [done |]. by apply Hf.
Qed.

Lemma keeps_add_instance {E} i counts : counts_ok 2 counts -> keeps (E := E) (add_instance i counts).
Proof.
  intros Hc s [Hd Hp]. unfold add_instance. destruct (sum_u32 counts =? 0); [by eexists _, _ |].
  unfold slots_ok in Hp. destruct (im_slot_runtime s) as [[ii bm] |] eqn:E1.
  - destruct (add_instance_ok _ _ _ i counts Hc Hp) as (ii' & bm' & r & -> & Hok). by eexists _, _.
  - eexists _, _. split; [done |]. split; [done |]. unfold slots_ok. by rewrite E1.
Qed.

Lemma keeps_remove_instance {E} i : keeps (E := E) (remove_instance i).
Proof.
  intros s [Hd Hp]. unfold remove_instance. unfold slots_ok in Hp. destruct (im_slot_runtime s) as [[ii bm] |] eqn:E1.
  - destruct (remove_instance_ok _ _ _ i Hp) as (ii' & bm' & r & -> & Hok). by eexists _, _.
  - eexists _, _. split; [done |]. split; [done |]. unfold slots_ok. by rewrite E1.
Qed.

Lemma keeps_update_name_cache {E} n i : keeps (E := E) (update_name_cache n i).
Proof. intros s Hs. by eexists _, _. Qed.
Lemma keeps_remove_from_name_cache {E} n : keeps (E := E) (remove_from_name_cache n).
Proof. intros s Hs. by eexists _, _. Qed.
End Calls.

#[export] Hint Resolve keeps_bind keeps_ret keeps_err keeps_map_err keeps_ignore keeps_round_trip keeps_query
  keeps_redis keeps_remove_instance keeps_update_name_cache keeps_remove_from_name_cache : calls.

(** Follow the structure of a call down to its statements. *)
Ltac keep_calls :=
  repeat match goal with
    | |- forall _, _ => intro
    | |- keeps _ (match ?x with _ => _ end) => destruct x
    | |- keeps _ (call_bind _ _) => apply keeps_bind
    | |- keeps _ (call_map_err _ _) => apply keeps_map_err
    | |- keeps _ (call_ignore _) => apply keeps_ignore
    | |- keeps _ _ => solve [eauto 2 with calls]
    end.

(** The points of a product fit the [u32] counts of the slot pool. *)
Definition product_fits (p : Product) : Prop :=
  Z.of_nat (length (pr_measurements p)) + Z.of_nat (length (pr_actions p)) < 2 ^ 32.

Section Requests.
Context {A : Type} `{AL : !SlotAllocator A}.
Context (products : list Product) (select : gmap Z InstanceRow -> list (Z * InstanceRow)).
Hypothesis (products_fit : Forall product_fits products).
Implicit Types s : InstanceManager A.
Abbreviation keeps' := (keeps (A := A) products).

Lemma point_counts_ok p : product_fits p -> counts_ok 2 (point_counts p).
Proof.
  unfold product_fits, point_counts. intros H. rewrite !wrap_small by solve_uint.
  split; [done |]. split; [repeat constructor; solve_uint |]. cbn. lia.
Qed.

Lemma keeps_write_properties i pn props : keeps' (write_properties_tx products i pn props).
Proof.
  induction props as [|[key value] props IH]; cbn [write_properties_tx]; keep_calls.
  apply keeps_execute. intros. by eapply upsert_property_row_ok.
Qed.

Lemma hoare_check_parent parent : hoare (A := A) (manager_ok products) (check_parent parent)
  (fun s r => manager_ok products s /\
    match r with Ok _ => forall p, parent = Some p -> is_Some (db_instances (im_db s) !! p) | Err _ => True end).
Proof.
  intros s Hs. destruct parent as [p |]; cbn; [|by eexists _, _].
  unfold call_bind, call_map_err, query, call_bind, round_trip. cbn.
  destruct (default false (head (im_failures s))); cbn; [by eexists _, _ |].
  unfold exists_instance. case_bool_decide as Hp; eexists _, _; (split; [done |]); (split; [done |]); [|done].
  by intros ? [= <-].
Qed.

Lemma hoare_execute {T} P (f : Db -> result (Db * T) SqlError) :
  (forall s d x, P s -> f (im_db s) = Ok (d, x) -> manager_ok products (set_db d s)) ->
  (forall s l, P s -> manager_ok products s /\ P (set_failures l s)) ->
  hoare (A := A) P (execute f) (fun s _ => manager_ok products s).
Proof.
  intros Hf Hl s Hs. unfold execute, call_bind, round_trip. cbn.
  destruct (Hl s (tail (im_failures s)) Hs) as [Hm HP]. destruct (default false _); [by eexists _, _ |]. cbn.
  destruct (f (im_db s)) as [[d x] | e] eqn:E; eexists _, _; (split; [done |]); [|done].
  by apply (Hf (set_failures (tail (im_failures s)) s) d x).
Qed.

Lemma get_product_in pn p : get_product products pn = Some p -> p ∈ products.
Proof. intros [Hin _]%find_some. by apply list_elem_of_In. Qed.

(** The rows of a new instance, when its parent is there. *)
Lemma hoare_insert_rows req p : validate_instance_name (ci_instance_name req) = Ok tt ->
  get_product products (ci_product_name req) = Some p ->
  hoare (A := A) (fun s => manager_ok products s /\
      forall q, ci_parent_id req = Some q -> is_Some (db_instances (im_db s) !! q))
    (insert_rows products req p) (fun s _ => manager_ok products s).
Proof.
  intros Hv Hp. unfold insert_rows. eapply hoare_bind with (Q := fun s _ => manager_ok products s); [| |done].
  - apply hoare_map_err, hoare_execute.
    + intros s1 d x [[Hd Hsl] Hpar] E. split; [|done].
      assert (row_valid products (mkInstanceRow (ci_instance_name req) (ci_product_name req) (ci_parent_id req)) (im_db s1))
        by (split_and!; [done | cbn; by rewrite Hp | done]).
      destruct (is_station p) eqn:Est; [by eapply insert_station_ok |].
      eapply insert_plain_ok; [done | done | | done]. intros (p' & Hp' & Hst). cbn in Hp'. congruence.
    + intros s1 l [Hm Hpar]. done.
  - intros [rowid |]; [|apply keeps_err]. apply keeps_bind; [apply keeps_write_properties | intros; apply keeps_ret].
Qed.

Lemma keeps_create req : keeps' (create_instance products req).
Proof.
  unfold create_instance. destruct (validate_instance_name _) as [[] |] eqn:Ev; [|apply keeps_err].
  destruct (get_product products (ci_product_name req)) as [p |] eqn:Ep; [|apply keeps_err].
  eapply hoare_bind; [apply hoare_check_parent | | by intros s e [H _]]. intros [].
  eapply hoare_bind with (Q := fun s _ => manager_ok products s); [| |done].
  - eapply hoare_transaction with (P := fun s => _ /\ _); [|intros s Hs].
    + intros s l Hs. split; [apply Hs | exact Hs].
    + destruct (hoare_insert_rows req p Ev Ep s Hs) as (s' & r & E & Hd & Hsl). exists s', r. split; [done |]. by destruct r.
  - intros i. apply (keeps_bind products); [apply keeps_redis |]. keep_calls. apply keeps_add_instance, point_counts_ok.
    by eapply Forall_forall in products_fit; [|by eapply get_product_in].
Qed.

Lemma rename_rows_body i n : validate_instance_name n = Ok tt -> keeps_on_success (A := A) products (rename_rows i n).
Proof.
  intros Hv s [Hd Hsl]. unfold rename_rows, call_map_err, statement, execute, call_bind, round_trip. cbn.
  destruct (default false (head (im_failures s))); [by eexists _, _ |]. cbn.
  destruct (update_instance_name n i (im_db s)) as [[d []] | e] eqn:Eu; [|by eexists _, _]. cbn.
  destruct (default false (head (tail (im_failures s)))); [by eexists _, _ |]. cbn.
  destruct (default false (head (tail (tail (im_failures s))))); eexists _, _; (split; [done |]); (split; [done |]); [done |].
  cbn. unfold update_instance_name in Eu. destruct (db_instances (im_db s) !! i) as [r0 |] eqn:Ei.
  - destruct (some_row _ _) eqn:Es; [done |]. injection Eu as <-.
    change (db_ok products (renamed n i r0 (im_db s))). apply renamed_ok; [done | done |].
    apply instances_ok_rename; [apply Hd | done | done |]. intros j r' Hj Hne Heq.
    assert (Ht : some_row (fun j r' => negb (j =? i) && bool_decide (ir_instance_name r' = n)) (im_db s) = true).
    { apply some_row_spec. exists j, r'. split; [done |]. apply andb_true_iff. split; [|by apply bool_decide_eq_true].
      by apply negb_true_iff, Z.eqb_neq. }
    congruence.
  - injection Eu as <-. rewrite !rename_routes_absent; [by destruct (im_db s) | |]; intros p; apply eq_None_not_Some; intros [r Hr].
    + destruct (ro_instance _ _ _ _ (do_measurements _ _ Hd _ _ _ Hr)) as (row & Hrow & _). congruence.
    + destruct (ro_instance _ _ _ _ (do_actions _ _ Hd _ _ _ Hr)) as (row & Hrow & _). congruence.
Qed.

Lemma keeps_rename i n : keeps' (rename_instance i n).
Proof.
  unfold rename_instance. destruct (validate_instance_name n) as [[] |] eqn:Ev; keep_calls.
  by apply keeps_transaction, rename_rows_body.
Qed.

Lemma keeps_fetch_row i : keeps' (fetch_row i).
Proof. unfold fetch_row. keep_calls. Qed.
Lemma keeps_product_of i : keeps' (product_of products i).
Proof. unfold product_of. keep_calls. Qed.
Hint Resolve keeps_fetch_row keeps_product_of keeps_rename keeps_write_properties : calls.

Lemma keeps_sync n : keeps' (sync_instance_to_redis products n).
Proof. unfold sync_instance_to_redis. keep_calls. Qed.

Lemma keeps_replace_properties i pn props : keeps' (replace_properties products i pn props).
Proof.
  unfold replace_properties. keep_calls; apply keeps_statement; intros d Hd; [|done].
  apply db_ok_properties; [done |]. apply (rows_from_not_of (fun i _ => is_Some (db_instances d !! i))), Hd.
Qed.
Hint Resolve keeps_sync keeps_replace_properties keeps_body : calls.

Lemma keeps_update_properties i n props : keeps' (update_properties products i n props).
Proof. unfold update_properties. keep_calls. apply keeps_transaction. eauto with calls. Qed.
Hint Resolve keeps_update_properties : calls.

Lemma keeps_update i dto : keeps' (update_instance products i dto).
Proof. unfold update_instance. keep_calls. Qed.

Lemma keeps_upsert_property i p v : keeps' (upsert_single_property products i p v).
Proof. unfold upsert_single_property. keep_calls. apply keeps_execute. intros. by eapply upsert_property_row_ok. Qed.

Lemma keeps_delete_property i p : keeps' (delete_single_property products i p).
Proof.
  unfold delete_single_property. keep_calls. apply keeps_statement. intros d Hd. apply db_ok_properties; [done |].
  apply (rows_from_delete (fun i _ => is_Some (db_instances d !! i))), Hd.
Qed.

Lemma keeps_delete_rows i : keeps' (delete_rows i).
Proof. unfold delete_rows. keep_calls. apply keeps_statement. intros d. apply delete_instance_row_ok. Qed.

Lemma keeps_delete_single i : keeps' (delete_single_instance i).
Proof. unfold delete_single_instance. keep_calls. apply keeps_transaction, keeps_body, keeps_delete_rows. Qed.
Hint Resolve keeps_delete_single : calls.

Lemma keeps_delete_all ids : keeps' (delete_all ids).
Proof. induction ids as [|i ids IH]; cbn [delete_all]; keep_calls. Qed.

Lemma keeps_collect_loop fuel : forall queue all, keeps' (collect_loop select fuel queue all).
Proof. induction fuel as [|fuel IH]; intros [|p queue] all; cbn [collect_loop]; keep_calls. Qed.

Lemma keeps_delete i : keeps' (delete_instance select i).
Proof.
  unfold delete_instance. keep_calls; [|apply keeps_delete_all].
  intros s Hs. by apply keeps_collect_loop.
Qed.

Lemma keeps_get_instance_id n : keeps' (get_instance_id n).
Proof.
  intros s Hs. unfold get_instance_id. destruct (im_name_cache s !! n); [by eexists _, _ |].
  match goal with |- exists s' r, ?m s = _ /\ _ => assert (Hk : keeps' m) end; [|by apply Hk]. keep_calls.
Qed.

(** Routes: the slot references change only the shared part of a layout. *)
Lemma keeps_shared {E T} i (f : DynamicInstanceLayout -> DynamicInstanceLayout * T) :
  (forall l, exists slots lookup, (f l).1 = set_shared l slots lookup) ->
  keeps (A := A) (E := E) products (with_index (fun index => (with_instance index i f).1)).
Proof. intros Hf. apply keeps_with_index. intros. by apply with_instance_ok. Qed.

Lemma set_shared_self l : l = set_shared l (dil_shared_slots l) (dil_shared_lookup l).
Proof. by destruct l. Qed.
Lemma add_shared_set l r : exists slots lookup, DynamicInstanceLayout_add_shared_slot l r = set_shared l slots lookup.
Proof. unfold DynamicInstanceLayout_add_shared_slot. case_match; eexists _, _; [apply set_shared_self | done]. Qed.
Lemma remove_shared_set l pt p : exists slots lookup,
  (DynamicInstanceLayout_remove_shared_slot l pt p).1 = set_shared l slots lookup.
Proof. unfold DynamicInstanceLayout_remove_shared_slot. repeat case_match; by eexists _, _. Qed.

Lemma keeps_drop_shared {E} i p : keeps (A := A) (E := E) products (with_index (drop_shared i p)).
Proof.
  apply keeps_with_index. intros ii bm H. unfold drop_shared.
  pose proof (with_instance_ok _ _ _ i _ (fun l => remove_shared_set l Telemetry p) H) as H1.
  fold (InstanceIndex_remove_shared_slot ii i Telemetry p) in H1.
  destruct (InstanceIndex_remove_shared_slot ii i Telemetry p) as [ii' [[r |] | e]]; cbn in H1; [done | |];
    by apply with_instance_ok; [intros; apply remove_shared_set |].
Qed.
Hint Resolve keeps_drop_shared : calls.

Lemma upsert_measurement_row_ok i p row q d d' x : db_ok products d -> db_instances d !! i = Some row ->
  (forall fr, sr_four_remote q = Some fr -> PointType_is_measurement fr = true) ->
  upsert_measurement_row i p (ir_instance_name row) q d = Ok (d', x) -> db_ok products d'.
Proof.
  unfold upsert_measurement_row. intros Hd Hrow Hdir. destruct (channel_ok d _) eqn:Ec; [|done].
  destruct (exists_instance i d); [|done]. intros [= <- <-]. apply db_ok_measurements; [done |].
  apply (rows_from_insert (route_ok PointType_is_measurement d)); [|apply Hd].
  apply routed_ok; [apply Hd | done | done | done].
Qed.

Lemma upsert_action_row_ok i p row q d d' x : db_ok products d -> db_instances d !! i = Some row ->
  (forall fr, sr_four_remote q = Some fr -> PointType_is_action fr = true) ->
  upsert_action_row i p (ir_instance_name row) q d = Ok (d', x) -> db_ok products d'.
Proof.
  unfold upsert_action_row. intros Hd Hrow Hdir. destruct (channel_ok d _) eqn:Ec; [|done].
  destruct (exists_instance i d); [|done]. intros [= <- <-]. apply db_ok_actions; [done |].
  apply (rows_from_insert (route_ok PointType_is_action d)); [|apply Hd].
  apply routed_ok; [apply Hd | done | done | done].
Qed.

Lemma hoare_fetch_row i : hoare (A := A) (manager_ok products) (fetch_row i)
  (fun s r => manager_ok products s /\ match r with Ok row => db_instances (im_db s) !! i = Some row | Err _ => True end).
Proof.
  intros s Hs. unfold fetch_row, call_map_err, query, call_bind, round_trip. cbn.
  destruct (default false (head (im_failures s))); cbn; [by eexists _, _ |].
  destruct (db_instances (im_db s) !! i) as [row |] eqn:E; by eexists _, _.
Qed.

(** A checked direction, then the row of the instance, then what depends on it. *)
Lemma keeps_routed dir i q (k : InstanceRow -> call A ManagerError unit) :
  (forall row, (forall fr, sr_four_remote q = Some fr -> dir fr = true) ->
     hoare (fun s => manager_ok products s /\ db_instances (im_db s) !! i = Some row) (k row) (fun s _ => manager_ok products s)) ->
  keeps' (call_bind (check_direction dir (sr_four_remote q)) (fun _ => call_bind (fetch_row i) k)).
Proof.
  intros Hk.
  assert (Hgo : (forall fr, sr_four_remote q = Some fr -> dir fr = true) -> keeps' (call_bind (fetch_row i) k)).
  { intros Hdir. eapply hoare_bind; [apply hoare_fetch_row | intros row; by apply Hk | by intros s e [H _]]. }
  unfold check_direction. destruct (sr_four_remote q) as [fr |]; [destruct (dir fr) eqn:Ed |].
  - apply keeps_bind; [keep_calls |]. intros _. apply Hgo. by intros ? [= <-].
  - intros s Hs. by eexists _, _.
  - apply keeps_bind; [keep_calls |]. intros _. by apply Hgo.
Qed.

Lemma hoare_upsert {T} i row (f : Db -> result (Db * T) SqlError) :
  (forall d d' x, db_ok products d -> db_instances d !! i = Some row -> f d = Ok (d', x) -> db_ok products d') ->
  hoare (A := A) (fun s => manager_ok products s /\ db_instances (im_db s) !! i = Some row)
    (call_map_err DatabaseError (execute f)) (fun s _ => manager_ok products s).
Proof.
  intros Hf. apply hoare_map_err, hoare_execute; [|by intros s l [? ?]].
  intros s d x [[Hd Hsl] Hrow] E. split; [|done]. by eapply Hf.
Qed.

Lemma keeps_upsert_measurement i p q : keeps' (upsert_measurement_routing i p q).
Proof.
  apply keeps_routed. intros row Hdir. eapply hoare_bind with (Q := fun s _ => manager_ok products s); [| |done].
  - apply hoare_upsert. intros. by eapply upsert_measurement_row_ok.
  - intros _. destruct (slot_ref p q) as [r |]; [|apply keeps_ret]. apply keeps_shared. intros. apply add_shared_set.
Qed.

Lemma keeps_upsert_action i p q : keeps' (upsert_action_routing i p q).
Proof. apply keeps_routed. intros row Hdir. apply hoare_upsert. intros. by eapply upsert_action_row_ok. Qed.

Lemma keeps_measurement_statement {T} (f : gmap (Z * Z) RoutingRow -> gmap (Z * Z) RoutingRow * T) :
  (forall d t, rows_from (route_ok PointType_is_measurement d) t (f t).1) ->
  keeps' (statement (fun d => let '(t, n) := f (db_measurement_routing d) in (set_measurement_routing t d, n))).
Proof.
  intros Hf. apply keeps_statement. intros d Hd. pose proof (Hf d (db_measurement_routing d)) as H.
  destruct (f _) as [t n]. apply db_ok_measurements; [done |]. apply H, Hd.
Qed.

Lemma keeps_action_statement {T} (f : gmap (Z * Z) RoutingRow -> gmap (Z * Z) RoutingRow * T) :
  (forall d t, rows_from (route_ok PointType_is_action d) t (f t).1) ->
  keeps' (statement (fun d => let '(t, n) := f (db_action_routing d) in (set_action_routing t d, n))).
Proof.
  intros Hf. apply keeps_statement. intros d Hd. pose proof (Hf d (db_action_routing d)) as H.
  destruct (f _) as [t n]. apply db_ok_actions; [done |]. apply H, Hd.
Qed.

Lemma keeps_delete_measurement i p : keeps' (delete_measurement_routing i p).
Proof. unfold delete_measurement_routing. keep_calls. apply keeps_measurement_statement. intros. apply rows_from_delete_row. Qed.
Lemma keeps_delete_action i p : keeps' (delete_action_routing i p).
Proof. apply keeps_map_err, keeps_action_statement. intros. apply rows_from_delete_row. Qed.
Lemma keeps_toggle_measurement i p b : keeps' (toggle_measurement_routing i p b).
Proof. apply keeps_map_err, keeps_measurement_statement. intros. apply rows_from_toggle. Qed.
Lemma keeps_toggle_action i p b : keeps' (toggle_action_routing i p b).
Proof. apply keeps_map_err, keeps_action_statement. intros. apply rows_from_toggle. Qed.

Lemma keeps_delete_all_routing i : keeps' (delete_all_routing i).
Proof.
  unfold delete_all_routing. keep_calls.
  - apply (keeps_measurement_statement (fun t => (rows_not_of i t, size (rows_of i t)))). intros. apply rows_from_not_of.
  - apply (keeps_action_statement (fun t => (rows_not_of i t, size (rows_of i t)))). intros. apply rows_from_not_of.
  - apply keeps_shared. intros l. by eexists _, _.
Qed.

(** Every request keeps the tables and the slot pool in order, and never panics. *)
Lemma handle_ok r s : manager_ok products s -> exists s', handle products select r s = Ret s' /\ manager_ok products s'.
Proof.
  intros Hs.
  assert (Hk : forall T (m : call A ManagerError T), keeps' m -> exists s', outcome_map fst (m s) = Ret s' /\ manager_ok products s').
  { intros T m Hm. destruct (Hm s Hs) as (s' & x & -> & H). by exists s'. }
  destruct r; cbn [handle];
    eauto using keeps_create, keeps_update, keeps_delete, keeps_upsert_property, keeps_delete_property,
      keeps_upsert_measurement, keeps_upsert_action, keeps_delete_measurement, keeps_delete_action,
      keeps_toggle_measurement, keeps_toggle_action, keeps_delete_all_routing, keeps_get_instance_id;
    destruct Hs as [Hd Hsl]; eexists; (split; [done |]); split; cbn; try done;
    [by apply insert_channel_row_ok | by apply delete_channel_row_ok].
Qed.

Lemma handle_all_ok rs : forall s, manager_ok products s ->
  exists s', handle_all products select rs s = Ret s' /\ manager_ok products s'.
Proof.
  induction rs as [|r rs IH]; intros s Hs; [by exists s |]. cbn [handle_all].
  destruct (handle_ok r s Hs) as (s1 & -> & Hs1). cbn. by apply IH.
Qed.
End Requests.

(** * Cascade delete *)

(** [below d i k]: [k] is [i] or one of its descendants. *)
Inductive below (d : Db) (i : Z) : Z -> Prop :=
| below_self : below d i i
| below_child k r p : db_instances d !! k = Some r -> ir_parent_id r = Some p -> below d i p -> below d i k.

Definition child (d : Db) (p c : Z) : Prop := exists r, db_instances d !! c = Some r /\ ir_parent_id r = Some p.

Lemma child_parent_unique d p p' c : child d p c -> child d p' c -> p = p'.
Proof. intros (r & H1 & H2) (r' & H3 & H4). congruence. Qed.

(** Delete the given rows one after the other. *)
Definition drop_rows (js : list Z) (d : Db) : Db := foldl (fun d j => (delete_instance_row j d).1) d js.

Lemma delete_row_instances j d k : db_instances (delete_instance_row j d).1 !! k =
  if decide (k = j) then None
  else if exists_instance j d then orphan j <$> db_instances d !! k else db_instances d !! k.
Proof.
  unfold delete_instance_row, exists_instance. case_bool_decide as Hj; cbn.
  - rewrite lookup_fmap. case_decide as Hk; [subst; by rewrite lookup_delete_eq | by rewrite lookup_delete_ne by congruence].
  - case_decide as Hk; [subst; by apply eq_None_not_Some | done].
Qed.

Lemma drop_rows_none js : forall d k, db_instances d !! k = None \/ k ∈ js -> db_instances (drop_rows js d) !! k = None.
Proof.
  induction js as [|j js IH]; intros d k Hk; cbn.
  - by destruct Hk as [? | ?%not_elem_of_nil].
  - apply IH. rewrite delete_row_instances. case_decide as Hkj; [by left |].
    destruct Hk as [Hk | [-> | Hk]%elem_of_cons]; [| done | by right]. left. rewrite Hk. by case_match.
Qed.

Lemma drop_rows_kept js : forall d k r, k ∉ js -> db_instances d !! k = Some r ->
  (forall p, ir_parent_id r = Some p -> p ∉ js) -> db_instances (drop_rows js d) !! k = Some r.
Proof.
  induction js as [|j js IH]; intros d k r Hk Hr Hp; [done |]. cbn. apply not_elem_of_cons in Hk as [Hkj Hk].
  apply IH; [done | | intros p E Hin; apply (Hp p E); by right].
  rewrite delete_row_instances, Hr. rewrite decide_False by done. destruct (exists_instance j d); [|done]. cbn. f_equal.
  unfold orphan. case_bool_decide as Hb; [|done]. exfalso. apply (Hp j Hb). by left.
Qed.

(** The rows that the cascade removes from a table keyed by instance. *)
Lemma rows_not_of_lookup {V} (j : Z) (t : gmap (Z * Z) V) (k p : Z) : k <> j -> rows_not_of j t !! (k, p) = t !! (k, p).
Proof.
  intros Hk. unfold rows_not_of. destruct (t !! (k, p)) as [v |] eqn:E.
  - by apply map_lookup_filter_Some.
  - apply map_lookup_filter_None. by left.
Qed.

Definition same_rows_of (k : Z) (d d' : Db) : Prop := forall p,
  db_measurement_routing d' !! (k, p) = db_measurement_routing d !! (k, p) /\
  db_action_routing d' !! (k, p) = db_action_routing d !! (k, p) /\
  db_instance_properties d' !! (k, p) = db_instance_properties d !! (k, p).
Definition no_rows_of (k : Z) (d : Db) : Prop := forall p,
  db_measurement_routing d !! (k, p) = None /\ db_action_routing d !! (k, p) = None /\
  db_instance_properties d !! (k, p) = None.

Lemma drop_rows_same js : forall d k, k ∉ js -> same_rows_of k d (drop_rows js d).
Proof.
  induction js as [|j js IH]; intros d k Hk p; [done |]. apply not_elem_of_cons in Hk as [Hkj Hk].
  change (drop_rows (j :: js) d) with (drop_rows js (delete_instance_row j d).1).
  destruct (IH (delete_instance_row j d).1 k Hk p) as (-> & -> & ->). unfold delete_instance_row.
  case_bool_decide; [|done]. cbn. by rewrite !rows_not_of_lookup.
Qed.

Lemma db_ok_no_rows products d k : db_ok products d -> db_instances d !! k = None -> no_rows_of k d.
Proof.
  intros [Hi Hm Ha Hp] Hk p. split_and!; apply eq_None_not_Some; intros [x Hx].
  - destruct (ro_instance _ _ _ _ (Hm _ _ _ Hx)) as (row & Hrow & _). congruence.
  - destruct (ro_instance _ _ _ _ (Ha _ _ _ Hx)) as (row & Hrow & _). congruence.
  - destruct (Hp _ _ _ Hx) as [row Hrow]. congruence.
Qed.

Section Collect.
Context {A : Type} (products : list Product) (select : gmap Z InstanceRow -> list (Z * InstanceRow)).
Hypothesis select_rows : forall t, select t ≡ₚ map_to_list t.
Implicit Types s : InstanceManager A.

Lemma children_of_spec p d c : c ∈ children_of select p d <-> child d p c.
Proof.
  unfold children_of, child. rewrite list_elem_of_fmap. split.
  - intros ([i r] & -> & [Hp Hin]%list_elem_of_filter). exists r. rewrite select_rows in Hin.
    split; [by apply elem_of_map_to_list in Hin | done].
  - intros (r & Hr & Hp). exists (c, r). split; [done |]. apply list_elem_of_filter. split; [done |].
    rewrite select_rows. by apply elem_of_map_to_list.
Qed.

Lemma children_of_nodup p d : NoDup (children_of select p d).
Proof.
  unfold children_of. apply NoDup_fmap_fst.
  - intros x y1 y2 [_ H1]%list_elem_of_filter [_ H2]%list_elem_of_filter. rewrite select_rows in H1, H2.
    apply elem_of_map_to_list in H1, H2. congruence.
  - apply NoDup_filter. rewrite select_rows. apply NoDup_map_to_list.
Qed.

(** The state of the search: [visited] have been popped, [queue] not yet; [all]
    are the children of the visited ones. *)
Record searching (d : Db) (i : Z) (visited queue all : list Z) : Prop := {
  se_nodup : NoDup (visited ++ queue);
  se_split : i :: all ≡ₚ visited ++ queue;
  se_all : forall c, c ∈ all <-> exists p, p ∈ visited /\ child d p c;
  se_below : Forall (below d i) all
}.

Lemma searching_start d i : searching d i [] [i] [].
Proof.
  split; [apply NoDup_singleton | done | | constructor]. intros c. split; [by intros ?%not_elem_of_nil |].
  by intros (p & ?%not_elem_of_nil & _).
Qed.

Lemma below_rank d i k (rank : Z -> nat) :
  (forall i r p, db_instances d !! i = Some r -> ir_parent_id r = Some p -> is_Some (db_instances d !! p) /\ (rank p < rank i)%nat) ->
  below d i k -> (rank i <= rank k)%nat.
Proof. intros Hr. induction 1 as [| k r p Hk Hp _ IH]; [done |]. destruct (Hr _ _ _ Hk Hp). lia. Qed.

Lemma searching_below d i visited queue all p : searching d i visited queue all -> p ∈ visited ++ queue -> below d i p.
Proof.
  intros [_ Hs _ Hb]. rewrite <- Hs. intros [-> | Hin]%elem_of_cons; [constructor |].
  by eapply Forall_forall in Hb.
Qed.

(** A child of the popped instance has not been seen. *)
Lemma searching_fresh d i visited p queue all c : instances_ok products (db_instances d) ->
  searching d i visited (p :: queue) all -> child d p c -> c ∉ visited ++ p :: queue.
Proof.
  intros [_ _ _ (rank & Hr) _] Hse Hc Hin. pose proof (searching_below _ _ _ _ _ p Hse) as Hbp.
  destruct Hse as [Hnd Hs Ha Hb]. rewrite <- Hs in Hin. apply elem_of_cons in Hin as [-> | Hin].
  - assert (Hrk : (rank i <= rank p)%nat).
    { apply (below_rank d); [done |]. apply Hbp. rewrite elem_of_app. right. by left. }
    destruct Hc as (r & H1 & H2). destruct (Hr _ _ _ H1 H2). lia.
  - apply Ha in Hin as (p' & Hp' & Hc'). assert (p = p') as <- by by eapply child_parent_unique.
    apply NoDup_app in Hnd as (_ & Hd & _). apply (Hd p Hp'). by left.
Qed.

Lemma searching_step d i visited p queue all : instances_ok products (db_instances d) ->
  searching d i visited (p :: queue) all ->
  searching d i (p :: visited) (reverse (children_of select p d) ++ queue) (all ++ children_of select p d).
Proof.
  intros Hi Hse. pose proof (fun c => searching_fresh _ _ _ _ _ _ c Hi Hse) as Hfresh.
  pose proof (searching_below _ _ _ _ _ p Hse) as Hbp. destruct Hse as [Hnd Hs Ha Hb].
  set (cs := children_of select p d).
  assert (Hperm : (p :: visited) ++ reverse cs ++ queue ≡ₚ cs ++ (visited ++ p :: queue)).
  { rewrite (reverse_Permutation cs). cbn. rewrite <- Permutation_middle. rewrite <- Permutation_middle. f_equiv.
    rewrite !app_assoc. f_equiv. apply Permutation_app_comm. }
  split.
  - rewrite Hperm. apply NoDup_app. split_and!; [apply children_of_nodup | | done].
    intros c Hc. by apply Hfresh, children_of_spec.
  - rewrite Hperm, <- Hs. rewrite <- Permutation_middle. f_equiv. apply Permutation_app_comm.
  - intros c. rewrite elem_of_app, Ha. unfold cs. rewrite children_of_spec. split.
    + intros [(p' & Hp' & Hc) | Hc]; [exists p'; split; [by right | done] | exists p; split; [by left | done]].
    + intros (p' & [-> | Hp']%elem_of_cons & Hc); [by right | left; by exists p'].
  - apply Forall_app. split; [done |]. apply Forall_forall. intros c Hc.
    apply children_of_spec in Hc as (r & H1 & H2). eapply below_child; [done | done |].
    apply Hbp. rewrite elem_of_app. right. by left.
Qed.

Lemma searching_bound d i visited queue all : searching d i visited queue all ->
  (length visited + length queue <= S (size (db_instances d)))%nat.
Proof.
  intros [Hnd Hs Ha _]. rewrite <- length_app, <- Hs. cbn. apply le_n_S.
  assert (Hsub : all ⊆ (map_to_list (db_instances d)).*1).
  { intros c Hc. apply Ha in Hc as (p & _ & r & Hr & _). apply list_elem_of_fmap. exists (c, r).
    split; [done |]. by apply elem_of_map_to_list. }
  rewrite <- Hs in Hnd. apply NoDup_cons in Hnd as [_ Hnd].
  transitivity (length (map_to_list (db_instances d)).*1).
  - apply submseteq_length, NoDup_submseteq; [done |]. intros c Hc. by apply Hsub.
  - by rewrite length_fmap, length_map_to_list.
Qed.

Lemma searching_end d i visited all : searching d i visited [] all ->
  NoDup (i :: all) /\ forall k, k ∈ i :: all <-> below d i k.
Proof.
  intros Hse. split; [rewrite (se_split _ _ _ _ _ Hse); apply Hse |]. intros k. split.
  - intros Hk. apply (searching_below _ _ _ _ _ _ Hse). by rewrite <- (se_split _ _ _ _ _ Hse).
  - induction 1 as [| k r p Hk Hp _ IH]; [by left |]. right. apply (se_all _ _ _ _ _ Hse). exists p.
    split; [|by exists r]. rewrite (se_split _ _ _ _ _ Hse), app_nil_r in IH. done.
Qed.

Lemma query_cases {T} (q : Db -> T) s : exists l,
  (query q s = Ret (set_failures l s, Ok (q (im_db s))) /\ (im_failures s = [] -> l = [])) \/
  (query q s = Ret (set_failures l s, Err StatementFailed) /\ im_failures s <> []).
Proof.
  unfold query, call_bind, round_trip. cbn. exists (tail (im_failures s)).
  destruct (im_failures s) as [|[] fs]; cbn; [by left | by right | by left].
Qed.

(** The search ends within the fuel, with the descendants and nothing else. *)
Lemma collect_loop_spec fuel : forall visited queue all s, instances_ok products (db_instances (im_db s)) ->
  forall i, searching (im_db s) i visited queue all -> (S (size (db_instances (im_db s))) <= fuel + length visited)%nat ->
  exists l r, collect_loop select fuel queue all s = Ret (set_failures l s, r) /\ (im_failures s = [] -> l = []) /\
    match r with
    | Ok (Some ids) => NoDup (i :: ids) /\ forall k, k ∈ i :: ids <-> below (im_db s) i k
    | Ok None => False
    | Err _ => im_failures s <> []
    end.
Proof.
  induction fuel as [|fuel IH]; intros visited [|p queue] all s Hi i Hse Hf; cbn [collect_loop].
  1, 3: destruct (searching_end _ _ _ _ Hse) as [H1 H2]; exists (im_failures s); eexists; (split; [by destruct s |]);
    (split; [done |]); split; [|intros k]; rewrite (reverse_Permutation all); done.
  - pose proof (searching_bound _ _ _ _ _ Hse). cbn in *. lia.
  - destruct (query_cases (children_of select p) s) as (l & [[E Hl] | [E Hl]]); unfold call_bind at 1; rewrite E; cbn.
    + destruct (IH (p :: visited) (reverse (children_of select p (im_db s)) ++ queue) (all ++ children_of select p (im_db s))
        (set_failures l s) Hi i) as (l' & r & E' & Hl' & Hr); [by apply searching_step | cbn; lia |].
      exists l', r. split; [done |]. split; [intros E0; apply Hl'; cbn; auto |].
      destruct r as [[ids |] | e]; [done | done |]. intros E0. apply Hr. cbn. auto.
    + exists l, (Err StatementFailed). split; [done |]. split; [|done]. intros E0. done.
Qed.
End Collect.

Section Delete.
Context {A : Type} `{AL : !SlotAllocator A}.
Context (products : list Product) (select : gmap Z InstanceRow -> list (Z * InstanceRow)).
Implicit Types s : InstanceManager A.

Definition index_of s : InstanceIndex := match im_slot_runtime s with Some (index, _) => index | None => ∅ end.

Lemma removed_index (ii ii' : InstanceIndex) j (bm bm' : option A) r :
  InstanceIndex_remove_instance ii j bm = Ret (ii', bm', r) -> ii' = delete j ii.
Proof.
  unfold InstanceIndex_remove_instance. destruct (ii !! j) as [l |] eqn:E.
  - destruct (dil_own_allocation l), bm as [b |]; try (by intros [= <- _ _]).
    destruct (al_free b _ _); [|done]. by intros [= <- _ _].
  - intros [= <- _ _]. by rewrite delete_id.
Qed.

(** After the COMMIT of a delete nothing fails any more. *)
Lemma delete_tail j n s : manager_ok products s ->
  exists s', (call_bind (redis_call (UnregisterInstance j n)) (fun _ => call_bind (remove_instance j)
      (fun _ => remove_from_name_cache (E := ManagerError) n))) s = Ret (s', Ok tt) /\
    im_db s' = im_db s /\ index_of s' = delete j (index_of s) /\ im_failures s' = im_failures s.
Proof.
  intros [Hd Hp]. unfold call_bind, redis_call, remove_instance. cbn. unfold slots_ok in Hp. unfold index_of.
  destruct (im_slot_runtime s) as [[ii bm] |] eqn:E1; cbn.
  - destruct (remove_instance_ok _ _ _ j Hp) as (ii' & bm' & r & E & _). rewrite E. cbn.
    apply removed_index in E as ->. eexists. split; [done |]. by split_and!.
  - eexists. split; [done |]. cbn. rewrite ?E1. split_and!; [done | by rewrite delete_empty | done].
Qed.

(** The transaction of a delete, for an instance that exists. *)
Lemma delete_transaction j s : is_Some (db_instances (im_db s) !! j) -> exists l r d,
  transaction (delete_rows j) s = Ret (set_failures l (set_db d s), r) /\
  match r with Ok _ => d = (delete_instance_row j (im_db s)).1 | Err _ => d = im_db s end /\
  (im_failures s = [] -> l = [] /\ r = Ok tt).
Proof.
  intros Hj. unfold transaction, delete_rows, statement, execute, call_map_err, call_bind, round_trip.
  assert (Hn : (delete_instance_row j (im_db s)).2 = 1%nat) by (unfold delete_instance_row; by rewrite bool_decide_eq_true_2).
  destruct s as [d0 c0 r0 q0 fs]. cbn in *. destruct (delete_instance_row j d0) as [d n] eqn:Ed. cbn in Hn. subst n.
  destruct fs as [|[] fs]; cbn; [| by eexists _, _, d0 |].
  { rewrite ?Ed. cbn. by eexists _, _, d. }
  destruct fs as [|[] fs]; cbn; [| by eexists _, _, d0 |].
  { rewrite ?Ed. cbn. by eexists _, _, d. }
  rewrite ?Ed. cbn. destruct fs as [|[] fs]; cbn; [by eexists _, _, d | by eexists _, _, d0 | by eexists _, _, d].
Qed.

Definition deleted j s s' : Prop :=
  is_Some (db_instances (im_db s) !! j) /\ im_db s' = (delete_instance_row j (im_db s)).1 /\
  index_of s' = delete j (index_of s).
Definition undeleted s s' : Prop := im_db s' = im_db s /\ index_of s' = index_of s.

(** One instance is deleted entirely or not at all; without failures it is
    deleted when it exists. *)
Lemma delete_single_spec j s : manager_ok products s -> exists s' r, delete_single_instance j s = Ret (s', r) /\
  manager_ok products s' /\
  match r with Ok _ => deleted j s s' | Err _ => undeleted s s' end /\
  (im_failures s = [] -> im_failures s' = [] /\ r = if exists_instance j (im_db s) then Ok tt else Err InstanceNotFound).
Proof.
  intros Hs. destruct (keeps_delete_single products j s Hs) as (s' & r & E & Hs'). exists s', r. split; [done |].
  split; [done |]. clear Hs'. revert E. unfold delete_single_instance at 1, fetch_row.
  unfold call_bind at 1 2. unfold call_map_err at 1.
  destruct (query_cases (fun d => db_instances d !! j) s) as (l & [[-> Hl] | [-> Hl]]); cbn; [|by intros [= <- <-]].
  destruct (db_instances (im_db s) !! j) as [row |] eqn:Ej; cbn.
  2: { intros [= <- <-]. split; [done |]. intros E0. unfold exists_instance. rewrite bool_decide_eq_false_2; [by split; [apply Hl |] |].
       rewrite Ej. by intros []. }
  destruct (delete_transaction j (set_failures l s)) as (l' & r1 & d & E1 & Hd & Hl'); [by exists row |].
  unfold call_bind at 1. rewrite E1. cbn [outcome_bind]. assert (Hex : exists_instance j (im_db s) = true).
  { apply bool_decide_eq_true_2. by rewrite Ej. }
  destruct r1 as [[] | e].
  - destruct (delete_tail j (ir_instance_name row) (set_failures l' (set_db d (set_failures l s))))
      as (s2 & E2 & H1 & H2 & H3).
    { cbn in Hd. subst d. split; [by apply delete_instance_row_ok, Hs | apply Hs]. }
    cbv beta iota. rewrite E2. intros [= <- <-]. cbn in *. subst d. split; [by split_and!; [exists row | |] |].
    intros E0. rewrite H3, Hex. by destruct (Hl' (Hl E0)).
  - intros [= <- <-]. cbn in Hd. subst d. split; [done |]. intros E0. by destruct (Hl' (Hl E0)).
Qed.

(** Nothing of instance [k] has changed; nothing of it is left. *)
Definition untouched (k : Z) s s' : Prop :=
  db_instances (im_db s') !! k = db_instances (im_db s) !! k /\ same_rows_of k (im_db s) (im_db s') /\
  index_of s' !! k = index_of s !! k.
Definition gone (k : Z) s' : Prop :=
  db_instances (im_db s') !! k = None /\ no_rows_of k (im_db s') /\ index_of s' !! k = None.

(** What a sequence of deletes leaves, when those of [js] succeeded. *)
Record after_deletes (js : list Z) s s' : Prop := {
  ad_ok : manager_ok products s';
  ad_db : im_db s' = drop_rows js (im_db s);
  ad_gone : forall k, k ∈ js -> index_of s' !! k = None;
  ad_none : forall k, index_of s !! k = None -> index_of s' !! k = None;
  ad_same : forall k, k ∉ js -> index_of s' !! k = index_of s !! k
}.

Lemma after_none s s' : manager_ok products s' -> undeleted s s' -> after_deletes [] s s'.
Proof. intros Hs [Hd Hi]. split; [done | done | by intros k ?%not_elem_of_nil | by rewrite Hi | by rewrite Hi]. Qed.

Lemma after_one j s s' : manager_ok products s' -> deleted j s s' -> after_deletes [j] s s'.
Proof.
  intros Hs (_ & Hd & Hi). split; [done | done | | |]; rewrite Hi.
  - intros k ->%list_elem_of_singleton. by rewrite lookup_delete_eq.
  - intros k Hk. destruct (decide (k = j)) as [-> | ?]; [by rewrite lookup_delete_eq | by rewrite lookup_delete_ne].
  - intros k Hk. rewrite lookup_delete_ne; [done |]. intros ->. apply Hk. by left.
Qed.

Lemma after_app js js' s s1 s' : after_deletes js s s1 -> after_deletes js' s1 s' -> after_deletes (js ++ js') s s'.
Proof.
  intros [H1 H2 H3 H4 H5] [G1 G2 G3 G4 G5]. split; [done | | | auto |].
  - rewrite G2, H2. unfold drop_rows. by rewrite foldl_app.
  - intros k [Hk | Hk]%elem_of_app; auto.
  - intros k Hk. apply not_elem_of_app in Hk as [? ?]. by rewrite G5, H5.
Qed.

Lemma delete_all_spec ids : forall s, manager_ok products s -> exists s' js, delete_all ids s = Ret (s', Ok tt) /\
  js ⊆ ids /\ after_deletes js s s' /\
  (im_failures s = [] -> NoDup ids -> (forall k, k ∈ ids -> exists_instance k (im_db s) = true) ->
   im_failures s' = [] /\ js = ids).
Proof.
  induction ids as [|j ids IH]; intros s Hs; cbn [delete_all].
  { exists s, []. split; [done |]. split; [done |]. split; [by apply after_none | done]. }
  destruct (delete_single_spec j s Hs) as (s1 & r & E & Hs1 & Hr & Hf).
  destruct (IH s1 Hs1) as (s' & js & E' & Hsub & Had & Hf').
  exists s', ((if r is Ok _ then [j] else []) ++ js). split.
  { unfold call_bind, call_ignore. rewrite E. done. }
  split; [destruct r; cbn; set_solver |].
  split. { eapply after_app; [|done]. destruct r; [by apply after_one | by apply after_none]. }
  intros E0 Hnd Hex. destruct (Hf E0) as [E1 ->]. rewrite (Hex j) in * by by left.
  apply NoDup_cons in Hnd as [Hj Hnd]. destruct Hf' as [H1 H2]; [done | done | |].
  - intros k Hk. destruct Hr as (_ & Hd & _). unfold exists_instance. rewrite Hd, delete_row_instances.
    specialize (Hex k). rewrite decide_False by congruence. case_match; [|apply Hex; by right].
    apply bool_decide_eq_true_2, fmap_is_Some, (bool_decide_eq_true (is_Some _)), Hex. by right.
  - split; [done |]. cbn. by rewrite H2.
Qed.
End Delete.

Section Cascade.
Context {A : Type} `{AL : !SlotAllocator A}.
Context (products : list Product) (select : gmap Z InstanceRow -> list (Z * InstanceRow)).
Hypothesis select_rows : forall t, select t ≡ₚ map_to_list t.
Implicit Types s : InstanceManager A.

Lemma after_untouched js s s' i k : after_deletes products js s s' -> (forall j, j ∈ js -> below (im_db s) i j) ->
  ~ below (im_db s) i k -> untouched k s s'.
Proof.
  intros [_ Hd _ _ Hsame] Hjs Hk. assert (Hnk : k ∉ js) by (intros ?; by apply Hk, Hjs).
  split_and!; [| rewrite Hd; by apply drop_rows_same | by apply Hsame]. rewrite Hd.
  destruct (db_instances (im_db s) !! k) as [r |] eqn:E; [|apply drop_rows_none; by left].
  apply drop_rows_kept; [done | done |]. intros p Hp Hin. apply Hk. by eapply below_child; [| |apply Hjs].
Qed.

Lemma after_gone js s s' k : after_deletes products js s s' -> k ∈ js -> gone k s'.
Proof.
  intros [[Hok _] Hd Hgone _ _] Hk. assert (Hn : db_instances (im_db s') !! k = None).
  { rewrite Hd. apply drop_rows_none. by right. }
  split_and!; [done | by eapply db_ok_no_rows | by apply Hgone].
Qed.

Lemma below_exists d i k : instances_ok products (db_instances d) -> below d i k -> k = i \/ is_Some (db_instances d !! i) /\ is_Some (db_instances d !! k).
Proof.
  intros Hi. induction 1 as [| k r p Hk Hp _ IH]; [by left |]. right. split; [|by exists r].
  destruct (io_parents _ _ Hi) as (rank & Hr). destruct (Hr _ _ _ Hk Hp) as [? _]. by destruct IH as [<- | [? _]].
Qed.

(** The deletes of its descendants leave the root of the subtree in place. *)
Lemma root_survives ids d i : instances_ok products (db_instances d) -> i ∉ ids -> (forall k, k ∈ ids -> below d i k) ->
  exists_instance i (drop_rows ids d) = exists_instance i d.
Proof.
  intros Hi Hni Hin. apply bool_decide_ext. destruct (db_instances d !! i) as [r |] eqn:Er.
  - rewrite (drop_rows_kept ids _ i r); [done | done | done |]. intros p Hp Hpin.
    destruct (io_parents _ _ Hi) as (rank & Hr). destruct (Hr _ _ _ Er Hp).
    assert (rank i <= rank p)%nat; [|lia]. apply (below_rank d); [done |]. by apply Hin.
  - rewrite drop_rows_none by by left. done.
Qed.

(** Deleting an instance ends and never touches anything outside its subtree,
    whatever statements fail; without failures nothing of the subtree is left. *)
Lemma delete_instance_spec i s : manager_ok products s -> exists s' r, delete_instance select i s = Ret (s', r) /\
  r <> Ok None /\
  (forall k, ~ below (im_db s) i k -> untouched k s s') /\
  (im_failures s = [] -> r = (if exists_instance i (im_db s) then Ok (Some tt) else Err InstanceNotFound) /\
     (exists_instance i (im_db s) = true -> forall k, below (im_db s) i k -> gone k s')).
Proof.
  intros Hs. unfold delete_instance, collect_descendants, call_map_err, call_bind.
  pose proof (do_instances _ _ (proj1 Hs)) as Hi.
  destruct (collect_loop_spec products select select_rows (S (size (db_instances (im_db s)))) [] [i] [] s Hi i)
    as (l & r & E & Hl & Hr); [apply searching_start | cbn; lia |].
  rewrite E. cbn [outcome_bind]. destruct r as [[ids |] | e]; [| done |].
  2: { eexists _, _. split; [done |]. split; [done |]. split; [by intros | by intros ?]. }
  destruct Hr as [Hnd Hin]. set (s0 := set_failures l s).
  destruct (delete_all_spec products ids s0 Hs) as (s1 & js & E1 & Hsub & Had & Hf1). rewrite E1. cbn [outcome_bind].
  destruct (delete_single_spec products i s1 (ad_ok _ _ _ _ Had)) as (s2 & r2 & E2 & Hs2 & Hr2 & Hf2). rewrite E2. cbn [outcome_bind].
  assert (Hjs : exists js', after_deletes products js' s s2 /\ (forall j, j ∈ js' -> below (im_db s) i j) /\ js ⊆ js' /\
    (r2 = Ok tt -> i ∈ js')).
  { exists (js ++ (if r2 is Ok _ then [i] else [])). split_and!.
    - eapply (after_app _ _ _ s s1); [by destruct Had |]. destruct r2; [by apply after_one | by apply after_none].
    - intros j [Hj | Hj]%elem_of_app; apply Hin; [right; by apply Hsub |]. destruct r2; [|by apply not_elem_of_nil in Hj].
      apply list_elem_of_singleton in Hj as ->. by left.
    - intros j Hj. apply elem_of_app. by left.
    - intros ->. apply elem_of_app. right. by apply list_elem_of_singleton. }
  destruct Hjs as (js' & Had' & Hjs' & Hsub' & Hself).
  exists s2, (match r2 with Ok _ => Ok (Some tt) | Err e => Err e end). split; [by destruct r2 |].
  split; [by destruct r2 |]. split; [intros k Hk; by eapply after_untouched |]. intros E0.
  apply NoDup_cons in Hnd as [Hi_ids Hnd].
  destruct Hf1 as [E3 ->]; [by apply Hl | done | |].
  { intros k Hk. apply bool_decide_eq_true_2. destruct (below_exists (im_db s) i k Hi) as [-> | [_ ?]]; [apply Hin; by right | done | done]. }
  destruct (Hf2 E3) as [_ ->].
  assert (Hex : exists_instance i (im_db s1) = exists_instance i (im_db s)).
  { rewrite (ad_db _ _ _ _ Had). apply root_survives; [done | done |]. intros k Hk. apply Hin. by right. }
  rewrite Hex in *. destruct (exists_instance i (im_db s)); [|done]. split; [done |]. intros _ k Hk.
  apply (after_gone js' s); [done |]. apply Hin in Hk as [-> | Hk]%elem_of_cons; [by apply Hself | by apply Hsub'].
Qed.
End Cascade.

(** * The name cache *)

Section NameCache.
Context {A : Type} `{AL : !SlotAllocator A}.
Context (products : list Product) (select : gmap Z InstanceRow -> list (Z * InstanceRow)).
Context (n : name) (i : Z).
Implicit Types s : InstanceManager A.

(** The entry [n -> i] survives the call. *)
Definition remembers {E T} (m : call A E T) : Prop :=
  forall s s' r, im_name_cache s !! n = Some i -> m s = Ret (s', r) -> im_name_cache s' !! n = Some i.

Lemma remembers_bind {E T U} (m : call A E T) (k : T -> call A E U) :
  remembers m -> (forall x, remembers (k x)) -> remembers (call_bind m k).
Proof.
  intros Hm Hk s s' r Hs. unfold call_bind. destruct (m s) as [[s1 [x | e]] |] eqn:E1; [| |done]; cbn.
  - intros E2. eapply Hk; [|done]. by eapply Hm.
  - intros [= <- <-]. by eapply Hm.
Qed.
Lemma remembers_ret {E T} (x : T) : remembers (E := E) (call_ret x).
Proof. by intros s s' r Hs [= <- <-]. Qed.
Lemma remembers_err {E T} (e : E) : remembers (T := T) (call_err e).
Proof. by intros s s' r Hs [= <- <-]. Qed.
Lemma remembers_map_err {E F T} (f : E -> F) (m : call A E T) : remembers m -> remembers (call_map_err f m).
Proof.
  intros Hm s s' r Hs. unfold call_map_err. destruct (m s) as [[s1 r1] |] eqn:E1; [|done]. intros [= <- <-]. by eapply Hm.
Qed.
Lemma remembers_ignore {E F T} (m : call A E T) : remembers m -> remembers (E := F) (call_ignore m).
Proof.
  intros Hm s s' r Hs. unfold call_ignore. destruct (m s) as [[s1 r1] |] eqn:E1; [|done]. intros [= <- <-]. by eapply Hm.
Qed.
Lemma remembers_round_trip : remembers round_trip.
Proof. by intros s s' r Hs [= <- <-]. Qed.
Lemma remembers_query {T} (q : Db -> T) : remembers (query q).
Proof. apply remembers_bind; [apply remembers_round_trip |]. by intros x s s' r Hs [= <- <-]. Qed.
Lemma remembers_execute {T} (f : Db -> result (Db * T) SqlError) : remembers (execute f).
Proof.
  apply remembers_bind; [apply remembers_round_trip |]. intros x s s' r Hs.
  destruct (f (im_db s)) as [[d y] | e]; by intros [= <- <-].
Qed.
Lemma remembers_statement {T} (f : Db -> Db * T) : remembers (statement f).
Proof. apply remembers_execute. Qed.
Lemma remembers_redis {E} c : remembers (E := E) (redis_call c).
Proof. by intros s s' r Hs [= <- <-]. Qed.
Lemma remembers_with_index {E} f : remembers (E := E) (with_index f).
Proof. intros s s' r Hs [= <- <-]. by destruct (im_slot_runtime s) as [[ii bm] |]. Qed.
Lemma remembers_add_instance {E} k counts : remembers (E := E) (add_instance k counts).
Proof.
  intros s s' r Hs. unfold add_instance. destruct (_ =? 0); [by intros [= <- <-] |].
  destruct (im_slot_runtime s) as [[ii bm] |]; [|by intros [= <- <-]].
  destruct (InstanceIndex_add_instance _ _ _ _) as [[[ii' bm'] x] |]; [|done]. by intros [= <- <-].
Qed.
Lemma remembers_transaction {T} (body : call A ManagerError T) : remembers body -> remembers (transaction body).
Proof.
  intros Hb. apply remembers_bind; [apply remembers_map_err, remembers_round_trip |]. intros [] s s' r Hs.
  set (m := call_bind body _). assert (Hm : remembers m).
  { apply remembers_bind; [done |]. intros x. apply remembers_bind; [apply remembers_map_err, remembers_round_trip |].
    intros. apply remembers_ret. }
  destruct (m s) as [[s1 r1] |] eqn:E1; [|done]. cbn. apply Hm in E1; [|done]. by destruct r1; intros [= <- <-].
Qed.
Hint Resolve remembers_ret remembers_err remembers_round_trip remembers_query remembers_execute remembers_statement
  remembers_redis remembers_with_index remembers_add_instance : calls.

Ltac recall :=
  repeat match goal with
    | |- forall _, _ => intro
    | |- remembers (match ?x with _ => _ end) => destruct x
    | |- remembers (call_bind _ _) => apply remembers_bind
    | |- remembers (call_map_err _ _) => apply remembers_map_err
    | |- remembers (call_ignore _) => apply remembers_ignore
    | |- remembers (transaction _) => apply remembers_transaction
    | |- remembers _ => solve [eauto 2 with calls]
    end.

Lemma remembers_write_properties k pn props : remembers (write_properties_tx products k pn props).
Proof. induction props as [|[key value] props IH]; cbn [write_properties_tx]; recall. Qed.
Hint Resolve remembers_write_properties : calls.

Lemma remembers_fetch_row k : remembers (fetch_row k).
Proof. unfold fetch_row. recall. Qed.
Lemma remembers_rename k nm : remembers (rename_instance k nm).
Proof. unfold rename_instance, rename_rows. recall. Qed.
Hint Resolve remembers_fetch_row remembers_rename : calls.

(** Only a delete removes an entry: every other request leaves it as it is. *)
Lemma handle_remembers r s s' : (forall k, r <> Delete k) -> im_name_cache s !! n = Some i ->
  handle products select r s = Ret s' -> im_name_cache s' !! n = Some i.
Proof.
  intros Hr Hs.
  assert (Hk : forall T (m : call A ManagerError T), remembers m -> outcome_map fst (m s) = Ret s' -> im_name_cache s' !! n = Some i).
  { intros T m Hm. destruct (m s) as [[s1 r1] |] eqn:E; [|done]. intros [= <-]. by eapply Hm. }
  destruct r; cbn [handle]; try (by intros [= <-]); try (apply Hk).
  - unfold create_instance, check_parent, insert_rows. recall.
  - unfold update_instance, update_properties, replace_properties, sync_instance_to_redis. recall.
  - by destruct (Hr instance_id).
  - unfold upsert_single_property, product_of. recall.
  - unfold delete_single_property, product_of. recall.
  - unfold upsert_measurement_routing, check_direction. recall.
  - unfold upsert_action_routing, check_direction. recall.
  - unfold delete_measurement_routing. recall.
  - unfold delete_action_routing. recall.
  - unfold toggle_measurement_routing. recall.
  - unfold toggle_action_routing. recall.
  - unfold delete_all_routing. recall.
  - intros s1 s2 r1 H1. unfold get_instance_id. destruct (im_name_cache s1 !! instance_name) eqn:E1; [by intros [= <- <-] |].
    match goal with |- ?m s1 = _ -> _ => assert (Hm : forall s s' r, im_name_cache s !! n = Some i ->
      im_name_cache s !! instance_name = None -> m s = Ret (s', r) -> im_name_cache s' !! n = Some i) end; [|by apply Hm].
    clear -AL. intros s s' r Hs Hn. unfold call_bind, call_map_err.
    destruct (query_cases (id_by_name instance_name) s) as (l & [[-> _] | [-> _]]); cbn; [|by intros [= <- <-]].
    destruct (id_by_name instance_name (im_db s)) as [k |]; [|by intros [= <- <-]].
    destruct (decode_u16 k); intros [= <- <-]; [|done]. cbn. rewrite lookup_insert_ne; [done |]. congruence.
Qed.

Lemma handle_all_remembers rs : forall s s', Forall (fun r => forall k, r <> Delete k) rs -> im_name_cache s !! n = Some i ->
  handle_all products select rs s = Ret s' -> im_name_cache s' !! n = Some i.
Proof.
  induction rs as [|r rs IH]; intros s s' Hf Hs; cbn [handle_all]; [by intros [= <-] |].
  apply Forall_cons in Hf as [Hr Hf]. destruct (handle products select r s) as [s1 |] eqn:E; [|done]. cbn.
  apply IH; [done |]. by eapply handle_remembers.
Qed.
End NameCache.

(** * Listing and searching *)

(** [str::replace] of one character. *)
Definition replace_char (c : Z) (by_text : list Z) (s : list Z) : list Z :=
  flat_map (fun x => if x =? c then by_text else [x]) s.

(** Backslash first, then the two wildcards. *)
Definition escape_like (s : list Z) : list Z :=
  replace_char 0x5F [0x5C; 0x5F] (replace_char 0x25 [0x5C; 0x25] (replace_char 0x5C [0x5C; 0x5C] s)).

(** SQLite compares the letters A-Z without regard to case. *)
Definition ascii_lower (c : Z) : Z := if (0x41 <=? c) && (c <=? 0x5A) then c + 0x20 else c.
Definition same_char (a b : Z) : bool := ascii_lower a =? ascii_lower b.

(** [s LIKE pat ESCAPE '\']: percent stands for any text, underscore for one
    character, a backslash takes the next character as it is. *)
Fixpoint like (pat s : list Z) : bool :=
  match pat with
  | [] => match s with [] => true | _ => false end
  | c :: p =>
      if c =? 0x25 then
        (fix any (s : list Z) : bool := like p s || match s with [] => false | _ :: s => any s end) s
      else if c =? 0x5F then match s with [] => false | _ :: s => like p s end
      else if c =? 0x5C then
        match p, s with
        | e :: p, x :: s => same_char e x && like p s
        | _, _ => false
        end
      else match s with [] => false | x :: s => same_char c x && like p s end
  end.

Definition product_filter (product_name : option string) (r : InstanceRow) : bool :=
  match product_name with Some p => String.eqb (ir_product_name r) p | None => true end.

Definition id_le (a b : Z * InstanceRow) : Prop := a.1 <= b.1.
#[export] Instance id_le_dec : RelDecision id_le.
Proof. intros a b. unfold id_le. apply _. Defined.

(** The rows of a query with its ORDER BY, and one page of them: the offset is
    computed in [u32]. *)
Definition ordered_rows (keep : InstanceRow -> bool) (d : Db) : list (Z * InstanceRow) :=
  merge_sort id_le (filter (fun ir => keep ir.2 = true) (map_to_list (db_instances d))).
Definition page_offset (page page_size : Z) : Z := wrap 32 (wrap 32 (page - 1) * page_size).
Definition paginated (page page_size : Z) (rows : list (Z * InstanceRow)) : Z * list (Z * InstanceRow) :=
  (Z.min (Z.of_nat (length rows)) (2 ^ 32 - 1),
   take (Z.to_nat page_size) (drop (Z.to_nat (page_offset page page_size)) rows)).

Definition list_instances_paginated (product_name : option string) (page page_size : Z) (d : Db)
    : Z * list (Z * InstanceRow) :=
  paginated page page_size (ordered_rows (product_filter product_name) d).

Definition search_instances (keyword : list Z) (product_name : option string) (page page_size : Z) (d : Db)
    : Z * list (Z * InstanceRow) :=
  let like_pattern := [0x25] ++ escape_like keyword ++ [0x25] in
  paginated page page_size
    (ordered_rows (fun r => like like_pattern (ir_instance_name r) && product_filter product_name r) d).

(** One child list and the whole forest, in the order of the queries. *)
Definition get_children (instance_id : Z) (d : Db) : list (Z * InstanceRow) :=
  ordered_rows (fun r => bool_decide (ir_parent_id r = Some instance_id)) d.

Lemma escape_like_flat s : escape_like s =
  flat_map (fun x => if (x =? 0x25) || (x =? 0x5F) || (x =? 0x5C) then [0x5C; x] else [x]) s.
Proof.
  unfold escape_like, replace_char. induction s as [|x s IH]; [done |]. cbn.
  rewrite !flat_map_app, IH. f_equal.
  destruct (Z.eqb_spec x 0x25) as [-> | H1]; [done |]. destruct (Z.eqb_spec x 0x5F) as [-> | H2]; [done |].
  destruct (Z.eqb_spec x 0x5C) as [-> | H3]; [done |]. cbn.
  rewrite (proj2 (Z.eqb_neq x 0x25)) by done. cbn. by rewrite (proj2 (Z.eqb_neq x 0x5F)).
Qed.

Lemma like_percent p s : like (0x25 :: p) s = true <-> exists pre rest, s = pre ++ rest /\ like p rest = true.
Proof.
  cbn. induction s as [|x s IH].
  - rewrite orb_false_r. split; [by exists [], [] |]. by intros ([] & rest & E & H); cbn in E; subst.
  - rewrite orb_true_iff, IH. split.
    + intros [H | (pre & rest & -> & H)]; [by exists [], (x :: s) | by exists (x :: pre), rest].
    + intros ([|y pre] & rest & E & H); cbn in E; [subst; by left |]. injection E as <- ->. right. by exists pre, rest.
Qed.

(** The two texts differ at most in the case of ASCII letters. *)
Definition same_text : list Z -> list Z -> Prop := Forall2 (fun a b => same_char a b = true).

Lemma like_escaped kw p : forall s, like (escape_like kw ++ p) s = true <->
  exists w rest, s = w ++ rest /\ same_text kw w /\ like p rest = true.
Proof.
  rewrite escape_like_flat. induction kw as [|x kw IH]; intros s; cbn [flat_map app].
  - split; [intros H; exists [], s; by split_and!; [| constructor |] |].
    intros (w & rest & -> & Hw & H). by inversion Hw; subst.
  - set (p' := flat_map _ kw) in *.
    assert (Hstep : like ((if (x =? 0x25) || (x =? 0x5F) || (x =? 0x5C) then [0x5C; x] else [x]) ++ p' ++ p) s =
      match s with [] => false | y :: s => same_char x y && like (p' ++ p) s end).
    { destruct ((x =? 0x25) || (x =? 0x5F) || (x =? 0x5C)) eqn:E; cbn; [by destruct s |].
      apply orb_false_iff in E as [[-> ->]%orb_false_iff ->]. done. }
    rewrite <- app_assoc, Hstep. destruct s as [|y s].
    + split; [done |]. intros (w & rest & E & Hw & _). apply Forall2_length in Hw. by destruct w.
    + rewrite andb_true_iff, IH. split.
      * intros [Hy (w & rest & -> & Hw & H)]. exists (y :: w), rest. split_and!; [done | by constructor | done].
      * intros (w & rest & E & Hw & H). inversion Hw as [|? z ? w' Hz Hw' E1 E2]; subst. injection E as <- ->.
        split; [done |]. by exists w', rest.
Qed.

Lemma ordered_rows_spec keep d i r :
  (i, r) ∈ ordered_rows keep d <-> db_instances d !! i = Some r /\ keep r = true.
Proof.
  unfold ordered_rows. rewrite merge_sort_Permutation, list_elem_of_filter, elem_of_map_to_list. cbn. tauto.
Qed.

(** A search finds exactly the instances whose name contains the keyword, wildcard
    characters in it taken literally and ASCII letters without regard to case; the
    total counts them, and a first page that is large enough lists them, in the
    order of their ids. *)
Theorem search_finds_keyword keyword product_name page_size d :
  Z.of_nat (size (db_instances d)) <= page_size < 2 ^ 32 ->
  exists total rows, search_instances keyword product_name 1 page_size d = (total, rows) /\
    total = Z.of_nat (length rows) /\ StronglySorted id_le rows /\
    forall i r, (i, r) ∈ rows <-> db_instances d !! i = Some r /\ product_filter product_name r = true /\
      exists before found after, ir_instance_name r = before ++ found ++ after /\ same_text keyword found.
Proof.
  intros Hsize. unfold search_instances, paginated.
  set (keep := fun r => like ([0x25] ++ escape_like keyword ++ [0x25]) (ir_instance_name r) && product_filter product_name r).
  assert (Hlen : (length (ordered_rows keep d) <= size (db_instances d))%nat).
  { unfold ordered_rows. rewrite merge_sort_Permutation, <- length_map_to_list. apply length_filter. }
  assert (Hoff : page_offset 1 page_size = 0) by reflexivity. rewrite Hoff. change (Z.to_nat 0) with 0%nat.
  rewrite drop_0, take_ge by lia. eexists _, _. split; [done |]. split; [lia |]. split.
  - apply StronglySorted_merge_sort; [intros [] [] []; unfold id_le; cbn; lia | intros [] []; unfold id_le; cbn; lia].
  - intros i r. rewrite ordered_rows_spec. unfold keep. rewrite andb_true_iff. cbn [app]. rewrite like_percent. split.
    + intros (Hr & (pre & rest & E & (w & rest' & -> & Hw & _)%like_escaped) & Hp). split_and!; [done | done |].
      by exists pre, w, rest'.
    + intros (Hr & Hp & pre & w & post & E & Hw). split_and!; [done | | done]. exists pre, (w ++ post). split; [done |].
      apply like_escaped. exists w, post. split_and!; [done | done |]. apply like_percent.
      exists post, []. by rewrite app_nil_r.
Qed.

(** The offset of a page wraps: with pages of 100 the page 42949674 is not past the
    end but starts at the fifth instance. *)
Theorem far_page_wraps product_name d :
  (list_instances_paginated product_name 42949674 100 d).2 = take 100 (drop 4 (ordered_rows (product_filter product_name) d)).
Proof. reflexivity. Qed.

(** * Theorems *)

(** A manager over empty tables, with a slot pool of [n] slots. *)
Definition InstanceManager_new (n : nat) : InstanceManager SlotBitmap :=
  mkInstanceManager (mkDb ∅ ∅ ∅ ∅ ∅) ∅ (Some (∅, SlotBitmap_new n)) [] [].

Lemma db_empty_ok products : db_ok products (mkDb ∅ ∅ ∅ ∅ ∅).
Proof.
  split; cbn; [split | | |]; try (intros; by rewrite lookup_empty in *); try (apply map_Forall_empty).
  exists (fun _ => 0%nat). intros i r p H. by rewrite lookup_empty in H.
Qed.

Lemma manager_new_ok products n : Z.of_nat n < 2 ^ 32 -> manager_ok products (InstanceManager_new n).
Proof.
  intros Hn. destruct (SlotBitmap_new_ok n Hn) as [Hok Hfree]. split; [apply db_empty_ok |].
  by apply (pool_empty_ok (AL := slot_bitmap_allocator)).
Qed.

(** C27: the instance registry stays consistent: whatever requests are made of it,
    in whatever order, and whichever SQLite round trips fail between them, no
    request panics and afterwards instance names are valid and unique, products
    are known, every parent exists and no instance is its own ancestor, at most one
    instance is a Station, every route belongs to an existing instance under its
    current name with a direction its table allows and a channel that exists, every
    property belongs to an existing instance, and the slot pool is sound. *)
Theorem instance_registry_consistent products select n rs :
  Forall product_fits products -> Z.of_nat n < 2 ^ 32 ->
  exists s, handle_all products select rs (InstanceManager_new n) = Ret s /\
    db_ok products (im_db s) /\ slots_ok s.
Proof.
  intros Hp Hn. destruct (handle_all_ok products select Hp rs _ (manager_new_ok products n Hn)) as (s & E & H).
  by exists s.
Qed.

(** C28: deleting an instance deletes its subtree and nothing else: the search for
    the descendants ends; whichever round trips fail, every instance outside the
    subtree keeps its row (its parent included), routes, properties and slots; and
    when none fails the call succeeds exactly for an existing instance, of which,
    like of all its descendants, no row, route, property or slot block remains. *)
Theorem delete_removes_subtree products select (s : InstanceManager SlotBitmap) i :
  (forall t, select t ≡ₚ map_to_list t) -> manager_ok products s ->
  exists s' r, delete_instance select i s = Ret (s', r) /\ r <> Ok None /\
    (forall k, ~ below (im_db s) i k -> untouched k s s') /\
    (im_failures s = [] ->
       r = (if exists_instance i (im_db s) then Ok (Some tt) else Err InstanceNotFound) /\
       (exists_instance i (im_db s) = true -> forall k, below (im_db s) i k -> gone k s')).
Proof. intros Hsel Hs. by apply (delete_instance_spec products). Qed.

(** C29: the name cache is never corrected: once a name has been looked up, it keeps
    resolving to the instance it named then through every request except a delete,
    whatever the tables say by now; a renamed instance still answers to its old
    name, also after another instance was created under it. *)
Theorem stale_name_misdirects products select rs (s s' : InstanceManager SlotBitmap) n i :
  im_name_cache s !! n = Some i -> Forall (fun r => forall k, r <> Delete k) rs ->
  handle_all products select rs s = Ret s' ->
  get_instance_id n s' = Ret (s', Ok i).
Proof.
  intros Hs Hrs Hrun. unfold get_instance_id.
  by rewrite (handle_all_remembers products select n i rs s s' Hrs Hs Hrun).
Qed.

(** A measurement point that is routed again to another channel of the same type
    gets the new channel in the table, while the slot index keeps the reference to
    the old one. *)
Theorem rerouted_point_keeps_old_source (s : InstanceManager SlotBitmap) i p q row ii bm l r :
  im_failures s = [] -> db_instances (im_db s) !! i = Some row ->
  im_slot_runtime s = Some (ii, bm) -> ii !! i = Some l -> slot_ref p q = Some r ->
  PointType_is_measurement (ssr_point_type r) = true -> channel_ok (im_db s) (sr_channel_id q) = true ->
  is_Some (dil_shared_lookup l !! (ssr_point_type r, p)) ->
  exists s', upsert_measurement_routing i p q s = Ret (s', Ok tt) /\
    rr_channel_id <$> db_measurement_routing (im_db s') !! (i, p) = Some (sr_channel_id q) /\
    im_slot_runtime s' = Some (ii, bm).
Proof.
  intros Hf Hrow Hsl Hl Hr Hdir Hch [slot Hslot].
  assert (Hkey : sr_four_remote q = Some (ssr_point_type r) /\ ssr_point_id r = p).
  { unfold slot_ref in Hr. repeat (case_match; try done). by injection Hr as <-. }
  destruct Hkey as [Hfr Hp]. unfold upsert_measurement_routing. rewrite Hfr, Hr.
  unfold check_direction. rewrite Hdir.
  unfold fetch_row, call_map_err, execute, query, call_bind, call_ret, round_trip. cbn. rewrite Hf. cbn.
  rewrite Hrow. cbn. unfold upsert_measurement_row, exists_instance. cbn. rewrite Hch, Hrow. cbn.
  eexists. split; [done |]. unfold with_index. cbn. rewrite Hsl. cbn.
  rewrite lookup_insert_eq. split; [done |]. f_equal. f_equal.
  unfold InstanceIndex_add_shared_slot, with_instance. rewrite Hl. unfold DynamicInstanceLayout_add_shared_slot.
  rewrite Hp, Hslot. cbn. by rewrite insert_id.
Qed.

(** ** Witnesses *)

Definition demo_products : list Product :=
  [mkProduct "Station" "Station" [1] [] []; mkProduct "PCS" "Device" [1; 2; 3] [1; 2] [(1, "rated"%string)]].
Definition demo_name (c : Z) : name := [c; c; 49].
Definition demo_create (c : Z) (product : string) (parent : option Z) : request :=
  Create (mkCreateInstanceRequest None (demo_name c) product parent []).

Definition demo_requests : list request :=
  [demo_create 65 "Station" None; demo_create 66 "PCS" (Some 1); demo_create 67 "PCS" (Some 2); demo_create 68 "PCS" None;
   ChannelCreated 7; PutMeasurement 3 1 (mkSinglePointRoutingRequest (Some 7) (Some Telemetry) (Some 4) true);
   NextFailures [false; true]; demo_create 69 "PCS" None; NextFailures []; demo_create 70 "Station" None].

Lemma demo_fits : Forall product_fits demo_products.
Proof. repeat constructor. Qed.

(** The manager these requests leave. *)
Definition demo_after (rs : list request) (s : InstanceManager SlotBitmap) : InstanceManager SlotBitmap :=
  match handle_all demo_products map_to_list rs s with
  | Ret s => s
  | Panic => InstanceManager_new 0
  end.
Definition demo_manager : InstanceManager SlotBitmap := demo_after demo_requests (InstanceManager_new 64).

Lemma instance_registry_consistent_witness :
  exists s, handle_all demo_products map_to_list demo_requests (InstanceManager_new 64) = Ret s /\
    db_ok demo_products (im_db s) /\ slots_ok s /\ size (db_instances (im_db demo_manager)) = 4%nat.
Proof.
  destruct (instance_registry_consistent demo_products map_to_list 64 demo_requests) as (s & E & H1 & H2);
    [apply demo_fits | done |].
  exists s. split_and!; [exact E | exact H1 | exact H2 |]. vm_compute. reflexivity.
Defined.

Lemma demo_manager_ok : manager_ok demo_products demo_manager.
Proof.
  destruct (handle_all_ok demo_products map_to_list demo_fits demo_requests _ (manager_new_ok demo_products 64 eq_refl))
    as (s & E & Hs). unfold demo_manager, demo_after. by rewrite E.
Qed.

Lemma demo_parent k : bool_decide ((ir_parent_id <$> db_instances (im_db demo_manager) !! k) = Some (Some 2)) = true ->
  below (im_db demo_manager) 2 k.
Proof. intros H%bool_decide_eq_true. apply fmap_Some in H as (r & H1 & H2). by eapply below_child; [| |constructor]. Qed.

Lemma demo_root k : k <> 2 -> bool_decide ((ir_parent_id <$> db_instances (im_db demo_manager) !! k) = Some None) = true ->
  ~ below (im_db demo_manager) 2 k.
Proof.
  intros Hk H%bool_decide_eq_true Hb. apply fmap_Some in H as (r & H1 & H2).
  inversion Hb as [|k' r' p' Hk' Hp' _]; congruence.
Qed.

Lemma delete_removes_subtree_witness : exists s' : InstanceManager SlotBitmap,
  delete_instance map_to_list 2 demo_manager = Ret (s', Ok (Some tt)) /\ gone 3 s' /\ untouched 4 demo_manager s'.
Proof.
  destruct (delete_removes_subtree demo_products map_to_list demo_manager 2) as (s' & r & Hrun & _ & Hout & Hin);
    [reflexivity | apply demo_manager_ok |].
  assert (Hf : im_failures demo_manager = []) by (vm_compute; reflexivity).
  assert (Hx : exists_instance 2 (im_db demo_manager) = true) by (vm_compute; reflexivity).
  destruct (Hin Hf) as [Hr Hgone]. rewrite Hx in Hr. subst r. exists s'. split; [exact Hrun |]. split.
  - apply (Hgone Hx), demo_parent. vm_compute. reflexivity.
  - apply Hout, demo_root; [discriminate | vm_compute; reflexivity].
Defined.

(** The renamed instance 1 is found under the name that instance 2 has now. *)
Definition demo_rename : list request :=
  [Update 1 (mkUpdateInstanceDto (Some (demo_name 66)) None); demo_create 65 "PCS" None].
Definition demo_cached : InstanceManager SlotBitmap :=
  demo_after [demo_create 65 "PCS" None; LookupName (demo_name 65)] (InstanceManager_new 64).

Lemma stale_name_misdirects_witness :
  id_by_name (demo_name 65) (im_db demo_cached) = Some 1 /\
  id_by_name (demo_name 65) (im_db (demo_after demo_rename demo_cached)) = Some 2 /\
  get_instance_id (demo_name 65) (demo_after demo_rename demo_cached) = Ret (demo_after demo_rename demo_cached, Ok 1).
Proof.
  split; [vm_compute; reflexivity |]. split; [vm_compute; reflexivity |].
  apply (stale_name_misdirects demo_products map_to_list demo_rename demo_cached);
    [vm_compute; reflexivity | repeat constructor; discriminate | vm_compute; reflexivity].
Defined.
