(* ===== verification/Alarm.v ===== *)
(** The alarm service: [services/alarmsrv/src/models.rs] (rules, alerts, events and the
    evaluation of a rule), [db.rs] (the three tables), [monitor.rs] (the monitoring
    engine), the rule handlers of [routes.rs] and the messages of [broadcast.rs].

    A table is a finite map from its row id, with the counter of AUTOINCREMENT; a SQL
    statement or transaction is one step on the database, and what can run between two
    of them is interleaving.  The checks of one cycle run concurrently, one task per
    rule, against the rule rows read at the start of the cycle, and handlers run at any
    time: see AlarmMonitor.  The tables of other services that names are looked up in are
    an argument, parsing and printing of [f64] are parameters.  [LIMIT 1] without an
    order takes some matching row. *)
From stdpp Require Import base numbers list gmap strings.
From Stdlib Require Import ZArith Lia.
From S2P Require Import Prelude PointTypes Routing Rtdb.
Local Open Scope Z_scope.
Set Warnings "-clear-no-such-hyp".

(** * Rows *)

Record AlertRule := mkAlertRule {
  ar_id : Z;
  ar_service_type : string;
  ar_channel_id : Z;
  ar_data_type : string;
  ar_point_id : Z;
  ar_rule_name : string;
  ar_warning_level : Z;
  ar_operator : string;
  ar_value : Z;
  ar_enabled : bool;
  ar_description : option string;
  ar_created_at : Z;
  ar_updated_at : Z;
}.

(** 1e-6. *)
Definition f64_micro : Z := 0x3EB0C6F7A0B5ED8D.

Definition AlertRule_evaluate (r : AlertRule) (current_value : Z) : bool :=
  let op := ar_operator r in
  if String.eqb op ">" then f64_ltb (ar_value r) current_value
  else if String.eqb op "<" then f64_ltb current_value (ar_value r)
  else if String.eqb op ">=" then f64_leb (ar_value r) current_value
  else if String.eqb op "<=" then f64_leb current_value (ar_value r)
  else if String.eqb op "==" then f64_ltb (f64_abs (f64_sub current_value (ar_value r))) f64_micro
  else if String.eqb op "!=" then f64_leb f64_micro (f64_abs (f64_sub current_value (ar_value r)))
  else false.

Definition CHANNEL_ONLINE_DATA_TYPE : string := "online".
Definition is_online_shape (service_type data_type : string) : bool :=
  String.eqb service_type "comsrv" && String.eqb data_type CHANNEL_ONLINE_DATA_TYPE.
Definition AlertRule_is_channel_online_rule (r : AlertRule) : bool := is_online_shape (ar_service_type r) (ar_data_type r).
Definition AlertRule_redis_key (r : AlertRule) : string :=
  if AlertRule_is_channel_online_rule r then "comsrv:online"
  else (ar_service_type r +:+ ":" +:+ print_i64 (ar_channel_id r) +:+ ":" +:+ ar_data_type r)%string.
Definition AlertRule_redis_field (r : AlertRule) : string :=
  if AlertRule_is_channel_online_rule r then print_i64 (ar_channel_id r) else print_i64 (ar_point_id r).

Record DeviceNames := mkDeviceNames { dn_device_name : option string; dn_point_name : option string; dn_unit : option string }.

(** The JSON object of [AlertRule::snapshot]. *)
Record RuleSnapshot := mkRuleSnapshot {
  sn_rule_name : string; sn_warning_level : Z; sn_operator : string; sn_value : Z; sn_description : option string; sn_names : DeviceNames }.
Definition AlertRule_snapshot (r : AlertRule) (names : DeviceNames) : RuleSnapshot :=
  mkRuleSnapshot (ar_rule_name r) (ar_warning_level r) (ar_operator r) (ar_value r) (ar_description r) names.

Record Alert := mkAlert {
  al_id : Z;
  al_rule_id : Z;
  al_rule_snapshot : RuleSnapshot;
  al_service_type : string;
  al_channel_id : Z;
  al_data_type : string;
  al_point_id : Z;
  al_rule_name : string;
  al_warning_level : Z;
  al_operator : string;
  al_threshold_value : Z;
  al_current_value : Z;
  al_names : DeviceNames;
  al_status : string;
  al_triggered_at : Z;
}.
Record AlertEvent := mkAlertEvent {
  ev_id : Z;
  ev_rule_id : Z;
  ev_rule_snapshot : RuleSnapshot;
  ev_service_type : string;
  ev_channel_id : Z;
  ev_data_type : string;
  ev_point_id : Z;
  ev_rule_name : string;
  ev_warning_level : Z;
  ev_operator : string;
  ev_threshold_value : Z;
  ev_names : DeviceNames;
  ev_trigger_value : option Z;
  ev_recovery_value : option Z;
  ev_event_type : string;
  ev_triggered_at : option Z;
  ev_recovered_at : option Z;
  ev_duration : option Z;
}.

(** * The database: [db.rs] *)

Record AlarmDb := mkAlarmDb {
  db_rules : gmap Z AlertRule;
  db_rule_seq : Z;
  db_alerts : gmap Z Alert;
  db_alert_seq : Z;
  db_events : list AlertEvent;
  db_event_seq : Z;
}.
Definition empty_db : AlarmDb := mkAlarmDb ∅ 0 ∅ 0 [] 0.
Definition put_rules (db : AlarmDb) (rules : gmap Z AlertRule) (seq : Z) : AlarmDb :=
  mkAlarmDb rules seq (db_alerts db) (db_alert_seq db) (db_events db) (db_event_seq db).
Definition put_alerts (db : AlarmDb) (alerts : gmap Z Alert) (seq : Z) : AlarmDb :=
  mkAlarmDb (db_rules db) (db_rule_seq db) alerts seq (db_events db) (db_event_seq db).
Definition add_event (db : AlarmDb) (e : Z -> AlertEvent) : AlarmDb :=
  let id := db_event_seq db + 1 in
  mkAlarmDb (db_rules db) (db_rule_seq db) (db_alerts db) (db_alert_seq db) (db_events db ++ [e id]) id.

Record CreateRuleRequest := mkCreateRuleRequest {
  cr_service_type : string; cr_channel_id : Z; cr_data_type : string; cr_point_id : Z; cr_rule_name : string;
  cr_warning_level : Z; cr_operator : string; cr_value : Z; cr_enabled : bool; cr_description : option string }.
Record UpdateRuleRequest := mkUpdateRuleRequest {
  ur_service_type : option string; ur_channel_id : option Z; ur_data_type : option string; ur_point_id : option Z;
  ur_rule_name : option string; ur_warning_level : option Z; ur_operator : option string; ur_value : option Z;
  ur_enabled : option bool; ur_description : option string }.
#[global] Instance UpdateRuleRequest_eq_dec : EqDecision UpdateRuleRequest.
Proof. solve_decision. Defined.

Definition insert_rule (db : AlarmDb) (q : CreateRuleRequest) (now : Z) : AlarmDb * Z :=
  let id := db_rule_seq db + 1 in
  let r := mkAlertRule id (cr_service_type q) (cr_channel_id q) (cr_data_type q) (cr_point_id q) (cr_rule_name q) (cr_warning_level q)
             (cr_operator q) (cr_value q) (cr_enabled q) (cr_description q) now now in
  (put_rules db (<[id := r]> (db_rules db)) id, id).
Definition get_rule_by_id (db : AlarmDb) (id : Z) : option AlertRule := db_rules db !! id.

(** [LOWER] of SQLite folds ASCII letters. *)
Definition same_name (a b : string) : bool := String.eqb (map_string ascii_lower a) (map_string ascii_lower b).
Definition find_rule (p : AlertRule -> bool) (db : AlarmDb) : option AlertRule :=
  head (filter (fun r => p r = true) (map snd (map_to_list (db_rules db)))).
Definition find_rule_by_name (db : AlarmDb) (name : string) : option AlertRule := find_rule (fun r => same_name (ar_rule_name r) name) db.
Definition same_point (r : AlertRule) (service_type : string) (channel_id : Z) (data_type : string) (point_id : Z) : bool :=
  String.eqb (ar_service_type r) service_type && (ar_channel_id r =? channel_id) && String.eqb (ar_data_type r) data_type && (ar_point_id r =? point_id).
Definition find_rule_by_point (db : AlarmDb) (service_type : string) (channel_id : Z) (data_type : string) (point_id : Z) (exclude_id : option Z)
    : option AlertRule :=
  find_rule (fun r => same_point r service_type channel_id data_type point_id && negb (bool_decide (exclude_id = Some (ar_id r)))) db.
Definition get_all_enabled_rules (db : AlarmDb) : gmap Z AlertRule := filter (fun kr => ar_enabled kr.2 = true) (db_rules db).

Definition patch_rule (r : AlertRule) (q : UpdateRuleRequest) (now : Z) : AlertRule :=
  mkAlertRule (ar_id r) (default (ar_service_type r) (ur_service_type q)) (default (ar_channel_id r) (ur_channel_id q))
    (default (ar_data_type r) (ur_data_type q)) (default (ar_point_id r) (ur_point_id q)) (default (ar_rule_name r) (ur_rule_name q))
    (default (ar_warning_level r) (ur_warning_level q)) (default (ar_operator r) (ur_operator q)) (default (ar_value r) (ur_value q))
    (default (ar_enabled r) (ur_enabled q)) (match ur_description q with Some d => Some d | None => ar_description r end) (ar_created_at r) now.
Definition patch_empty (q : UpdateRuleRequest) : bool :=
  bool_decide (q = mkUpdateRuleRequest None None None None None None None None None None).

(** [None]: the rows were not touched, and the callers answer "not found". *)
Definition update_rule (db : AlarmDb) (id : Z) (q : UpdateRuleRequest) (now : Z) : option AlarmDb :=
  if patch_empty q then None
  else r ← db_rules db !! id; Some (put_rules db (<[id := patch_rule r q now]> (db_rules db)) (db_rule_seq db)).
Definition set_enabled_patch (enabled : bool) : UpdateRuleRequest :=
  mkUpdateRuleRequest None None None None None None None None (Some enabled) None.
Definition set_rule_enabled (db : AlarmDb) (id : Z) (enabled : bool) (now : Z) : option AlarmDb :=
  r ← db_rules db !! id; Some (put_rules db (<[id := patch_rule r (set_enabled_patch enabled) now]> (db_rules db)) (db_rule_seq db)).

(** ** Alerts *)

(** A NaN bound to a REAL column is stored as NULL. *)
Definition sql_real (v : Z) : option Z := if f64_is_nan v then None else Some v.

Definition get_alert_by_id (db : AlarmDb) (id : Z) : option Alert := db_alerts db !! id.
Definition alerts_of (db : AlarmDb) (rule_id : Z) : list Alert :=
  filter (fun a => al_rule_id a = rule_id) (map snd (map_to_list (db_alerts db))).
Definition get_alert_by_rule_id (db : AlarmDb) (rule_id : Z) : option Alert := head (alerts_of db rule_id).

(** [None]: the foreign key of [rule_id] is violated. *)
Definition insert_alert (db : AlarmDb) (r : AlertRule) (current_value : Z) (names : DeviceNames) (now : Z) : option (AlarmDb * Z) :=
  if bool_decide (is_Some (db_rules db !! ar_id r)) then
    let id := db_alert_seq db + 1 in
    let a := mkAlert id (ar_id r) (AlertRule_snapshot r names) (ar_service_type r) (ar_channel_id r) (ar_data_type r) (ar_point_id r)
               (ar_rule_name r) (ar_warning_level r) (ar_operator r) (ar_value r) current_value names "active" now in
    Some (put_alerts db (<[id := a]> (db_alerts db)) id, id)
  else None.

Definition with_current_value (v : Z) (a : Alert) : Alert :=
  mkAlert (al_id a) (al_rule_id a) (al_rule_snapshot a) (al_service_type a) (al_channel_id a) (al_data_type a) (al_point_id a)
    (al_rule_name a) (al_warning_level a) (al_operator a) (al_threshold_value a) v (al_names a) (al_status a) (al_triggered_at a).
Definition update_alert_value (db : AlarmDb) (alert_id v : Z) : AlarmDb :=
  put_alerts db (alter (with_current_value v) alert_id (db_alerts db)) (db_alert_seq db).

Definition recovery_event (a : Alert) (recovery_value : option Z) (now id : Z) : AlertEvent :=
  mkAlertEvent id (al_rule_id a) (al_rule_snapshot a) (al_service_type a) (al_channel_id a) (al_data_type a) (al_point_id a)
    (al_rule_name a) (al_warning_level a) (al_operator a) (al_threshold_value a) (al_names a) (Some (al_current_value a)) recovery_value
    "recovery" (Some (al_triggered_at a)) (Some now) (Some (now - al_triggered_at a)).
Definition drop_alert (db : AlarmDb) (id : Z) : AlarmDb := put_alerts db (delete id (db_alerts db)) (db_alert_seq db).

(** The transaction inserts the event and deletes by id, whether the row is still there or not. *)
Definition resolve_alert (db : AlarmDb) (a : Alert) (recovery_value now : Z) : AlarmDb :=
  drop_alert (add_event db (recovery_event a (sql_real recovery_value) now)) (al_id a).
Definition resolve_one (now : Z) (db : AlarmDb) (a : Alert) : AlarmDb := drop_alert (add_event db (recovery_event a None now)) (al_id a).
Definition resolve_alerts_by_rule_id (db : AlarmDb) (rule_id now : Z) : AlarmDb * list Alert :=
  let alerts := alerts_of db rule_id in (foldl (resolve_one now) db alerts, alerts).

Inductive DeleteResult := DeleteRefused | DeleteNoRow | Deleted (resolved : list Alert).

(** One transaction; [DeleteRefused] is the foreign key of a remaining alert, and rolls it back. *)
Definition delete_rule (db : AlarmDb) (id now : Z) : AlarmDb * DeleteResult :=
  let '(db1, resolved) := resolve_alerts_by_rule_id db id now in
  match alerts_of db1 id, db_rules db1 !! id with
  | _ :: _, _ => (db, DeleteRefused)
  | [], Some _ => (put_rules db1 (delete id (db_rules db1)) (db_rule_seq db1), Deleted resolved)
  | [], None => (db1, DeleteNoRow)
  end.

(** ** Counts: [get_active_alarm_counts] issues two statements *)

Record AlarmCounts := mkAlarmCounts { ac_total : Z; ac_low : Z; ac_medium : Z; ac_high : Z }.
Definition active_alerts (db : AlarmDb) : list Alert := filter (fun a => al_status a = "active"%string) (map snd (map_to_list (db_alerts db))).
Definition count_total (db : AlarmDb) : Z := Z.of_nat (length (active_alerts db)).
Definition count_level (db : AlarmDb) (level : Z) : Z := Z.of_nat (length (filter (fun a => al_warning_level a = level) (active_alerts db))).
Definition count_rows (db : AlarmDb) (total : Z) : AlarmCounts := mkAlarmCounts total (count_level db 1) (count_level db 2) (count_level db 3).
Definition get_active_alarm_counts (db : AlarmDb) : AlarmCounts := count_rows db (count_total db).

(** ** Pagination *)

Definition MAX_PAGE_SIZE : Z := 200.
Definition wrap_i64 (z : Z) : Z := (z + 2 ^ 63) mod 2 ^ 64 - 2 ^ 63.
Definition clamp_i64 (lo hi z : Z) : Z := Z.max lo (Z.min hi z).
Definition resolve_pagination (page page_size : option Z) (skip limit : Z) : Z * Z * Z * Z :=
  match page with
  | Some p =>
      let p := Z.max p 1 in
      let ps := clamp_i64 1 MAX_PAGE_SIZE (default limit page_size) in
      (ps, wrap_i64 ((p - 1) * ps), p, ps)
  | None =>
      let ps := clamp_i64 1 MAX_PAGE_SIZE (default limit page_size) in
      let offset := Z.max skip 0 in
      (ps, offset, if 0 <? ps then offset ÷ ps + 1 else 1, ps)
  end.

(** [LIMIT ? OFFSET ?] of SQLite: a negative offset counts as none. *)
Definition limit_offset {A} (limit offset : Z) (rows : list A) : list A :=
  take (Z.to_nat limit) (drop (Z.to_nat offset) rows).

(** * Names: [device_names.rs] *)

Record PointDef := mkPointDef { pd_id : Z; pd_name : string; pd_unit : string }.
Record Product := mkProduct { pr_measurements : list PointDef; pr_actions : list PointDef }.
Record NameTables := mkNameTables {
  nt_instances : gmap Z (string * string);
  nt_channels : gmap Z string;
  nt_points : gmap (string * Z * Z) (string * option string);
  nt_product : string -> option Product;
}.
Definition no_names : DeviceNames := mkDeviceNames None None None.
Definition nonempty_string (s : string) : option string := if String.eqb s EmptyString then None else Some s.
Definition point_table_for_data_type (data_type : string) : option string :=
  if String.eqb data_type "T" then Some "telemetry_points"%string
  else if String.eqb data_type "S" then Some "signal_points"%string
  else if String.eqb data_type "C" then Some "control_points"%string
  else if String.eqb data_type "A" then Some "adjustment_points"%string
  else None.
Definition resolve_instance (t : NameTables) (instance_id : Z) (data_type : string) (point_id : Z) : DeviceNames :=
  match nt_instances t !! instance_id with
  | None => no_names
  | Some (instance_name, product_name) =>
      let is_action := String.eqb data_type "A" || String.eqb data_type "action" in
      let point := product ← nt_product t product_name;
                   head (filter (fun p => pd_id p = point_id mod 2 ^ 32) (if is_action then pr_actions product else pr_measurements product)) in
      mkDeviceNames (Some instance_name) (pd_name <$> point) (p ← point; nonempty_string (pd_unit p))
  end.
Definition resolve_channel (t : NameTables) (channel_id : Z) (data_type : string) (point_id : Z) : DeviceNames :=
  let device_name := nt_channels t !! channel_id in
  if String.eqb data_type CHANNEL_ONLINE_DATA_TYPE then mkDeviceNames device_name None None
  else match point_table_for_data_type data_type with
       | None => mkDeviceNames device_name None None
       | Some table =>
           match nt_points t !! (table, channel_id, point_id) with
           | Some (point_name, unit) => mkDeviceNames device_name (Some point_name) (u ← unit; nonempty_string u)
           | None => mkDeviceNames device_name None None
           end
       end.
Definition resolve_for_rule (t : NameTables) (r : AlertRule) : DeviceNames :=
  if String.eqb (ar_service_type r) "inst" then resolve_instance t (ar_channel_id r) (ar_data_type r) (ar_point_id r)
  else resolve_channel t (ar_channel_id r) (ar_data_type r) (ar_point_id r).

(** * Messages: [broadcast.rs] *)

Section Messages.
Variable f64_display : Z -> string.

Definition point_label (point_name : option string) (point_id : Z) : string := default ("Point " +:+ print_i64 point_id)%string point_name.
Definition value_with_unit (v : Z) (unit : option string) : string := (f64_display v +:+ default EmptyString unit)%string.
Definition format_trigger_message (r : AlertRule) (v : Z) (n : DeviceNames) : string :=
  (point_label (dn_point_name n) (ar_point_id r) +:+ ": " +:+ value_with_unit v (dn_unit n) +:+ " " +:+ ar_operator r +:+ " " +:+
   value_with_unit (ar_value r) (dn_unit n) +:+ " (Rule: " +:+ ar_rule_name r +:+ ")")%string.
Definition format_recovery_message (r : AlertRule) (v : option Z) (reason : string) (n : DeviceNames) : string :=
  let label := point_label (dn_point_name n) (ar_point_id r) in
  match v with
  | Some v => (label +:+ ": " +:+ value_with_unit v (dn_unit n) +:+ " (No longer satisfies " +:+ ar_operator r +:+ " " +:+
               value_with_unit (ar_value r) (dn_unit n) +:+ ") (Rule: " +:+ ar_rule_name r +:+ ")")%string
  | None => (label +:+ ": - (Recovered: " +:+ reason +:+ ") (Rule: " +:+ ar_rule_name r +:+ ")")%string
  end.
End Messages.

Inductive Broadcast :=
| AlarmTriggered (alert_id : Z) (r : AlertRule) (v : Z) (n : DeviceNames)
| AlarmRecovery (alert_id : Z) (r : AlertRule) (v : option Z) (reason : string) (n : DeviceNames)
| AlarmCount (c : AlarmCounts).

(** * Guards of the rule handlers: [routes.rs] *)

Definition is_valid_operator (op : string) : bool :=
  existsb (String.eqb op) [">"; "<"; ">="; "<="; "=="; "!="]%string.
Definition validate_channel_online_shape (service_type data_type : string) (point_id : Z) : bool :=
  negb (is_online_shape service_type data_type && negb (point_id =? 0)).
Definition moves_binding (q : UpdateRuleRequest) : bool :=
  bool_decide (is_Some (ur_service_type q)) || bool_decide (is_Some (ur_channel_id q)) ||
  bool_decide (is_Some (ur_data_type q)) || bool_decide (is_Some (ur_point_id q)).

(** * Pages *)

Definition page_of {A} (rows : list A) (page_size page : Z) : list A :=
  let '(limit, offset, _, _) := resolve_pagination (Some page) (Some page_size) 0 20 in limit_offset limit offset rows.

Lemma page_of_spec {A} (rows : list A) ps i : 1 <= ps <= MAX_PAGE_SIZE -> Z.of_nat i * ps < 2 ^ 63 ->
  page_of rows ps (Z.of_nat i + 1) = take (Z.to_nat ps) (drop (i * Z.to_nat ps) rows).
Proof.
  unfold MAX_PAGE_SIZE. intros Hps Hi. unfold page_of, resolve_pagination, limit_offset, clamp_i64, MAX_PAGE_SIZE. cbn [from_option].
  replace (Z.max 1 (Z.min 200 (Datatypes.id ps))) with ps by (unfold Datatypes.id; lia).
  replace (Z.max (Z.of_nat i + 1) 1 - 1) with (Z.of_nat i) by lia. unfold wrap_i64. rewrite Z.mod_small by lia.
  do 2 f_equal. lia.
Qed.

(** The pages of a listing, read in order, are the listing: no row is shown twice and none is
    skipped, as long as the rows do not change in between. *)
Theorem pages_partition {A} (rows : list A) ps n : 1 <= ps <= MAX_PAGE_SIZE -> Z.of_nat n * ps < 2 ^ 63 ->
  concat (map (fun i => page_of rows ps (Z.of_nat i + 1)) (seq 0 n)) = take (n * Z.to_nat ps) rows.
Proof.
  intros Hps. induction n as [| n IH]; intros Hn; [done |].
  rewrite seq_S, map_app, concat_app, IH by nia. cbn [map concat]. rewrite app_nil_r. cbn [plus]. rewrite page_of_spec by nia.
  rewrite <- (take_drop (n * Z.to_nat ps) (take (S n * Z.to_nat ps) rows)), take_take, skipn_firstn_comm.
  f_equal; f_equal; lia.
Qed.
