(* ===== verification/AlarmMonitor.v ===== *)
(** The alarm service as a system of interleaved tasks: [services/alarmsrv/src/monitor.rs]
    and the handlers of [routes.rs], over the tables of Alarm.

    A task is the continuation of a check or of a handler between two awaits that
    touch the database or Redis; running one executes one SQL statement or transaction
    (or one Redis read) and leaves the rest of the work as new tasks.  An action of
    the system is a tick of the monitor, the arrival of a request, one step of any
    pending task, or a restart of the process, which loses the pending tasks and keeps
    the tables.  A tick starts only when the checks of the previous cycle have ended
    ([join_all]). *)
From stdpp Require Import base numbers list gmap strings.
From Stdlib Require Import ZArith Lia.
From S2P Require Import Prelude PointTypes Routing Rtdb Alarm.
Local Open Scope Z_scope.
Set Warnings "-clear-no-such-hyp".

(** * Tasks *)

Inductive HashRead := ReadError | ReadNone | ReadSome (s : string).

(** What a step finds outside the tables: the clock, whether the statement succeeds,
    the hashes of Redis and the tables of the other services. *)
Record StepEnv := mkStepEnv {
  env_now : Z;
  env_db_ok : bool;
  env_hash_get : string -> string -> HashRead;
  env_names : NameTables;
}.

Inductive ApiRequest :=
| ApiCreate (q : CreateRuleRequest)
| ApiUpdate (id : Z) (q : UpdateRuleRequest)
| ApiDelete (id : Z)
| ApiEnable (id : Z)
| ApiDisable (id : Z)
| ApiResolve (alert_id : Z).

Inductive Response :=
| RespOk (message : string) (id : Z)
| RespNotFound
| RespBadRequest
| RespDuplicateName (existing : AlertRule)
| RespDuplicatePoint (existing : AlertRule)
| RespServerError.

Inductive Output := OBroadcast (b : Broadcast) | OResponse (r : Response).

Inductive Task :=
| CheckRead (r : AlertRule)
| CheckLookup (r : AlertRule) (v : Z)
| CheckAct (r : AlertRule) (v : Z) (existing : option Alert)
| CheckTriggered (r : AlertRule) (v alert_id : Z)
| CountTotal (of_check : bool) (k : list Output)
| CountRows (of_check : bool) (total : Z) (k : list Output)
| CreateName (q : CreateRuleRequest)
| CreatePoint (q : CreateRuleRequest)
| CreateInsert (q : CreateRuleRequest)
| UpdateFetch (id : Z) (q : UpdateRuleRequest)
| UpdatePoint (id : Z) (q : UpdateRuleRequest) (existing : AlertRule)
| UpdateName (id : Z) (q : UpdateRuleRequest)
| UpdateApply (id : Z) (q : UpdateRuleRequest)
| RuleUpdated (id : Z) (resp : Response)
| RuleDisabled (r : AlertRule) (resp : Response)
| DeleteFetch (id : Z)
| DeleteApply (r : AlertRule) (id : Z)
| EnableApply (id : Z)
| DisableApply (id : Z)
| ResolveFetch (id : Z)
| ResolveApply (id : Z) (a : Alert)
| ResolveAnnounce (id : Z) (a : Alert).

(** The tasks [join_all] waits for. *)
Definition is_check (t : Task) : bool :=
  match t with CheckRead _ | CheckLookup _ _ | CheckAct _ _ _ | CheckTriggered _ _ _ | CountTotal true _ | CountRows true _ _ => true | _ => false end.

Definition TaskEffect : Type := AlarmDb * list Task * list Output.
Definition done_with (db : AlarmDb) (r : Response) : TaskEffect := (db, [], [OResponse r]).
Definition goto (db : AlarmDb) (t : Task) : TaskEffect := (db, [t], []).
Definition recoveries (r : AlertRule) (reason : string) (alerts : list Alert) : list Output :=
  map (fun a => OBroadcast (AlarmRecovery (al_id a) r None reason (al_names a))) alerts.

Section System.
Variable parse_f64 : string -> option Z.

(** ** One check: [check_single_rule] *)

Definition check_read (e : StepEnv) (db : AlarmDb) (r : AlertRule) : TaskEffect :=
  match env_hash_get e (AlertRule_redis_key r) (AlertRule_redis_field r) with
  | ReadSome s => match parse_f64 s with Some v => goto db (CheckLookup r v) | None => (db, [], []) end
  | ReadNone | ReadError => (db, [], [])
  end.
Definition check_lookup (e : StepEnv) (db : AlarmDb) (r : AlertRule) (v : Z) : TaskEffect :=
  if env_db_ok e then goto db (CheckAct r v (get_alert_by_rule_id db (ar_id r))) else (db, [], []).
Definition check_act (e : StepEnv) (db : AlarmDb) (r : AlertRule) (v : Z) (existing : option Alert) : TaskEffect :=
  if negb (env_db_ok e) then (db, [], [])
  else if AlertRule_evaluate r v then
    match existing with
    | Some a => (update_alert_value db (al_id a) v, [], [])
    | None =>
        match insert_alert db r v (resolve_for_rule (env_names e) r) (env_now e) with
        | Some (db', id) => goto db' (CheckTriggered r v id)
        | None => (db, [], [])
        end
    end
  else match existing with
       | Some a =>
           (resolve_alert db a v (env_now e), [CountTotal true []],
            [OBroadcast (AlarmRecovery (al_id a) r (Some v) "Condition cleared" (al_names a))])
       | None => (db, [], [])
       end.
Definition check_triggered (e : StepEnv) (db : AlarmDb) (r : AlertRule) (v alert_id : Z) : TaskEffect :=
  (db, [CountTotal true []], [OBroadcast (AlarmTriggered alert_id r v (resolve_for_rule (env_names e) r))]).

(** [send_alarm_count_broadcast]: a failed count reads as zero. *)
Definition count_total_step (e : StepEnv) (db : AlarmDb) (chk : bool) (k : list Output) : TaskEffect :=
  goto db (CountRows chk (if env_db_ok e then count_total db else 0) k).
Definition count_rows_step (e : StepEnv) (db : AlarmDb) (total : Z) (k : list Output) : TaskEffect :=
  (db, [], OBroadcast (AlarmCount (if env_db_ok e then count_rows db total else mkAlarmCounts total 0 0 0)) :: k).

(** ** Creating a rule *)

Definition create_start (db : AlarmDb) (q : CreateRuleRequest) : TaskEffect :=
  if negb (is_valid_operator (cr_operator q)) then done_with db RespBadRequest
  else if negb (validate_channel_online_shape (cr_service_type q) (cr_data_type q) (cr_point_id q)) then done_with db RespBadRequest
  else goto db (CreateName q).
Definition create_name (e : StepEnv) (db : AlarmDb) (q : CreateRuleRequest) : TaskEffect :=
  if negb (env_db_ok e) then done_with db RespServerError
  else match find_rule_by_name db (cr_rule_name q) with
       | Some existing => done_with db (RespDuplicateName existing)
       | None => goto db (CreatePoint q)
       end.
Definition create_point (e : StepEnv) (db : AlarmDb) (q : CreateRuleRequest) : TaskEffect :=
  if negb (env_db_ok e) then done_with db RespServerError
  else match find_rule_by_point db (cr_service_type q) (cr_channel_id q) (cr_data_type q) (cr_point_id q) None with
       | Some existing => done_with db (RespDuplicatePoint existing)
       | None => goto db (CreateInsert q)
       end.
Definition create_insert (e : StepEnv) (db : AlarmDb) (q : CreateRuleRequest) : TaskEffect :=
  if negb (env_db_ok e) then done_with db RespServerError
  else let '(db', id) := insert_rule db q (env_now e) in done_with db' (RespOk "created" id).

(** ** Updating a rule: [update_rule_configuration] *)

Definition operator_ok (op : option string) : bool := match op with Some op => is_valid_operator op | None => true end.

(** The name is looked up only when the patch renames. *)
Definition update_named (db : AlarmDb) (id : Z) (q : UpdateRuleRequest) : TaskEffect :=
  goto db (match ur_rule_name q with Some _ => UpdateName id q | None => UpdateApply id q end).
Definition update_start (db : AlarmDb) (id : Z) (q : UpdateRuleRequest) : TaskEffect :=
  if negb (operator_ok (ur_operator q)) then done_with db RespBadRequest
  else if moves_binding q then goto db (UpdateFetch id q)
  else update_named db id q.
Definition update_fetch (e : StepEnv) (db : AlarmDb) (id : Z) (q : UpdateRuleRequest) : TaskEffect :=
  if negb (env_db_ok e) then done_with db RespServerError
  else match get_rule_by_id db id with
       | None => done_with db RespNotFound
       | Some existing =>
           if validate_channel_online_shape (default (ar_service_type existing) (ur_service_type q))
                (default (ar_data_type existing) (ur_data_type q)) (default (ar_point_id existing) (ur_point_id q))
           then goto db (UpdatePoint id q existing) else done_with db RespBadRequest
       end.
Definition update_point (e : StepEnv) (db : AlarmDb) (id : Z) (q : UpdateRuleRequest) (existing : AlertRule) : TaskEffect :=
  if negb (env_db_ok e) then done_with db RespServerError
  else match find_rule_by_point db (default (ar_service_type existing) (ur_service_type q))
               (default (ar_channel_id existing) (ur_channel_id q)) (default (ar_data_type existing) (ur_data_type q))
               (default (ar_point_id existing) (ur_point_id q)) (Some id) with
       | Some conflict => done_with db (RespDuplicatePoint conflict)
       | None => update_named db id q
       end.
Definition update_name (e : StepEnv) (db : AlarmDb) (id : Z) (q : UpdateRuleRequest) : TaskEffect :=
  if negb (env_db_ok e) then done_with db RespServerError
  else match find_rule_by_name db (default EmptyString (ur_rule_name q)) with
       | Some existing => if ar_id existing =? id then goto db (UpdateApply id q) else done_with db (RespDuplicateName existing)
       | None => goto db (UpdateApply id q)
       end.
Definition update_apply (e : StepEnv) (db : AlarmDb) (id : Z) (q : UpdateRuleRequest) : TaskEffect :=
  if negb (env_db_ok e) then done_with db RespServerError
  else match update_rule db id q (env_now e) with
       | Some db' => goto db' (RuleUpdated id (RespOk "updated" id))
       | None => done_with db RespNotFound
       end.

(** [on_rule_updated] *)
Definition rule_updated (e : StepEnv) (db : AlarmDb) (id : Z) (resp : Response) : TaskEffect :=
  match (if env_db_ok e then get_rule_by_id db id else None) with
  | Some r => if ar_enabled r then done_with db resp else goto db (RuleDisabled r resp)
  | None => done_with db resp
  end.
Definition rule_disabled (e : StepEnv) (db : AlarmDb) (r : AlertRule) (resp : Response) : TaskEffect :=
  let '(db', resolved) := if env_db_ok e then resolve_alerts_by_rule_id db (ar_id r) (env_now e) else (db, []) in
  match resolved with
  | [] => done_with db' resp
  | _ :: _ => (db', [CountTotal false [OResponse resp]], recoveries r "Rule disabled" resolved)
  end.

(** ** Deleting, enabling and disabling *)

Definition delete_fetch (e : StepEnv) (db : AlarmDb) (id : Z) : TaskEffect :=
  if negb (env_db_ok e) then done_with db RespServerError
  else match get_rule_by_id db id with None => done_with db RespNotFound | Some r => goto db (DeleteApply r id) end.
Definition delete_apply (e : StepEnv) (db : AlarmDb) (r : AlertRule) (id : Z) : TaskEffect :=
  if negb (env_db_ok e) then done_with db RespServerError
  else let '(db', res) := delete_rule db id (env_now e) in
       match res with
       | Deleted [] => done_with db' (RespOk "deleted" id)
       | Deleted resolved => (db', [CountTotal false [OResponse (RespOk "deleted" id)]], recoveries r "Rule deleted" resolved)
       | DeleteNoRow => done_with db' RespNotFound
       | DeleteRefused => done_with db' RespServerError
       end.
Definition enable_apply (e : StepEnv) (db : AlarmDb) (id : Z) : TaskEffect :=
  if negb (env_db_ok e) then done_with db RespServerError
  else match set_rule_enabled db id true (env_now e) with
       | Some db' => done_with db' (RespOk "enabled" id) | None => done_with db RespNotFound end.
Definition disable_apply (e : StepEnv) (db : AlarmDb) (id : Z) : TaskEffect :=
  if negb (env_db_ok e) then done_with db RespServerError
  else match set_rule_enabled db id false (env_now e) with
       | Some db' => goto db' (RuleUpdated id (RespOk "disabled" id)) | None => done_with db RespNotFound end.

(** ** Resolving an alert by hand *)

Definition resolve_fetch (e : StepEnv) (db : AlarmDb) (id : Z) : TaskEffect :=
  if negb (env_db_ok e) then done_with db RespServerError
  else match get_alert_by_id db id with None => done_with db RespNotFound | Some a => goto db (ResolveApply id a) end.
Definition resolve_apply (e : StepEnv) (db : AlarmDb) (id : Z) (a : Alert) : TaskEffect :=
  if negb (env_db_ok e) then done_with db RespServerError
  else goto (resolve_alert db a (al_current_value a) (env_now e)) (ResolveAnnounce id a).
Definition resolve_announce (e : StepEnv) (db : AlarmDb) (id : Z) (a : Alert) : TaskEffect :=
  (db, [CountTotal false [OResponse (RespOk "resolved" id)]],
   match (if env_db_ok e then get_rule_by_id db (al_rule_id a) else None) with
   | Some r => [OBroadcast (AlarmRecovery id r None "Manually resolved" (al_names a))]
   | None => []
   end).

(** * The system *)

Definition run_task (e : StepEnv) (db : AlarmDb) (t : Task) : TaskEffect :=
  match t with
  | CheckRead r => check_read e db r
  | CheckLookup r v => check_lookup e db r v
  | CheckAct r v existing => check_act e db r v existing
  | CheckTriggered r v id => check_triggered e db r v id
  | CountTotal chk k => count_total_step e db chk k
  | CountRows _ total k => count_rows_step e db total k
  | CreateName q => create_name e db q
  | CreatePoint q => create_point e db q
  | CreateInsert q => create_insert e db q
  | UpdateFetch id q => update_fetch e db id q
  | UpdatePoint id q existing => update_point e db id q existing
  | UpdateName id q => update_name e db id q
  | UpdateApply id q => update_apply e db id q
  | RuleUpdated id resp => rule_updated e db id resp
  | RuleDisabled r resp => rule_disabled e db r resp
  | DeleteFetch id => delete_fetch e db id
  | DeleteApply r id => delete_apply e db r id
  | EnableApply id => enable_apply e db id
  | DisableApply id => disable_apply e db id
  | ResolveFetch id => resolve_fetch e db id
  | ResolveApply id a => resolve_apply e db id a
  | ResolveAnnounce id a => resolve_announce e db id a
  end.

Definition accept (db : AlarmDb) (q : ApiRequest) : TaskEffect :=
  match q with
  | ApiCreate q => create_start db q
  | ApiUpdate id q => update_start db id q
  | ApiDelete id => goto db (DeleteFetch id)
  | ApiEnable id => goto db (EnableApply id)
  | ApiDisable id => goto db (DisableApply id)
  | ApiResolve id => goto db (ResolveFetch id)
  end.

Record Sys := mkSys { sys_db : AlarmDb; sys_tasks : list Task; sys_out : list Output }.
Definition sys_init : Sys := mkSys empty_db [] [].

Inductive Action := Tick (db_ok : bool) | Request (q : ApiRequest) | Run (i : nat) (e : StepEnv) | Restart.

Definition cycle_tasks (db : AlarmDb) : list Task := map CheckRead (map snd (map_to_list (get_all_enabled_rules db))).

Definition step (s : Sys) (a : Action) : Sys :=
  match a with
  | Tick db_ok =>
      if negb db_ok || existsb is_check (sys_tasks s) then s
      else mkSys (sys_db s) (sys_tasks s ++ cycle_tasks (sys_db s)) (sys_out s)
  | Request q => let '(db, ts, out) := accept (sys_db s) q in mkSys db (sys_tasks s ++ ts) (sys_out s ++ out)
  | Run i e =>
      match sys_tasks s !! i with
      | Some t => let '(db, ts, out) := run_task e (sys_db s) t in mkSys db (delete i (sys_tasks s) ++ ts) (sys_out s ++ out)
      | None => s
      end
  | Restart => mkSys (sys_db s) [] (sys_out s)
  end.
Definition exec (acts : list Action) (s : Sys) : Sys := foldl step s acts.
End System.

(** * The tables under the operations *)

Lemma alerts_of_spec db rule_id a :
  a ∈ alerts_of db rule_id <-> exists k, db_alerts db !! k = Some a /\ al_rule_id a = rule_id.
Proof.
  unfold alerts_of. rewrite list_elem_of_filter, list_elem_of_fmap. split.
  - intros [H ([k b] & -> & Hin)]. exists k. by apply elem_of_map_to_list in Hin.
  - intros (k & Hk & H). split; [done |]. exists (k, a). split; [done |]. by apply elem_of_map_to_list.
Qed.

Lemma get_alert_none db rule_id :
  get_alert_by_rule_id db rule_id = None -> forall k a, db_alerts db !! k = Some a -> al_rule_id a <> rule_id.
Proof.
  unfold get_alert_by_rule_id. destruct (alerts_of db rule_id) eqn:E; [| done]. intros _ k a Hk Hr.
  assert (H : a ∈ alerts_of db rule_id) by (apply alerts_of_spec; eauto). rewrite E in H. by apply elem_of_nil in H.
Qed.

Lemma get_alert_some db rule_id a :
  get_alert_by_rule_id db rule_id = Some a -> exists k, db_alerts db !! k = Some a /\ al_rule_id a = rule_id.
Proof.
  unfold get_alert_by_rule_id. intros H. apply alerts_of_spec. destruct (alerts_of db rule_id); [done |].
  injection H as ->. left.
Qed.

Lemma resolve_fold_lookup now l : forall db,
  let db' := foldl (resolve_one now) db l in
  db_rules db' = db_rules db /\ db_rule_seq db' = db_rule_seq db /\ db_alert_seq db' = db_alert_seq db /\
  forall k, db_alerts db' !! k = if decide (k ∈ map al_id l) then None else db_alerts db !! k.
Proof.
  induction l as [| a l IH]; intros db; [done |]. cbn [foldl map].
  destruct (IH (resolve_one now db a)) as (H1 & H2 & H3 & H4). cbv zeta. rewrite H1, H2, H3.
  split_and!; [done.. |]. intros k. rewrite H4. unfold resolve_one, drop_alert. cbn.
  destruct (decide (k = al_id a)) as [-> |].
  - rewrite lookup_delete_eq. destruct (decide _); by rewrite decide_True by left.
  - rewrite lookup_delete_ne by done. destruct (decide (k ∈ _)) as [Hin | Hin].
    + by rewrite decide_True by (by right).
    + rewrite decide_False; [done |]. intros Hx. apply elem_of_cons in Hx as [|]; done.
Qed.

(** * The invariant of the tables *)

Record tables_ok (db : AlarmDb) : Prop := {
  ok_rule_id : forall k r, db_rules db !! k = Some r -> ar_id r = k /\ k <= db_rule_seq db;
  ok_alert_id : forall k a, db_alerts db !! k = Some a -> al_id a = k /\ k <= db_alert_seq db;
  ok_foreign_key : forall k a, db_alerts db !! k = Some a -> is_Some (db_rules db !! al_rule_id a);
  ok_one_alert : forall k1 k2 a1 a2, db_alerts db !! k1 = Some a1 -> db_alerts db !! k2 = Some a2 ->
    al_rule_id a1 = al_rule_id a2 -> k1 = k2;
}.

(** No alert appears: the rows of [db'] are rows of [db], up to their value. *)
Definition no_new_alert (db db' : AlarmDb) : Prop :=
  db_alert_seq db' = db_alert_seq db /\
  forall k a', db_alerts db' !! k = Some a' -> exists a, db_alerts db !! k = Some a /\ al_id a' = al_id a /\ al_rule_id a' = al_rule_id a.

Lemma tables_ok_shrink db db' :
  tables_ok db -> no_new_alert db db' ->
  (forall k r, db_rules db' !! k = Some r -> ar_id r = k /\ k <= db_rule_seq db') ->
  (forall k a, db_alerts db' !! k = Some a -> is_Some (db_rules db !! al_rule_id a) -> is_Some (db_rules db' !! al_rule_id a)) ->
  tables_ok db'.
Proof.
  intros [R A F O] [Hs Hn] HR HF. split; [done | | |].
  - intros k a' Hk. destruct (Hn _ _ Hk) as (a & Ha & -> & _). rewrite Hs. by apply A.
  - intros k a' Hk. apply (HF _ _ Hk). destruct (Hn _ _ Hk) as (a & Ha & _ & ->). by eapply F.
  - intros k1 k2 a1 a2 H1 H2 Heq. destruct (Hn _ _ H1) as (b1 & Hb1 & _ & E1), (Hn _ _ H2) as (b2 & Hb2 & _ & E2).
    eapply O; [done.. |]. congruence.
Qed.

Lemma no_new_alert_refl db db' : db_alerts db' = db_alerts db -> db_alert_seq db' = db_alert_seq db -> no_new_alert db db'.
Proof. intros H1 H2. split; [done |]. rewrite H1. eauto. Qed.

(** The operations that leave the rules alone. *)
Lemma tables_ok_alerts db db' :
  tables_ok db -> no_new_alert db db' -> db_rules db' = db_rules db -> db_rule_seq db' = db_rule_seq db -> tables_ok db'.
Proof. intros Hok Hn Hr Hs. eapply tables_ok_shrink; [done.. | |]; rewrite ?Hr, ?Hs; [apply Hok | done]. Qed.

Lemma no_new_drop db a e : no_new_alert db (drop_alert (add_event db e) a).
Proof.
  split; [done |]. intros k b. unfold drop_alert. cbn. intros H. apply lookup_delete_Some in H as [_ H]. eauto.
Qed.
Lemma no_new_update db id v : no_new_alert db (update_alert_value db id v).
Proof.
  split; [done |]. intros k b. unfold update_alert_value. cbn. intros H. destruct (decide (id = k)) as [-> |].
  - rewrite lookup_alter_eq in H. destruct (db_alerts db !! k) as [a |]; [| done]. injection H as <-. eauto.
  - rewrite lookup_alter_ne in H by done. eauto.
Qed.
Lemma no_new_resolve db id now : no_new_alert db (resolve_alerts_by_rule_id db id now).1.
Proof.
  destruct (resolve_fold_lookup now (alerts_of db id) db) as (_ & _ & Hs & Hk). split; [done |].
  intros k a. cbn. rewrite Hk. destruct (decide _); [done |]. eauto.
Qed.

Lemma resolve_rules db id now : db_rules (resolve_alerts_by_rule_id db id now).1 = db_rules db /\
  db_rule_seq (resolve_alerts_by_rule_id db id now).1 = db_rule_seq db.
Proof. by destruct (resolve_fold_lookup now (alerts_of db id) db) as (? & ? & _). Qed.

(** Resolving a rule's alerts leaves none. *)
Lemma resolve_leaves_none db id now : tables_ok db ->
  forall k a, db_alerts (resolve_alerts_by_rule_id db id now).1 !! k = Some a -> db_alerts db !! k = Some a /\ al_rule_id a <> id.
Proof.
  intros Hok k a. cbn. destruct (resolve_fold_lookup now (alerts_of db id) db) as (_ & _ & _ & ->).
  destruct (decide _) as [| Hn]; [done |]. intros Hk. split; [done |]. intros Hr. apply Hn.
  apply list_elem_of_fmap. exists a. split; [by apply (ok_alert_id _ Hok) in Hk as [-> _] |]. apply alerts_of_spec. eauto.
Qed.

Lemma alerts_of_resolved db id now : tables_ok db -> alerts_of (resolve_alerts_by_rule_id db id now).1 id = [].
Proof.
  intros Hok. apply elem_of_nil_inv. intros a Ha. apply alerts_of_spec in Ha as (k & Hk & Hr).
  by apply resolve_leaves_none in Hk as [_ H].
Qed.

Lemma one_alert_length db rule_id : tables_ok db -> (length (alerts_of db rule_id) <= 1)%nat.
Proof.
  intros Hok. destruct (alerts_of db rule_id) as [| a [| b l]] eqn:E; cbn; [lia.. |]. exfalso.
  assert (Ha : a ∈ alerts_of db rule_id) by (rewrite E; left).
  assert (Hb : b ∈ alerts_of db rule_id) by (rewrite E; right; left).
  apply alerts_of_spec in Ha as (ka & Hka & Ra), Hb as (kb & Hkb & Rb).
  assert (ka = kb) as <- by (eapply ok_one_alert; [done.. | congruence]).
  assert (a = b) as <- by congruence.
  assert (Hnd : NoDup (alerts_of db rule_id)).
  { unfold alerts_of. apply NoDup_filter, NoDup_fmap_2_strong; [| apply NoDup_map_to_list].
    intros [k x] [k' y] Hx Hy Heq. cbn in Heq. subst y. apply elem_of_map_to_list in Hx, Hy.
    apply (ok_alert_id _ Hok) in Hx as [<- _], Hy as [<- _]. done. }
  rewrite E in Hnd. apply NoDup_cons in Hnd as [Hn _]. apply Hn. left.
Qed.

(** A transaction on one rule never meets the foreign key. *)
Lemma delete_rule_spec db id now : tables_ok db ->
  delete_rule db id now =
    let '(db1, resolved) := resolve_alerts_by_rule_id db id now in
    match db_rules db !! id with
    | Some _ => (put_rules db1 (delete id (db_rules db1)) (db_rule_seq db1), Deleted resolved)
    | None => (db1, DeleteNoRow)
    end.
Proof.
  intros Hok. pose proof (alerts_of_resolved db id now Hok) as Hnil. pose proof (resolve_rules db id now) as [Hr _].
  unfold delete_rule. destruct (resolve_alerts_by_rule_id db id now) as [db1 l]. cbn in *. by rewrite Hnil, Hr.
Qed.

Lemma delete_rule_ok db id now : tables_ok db ->
  tables_ok (delete_rule db id now).1 /\ no_new_alert db (delete_rule db id now).1.
Proof.
  intros Hok. rewrite delete_rule_spec by done.
  pose proof (resolve_rules db id now) as [Hr Hs]. pose proof (resolve_leaves_none db id now Hok) as Hl.
  pose proof (no_new_resolve db id now) as Hn.
  destruct (resolve_alerts_by_rule_id db id now) as [db1 l]. cbn in Hr, Hs, Hl, Hn.
  destruct (db_rules db !! id); cbn; [| split; [by eapply tables_ok_alerts | done]].
  split; [| done]. eapply tables_ok_shrink; [done | exact Hn | |]; cbn; rewrite ?Hr, ?Hs.
  - intros k r Hk. apply lookup_delete_Some in Hk as [_ Hk]. by apply Hok.
  - intros k b Hk. apply Hl in Hk as [_ Hne]. by rewrite lookup_delete_ne.
Qed.

Lemma put_patched_ok db id r q now : tables_ok db -> db_rules db !! id = Some r ->
  tables_ok (put_rules db (<[id := patch_rule r q now]> (db_rules db)) (db_rule_seq db)).
Proof.
  intros Hok Hr. eapply tables_ok_shrink; [done | by apply no_new_alert_refl | |]; cbn.
  - intros k r' Hk. apply lookup_insert_Some in Hk as [[<- <-] | [_ Hk]]; [| by apply Hok].
    cbn. by apply Hok in Hr.
  - intros k a _ Ha. destruct (decide (id = al_rule_id a)) as [-> |]; [by rewrite lookup_insert_eq; eexists |].
    by rewrite lookup_insert_ne.
Qed.

Lemma update_rule_ok db id q now db' : tables_ok db -> update_rule db id q now = Some db' -> tables_ok db' /\ no_new_alert db db'.
Proof.
  intros Hok. unfold update_rule. destruct (patch_empty q); [done |]. destruct (db_rules db !! id) eqn:E; [| done].
  cbn. intros [= <-]. split; [by apply put_patched_ok | by apply no_new_alert_refl].
Qed.
Lemma set_rule_enabled_ok db id b now db' : tables_ok db -> set_rule_enabled db id b now = Some db' -> tables_ok db' /\ no_new_alert db db'.
Proof.
  intros Hok. unfold set_rule_enabled. destruct (db_rules db !! id) eqn:E; [| done].
  cbn. intros [= <-]. split; [by apply put_patched_ok | by apply no_new_alert_refl].
Qed.
Lemma insert_rule_ok db q now : tables_ok db -> tables_ok (insert_rule db q now).1 /\ no_new_alert db (insert_rule db q now).1.
Proof.
  intros Hok. split; [| by apply no_new_alert_refl]. eapply tables_ok_shrink; [done | by apply no_new_alert_refl | |]; cbn.
  - intros k r Hk. apply lookup_insert_Some in Hk as [[<- <-] | [_ Hk]]; [cbn; lia |]. apply Hok in Hk. lia.
  - intros k a _ [r Ha]. rewrite lookup_insert_ne; [eauto |]. apply Hok in Ha. lia.
Qed.

(** The only operation that adds an alert. *)
Lemma insert_alert_ok db r v names now db' id : tables_ok db ->
  (forall k a, db_alerts db !! k = Some a -> al_rule_id a <> ar_id r) ->
  insert_alert db r v names now = Some (db', id) ->
  tables_ok db' /\ (forall k a, db_alerts db' !! k = Some a -> db_alerts db !! k = Some a \/ al_rule_id a = ar_id r).
Proof.
  intros Hok Habs. unfold insert_alert. case_bool_decide as Hfk; [| done]. intros [= <- <-].
  destruct Hok as [R A F O]. split; [split |]; cbn; [done | | | |].
  - intros k a Hk. apply lookup_insert_Some in Hk as [[<- <-] | [_ Hk]]; [cbn; lia |]. apply A in Hk. lia.
  - intros k a Hk. apply lookup_insert_Some in Hk as [[<- <-] | [_ Hk]]; [done |]. by eapply F.
  - intros k1 k2 a1 a2 H1 H2 Heq.
    apply lookup_insert_Some in H1 as [[<- <-] | [_ H1]], H2 as [[<- <-] | [_ H2]]; cbn in Heq; [done | | |].
    + by apply Habs in H2. + by apply Habs in H1. + by eapply O.
  - intros k a Hk. apply lookup_insert_Some in Hk as [[<- <-] | [_ Hk]]; [by right | by left].
Qed.

(** * Every interleaving keeps one alert per rule *)

(** The rule a check still may act for. *)
Definition check_of (t : Task) : option Z :=
  match t with CheckRead r | CheckLookup r _ | CheckAct r _ _ => Some (ar_id r) | _ => None end.

Record sys_ok (db : AlarmDb) (ts : list Task) : Prop := {
  sys_tables : tables_ok db;
  sys_checks : NoDup (omap check_of ts);
  sys_absent : forall r v, CheckAct r v None ∈ ts -> forall k a, db_alerts db !! k = Some a -> al_rule_id a <> ar_id r;
}.

#[global] Instance sys_ok_proper db : Proper ((≡ₚ) ==> iff) (sys_ok db).
Proof.
  intros ts ts' Hp. split; intros [T N A]; (split; [done | by rewrite ?Hp in *; rewrite <- ?Hp in * |]);
    intros r v Hin; eapply A; [rewrite Hp | rewrite <- Hp]; done.
Qed.

(** What a step of a task may do to the rest of the system. *)
Definition quiet (db : AlarmDb) (t : Task) (x : TaskEffect) : Prop :=
  let '(db', ts, _) := x in
  tables_ok db' /\ no_new_alert db db' /\
  ((omap check_of ts = [] /\ forall r v, CheckAct r v None ∉ ts) \/
   (db' = db /\ omap check_of ts = omap check_of [t] /\
    forall r v, CheckAct r v None ∈ ts -> forall k a, db_alerts db !! k = Some a -> al_rule_id a <> ar_id r)).

Lemma quiet_ok db t rest x : sys_ok db (t :: rest) -> quiet db t x -> sys_ok x.1.1 (x.1.2 ++ rest).
Proof.
  destruct x as [[db' ts] out]. intros [T N A] (T' & [_ Hn] & H). cbn [fst snd]. split; [done | |].
  - rewrite omap_app. destruct H as [[-> _] | (_ & -> & _)].
    + cbn in N |- *. destruct (check_of t); [by apply NoDup_cons in N as [_ N] | done].
    + by rewrite <- omap_app.
  - intros r v Hin k a' Hk. destruct (Hn _ _ Hk) as (a & Ha & _ & ->). apply elem_of_app in Hin as [Hin | Hin].
    + destruct H as [[_ H] | (-> & _ & H)]; [by apply H in Hin | by eapply H].
    + eapply A; [by right | done].
Qed.

Definition no_checks (ts : list Task) : Prop := Forall (fun t => check_of t = None) ts.
Lemma no_checks_spec ts : no_checks ts -> omap check_of ts = [] /\ forall r v, CheckAct r v None ∉ ts.
Proof.
  intros H. split.
  - induction H as [| t ts Ht _ IH]; cbn; [done |]. by rewrite Ht.
  - intros r v Hin. apply (proj1 (Forall_forall _ _) H) in Hin. done.
Qed.

Lemma quiet_move db db' t ts out : tables_ok db' /\ no_new_alert db db' -> no_checks ts -> quiet db t (db', ts, out).
Proof. intros [H1 H2] H. split_and!; [done.. |]. left. by apply no_checks_spec. Qed.
Lemma quiet_stay db t ts out : tables_ok db -> no_checks ts -> quiet db t (db, ts, out).
Proof. intros H. apply quiet_move. split; [done | by apply no_new_alert_refl]. Qed.

Ltac no_checks_tac := repeat (apply Forall_cons; split); try apply Forall_nil; done.
Ltac quiet_step :=
  repeat match goal with
  | |- quiet _ _ (if ?b then _ else _) => destruct b eqn:?
  | |- quiet _ _ (match ?x with _ => _ end) => destruct x eqn:?
  end; unfold done_with, goto; try (apply quiet_stay; [done | no_checks_tac]).

Lemma drop_ok db a e : tables_ok db -> tables_ok (drop_alert (add_event db e) a) /\ no_new_alert db (drop_alert (add_event db e) a).
Proof. intros H. split; [| apply no_new_drop]. by eapply tables_ok_alerts; [| apply no_new_drop | |]. Qed.
Lemma resolve_by_rule_ok db id now :
  tables_ok db -> tables_ok (resolve_alerts_by_rule_id db id now).1 /\ no_new_alert db (resolve_alerts_by_rule_id db id now).1.
Proof.
  intros H. split; [| apply no_new_resolve]. destruct (resolve_rules db id now).
  by eapply tables_ok_alerts; [| apply no_new_resolve | |].
Qed.

Lemma check_lookup_quiet e db r v : tables_ok db -> quiet db (CheckLookup r v) (check_lookup e db r v).
Proof.
  intros H. unfold check_lookup. quiet_step. split_and!; [done | by apply no_new_alert_refl |]. right. split_and!; [done.. |].
  intros r' v' Hin k a Hk. apply list_elem_of_singleton in Hin as [= -> -> Hnone].
  by eapply get_alert_none.
Qed.

(** A check acts quietly, unless it inserts. *)
Lemma check_act_quiet e db r v existing : tables_ok db ->
  existing <> None \/ AlertRule_evaluate r v = false -> quiet db (CheckAct r v existing) (check_act e db r v existing).
Proof.
  intros H Hx. unfold check_act. quiet_step; try (by destruct Hx).
  - apply quiet_move; [| no_checks_tac]. split; [by eapply tables_ok_alerts; [| apply no_new_update | |] | apply no_new_update].
  - apply quiet_move; [by apply drop_ok | no_checks_tac].
Qed.

Lemma rule_disabled_quiet e db r resp : tables_ok db -> quiet db (RuleDisabled r resp) (rule_disabled e db r resp).
Proof.
  intros H. pose proof (resolve_by_rule_ok db (ar_id r) (env_now e) H) as Hr. unfold rule_disabled.
  destruct (env_db_ok e); [| by apply quiet_stay; [done | no_checks_tac]].
  destruct (resolve_alerts_by_rule_id db (ar_id r) (env_now e)) as [db' [| a l]]; apply quiet_move; try done; no_checks_tac.
Qed.
Lemma delete_apply_quiet e db r id : tables_ok db -> quiet db (DeleteApply r id) (delete_apply e db r id).
Proof.
  intros H. pose proof (delete_rule_ok db id (env_now e) H) as Hr. unfold delete_apply.
  destruct (env_db_ok e); cbn [negb]; [| by apply quiet_stay; [done | no_checks_tac]].
  destruct (delete_rule db id (env_now e)) as [db' [| | [| a l]]]; apply quiet_move; try done; no_checks_tac.
Qed.
Lemma update_named_quiet db t id q : tables_ok db -> quiet db t (update_named db id q).
Proof. intros H. unfold update_named. destruct (ur_rule_name q); apply quiet_stay; try done; no_checks_tac. Qed.

Section Reachable.
Variable parse_f64 : string -> option Z.

Definition inserts (t : Task) : bool := match t with CheckAct r v None => AlertRule_evaluate r v | _ => false end.

Lemma run_task_quiet e db t : tables_ok db -> inserts t = false -> quiet db t (run_task parse_f64 e db t).
Proof.
  intros H Hni. destruct t; cbn [run_task].
  - unfold check_read. quiet_step. split_and!; [done | by apply no_new_alert_refl |]. right. split_and!; [done.. |].
    intros r' v' Hin. by apply list_elem_of_singleton in Hin.
  - by apply check_lookup_quiet.
  - apply check_act_quiet; [done |]. destruct existing; [by left | by right].
  - by apply quiet_stay; [done | no_checks_tac].
  - by apply quiet_stay; [done | no_checks_tac].
  - by apply quiet_stay; [done | no_checks_tac].
  - unfold create_name. quiet_step.
  - unfold create_point. quiet_step.
  - unfold create_insert. quiet_step. apply quiet_move; [| no_checks_tac].
    match goal with E : insert_rule _ _ _ = _ |- _ => pose proof (insert_rule_ok db q (env_now e) H) as X; by rewrite E in X end.
  - unfold update_fetch. quiet_step.
  - unfold update_point. quiet_step. by apply update_named_quiet.
  - unfold update_name. quiet_step.
  - unfold update_apply. quiet_step. apply quiet_move; [by eapply update_rule_ok | no_checks_tac].
  - unfold rule_updated. quiet_step.
  - by apply rule_disabled_quiet.
  - unfold delete_fetch. quiet_step.
  - by apply delete_apply_quiet.
  - unfold enable_apply. quiet_step. apply quiet_move; [by eapply set_rule_enabled_ok | no_checks_tac].
  - unfold disable_apply. quiet_step. apply quiet_move; [by eapply set_rule_enabled_ok | no_checks_tac].
  - unfold resolve_fetch. quiet_step.
  - unfold resolve_apply. quiet_step. apply quiet_move; [by apply drop_ok | no_checks_tac].
  - by apply quiet_stay; [done | no_checks_tac].
Qed.

Lemma insert_step_ok e db r v rest : sys_ok db (CheckAct r v None :: rest) -> AlertRule_evaluate r v = true ->
  let x := check_act e db r v None in sys_ok x.1.1 (x.1.2 ++ rest).
Proof.
  intros [T N A] Hev. unfold check_act. rewrite Hev. cbn in N. apply NoDup_cons in N as [Hnot N].
  assert (Hrest : sys_ok db rest) by (split; [done.. |]; intros r' v' Hin; eapply A; by right).
  destruct (env_db_ok e); [| done]. cbn [negb].
  destruct (insert_alert db r v _ _) as [[db' id] |] eqn:E; [| done]. cbn.
  destruct (insert_alert_ok _ _ _ _ _ _ _ T (A r v ltac:(left)) E) as [T' Hnew].
  split; [done | done |]. intros r' v' Hin k a Hk. apply elem_of_cons in Hin as [[=] | Hin].
  destruct (Hnew _ _ Hk) as [Hold | ->]; [eapply A; [by right | done] |].
  intros Heq. apply Hnot. rewrite Heq. apply list_elem_of_omap. eexists. split; [exact Hin | done].
Qed.

Lemma run_ok e db t rest : sys_ok db (t :: rest) ->
  let x := run_task parse_f64 e db t in sys_ok x.1.1 (x.1.2 ++ rest).
Proof.
  intros H. destruct (inserts t) eqn:Hi.
  - destruct t as [| | r v [|] | | | | | | | | | | | | | | | | | | |]; try done. by apply insert_step_ok.
  - eapply quiet_ok; [done |]. by apply run_task_quiet; [apply H |].
Qed.

Lemma accept_ok db q ts : sys_ok db ts -> let x := accept db q in sys_ok x.1.1 (ts ++ x.1.2).
Proof.
  intros H. cbv zeta. rewrite (Permutation_app_comm ts).
  assert (Hd : quiet db (CountTotal false []) (accept db q)).
  { destruct H as [T _ _]. destruct q; cbn [accept]; unfold create_start, update_start; quiet_step. by apply update_named_quiet. }
  eapply quiet_ok; [| done]. destruct H as [T N A]. split; [done.. |]. intros r v Hin. apply elem_of_cons in Hin as [|]; [done |]. by eapply A.
Qed.

Lemma existsb_no_checks ts : existsb is_check ts = false -> no_checks ts.
Proof.
  intros H. apply Forall_forall. intros t Ht.
  assert (Hf : is_check t = false).
  { apply not_true_iff_false. intros Hc. apply not_true_iff_false in H. apply H, existsb_exists. exists t.
    split; [by apply list_elem_of_In | done]. }
  by destruct t.
Qed.

(** The rules of a cycle are distinct rows. *)
Lemma cycle_checks db : tables_ok db -> omap check_of (cycle_tasks db) = map fst (map_to_list (get_all_enabled_rules db)).
Proof.
  intros Hok. unfold cycle_tasks. rewrite map_map.
  assert (H : forall k r, (k, r) ∈ map_to_list (get_all_enabled_rules db) -> ar_id r = k).
  { intros k r Hin. apply elem_of_map_to_list, map_lookup_filter_Some in Hin as [Hin _]. by apply Hok. }
  induction (map_to_list _) as [| [k r] l IH]; [done |]. cbn. rewrite (H k r) by left. f_equal. apply IH.
  intros k' r' Hin. apply H. by right.
Qed.

Lemma cycle_begins_ok db ts : sys_ok db ts -> existsb is_check ts = false -> sys_ok db (ts ++ cycle_tasks db).
Proof.
  intros [T N A] Hc. apply existsb_no_checks, no_checks_spec in Hc as [Hc _]. split; [done | |].
  - rewrite omap_app, Hc, cycle_checks by done. apply NoDup_fst_map_to_list.
  - intros r v Hin. apply elem_of_app in Hin as [Hin | Hin]; [by eapply A |].
    apply list_elem_of_fmap in Hin as (? & [=] & _).
Qed.

Lemma step_ok s a : sys_ok (sys_db s) (sys_tasks s) -> let s' := step parse_f64 s a in sys_ok (sys_db s') (sys_tasks s').
Proof.
  intros H. destruct a; cbn [step].
  - destruct (negb db_ok || _) eqn:E; [done |]. apply orb_false_iff in E as [_ E]. by apply cycle_begins_ok.
  - pose proof (accept_ok (sys_db s) q (sys_tasks s) H) as Hx. by destruct (accept (sys_db s) q) as [[db ts] out].
  - destruct (sys_tasks s !! i) as [t |] eqn:Hi; [| done].
    rewrite (delete_Permutation _ _ _ Hi) in H. apply (run_ok e) in H. cbv zeta in H.
    destruct (run_task parse_f64 e (sys_db s) t) as [[db ts] out]. cbn. by rewrite Permutation_app_comm.
  - destruct H as [T N A]. split; [done | apply NoDup_nil_2 |]. intros r v Hin. by apply elem_of_nil in Hin.
Qed.

Lemma exec_ok acts : forall s, sys_ok (sys_db s) (sys_tasks s) ->
  sys_ok (sys_db (exec parse_f64 acts s)) (sys_tasks (exec parse_f64 acts s)).
Proof. induction acts as [| a acts IH]; intros s H; [done |]. apply IH. by apply step_ok. Qed.

Lemma sys_init_ok : sys_ok (sys_db sys_init) (sys_tasks sys_init).
Proof.
  split; [split; cbn; intros *; by rewrite !lookup_empty | apply NoDup_nil_2 |].
  intros r v Hin. by apply elem_of_nil in Hin.
Qed.

(** C37: whatever the interleaving of the monitor's concurrent checks with the handlers
    that create, patch, disable, delete and resolve, with failing statements and restarts,
    every alert row belongs to an existing rule, no rule has two, and the transaction that
    deletes a rule is never refused by the foreign key. *)
Theorem one_alert_per_rule acts :
  let db := sys_db (exec parse_f64 acts sys_init) in
  (forall k a, db_alerts db !! k = Some a -> al_id a = k /\ is_Some (db_rules db !! al_rule_id a)) /\
  (forall rule_id, (length (alerts_of db rule_id) <= 1)%nat) /\
  (forall id now, (delete_rule db id now).2 <> DeleteRefused).
Proof.
  destruct (exec_ok acts _ sys_init_ok) as [Hok _ _]. cbv zeta. set (db := sys_db _) in *. split_and!.
  - intros k a Hk. split; [by apply (ok_alert_id _ Hok) in Hk as [? _] | by eapply ok_foreign_key].
  - intros rule_id. by apply one_alert_length.
  - intros id now. rewrite delete_rule_spec by done. destruct (resolve_alerts_by_rule_id db id now). by destruct (db_rules db !! id).
Qed.
End Reachable.

(** * A cycle leaves the alerts of its rules as their conditions ask *)

Lemma get_alert_iff db id a : tables_ok db ->
  get_alert_by_rule_id db id = Some a <-> exists k, db_alerts db !! k = Some a /\ al_rule_id a = id.
Proof.
  intros Hok. split; [apply get_alert_some |]. intros (k & Hk & Hr).
  assert (Ha : a ∈ alerts_of db id) by (apply alerts_of_spec; eauto).
  pose proof (one_alert_length db id Hok) as Hl. unfold get_alert_by_rule_id.
  destruct (alerts_of db id) as [| b [| c l]]; cbn in *; [by apply elem_of_nil in Ha | | lia].
  apply list_elem_of_singleton in Ha. by subst.
Qed.

Lemma get_alert_ext db db' id : tables_ok db -> tables_ok db' ->
  (forall k a, al_rule_id a = id -> db_alerts db' !! k = Some a <-> db_alerts db !! k = Some a) ->
  get_alert_by_rule_id db' id = get_alert_by_rule_id db id.
Proof.
  intros H H' Hx. apply option_eq. intros a. rewrite !get_alert_iff by done.
  split; intros (k & Hk & Hr); exists k; (split; [by apply Hx | done]).
Qed.

(** What a check leaves of an alert row [old], when the reading is [v]. *)
Definition tracked (r : AlertRule) (v : Z) (old new : option Alert) : Prop :=
  if AlertRule_evaluate r v
  then exists a, new = Some a /\ al_current_value a = v /\ al_rule_id a = ar_id r /\
                 (forall b, old = Some b -> al_id a = al_id b /\ al_triggered_at a = al_triggered_at b)
  else new = None.

Definition healthy (h : string -> string -> HashRead) (a : Action) : Prop :=
  match a with Run _ e => env_db_ok e = true /\ env_hash_get e = h | _ => False end.

Section Cycle.
Variable parse_f64 : string -> option Z.
Variable h : string -> string -> HashRead.

Lemma act_frame e db r v id : tables_ok db -> id <> ar_id r ->
  let x := check_act e db r v (get_alert_by_rule_id db (ar_id r)) in tables_ok x.1.1 ->
  get_alert_by_rule_id x.1.1 id = get_alert_by_rule_id db id.
Proof.
  intros Hok Hne x Hok'. apply get_alert_ext; [done.. |]. intros k a Ha. subst x. unfold check_act.
  destruct (env_db_ok e); [| done]. cbn [negb].
  destruct (get_alert_by_rule_id db (ar_id r)) as [b |] eqn:E.
  - apply get_alert_some in E as (kb & Hb & Hrb). assert (kb = al_id b) as -> by (by apply (ok_alert_id _ Hok) in Hb as [-> _]).
    destruct (AlertRule_evaluate r v); cbn.
    + destruct (decide (al_id b = k)) as [<- | Hk]; [| by rewrite lookup_alter_ne].
      rewrite lookup_alter_eq, Hb. cbn. split; intros [= <-]; cbn in Ha; congruence.
    + destruct (decide (al_id b = k)) as [<- | Hk]; [| by rewrite lookup_delete_ne].
      rewrite lookup_delete_eq, Hb. split; [done |]. intros [= <-]. congruence.
  - destruct (AlertRule_evaluate r v); [| done]. unfold insert_alert. case_bool_decide; [| done]. cbn.
    rewrite lookup_insert_Some. split; [| intros Hk; right; split; [| done]].
    + intros [[_ <-] | [_ Hk]]; [cbn in Ha; congruence | done].
    + apply (ok_alert_id _ Hok) in Hk. lia.
Qed.

Lemma act_own e db r v : tables_ok db -> env_db_ok e = true -> is_Some (db_rules db !! ar_id r) ->
  let x := check_act e db r v (get_alert_by_rule_id db (ar_id r)) in tables_ok x.1.1 ->
  tracked r v (get_alert_by_rule_id db (ar_id r)) (get_alert_by_rule_id x.1.1 (ar_id r)).
Proof.
  intros Hok He Hfk x Hok'. unfold tracked. subst x. revert Hok'. unfold check_act. rewrite He. cbn [negb].
  destruct (get_alert_by_rule_id db (ar_id r)) as [b |] eqn:E.
  - apply get_alert_some in E as (kb & Hb & Hrb). assert (kb = al_id b) as -> by (by apply (ok_alert_id _ Hok) in Hb as [-> _]).
    destruct (AlertRule_evaluate r v); cbn; intros Hok'.
    + exists (with_current_value v b). split_and!; [| done.. | by intros ? [= <-]].
      apply get_alert_iff; [done |]. exists (al_id b). cbn. by rewrite lookup_alter_eq, Hb.
    + destruct (get_alert_by_rule_id _ _) as [a |] eqn:E; [| done]. apply get_alert_some in E as (k & Hk & Hr).
      cbn in Hk. apply lookup_delete_Some in Hk as [Hne Hk]. destruct Hne. eapply (ok_one_alert _ Hok); [done.. | congruence].
  - destruct (AlertRule_evaluate r v); [| done]. unfold insert_alert. rewrite bool_decide_true by done. cbn. intros Hok'.
    eexists. split_and!; [apply get_alert_iff; [done |]; exists (db_alert_seq db + 1); cbn; rewrite lookup_insert_eq; by split | done.. | done].
Qed.

Definition rule_reading (r : AlertRule) : option Z :=
  match h (AlertRule_redis_key r) (AlertRule_redis_field r) with ReadSome s => parse_f64 s | _ => None end.
Definition in_cycle (db0 : AlarmDb) (r : AlertRule) : Prop := db_rules db0 !! ar_id r = Some r /\ ar_enabled r = true.
Definition task_of_cycle (db0 : AlarmDb) (t : Task) : Prop :=
  match t with
  | CheckRead r => in_cycle db0 r
  | CheckLookup r v | CheckAct r v _ => in_cycle db0 r /\ rule_reading r = Some v
  | CheckTriggered _ _ _ | CountTotal true _ | CountRows true _ _ => True
  | _ => False
  end.

(** The alert of rule [id] once its check has ended. *)
Definition alert_settled (db0 db : AlarmDb) (id : Z) : Prop :=
  let old := get_alert_by_rule_id db0 id in
  let new := get_alert_by_rule_id db id in
  match db_rules db0 !! id with
  | Some r => if ar_enabled r then match rule_reading r with Some v => tracked r v old new | None => new = old end else new = old
  | None => new = old
  end.

Record cycle_inv (db0 db : AlarmDb) (ts : list Task) : Prop := {
  ci_ok : sys_ok db ts;
  ci_rules : db_rules db = db_rules db0;
  ci_tasks : Forall (task_of_cycle db0) ts;
  ci_acts : forall r v x, CheckAct r v x ∈ ts -> get_alert_by_rule_id db (ar_id r) = x;
  ci_pending : forall id, id ∈ omap check_of ts -> get_alert_by_rule_id db id = get_alert_by_rule_id db0 id;
  ci_settled : forall id, id ∉ omap check_of ts -> alert_settled db0 db id;
}.

Lemma alert_settled_ext db0 db db' id : get_alert_by_rule_id db' id = get_alert_by_rule_id db id -> alert_settled db0 db id -> alert_settled db0 db' id.
Proof. intros E. unfold alert_settled. by rewrite E. Qed.

(** One step seen from the rules it is not about, and from the one it is about. *)
Lemma cycle_step db0 db db' t ts rest :
  cycle_inv db0 db (t :: rest) -> sys_ok db' (ts ++ rest) ->
  db_rules db' = db_rules db -> Forall (task_of_cycle db0) ts ->
  (omap check_of ts = [] \/ (omap check_of ts = omap check_of [t] /\ db' = db)) ->
  (forall r v x, CheckAct r v x ∈ ts -> get_alert_by_rule_id db' (ar_id r) = x) ->
  (forall id, check_of t <> Some id -> get_alert_by_rule_id db' id = get_alert_by_rule_id db id) ->
  (forall id, check_of t = Some id -> omap check_of ts = [] -> alert_settled db0 db' id) ->
  cycle_inv db0 db' (ts ++ rest).
Proof.
  intros [O R T A P S] O' R' T' C' A' F' S'.
  assert (N : forall id, check_of t = Some id -> id ∉ omap check_of rest).
  { intros id Hid. destruct O as [_ N _]. cbn in N. rewrite Hid in N. by apply NoDup_cons in N as [N _]. }
  assert (E : forall id, id ∈ omap check_of rest -> get_alert_by_rule_id db' id = get_alert_by_rule_id db id).
  { intros id Hin. apply F'. intros Hid. by apply (N id) in Hid. }
  assert (L : forall id, id ∈ omap check_of rest -> id ∈ omap check_of (t :: rest)).
  { intros id Hin. cbn. destruct (check_of t); [by right | done]. }
  split; [done | congruence | apply Forall_app; split; [done | by apply Forall_cons in T as [_ T]] | | |].
  - intros r v x Hin. apply elem_of_app in Hin as [Hin | Hin]; [by eapply A' |].
    rewrite E; [eapply A; by right |]. apply list_elem_of_omap. by eexists.
  - intros id Hin. rewrite omap_app in Hin. apply elem_of_app in Hin as [Hin | Hin]; [| by rewrite E; [apply P, L |]].
    destruct C' as [Hc | [Hc ->]]; [rewrite Hc in Hin; by apply elem_of_nil in Hin |]. apply P. rewrite Hc in Hin. cbn in Hin |- *.
    destruct (check_of t); [| by apply elem_of_nil in Hin]. apply list_elem_of_singleton in Hin as ->. left.
  - intros id Hn. rewrite omap_app, not_elem_of_app in Hn. destruct Hn as [Hn1 Hn2].
    destruct (decide (check_of t = Some id)) as [Hid | Hid].
    + destruct C' as [Hc | [Hc _]]; [by apply S' |]. destruct Hn1. rewrite Hc. cbn. rewrite Hid. left.
    + eapply alert_settled_ext; [by apply F' |]. apply S. cbn. destruct (check_of t) as [z |]; [| done].
      apply not_elem_of_cons. split; [congruence | done].
Qed.

(** Steps that leave the tables alone and are about no rule any more. *)
Lemma cycle_idle db0 db t ts rest : cycle_inv db0 db (t :: rest) -> sys_ok db (ts ++ rest) -> check_of t = None ->
  Forall (fun t => task_of_cycle db0 t /\ check_of t = None) ts -> cycle_inv db0 db (ts ++ rest).
Proof.
  intros H O Ht Hts. assert (Hn : no_checks ts) by (eapply Forall_impl; [exact Hts | by intros ? [_ ?]]).
  apply no_checks_spec in Hn as Hn'. destruct Hn' as [Hc _].
  eapply cycle_step; [done.. | | | | |]; [| by left | | done | congruence].
  - eapply Forall_impl; [exact Hts | by intros ? [? _]].
  - intros r v x Hin. by apply (proj1 (Forall_forall _ _) Hn) in Hin.
Qed.

Lemma cycle_read e db0 db r rest : env_hash_get e = h -> cycle_inv db0 db (CheckRead r :: rest) ->
  let x := check_read parse_f64 e db r in sys_ok x.1.1 (x.1.2 ++ rest) -> cycle_inv db0 x.1.1 (x.1.2 ++ rest).
Proof.
  intros Hh H x. assert (Hx : x = (db, match rule_reading r with Some v => [CheckLookup r v] | None => [] end, [])).
  { subst x. unfold check_read, rule_reading. rewrite Hh. destruct (h _ _) as [| | raw]; [done.. |]. by destruct (parse_f64 raw). }
  rewrite Hx. cbn [fst snd]. intros O. pose proof (Forall_inv (ci_tasks _ _ _ H)) as Ht. cbn in Ht.
  eapply cycle_step; [done.. | | | | done |].
  - destruct (rule_reading r) eqn:Er; [| apply Forall_nil_2]. by apply Forall_singleton.
  - destruct (rule_reading r); [by right | by left].
  - intros r' v' y Hin. destruct (rule_reading r); [by apply list_elem_of_singleton in Hin | by apply elem_of_nil in Hin].
  - intros id [= <-] Hc. destruct Ht as [Hrow Hen]. unfold alert_settled. rewrite Hrow, Hen. destruct (rule_reading r); [done |].
    apply (ci_pending _ _ _ H). left.
Qed.

Lemma cycle_lookup e db0 db r v rest : env_db_ok e = true -> cycle_inv db0 db (CheckLookup r v :: rest) ->
  let x := check_lookup e db r v in sys_ok x.1.1 (x.1.2 ++ rest) -> cycle_inv db0 x.1.1 (x.1.2 ++ rest).
Proof.
  intros He H x. subst x. unfold check_lookup. rewrite He. cbn [goto fst snd]. intros O.
  pose proof (Forall_inv (ci_tasks _ _ _ H)) as Ht.
  eapply cycle_step; [done.. | | by right | | done | done].
  - by apply Forall_singleton.
  - intros r' v' y Hin. by apply list_elem_of_singleton in Hin as [= -> -> ->].
Qed.

Lemma check_act_shape e db r v existing : let x := check_act e db r v existing in
  db_rules x.1.1 = db_rules db /\ Forall (fun t => (forall db0, task_of_cycle db0 t) /\ check_of t = None) x.1.2.
Proof.
  unfold check_act, goto. destruct (env_db_ok e); [| by split]. destruct (AlertRule_evaluate r v), existing; cbn; try by split.
  - unfold insert_alert. case_bool_decide; cbn; [| by split]. split; [done |]. by apply Forall_singleton.
  - split; [done |]. by apply Forall_singleton.
Qed.

Lemma cycle_act e db0 db r v existing rest : env_db_ok e = true -> cycle_inv db0 db (CheckAct r v existing :: rest) ->
  let x := check_act e db r v existing in sys_ok x.1.1 (x.1.2 ++ rest) -> cycle_inv db0 x.1.1 (x.1.2 ++ rest).
Proof.
  intros He H x O. pose proof (check_act_shape e db r v existing) as [Hr Hts]. fold x in Hr, Hts.
  pose proof (Forall_inv (ci_tasks _ _ _ H)) as [[Hrow Hen] Hread].
  pose proof (sys_tables _ _ (ci_ok _ _ _ H)) as Hok. pose proof (sys_tables _ _ O) as Hok'.
  assert (Hex : existing = get_alert_by_rule_id db (ar_id r)) by (symmetry; eapply (ci_acts _ _ _ H); left).
  assert (Hn : no_checks x.1.2) by (eapply Forall_impl; [exact Hts | by intros ? [_ ?]]).
  pose proof (no_checks_spec _ Hn) as [Hc _].
  eapply cycle_step; [done.. | | by left | | |].
  - eapply Forall_impl; [exact Hts | by intros ? [? _]].
  - intros r' v' y Hin. by apply (proj1 (Forall_forall _ _) Hn) in Hin.
  - intros id Hid. subst x existing. apply act_frame; [done | by intros -> | done].
  - intros id [= <-] _. unfold alert_settled. rewrite Hrow, Hen, Hread.
    assert (Hpend : get_alert_by_rule_id db (ar_id r) = get_alert_by_rule_id db0 (ar_id r)) by (apply (ci_pending _ _ _ H); left).
    rewrite <- Hpend. subst x existing. apply act_own; [done.. | | done]. rewrite (ci_rules _ _ _ H), Hrow. by eexists.
Qed.

Lemma run_cycle e db0 db t rest : env_db_ok e = true -> env_hash_get e = h -> cycle_inv db0 db (t :: rest) ->
  let x := run_task parse_f64 e db t in cycle_inv db0 x.1.1 (x.1.2 ++ rest).
Proof.
  intros He Hh H x. pose proof (run_ok parse_f64 e db t rest (ci_ok _ _ _ H)) as O. fold x in O.
  pose proof (Forall_inv (ci_tasks _ _ _ H)) as Ht. subst x.
  destruct t; cbn in Ht; try done; cbn [run_task] in *.
  - by apply cycle_read.
  - by apply cycle_lookup.
  - by apply cycle_act.
  - by eapply cycle_idle; [done.. | apply Forall_singleton].
  - destruct of_check; [| done]. by eapply cycle_idle; [done.. | apply Forall_singleton].
  - destruct of_check; [| done]. by eapply cycle_idle; [done.. | apply Forall_nil].
Qed.

#[local] Instance cycle_inv_perm db0 db : Proper ((≡ₚ) ==> impl) (cycle_inv db0 db).
Proof.
  intros ts ts' Hp [O R T A P S]. split; [by rewrite <- Hp | done | by rewrite <- Hp | | |].
  - intros r v x. rewrite <- Hp. apply A.
  - intros id. rewrite <- Hp. apply P.
  - intros id. rewrite <- Hp. apply S.
Qed.

Lemma cycle_start db : tables_ok db -> cycle_inv db db (cycle_tasks db).
Proof.
  intros Hok.
  assert (Hrow : forall t, t ∈ cycle_tasks db -> exists r, t = CheckRead r /\ in_cycle db r).
  { intros t Hin. apply list_elem_of_fmap in Hin as (r & -> & Hin). apply list_elem_of_fmap in Hin as ([k r'] & -> & Hin).
    exists r'. split; [done |]. apply elem_of_map_to_list, map_lookup_filter_Some in Hin as [Hin Hen].
    split; [| done]. by destruct (ok_rule_id _ Hok _ _ Hin) as [-> _]. }
  split; [| done | | | done |].
  - change (cycle_tasks db) with ([] ++ cycle_tasks db). apply cycle_begins_ok; [| done]. split; [done | apply NoDup_nil_2 |].
    intros r v Hin. by apply elem_of_nil in Hin.
  - apply Forall_forall. intros t Hin. by apply Hrow in Hin as (r & -> & ?).
  - intros r v x Hin. by apply Hrow in Hin as (? & [=] & _).
  - intros id Hn. unfold alert_settled. destruct (db_rules db !! id) as [r |] eqn:Hr; [| done].
    destruct (ar_enabled r) eqn:Hen; [| done]. destruct Hn. rewrite cycle_checks by done.
    apply list_elem_of_fmap. exists (id, r). split; [done |]. by apply elem_of_map_to_list, map_lookup_filter_Some.
Qed.

Lemma exec_cycle db0 runs : forall s, Forall (healthy h) runs -> cycle_inv db0 (sys_db s) (sys_tasks s) ->
  let s' := exec parse_f64 runs s in cycle_inv db0 (sys_db s') (sys_tasks s').
Proof.
  induction runs as [| a runs IH]; intros s Hh H; [done |]. apply Forall_cons in Hh as [Ha Hh]. cbn. apply (IH _ Hh).
  destruct a as [| | i e |]; try done. destruct Ha as [He Hr]. cbn [step]. destruct (sys_tasks s !! i) as [t |] eqn:Hi; [| done].
  rewrite (delete_Permutation _ _ _ Hi) in H. apply (run_cycle e) in H; [| done..]. cbv zeta in H.
  destruct (run_task parse_f64 e (sys_db s) t) as [[db ts] out]. cbn in *. by rewrite Permutation_app_comm.
Qed.

(** C36: a cycle that no handler disturbs, over one content of Redis and with its statements
    succeeding, settles every rule, whatever the order its concurrent checks interleave in:
    an enabled rule whose reading parses has an alert afterwards exactly when its condition
    holds, with the reading as its value, and the row and trigger time of the alert it had
    before if it had one; the alerts of every other rule and the rules themselves are as they
    were. *)
Theorem cycle_tracks_conditions acts runs :
  let s := exec parse_f64 acts sys_init in
  let s' := exec parse_f64 (Tick true :: runs) s in
  sys_tasks s = [] -> Forall (healthy h) runs -> sys_tasks s' = [] ->
  db_rules (sys_db s') = db_rules (sys_db s) /\
  (forall id r v, db_rules (sys_db s) !! id = Some r -> ar_enabled r = true -> rule_reading r = Some v ->
     tracked r v (get_alert_by_rule_id (sys_db s) id) (get_alert_by_rule_id (sys_db s') id)) /\
  (forall id, (forall r v, db_rules (sys_db s) !! id = Some r -> ar_enabled r = true -> rule_reading r = Some v -> False) ->
     get_alert_by_rule_id (sys_db s') id = get_alert_by_rule_id (sys_db s) id).
Proof.
  intros s s' Hidle Hruns Hend.
  pose proof (sys_tables _ _ (exec_ok parse_f64 acts _ sys_init_ok)) as Hok. fold s in Hok.
  assert (H : cycle_inv (sys_db s) (sys_db s') (sys_tasks s')).
  { change s' with (exec parse_f64 runs (step parse_f64 s (Tick true))). apply exec_cycle; [done |]. cbn [step negb]. rewrite Hidle. apply cycle_start, Hok. }
  rewrite Hend in H. split; [apply H |]. split.
  - intros id r v Hr Hen Hv. pose proof (ci_settled _ _ _ H id (not_elem_of_nil _)) as Hs. unfold alert_settled in Hs.
    by rewrite Hr, Hen, Hv in Hs.
  - intros id Hno. pose proof (ci_settled _ _ _ H id (not_elem_of_nil _)) as Hs. unfold alert_settled in Hs.
    destruct (db_rules (sys_db s) !! id) as [r |] eqn:Hr; [| done]. destruct (ar_enabled r) eqn:Hen; [| done].
    destruct (rule_reading r) as [v |] eqn:Hv; [| done]. by destruct (Hno r v).
Qed.
End Cycle.

(** * The pending work ends *)

Definition weight (t : Task) : nat :=
  match t with
  | CountRows _ _ _ | CreateInsert _ | EnableApply _ => 1
  | CountTotal _ _ | CreatePoint _ => 2
  | CheckTriggered _ _ _ | CreateName _ | RuleDisabled _ _ | DeleteApply _ _ | ResolveAnnounce _ _ => 3
  | CheckAct _ _ _ | RuleUpdated _ _ | DeleteFetch _ | ResolveApply _ _ => 4
  | CheckLookup _ _ | UpdateApply _ _ | DisableApply _ | ResolveFetch _ => 5
  | CheckRead _ | UpdateName _ _ => 6
  | UpdatePoint _ _ _ => 7
  | UpdateFetch _ _ => 8
  end.
Definition backlog (ts : list Task) : nat := sum_list_with weight ts.

Ltac branches :=
  repeat match goal with |- context [match ?x with _ => _ end] => destruct x end; cbn; lia.

Lemma run_task_weight parse_f64 e db t : (backlog (run_task parse_f64 e db t).1.2 < weight t)%nat.
Proof.
  destruct t; cbn [run_task];
    unfold check_read, check_lookup, check_act, check_triggered, count_total_step, count_rows_step, create_name, create_point,
      create_insert, update_fetch, update_point, update_name, update_apply, update_named, rule_updated, rule_disabled, delete_fetch,
      delete_apply, enable_apply, disable_apply, resolve_fetch, resolve_apply, resolve_announce, goto, done_with; cbv zeta; branches.
Qed.

Lemma run_backlog parse_f64 s i e t : sys_tasks s !! i = Some t ->
  (backlog (sys_tasks (step parse_f64 s (Run i e))) < backlog (sys_tasks s))%nat.
Proof.
  intros Hi. cbn [step]. rewrite Hi. pose proof (run_task_weight parse_f64 e (sys_db s) t) as Hw.
  destruct (run_task parse_f64 e (sys_db s) t) as [[db ts] out]. cbn in *. unfold backlog in *.
  rewrite sum_list_with_app. apply delete_Permutation in Hi.
  assert (H : sum_list_with weight (sys_tasks s) = (weight t + sum_list_with weight (delete i (sys_tasks s)))%nat).
  { etrans; [apply (sum_list_with_Permutation_proper weight _ _ Hi) | done]. }
  lia.
Qed.

(** Every step of the schedule runs a pending task. *)
Fixpoint productive (parse_f64 : string -> option Z) (s : Sys) (acts : list Action) : Prop :=
  match acts with
  | [] => True
  | Run i e :: acts => is_Some (sys_tasks s !! i) /\ productive parse_f64 (step parse_f64 s (Run i e)) acts
  | _ :: _ => False
  end.

(** Without new requests and ticks the service comes to rest: no schedule of the pending
    checks and handlers is longer than the backlog, and running them front first for that
    many steps ends them all, whatever fails on the way. *)
Theorem pending_work_ends parse_f64 s :
  (forall acts, productive parse_f64 s acts -> (length acts <= backlog (sys_tasks s))%nat) /\
  (forall e, sys_tasks (exec parse_f64 (replicate (backlog (sys_tasks s)) (Run 0 e)) s) = []).
Proof.
  split.
  - intros acts. revert s. induction acts as [| [| | i e |] acts IH]; intros s Hp; try done; [cbn; lia |].
    destruct Hp as [[t Ht] Hp]. apply IH in Hp. pose proof (run_backlog parse_f64 s i e t Ht). cbn [length]. lia.
  - intros e. remember (backlog (sys_tasks s)) as n eqn:Hn. assert (Hle : (backlog (sys_tasks s) <= n)%nat) by lia. clear Hn.
    revert s Hle. induction n as [| n IH]; intros s Hle.
    + cbn. destruct (sys_tasks s) as [| t ts]; [done |]. cbn in Hle. destruct t; cbn in Hle; lia.
    + change (sys_tasks (exec parse_f64 (replicate n (Run 0 e)) (step parse_f64 s (Run 0 e))) = []). apply IH.
      destruct (sys_tasks s !! 0%nat) as [t |] eqn:E; [pose proof (run_backlog parse_f64 s 0 e t E); lia |].
      cbn [step]. rewrite E. destruct (sys_tasks s); [cbn; lia | done].
Qed.

(** * A handler served alone keeps names and points distinct *)

Lemma find_rule_none p db : find_rule p db = None -> forall k r, db_rules db !! k = Some r -> p r = false.
Proof.
  unfold find_rule. destruct (filter _ _) eqn:E; [| done]. intros _ k r Hk. apply not_true_iff_false. intros Hp.
  assert (H : r ∈ filter (fun r => p r = true) (map snd (map_to_list (db_rules db)))).
  { apply list_elem_of_filter. split; [done |]. apply list_elem_of_fmap. exists (k, r). split; [done |]. by apply elem_of_map_to_list. }
  rewrite E in H. by apply elem_of_nil in H.
Qed.
Lemma find_rule_some p db r : find_rule p db = Some r -> p r = true /\ exists k, db_rules db !! k = Some r.
Proof.
  unfold find_rule. intros H.
  assert (Hin : r ∈ filter (fun r => p r = true) (map snd (map_to_list (db_rules db)))).
  { destruct (filter _ _); [done |]. injection H as ->. left. }
  apply list_elem_of_filter in Hin as [Hp Hin]. apply list_elem_of_fmap in Hin as ([k r'] & -> & Hin).
  split; [done |]. exists k. by apply elem_of_map_to_list.
Qed.

Definition folded (name : string) : string := map_string ascii_lower name.
Lemma same_name_spec a b : same_name a b = true <-> folded a = folded b.
Proof. apply String.eqb_eq. Qed.

Definition binding (r : AlertRule) : string * Z * string * Z := (ar_service_type r, ar_channel_id r, ar_data_type r, ar_point_id r).
Lemma same_point_spec r s c d p : same_point r s c d p = true <-> binding r = (s, c, d, p).
Proof. unfold same_point, binding. rewrite !andb_true_iff, !String.eqb_eq, !Z.eqb_eq. naive_solver. Qed.

Definition distinct_by {B} (f : AlertRule -> B) (rules : gmap Z AlertRule) : Prop :=
  forall k1 k2 r1 r2, rules !! k1 = Some r1 -> rules !! k2 = Some r2 -> f r1 = f r2 -> k1 = k2.
Definition free_by {B} (f : AlertRule -> B) (rules : gmap Z AlertRule) (b : B) (except : option Z) : Prop :=
  forall k r, rules !! k = Some r -> f r = b -> Some k = except.

Lemma distinct_insert {B} (f : AlertRule -> B) rules k r :
  distinct_by f rules -> free_by f rules (f r) (Some k) -> distinct_by f (<[k := r]> rules).
Proof.
  intros Hd Hf k1 k2 r1 r2 H1 H2 Heq.
  apply lookup_insert_Some in H1 as [[<- <-] | [N1 H1]], H2 as [[<- <-] | [N2 H2]]; [done | | |].
  - specialize (Hf _ _ H2 (eq_sym Heq)). congruence.
  - specialize (Hf _ _ H1 Heq). congruence.
  - by eapply Hd.
Qed.
Lemma free_weaken {B} (f : AlertRule -> B) rules b k : free_by f rules b None -> free_by f rules b (Some k).
Proof. intros H k' r Hk Hr. by specialize (H _ _ Hk Hr). Qed.

Definition rule_name_key (r : AlertRule) : string := folded (ar_rule_name r).
Definition rules_distinct (db : AlarmDb) : Prop := distinct_by rule_name_key (db_rules db) /\ distinct_by binding (db_rules db).

Lemma name_free db name k : find_rule_by_name db name = None -> free_by rule_name_key (db_rules db) (folded name) k.
Proof.
  intros H k' r Hk Hr. pose proof (find_rule_none _ _ H _ _ Hk) as Hf. cbn in Hf. by rewrite (proj2 (same_name_spec _ _) Hr) in Hf.
Qed.
Lemma name_own db name id r : tables_ok db -> rules_distinct db -> find_rule_by_name db name = Some r -> ar_id r = id ->
  free_by rule_name_key (db_rules db) (folded name) (Some id).
Proof.
  intros Hok [Hd _] H Hid k r' Hk Hr. apply find_rule_some in H as [Hn (kr & Hkr)]. apply same_name_spec in Hn.
  apply (ok_rule_id _ Hok) in Hkr as Hkr'. destruct Hkr' as [Hkr' _]. f_equal. rewrite <- Hid, Hkr'.
  eapply Hd; [done.. |]. unfold rule_name_key in *. congruence.
Qed.
Lemma point_free db s c d p except : tables_ok db -> find_rule_by_point db s c d p except = None ->
  free_by binding (db_rules db) (s, c, d, p) except.
Proof.
  intros Hok H k r Hk Hr. pose proof (find_rule_none _ _ H _ _ Hk) as Hf. cbn in Hf.
  rewrite (proj2 (same_point_spec _ _ _ _ _) Hr) in Hf. cbn in Hf. apply negb_false_iff, bool_decide_eq_true in Hf.
  rewrite Hf. by apply (ok_rule_id _ Hok) in Hk as [-> _].
Qed.

(** What the pending task of a handler knows about the tables while nothing else runs. *)
Definition patched_binding (db : AlarmDb) (id : Z) (q : UpdateRuleRequest) : Prop :=
  forall r, db_rules db !! id = Some r -> free_by binding (db_rules db) (binding (patch_rule r q 0)) (Some id).
Definition patched_name (db : AlarmDb) (id : Z) (q : UpdateRuleRequest) : Prop :=
  forall r, db_rules db !! id = Some r -> free_by rule_name_key (db_rules db) (rule_name_key (patch_rule r q 0)) (Some id).
Definition handler_knows (db : AlarmDb) (t : Task) : Prop :=
  match t with
  | CreatePoint q => free_by rule_name_key (db_rules db) (folded (cr_rule_name q)) None
  | CreateInsert q =>
      free_by rule_name_key (db_rules db) (folded (cr_rule_name q)) None /\
      free_by binding (db_rules db) (cr_service_type q, cr_channel_id q, cr_data_type q, cr_point_id q) None
  | UpdatePoint id q existing => db_rules db !! id = Some existing
  | UpdateName id q => patched_binding db id q
  | UpdateApply id q => patched_binding db id q /\ patched_name db id q
  | CheckRead _ | CheckLookup _ _ | CheckAct _ _ _ | CheckTriggered _ _ _ => False
  | _ => True
  end.
Definition served (db : AlarmDb) (ts : list Task) : Prop :=
  tables_ok db /\ rules_distinct db /\ match ts with [] => True | [t] => handler_knows db t | _ => False end.

Lemma unmoved_binding db id q : rules_distinct db -> moves_binding q = false -> patched_binding db id q.
Proof.
  intros [_ Hd] Hm r Hr k r' Hk Heq. f_equal. eapply Hd; [done.. |]. rewrite Heq.
  unfold moves_binding in Hm. destruct q as [[] [] [] [] ? ? ? ? ? ?]; done.
Qed.
Lemma unmoved_name db id q : rules_distinct db -> ur_rule_name q = None -> patched_name db id q.
Proof.
  intros [Hd _] Hm r Hr k r' Hk Heq. f_equal. eapply Hd; [done.. |]. rewrite Heq. unfold rule_name_key, patch_rule. cbn. by rewrite Hm.
Qed.

Lemma named_served db id q : tables_ok db -> rules_distinct db -> patched_binding db id q ->
  let x := update_named db id q in served x.1.1 x.1.2.
Proof.
  intros Hok Hd Hb. unfold update_named. cbn. destruct (ur_rule_name q) eqn:E; (split; [done |]; split; [done |]); [done |].
  split; [done | by apply unmoved_name].
Qed.

Lemma rules_same_served db db' : db_rules db' = db_rules db -> rules_distinct db -> rules_distinct db'.
Proof. unfold rules_distinct. by intros ->. Qed.

Lemma patched_distinct db id q now r : rules_distinct db -> db_rules db !! id = Some r ->
  patched_binding db id q -> patched_name db id q ->
  rules_distinct (put_rules db (<[id := patch_rule r q now]> (db_rules db)) (db_rule_seq db)).
Proof. intros [H1 H2] Hr Hb Hn. split; (apply distinct_insert; [done |]); [by apply Hn | by apply Hb]. Qed.

Lemma enabled_distinct db id b now db' : rules_distinct db -> set_rule_enabled db id b now = Some db' -> rules_distinct db'.
Proof.
  intros Hd. unfold set_rule_enabled. destruct (db_rules db !! id) as [r |] eqn:E; [| done]. cbn. intros [= <-].
  apply patched_distinct; [done.. | by apply unmoved_binding | by apply unmoved_name].
Qed.
Lemma delete_distinct db id now : tables_ok db -> rules_distinct db -> rules_distinct (delete_rule db id now).1.
Proof.
  intros Hok [H1 H2]. rewrite delete_rule_spec by done. pose proof (resolve_rules db id now) as [Hr _].
  destruct (resolve_alerts_by_rule_id db id now) as [db1 l]. cbn in Hr.
  destruct (db_rules db !! id); cbn; [| by eapply rules_same_served].
  split; cbn; rewrite Hr; intros k1 k2 r1 r2 K1 K2; apply lookup_delete_Some in K1 as [_ K1], K2 as [_ K2]; [by apply H1 | by apply H2].
Qed.

Ltac served_step :=
  repeat match goal with
  | |- context [if ?b then _ else _] => destruct b eqn:?
  | |- context [match ?x with _ => _ end] => destruct x eqn:?
  end; unfold done_with, goto; cbn; try (by split_and!).

Section Served.
Variable parse_f64 : string -> option Z.

Lemma create_insert_served e db q : tables_ok db -> rules_distinct db -> handler_knows db (CreateInsert q) ->
  let x := create_insert e db q in rules_distinct x.1.1 /\ x.1.2 = [].
Proof.
  intros Hok [H1 H2] [Hn Hp]. unfold create_insert. destruct (env_db_ok e); [| by split]. cbn. split; [| done].
  split; (apply distinct_insert; [done |]); apply free_weaken; [exact Hn | exact Hp].
Qed.

Lemma update_point_served e db id q existing : tables_ok db -> rules_distinct db -> db_rules db !! id = Some existing ->
  let x := update_point e db id q existing in served x.1.1 x.1.2.
Proof.
  intros Hok Hd Hr. unfold update_point. destruct (env_db_ok e); [| by split_and!]. cbn [negb].
  destruct (find_rule_by_point _ _ _ _ _ _) eqn:E; [by split_and! |]. apply named_served; [done.. |].
  intros r Hr'. replace r with existing by congruence. by apply point_free.
Qed.

Lemma apply_served db id q : tables_ok db -> rules_distinct db -> patched_binding db id q -> patched_name db id q ->
  served db [UpdateApply id q].
Proof. intros H1 H2 H3 H4. split; [done |]. split; [done |]. by split. Qed.

Lemma update_name_served e db id q : tables_ok db -> rules_distinct db -> patched_binding db id q ->
  let x := update_name e db id q in served x.1.1 x.1.2.
Proof.
  intros Hok Hd Hb. unfold update_name. destruct (env_db_ok e); [| by split_and!]. cbn [negb].
  destruct (ur_rule_name q) as [name |] eqn:Eq; cbn [from_option Datatypes.id].
  - assert (Hp : free_by rule_name_key (db_rules db) (folded name) (Some id) -> patched_name db id q).
    { intros Hf r _. unfold rule_name_key, patch_rule. cbn. by rewrite Eq. }
    destruct (find_rule_by_name db name) as [r |] eqn:E.
    + destruct (ar_id r =? id) eqn:Ei; [| by split_and!]. apply Z.eqb_eq in Ei. by apply apply_served, Hp, (name_own _ _ _ r).
    + by apply apply_served, Hp, name_free.
  - assert (Hp : patched_name db id q) by (by apply unmoved_name).
    destruct (find_rule_by_name db EmptyString) as [r |]; [destruct (ar_id r =? id) |]; try (by apply apply_served); by split_and!.
Qed.

Lemma run_served e db t : served db [t] -> let x := run_task parse_f64 e db t in served x.1.1 x.1.2.
Proof.
  intros (Hok & Hd & Hk).
  assert (Hok' : tables_ok (run_task parse_f64 e db t).1.1).
  { pose proof (run_task_quiet parse_f64 e db t Hok ltac:(by destruct t)) as Hq.
    destruct (run_task parse_f64 e db t) as [[db' ts] out]. apply Hq. }
  destruct t; cbn in Hk; try done; cbn [run_task] in *; try (by split_and!).
  - unfold create_name. served_step. split_and!; [done.. |]. by apply name_free.
  - unfold create_point. served_step. split_and!; [done.. |]. split; [done | by apply point_free].
  - destruct (create_insert_served e db q Hok Hd Hk) as [H1 H2]. cbv zeta. rewrite H2. by split_and!.
  - unfold update_fetch. served_step.
  - by apply update_point_served.
  - by apply update_name_served.
  - destruct Hk as [Hb Hn]. revert Hok'. unfold update_apply. destruct (env_db_ok e); [| by intros _; split_and!]. cbn [negb].
    unfold update_rule. destruct (patch_empty q); [by intros _; split_and! |]. destruct (db_rules db !! id) eqn:E; [| by intros _; split_and!].
    cbn. intros Hok'. split_and!; [done | by apply patched_distinct | done].
  - unfold rule_updated. served_step.
  - revert Hok'. unfold rule_disabled. destruct (env_db_ok e); [| by intros _; split_and!].
    pose proof (resolve_rules db (ar_id r) (env_now e)) as [Hr _].
    destruct (resolve_alerts_by_rule_id db (ar_id r) (env_now e)) as [db' l]. cbn in Hr.
    destruct l; cbn; intros Hok'; (split_and!; [done | by eapply rules_same_served | done]).
  - unfold delete_fetch. served_step.
  - revert Hok'. unfold delete_apply. destruct (env_db_ok e); [| by intros _; split_and!]. cbn [negb].
    pose proof (delete_distinct db id (env_now e) Hok Hd) as Hd'.
    destruct (delete_rule db id (env_now e)) as [db' [| | []]]; cbn; intros; by split_and!.
  - revert Hok'. unfold enable_apply. served_step; try (by intros _; split_and!).
    intros Hok'. split_and!; [done | by eapply enabled_distinct | done].
  - revert Hok'. unfold disable_apply. served_step; try (by intros _; split_and!).
    intros Hok'. split_and!; [done | by eapply enabled_distinct | done].
  - unfold resolve_fetch. served_step.
  - revert Hok'. unfold resolve_apply. served_step; intros Hok'; by split_and!.
Qed.

Lemma accept_served db q : tables_ok db -> rules_distinct db -> let x := accept db q in served x.1.1 x.1.2.
Proof.
  intros Hok Hd. destruct q; cbn [accept]; try (by split_and!).
  - unfold create_start. served_step.
  - unfold update_start. destruct (operator_ok (ur_operator q)); [| by split_and!]. cbn [negb].
    destruct (moves_binding q) eqn:E; [by split_and! |]. by apply named_served; [| | apply unmoved_binding].
Qed.

Lemma steps_served es : forall s, served (sys_db s) (sys_tasks s) ->
  let s' := exec parse_f64 (map (Run 0) es) s in served (sys_db s') (sys_tasks s').
Proof.
  induction es as [| e es IH]; intros s H; [done |]. apply IH. cbn [step]. destruct (sys_tasks s) as [| t [| u ts]] eqn:E; cbn.
  - by rewrite E.
  - pose proof (run_served e _ _ H) as Hx. destruct (run_task parse_f64 e (sys_db s) t) as [[db ts] out]. done.
  - by destruct H as (_ & _ & []).
Qed.

Lemma check_keeps_rules e db t : is_check t = true ->
  let x := run_task parse_f64 e db t in db_rules x.1.1 = db_rules db /\ Forall (fun t => is_check t = true) x.1.2.
Proof.
  intros Hc. destruct t; try done; cbn [run_task].
  - unfold check_read. destruct (env_hash_get e _ _) as [| | raw]; [by split.. |].
    destruct (parse_f64 raw); (split; [done |]); [by apply Forall_singleton | done].
  - unfold check_lookup. destruct (env_db_ok e); (split; [done |]); [by apply Forall_singleton | done].
  - destruct (check_act_shape parse_f64 (fun _ _ => ReadNone) e db r v existing) as [H1 _]. split; [done |]. unfold check_act.
    destruct (env_db_ok e); [| done]. destruct (AlertRule_evaluate r v), existing; try done; cbn; [| by apply Forall_singleton].
    destruct (insert_alert _ _ _ _ _) as [[] |]; [by apply Forall_singleton | done].
  - by split; [| apply Forall_singleton].
  - destruct of_check; [| done]. by split; [| apply Forall_singleton].
Qed.

Lemma checks_keep_rules acts : forall s, Forall (fun a => exists i e, a = Run i e) acts ->
  Forall (fun t => is_check t = true) (sys_tasks s) -> db_rules (sys_db (exec parse_f64 acts s)) = db_rules (sys_db s).
Proof.
  induction acts as [| a acts IH]; intros s Ha Hs; [done |]. apply Forall_cons in Ha as [(i & e & ->) Ha].
  change (exec parse_f64 (Run i e :: acts) s) with (exec parse_f64 acts (step parse_f64 s (Run i e))).
  cbn [step]. destruct (sys_tasks s !! i) as [t |] eqn:Hi; [| by apply IH].
  pose proof (proj1 (Forall_lookup _ _) Hs _ _ Hi) as Hc. apply (check_keeps_rules e (sys_db s)) in Hc as [Hr Ht].
  destruct (run_task parse_f64 e (sys_db s) t) as [[db ts] out]. cbn in Hr, Ht. rewrite IH; [done.. |].
  apply Forall_app. split; [| done]. by apply Forall_delete.
Qed.

(** A history in which every handler ends before the next request or cycle begins. *)
Inductive serial : Sys -> Prop :=
| serial_init : serial sys_init
| serial_request s q es : serial s -> let s' := exec parse_f64 (Request q :: map (Run 0) es) s in sys_tasks s' = [] -> serial s'
| serial_cycle s ok runs : serial s -> Forall (fun a => exists i e, a = Run i e) runs ->
    let s' := exec parse_f64 (Tick ok :: runs) s in sys_tasks s' = [] -> serial s'.

Lemma serial_idle s : serial s -> sys_tasks s = [].
Proof. by intros []. Qed.
Lemma serial_reachable s : serial s -> exists acts, s = exec parse_f64 acts sys_init.
Proof.
  induction 1 as [| s q es _ [acts ->] s' _ | s ok runs _ [acts ->] _ s' _]; [by exists [] | |];
    (eexists (acts ++ _); unfold exec; rewrite foldl_app; done).
Qed.

(** As long as handlers do not overlap each other, the service never holds two rules with
    the same name up to case, nor two rules on the same point, however often rules are created,
    renamed, moved to another point, disabled and deleted, and whichever statements fail. *)
Theorem serial_handlers_keep_rules_distinct s : serial s ->
  (forall k1 k2 r1 r2, db_rules (sys_db s) !! k1 = Some r1 -> db_rules (sys_db s) !! k2 = Some r2 ->
     same_name (ar_rule_name r1) (ar_rule_name r2) = true -> k1 = k2) /\
  (forall k1 k2 r1 r2, db_rules (sys_db s) !! k1 = Some r1 -> db_rules (sys_db s) !! k2 = Some r2 ->
     same_point r1 (ar_service_type r2) (ar_channel_id r2) (ar_data_type r2) (ar_point_id r2) = true -> k1 = k2).
Proof.
  intros Hs. enough (rules_distinct (sys_db s)) as [H1 H2].
  { split; intros k1 k2 r1 r2 K1 K2 H; [apply same_name_spec in H; by eapply H1 | apply same_point_spec in H; by eapply H2]. }
  induction Hs as [| s q es Hs IH s' _ | s ok runs Hs IH Hr s' _].
  - split; intros k1 k2 r1 r2 K1; cbn in K1; by rewrite lookup_empty in K1.
  - destruct (serial_reachable _ Hs) as [acts Hacts]. assert (Hok : tables_ok (sys_db s)).
    { rewrite Hacts. apply (exec_ok parse_f64 acts _ sys_init_ok). }
    pose proof (accept_served (sys_db s) q Hok IH) as Ha. pose proof (serial_idle _ Hs) as Hi.
    apply (steps_served es (step parse_f64 s (Request q))). cbn [step]. rewrite Hi. by destruct (accept (sys_db s) q) as [[db ts] out].
  - eapply rules_same_served; [| done]. pose proof (serial_idle _ Hs) as Hi.
    subst s'. change (exec parse_f64 (Tick ok :: runs) s) with (exec parse_f64 runs (step parse_f64 s (Tick ok))).
    rewrite checks_keep_rules; [by cbn [step]; destruct (negb ok || _) | done |].
    cbn [step]. rewrite Hi. destruct (negb ok || _); cbn; [by rewrite Hi |].
    apply Forall_forall. intros t Hin. apply list_elem_of_fmap in Hin as (r & -> & _). done.
Qed.
End Served.

(** * Samples and races *)

Definition sample_parse (s : string) : option Z := f64_of_Z <$> parse_i64 s.
Definition alarm_hash (v key field : string) : HashRead :=
  if String.eqb key "comsrv:1001:T" && String.eqb field "5" then ReadSome v else ReadNone.
Definition no_tables : NameTables := mkNameTables ∅ ∅ ∅ (fun _ => None).
Definition alarm_env (v : string) : StepEnv := mkStepEnv 1700000000 true (alarm_hash v) no_tables.
Definition over_50 (name : string) (point : Z) : CreateRuleRequest :=
  mkCreateRuleRequest "comsrv" 1001 "T" point name 2 ">" (f64_of_Z 50) true None.
Definition runs_at (v : string) (order : list nat) : list Action := map (fun i => Run i (alarm_env v)) order.
Definition create_sample : list Action := Request (ApiCreate (over_50 "High" 5)) :: runs_at "0" [0; 0; 0]%nat.

(** The check looks the alert up, the rule is disabled and its alerts are resolved, and
    the check inserts. *)
Definition disable_race : list Action :=
  create_sample ++ Tick true :: runs_at "100" [0; 0]%nat ++ Request (ApiDisable 1) :: runs_at "100" [1; 1; 1]%nat ++ runs_at "100" [0; 0; 0; 0]%nat.

Lemma resting_system_stays parse_f64 later : Forall (fun a => match a with Tick _ | Run _ _ | Restart => True | Request _ => False end) later ->
  forall s, sys_tasks s = [] -> cycle_tasks (sys_db s) = [] -> sys_db (exec parse_f64 later s) = sys_db s.
Proof.
  induction 1 as [| a later Ha _ IH]; intros s H1 H2; [done |].
  change (sys_db (exec parse_f64 later (step parse_f64 s a)) = sys_db s).
  destruct a; cbn [step]; [| done | |]; rewrite ?H1; cbn [existsb app].
  - destruct (negb db_ok || false); [by apply IH |]. rewrite H2. by apply (IH (mkSys (sys_db s) [] (sys_out s))).
  - by apply IH.
  - by apply (IH (mkSys (sys_db s) [] (sys_out s))).
Qed.

(** Disabling a rule does not always clear its alert: when a check of the running cycle
    has looked for the alert before the handler runs and inserts after it, the handler answers
    that the rule is disabled, and the rule is left disabled with an active alert, which no
    later cycle of the monitor touches. *)
Theorem disable_race_leaves_alert :
  let s := exec sample_parse disable_race sys_init in
  sys_tasks s = [] /\ OResponse (RespOk "disabled" 1) ∈ sys_out s /\
  ar_enabled <$> db_rules (sys_db s) !! 1 = Some false /\
  al_status <$> get_alert_by_rule_id (sys_db s) 1 = Some "active"%string /\
  (forall later, Forall (fun a => match a with Tick _ | Run _ _ | Restart => True | Request _ => False end) later ->
     sys_db (exec sample_parse later s) = sys_db s).
Proof.
  set (s := exec sample_parse disable_race sys_init).
  assert (Hidle : sys_tasks s = []) by (vm_compute; reflexivity).
  assert (Hcycle : cycle_tasks (sys_db s) = []) by (vm_compute; reflexivity).
  split_and!; [done | | vm_compute; reflexivity.. |].
  - apply list_elem_of_lookup. exists 1%nat. vm_compute. reflexivity.
  - intros later Hl. clearbody s. by apply resting_system_stays.
Qed.

(** Two creations of one name whose checks overlap both succeed. *)
Definition create_race : list Action :=
  [Request (ApiCreate (over_50 "High" 5)); Request (ApiCreate (over_50 "high" 5))] ++ runs_at "0" [0; 0; 0; 0; 0; 0]%nat.
Example create_race_duplicates :
  let s := exec sample_parse create_race sys_init in
  sys_out s = [OResponse (RespOk "created" 1); OResponse (RespOk "created" 2)] /\ sys_tasks s = [].
Proof. vm_compute. split; reflexivity. Qed.

(** Witness of [cycle_tracks_conditions]: a reading of 100 raises the alert of a rule over 50. *)
Lemma cycle_tracks_conditions_witness :
  let s := exec sample_parse create_sample sys_init in
  exists a, get_alert_by_rule_id (sys_db (exec sample_parse (Tick true :: runs_at "100" [0; 0; 0; 0; 0; 0]%nat) s)) 1 = Some a /\
            al_current_value a = f64_of_Z 100.
Proof.
  destruct (cycle_tracks_conditions sample_parse (alarm_hash "100") create_sample (runs_at "100" [0; 0; 0; 0; 0; 0]%nat)) as (_ & H & _).
  - vm_compute. reflexivity.
  - repeat constructor.
  - vm_compute. reflexivity.
  - set (r := mkAlertRule 1 "comsrv" 1001 "T" 5 "High" 2 ">" (f64_of_Z 50) true None 1700000000 1700000000).
    assert (H1 := H 1 r (f64_of_Z 100) ltac:(vm_compute; reflexivity) ltac:(vm_compute; reflexivity) ltac:(vm_compute; reflexivity)).
    unfold tracked in H1. assert (Hev : AlertRule_evaluate r (f64_of_Z 100) = true) by (vm_compute; reflexivity).
    rewrite Hev in H1. destruct H1 as (a & Ha & Hv & _). exists a. split; [exact Ha | exact Hv].
Defined.

(** Witness of [serial_handlers_keep_rules_distinct]: after one creation served alone. *)
Lemma serial_handlers_keep_rules_distinct_witness :
  let s := exec sample_parse create_sample sys_init in
  serial sample_parse s /\
  (forall k1 k2 r1 r2, db_rules (sys_db s) !! k1 = Some r1 -> db_rules (sys_db s) !! k2 = Some r2 ->
     same_name (ar_rule_name r1) (ar_rule_name r2) = true -> k1 = k2).
Proof.
  assert (Hs : serial sample_parse (exec sample_parse create_sample sys_init)).
  { apply (serial_request sample_parse sys_init (ApiCreate (over_50 "High" 5)) [alarm_env "0"; alarm_env "0"; alarm_env "0"]);
      [apply serial_init | vm_compute; reflexivity]. }
  split; [exact Hs | exact (proj1 (serial_handlers_keep_rules_distinct sample_parse _ Hs))].
Defined.

(** * The rule reads the hashes the other services write *)

Lemma dec_digits_fuel f : forall g n acc, 0 <= n < 10 ^ Z.of_nat f -> n < 10 ^ Z.of_nat g -> (0 < f)%nat -> (0 < g)%nat ->
  dec_digits f n acc = dec_digits g n acc.
Proof.
  induction f as [| f IH]; intros [| g] n acc Hn Hg Hf0 Hg0; try lia. cbn [dec_digits].
  destruct (n <? 10) eqn:E; [done |]. apply Z.ltb_ge in E. rewrite Nat2Z.inj_succ, Z.pow_succ_r in Hn, Hg by lia.
  assert (Hf : (0 < f)%nat) by (destruct f; [cbn in Hn; lia | lia]). assert (Hg' : (0 < g)%nat) by (destruct g; [cbn in Hg; lia | lia]).
  apply IH; [split; [apply Z.div_pos; lia |] | | done | done]; apply Z.div_lt_upper_bound; lia.
Qed.
Lemma print_i64_u32 n : 0 <= n < 2 ^ 32 -> print_i64 n = print_u32 n.
Proof.
  intros H. unfold print_i64, print_u32. destruct (n <? 0) eqn:E; [apply Z.ltb_lt in E; lia |]. apply dec_digits_fuel; cbn; lia.
Qed.

(** A rule on a channel point of type [pt] reads exactly the hash and field that the batch
    writer of comsrv stores that point under, and a rule on an instance measurement those of
    the routed value. *)
Theorem rule_reads_published_hash r : 0 <= ar_channel_id r < 2 ^ 32 -> 0 <= ar_point_id r < 2 ^ 32 ->
  (forall pt, ar_service_type r = "comsrv"%string -> ar_data_type r = PointType_as_str pt ->
     AlertRule_redis_key r = channel_key (ar_channel_id r) pt /\ AlertRule_redis_field r = print_u32 (ar_point_id r)) /\
  (ar_service_type r = "inst"%string -> ar_data_type r = "M"%string ->
     AlertRule_redis_key r = instance_measurement_key (ar_channel_id r) /\ AlertRule_redis_field r = print_u32 (ar_point_id r)).
Proof.
  intros Hc Hp. unfold AlertRule_redis_key, AlertRule_redis_field, AlertRule_is_channel_online_rule, is_online_shape.
  split; [intros pt Hs Hd | intros Hs Hd]; rewrite Hs, Hd, !print_i64_u32 by done; [by destruct pt | done].
Qed.
